(* ===== verification/_CoqProject ===== *)
-Q . S2P
Prelude.v
ShiftBuffer.v
Endian.v
MasterPool.v
GenericPool.v
PoolInterface.v
BufferPool.v
BufferStream.v
BufferQueue.v
Chain.v
LayerSolver.v
LayerProofs.v
RateBucket.v
Checksum.v
FlowHash.v
PacketChecksum.v
PacketView.v
TransportChecksum.v
PacketValidate.v
AddressRewrite.v
FragRanges.v
FragAffinity.v
FragInvariant.v
FragOffer.v
FragLife.v
FragReassembly.v
FragPreserve.v
FragYield.v
Gate.v
ReaderSession.v
ReaderSystem.v
ReaderProofs.v
ReaderDrain.v
ReaderRuns.v
FlowAffinity.v
BatchSort.v
ReaderFrame.v
Distribution.v
ClientHello.v
HelloGrammar.v
HelloRecords.v
Sniffer.v
HostNames.v
HttpHeaders.v
TlsSniff.v
Base64.v
Base64Proofs.v
Base64Url.v
PacketStream.v
PacketFrames.v
StreamInput.v
LineRefs.v
PacketCarrier.v
CarrierInvariant.v
CarrierSteps.v
CarrierDrain.v
CarrierRuns.v
