(* ===== verification/Prelude.v ===== *)
(** * A verification of WaterWall's buffer, pool and chain core

    WaterWall is a network tunnelling core written in C.  A configuration
    assembles nodes into chains of tunnels; every connection is a line that
    runs through a chain; payloads travel between tunnels in shift buffers that
    come from worker-local pools backed by shared master pools.  This
    development models the parts everything else stands on, function by
    function, and proves what the other components rely on.

    ** Parts and files

    - [Prelude]: machine integers with explicit wrap-around, the [outcome] monad
      of the operations, byte storage with bounds-checked reads and writes,
      pointer arrays, tactics and the hint database [ww].
    - [ShiftBuffer]: [ww/bufio/shiftbuffer.h], [shiftbuffer.c].  A buffer is a
      record with the fields of [struct sbuf_s] and its storage as bytes; one
      definition per function.  The allocator is a parameter that chooses the
      initial bytes.
    - [MasterPool]: [ww/bufio/master_pool.h], [master_pool.c] and the size checks
      of [ww/libc/wmem.h] and [ww/managers/memory_manager.c].  The unlocked
      length a caller probes before taking the lock is an argument of the
      operation, so every stale value is covered.
    - [GenericPool]: [ww/bufio/generic_pool.h], [generic_pool.c], and a step
      relation for several workers and foreign threads sharing one master pool.
      A step is what the code does between two points where another thread can
      be seen: the locked section of the master pool, an atomic counter update.
    - [PoolInterface]: what a buffer pool promises its clients ([PoolOps],
      [PoolLaws]).
    - [BufferPool]: [ww/bufio/buffer_pool.c], three tiers of cached buffers; the
      instance of the interface.  Other workers may replace the contents of the
      master pools between two calls ([pool_reachable]).
    - [BufferStream]: [ww/bufio/buffer_stream.h], [buffer_stream.c], proved
      against the interface.
    - [BufferQueue]: [ww/bufio/buffer_budget.c], [buffer_queue.c]: budgets,
      reservations and the queues that pay to them, and a ledger of all owners
      of a worker driven by arbitrary call sequences.
    - [Chain]: [ww/net/chain.h], [chain.c], the node and tunnel records of
      [ww/objects/node.h] and [ww/net/tunnel.h], the failure flag of
      [ww/instance/startup_status.c].  Tunnels are shared objects in a heap.
    - [LayerSolver], [LayerProofs]: [ww/net/node_layer_solver.h],
      [node_layer_solver.c]; the model, and its correctness.
    - [RateBucket]: [ww/base/rate_bucket.h], [rate_bucket.c].
    - [Checksum]: [ww/net/wchecksum_default.c] and the chunked and incremental
      checksums of [ww/net/wchecksum.c].

    ** What is shown

    - Layer solver: it returns on every well-formed chain, without leaving its
      arrays, following a null pointer or running out of iterations; a published
      solution respects every constraint; no satisfying assignment is lost; a
      solution with one layer per link is a satisfying assignment; the packet
      classification is exact.  It does accept some unsatisfiable chains, since
      it narrows one relation at a time.
    - Chains: building keeps every aggregate exact and every limit respected;
      merging two chains is all or nothing.  Both give the well-formedness the
      solver's theorems ask for.
    - Pools: under every interleaving an item has one owner and the checkout
      counter is exact; no operation fails; buffers are neither lost nor
      duplicated; a tier serves buffers of exactly its geometry; best fit and
      its prediction agree.
    - Buffers: every buffer the interface can produce is well formed; the
      capacity check is exact; append, slice, copy and header operations act on
      the payload as on byte lists.
    - Streams: a stream refines a queue of bytes; exact reads succeed; compaction
      bounds the retained storage; views and delimiter searches read the byte
      sequence regardless of buffer boundaries.
    - Queues: a budget is charged for exactly what its owners hold, insertion is a
      transaction, popping and requeueing an entry with its reservation is a
      round trip.
    - Rate buckets: the refill equals the exact product the code avoids forming;
      grants conform to the rate; the waiting time is sufficient and minimal.
    - Checksums: the unrolled code equals the Internet checksum, chunking and
      incremental updates are exact.

    ** Conventions, bounds and fuel

    Integers are [Z] with wrap-around written out; [size_t] has 64 bits, a cache
    line 64 bytes, a pointer 8.  The modelled build has asserts enabled, the
    [BYPASS_*] and [*_DEBUG] switches and thread checks off, no splice support
    and the portable checksum backend.  A failing assert, a call of
    [abortProgramNow] and an access outside an object are distinct failures of
    [outcome]; theorems that an operation returns exclude all of them.

    Loops over arrays are structural.  The others have fuel that is proved
    enough: [move_loop] one turn more than there are buffers; [block_loop] one
    more than there are bytes; [fold_loop] 8 rounds for 64-bit values (a
    round takes about 16 bits off the width); [retry_search] 11 rounds for an interval
    of 1000; [propagate] has the bound of the source itself, twice the edges
    plus two, and the theorem is that it is never exceeded.  A stream is assumed
    to hold at most [UINT32_MAX - UINT16_MAX - 63] bytes ([kStreamLimit]), the
    largest size one buffer with any padding can represent; the code aborts
    above [UINT32_MAX].

    ** Not modelled

    Splice buffers (kernel pipes), the event loop, sockets and devices are
    operating system I/O.  Cryptography, lwIP and vendored code are third party;
    the byte-order functions the checksum code calls are parameters with their
    documented behaviour.  The deques of streams and queues come from a container
    library; they are lists, and whether a ring can grow is a parameter.  The SIMD checksum backends use compiler intrinsics.
    The line pools and packet lines of a finalised chain, the node manager and
    the protocol tunnels are not modelled yet.

    ** Plan

    Next: the line life cycle and the rest of the chain; the traffic shaper on top of the rate bucket; idle tables; device
    flow steering and fragment affinity; the multiplexing frame codec; the
    protocol sniffers and the TLS client hello parser; routing rules and the
    WireGuard replay window. *)

From stdpp Require Import base numbers option list.
From Stdlib Require Import ZArith Lia Znumtheory.

Open Scope Z_scope.

(** ** Machine integers

    A [w]-bit unsigned integer of the C code is a [Z] in [0, 2^w); arithmetic
    that may leave the range is reduced explicitly. *)

Definition UINT8_MAX : Z := 255.
Definition UINT16_MAX : Z := 65535.
Definition UINT32_MAX : Z := 4294967295.
Definition UINT64_MAX : Z := 18446744073709551615.
Definition INT_MAX : Z := 2147483647.
(** [size_t] is 64 bits wide on the modelled target. *)
Definition SIZE_MAX : Z := UINT64_MAX.

Definition wrap8 (x : Z) : Z := x mod 2 ^ 8.
Definition wrap16 (x : Z) : Z := x mod 2 ^ 16.
Definition wrap32 (x : Z) : Z := x mod 2 ^ 32.
Definition wrap64 (x : Z) : Z := x mod 2 ^ 64.

(** Conversion of a [uint32_t] to [int]. *)
Definition to_int (x : Z) : Z := if x >? INT_MAX then x - 2 ^ 32 else x.

Declare Scope word_scope.
Delimit Scope word_scope with word.
Notation "a +32 b" := (wrap32 (a + b)) (at level 50, left associativity) : word_scope.
Notation "a -32 b" := (wrap32 (a - b)) (at level 50, left associativity) : word_scope.
Notation "a +64 b" := (wrap64 (a + b)) (at level 50, left associativity) : word_scope.
Notation "a -64 b" := (wrap64 (a - b)) (at level 50, left associativity) : word_scope.
Notation "a *64 b" := (wrap64 (a * b)) (at level 40, left associativity) : word_scope.
Notation "a *32 b" := (wrap32 (a * b)) (at level 40, left associativity) : word_scope.

Definition u8 (x : Z) : Prop := 0 <= x <= UINT8_MAX.
Definition u16 (x : Z) : Prop := 0 <= x <= UINT16_MAX.
Definition u32 (x : Z) : Prop := 0 <= x <= UINT32_MAX.
Definition u64 (x : Z) : Prop := 0 <= x <= UINT64_MAX.

Create HintDb ww.
Create Rewrite HintDb ww.
#[export] Hint Extern 3 (_ <= _) => lia : ww.
#[export] Hint Extern 3 (_ < _) => lia : ww.

(** ** Outcomes

    The operations either return or stop the process.  [AbortProgram] is a call
    of [abortProgramNow], [AssertFailed] a failing [assert] and [MemoryFault] an
    access outside the storage of an object; [NotModelled] marks a branch the
    model leaves out.  A theorem that an operation
    returns [Ok] therefore covers the build without asserts as well. *)

Inductive fault : Set :=
  | AbortProgram
  | AssertFailed
  | MemoryFault
  | NotModelled.

Inductive outcome (A : Type) : Type :=
  | Ok (a : A)
  | Fail (f : fault).
Arguments Ok {A} a.
Arguments Fail {A} f.

#[export] Instance outcome_ret : MRet outcome := fun A a => Ok a.
#[export] Instance outcome_bind : MBind outcome := fun A B f m =>
  match m with
  | Ok a => f a
  | Fail e => Fail e
  end.

Definition check (e : fault) (b : bool) : outcome unit :=
  if b then Ok tt else Fail e.
Definition assert_ (b : bool) : outcome unit := check AssertFailed b.
Definition abort_if (b : bool) : outcome unit := check AbortProgram (negb b).

#[export] Instance fault_eq_dec : EqDecision fault.
Proof. solve_decision. Defined.

Lemma bind_Ok {A B} (m : outcome A) (f : A -> outcome B) (b : B) :
  m ≫= f = Ok b <-> exists a, m = Ok a /\ f a = Ok b.
Proof.
  destruct m as [a|e]; simpl; split.
  - eauto.
  - intros (a' & [= <-] & H). exact H.
  - discriminate.
  - intros (a' & [=] & _).
Qed.

Lemma check_Ok (e : fault) (b : bool) (u : unit) : check e b = Ok u <-> b = true.
Proof. destruct b, u; simpl; split; congruence. Qed.

Lemma assert_true (b : bool) : b = true -> assert_ b = Ok tt.
Proof. intros ->. reflexivity. Qed.

Lemma abort_if_false (b : bool) : b = false -> abort_if b = Ok tt.
Proof. intros ->. reflexivity. Qed.

Lemma assert_bind {A} (b : bool) (k : unit -> outcome A) :
  b = true -> assert_ b ≫= k = k tt.
Proof. intros ->. reflexivity. Qed.

Lemma abort_bind {A} (b : bool) (k : unit -> outcome A) :
  b = false -> abort_if b ≫= k = k tt.
Proof. intros ->. reflexivity. Qed.

Lemma ok_bind {A B} (m : outcome A) (a : A) (k : A -> outcome B) :
  m = Ok a -> m ≫= k = k a.
Proof. intros ->. reflexivity. Qed.

(** Turns the boolean tests of the code into arithmetic facts. *)
Ltac bool_facts :=
  repeat match goal with
  | H : (_ && _)%bool = true |- _ => apply andb_prop in H; destruct H
  | H : (_ || _)%bool = false |- _ => apply orb_false_elim in H; destruct H
  | H : negb _ = true |- _ => apply negb_true_iff in H
  | H : negb _ = false |- _ => apply negb_false_iff in H
  | H : (_ <=? _) = true |- _ => apply Z.leb_le in H
  | H : (_ <=? _) = false |- _ => apply Z.leb_gt in H
  | H : (_ <? _) = true |- _ => apply Z.ltb_lt in H
  | H : (_ <? _) = false |- _ => apply Z.ltb_ge in H
  | H : (_ >? _) = true |- _ => rewrite Z.gtb_ltb in H; apply Z.ltb_lt in H
  | H : (_ >? _) = false |- _ => rewrite Z.gtb_ltb in H; apply Z.ltb_ge in H
  | H : (_ >=? _) = true |- _ => rewrite Z.geb_leb in H; apply Z.leb_le in H
  | H : (_ >=? _) = false |- _ => rewrite Z.geb_leb in H; apply Z.leb_gt in H
  | H : (_ =? _) = true |- _ => apply Z.eqb_eq in H
  | H : (_ =? _) = false |- _ => apply Z.eqb_neq in H
  end.

(** Linear arithmetic with the integer ranges unfolded. *)
Ltac word_lia :=
  unfold u8, u16, u32, u64, SIZE_MAX, UINT8_MAX, UINT16_MAX, UINT32_MAX, UINT64_MAX, INT_MAX in *; lia.

(** Splits a conjunction and nothing else. *)
Ltac splits := repeat match goal with |- _ /\ _ => split end.

(** Decides the next boolean test in the goal and records it as a fact. *)
Ltac split_test :=
  match goal with
  | |- context [if ?b then _ else _] =>
      lazymatch b with
      | context [if _ then _ else _] => fail
      | _ => let E := fresh "E" in destruct b eqn:E; bool_facts
      end
  end.

(** Runs through the steps of an [outcome] computation known to succeed. *)
Ltac run_ok H :=
  repeat (let a := fresh "x" in let E := fresh "E" in
          apply bind_Ok in H; destruct H as (a & E & H));
  bool_facts.

(** Breaks a computation that returned into its parts. *)
Ltac invert_ok :=
  repeat match goal with
  | X : mbind _ _ = Ok _ |- _ => apply bind_Ok in X; destruct X as (? & ? & X)
  | X : mret _ = Ok _ |- _ => injection X; clear X; intros; subst
  | X : Ok _ = Ok _ |- _ => injection X; clear X; intros; subst
  | X : Fail _ = Ok _ |- _ => discriminate X
  | X : (let '(_, _) := ?x in _) = Ok _ |- _ => destruct x eqn:?
  | X : (if ?b then _ else _) = Ok _ |- _ => destruct b eqn:?
  | X : match ?x with _ => _ end = Ok _ |- _ => destruct x eqn:?
  end.

(** Computes the binds whose first component is known. *)
Ltac step_ok := cbn [mbind outcome_bind mret outcome_ret].

(** ** Wrap-around *)

Lemma wrap8_small (x : Z) : 0 <= x <= UINT8_MAX -> wrap8 x = x.
Proof. unfold wrap8, UINT8_MAX. intros. apply Z.mod_small. lia. Qed.

Lemma wrap16_small (x : Z) : 0 <= x <= UINT16_MAX -> wrap16 x = x.
Proof. unfold wrap16, UINT16_MAX. intros. apply Z.mod_small. lia. Qed.

Lemma wrap32_small (x : Z) : 0 <= x <= UINT32_MAX -> wrap32 x = x.
Proof. unfold wrap32, UINT32_MAX. intros. apply Z.mod_small. lia. Qed.

Lemma wrap64_small (x : Z) : 0 <= x <= UINT64_MAX -> wrap64 x = x.
Proof. unfold wrap64, UINT64_MAX. intros. apply Z.mod_small. lia. Qed.

Lemma wrap16_range (x : Z) : 0 <= wrap16 x <= UINT16_MAX.
Proof. unfold wrap16, UINT16_MAX. pose proof (Z.mod_pos_bound x (2 ^ 16)). lia. Qed.

Lemma wrap32_range (x : Z) : 0 <= wrap32 x <= UINT32_MAX.
Proof. unfold wrap32, UINT32_MAX. pose proof (Z.mod_pos_bound x (2 ^ 32)). lia. Qed.

Lemma wrap64_range (x : Z) : 0 <= wrap64 x <= UINT64_MAX.
Proof. unfold wrap64, UINT64_MAX. pose proof (Z.mod_pos_bound x (2 ^ 64)). lia. Qed.

(** Rounding up to a multiple of [2^k] by adding a mask and clearing the low
    bits, at width [w]: [(x + (2^k - 1)) & ~(2^k - 1)]. *)
Definition align_up (w k x : Z) : Z :=
  Z.land ((x + Z.ones k) mod 2 ^ w) (Z.lnot (Z.ones k) mod 2 ^ w).

Lemma clear_low_bits (w k x : Z) :
  0 <= k -> 0 <= x < 2 ^ w -> Z.land x (Z.lnot (Z.ones k) mod 2 ^ w) = x / 2 ^ k * 2 ^ k.
Proof.
  intros Hk Hx.
  assert (Hw : 0 <= w) by (destruct (Z.le_gt_cases 0 w); [lia|];
    rewrite Z.pow_neg_r in Hx by lia; lia).
  rewrite <- Z.land_ones by lia.
  rewrite (Z.land_comm _ (Z.ones w)), Z.land_assoc, Z.land_ones by lia.
  rewrite Z.mod_small by lia.
  rewrite <- Z.ldiff_land, Z.ldiff_ones_r by lia.
  rewrite Z.shiftl_mul_pow2, Z.shiftr_div_pow2 by lia. reflexivity.
Qed.

Lemma align_up_spec (w k x : Z) :
  0 <= k -> 0 <= x -> x + 2 ^ k - 1 < 2 ^ w ->
  align_up w k x = (x + 2 ^ k - 1) / 2 ^ k * 2 ^ k.
Proof.
  intros Hk Hx Hfit. unfold align_up.
  assert (0 < 2 ^ k) by (apply Z.pow_pos_nonneg; lia).
  rewrite Z.ones_equiv.
  replace (x + Z.pred (2 ^ k)) with (x + 2 ^ k - 1) by lia.
  rewrite Z.mod_small by lia.
  rewrite <- Z.ones_equiv. apply clear_low_bits; lia.
Qed.

(** Rounding up lands on a multiple, never below and less than a step above. *)
Lemma align_up_bounds (w k x : Z) :
  0 <= k -> 0 <= x -> x + 2 ^ k - 1 < 2 ^ w ->
  x <= align_up w k x < x + 2 ^ k /\ align_up w k x mod 2 ^ k = 0.
Proof.
  intros Hk Hx Hfit. rewrite align_up_spec by lia.
  assert (0 < 2 ^ k) by (apply Z.pow_pos_nonneg; lia).
  pose proof (Z.div_mod (x + 2 ^ k - 1) (2 ^ k)).
  pose proof (Z.mod_pos_bound (x + 2 ^ k - 1) (2 ^ k)).
  split; [lia|]. apply Z.mod_mul; lia.
Qed.

Lemma align_up_multiple (w k x : Z) :
  0 <= k -> 0 <= x -> x + 2 ^ k - 1 < 2 ^ w -> x mod 2 ^ k = 0 -> align_up w k x = x.
Proof.
  intros Hk Hx Hfit Hm. rewrite align_up_spec by lia.
  assert (0 < 2 ^ k) by (apply Z.pow_pos_nonneg; lia).
  assert (Hx' : x = x / 2 ^ k * 2 ^ k) by (pose proof (Z.div_mod x (2 ^ k)); lia).
  replace (x + 2 ^ k - 1) with (x / 2 ^ k * 2 ^ k + (2 ^ k - 1)) by lia.
  rewrite Z.div_add_l, (Z.div_small (2 ^ k - 1)) by lia. lia.
Qed.

(** ** Bit masks *)

Lemma land_bit_zero (f k : Z) :
  0 <= k -> (Z.land f (2 ^ k) =? 0) = negb (Z.testbit f k).
Proof.
  intros Hk. destruct (Z.testbit f k) eqn:T; simpl.
  - apply Z.eqb_neq. intros Hz.
    assert (Z.testbit (Z.land f (2 ^ k)) k = true) as Hb
      by (rewrite Z.land_spec, T, Z.pow2_bits_true by lia; reflexivity).
    rewrite Hz, Z.bits_0 in Hb. discriminate.
  - apply Z.eqb_eq. apply Z.bits_inj'. intros n Hn.
    rewrite Z.land_spec, Z.bits_0. destruct (decide (n = k)) as [->|Hne].
    + rewrite T. reflexivity.
    + rewrite Z.pow2_bits_false by lia. apply andb_false_r.
Qed.

Lemma lor_range (w a b : Z) :
  0 <= w -> 0 <= a < 2 ^ w -> 0 <= b < 2 ^ w -> 0 <= Z.lor a b < 2 ^ w.
Proof.
  intros Hw Ha Hb.
  assert (Z.lor a b = Z.lor a b mod 2 ^ w) as ->.
  { rewrite <- Z.land_ones, Z.land_lor_distr_l, !Z.land_ones by lia.
    rewrite !Z.mod_small by lia. reflexivity. }
  apply Z.mod_pos_bound. lia.
Qed.

(** Disjoint bits: or is addition. *)
Lemma lor_add (x y k : Z) : 0 <= k -> 0 <= y < 2 ^ k -> x mod 2 ^ k = 0 -> Z.lor x y = x + y.
Proof.
  intros Hk Hy Hx. assert (Z.land x y = 0) as L.
  { apply Z.bits_inj'. intros n Hn. rewrite Z.land_spec, Z.bits_0.
    destruct (Z.lt_ge_cases n k) as [H|H].
    - rewrite <- (Z.mod_pow2_bits_low x k n) by lia. by rewrite Hx, Z.bits_0.
    - rewrite <- (Z.mod_small y (2 ^ k)) by lia. rewrite Z.mod_pow2_bits_high by lia.
      apply andb_false_r. }
  rewrite <- Z.lxor_lor, <- Z.add_nocarry_lxor by done. done.
Qed.

Lemma land_range (w a b : Z) :
  0 <= w -> 0 <= a < 2 ^ w -> 0 <= Z.land a b < 2 ^ w.
Proof.
  intros Hw Ha.
  assert (Z.land a b = Z.land a b mod 2 ^ w) as ->.
  { rewrite <- (Z.land_ones (Z.land a b)) by lia.
    rewrite <- Z.land_assoc, (Z.land_comm b), Z.land_assoc, Z.land_ones by lia.
    rewrite Z.mod_small by lia. reflexivity. }
  apply Z.mod_pos_bound. lia.
Qed.

Lemma lxor_range (w a b : Z) :
  0 <= w -> 0 <= a < 2 ^ w -> 0 <= b < 2 ^ w -> 0 <= Z.lxor a b < 2 ^ w.
Proof.
  intros Hw Ha Hb.
  assert (Z.lxor a b = Z.lxor a b mod 2 ^ w) as ->.
  { apply Z.bits_inj'. intros n Hn. destruct (Z.lt_ge_cases n w) as [H|H].
    - by rewrite Z.mod_pow2_bits_low by lia.
    - rewrite Z.mod_pow2_bits_high, Z.lxor_spec by lia.
      rewrite <- (Z.mod_small a (2 ^ w)), <- (Z.mod_small b (2 ^ w)) by lia.
      by rewrite !Z.mod_pow2_bits_high by lia. }
  apply Z.mod_pos_bound. lia.
Qed.

Lemma lxor_cancel_r (a b c : Z) : Z.lxor a c = Z.lxor b c -> a = b.
Proof.
  intros E. apply (f_equal (fun x => Z.lxor x c)) in E.
  by rewrite !Z.lxor_assoc, Z.lxor_nilpotent, !Z.lxor_0_r in E.
Qed.

(** The mixing steps of a hash are injective: a xor with a right shift, and a
    multiplication by a number invertible modulo the word size. *)
Lemma xorshift_inj (k a b : Z) :
  0 < k -> 0 <= a -> 0 <= b -> Z.lxor a (Z.shiftr a k) = Z.lxor b (Z.shiftr b k) -> a = b.
Proof.
  intros Hk Ha Hb E. assert (Z.lxor a b = Z.shiftr (Z.lxor a b) k) as Z.
  { apply Z.bits_inj'. intros n Hn. apply (f_equal (fun x => Z.testbit x n)) in E.
    rewrite !Z.lxor_spec, !Z.shiftr_spec in E by done. rewrite Z.shiftr_spec, !Z.lxor_spec by done.
    by destruct (Z.testbit a n), (Z.testbit b n), (Z.testbit a (n + k)), (Z.testbit b (n + k)). }
  apply Z.lxor_eq. rewrite Z.shiftr_div_pow2 in Z by lia.
  assert (0 <= Z.lxor a b) by (by apply Z.lxor_nonneg).
  destruct (Z.eq_dec (Z.lxor a b) 0) as [|Hn]; [done|].
  pose proof (Z.div_lt (Z.lxor a b) (2 ^ k)). pose proof (Z.pow_gt_1 2 k). lia.
Qed.

Lemma mul_mod_inj (m c ci a b : Z) :
  (c * ci) mod m = 1 -> 0 <= a < m -> 0 <= b < m -> (a * c) mod m = (b * c) mod m -> a = b.
Proof.
  intros Hc Ha Hb E.
  assert (forall x, 0 <= x < m -> ((x * c) mod m * ci) mod m = x) as R.
  { intros x Hx. rewrite Z.mul_mod_idemp_l, <- Z.mul_assoc, <- Z.mul_mod_idemp_r, Hc by lia.
    rewrite Z.mul_1_r. by apply Z.mod_small. }
  by rewrite <- (R a Ha), <- (R b Hb), E.
Qed.

(** ** Concrete data *)

Definition bytes_ok (l : list Z) : bool := forallb (fun x => (0 <=? x) && (x <=? UINT8_MAX)) l.

Lemma bytes_ok_u8 (l : list Z) : bytes_ok l = true -> Forall u8 l.
Proof.
  unfold bytes_ok. rewrite forallb_forall. intros H. apply Forall_forall. intros x Hx.
  apply list_elem_of_In in Hx. apply H in Hx. bool_facts. by split.
Qed.

(** Evaluates a closed side condition. *)
Ltac concrete :=
  first [ reflexivity
        | apply bytes_ok_u8; reflexivity
        | vm_compute; repeat split; congruence ].

(** ** Byte storage

    The bytes of an object are a [list Z]; an access names its offset and
    length in [Z] and faults when it leaves the object. *)

Definition zlen {A} (l : list A) : Z := Z.of_nat (length l).

Definition slice {A} (off n : Z) (l : list A) : list A :=
  take (Z.to_nat n) (drop (Z.to_nat off) l).

Definition mem_read (l : list Z) (off n : Z) : outcome (list Z) :=
  _ ← check MemoryFault ((0 <=? off) && (0 <=? n) && (off + n <=? zlen l));
  mret (slice off n l).

Definition splice_at (l : list Z) (off : Z) (bs : list Z) : list Z :=
  take (Z.to_nat off) l ++ bs ++ drop (Z.to_nat (off + zlen bs)) l.

Definition mem_write (l : list Z) (off : Z) (bs : list Z) : outcome (list Z) :=
  _ ← check MemoryFault ((0 <=? off) && (off + zlen bs <=? zlen l));
  mret (splice_at l off bs).

Lemma zlen_nonneg {A} (l : list A) : 0 <= zlen l.
Proof. unfold zlen. lia. Qed.

Lemma zlen_app {A} (l k : list A) : zlen (l ++ k) = zlen l + zlen k.
Proof. unfold zlen. rewrite length_app. lia. Qed.

Lemma zlen_nil {A} : zlen (@nil A) = 0.
Proof. reflexivity. Qed.

Lemma zlen_cons {A} (x : A) (l : list A) : zlen (x :: l) = 1 + zlen l.
Proof. unfold zlen. simpl. lia. Qed.

Lemma zlen_replicate {A} (n : nat) (x : A) : zlen (replicate n x) = Z.of_nat n.
Proof. unfold zlen. rewrite length_replicate. reflexivity. Qed.

Lemma zlen_slice {A} (off n : Z) (l : list A) :
  0 <= off -> 0 <= n -> off + n <= zlen l -> zlen (slice off n l) = n.
Proof. unfold zlen, slice. intros. rewrite length_take, length_drop. lia. Qed.

Lemma slice_0_all {A} (l : list A) : slice 0 (zlen l) l = l.
Proof.
  unfold slice, zlen. rewrite Nat2Z.id. change (Z.to_nat 0) with 0%nat.
  rewrite drop_0. apply take_ge. lia.
Qed.

Lemma slice_zero {A} (off : Z) (l : list A) : slice off 0 l = [].
Proof. reflexivity. Qed.

(** A slice splits at every inner point. *)
Lemma slice_split {A} (off n m : Z) (l : list A) :
  0 <= off -> 0 <= n -> 0 <= m ->
  slice off (n + m) l = slice off n l ++ slice (off + n) m l.
Proof.
  intros. unfold slice.
  rewrite (Z2Nat.inj_add n m), (Z2Nat.inj_add off n) by lia.
  rewrite <- take_take_drop, drop_drop. reflexivity.
Qed.

Lemma slice_take {A} (off n m : Z) (l : list A) :
  0 <= n <= m -> take (Z.to_nat n) (slice off m l) = slice off n l.
Proof.
  intros. unfold slice. rewrite take_take. f_equal. lia.
Qed.

Lemma slice_drop {A} (off n m : Z) (l : list A) :
  0 <= off -> 0 <= n <= m -> drop (Z.to_nat n) (slice off m l) = slice (off + n) (m - n) l.
Proof.
  intros. unfold slice. rewrite skipn_firstn_comm, drop_drop.
  f_equal; [lia|]. f_equal. lia.
Qed.

Lemma slice_prefix (m n : Z) (l : list Z) : 0 <= m <= n -> slice 0 m (slice 0 n l) = slice 0 m l.
Proof. intros Hm. unfold slice. rewrite !drop_0, take_take. f_equal. lia. Qed.

Lemma slice_app_l {A} (off n : Z) (l k : list A) :
  0 <= off -> 0 <= n -> off + n <= zlen l -> slice off n (l ++ k) = slice off n l.
Proof.
  unfold zlen, slice. intros.
  rewrite drop_app_le by lia. apply take_app_le. rewrite length_drop. lia.
Qed.

Lemma slice_app_r {A} (off n : Z) (l k : list A) :
  zlen l <= off -> slice off n (l ++ k) = slice (off - zlen l) n k.
Proof.
  unfold zlen, slice. intros. rewrite drop_app_ge by lia. do 2 f_equal. lia.
Qed.

Lemma slice_ext_all {A} (n : Z) (l : list A) : zlen l <= n -> slice 0 n l = l.
Proof.
  unfold zlen, slice. intros. change (Z.to_nat 0) with 0%nat. rewrite drop_0.
  apply take_ge. lia.
Qed.

Section SpliceAt.
Context (l : list Z) (off : Z) (bs : list Z).
Context (Hoff : 0 <= off) (Hfit : off + zlen bs <= zlen l).

Lemma zlen_take_off : zlen (take (Z.to_nat off) l) = off.
Proof. pose proof (zlen_nonneg bs). unfold zlen in *. rewrite length_take. lia. Qed.

Lemma zlen_splice_at : zlen (splice_at l off bs) = zlen l.
Proof.
  unfold splice_at. rewrite !zlen_app, zlen_take_off.
  pose proof (zlen_nonneg bs). unfold zlen in *. rewrite length_drop. lia.
Qed.

(** Reading back exactly what was written. *)
Lemma slice_splice_same : slice off (zlen bs) (splice_at l off bs) = bs.
Proof.
  unfold splice_at. rewrite slice_app_r; rewrite zlen_take_off; [|lia].
  rewrite Z.sub_diag, slice_app_l by (pose proof (zlen_nonneg bs); lia).
  apply slice_0_all.
Qed.

(** A write leaves what lies before and after it alone. *)
Lemma slice_splice_before (a n : Z) :
  0 <= a -> 0 <= n -> a + n <= off -> slice a n (splice_at l off bs) = slice a n l.
Proof.
  intros. unfold splice_at. rewrite slice_app_l by (rewrite ?zlen_take_off; lia).
  rewrite <- (take_drop (Z.to_nat off) l) at 2.
  rewrite slice_app_l by (rewrite ?zlen_take_off; lia). reflexivity.
Qed.

Lemma slice_splice_after (a n : Z) :
  off + zlen bs <= a -> slice a n (splice_at l off bs) = slice a n l.
Proof.
  intros. pose proof (zlen_nonneg bs). unfold splice_at.
  rewrite slice_app_r; rewrite zlen_take_off; [|lia].
  rewrite slice_app_r by lia.
  rewrite <- (take_drop (Z.to_nat (off + zlen bs)) l) at 2.
  rewrite slice_app_r.
  - f_equal. unfold zlen in *. rewrite length_take. lia.
  - unfold zlen in *. rewrite length_take. lia.
Qed.

Lemma Forall_splice_at (P : Z -> Prop) :
  Forall P l -> Forall P bs -> Forall P (splice_at l off bs).
Proof.
  intros Hl Hbs. unfold splice_at. apply Forall_app; split; [by apply Forall_take|].
  apply Forall_app; split; [done|by apply Forall_drop].
Qed.
End SpliceAt.

Lemma Forall_slice {A} (P : A -> Prop) (off n : Z) (l : list A) :
  Forall P l -> Forall P (slice off n l).
Proof. intros. unfold slice. by apply Forall_take, Forall_drop. Qed.

Lemma mem_read_ok (l : list Z) (off n : Z) :
  0 <= off -> 0 <= n -> off + n <= zlen l -> mem_read l off n = Ok (slice off n l).
Proof.
  intros. unfold mem_read.
  replace ((0 <=? off) && (0 <=? n) && (off + n <=? zlen l))%bool with true; [done|].
  symmetry. rewrite !andb_true_iff, !Z.leb_le. lia.
Qed.

Lemma mem_write_ok (l : list Z) (off : Z) (bs : list Z) :
  0 <= off -> off + zlen bs <= zlen l -> mem_write l off bs = Ok (splice_at l off bs).
Proof.
  intros. unfold mem_write.
  replace ((0 <=? off) && (off + zlen bs <=? zlen l))%bool with true; [done|].
  symmetry. rewrite !andb_true_iff, !Z.leb_le. lia.
Qed.

Lemma mem_read_inv (l : list Z) (off n : Z) (bs : list Z) :
  mem_read l off n = Ok bs ->
  0 <= off /\ 0 <= n /\ off + n <= zlen l /\ bs = slice off n l.
Proof.
  unfold mem_read. intros E. apply bind_Ok in E as (u & C & E).
  apply check_Ok in C. bool_facts. injection E as <-. done.
Qed.

Lemma mem_write_inv (l : list Z) (off : Z) (bs r : list Z) :
  mem_write l off bs = Ok r ->
  0 <= off /\ off + zlen bs <= zlen l /\ r = splice_at l off bs.
Proof.
  unfold mem_write. intros E. apply bind_Ok in E as (u & C & E).
  apply check_Ok in C. bool_facts. injection E as <-. done.
Qed.

(** ** Sums over a list *)

Definition zsum {A} (f : A -> Z) (l : list A) : Z := foldr (fun x acc => f x + acc) 0 l.

Lemma zsum_insert {A} (f : A -> Z) l i x y :
  l !! i = Some x -> zsum f (<[i := y]> l) = zsum f l - f x + f y.
Proof.
  revert i. induction l as [|z l IH]; intros [|i] E; simpl in *; try discriminate.
  - injection E as ->. lia.
  - unfold zsum in *. rewrite (IH i E). lia.
Qed.

Lemma zsum_bound {A} (f : A -> Z) l i x :
  Forall (fun y => 0 <= f y) l -> l !! i = Some x -> 0 <= f x <= zsum f l.
Proof.
  intros F. revert i. induction F as [|z l Hz F IH]; intros [|i] E; simpl in *; try discriminate.
  - injection E as ->. split; [done|]. enough (0 <= zsum f l) by (unfold zsum in *; lia).
    clear -F. induction F; simpl; lia.
  - destruct (IH i E). unfold zsum in *. lia.
Qed.

Lemma zsum_nonneg {A} (f : A -> Z) l : Forall (fun y => 0 <= f y) l -> 0 <= zsum f l.
Proof. induction 1; simpl; lia. Qed.

Lemma zsum_replicate {A} (f : A -> Z) (n : nat) (x : A) : f x = 0 -> zsum f (replicate n x) = 0.
Proof. intros E. induction n as [|n IH]; [done|]. unfold zsum in *. simpl. lia. Qed.

Lemma zsum_fmap {A B} (f : A -> Z) (f' : B -> Z) (g : A -> B) (l : list A) :
  (forall x, f' (g x) = f x) -> zsum f' (g <$> l) = zsum f l.
Proof. intros E. induction l as [|x l IH]; [done|]. rewrite fmap_cons. simpl. by rewrite E, IH. Qed.

Lemma zsum_zero {A} (f : A -> Z) (l : list A) : Forall (fun x => f x = 0) l -> zsum f l = 0.
Proof. induction 1 as [|x l E _ IH]; [done|]. simpl. by rewrite E, IH. Qed.

Lemma zsum_fmap_le {A} (f : A -> Z) (g : A -> A) (l : list A) :
  Forall (fun x => f (g x) <= f x) l -> zsum f (g <$> l) <= zsum f l.
Proof.
  induction 1 as [|x l Hx _ IH]; [done|]. rewrite fmap_cons. unfold zsum in *. simpl. lia.
Qed.

Lemma zsum_app {A} (f : A -> Z) (l k : list A) : zsum f (l ++ k) = zsum f l + zsum f k.
Proof. induction l as [|x l IH]; [done|]. unfold zsum in *. simpl. lia. Qed.

Lemma zsum_delete {A} (f : A -> Z) (l : list A) i x :
  l !! i = Some x -> zsum f (delete i l) = zsum f l - f x.
Proof.
  revert i. induction l as [|y l IH]; intros [|i] E; simpl in E; [done|done| |].
  - injection E as ->. unfold zsum. simpl. lia.
  - specialize (IH i E). unfold zsum in *. simpl. lia.
Qed.

(** ** Arrays of structures

    A fixed array of values: indexing, assignment and [memmove] inside the
    array, all of them faulting outside. *)

Definition arr_get {A} (l : list A) (i : Z) : outcome A :=
  match (if 0 <=? i then l !! Z.to_nat i else None) with
  | Some a => Ok a
  | None => Fail MemoryFault
  end.

Definition arr_set {A} (l : list A) (i : Z) (a : A) : outcome (list A) :=
  _ ← check MemoryFault ((0 <=? i) && (i <? zlen l));
  mret (<[Z.to_nat i := a]> l).

Definition arr_move {A} (l : list A) (to from n : Z) : outcome (list A) :=
  _ ← check MemoryFault ((0 <=? to) && (0 <=? from) && (0 <=? n) &&
                         (to + n <=? zlen l) && (from + n <=? zlen l));
  mret (take (Z.to_nat to) l ++ slice from n l ++ drop (Z.to_nat (to + n)) l).

Lemma arr_get_ok {A} (l : list A) (i : Z) (a : A) :
  0 <= i -> l !! Z.to_nat i = Some a -> arr_get l i = Ok a.
Proof. intros Hi E. unfold arr_get. replace (0 <=? i) with true by lia. by rewrite E. Qed.

Lemma arr_get_inv {A} (l : list A) (i : Z) (a : A) :
  arr_get l i = Ok a -> 0 <= i < zlen l /\ l !! Z.to_nat i = Some a.
Proof.
  unfold arr_get. destruct (0 <=? i) eqn:E; bool_facts; [|done].
  destruct (l !! Z.to_nat i) eqn:L; [|done]. intros [= ->].
  apply lookup_lt_Some in L as Hlt. unfold zlen. split; [lia|done].
Qed.

Lemma arr_set_ok {A} (l : list A) (i : Z) (a : A) :
  0 <= i < zlen l -> arr_set l i a = Ok (<[Z.to_nat i := a]> l).
Proof.
  intros Hi. unfold arr_set. by replace ((0 <=? i) && (i <? zlen l)) with true by lia.
Qed.

Lemma arr_move_ok {A} (l : list A) (to from n : Z) :
  0 <= to -> 0 <= from -> 0 <= n -> to + n <= zlen l -> from + n <= zlen l ->
  arr_move l to from n =
    Ok (take (Z.to_nat to) l ++ slice from n l ++ drop (Z.to_nat (to + n)) l).
Proof.
  intros. unfold arr_move.
  by replace ((0 <=? to) && _ && _ && _ && _) with true by lia.
Qed.

(** ** Arrays of pointers

    A fixed array of item pointers is a list of slots; [None] is a slot that
    was never written.  Reading such a slot, or leaving the array, faults. *)

Definition slot_get {A} (slots : list (option A)) (i : Z) : outcome A :=
  match (if 0 <=? i then slots !! Z.to_nat i else None) with
  | Some (Some a) => Ok a
  | _ => Fail MemoryFault
  end.

Definition slot_set {A} (slots : list (option A)) (i : Z) (a : A) : outcome (list (option A)) :=
  _ ← check MemoryFault ((0 <=? i) && (i <? zlen slots));
  mret (<[Z.to_nat i := Some a]> slots).

(** [for (k = 0; k < n; k++) out[k] = slots[base + k]] *)
Fixpoint slots_get {A} (slots : list (option A)) (base : Z) (n : nat) : outcome (list A) :=
  match n with
  | O => mret []
  | S n' => a ← slot_get slots base; l ← slots_get slots (base + 1) n'; mret (a :: l)
  end.

(** [for (k = 0; k < n; k++) out[k] = slots[top - k]] *)
Fixpoint slots_get_down {A} (slots : list (option A)) (top : Z) (n : nat) : outcome (list A) :=
  match n with
  | O => mret []
  | S n' => a ← slot_get slots top; l ← slots_get_down slots (top - 1) n'; mret (a :: l)
  end.

(** [for (k = 0; k < n; k++) slots[base + k] = items[k]] *)
Fixpoint slots_set {A} (slots : list (option A)) (base : Z) (items : list A)
  : outcome (list (option A)) :=
  match items with
  | [] => mret slots
  | a :: items' => slots ← slot_set slots base a; slots_set slots (base + 1) items'
  end.

(** The first slots of the array are [items]; what follows is stale. *)
Definition holds {A} (slots : list (option A)) (items : list A) : Prop :=
  (Some <$> items) `prefix_of` slots.

(** The items the first [n] slots of an array hold. *)
Definition cached_in {A} (n : Z) (slots : list (option A)) : list A :=
  omap id (take (Z.to_nat n) slots).

Section Holds.
Context {A : Type}.
Implicit Types (slots : list (option A)) (l r items : list A).

Lemma holds_nil slots : holds slots [].
Proof. apply prefix_nil. Qed.

Lemma holds_app_l slots l r : holds slots (l ++ r) -> holds slots l.
Proof. unfold holds. rewrite fmap_app. apply prefix_app_l. Qed.

Lemma holds_len slots l : holds slots l -> zlen l <= zlen slots.
Proof.
  intros H. apply prefix_length in H. rewrite length_fmap in H. unfold zlen. lia.
Qed.

Lemma holds_get slots l a r :
  holds slots (l ++ a :: r) -> slot_get slots (zlen l) = Ok a.
Proof.
  intros [junk ->]. unfold slot_get, zlen. rewrite (proj2 (Z.leb_le _ _)), Nat2Z.id by lia.
  rewrite fmap_app, <- app_assoc, lookup_app_r by (rewrite length_fmap; lia).
  rewrite length_fmap, Nat.sub_diag. reflexivity.
Qed.

Lemma holds_gets slots l items r :
  holds slots (l ++ items ++ r) -> slots_get slots (zlen l) (length items) = Ok items.
Proof.
  revert l. induction items as [|a items IH]; intros l H; [done|].
  simpl. rewrite (holds_get _ _ _ _ H). simpl.
  replace (zlen l + 1) with (zlen (l ++ [a])) by (rewrite zlen_app; done).
  rewrite IH; [done|]. rewrite <- app_assoc. exact H.
Qed.

Lemma holds_gets_down slots l items :
  holds slots (l ++ items) ->
  slots_get_down slots (zlen (l ++ items) - 1) (length items) = Ok (reverse items).
Proof.
  induction items as [|a items IH] using rev_ind; intros H; [done|].
  rewrite length_app, Nat.add_comm, reverse_snoc. simpl.
  rewrite app_assoc in H |- *.
  replace (zlen ((l ++ items) ++ [a]) - 1) with (zlen (l ++ items))
    by (rewrite (zlen_app _ [a]), zlen_cons, zlen_nil; lia).
  rewrite (holds_get _ _ _ _ H). simpl.
  rewrite IH by (by apply holds_app_l in H). done.
Qed.

Lemma holds_set slots l a :
  holds slots l -> zlen l < zlen slots ->
  exists slots', slot_set slots (zlen l) a = Ok slots' /\
    holds slots' (l ++ [a]) /\ zlen slots' = zlen slots.
Proof.
  intros [junk ->] Hlt. unfold slot_set.
  rewrite (proj2 (andb_true_iff _ _)) by (pose proof (zlen_nonneg l); lia). simpl.
  eexists; split; [reflexivity|]. unfold zlen in *. rewrite length_insert, Nat2Z.id.
  split; [|done].
  rewrite length_app, length_fmap in Hlt.
  destruct junk as [|j junk]; [simpl in Hlt; lia|].
  replace (length l) with (length (Some <$> l) + 0)%nat by (rewrite length_fmap; lia).
  rewrite insert_app_r. simpl. unfold holds. rewrite fmap_app. exists junk.
  rewrite <- app_assoc. done.
Qed.

Lemma holds_replace slots l a b r :
  holds slots (l ++ a :: r) ->
  exists slots', slot_set slots (zlen l) b = Ok slots' /\
    holds slots' (l ++ b :: r) /\ zlen slots' = zlen slots.
Proof.
  intros [junk ->]. unfold slot_set.
  assert ((0 <=? zlen l) && (zlen l <? zlen ((Some <$> l ++ a :: r) ++ junk)) = true)%bool as ->.
  { unfold zlen. rewrite length_app, length_fmap, length_app. cbn [length].
    apply andb_true_iff; split; [apply Z.leb_le|apply Z.ltb_lt]; lia. }
  simpl. eexists; split; [reflexivity|]. unfold zlen. rewrite length_insert, Nat2Z.id.
  split; [|done]. rewrite fmap_app, <- app_assoc.
  replace (length l) with (length (Some <$> l) + 0)%nat by (rewrite length_fmap; lia).
  rewrite insert_app_r. simpl. exists junk. rewrite fmap_app, <- app_assoc. done.
Qed.

Lemma cached_in_holds (n : Z) slots items :
  holds slots items -> n = zlen items -> cached_in n slots = items.
Proof.
  intros [junk ->] ->. unfold cached_in, zlen. rewrite Nat2Z.id, take_app_le, take_ge
    by (rewrite length_fmap; lia).
  induction items as [|a items IH]; simpl; [done|]. by f_equal.
Qed.

Lemma holds_sets slots l items :
  holds slots l -> zlen l + zlen items <= zlen slots ->
  exists slots', slots_set slots (zlen l) items = Ok slots' /\
    holds slots' (l ++ items) /\ zlen slots' = zlen slots.
Proof.
  revert slots l. induction items as [|a items IH]; intros slots l H Hlt; simpl.
  { exists slots. rewrite app_nil_r. done. }
  rewrite zlen_cons in Hlt. pose proof (zlen_nonneg items).
  destruct (holds_set slots l a H) as (s1 & -> & H1 & L1); [lia|]. simpl.
  destruct (IH s1 (l ++ [a]) H1) as (s2 & E2 & H2 & L2);
    [rewrite zlen_app, zlen_cons, zlen_nil, L1; lia|].
  exists s2. replace (zlen l + 1) with (zlen (l ++ [a])) by (rewrite zlen_app; done).
  rewrite <- app_assoc in H2. split; [exact E2|]. split; [exact H2|congruence].
Qed.
End Holds.

#[export] Hint Resolve zlen_nonneg wrap16_range wrap32_range wrap64_range holds_nil holds_app_l : ww.
#[export] Hint Rewrite @zlen_app @zlen_cons @zlen_nil @zlen_replicate : ww.
