(* ===== verification/ShiftBuffer.v ===== *)
(** * Shift buffers ([ww/bufio/shiftbuffer.h], [ww/bufio/shiftbuffer.c])

    [sbuf_t] is the byte buffer every component passes around: a storage block
    with a cursor, a length and reserved room on the left, so that a tunnel can
    prepend a header without moving the payload.  The record [sbuf_t] keeps the
    C fields, the storage being a list of bytes.  A buffer is owned by one
    component at a time, so an operation maps the buffers it is given to the
    buffers it leaves; freeing a buffer drops the value. *)

From stdpp Require Import base numbers option list.
From Stdlib Require Import ZArith Lia.
From S2P Require Import Prelude.
Open Scope Z_scope.
Open Scope word_scope.

Definition kSbufFlagSplice : Z := Z.shiftl 1 0.
Definition kSbufFlagSplicePooled : Z := Z.shiftl 1 1.
Definition kSbufFlagRecalculateChecksum : Z := Z.shiftl 1 2.
Definition kSbufAllocationAlignment : Z := 32.
Definition SIZEOF_STRUCT_SBUF : Z := 32.
Definition kCpuLineCacheSize : Z := 64.
Definition kCpuLineCacheSizeMin1 : Z := kCpuLineCacheSize - 1.
Definition SPLICE_BUFFER_STORAGE_SIZE : Z := 32.

Record sbuf_t : Type := mk_sbuf {
  curpos : Z;
  len : Z;
  capacity : Z;
  l_pad : Z;
  flags : Z;
  buf : list Z
}.

Definition set_pos_len (b : sbuf_t) (pos n : Z) : sbuf_t :=
  mk_sbuf pos n (capacity b) (l_pad b) (flags b) (buf b).
Definition set_flags (b : sbuf_t) (f : Z) : sbuf_t :=
  mk_sbuf (curpos b) (len b) (capacity b) (l_pad b) f (buf b).
Definition set_buf (b : sbuf_t) (bytes : list Z) : sbuf_t :=
  mk_sbuf (curpos b) (len b) (capacity b) (l_pad b) (flags b) bytes.

(** Fresh storage has the requested size and unspecified bytes: 0x55 in a
    [DEBUG] build, whatever the heap holds (with some pages touched by a zero
    byte) otherwise. *)
Class Allocator : Type := {
  alloc_fill : Z -> list Z;
  alloc_fill_len : forall n, 0 <= n -> zlen (alloc_fill n) = n;
  alloc_fill_u8 : forall n, Forall u8 (alloc_fill n)
}.

Definition debug_fill (n : Z) : list Z := replicate (Z.to_nat n) 85.

Lemma debug_fill_len (n : Z) : 0 <= n -> zlen (debug_fill n) = n.
Proof. intros. unfold debug_fill. rewrite zlen_replicate. lia. Qed.

Lemma debug_fill_u8 (n : Z) : Forall u8 (debug_fill n).
Proof. apply Forall_replicate. unfold u8, UINT8_MAX. lia. Qed.

Definition debug_allocator : Allocator :=
  {| alloc_fill := debug_fill; alloc_fill_len := debug_fill_len; alloc_fill_u8 := debug_fill_u8 |}.

(** ** Flags and accessors *)

Definition sbufIsSplice (b : sbuf_t) : bool :=
  negb (Z.land (flags b) kSbufFlagSplice =? 0).

Definition sbufSetRecalculateChecksum (b : sbuf_t) (requested : bool) : outcome sbuf_t :=
  _ ← assert_ (negb requested || negb (sbufIsSplice b));
  mret (if requested
        then set_flags b (Z.lor (flags b) kSbufFlagRecalculateChecksum)
        else set_flags b (Z.land (flags b) (wrap16 (Z.lnot kSbufFlagRecalculateChecksum)))).

Definition sbufGetRecalculateChecksum (b : sbuf_t) : bool :=
  negb (Z.land (flags b) kSbufFlagRecalculateChecksum =? 0).

Definition sbufIsPooledSplice (b : sbuf_t) : bool :=
  negb (Z.land (flags b) kSbufFlagSplicePooled =? 0).

Definition sbufGetTotalCapacity (b : sbuf_t) : Z := capacity b.
Definition sbufGetTotalCapacityNoPadding (b : sbuf_t) : Z := capacity b -32 l_pad b.
Definition sbufGetLeftCapacity (b : sbuf_t) : Z := curpos b.
Definition sbufGetMaximumWriteableSize (b : sbuf_t) : Z := capacity b -32 curpos b.
Definition sbufGetLeftPadding (b : sbuf_t) : Z := l_pad b.
Definition sbufGetLength (b : sbuf_t) : Z := len b.

Definition sbufGetTailCapacity (b : sbuf_t) : outcome Z :=
  _ ← assert_ (negb (sbufIsSplice b));
  _ ← assert_ (curpos b <=? capacity b);
  _ ← assert_ (len b <=? (capacity b -32 curpos b));
  mret (capacity b -32 curpos b -32 len b).

(** ** Capacity arithmetic *)

(** Total allocation capacity for a request, [None] when it is not
    representable; 64-bit arithmetic. *)
Definition sbufTryComputeCapacityWithin (minimum_capacity pad_left size_max : Z) : option Z :=
  let aligned_pad := Z.land (pad_left +64 31) (wrap64 (Z.lnot 31)) in
  if aligned_pad >? UINT16_MAX then None else
  if minimum_capacity >? UINT32_MAX then None else
  let capacity :=
    if negb (minimum_capacity =? 0) && negb (minimum_capacity mod kCpuLineCacheSize =? 0) then
      let c := if minimum_capacity <? kCpuLineCacheSize then kCpuLineCacheSize
               else minimum_capacity in
      Z.land (c +64 kCpuLineCacheSizeMin1) (wrap64 (Z.lnot kCpuLineCacheSizeMin1))
    else minimum_capacity in
  let total := capacity +64 aligned_pad in
  if total >? UINT32_MAX then None else
  let allocation_overhead := SIZEOF_STRUCT_SBUF + kSbufAllocationAlignment in
  if (size_max <? allocation_overhead) || (total >? (size_max -64 allocation_overhead))
  then None
  else Some (wrap32 total).

Definition sbufTryComputeCapacity (minimum_capacity pad_left : Z) : option Z :=
  sbufTryComputeCapacityWithin minimum_capacity pad_left SIZE_MAX.

Definition sbufAlignLeftPadding (pad_left : Z) : outcome Z :=
  let aligned_pad := Z.land (pad_left +32 31) (wrap32 (Z.lnot 31)) in
  _ ← abort_if (aligned_pad >? UINT16_MAX);
  mret (wrap16 aligned_pad).

(** ** Charges *)

Definition sbufGetAllocationCharge (b : sbuf_t) : Z :=
  let storage := if sbufIsSplice b
                 then sbufGetLeftPadding b +64 SPLICE_BUFFER_STORAGE_SIZE
                 else sbufGetTotalCapacity b in
  SIZEOF_STRUCT_SBUF +64 storage +64 kSbufAllocationAlignment.

Definition sbufTryComputeQueueCharge (capacity : Z) : option Z :=
  let overhead := SIZEOF_STRUCT_SBUF +64 kSbufAllocationAlignment in
  if capacity >? (SIZE_MAX -64 overhead) then None
  else Some (overhead +64 capacity).

Definition sbufTryGetQueueCharge (b : sbuf_t) : option Z :=
  sbufTryComputeQueueCharge (sbufGetTotalCapacity b).

Definition sbufGetQueueCharge (b : sbuf_t) : outcome Z :=
  let overhead := SIZEOF_STRUCT_SBUF +64 kSbufAllocationAlignment in
  let capacity := sbufGetTotalCapacity b in
  _ ← assert_ (capacity <=? (SIZE_MAX -64 overhead));
  mret (overhead +64 capacity).

(** ** Cursor movement *)

Definition sbufReset (b : sbuf_t) : sbuf_t :=
  mk_sbuf (l_pad b) 0 (capacity b) (l_pad b) 0 (buf b).

Definition sbufShiftLeft (b : sbuf_t) (bytes : Z) : outcome sbuf_t :=
  _ ← assert_ (sbufGetLeftCapacity b >=? bytes);
  mret (set_pos_len b (curpos b -32 bytes) (len b +32 bytes)).

Definition sbufShiftRight (b : sbuf_t) (bytes : Z) : outcome sbuf_t :=
  _ ← assert_ (len b >=? bytes);
  mret (set_pos_len b (curpos b +32 bytes) (len b -32 bytes)).

(** The sum in the assertion is a [uint32_t] and wraps. *)
Definition sbufSetLength (b : sbuf_t) (bytes : Z) : outcome sbuf_t :=
  _ ← assert_ ((curpos b +32 bytes) <=? capacity b);
  mret (set_pos_len b (curpos b) bytes).

Definition sbufConsume (b : sbuf_t) (bytes : Z) : outcome sbuf_t :=
  _ ← assert_ (bytes <=? len b);
  sbufSetLength b (sbufGetLength b -32 bytes).

(** ** Byte access

    [sbufGetRawPtr] and [sbufGetMutablePtr] are the cursor; pointer arithmetic
    on them is not reduced modulo 2^32. *)

Definition read_at (b : sbuf_t) (off n : Z) : outcome (list Z) :=
  mem_read (buf b) (curpos b + off) n.

Definition write_at (b : sbuf_t) (off : Z) (bytes : list Z) : outcome sbuf_t :=
  l ← mem_write (buf b) (curpos b + off) bytes;
  mret (set_buf b l).

Definition sbufRead (b : sbuf_t) (n : Z) : outcome (list Z) := read_at b 0 n.
Definition sbufWrite (b : sbuf_t) (bytes : list Z) : outcome sbuf_t := write_at b 0 bytes.
Definition sbufWriteZeros (b : sbuf_t) (n : Z) : outcome sbuf_t :=
  write_at b 0 (replicate (Z.to_nat n) 0).

Definition sbufWriteBuf (to from : sbuf_t) (length : Z) : outcome sbuf_t :=
  _ ← assert_ (sbufGetMaximumWriteableSize to >=? length);
  bytes ← read_at from 0 length;
  write_at to 0 bytes.

(** Unaligned integer access copies the little-endian bytes of the value one by
    one ([sbufByteCopy]); the modelled hosts are little-endian. *)
Fixpoint le_bytes (n : nat) (v : Z) : list Z :=
  match n with
  | O => []
  | S n' => wrap8 v :: le_bytes n' (v / 2 ^ 8)
  end.

Fixpoint le_value (l : list Z) : Z :=
  match l with
  | [] => 0
  | x :: l' => x + 2 ^ 8 * le_value l'
  end.

Definition sbufWriteUI8 (b : sbuf_t) (data : Z) : outcome sbuf_t := write_at b 0 [data].
Definition sbufReadUI8 (b : sbuf_t) : outcome Z :=
  l ← read_at b 0 1; mret (le_value l).
Definition sbufReadUnAlignedUI16 (b : sbuf_t) : outcome Z :=
  l ← read_at b 0 2; mret (le_value l).
Definition sbufReadUnAlignedUI64 (b : sbuf_t) : outcome Z :=
  l ← read_at b 0 8; mret (le_value l).
Definition sbufWriteUnAlignedUI32 (b : sbuf_t) (data : Z) : outcome sbuf_t :=
  write_at b 0 (le_bytes 4 data).
Definition sbufWriteUnAlignedUI16 (b : sbuf_t) (data : Z) : outcome sbuf_t :=
  write_at b 0 (le_bytes 2 data).

(** ** Creation, growth and transfer *)

Section Operations.
Context `{Allocator}.

Definition sbufAllocate (cap pad_left : Z) : sbuf_t :=
  mk_sbuf pad_left 0 cap pad_left 0 (alloc_fill cap).

Definition sbufCreateWithPadding (minimum_capacity pad_left : Z) : outcome sbuf_t :=
  pad_left ← sbufAlignLeftPadding pad_left;
  match sbufTryComputeCapacity minimum_capacity pad_left with
  | None => Fail AbortProgram
  | Some real_cap => mret (sbufAllocate real_cap pad_left)
  end.

Definition sbufCreate (minimum_capacity : Z) : outcome sbuf_t :=
  sbufCreateWithPadding minimum_capacity 0.

Definition sbufReserveSpace (b : sbuf_t) (bytes : Z) : outcome sbuf_t :=
  let current_length := sbufGetLength b in
  if sbufGetMaximumWriteableSize b <? bytes then
    let needed_writable := Z.max current_length bytes in
    bigger_buf ← sbufCreateWithPadding needed_writable (l_pad b);
    bigger_buf ← sbufSetLength bigger_buf current_length;
    bigger_buf ← sbufWriteBuf bigger_buf b current_length;
    sbufSetRecalculateChecksum bigger_buf (sbufGetRecalculateChecksum b)
  else mret b.

Definition sbufConcat (root b : sbuf_t) : outcome sbuf_t :=
  let root_length := sbufGetLength root in
  let append_length := sbufGetLength b in
  _ ← abort_if (root_length >? (UINT32_MAX -32 append_length));
  root ← sbufReserveSpace root (root_length +32 append_length);
  root ← sbufSetLength root (root_length +32 append_length);
  bytes ← read_at b 0 append_length;
  write_at root root_length bytes.

Definition sbufConcatNoCheck (root b : sbuf_t) : outcome sbuf_t :=
  let root_length := sbufGetLength root in
  let append_length := sbufGetLength b in
  root ← sbufSetLength root (root_length +32 append_length);
  bytes ← read_at b 0 append_length;
  write_at root root_length bytes.

(** [false] leaves the destination as it was. *)
Definition sbufDuplicateTo (b dest : sbuf_t) : outcome (bool * sbuf_t) :=
  let source_curpos := curpos b in
  let source_length := sbufGetLength b in
  let dest_capacity := sbufGetTotalCapacity dest in
  if (source_curpos >? dest_capacity) || (source_length >? (dest_capacity -32 source_curpos))
  then mret (false, dest)
  else
    let dest := set_pos_len dest source_curpos (len dest) in
    dest ← sbufSetLength dest source_length;
    dest ← (if source_length >? 0 then
              bytes ← read_at b 0 source_length;
              write_at dest 0 bytes
            else mret dest);
    dest ← sbufSetRecalculateChecksum dest (sbufGetRecalculateChecksum b);
    mret (true, dest).

Definition sbufDuplicate (b : sbuf_t) : outcome sbuf_t :=
  newbuf ← sbufCreateWithPadding (sbufGetTotalCapacityNoPadding b) (l_pad b);
  '(done_, newbuf) ← sbufDuplicateTo b newbuf;
  _ ← abort_if (negb done_);
  mret newbuf.

(** Returns the destination and the advanced source. *)
Definition sbufMoveTo (dest source : sbuf_t) (bytes : Z) : outcome (sbuf_t * sbuf_t) :=
  let dest_length := sbufGetLength dest in
  _ ← assert_ (bytes <=? sbufGetLength source);
  _ ← assert_ (dest_length <=? (UINT32_MAX -32 bytes));
  _ ← assert_ ((dest_length +32 bytes) <=? sbufGetMaximumWriteableSize dest);
  moved ← read_at source 0 bytes;
  dest ← write_at dest dest_length moved;
  dest ← sbufSetLength dest (dest_length +32 bytes);
  source ← sbufShiftRight source bytes;
  mret (dest, source).

(** Returns the new leading slice and the advanced source. *)
Definition sbufSlice (b : sbuf_t) (bytes : Z) : outcome (sbuf_t * sbuf_t) :=
  _ ← assert_ (negb (sbufIsSplice b));
  _ ← assert_ (bytes <=? sbufGetLength b);
  newbuf ← sbufCreateWithPadding bytes (l_pad b);
  sbufMoveTo newbuf b bytes.
End Operations.

(** ** Well-formed buffers and what they hold *)

Record sbuf_wf (b : sbuf_t) : Prop := mk_sbuf_wf {
  wf_curpos : 0 <= curpos b;
  wf_len : 0 <= len b;
  wf_extent : curpos b + len b <= capacity b;
  wf_capacity : capacity b <= UINT32_MAX;
  wf_l_pad : 0 <= l_pad b <= capacity b;
  wf_l_pad_u16 : l_pad b <= UINT16_MAX;
  wf_l_pad_align : l_pad b mod 32 = 0;
  wf_flags : 0 <= flags b <= UINT16_MAX;
  wf_storage : zlen (buf b) = capacity b;
  wf_bytes : Forall u8 (buf b)
}.

(** The bytes a reader of the buffer sees. *)
Definition payload (b : sbuf_t) : list Z := slice (curpos b) (len b) (buf b).

(** An ordinary buffer, without a kernel pipe behind it. *)
Definition ordinary (b : sbuf_t) : Prop := sbufIsSplice b = false.

(** Sizes as the allocator rounds them: payload to a cache line, padding to 32
    bytes. *)
Definition round_line (n : Z) : Z := (n + 63) / 64 * 64.
Definition round_pad (n : Z) : Z := (n + 31) / 32 * 32.

(** A request [sbufCreateWithPadding] can satisfy. *)
Definition creatable (minimum_capacity pad_left : Z) : Prop :=
  0 <= minimum_capacity /\ 0 <= pad_left /\ round_pad pad_left <= UINT16_MAX /\
  round_line minimum_capacity + round_pad pad_left <= UINT32_MAX.

Ltac sbuf_facts :=
  repeat match goal with
  | W : sbuf_wf ?b |- _ =>
      lazymatch goal with
      | _ : 0 <= curpos b |- _ => fail
      | _ => destruct W
      end
  end;
  unfold u8, u16, u32, u64, UINT8_MAX, UINT16_MAX, UINT32_MAX, UINT64_MAX, SIZE_MAX in *.

(** Opens a wrapped [uint32_t] expression whose value is in range. *)
Ltac unwrap32 :=
  repeat match goal with
  | |- context [wrap32 ?x] => rewrite (wrap32_small x) by word_lia
  end.

Lemma round_line_bounds (n : Z) : 0 <= n -> n <= round_line n <= n + 63.
Proof.
  intros. unfold round_line.
  pose proof (Z.div_mod (n + 63) 64). pose proof (Z.mod_pos_bound (n + 63) 64). lia.
Qed.

Lemma round_pad_bounds (n : Z) : 0 <= n -> n <= round_pad n <= n + 31.
Proof.
  intros. unfold round_pad.
  pose proof (Z.div_mod (n + 31) 32). pose proof (Z.mod_pos_bound (n + 31) 32). lia.
Qed.

Lemma round_pad_mod (n : Z) : round_pad n mod 32 = 0.
Proof. unfold round_pad. apply Z.mod_mul. lia. Qed.

Lemma round_line_mod (n : Z) : round_line n mod 64 = 0.
Proof. unfold round_line. apply Z.mod_mul. lia. Qed.

Lemma round_pad_id (n : Z) : n mod 32 = 0 -> round_pad n = n.
Proof.
  intros. unfold round_pad. pose proof (Z.div_mod n 32).
  replace (n + 31) with (n / 32 * 32 + 31) by lia.
  rewrite Z.div_add_l by lia. change (31 / 32) with 0. lia.
Qed.

Lemma round_line_id (n : Z) : n mod 64 = 0 -> round_line n = n.
Proof.
  intros. unfold round_line. pose proof (Z.div_mod n 64).
  replace (n + 63) with (n / 64 * 64 + 63) by lia.
  rewrite Z.div_add_l by lia. change (63 / 64) with 0. lia.
Qed.

Lemma aligned_pad_64 (p : Z) :
  u16 p -> Z.land (p +64 31) (wrap64 (Z.lnot 31)) = round_pad p.
Proof.
  unfold u16, UINT16_MAX. intros.
  change (align_up 64 5 p = round_pad p). rewrite align_up_spec by lia.
  unfold round_pad. do 2 f_equal. lia.
Qed.

Lemma aligned_pad_32 (p : Z) :
  u16 p -> Z.land (p +32 31) (wrap32 (Z.lnot 31)) = round_pad p.
Proof.
  unfold u16, UINT16_MAX. intros.
  change (align_up 32 5 p = round_pad p). rewrite align_up_spec by lia.
  unfold round_pad. do 2 f_equal. lia.
Qed.

Lemma aligned_line_64 (n : Z) :
  0 <= n <= UINT32_MAX ->
  Z.land (n +64 kCpuLineCacheSizeMin1) (wrap64 (Z.lnot kCpuLineCacheSizeMin1)) = round_line n.
Proof.
  unfold UINT32_MAX. intros.
  change (align_up 64 6 n = round_line n). rewrite align_up_spec by lia.
  unfold round_line. do 2 f_equal. lia.
Qed.

(** The payload part of the capacity computation is the round-up to a line. *)
Lemma capacity_round_line (n : Z) :
  0 <= n <= UINT32_MAX ->
  (if negb (n =? 0) && negb (n mod kCpuLineCacheSize =? 0) then
     Z.land ((if n <? kCpuLineCacheSize then kCpuLineCacheSize else n) +64 kCpuLineCacheSizeMin1)
            (wrap64 (Z.lnot kCpuLineCacheSizeMin1))
   else n) = round_line n.
Proof.
  intros Hn. unfold kCpuLineCacheSize at 1 2 3. split_test.
  - split_test.
    + rewrite aligned_line_64 by word_lia.
      unfold round_line.
      replace (n + 63) with (1 * 64 + (n - 1)) by lia.
      rewrite Z.div_add_l, (Z.div_small (n - 1)) by lia. reflexivity.
    + apply aligned_line_64. lia.
  - symmetry. apply round_line_id.
    apply andb_false_iff in E. destruct E; bool_facts; subst; done.
Qed.

(** Closed form of the checked capacity computation. *)
Lemma try_capacity_exact (min pad size_max : Z) :
  0 <= min -> u16 pad -> u64 size_max ->
  sbufTryComputeCapacityWithin min pad size_max =
  (if decide (min <= UINT32_MAX /\ round_pad pad <= UINT16_MAX /\
              round_line min + round_pad pad <= UINT32_MAX /\
              round_line min + round_pad pad + 64 <= size_max)
   then Some (round_line min + round_pad pad) else None).
Proof.
  intros Hmin Hpad Hsz. unfold sbufTryComputeCapacityWithin.
  rewrite aligned_pad_64 by done.
  pose proof (round_pad_bounds pad). pose proof (round_line_bounds min).
  unfold u16, u64 in *.
  destruct (round_pad pad >? UINT16_MAX) eqn:E1; bool_facts; [case_decide; [lia|done]|].
  destruct (min >? UINT32_MAX) eqn:E2; bool_facts; [case_decide; [lia|done]|].
  cbv zeta. rewrite capacity_round_line by lia.
  rewrite wrap64_small by word_lia.
  destruct (round_line min + round_pad pad >? UINT32_MAX) eqn:E3; bool_facts;
    [case_decide; [lia|done]|].
  change (SIZEOF_STRUCT_SBUF + kSbufAllocationAlignment) with 64.
  destruct (size_max <? 64) eqn:E4; bool_facts; simpl.
  { case_decide; [lia|done]. }
  rewrite wrap64_small by word_lia.
  destruct (round_line min + round_pad pad >? size_max - 64) eqn:E5; bool_facts;
    (case_decide; [|done || lia]); [lia|].
  f_equal. apply wrap32_small. lia.
Qed.

Lemma align_left_padding_ok (p : Z) :
  u16 p -> round_pad p <= UINT16_MAX -> sbufAlignLeftPadding p = Ok (round_pad p).
Proof.
  intros Hp Hr. unfold sbufAlignLeftPadding. rewrite aligned_pad_32 by done.
  rewrite abort_if_false by (rewrite Z.gtb_ltb; apply Z.ltb_ge; lia). simpl.
  pose proof (round_pad_bounds p). unfold u16 in *.
  rewrite wrap16_small by lia. reflexivity.
Qed.

Lemma align_left_padding_abort (p : Z) :
  u16 p -> UINT16_MAX < round_pad p -> sbufAlignLeftPadding p = Fail AbortProgram.
Proof.
  intros Hp Hr. unfold sbufAlignLeftPadding. rewrite aligned_pad_32 by done.
  unfold abort_if. rewrite Z.gtb_ltb.
  replace (UINT16_MAX <? round_pad p) with true by (symmetry; apply Z.ltb_lt; lia).
  reflexivity.
Qed.

Lemma try_capacity_creatable (min pad : Z) :
  creatable min pad -> sbufTryComputeCapacity min (round_pad pad) = Some (round_line min + round_pad pad).
Proof.
  intros (Hmin & Hpad & Hr & Ht). unfold sbufTryComputeCapacity.
  pose proof (round_pad_bounds pad Hpad). pose proof (round_line_bounds min Hmin).
  rewrite try_capacity_exact; unfold u16, u64, SIZE_MAX, UINT64_MAX, UINT32_MAX, UINT16_MAX in *; try lia.
  rewrite (round_pad_id (round_pad pad)) by apply round_pad_mod.
  case_decide; [done|lia].
Qed.

(** A request that fits well below 4 GiB is creatable. *)
Lemma creatable_small (min pad : Z) :
  0 <= min -> 0 <= pad -> pad <= UINT16_MAX - 31 -> min <= UINT32_MAX - UINT16_MAX - 63 ->
  creatable min pad.
Proof.
  unfold creatable. intros.
  pose proof (round_pad_bounds pad). pose proof (round_line_bounds min).
  unfold UINT16_MAX, UINT32_MAX in *. lia.
Qed.

Lemma creatable_mono (m m' pad : Z) :
  0 <= m <= m' -> creatable m' pad -> creatable m pad.
Proof.
  unfold creatable. intros Hm (? & ? & ? & Ht). repeat split; try lia.
  assert (round_line m <= round_line m'); [|lia].
  unfold round_line. pose proof (Z.div_le_mono (m + 63) (m' + 63) 64). lia.
Qed.

Lemma creatable_le (n n' p p' : Z) :
  0 <= n <= n' -> 0 <= p <= p' -> creatable n' p' -> creatable n p.
Proof.
  unfold creatable, round_line, round_pad. intros Hn Hp (_ & _ & H1 & H2).
  pose proof (Z.div_le_mono (n + 63) (n' + 63) 64). pose proof (Z.div_le_mono (p + 31) (p' + 31) 32).
  splits; lia.
Qed.

Lemma try_capacity_some (n pad : Z) :
  creatable n pad -> u16 pad ->
  sbufTryComputeCapacity n pad = Some (round_line n + round_pad pad).
Proof.
  intros (Hn & Hp & Hr & Ht) Hu. unfold sbufTryComputeCapacity.
  pose proof (round_line_bounds n Hn). pose proof (round_pad_bounds pad Hp).
  rewrite try_capacity_exact by (auto; unfold u64, SIZE_MAX, UINT64_MAX; lia).
  rewrite decide_True; [done|]. unfold SIZE_MAX, UINT64_MAX, UINT32_MAX in *. lia.
Qed.

Lemma try_capacity_none (n pad : Z) :
  0 <= n -> u16 pad -> ~ creatable n pad -> sbufTryComputeCapacity n pad = None.
Proof.
  intros Hn Hu Hc. unfold sbufTryComputeCapacity.
  rewrite try_capacity_exact by (auto; unfold u64, SIZE_MAX, UINT64_MAX; lia).
  rewrite decide_False; [done|]. intros ?. apply Hc. unfold creatable, u16 in *. lia.
Qed.

Lemma charge_ordinary b :
  sbuf_wf b -> ordinary b -> sbufGetAllocationCharge b = 64 + capacity b.
Proof.
  intros W O. unfold sbufGetAllocationCharge, ordinary, sbufGetTotalCapacity in *. rewrite O.
  destruct W. unfold SIZEOF_STRUCT_SBUF, kSbufAllocationAlignment, UINT32_MAX in *.
  rewrite !wrap64_small by (unfold UINT64_MAX; rewrite ?wrap64_small; unfold UINT64_MAX; lia). lia.
Qed.

Section Lemmas.
Context `{Allocator}.

Lemma create_ok (min pad : Z) :
  creatable min pad ->
  sbufCreateWithPadding min pad = Ok (sbufAllocate (round_line min + round_pad pad) (round_pad pad)).
Proof.
  intros Hc. unfold sbufCreateWithPadding.
  pose proof Hc as (Hmin & Hpad & Hr & Ht). pose proof (round_pad_bounds pad Hpad).
  rewrite align_left_padding_ok by word_lia. simpl.
  rewrite try_capacity_creatable by done. reflexivity.
Qed.

Lemma create_fails (min pad : Z) :
  0 <= min <= UINT32_MAX -> u16 pad -> ~ creatable min pad ->
  sbufCreateWithPadding min pad = Fail AbortProgram.
Proof.
  intros Hmin Hpad Hn. unfold sbufCreateWithPadding.
  destruct (Z.le_gt_cases (round_pad pad) UINT16_MAX) as [Hle|Hgt].
  2: { rewrite align_left_padding_abort by done. reflexivity. }
  rewrite align_left_padding_ok by done. simpl.
  pose proof (round_pad_bounds pad). unfold sbufTryComputeCapacity. unfold u16 in *.
  rewrite try_capacity_exact by word_lia.
  rewrite (round_pad_id (round_pad pad)) by apply round_pad_mod.
  case_decide as D; [|done]. destruct Hn. unfold creatable. lia.
Qed.

Lemma allocate_wf (min pad : Z) :
  creatable min pad -> sbuf_wf (sbufAllocate (round_line min + round_pad pad) (round_pad pad)).
Proof.
  intros (Hmin & Hpad & Hr & Ht).
  pose proof (round_pad_bounds pad Hpad). pose proof (round_line_bounds min Hmin).
  unfold sbufAllocate. split; simpl; unfold UINT16_MAX in *; try lia.
  - apply round_pad_mod.
  - apply alloc_fill_len. lia.
  - apply alloc_fill_u8.
Qed.

(** Everything a caller needs to know about a fresh buffer. *)
Lemma create_spec (min pad : Z) :
  creatable min pad ->
  exists b, sbufCreateWithPadding min pad = Ok b /\ sbuf_wf b /\ ordinary b /\
    flags b = 0 /\ len b = 0 /\ curpos b = round_pad pad /\ l_pad b = round_pad pad /\
    capacity b = round_line min + round_pad pad /\ payload b = [].
Proof.
  intros Hc. eexists. split; [by apply create_ok|].
  split; [by apply allocate_wf|]. splits; reflexivity.
Qed.

(** ** Cursor movement keeps the buffer well formed *)

Lemma writeable_size (b : sbuf_t) :
  sbuf_wf b -> sbufGetMaximumWriteableSize b = capacity b - curpos b.
Proof.
  intros W. sbuf_facts. unfold sbufGetMaximumWriteableSize.
  apply wrap32_small. unfold UINT32_MAX. lia.
Qed.

Lemma capacity_no_padding (b : sbuf_t) :
  sbuf_wf b -> sbufGetTotalCapacityNoPadding b = capacity b - l_pad b.
Proof.
  intros W. sbuf_facts. unfold sbufGetTotalCapacityNoPadding.
  apply wrap32_small. unfold UINT32_MAX. lia.
Qed.

Lemma tail_capacity_ok (b : sbuf_t) :
  sbuf_wf b -> ordinary b -> sbufGetTailCapacity b = Ok (capacity b - curpos b - len b).
Proof.
  intros W O. sbuf_facts. unfold sbufGetTailCapacity, ordinary in *. rewrite O. simpl.
  rewrite assert_bind by lia. unwrap32. rewrite assert_bind by lia. reflexivity.
Qed.

Lemma set_length_ok (b : sbuf_t) (n : Z) :
  sbuf_wf b -> 0 <= n -> curpos b + n <= capacity b ->
  sbufSetLength b n = Ok (set_pos_len b (curpos b) n).
Proof.
  intros W Hn Hfit. sbuf_facts. unfold sbufSetLength. unwrap32.
  rewrite assert_bind by lia. reflexivity.
Qed.

Lemma set_pos_len_wf (b : sbuf_t) (pos n : Z) :
  sbuf_wf b -> 0 <= pos -> 0 <= n -> pos + n <= capacity b -> sbuf_wf (set_pos_len b pos n).
Proof. intros W ???. destruct W. split; simpl; auto. Qed.

Lemma shift_right_ok (b : sbuf_t) (n : Z) :
  sbuf_wf b -> 0 <= n <= len b ->
  sbufShiftRight b n = Ok (set_pos_len b (curpos b + n) (len b - n)).
Proof.
  intros W Hn. sbuf_facts. unfold sbufShiftRight.
  rewrite assert_bind by lia. unwrap32. reflexivity.
Qed.

Lemma shift_left_ok (b : sbuf_t) (n : Z) :
  sbuf_wf b -> 0 <= n <= curpos b ->
  sbufShiftLeft b n = Ok (set_pos_len b (curpos b - n) (len b + n)).
Proof.
  intros W Hn. sbuf_facts. unfold sbufShiftLeft.
  rewrite assert_bind by (unfold sbufGetLeftCapacity; lia). unwrap32. reflexivity.
Qed.

Lemma zlen_payload (b : sbuf_t) : sbuf_wf b -> zlen (payload b) = len b.
Proof. intros W. sbuf_facts. unfold payload. apply zlen_slice; lia. Qed.

Lemma payload_u8 (b : sbuf_t) : sbuf_wf b -> Forall u8 (payload b).
Proof. intros W. destruct W. unfold payload. by apply Forall_slice. Qed.

(** Payload of a buffer whose cursor moved over its own storage. *)
Lemma payload_shift_right (b : sbuf_t) (n : Z) :
  sbuf_wf b -> 0 <= n <= len b ->
  payload (set_pos_len b (curpos b + n) (len b - n)) = drop (Z.to_nat n) (payload b).
Proof.
  intros W Hn. sbuf_facts. unfold payload. simpl. rewrite slice_drop by lia. reflexivity.
Qed.

Lemma payload_truncate (b : sbuf_t) (n : Z) :
  sbuf_wf b -> 0 <= n <= len b ->
  payload (set_pos_len b (curpos b) n) = take (Z.to_nat n) (payload b).
Proof.
  intros W Hn. unfold payload. simpl. rewrite slice_take by lia. reflexivity.
Qed.

Lemma read_at_ok (b : sbuf_t) (off n : Z) :
  sbuf_wf b -> 0 <= off -> 0 <= n -> curpos b + off + n <= capacity b ->
  read_at b off n = Ok (slice (curpos b + off) n (buf b)).
Proof. intros W ???. sbuf_facts. unfold read_at. apply mem_read_ok; lia. Qed.

Lemma read_payload (b : sbuf_t) (n : Z) :
  sbuf_wf b -> 0 <= n <= len b -> read_at b 0 n = Ok (take (Z.to_nat n) (payload b)).
Proof.
  intros W Hn. rewrite read_at_ok by (sbuf_facts; try done; lia).
  unfold payload. rewrite slice_take by lia. do 2 f_equal. lia.
Qed.

Lemma write_at_ok (b : sbuf_t) (off : Z) (bs : list Z) :
  sbuf_wf b -> 0 <= off -> curpos b + off + zlen bs <= capacity b ->
  write_at b off bs = Ok (set_buf b (splice_at (buf b) (curpos b + off) bs)).
Proof.
  intros W ??. sbuf_facts. unfold write_at. rewrite mem_write_ok by lia. reflexivity.
Qed.

Lemma set_buf_wf (b : sbuf_t) (off : Z) (bs : list Z) :
  sbuf_wf b -> 0 <= off -> off + zlen bs <= capacity b -> Forall u8 bs ->
  sbuf_wf (set_buf b (splice_at (buf b) off bs)).
Proof.
  intros W ?? Hbs. destruct W. split; simpl; auto.
  - rewrite zlen_splice_at; lia.
  - apply Forall_splice_at; auto.
Qed.
End Lemmas.
#[export] Hint Resolve set_pos_len_wf set_buf_wf payload_u8 round_pad_id creatable_small : ww.

(** ** The checksum-repair flag *)

Lemma splice_flag_bit (b : sbuf_t) : sbufIsSplice b = Z.testbit (flags b) 0.
Proof. unfold sbufIsSplice. change kSbufFlagSplice with (2 ^ 0). rewrite land_bit_zero by lia. apply negb_involutive. Qed.

Lemma recalc_flag_bit (b : sbuf_t) : sbufGetRecalculateChecksum b = Z.testbit (flags b) 2.
Proof.
  unfold sbufGetRecalculateChecksum. change kSbufFlagRecalculateChecksum with (2 ^ 2).
  rewrite land_bit_zero by lia. apply negb_involutive.
Qed.

(** Setting the request on an ordinary buffer succeeds, is read back, and
    changes nothing else. *)
Lemma set_recalc_spec (b : sbuf_t) (r : bool) :
  sbuf_wf b -> ordinary b ->
  exists f, sbufSetRecalculateChecksum b r = Ok (set_flags b f) /\
    sbuf_wf (set_flags b f) /\ ordinary (set_flags b f) /\
    sbufGetRecalculateChecksum (set_flags b f) = r /\ (flags b = 0 -> r = false -> f = 0).
Proof.
  intros W O. unfold sbufSetRecalculateChecksum, ordinary in *. rewrite O.
  rewrite assert_bind by (destruct r; reflexivity).
  rewrite splice_flag_bit in O.
  exists (if r then Z.lor (flags b) kSbufFlagRecalculateChecksum
          else Z.land (flags b) (wrap16 (Z.lnot kSbufFlagRecalculateChecksum))).
  split; [destruct r; reflexivity|].
  rewrite splice_flag_bit, recalc_flag_bit. destruct W.
  split; [split; simpl; auto|split; [|split]]; cbn [flags set_flags].
  - destruct r; [pose proof (lor_range 16 (flags b) 4)|
      pose proof (land_range 16 (flags b) (wrap16 (Z.lnot 4)))];
      change kSbufFlagRecalculateChecksum with 4; unfold UINT16_MAX in *; lia.
  - destruct r.
    + rewrite Z.lor_spec, O. reflexivity.
    + rewrite Z.land_spec, O. reflexivity.
  - destruct r.
    + rewrite Z.lor_spec. apply orb_true_r.
    + rewrite Z.land_spec. apply andb_false_r.
  - intros Hf ->. rewrite Hf. reflexivity.
Qed.

Lemma payload_set_flags (b : sbuf_t) (f : Z) : payload (set_flags b f) = payload b.
Proof. reflexivity. Qed.

(** ** Appending, growing, moving *)

(** The buffer after [bs] were written behind its payload. *)
Definition appended (b : sbuf_t) (bs : list Z) : sbuf_t :=
  mk_sbuf (curpos b) (len b + zlen bs) (capacity b) (l_pad b) (flags b)
    (splice_at (buf b) (curpos b + len b) bs).

Lemma appended_wf (b : sbuf_t) (bs : list Z) :
  sbuf_wf b -> Forall u8 bs -> curpos b + len b + zlen bs <= capacity b ->
  sbuf_wf (appended b bs).
Proof.
  intros W Hbs Hfit. pose proof (zlen_nonneg bs). destruct W.
  split; simpl; auto; try lia.
  - rewrite zlen_splice_at; lia.
  - apply Forall_splice_at; auto.
Qed.

Lemma payload_appended (b : sbuf_t) (bs : list Z) :
  sbuf_wf b -> curpos b + len b + zlen bs <= capacity b ->
  payload (appended b bs) = payload b ++ bs.
Proof.
  intros W Hfit. pose proof (zlen_nonneg bs). destruct W. unfold payload. simpl.
  rewrite slice_split by lia. f_equal.
  - apply slice_splice_before; lia.
  - apply slice_splice_same; lia.
Qed.

Section Transfer.
Context `{Allocator}.

(** Copying a whole buffer into an empty one. *)
Lemma copy_into (f b : sbuf_t) :
  sbuf_wf f -> ordinary f -> len f = 0 -> sbuf_wf b -> curpos f + len b <= capacity f ->
  exists g,
    (f ← sbufSetLength f (len b);
     f ← sbufWriteBuf f b (len b);
     sbufSetRecalculateChecksum f (sbufGetRecalculateChecksum b)) = Ok g /\
    sbuf_wf g /\ ordinary g /\ payload g = payload b /\ len g = len b /\
    curpos g = curpos f /\ l_pad g = l_pad f /\ capacity g = capacity f /\
    sbufGetRecalculateChecksum g = sbufGetRecalculateChecksum b.
Proof.
  intros Wf Of Lf W Hfit. pose proof (wf_len b W) as Hl. pose proof (wf_curpos f Wf) as Hcf.
  rewrite (ok_bind _ _ _ (set_length_ok f (len b) Wf Hl Hfit)). unfold sbufWriteBuf.
  assert (Wf' : sbuf_wf (set_pos_len f (curpos f) (len b))) by (auto with ww).
  rewrite writeable_size by done. cbn [capacity curpos set_pos_len].
  rewrite assert_bind by lia. rewrite read_payload by (auto; lia).
  change (Ok ?x ≫= ?k) with (k x). cbv beta.
  rewrite take_ge by (pose proof (zlen_payload b W); unfold zlen in *; lia).
  rewrite write_at_ok by (auto; cbn [capacity curpos set_pos_len];
    rewrite ?zlen_payload by done; lia).
  change (Ok ?x ≫= ?k) with (k x). cbv beta. set (g := set_buf _ _).
  assert (Eg : g = appended f (payload b)).
  { unfold g, appended, set_buf, set_pos_len. simpl. rewrite zlen_payload, Lf by done.
    f_equal; lia. }
  assert (Wg : sbuf_wf g).
  { rewrite Eg. apply appended_wf; auto using payload_u8. rewrite zlen_payload by done. lia. }
  destruct (set_recalc_spec g (sbufGetRecalculateChecksum b) Wg Of) as (fl & -> & ? & ? & ? & _).
  eexists. split; [done|]. split; [done|]. split; [done|].
  rewrite payload_set_flags, Eg, payload_appended by (auto; rewrite ?zlen_payload by done; lia).
  simpl. rewrite zlen_payload by done. splits; auto; [|lia].
  unfold payload. rewrite Lf, slice_zero. reflexivity.
Qed.

(** A buffer moved into fresh storage keeps payload and request. *)
Lemma reserve_grows (b : sbuf_t) (n : Z) :
  sbuf_wf b -> ordinary b -> 0 <= n -> capacity b - curpos b < n ->
  creatable (Z.max (len b) n) (l_pad b) ->
  exists b', sbufReserveSpace b n = Ok b' /\ sbuf_wf b' /\ ordinary b' /\
    payload b' = payload b /\ len b' = len b /\ n <= capacity b' - curpos b' /\
    l_pad b' = l_pad b /\ curpos b' = l_pad b /\
    sbufGetRecalculateChecksum b' = sbufGetRecalculateChecksum b.
Proof.
  intros W O Hn Hbig Hc. unfold sbufReserveSpace. rewrite writeable_size by done.
  replace (capacity b - curpos b <? n) with true by lia.
  destruct (create_spec _ _ Hc) as (f & Ef & Wf & Of & Ff & Lf & Cf & Pf & Kf & _).
  rewrite (ok_bind _ _ _ Ef).
  assert (Hp : round_pad (l_pad b) = l_pad b) by (apply round_pad_id; apply W).
  assert (Hr : Z.max (len b) n <= round_line (Z.max (len b) n))
    by (apply round_line_bounds; lia).
  destruct (copy_into f b Wf Of Lf W) as (g & Eg & ? & ? & ? & ? & ? & ? & ? & ?); [lia|].
  exists g. split; [exact Eg|]. splits; auto; lia.
Qed.

Lemma reserve_spec (b : sbuf_t) (n : Z) :
  sbuf_wf b -> ordinary b -> 0 <= n -> creatable (Z.max (len b) n) (l_pad b) ->
  exists b', sbufReserveSpace b n = Ok b' /\ sbuf_wf b' /\ ordinary b' /\
    payload b' = payload b /\ len b' = len b /\ n <= capacity b' - curpos b' /\
    l_pad b' = l_pad b /\
    sbufGetRecalculateChecksum b' = sbufGetRecalculateChecksum b.
Proof.
  intros W O Hn Hc.
  destruct (Z.lt_ge_cases (capacity b - curpos b) n) as [Hlt|Hge].
  - destruct (reserve_grows b n) as (b' & ?); auto. exists b'. tauto.
  - exists b. unfold sbufReserveSpace. rewrite writeable_size by done.
    replace (capacity b - curpos b <? n) with false by lia.
    splits; auto.
Qed.

Lemma reserve_enough (b : sbuf_t) (n : Z) :
  sbuf_wf b -> n <= capacity b - curpos b -> sbufReserveSpace b n = Ok b.
Proof.
  intros W Hn. unfold sbufReserveSpace. rewrite writeable_size by done.
  replace (capacity b - curpos b <? n) with false by lia. reflexivity.
Qed.
End Transfer.

Section Moves.
Context `{Allocator}.

(** Setting the length, reading the source and writing behind the old payload
    is an append. *)
Lemma append_payload (root b : sbuf_t) :
  sbuf_wf root -> sbuf_wf b -> curpos root + len root + len b <= capacity root ->
  sbufConcatNoCheck root b = Ok (appended root (payload b)).
Proof.
  intros Wr Wb Hfit. unfold sbufConcatNoCheck, sbufGetLength.
  pose proof Wr as W1. pose proof Wb as W2. destruct W1, W2.
  rewrite wrap32_small by lia.
  rewrite (ok_bind _ _ _ (set_length_ok root (len root + len b) Wr ltac:(lia) ltac:(lia))).
  rewrite (ok_bind _ _ _ (read_payload b (len b) Wb ltac:(lia))).
  rewrite take_ge by (pose proof (zlen_payload b Wb); unfold zlen in *; lia).
  rewrite write_at_ok; cbn [capacity curpos set_pos_len]; rewrite ?zlen_payload by done.
  - unfold appended. rewrite zlen_payload by done. reflexivity.
  - auto with ww.
  - lia.
  - lia.
Qed.

Lemma concat_spec (root b : sbuf_t) :
  sbuf_wf root -> ordinary root -> sbuf_wf b ->
  creatable (len root + len b) (l_pad root) ->
  exists r, sbufConcat root b = Ok r /\ sbuf_wf r /\ ordinary r /\
    payload r = payload root ++ payload b /\ l_pad r = l_pad root /\
    len r = len root + len b /\
    sbufGetRecalculateChecksum r = sbufGetRecalculateChecksum root.
Proof.
  intros Wr Or Wb Hc. pose proof Wr as W1. pose proof Wb as W2. destruct W1, W2.
  pose proof (round_line_bounds (len root + len b)). pose proof Hc as (_ & _ & ? & ?).
  pose proof (round_pad_bounds (l_pad root)).
  unfold sbufConcat. rewrite abort_bind by
    (unfold sbufGetLength; unwrap32; unfold UINT32_MAX in *; lia).
  unfold sbufGetLength. rewrite wrap32_small by lia.
  destruct (reserve_spec root (len root + len b)) as (r & Er & Wr' & Or' & Pr & Lr & Sr & Kr & Fr);
    auto; [lia|rewrite Z.max_r by lia; done|].
  rewrite (ok_bind _ _ _ Er).
  assert (Hfit : curpos r + len r + len b <= capacity r) by lia.
  pose proof (append_payload r b Wr' Wb Hfit) as Ha.
  unfold sbufConcatNoCheck, sbufGetLength in Ha.
  rewrite Lr, wrap32_small in Ha by lia. rewrite Ha.
  exists (appended r (payload b)). split; [done|].
  split; [apply appended_wf; auto using payload_u8; rewrite zlen_payload by done; lia|].
  rewrite payload_appended, Pr by (auto; rewrite ?zlen_payload by done; lia).
  splits; simpl; auto.
  rewrite zlen_payload by done. lia.
Qed.

(** Moving [n] bytes from the head of one buffer to the tail of another. *)
Lemma move_spec (dest source : sbuf_t) (n : Z) :
  sbuf_wf dest -> sbuf_wf source -> 0 <= n <= len source ->
  len dest + n <= capacity dest - curpos dest ->
  exists d, sbufMoveTo dest source n =
      Ok (d, set_pos_len source (curpos source + n) (len source - n)) /\
    sbuf_wf d /\ payload d = payload dest ++ take (Z.to_nat n) (payload source) /\
    flags d = flags dest /\ curpos d = curpos dest /\ l_pad d = l_pad dest /\
    capacity d = capacity dest /\ len d = len dest + n.
Proof.
  intros Wd Ws Hn Hfit. unfold sbufMoveTo, sbufGetLength.
  pose proof Wd as W1. pose proof Ws as W2. destruct W1, W2.
  rewrite assert_bind by lia.
  rewrite assert_bind by (unwrap32; unfold UINT32_MAX in *; lia).
  rewrite writeable_size by done. rewrite wrap32_small by lia.
  rewrite assert_bind by lia.
  rewrite (ok_bind _ _ _ (read_payload source n Ws Hn)).
  set (bs := take (Z.to_nat n) (payload source)).
  assert (Hbs : zlen bs = n).
  { unfold bs. pose proof (zlen_payload source Ws). unfold zlen in *. rewrite length_take. lia. }
  rewrite (ok_bind _ _ _ (write_at_ok dest (len dest) bs Wd wf_len0 ltac:(lia))).
  assert (Hu : Forall u8 bs) by (apply Forall_take; by apply payload_u8).
  assert (Wm : sbuf_wf (set_buf dest (splice_at (buf dest) (curpos dest + len dest) bs)))
    by (auto with ww).
  rewrite (ok_bind _ _ _ (set_length_ok _ (len dest + n) Wm ltac:(lia) ltac:(simpl; lia))).
  rewrite (ok_bind _ _ _ (shift_right_ok source n Ws Hn)).
  exists (appended dest bs). split.
  { unfold appended. rewrite Hbs. reflexivity. }
  split; [apply appended_wf; auto; lia|].
  rewrite payload_appended by (auto; lia). splits; simpl; auto. lia.
Qed.

Lemma advanced_wf (b : sbuf_t) (n : Z) :
  sbuf_wf b -> 0 <= n <= len b -> sbuf_wf (set_pos_len b (curpos b + n) (len b - n)).
Proof. intros W Hn. pose proof W as W0. destruct W0. auto with ww. Qed.

Lemma slice_spec (b : sbuf_t) (n : Z) :
  sbuf_wf b -> ordinary b -> 0 <= n <= len b -> creatable n (l_pad b) ->
  exists s r, sbufSlice b n = Ok (s, r) /\ sbuf_wf s /\ sbuf_wf r /\ ordinary s /\
    payload s = take (Z.to_nat n) (payload b) /\ payload r = drop (Z.to_nat n) (payload b) /\
    curpos s = l_pad b /\ l_pad s = l_pad b /\ flags s = 0 /\ flags r = flags b.
Proof.
  intros W O Hn Hc. unfold sbufSlice, ordinary in *. rewrite O.
  rewrite assert_bind by done. rewrite assert_bind by (unfold sbufGetLength; lia).
  destruct (create_spec _ _ Hc) as (f & Ef & Wf & Of & Ff & Lf & Cf & Pf & Kf & Df).
  rewrite (ok_bind _ _ _ Ef).
  pose proof (round_line_bounds n).
  destruct (move_spec f b n) as (d & Ed & Wd & Pd & Fd & Cd & Ld & _ & _); auto; [lia|].
  rewrite Ed. exists d, (set_pos_len b (curpos b + n) (len b - n)).
  assert (round_pad (l_pad b) = l_pad b) by (apply round_pad_id; apply W).
  splits; auto using advanced_wf; try congruence.
  - unfold ordinary, sbufIsSplice. rewrite Fd, Ff. reflexivity.
  - rewrite Pd, Df. reflexivity.
  - by apply payload_shift_right.
Qed.
End Moves.

Section Copies.
Context `{Allocator}.

Lemma duplicate_to_fits (b dest : sbuf_t) :
  sbuf_wf b -> sbuf_wf dest -> ordinary dest -> curpos b + len b <= capacity dest ->
  exists d, sbufDuplicateTo b dest = Ok (true, d) /\ sbuf_wf d /\ ordinary d /\
    payload d = payload b /\ curpos d = curpos b /\ len d = len b /\
    capacity d = capacity dest /\ l_pad d = l_pad dest /\
    sbufGetRecalculateChecksum d = sbufGetRecalculateChecksum b.
Proof.
  intros Wb Wd Od Hfit. pose proof Wb as W1. pose proof Wd as W2. destruct W1, W2.
  unfold sbufDuplicateTo, sbufGetLength, sbufGetTotalCapacity.
  rewrite wrap32_small by word_lia.
  replace ((curpos b >? capacity dest) || (len b >? capacity dest - curpos b))%bool
    with false by lia.
  set (e := set_pos_len dest (curpos b) (len b)).
  assert (We : sbuf_wf e) by (apply set_pos_len_wf; auto; lia).
  assert (Es : sbufSetLength (set_pos_len dest (curpos b) (len dest)) (len b) = Ok e).
  { unfold sbufSetLength. cbn [curpos capacity set_pos_len].
    rewrite wrap32_small by lia. rewrite assert_bind by lia. reflexivity. }
  rewrite (ok_bind _ _ _ Es).
  assert (Hw : exists w, (if len b >? 0 then
              bytes ← read_at b 0 (len b); write_at e 0 bytes else mret e) = Ok w /\
            sbuf_wf w /\ payload w = payload b /\ curpos w = curpos b /\ len w = len b /\
            capacity w = capacity dest /\ l_pad w = l_pad dest /\ flags w = flags dest).
  { destruct (Z.gtb_spec (len b) 0) as [Hpos|Hz].
    - rewrite (ok_bind _ _ _ (read_payload b (len b) Wb ltac:(lia))).
      rewrite take_ge by (pose proof (zlen_payload b Wb); unfold zlen in *; lia).
      rewrite write_at_ok by (auto; simpl; rewrite ?zlen_payload by done; lia).
      eexists. split; [done|]. rewrite Z.add_0_r.
      split; [apply set_buf_wf; auto using payload_u8; simpl; rewrite zlen_payload by done; lia|].
      splits; auto. unfold payload at 1. simpl.
      rewrite <- (zlen_payload b Wb). apply slice_splice_same; rewrite ?zlen_payload by done; lia.
    - exists e. splits; auto. unfold payload. simpl.
      replace (len b) with 0 by lia. reflexivity. }
  destruct Hw as (w & Ew & Ww & Pw & Cw & Lw & Kw & Dw & Fw).
  rewrite (ok_bind _ _ _ Ew).
  assert (Ow : ordinary w) by (unfold ordinary, sbufIsSplice in *; rewrite Fw; done).
  destruct (set_recalc_spec w (sbufGetRecalculateChecksum b) Ww Ow) as (fl & Ef & ? & ? & ? & _).
  rewrite (ok_bind _ _ _ Ef). eexists. split; [done|]. simpl.
  splits; auto.
Qed.

Lemma duplicate_to_small (b dest : sbuf_t) :
  sbuf_wf b -> sbuf_wf dest -> capacity dest < curpos b + len b ->
  sbufDuplicateTo b dest = Ok (false, dest).
Proof.
  intros Wb Wd Hbig. pose proof Wb as W1. pose proof Wd as W2. destruct W1, W2.
  unfold sbufDuplicateTo, sbufGetLength, sbufGetTotalCapacity.
  destruct (Z.gtb_spec (curpos b) (capacity dest)) as [?|?]; [reflexivity|].
  rewrite wrap32_small by word_lia.
  replace (len b >? capacity dest - curpos b) with true by lia. reflexivity.
Qed.

Lemma duplicate_spec (b : sbuf_t) :
  sbuf_wf b -> creatable (capacity b - l_pad b) (l_pad b) ->
  exists d, sbufDuplicate b = Ok d /\ sbuf_wf d /\ ordinary d /\ payload d = payload b /\
    curpos d = curpos b /\ len d = len b /\ l_pad d = l_pad b /\
    capacity b <= capacity d /\
    sbufGetRecalculateChecksum d = sbufGetRecalculateChecksum b.
Proof.
  intros W Hc. unfold sbufDuplicate. rewrite capacity_no_padding by done.
  destruct (create_spec _ _ Hc) as (f & Ef & Wf & Of & Ff & Lf & Cf & Pf & Kf & _).
  assert (round_pad (l_pad b) = l_pad b) by (apply round_pad_id; apply W).
  pose proof W as W0. destruct W0.
  pose proof (round_line_bounds (capacity b - l_pad b)).
  rewrite (ok_bind _ _ _ Ef).
  destruct (duplicate_to_fits b f) as (d & Ed & ? & ? & ? & ? & ? & ? & ? & ?); auto; [lia|].
  rewrite (ok_bind _ _ _ Ed). exists d. splits; auto; [lia|lia].
Qed.
End Copies.

(** ** Headers in the left padding *)

(** Prepending [h]: shift left over reserved room, then write. *)
Definition prepend (b : sbuf_t) (h : list Z) : outcome sbuf_t :=
  b ← sbufShiftLeft b (zlen h); sbufWrite b h.

Lemma prepend_ok (b : sbuf_t) (h : list Z) :
  sbuf_wf b -> Forall u8 h -> zlen h <= curpos b ->
  exists r, prepend b h = Ok r /\ sbuf_wf r /\ payload r = h ++ payload b /\
    curpos r = curpos b - zlen h /\ len r = len b + zlen h.
Proof.
  intros W Hu Hroom. pose proof W as W0. destruct W0. pose proof (zlen_nonneg h).
  unfold prepend, sbufWrite. rewrite (ok_bind _ _ _ (shift_left_ok b (zlen h) W ltac:(lia))).
  assert (Ws : sbuf_wf (set_pos_len b (curpos b - zlen h) (len b + zlen h)))
    by (auto with ww).
  rewrite write_at_ok by (auto; simpl; lia).
  eexists. split; [done|]. cbn [curpos len set_buf set_pos_len].
  split; [apply set_buf_wf; auto; simpl; lia|]. splits; auto.
  unfold payload. simpl. rewrite Z.add_0_r, (Z.add_comm (len b)), slice_split by lia.
  f_equal.
  - apply slice_splice_same; lia.
  - replace (curpos b - zlen h + zlen h) with (curpos b) by lia.
    apply slice_splice_after; lia.
Qed.

(** Little-endian integers survive a write and a read. *)
Lemma le_value_bytes (n : nat) (v : Z) : le_value (le_bytes n v) = v mod 2 ^ (8 * Z.of_nat n).
Proof.
  revert v. induction n as [|n IH]; intros v; cbn [le_bytes le_value].
  - rewrite Z.mod_1_r. reflexivity.
  - rewrite IH. unfold wrap8.
    replace (8 * Z.of_nat (S n)) with (8 + 8 * Z.of_nat n) by lia.
    rewrite Z.pow_add_r by lia. rewrite Z.rem_mul_r by (try apply Z.pow_nonzero; lia). lia.
Qed.

Lemma zlen_le_bytes (n : nat) (v : Z) : zlen (le_bytes n v) = Z.of_nat n.
Proof. revert v. induction n; intros; [done|]. cbn [le_bytes]. rewrite zlen_cons, IHn. lia. Qed.

Lemma le_bytes_u8 (n : nat) (v : Z) : Forall u8 (le_bytes n v).
Proof.
  revert v. induction n; intros; cbn [le_bytes]; constructor; auto.
  unfold u8, wrap8, UINT8_MAX. pose proof (Z.mod_pos_bound v (2 ^ 8)). lia.
Qed.

(** ** Every buffer the API can produce *)

Section Live.
Context `{Allocator}.

(** Buffers obtained from [sbufCreateWithPadding] by any sequence of
    operations that return.  [sbufSetLength] is used below the wrap of its
    assertion, see [sbufSetLength_assert_wraps]. *)
Inductive live : sbuf_t -> Prop :=
  | live_create min pad b :
      u32 min -> u16 pad -> sbufCreateWithPadding min pad = Ok b -> live b
  | live_reset b : live b -> live (sbufReset b)
  | live_recalc b r b' : live b -> sbufSetRecalculateChecksum b r = Ok b' -> live b'
  | live_shift_left b n b' : live b -> u32 n -> sbufShiftLeft b n = Ok b' -> live b'
  | live_shift_right b n b' : live b -> u32 n -> sbufShiftRight b n = Ok b' -> live b'
  | live_set_length b n b' :
      live b -> 0 <= n -> curpos b + n <= UINT32_MAX -> sbufSetLength b n = Ok b' -> live b'
  | live_consume b n b' : live b -> u32 n -> sbufConsume b n = Ok b' -> live b'
  | live_write b bs b' : live b -> Forall u8 bs -> sbufWrite b bs = Ok b' -> live b'
  | live_zeros b n b' : live b -> sbufWriteZeros b n = Ok b' -> live b'
  | live_write_buf t f n t' : live t -> live f -> sbufWriteBuf t f n = Ok t' -> live t'
  | live_reserve b n b' : live b -> u32 n -> sbufReserveSpace b n = Ok b' -> live b'
  | live_concat r b r' : live r -> live b -> sbufConcat r b = Ok r' -> live r'
  | live_concat_nocheck r b r' : live r -> live b -> sbufConcatNoCheck r b = Ok r' -> live r'
  | live_dup_to b d r d' : live b -> live d -> sbufDuplicateTo b d = Ok (r, d') -> live d'
  | live_dup b d : live b -> sbufDuplicate b = Ok d -> live d
  | live_move d s n d' s' r :
      live d -> live s -> u32 n -> sbufMoveTo d s n = Ok (d', s') -> r = d' \/ r = s' -> live r
  | live_slice b n s b' r :
      live b -> u32 n -> sbufSlice b n = Ok (s, b') -> r = s \/ r = b' -> live r.

Definition good (b : sbuf_t) : Prop := sbuf_wf b /\ ordinary b.

Lemma create_good (min pad : Z) (b : sbuf_t) :
  u32 min -> u16 pad -> sbufCreateWithPadding min pad = Ok b -> creatable min pad /\ good b.
Proof.
  intros Hm Hp E. unfold u32 in *.
  assert (Hc : creatable min pad).
  { destruct (decide (0 <= min /\ 0 <= pad /\ round_pad pad <= UINT16_MAX /\
      round_line min + round_pad pad <= UINT32_MAX)) as [?|Hn]; [done|].
    rewrite create_fails in E by done. discriminate. }
  split; [done|]. destruct (create_spec _ _ Hc) as (b' & E' & ? & ? & _).
  rewrite E in E'. injection E' as ->. done.
Qed.

Lemma set_pos_len_good (b : sbuf_t) (pos n : Z) :
  good b -> 0 <= pos -> 0 <= n -> pos + n <= capacity b -> good (set_pos_len b pos n).
Proof. intros [W O] ???. split; [by apply set_pos_len_wf|exact O]. Qed.

Lemma write_at_good (b : sbuf_t) (off : Z) (bs : list Z) (b' : sbuf_t) :
  good b -> Forall u8 bs -> write_at b off bs = Ok b' ->
  good b' /\ 0 <= curpos b + off /\ curpos b + off + zlen bs <= capacity b.
Proof.
  intros [W O] Hbs E. unfold write_at in E. apply bind_Ok in E as (l & El & E).
  apply mem_write_inv in El as (? & Hfit & ->). injection E as <-.
  rewrite (wf_storage b W) in Hfit.
  split; [|lia]. split; [auto with ww|exact O].
Qed.

Lemma read_at_u8 (b : sbuf_t) (off n : Z) (bs : list Z) :
  good b -> read_at b off n = Ok bs -> Forall u8 bs /\ zlen bs = n.
Proof.
  intros [W O] E. apply mem_read_inv in E as (? & ? & ? & ->).
  split; [apply Forall_slice; apply W|apply zlen_slice; lia].
Qed.

Lemma set_recalc_good (b : sbuf_t) (r : bool) (b' : sbuf_t) :
  good b -> sbufSetRecalculateChecksum b r = Ok b' -> good b'.
Proof.
  intros [W O] E. destruct (set_recalc_spec b r W O) as (f & E' & ? & ? & _).
  rewrite E in E'. injection E' as ->. split; done.
Qed.

Lemma write_buf_good (t f : sbuf_t) (n : Z) (t' : sbuf_t) :
  good t -> good f -> sbufWriteBuf t f n = Ok t' -> good t'.
Proof.
  intros Gt Gf E. unfold sbufWriteBuf in E.
  apply bind_Ok in E as (? & _ & E). apply bind_Ok in E as (bs & Er & E).
  apply read_at_u8 in Er as [Hu _]; auto. exact (proj1 (write_at_good _ _ _ _ Gt Hu E)).
Qed.

Lemma reserve_good (b : sbuf_t) (n : Z) (b' : sbuf_t) :
  good b -> u32 n -> sbufReserveSpace b n = Ok b' -> good b'.
Proof.
  intros [W O] Hn E. pose proof E as E'. unfold sbufReserveSpace in E'.
  destruct (sbufGetMaximumWriteableSize b <? n) eqn:T; [|injection E' as <-; split; done].
  rewrite writeable_size in T by done. bool_facts.
  apply bind_Ok in E'. destruct E' as (f & Ef & _).
  pose proof W as W0. destruct W0. unfold u32, sbufGetLength in *.
  apply create_good in Ef as [Hc _]; [|unfold u32; lia|unfold u16; lia].
  destruct (reserve_grows b n) as (r & Er & ? & ? & _); auto; [lia|].
  rewrite E in Er. injection Er as ->. split; done.
Qed.

(** Setting a length and writing up to it: the write bounds the length. *)
Lemma extend_good (root : sbuf_t) (n m : Z) (bs : list Z) (r' s' : sbuf_t) :
  good root -> 0 <= n -> zlen bs = m -> 0 <= m -> Forall u8 bs ->
  sbufSetLength root (n +32 m) = Ok r' -> write_at r' n bs = Ok s' -> good s'.
Proof.
  intros [W O] Hn Hm Hm' Hu Es Ew. pose proof W as W0. destruct W0.
  unfold sbufSetLength in Es. apply bind_Ok in Es as (? & A & Es).
  apply check_Ok in A. bool_facts. injection Es as <-.
  pose proof (wrap32_range (n + m)). pose proof Ew as Ew'.
  unfold write_at in Ew'. apply bind_Ok in Ew' as (l & El & _).
  apply mem_write_inv in El as (? & Hfit & _). cbn [curpos buf set_pos_len] in Hfit.
  assert (Hs : (n +32 m) = n + m) by (apply wrap32_small; lia).
  apply (write_at_good (set_pos_len root (curpos root) (n +32 m)) n bs s'); auto.
  apply set_pos_len_good; [split; done|lia|lia|lia].
Qed.

Lemma shift_left_good (b : sbuf_t) (n : Z) (b' : sbuf_t) :
  good b -> u32 n -> sbufShiftLeft b n = Ok b' -> good b'.
Proof.
  intros [W O] Hn E. unfold sbufShiftLeft in E. apply bind_Ok in E as (? & A & E).
  apply check_Ok in A. unfold sbufGetLeftCapacity, u32 in *. bool_facts.
  injection E as <-. pose proof W as W0. destruct W0. unwrap32.
  apply set_pos_len_good; [split; done|lia..].
Qed.

Lemma shift_right_good (b : sbuf_t) (n : Z) (b' : sbuf_t) :
  good b -> u32 n -> sbufShiftRight b n = Ok b' -> good b'.
Proof.
  intros [W O] Hn E. unfold sbufShiftRight in E. apply bind_Ok in E as (? & A & E).
  apply check_Ok in A. unfold u32 in *. bool_facts.
  injection E as <-. pose proof W as W0. destruct W0. unwrap32.
  apply set_pos_len_good; [split; done|lia..].
Qed.

Lemma set_length_good (b : sbuf_t) (n : Z) (b' : sbuf_t) :
  good b -> 0 <= n -> curpos b + n <= UINT32_MAX -> sbufSetLength b n = Ok b' -> good b'.
Proof.
  intros [W O] Hn Hw E. unfold sbufSetLength in E. apply bind_Ok in E as (? & A & E).
  apply check_Ok in A. pose proof W as W0. destruct W0.
  rewrite wrap32_small in A by lia. bool_facts.
  injection E as <-. apply set_pos_len_good; [split; done|lia..].
Qed.

Lemma consume_good (b : sbuf_t) (n : Z) (b' : sbuf_t) :
  good b -> u32 n -> sbufConsume b n = Ok b' -> good b'.
Proof.
  intros [W O] Hn E. unfold sbufConsume in E. apply bind_Ok in E as (? & A & E).
  apply check_Ok in A. bool_facts. pose proof W as W0. destruct W0.
  unfold sbufGetLength, u32 in *. rewrite wrap32_small in E by lia.
  eapply set_length_good; [split; eassumption| | |eassumption]; lia.
Qed.

Lemma concat_nocheck_good (r b r' : sbuf_t) :
  good r -> good b -> sbufConcatNoCheck r b = Ok r' -> good r'.
Proof.
  intros Gr Gb E. unfold sbufConcatNoCheck in E.
  apply bind_Ok in E as (s & Es & E). apply bind_Ok in E as (bs & Er & E).
  apply read_at_u8 in Er as [Hu Hl]; auto.
  eapply (extend_good r (len r) (len b)); eauto; [apply Gr|apply Gb].
Qed.

Lemma concat_good (r b r' : sbuf_t) :
  good r -> good b -> sbufConcat r b = Ok r' -> good r'.
Proof.
  intros Gr Gb E. unfold sbufConcat in E.
  apply bind_Ok in E as (? & _ & E). apply bind_Ok in E as (r1 & E1 & E).
  apply bind_Ok in E as (s & Es & E). apply bind_Ok in E as (bs & Er & E).
  apply read_at_u8 in Er as [Hu Hl]; auto.
  assert (good r1).
  { eapply reserve_good; [exact Gr| |exact E1]. apply wrap32_range. }
  eapply (extend_good r1 (len r) (len b)); eauto; [apply Gr|apply Gb].
Qed.

Lemma dup_to_good (b d : sbuf_t) (r : bool) (d' : sbuf_t) :
  good b -> good d -> sbufDuplicateTo b d = Ok (r, d') -> good d'.
Proof.
  intros [Wb Ob] [Wd Od] E.
  destruct (Z.le_gt_cases (curpos b + len b) (capacity d)) as [Hle|Hgt].
  - destruct (duplicate_to_fits b d) as (x & Ex & ? & ? & _); auto.
    rewrite E in Ex. injection Ex as -> ->. split; done.
  - rewrite duplicate_to_small in E by (auto; lia). injection E as <- <-. split; done.
Qed.

Lemma dup_good (b d : sbuf_t) : good b -> sbufDuplicate b = Ok d -> good d.
Proof.
  intros [W O] E. pose proof W as W0. destruct W0. pose proof E as E'.
  unfold sbufDuplicate in E'. rewrite capacity_no_padding in E' by done.
  apply bind_Ok in E' as (f & Ef & _).
  apply create_good in Ef as [Hc _]; [|unfold u32; lia|unfold u16; lia].
  destruct (duplicate_spec b W Hc) as (x & Ex & ? & ? & _).
  rewrite E in Ex. injection Ex as ->. split; done.
Qed.

Lemma move_good (d s : sbuf_t) (n : Z) (d' s' : sbuf_t) :
  good d -> good s -> u32 n -> sbufMoveTo d s n = Ok (d', s') -> good d' /\ good s'.
Proof.
  intros [Wd Od] [Ws Os] Hn E. pose proof E as E'. unfold sbufMoveTo in E'.
  apply bind_Ok in E' as ([] & A1 & E'). apply bind_Ok in E' as ([] & A2 & E').
  apply bind_Ok in E' as ([] & A3 & _). apply check_Ok in A1, A2, A3.
  rewrite writeable_size in A3 by done. unfold sbufGetLength, u32 in *.
  pose proof Wd as W1. pose proof Ws as W2. destruct W1, W2. bool_facts.
  rewrite (wrap32_small (UINT32_MAX - n)) in * by lia.
  rewrite wrap32_small in * by lia.
  destruct (move_spec d s n) as (x & Ex & ? & ? & Hf & _); auto; [lia|].
  rewrite E in Ex. injection Ex as -> ->. split.
  - split; [done|]. unfold ordinary, sbufIsSplice in *. rewrite Hf. done.
  - split; [apply advanced_wf; auto; lia|exact Os].
Qed.

Lemma slice_good (b : sbuf_t) (n : Z) (s b' : sbuf_t) :
  good b -> u32 n -> sbufSlice b n = Ok (s, b') -> good s /\ good b'.
Proof.
  intros G Hn E. unfold sbufSlice in E.
  apply bind_Ok in E as (? & _ & E). apply bind_Ok in E as (? & _ & E).
  apply bind_Ok in E as (f & Ef & E).
  apply create_good in Ef as [_ ?]; [|done|].
  - exact (move_good f b n s b' ltac:(done) G Hn E).
  - destruct G as [W _]. destruct W. unfold u16. lia.
Qed.

Lemma live_good (b : sbuf_t) : live b -> good b.
Proof.
  induction 1.
  - eapply create_good; eauto.
  - destruct IHlive as [[] O]. split; [split; simpl; auto; unfold UINT16_MAX; lia|done].
  - eapply set_recalc_good; eauto.
  - eapply shift_left_good; eauto.
  - eapply shift_right_good; eauto.
  - eapply set_length_good; eauto.
  - eapply consume_good; eauto.
  - eapply proj1, write_at_good; [exact IHlive| |eassumption]. done.
  - eapply proj1, write_at_good; [exact IHlive| |eassumption].
    apply Forall_replicate. unfold u8, UINT8_MAX. lia.
  - eapply write_buf_good; [exact IHlive1|exact IHlive2|eassumption].
  - eapply reserve_good; eauto.
  - eapply concat_good; [exact IHlive1|exact IHlive2|eassumption].
  - eapply concat_nocheck_good; [exact IHlive1|exact IHlive2|eassumption].
  - eapply (dup_to_good b d); eauto.
  - eapply dup_good; eauto.
  - destruct (move_good d s n d' s') as [? ?]; auto.
    match goal with D : _ \/ _ |- _ => destruct D as [-> | ->] end; done.
  - destruct (slice_good b n s b') as [? ?]; auto.
    match goal with D : _ \/ _ |- _ => destruct D as [-> | ->] end; done.
Qed.
End Live.

(** * Properties *)

(** Invariant: every buffer that any sequence of API calls can produce from
    [sbufCreateWithPadding] has its payload inside its storage, an aligned left
    padding inside its capacity, a capacity below 2^32 that is the size of the
    storage, and is an ordinary buffer. *)
Theorem sbuf_live_wf `{Allocator} (b : sbuf_t) : live b -> sbuf_wf b /\ ordinary b.
Proof. apply live_good. Qed.

Lemma sbuf_live_wf_witness :
  let b := sbufAllocate (H := debug_allocator) 96 32 in sbuf_wf b /\ ordinary b.
Proof.
  apply (sbuf_live_wf (H := debug_allocator)).
  apply (live_create 60 7); [unfold u32, UINT32_MAX; lia|unfold u16, UINT16_MAX; lia|].
  reflexivity.
Defined.

(** Bounds: [sbufCreateWithPadding] and the check callers run before it
    agree on every request: the check accepts exactly the requests the creation
    satisfies, with the capacity it predicted, and the buffer offers at least
    the requested payload room and left padding; every other request stops the
    process instead of wrapping to a small buffer. *)
Theorem sbufCreateWithPadding_exact `{Allocator} (min pad : Z) :
  u32 min -> u16 pad ->
  match sbufCreateWithPadding min pad with
  | Ok b => sbufTryComputeCapacity min pad = Some (capacity b) /\
            min <= sbufGetMaximumWriteableSize b /\ pad <= sbufGetLeftCapacity b /\
            capacity b = round_line min + round_pad pad /\ zlen (buf b) = capacity b
  | Fail f => sbufTryComputeCapacity min pad = None /\ f = AbortProgram
  end.
Proof.
  intros Hm Hp. unfold sbufTryComputeCapacity. unfold u32, u16 in *.
  rewrite try_capacity_exact by word_lia.
  pose proof (round_line_bounds min). pose proof (round_pad_bounds pad).
  case_decide as D.
  - destruct (create_spec min pad) as (b & -> & W & O & ? & ? & Hc & ? & Hk & _).
    { unfold creatable. lia. }
    rewrite writeable_size by done. unfold sbufGetLeftCapacity. rewrite Hk, Hc.
    splits; auto; try lia. rewrite <- Hk. apply W.
  - rewrite create_fails; auto.
    unfold creatable. intros ?. apply D. unfold SIZE_MAX, UINT64_MAX, UINT32_MAX in *. lia.
Qed.

Lemma sbufCreateWithPadding_exact_witness :
  match sbufCreateWithPadding (H := debug_allocator) 60 7 with
  | Ok b => sbufTryComputeCapacity 60 7 = Some (capacity b) /\ capacity b = 96
  | Fail f => False
  end.
Proof.
  pose proof (sbufCreateWithPadding_exact (H := debug_allocator) 60 7
    ltac:(unfold u32, UINT32_MAX; lia) ltac:(unfold u16, UINT16_MAX; lia)) as P.
  destruct (sbufCreateWithPadding (H := debug_allocator) 60 7) as [b|f].
  - destruct P as (P1 & _ & _ & P2 & _). split; [exact P1|exact P2].
  - destruct P as [P _]. discriminate P.
Defined.

(** Functional: appending one buffer to another yields the concatenation of
    their payloads, also when the destination has to move to larger storage;
    padding and checksum request stay the destination's. *)
Theorem sbufConcat_appends `{Allocator} (root b : sbuf_t) :
  sbuf_wf root -> ordinary root -> sbuf_wf b ->
  creatable (len root + len b) (l_pad root) ->
  exists r, sbufConcat root b = Ok r /\ sbuf_wf r /\
    payload r = payload root ++ payload b /\ l_pad r = l_pad root /\
    sbufGetRecalculateChecksum r = sbufGetRecalculateChecksum root.
Proof. intros. destruct (concat_spec root b) as (r & ?); auto. exists r. tauto. Qed.

(** Buffers for the witnesses: [sample bytes] holds [bytes] behind 32 bytes of
    padding. *)
Definition sample (bytes : list Z) : sbuf_t :=
  mk_sbuf 32 (zlen bytes) 96 32 0 (splice_at (debug_fill 96) 32 bytes).

Lemma sample_wf (bytes : list Z) :
  Forall u8 bytes -> zlen bytes <= 64 -> sbuf_wf (sample bytes).
Proof.
  intros Hu Hl. pose proof (zlen_nonneg bytes).
  split; simpl; unfold UINT32_MAX, UINT16_MAX; try lia; try reflexivity.
  - rewrite zlen_splice_at; rewrite ?debug_fill_len; lia.
  - apply Forall_splice_at; auto. apply debug_fill_u8.
Qed.

Ltac sample_ok := apply sample_wf; [repeat constructor; word_lia|vm_compute; congruence].

Lemma sbufConcat_appends_witness :
  exists r, sbufConcat (H := debug_allocator) (sample [1; 2]) (sample [3]) = Ok r /\
    payload r = [1; 2; 3].
Proof.
  destruct (sbufConcat_appends (H := debug_allocator) (sample [1; 2]) (sample [3]))
    as (r & E & _ & P & _).
  - sample_ok.
  - reflexivity.
  - sample_ok.
  - apply creatable_small; unfold UINT16_MAX, UINT32_MAX; simpl; vm_compute; congruence.
  - exists r. split; [exact E|exact P].
Defined.

(** Round trip: cutting a buffer in two gives a fresh buffer with the
    leading bytes and its full left padding, and leaves the rest in place;
    putting the rest back behind the slice restores the payload. *)
Theorem sbufSlice_concat `{Allocator} (b : sbuf_t) (n : Z) :
  sbuf_wf b -> ordinary b -> 0 <= n <= len b -> creatable (len b) (l_pad b) ->
  exists s rest r, sbufSlice b n = Ok (s, rest) /\
    payload s = take (Z.to_nat n) (payload b) /\ payload rest = drop (Z.to_nat n) (payload b) /\
    sbufGetLeftCapacity s = l_pad b /\
    sbufConcat s rest = Ok r /\ payload r = payload b.
Proof.
  intros W O Hn Hc.
  assert (Hn' : creatable n (l_pad b)) by (eapply creatable_mono; [|exact Hc]; lia).
  destruct (slice_spec b n W O Hn Hn') as (s & rest & E & Ws & Wr & Os & Ps & Pr & Cs & Ls & _ & _).
  assert (Hls : len s = n).
  { rewrite <- (zlen_payload s Ws), Ps. pose proof (zlen_payload b W).
    unfold zlen in *. rewrite length_take. lia. }
  assert (Hlr : len rest = len b - n).
  { rewrite <- (zlen_payload rest Wr), Pr. pose proof (zlen_payload b W).
    unfold zlen in *. rewrite length_drop. lia. }
  destruct (concat_spec s rest Ws Os Wr) as (r & Er & _ & _ & P & _).
  { rewrite Hls, Hlr, Ls. replace (n + (len b - n)) with (len b) by lia. done. }
  exists s, rest, r. splits; auto. rewrite P, Ps, Pr. apply take_drop.
Qed.

Lemma sbufSlice_concat_witness :
  exists s rest r, sbufSlice (H := debug_allocator) (sample [7; 8; 9]) 1 = Ok (s, rest) /\
    payload s = [7] /\ payload rest = [8; 9] /\
    sbufConcat (H := debug_allocator) s rest = Ok r /\ payload r = [7; 8; 9].
Proof.
  destruct (sbufSlice_concat (H := debug_allocator) (sample [7; 8; 9]) 1)
    as (s & rest & r & E & Ps & Pr & _ & Er & P).
  - sample_ok.
  - reflexivity.
  - vm_compute. split; congruence.
  - apply creatable_small; unfold UINT16_MAX, UINT32_MAX; simpl; vm_compute; congruence.
  - exists s, rest, r. split; [exact E|]. split; [exact Ps|]. split; [exact Pr|].
    split; [exact Er|exact P].
Defined.

(** Functional: [sbufDuplicateTo] either copies cursor, payload and
    checksum request into the destination's own storage, or, exactly when the
    destination is too small for them, reports it and leaves the destination
    as it was. *)
Theorem sbufDuplicateTo_copies `{Allocator} (b dest : sbuf_t) :
  sbuf_wf b -> sbuf_wf dest -> ordinary dest ->
  exists ok d, sbufDuplicateTo b dest = Ok (ok, d) /\ sbuf_wf d /\
    capacity d = capacity dest /\ l_pad d = l_pad dest /\
    ok = (curpos b + len b <=? capacity dest) /\
    (if ok then payload d = payload b /\ curpos d = curpos b /\
                sbufGetRecalculateChecksum d = sbufGetRecalculateChecksum b
     else d = dest).
Proof.
  intros Wb Wd Od. destruct (Z.le_gt_cases (curpos b + len b) (capacity dest)) as [Hle|Hgt].
  - destruct (duplicate_to_fits b dest) as (d & E & ? & ? & ? & ? & ? & ? & ? & ?); auto.
    exists true, d. splits; auto. symmetry. apply Z.leb_le. lia.
  - exists false, dest. rewrite duplicate_to_small by (auto; lia).
    splits; auto. symmetry. apply Z.leb_gt. lia.
Qed.

Lemma sbufDuplicateTo_copies_witness :
  exists d, sbufDuplicateTo (sample [5; 6]) (sample []) = Ok (true, d) /\ payload d = [5; 6].
Proof.
  destruct (sbufDuplicateTo_copies (H := debug_allocator) (sample [5; 6]) (sample []))
    as (ok & d & E & _ & _ & _ & Hok & P).
  - sample_ok.
  - sample_ok.
  - reflexivity.
  - vm_compute in Hok. subst ok. exists d. split; [exact E|exact (proj1 P)].
Defined.

(** Round trip: a header written into the left padding precedes the payload,
    and shifting right over it gives back the payload as it was; room for it is
    all that is needed. *)
Theorem sbuf_header_roundtrip (b : sbuf_t) (h : list Z) :
  sbuf_wf b -> Forall u8 h -> zlen h <= sbufGetLeftCapacity b ->
  exists r s, prepend b h = Ok r /\ payload r = h ++ payload b /\
    sbufRead r (zlen h) = Ok h /\
    sbufShiftRight r (zlen h) = Ok s /\ payload s = payload b /\ curpos s = curpos b.
Proof.
  intros W Hu Hroom. destruct (prepend_ok b h W Hu Hroom) as (r & E & Wr & P & C & L).
  pose proof (zlen_nonneg h). pose proof (wf_len b W).
  exists r, (set_pos_len r (curpos r + zlen h) (len r - zlen h)). splits; auto.
  - unfold sbufRead. rewrite read_payload by (auto; lia). rewrite P. f_equal.
    unfold zlen. rewrite Nat2Z.id. apply take_app_length.
  - apply shift_right_ok; [done|lia].
  - rewrite payload_shift_right, P by (auto; lia).
    unfold zlen. rewrite Nat2Z.id. apply drop_app_length.
  - simpl. lia.
Qed.

Lemma sbuf_header_roundtrip_witness :
  exists r, prepend (sample [1]) [170; 187] = Ok r /\ payload r = [170; 187; 1].
Proof.
  destruct (sbuf_header_roundtrip (sample [1]) [170; 187]) as (r & s & E & P & _).
  - sample_ok.
  - repeat constructor; unfold UINT8_MAX; lia.
  - vm_compute. congruence.
  - exists r. split; [exact E|exact P].
Defined.

(** Error: the bound in the assertion of [sbufSetLength] is a wrapping
    32-bit sum, so a length close to 2^32 passes it although the buffer holds
    96 bytes. *)
Theorem sbufSetLength_assert_wraps :
  let b := sample [1; 2; 3] in
  sbuf_wf b /\ exists b', sbufSetLength b 4294967270 = Ok b' /\
    capacity b' = 96 /\ len b' = 4294967270 /\ ~ sbuf_wf b'.
Proof.
  cbv zeta. split.
  - sample_ok.
  - eexists. split; [reflexivity|]. split; [reflexivity|]. split; [reflexivity|].
    intros W. pose proof (wf_extent _ W) as Hx. vm_compute in Hx. congruence.
Qed.

(** ** Bytes of a buffer from its cursor on *)

(** The bytes from the cursor of a buffer to the end of its storage. *)
Definition raw (b : sbuf_t) : list Z := drop (Z.to_nat (curpos b)) (buf b).
Definition set_raw (b : sbuf_t) (l : list Z) : sbuf_t :=
  set_buf b (take (Z.to_nat (curpos b)) (buf b) ++ l).

(** The bytes the storage has from the cursor on. *)
Definition room (b : sbuf_t) : Z := capacity b - curpos b.

Section Raw.
Context (b : sbuf_t) (G : good b).

Lemma zlen_raw : zlen (raw b) = room b.
Proof.
  destruct G as [[] _]. unfold raw, room, zlen in *. rewrite length_drop. lia.
Qed.

Lemma raw_u8 : Forall u8 (raw b).
Proof. destruct G as [W _]. unfold raw. apply Forall_drop, W. Qed.

Lemma room_nonneg : 0 <= len b <= room b.
Proof. destruct G as [[] _]. unfold room. lia. Qed.

Lemma payload_raw : payload b = slice 0 (len b) (raw b).
Proof. unfold payload, slice, raw. by rewrite drop_0. Qed.

Lemma set_raw_id : set_raw b (raw b) = b.
Proof. unfold set_raw, raw, set_buf. rewrite take_drop. by destruct b. Qed.

Lemma slice_raw (off n : Z) : 0 <= off -> slice (curpos b + off) n (buf b) = slice off n (raw b).
Proof.
  intros Ho. destruct G as [[] _]. unfold slice, raw. rewrite drop_drop. do 2 f_equal. lia.
Qed.

Lemma read_raw (off n : Z) :
  0 <= off -> 0 <= n -> off + n <= room b -> read_at b off n = Ok (slice off n (raw b)).
Proof.
  intros Ho Hn Hf. rewrite read_at_ok; [by rewrite slice_raw|apply G|done|done|unfold room in *; lia].
Qed.

Lemma set_raw_good (l : list Z) :
  zlen l = room b -> Forall u8 l -> good (set_raw b l) /\ raw (set_raw b l) = l.
Proof.
  intros Hl Hu. destruct G as [W O]. pose proof W as W'. destruct W'. unfold room in Hl.
  assert (length (take (Z.to_nat (curpos b)) (buf b)) = Z.to_nat (curpos b)) as Lt
    by (unfold zlen in *; rewrite length_take; lia).
  split; [split; [|exact O]; split; simpl; auto|].
  - rewrite zlen_app. unfold zlen in *. rewrite Lt. lia.
  - apply Forall_app. split; [by apply Forall_take|done].
  - unfold raw, set_raw. simpl. rewrite drop_app_ge by lia. by rewrite Lt, Nat.sub_diag.
Qed.

Lemma write_raw (off : Z) (bs : list Z) :
  0 <= off -> off + zlen bs <= room b -> Forall u8 bs ->
  exists b', write_at b off bs = Ok b' /\ good b' /\ raw b' = splice_at (raw b) off bs /\
    curpos b' = curpos b /\ len b' = len b /\ capacity b' = capacity b.
Proof.
  intros Ho Hf Hu. pose proof (zlen_nonneg bs). pose proof G as [W O].
  assert (curpos b + off + zlen bs <= capacity b) as Hc by (unfold room in Hf; lia).
  rewrite write_at_ok by auto. eexists. split; [done|]. pose proof W as W'. destruct W'.
  splits; try done.
  - split; [apply set_buf_wf; auto; lia|exact O].
  - unfold raw, set_buf, splice_at. simpl.
    rewrite drop_app_le by (unfold zlen in *; rewrite length_take; lia).
    rewrite skipn_firstn_comm, drop_drop. f_equal; [f_equal; lia|]. do 2 f_equal. lia.
Qed.
End Raw.
