(* ===== verification/Endian.v ===== *)
(** * Network byte order ([ww/libc/wendian.h])

    Unaligned loads and stores of big-endian integers.  A pointer is the byte
    list of the object it points into together with an offset, and an access
    outside the object faults.  The host is little-endian, so the conversion
    functions of the C library swap the bytes. *)

From Stdlib Require Import ZArith Lia.
From stdpp Require Import base numbers option list.
From S2P Require Import Prelude ShiftBuffer.
Open Scope Z_scope.
Open Scope word_scope.

(** [p[i]] for a [const uint8_t *p]. *)
Definition load8 (p : list Z) (i : Z) : outcome Z :=
  match (if 0 <=? i then p !! Z.to_nat i else None) with
  | Some x => Ok x
  | None => Fail MemoryFault
  end.

Definition wendianLoad16 (p : list Z) (i : Z) : outcome Z :=
  bytes ← mem_read p i 2; mret (le_value bytes).
Definition wendianLoad32 (p : list Z) (i : Z) : outcome Z :=
  bytes ← mem_read p i 4; mret (le_value bytes).
Definition wendianStore16 (p : list Z) (i v : Z) : outcome (list Z) :=
  mem_write p i (le_bytes 2 v).

(** The C library's conversions on a little-endian host; the argument is
    converted to the width of the function first. *)
Definition bswap (n : nat) (v : Z) : Z := le_value (rev (le_bytes n v)).
Definition be16toh (v : Z) : Z := bswap 2 v.
Definition be32toh (v : Z) : Z := bswap 4 v.
Definition htobe16 (v : Z) : Z := bswap 2 v.

Definition GET_BE16 (p : list Z) (i : Z) : outcome Z :=
  v ← wendianLoad16 p i; mret (be16toh v).
Definition GET_BE32 (p : list Z) (i : Z) : outcome Z :=
  v ← wendianLoad32 p i; mret (be32toh v).
Definition PUT_BE16 (p : list Z) (i v : Z) : outcome (list Z) :=
  wendianStore16 p i (htobe16 v).

Definition wendianGetBe24 (p : list Z) (i : Z) : outcome Z :=
  b0 ← load8 p i; b1 ← load8 p (i + 1); b2 ← load8 p (i + 2);
  mret (Z.lor (Z.lor (Z.shiftl b0 16) (Z.shiftl b1 8)) b2).
Definition GET_BE24 := wendianGetBe24.

(** ** What the accesses mean *)

Definition byte_at (l : list Z) (i : Z) : Z := nth (Z.to_nat i) l 0.
Definition be16 (l : list Z) (i : Z) : Z := byte_at l i * 2 ^ 8 + byte_at l (i + 1).
Definition be32 (l : list Z) (i : Z) : Z := be16 l i * 2 ^ 16 + be16 l (i + 2).

Definition be24 (l : list Z) (i : Z) : Z := byte_at l i * 2 ^ 16 + be16 l (i + 1).

(** The bytes of a big-endian 16-bit field. *)
Definition be16_bytes (v : Z) : list Z := [v / 2 ^ 8 mod 2 ^ 8; v mod 2 ^ 8].

Lemma load8_ok (l : list Z) (i : Z) :
  0 <= i < zlen l -> load8 l i = Ok (byte_at l i).
Proof.
  unfold zlen, load8, byte_at. intros Hi. replace (0 <=? i) with true by lia.
  destruct (lookup_lt_is_Some_2 l (Z.to_nat i)) as [x Hx]; [lia|].
  rewrite Hx. f_equal. symmetry. apply nth_lookup_Some with (d := 0) in Hx. exact Hx.
Qed.

Lemma byte_at_u8 (l : list Z) (i : Z) : Forall u8 l -> u8 (byte_at l i).
Proof.
  intros F. unfold byte_at. destruct (nth_in_or_default (Z.to_nat i) l 0) as [H| ->].
  - rewrite Forall_forall in F. apply F. by apply list_elem_of_In.
  - word_lia.
Qed.

Lemma be16_u16 (l : list Z) (i : Z) : Forall u8 l -> u16 (be16 l i).
Proof.
  intros F. pose proof (byte_at_u8 l i F). pose proof (byte_at_u8 l (i + 1) F).
  unfold be16. word_lia.
Qed.

Lemma be32_u32 (l : list Z) (i : Z) : Forall u8 l -> u32 (be32 l i).
Proof.
  intros F. pose proof (be16_u16 l i F). pose proof (be16_u16 l (i + 2) F).
  unfold be32. word_lia.
Qed.

(** The bytes of a slice, by position. *)
Lemma slice_cons (l : list Z) (i n : Z) :
  0 <= i -> 0 < n -> i + n <= zlen l -> slice i n l = byte_at l i :: slice (i + 1) (n - 1) l.
Proof.
  intros Hi Hn Hfit. unfold slice, byte_at, zlen in *.
  replace (Z.to_nat n) with (S (Z.to_nat (n - 1))) by lia.
  replace (Z.to_nat (i + 1)) with (S (Z.to_nat i)) by lia.
  destruct (lookup_lt_is_Some_2 l (Z.to_nat i)) as [x Hx]; [lia|].
  rewrite (drop_S l x) by done. simpl. f_equal. by apply nth_lookup_Some with (d := 0) in Hx.
Qed.

Lemma slice_bytes2 (l : list Z) (i : Z) :
  0 <= i -> i + 2 <= zlen l -> slice i 2 l = [byte_at l i; byte_at l (i + 1)].
Proof. intros. by rewrite !slice_cons by lia. Qed.

Lemma slice_bytes4 (l : list Z) (i : Z) :
  0 <= i -> i + 4 <= zlen l ->
  slice i 4 l = [byte_at l i; byte_at l (i + 1); byte_at l (i + 2); byte_at l (i + 2 + 1)].
Proof.
  intros. rewrite !slice_cons by lia. change (4 - 1 - 1 - 1 - 1) with 0. rewrite slice_zero.
  replace (i + 1 + 1) with (i + 2) by lia. reflexivity.
Qed.

Lemma slice_1 (l : list Z) (i : Z) : 0 <= i < zlen l -> slice i 1 l = [byte_at l i].
Proof. intros. by rewrite slice_cons by lia. Qed.

Lemma le_bytes_value (l : list Z) (n : nat) :
  Forall u8 l -> length l = n -> le_bytes n (le_value l) = l.
Proof.
  intros F. revert n. induction F as [|x l Hx F IH]; intros [|n] Hn; try done.
  cbn [le_bytes le_value]. unfold u8, UINT8_MAX in Hx. injection Hn as Hn.
  f_equal.
  - unfold wrap8. rewrite Z.mul_comm, Z.mod_add by lia. apply Z.mod_small. lia.
  - rewrite (Z.mul_comm (2 ^ 8)), Z.div_add, Z.div_small by lia. by apply IH.
Qed.

Lemma GET_BE16_ok (l : list Z) (i : Z) :
  Forall u8 l -> 0 <= i -> i + 2 <= zlen l -> GET_BE16 l i = Ok (be16 l i).
Proof.
  intros F Hi Hfit. unfold GET_BE16, wendianLoad16. rewrite mem_read_ok by lia.
  rewrite slice_bytes2 by lia. cbn [mbind outcome_bind mret outcome_ret].
  unfold be16toh, bswap. rewrite le_bytes_value; [simpl rev; cbn [le_value]; unfold be16; f_equal; lia| |done].
  repeat constructor; by apply byte_at_u8.
Qed.

Lemma GET_BE32_ok (l : list Z) (i : Z) :
  Forall u8 l -> 0 <= i -> i + 4 <= zlen l -> GET_BE32 l i = Ok (be32 l i).
Proof.
  intros F Hi Hfit. unfold GET_BE32, wendianLoad32. rewrite mem_read_ok by lia.
  rewrite slice_bytes4 by lia. cbn [mbind outcome_bind mret outcome_ret].
  unfold be32toh, bswap.
  rewrite le_bytes_value; [simpl rev; cbn [le_value]; unfold be32, be16; f_equal; lia| |done].
  repeat constructor; by apply byte_at_u8.
Qed.

Lemma zlen_be16_bytes (v : Z) : zlen (be16_bytes v) = 2.
Proof. reflexivity. Qed.

Lemma be16_bytes_u8 (v : Z) : Forall u8 (be16_bytes v).
Proof.
  pose proof (Z.mod_pos_bound (v / 2 ^ 8) (2 ^ 8)). pose proof (Z.mod_pos_bound v (2 ^ 8)).
  repeat constructor; word_lia.
Qed.

(** The conversion and the little-endian store together lay the value out with
    its high byte first; a value wider than 16 bits is truncated. *)
Lemma PUT_BE16_ok (l : list Z) (i v : Z) :
  0 <= i -> i + 2 <= zlen l -> PUT_BE16 l i v = Ok (splice_at l i (be16_bytes v)).
Proof.
  intros Hi Hfit. unfold PUT_BE16, wendianStore16, htobe16, bswap.
  rewrite le_bytes_value; [|apply Forall_rev, le_bytes_u8|done].
  change (rev (le_bytes 2 v)) with (be16_bytes v).
  by apply mem_write_ok.
Qed.

Lemma GET_BE24_ok (l : list Z) (i : Z) :
  Forall u8 l -> 0 <= i -> i + 3 <= zlen l -> GET_BE24 l i = Ok (be24 l i).
Proof.
  intros F Hi Hfit. unfold GET_BE24, wendianGetBe24. rewrite !load8_ok by lia.
  cbn [mbind outcome_bind mret outcome_ret]. f_equal.
  pose proof (byte_at_u8 l (i + 1) F). pose proof (byte_at_u8 l (i + 2) F).
  unfold be24, be16, u8, UINT8_MAX in *. replace (i + 1 + 1) with (i + 2) by lia.
  rewrite !Z.shiftl_mul_pow2 by lia.
  rewrite (lor_add (_ * 2 ^ 16) _ 16), (lor_add _ _ 8); try lia.
  - replace (byte_at l i * 2 ^ 16 + byte_at l (i + 1) * 2 ^ 8)
      with ((byte_at l i * 2 ^ 8 + byte_at l (i + 1)) * 2 ^ 8) by lia.
    apply Z.mod_mul. lia.
  - apply Z.mod_mul. lia.
Qed.

Lemma GET_BE16_range (l : list Z) (i x : Z) : GET_BE16 l i = Ok x -> u16 x.
Proof.
  unfold GET_BE16, wendianLoad16. intros E. apply bind_Ok in E as (w & _ & E). injection E as <-.
  unfold be16toh, bswap. cbn [le_bytes rev app le_value]. unfold wrap8, u16, UINT16_MAX.
  pose proof (Z.mod_pos_bound w (2 ^ 8)). pose proof (Z.mod_pos_bound (w / 2 ^ 8) (2 ^ 8)). lia.
Qed.

(** A field of one packet read at another place of a second one. *)
Lemma byte_at_moved (l k : list Z) (a b n i : Z) :
  0 <= a -> 0 <= b -> 0 <= i < n -> slice a n l = slice b n k ->
  byte_at l (a + i) = byte_at k (b + i).
Proof.
  intros Ha Hb Hi E. unfold byte_at.
  assert (forall (m : list Z) c, 0 <= c ->
    nth (Z.to_nat (c + i)) m 0 = nth (Z.to_nat i) (slice c n m) 0) as R.
  { intros m c Hc. unfold slice. rewrite !nth_lookup.
    rewrite lookup_take_lt by lia. rewrite lookup_drop. do 2 f_equal. lia. }
  by rewrite (R l a), (R k b), E by done.
Qed.

Lemma be16_moved (l k : list Z) (a b n i : Z) :
  0 <= a -> 0 <= b -> 0 <= i -> i + 2 <= n -> slice a n l = slice b n k ->
  be16 l (a + i) = be16 k (b + i).
Proof.
  intros Ha Hb Hi Hn E. unfold be16. rewrite <- !Z.add_assoc.
  rewrite (byte_at_moved l k a b n i), (byte_at_moved l k a b n (i + 1)) by (auto; lia). done.
Qed.

Lemma be32_moved (l k : list Z) (a b n i : Z) :
  0 <= a -> 0 <= b -> 0 <= i -> i + 4 <= n -> slice a n l = slice b n k ->
  be32 l (a + i) = be32 k (b + i).
Proof.
  intros Ha Hb Hi Hn E. unfold be32. rewrite <- !Z.add_assoc.
  rewrite (be16_moved l k a b n i), (be16_moved l k a b n (i + 2)) by (auto; lia). done.
Qed.

(** Performs the load at the head of the computation on the left. *)
Ltac load_step :=
  lazymatch goal with
  | |- load8 ?l ?i ≫= _ = _ => rewrite (load8_ok l i) by (auto; lia)
  | |- GET_BE16 ?l ?i ≫= _ = _ => rewrite (GET_BE16_ok l i) by (auto; lia)
  | |- GET_BE24 ?l ?i ≫= _ = _ => rewrite (GET_BE24_ok l i) by (auto; lia)
  | |- GET_BE32 ?l ?i ≫= _ = _ => rewrite (GET_BE32_ok l i) by (auto; lia)
  end; step_ok.

(** ** Bytes under a write *)

Lemma byte_at_splice (l : list Z) (off : Z) (bs : list Z) (j : Z) :
  0 <= off -> off + zlen bs <= zlen l -> 0 <= j ->
  byte_at (splice_at l off bs) j =
    (if decide (off <= j < off + zlen bs) then byte_at bs (j - off) else byte_at l j).
Proof.
  intros Ho Hf Hj. unfold byte_at, splice_at. rewrite !nth_lookup.
  unfold zlen in *. case_decide as D.
  - rewrite lookup_app_r by (rewrite length_take; lia).
    rewrite length_take, lookup_app_l by lia. do 2 f_equal. lia.
  - destruct (Z.lt_ge_cases j off).
    + rewrite lookup_app_l by (rewrite length_take; lia). by rewrite lookup_take_lt by lia.
    + rewrite lookup_app_r by (rewrite length_take; lia).
      rewrite length_take, lookup_app_r by lia. rewrite lookup_drop. do 2 f_equal. lia.
Qed.

(** Lists are equal when their bytes are. *)
Lemma bytes_ext (l k : list Z) :
  zlen l = zlen k -> (forall j, 0 <= j < zlen l -> byte_at l j = byte_at k j) -> l = k.
Proof.
  intros Hl H. apply (nth_ext l k 0 0).
  - unfold zlen in Hl. lia.
  - intros n Hn. specialize (H (Z.of_nat n)). unfold byte_at, zlen in H.
    rewrite Nat2Z.id in H. apply H. lia.
Qed.

Lemma byte_at_slice (l : list Z) (a n j : Z) :
  0 <= a -> 0 <= j < n -> byte_at (slice a n l) j = byte_at l (a + j).
Proof.
  intros Ha Hj. unfold byte_at, slice. rewrite !nth_lookup.
  rewrite lookup_take_lt by lia. rewrite lookup_drop. do 2 f_equal. lia.
Qed.

Lemma byte_at_app (l k : list Z) (j : Z) :
  0 <= j -> byte_at (l ++ k) j = (if decide (j < zlen l) then byte_at l j else byte_at k (j - zlen l)).
Proof.
  intros Hj. unfold byte_at, zlen. case_decide; rewrite !nth_lookup.
  - by rewrite lookup_app_l by lia.
  - rewrite lookup_app_r by lia. do 2 f_equal. lia.
Qed.

(** A field overwritten and restored. *)
Lemma be16_restore (l : list Z) (i v : Z) :
  Forall u8 l -> 0 <= i -> i + 2 <= zlen l ->
  splice_at (splice_at l i (be16_bytes v)) i (be16_bytes (be16 l i)) = l.
Proof.
  intros F Hi Hf. assert (zlen (splice_at l i (be16_bytes v)) = zlen l) as L
    by (apply zlen_splice_at; rewrite ?zlen_be16_bytes; lia).
  apply bytes_ext.
  - rewrite zlen_splice_at; rewrite ?L, ?zlen_be16_bytes; lia.
  - intros j Hj. rewrite zlen_splice_at in Hj by (rewrite ?L, ?zlen_be16_bytes; lia). rewrite L in Hj.
    rewrite byte_at_splice by (rewrite ?L, ?zlen_be16_bytes; lia). rewrite zlen_be16_bytes.
    pose proof (byte_at_u8 l i F). pose proof (byte_at_u8 l (i + 1) F). unfold u8, UINT8_MAX in *.
    case_decide as D; [|rewrite byte_at_splice by (rewrite ?zlen_be16_bytes; lia); by case_decide].
    unfold be16_bytes, be16. assert (j = i \/ j = i + 1) as [-> | ->] by lia.
    + rewrite Z.sub_diag. change (byte_at [?a; ?b] 0) with a.
      rewrite Z.div_add_l, (Z.div_small (byte_at l (i + 1))) by lia. rewrite Z.add_0_r. apply Z.mod_small. lia.
    + replace (i + 1 - i) with 1 by lia. change (byte_at [?a; ?b] 1) with b.
      rewrite Z.add_comm, Z.mod_add by lia. apply Z.mod_small. lia.
Qed.

(** ** Bytes at an offset *)

(** The object holds the bytes [bs] from offset [c] on. *)
Definition located (l : list Z) (c : Z) (bs : list Z) : Prop :=
  0 <= c /\ c + zlen bs <= zlen l /\ slice c (zlen bs) l = bs.

Lemma located_app l c a b : located l c (a ++ b) <-> located l c a /\ located l (c + zlen a) b.
Proof.
  unfold located. rewrite zlen_app. pose proof (zlen_nonneg a). pose proof (zlen_nonneg b). split.
  - intros (Hc & Hb & E). rewrite slice_split in E by lia.
    apply app_inj_1 in E as [Ea Eb]; [repeat split; auto; lia|].
    assert (zlen (slice c (zlen a) l) = zlen a) as L by (apply zlen_slice; lia). unfold zlen in *. lia.
  - intros [(Hc & Ha & Ea) (_ & Hb & Eb)]. rewrite slice_split, Ea, Eb by lia. repeat split; lia.
Qed.

Lemma located_nil l c : 0 <= c <= zlen l -> located l c [].
Proof. intros Hc. split; [lia|]. split; [change (zlen (@nil Z)) with 0; lia|]. apply slice_zero. Qed.

Lemma located_slice l c n : 0 <= c -> 0 <= n -> c + n <= zlen l -> located l c (slice c n l).
Proof. intros. unfold located. rewrite zlen_slice by lia. done. Qed.

Lemma located_self l : located l 0 l.
Proof. unfold located. rewrite slice_0_all. pose proof (zlen_nonneg l). split; [lia|]. by split; [lia|]. Qed.

Lemma located_whole l bs : located l 0 bs -> zlen l = zlen bs -> l = bs.
Proof. intros (_ & _ & E) Hl. by rewrite <- Hl, slice_0_all in E. Qed.

Lemma located_byte l c x : located l c [x] -> byte_at l c = x.
Proof. intros (Hc & Hb & E). change (zlen [x]) with 1 in *. rewrite slice_1 in E by lia. by injection E. Qed.

Lemma byte_located l c : 0 <= c < zlen l -> located l c [byte_at l c].
Proof. intros Hc. rewrite <- slice_1 by lia. apply located_slice; lia. Qed.

Lemma be16_bytes_value (a b : Z) : u8 a -> u8 b -> be16_bytes (a * 2 ^ 8 + b) = [a; b].
Proof.
  unfold u8, UINT8_MAX, be16_bytes. intros Ha Hb.
  rewrite Z.div_add_l, (Z.div_small b), Z.add_0_r, (Z.mod_small a) by lia.
  by rewrite Z.add_comm, Z.mod_add, Z.mod_small by lia.
Qed.

Lemma located_be16 l c v : u16 v -> located l c (be16_bytes v) -> be16 l c = v.
Proof.
  intros Hv (Hc & Hb & E). rewrite zlen_be16_bytes in *. rewrite slice_bytes2 in E by lia.
  unfold be16_bytes in E. injection E as E1 E2. unfold be16. rewrite E1, E2. unfold u16, UINT16_MAX in Hv.
  pose proof (Z.div_mod v (2 ^ 8)). rewrite (Z.mod_small (v / 2 ^ 8)); [lia|].
  split; [apply Z.div_pos; lia|apply Z.div_lt_upper_bound; lia].
Qed.

Lemma be16_located l c : Forall u8 l -> 0 <= c -> c + 2 <= zlen l -> located l c (be16_bytes (be16 l c)).
Proof.
  intros F Hc Hb. unfold be16. rewrite be16_bytes_value by (by apply byte_at_u8).
  rewrite <- slice_bytes2 by lia. apply located_slice; lia.
Qed.

(** The same bytes seen from the start of a larger object. *)
Lemma located_drop l k c bs : 0 <= k <= zlen l -> 0 <= c -> located (drop (Z.to_nat k) l) c bs <-> located l (k + c) bs.
Proof.
  intros Hk Hc. unfold located, slice. rewrite drop_drop. replace (Z.to_nat k + Z.to_nat c)%nat with (Z.to_nat (k + c)) by lia.
  assert (zlen (drop (Z.to_nat k) l) = zlen l - k) as -> by (unfold zlen in *; rewrite length_drop; lia).
  split; intros (? & ? & ?); repeat split; auto; lia.
Qed.

(** Writing behind the bytes that are there. *)
Lemma splice_extends l pre bs :
  located l 0 pre -> zlen pre + zlen bs <= zlen l -> located (splice_at l (zlen pre) bs) 0 (pre ++ bs).
Proof.
  intros (_ & Hp & Ep) Hb. pose proof (zlen_nonneg pre). pose proof (zlen_nonneg bs).
  apply located_app. split; (split; [lia|]); rewrite zlen_splice_at by lia; (split; [lia|]).
  - rewrite slice_splice_before by lia. done.
  - rewrite Z.add_0_l. apply slice_splice_same; lia.
Qed.
