(* ===== verification/MasterPool.v ===== *)
(** * Master pools ([ww/bufio/master_pool.h], [ww/bufio/master_pool.c])

    A master pool is the mutex-protected stack of idle items behind the
    worker-local pools.  Items are of any type [A]; the slot array and its
    length are the C fields.  The critical sections run under the mutex and are
    atomic here; the lock-free load of [len] that precedes them is advisory, so
    its value is an argument [probe] that may be anything.  The callbacks are
    arguments too: [create] threads a heap state and may return [None] (NULL),
    and an operation that calls the destroy callback returns the items it gave
    to it. *)

From Stdlib Require Import ZArith Lia.
From stdpp Require Import base numbers option list.
From S2P Require Import Prelude.
Open Scope Z_scope.
Open Scope word_scope.

Definition SIZEOF_POINTER : Z := 8.
Definition CACHE_LINE : Z := 64.

Record master_pool_t (A : Type) : Type := mk_mp {
  mp_len : Z;
  mp_checked_out : Z;
  mp_cap : Z;
  mp_available : list (option A)
}.
Arguments mk_mp {A}.
Arguments mp_len {A}.
Arguments mp_checked_out {A}.
Arguments mp_cap {A}.
Arguments mp_available {A}.

(** ** Sizes *)

Definition memoryTryComputeArraySize (count item_size : Z) : option Z :=
  if (item_size =? 0) || (count >? SIZE_MAX / item_size) then None
  else Some (count *64 item_size).

Definition memoryAlignmentIsValid (alignment : Z) : bool :=
  negb (alignment =? 0) && (Z.land alignment (alignment -64 1) =? 0).

Definition memoryAlignedAllocationSizeIsRepresentable (size alignment : Z) : bool :=
  if negb (memoryAlignmentIsValid alignment) then false
  else
    let effective_alignment := Z.max alignment SIZEOF_POINTER in
    size <=? (SIZE_MAX -64 effective_alignment).

(** The size of the pool header depends on the platform's mutex. *)
Definition masterpoolTryComputeGeometry (sizeof_master_pool pool_width : Z) : option (Z * Z) :=
  let pool_width := Z.max 1 pool_width in
  if pool_width >? UINT32_MAX / 2 then None else
  let capacity := wrap32 (pool_width * 2) in
  match memoryTryComputeArraySize capacity SIZEOF_POINTER with
  | None => None
  | Some container_len =>
      if container_len >? (SIZE_MAX -64 sizeof_master_pool) then None else
      let required_size := sizeof_master_pool +64 container_len in
      if memoryAlignedAllocationSizeIsRepresentable required_size CACHE_LINE
      then Some (capacity, required_size)
      else None
  end.

Section Operations.
Context {A S : Type}.
Implicit Types (pool : master_pool_t A).

Definition set_len pool (n : Z) : master_pool_t A :=
  mk_mp n (mp_checked_out pool) (mp_cap pool) (mp_available pool).
Definition set_checked_out pool (n : Z) : master_pool_t A :=
  mk_mp (mp_len pool) n (mp_cap pool) (mp_available pool).
Definition set_available pool (slots : list (option A)) : master_pool_t A :=
  mk_mp (mp_len pool) (mp_checked_out pool) (mp_cap pool) slots.

(** ** Checkout accounting *)

Definition masterpoolRecordCheckout pool : outcome (master_pool_t A) :=
  let previous := mp_checked_out pool in
  let pool := set_checked_out pool (previous +64 1) in
  _ ← assert_ (negb (previous =? SIZE_MAX));
  _ ← abort_if (previous =? SIZE_MAX);
  mret pool.

Definition masterpoolRecordReturn pool : outcome (master_pool_t A) :=
  let previous := mp_checked_out pool in
  let pool := set_checked_out pool (previous -64 1) in
  _ ← assert_ (negb (previous =? 0));
  _ ← abort_if (previous =? 0);
  mret pool.

Definition masterpoolGetCheckedOut pool : Z := mp_checked_out pool.

(** ** Items in and out *)

Definition masterpoolRequireCreatedItem (item : option A) : outcome A :=
  match item with
  | None => Fail AbortProgram
  | Some a => mret a
  end.

Definition masterpoolTryGetItems pool (requested : Z) : outcome (list A * master_pool_t A) :=
  let count := mp_len pool in
  let taken := Z.min count requested in
  items ← slots_get_down (mp_available pool) (count - 1) (Z.to_nat taken);
  mret (items, set_len pool (count -32 taken)).

Definition masterpoolTryGetItem pool : outcome (option A * master_pool_t A) :=
  '(items, pool) ← masterpoolTryGetItems pool 1;
  mret (head items, pool).

(** The loop that creates the items the cache could not provide. *)
Fixpoint create_items (create : S -> outcome (option A * S)) (n : nat) (heap : S)
  : outcome (list A * S) :=
  match n with
  | O => mret ([], heap)
  | Datatypes.S n' =>
      '(item, heap) ← create heap;
      a ← masterpoolRequireCreatedItem item;
      '(l, heap) ← create_items create n' heap;
      mret (a :: l, heap)
  end.

Definition masterpoolGetItems (create : S -> outcome (option A * S)) (probe : Z)
    pool (count : Z) (heap : S) : outcome (list A * master_pool_t A * S) :=
  '(cached, pool) ←
    (if probe >? 0 then
       let tmp_len := mp_len pool in
       let consumed := Z.min tmp_len count in
       if consumed >? 0 then
         let pbase := tmp_len -32 consumed in
         items ← slots_get (mp_available pool) pbase (Z.to_nat consumed);
         mret (items, set_len pool pbase)
       else mret ([], pool)
     else mret ([], pool));
  '(made, heap) ← create_items create (Z.to_nat (count - zlen cached)) heap;
  mret (cached ++ made, pool, heap).

Definition masterpoolReuseItems (probe : Z) pool (items : list A)
  : outcome (master_pool_t A * list A) :=
  if mp_cap pool =? probe then mret (pool, items) else
  let tmp_len := mp_len pool in
  let consumed := Z.min (mp_cap pool -32 tmp_len) (zlen items) in
  slots ← slots_set (mp_available pool) tmp_len (take (Z.to_nat consumed) items);
  mret (set_len (set_available pool slots) (tmp_len +32 consumed),
        drop (Z.to_nat consumed) items).

(** ** Life cycle *)

(** [None] when the geometry is rejected or the mutex cannot be initialised. *)
Definition masterpoolCreateWithCapacity (sizeof_master_pool : Z) (mutex_ok : bool) (pool_width : Z)
  : option (master_pool_t A) :=
  match masterpoolTryComputeGeometry sizeof_master_pool pool_width with
  | None => None
  | Some (capacity, _) =>
      if mutex_ok then Some (mk_mp 0 0 capacity (replicate (Z.to_nat capacity) None)) else None
  end.

Definition masterpoolMakeEmpty pool : outcome (master_pool_t A * list A) :=
  let current_len := mp_len pool in
  items ← slots_get (mp_available pool) 0 (Z.to_nat current_len);
  mret (set_len pool 0, items).

Definition masterpoolDestroy pool : outcome unit :=
  _ ← abort_if (negb (masterpoolGetCheckedOut pool =? 0));
  abort_if (negb (mp_len pool =? 0)).
End Operations.

(** ** The stack a master pool represents *)

(** [pool] caches [items], the top of the stack last. *)
Record mp_holds {A} (pool : master_pool_t A) (items : list A) : Prop := mk_mp_holds {
  mph_slots : holds (mp_available pool) items;
  mph_len : mp_len pool = zlen items;
  mph_size : zlen (mp_available pool) = mp_cap pool;
  mph_cap : mp_cap pool <= UINT32_MAX;
  mph_checked_out : 0 <= mp_checked_out pool <= SIZE_MAX
}.

(** Operations on the cache leave capacity and checkout count alone. *)
Definition same_account {A} (p q : master_pool_t A) : Prop :=
  mp_cap p = mp_cap q /\ mp_checked_out p = mp_checked_out q.

Section Lemmas.
Context {A S : Type}.
Implicit Types (pool : master_pool_t A) (items : list A).

Lemma mp_holds_cap pool items : mp_holds pool items -> zlen items <= mp_cap pool <= UINT32_MAX.
Proof. intros []. apply holds_len in mph_slots0. lia. Qed.

Lemma mp_holds_set_len pool kept taken :
  mp_holds pool (kept ++ taken) -> mp_holds (set_len pool (zlen kept)) kept.
Proof. intros []. split; auto. by apply holds_app_l in mph_slots0. Qed.

Lemma mp_holds_set_checked_out pool items n :
  mp_holds pool items -> 0 <= n <= SIZE_MAX -> mp_holds (set_checked_out pool n) items.
Proof. intros [] ?. split; auto. Qed.

(** Splitting a stack [k] items below its top. *)
Lemma split_top (items : list A) (k : Z) :
  0 <= k <= zlen items ->
  exists kept taken, items = kept ++ taken /\ zlen taken = k /\ zlen kept = zlen items - k.
Proof.
  intros Hk. exists (take (Z.to_nat (zlen items - k)) items), (drop (Z.to_nat (zlen items - k)) items).
  rewrite take_drop. split; [done|]. unfold zlen in *. rewrite length_drop, length_take. lia.
Qed.

(** What a batch checkout does: the top of the stack, in stack order, then
    freshly created items; a probe that reports an empty pool skips the stack. *)
Lemma get_items_spec (create : S -> outcome (option A * S)) probe pool items count heap :
  mp_holds pool items -> 0 <= count <= UINT32_MAX ->
  exists pool' kept taken,
    items = kept ++ taken /\
    zlen taken = (if probe >? 0 then Z.min (zlen items) count else 0) /\
    mp_holds pool' kept /\ same_account pool pool' /\
    masterpoolGetItems create probe pool count heap =
      '(made, heap') ← create_items create (Z.to_nat (count - zlen taken)) heap;
      mret (taken ++ made, pool', heap').
Proof.
  intros H Hc. pose proof (mp_holds_cap _ _ H) as Hcap. pose proof (zlen_nonneg items).
  unfold masterpoolGetItems. destruct (probe >? 0).
  2:{ exists pool, items, []. rewrite app_nil_r. splits; auto. split; auto. }
  rewrite (mph_len _ _ H).
  destruct (Z.min (zlen items) count >? 0) eqn:E; bool_facts.
  2:{ exists pool, items, []. rewrite app_nil_r. splits; auto; [rewrite zlen_nil; lia|split; auto]. }
  destruct (split_top items (Z.min (zlen items) count)) as (kept & taken & -> & Ht & Hk); [lia|].
  rewrite <- Ht in *. rewrite wrap32_small by lia.
  replace (zlen (kept ++ taken) - zlen taken) with (zlen kept) by lia.
  replace (Z.to_nat (zlen taken)) with (length taken) by (unfold zlen; lia).
  rewrite (holds_gets _ kept taken []) by (rewrite app_nil_r; apply H). simpl.
  exists (set_len pool (zlen kept)), kept, taken.
  splits; auto; [by eapply mp_holds_set_len|split; auto].
Qed.

(** What a batch return does: items are stacked as long as there is room, the
    others are destroyed; a probe that reports a full pool destroys them all. *)
Lemma reuse_items_spec probe pool items back :
  mp_holds pool items -> zlen back <= UINT32_MAX ->
  exists pool' kept destroyed,
    back = kept ++ destroyed /\
    zlen kept = (if mp_cap pool =? probe then 0
                 else Z.min (mp_cap pool - zlen items) (zlen back)) /\
    mp_holds pool' (items ++ kept) /\ same_account pool pool' /\
    masterpoolReuseItems probe pool back = Ok (pool', destroyed).
Proof.
  intros H Hb. pose proof (mp_holds_cap _ _ H) as Hcap. pose proof (zlen_nonneg items).
  pose proof (zlen_nonneg back). unfold masterpoolReuseItems.
  destruct (mp_cap pool =? probe).
  { exists pool, [], back. rewrite app_nil_r. splits; auto. split; auto. }
  rewrite (mph_len _ _ H), (wrap32_small (mp_cap pool - zlen items)) by lia.
  set (c := Z.min (mp_cap pool - zlen items) (zlen back)).
  assert (Hk : zlen (take (Z.to_nat c) back) = c)
    by (unfold zlen in *; rewrite length_take; lia).
  destruct (holds_sets (mp_available pool) items (take (Z.to_nat c) back))
    as (slots & -> & Hs & Ls); [apply H|rewrite Hk, (mph_size _ _ H); lia|]. simpl.
  exists (set_len (set_available pool slots) (zlen items +32 c)),
    (take (Z.to_nat c) back), (drop (Z.to_nat c) back).
  splits; [by rewrite take_drop|exact Hk| |by split|reflexivity].
  destruct H. split; simpl; auto; [|congruence].
  rewrite zlen_app, Hk, wrap32_small by lia. done.
Qed.

Lemma try_get_items_spec pool items requested :
  mp_holds pool items -> 0 <= requested <= UINT32_MAX ->
  exists pool' kept taken,
    items = kept ++ taken /\ zlen taken = Z.min (zlen items) requested /\
    mp_holds pool' kept /\ same_account pool pool' /\
    masterpoolTryGetItems pool requested = Ok (reverse taken, pool').
Proof.
  intros H Hr. pose proof (mp_holds_cap _ _ H) as Hcap. pose proof (zlen_nonneg items).
  destruct (split_top items (Z.min (zlen items) requested)) as (kept & taken & -> & Ht & Hk); [lia|].
  unfold masterpoolTryGetItems. rewrite (mph_len _ _ H), <- Ht.
  replace (Z.to_nat (zlen taken)) with (length taken) by (unfold zlen; lia).
  rewrite holds_gets_down by apply H. simpl.
  rewrite wrap32_small by lia. replace (zlen (kept ++ taken) - zlen taken) with (zlen kept) by lia.
  exists (set_len pool (zlen kept)), kept, taken.
  splits; auto; [by eapply mp_holds_set_len|by split].
Qed.

Lemma create_items_length (create : S -> outcome (option A * S)) n heap made heap' :
  create_items create n heap = Ok (made, heap') -> length made = n.
Proof.
  revert heap made. induction n as [|n IH]; simpl; intros heap made E; [by injection E as <- <-|].
  apply bind_Ok in E as ([item h1] & E1 & E). apply bind_Ok in E as (a & Ea & E).
  apply bind_Ok in E as ([l h2] & E2 & E). injection E as <- <-.
  simpl. f_equal. by eapply IH.
Qed.

Lemma record_checkout_ok pool items :
  mp_holds pool items -> mp_checked_out pool < SIZE_MAX ->
  masterpoolRecordCheckout pool = Ok (set_checked_out pool (mp_checked_out pool + 1)).
Proof.
  intros [] ?. unfold masterpoolRecordCheckout.
  rewrite assert_bind, abort_bind by lia. rewrite wrap64_small by word_lia. done.
Qed.

Lemma record_return_ok pool items :
  mp_holds pool items -> 0 < mp_checked_out pool ->
  masterpoolRecordReturn pool = Ok (set_checked_out pool (mp_checked_out pool - 1)).
Proof.
  intros [] ?. unfold masterpoolRecordReturn.
  rewrite assert_bind, abort_bind by lia. rewrite wrap64_small by word_lia. done.
Qed.

(** Geometry: twice the width, never less than two slots, and never wrapped. *)
Lemma master_geometry_spec sizeof w :
  0 <= sizeof <= 65536 -> u32 w ->
  masterpoolTryComputeGeometry sizeof w =
    if Z.max 1 w >? UINT32_MAX / 2 then None
    else Some (2 * Z.max 1 w, sizeof + 16 * Z.max 1 w).
Proof.
  intros Hs Hw. unfold masterpoolTryComputeGeometry, u32, UINT32_MAX in *.
  change (4294967295 / 2) with 2147483647.
  destruct (Z.max 1 w >? 2147483647) eqn:E; [done|]. bool_facts.
  rewrite (wrap32_small (Z.max 1 w * 2)) by word_lia.
  unfold memoryTryComputeArraySize, SIZEOF_POINTER, SIZE_MAX, UINT64_MAX.
  change (18446744073709551615 / 8) with 2305843009213693951.
  rewrite (proj2 (orb_false_iff _ _)) by lia.
  rewrite !wrap64_small by word_lia.
  unfold memoryAlignedAllocationSizeIsRepresentable.
  change (memoryAlignmentIsValid CACHE_LINE) with true.
  change (Z.max CACHE_LINE SIZEOF_POINTER) with 64. cbn [negb].
  unfold SIZE_MAX, UINT64_MAX. rewrite ?wrap64_small by word_lia.
  repeat (split_test; try lia). do 2 f_equal; lia.
Qed.

Lemma create_master_holds sizeof w pool :
  0 <= sizeof <= 65536 -> u32 w ->
  masterpoolCreateWithCapacity sizeof true w = Some pool ->
  mp_holds pool [] /\ mp_checked_out pool = 0 /\ mp_cap pool = 2 * Z.max 1 w.
Proof.
  intros Hs Hw. unfold masterpoolCreateWithCapacity.
  rewrite master_geometry_spec by done. destruct (_ >? _) eqn:E; [discriminate|].
  intros [= <-]. bool_facts. unfold UINT32_MAX in *. change (4294967295 / 2) with 2147483647 in *.
  split; [split|by split]; cbn [mp_len mp_checked_out mp_cap mp_available]; auto.
  - apply holds_nil.
  - rewrite zlen_replicate. lia.
  - unfold UINT32_MAX. lia.
  - unfold SIZE_MAX, UINT64_MAX. lia.
Qed.

End Lemmas.

(** Round trip: a batch of items returned to a master pool with room for it
    comes back in the same order at the next checkout of that many items, and
    the pool is left as it was; no advisory probe that sees the pool as it is
    makes it lose or create an item. *)
Theorem masterpool_reuse_get {A S} (create : S -> outcome (option A * S)) (pool : master_pool_t A)
    (items back : list A) (heap : S) :
  mp_holds pool items -> 0 < zlen back -> zlen items + zlen back <= mp_cap pool ->
  exists pool1 pool2,
    masterpoolReuseItems (mp_len pool) pool back = Ok (pool1, []) /\
    masterpoolGetItems create (mp_len pool1) pool1 (zlen back) heap = Ok (back, pool2, heap) /\
    mp_holds pool1 (items ++ back) /\ mp_holds pool2 items /\ same_account pool pool2.
Proof.
  intros H Hpos Hfit. pose proof (mp_holds_cap _ _ H) as Hc. pose proof (zlen_nonneg items) as Hn.
  destruct (reuse_items_spec (mp_len pool) pool items back H) as (p1 & kept & lost & Eb & Hk & H1 & S1 & R1);
    [lia|].
  rewrite (mph_len _ _ H), (proj2 (Z.eqb_neq _ _)), Z.min_r in Hk by lia.
  assert (lost = []) as -> by (rewrite Eb, zlen_app in Hk; destruct lost; [done|];
    rewrite zlen_cons in Hk; pose proof (zlen_nonneg lost); lia).
  rewrite app_nil_r in Eb. subst kept.
  destruct (get_items_spec create (mp_len p1) p1 (items ++ back) (zlen back) heap H1)
    as (p2 & kept & taken & Et & Ht & H2 & S2 & R2); [lia|].
  rewrite (mph_len _ _ H1), zlen_app in Ht.
  destruct (_ >? 0) eqn:E in Ht; bool_facts; [|lia].
  assert (kept = items /\ taken = back) as [-> ->].
  { apply app_inj_2 in Et; [destruct Et; auto|]. unfold zlen in *. lia. }
  exists p1, p2. rewrite R2, Z.sub_diag. cbn [Z.to_nat create_items].
  split; [exact R1|]. splits; auto.
  - simpl. rewrite app_nil_r. reflexivity.
  - unfold same_account in *. intuition congruence.
Qed.

Lemma masterpool_reuse_get_witness :
  exists pool1 pool2,
    masterpoolReuseItems 1 (mk_mp 1 3 4 [Some 7; None; None; None]) [8; 9] = Ok (pool1, []) /\
    masterpoolGetItems (fun n : Z => Ok (Some n, n + 1)) (mp_len pool1) pool1 2 100 =
      Ok ([8; 9], pool2, 100).
Proof.
  destruct (masterpool_reuse_get (fun n : Z => Ok (Some n, n + 1))
              (mk_mp 1 3 4 [Some 7; None; None; None]) [7] [8; 9] 100) as (p1 & p2 & E1 & E2 & _).
  - split; [by exists [None; None; None]|reflexivity|reflexivity|discriminate|].
    simpl. unfold SIZE_MAX, UINT64_MAX. lia.
  - vm_compute. reflexivity.
  - vm_compute. discriminate.
  - exists p1, p2. split; [exact E1|exact E2].
Defined.
