(* ===== verification/GenericPool.v ===== *)
(** * Generic pools ([ww/bufio/generic_pool.h], [ww/bufio/generic_pool.c])

    A generic pool is a worker-local stack of idle items that exchanges batches
    with a master pool shared by all workers.  The operations are those of the
    C code; the last part of the file runs several workers, a shared master
    pool and foreign threads as a step relation whose steps are the sections
    the code executes between two synchronisation points, and proves that no
    item is ever in two places and that the checkout counter of the master pool
    accounts for every item and every call in progress.

    Modelled build: [BYPASS_GENERIC_POOL] and [POOL_THREAD_CHECK] off. *)

From Stdlib Require Import ZArith Lia.
From stdpp Require Import base numbers option list.
From S2P Require Import Prelude MasterPool.
Open Scope Z_scope.
Open Scope word_scope.

Record generic_pool_t (A : Type) : Type := mk_gp {
  gp_len : Z;
  gp_cap : Z;
  gp_free_threshold : Z;
  gp_item_size : Z;
  gp_available : list (option A)
}.
Arguments mk_gp {A}.
Arguments gp_len {A}.
Arguments gp_cap {A}.
Arguments gp_free_threshold {A}.
Arguments gp_item_size {A}.
Arguments gp_available {A}.

Section Operations.
Context {A S : Type}.
Implicit Types (pool : generic_pool_t A) (mp : master_pool_t A).

Definition set_cache pool (n : Z) (slots : list (option A)) : generic_pool_t A :=
  mk_gp n (gp_cap pool) (gp_free_threshold pool) (gp_item_size pool) slots.

Definition genericpoolReCharge (create : S -> outcome (option A * S)) (probe : Z) pool mp (heap : S)
  : outcome (generic_pool_t A * master_pool_t A * S) :=
  let increase := Z.min (gp_cap pool -32 gp_len pool) (gp_cap pool / 2) in
  '(items, mp, heap) ← masterpoolGetItems create probe mp increase heap;
  slots ← slots_set (gp_available pool) (gp_len pool) items;
  mret (set_cache pool (gp_len pool +32 increase) slots, mp, heap).

Definition genericpoolShrink (probe : Z) pool mp
  : outcome (generic_pool_t A * master_pool_t A * list A) :=
  let decrease := if gp_len pool <? gp_cap pool / 2 then gp_len pool else gp_cap pool / 2 in
  items ← slots_get (gp_available pool) (gp_len pool -32 decrease) (Z.to_nat decrease);
  '(mp, destroyed) ← masterpoolReuseItems probe mp items;
  mret (set_cache pool (gp_len pool -32 decrease) (gp_available pool), mp, destroyed).

(** [--(pool->len); return pool->available[pool->len];] *)
Definition pop_item pool : outcome (A * generic_pool_t A) :=
  let n := gp_len pool -32 1 in
  item ← slot_get (gp_available pool) n;
  mret (item, set_cache pool n (gp_available pool)).

(** The part of [genericpoolGetItem] after the checkout is recorded. *)
Definition take_item (create : S -> outcome (option A * S)) (probe : Z) pool mp (heap : S)
  : outcome (A * generic_pool_t A * master_pool_t A * S) :=
  if gp_len pool >? 0 then
    '(item, pool) ← pop_item pool;
    mret (item, pool, mp, heap)
  else
    '(pool, mp, heap) ← genericpoolReCharge create probe pool mp heap;
    '(item, pool) ← pop_item pool;
    mret (item, pool, mp, heap).

Definition genericpoolGetItem (create : S -> outcome (option A * S)) (probe : Z) pool mp (heap : S)
  : outcome (A * generic_pool_t A * master_pool_t A * S) :=
  mp ← masterpoolRecordCheckout mp;
  take_item create probe pool mp heap.

(** The part of [genericpoolReuseItem] before the return is recorded. *)
Definition put_item (probe : Z) pool mp (b : A)
  : outcome (generic_pool_t A * master_pool_t A * list A) :=
  '(pool, mp, destroyed) ←
    (if gp_len pool >? gp_free_threshold pool then genericpoolShrink probe pool mp
     else mret (pool, mp, []));
  slots ← slot_set (gp_available pool) (gp_len pool) b;
  mret (set_cache pool (gp_len pool +32 1) slots, mp, destroyed).

Definition genericpoolReuseItem (probe : Z) pool mp (b : A)
  : outcome (generic_pool_t A * master_pool_t A * list A) :=
  '(pool, mp, destroyed) ← put_item probe pool mp b;
  mp ← masterpoolRecordReturn mp;
  mret (pool, mp, destroyed).

Definition genericpoolGetInUse mp : Z := masterpoolGetCheckedOut mp.

(** The part of [genericpoolReuseItemShared] before the return is recorded; it
    touches no worker-local storage. *)
Definition put_item_shared (probe : Z) mp (item : A) : outcome (master_pool_t A * list A) :=
  _ ← assert_ (genericpoolGetInUse mp >? 0);
  masterpoolReuseItems probe mp [item].

Definition genericpoolReuseItemShared (probe : Z) mp (item : A)
  : outcome (master_pool_t A * list A) :=
  '(mp, destroyed) ← put_item_shared probe mp item;
  mp ← masterpoolRecordReturn mp;
  mret (mp, destroyed).

Definition genericpoolTryComputeGeometry (sizeof_generic_pool pool_width : Z)
  : option (Z * Z * Z) :=
  let pool_width := Z.max 1 pool_width in
  if pool_width >? UINT32_MAX / 2 then None else
  let capacity := wrap32 (pool_width * 2) in
  match memoryTryComputeArraySize capacity SIZEOF_POINTER with
  | None => None
  | Some container_len =>
      if container_len >? (SIZE_MAX -64 sizeof_generic_pool) then None else
      let required_size := sizeof_generic_pool +64 container_len in
      Some (capacity, wrap32 ((capacity *64 2) / 3), required_size)
  end.

Definition allocateGenericPool (sizeof_generic_pool item_size pool_width : Z)
  : option (generic_pool_t A) :=
  match genericpoolTryComputeGeometry sizeof_generic_pool pool_width with
  | None => None
  | Some (capacity, free_threshold, _) =>
      Some (mk_gp 0 capacity free_threshold item_size (replicate (Z.to_nat capacity) None))
  end.

(** Returns the items given to the destroy callback. *)
Definition genericpoolDestroy pool : outcome (list A) :=
  slots_get (gp_available pool) 0 (Z.to_nat (gp_len pool)).
End Operations.

(** ** The stack a generic pool represents *)

Record gp_holds {A} (pool : generic_pool_t A) (cache : list A) : Prop := mk_gp_holds {
  gph_slots : holds (gp_available pool) cache;
  gph_len : gp_len pool = zlen cache;
  gph_size : zlen (gp_available pool) = gp_cap pool;
  gph_cap : 2 <= gp_cap pool <= UINT32_MAX;
  gph_threshold : 0 <= gp_free_threshold pool < gp_cap pool
}.

Section Lemmas.
Context {A S : Type}.
Implicit Types (pool : generic_pool_t A) (mp : master_pool_t A) (cache items : list A).

Lemma gp_holds_bound pool cache : gp_holds pool cache -> 0 <= zlen cache <= gp_cap pool.
Proof. intros []. apply holds_len in gph_slots0. pose proof (zlen_nonneg cache). lia. Qed.

Lemma half_cap pool cache : gp_holds pool cache -> 1 <= gp_cap pool / 2 < gp_cap pool.
Proof.
  intros []. pose proof (Z.div_mod (gp_cap pool) 2). pose proof (Z.mod_pos_bound (gp_cap pool) 2). lia.
Qed.

Lemma gp_holds_app pool cache slots items :
  gp_holds pool cache -> holds slots (cache ++ items) -> zlen slots = gp_cap pool ->
  gp_holds (set_cache pool (zlen cache + zlen items) slots) (cache ++ items).
Proof. intros [] ? ?. split; simpl; auto. by rewrite zlen_app. Qed.

Lemma gp_holds_prefix pool cache rest :
  gp_holds pool (cache ++ rest) -> gp_holds (set_cache pool (zlen cache) (gp_available pool)) cache.
Proof. intros []. split; simpl; auto. by apply holds_app_l in gph_slots0. Qed.

Lemma pop_item_spec pool cache a :
  gp_holds pool (cache ++ [a]) ->
  exists pool', pop_item pool = Ok (a, pool') /\ gp_holds pool' cache.
Proof.
  intros H. pose proof (gp_holds_bound _ _ H) as Hb. pose proof (gph_cap _ _ H).
  pose proof (zlen_nonneg cache). unfold pop_item.
  rewrite (gph_len _ _ H). autorewrite with ww in *.
  rewrite wrap32_small by lia. replace (zlen cache + (1 + 0) - 1) with (zlen cache) by lia.
  rewrite (holds_get _ cache a []) by apply H. simpl.
  eexists; split; [reflexivity|]. by eapply gp_holds_prefix.
Qed.

(** A recharge of an empty cache takes at least one item, from the master pool
    first. *)
Lemma gp_recharge_spec (create : S -> outcome (option A * S)) probe pool mp items heap :
  gp_holds pool [] -> mp_holds mp items ->
  exists kept taken mp' n,
    items = kept ++ taken /\ mp_holds mp' kept /\ same_account mp mp' /\ 1 <= zlen taken + Z.of_nat n /\
    forall made heap', create_items create n heap = Ok (made, heap') ->
    exists pool', genericpoolReCharge create probe pool mp heap = Ok (pool', mp', heap') /\
      gp_holds pool' (taken ++ made).
Proof.
  intros H M. pose proof (half_cap _ _ H) as Hh. pose proof (gph_cap _ _ H) as Hc.
  set (increase := gp_cap pool / 2).
  destruct (get_items_spec create probe mp items increase heap M)
    as (mp' & kept & taken & E & Ht & M' & Sa & R); [subst increase; lia|].
  pose proof (zlen_nonneg items). pose proof (zlen_nonneg taken).
  assert (Htk : zlen taken <= increase) by (destruct (probe >? 0); lia).
  exists kept, taken, mp', (Z.to_nat (increase - zlen taken)). splits; auto; [lia|].
  intros made heap' Cr. unfold genericpoolReCharge.
  rewrite (gph_len _ _ H), zlen_nil, Z.sub_0_r, (wrap32_small (gp_cap pool)) by lia.
  rewrite Z.min_r by lia. fold increase. rewrite R, Cr. simpl.
  pose proof (create_items_length _ _ _ _ _ Cr) as Lm.
  assert (Li : zlen (taken ++ made) = increase) by (rewrite zlen_app; unfold zlen in *; lia).
  destruct (holds_sets (gp_available pool) [] (taken ++ made)) as (slots & Es & Hs & Ls);
    [apply holds_nil|rewrite Li, (gph_size _ _ H), zlen_nil; lia|].
  rewrite zlen_nil in Es. rewrite Es. simpl. eexists; split; [reflexivity|].
  rewrite Z.add_0_l, wrap32_small by lia. rewrite <- Li.
  apply (gp_holds_app pool [] slots (taken ++ made)); auto.
  rewrite Ls. apply H.
Qed.

(** Checking an item out, whichever way the cache has to be refilled. *)
Lemma take_item_spec (create : S -> outcome (option A * S)) probe pool mp cache items heap :
  gp_holds pool cache -> mp_holds mp items ->
  exists n, forall made heap', create_items create n heap = Ok (made, heap') ->
  exists item pool' mp' cache' items',
    take_item create probe pool mp heap = Ok (item, pool', mp', heap') /\
    gp_holds pool' cache' /\ mp_holds mp' items' /\ same_account mp mp' /\
    cache ++ items ++ made ≡ₚ item :: cache' ++ items'.
Proof.
  intros H M. unfold take_item. rewrite (gph_len _ _ H).
  induction cache as [|a cache _] using rev_ind.
  - rewrite zlen_nil. cbn [Z.gtb Z.compare].
    destruct (gp_recharge_spec create probe pool mp items heap H M)
      as (kept & taken & mp' & n & E & M' & Sa & Hn & R).
    exists n. intros made heap' Cr. destruct (R _ _ Cr) as (pool1 & -> & H1). simpl.
    destruct (taken ++ made) as [|x l _] eqn:Ea using rev_ind.
    { apply app_eq_nil in Ea as [-> ->]. apply create_items_length in Cr.
      rewrite zlen_nil in Hn. simpl in Cr. lia. }
    destruct (pop_item_spec _ _ _ H1) as (pool2 & -> & H2). simpl.
    exists x, pool2, mp', l, kept. splits; auto.
    rewrite E, <- app_assoc, Ea. solve_Permutation.
  - autorewrite with ww. pose proof (zlen_nonneg cache).
    destruct (_ >? 0) eqn:E; bool_facts; [|lia].
    exists 0%nat. intros made heap' [= <- <-].
    destruct (pop_item_spec _ _ _ H) as (pool' & -> & H'). simpl.
    exists a, pool', mp, cache, items. splits; auto; [by split|]. solve_Permutation.
Qed.

Lemma gp_shrink_spec probe pool mp cache items :
  gp_holds pool cache -> mp_holds mp items -> 0 < zlen cache ->
  exists pool' mp' cache' items' destroyed,
    genericpoolShrink probe pool mp = Ok (pool', mp', destroyed) /\
    gp_holds pool' cache' /\ mp_holds mp' items' /\ same_account mp mp' /\
    zlen cache' < gp_cap pool' /\ gp_cap pool' = gp_cap pool /\
    cache ++ items ≡ₚ cache' ++ items' ++ destroyed.
Proof.
  intros H M Hpos. pose proof (half_cap _ _ H) as Hh. pose proof (gp_holds_bound _ _ H) as Hb.
  pose proof (gph_cap _ _ H) as Hc. unfold genericpoolShrink. rewrite (gph_len _ _ H).
  set (decrease := if zlen cache <? gp_cap pool / 2 then zlen cache else gp_cap pool / 2).
  assert (Hd : 1 <= decrease <= zlen cache) by (subst decrease; split_test; lia).
  destruct (split_top cache decrease) as (kept & taken & -> & Ht & Hk); [lia|].
  rewrite wrap32_small by lia. rewrite <- Hk, <- Ht.
  replace (Z.to_nat (zlen taken)) with (length taken) by (unfold zlen; lia).
  rewrite (holds_gets _ kept taken []) by (rewrite app_nil_r; apply H). simpl.
  destruct (reuse_items_spec probe mp items taken M) as (mp' & back & lost & E & _ & M' & Sa & ->);
    [rewrite zlen_app in *; pose proof (zlen_nonneg kept); lia|]. simpl.
  eexists _, mp', kept, (items ++ back), lost. split; [reflexivity|].
  split; [by eapply gp_holds_prefix|]. splits; auto.
  - simpl. lia.
  - rewrite E. solve_Permutation.
Qed.

(** Giving an item back. *)
Lemma put_item_spec probe pool mp cache items b :
  gp_holds pool cache -> mp_holds mp items ->
  exists pool' mp' cache' items' destroyed,
    put_item probe pool mp b = Ok (pool', mp', destroyed) /\
    gp_holds pool' cache' /\ mp_holds mp' items' /\ same_account mp mp' /\
    b :: cache ++ items ≡ₚ cache' ++ items' ++ destroyed.
Proof.
  intros H M. unfold put_item. rewrite (gph_len _ _ H).
  assert (exists pool1 mp1 cache1 items1 lost,
    (if zlen cache >? gp_free_threshold pool then genericpoolShrink probe pool mp
     else mret (pool, mp, [])) = Ok (pool1, mp1, lost) /\
    gp_holds pool1 cache1 /\ mp_holds mp1 items1 /\ same_account mp mp1 /\
    zlen cache1 < gp_cap pool1 /\ cache ++ items ≡ₚ cache1 ++ items1 ++ lost)
    as (p1 & mp1 & c1 & i1 & lost & -> & H1 & M1 & Sa & Hroom & P1).
  { pose proof (gph_threshold _ _ H). destruct (_ >? _) eqn:E; bool_facts.
    - destruct (gp_shrink_spec probe pool mp cache items H M)
        as (p1 & m1 & c1 & i1 & lost & ? & ? & ? & ? & ? & ? & ?); [lia|].
      exists p1, m1, c1, i1, lost. auto 10.
    - exists pool, mp, cache, items, []. rewrite app_nil_r. splits; auto; [by split|lia]. }
  simpl. rewrite (gph_len _ _ H1). pose proof (gph_cap _ _ H1).
  pose proof (gp_holds_bound _ _ H1).
  destruct (holds_set (gp_available p1) c1 b) as (slots & -> & Hs & Ls);
    [apply H1|rewrite (gph_size _ _ H1); lia|]. simpl.
  rewrite wrap32_small by lia.
  eexists _, mp1, (c1 ++ [b]), i1, lost. split; [reflexivity|].
  split; [apply (gp_holds_app p1 c1 slots [b]); auto; rewrite Ls; apply H1|].
  splits; auto. rewrite P1. solve_Permutation.
Qed.

Lemma put_item_shared_spec probe mp items b :
  mp_holds mp items -> 0 < mp_checked_out mp ->
  exists mp' items' destroyed,
    put_item_shared probe mp b = Ok (mp', destroyed) /\
    mp_holds mp' items' /\ same_account mp mp' /\ b :: items ≡ₚ items' ++ destroyed.
Proof.
  intros M Ho. unfold put_item_shared, genericpoolGetInUse, masterpoolGetCheckedOut.
  rewrite assert_bind by lia.
  destruct (reuse_items_spec probe mp items [b] M) as (mp' & back & lost & E & _ & M' & Sa & R);
    [vm_compute; congruence|].
  exists mp', (items ++ back), lost. splits; auto. rewrite <- app_assoc, <- E. solve_Permutation.
Qed.

Lemma allocate_holds sizeof item_size w pool :
  0 <= sizeof <= 65536 -> u32 w ->
  allocateGenericPool sizeof item_size w = Some pool -> gp_holds pool (@nil A).
Proof.
  intros Hs Hw. unfold allocateGenericPool, genericpoolTryComputeGeometry.
  unfold u32, UINT32_MAX in *. change (4294967295 / 2) with 2147483647.
  destruct (_ >? _) eqn:E; [discriminate|]. bool_facts.
  rewrite (wrap32_small (Z.max 1 w * 2)) by word_lia.
  destruct (memoryTryComputeArraySize _ _); [|discriminate].
  destruct (_ >? _); [discriminate|]. intros [= <-].
  rewrite (wrap64_small (_ * 2)) by word_lia.
  pose proof (Z.div_mod (Z.max 1 w * 2 * 2) 3). pose proof (Z.mod_pos_bound (Z.max 1 w * 2 * 2) 3).
  rewrite wrap32_small by word_lia.
  split; cbn [gp_len gp_cap gp_free_threshold gp_available];
    [apply holds_nil|done|rewrite zlen_replicate|unfold UINT32_MAX|]; lia.
Qed.
End Lemmas.

(** ** Workers sharing a master pool

    Items are identities: creation hands out the next unused number.  A call of
    [genericpoolGetItem] is two steps, the atomic increment of the checkout
    counter and the rest; a call of [genericpoolReuseItem] or
    [genericpoolReuseItemShared] is two steps, the hand-over of the item and
    the atomic decrement.  Between the two steps of a call any other step may
    run.  [sy_getting] and [sy_returning] count the calls in progress;
    [sy_destroyed] remembers the items given to the destroy callback. *)

Record system : Type := mk_system {
  sy_master : master_pool_t Z;
  sy_workers : list (generic_pool_t Z);
  sy_in_use : list Z;
  sy_next : Z;
  sy_getting : nat;
  sy_returning : nat;
  sy_destroyed : list Z
}.

Definition fresh_item (next : Z) : outcome (option Z * Z) := Ok (Some next, next + 1).

Inductive step : system -> system -> Prop :=
  | step_checkout m m' ws use next g r lost :
      masterpoolRecordCheckout m = Ok m' ->
      step (mk_system m ws use next g r lost) (mk_system m' ws use next (S g) r lost)
  | step_take w probe p m ws use next g r lost item p' m' next' :
      ws !! w = Some p ->
      take_item fresh_item probe p m next = Ok (item, p', m', next') ->
      step (mk_system m ws use next (S g) r lost)
           (mk_system m' (<[w := p']> ws) (item :: use) next' g r lost)
  | step_put w probe p m ws before item after next g r lost p' m' destroyed :
      ws !! w = Some p ->
      put_item probe p m item = Ok (p', m', destroyed) ->
      step (mk_system m ws (before ++ item :: after) next g r lost)
           (mk_system m' (<[w := p']> ws) (before ++ after) next g (S r) (destroyed ++ lost))
  | step_put_shared probe m ws before item after next g r lost m' destroyed :
      put_item_shared probe m item = Ok (m', destroyed) ->
      step (mk_system m ws (before ++ item :: after) next g r lost)
           (mk_system m' ws (before ++ after) next g (S r) (destroyed ++ lost))
  | step_return m m' ws use next g r lost :
      masterpoolRecordReturn m = Ok m' ->
      step (mk_system m ws use next g (S r) lost) (mk_system m' ws use next g r lost)
  | step_new_worker sizeof item_size width p m ws use next g r lost :
      0 <= sizeof <= 65536 -> u32 width ->
      allocateGenericPool sizeof item_size width = Some p ->
      step (mk_system m ws use next g r lost) (mk_system m (ws ++ [p]) use next g r lost)
  | step_drop_worker w p m ws use next g r lost destroyed :
      ws !! w = Some p -> genericpoolDestroy p = Ok destroyed ->
      step (mk_system m ws use next g r lost)
           (mk_system m (delete w ws) use next g r (destroyed ++ lost))
  | step_drain m m' ws use next g r lost destroyed :
      masterpoolMakeEmpty m = Ok (m', destroyed) ->
      step (mk_system m ws use next g r lost) (mk_system m' ws use next g r (destroyed ++ lost)).

Inductive reachable : system -> Prop :=
  | reach_init sizeof width m :
      0 <= sizeof <= 65536 -> u32 width ->
      masterpoolCreateWithCapacity sizeof true width = Some m ->
      reachable (mk_system m [] [] 0 0 0 [])
  | reach_step s s' : reachable s -> step s s' -> reachable s'.

(** The items idle in the master pool or in a worker's cache. *)
Definition cached (s : system) : list Z :=
  cached_in (mp_len (sy_master s)) (mp_available (sy_master s)) ++
  mjoin ((fun p => cached_in (gp_len p) (gp_available p)) <$> sy_workers s).

Record system_inv (s : system) : Prop := mk_system_inv {
  si_caches : exists items caches,
    mp_holds (sy_master s) items /\ Forall2 gp_holds (sy_workers s) caches /\
    NoDup (items ++ mjoin caches ++ sy_in_use s ++ sy_destroyed s) /\
    Forall (fun i => i < sy_next s) (items ++ mjoin caches ++ sy_in_use s ++ sy_destroyed s);
  si_count : mp_checked_out (sy_master s) =
    zlen (sy_in_use s) + Z.of_nat (sy_getting s) + Z.of_nat (sy_returning s)
}.

Lemma create_fresh (n : nat) (next : Z) :
  create_items fresh_item n next = Ok (seqZ next (Z.of_nat n), next + Z.of_nat n).
Proof.
  revert next. induction n as [|n IH]; intros next; [simpl; do 2 f_equal; lia|].
  rewrite (seqZ_cons next) by lia. simpl create_items. rewrite IH. simpl.
  do 2 f_equal; [|lia]. do 2 f_equal; lia.
Qed.

(** One list in a list of lists replaced: what changes in the concatenation. *)
Lemma mjoin_insert (ls : list (list Z)) (i : nat) (l l' : list Z) :
  ls !! i = Some l ->
  exists rest, mjoin ls ≡ₚ l ++ rest /\ mjoin (<[i := l']> ls) ≡ₚ l' ++ rest /\
    mjoin (delete i ls) ≡ₚ rest.
Proof.
  intros Hi. exists (mjoin (take i ls) ++ mjoin (drop (S i) ls)).
  pose proof (lookup_lt_Some _ _ _ Hi) as Hlt.
  rewrite <- (take_drop_middle ls i l Hi) at 1.
  rewrite (insert_take_drop ls i l' Hlt), (delete_take_drop ls i), !join_app. simpl.
  splits; solve_Permutation.
Qed.

Lemma caches_lookup (ws : list (generic_pool_t Z)) (caches : list (list Z)) (w : nat) p :
  Forall2 gp_holds ws caches -> ws !! w = Some p ->
  exists cache, caches !! w = Some cache /\ gp_holds p cache.
Proof. intros F Hw. destruct (Forall2_lookup_l _ _ _ _ _ F Hw) as (c & ? & ?). eauto. Qed.

(** Fresh items differ from every item made before. *)
Lemma nodup_fresh (l : list Z) (next : Z) (n : nat) :
  NoDup l -> Forall (fun i => i < next) l ->
  NoDup (l ++ seqZ next (Z.of_nat n)) /\
  Forall (fun i => i < next + Z.of_nat n) (l ++ seqZ next (Z.of_nat n)).
Proof.
  intros Hd Hf. rewrite Forall_forall in Hf. split.
  - apply NoDup_app. splits; auto; [|apply NoDup_seqZ].
    intros x Hx Hin. apply Hf in Hx. apply elem_of_seqZ in Hin. lia.
  - apply Forall_app. split; apply Forall_forall; intros x Hx.
    + apply Hf in Hx. lia.
    + apply elem_of_seqZ in Hx. lia.
Qed.

(** The invariant does not depend on where an item is kept. *)
Lemma inv_perm (l l' : list Z) (next : Z) :
  l ≡ₚ l' -> NoDup l -> Forall (fun i => i < next) l ->
  NoDup l' /\ Forall (fun i => i < next) l'.
Proof. intros P. rewrite P. auto. Qed.

Lemma init_inv sizeof width m :
  0 <= sizeof <= 65536 -> u32 width ->
  masterpoolCreateWithCapacity sizeof true width = Some m ->
  system_inv (mk_system m [] [] 0 0 0 []).
Proof.
  intros Hs Hw Hm. destruct (create_master_holds _ _ _ Hs Hw Hm) as (M & C & _).
  split; [|simpl; by rewrite C]. exists [], []. simpl. splits; auto; constructor.
Qed.

(** A change of the checkout counter alone. *)
Lemma inv_account m m' ws use next g r g' r' lost :
  system_inv (mk_system m ws use next g r lost) ->
  m' = set_checked_out m (zlen use + Z.of_nat g' + Z.of_nat r') ->
  zlen use + Z.of_nat g' + Z.of_nat r' <= SIZE_MAX ->
  system_inv (mk_system m' ws use next g' r' lost).
Proof.
  intros [(items & caches & M & F & D & B) C] -> Hle. split; [|done].
  exists items, caches. splits; auto. apply mp_holds_set_checked_out; auto.
  simpl. pose proof (zlen_nonneg use). lia.
Qed.

Section Preservation.
Context (m : master_pool_t Z) (ws : list (generic_pool_t Z)) (next : Z) (g r : nat).
Context (lost : list Z).

Lemma checkout_inv m' use :
  system_inv (mk_system m ws use next g r lost) -> masterpoolRecordCheckout m = Ok m' ->
  system_inv (mk_system m' ws use next (S g) r lost).
Proof.
  intros I E. pose proof I as [(items & caches & M & _) C]. simpl in *.
  assert (mp_checked_out m <> SIZE_MAX) as Hne.
  { intros Ho. unfold masterpoolRecordCheckout in E. rewrite Ho in E. discriminate. }
  pose proof (mph_checked_out _ _ M).
  rewrite (record_checkout_ok m items) in E by (auto; lia). injection E as <-.
  eapply inv_account; [exact I|f_equal; lia|lia].
Qed.

Lemma return_inv m' use :
  system_inv (mk_system m ws use next g (S r) lost) -> masterpoolRecordReturn m = Ok m' ->
  system_inv (mk_system m' ws use next g r lost).
Proof.
  intros I E. pose proof I as [(items & caches & M & _) C]. simpl in *.
  pose proof (mph_checked_out _ _ M). pose proof (zlen_nonneg use).
  rewrite (record_return_ok m items) in E by (auto; lia). injection E as <-.
  eapply inv_account; [exact I|f_equal; lia|lia].
Qed.

(** The invariant after the caches were rearranged around worker [w]. *)
Lemma rearranged_inv w p p' m' cache caches items cache' items' use use' lost' next' g' r' :
  Forall2 gp_holds ws caches -> ws !! w = Some p -> caches !! w = Some cache ->
  NoDup (items ++ mjoin caches ++ use ++ lost) ->
  Forall (fun i => i < next) (items ++ mjoin caches ++ use ++ lost) ->
  (forall rest, NoDup ((cache ++ items ++ use ++ lost) ++ rest) ->
     Forall (fun i => i < next) ((cache ++ items ++ use ++ lost) ++ rest) ->
     NoDup ((cache' ++ items' ++ use' ++ lost') ++ rest) /\
     Forall (fun i => i < next') ((cache' ++ items' ++ use' ++ lost') ++ rest)) ->
  gp_holds p' cache' -> mp_holds m' items' ->
  mp_checked_out m' = zlen use' + Z.of_nat g' + Z.of_nat r' ->
  system_inv (mk_system m' (<[w := p']> ws) use' next' g' r' lost').
Proof.
  intros F Hw Hc D B Hperm H' M' C. split; [|exact C].
  destruct (mjoin_insert caches w cache cache' Hc) as (rest & P1 & P2 & _).
  exists items', (<[w := cache']> caches). splits; auto.
  - apply Forall2_insert; auto.
  - simpl. rewrite P2. rewrite P1 in D, B.
    destruct (Hperm rest) as [D' _];
      [eapply NoDup_Permutation_proper, D; solve_Permutation|
       eapply Forall_Permutation, B; [done|solve_Permutation]|].
    eapply NoDup_Permutation_proper, D'. solve_Permutation.
  - simpl. rewrite P2. rewrite P1 in D, B.
    destruct (Hperm rest) as [_ B'];
      [eapply NoDup_Permutation_proper, D; solve_Permutation|
       eapply Forall_Permutation, B; [done|solve_Permutation]|].
    eapply Forall_Permutation, B'; [done|solve_Permutation].
Qed.

Lemma take_inv w probe p p' m' use item next' :
  system_inv (mk_system m ws use next (S g) r lost) -> ws !! w = Some p ->
  take_item fresh_item probe p m next = Ok (item, p', m', next') ->
  system_inv (mk_system m' (<[w := p']> ws) (item :: use) next' g r lost).
Proof.
  intros [(items & caches & M & F & D & B) C] Hw E.
  destruct (caches_lookup _ _ _ _ F Hw) as (cache & Hc & H).
  destruct (take_item_spec fresh_item probe p m cache items next H M) as (n & T).
  destruct (T _ _ (create_fresh n next)) as (a & q & m2 & cache' & items' & E' & H' & M' & Sa & P).
  rewrite E in E'. injection E' as <- <- <- ->.
  apply (rearranged_inv w p p' m' cache caches items cache' items' use (item :: use) lost); auto.
  - intros rest D1 B1. destruct (nodup_fresh _ _ n D1 B1) as [D2 B2].
    eapply (inv_perm _ _ _ ltac:(idtac)); [exact D2|exact B2].
    Unshelve. trans ((cache ++ items ++ seqZ next (Z.of_nat n)) ++ use ++ lost ++ rest);
      [solve_Permutation|]. rewrite P. solve_Permutation.
  - simpl in *. destruct Sa as [_ <-]. rewrite zlen_cons. lia.
Qed.

Lemma put_inv w probe p p' m' before item after destroyed :
  system_inv (mk_system m ws (before ++ item :: after) next g r lost) -> ws !! w = Some p ->
  put_item probe p m item = Ok (p', m', destroyed) ->
  system_inv (mk_system m' (<[w := p']> ws) (before ++ after) next g (S r) (destroyed ++ lost)).
Proof.
  intros [(items & caches & M & F & D & B) C] Hw E.
  destruct (caches_lookup _ _ _ _ F Hw) as (cache & Hc & H).
  destruct (put_item_spec probe p m cache items item H M)
    as (q & m2 & cache' & items' & d & E' & H' & M' & Sa & P).
  rewrite E in E'. injection E' as <- <- <-.
  apply (rearranged_inv w p p' m' cache caches items cache' items'
           (before ++ item :: after) (before ++ after) (destroyed ++ lost)); auto.
  - intros rest. apply inv_perm.
    trans ((item :: cache ++ items) ++ before ++ after ++ lost ++ rest); [solve_Permutation|].
    rewrite P. solve_Permutation.
  - simpl in *. destruct Sa as [_ <-]. autorewrite with ww in C. rewrite zlen_app. lia.
Qed.

Lemma put_shared_inv probe m' before item after destroyed :
  system_inv (mk_system m ws (before ++ item :: after) next g r lost) ->
  put_item_shared probe m item = Ok (m', destroyed) ->
  system_inv (mk_system m' ws (before ++ after) next g (S r) (destroyed ++ lost)).
Proof.
  intros [(items & caches & M & F & D & B) C] E. simpl in *.
  autorewrite with ww in C. pose proof (zlen_nonneg before). pose proof (zlen_nonneg after).
  destruct (put_item_shared_spec probe m items item M) as (m2 & items' & d & E' & M' & Sa & P); [lia|].
  rewrite E in E'. injection E' as <- <-. split.
  - exists items', caches. simpl. split; [done|]. split; [done|].
    eapply inv_perm; [|exact D|exact B].
    trans ((item :: items) ++ mjoin caches ++ before ++ after ++ lost); [solve_Permutation|].
    rewrite P. solve_Permutation.
  - simpl. destruct Sa as [_ <-]. rewrite zlen_app. lia.
Qed.

Lemma drop_worker_inv w p use destroyed :
  system_inv (mk_system m ws use next g r lost) -> ws !! w = Some p ->
  genericpoolDestroy p = Ok destroyed ->
  system_inv (mk_system m (delete w ws) use next g r (destroyed ++ lost)).
Proof.
  intros [(items & caches & M & F & D & B) C] Hw E.
  destruct (caches_lookup _ _ _ _ F Hw) as (cache & Hc & H).
  unfold genericpoolDestroy in E. rewrite (gph_len _ _ H) in E.
  replace (Z.to_nat (zlen cache)) with (length cache) in E by (unfold zlen; lia).
  rewrite (holds_gets _ [] cache []) in E by (rewrite app_nil_r; apply H). injection E as <-.
  destruct (mjoin_insert caches w cache [] Hc) as (rest & P1 & _ & P3).
  split; [|done]. exists items, (delete w caches). simpl. split; [done|].
  split; [by apply Forall2_delete|].
  eapply inv_perm; [|exact D|exact B]. simpl. rewrite P1, P3. solve_Permutation.
Qed.

Lemma drain_inv m' use destroyed :
  system_inv (mk_system m ws use next g r lost) ->
  masterpoolMakeEmpty m = Ok (m', destroyed) ->
  system_inv (mk_system m' ws use next g r (destroyed ++ lost)).
Proof.
  intros [(items & caches & M & F & D & B) C] E. unfold masterpoolMakeEmpty in E. simpl in *.
  rewrite (mph_len _ _ M) in E.
  replace (Z.to_nat (zlen items)) with (length items) in E by (unfold zlen; lia).
  rewrite (holds_gets _ [] items []) in E by (rewrite app_nil_r; apply M). injection E as <- <-.
  split; [|done]. exists [], caches. simpl. split; [by apply (mp_holds_set_len m [] items)|].
  split; [done|]. eapply inv_perm; [|exact D|exact B]. solve_Permutation.
Qed.
End Preservation.

Lemma step_inv s s' : system_inv s -> step s s' -> system_inv s'.
Proof.
  intros I H. destruct H.
  - by eapply checkout_inv.
  - by eapply take_inv.
  - by eapply put_inv.
  - by eapply put_shared_inv.
  - by eapply return_inv.
  - destruct I as [(items & caches & M & F & D & B) C]. split; [|done].
    exists items, (caches ++ [[]]). simpl. rewrite join_app. simpl. rewrite !app_nil_r.
    splits; auto. apply Forall2_app; [done|]. constructor; [|constructor].
    by eapply allocate_holds.
  - by eapply drop_worker_inv.
  - by eapply drain_inv.
Qed.

Lemma reachable_inv s : reachable s -> system_inv s.
Proof. induction 1; [by eapply init_inv|by eapply step_inv]. Qed.

Lemma inv_cached s :
  system_inv s -> NoDup (cached s ++ sy_in_use s ++ sy_destroyed s).
Proof.
  intros [(items & caches & M & F & D & B) _]. unfold cached.
  rewrite (cached_in_holds _ _ items) by apply M.
  assert (((fun p => cached_in (gp_len p) (gp_available p)) <$> sy_workers s) = caches) as ->.
  { clear -F. induction F as [|p c ws cs Hp _ IH]; [done|]. simpl. f_equal; [|done].
    apply cached_in_holds; apply Hp. }
  rewrite <- app_assoc. exact D.
Qed.


(** Liveness: in a reachable state no operation can fail: a recorded
    checkout gets its item, an item in use can be given back through any worker
    or from a foreign thread, a return can be recorded; and the master pool
    accepts destruction only when nothing is in use and no call is in progress. *)
Theorem genericpool_progress (s : system) (probe : Z) :
  reachable s ->
  (forall w p, sy_workers s !! w = Some p ->
     (exists r, take_item fresh_item probe p (sy_master s) (sy_next s) = Ok r) /\
     (forall item, exists r, put_item probe p (sy_master s) item = Ok r)) /\
  (forall item, item ∈ sy_in_use s ->
     exists r, put_item_shared probe (sy_master s) item = Ok r) /\
  (sy_returning s <> 0%nat -> exists m, masterpoolRecordReturn (sy_master s) = Ok m) /\
  (masterpoolDestroy (sy_master s) = Ok tt ->
     sy_in_use s = [] /\ sy_getting s = 0%nat /\ sy_returning s = 0%nat).
Proof.
  intros R. apply reachable_inv in R as [(items & caches & M & F & _ & _) C].
  pose proof (zlen_nonneg (sy_in_use s)). splits.
  - intros w p Hw. destruct (caches_lookup _ _ _ _ F Hw) as (cache & _ & H'). split.
    + destruct (take_item_spec fresh_item probe p _ cache items (sy_next s) H' M) as (n & T).
      destruct (T _ _ (create_fresh n _)) as (? & ? & ? & ? & ? & E & _). eauto.
    + intros item. destruct (put_item_spec probe p _ cache items item H' M)
        as (? & ? & ? & ? & ? & E & _). eauto.
  - intros item Hi. apply list_elem_of_split in Hi as (l1 & l2 & Ei).
    rewrite Ei, zlen_app, zlen_cons in C. pose proof (zlen_nonneg l1). pose proof (zlen_nonneg l2).
    destruct (put_item_shared_spec probe _ items item M) as (? & ? & ? & E & _); [lia|eauto].
  - intros Hr. rewrite (record_return_ok _ items) by (auto; lia). eauto.
  - unfold masterpoolDestroy, masterpoolGetCheckedOut. intros E.
    apply bind_Ok in E as (u & E1 & _). apply check_Ok in E1. bool_facts.
    destruct (sy_in_use s) as [|i use]; [rewrite zlen_nil in C; split; [done|lia]|].
    rewrite zlen_cons in C. pose proof (zlen_nonneg use). lia.
Qed.

(** A state with two workers and one item in use, for the witnesses. *)
Definition demo_system : system :=
  mk_system (mk_mp 0 1 2 [None; None])
    [mk_gp 0 2 1 16 [Some 0; None]; mk_gp 0 2 1 16 [None; None]] [0] 1 0 0 [].

Lemma demo_system_reachable : reachable demo_system.
Proof.
  pose (p0 := mk_gp 0 2 1 16 [@None Z; None]).
  eapply reach_step; [eapply reach_step; [eapply reach_step; [eapply reach_step;
    [apply (reach_init 256 1 (mk_mp 0 0 2 [None; None]));
      [lia|unfold u32, UINT32_MAX; lia|vm_compute; reflexivity]|]|]|]|].
  - apply (step_new_worker 256 16 1 p0); [lia|unfold u32, UINT32_MAX; lia|vm_compute; reflexivity].
  - apply (step_new_worker 256 16 1 p0); [lia|unfold u32, UINT32_MAX; lia|vm_compute; reflexivity].
  - eapply step_checkout. vm_compute. reflexivity.
  - apply (step_take 0 0 p0 (mk_mp 0 1 2 [None; None]) [p0; p0] [] 0 0 0 [] 0
             (mk_gp 0 2 1 16 [Some 0; None]) (mk_mp 0 1 2 [None; None]) 1);
      [reflexivity|vm_compute; reflexivity].
Qed.


Lemma genericpool_progress_witness :
  exists r, put_item_shared 0 (sy_master demo_system) 0 = Ok r.
Proof.
  destruct (genericpool_progress demo_system 0 demo_system_reachable) as (_ & P & _).
  apply P. left.
Defined.
