(* ===== verification/PoolInterface.v ===== *)
(** * What a buffer pool promises its clients ([ww/bufio/buffer_pool.h])

    [PoolOps] is the part of the buffer pool interface the stream components
    call, [PoolLaws] what they rely on.  [BufferPool] implements both; the
    theorems about streams are proved against the laws alone. *)

From Stdlib Require Import ZArith Lia.
From stdpp Require Import base numbers option list.
From S2P Require Import Prelude ShiftBuffer.
Open Scope Z_scope.

Record buffer_pool_fit_t : Type := mk_fit {
  allocation_charge : Z;
  payload_capacity : Z;
  left_padding : Z;
  pooled : bool
}.

(** A buffer as the pool hands it out: reset, its whole payload room free. *)
Record idle (b : sbuf_t) : Prop := mk_idle {
  idle_wf : sbuf_wf b;
  idle_flags : flags b = 0;
  idle_len : len b = 0;
  idle_curpos : curpos b = l_pad b
}.

Class PoolOps (P : Type) : Type := {
  pool_small_size : P -> Z;
  pool_small_padding : P -> Z;
  pool_large_padding : P -> Z;
  pool_get_small : P -> outcome (sbuf_t * P);
  pool_get_best_fit : P -> Z -> Z -> outcome (sbuf_t * P);
  pool_try_get_best_fit : P -> Z -> Z -> outcome (option sbuf_t * P);
  pool_query_best_fit : P -> Z -> Z -> outcome (option buffer_pool_fit_t);
  pool_reuse : P -> sbuf_t -> outcome P
}.

(** No operation changes the geometry of the tiers. *)
Definition same_geometry `{PoolOps P} (p q : P) : Prop :=
  pool_small_size p = pool_small_size q /\ pool_small_padding p = pool_small_padding q /\
  pool_large_padding p = pool_large_padding q.

Class PoolLaws (P : Type) `{PoolOps P} : Type := {
  pool_inv : P -> Prop;
  pool_geometry p : pool_inv p ->
    creatable (pool_small_size p) (pool_small_padding p) /\
    0 <= pool_large_padding p <= UINT16_MAX - 31;
  pool_get_small_law p : pool_inv p ->
    exists b q, pool_get_small p = Ok (b, q) /\ pool_inv q /\ same_geometry p q /\ idle b /\
      l_pad b = pool_small_padding p /\ capacity b = pool_small_size p + l_pad b;
  pool_best_fit_law p n pad : pool_inv p -> creatable n pad -> u16 pad ->
    exists b q, pool_get_best_fit p n pad = Ok (b, q) /\ pool_inv q /\ same_geometry p q /\
      idle b /\ n <= capacity b - l_pad b /\ pad <= l_pad b /\
      forall fit, pool_query_best_fit p n pad = Ok (Some fit) ->
        allocation_charge fit = sbufGetAllocationCharge b;
  pool_try_best_fit_law p n pad : pool_inv p -> creatable n pad -> u16 pad ->
    exists b q, pool_try_get_best_fit p n pad = Ok (Some b, q) /\ pool_inv q /\
      same_geometry p q /\ idle b /\ n <= capacity b - l_pad b /\ pad <= l_pad b;
  pool_query_law p n pad : pool_inv p -> u32 n -> u16 pad ->
    exists r, pool_query_best_fit p n pad = Ok r /\
      (creatable n pad -> exists fit, r = Some fit) /\ (~ creatable n pad -> r = None);
  pool_reuse_law p b : pool_inv p -> sbuf_wf b -> ordinary b ->
    exists q, pool_reuse p b = Ok q /\ pool_inv q /\ same_geometry p q
}.

Section Idle.
Context (b : sbuf_t) (I : idle b).

Lemma idle_ordinary : ordinary b.
Proof. unfold ordinary, sbufIsSplice. rewrite (idle_flags b I). reflexivity. Qed.

Lemma idle_payload : payload b = [].
Proof. unfold payload. rewrite (idle_len b I). apply slice_zero. Qed.

Lemma idle_good : good b.
Proof. split; [apply I|exact idle_ordinary]. Qed.
End Idle.

#[export] Instance same_geometry_equiv `{PoolOps P} : Equivalence (same_geometry (P := P)).
Proof.
  unfold same_geometry. split.
  - done.
  - intros x y (? & ? & ?). auto.
  - intros x y z (-> & -> & ->) (? & ? & ?). auto.
Qed.

(** Concatenates and recycles the second buffer ([buffer_pool.c]). *)
Definition sbufAppendMerge `{Allocator, PoolOps P} (p : P) (b1 b2 : sbuf_t)
  : outcome (sbuf_t * P) :=
  b1 ← sbufConcat b1 b2;
  p ← pool_reuse p b2;
  mret (b1, p).

Lemma append_merge_spec `{Allocator, PoolLaws P} (p : P) (b1 b2 : sbuf_t) :
  pool_inv p -> good b1 -> good b2 -> creatable (len b1 + len b2) (l_pad b1) ->
  exists r q, sbufAppendMerge p b1 b2 = Ok (r, q) /\ pool_inv q /\ same_geometry p q /\ good r /\
    payload r = payload b1 ++ payload b2 /\ len r = len b1 + len b2 /\ l_pad r = l_pad b1.
Proof.
  intros I [W1 O1] [W2 O2] Hc. unfold sbufAppendMerge.
  destruct (concat_spec b1 b2 W1 O1 W2 Hc) as (r & -> & ? & ? & ? & ? & ? & _). simpl.
  destruct (pool_reuse_law p b2 I W2 O2) as (q & -> & ? & ?). simpl.
  exists r, q. splits; auto. by split.
Qed.

(** Gives back every buffer of a queue, front first. *)
Fixpoint reuse_all `{PoolOps P} (bufs : list sbuf_t) (pool : P) : outcome P :=
  match bufs with
  | [] => mret pool
  | b :: bufs' => pool ← pool_reuse pool b; reuse_all bufs' pool
  end.

Lemma reuse_all_spec `{PoolLaws P} (bufs : list sbuf_t) (pool : P) :
  Forall good bufs -> pool_inv pool ->
  exists pool', reuse_all bufs pool = Ok pool' /\ pool_inv pool' /\ same_geometry pool pool'.
Proof.
  intros F. revert pool. induction F as [|b l [W O] _ IH]; intros pool I; simpl; [by exists pool|].
  destruct (pool_reuse_law pool b I W O) as (p1 & -> & I1 & S1). simpl.
  destruct (IH p1 I1) as (p2 & E2 & I2 & S2). exists p2. splits; auto. by trans p1.
Qed.
