(* ===== verification/BufferPool.v ===== *)
(** * Buffer pools ([ww/bufio/buffer_pool.c], [ww/bufio/buffer_pool.h])

    A worker's buffer pool keeps idle buffers in three tiers (large, medium,
    small), each a local stack backed by a master pool shared with the other
    workers.  A tier groups the C fields [x_buffers], [x_buffers_container_len],
    [x_buffers_size] and [x_buffer_left_padding].  The state of an operation is
    the pool, its three master pools, the values the advisory lock-free probes
    of the master pools will return (any list: the theorems hold for all), and
    the buffers destroyed so far.

    Modelled build: [BYPASS_BUFFERPOOL], [BUFFER_POOL_DEBUG] and
    [POOL_THREAD_CHECK] off, and no kernel splice support ([WW_HAVE_SPLICE] 0),
    so that no buffer carries a pipe. *)

From Stdlib Require Import ZArith Lia.
From stdpp Require Import base numbers option list.
From S2P Require Import Prelude ShiftBuffer MasterPool PoolInterface.
Open Scope Z_scope.
Open Scope word_scope.

Definition kBufferPoolRechargeBatchSize : Z := 4.

Record tier_t : Type := mk_tier {
  container_len : Z;
  buffers_size : Z;
  buffer_left_padding : Z;
  buffers : list (option sbuf_t)
}.

Record buffer_pool_t : Type := mk_pool {
  cap : Z;
  free_threshold : Z;
  large : tier_t;
  medium : tier_t;
  small : tier_t;
  splice_payload_limit : Z;
  waiting_budget_basis : Z;
  splice_buffer_left_padding : Z
}.

Inductive tier_id : Set := Large | Medium | Small.

#[export] Instance tier_id_eq_dec : EqDecision tier_id.
Proof. solve_decision. Defined.

Definition tier_of (t : tier_id) (pool : buffer_pool_t) : tier_t :=
  match t with Large => large pool | Medium => medium pool | Small => small pool end.

Definition set_tier (t : tier_id) (x : tier_t) (pool : buffer_pool_t) : buffer_pool_t :=
  let '(mk_pool c f l m s spl wbb sp) := pool in
  match t with
  | Large => mk_pool c f x m s spl wbb sp
  | Medium => mk_pool c f l x s spl wbb sp
  | Small => mk_pool c f l m x spl wbb sp
  end.

Definition set_container (x : tier_t) (n : Z) (slots : list (option sbuf_t)) : tier_t :=
  mk_tier n (buffers_size x) (buffer_left_padding x) slots.

(** The pool, its master pools, the coming probe values, the destroyed buffers. *)
Record state : Type := mk_state {
  st_pool : buffer_pool_t;
  st_masters : tier_id -> master_pool_t sbuf_t;
  st_probes : list Z;
  st_destroyed : list sbuf_t
}.

Definition set_master (t : tier_id) (m : master_pool_t sbuf_t)
    (masters : tier_id -> master_pool_t sbuf_t) : tier_id -> master_pool_t sbuf_t :=
  fun t' => if decide (t' = t) then m else masters t'.

Definition next_probe (s : state) : Z := hd 0 (st_probes s).

Definition bufferpoolGetLargeBufferSize (pool : buffer_pool_t) : Z := buffers_size (large pool).
Definition bufferpoolGetLargeBufferPadding (pool : buffer_pool_t) : Z :=
  buffer_left_padding (large pool).
Definition bufferpoolGetMediumBufferSize (pool : buffer_pool_t) : Z := buffers_size (medium pool).
Definition bufferpoolGetMediumBufferPadding (pool : buffer_pool_t) : Z :=
  buffer_left_padding (medium pool).
Definition bufferpoolGetSmallBufferSize (pool : buffer_pool_t) : Z := buffers_size (small pool).
Definition bufferpoolGetSmallBufferPadding (pool : buffer_pool_t) : Z :=
  buffer_left_padding (small pool).

Definition bufferpoolRechargeCount (pool : buffer_pool_t) (cached_count : Z) : Z :=
  Z.min (cap pool -32 cached_count) (Z.min (cap pool / 2) kBufferPoolRechargeBatchSize).

Definition bufferMatchesGeometry (b : sbuf_t) (payload_capacity left_padding : Z) : bool :=
  (sbufGetTotalCapacityNoPadding b =? payload_capacity) && (sbufGetLeftPadding b =? left_padding).

(** The test [bufferpoolTiersHaveIdenticalGeometry] makes for large and small,
    and the code repeats inline for the other pairs. *)
Definition tiers_match (x y : tier_t) : bool :=
  (buffers_size x =? buffers_size y) && (buffer_left_padding x =? buffer_left_padding y).

Definition bufferpoolTiersHaveIdenticalGeometry (pool : buffer_pool_t) : bool :=
  tiers_match (large pool) (small pool).

(** ** Sizes *)

Definition bufferpoolTryRoundBufferSize (requested : Z) : option Z :=
  sbufTryComputeCapacity requested 0.

Definition bufferpoolTryComputeGeometry (pool_width : Z) : option (Z * Z * Z) :=
  if (pool_width =? 0) || (pool_width >? UINT32_MAX / 2) then None else
  let capacity := wrap32 (pool_width * 2) in
  match memoryTryComputeArraySize capacity SIZEOF_POINTER with
  | None => None
  | Some pointer_array_size =>
      let two_thirds := wrap32 (wrap32 (capacity / 3 * 2) + wrap32 (capacity mod 3 * 2) / 3) in
      let threshold := Z.max (capacity / 2) two_thirds in
      Some (capacity, threshold, pointer_array_size)
  end.

Definition bufferpoolCreate (bufcount large_buffer_size medium_buffer_size small_buffer_size
    limit basis : Z) : option buffer_pool_t :=
  if (limit =? 0) || (limit >? INT_MAX) || (basis =? 0) || (basis >? INT_MAX) then None else
  match bufferpoolTryComputeGeometry bufcount,
        bufferpoolTryRoundBufferSize large_buffer_size,
        bufferpoolTryRoundBufferSize medium_buffer_size,
        bufferpoolTryRoundBufferSize small_buffer_size with
  | Some (capacity, threshold, _), Some l, Some m, Some s =>
      let empty size := mk_tier 0 size 0 (replicate (Z.to_nat capacity) None) in
      Some (mk_pool capacity threshold (empty l) (empty m) (empty s) limit basis 0)
  | _, _, _, _ => None
  end.

(** Without splice support the padding of the splice tier is not checked and
    its cache is always empty. *)
Definition bufferpoolUpdateAllocationPaddings (pool : buffer_pool_t)
    (large_pad medium_pad small_pad splice_pad : Z) : outcome buffer_pool_t :=
  large_pad ← sbufAlignLeftPadding large_pad;
  medium_pad ← sbufAlignLeftPadding medium_pad;
  small_pad ← sbufAlignLeftPadding small_pad;
  splice_pad ← sbufAlignLeftPadding splice_pad;
  let l_new_max := Z.max (buffer_left_padding (large pool)) large_pad in
  let medium_new_max := Z.max (buffer_left_padding (medium pool)) medium_pad in
  let s_new_max := Z.max (buffer_left_padding (small pool)) small_pad in
  let m_new_max := Z.max (splice_buffer_left_padding pool) splice_pad in
  if (l_new_max =? buffer_left_padding (large pool)) &&
     (s_new_max =? buffer_left_padding (small pool)) &&
     (medium_new_max =? buffer_left_padding (medium pool)) &&
     (m_new_max =? splice_buffer_left_padding pool)
  then mret pool
  else
    _ ← assert_ ((container_len (small pool) =? 0) && (container_len (large pool) =? 0) &&
                 (container_len (medium pool) =? 0));
    let pad x p := mk_tier (container_len x) (buffers_size x) p (buffers x) in
    mret (mk_pool (cap pool) (free_threshold pool) (pad (large pool) l_new_max)
            (pad (medium pool) medium_new_max) (pad (small pool) s_new_max)
            (splice_payload_limit pool) (waiting_budget_basis pool) m_new_max).

(** ** Recharging and shrinking a tier *)

Section Operations.
Context `{Allocator}.

Definition createBufHandle (t : tier_id) (pool : buffer_pool_t) (_ : unit)
  : outcome (option sbuf_t * unit) :=
  b ← sbufCreateWithPadding (buffers_size (tier_of t pool)) (buffer_left_padding (tier_of t pool));
  mret (Some b, tt).
Definition createLargeBufHandle := createBufHandle Large.
Definition createMediumBufHandle := createBufHandle Medium.
Definition createSmallBufHandle := createBufHandle Small.

(** Returns the buffer to keep and the buffer destroyed, if any. *)
Definition requireExactMasterBuffer (b : sbuf_t) (payload_capacity left_padding : Z)
    (create_handle : unit -> outcome (option sbuf_t * unit)) : outcome (sbuf_t * list sbuf_t) :=
  if bufferMatchesGeometry b payload_capacity left_padding then mret (b, [])
  else
    '(item, _) ← create_handle tt;
    b' ← masterpoolRequireCreatedItem item;
    mret (b', [b]).

(** [for (i = 0; i < increase; ++i) buffers[base + i] = requireExactMasterBuffer(...)] *)
Fixpoint exact_loop (slots : list (option sbuf_t)) (base : Z) (n : nat)
    (payload_capacity left_padding : Z) (create_handle : unit -> outcome (option sbuf_t * unit))
  : outcome (list (option sbuf_t) * list sbuf_t) :=
  match n with
  | O => mret (slots, [])
  | S n' =>
      b ← slot_get slots base;
      '(b, d1) ← requireExactMasterBuffer b payload_capacity left_padding create_handle;
      slots ← slot_set slots base b;
      '(slots, d2) ← exact_loop slots (base + 1) n' payload_capacity left_padding create_handle;
      mret (slots, d1 ++ d2)
  end.

Definition reCharge (t : tier_id) (s : state) : outcome state :=
  let pool := st_pool s in
  let x := tier_of t pool in
  let increase := bufferpoolRechargeCount pool (container_len x) in
  '(items, master, _) ←
    masterpoolGetItems (createBufHandle t pool) (next_probe s) (st_masters s t) increase tt;
  slots ← slots_set (buffers x) (container_len x) items;
  '(slots, destroyed) ← exact_loop slots (container_len x) (Z.to_nat increase)
    (buffers_size x) (buffer_left_padding x) (createBufHandle t pool);
  mret (mk_state (set_tier t (set_container x (container_len x +32 increase) slots) pool)
          (set_master t master (st_masters s)) (tail (st_probes s)) (destroyed ++ st_destroyed s)).
Definition reChargeLargeBuffers := reCharge Large.
Definition reChargeMediumBuffers := reCharge Medium.
Definition reChargeSmallBuffers := reCharge Small.

Definition shrink (t : tier_id) (s : state) : outcome state :=
  let pool := st_pool s in
  let x := tier_of t pool in
  let decrease := Z.min (container_len x) (cap pool / 2) in
  items ← slots_get (buffers x) (container_len x -32 decrease) (Z.to_nat decrease);
  '(master, destroyed) ← masterpoolReuseItems (next_probe s) (st_masters s t) items;
  mret (mk_state (set_tier t (set_container x (container_len x -32 decrease) (buffers x)) pool)
          (set_master t master (st_masters s)) (tail (st_probes s)) (destroyed ++ st_destroyed s)).
Definition shrinkLargeBuffers := shrink Large.
Definition shrinkMediumBuffers := shrink Medium.
Definition shrinkSmallBuffers := shrink Small.

(** ** Getting a buffer *)

(** [return buffers[--container_len];] *)
Definition pop_buffer (t : tier_id) (s : state) : outcome (sbuf_t * state) :=
  let x := tier_of t (st_pool s) in
  let n := container_len x -32 1 in
  b ← slot_get (buffers x) n;
  mret (b, mk_state (set_tier t (set_container x n (buffers x)) (st_pool s))
             (st_masters s) (st_probes s) (st_destroyed s)).

Definition bufferpoolGetLargeBuffer (s : state) : outcome (sbuf_t * state) :=
  let pool := st_pool s in
  if container_len (large pool) >? 0 then pop_buffer Large s
  else if bufferpoolTiersHaveIdenticalGeometry pool && (container_len (small pool) >? 0)
  then pop_buffer Small s
  else if tiers_match (large pool) (medium pool) && (container_len (medium pool) >? 0)
  then pop_buffer Medium s
  else s ← reChargeLargeBuffers s; pop_buffer Large s.

Definition bufferpoolGetMediumBuffer (s : state) : outcome (sbuf_t * state) :=
  let pool := st_pool s in
  if container_len (medium pool) >? 0 then pop_buffer Medium s
  else if tiers_match (large pool) (medium pool) && (container_len (large pool) >? 0)
  then pop_buffer Large s
  else if tiers_match (small pool) (medium pool) && (container_len (small pool) >? 0)
  then pop_buffer Small s
  else s ← reChargeMediumBuffers s; pop_buffer Medium s.

Definition bufferpoolGetSmallBuffer (s : state) : outcome (sbuf_t * state) :=
  let pool := st_pool s in
  if container_len (small pool) >? 0 then pop_buffer Small s
  else if bufferpoolTiersHaveIdenticalGeometry pool && (container_len (large pool) >? 0)
  then pop_buffer Large s
  else if tiers_match (small pool) (medium pool) && (container_len (medium pool) >? 0)
  then pop_buffer Medium s
  else s ← reChargeSmallBuffers s; pop_buffer Small s.

Definition get_tier_buffer (t : tier_id) : state -> outcome (sbuf_t * state) :=
  match t with
  | Large => bufferpoolGetLargeBuffer
  | Medium => bufferpoolGetMediumBuffer
  | Small => bufferpoolGetSmallBuffer
  end.

(** [None] is [kBufferPoolTierDedicated]. *)
Definition bufferpoolSelectBestFit (pool : buffer_pool_t) (minimum_payload minimum_left_padding : Z)
  : option tier_id :=
  let fits x := (minimum_payload <=? buffers_size x) &&
                (minimum_left_padding <=? buffer_left_padding x) in
  let small_fits := fits (small pool) in
  let medium_fits := fits (medium pool) in
  let large_fits := fits (large pool) in
  if small_fits &&
     (negb medium_fits || (buffers_size (small pool) <=? buffers_size (medium pool))) &&
     (negb large_fits || (buffers_size (small pool) <=? buffers_size (large pool)))
  then Some Small
  else if medium_fits &&
          (negb large_fits || (buffers_size (medium pool) <=? buffers_size (large pool)))
  then Some Medium
  else if large_fits then Some Large
  else None.

Definition bufferpoolQueryBestFit (pool : buffer_pool_t) (minimum_payload minimum_left_padding : Z)
  : outcome (option buffer_pool_fit_t) :=
  let tier := bufferpoolSelectBestFit pool minimum_payload minimum_left_padding in
  let '(payload, padding) :=
    match tier with
    | Some t => (buffers_size (tier_of t pool), buffer_left_padding (tier_of t pool))
    | None => (minimum_payload, minimum_left_padding)
    end in
  match sbufTryComputeCapacity payload padding with
  | None => mret None
  | Some capacity =>
      padding ← sbufAlignLeftPadding padding;
      mret (Some (mk_fit (SIZEOF_STRUCT_SBUF +64 capacity +64 kSbufAllocationAlignment)
                    (capacity -32 padding) padding (match tier with Some _ => true | None => false end)))
  end.

Definition bufferpoolGetBestFit (s : state) (minimum_payload minimum_left_padding : Z)
  : outcome (sbuf_t * state) :=
  match bufferpoolSelectBestFit (st_pool s) minimum_payload minimum_left_padding with
  | Some t => get_tier_buffer t s
  | None =>
      b ← sbufCreateWithPadding minimum_payload minimum_left_padding;
      mret (b, s)
  end.

Definition bufferpoolTryGetBestFit (s : state) (minimum_payload minimum_left_padding : Z)
  : outcome (option sbuf_t * state) :=
  match sbufTryComputeCapacity minimum_payload minimum_left_padding with
  | None => mret (None, s)
  | Some _ =>
      '(b, s) ← bufferpoolGetBestFit s (wrap32 minimum_payload) minimum_left_padding;
      mret (Some b, s)
  end.

(** ** Giving a buffer back *)

Definition push_buffer (t : tier_id) (b : sbuf_t) (s : state) : outcome state :=
  let x := tier_of t (st_pool s) in
  slots ← slot_set (buffers x) (container_len x) b;
  mret (mk_state (set_tier t (set_container x (container_len x +32 1) slots) (st_pool s))
          (st_masters s) (st_probes s) (st_destroyed s)).

(** The arm of [bufferpoolReuseBuffer] for the tier the buffer belongs to. *)
Definition store_buffer (t : tier_id) (b : sbuf_t) (s : state) : outcome state :=
  s ← (if container_len (tier_of t (st_pool s)) >? free_threshold (st_pool s)
       then shrink t s else mret s);
  push_buffer t b s.

Definition destroy_buffer (b : sbuf_t) (s : state) : state :=
  mk_state (st_pool s) (st_masters s) (st_probes s) (b :: st_destroyed s).

Definition bufferpoolReuseBuffer (s : state) (b : sbuf_t) : outcome state :=
  if sbufIsSplice b then Fail NotModelled else
  let pool := st_pool s in
  let b := sbufReset b in
  let in_tier x := bufferMatchesGeometry b (buffers_size x) (buffer_left_padding x) in
  if in_tier (large pool) then store_buffer Large b s
  else if in_tier (medium pool) then store_buffer Medium b s
  else if in_tier (small pool) then store_buffer Small b s
  else mret (destroy_buffer b s).

Definition sbufDuplicateByPool (s : state) (b : sbuf_t) : outcome (sbuf_t * state) :=
  let pool := st_pool s in
  let source_length := sbufGetLength b in
  let size := sbufGetTotalCapacityNoPadding b in
  let source :=
    if size =? buffers_size (large pool) then Some Large
    else if size =? buffers_size (medium pool) then Some Medium
    else if size =? buffers_size (small pool) then Some Small
    else None in
  match source with
  | None => d ← sbufDuplicate b; mret (d, s)
  | Some t =>
      '(bnew, s) ← get_tier_buffer t s;
      if source_length >? sbufGetMaximumWriteableSize bnew then
        s ← bufferpoolReuseBuffer s bnew;
        d ← sbufDuplicate b;
        mret (d, s)
      else
        bnew ← sbufSetLength bnew source_length;
        bnew ← sbufWriteBuf bnew b source_length;
        bnew ← sbufSetRecalculateChecksum bnew (sbufGetRecalculateChecksum b);
        mret (bnew, s)
  end.

(** Returns the buffers freed. *)
Definition bufferpoolDestroy (pool : buffer_pool_t) : outcome (list sbuf_t) :=
  let all x := slots_get (buffers x) 0 (Z.to_nat (container_len x)) in
  s ← all (small pool);
  l ← all (large pool);
  m ← all (medium pool);
  mret (s ++ l ++ m).
End Operations.

(** ** Invariant *)

(** Tier sizes as [bufferpoolCreate] and the padding update leave them: rounded,
    and small enough for a buffer of that geometry to exist. *)
Record geometry_ok (x : tier_t) : Prop := mk_geometry_ok {
  geo_creatable : creatable (buffers_size x) (buffer_left_padding x);
  geo_size : buffers_size x mod 64 = 0;
  geo_pad : buffer_left_padding x mod 32 = 0
}.

(** An idle buffer with exactly the geometry of the tier. *)
Definition fits_tier (x : tier_t) (b : sbuf_t) : Prop :=
  idle b /\ l_pad b = buffer_left_padding x /\ capacity b = buffers_size x + l_pad b.

Record tier_inv (c : Z) (x : tier_t) (cache : list sbuf_t) : Prop := mk_tier_inv {
  ti_slots : holds (buffers x) cache;
  ti_len : container_len x = zlen cache;
  ti_size : zlen (buffers x) = c;
  ti_fits : Forall (fits_tier x) cache;
  ti_geometry : geometry_ok x
}.

Record inv (s : state) (caches items : tier_id -> list sbuf_t) : Prop := mk_inv {
  inv_cap : 2 <= cap (st_pool s) <= UINT32_MAX;
  inv_threshold : 0 <= free_threshold (st_pool s) < cap (st_pool s);
  inv_tiers : forall t, tier_inv (cap (st_pool s)) (tier_of t (st_pool s)) (caches t);
  inv_masters : forall t, mp_holds (st_masters s t) (items t) /\ Forall idle (items t)
}.

Definition state_inv (s : state) : Prop := exists caches items, inv s caches items.

(** Every buffer the pool and its masters hold or have destroyed. *)
Definition cache_of (x : tier_t) : list sbuf_t := cached_in (container_len x) (buffers x).
Definition master_items (m : master_pool_t sbuf_t) : list sbuf_t :=
  cached_in (mp_len m) (mp_available m).
Definition owned (s : state) : list sbuf_t :=
  (cache_of (large (st_pool s)) ++ master_items (st_masters s Large)) ++
  (cache_of (medium (st_pool s)) ++ master_items (st_masters s Medium)) ++
  (cache_of (small (st_pool s)) ++ master_items (st_masters s Small)) ++
  st_destroyed s.

(** Sizes, paddings and limits never change while buffers move. *)
Definition same_tier (x y : tier_t) : Prop :=
  buffers_size x = buffers_size y /\ buffer_left_padding x = buffer_left_padding y.
Definition same_pool (p q : buffer_pool_t) : Prop :=
  (forall t, same_tier (tier_of t p) (tier_of t q)) /\ cap p = cap q /\
  free_threshold p = free_threshold q.

Definition upd {A} (t : tier_id) (a : A) (f : tier_id -> A) : tier_id -> A :=
  fun t' => if decide (t' = t) then a else f t'.

Lemma upd_same {A} t (a : A) f : upd t a f t = a.
Proof. unfold upd. by rewrite decide_True. Qed.

Lemma tier_of_set t t' x pool :
  tier_of t' (set_tier t x pool) = if decide (t' = t) then x else tier_of t' pool.
Proof. destruct pool, t, t'; reflexivity. Qed.

Lemma cap_set t x pool : cap (set_tier t x pool) = cap pool.
Proof. destruct pool, t; reflexivity. Qed.

Lemma threshold_set t x pool : free_threshold (set_tier t x pool) = free_threshold pool.
Proof. destruct pool, t; reflexivity. Qed.

Lemma same_pool_refl p : same_pool p p.
Proof. by repeat split. Qed.

Lemma same_pool_set t x pool :
  same_tier (tier_of t pool) x -> same_pool pool (set_tier t x pool).
Proof.
  intros Hx. split; [|by rewrite cap_set, threshold_set].
  intros t'. rewrite tier_of_set. case_decide; [by subst|by split].
Qed.

Lemma same_pool_trans p q r : same_pool p q -> same_pool q r -> same_pool p r.
Proof.
  intros (H1 & E1 & F1) (H2 & E2 & F2). split; [|split; congruence]. intros t.
  destruct (H1 t), (H2 t). split; congruence.
Qed.

Lemma fits_same x y b : same_tier x y -> fits_tier x b -> fits_tier y b.
Proof. intros [E1 E2]. unfold fits_tier. by rewrite E1, E2. Qed.

Lemma geometry_same x y : same_tier x y -> geometry_ok x -> geometry_ok y.
Proof. intros [E1 E2] []. split; congruence. Qed.

(** Replacing what one tier and its master hold. *)
Lemma inv_update s caches items t x m c i probes d :
  inv s caches items -> same_tier (tier_of t (st_pool s)) x ->
  tier_inv (cap (st_pool s)) x c -> mp_holds m i -> Forall idle i ->
  inv (mk_state (set_tier t x (st_pool s)) (set_master t m (st_masters s)) probes d)
      (upd t c caches) (upd t i items).
Proof.
  intros [] Hx Ht Hm Hi. split; simpl.
  - by rewrite cap_set.
  - by rewrite cap_set, threshold_set.
  - intros t'. rewrite cap_set, tier_of_set. unfold upd. case_decide; auto.
  - intros t'. unfold set_master, upd. case_decide; auto.
Qed.

Lemma inv_update_tier s caches items t x c :
  inv s caches items -> same_tier (tier_of t (st_pool s)) x ->
  tier_inv (cap (st_pool s)) x c ->
  inv (mk_state (set_tier t x (st_pool s)) (st_masters s) (st_probes s) (st_destroyed s))
      (upd t c caches) (upd t (items t) items).
Proof.
  intros I Hx Ht. destruct (inv_masters _ _ _ I t) as [M Hi].
  destruct (inv_update s caches items t x _ c _ (st_probes s) (st_destroyed s) I Hx Ht M Hi)
    as [A1 A2 A3 A4].
  split; auto. intros t'. specialize (A4 t'). simpl in *. unfold set_master, upd in *.
  by case_decide; subst.
Qed.

Lemma inv_owned s caches items :
  inv s caches items ->
  owned s = (caches Large ++ items Large) ++ (caches Medium ++ items Medium) ++
            (caches Small ++ items Small) ++ st_destroyed s.
Proof.
  intros [_ _ HT HM].
  assert (HC : forall t, cache_of (tier_of t (st_pool s)) = caches t)
    by (intros t; apply cached_in_holds; apply (HT t)).
  assert (HI : forall t, master_items (st_masters s t) = items t)
    by (intros t; apply cached_in_holds; apply (HM t)).
  unfold owned. rewrite !HI, <- !HC. reflexivity.
Qed.

(** How the buffers are accounted when tier [t] goes from [c], [i] to [c'], [i']. *)
Lemma owned_update s s' caches items t c' i' gone gained :
  inv s caches items -> inv s' (upd t c' caches) (upd t i' items) ->
  caches t ++ items t ++ gained ++ st_destroyed s ≡ₚ gone ++ c' ++ i' ++ st_destroyed s' ->
  owned s ++ gained ≡ₚ gone ++ owned s'.
Proof.
  intros I I' P. rewrite (inv_owned _ _ _ I), (inv_owned _ _ _ I').
  destruct t; unfold upd; simpl.
  - trans ((caches Large ++ items Large ++ gained ++ st_destroyed s) ++
           (caches Medium ++ items Medium) ++ caches Small ++ items Small); [solve_Permutation|].
    rewrite P. solve_Permutation.
  - trans ((caches Medium ++ items Medium ++ gained ++ st_destroyed s) ++
           (caches Large ++ items Large) ++ caches Small ++ items Small); [solve_Permutation|].
    rewrite P. solve_Permutation.
  - trans ((caches Small ++ items Small ++ gained ++ st_destroyed s) ++
           (caches Large ++ items Large) ++ caches Medium ++ items Medium); [solve_Permutation|].
    rewrite P. solve_Permutation.
Qed.

(** ** What the operations do *)

Lemma matches_fits x b :
  idle b -> bufferMatchesGeometry b (buffers_size x) (buffer_left_padding x) = true ->
  fits_tier x b.
Proof.
  intros I. unfold bufferMatchesGeometry, sbufGetLeftPadding.
  rewrite capacity_no_padding by apply I. intros E. bool_facts.
  split; [done|]. lia.
Qed.

Lemma reset_idle b : sbuf_wf b -> idle (sbufReset b).
Proof.
  intros W. split; simpl; auto. destruct W. split; simpl; auto; unfold UINT16_MAX; lia.
Qed.

Lemma tier_bound c x cache : tier_inv c x cache -> 0 <= zlen cache <= c.
Proof. intros []. apply holds_len in ti_slots0. pose proof (zlen_nonneg cache). lia. Qed.

Lemma tier_inv_prefix c x cache rest :
  tier_inv c x (cache ++ rest) -> tier_inv c (set_container x (zlen cache) (buffers x)) cache.
Proof.
  intros [Hs _ Hz Hf Hg]. apply holds_app_l in Hs. apply Forall_app in Hf as [Hf _].
  split; auto. by eapply geometry_same, Hg.
Qed.

Lemma tier_inv_app c x cache slots more :
  tier_inv c x cache -> holds slots (cache ++ more) -> zlen slots = c ->
  Forall (fits_tier x) more ->
  tier_inv c (set_container x (zlen cache + zlen more) slots) (cache ++ more).
Proof.
  intros [_ _ Hz Hf Hg] Hs Hl Hm. split; simpl; auto; [by rewrite zlen_app|by apply Forall_app|].
  by eapply geometry_same, Hg.
Qed.

#[export] Hint Resolve same_pool_refl matches_fits : ww.

Section Specs.
Context `{Allocator}.

Lemma create_tier x :
  geometry_ok x ->
  exists b, sbufCreateWithPadding (buffers_size x) (buffer_left_padding x) = Ok b /\ fits_tier x b.
Proof.
  intros [Hc Hs Hp].
  destruct (create_spec _ _ Hc) as (b & E & W & _ & Hf & Hl & Hcur & Hpad & Hcap & _).
  rewrite (round_pad_id _ Hp) in *. rewrite (round_line_id _ Hs) in *.
  exists b. split; [done|]. split; [by split; auto; congruence|]. rewrite Hpad. auto.
Qed.

Lemma create_handle_ok t pool :
  geometry_ok (tier_of t pool) ->
  exists b, createBufHandle t pool tt = Ok (Some b, tt) /\ fits_tier (tier_of t pool) b.
Proof.
  intros Hg. destruct (create_tier _ Hg) as (b & E & F).
  exists b. unfold createBufHandle. by rewrite E.
Qed.

Lemma create_items_tier t pool n :
  geometry_ok (tier_of t pool) ->
  exists made, create_items (createBufHandle t pool) n tt = Ok (made, tt) /\
    Forall (fits_tier (tier_of t pool)) made /\ length made = n.
Proof.
  intros Hg. destruct (create_handle_ok t pool Hg) as (b & E & F).
  induction n as [|n (made & Em & Fm & Lm)]; simpl; [by exists []|].
  exists (b :: made). rewrite E. simpl. rewrite Em. simpl. auto.
Qed.

(** Buffers of the wrong geometry are replaced by fresh ones. *)
Lemma exact_loop_spec t pool slots l items :
  geometry_ok (tier_of t pool) -> holds slots (l ++ items) -> Forall idle items ->
  exists slots' items' destroyed made,
    exact_loop slots (zlen l) (length items) (buffers_size (tier_of t pool))
      (buffer_left_padding (tier_of t pool)) (createBufHandle t pool) = Ok (slots', destroyed) /\
    holds slots' (l ++ items') /\ zlen slots' = zlen slots /\ zlen items' = zlen items /\
    Forall (fits_tier (tier_of t pool)) items' /\ Forall (fits_tier (tier_of t pool)) made /\
    items ++ made ≡ₚ items' ++ destroyed.
Proof.
  intros Hg. revert slots l. induction items as [|a items IH]; intros slots l Hs Hi; simpl.
  { exists slots, [], [], []. auto 10. }
  apply Forall_cons in Hi as [Ha Hi]. rewrite (holds_get _ _ _ _ Hs). simpl.
  assert (exists b d made, requireExactMasterBuffer a (buffers_size (tier_of t pool))
      (buffer_left_padding (tier_of t pool)) (createBufHandle t pool) = Ok (b, d) /\
      fits_tier (tier_of t pool) b /\ Forall (fits_tier (tier_of t pool)) made /\
      a :: made ≡ₚ b :: d) as (b & d & made & -> & Hb & Hmade & P).
  { unfold requireExactMasterBuffer. destruct (bufferMatchesGeometry _ _ _) eqn:E.
    - exists a, [], []. splits; auto. auto with ww.
    - destruct (create_handle_ok t pool Hg) as (b & -> & F). simpl.
      exists b, [a], [b]. splits; auto. solve_Permutation. }
  simpl. destruct (holds_replace slots l a b items Hs) as (s1 & -> & H1 & L1). simpl.
  destruct (IH s1 (l ++ [b])) as (s2 & items' & d2 & made2 & E2 & H2 & L2 & Z2 & F2 & M2 & P2);
    [by rewrite <- app_assoc|done|].
  rewrite zlen_app, zlen_cons, zlen_nil, Z.add_0_r in E2. rewrite E2. simpl.
  exists s2, (b :: items'), (d ++ d2), (made ++ made2). rewrite <- app_assoc in H2.
  splits; auto; [congruence|rewrite !zlen_cons; lia|by apply Forall_app|].
  trans ((a :: made) ++ items ++ made2); [solve_Permutation|]. rewrite P, P2. solve_Permutation.
Qed.

Section WithInv.
Context (s : state) (caches items : tier_id -> list sbuf_t) (I : inv s caches items).
Context (t : tier_id).
Abbreviation x := (tier_of t (st_pool s)).

Lemma tier_recharge_spec :
  caches t = [] ->
  exists s' c i made,
    reCharge t s = Ok s' /\ inv s' (upd t c caches) (upd t i items) /\ c <> [] /\
    same_pool (st_pool s) (st_pool s') /\ Forall (fits_tier x) made /\
    items t ++ made ++ st_destroyed s ≡ₚ c ++ i ++ st_destroyed s'.
Proof.
  intros Hempty. destruct (inv_masters _ _ _ I t) as [M Hidle].
  pose proof (inv_tiers _ _ _ I t) as T. pose proof (inv_cap _ _ _ I) as Hc.
  rewrite Hempty in T. set (increase := Z.min (cap (st_pool s) / 2) 4).
  assert (Hinc : 1 <= increase <= cap (st_pool s)).
  { subst increase. pose proof (Z.div_mod (cap (st_pool s)) 2).
    pose proof (Z.mod_pos_bound (cap (st_pool s)) 2). lia. }
  destruct (get_items_spec (createBufHandle t (st_pool s)) (next_probe s) (st_masters s t)
              (items t) increase tt M) as (m & kept & taken & E & Ht & M' & _ & R); [lia|].
  pose proof (zlen_nonneg (items t)) as Hn1. pose proof (zlen_nonneg taken) as Hn2.
  destruct (create_items_tier t (st_pool s) (Z.to_nat (increase - zlen taken)))
    as (made & Em & Fm & Lm); [apply T|].
  assert (Htk : zlen taken <= increase) by (destruct (next_probe s >? 0); lia).
  assert (Li : zlen (taken ++ made) = increase) by (rewrite zlen_app; unfold zlen in *; lia).
  unfold reCharge, bufferpoolRechargeCount.
  rewrite (ti_len _ _ _ T), zlen_nil, Z.sub_0_r, (wrap32_small (cap (st_pool s))) by lia.
  change kBufferPoolRechargeBatchSize with 4. fold increase. rewrite Z.min_r by lia.
  rewrite R, Em. simpl.
  destruct (holds_sets (buffers x) [] (taken ++ made)) as (s1 & E1 & H1 & L1);
    [apply holds_nil|rewrite Li, (ti_size _ _ _ T), zlen_nil; lia|].
  rewrite zlen_nil in E1. rewrite E1. simpl. rewrite E in Hidle. apply Forall_app in Hidle as [Hk Htaken].
  destruct (exact_loop_spec t (st_pool s) s1 [] (taken ++ made))
    as (s2 & its & d & made2 & E2 & H2 & L2 & Z2 & F2 & M2 & P2); [apply T|done| |].
  { apply Forall_app. split; [done|]. eapply Forall_impl; [exact Fm|]. by intros b [? _]. }
  rewrite zlen_nil in E2.
  replace (Z.to_nat increase) with (length (taken ++ made)) by (unfold zlen in Li; lia).
  rewrite E2. simpl. rewrite wrap32_small by lia.
  eexists _, its, kept, (made ++ made2). split; [reflexivity|].
  replace (0 + increase) with (zlen (@nil sbuf_t) + zlen its) by (rewrite zlen_nil; lia).
  splits.
  - apply inv_update; auto; [by split|]. apply (tier_inv_app _ _ []); auto. rewrite L2, L1. apply T.
  - intros ->. rewrite zlen_nil in Z2. lia.
  - by apply same_pool_set.
  - by apply Forall_app.
  - simpl. rewrite E. trans ((taken ++ made) ++ made2 ++ kept ++ st_destroyed s);
      [solve_Permutation|]. rewrite (app_assoc (taken ++ made)), P2. solve_Permutation.
Qed.

Lemma tier_pop_spec b c :
  caches t = c ++ [b] ->
  exists s', pop_buffer t s = Ok (b, s') /\ inv s' (upd t c caches) (upd t (items t) items) /\
    same_pool (st_pool s) (st_pool s') /\ fits_tier x b /\ st_destroyed s' = st_destroyed s.
Proof.
  intros Hc. pose proof (inv_tiers _ _ _ I t) as T. rewrite Hc in T.
  pose proof (tier_bound _ _ _ T) as Hb. pose proof (inv_cap _ _ _ I).
  pose proof (zlen_nonneg c). unfold pop_buffer. rewrite (ti_len _ _ _ T).
  autorewrite with ww in *. rewrite wrap32_small by lia.
  replace (zlen c + (1 + 0) - 1) with (zlen c) by lia.
  rewrite (holds_get _ c b []) by apply T. simpl.
  eexists. split; [reflexivity|]. pose proof (ti_fits _ _ _ T) as F.
  apply Forall_app in F as [_ F]. apply Forall_cons in F as [F _].
  splits; auto; [|by apply same_pool_set].
  apply inv_update_tier; auto; [by split|]. by eapply tier_inv_prefix.
Qed.

Lemma tier_shrink_spec :
  0 < zlen (caches t) ->
  exists s' c i,
    shrink t s = Ok s' /\ inv s' (upd t c caches) (upd t i items) /\
    same_pool (st_pool s) (st_pool s') /\ zlen c < cap (st_pool s) /\
    caches t ++ items t ++ st_destroyed s ≡ₚ c ++ i ++ st_destroyed s'.
Proof.
  intros Hpos. destruct (inv_masters _ _ _ I t) as [M Hidle].
  pose proof (inv_tiers _ _ _ I t) as T. pose proof (inv_cap _ _ _ I) as Hc.
  pose proof (tier_bound _ _ _ T) as Hb. unfold shrink. rewrite (ti_len _ _ _ T).
  set (decrease := Z.min (zlen (caches t)) (cap (st_pool s) / 2)).
  assert (Hd : 1 <= decrease <= zlen (caches t)).
  { subst decrease. pose proof (Z.div_mod (cap (st_pool s)) 2).
    pose proof (Z.mod_pos_bound (cap (st_pool s)) 2). lia. }
  destruct (split_top (caches t) decrease) as (kept & taken & E & Ht & Hk); [lia|].
  rewrite wrap32_small by lia. rewrite <- Hk, <- Ht. rewrite E in T.
  replace (Z.to_nat (zlen taken)) with (length taken) by (unfold zlen; lia).
  rewrite (holds_gets _ kept taken []) by (rewrite app_nil_r; apply T). simpl.
  destruct (reuse_items_spec (next_probe s) (st_masters s t) (items t) taken M)
    as (m & back & lost & Eb & _ & M' & _ & ->); [rewrite Ht; lia|]. simpl.
  eexists _, kept, (items t ++ back). split; [reflexivity|].
  pose proof (ti_fits _ _ _ T) as F. apply Forall_app in F as [_ F]. rewrite Eb in F.
  apply Forall_app in F as [F _]. splits.
  - apply inv_update; auto; [by split|by eapply tier_inv_prefix|]. apply Forall_app. split; [done|].
    eapply Forall_impl; [exact F|]. by intros b [? _].
  - by apply same_pool_set.
  - lia.
  - simpl. rewrite E, Eb. solve_Permutation.
Qed.

Lemma tier_push_spec b :
  zlen (caches t) < cap (st_pool s) -> fits_tier x b ->
  exists s', push_buffer t b s = Ok s' /\
    inv s' (upd t (caches t ++ [b]) caches) (upd t (items t) items) /\
    same_pool (st_pool s) (st_pool s') /\ st_destroyed s' = st_destroyed s.
Proof.
  intros Hroom Hf.
  pose proof (inv_tiers _ _ _ I t) as T. pose proof (tier_bound _ _ _ T) as Hb.
  pose proof (inv_cap _ _ _ I). unfold push_buffer. rewrite (ti_len _ _ _ T).
  destruct (holds_set (buffers x) (caches t) b) as (slots & -> & Hs & Ls);
    [apply T|rewrite (ti_size _ _ _ T); lia|]. simpl.
  eexists. split; [reflexivity|]. rewrite wrap32_small by lia.
  splits; auto; [|by apply same_pool_set].
  apply inv_update_tier; auto; [by split|].
  apply (tier_inv_app _ x (caches t) slots [b]); auto. rewrite Ls. apply T.
Qed.
End WithInv.

(** The result of getting a buffer of the geometry of [x]: [made] are the
    buffers created on the way. *)
Definition got (s : state) (x : tier_t) (r : outcome (sbuf_t * state)) : Prop :=
  exists b s' made,
    r = Ok (b, s') /\ state_inv s' /\ same_pool (st_pool s) (st_pool s') /\ fits_tier x b /\
    Forall (fits_tier x) made /\ owned s ++ made ≡ₚ b :: owned s'.

Lemma pop_got s t t' :
  state_inv s -> same_tier (tier_of t' (st_pool s)) (tier_of t (st_pool s)) ->
  0 < container_len (tier_of t' (st_pool s)) -> got s (tier_of t (st_pool s)) (pop_buffer t' s).
Proof.
  intros (caches & items & I) Hsame Hpos. rewrite (ti_len _ _ _ (inv_tiers _ _ _ I t')) in Hpos.
  destruct (caches t') as [|b c _] eqn:E using rev_ind; [discriminate Hpos|].
  destruct (tier_pop_spec s caches items I t' b c E) as (s' & Ep & I' & Sp & F & D).
  exists b, s', []. splits; auto; [by do 2 eexists|by eapply fits_same|].
  apply (owned_update s s' caches items t' c (items t') [b] []); auto.
  rewrite E, D. solve_Permutation.
Qed.

Lemma recharge_got s t :
  state_inv s -> container_len (tier_of t (st_pool s)) <= 0 ->
  got s (tier_of t (st_pool s)) (s ← reCharge t s; pop_buffer t s).
Proof.
  intros (caches & items & I) Hz. rewrite (ti_len _ _ _ (inv_tiers _ _ _ I t)) in Hz.
  assert (E : caches t = []).
  { destruct (caches t) as [|b l]; [done|]. rewrite zlen_cons in Hz. pose proof (zlen_nonneg l). lia. }
  destruct (tier_recharge_spec s caches items I t E) as (s1 & c & i & made & -> & I1 & Hne & Sp & F & P).
  simpl. destruct c as [|b c _] using rev_ind; [done|].
  destruct (tier_pop_spec s1 _ _ I1 t b c) as (s2 & -> & I2 & Sp2 & Fb & D2); [apply upd_same|].
  exists b, s2, made. splits; auto.
  - by do 2 eexists.
  - by eapply same_pool_trans.
  - eapply fits_same, Fb. destruct Sp as [Sp _]. destruct (Sp t). by split.
  - assert (owned s ++ made ≡ₚ [] ++ owned s1) as ->
      by (apply (owned_update s s1 caches items t (c ++ [b]) i); auto; rewrite E; exact P).
    rewrite <- (app_nil_r (owned s1)).
    apply (owned_update s1 s2 _ _ t c _ [b] [] I1 I2). rewrite D2, !upd_same. solve_Permutation.
Qed.

Lemma tiers_match_same x y : tiers_match x y = true -> same_tier x y.
Proof. unfold tiers_match. intros E. bool_facts. by split. Qed.
#[local] Hint Resolve tiers_match_same : ww.

Lemma same_tier_sym x y : same_tier x y -> same_tier y x.
Proof. intros [E1 E2]. by split. Qed.

Lemma get_tier_got s t : state_inv s -> got s (tier_of t (st_pool s)) (get_tier_buffer t s).
Proof.
  intros I. destruct t; simpl.
  - unfold bufferpoolGetLargeBuffer, bufferpoolTiersHaveIdenticalGeometry.
    repeat split_test.
    + apply (pop_got s Large Large); auto; by split.
    + apply (pop_got s Large Small); auto. by apply same_tier_sym, tiers_match_same.
    + apply (pop_got s Large Medium); auto. by apply same_tier_sym, tiers_match_same.
    + apply (recharge_got s Large); auto.
  - unfold bufferpoolGetMediumBuffer. repeat split_test.
    + apply (pop_got s Medium Medium); auto; by split.
    + apply (pop_got s Medium Large); auto. auto with ww.
    + apply (pop_got s Medium Small); auto. auto with ww.
    + apply (recharge_got s Medium); auto.
  - unfold bufferpoolGetSmallBuffer, bufferpoolTiersHaveIdenticalGeometry. repeat split_test.
    + apply (pop_got s Small Small); auto; by split.
    + apply (pop_got s Small Large); auto. auto with ww.
    + apply (pop_got s Small Medium); auto. by apply same_tier_sym, tiers_match_same.
    + apply (recharge_got s Small); auto.
Qed.

Lemma store_spec s t b :
  state_inv s -> fits_tier (tier_of t (st_pool s)) b ->
  exists s', store_buffer t b s = Ok s' /\ state_inv s' /\ same_pool (st_pool s) (st_pool s') /\
    b :: owned s ≡ₚ owned s'.
Proof.
  intros (caches & items & I) Fb. unfold store_buffer.
  pose proof (inv_tiers _ _ _ I t) as T. rewrite (ti_len _ _ _ T).
  assert (exists s1 caches1 items1,
    (if zlen (caches t) >? free_threshold (st_pool s) then shrink t s else mret s) = Ok s1 /\
    inv s1 caches1 items1 /\ same_pool (st_pool s) (st_pool s1) /\
    zlen (caches1 t) < cap (st_pool s1) /\ owned s ≡ₚ owned s1)
    as (s1 & c1 & i1 & -> & I1 & Sp & Hroom & P1).
  { pose proof (inv_threshold _ _ _ I). destruct (_ >? _) eqn:E; bool_facts.
    - destruct (tier_shrink_spec s caches items I t) as (s1 & c & i & E1 & I1 & Sp & Hroom & P); [lia|].
      exists s1, (upd t c caches), (upd t i items). rewrite upd_same. splits; auto.
      + destruct Sp as (_ & <- & _). lia.
      + rewrite <- (app_nil_r (owned s)).
        apply (owned_update s s1 caches items t c i [] []); auto.
    - exists s, caches, items. splits; auto; [auto with ww|lia]. }
  simpl. destruct (tier_push_spec s1 c1 i1 I1 t b) as (s2 & -> & I2 & Sp2 & D2); auto.
  { eapply fits_same, Fb. apply Sp. }
  exists s2. splits; auto; [by do 2 eexists|by eapply same_pool_trans|].
  rewrite P1. trans (owned s1 ++ [b]); [solve_Permutation|].
  apply (owned_update s1 s2 c1 i1 t (c1 t ++ [b]) (i1 t) [] [b]); auto.
  rewrite D2. solve_Permutation.
Qed.

(** Giving a buffer back never fails and loses no buffer. *)
Lemma reuse_spec s b :
  state_inv s -> sbuf_wf b -> ordinary b ->
  exists s', bufferpoolReuseBuffer s b = Ok s' /\ state_inv s' /\
    same_pool (st_pool s) (st_pool s') /\ sbufReset b :: owned s ≡ₚ owned s'.
Proof.
  intros I W O. unfold bufferpoolReuseBuffer, ordinary in *. rewrite O.
  pose proof (reset_idle b W) as Hi. repeat split_test.
  - apply store_spec; auto. auto with ww.
  - apply store_spec; auto. auto with ww.
  - apply store_spec; auto. auto with ww.
  - eexists. split; [reflexivity|]. destruct I as (caches & items & []). splits.
    + exists caches, items. by split.
    + auto with ww.
    + unfold owned, destroy_buffer. simpl. solve_Permutation.
Qed.
End Specs.

(** ** Best fit *)

(** The tier can serve the request. *)
Definition tier_fits (pool : buffer_pool_t) (n pad : Z) (t : tier_id) : Prop :=
  n <= buffers_size (tier_of t pool) /\ pad <= buffer_left_padding (tier_of t pool).

(** The selection returns the smallest tier that can serve the request. *)
Lemma select_spec pool n pad :
  match bufferpoolSelectBestFit pool n pad with
  | Some t => tier_fits pool n pad t /\
      forall t', tier_fits pool n pad t' -> buffers_size (tier_of t pool) <= buffers_size (tier_of t' pool)
  | None => forall t, ~ tier_fits pool n pad t
  end.
Proof.
  unfold bufferpoolSelectBestFit, tier_fits.
  repeat split_test; try (split; [simpl; lia|]); intros [] Hfit; simpl in *; lia.
Qed.

(** The charge a query predicts for a geometry. *)
Lemma fit_of_geometry n pad b pooled :
  creatable n pad -> u16 pad -> idle b -> l_pad b = round_pad pad ->
  capacity b = round_line n + round_pad pad ->
  (match sbufTryComputeCapacity n pad with
   | None => mret None
   | Some capacity =>
       padding ← sbufAlignLeftPadding pad;
       mret (Some (mk_fit (SIZEOF_STRUCT_SBUF +64 capacity +64 kSbufAllocationAlignment)
                     (capacity -32 padding) padding pooled))
   end) = Ok (Some (mk_fit (sbufGetAllocationCharge b) (capacity b - l_pad b) (l_pad b) pooled)).
Proof.
  intros Hc Hu I Hp Hk. rewrite try_capacity_some by done.
  rewrite align_left_padding_ok by (auto; apply Hc). simpl.
  rewrite charge_ordinary by (try apply idle_ordinary; apply I).
  destruct Hc as (Hn & Hpad & _ & Ht). pose proof (round_line_bounds n Hn).
  pose proof (round_pad_bounds pad Hpad). rewrite Hk, Hp.
  unfold SIZEOF_STRUCT_SBUF, kSbufAllocationAlignment, UINT32_MAX in *.
  rewrite !wrap64_small by (unfold UINT64_MAX; rewrite ?wrap64_small; unfold UINT64_MAX; lia).
  rewrite wrap32_small by word_lia.
  do 3 f_equal. lia.
Qed.

Section BestFit.
Context `{Allocator}.

Lemma best_fit_spec s n pad :
  state_inv s -> creatable n pad -> u16 pad ->
  exists b s' made,
    bufferpoolGetBestFit s n pad = Ok (b, s') /\ state_inv s' /\
    same_pool (st_pool s) (st_pool s') /\ idle b /\ n <= capacity b - l_pad b /\ pad <= l_pad b /\
    Forall idle made /\ owned s ++ made ≡ₚ b :: owned s' /\
    bufferpoolQueryBestFit (st_pool s) n pad =
      Ok (Some (mk_fit (sbufGetAllocationCharge b) (capacity b - l_pad b) (l_pad b)
                  (match bufferpoolSelectBestFit (st_pool s) n pad with
                   | Some _ => true | None => false end))).
Proof.
  intros I Hc Hu. unfold bufferpoolGetBestFit, bufferpoolQueryBestFit.
  pose proof (select_spec (st_pool s) n pad) as Sel.
  destruct (bufferpoolSelectBestFit (st_pool s) n pad) as [t|].
  - destruct Sel as [[Hfn Hfp] _].
    destruct (get_tier_got s t I) as (b & s' & made & -> & I' & Sp & F & Fm & P).
    pose proof F as (Ib & Hl & Hk). destruct I as (caches & items & I).
    pose proof (ti_geometry _ _ _ (inv_tiers _ _ _ I t)) as [Gc Gs Gp].
    exists b, s', made. splits; auto; try lia.
    + eapply Forall_impl; [exact Fm|]. by intros x [? _].
    + pose proof (round_pad_bounds (buffer_left_padding (tier_of t (st_pool s)))).
      destruct Gc as (? & ? & ? & ?).
      apply fit_of_geometry; auto; [by split|unfold u16 in *; lia| |].
      * by rewrite round_pad_id.
      * rewrite round_line_id, round_pad_id by done. congruence.
  - destruct (create_spec n pad Hc) as (b & Eb & W & _ & Hf & Hl & Hcur & Hpad & Hcap & _).
    rewrite Eb. simpl. assert (Ib : idle b) by (split; auto; congruence).
    pose proof (round_line_bounds n). pose proof (round_pad_bounds pad).
    pose proof Hc as (? & ? & _). exists b, s, [b]. splits; auto; try lia.
    + auto with ww.
    + solve_Permutation.
    + by apply fit_of_geometry.
Qed.

Lemma query_spec s n pad :
  state_inv s -> u32 n -> u16 pad ->
  exists r, bufferpoolQueryBestFit (st_pool s) n pad = Ok r /\
    (creatable n pad -> exists fit, r = Some fit) /\ (~ creatable n pad -> r = None).
Proof.
  intros I Hn Hu. destruct (decide (0 <= n /\ 0 <= pad /\ round_pad pad <= UINT16_MAX /\
    round_line n + round_pad pad <= UINT32_MAX)) as [Hc|Hc].
  - destruct (best_fit_spec s n pad I Hc Hu) as (b & s' & made & _ & _ & _ & _ & _ & _ & _ & _ & E).
    eexists. split; [exact E|]. split; [eauto|]. done.
  - exists None. split; [|split; [done|done]]. unfold bufferpoolQueryBestFit.
    pose proof (select_spec (st_pool s) n pad) as Sel. unfold u32, u16 in *.
    destruct (bufferpoolSelectBestFit (st_pool s) n pad) as [t|].
    + destruct Sel as [[Hfn Hfp] _]. destruct I as (caches & items & I). exfalso. apply Hc.
      eapply creatable_le; [| |apply (ti_geometry _ _ _ (inv_tiers _ _ _ I t))]; lia.
    + by rewrite try_capacity_none by (auto; unfold u16; lia).
Qed.

Lemma try_best_fit_spec s n pad :
  state_inv s -> creatable n pad -> u16 pad ->
  exists b s' , bufferpoolTryGetBestFit s n pad = Ok (Some b, s') /\ state_inv s' /\
    same_pool (st_pool s) (st_pool s') /\ idle b /\ n <= capacity b - l_pad b /\ pad <= l_pad b.
Proof.
  intros I Hc Hu. unfold bufferpoolTryGetBestFit. rewrite try_capacity_some by done.
  pose proof Hc as (Hn & Hp & _ & Ht). pose proof (round_line_bounds n Hn).
  pose proof (round_pad_bounds pad Hp). rewrite wrap32_small by lia.
  destruct (best_fit_spec s n pad I Hc Hu) as (b & s' & made & -> & ? & ? & ? & ? & ? & _).
  simpl. eauto 10.
Qed.

(** ** The pool implements the interface *)

#[export] Instance buffer_pool_ops : PoolOps state := {
  pool_small_size s := bufferpoolGetSmallBufferSize (st_pool s);
  pool_small_padding s := bufferpoolGetSmallBufferPadding (st_pool s);
  pool_large_padding s := bufferpoolGetLargeBufferPadding (st_pool s);
  pool_get_small := bufferpoolGetSmallBuffer;
  pool_get_best_fit := bufferpoolGetBestFit;
  pool_try_get_best_fit := bufferpoolTryGetBestFit;
  pool_query_best_fit s := bufferpoolQueryBestFit (st_pool s);
  pool_reuse := bufferpoolReuseBuffer
}.

Lemma same_pool_geometry s s' : same_pool (st_pool s) (st_pool s') -> same_geometry s s'.
Proof.
  intros (Hs & _ & _). destruct (Hs Small), (Hs Large). by split.
Qed.
#[local] Hint Resolve same_pool_geometry : ww.

#[export] Instance buffer_pool_laws : PoolLaws state.
Proof.
  refine {| pool_inv := state_inv |}.
  - intros s (caches & items & I).
    pose proof (ti_geometry _ _ _ (inv_tiers _ _ _ I Small)) as [Gc _ _].
    pose proof (ti_geometry _ _ _ (inv_tiers _ _ _ I Large)) as [(_ & Hp & Hr & _) _ Hm].
    simpl in *. rewrite round_pad_id in Hr by done. split; [exact Gc|].
    unfold bufferpoolGetLargeBufferPadding, UINT16_MAX in *.
    pose proof (Z.div_mod (buffer_left_padding (large (st_pool s))) 32). lia.
  - intros s I. destruct (get_tier_got s Small I) as (b & s' & made & E & I' & Sp & (Ib & Hl & Hk) & _).
    exists b, s'. splits; auto. auto with ww.
  - intros s n pad I Hc Hu.
    destruct (best_fit_spec s n pad I Hc Hu) as (b & s' & made & E & ? & ? & ? & ? & ? & _ & _ & Q).
    exists b, s'. splits; auto; [auto with ww|].
    simpl. rewrite Q. by intros fit [= <-].
  - intros s n pad I Hc Hu.
    destruct (try_best_fit_spec s n pad I Hc Hu) as (b & s' & E & ? & ? & ? & ? & ?).
    exists b, s'. splits; auto. auto with ww.
  - intros s n pad I Hn Hu. by apply query_spec.
  - intros s b I W O. destruct (reuse_spec s b I W O) as (s' & E & ? & ? & _).
    exists s'. splits; auto. auto with ww.
Defined.
End BestFit.

(** ** Creation, padding update, reachable pools *)

(** The geometry of a pool: twice the requested width, and a shrink threshold of
    two thirds of it (at least half), computed without overflow. *)
Lemma geometry_spec w :
  u32 w ->
  bufferpoolTryComputeGeometry w =
    if (w =? 0) || (w >? UINT32_MAX / 2) then None
    else Some (2 * w, Z.max w (4 * w / 3), 16 * w).
Proof.
  intros Hw. unfold bufferpoolTryComputeGeometry, u32, UINT32_MAX in *.
  change (4294967295 / 2) with 2147483647.
  destruct ((w =? 0) || (w >? 2147483647))%bool eqn:E; [done|]. bool_facts.
  rewrite (wrap32_small (w * 2)) by word_lia.
  unfold memoryTryComputeArraySize, SIZEOF_POINTER, SIZE_MAX, UINT64_MAX.
  change (18446744073709551615 / 8) with 2305843009213693951.
  rewrite (proj2 (orb_false_iff _ _)) by lia. rewrite wrap64_small by word_lia.
  pose proof (Z.div_mod (w * 2) 3). pose proof (Z.mod_pos_bound (w * 2) 3).
  rewrite (wrap32_small (w * 2 / 3 * 2)) by word_lia.
  rewrite (wrap32_small ((w * 2) mod 3 * 2)) by word_lia.
  assert ((w * 2) mod 3 * 2 / 3 = 0 \/ (w * 2) mod 3 * 2 / 3 = 1) as Hq.
  { pose proof (Z.div_mod ((w * 2) mod 3 * 2) 3). pose proof (Z.mod_pos_bound ((w * 2) mod 3 * 2) 3). lia. }
  rewrite wrap32_small by word_lia.
  rewrite Z.div_mul by lia.
  replace (4 * w / 3) with (w * 2 / 3 * 2 + (w * 2) mod 3 * 2 / 3).
  - by rewrite (Z.mul_comm w 2), (Z.mul_comm 16 w), <- Z.mul_assoc, (Z.mul_comm 2 (w * 8)), <- Z.mul_assoc.
  - replace (4 * w) with (w * 2 / 3 * 2 * 3 + (w * 2) mod 3 * 2) by lia.
    rewrite Z.div_add_l by lia. done.
Qed.

(** Tier sizes the configuration uses; far below the 4 GiB limit. *)
Definition sizes_bounded (pool : buffer_pool_t) : Prop :=
  forall t, buffers_size (tier_of t pool) <= INT_MAX + 1.

Lemma round_size_spec n r :
  0 <= n <= INT_MAX -> bufferpoolTryRoundBufferSize n = Some r ->
  r = round_line n /\ 0 <= r <= INT_MAX + 1 /\ r mod 64 = 0.
Proof.
  intros Hn. unfold bufferpoolTryRoundBufferSize, INT_MAX in *.
  assert (creatable n 0) by (apply creatable_small; word_lia).
  rewrite try_capacity_some by (auto; unfold u16, UINT16_MAX; lia).
  change (round_pad 0) with 0. intros [= <-]. rewrite Z.add_0_r.
  pose proof (round_line_bounds n). pose proof (round_line_mod n) as Hm.
  splits; auto; try lia.
  pose proof (Z.div_mod (round_line n) 64). lia.
Qed.

Lemma geometry_small size pad n slots :
  0 <= size <= INT_MAX + 1 -> size mod 64 = 0 -> 0 <= pad <= UINT16_MAX -> pad mod 32 = 0 ->
  geometry_ok (mk_tier n size pad slots).
Proof.
  unfold INT_MAX, UINT16_MAX. intros Hs Hm Hp Hpm. split; auto. simpl.
  apply creatable_small; unfold UINT16_MAX, UINT32_MAX; try lia.
  pose proof (Z.div_mod pad 32). lia.
Qed.

Lemma create_pool_inv w l m s limit basis pool masters probes :
  u32 w -> 0 <= l <= INT_MAX -> 0 <= m <= INT_MAX -> 0 <= s <= INT_MAX ->
  bufferpoolCreate w l m s limit basis = Some pool ->
  (forall t, mp_holds (masters t) []) ->
  inv (mk_state pool masters probes []) (fun _ => []) (fun _ => []) /\ sizes_bounded pool.
Proof.
  intros Hw Hl Hm Hs. unfold bufferpoolCreate. destruct (_ || _)%bool; [discriminate|].
  rewrite geometry_spec by done. destruct (_ || _)%bool eqn:E; [discriminate|].
  destruct (bufferpoolTryRoundBufferSize l) as [rl|] eqn:El; [|discriminate].
  destruct (bufferpoolTryRoundBufferSize m) as [rm|] eqn:Em; [|discriminate].
  destruct (bufferpoolTryRoundBufferSize s) as [rs|] eqn:Es; [|discriminate].
  intros [= <-] Hmp. apply round_size_spec in El as (_ & Bl & Ml), Em as (_ & Bm & Mm),
    Es as (_ & Bs & Ms); auto.
  unfold u32, UINT32_MAX in *. change (4294967295 / 2) with 2147483647 in E. bool_facts.
  pose proof (Z.div_mod (4 * w) 3). pose proof (Z.mod_pos_bound (4 * w) 3).
  split; [split; simpl|]; unfold UINT32_MAX; try lia.
  - intros t. assert (forall size, 0 <= size <= INT_MAX + 1 -> size mod 64 = 0 ->
      tier_inv (2 * w) (mk_tier 0 size 0 (replicate (Z.to_nat (2 * w)) None)) []) as T.
    { intros size Hsz Hmod. split; cbn [buffers container_len]; auto; [apply holds_nil| |].
      - rewrite zlen_replicate. lia.
      - apply geometry_small; auto. unfold UINT16_MAX. lia. }
    destruct t; apply T; auto.
  - intros t. auto.
  - intros t. destruct t; simpl; lia.
Qed.

Lemma pad_update_inv s pool' lp mp sp xp :
  state_inv s -> sizes_bounded (st_pool s) -> u16 lp -> u16 mp -> u16 sp -> u16 xp ->
  bufferpoolUpdateAllocationPaddings (st_pool s) lp mp sp xp = Ok pool' ->
  state_inv (mk_state pool' (st_masters s) (st_probes s) (st_destroyed s)) /\ sizes_bounded pool'.
Proof.
  intros (caches & items & I) Hb Hl Hm Hs Hx. unfold bufferpoolUpdateAllocationPaddings.
  assert (Al : forall p q, u16 p -> sbufAlignLeftPadding p = Ok q ->
            0 <= q <= UINT16_MAX /\ q mod 32 = 0).
  { intros p q Hp E. destruct (Z.le_gt_cases (round_pad p) UINT16_MAX).
    - rewrite align_left_padding_ok in E by done. injection E as <-.
      pose proof (round_pad_bounds p). pose proof (round_pad_mod p). unfold u16 in *. lia.
    - rewrite align_left_padding_abort in E by done. discriminate. }
  intros E. apply bind_Ok in E as (l & El & E). apply bind_Ok in E as (m & Em & E).
  apply bind_Ok in E as (sm & Es & E). apply bind_Ok in E as (x & _ & E).
  apply Al in El as [? ?], Em as [? ?], Es as [? ?]; auto.
  destruct (_ && _)%bool in E; [injection E as <-; split; [|done]; exists caches, items; by destruct I|].
  apply bind_Ok in E as (u & A & E). apply check_Ok in A. injection E as <-.
  split; [|intros []; apply (Hb Large) || apply (Hb Medium) || apply (Hb Small)].
  exists caches, items. destruct I as [C1 C2 T M]. split; simpl; auto.
  assert (Up : forall t p, 0 <= p <= UINT16_MAX -> p mod 32 = 0 ->
    container_len (tier_of t (st_pool s)) = 0 ->
    tier_inv (cap (st_pool s)) (mk_tier (container_len (tier_of t (st_pool s)))
      (buffers_size (tier_of t (st_pool s))) p (buffers (tier_of t (st_pool s)))) (caches t)).
  { intros t p Hp Hpm Hz. destruct (T t) as [Hh Hlen Hsz _ [Gc Gs _]].
    assert (caches t = []) as -> by (apply nil_length_inv; unfold zlen in *; lia).
    split; auto; [apply holds_nil|]. apply geometry_small; auto. split; [apply Gc|apply Hb]. }
  assert (Mx : forall t p, 0 <= p <= UINT16_MAX -> p mod 32 = 0 ->
    0 <= Z.max (buffer_left_padding (tier_of t (st_pool s))) p <= UINT16_MAX /\
    Z.max (buffer_left_padding (tier_of t (st_pool s))) p mod 32 = 0).
  { intros t p Hp Hpm. destruct (T t) as [_ _ _ _ [(_ & G1 & G2 & _) _ G3]].
    pose proof (round_pad_bounds _ G1). split; [lia|]. by destruct (Z.max_spec_le
      (buffer_left_padding (tier_of t (st_pool s))) p) as [[_ ->]|[_ ->]]. }
  intros []; [destruct (Mx Large l)|destruct (Mx Medium m)|destruct (Mx Small sm)]; auto;
    [apply (Up Large)|apply (Up Medium)|apply (Up Small)]; auto; simpl; lia.
Qed.

Section Reachable.
Context `{Allocator}.

(** A duplicate taken from the pool carries the payload and the checksum
    request, whether a pooled buffer could hold it or not. *)
Lemma duplicate_by_pool_spec s b :
  state_inv s -> sbuf_wf b -> creatable (capacity b - l_pad b) (l_pad b) ->
  exists d s', sbufDuplicateByPool s b = Ok (d, s') /\ state_inv s' /\
    same_pool (st_pool s) (st_pool s') /\ sbuf_wf d /\ ordinary d /\
    payload d = payload b /\
    sbufGetRecalculateChecksum d = sbufGetRecalculateChecksum b.
Proof.
  intros I W Hc. unfold sbufDuplicateByPool. cbv zeta.
  destruct (duplicate_spec b W Hc) as (d & Ed & Wd & Od & Pd & _ & _ & _ & _ & Rd).
  match goal with |- context [match ?src with Some _ => _ | None => _ end] => destruct src as [t|] end.
  2:{ rewrite Ed. simpl. exists d, s. splits; auto. auto with ww. }
  destruct (get_tier_got s t I) as (n & s1 & made & -> & I1 & Sp1 & (In & _) & _). simpl.
  pose proof (idle_wf n In) as Wn. rewrite writeable_size by done.
  destruct (_ >? _) eqn:E; bool_facts; unfold sbufGetLength in *.
  - destruct (reuse_spec s1 n I1 Wn (idle_ordinary n In)) as (s2 & -> & I2 & Sp2 & _). simpl.
    rewrite Ed. simpl. exists d, s2. splits; auto. by eapply same_pool_trans.
  - destruct (copy_into n b Wn (idle_ordinary n In) (idle_len n In) W) as (g & Eg & ? & ? & ? & ? & ? & ? & ? & ?);
      [lia|].
    apply bind_Ok in Eg as (g1 & -> & Eg). simpl. apply bind_Ok in Eg as (g2 & -> & Eg). simpl.
    rewrite Eg. simpl. exists g, s1. splits; auto.
Qed.

(** Everything a worker can do with its pool, other workers exchanging any idle
    buffers with the master pools in between. *)
Inductive pool_reachable : state -> Prop :=
  | reach_create w l m s limit basis pool masters probes :
      u32 w -> 0 <= l <= INT_MAX -> 0 <= m <= INT_MAX -> 0 <= s <= INT_MAX ->
      bufferpoolCreate w l m s limit basis = Some pool ->
      (forall t, mp_holds (masters t) []) ->
      pool_reachable (mk_state pool masters probes [])
  | reach_paddings s lp mp sp xp pool' :
      pool_reachable s -> u16 lp -> u16 mp -> u16 sp -> u16 xp ->
      bufferpoolUpdateAllocationPaddings (st_pool s) lp mp sp xp = Ok pool' ->
      pool_reachable (mk_state pool' (st_masters s) (st_probes s) (st_destroyed s))
  | reach_get s t b s' : pool_reachable s -> get_tier_buffer t s = Ok (b, s') -> pool_reachable s'
  | reach_best_fit s n pad b s' :
      pool_reachable s -> creatable n pad -> u16 pad -> bufferpoolGetBestFit s n pad = Ok (b, s') ->
      pool_reachable s'
  | reach_reuse s b s' :
      pool_reachable s -> sbuf_wf b -> ordinary b -> bufferpoolReuseBuffer s b = Ok s' -> pool_reachable s'
  | reach_duplicate s b d s' :
      pool_reachable s -> sbuf_wf b -> creatable (capacity b - l_pad b) (l_pad b) ->
      sbufDuplicateByPool s b = Ok (d, s') -> pool_reachable s'
  | reach_other s t m items probes :
      pool_reachable s -> mp_holds m items -> Forall idle items ->
      pool_reachable (mk_state (st_pool s) (set_master t m (st_masters s)) probes (st_destroyed s)).

Lemma sizes_same p q : same_pool p q -> sizes_bounded p -> sizes_bounded q.
Proof. intros (S & _ & _) B t. destruct (S t) as [<- _]. apply B. Qed.
#[local] Hint Resolve sizes_same : ww.

Lemma reachable_state_inv s : pool_reachable s -> state_inv s /\ sizes_bounded (st_pool s).
Proof.
  induction 1 as
    [w l m s limit basis pool masters probes ? ? ? ? E M
    |s lp mp sp xp pool' _ [I B] ? ? ? ? E|s t b s' _ [I B] E|s n pad b s' _ [I B] ? ? E
    |s b s' _ [I B] ? ? E|s b d s' _ [I B] ? ? E|s t m items probes _ [I B] M F].
  - destruct (create_pool_inv w l m s limit basis pool masters probes) as [I B]; auto.
    split; [by exists (fun _ => []), (fun _ => [])|done].
  - by apply (pad_update_inv s pool' lp mp sp xp).
  - destruct (get_tier_got s t I) as (b' & s1 & made & E1 & I1 & Sp & _).
    rewrite E in E1. injection E1 as <- <-. split; [done|eauto with ww].
  - destruct (best_fit_spec s n pad I) as (b' & s1 & made & E1 & I1 & Sp & _); auto.
    rewrite E in E1. injection E1 as <- <-. split; [done|eauto with ww].
  - destruct (reuse_spec s b I) as (s1 & E1 & I1 & Sp & _); auto.
    rewrite E in E1. injection E1 as <-. split; [done|eauto with ww].
  - destruct (duplicate_by_pool_spec s b I) as (d' & s1 & E1 & I1 & Sp & _); auto.
    rewrite E in E1. injection E1 as <- <-. split; [done|eauto with ww].
  - split; [|done]. destruct I as (caches & its & [C1 C2 T Ms]).
    exists caches, (upd t items its). split; auto. intros t'. simpl. unfold set_master, upd.
    case_decide; auto.
Qed.

(** Invariant: in every state a worker's pool can reach, whatever other
    workers leave in the shared master pools and whatever the unlocked probes
    report, asking a tier for a buffer succeeds and yields a reset ordinary
    buffer of exactly that tier's capacity and padding, and giving back any
    ordinary buffer succeeds. *)
Theorem bufferpool_serves (s : state) (t : tier_id) :
  pool_reachable s ->
  (exists b s', get_tier_buffer t s = Ok (b, s') /\ fits_tier (tier_of t (st_pool s)) b) /\
  (forall b, sbuf_wf b -> ordinary b -> exists s', bufferpoolReuseBuffer s b = Ok s').
Proof.
  intros R. apply reachable_state_inv in R as [I _]. split.
  - destruct (get_tier_got s t I) as (b & s' & made & E & _ & _ & F & _). eauto.
  - intros b W O. destruct (reuse_spec s b I W O) as (s' & E & _). eauto.
Qed.

(** Functional: a best-fit request that is representable yields a reset
    buffer with at least the requested payload room and left padding, taken from
    the smallest tier that can serve it or allocated for it when none can, and
    the query made beforehand predicts its exact charge, room and padding. *)
Theorem bufferpool_best_fit (s : state) (n pad : Z) :
  pool_reachable s -> creatable n pad -> u16 pad ->
  exists b s',
    bufferpoolGetBestFit s n pad = Ok (b, s') /\ idle b /\
    n <= capacity b - l_pad b /\ pad <= l_pad b /\
    (exists pooled, bufferpoolQueryBestFit (st_pool s) n pad =
       Ok (Some (mk_fit (sbufGetAllocationCharge b) (capacity b - l_pad b) (l_pad b) pooled))) /\
    forall t, tier_fits (st_pool s) n pad t ->
      capacity b - l_pad b <= buffers_size (tier_of t (st_pool s)).
Proof.
  intros R Hc Hu. apply reachable_state_inv in R as [I _].
  destruct (best_fit_spec s n pad I Hc Hu) as (b & s' & made & E & _ & _ & Ib & Hn & Hp & _ & _ & Q).
  exists b, s'. splits; auto; [by eexists|]. intros t Ft.
  pose proof (select_spec (st_pool s) n pad) as Sel. unfold bufferpoolGetBestFit in E.
  destruct (bufferpoolSelectBestFit (st_pool s) n pad) as [t'|]; [|by destruct (Sel t)].
  destruct Sel as [_ Hmin]. specialize (Hmin t Ft).
  destruct (get_tier_got s t' I) as (b' & s1 & m1 & E1 & _ & _ & (_ & _ & Hk) & _).
  rewrite E in E1. injection E1 as <- <-. lia.
Qed.


(** Functional: duplicating a buffer through the pool yields an ordinary
    buffer with the same payload and checksum request in every reachable state,
    also when a pooled buffer is too small because the source had consumed its
    left padding. *)
Theorem sbufDuplicateByPool_copies (s : state) (b : sbuf_t) :
  pool_reachable s -> sbuf_wf b -> creatable (capacity b - l_pad b) (l_pad b) ->
  exists d s', sbufDuplicateByPool s b = Ok (d, s') /\ sbuf_wf d /\ ordinary d /\
    payload d = payload b /\
    sbufGetRecalculateChecksum d = sbufGetRecalculateChecksum b.
Proof.
  intros R W Hc. apply reachable_state_inv in R as [I _].
  destruct (duplicate_by_pool_spec s b I W Hc) as (d & s' & ? & ? & ? & ?). exists d, s'. tauto.
Qed.
End Reachable.

(** ** A concrete pool for the witnesses *)

Definition demo_masters : tier_id -> master_pool_t sbuf_t :=
  fun _ => mk_mp 0 0 2 [None; None].

Definition demo_pool : buffer_pool_t :=
  let empty size := mk_tier 0 size 0 [None; None] in
  mk_pool 2 1 (empty 256) (empty 128) (empty 64) 4096 4096 0.

Definition demo_state : state := mk_state demo_pool demo_masters [] [].

Lemma demo_reachable : pool_reachable (H := debug_allocator) demo_state.
Proof.
  apply (reach_create (H := debug_allocator) 1 200 128 10 4096 4096);
    unfold u32, UINT32_MAX, INT_MAX; try lia; [vm_compute; reflexivity|].
  intros t. split; simpl; [apply holds_nil|done|done|unfold UINT32_MAX; lia|].
  unfold SIZE_MAX, UINT64_MAX. lia.
Qed.

Lemma bufferpool_serves_witness :
  exists b s', get_tier_buffer (H := debug_allocator) Medium demo_state = Ok (b, s') /\
    fits_tier (medium demo_pool) b.
Proof. exact (proj1 (bufferpool_serves (H := debug_allocator) demo_state Medium demo_reachable)). Defined.

Lemma bufferpool_best_fit_witness :
  exists b s', bufferpoolGetBestFit (H := debug_allocator) demo_state 100 0 = Ok (b, s') /\
    idle b /\ 100 <= capacity b - l_pad b <= 128.
Proof.
  destruct (bufferpool_best_fit (H := debug_allocator) demo_state 100 0 demo_reachable)
    as (b & s' & E & I & Hn & _ & _ & Hmin).
  - apply creatable_small; word_lia.
  - unfold u16, UINT16_MAX. lia.
  - exists b, s'. split; [exact E|]. split; [exact I|]. split; [exact Hn|].
    apply (Hmin Medium). split; vm_compute; discriminate.
Defined.


Lemma sbufDuplicateByPool_copies_witness :
  exists d s', sbufDuplicateByPool (H := debug_allocator) demo_state (sample [1; 2]) = Ok (d, s') /\
    payload d = [1; 2].
Proof.
  destruct (sbufDuplicateByPool_copies (H := debug_allocator) demo_state (sample [1; 2]) demo_reachable)
    as (d & s' & E & _ & _ & P & _).
  - sample_ok.
  - apply creatable_small; vm_compute; discriminate.
  - exists d, s'. split; [exact E|exact P].
Defined.
