(* ===== verification/BufferStream.v ===== *)
(** * Buffer streams ([ww/bufio/buffer_stream.c], [ww/bufio/buffer_stream.h])

    A buffer stream queues ordinary buffers and offers their bytes as one
    sequence.  The deque is a list, front first; a buffer is in one place only,
    so the pointer comparisons of the code ([tail != buf],
    [source != destination]) are true here.  The pool is any implementation of
    [PoolOps], threaded through the operations. *)

From Stdlib Require Import ZArith Lia.
From stdpp Require Import base numbers option list.
From S2P Require Import Prelude ShiftBuffer PoolInterface BufferPool.
Open Scope Z_scope.
Open Scope word_scope.

Definition kBufferStreamCoalescingMaxIncomingSize : Z := 4096.

Record buffer_stream_t : Type := mk_stream {
  q : list sbuf_t;
  size : Z;
  use_left_padding : Z
}.

Definition set_q_size (self : buffer_stream_t) (bufs : list sbuf_t) (n : Z) : buffer_stream_t :=
  mk_stream bufs n (use_left_padding self).

Definition bufferstreamCheckSbufByteCount (bytes : Z) : outcome unit :=
  abort_if (bytes >? UINT32_MAX).

Definition bufferstreamGetBufLen (self : buffer_stream_t) : Z := size self.
Definition bufferstreamIsEmpty (self : buffer_stream_t) : bool := size self =? 0.
Definition bufferstreamGetEntryCount (self : buffer_stream_t) : Z := zlen (q self).
Definition bufferstreamGetHeadLength (self : buffer_stream_t) : Z :=
  match q self with [] => 0 | b :: _ => sbufGetLength b end.

Definition bufferstreamInitEmpty (left_padding : Z) : buffer_stream_t := mk_stream [] 0 left_padding.
Definition bufferstreamCreate (left_padding : Z) : buffer_stream_t := mk_stream [] 0 left_padding.

(** ** Pushing *)

Definition bufferstreamValidatePush (self : buffer_stream_t) (b : sbuf_t) : outcome Z :=
  _ ← assert_ (negb (sbufIsSplice b));
  let buf_len := sbufGetLength b in
  _ ← bufferstreamCheckSbufByteCount buf_len;
  _ ← abort_if (size self >? (UINT32_MAX -64 buf_len));
  mret buf_len.

Definition bufferstreamEnqueueValidated (self : buffer_stream_t) (b : sbuf_t) (buf_len : Z)
  : buffer_stream_t :=
  set_q_size self (q self ++ [b]) (size self +64 buf_len).

(** The sum of the retained charges, saturating. *)
Fixpoint charge_loop (bufs : list sbuf_t) (charge : Z) : Z :=
  match bufs with
  | [] => charge
  | b :: bufs' =>
      let next := sbufGetAllocationCharge b in
      if next >? (SIZE_MAX -64 charge) then SIZE_MAX else charge_loop bufs' (charge +64 next)
  end.
Definition bufferstreamGetCharge (self : buffer_stream_t) : Z := charge_loop (q self) 0.

Section Operations.
Context `{Allocator} {P : Type} `{PoolOps P}.
Implicit Types (self : buffer_stream_t) (pool : P).

Definition bufferstreamPush self pool (b : sbuf_t) : outcome (buffer_stream_t * P) :=
  incoming_len ← bufferstreamValidatePush self b;
  let enqueue := mret (bufferstreamEnqueueValidated self b incoming_len, pool) in
  match last (q self) with
  | Some tail =>
      if (incoming_len >? 0) && (incoming_len <=? kBufferStreamCoalescingMaxIncomingSize) then
        let tail_len := sbufGetLength tail in
        tail_spare ← sbufGetTailCapacity tail;
        if incoming_len <=? tail_spare then
          bytes ← read_at b 0 incoming_len;
          tail ← write_at tail tail_len bytes;
          tail ← sbufSetLength tail (tail_len +32 incoming_len);
          pool ← pool_reuse pool b;
          mret (set_q_size self (removelast (q self) ++ [tail]) (size self +64 incoming_len), pool)
        else enqueue
      else enqueue
  | None => enqueue
  end.

Definition bufferstreamEmpty self pool : outcome (buffer_stream_t * P) :=
  pool ← reuse_all (q self) pool;
  mret (set_q_size self [] 0, pool).

Definition bufferstreamDestroy self pool : outcome P := reuse_all (q self) pool.

(** ** Reading *)

Definition bufferstreamAllocExactReadBuffer self pool (bytes : Z) : outcome (sbuf_t * P) :=
  let pad := use_left_padding self in
  let required_payload := if bytes >? pad then bytes -32 pad else 0 in
  '(slice, pool) ←
    (if (required_payload <=? pool_small_size pool) && (pad <=? pool_small_padding pool)
     then pool_get_small pool
     else
       '(slice, pool) ← pool_try_get_best_fit pool required_payload
                          (Z.max pad (pool_large_padding pool));
       match slice with
       | None => Fail AbortProgram
       | Some slice => mret (slice, pool)
       end);
  _ ← assert_ (sbufGetLeftCapacity slice >=? pad);
  slice ← (if pad >? 0 then
             slice ← sbufShiftLeft slice pad;
             sbufSetLength slice 0
           else mret slice);
  slice ← sbufReserveSpace slice bytes;
  mret (slice, pool).

Fixpoint read_exact_loop self pool (container : sbuf_t) (rest : list sbuf_t) (bytes : Z)
  : outcome (sbuf_t * list sbuf_t * P) :=
  let available := sbufGetLength container in
  if available >? bytes then
    '(slice, pool) ← bufferstreamAllocExactReadBuffer self pool (wrap32 bytes);
    '(slice, container) ← sbufMoveTo slice container (wrap32 bytes);
    mret (slice, container :: rest, pool)
  else if available =? bytes then mret (container, rest, pool)
  else
    match rest with
    | [] => Fail AssertFailed
    | next :: rest' =>
        '(container, pool) ← sbufAppendMerge pool container next;
        read_exact_loop self pool container rest' bytes
    end.

Definition bufferstreamReadExact self pool (bytes : Z) : outcome (sbuf_t * buffer_stream_t * P) :=
  _ ← assert_ ((size self >=? bytes) && (bytes >? 0));
  match q self with
  | [] => Fail AssertFailed
  | container :: rest =>
      _ ← bufferstreamCheckSbufByteCount bytes;
      '(b, rest, pool) ← read_exact_loop self pool container rest bytes;
      mret (b, set_q_size self rest (size self -64 bytes), pool)
  end.

Definition bufferstreamFullRead self pool : outcome (option sbuf_t * buffer_stream_t * P) :=
  let bytes := bufferstreamGetBufLen self in
  if bytes =? 0 then mret (None, self, pool)
  else
    '(b, self, pool) ← bufferstreamReadExact self pool bytes;
    mret (Some b, self, pool).

Fixpoint read_at_least_loop pool (container : sbuf_t) (rest : list sbuf_t) (bytes consumed : Z)
  : outcome (sbuf_t * list sbuf_t * Z * P) :=
  if sbufGetLength container >=? bytes then mret (container, rest, consumed, pool)
  else
    match rest with
    | [] => Fail AssertFailed
    | next :: rest' =>
        let consumed := consumed +64 sbufGetLength next in
        '(container, pool) ← sbufAppendMerge pool container next;
        read_at_least_loop pool container rest' bytes consumed
    end.

Definition bufferstreamReadAtLeast self pool (bytes : Z) : outcome (sbuf_t * buffer_stream_t * P) :=
  _ ← assert_ ((size self >=? bytes) && (bytes >? 0));
  match q self with
  | [] => Fail AssertFailed
  | container :: rest =>
      _ ← bufferstreamCheckSbufByteCount bytes;
      '(b, rest, consumed, pool) ←
        read_at_least_loop pool container rest bytes (sbufGetLength container);
      mret (b, set_q_size self rest (size self -64 consumed), pool)
  end.

Definition bufferstreamIdealRead self : outcome (sbuf_t * buffer_stream_t) :=
  _ ← assert_ (size self >? 0);
  match q self with
  | [] => Fail AssertFailed
  | container :: rest =>
      mret (container, set_q_size self rest (size self -64 sbufGetLength container))
  end.

(** Each turn of the loop either takes a whole buffer off the queue or ends the
    move, so one more turn than there are buffers is enough [fuel]. *)
Fixpoint move_loop (fuel : nat) (bufs : list sbuf_t) (destination : sbuf_t)
    (target remaining : Z) pool : outcome (list sbuf_t * sbuf_t * P) :=
  if remaining >? 0 then
    match fuel, bufs with
    | O, _ => Fail NotModelled
    | _, [] => Fail AssertFailed
    | S fuel, source :: bufs' =>
        _ ← assert_ (negb (sbufIsSplice source));
        let available := sbufGetLength source in
        let count := wrap32 (Z.min remaining available) in
        destination ← (if negb (count =? 0) then
                         bytes ← read_at source 0 count;
                         write_at destination target bytes
                       else mret destination);
        if count =? available then
          pool ← pool_reuse pool source;
          move_loop fuel bufs' destination (target + count) (remaining -64 count) pool
        else
          source ← sbufShiftRight source count;
          move_loop fuel (source :: bufs') destination (target + count) (remaining -64 count) pool
    end
  else mret (bufs, destination, pool).

(** Returns the stream and the destination. *)
Definition bufferstreamMoveExactBytesTo self pool (destination : sbuf_t) (bytes : Z)
  : outcome (buffer_stream_t * sbuf_t * P) :=
  _ ← assert_ (negb (sbufIsSplice destination));
  _ ← assert_ (curpos destination <=? capacity destination);
  let length_ := sbufGetLength destination in
  let writable := sbufGetMaximumWriteableSize destination in
  _ ← abort_if (bytes >? size self);
  _ ← abort_if ((length_ >? writable) || (bytes >? (writable -32 length_)));
  if bytes =? 0 then mret (self, destination, pool)
  else
    '(bufs, destination, pool) ←
      move_loop (S (length (q self))) (q self) destination length_ bytes pool;
    destination ← sbufSetLength destination (length_ +32 wrap32 bytes);
    mret (set_q_size self bufs (size self -64 bytes), destination, pool).

Definition bufferstreamSettleRetained self pool (max_charge : Z)
  : outcome (bool * buffer_stream_t * P) :=
  let bytes := bufferstreamGetBufLen self in
  if bytes =? 0 then
    '(self, pool) ← bufferstreamEmpty self pool;
    mret (true, self, pool)
  else
    let padding := pool_large_padding pool in
    fit ← pool_query_best_fit pool bytes padding;
    match fit with
    | None => mret (false, self, pool)
    | Some fit =>
        let charge_limit := Z.max max_charge (allocation_charge fit) in
        if bufferstreamGetCharge self >? charge_limit then
          '(compact, pool) ← pool_get_best_fit pool (wrap32 bytes) padding;
          '(self, compact, pool) ← bufferstreamMoveExactBytesTo self pool compact bytes;
          '(self, pool) ← bufferstreamEmpty self pool;
          '(self, pool) ← bufferstreamPush self pool compact;
          mret (true, self, pool)
        else mret (true, self, pool)
    end.
End Operations.

(** ** Looking without consuming *)

Fixpoint view_byte_loop (bufs : list sbuf_t) (offset : Z) : outcome Z :=
  match bufs with
  | [] => Fail AbortProgram
  | b :: bufs' =>
      let blen := sbufGetLength b in
      if offset <? blen then bytes ← read_at b offset 1; mret (hd 0 bytes)
      else view_byte_loop bufs' (offset -64 blen)
  end.

Definition bufferstreamViewByteAt (self : buffer_stream_t) (at_ : Z) : outcome Z :=
  _ ← abort_if (at_ >=? size self);
  view_byte_loop (q self) at_.

(** [out] are the bytes copied so far. *)
Fixpoint view_bytes_loop (bufs : list sbuf_t) (remaining_offset n : Z) (out : list Z)
  : outcome (list Z) :=
  match bufs with
  | [] => Fail AbortProgram
  | b :: bufs' =>
      let blen := sbufGetLength b in
      if remaining_offset >=? blen then view_bytes_loop bufs' (remaining_offset -64 blen) n out
      else
        let copy_start := remaining_offset in
        let copy_len := Z.min (n -64 zlen out) (blen -64 copy_start) in
        bytes ← read_at b copy_start copy_len;
        let out := out ++ bytes in
        if zlen out =? n then mret out else view_bytes_loop bufs' 0 n out
  end.

Definition bufferstreamViewBytesAt (self : buffer_stream_t) (at_ n : Z) : outcome (list Z) :=
  _ ← assert_ ((n >? 0) && negb (size self =? 0) && (at_ <=? size self) &&
               (n <=? (size self -64 at_)));
  view_bytes_loop (q self) at_ n [].

(** ** Delimiter search *)

Definition CR : Z := 13.
Definition LF : Z := 10.

(** The byte loop: [inl] is a match, [inr] the automaton state after the bytes. *)
Fixpoint crlf_bytes (bytes : list Z) (pos state match_idx : Z) : Z + Z * Z :=
  match bytes with
  | [] => inr (state, match_idx)
  | c :: bytes' =>
      if state =? 0 then
        if c =? CR then crlf_bytes bytes' (pos + 1) 1 pos
        else crlf_bytes bytes' (pos + 1) state match_idx
      else if state =? 1 then
        if c =? LF then inl match_idx
        else if c =? CR then crlf_bytes bytes' (pos + 1) state pos
        else crlf_bytes bytes' (pos + 1) 0 match_idx
      else crlf_bytes bytes' (pos + 1) state match_idx
  end.

Fixpoint double_crlf_bytes (bytes : list Z) (pos state match_idx : Z) : Z + Z * Z :=
  match bytes with
  | [] => inr (state, match_idx)
  | c :: bytes' =>
      let go := double_crlf_bytes bytes' (pos + 1) in
      if state =? 0 then
        if c =? CR then go 1 pos else go state match_idx
      else if state =? 1 then
        if c =? LF then go 2 match_idx else if c =? CR then go state pos else go 0 match_idx
      else if state =? 2 then
        if c =? CR then go 3 match_idx else go 0 match_idx
      else if state =? 3 then
        if c =? LF then inl (match_idx +64 4)
        else if c =? CR then go 1 pos else go 0 match_idx
      else go state match_idx
  end.

(** The loop over the queued buffers, for either byte loop. *)
Fixpoint scan_bufs (step : list Z -> Z -> Z -> Z -> Z + Z * Z) (bufs : list sbuf_t)
    (cur_offset state match_idx : Z) : outcome (option Z) :=
  match bufs with
  | [] => mret None
  | b :: bufs' =>
      let b_size := sbufGetLength b in
      bytes ← read_at b 0 b_size;
      match step bytes cur_offset state match_idx with
      | inl found => mret (Some found)
      | inr (state, match_idx) => scan_bufs step bufs' (cur_offset +64 b_size) state match_idx
      end
  end.

Definition bufferstreamFindCRLF (stream : buffer_stream_t) : outcome (option Z) :=
  if bufferstreamGetBufLen stream <? 2 then mret None
  else scan_bufs crlf_bytes (q stream) 0 0 0.

Definition bufferstreamFindDoubleCRLF (stream : buffer_stream_t) : outcome (option Z) :=
  if bufferstreamGetBufLen stream <? 4 then mret None
  else scan_bufs double_crlf_bytes (q stream) 0 0 0.

(** ** The byte sequence a stream stands for *)

Definition total (bufs : list sbuf_t) : Z := foldr (fun b n => len b + n) 0 bufs.
Definition contents (bufs : list sbuf_t) : list Z := mjoin (payload <$> bufs).

(** Streams stay below the 32-bit size of a buffer less its padding, so that
    any part of them can be gathered in one buffer. *)
Definition kStreamLimit : Z := UINT32_MAX - UINT16_MAX - 63.

Record stream_wf (self : buffer_stream_t) : Prop := mk_stream_wf {
  sw_good : Forall good (q self);
  sw_size : size self = total (q self);
  sw_limit : size self <= kStreamLimit;
  sw_padding : 0 <= use_left_padding self <= UINT16_MAX - 31
}.

Lemma total_app l k : total (l ++ k) = total l + total k.
Proof. induction l; simpl; lia. Qed.

Lemma contents_app l k : contents (l ++ k) = contents l ++ contents k.
Proof. unfold contents. by rewrite fmap_app, join_app. Qed.

Lemma contents_cons b l : contents (b :: l) = payload b ++ contents l.
Proof. done. Qed.

Lemma total_nonneg l : Forall good l -> 0 <= total l.
Proof. induction 1 as [|b l [W _] _ IH]; simpl; [done|]. pose proof (wf_len b W). lia. Qed.

Lemma zlen_contents l : Forall good l -> zlen (contents l) = total l.
Proof.
  induction 1 as [|b l [W _] _ IH]; [done|].
  rewrite contents_cons, zlen_app, zlen_payload, IH by done. done.
Qed.

Lemma wf_length self : stream_wf self -> zlen (contents (q self)) = size self.
Proof. intros []. rewrite zlen_contents by done. lia. Qed.

Lemma good_creatable b n : good b -> 0 <= n <= kStreamLimit -> creatable n (l_pad b).
Proof.
  intros [W _] Hn. destruct W. unfold kStreamLimit in *.
  apply creatable_small; try lia. unfold UINT16_MAX in *. pose proof (Z.div_mod (l_pad b) 32). lia.
Qed.

(** Splitting a sequence by the length of its first part. *)
Lemma split_by_len {A} (l a b : list A) (n : Z) :
  a ++ b = l -> zlen a = n -> a = take (Z.to_nat n) l /\ b = drop (Z.to_nat n) l.
Proof.
  intros <- <-. unfold zlen. rewrite Nat2Z.id. by rewrite take_app_length, drop_app_length.
Qed.

(** Writing behind the first [t] bytes after the cursor. *)
Lemma write_behind d t bs :
  good d -> 0 <= t -> curpos d + t + zlen bs <= capacity d -> Forall u8 bs ->
  exists d', write_at d t bs = Ok d' /\ good d' /\ curpos d' = curpos d /\ len d' = len d /\
    capacity d' = capacity d /\ l_pad d' = l_pad d /\ flags d' = flags d /\
    slice (curpos d) (t + zlen bs) (buf d') = slice (curpos d) t (buf d) ++ bs.
Proof.
  intros [W O] Ht Hfit Hu. pose proof (zlen_nonneg bs). pose proof W as W0. destruct W0.
  rewrite write_at_ok by (auto; lia). eexists. split; [reflexivity|].
  split; [split; [auto with ww|exact O]|]. simpl. splits; auto.
  rewrite slice_split by lia. f_equal.
  - apply slice_splice_before; lia.
  - apply slice_splice_same; lia.
Qed.

Section Specs.
Context `{Allocator} {P : Type} `{PoolLaws P}.
Implicit Types (self : buffer_stream_t) (pool : P).

Lemma validate_ok self b :
  stream_wf self -> good b -> size self + len b <= UINT32_MAX ->
  bufferstreamValidatePush self b = Ok (len b).
Proof.
  intros Hw [W O] Hs. destruct W. unfold bufferstreamValidatePush, ordinary in *. rewrite O. simpl.
  unfold bufferstreamCheckSbufByteCount, sbufGetLength. rewrite abort_bind by lia.
  rewrite wrap64_small by word_lia.
  rewrite abort_bind by lia. reflexivity.
Qed.

Lemma enqueue_wf self b :
  stream_wf self -> good b -> size self + len b <= kStreamLimit ->
  stream_wf (bufferstreamEnqueueValidated self b (len b)) /\
  contents (q (bufferstreamEnqueueValidated self b (len b))) = contents (q self) ++ payload b.
Proof.
  intros [Hg Hz Hl Hp] Gb Hs. pose proof (total_nonneg _ Hg). destruct Gb as [W O].
  pose proof (wf_len b W). unfold kStreamLimit, UINT32_MAX, UINT16_MAX in *. split.
  - unfold bufferstreamEnqueueValidated. rewrite wrap64_small by word_lia.
    split; simpl; auto.
    + apply Forall_app. split; [done|]. by apply Forall_singleton.
    + rewrite total_app. simpl. lia.
  - unfold bufferstreamEnqueueValidated, set_q_size. simpl. rewrite contents_app. f_equal.
    unfold contents. simpl. apply app_nil_r.
Qed.

(** Pushing appends the bytes, coalesced into the tail or not. *)
Lemma stream_push_spec self pool b :
  stream_wf self -> pool_inv pool -> good b -> size self + len b <= kStreamLimit ->
  exists self' pool', bufferstreamPush self pool b = Ok (self', pool') /\ stream_wf self' /\
    pool_inv pool' /\ same_geometry pool pool' /\
    contents (q self') = contents (q self) ++ payload b /\
    use_left_padding self' = use_left_padding self /\
    (q self = [] -> q self' = [b]).
Proof.
  intros Hw Ip Gb Hs. destruct (enqueue_wf self b Hw Gb Hs) as [We Ce].
  unfold bufferstreamPush. rewrite validate_ok by (auto; unfold kStreamLimit, UINT16_MAX in *; lia).
  simpl. set (enq := bufferstreamEnqueueValidated self b (len b)) in *.
  assert (Henq : exists self' pool', Ok (enq, pool) = Ok (self', pool') /\ stream_wf self' /\
    pool_inv pool' /\ same_geometry pool pool' /\
    contents (q self') = contents (q self) ++ payload b /\
    use_left_padding self' = use_left_padding self /\ (q self = [] -> q self' = [b])).
  { exists enq, pool. splits; auto; [done|]. subst enq. unfold bufferstreamEnqueueValidated. simpl.
    by intros ->. }
  destruct (last (q self)) as [tail|] eqn:El; [|exact Henq].
  destruct (_ && _)%bool eqn:E; [|exact Henq]. bool_facts.
  apply last_Some in El as [pre Eq].
  pose proof Hw as [Hg Hz Hl Hp]. rewrite Eq in Hg, Hz. apply Forall_app in Hg as [Hpre Ht].
  apply Forall_cons in Ht as [Gt _]. pose proof Gt as [Wt Ot]. pose proof Gb as [Wb Ob].
  rewrite tail_capacity_ok by done. simpl. destruct (_ <=? _) eqn:F; bool_facts; [|exact Henq].
  clear Henq.
  rewrite total_app in Hz. simpl in Hz. pose proof (total_nonneg _ Hpre).
  pose proof Wt as W0. destruct W0. rewrite read_payload by (auto; lia). simpl.
  rewrite take_ge by (pose proof (zlen_payload b Wb); unfold zlen in *; lia).
  unfold sbufGetLength in *. pose proof (zlen_payload b Wb) as Lb.
  destruct (write_behind tail (len tail) (payload b)) as (t1 & -> & [W1 O1] & C1 & L1 & K1 & P1 & F1 & S1);
    [done|done|rewrite Lb; lia|by apply payload_u8|]. simpl.
  unfold kStreamLimit, UINT16_MAX, UINT32_MAX in *.
  rewrite wrap32_small by word_lia.
  rewrite set_length_ok by (auto; lia). simpl.
  destruct (pool_reuse_law pool b Ip Wb Ob) as (p' & -> & Ip' & Sp). simpl.
  eexists _, p'. split; [reflexivity|]. rewrite wrap64_small by word_lia.
  rewrite Eq, removelast_last.
  assert (G2 : good (set_pos_len t1 (curpos t1) (len tail + len b)))
    by (split; [auto with ww|exact O1]).
  splits; auto.
  - split; simpl; auto; [|rewrite total_app; simpl; lia].
    apply Forall_app. split; [done|]. by apply Forall_singleton.
  - simpl. rewrite !contents_app, <- app_assoc. f_equal. unfold contents. simpl. rewrite !app_nil_r.
    unfold payload at 1. simpl. rewrite C1, <- Lb, S1. reflexivity.
  - intros En. by destruct pre.
Qed.

Lemma push_overflow self pool b :
  stream_wf self -> good b -> UINT32_MAX < size self + len b ->
  bufferstreamPush self pool b = Fail AbortProgram.
Proof.
  intros Hw [W O] Hs. destruct W. unfold bufferstreamPush, bufferstreamValidatePush, ordinary in *.
  rewrite O. simpl. unfold bufferstreamCheckSbufByteCount, sbufGetLength.
  rewrite abort_bind by lia. rewrite wrap64_small by word_lia.
  unfold abort_if. replace (size self >? UINT32_MAX - len b) with true by lia. reflexivity.
Qed.

Lemma empty_spec self pool :
  stream_wf self -> pool_inv pool ->
  exists pool', bufferstreamEmpty self pool = Ok (set_q_size self [] 0, pool') /\ pool_inv pool' /\
    same_geometry pool pool' /\ stream_wf (set_q_size self [] 0).
Proof.
  intros Hw I. destruct (reuse_all_spec (q self) pool (sw_good _ Hw) I) as (p & E & ? & ?).
  exists p. unfold bufferstreamEmpty. rewrite E. splits; auto. split; simpl; auto; [done|].
  apply Hw.
Qed.

(** The buffer an exact read copies into always has room for the bytes. *)
Lemma alloc_exact_spec self pool bytes :
  stream_wf self -> pool_inv pool -> 0 <= bytes <= kStreamLimit ->
  exists b pool', bufferstreamAllocExactReadBuffer self pool bytes = Ok (b, pool') /\
    pool_inv pool' /\ same_geometry pool pool' /\ good b /\ len b = 0 /\
    bytes <= capacity b - curpos b.
Proof.
  intros Hw I Hb. unfold bufferstreamAllocExactReadBuffer.
  set (pad := use_left_padding self). pose proof (sw_padding _ Hw) as Hpad. fold pad in Hpad.
  unfold kStreamLimit in *.
  assert (Hreq : (if bytes >? pad then bytes -32 pad else 0) = Z.max 0 (bytes - pad)).
  { destruct (_ >? _) eqn:E; bool_facts; [|lia].
    rewrite wrap32_small by word_lia. lia. }
  rewrite Hreq. set (required := Z.max 0 (bytes - pad)).
  assert (Hget : exists b pool',
    (if (required <=? pool_small_size pool) && (pad <=? pool_small_padding pool)
     then pool_get_small pool
     else
       '(slice, pool) ← pool_try_get_best_fit pool required (Z.max pad (pool_large_padding pool));
       match slice with None => Fail AbortProgram | Some slice => mret (slice, pool) end)
      = Ok (b, pool') /\ pool_inv pool' /\ same_geometry pool pool' /\ idle b /\
      required <= capacity b - l_pad b /\ pad <= l_pad b).
  { destruct (pool_geometry pool I) as [_ Hlp]. destruct (_ && _)%bool eqn:E; bool_facts.
    - destruct (pool_get_small_law pool I) as (b & p & -> & ? & ? & ? & Hl & Hk).
      exists b, p. splits; auto; lia.
    - destruct (pool_try_best_fit_law pool required (Z.max pad (pool_large_padding pool)) I)
        as (b & p & -> & ? & ? & ? & ? & ?).
      + apply creatable_small; unfold UINT16_MAX, UINT32_MAX in *; lia.
      + unfold u16, UINT16_MAX in *. lia.
      + simpl. exists b, p. splits; auto. lia. }
  destruct Hget as (b & p & -> & Ip & Sp & Ib & Hcap & Hl). simpl.
  pose proof (idle_good b Ib) as [W O]. destruct Ib as [_ _ Lb Cb].
  rewrite assert_bind by (unfold sbufGetLeftCapacity; lia).
  destruct (pad >? 0) eqn:E; bool_facts.
  - rewrite shift_left_ok by (auto; lia). simpl.
    pose proof W as W0. destruct W0.
    assert (W1 : sbuf_wf (set_pos_len b (curpos b - pad) (len b + pad)))
      by (auto with ww).
    rewrite set_length_ok by (auto; simpl; lia). simpl.
    assert (W2 : sbuf_wf (set_pos_len b (curpos b - pad) 0)) by (auto with ww).
    change (set_pos_len (set_pos_len b (curpos b - pad) (len b + pad)) (curpos b - pad) 0)
      with (set_pos_len b (curpos b - pad) 0).
    rewrite reserve_enough by (auto; simpl; lia). simpl.
    eexists _, p. split; [reflexivity|]. splits; auto; [by split|simpl; lia].
  - simpl. rewrite reserve_enough by (auto; lia). simpl.
    exists b, p. splits; auto; [by split|lia].
Qed.

(** The last step of an exact read that ends inside a buffer. *)
Lemma split_read self pool container bytes rest :
  stream_wf self -> pool_inv pool -> good container -> 0 < bytes < len container ->
  len container <= kStreamLimit ->
  exists d c' pool',
    ('(slice, pool) ← bufferstreamAllocExactReadBuffer self pool (wrap32 bytes);
     '(slice, container) ← sbufMoveTo slice container (wrap32 bytes);
     mret (slice, container :: rest, pool)) = Ok (d, c' :: rest, pool') /\
    pool_inv pool' /\ same_geometry pool pool' /\ good d /\ good c' /\ len d = bytes /\
    len c' = len container - bytes /\ payload d ++ payload c' = payload container.
Proof.
  intros Hw I [Wc Oc] Hb Hl. rewrite wrap32_small by (unfold kStreamLimit, UINT16_MAX in *; lia).
  destruct (alloc_exact_spec self pool bytes Hw I) as (d & p & -> & Ip & Sp & [Wd Od] & Ld & Kd); [lia|].
  simpl. destruct (move_spec d container bytes Wd Wc) as (d' & -> & Wd' & Pd & Fd & _ & _ & _ & Ld');
    [lia|lia|]. simpl.
  exists d', (set_pos_len container (curpos container + bytes) (len container - bytes)), p.
  splits; auto; try (simpl; lia).
  - split; [done|]. unfold ordinary, sbufIsSplice in *. congruence.
  - split; [apply advanced_wf; auto; lia|exact Oc].
  - rewrite payload_shift_right by (auto; lia). rewrite Pd.
    unfold payload at 1. rewrite Ld, slice_zero. simpl. apply take_drop.
Qed.

(** What a loop of reads returns: a buffer [b] and the rest of the queue that
    together hold the bytes there were. *)
Definition gathered pool (before : list sbuf_t) (b : sbuf_t) (rest' : list sbuf_t) (pool' : P) : Prop :=
  pool_inv pool' /\ same_geometry pool pool' /\ good b /\ Forall good rest' /\
  total rest' = total before - len b /\ payload b ++ contents rest' = contents before.

Lemma read_exact_done self pool container rest bytes :
  stream_wf self -> pool_inv pool -> good container -> Forall good rest ->
  0 < bytes <= len container -> len container <= kStreamLimit ->
  exists b rest' pool', read_exact_loop self pool container rest bytes = Ok (b, rest', pool') /\
    len b = bytes /\ gathered pool (container :: rest) b rest' pool'.
Proof.
  intros Hw I Gc Gr Hb Hl.
  assert (read_exact_loop self pool container rest bytes =
    if len container >? bytes then
      '(slice, pool) ← bufferstreamAllocExactReadBuffer self pool (wrap32 bytes);
      '(slice, container) ← sbufMoveTo slice container (wrap32 bytes);
      mret (slice, container :: rest, pool)
    else mret (container, rest, pool)) as ->.
  { destruct rest; cbn [read_exact_loop]; unfold sbufGetLength;
      (destruct (_ >? _) eqn:E; bool_facts; [done|]); by replace (len container =? bytes) with true by lia. }
  destruct (_ >? _) eqn:E; bool_facts.
  - destruct (split_read self pool container bytes rest Hw I Gc)
      as (d & c' & p & -> & ? & ? & ? & ? & ? & ? & Pd); [lia|lia|].
    exists d, (c' :: rest), p. splits; auto. unfold gathered. splits; auto; [simpl; lia|].
    by rewrite !contents_cons, app_assoc, Pd.
  - exists container, rest, pool. splits; [done|lia|]. unfold gathered. splits; auto; [done|simpl; lia].
Qed.

Lemma gathered_step pool p container next rest r b rest' pool' :
  same_geometry pool p -> payload r = payload container ++ payload next ->
  len r = len container + len next -> gathered p (r :: rest) b rest' pool' ->
  gathered pool (container :: next :: rest) b rest' pool'.
Proof.
  intros S Pr Lr (I & S' & Gb & Gr & T & C). unfold gathered. splits; auto; [by trans p|simpl in *; lia|].
  rewrite C, !contents_cons, Pr. by rewrite app_assoc.
Qed.

Lemma read_exact_loop_spec self bytes rest : forall pool container,
  stream_wf self -> pool_inv pool -> good container -> Forall good rest ->
  0 < bytes <= len container + total rest -> len container + total rest <= kStreamLimit ->
  exists b rest' pool', read_exact_loop self pool container rest bytes = Ok (b, rest', pool') /\
    len b = bytes /\ gathered pool (container :: rest) b rest' pool'.
Proof.
  induction rest as [|next rest IH]; intros pool container Hw I Gc Gr Hb Hl;
    pose proof (total_nonneg _ Gr) as Htn;
    (destruct (Z.le_gt_cases bytes (len container)); [apply read_exact_done; auto; lia|]).
  - simpl in *. lia.
  - apply Forall_cons in Gr as [Gn Gr]. cbn [read_exact_loop]. unfold sbufGetLength.
    replace (len container >? bytes) with false by lia.
    replace (len container =? bytes) with false by lia. simpl in *.
    pose proof (total_nonneg _ Gr). pose proof (wf_len _ (proj1 Gc)). pose proof (wf_len _ (proj1 Gn)).
    destruct (append_merge_spec pool container next I Gc Gn) as (r & p & -> & Ip & Sp & Gr' & Pr & Lr & _);
      [apply good_creatable; auto; lia|].
    destruct (IH p r Hw Ip Gr' Gr) as (b & rest' & p' & E & Lb & Ga); [lia|lia|].
    exists b, rest', p'. splits; auto. by eapply gathered_step.
Qed.

Lemma read_exact_spec self pool bytes :
  stream_wf self -> pool_inv pool -> 0 < bytes <= size self ->
  exists b self' pool', bufferstreamReadExact self pool bytes = Ok (b, self', pool') /\
    pool_inv pool' /\ same_geometry pool pool' /\ stream_wf self' /\ good b /\ len b = bytes /\
    payload b = take (Z.to_nat bytes) (contents (q self)) /\
    contents (q self') = drop (Z.to_nat bytes) (contents (q self)).
Proof.
  intros Hw I Hb. pose proof Hw as [Hg Hz Hl Hp]. unfold bufferstreamReadExact.
  unfold kStreamLimit in Hl.
  rewrite assert_bind by lia. destruct (q self) as [|container rest] eqn:Eq; [simpl in Hz; lia|].
  apply Forall_cons in Hg as [Gc Gr]. simpl in Hz.
  unfold bufferstreamCheckSbufByteCount. rewrite abort_bind by word_lia.
  destruct (read_exact_loop_spec self bytes rest pool container Hw I Gc Gr)
    as (b & rest' & p & -> & Lb & Ip & Sp & Gb & Gr' & Tr & Cr); [lia|unfold kStreamLimit; lia|]. simpl in *.
  rewrite wrap64_small by word_lia.
  eexists b, _, p. split; [reflexivity|].
  destruct (split_by_len (contents (container :: rest)) (payload b) (contents rest') bytes) as [E1 E2];
    [exact Cr|rewrite zlen_payload by apply Gb; lia|].
  splits; auto. split; simpl; auto; unfold kStreamLimit; lia.
Qed.

Lemma read_at_least_loop_spec bytes rest : forall pool container consumed,
  pool_inv pool -> good container -> Forall good rest ->
  0 < bytes <= len container + total rest -> len container + total rest <= kStreamLimit ->
  consumed = len container ->
  exists b rest' pool',
    read_at_least_loop pool container rest bytes consumed = Ok (b, rest', len b, pool') /\
    bytes <= len b /\ gathered pool (container :: rest) b rest' pool'.
Proof.
  induction rest as [|next rest IH]; intros pool container consumed I Gc Gr Hb Hl ->;
    pose proof (total_nonneg _ Gr) as Htn; cbn [read_at_least_loop]; unfold sbufGetLength;
    (destruct (len container >=? bytes) eqn:E; bool_facts;
     [eexists container, _, pool; splits; [reflexivity|lia|];
      unfold gathered; splits; auto; [done|simpl; lia]|]).
  - simpl in *. lia.
  - apply Forall_cons in Gr as [Gn Gr]. simpl in *. pose proof (total_nonneg _ Gr).
    pose proof (wf_len _ (proj1 Gc)). pose proof (wf_len _ (proj1 Gn)).
    destruct (append_merge_spec pool container next I Gc Gn) as (r & p & -> & Ip & Sp & Gr' & Pr & Lr & _);
      [apply good_creatable; auto; lia|].
    simpl. rewrite wrap64_small by (unfold kStreamLimit, UINT16_MAX, UINT32_MAX, UINT64_MAX in *; lia).
    destruct (IH p r (len container + len next) Ip Gr' Gr) as (b & rest' & p' & E' & Lb & Ga); [lia|lia|lia|].
    exists b, rest', p'. splits; auto. by eapply gathered_step.
Qed.

Lemma read_at_least_spec self pool bytes :
  stream_wf self -> pool_inv pool -> 0 < bytes <= size self ->
  exists b self' pool', bufferstreamReadAtLeast self pool bytes = Ok (b, self', pool') /\
    pool_inv pool' /\ same_geometry pool pool' /\ stream_wf self' /\ good b /\ bytes <= len b /\
    payload b ++ contents (q self') = contents (q self).
Proof.
  intros Hw I Hb. pose proof Hw as [Hg Hz Hl Hp]. unfold bufferstreamReadAtLeast.
  unfold kStreamLimit in Hl.
  rewrite assert_bind by lia. destruct (q self) as [|container rest] eqn:Eq; [simpl in Hz; lia|].
  apply Forall_cons in Hg as [Gc Gr]. simpl in Hz.
  unfold bufferstreamCheckSbufByteCount. rewrite abort_bind by word_lia.
  unfold sbufGetLength.
  destruct (read_at_least_loop_spec bytes rest pool container (len container) I Gc Gr)
    as (b & rest' & p & -> & Lb & Ip & Sp & Gb & Gr' & Tr & Cr); [lia|unfold kStreamLimit; lia|done|].
  simpl in *. pose proof (total_nonneg _ Gr').
  rewrite wrap64_small by word_lia.
  eexists b, _, p. split; [reflexivity|].
  splits; auto. split; simpl; auto; unfold kStreamLimit; lia.
Qed.

(** The destination of a move: [n] bytes behind the cursor are [bytes]. *)
Definition filled (d : sbuf_t) (n : Z) : list Z := slice (curpos d) n (buf d).

(** What moving leaves alone in the destination. *)
Definition same_frame (d d' : sbuf_t) : Prop :=
  curpos d' = curpos d /\ len d' = len d /\ capacity d' = capacity d /\ l_pad d' = l_pad d /\
  flags d' = flags d.

(** Copying the front of one source behind what the destination has. *)
Lemma copy_front d target source count :
  good d -> good source -> 0 <= count <= len source -> 0 <= target ->
  curpos d + target + count <= capacity d ->
  exists d',
    (if negb (count =? 0) then bytes ← read_at source 0 count; write_at d target bytes
     else mret d) = Ok d' /\ good d' /\ same_frame d d' /\
    filled d' (target + count) = filled d target ++ take (Z.to_nat count) (payload source).
Proof.
  intros Gd [Ws Os] Hc Ht Hfit. destruct (count =? 0) eqn:E; bool_facts; cbn [negb].
  - subst count. exists d. rewrite Z.add_0_r. simpl. rewrite app_nil_r. splits; auto. by repeat split.
  - rewrite read_payload by done. simpl.
    set (bs := take (Z.to_nat count) (payload source)).
    assert (Lb : zlen bs = count).
    { pose proof (zlen_payload source Ws). unfold bs, zlen in *. rewrite length_take. lia. }
    destruct (write_behind d target bs) as (d' & -> & G & C1 & L1 & K1 & P1 & F1 & S1);
      [done|done|lia|by apply Forall_take, payload_u8|].
    exists d'. splits; auto; [by repeat split|]. unfold filled. rewrite C1, <- Lb. exact S1.
Qed.

Lemma move_loop_spec fuel : forall bufs d target remaining pool,
  (length bufs < fuel)%nat -> Forall good bufs -> good d -> pool_inv pool ->
  0 <= target -> 0 <= remaining <= total bufs -> remaining <= UINT32_MAX ->
  curpos d + target + remaining <= capacity d ->
  exists bufs' d' pool',
    move_loop fuel bufs d target remaining pool = Ok (bufs', d', pool') /\
    Forall good bufs' /\ good d' /\ pool_inv pool' /\ same_geometry pool pool' /\ same_frame d d' /\
    total bufs' = total bufs - remaining /\
    exists moved, filled d' (target + remaining) = filled d target ++ moved /\
      moved ++ contents bufs' = contents bufs /\ zlen moved = remaining.
Proof.
  induction fuel as [|fuel IH]; intros bufs d target remaining pool Hf Gb Gd I Ht Hr Hm Hfit; [lia|].
  cbn [move_loop]. destruct (remaining >? 0) eqn:E; bool_facts.
  2:{ exists bufs, d, pool. replace remaining with 0 by lia. rewrite Z.add_0_r.
      splits; auto; [done|by repeat split|lia|]. exists []. by rewrite app_nil_r. }
  destruct bufs as [|source bufs]; [simpl in Hr; lia|]. simpl in Hf, Hr.
  apply Forall_cons in Gb as [Gs Gb]. pose proof Gs as [Ws Os]. pose proof (wf_len _ Ws).
  pose proof (total_nonneg _ Gb). unfold ordinary in Os. rewrite Os. cbn [negb].
  rewrite assert_bind by done. unfold sbufGetLength.
  rewrite (wrap32_small (Z.min _ _)) by lia. set (count := Z.min remaining (len source)).
  destruct (copy_front d target source count Gd Gs) as (d1 & E1 & G1 & F1 & S1); [lia|lia|lia|].
  rewrite E1. change (Ok d1 ≫= ?k) with (k d1). cbv beta.
  rewrite wrap64_small by word_lia.
  assert (Lm : zlen (take (Z.to_nat count) (payload source)) = count).
  { pose proof (zlen_payload source Ws). unfold zlen in *. rewrite length_take. lia. }
  pose proof F1 as (C1 & _ & K1 & _). destruct (count =? len source) eqn:E2; bool_facts.
  - destruct (pool_reuse_law pool source I Ws Os) as (p1 & -> & I1 & Sp1). simpl.
    destruct (IH bufs d1 (target + count) (remaining - count) p1)
      as (bufs' & d2 & p2 & -> & Gb' & G2 & I2 & Sp2 & F2 & T2 & moved & M1 & M2 & M3);
      [lia|done|done|done|lia|lia|lia|rewrite C1, K1; lia|].
    exists bufs', d2, p2. splits; auto; [by trans p1|unfold same_frame in *; intuition congruence|lia|].
    exists (payload source ++ moved). rewrite contents_cons, <- app_assoc, M2.
    replace (target + remaining) with (target + count + (remaining - count)) by lia.
    rewrite M1, S1, <- app_assoc. rewrite E2.
    rewrite take_ge by (pose proof (zlen_payload source Ws); unfold zlen in *; lia).
    splits; auto. rewrite zlen_app, zlen_payload by done. lia.
  - rewrite shift_right_ok by (auto; lia). simpl.
    set (adv := set_pos_len source (curpos source + count) (len source - count)).
    assert (Ga : good adv) by (split; [apply advanced_wf; auto; lia|exact Os]).
    replace (remaining - count) with 0 by lia.
    destruct fuel as [|fuel]; [lia|]. cbn [move_loop].
    exists (adv :: bufs), d1, pool. splits; auto; [done|simpl; lia|].
    exists (take (Z.to_nat count) (payload source)).
    replace (target + remaining) with (target + count) by lia.
    splits; [exact S1| |rewrite Lm; lia].
    rewrite !contents_cons. unfold adv. rewrite payload_shift_right by (auto; lia).
    by rewrite app_assoc, take_drop.
Qed.

Lemma move_exact_spec self pool d bytes :
  stream_wf self -> pool_inv pool -> good d -> 0 <= bytes <= size self ->
  curpos d + len d + bytes <= capacity d ->
  exists self' d' pool',
    bufferstreamMoveExactBytesTo self pool d bytes = Ok (self', d', pool') /\
    stream_wf self' /\ good d' /\ pool_inv pool' /\ same_geometry pool pool' /\
    payload d' = payload d ++ take (Z.to_nat bytes) (contents (q self)) /\
    contents (q self') = drop (Z.to_nat bytes) (contents (q self)) /\
    len d' = len d + bytes /\ l_pad d' = l_pad d /\ capacity d' = capacity d /\
    curpos d' = curpos d /\ use_left_padding self' = use_left_padding self /\
    size self' = size self - bytes /\ flags d' = flags d.
Proof.
  intros Hw I Gd Hb Hfit. pose proof Hw as [Hg Hz Hl Hp]. pose proof Gd as [Wd Od].
  unfold bufferstreamMoveExactBytesTo, ordinary in *. rewrite Od. cbn [negb].
  pose proof Wd as W0. destruct W0. rewrite !assert_bind by lia.
  rewrite writeable_size by done. unfold sbufGetLength.
  rewrite abort_bind by lia.
  rewrite (wrap32_small (capacity d - curpos d - len d)) by lia.
  rewrite abort_bind by lia. unfold kStreamLimit, UINT16_MAX in *.
  destruct (bytes =? 0) eqn:E; bool_facts.
  { subst bytes. exists self, d, pool. simpl. rewrite app_nil_r. splits; auto; try lia. done. }
  destruct (move_loop_spec (S (length (q self))) (q self) d (len d) bytes pool)
    as (bufs & d1 & p & -> & Gb & [W1 O1] & Ip & Sp & (C1 & L1 & K1 & P1 & F1) & T1 & moved & M1 & M2 & M3);
    [lia|done|done|done|lia|lia|lia|lia|].
  simpl. rewrite (wrap32_small bytes) by lia. rewrite wrap32_small by lia.
  rewrite set_length_ok by (auto; lia). simpl.
  rewrite wrap64_small by word_lia.
  eexists _, _, p. split; [reflexivity|].
  destruct (split_by_len (contents (q self)) moved (contents bufs) bytes M2 M3) as [Em Ec].
  splits; auto; try (simpl; lia).
  - split; simpl; auto; unfold kStreamLimit, UINT16_MAX; lia.
  - split; [auto with ww|exact O1].
  - rewrite <- Em. unfold filled in M1. unfold payload at 1. simpl. rewrite C1 in *. exact M1.
Qed.

Lemma charge_single b : good b -> charge_loop [b] 0 = sbufGetAllocationCharge b.
Proof.
  intros _. cbn [charge_loop]. set (c := sbufGetAllocationCharge b).
  assert (0 <= c <= UINT64_MAX) by (unfold c, sbufGetAllocationCharge; apply wrap64_range).
  rewrite wrap64_small by word_lia.
  rewrite Z.sub_0_r. replace (c >? SIZE_MAX) with false by word_lia.
  rewrite wrap64_small by word_lia. lia.
Qed.

(** Settling keeps the bytes and leaves at most the larger of the threshold and
    the charge of one best-fit buffer. *)
Lemma settle_spec self pool max_charge :
  stream_wf self -> pool_inv pool -> 0 <= max_charge ->
  exists self' pool', bufferstreamSettleRetained self pool max_charge = Ok (true, self', pool') /\
    stream_wf self' /\ pool_inv pool' /\ contents (q self') = contents (q self) /\
    (size self = 0 -> q self' = []) /\
    forall fit, size self <> 0 ->
      pool_query_best_fit pool (size self) (pool_large_padding pool) = Ok (Some fit) ->
      bufferstreamGetCharge self' <= Z.max max_charge (allocation_charge fit).
Proof.
  intros Hw I Hm. pose proof Hw as [Hg Hz Hl Hp]. pose proof (total_nonneg _ Hg) as Hn.
  unfold bufferstreamSettleRetained, bufferstreamGetBufLen.
  destruct (size self =? 0) eqn:E0; bool_facts.
  { destruct (empty_spec self pool Hw I) as (p & -> & ? & ? & ?). simpl.
    eexists _, p. split; [reflexivity|]. splits; auto; [|done].
    pose proof (wf_length _ Hw) as Lc. rewrite E0 in Lc. unfold zlen in Lc.
    symmetry. apply nil_length_inv. lia. }
  destruct (pool_geometry pool I) as [_ Hlp]. unfold kStreamLimit in Hl.
  assert (Hc : creatable (size self) (pool_large_padding pool))
    by (apply creatable_small; unfold UINT16_MAX, UINT32_MAX in *; lia).
  assert (Hu : u16 (pool_large_padding pool)) by word_lia.
  destruct (pool_query_law pool (size self) (pool_large_padding pool) I) as (r & Er & Hsome & _);
    [unfold u32, UINT16_MAX in *; lia|done|].
  destruct (Hsome Hc) as [fit ->]. rewrite Er. change (Ok ?x ≫= ?k) with (k x). cbv beta iota.
  destruct (_ >? _) eqn:E; bool_facts.
  2:{ exists self, pool. splits; auto; [done|]. intros fit' _ [= <-]. lia. }
  rewrite (wrap32_small (size self)) by word_lia.
  destruct (pool_best_fit_law pool (size self) (pool_large_padding pool) I Hc Hu)
    as (b & p1 & -> & I1 & S1 & Ib & Hroom & _ & Hfit). simpl.
  pose proof (idle_good b Ib) as Gb.
  destruct (move_exact_spec self p1 b (size self) Hw I1 Gb) as
    (s2 & b2 & p2 & -> & W2 & G2 & I2 & S2 & P2 & C2 & L2 & LP2 & K2 & CP2 & U2 & Z2 & F2);
    [lia|rewrite (idle_len b Ib), (idle_curpos b Ib); lia|]. simpl.
  destruct (empty_spec s2 p2 W2 I2) as (p3 & -> & I3 & S3 & W3). simpl.
  rewrite (idle_len b Ib) in L2.
  destruct (stream_push_spec (set_q_size s2 [] 0) p3 b2 W3 I3 G2) as (s4 & p4 & -> & W4 & I4 & S4 & C4 & U4 & Q4);
    [simpl; unfold kStreamLimit; lia|]. simpl.
  exists s4, p4. splits; auto; [|done|].
  - rewrite C4, P2, (idle_payload b Ib). simpl.
    apply take_ge. pose proof (wf_length _ Hw). unfold zlen in *. lia.
  - intros fit' _ [= <-]. unfold bufferstreamGetCharge. rewrite Q4 by done.
    rewrite charge_single by done. rewrite (Hfit fit Er).
    unfold sbufGetAllocationCharge, sbufIsSplice, sbufGetTotalCapacity, sbufGetLeftPadding.
    rewrite F2, K2, LP2. lia.
Qed.
End Specs.

(** ** Looking *)

Lemma view_byte_loop_spec bufs : forall offset,
  Forall good bufs -> 0 <= offset < total bufs -> total bufs <= UINT32_MAX ->
  exists x, view_byte_loop bufs offset = Ok x /\ contents bufs !! Z.to_nat offset = Some x.
Proof.
  induction bufs as [|b bufs IH]; intros offset G Ho Hl; simpl in *; [lia|].
  apply Forall_cons in G as [[W O] G]. pose proof (total_nonneg _ G). pose proof (wf_len _ W).
  pose proof (zlen_payload b W) as Lp. unfold sbufGetLength. rewrite contents_cons.
  destruct (offset <? len b) eqn:E; bool_facts.
  - pose proof W as W0. destruct W0. rewrite read_at_ok by (auto; lia). simpl.
    assert (Hx : is_Some (payload b !! Z.to_nat offset)) by (apply lookup_lt_is_Some; unfold zlen in *; lia).
    destruct Hx as [x Hx]. exists x. rewrite lookup_app_l by (unfold zlen in *; lia). split; [|done].
    unfold payload, slice in Hx. rewrite lookup_take_Some, lookup_drop in Hx. destruct Hx as [Hx _].
    unfold slice. f_equal. rewrite Z2Nat.inj_add by lia.
    rewrite (drop_S (buf b) x _ Hx). done.
  - rewrite wrap64_small by word_lia.
    destruct (IH (offset - len b) G) as (x & -> & Hx); [lia|lia|]. exists x. split; [done|].
    rewrite lookup_app_r by (unfold zlen in *; lia). rewrite <- Hx. f_equal. unfold zlen in *. lia.
Qed.

Lemma view_bytes_loop_spec bufs : forall off n out,
  Forall good bufs -> 0 <= off -> zlen out < n -> off + (n - zlen out) <= total bufs ->
  total bufs <= UINT32_MAX -> n <= UINT32_MAX ->
  view_bytes_loop bufs off n out = Ok (out ++ slice off (n - zlen out) (contents bufs)).
Proof.
  induction bufs as [|b bufs IH]; intros off n out G Ho Hn Hfit Hl Hm; simpl in *; [lia|].
  apply Forall_cons in G as [[W O] G]. pose proof (total_nonneg _ G). pose proof (wf_len _ W).
  pose proof (zlen_payload b W) as Lp. pose proof (zlen_nonneg out). unfold sbufGetLength.
  rewrite contents_cons. unfold UINT32_MAX in *.
  destruct (off >=? len b) eqn:E; bool_facts.
  - rewrite wrap64_small by word_lia. rewrite IH by (auto; lia).
    rewrite slice_app_r by lia. by rewrite Lp.
  - rewrite !wrap64_small by word_lia.
    set (cl := Z.min (n - zlen out) (len b - off)).
    pose proof W as W0. destruct W0. rewrite read_at_ok by (auto; lia).
    change (Ok ?x ≫= ?k) with (k x). cbv beta.
    assert (Hs : slice (curpos b + off) cl (buf b) = slice off cl (payload b)).
    { unfold payload. rewrite <- (slice_take (curpos b + off) cl (len b - off)) by lia.
      rewrite <- (slice_drop (curpos b) off (len b)) by lia. reflexivity. }
    rewrite Hs. assert (Lc : zlen (slice off cl (payload b)) = cl) by (apply zlen_slice; lia).
    rewrite zlen_app, Lc. destruct (zlen out + cl =? n) eqn:F; bool_facts.
    + replace (n - zlen out) with cl by lia. rewrite slice_app_l by lia. done.
    + rewrite IH by (auto; rewrite ?zlen_app, ?Lc; lia). rewrite <- app_assoc. do 2 f_equal.
      rewrite zlen_app, Lc. replace (n - zlen out) with (cl + (n - (zlen out + cl))) by lia.
      rewrite slice_split by lia. rewrite slice_app_l by lia. f_equal.
      rewrite slice_app_r by lia. f_equal. lia.
Qed.

(** ** Finding a delimiter *)

(** [pat] occurs in [l] at offset [i]; the first place where it does. *)
Definition occurs_at (pat l : list Z) (i : Z) : Prop :=
  exists a b, l = a ++ pat ++ b /\ zlen a = i.
Definition first_at (pat l : list Z) (i : Z) : Prop :=
  occurs_at pat l i /\ forall j, occurs_at pat l j -> i <= j.
Definition absent (pat l : list Z) : Prop := forall i, ~ occurs_at pat l i.

Definition CRLF : list Z := [CR; LF].
Definition DOUBLE_CRLF : list Z := [CR; LF; CR; LF].

Lemma absent_snoc pat l c :
  pat <> [] -> absent pat l -> (forall a, l ++ [c] <> a ++ pat) -> absent pat (l ++ [c]).
Proof.
  intros Hp Ha Hn i (a & b & E & _). destruct b as [|x b _] using rev_ind.
  - rewrite app_nil_r in E. by apply (Hn a).
  - rewrite !app_assoc in E. apply app_inj_tail in E as [-> _].
    apply (Ha (zlen a)). exists a, b. by rewrite <- app_assoc.
Qed.

(** A match whose proper part was free of matches is the first, in every
    extension of the text. *)
Lemma first_of_prefix pat c a b :
  absent (pat ++ [c]) (a ++ pat) -> first_at (pat ++ [c]) (a ++ (pat ++ [c]) ++ b) (zlen a).
Proof.
  intros Ha. split; [by exists a, b|]. intros j (a' & b' & E & <-).
  destruct (Z.le_gt_cases (zlen a) (zlen a')) as [|Hlt]; [done|]. exfalso.
  apply (Ha (zlen a')).
  assert (E' : (a ++ pat) ++ [c] ++ b = (a' ++ pat ++ [c]) ++ b') by (rewrite <- !app_assoc in *; done).
  apply app_eq_inv in E' as [(k & E1 & _)|(k & E1 & _)].
  - exists a', k. split; [|done]. by rewrite E1, <- app_assoc.
  - exists a', []. split; [|done]. apply (f_equal zlen) in E1 as L. rewrite !zlen_app in L.
    autorewrite with ww in L.
    assert (k = []) as -> by (apply nil_length_inv; unfold zlen in *; lia).
    rewrite app_nil_r in *. congruence.
Qed.

(** The automata, as functions of the bytes read so far, last byte first. *)
Definition crlf_state (rp : list Z) : Z :=
  match rp with x :: _ => if x =? CR then 1 else 0 | [] => 0 end.

Definition double_crlf_state (rp : list Z) : Z :=
  match rp with
  | x :: rp1 =>
      if x =? CR then
        match rp1 with
        | y :: z :: _ => if (y =? LF) && (z =? CR) then 3 else 1
        | _ => 1
        end
      else if x =? LF then
        match rp1 with y :: _ => if y =? CR then 2 else 0 | [] => 0 end
      else 0
  | [] => 0
  end.

(** [state] and [match_idx] describe the text [pre] that was read without a
    match. *)
Definition scan_inv (f : list Z -> Z) (pat pre : list Z) (state match_idx : Z) : Prop :=
  absent pat pre /\ state = f (reverse pre) /\ (0 < state -> match_idx = zlen pre - state).

(** Reading one more byte. *)
Lemma scan_inv_snoc f pat pre c state match_idx :
  pat <> [] -> absent pat pre -> (forall rp, c :: reverse pre <> reverse pat ++ rp) ->
  state = f (c :: reverse pre) -> (0 < state -> match_idx = zlen pre + 1 - state) ->
  scan_inv f pat (pre ++ [c]) state match_idx.
Proof.
  intros Hp Ha Hn Hs Hm. split; [|split].
  - apply absent_snoc; auto. intros a E. apply (Hn (reverse a)).
    by rewrite <- reverse_app, <- reverse_snoc, E.
  - by rewrite reverse_snoc.
  - intros Hpos. autorewrite with ww. rewrite Hm by done. lia.
Qed.

(** A byte loop driven by a transition function: [None] is a match, [Some (st, b)]
    the next state and whether a match may start at this byte. *)
Fixpoint run (next : Z -> Z -> option (Z * bool)) (bytes : list Z) (pos state match_idx : Z)
  : Z + Z * Z :=
  match bytes with
  | [] => inr (state, match_idx)
  | c :: bytes' =>
      match next state c with
      | None => inl match_idx
      | Some (state', b) => run next bytes' (pos + 1) state' (if b then pos else match_idx)
      end
  end.

(** What such a loop returns: the first match, or a state that describes all the
    text read. *)
Definition scan_post (f : list Z -> Z) (pat pre bytes : list Z) (r : Z + Z * Z) : Prop :=
  match r with
  | inl e => forall more, first_at pat (pre ++ bytes ++ more) e
  | inr (st, m) => scan_inv f pat (pre ++ bytes) st m
  end.

Section Automaton.
Context (f : list Z -> Z) (next : Z -> Z -> option (Z * bool)) (pat' : list Z) (c0 : Z).
Context (next_found : forall rp c, next (f rp) c = None ->
  c = c0 /\ f rp = zlen pat' /\ 0 < zlen pat' /\ exists rp', rp = reverse pat' ++ rp').
Context (next_go : forall rp c st b, next (f rp) c = Some (st, b) ->
  st = f (c :: rp) /\ (forall rp', c :: rp <> reverse (pat' ++ [c0]) ++ rp') /\
  (0 < st -> if b then st = 1 else 0 < f rp /\ st = f rp + 1)).

Lemma run_spec bytes : forall pre state m,
  scan_inv f (pat' ++ [c0]) pre state m ->
  scan_post f (pat' ++ [c0]) pre bytes (run next bytes (zlen pre) state m).
Proof.
  induction bytes as [|c bytes IH]; intros pre state m Hinv; simpl; [by rewrite app_nil_r|].
  destruct Hinv as (Ha & -> & Hm). destruct (next _ c) as [[st b]|] eqn:E.
  - apply next_go in E as (-> & Hno & Hst).
    assert (Hi : scan_inv f (pat' ++ [c0]) (pre ++ [c]) (f (c :: reverse pre))
                   (if b then zlen pre else m)).
    { apply scan_inv_snoc; auto; [by destruct pat'|]. intros Hpos. specialize (Hst Hpos).
      destruct b; [lia|]. rewrite Hm by lia. lia. }
    specialize (IH _ _ _ Hi). rewrite zlen_app in IH. change (zlen [c]) with 1 in IH.
    unfold scan_post in *. destruct (run _ _ _ _ _) as [e|[]].
    + intros more. specialize (IH more). by rewrite <- app_assoc in IH.
    + by rewrite <- app_assoc in IH.
  - apply next_found in E as (-> & Hf & Hpos & rp' & Erp).
    assert (Epre : pre = reverse rp' ++ pat').
    { rewrite <- (reverse_involutive pre), Erp, reverse_app, reverse_involutive. done. }
    intros more. rewrite Hm by lia.
    replace (zlen pre - f (reverse pre)) with (zlen (reverse rp'))
      by (rewrite Hf, Epre, zlen_app; lia).
    replace (pre ++ (c0 :: bytes) ++ more) with (reverse rp' ++ (pat' ++ [c0]) ++ bytes ++ more)
      by (rewrite Epre, <- !app_assoc; done).
    apply first_of_prefix. by rewrite <- Epre.
Qed.
End Automaton.

Definition crlf_next (state c : Z) : option (Z * bool) :=
  if state =? 0 then Some (if c =? CR then (1, true) else (0, false))
  else if c =? LF then None
  else Some (if c =? CR then (1, true) else (0, false)).

Definition double_crlf_next (state c : Z) : option (Z * bool) :=
  if state =? 0 then Some (if c =? CR then (1, true) else (0, false))
  else if state =? 1 then
    Some (if c =? LF then (2, false) else if c =? CR then (1, true) else (0, false))
  else if state =? 2 then Some (if c =? CR then (3, false) else (0, false))
  else if c =? LF then None
  else Some (if c =? CR then (1, true) else (0, false)).

(** Decides every byte comparison in sight. *)
Ltac bytes_cases :=
  repeat match goal with
  | H : context [?x =? ?y] |- _ => destruct (Z.eqb_spec x y); subst; simpl in H
  | |- context [?x =? ?y] => destruct (Z.eqb_spec x y); subst; simpl
  end.

Lemma crlf_spec bytes pre state m :
  scan_inv crlf_state CRLF pre state m ->
  scan_post crlf_state CRLF pre bytes (run crlf_next bytes (zlen pre) state m).
Proof.
  apply (run_spec crlf_state crlf_next [CR] LF).
  - intros [|x rp] c; unfold crlf_next, crlf_state; simpl; [done|]. bytes_cases; try done.
    intros _. splits; auto; [done|]. by exists rp.
  - intros [|x rp] c st b; unfold crlf_next, crlf_state, reverse; simpl; bytes_cases; try done;
      intros [= <- <-]; splits; try done; intros rp' [=]; congruence.
Qed.

Lemma double_crlf_spec bytes pre state m :
  scan_inv double_crlf_state DOUBLE_CRLF pre state m ->
  scan_post double_crlf_state DOUBLE_CRLF pre bytes (run double_crlf_next bytes (zlen pre) state m).
Proof.
  apply (run_spec double_crlf_state double_crlf_next [CR; LF; CR] LF).
  - intros [|x [|y [|z rp]]] c; unfold double_crlf_next, double_crlf_state; simpl; bytes_cases; try done.
    intros _. splits; auto; [done|]. by exists rp.
  - intros [|x [|y [|z rp]]] c st b; unfold double_crlf_next, double_crlf_state, reverse; simpl;
      bytes_cases; try done; intros [= <- <-]; splits; try done; intros rp' [=]; congruence.
Qed.

Lemma crlf_bytes_run bytes : forall pos state m,
  0 <= state <= 1 -> crlf_bytes bytes pos state m = run crlf_next bytes pos state m.
Proof.
  induction bytes as [|c bytes IH]; intros pos state m Hs; [done|].
  assert (state = 0 \/ state = 1) as [-> | ->] by lia; cbn [crlf_bytes run]; unfold crlf_next;
    simpl; repeat split_test; rewrite ?IH by lia; done.
Qed.

Lemma double_crlf_bytes_run bytes : forall pos state m,
  0 <= state <= 3 ->
  double_crlf_bytes bytes pos state m =
    match run double_crlf_next bytes pos state m with
    | inl e => inl (e +64 4)
    | inr r => inr r
    end.
Proof.
  induction bytes as [|c bytes IH]; intros pos state m Hs; [done|].
  assert (state = 0 \/ state = 1 \/ state = 2 \/ state = 3) as [-> | [-> | [-> | ->]]] by lia;
    cbn [double_crlf_bytes run]; unfold double_crlf_next; simpl;
    repeat split_test; rewrite ?IH by lia; done.
Qed.

Lemma crlf_state_range rp : 0 <= crlf_state rp <= 1.
Proof. unfold crlf_state. destruct rp; [lia|]. split_test; lia. Qed.

Lemma double_crlf_state_range rp : 0 <= double_crlf_state rp <= 3.
Proof. unfold double_crlf_state. destruct rp as [|x [|y [|z rp]]]; repeat split_test; lia. Qed.

Lemma first_at_bound pat l e : first_at pat l e -> 0 <= e /\ e + zlen pat <= zlen l.
Proof.
  intros [(a & b & -> & <-) _]. rewrite !zlen_app. pose proof (zlen_nonneg a).
  pose proof (zlen_nonneg b). lia.
Qed.

Lemma absent_short pat l : zlen l < zlen pat -> absent pat l.
Proof.
  intros Hl i (a & b & -> & _). rewrite !zlen_app in Hl. pose proof (zlen_nonneg a).
  pose proof (zlen_nonneg b). lia.
Qed.

Lemma scan_inv_nil f pat : pat <> [] -> f [] = 0 -> scan_inv f pat [] 0 0.
Proof.
  intros Hp Hf. split; [|split; [done|lia]]. apply absent_short.
  destruct pat; [done|]. autorewrite with ww. pose proof (zlen_nonneg pat). lia.
Qed.

(** The loop over buffers sees the text across buffer boundaries. *)
Section ScanBufs.
Context (f : list Z -> Z) (pat : list Z) (adj : Z -> Z).
Context (step : list Z -> Z -> Z -> Z -> Z + Z * Z).
Context (step_ok : forall bytes pre st m, scan_inv f pat pre st m ->
  exists r, scan_post f pat pre bytes r /\
    step bytes (zlen pre) st m = match r with inl e => inl (adj e) | inr x => inr x end).

Lemma scan_bufs_spec bufs : forall pre st m,
  Forall good bufs -> zlen pre + total bufs <= UINT32_MAX -> scan_inv f pat pre st m ->
  match scan_bufs step bufs (zlen pre) st m with
  | Ok (Some e') => exists e, e' = adj e /\ first_at pat (pre ++ contents bufs) e
  | Ok None => absent pat (pre ++ contents bufs)
  | Fail _ => False
  end.
Proof.
  induction bufs as [|b bufs IH]; intros pre st m G Hl Hi; simpl.
  { rewrite app_nil_r. apply Hi. }
  apply Forall_cons in G as [[W O] G]. pose proof (total_nonneg _ G). pose proof (wf_len _ W).
  simpl in Hl. unfold sbufGetLength. rewrite read_payload by (auto; lia). simpl.
  rewrite take_ge by (pose proof (zlen_payload b W); unfold zlen in *; lia).
  destruct (step_ok (payload b) pre st m Hi) as (r & Hr & ->). destruct r as [e|[st' m']]; simpl in Hr.
  - exists e. split; [done|]. rewrite contents_cons. apply Hr.
  - pose proof (zlen_nonneg pre). rewrite wrap64_small by word_lia.
    pose proof (zlen_payload b W) as Lp.
    specialize (IH (pre ++ payload b) st' m' G). rewrite zlen_app, Lp in IH.
    rewrite contents_cons, app_assoc. apply IH; [lia|exact Hr].
Qed.
End ScanBufs.

(** ** Streams in use

    A run of a stream: the bytes pushed so far and the bytes handed out so far
    are the ghost arguments. *)

Section Runs.
Context `{Allocator} {P : Type} `{PoolLaws P}.

Inductive stream_run (pad : Z) : buffer_stream_t -> P -> list Z -> list Z -> Prop :=
  | run_create pool :
      pool_inv pool -> stream_run pad (bufferstreamCreate pad) pool [] []
  | run_push self pool pushed out b self' pool' :
      stream_run pad self pool pushed out -> good b -> size self + len b <= kStreamLimit ->
      bufferstreamPush self pool b = Ok (self', pool') ->
      stream_run pad self' pool' (pushed ++ payload b) out
  | run_read_exact self pool pushed out n b self' pool' :
      stream_run pad self pool pushed out -> 0 < n <= size self ->
      bufferstreamReadExact self pool n = Ok (b, self', pool') ->
      stream_run pad self' pool' pushed (out ++ payload b)
  | run_read_at_least self pool pushed out n b self' pool' :
      stream_run pad self pool pushed out -> 0 < n <= size self ->
      bufferstreamReadAtLeast self pool n = Ok (b, self', pool') ->
      stream_run pad self' pool' pushed (out ++ payload b)
  | run_ideal_read self pool pushed out b self' :
      stream_run pad self pool pushed out -> bufferstreamIdealRead self = Ok (b, self') ->
      stream_run pad self' pool pushed (out ++ payload b)
  | run_move self pool pushed out d n self' d' pool' :
      stream_run pad self pool pushed out -> good d -> 0 <= n <= size self ->
      curpos d + len d + n <= capacity d ->
      bufferstreamMoveExactBytesTo self pool d n = Ok (self', d', pool') ->
      stream_run pad self' pool' pushed (out ++ drop (length (payload d)) (payload d'))
  | run_settle self pool pushed out max_charge r self' pool' :
      stream_run pad self pool pushed out -> 0 <= max_charge ->
      bufferstreamSettleRetained self pool max_charge = Ok (r, self', pool') ->
      stream_run pad self' pool' pushed out.

Lemma ideal_read_spec self :
  stream_wf self -> 0 < size self ->
  exists b self', bufferstreamIdealRead self = Ok (b, self') /\ stream_wf self' /\ good b /\
    payload b ++ contents (q self') = contents (q self).
Proof.
  intros [Hg Hz Hl Hp] Hs. unfold bufferstreamIdealRead. rewrite assert_bind by lia.
  destruct (q self) as [|b rest]; [simpl in Hz; lia|]. apply Forall_cons in Hg as [Gb Gr].
  pose proof (total_nonneg _ Gr). pose proof (wf_len _ (proj1 Gb)). simpl in Hz.
  unfold kStreamLimit, UINT16_MAX, UINT32_MAX, sbufGetLength in *.
  rewrite wrap64_small by word_lia.
  eexists b, _. split; [reflexivity|]. split; [|done].
  split; simpl; auto; unfold kStreamLimit, UINT16_MAX, UINT32_MAX; lia.
Qed.

Lemma run_inv pad self pool pushed out :
  0 <= pad <= UINT16_MAX - 31 -> stream_run pad self pool pushed out ->
  stream_wf self /\ pool_inv pool /\ pushed = out ++ contents (q self).
Proof.
  intros Hpad. induction 1 as
    [pool I|self pool pushed out b self' pool' _ (W & I & ->) Gb Hs E
    |self pool pushed out n b self' pool' _ (W & I & ->) Hn E
    |self pool pushed out n b self' pool' _ (W & I & ->) Hn E
    |self pool pushed out b self' _ (W & I & ->) E
    |self pool pushed out d n self' d' pool' _ (W & I & ->) Gd Hn Hf E
    |self pool pushed out mc r self' pool' _ (W & I & ->) Hm E].
  - splits; auto. split; simpl; auto. vm_compute. discriminate.
  - destruct (stream_push_spec self pool b W I Gb Hs) as (s & p & E' & ? & ? & _ & C & _).
    rewrite E in E'. injection E' as <- <-. splits; auto. by rewrite C, app_assoc.
  - destruct (read_exact_spec self pool n W I Hn) as (b' & s & p & E' & ? & _ & ? & _ & _ & P1 & P2).
    rewrite E in E'. injection E' as <- <- <-. splits; auto.
    by rewrite P1, P2, <- app_assoc, take_drop.
  - destruct (read_at_least_spec self pool n W I Hn) as (b' & s & p & E' & ? & _ & ? & _ & _ & C).
    rewrite E in E'. injection E' as <- <- <-. splits; auto. by rewrite <- app_assoc, C.
  - assert (Hs : 0 < size self).
    { unfold bufferstreamIdealRead in E. apply bind_Ok in E as (u & A & _). apply check_Ok in A.
      bool_facts. lia. }
    destruct (ideal_read_spec self W Hs) as (b' & s & E' & ? & _ & C).
    rewrite E in E'. injection E' as <- <-. splits; auto. by rewrite <- app_assoc, C.
  - destruct (move_exact_spec self pool d n W I Gd Hn Hf) as (s & d1 & p & E' & ? & _ & ? & _ & P1 & P2 & _).
    rewrite E in E'. injection E' as <- <- <-. splits; auto.
    by rewrite P1, drop_app_length, P2, <- app_assoc, take_drop.
  - destruct (settle_spec self pool mc W I Hm) as (s & p & E' & ? & ? & C & _).
    rewrite E in E'. injection E' as -> <- <-. splits; auto. by rewrite C.
Qed.
End Runs.

(** ** Properties *)

Section Properties.
Context `{Allocator} {P : Type} `{PoolLaws P}.

(** C31. Refinement: a stream is a FIFO of bytes.  After any run of pushes, reads,
    moves and compactions, the bytes handed out followed by the bytes still in
    the stream are exactly the bytes pushed, in order, however the buffers were
    coalesced, split and merged; and the recorded size is their number. *)
Theorem stream_is_fifo (pad : Z) (self : buffer_stream_t) (pool : P) (pushed out : list Z) :
  0 <= pad <= UINT16_MAX - 31 -> stream_run pad self pool pushed out ->
  pushed = out ++ contents (q self) /\ bufferstreamGetBufLen self = zlen (contents (q self)).
Proof.
  intros Hp R. destruct (run_inv _ _ _ _ _ Hp R) as (W & _ & E).
  split; [done|]. symmetry. by apply wf_length.
Qed.

(** Functional: an exact read of [n] buffered bytes succeeds in every state a
    stream can reach and returns a buffer holding exactly the first [n] bytes,
    leaving the others; it never aborts on a full tier, a missing padding or a
    merge of buffers. *)
Theorem stream_read_exact (pad : Z) (self : buffer_stream_t) (pool : P) (pushed out : list Z) (n : Z) :
  0 <= pad <= UINT16_MAX - 31 -> stream_run pad self pool pushed out -> 0 < n <= size self ->
  exists b self' pool',
    bufferstreamReadExact self pool n = Ok (b, self', pool') /\
    payload b = take (Z.to_nat n) (contents (q self)) /\
    contents (q self') = drop (Z.to_nat n) (contents (q self)) /\
    stream_run pad self' pool' pushed (out ++ payload b).
Proof.
  intros Hp R Hn. destruct (run_inv _ _ _ _ _ Hp R) as (W & I & _).
  destruct (read_exact_spec self pool n W I Hn) as (b & s & p & E & _ & _ & _ & _ & _ & P1 & P2).
  exists b, s, p. splits; auto. by eapply run_read_exact.
Qed.

(** Bounds: compacting a stream under memory pressure never fails, keeps the
    bytes, and leaves storage whose charge is at most the larger of the caller's
    threshold and the charge of one best-fit buffer; an empty stream keeps no
    storage. *)
Theorem stream_settle_bound (pad : Z) (self : buffer_stream_t) (pool : P) (pushed out : list Z)
    (max_charge : Z) :
  0 <= pad <= UINT16_MAX - 31 -> stream_run pad self pool pushed out -> 0 <= max_charge ->
  exists self' pool',
    bufferstreamSettleRetained self pool max_charge = Ok (true, self', pool') /\
    contents (q self') = contents (q self) /\ (size self = 0 -> q self' = []) /\
    forall fit, size self <> 0 ->
      pool_query_best_fit pool (size self) (pool_large_padding pool) = Ok (Some fit) ->
      bufferstreamGetCharge self' <= Z.max max_charge (allocation_charge fit).
Proof.
  intros Hp R Hm. destruct (run_inv _ _ _ _ _ Hp R) as (W & I & _).
  destruct (settle_spec self pool max_charge W I Hm) as (s & p & E & _ & _ & C & Z0 & B).
  exists s, p. auto.
Qed.
End Properties.

(** Functional: viewing bytes without consuming them returns exactly that
    range of the stream's byte sequence, wherever buffer boundaries fall, for
    one byte and for a range. *)
Theorem stream_view_bytes (self : buffer_stream_t) (at_ n : Z) :
  stream_wf self -> 0 <= at_ -> 0 < n -> at_ + n <= size self ->
  bufferstreamViewBytesAt self at_ n = Ok (slice at_ n (contents (q self))) /\
  exists x, bufferstreamViewByteAt self at_ = Ok x /\ contents (q self) !! Z.to_nat at_ = Some x.
Proof.
  intros [Hg Hz Hl Hp] Ha Hn Hs. unfold kStreamLimit, UINT16_MAX, UINT32_MAX in *. split.
  - unfold bufferstreamViewBytesAt. rewrite wrap64_small by word_lia.
    rewrite assert_bind by lia.
    rewrite view_bytes_loop_spec; rewrite ?zlen_nil; auto; unfold UINT32_MAX; try lia.
    rewrite Z.sub_0_r. reflexivity.
  - unfold bufferstreamViewByteAt. rewrite abort_bind by lia.
    apply view_byte_loop_spec; auto; unfold UINT32_MAX; lia.
Qed.

(** Functional: the header search returns the offset just behind the first
    CR LF CR LF of the stream's bytes, also when it straddles buffers, and
    reports nothing exactly when there is none; likewise for the offset of the
    first CR LF. *)
Theorem stream_find_delimiter (self : buffer_stream_t) :
  stream_wf self ->
  match bufferstreamFindDoubleCRLF self with
  | Ok (Some e) => first_at DOUBLE_CRLF (contents (q self)) (e - 4)
  | Ok None => absent DOUBLE_CRLF (contents (q self))
  | Fail _ => False
  end /\
  match bufferstreamFindCRLF self with
  | Ok (Some e) => first_at CRLF (contents (q self)) e
  | Ok None => absent CRLF (contents (q self))
  | Fail _ => False
  end.
Proof.
  intros Hw. pose proof (wf_length _ Hw) as Lc. pose proof Hw as [Hg Hz Hl Hp].
  unfold kStreamLimit, UINT16_MAX in *. pose proof (total_nonneg _ Hg) as Ht. split.
  - unfold bufferstreamFindDoubleCRLF, bufferstreamGetBufLen. split_test.
    { apply absent_short. rewrite Lc. change (zlen DOUBLE_CRLF) with 4. lia. }
    pose proof (scan_bufs_spec double_crlf_state DOUBLE_CRLF (fun e => e +64 4) double_crlf_bytes) as S.
    specialize (S ltac:(intros bytes pre st m Hi; eexists; split; [by apply double_crlf_spec|];
      destruct Hi as (_ & -> & _); apply double_crlf_bytes_run, double_crlf_state_range)).
    specialize (S (q self) [] 0 0 Hg). rewrite zlen_nil in S.
    specialize (S ltac:(lia) (scan_inv_nil double_crlf_state DOUBLE_CRLF ltac:(done) eq_refl)). simpl in S.
    destruct (scan_bufs _ _ _ _ _) as [[e'|]|]; [|exact S|exact S]. destruct S as (e & -> & F).
    pose proof (first_at_bound _ _ _ F) as B. change (zlen DOUBLE_CRLF) with 4 in B.
    rewrite wrap64_small by word_lia.
    replace (e + 4 - 4) with e by lia. exact F.
  - unfold bufferstreamFindCRLF, bufferstreamGetBufLen. split_test.
    { apply absent_short. rewrite Lc. change (zlen CRLF) with 2. lia. }
    pose proof (scan_bufs_spec crlf_state CRLF (fun e => e) crlf_bytes) as S.
    specialize (S ltac:(intros bytes pre st m Hi; eexists; split; [by apply crlf_spec|];
      destruct Hi as (_ & -> & _); rewrite crlf_bytes_run by apply crlf_state_range;
      by destruct (run _ _ _ _ _))).
    specialize (S (q self) [] 0 0 Hg). rewrite zlen_nil in S.
    specialize (S ltac:(lia) (scan_inv_nil crlf_state CRLF ltac:(done) eq_refl)). simpl in S.
    destruct (scan_bufs _ _ _ _ _) as [[e'|]|]; [|exact S|exact S]. by destruct S as (e & -> & F).
Qed.

(** ** Witnesses: a stream over a real pool *)

Abbreviation demo_run := (@stream_run debug_allocator state buffer_pool_ops
                            (@buffer_pool_laws debug_allocator)).

Definition chunk1 : sbuf_t := sample [71; 13; 10].
Definition chunk2 : sbuf_t := sample [13; 10; 66].
Definition demo_stream : buffer_stream_t := mk_stream [chunk1; chunk2] 6 0.

Lemma sample_good (bytes : list Z) : Forall u8 bytes -> zlen bytes <= 64 -> good (sample bytes).
Proof. intros. split; [by apply sample_wf|reflexivity]. Qed.

Lemma chunk1_good : good chunk1.
Proof. apply sample_good; [repeat constructor; unfold UINT8_MAX; lia|vm_compute; discriminate]. Qed.

Lemma chunk2_good : good chunk2.
Proof. apply sample_good; [repeat constructor; unfold UINT8_MAX; lia|vm_compute; discriminate]. Qed.

Lemma demo_stream_wf : stream_wf demo_stream.
Proof.
  split; simpl; [repeat constructor; apply chunk1_good || apply chunk2_good|done| |].
  - vm_compute. discriminate.
  - vm_compute. split; discriminate.
Qed.

Lemma demo_pool_inv : @pool_inv state buffer_pool_ops (@buffer_pool_laws debug_allocator) demo_state.
Proof. apply (reachable_state_inv (H := debug_allocator)), demo_reachable. Qed.

Lemma demo_run_push : demo_run 0 (mk_stream [chunk1] 3 0) demo_state [71; 13; 10] [].
Proof.
  apply (@run_push debug_allocator state buffer_pool_ops (@buffer_pool_laws debug_allocator) 0
           (bufferstreamCreate 0) demo_state [] [] chunk1).
  - apply run_create, demo_pool_inv.
  - apply chunk1_good.
  - vm_compute. discriminate.
  - reflexivity.
Qed.

Lemma stream_is_fifo_witness :
  [71; 13; 10] = [] ++ contents [chunk1] /\
  bufferstreamGetBufLen (mk_stream [chunk1] 3 0) = zlen (contents [chunk1]).
Proof.
  apply (@stream_is_fifo debug_allocator state buffer_pool_ops (@buffer_pool_laws debug_allocator)
           0 (mk_stream [chunk1] 3 0) demo_state).
  - unfold UINT16_MAX. lia.
  - apply demo_run_push.
Defined.

Lemma stream_read_exact_witness :
  exists b self' pool',
    bufferstreamReadExact (H := debug_allocator) (H0 := @buffer_pool_ops debug_allocator) (mk_stream [chunk1] 3 0) demo_state 2 =
      Ok (b, self', pool') /\ payload b = [71; 13].
Proof.
  destruct (@stream_read_exact debug_allocator state buffer_pool_ops (@buffer_pool_laws debug_allocator)
              0 (mk_stream [chunk1] 3 0) demo_state [71; 13; 10] [] 2) as (b & s & p & E & Pb & _).
  - unfold UINT16_MAX. lia.
  - apply demo_run_push.
  - simpl. lia.
  - exists b, s, p. split; [exact E|exact Pb].
Defined.

Lemma stream_settle_bound_witness :
  exists self' pool',
    bufferstreamSettleRetained (H0 := @buffer_pool_ops debug_allocator) (mk_stream [chunk1] 3 0) demo_state 0 =
      Ok (true, self', pool') /\ contents (q self') = [71; 13; 10].
Proof.
  destruct (@stream_settle_bound debug_allocator state buffer_pool_ops (@buffer_pool_laws debug_allocator)
              0 (mk_stream [chunk1] 3 0) demo_state [71; 13; 10] [] 0) as (s & p & E & C & _).
  - unfold UINT16_MAX. lia.
  - apply demo_run_push.
  - lia.
  - exists s, p. split; [exact E|exact C].
Defined.

Lemma stream_view_bytes_witness :
  bufferstreamViewBytesAt demo_stream 1 4 = Ok [13; 10; 13; 10].
Proof.
  apply (stream_view_bytes demo_stream 1 4 demo_stream_wf); [lia|lia|vm_compute; discriminate].
Defined.

Lemma stream_find_delimiter_witness :
  bufferstreamFindDoubleCRLF demo_stream = Ok (Some 5) /\
  first_at DOUBLE_CRLF [71; 13; 10; 13; 10; 66] 1.
Proof.
  pose proof (stream_find_delimiter demo_stream demo_stream_wf) as [P _].
  assert (E : bufferstreamFindDoubleCRLF demo_stream = Ok (Some 5)) by (vm_compute; reflexivity).
  rewrite E in P. split; [exact E|exact P].
Defined.
