(* ===== verification/BufferQueue.v ===== *)
(** * Buffer budgets and buffer queues ([ww/bufio/buffer_budget.c], [ww/bufio/buffer_queue.c])

    A budget limits the bytes and the storage charge its owners retain.  A
    buffer queue bound to a budget pays for its entries; popping an entry
    releases its cost or moves it to a reservation, which can pay for queueing
    the buffer again.  Budgets are shared objects: a pointer is an index in the
    list of budgets, and every operation threads that list.

    The ring buffer under a queue belongs to a container library; a queue is the
    list of its entries and [deque_reserve n] says whether the ring can grow to
    [n] entries.  Buffers keep their identity on insertion, as they do outside
    [DEBUG] builds. *)

From Stdlib Require Import ZArith Lia.
From stdpp Require Import base numbers option list.
From S2P Require Import Prelude ShiftBuffer PoolInterface BufferPool.
Open Scope Z_scope.
Open Scope word_scope.

Record buffer_budget_cost_t : Type := mk_cost {
  bytes : Z;
  charge : Z
}.

Record buffer_budget_t : Type := mk_budget {
  limits : buffer_budget_cost_t;
  used : buffer_budget_cost_t
}.

Record buffer_budget_reservation_t : Type := mk_reservation {
  r_budget : option nat;
  r_cost : buffer_budget_cost_t
}.

Record buffer_queue_t : Type := mk_queue {
  q_budget : option nat;
  q_bufs : list sbuf_t;
  total_len : Z;
  total_charge : Z
}.

Definition no_cost : buffer_budget_cost_t := mk_cost 0 0.
Definition empty_reservation : buffer_budget_reservation_t := mk_reservation None no_cost.

(** ** Budgets *)

Definition bufferbudgetInit (lim : buffer_budget_cost_t) : buffer_budget_t := mk_budget lim no_cost.
Definition bufferbudgetGetUsage (x : buffer_budget_t) : buffer_budget_cost_t := used x.
Definition bufferbudgetGetLimits (x : buffer_budget_t) : buffer_budget_cost_t := limits x.

Definition bufferbudgetTryGetCost (b : sbuf_t) : option buffer_budget_cost_t :=
  match sbufTryGetQueueCharge b with
  | None => None
  | Some c => Some (mk_cost (sbufGetLength b) c)
  end.

Definition bufferbudgetTryAcquire (x : buffer_budget_t) (cost : buffer_budget_cost_t)
  : outcome (bool * buffer_budget_t) :=
  _ ← assert_ ((bytes (used x) <=? bytes (limits x)) && (charge (used x) <=? charge (limits x)));
  if (bytes cost >? (bytes (limits x) -64 bytes (used x))) ||
     (charge cost >? (charge (limits x) -64 charge (used x)))
  then mret (false, x)
  else mret (true, mk_budget (limits x)
                     (mk_cost (bytes (used x) +64 bytes cost) (charge (used x) +64 charge cost))).

Definition bufferbudgetRelease (x : buffer_budget_t) (cost : buffer_budget_cost_t)
  : outcome buffer_budget_t :=
  _ ← abort_if ((bytes cost >? bytes (used x)) || (charge cost >? charge (used x)));
  mret (mk_budget (limits x)
          (mk_cost (bytes (used x) -64 bytes cost) (charge (used x) -64 charge cost))).

Definition bufferbudgetAssertEmpty (x : buffer_budget_t) : outcome unit :=
  assert_ ((bytes (used x) =? 0) && (charge (used x) =? 0)).

(** The two operations through a budget pointer. *)
Definition acquire_at (bs : list buffer_budget_t) (k : nat) (cost : buffer_budget_cost_t)
  : outcome (bool * list buffer_budget_t) :=
  match bs !! k with
  | None => Fail MemoryFault
  | Some x => '(ok, x) ← bufferbudgetTryAcquire x cost; mret (ok, <[k := x]> bs)
  end.

Definition release_at (bs : list buffer_budget_t) (k : nat) (cost : buffer_budget_cost_t)
  : outcome (list buffer_budget_t) :=
  match bs !! k with
  | None => Fail MemoryFault
  | Some x => x ← bufferbudgetRelease x cost; mret (<[k := x]> bs)
  end.

Definition bufferbudgetTryReserve (bs : list buffer_budget_t) (k : nat) (b : sbuf_t)
    (r : buffer_budget_reservation_t)
  : outcome (bool * list buffer_budget_t * buffer_budget_reservation_t) :=
  _ ← assert_ (bool_decide (r_budget r = None));
  match bufferbudgetTryGetCost b with
  | None => mret (false, bs, r)
  | Some cost =>
      '(ok, bs) ← acquire_at bs k cost;
      if ok : bool then mret (true, bs, mk_reservation (Some k) cost) else mret (false, bs, r)
  end.

Definition bufferbudgetReservationReduce (bs : list buffer_budget_t)
    (r : buffer_budget_reservation_t) (remaining : buffer_budget_cost_t)
  : outcome (list buffer_budget_t * buffer_budget_reservation_t) :=
  match r_budget r with
  | None => Fail AssertFailed
  | Some k =>
      _ ← assert_ ((bytes remaining <=? bytes (r_cost r)) && (charge remaining <=? charge (r_cost r)));
      bs ← release_at bs k (mk_cost (bytes (r_cost r) -64 bytes remaining)
                                    (charge (r_cost r) -64 charge remaining));
      mret (bs, mk_reservation (Some k) remaining)
  end.

Definition bufferbudgetReservationSetBytes (bs : list buffer_budget_t)
    (r : buffer_budget_reservation_t) (remaining : Z)
  : outcome (list buffer_budget_t * buffer_budget_reservation_t) :=
  bufferbudgetReservationReduce bs r (mk_cost remaining (charge (r_cost r))).

Definition bufferbudgetReservationRelease (bs : list buffer_budget_t)
    (r : buffer_budget_reservation_t)
  : outcome (list buffer_budget_t * buffer_budget_reservation_t) :=
  match r_budget r with
  | None => mret (bs, r)
  | Some k => bs ← release_at bs k (r_cost r); mret (bs, empty_reservation)
  end.

(** ** Queues *)

Definition PTRDIFF_MAX : Z := 9223372036854775807.
Definition kBufferQueueQCap : Z := 8.

Definition queue_cost (self : buffer_queue_t) : buffer_budget_cost_t :=
  mk_cost (total_len self) (total_charge self).

Definition bufferqueueInitEmpty : buffer_queue_t := mk_queue None [] 0 0.
Definition bufferqueueFront (self : buffer_queue_t) : option sbuf_t := head (q_bufs self).
Definition bufferqueueGetBufCount (self : buffer_queue_t) : Z := zlen (q_bufs self).
Definition bufferqueueGetBufLen (self : buffer_queue_t) : Z := total_len self.
Definition bufferqueueGetCharge (self : buffer_queue_t) : Z := total_charge self.

Definition bufferqueueTryAttachBudget (bs : list buffer_budget_t) (self : buffer_queue_t) (k : nat)
  : outcome (bool * list buffer_budget_t * buffer_queue_t) :=
  _ ← assert_ (bool_decide (q_budget self = None));
  '(ok, bs) ← acquire_at bs k (queue_cost self);
  if ok : bool
  then mret (true, bs, mk_queue (Some k) (q_bufs self) (total_len self) (total_charge self))
  else mret (false, bs, self).

Definition bufferqueueTryRebindBudget (bs : list buffer_budget_t) (self : buffer_queue_t)
    (destination : nat) : outcome (bool * list buffer_budget_t * buffer_queue_t) :=
  match q_budget self with
  | None => Fail AssertFailed
  | Some k =>
      if bool_decide (k = destination) then mret (true, bs, self) else
      let cost := queue_cost self in
      '(ok, bs) ← acquire_at bs destination cost;
      if ok : bool then
        bs ← release_at bs k cost;
        mret (true, bs, mk_queue (Some destination) (q_bufs self) (total_len self) (total_charge self))
      else mret (false, bs, self)
  end.

Section Storage.
(** Whether the ring buffer can grow to this many entries. *)
Context (deque_reserve : Z -> bool).

Definition bufferqueueReserveExtra (self : buffer_queue_t) (extra : Z) : bool :=
  let size := zlen (q_bufs self) in
  let maximum_capacity := PTRDIFF_MAX / (2 * 8) in
  if (size >? maximum_capacity) || (extra >? (maximum_capacity -64 size)) then false
  else deque_reserve (size +64 extra).

Definition bufferqueueInit (init_capacity : Z) : bool * buffer_queue_t :=
  let init_capacity := if init_capacity <? 1 then kBufferQueueQCap else init_capacity in
  (bufferqueueReserveExtra bufferqueueInitEmpty init_capacity, bufferqueueInitEmpty).

Definition bufferqueueCreate (init_capacity : Z) : outcome buffer_queue_t :=
  let '(ok, bq) := bufferqueueInit init_capacity in
  _ ← abort_if (negb ok);
  mret bq.

(** With a reservation its cost pays for the entry, otherwise the budget the
    queue is bound to. *)
Definition bufferqueueTryInsert (bs : list buffer_budget_t) (self : buffer_queue_t) (b : sbuf_t)
    (front : bool) (reservation : option buffer_budget_reservation_t)
  : outcome (bool * list buffer_budget_t * buffer_queue_t * option buffer_budget_reservation_t) :=
  let refuse bs := mret (false, bs, self, reservation) in
  match bufferbudgetTryGetCost b with
  | None => refuse bs
  | Some cost =>
      if (total_charge self >? (SIZE_MAX -64 charge cost)) ||
         (total_len self >? (SIZE_MAX -64 bytes cost))
      then refuse bs else
      '(admitted, bs) ←
        match reservation, q_budget self with
        | Some r, _ =>
            _ ← assert_ (bool_decide (is_Some (q_budget self)) &&
                         bool_decide (r_budget r = q_budget self));
            _ ← assert_ ((bytes (r_cost r) =? bytes cost) && (charge (r_cost r) =? charge cost));
            mret (true, bs)
        | None, Some k => acquire_at bs k cost
        | None, None => mret (true, bs)
        end;
      if negb admitted then refuse bs
      else if negb (bufferqueueReserveExtra self 1) then
        bs ← match q_budget self, reservation with
             | Some k, None => release_at bs k cost
             | _, _ => mret bs
             end;
        refuse bs
      else
        entry_charge ← sbufGetQueueCharge b;
        _ ← assert_ (entry_charge =? charge cost);
        mret (true, bs,
              mk_queue (q_budget self) (if front then b :: q_bufs self else q_bufs self ++ [b])
                (total_len self +64 bytes cost) (total_charge self +64 charge cost),
              (fun _ => empty_reservation) <$> reservation)
  end.

Definition bufferqueueTryPushBack bs self b := bufferqueueTryInsert bs self b false None.
Definition bufferqueueTryPushFront bs self b := bufferqueueTryInsert bs self b true None.
Definition bufferqueueTryPushBackReserved bs self b r := bufferqueueTryInsert bs self b false (Some r).
Definition bufferqueueTryPushFrontReserved bs self b r := bufferqueueTryInsert bs self b true (Some r).

Definition bufferqueuePushBack (bs : list buffer_budget_t) (self : buffer_queue_t) (b : sbuf_t)
  : outcome (list buffer_budget_t * buffer_queue_t) :=
  '(ok, bs, self, _) ← bufferqueueTryPushBack bs self b;
  _ ← abort_if (negb ok);
  mret (bs, self).

Definition bufferqueuePushFront (bs : list buffer_budget_t) (self : buffer_queue_t) (b : sbuf_t)
  : outcome (list buffer_budget_t * buffer_queue_t) :=
  '(ok, bs, self, _) ← bufferqueueTryPushFront bs self b;
  _ ← abort_if (negb ok);
  mret (bs, self).
End Storage.

Definition bufferqueuePop (bs : list buffer_budget_t) (self : buffer_queue_t)
    (reservation : option buffer_budget_reservation_t)
  : outcome (option sbuf_t * list buffer_budget_t * buffer_queue_t *
             option buffer_budget_reservation_t) :=
  match q_bufs self with
  | [] => mret (None, bs, self, reservation)
  | b :: bufs =>
      c ← sbufGetQueueCharge b;
      _ ← assert_ ((total_len self >=? sbufGetLength b) && (total_charge self >=? c));
      let self' := mk_queue (q_budget self) bufs (total_len self -64 sbufGetLength b)
                     (total_charge self -64 c) in
      let cost := mk_cost (sbufGetLength b) c in
      match q_budget self, reservation with
      | None, _ => mret (Some b, bs, self', reservation)
      | Some k, Some _ => mret (Some b, bs, self', Some (mk_reservation (Some k) cost))
      | Some k, None => bs ← release_at bs k cost; mret (Some b, bs, self', None)
      end
  end.

Definition bufferqueuePopFront bs self := bufferqueuePop bs self None.

Definition bufferqueuePopFrontReserved (bs : list buffer_budget_t) (self : buffer_queue_t)
    (r : buffer_budget_reservation_t)
  : outcome (option sbuf_t * list buffer_budget_t * buffer_queue_t *
             option buffer_budget_reservation_t) :=
  _ ← assert_ (bool_decide (is_Some (q_budget self)) && bool_decide (r_budget r = None));
  bufferqueuePop bs self (Some r).

(** The buffers go back to the pool of the worker that runs the call. *)
Definition bufferqueueDestroy `{PoolOps P} (bs : list buffer_budget_t) (self : buffer_queue_t)
    (pool : P) : outcome (list buffer_budget_t * buffer_queue_t * P) :=
  pool ← (if zlen (q_bufs self) >? 0 then reuse_all (q_bufs self) pool else mret pool);
  bs ← match q_budget self with
       | Some k => release_at bs k (queue_cost self)
       | None => mret bs
       end;
  mret (bs, bufferqueueInitEmpty, pool).

(** ** Who pays for what *)

(** Bytes and charge are accounted for in the same way. *)
Inductive component : Set := Bytes | Charge.

Definition get (a : component) (c : buffer_budget_cost_t) : Z :=
  match a with Bytes => bytes c | Charge => charge c end.

(** What the owner of a cost pays to budget [k]. *)
Definition paid (a : component) (k : nat) (owner : option nat) (c : buffer_budget_cost_t) : Z :=
  if bool_decide (owner = Some k) then get a c else 0.

Definition buf_cost (b : sbuf_t) : buffer_budget_cost_t := mk_cost (len b) (64 + capacity b).

Definition sum_costs (a : component) (bufs : list sbuf_t) : Z :=
  foldr (fun b acc => get a (buf_cost b) + acc) 0 bufs.

(** The cached totals of a queue are the sums over its entries. *)
Record queue_ok (self : buffer_queue_t) : Prop := mk_queue_ok {
  qo_good : Forall good (q_bufs self);
  qo_total : forall a, get a (queue_cost self) = sum_costs a (q_bufs self);
  qo_range : forall a, get a (queue_cost self) <= SIZE_MAX
}.

Record budget_ok (x : buffer_budget_t) : Prop := mk_budget_ok {
  bo_used : forall a, 0 <= get a (used x) <= get a (limits x);
  bo_limit : forall a, get a (limits x) <= SIZE_MAX
}.

Record reservation_ok (r : buffer_budget_reservation_t) : Prop := mk_reservation_ok {
  ro_range : forall a, 0 <= get a (r_cost r) <= SIZE_MAX
}.

Definition add_cost (c d : buffer_budget_cost_t) : buffer_budget_cost_t :=
  mk_cost (bytes c + bytes d) (charge c + charge d).
Definition sub_cost (c d : buffer_budget_cost_t) : buffer_budget_cost_t :=
  mk_cost (bytes c - bytes d) (charge c - charge d).
Definition set_used (x : buffer_budget_t) (c : buffer_budget_cost_t) : buffer_budget_t :=
  mk_budget (limits x) c.

(** The budget can admit the cost. *)
Definition fits (x : buffer_budget_t) (c : buffer_budget_cost_t) : Prop :=
  forall a, get a (used x) + get a c <= get a (limits x).

Definition pay_q (self : buffer_queue_t) : component -> nat -> Z :=
  fun a k => paid a k (q_budget self) (queue_cost self).
Definition pay_r (r : buffer_budget_reservation_t) : component -> nat -> Z :=
  fun a k => paid a k (r_budget r) (r_cost r).

(** From [bs] to [bs'] every budget follows the change of what is paid to it. *)
Definition rebalanced (bs bs' : list buffer_budget_t) (before after : component -> nat -> Z) : Prop :=
  length bs' = length bs /\
  forall k x, bs !! k = Some x -> exists x', bs' !! k = Some x' /\ budget_ok x' /\
    limits x' = limits x /\ forall a, get a (used x') = get a (used x) - before a k + after a k.

(** Every budget has been charged for what is paid to it. *)
Definition funded (bs : list buffer_budget_t) (before : component -> nat -> Z) : Prop :=
  forall k x a, bs !! k = Some x -> before a k <= get a (used x).

Definition bound (bs : list buffer_budget_t) (owner : option nat) : Prop :=
  forall k, owner = Some k -> exists x, bs !! k = Some x.

Section Specs.
Implicit Types (x : buffer_budget_t) (bs : list buffer_budget_t) (c : buffer_budget_cost_t).
Implicit Types (self : buffer_queue_t) (r : buffer_budget_reservation_t) (b : sbuf_t).

Lemma cost_eq c d : (forall a, get a c = get a d) -> c = d.
Proof. destruct c, d. intros H. f_equal; [apply (H Bytes)|apply (H Charge)]. Qed.

Lemma get_add a c d : get a (add_cost c d) = get a c + get a d.
Proof. by destruct a. Qed.

Lemma get_sub a c d : get a (sub_cost c d) = get a c - get a d.
Proof. by destruct a. Qed.

Lemma queue_charge_good b : good b -> sbufGetQueueCharge b = Ok (64 + capacity b).
Proof.
  intros [[] _]. unfold sbufGetQueueCharge, sbufGetTotalCapacity.
  change (SIZEOF_STRUCT_SBUF +64 kSbufAllocationAlignment) with 64.
  rewrite assert_bind by (apply Z.leb_le; rewrite wrap64_small by word_lia; word_lia).
  by rewrite wrap64_small by word_lia.
Qed.

Lemma try_cost_good b : good b -> bufferbudgetTryGetCost b = Some (buf_cost b).
Proof.
  intros [[] _]. unfold bufferbudgetTryGetCost, sbufTryGetQueueCharge, sbufTryComputeQueueCharge.
  unfold sbufGetTotalCapacity. change (SIZEOF_STRUCT_SBUF +64 kSbufAllocationAlignment) with 64.
  destruct (Z.gtb_spec (capacity b) (SIZE_MAX -64 64)) as [X|_].
  { rewrite wrap64_small in X by word_lia. word_lia. }
  by rewrite wrap64_small by word_lia.
Qed.

Lemma buf_cost_range b a : good b -> 0 <= get a (buf_cost b) <= 64 + UINT32_MAX.
Proof. intros [[] _]. destruct a; simpl; word_lia. Qed.

Lemma sum_costs_nonneg a bufs : Forall good bufs -> 0 <= sum_costs a bufs.
Proof.
  induction 1 as [|b l G _ IH]; simpl; [lia|]. pose proof (buf_cost_range b a G). lia.
Qed.

Lemma sum_costs_snoc a bufs b : sum_costs a (bufs ++ [b]) = sum_costs a bufs + get a (buf_cost b).
Proof. induction bufs as [|b' l IH]; simpl; [lia|]. unfold sum_costs in *. rewrite IH. lia. Qed.

Lemma queue_range self a : queue_ok self -> 0 <= get a (queue_cost self) <= SIZE_MAX.
Proof.
  intros [G T R]. specialize (R a). rewrite T in *. split; [by apply sum_costs_nonneg|done].
Qed.

(** ** The budget operations *)

Lemma acquire_spec bs k x c :
  bs !! k = Some x -> budget_ok x -> (forall a, 0 <= get a c) ->
  (fits x c /\ acquire_at bs k c = Ok (true, <[k := set_used x (add_cost (used x) c)]> bs)) \/
  (~ fits x c /\ acquire_at bs k c = Ok (false, bs)).
Proof.
  intros Hk [U L] Hc. unfold acquire_at, bufferbudgetTryAcquire. rewrite Hk.
  pose proof (U Bytes) as UB. pose proof (U Charge) as UC. pose proof (L Bytes) as LB.
  pose proof (L Charge) as LC. pose proof (Hc Bytes) as CB. pose proof (Hc Charge) as CC. simpl in *.
  rewrite assert_bind by (apply andb_true_iff; split; apply Z.leb_le; lia).
  rewrite !(wrap64_small (_ - _)) by word_lia.
  destruct (Z.gtb_spec (bytes c) (bytes (limits x) - bytes (used x))) as [X|X]; simpl.
  { right. rewrite list_insert_id by done. split; [|done]. intros F. specialize (F Bytes). simpl in F. lia. }
  destruct (Z.gtb_spec (charge c) (charge (limits x) - charge (used x))) as [Y|Y]; simpl.
  { right. rewrite list_insert_id by done. split; [|done]. intros F. specialize (F Charge). simpl in F. lia. }
  left. split; [intros []; simpl; lia|]. by rewrite !wrap64_small by word_lia.
Qed.

Lemma release_spec bs k x c :
  bs !! k = Some x -> budget_ok x -> (forall a, 0 <= get a c <= get a (used x)) ->
  release_at bs k c = Ok (<[k := set_used x (sub_cost (used x) c)]> bs).
Proof.
  intros Hk [U L] Hc. unfold release_at, bufferbudgetRelease. rewrite Hk.
  pose proof (U Bytes) as UB. pose proof (U Charge) as UC. pose proof (L Bytes) as LB.
  pose proof (L Charge) as LC. pose proof (Hc Bytes) as CB. pose proof (Hc Charge) as CC. simpl in *.
  rewrite abort_bind by (apply orb_false_iff; split; rewrite Z.gtb_ltb; apply Z.ltb_ge; lia).
  simpl. by rewrite !wrap64_small by word_lia.
Qed.

Lemma paid_some a k k' c : paid a k (Some k') c = if decide (k' = k) then get a c else 0.
Proof. unfold paid. case_bool_decide; case_decide; congruence. Qed.

Lemma rebalanced_id bs before after :
  Forall budget_ok bs -> (forall a k, before a k = after a k) -> rebalanced bs bs before after.
Proof.
  intros F E. split; [done|]. intros k x Hk. exists x. splits; auto.
  - by eapply Forall_lookup_1.
  - intros a. rewrite E. lia.
Qed.

(** Replacing the usage of one budget. *)
Lemma rebalanced_set bs k x c before after :
  Forall budget_ok bs -> bs !! k = Some x -> (forall a, 0 <= get a c <= get a (limits x)) ->
  (forall a k', after a k' = before a k' +
     if decide (k' = k) then get a c - get a (used x) else 0) ->
  rebalanced bs (<[k := set_used x c]> bs) before after.
Proof.
  intros F Hk R E. split; [apply length_insert|]. intros k' x' Hk'.
  pose proof (lookup_lt_Some _ _ _ Hk).
  destruct (decide (k' = k)) as [->|N].
  - rewrite Hk in Hk'. injection Hk' as <-. exists (set_used x c).
    rewrite list_lookup_insert_eq by done. destruct (Forall_lookup_1 _ _ _ _ F Hk) as [U L].
    splits; auto; [by split|]. intros a. rewrite E, decide_True by done. simpl. lia.
  - exists x'. rewrite list_lookup_insert_ne by done. splits; auto; [by eapply Forall_lookup_1|].
    intros a. rewrite E, decide_False by done. lia.
Qed.

Lemma rebalanced_acquire bs k x c before after :
  Forall budget_ok bs -> bs !! k = Some x -> (forall a, 0 <= get a c) -> fits x c ->
  (forall a k', after a k' = before a k' + paid a k' (Some k) c) ->
  rebalanced bs (<[k := set_used x (add_cost (used x) c)]> bs) before after.
Proof.
  intros F Hk Hc Fi E. destruct (Forall_lookup_1 _ _ _ _ F Hk) as [U L].
  apply rebalanced_set; auto.
  - intros a. rewrite get_add. specialize (U a). specialize (Hc a). specialize (Fi a). lia.
  - intros a k'. rewrite E, paid_some, get_add. repeat case_decide; try congruence; lia.
Qed.

Lemma rebalanced_release bs k x c before after :
  Forall budget_ok bs -> bs !! k = Some x -> (forall a, 0 <= get a c <= get a (used x)) ->
  (forall a k', before a k' = after a k' + paid a k' (Some k) c) ->
  rebalanced bs (<[k := set_used x (sub_cost (used x) c)]> bs) before after.
Proof.
  intros F Hk Hc E. destruct (Forall_lookup_1 _ _ _ _ F Hk) as [U L].
  apply rebalanced_set; auto.
  - intros a. rewrite get_sub. specialize (U a). specialize (Hc a). lia.
  - intros a k'. rewrite (E a k'), paid_some, get_sub. repeat case_decide; try congruence; lia.
Qed.

Lemma rebalanced_trans bs bs1 bs2 before middle after :
  rebalanced bs bs1 before middle -> rebalanced bs1 bs2 middle after -> rebalanced bs bs2 before after.
Proof.
  intros [L1 R1] [L2 R2]. split; [congruence|]. intros k x Hx.
  destruct (R1 k x Hx) as (y & Hy & _ & Ly & Uy). destruct (R2 k y Hy) as (z & Hz & ? & Lz & Uz).
  exists z. splits; auto; [congruence|]. intros a. rewrite Uz, Uy. lia.
Qed.

Lemma rebalanced_ok bs bs' before after : rebalanced bs bs' before after -> Forall budget_ok bs'.
Proof.
  intros [L R]. apply Forall_lookup_2. intros k x' Hk. pose proof (lookup_lt_Some _ _ _ Hk) as Lk.
  rewrite L in Lk. apply lookup_lt_is_Some_2 in Lk as (x & Hx). destruct (R k x Hx) as (y & Hy & ? & _).
  by simplify_eq.
Qed.

(** ** The queue operations *)

Section Insertion.
Context (deque_reserve : Z -> bool).
Context (bs : list buffer_budget_t) (self : buffer_queue_t) (b : sbuf_t) (front : bool).
Context (Hbs : Forall budget_ok bs) (Hq : queue_ok self) (Hb : good b).
Context (Hbound : bound bs (q_budget self)).

Definition inserted : buffer_queue_t :=
  mk_queue (q_budget self) (if front then b :: q_bufs self else q_bufs self ++ [b])
    (total_len self + len b) (total_charge self + (64 + capacity b)).

(** There is storage for the entry and the totals stay representable. *)
Definition insertable : Prop :=
  bufferqueueReserveExtra deque_reserve self 1 = true /\
  forall a, get a (queue_cost self) + get a (buf_cost b) <= SIZE_MAX.

Lemma inserted_cost a : get a (queue_cost inserted) = get a (queue_cost self) + get a (buf_cost b).
Proof. by destruct a. Qed.

Lemma inserted_ok : (forall a, get a (queue_cost self) + get a (buf_cost b) <= SIZE_MAX) -> queue_ok inserted.
Proof.
  intros R. destruct Hq as [G T _]. split; simpl.
  - destruct front; [by constructor|]. apply Forall_app. auto.
  - intros a. rewrite inserted_cost, T. destruct front; simpl; [lia|]. by rewrite sum_costs_snoc.
  - intros a. by rewrite inserted_cost.
Qed.

Lemma pay_inserted a k : pay_q inserted a k = pay_q self a k + paid a k (q_budget self) (buf_cost b).
Proof. unfold pay_q, paid. simpl. case_bool_decide; [by rewrite inserted_cost|lia]. Qed.

(** The tests and the push of [bufferqueueTryInsert] around the admission. *)
Lemma insert_frame reservation :
  let totals_fit := forall a, get a (queue_cost self) + get a (buf_cost b) <= SIZE_MAX in
  (~ totals_fit /\ bufferqueueTryInsert deque_reserve bs self b front reservation =
     Ok (false, bs, self, reservation)) \/
  (totals_fit /\ bufferqueueTryInsert deque_reserve bs self b front reservation =
     ('(admitted, bs') ←
        match reservation, q_budget self with
        | Some r, _ =>
            _ ← assert_ (bool_decide (is_Some (q_budget self)) &&
                         bool_decide (r_budget r = q_budget self));
            _ ← assert_ ((bytes (r_cost r) =? len b) && (charge (r_cost r) =? 64 + capacity b));
            mret (true, bs)
        | None, Some k => acquire_at bs k (buf_cost b)
        | None, None => mret (true, bs)
        end;
      if negb admitted then mret (false, bs', self, reservation)
      else if negb (bufferqueueReserveExtra deque_reserve self 1) then
        bs' ← match q_budget self, reservation with
              | Some k, None => release_at bs' k (buf_cost b)
              | _, _ => mret bs'
              end;
        mret (false, bs', self, reservation)
      else mret (true, bs', inserted, (fun _ => empty_reservation) <$> reservation))).
Proof.
  cbv zeta. unfold bufferqueueTryInsert. rewrite (try_cost_good b Hb).
  pose proof (buf_cost_range b Bytes Hb) as RB. pose proof (buf_cost_range b Charge Hb) as RC.
  pose proof (queue_range self Bytes Hq) as QB. pose proof (queue_range self Charge Hq) as QC.
  simpl in RB, RC, QB, QC. cbn [buf_cost bytes charge].
  rewrite !(wrap64_small (SIZE_MAX - _)) by word_lia.
  destruct (Z.gtb_spec (total_charge self) (SIZE_MAX - (64 + capacity b))) as [X|X].
  { left. split; [|done]. intros F. specialize (F Charge). simpl in F. lia. }
  destruct (Z.gtb_spec (total_len self) (SIZE_MAX - len b)) as [Y|Y].
  { left. split; [|done]. intros F. specialize (F Bytes). simpl in F. lia. }
  right. split; [intros []; simpl; lia|]. simpl. f_equal.
  rewrite (queue_charge_good b Hb). simpl. rewrite Z.eqb_refl. simpl.
  by rewrite !wrap64_small by word_lia.
Qed.

(** The budget the queue is bound to, if any, can pay for the entry. *)
Definition affordable : Prop :=
  forall k x, q_budget self = Some k -> bs !! k = Some x -> fits x (buf_cost b).

Lemma insert_spec :
  (insertable /\ affordable /\
     exists bs', bufferqueueTryInsert deque_reserve bs self b front None =
       Ok (true, bs', inserted, None) /\ queue_ok inserted /\
       rebalanced bs bs' (pay_q self) (pay_q inserted)) \/
  (~ (insertable /\ affordable) /\
     bufferqueueTryInsert deque_reserve bs self b front None = Ok (false, bs, self, None)).
Proof.
  destruct (insert_frame None) as [[N ->]|[T ->]]; [right; split; [by intros [[_ ?] _]|done]|].
  pose proof (inserted_ok T) as Ok'. pose proof (fun a => buf_cost_range b a Hb) as Rb.
  destruct (q_budget self) as [k|] eqn:Ek.
  - destruct (Hbound k eq_refl) as (x & Hx). pose proof (Forall_lookup_1 _ _ _ _ Hbs Hx) as Bx.
    destruct (acquire_spec bs k x (buf_cost b) Hx Bx) as [[Fi ->]|[N ->]]; [apply Rb| |].
    2:{ right. split; [|done]. intros [_ A]. by apply N, (A k). }
    assert (affordable) as A by (intros k' x' E' Hx'; simplify_eq; done).
    simpl. destruct (bufferqueueReserveExtra deque_reserve self 1) eqn:Er; simpl.
    + left. splits; [by split|done|]. eexists. splits; [done|done|].
      apply rebalanced_acquire; auto; [apply Rb|]. intros a k'. by rewrite pay_inserted, Ek.
    + right. split; [intros [[X _] _]; congruence|].
      pose proof (lookup_lt_Some _ _ _ Hx) as Lk. destruct Bx as [U L].
      rewrite (release_spec _ k (set_used x (add_cost (used x) (buf_cost b)))).
      * simpl. rewrite list_insert_insert_eq, list_insert_id; [done|]. rewrite Hx. f_equal.
        destruct x as [l u]. unfold set_used. simpl. f_equal.
        apply cost_eq. intros a. rewrite get_sub, get_add. lia.
      * by apply list_lookup_insert_eq.
      * split; simpl; [|done]. intros a. rewrite get_add. specialize (U a). specialize (Rb a).
        specialize (Fi a). lia.
      * intros a. simpl. rewrite get_add. specialize (U a). specialize (Rb a). lia.
  - simpl. assert (affordable) as A by (intros k' x' E'; congruence).
    destruct (bufferqueueReserveExtra deque_reserve self 1) eqn:Er; simpl.
    + left. splits; [by split|done|]. exists bs. splits; [done|done|].
      apply rebalanced_id; [done|]. intros a k. rewrite pay_inserted, Ek. unfold paid. simpl. lia.
    + right. split; [intros [[X _] _]; congruence|done].
Qed.

Lemma insert_reserved_spec r :
  is_Some (q_budget self) -> r_budget r = q_budget self -> r_cost r = buf_cost b ->
  (insertable /\
     bufferqueueTryInsert deque_reserve bs self b front (Some r) =
       Ok (true, bs, inserted, Some empty_reservation) /\ queue_ok inserted /\
     forall a k, pay_q inserted a k = pay_q self a k + pay_r r a k) \/
  (~ insertable /\
     bufferqueueTryInsert deque_reserve bs self b front (Some r) = Ok (false, bs, self, Some r)).
Proof.
  intros Sb Er Ec.
  destruct (insert_frame (Some r)) as [[N ->]|[T ->]]; [right; split; [by intros [_ ?]|done]|].
  rewrite Er, Ec. cbn [buf_cost bytes charge].
  rewrite (bool_decide_eq_true_2 _ Sb), bool_decide_eq_true_2, !Z.eqb_refl by done. simpl.
  destruct (bufferqueueReserveExtra deque_reserve self 1) eqn:Ex; simpl.
  - left. splits; [by split|done|by apply inserted_ok|]. intros a k.
    unfold pay_r. by rewrite pay_inserted, Er, Ec.
  - right. split; [intros [X _]; congruence|]. by destruct (q_budget self).
Qed.
End Insertion.

(** Removing the front entry. *)
Definition popped self (bufs : list sbuf_t) b : buffer_queue_t :=
  mk_queue (q_budget self) bufs (total_len self - len b) (total_charge self - (64 + capacity b)).

Lemma popped_ok self bufs b :
  queue_ok self -> q_bufs self = b :: bufs ->
  queue_ok (popped self bufs b) /\
  (forall a, get a (buf_cost b) <= get a (queue_cost self)) /\
  forall a k, pay_q self a k = pay_q (popped self bufs b) a k + paid a k (q_budget self) (buf_cost b).
Proof.
  intros [G T R] E. rewrite E in G. apply Forall_cons in G as [Gb G].
  assert (forall a, get a (queue_cost (popped self bufs b)) =
            get a (queue_cost self) - get a (buf_cost b)) as C by (by intros []).
  assert (forall a, get a (queue_cost self) = get a (buf_cost b) + sum_costs a bufs) as D.
  { intros a. by rewrite T, E. }
  splits.
  - split; simpl; [done| |]; intros a; rewrite C, D; [lia|].
    pose proof (buf_cost_range b a Gb). specialize (R a). rewrite D in R. lia.
  - intros a. rewrite D. pose proof (sum_costs_nonneg a bufs G). lia.
  - intros a k. unfold pay_q, paid. simpl. rewrite C. case_bool_decide; lia.
Qed.

Lemma pop_frame bs self bufs b reservation :
  queue_ok self -> q_bufs self = b :: bufs ->
  bufferqueuePop bs self reservation =
  match q_budget self, reservation with
  | None, _ => Ok (Some b, bs, popped self bufs b, reservation)
  | Some k, Some _ => Ok (Some b, bs, popped self bufs b, Some (mk_reservation (Some k) (buf_cost b)))
  | Some k, None => bs ← release_at bs k (buf_cost b); Ok (Some b, bs, popped self bufs b, None)
  end.
Proof.
  intros Hq E. destruct (popped_ok self bufs b Hq E) as (_ & Le & _).
  pose proof (Le Bytes) as LB. pose proof (Le Charge) as LC.
  pose proof (queue_range self Bytes Hq) as QB. pose proof (queue_range self Charge Hq) as QC.
  simpl in *. pose proof (qo_good _ Hq) as G. rewrite E in G. apply Forall_cons in G as [Gb _].
  pose proof (buf_cost_range b Bytes Gb) as RB. pose proof (buf_cost_range b Charge Gb) as RC.
  simpl in RB, RC.
  unfold bufferqueuePop. rewrite E, (queue_charge_good b Gb). simpl. unfold sbufGetLength.
  rewrite assert_bind by (apply andb_true_iff; split; rewrite Z.geb_leb; apply Z.leb_le; lia).
  by rewrite !wrap64_small by word_lia.
Qed.
End Specs.

(** ** All owners together *)

Section Ledger.
Context {P : Type} `{PoolLaws P} (deque_reserve : Z -> bool).

(** The budgets of a worker with every queue and reservation that pays to them. *)
Record ledger : Type := mk_ledger {
  budgets : list buffer_budget_t;
  queues : list buffer_queue_t;
  reservations : list buffer_budget_reservation_t;
  worker_pool : P
}.

Inductive queue_op : Type :=
  | OpPush (i : nat) (front : bool) (b : sbuf_t)
  | OpPushReserved (i j : nat) (front : bool) (b : sbuf_t)
  | OpPop (i : nat)
  | OpPopReserved (i j : nat)
  | OpAttach (i k : nat)
  | OpRebind (i k : nat)
  | OpReserve (k j : nat) (b : sbuf_t)
  | OpReduce (j : nat) (remaining : buffer_budget_cost_t)
  | OpRelease (j : nat)
  | OpDestroy (i : nat).

Definition fetch {A} (o : option A) : outcome A :=
  match o with Some a => mret a | None => Fail MemoryFault end.

(** Runs one call on the queue [i], the reservation [j] and the budget [k]. *)
Definition run_queue_op (s : ledger) (o : queue_op) : outcome ledger :=
  let '(mk_ledger bs qs rs p) := s in
  match o with
  | OpPush i front b =>
      q ← fetch (qs !! i);
      '(_, bs, q, _) ← bufferqueueTryInsert deque_reserve bs q b front None;
      mret (mk_ledger bs (<[i := q]> qs) rs p)
  | OpPushReserved i j front b =>
      q ← fetch (qs !! i); r ← fetch (rs !! j);
      '(_, bs, q, r') ← bufferqueueTryInsert deque_reserve bs q b front (Some r);
      mret (mk_ledger bs (<[i := q]> qs) (<[j := default r r']> rs) p)
  | OpPop i =>
      q ← fetch (qs !! i);
      '(_, bs, q, _) ← bufferqueuePopFront bs q;
      mret (mk_ledger bs (<[i := q]> qs) rs p)
  | OpPopReserved i j =>
      q ← fetch (qs !! i); r ← fetch (rs !! j);
      '(_, bs, q, r') ← bufferqueuePopFrontReserved bs q r;
      mret (mk_ledger bs (<[i := q]> qs) (<[j := default r r']> rs) p)
  | OpAttach i k =>
      q ← fetch (qs !! i);
      '(_, bs, q) ← bufferqueueTryAttachBudget bs q k;
      mret (mk_ledger bs (<[i := q]> qs) rs p)
  | OpRebind i k =>
      q ← fetch (qs !! i);
      '(_, bs, q) ← bufferqueueTryRebindBudget bs q k;
      mret (mk_ledger bs (<[i := q]> qs) rs p)
  | OpReserve k j b =>
      r ← fetch (rs !! j);
      '(_, bs, r) ← bufferbudgetTryReserve bs k b r;
      mret (mk_ledger bs qs (<[j := r]> rs) p)
  | OpReduce j remaining =>
      r ← fetch (rs !! j);
      '(bs, r) ← bufferbudgetReservationReduce bs r remaining;
      mret (mk_ledger bs qs (<[j := r]> rs) p)
  | OpRelease j =>
      r ← fetch (rs !! j);
      '(bs, r) ← bufferbudgetReservationRelease bs r;
      mret (mk_ledger bs qs (<[j := r]> rs) p)
  | OpDestroy i =>
      q ← fetch (qs !! i);
      '(bs, q, p) ← bufferqueueDestroy bs q p;
      mret (mk_ledger bs (<[i := q]> qs) rs p)
  end.

(** What the interface asks of the caller. *)
Definition admissible (s : ledger) (o : queue_op) : Prop :=
  let queue i := exists q, queues s !! i = Some q in
  let budget k := exists x, budgets s !! k = Some x in
  match o with
  | OpPush i _ b => queue i /\ good b
  | OpPushReserved i j _ b => exists q r, queues s !! i = Some q /\ reservations s !! j = Some r /\
      is_Some (q_budget q) /\ r_budget r = q_budget q /\ r_cost r = buf_cost b /\ good b
  | OpPop i => queue i
  | OpPopReserved i j => exists q r, queues s !! i = Some q /\ reservations s !! j = Some r /\
      is_Some (q_budget q) /\ r_budget r = None
  | OpAttach i k => budget k /\ exists q, queues s !! i = Some q /\ q_budget q = None
  | OpRebind i k => budget k /\ exists q, queues s !! i = Some q /\ is_Some (q_budget q)
  | OpReserve k j b => budget k /\ good b /\ exists r, reservations s !! j = Some r /\ r_budget r = None
  | OpReduce j c => exists r, reservations s !! j = Some r /\ is_Some (r_budget r) /\
      forall a, 0 <= get a c <= get a (r_cost r)
  | OpRelease j => exists r, reservations s !! j = Some r
  | OpDestroy i => queue i
  end.

Inductive ledger_reachable : ledger -> Prop :=
  | reach_start lims n m p :
      Forall (fun l => forall a, 0 <= get a l <= SIZE_MAX) lims -> pool_inv p ->
      ledger_reachable (mk_ledger (bufferbudgetInit <$> lims) (replicate n bufferqueueInitEmpty)
                          (replicate m empty_reservation) p)
  | reach_call s o s' :
      ledger_reachable s -> admissible s o -> run_queue_op s o = Ok s' -> ledger_reachable s'.

(** What all owners together pay to budget [k]. *)
Definition owed (qs : list buffer_queue_t) (rs : list buffer_budget_reservation_t)
    (a : component) (k : nat) : Z :=
  zsum (fun q => pay_q q a k) qs + zsum (fun r => pay_r r a k) rs.

Record accounted (s : ledger) : Prop := mk_accounted {
  ac_budgets : Forall budget_ok (budgets s);
  ac_used : forall k x a, budgets s !! k = Some x -> get a (used x) = owed (queues s) (reservations s) a k;
  ac_queues : Forall (fun q => queue_ok q /\ bound (budgets s) (q_budget q)) (queues s);
  ac_reservations :
    Forall (fun r => reservation_ok r /\ bound (budgets s) (r_budget r)) (reservations s);
  ac_pool : pool_inv (worker_pool s)
}.

Lemma bound_same bs bs' o : length bs' = length bs -> bound bs o -> bound bs' o.
Proof.
  intros L B k E. destruct (B k E) as (x & Hx). apply lookup_lt_is_Some_2. rewrite L.
  by apply lookup_lt_Some in Hx.
Qed.

Lemma pay_q_nonneg q a k : queue_ok q -> 0 <= pay_q q a k.
Proof.
  intros Hq. unfold pay_q, paid. case_bool_decide; [|lia]. by apply queue_range.
Qed.

Lemma pay_r_nonneg r a k : reservation_ok r -> 0 <= pay_r r a k.
Proof. intros [R]. unfold pay_r, paid. case_bool_decide; [apply R|lia]. Qed.

Section Accounted.
Context (s : ledger) (Hs : accounted s).

Lemma queues_nonneg a k : Forall (fun q => 0 <= pay_q q a k) (queues s).
Proof. eapply Forall_impl; [apply Hs|]. intros q [? _]. by apply pay_q_nonneg. Qed.

Lemma reservations_nonneg a k : Forall (fun r => 0 <= pay_r r a k) (reservations s).
Proof. eapply Forall_impl; [apply Hs|]. intros r [? _]. by apply pay_r_nonneg. Qed.

(** No owner pays more than its budget was charged. *)
Lemma queue_funded i q : queues s !! i = Some q -> funded (budgets s) (pay_q q).
Proof.
  intros Hi k x a Hk. rewrite (ac_used _ Hs k x a Hk). unfold owed.
  pose proof (zsum_bound _ _ i q (queues_nonneg a k) Hi).
  pose proof (zsum_nonneg _ _ (reservations_nonneg a k)). lia.
Qed.

Lemma reservation_funded j r : reservations s !! j = Some r -> funded (budgets s) (pay_r r).
Proof.
  intros Hj k x a Hk. rewrite (ac_used _ Hs k x a Hk). unfold owed.
  pose proof (zsum_bound _ _ j r (reservations_nonneg a k) Hj).
  pose proof (zsum_nonneg _ _ (queues_nonneg a k)). lia.
Qed.

(** A call that changes one queue, one reservation and the budgets keeps the
    books when the budgets follow the change of what the two pay. *)
Lemma accounted_update bs' qs' rs' p' before after :
  rebalanced (budgets s) bs' before after ->
  (forall a k, owed qs' rs' a k =
     owed (queues s) (reservations s) a k - before a k + after a k) ->
  Forall (fun q => queue_ok q /\ bound (budgets s) (q_budget q)) qs' ->
  Forall (fun r => reservation_ok r /\ bound (budgets s) (r_budget r)) rs' ->
  pool_inv p' -> accounted (mk_ledger bs' qs' rs' p').
Proof.
  intros [L R] O Fq Fr Hp.
  assert (forall k x', bs' !! k = Some x' -> exists x, budgets s !! k = Some x /\ budget_ok x' /\
    forall a, get a (used x') = get a (used x) - before a k + after a k) as Back.
  { intros k x' Hk'. pose proof (lookup_lt_Some _ _ _ Hk') as Lk. rewrite L in Lk.
    apply lookup_lt_is_Some_2 in Lk as (x & Hx). destruct (R k x Hx) as (y & Hy & ? & _ & ?).
    rewrite Hk' in Hy. injection Hy as <-. eauto. }
  split; simpl; auto.
  - apply Forall_lookup_2. intros k x' Hk'. by destruct (Back k x' Hk') as (? & ? & ? & _).
  - intros k x' a Hk'. destruct (Back k x' Hk') as (x & Hx & _ & ->).
    by rewrite O, (ac_used _ Hs k x a Hx).
  - eapply Forall_impl; [exact Fq|]. intros q [? ?]. split; [done|by eapply bound_same].
  - eapply Forall_impl; [exact Fr|]. intros r [? ?]. split; [done|by eapply bound_same].
Qed.

Lemma accounted_queue bs' i q q' p' :
  queues s !! i = Some q -> queue_ok q' -> bound (budgets s) (q_budget q') -> pool_inv p' ->
  rebalanced (budgets s) bs' (pay_q q) (pay_q q') ->
  accounted (mk_ledger bs' (<[i := q']> (queues s)) (reservations s) p').
Proof.
  intros Hi Hq' Hb Hp R. eapply accounted_update; [exact R| | |apply Hs|done].
  - intros a k. unfold owed. rewrite (zsum_insert _ _ i q q' Hi). lia.
  - apply Forall_insert; [apply Hs|by split].
Qed.

Lemma accounted_reservation bs' j r r' :
  reservations s !! j = Some r -> reservation_ok r' -> bound (budgets s) (r_budget r') ->
  rebalanced (budgets s) bs' (pay_r r) (pay_r r') ->
  accounted (mk_ledger bs' (queues s) (<[j := r']> (reservations s)) (worker_pool s)).
Proof.
  intros Hj Hr' Hb R. eapply accounted_update; [exact R| |apply Hs| |apply Hs].
  - intros a k. unfold owed. rewrite (zsum_insert _ _ j r r' Hj). lia.
  - apply Forall_insert; [apply Hs|by split].
Qed.

(** Moving a cost between a queue and a reservation leaves the budgets alone. *)
Lemma accounted_transfer i q q' j r r' :
  queues s !! i = Some q -> reservations s !! j = Some r ->
  queue_ok q' -> bound (budgets s) (q_budget q') ->
  reservation_ok r' -> bound (budgets s) (r_budget r') ->
  (forall a k, pay_q q' a k + pay_r r' a k = pay_q q a k + pay_r r a k) ->
  accounted (mk_ledger (budgets s) (<[i := q']> (queues s)) (<[j := r']> (reservations s))
               (worker_pool s)).
Proof.
  intros Hi Hj Hq' Bq Hr' Br E.
  eapply (accounted_update _ _ _ _ (fun _ _ => 0) (fun _ _ => 0)); [| | | |apply Hs].
  - apply rebalanced_id; [apply Hs|done].
  - intros a k. unfold owed. rewrite (zsum_insert _ _ i q q' Hi), (zsum_insert _ _ j r r' Hj).
    specialize (E a k). lia.
  - apply Forall_insert; [apply Hs|by split].
  - apply Forall_insert; [apply Hs|by split].
Qed.

Definition call_ok (o : queue_op) : Prop := exists s', run_queue_op s o = Ok s' /\ accounted s'.

Lemma queue_at i q : queues s !! i = Some q -> queue_ok q /\ bound (budgets s) (q_budget q).
Proof. intros Hi. by apply (Forall_lookup_1 _ _ _ _ (ac_queues _ Hs) Hi). Qed.

Lemma reservation_at j r :
  reservations s !! j = Some r -> reservation_ok r /\ bound (budgets s) (r_budget r).
Proof. intros Hj. by apply (Forall_lookup_1 _ _ _ _ (ac_reservations _ Hs) Hj). Qed.

Lemma budget_at k x : budgets s !! k = Some x -> budget_ok x.
Proof. intros Hk. by apply (Forall_lookup_1 _ _ _ _ (ac_budgets _ Hs) Hk). Qed.

(** The charge of an owner can be given back to its budget. *)
Lemma release_funded k owner c (x : buffer_budget_t) :
  owner = Some k -> budgets s !! k = Some x -> (forall a, 0 <= get a c) ->
  funded (budgets s) (fun a k => paid a k owner c) ->
  release_at (budgets s) k c = Ok (<[k := set_used x (sub_cost (used x) c)]> (budgets s)) /\
  forall a, 0 <= get a c <= get a (used x).
Proof.
  intros -> Hx Hc F. assert (forall a, 0 <= get a c <= get a (used x)) as R.
  { intros a. specialize (F k x a Hx). cbv beta in F. rewrite paid_some, decide_True in F by done.
    specialize (Hc a). lia. }
  split; [|done]. by apply release_spec; [| |done]; [|eapply budget_at].
Qed.

Lemma call_push i front b : admissible s (OpPush i front b) -> call_ok (OpPush i front b).
Proof.
  intros [(q & Hi) Hb]. destruct (queue_at i q Hi) as [Hq Bq]. unfold call_ok.
  destruct (insert_spec deque_reserve (budgets s) q b front (ac_budgets _ Hs) Hq Hb Bq)
    as [(_ & _ & bs' & E & Hq' & R)|[_ E]].
  - exists (mk_ledger bs' (<[i := inserted q b front]> (queues s)) (reservations s) (worker_pool s)).
    split; [|by eapply accounted_queue; try done; apply Hs].
    destruct s as [bs qs rs p]. simpl in *. rewrite Hi. simpl. by rewrite E.
  - exists s. split; [|done]. destruct s as [bs qs rs p]. simpl in *. rewrite Hi. simpl. rewrite E.
    simpl. by rewrite list_insert_id.
Qed.

Lemma call_push_reserved i j front b :
  admissible s (OpPushReserved i j front b) -> call_ok (OpPushReserved i j front b).
Proof.
  intros (q & r & Hi & Hj & Sb & Er & Ec & Hb). destruct (queue_at i q Hi) as [Hq Bq].
  unfold call_ok.
  destruct (insert_reserved_spec deque_reserve (budgets s) q b front Hq Hb Bq r Sb Er Ec)
    as [(_ & E & Hq' & Pay)|[_ E]].
  - exists (mk_ledger (budgets s) (<[i := inserted q b front]> (queues s))
              (<[j := empty_reservation]> (reservations s)) (worker_pool s)).
    split.
    + destruct s as [bs qs rs p]. simpl in *. rewrite Hi, Hj. simpl. by rewrite E.
    + eapply accounted_transfer; try done.
      * split. by intros [].
      * intros a k. rewrite Pay. change (pay_r empty_reservation a k) with 0. lia.
  - exists s. split; [|done]. destruct s as [bs qs rs p]. simpl in *. rewrite Hi, Hj. simpl.
    rewrite E. simpl. by rewrite !list_insert_id.
Qed.

Lemma call_pop i : admissible s (OpPop i) -> call_ok (OpPop i).
Proof.
  intros (q & Hi). destruct (queue_at i q Hi) as [Hq Bq]. unfold call_ok.
  destruct (q_bufs q) as [|b bufs] eqn:Eb.
  { exists s. split; [|done]. destruct s as [bs qs rs p]. simpl in *. rewrite Hi. simpl.
    unfold bufferqueuePopFront, bufferqueuePop. rewrite Eb. simpl. by rewrite list_insert_id. }
  destruct (popped_ok q bufs b Hq Eb) as (Hq' & Le & Pay).
  pose proof (qo_good _ Hq) as G. rewrite Eb in G. apply Forall_cons in G as [Gb _].
  pose proof (pop_frame (budgets s) q bufs b None Hq Eb) as E.
  destruct (q_budget q) as [k|] eqn:Ek.
  - destruct (Bq k eq_refl) as (x & Hx).
    destruct (release_funded k (Some k) (buf_cost b) x eq_refl Hx) as [Er Rx].
    { intros a. by apply buf_cost_range. }
    { intros k' x' a Hx'. pose proof (queue_funded i q Hi k' x' a Hx') as F.
      rewrite Pay in F. pose proof (pay_q_nonneg _ a k' Hq'). lia. }
    exists (mk_ledger (<[k := set_used x (sub_cost (used x) (buf_cost b))]> (budgets s))
              (<[i := popped q bufs b]> (queues s)) (reservations s) (worker_pool s)).
    split.
    + destruct s as [bs qs rs p]. simpl in *. rewrite Hi. simpl. unfold bufferqueuePopFront.
      by rewrite E, Er.
    + eapply accounted_queue; try done; [simpl; by rewrite Ek|apply Hs|].
      apply rebalanced_release; auto. apply Hs.
  - exists (mk_ledger (budgets s) (<[i := popped q bufs b]> (queues s)) (reservations s) (worker_pool s)).
    split.
    + destruct s as [bs qs rs p]. simpl in *. rewrite Hi. simpl. unfold bufferqueuePopFront.
      by rewrite E.
    + eapply accounted_queue; try done; [simpl; by rewrite Ek|apply Hs|].
      apply rebalanced_id; [apply Hs|]. intros a k. rewrite Pay. unfold paid. simpl. lia.
Qed.

Lemma call_pop_reserved i j : admissible s (OpPopReserved i j) -> call_ok (OpPopReserved i j).
Proof.
  intros (q & r & Hi & Hj & [k Ek] & Er). destruct (queue_at i q Hi) as [Hq Bq]. unfold call_ok.
  assert (bool_decide (is_Some (q_budget q)) && bool_decide (r_budget r = None) = true) as T.
  { rewrite Ek, Er. by rewrite !bool_decide_eq_true_2. }
  destruct (q_bufs q) as [|b bufs] eqn:Eb.
  { exists s. split; [|done]. destruct s as [bs qs rs p]. simpl in *. rewrite Hi, Hj. simpl.
    unfold bufferqueuePopFrontReserved, bufferqueuePop. rewrite assert_bind by done. rewrite Eb. simpl.
    by rewrite !list_insert_id. }
  destruct (popped_ok q bufs b Hq Eb) as (Hq' & Le & Pay).
  pose proof (qo_good _ Hq) as G. rewrite Eb in G. apply Forall_cons in G as [Gb _].
  pose proof (pop_frame (budgets s) q bufs b (Some r) Hq Eb) as E. rewrite Ek in E.
  exists (mk_ledger (budgets s) (<[i := popped q bufs b]> (queues s))
            (<[j := mk_reservation (Some k) (buf_cost b)]> (reservations s)) (worker_pool s)).
  split.
  - destruct s as [bs qs rs p]. simpl in *. rewrite Hi, Hj. simpl.
    unfold bufferqueuePopFrontReserved. rewrite assert_bind by done. by rewrite E.
  - eapply accounted_transfer; try done; [|by rewrite Ek in Bq|].
    + split. intros a. simpl. pose proof (buf_cost_range b a Gb). word_lia.
    + intros a k'. rewrite Pay, Ek. unfold pay_r. rewrite Er. unfold paid at 3. simpl. lia.
Qed.

Lemma call_attach i k : admissible s (OpAttach i k) -> call_ok (OpAttach i k).
Proof.
  intros ((x & Hx) & q & Hi & Ek). destruct (queue_at i q Hi) as [Hq Bq]. unfold call_ok.
  set (q' := mk_queue (Some k) (q_bufs q) (total_len q) (total_charge q)).
  assert (queue_ok q') as Hq' by (destruct Hq; by split).
  pose proof (fun a => proj1 (queue_range q a Hq)) as N.
  destruct (acquire_spec (budgets s) k x (queue_cost q) Hx (budget_at k x Hx) N) as [[Fi E]|[_ E]].
  - eexists (mk_ledger (<[k := set_used x (add_cost (used x) (queue_cost q))]> (budgets s))
               (<[i := q']> (queues s)) (reservations s) (worker_pool s)).
    split.
    + destruct s as [bs qs rs p]. simpl in *. rewrite Hi. simpl. unfold bufferqueueTryAttachBudget.
      rewrite assert_bind by (by rewrite bool_decide_eq_true_2). by rewrite E.
    + eapply accounted_queue; try done; [intros k' [= <-]; by exists x|apply Hs|].
      apply rebalanced_acquire; auto; [apply Hs|]. intros a k'. unfold pay_q. rewrite Ek. simpl.
      unfold paid at 2. simpl. done.
  - exists s. split; [|done]. destruct s as [bs qs rs p]. simpl in *. rewrite Hi. simpl.
    unfold bufferqueueTryAttachBudget. rewrite assert_bind by (by rewrite bool_decide_eq_true_2).
    rewrite E. simpl. by rewrite list_insert_id.
Qed.

Lemma call_rebind i k : admissible s (OpRebind i k) -> call_ok (OpRebind i k).
Proof.
  intros ((x & Hx) & q & Hi & [k0 Ek]). destruct (queue_at i q Hi) as [Hq Bq]. unfold call_ok.
  set (q' := mk_queue (Some k) (q_bufs q) (total_len q) (total_charge q)).
  assert (queue_ok q') as Hq' by (destruct Hq; by split).
  assert (forall E, bufferqueueTryRebindBudget (budgets s) q k = Ok (E, budgets s, q) -> call_ok (OpRebind i k))
    as Same.
  { intros E R. exists s. split; [|done]. destruct s as [bs qs rs p]. simpl in *. rewrite Hi. simpl.
    rewrite R. simpl. by rewrite list_insert_id. }
  unfold bufferqueueTryRebindBudget in *. rewrite Ek in *.
  destruct (decide (k0 = k)) as [->|Nk].
  { apply (Same true). by rewrite bool_decide_eq_true_2. }
  rewrite bool_decide_eq_false_2 in * by done.
  pose proof (fun a => proj1 (queue_range q a Hq)) as N.
  destruct (acquire_spec (budgets s) k x (queue_cost q) Hx (budget_at k x Hx) N) as [[Fi E]|[_ E]].
  2:{ apply (Same false). by rewrite E. }
  destruct (Bq k0 eq_refl) as (x0 & Hx0).
  set (bs1 := <[k := _]> (budgets s)) in E.
  assert (rebalanced (budgets s) bs1 (pay_q q) (fun a k' => pay_q q a k' + pay_q q' a k')) as R1.
  { apply rebalanced_acquire; auto; apply Hs. }
  assert (bs1 !! k0 = Some x0) as Hx1 by (unfold bs1; by rewrite list_lookup_insert_ne).
  destruct (release_funded k0 (Some k0) (queue_cost q) x0 eq_refl Hx0 N) as [_ Rx].
  { intros k' x' a Hx'. pose proof (queue_funded i q Hi k' x' a Hx') as F. unfold pay_q in F.
    by rewrite Ek in F. }
  exists (mk_ledger (<[k0 := set_used x0 (sub_cost (used x0) (queue_cost q))]> bs1)
            (<[i := q']> (queues s)) (reservations s) (worker_pool s)). split.
  - pose proof (release_spec bs1 k0 x0 (queue_cost q) Hx1 (budget_at k0 x0 Hx0) Rx) as E2.
    destruct s as [bs qs rs p]. simpl in *. rewrite Hi. simpl. unfold bufferqueueTryRebindBudget.
    rewrite Ek, bool_decide_eq_false_2 by done. rewrite E. simpl. by rewrite E2.
  - eapply accounted_queue; try done; [intros k' [= <-]; by exists x|apply Hs|].
    eapply rebalanced_trans; [exact R1|]. apply rebalanced_release; auto.
    + by eapply rebalanced_ok.
    + intros a k'. unfold pay_q. rewrite Ek. lia.
Qed.

Lemma call_reserve k j b : admissible s (OpReserve k j b) -> call_ok (OpReserve k j b).
Proof.
  intros ((x & Hx) & Hb & r & Hj & Er). unfold call_ok.
  pose proof (fun a => buf_cost_range b a Hb) as Rb.
  assert (forall a, 0 <= get a (buf_cost b)) as N by apply Rb.
  destruct (acquire_spec (budgets s) k x (buf_cost b) Hx (budget_at k x Hx) N) as [[Fi E]|[_ E]].
  - exists (mk_ledger (<[k := set_used x (add_cost (used x) (buf_cost b))]> (budgets s)) (queues s)
              (<[j := mk_reservation (Some k) (buf_cost b)]> (reservations s)) (worker_pool s)).
    split.
    + destruct s as [bs qs rs p]. simpl in *. rewrite Hj. simpl. unfold bufferbudgetTryReserve.
      rewrite assert_bind by (by rewrite bool_decide_eq_true_2). rewrite (try_cost_good b Hb).
      by rewrite E.
    + eapply accounted_reservation; try done; [split; intros a; specialize (Rb a); simpl; word_lia| |].
      { intros k' [= <-]. by exists x. }
      apply rebalanced_acquire; auto; [apply Hs|]. intros a k'. unfold pay_r. rewrite Er. simpl.
      unfold paid at 2. simpl. done.
  - exists s. split; [|done]. destruct s as [bs qs rs p]. simpl in *. rewrite Hj. simpl.
    unfold bufferbudgetTryReserve. rewrite assert_bind by (by rewrite bool_decide_eq_true_2).
    rewrite (try_cost_good b Hb), E. simpl. by rewrite list_insert_id.
Qed.

(** Giving back a part [c] of what a reservation holds. *)
Lemma reservation_release j r k x c :
  reservations s !! j = Some r -> r_budget r = Some k -> budgets s !! k = Some x ->
  (forall a, 0 <= get a c <= get a (r_cost r)) ->
  release_at (budgets s) k c = Ok (<[k := set_used x (sub_cost (used x) c)]> (budgets s)) /\
  forall a, 0 <= get a c <= get a (used x).
Proof.
  intros Hj Ek Hx Hc. apply (release_funded k (Some k)); auto; [apply Hc|].
  intros k' x' a Hx'. pose proof (reservation_funded j r Hj k' x' a Hx') as F. unfold pay_r in F.
  rewrite Ek in F. unfold paid in *. specialize (Hc a). case_bool_decide; lia.
Qed.

Lemma call_reduce j c : admissible s (OpReduce j c) -> call_ok (OpReduce j c).
Proof.
  intros (r & Hj & [k Ek] & Hc). destruct (reservation_at j r Hj) as [[R] Br]. unfold call_ok.
  destruct (Br k Ek) as (x & Hx). set (d := sub_cost (r_cost r) c).
  assert (forall a, 0 <= get a d <= get a (r_cost r)) as Hd.
  { intros a. unfold d. rewrite get_sub. specialize (Hc a). lia. }
  destruct (reservation_release j r k x d Hj Ek Hx Hd) as [E Rx].
  exists (mk_ledger (<[k := set_used x (sub_cost (used x) d)]> (budgets s)) (queues s)
            (<[j := mk_reservation (Some k) c]> (reservations s)) (worker_pool s)). split.
  - destruct s as [bs qs rs p]. simpl in *. rewrite Hj. simpl. unfold bufferbudgetReservationReduce.
    rewrite Ek. pose proof (Hc Bytes) as CB. pose proof (Hc Charge) as CC.
    pose proof (R Bytes) as RB. pose proof (R Charge) as RC. simpl in CB, CC, RB, RC.
    rewrite assert_bind by (apply andb_true_iff; split; apply Z.leb_le; lia).
    rewrite !wrap64_small by word_lia. unfold d, sub_cost in E. by rewrite E.
  - eapply accounted_reservation; try done.
    + split. intros a. simpl. specialize (R a). specialize (Hc a). lia.
    + intros k' [= <-]. by exists x.
    + apply rebalanced_release; auto; [apply Hs|]. intros a k'. unfold pay_r. rewrite Ek. simpl.
      rewrite !paid_some. unfold d. rewrite get_sub. case_decide; lia.
Qed.

Lemma call_release j : admissible s (OpRelease j) -> call_ok (OpRelease j).
Proof.
  intros (r & Hj). destruct (reservation_at j r Hj) as [[R] Br]. unfold call_ok.
  destruct (r_budget r) as [k|] eqn:Ek.
  2:{ exists s. split; [|done]. destruct s as [bs qs rs p]. simpl in *. rewrite Hj. simpl.
      unfold bufferbudgetReservationRelease. rewrite Ek. simpl. by rewrite list_insert_id. }
  destruct (Br k eq_refl) as (x & Hx).
  destruct (reservation_release j r k x (r_cost r) Hj Ek Hx) as [E Rx].
  { intros a. split; [apply R|lia]. }
  exists (mk_ledger (<[k := set_used x (sub_cost (used x) (r_cost r))]> (budgets s)) (queues s)
            (<[j := empty_reservation]> (reservations s)) (worker_pool s)). split.
  - destruct s as [bs qs rs p]. simpl in *. rewrite Hj. simpl. unfold bufferbudgetReservationRelease.
    rewrite Ek. by rewrite E.
  - eapply accounted_reservation; try done; [split; by intros []|].
    apply rebalanced_release; auto; [apply Hs|]. intros a k'. unfold pay_r at 1. by rewrite Ek.
Qed.

Lemma call_destroy i : admissible s (OpDestroy i) -> call_ok (OpDestroy i).
Proof.
  intros (q & Hi). destruct (queue_at i q Hi) as [Hq Bq]. unfold call_ok.
  destruct (reuse_all_spec (q_bufs q) (worker_pool s) (qo_good _ Hq) (ac_pool _ Hs)) as (p' & Ep & Ip & _).
  assert ((if zlen (q_bufs q) >? 0 then reuse_all (q_bufs q) (worker_pool s) else mret (worker_pool s)) = Ok p')
    as Ep'.
  { destruct (q_bufs q); [done|]. by rewrite <- Ep. }
  assert (queue_ok bufferqueueInitEmpty) as He by (split; [constructor|by intros []|by intros []]).
  pose proof (fun a => proj1 (queue_range q a Hq)) as N.
  destruct (q_budget q) as [k|] eqn:Ek.
  - destruct (Bq k eq_refl) as (x & Hx).
    destruct (release_funded k (Some k) (queue_cost q) x eq_refl Hx N) as [E Rx].
    { intros k' x' a Hx'. pose proof (queue_funded i q Hi k' x' a Hx') as F. unfold pay_q in F.
      by rewrite Ek in F. }
    exists (mk_ledger (<[k := set_used x (sub_cost (used x) (queue_cost q))]> (budgets s))
              (<[i := bufferqueueInitEmpty]> (queues s)) (reservations s) p'). split.
    + destruct s as [bs qs rs p]. simpl in *. rewrite Hi. simpl. unfold bufferqueueDestroy.
      rewrite Ep'. simpl. by rewrite Ek, E.
    + eapply accounted_queue; try done. apply rebalanced_release; auto; [apply Hs|].
      intros a k'. unfold pay_q at 1. by rewrite Ek.
  - exists (mk_ledger (budgets s) (<[i := bufferqueueInitEmpty]> (queues s)) (reservations s) p'). split.
    + destruct s as [bs qs rs p]. simpl in *. rewrite Hi. simpl. unfold bufferqueueDestroy.
      rewrite Ep'. simpl. by rewrite Ek.
    + eapply accounted_queue; try done. apply rebalanced_id; [apply Hs|]. intros a k.
      unfold pay_q at 1. by rewrite Ek.
Qed.

Lemma call_step o : admissible s o -> call_ok o.
Proof.
  destruct o; [apply call_push|apply call_push_reserved|apply call_pop|apply call_pop_reserved|
    apply call_attach|apply call_rebind|apply call_reserve|apply call_reduce|apply call_release|
    apply call_destroy].
Qed.
End Accounted.

Lemma start_accounted lims n m p :
  Forall (fun l => forall a, 0 <= get a l <= SIZE_MAX) lims -> pool_inv p ->
  accounted (mk_ledger (bufferbudgetInit <$> lims) (replicate n bufferqueueInitEmpty)
               (replicate m empty_reservation) p).
Proof.
  intros F Hp. split; simpl; auto.
  - apply Forall_fmap. eapply Forall_impl; [exact F|]. intros l Hl. split; intros a; specialize (Hl a).
    + simpl. destruct a; simpl in *; lia.
    + simpl. lia.
  - intros k x a Hx. rewrite list_lookup_fmap in Hx. apply fmap_Some in Hx as (l & _ & ->).
    unfold owed. assert (forall n, zsum (fun q => pay_q q a k) (replicate n bufferqueueInitEmpty) = 0) as ->
      by (induction n0; simpl; [done|]; by rewrite IHn0).
    assert (forall n, zsum (fun r => pay_r r a k) (replicate n empty_reservation) = 0) as ->
      by (induction n0; simpl; [done|]; by rewrite IHn0).
    by destruct a.
  - apply Forall_replicate. split; [|done]. split; [constructor|by intros []|by intros []].
  - apply Forall_replicate. split; [|done]. split. by intros [].
Qed.

Lemma reachable_accounted s : ledger_reachable s -> accounted s.
Proof.
  induction 1 as [lims n m p F Hp|s o s' _ IH A E]; [by apply start_accounted|].
  destruct (call_step s IH o A) as (t & Et & At). congruence.
Qed.

(** C38. Budgets are exact.  Whatever sequence of calls the queues and reservations
    of a worker go through, a budget has been charged for precisely the entries
    of the queues bound to it and the reservations taken from it, never more
    than its limits; the cached totals of a queue are the sums over its entries;
    and no admissible call aborts, fails an assertion or uses a stale pointer. *)
Theorem budgets_exact (s : ledger) :
  ledger_reachable s ->
  (forall k x a, budgets s !! k = Some x ->
     get a (used x) = owed (queues s) (reservations s) a k /\
     0 <= get a (used x) <= get a (limits x)) /\
  (forall i q a, queues s !! i = Some q -> get a (queue_cost q) = sum_costs a (q_bufs q)) /\
  (forall o, admissible s o -> exists s', run_queue_op s o = Ok s').
Proof.
  intros R%reachable_accounted. splits.
  - intros k x a Hx. split; [by apply R|]. by apply (budget_at s R k x Hx).
  - intros i q a Hi. apply (queue_at s R i q Hi).
  - intros o A. destruct (call_step s R o A) as (s' & E & _). eauto.
Qed.
End Ledger.

(** Insertion is a transaction.  It succeeds exactly when the ring can hold the
    entry, the totals stay representable and the bound budget can pay; then the
    buffer is at the chosen end and the totals have grown by its cost.
    Otherwise queue and budgets are as they were, also when the budget had
    already been charged before the storage was refused. *)
Theorem bufferqueueTryInsert_transactional deque_reserve bs self b front :
  Forall budget_ok bs -> queue_ok self -> good b -> bound bs (q_budget self) ->
  exists ok bs' self',
    bufferqueueTryInsert deque_reserve bs self b front None = Ok (ok, bs', self', None) /\
    (ok = true <-> insertable deque_reserve self b /\ affordable bs self b) /\
    if ok : bool then
      q_bufs self' = (if front then b :: q_bufs self else q_bufs self ++ [b]) /\ queue_ok self' /\
      q_budget self' = q_budget self /\ rebalanced bs bs' (pay_q self) (pay_q self')
    else bs' = bs /\ self' = self.
Proof.
  intros Hbs Hq Hb Bq.
  destruct (insert_spec deque_reserve bs self b front Hbs Hq Hb Bq)
    as [(I & A & bs' & E & Hq' & R)|[N E]].
  - exists true, bs', (inserted self b front). done.
  - exists false, bs, self. splits; done.
Qed.

(** Round trip: taking the front entry together with its cost and putting it
    back restores queue, budgets and reservation, whatever the limits are. *)
Theorem bufferqueue_requeue deque_reserve bs self b bufs r :
  queue_ok self -> q_bufs self = b :: bufs -> is_Some (q_budget self) ->
  r_budget r = None -> bound bs (q_budget self) ->
  bufferqueueReserveExtra deque_reserve (popped self bufs b) 1 = true ->
  exists self' r',
    bufferqueuePopFrontReserved bs self r = Ok (Some b, bs, self', Some r') /\
    bufferqueueTryPushFrontReserved deque_reserve bs self' b r' =
      Ok (true, bs, self, Some empty_reservation).
Proof.
  intros Hq Eb Sb Er Bq Hr. destruct (popped_ok self bufs b Hq Eb) as (Hq' & _ & _).
  pose proof (qo_good _ Hq) as G. rewrite Eb in G. apply Forall_cons in G as [Gb _].
  pose proof (pop_frame bs self bufs b (Some r) Hq Eb) as E. pose proof Sb as [k Ek]. rewrite Ek in E.
  exists (popped self bufs b), (mk_reservation (Some k) (buf_cost b)). split.
  - unfold bufferqueuePopFrontReserved. rewrite assert_bind; [done|].
    by rewrite Er, !bool_decide_eq_true_2.
  - assert (inserted (popped self bufs b) b true = self) as Same.
    { destruct self as [k' bs' l c]. simpl in Eb. subst bs'. unfold inserted, popped. simpl. f_equal; lia. }
    destruct (insert_reserved_spec deque_reserve bs (popped self bufs b) b true Hq' Gb Bq
      (mk_reservation (Some k) (buf_cost b))) as [(_ & X & _)|[N _]]; auto.
    + unfold bufferqueueTryPushFrontReserved. by rewrite X, Same.
    + destruct N. split; [done|]. intros a. pose proof (qo_range _ Hq a) as R.
      rewrite <- Same, inserted_cost in R. done.
Qed.

(** ** A worker with one budget, one queue and one reservation *)

Definition entry : sbuf_t := sample [1; 2; 3].

Lemma entry_good : good entry.
Proof. split; [sample_ok|reflexivity]. Qed.

Definition bound_queue (bufs : list sbuf_t) (n c : Z) : buffer_queue_t := mk_queue (Some 0%nat) bufs n c.

Lemma bound_queue_ok : queue_ok (bound_queue [entry] 3 160).
Proof.
  split; [constructor; [apply entry_good|constructor]|by intros []|intros []; vm_compute; discriminate].
Qed.

Definition demo_budget (n c : Z) : buffer_budget_t := mk_budget (mk_cost 4 1000) (mk_cost n c).

Lemma demo_budget_ok : budget_ok (demo_budget 3 160).
Proof. split; intros []; vm_compute; try (split; discriminate); discriminate. Qed.

(** Attach the queue to the budget and push one entry. *)
Lemma demo_ledger_reachable :
  ledger_reachable (H := @buffer_pool_ops debug_allocator) (H0 := @buffer_pool_laws debug_allocator)
    (fun _ => true)
    (mk_ledger [demo_budget 3 160] [bound_queue [entry] 3 160] [empty_reservation] demo_state).
Proof.
  apply (reach_call _
    (mk_ledger [demo_budget 0 0] [bound_queue [] 0 0] [empty_reservation] demo_state)
    (OpPush 0 false entry)); [| |reflexivity].
  - apply (reach_call _
      (mk_ledger [demo_budget 0 0] [bufferqueueInitEmpty] [empty_reservation] demo_state)
      (OpAttach 0 0)); [| |reflexivity].
    + apply (reach_start _ [mk_cost 4 1000] 1 1).
      * constructor; [|constructor]. intros []; vm_compute; split; discriminate.
      * apply (reachable_state_inv (H := debug_allocator)), demo_reachable.
    + split; [eexists; reflexivity|]. eexists. split; reflexivity.
  - split; [eexists; reflexivity|apply entry_good].
Qed.

Lemma budgets_exact_witness :
  owed [bound_queue [entry] 3 160] [empty_reservation] Charge 0 = 160 /\
  exists s', run_queue_op (H := @buffer_pool_ops debug_allocator) (fun _ => true)
    (mk_ledger [demo_budget 3 160] [bound_queue [entry] 3 160] [empty_reservation] demo_state)
    (OpPopReserved 0 0) = Ok s'.
Proof.
  destruct (budgets_exact (H := @buffer_pool_ops debug_allocator)
    (H0 := @buffer_pool_laws debug_allocator) (fun _ => true) _ demo_ledger_reachable) as (U & _ & A).
  split.
  - symmetry. exact (proj1 (U 0%nat (demo_budget 3 160) Charge eq_refl)).
  - apply (A (OpPopReserved 0 0)). exists (bound_queue [entry] 3 160), empty_reservation.
    splits; try reflexivity. eexists. reflexivity.
Defined.

(** The budget of four bytes cannot pay for three more. *)
Lemma bufferqueueTryInsert_transactional_witness :
  bufferqueueTryInsert (fun _ => true) [demo_budget 3 160] (bound_queue [entry] 3 160) entry false None =
  Ok (false, [demo_budget 3 160], bound_queue [entry] 3 160, None).
Proof.
  destruct (bufferqueueTryInsert_transactional (fun _ => true) [demo_budget 3 160]
    (bound_queue [entry] 3 160) entry false) as (ok & bs' & self' & E & I & R).
  - constructor; [apply demo_budget_ok|constructor].
  - apply bound_queue_ok.
  - apply entry_good.
  - intros k [= <-]. eexists. reflexivity.
  - destruct ok; [|by destruct R as [-> ->]]. exfalso.
    destruct (proj1 I eq_refl) as [_ A]. specialize (A 0%nat _ eq_refl eq_refl Bytes).
    vm_compute in A. by apply A.
Defined.

Lemma bufferqueue_requeue_witness :
  exists self' r',
    bufferqueuePopFrontReserved [demo_budget 3 160] (bound_queue [entry] 3 160) empty_reservation =
      Ok (Some entry, [demo_budget 3 160], self', Some r') /\
    bufferqueueTryPushFrontReserved (fun _ => true) [demo_budget 3 160] self' entry r' =
      Ok (true, [demo_budget 3 160], bound_queue [entry] 3 160, Some empty_reservation).
Proof.
  apply (bufferqueue_requeue (fun _ => true) [demo_budget 3 160] (bound_queue [entry] 3 160) entry []).
  - apply bound_queue_ok.
  - reflexivity.
  - eexists. reflexivity.
  - reflexivity.
  - intros k [= <-]. eexists. reflexivity.
  - reflexivity.
Defined.
