(* ===== verification/Chain.v ===== *)
(** * Tunnel chains ([ww/net/chain.h], [ww/net/chain.c], [ww/objects/node.h])

    A chain is the ordered array of tunnels of one configured path, with the
    aggregate padding and line-state sizes, the registered layer relations and
    the cached layer solution.  Tunnels are shared objects: a pointer is a
    number, the objects live in the [heap] of the [world], next to the startup
    failure flag that [startupFailureRecord] sets.  An array with its length is
    the list of its used entries; its fixed size is checked where the code
    writes.  Line pools and packet lines of finalised chains are not part of
    this model. *)

From Stdlib Require Import ZArith Lia.
From stdpp Require Import base numbers option strings functions list.
From S2P Require Import Prelude MasterPool.
Open Scope Z_scope.
Open Scope word_scope.

Definition kMaxChainLen : Z := 64.
Definition kMaxLayerRelations : Z := kMaxChainLen * 2.

Definition kNodeFlagChainHead : Z := Z.shiftl 1 1.
Definition kNodeFlagChainEnd : Z := Z.shiftl 1 2.
Definition kNodeFlagNoChain : Z := Z.shiftl 1 3.
Definition kNodeFlagSupportsSplice : Z := Z.shiftl 1 5.
Definition kNodeFlagBlocksSplice : Z := Z.shiftl 1 6.

Definition kTunnelLayerSidePrev : Z := 0.
Definition kTunnelLayerSideNext : Z := 1.
Definition kTunnelLayerRelationSame : Z := 1.
Definition kTunnelLayerRelationOpposite : Z := 2.

Definition ptr : Type := nat.

Record node_t : Type := mk_node {
  node_type : string;
  node_flags : Z;
  required_padding_left : Z;
  layer_group : Z;
  layer_group_next_node : Z;
  layer_group_prev_node : Z;
  can_have_next : bool;
  can_have_prev : bool;
  instance : option ptr
}.

Record tunnel_t : Type := mk_tunnel {
  next : option ptr;
  prev : option ptr;
  chain : option ptr;
  lstate_size : Z;
  node : option node_t
}.

Record tunnel_layer_relation_registration_t : Type := mk_reg {
  left_tunnel : ptr;
  left_side : Z;
  right_tunnel : ptr;
  right_side : Z;
  reg_kind : Z
}.

Record tunnel_chain_t : Type := mk_chain {
  tunnels : list (option ptr);
  sum_padding_left : Z;
  sum_line_state_size : Z;
  workers_count : Z;
  contains_packet_node : bool;
  mux_client_tunnel_present : bool;
  mux_server_tunnel_present : bool;
  layer_solution_ready : bool;
  finalized : bool;
  layer_relations : list tunnel_layer_relation_registration_t;
  resolved_prev_layer : list Z;
  resolved_next_layer : list Z
}.

Record world : Type := mk_world {
  heap : ptr -> tunnel_t;
  startup_failed : bool
}.

Definition startupFailureRecord (w : world) : world := mk_world (heap w) true.
Definition startupFailurePending (w : world) : bool := startup_failed w.

Definition no_layers : list Z := replicate (Z.to_nat kMaxChainLen) 0.

Definition tunnelchainCreate (workers : Z) : tunnel_chain_t :=
  mk_chain [] 0 0 workers false false false false false [] no_layers no_layers.

(** ** Aggregates *)

Definition tunnelchainTryAddPadding (current additional : Z) : option Z :=
  let wide_sum := current +32 additional in
  let aligned_sum := Z.land (wide_sum +32 31) (wrap32 (Z.lnot 31)) in
  if (wide_sum >? UINT16_MAX) || (aligned_sum >? UINT16_MAX) then None
  else Some (wrap16 wide_sum).

Section Operations.
(** [sizeof(line_t)] *)
Context (sizeof_line : Z).

Definition tunnelchainTryComputeLineItemSize (aggregate_lstate_size : Z) : option Z :=
  let mask := CACHE_LINE -64 1 in
  let total := Z.land (sizeof_line +64 aggregate_lstate_size +64 mask) (wrap64 (Z.lnot mask)) in
  if (total >? UINT32_MAX) || negb (memoryAlignedAllocationSizeIsRepresentable total CACHE_LINE)
  then None
  else Some (wrap32 total).

(** Returns the array and whether a startup failure was recorded. *)
Definition tunnelarrayInsert (tuns : list (option ptr)) (t : option ptr) : list (option ptr) * bool :=
  if zlen tuns >=? kMaxChainLen then (tuns, true) else (tuns ++ [t], false).

(** [self] is the address of the chain. *)
Definition tunnelchainInsertAt (w : world) (self : ptr) (tci : tunnel_chain_t) (t : ptr) (index : Z)
  : outcome (world * tunnel_chain_t) :=
  let fail := mret (startupFailureRecord w, tci) in
  if zlen (tunnels tci) >=? kMaxChainLen then fail else
  if index >? zlen (tunnels tci) then fail else
  match node (heap w t) with
  | None => Fail MemoryFault
  | Some nd =>
      match tunnelchainTryAddPadding (sum_padding_left tci) (required_padding_left nd) with
      | None => fail
      | Some next_padding =>
          if lstate_size (heap w t) >? (UINT32_MAX -32 sum_line_state_size tci) then fail else
          let next_line_state_size := sum_line_state_size tci +32 lstate_size (heap w t) in
          match tunnelchainTryComputeLineItemSize next_line_state_size with
          | None => fail
          | Some _ =>
              let i := Z.to_nat index in
              let is_client := bool_decide (node_type nd = "MuxClient"%string) in
              let is_server := bool_decide (node_type nd = "MuxServer"%string) in
              let tci' :=
                mk_chain (take i (tunnels tci) ++ Some t :: drop i (tunnels tci))
                  next_padding next_line_state_size (workers_count tci) false
                  (is_client || mux_client_tunnel_present tci)
                  (is_server || mux_server_tunnel_present tci)
                  false (finalized tci) (layer_relations tci) no_layers no_layers in
              let x := heap w t in
              let x' := mk_tunnel (next x) (prev x) (Some self) (lstate_size x) (node x) in
              mret (mk_world (<[t := x']> (heap w)) (startup_failed w), tci')
          end
      end
  end.

Definition tunnelchainInsert (w : world) (self : ptr) (tci : tunnel_chain_t) (t : ptr)
  : outcome (world * tunnel_chain_t) :=
  tunnelchainInsertAt w self tci t (zlen (tunnels tci)).

(** ** Registered layer relations *)

Definition tunnelchainLayerRelationsMatch (l r : tunnel_layer_relation_registration_t) : bool :=
  if negb (reg_kind l =? reg_kind r) then false else
  (bool_decide (left_tunnel l = left_tunnel r) && (left_side l =? left_side r) &&
   bool_decide (right_tunnel l = right_tunnel r) && (right_side l =? right_side r)) ||
  (bool_decide (left_tunnel l = right_tunnel r) && (left_side l =? right_side r) &&
   bool_decide (right_tunnel l = left_tunnel r) && (right_side l =? left_side r)).

(** The result is the success flag, with the new world and chain. *)
Definition tunnelchainRegisterLayerRelation (w : world) (c : tunnel_chain_t)
    (left_t : option ptr) (lside : Z) (right_t : option ptr) (rside kind : Z)
  : bool * world * tunnel_chain_t :=
  let fail := (false, startupFailureRecord w, c) in
  match left_t, right_t with
  | Some left_t, Some right_t =>
      if (negb (lside =? kTunnelLayerSidePrev) && negb (lside =? kTunnelLayerSideNext)) ||
         (negb (rside =? kTunnelLayerSidePrev) && negb (rside =? kTunnelLayerSideNext)) ||
         (negb (kind =? kTunnelLayerRelationSame) && negb (kind =? kTunnelLayerRelationOpposite))
      then fail else
      if finalized c then fail else
      let candidate := mk_reg left_t lside right_t rside kind in
      if existsb (fun r => tunnelchainLayerRelationsMatch r candidate) (layer_relations c)
      then (true, w, c) else
      if zlen (layer_relations c) >=? kMaxLayerRelations then fail else
      (true, w,
       mk_chain (tunnels c) (sum_padding_left c) (sum_line_state_size c) (workers_count c) false
         (mux_client_tunnel_present c) (mux_server_tunnel_present c) false (finalized c)
         (layer_relations c ++ [candidate]) no_layers no_layers)
  | _, _ => fail
  end.

(** ** Merging two chains *)

(** The loop that counts the relations a merge would add; [None] when there are
    too many.  [seen] are the source relations already looked at. *)
Fixpoint count_relations (dest seen rest : list tunnel_layer_relation_registration_t) (count : Z)
  : option Z :=
  match rest with
  | [] => Some count
  | candidate :: rest' =>
      let duplicate := existsb (tunnelchainLayerRelationsMatch candidate) dest ||
                       existsb (tunnelchainLayerRelationsMatch candidate) seen in
      if duplicate then count_relations dest (seen ++ [candidate]) rest' count
      else if count >=? kMaxLayerRelations then None
      else count_relations dest (seen ++ [candidate]) rest' (wrap16 (count + 1))
  end.

(** [true] when a failure stopped the loop. *)
Fixpoint insert_all (w : world) (self : ptr) (dest : tunnel_chain_t) (ts : list (option ptr))
  : outcome (bool * world * tunnel_chain_t) :=
  match ts with
  | [] => mret (false, w, dest)
  | None :: _ => Fail MemoryFault
  | Some t :: ts' =>
      '(w, dest) ← tunnelchainInsert w self dest t;
      if startupFailurePending w then mret (true, w, dest) else insert_all w self dest ts'
  end.

Fixpoint register_all (w : world) (dest : tunnel_chain_t)
    (rs : list tunnel_layer_relation_registration_t) : bool * world * tunnel_chain_t :=
  match rs with
  | [] => (false, w, dest)
  | r :: rs' =>
      let '(ok, w, dest) :=
        tunnelchainRegisterLayerRelation w dest (Some (left_tunnel r)) (left_side r)
          (Some (right_tunnel r)) (right_side r) (reg_kind r) in
      if ok then register_all w dest rs' else (true, w, dest)
  end.

(** Returns the destination and what is left of the source: [None] when it was
    emptied and destroyed. *)
Definition tunnelchainCombine (w : world) (self : ptr) (destination source : tunnel_chain_t)
  : outcome (world * tunnel_chain_t * option tunnel_chain_t) :=
  let fail := mret (startupFailureRecord w, destination, Some source) in
  if finalized destination || finalized source then fail else
  if zlen (tunnels destination) + zlen (tunnels source) >? kMaxChainLen then fail else
  if negb (workers_count destination =? workers_count source) then fail else
  match count_relations (layer_relations destination) [] (layer_relations source)
          (zlen (layer_relations destination)) with
  | None => fail
  | Some _ =>
      match tunnelchainTryAddPadding (sum_padding_left destination) (sum_padding_left source) with
      | None => fail
      | Some _ =>
          if sum_line_state_size source >? (UINT32_MAX -32 sum_line_state_size destination)
          then fail else
          let combined := sum_line_state_size destination +32 sum_line_state_size source in
          match tunnelchainTryComputeLineItemSize combined with
          | None => fail
          | Some _ =>
              '(stopped, w, destination) ← insert_all w self destination (tunnels source);
              if stopped : bool then mret (w, destination, Some source) else
              let '(stopped, w, destination) := register_all w destination (layer_relations source) in
              if stopped then mret (w, destination, Some source)
              else mret (w, destination, None)
          end
      end
  end.

(** The part of [tunnelchainFinalize] that decides splice support; [available]
    is [WW_HAVE_SPLICE && ! GSTATE.splice_disabled]. *)
Fixpoint splice_loop (h : ptr -> tunnel_t) (ts : list (option ptr)) : outcome bool :=
  match ts with
  | [] => mret true
  | t :: ts' =>
      match t ≫= fun t => node (h t) with
      | None => Fail MemoryFault
      | Some nd =>
          if (Z.land (node_flags nd) kNodeFlagSupportsSplice =? 0) ||
             negb (Z.land (node_flags nd) kNodeFlagBlocksSplice =? 0)
          then mret false else splice_loop h ts'
      end
  end.

Definition finalize_supports_splice (h : ptr -> tunnel_t) (available : bool) (tc : tunnel_chain_t)
  : outcome bool :=
  if available && negb (contains_packet_node tc) && negb (zlen (tunnels tc) =? 0)
  then splice_loop h (tunnels tc) else mret false.
End Operations.

(** ** Invariant of a chain under construction *)

Definition padding_limit : Z := UINT16_MAX + 1 - 32.
Definition line_item_limit : Z := UINT32_MAX + 1 - CACHE_LINE.

(** What the code relies on of a tunnel: it has a node, and its sizes fit
    their fields. *)
Definition tunnel_ok (x : tunnel_t) : Prop :=
  u32 (lstate_size x) /\ exists nd, node x = Some nd /\ u16 (required_padding_left nd).

Definition tunnel_padding (x : tunnel_t) : Z :=
  match node x with Some nd => required_padding_left nd | None => 0 end.

Definition sum_over (f : tunnel_t -> Z) (h : ptr -> tunnel_t) (ts : list ptr) : Z :=
  foldr (fun t s => f (h t) + s) 0 ts.

Definition valid_relation (r : tunnel_layer_relation_registration_t) : Prop :=
  (left_side r = kTunnelLayerSidePrev \/ left_side r = kTunnelLayerSideNext) /\
  (right_side r = kTunnelLayerSidePrev \/ right_side r = kTunnelLayerSideNext) /\
  (reg_kind r = kTunnelLayerRelationSame \/ reg_kind r = kTunnelLayerRelationOpposite).

(** Two registrations state the same fact, up to swapping the two ends. *)
Definition rel_equiv (l r : tunnel_layer_relation_registration_t) : Prop :=
  tunnelchainLayerRelationsMatch l r = true.

Inductive distinct : list tunnel_layer_relation_registration_t -> Prop :=
  | distinct_nil : distinct []
  | distinct_snoc rs r : distinct rs -> (forall r', r' ∈ rs -> ~ rel_equiv r' r) ->
      distinct (rs ++ [r]).

Record chain_ok (sizeof_line : Z) (h : ptr -> tunnel_t) (c : tunnel_chain_t) (ts : list ptr)
  : Prop := {
  ok_tunnels : tunnels c = Some <$> ts;
  ok_members : Forall (fun t => tunnel_ok (h t)) ts;
  ok_len : zlen ts <= kMaxChainLen;
  ok_padding : sum_padding_left c = sum_over tunnel_padding h ts;
  ok_padding_fits : 0 <= sum_padding_left c <= padding_limit;
  ok_lstate : sum_line_state_size c = sum_over lstate_size h ts;
  ok_lstate_fits : 0 <= sum_line_state_size c /\ sizeof_line + sum_line_state_size c <= line_item_limit;
  ok_relations : zlen (layer_relations c) <= kMaxLayerRelations;
  ok_valid : Forall valid_relation (layer_relations c);
  ok_distinct : distinct (layer_relations c);
  ok_prev : length (resolved_prev_layer c) = Z.to_nat kMaxChainLen;
  ok_next : length (resolved_next_layer c) = Z.to_nat kMaxChainLen
}.

(** Heaps that agree on what a chain sums up; insertion changes only the
    back pointer of a tunnel. *)
Definition same_shape (h h' : ptr -> tunnel_t) : Prop :=
  forall t, node (h' t) = node (h t) /\ lstate_size (h' t) = lstate_size (h t).

#[export] Instance same_shape_equiv : Equivalence same_shape.
Proof.
  split.
  - intros h t. done.
  - intros h k H t. destruct (H t). done.
  - intros h k l H K t. destruct (H t), (K t). split; congruence.
Qed.

#[export] Instance rel_equiv_dec (l r : tunnel_layer_relation_registration_t) :
  Decision (rel_equiv l r).
Proof. apply bool_eq_dec. Defined.

Lemma rel_equiv_iff (l r : tunnel_layer_relation_registration_t) :
  rel_equiv l r <->
  reg_kind l = reg_kind r /\
  ((left_tunnel l, left_side l) = (left_tunnel r, left_side r) /\
   (right_tunnel l, right_side l) = (right_tunnel r, right_side r) \/
   (left_tunnel l, left_side l) = (right_tunnel r, right_side r) /\
   (right_tunnel l, right_side l) = (left_tunnel r, left_side r)).
Proof.
  unfold rel_equiv, tunnelchainLayerRelationsMatch.
  destruct (Z.eqb_spec (reg_kind l) (reg_kind r)); simpl; [|intuition congruence].
  rewrite orb_true_iff, !andb_true_iff, !bool_decide_eq_true, !Z.eqb_eq.
  intuition congruence.
Qed.

#[export] Instance rel_equiv_equivalence : Equivalence rel_equiv.
Proof.
  split.
  - intros r. apply rel_equiv_iff. tauto.
  - intros l r. rewrite !rel_equiv_iff. intuition congruence.
  - intros l m r. rewrite !rel_equiv_iff. intuition congruence.
Qed.

Lemma match_exists (r : tunnel_layer_relation_registration_t) rs :
  existsb (fun x => tunnelchainLayerRelationsMatch x r) rs = true <->
  exists x, x ∈ rs /\ rel_equiv x r.
Proof.
  rewrite existsb_exists. split; intros (x & H & E); exists x; (split; [|exact E]);
    by apply list_elem_of_In.
Qed.

Lemma match_exists_l (r : tunnel_layer_relation_registration_t) rs :
  existsb (tunnelchainLayerRelationsMatch r) rs = true <-> exists x, x ∈ rs /\ rel_equiv x r.
Proof.
  rewrite existsb_exists. split; intros (x & H & E); exists x;
    (split; [by apply list_elem_of_In|]).
  - change (rel_equiv r x) in E. by symmetry.
  - change (rel_equiv r x). by symmetry.
Qed.

(** ** Aggregates: what the guards mean *)

Lemma try_add_padding (a b : Z) :
  u16 a -> u16 b ->
  tunnelchainTryAddPadding a b =
  if a + b <=? padding_limit then Some (a + b) else None.
Proof.
  unfold u16, padding_limit, UINT16_MAX. intros Ha Hb. unfold tunnelchainTryAddPadding.
  rewrite (wrap32_small (a + b)) by word_lia.
  change (Z.land (wrap32 (a + b + 31)) (wrap32 (Z.lnot 31))) with (align_up 32 5 (a + b)).
  rewrite align_up_spec by lia. unfold UINT16_MAX.
  change (2 ^ 5) with 32. rewrite !Z.gtb_ltb.
  pose proof (Z.div_mod (a + b + 32 - 1) 32 ltac:(lia)).
  pose proof (Z.mod_pos_bound (a + b + 32 - 1) 32 ltac:(lia)).
  destruct (Z.leb_spec (a + b) (65535 + 1 - 32)).
  - rewrite !(proj2 (Z.ltb_ge _ _)) by lia.
    simpl. rewrite wrap16_small by word_lia. done.
  - rewrite (proj2 (Z.ltb_lt 65535 (_ * 32))) by lia. by rewrite orb_true_r.
Qed.

Section Aggregates.
Context (sizeof_line : Z) (Hsizeof : 0 <= sizeof_line <= line_item_limit).

Lemma try_line_item_size (n : Z) :
  u32 n ->
  match tunnelchainTryComputeLineItemSize sizeof_line n with
  | Some size => sizeof_line + n <= line_item_limit /\
      sizeof_line + n <= size < sizeof_line + n + CACHE_LINE /\ size mod CACHE_LINE = 0
  | None => line_item_limit < sizeof_line + n
  end.
Proof.
  unfold u32, line_item_limit, UINT32_MAX in *. intros Hn.
  change CACHE_LINE with 64 in *. unfold tunnelchainTryComputeLineItemSize.
  change (CACHE_LINE -64 1) with 63.
  rewrite (wrap64_small (sizeof_line + n)) by word_lia.
  change (Z.land (wrap64 (sizeof_line + n + 63)) (wrap64 (Z.lnot 63)))
    with (align_up 64 6 (sizeof_line + n)).
  pose proof (align_up_bounds 64 6 (sizeof_line + n)) as [B M]; try lia.
  change (2 ^ 6) with 64 in *. set (t := align_up 64 6 (sizeof_line + n)) in *.
  pose proof (proj2 (Z.div_exact t 64 ltac:(lia)) M) as D.
  replace (memoryAlignedAllocationSizeIsRepresentable t CACHE_LINE) with true.
  2:{ symmetry. unfold memoryAlignedAllocationSizeIsRepresentable.
      change (memoryAlignmentIsValid CACHE_LINE) with true. simpl.
      change (wrap64 (SIZE_MAX - Z.max CACHE_LINE SIZEOF_POINTER)) with 18446744073709551551.
      apply Z.leb_le. lia. }
  rewrite orb_false_r. unfold UINT32_MAX. destruct (Z.gtb_spec t 4294967295); [lia|].
  rewrite wrap32_small by word_lia.
  lia.
Qed.

(** ** Insertion *)

Lemma sum_over_app (f : tunnel_t -> Z) h (l r : list ptr) :
  sum_over f h (l ++ r) = sum_over f h l + sum_over f h r.
Proof. induction l as [|t l IH]; simpl; [done|]. fold (sum_over f h) in *. unfold sum_over in *. lia. Qed.

Lemma sum_over_shape (f : tunnel_t -> Z) h h' (ts : list ptr) :
  (forall t, f (h' t) = f (h t)) -> sum_over f h' ts = sum_over f h ts.
Proof. intros E. induction ts as [|t ts IH]; simpl; [done|]. by rewrite E, IH. Qed.

Lemma sum_over_nonneg h (ts : list ptr) :
  Forall (fun t => tunnel_ok (h t)) ts ->
  0 <= sum_over tunnel_padding h ts /\ 0 <= sum_over lstate_size h ts.
Proof.
  induction 1 as [|t ts (Hl & nd & En & Hp) _ IH]; simpl; [lia|].
  unfold u16, u32 in *. unfold tunnel_padding at 1. rewrite En. lia.
Qed.

Lemma shape_padding h h' : same_shape h h' -> forall t, tunnel_padding (h' t) = tunnel_padding (h t).
Proof. intros S t. unfold tunnel_padding. by rewrite (proj1 (S t)). Qed.

Lemma shape_tunnel_ok h h' t : same_shape h h' -> tunnel_ok (h t) -> tunnel_ok (h' t).
Proof. intros S. unfold tunnel_ok. by rewrite (proj1 (S t)), (proj2 (S t)). Qed.
#[local] Hint Resolve shape_tunnel_ok : ww.

(** The invariant only looks at nodes and line-state sizes. *)
Lemma chain_ok_shape h h' c ts :
  same_shape h h' -> chain_ok sizeof_line h c ts -> chain_ok sizeof_line h' c ts.
Proof.
  intros S []. split; try done.
  - eapply Forall_impl; [done|]. intros t. eauto with ww.
  - by rewrite (sum_over_shape _ h h') by by apply shape_padding.
  - rewrite (sum_over_shape _ h h'); [done|]. intros t. apply S.
Qed.

Definition set_chain (self : ptr) (x : tunnel_t) : tunnel_t :=
  mk_tunnel (next x) (prev x) (Some self) (lstate_size x) (node x).

Lemma set_chain_shape h self t : same_shape h (<[t := set_chain self (h t)]> h).
Proof.
  intros t'. destruct (decide (t' = t)) as [->|Hne].
  - by rewrite fn_lookup_insert.
  - by rewrite fn_lookup_insert_ne.
Qed.

Definition insert_at (i : nat) (t : ptr) (ts : list ptr) : list ptr :=
  take i ts ++ t :: drop i ts.

(** The four conditions under which a chain accepts a tunnel. *)
Definition accepts (h : ptr -> tunnel_t) (c : tunnel_chain_t) (t : ptr) (index : Z) : Prop :=
  zlen (tunnels c) < kMaxChainLen /\ index <= zlen (tunnels c) /\
  sum_padding_left c + tunnel_padding (h t) <= padding_limit /\
  sizeof_line + sum_line_state_size c + lstate_size (h t) <= line_item_limit.

#[export] Instance accepts_dec h c t index : Decision (accepts h c t index).
Proof. apply _. Defined.

(** The fields of a chain that an insertion leaves alone, or resets. *)
Definition inserted_from (c c' : tunnel_chain_t) : Prop :=
  layer_relations c' = layer_relations c /\ finalized c' = finalized c /\
  workers_count c' = workers_count c /\ layer_solution_ready c' = false /\
  contains_packet_node c' = false.

(** The chain after inserting [t] at [i], with the new multiplexer marks. *)
Definition inserted (c : tunnel_chain_t) (x : tunnel_t) (t : ptr) (i : nat) (mc ms : bool)
  : tunnel_chain_t :=
  mk_chain (take i (tunnels c) ++ Some t :: drop i (tunnels c))
    (sum_padding_left c + tunnel_padding x) (sum_line_state_size c + lstate_size x)
    (workers_count c) false mc ms false (finalized c) (layer_relations c) no_layers no_layers.

(** A guard that fails means the chain does not accept the tunnel. *)
Ltac refuse :=
  rewrite decide_False
    by (unfold accepts, line_item_limit in *; change CACHE_LINE with 64 in *; lia);
  reflexivity.

Lemma insert_at_guards w self c ts t index :
  chain_ok sizeof_line (heap w) c ts -> tunnel_ok (heap w t) ->
  if decide (accepts (heap w) c t index) then
    exists mc ms, tunnelchainInsertAt sizeof_line w self c t index =
      Ok (mk_world (<[t := set_chain self (heap w t)]> (heap w)) (startup_failed w),
          inserted c (heap w t) t (Z.to_nat index) mc ms)
  else tunnelchainInsertAt sizeof_line w self c t index = Ok (startupFailureRecord w, c).
Proof.
  intros C (Hl & nd & En & Hp). pose proof (ok_padding_fits _ _ _ _ C) as P.
  pose proof (ok_lstate_fits _ _ _ _ C) as L.
  assert (required_padding_left nd = tunnel_padding (heap w t)) as TP
    by (unfold tunnel_padding; by rewrite En).
  unfold tunnelchainInsertAt. rewrite En, TP in *.
  destruct (zlen (tunnels c) >=? kMaxChainLen) eqn:E1; bool_facts; [refuse|].
  destruct (index >? zlen (tunnels c)) eqn:E2; bool_facts; [refuse|].
  unfold u16, u32 in *.
  rewrite try_add_padding by (unfold u16, padding_limit, UINT16_MAX in *; lia).
  destruct (_ <=? padding_limit) eqn:E3; bool_facts; [|refuse].
  rewrite (wrap32_small (UINT32_MAX - _))
    by (unfold line_item_limit in *; change CACHE_LINE with 64 in *; lia).
  destruct (lstate_size (heap w t) >? _) eqn:E4; bool_facts; [refuse|].
  rewrite (wrap32_small (sum_line_state_size c + _)) by lia.
  pose proof (try_line_item_size (sum_line_state_size c + lstate_size (heap w t))) as T.
  unfold u32 in T. destruct (tunnelchainTryComputeLineItemSize _ _); [|refuse].
  rewrite decide_True by (unfold accepts; lia). do 2 eexists. unfold set_chain. by rewrite En.
Qed.

Lemma insert_at_perm (i : nat) (t : ptr) (ts : list ptr) : insert_at i t ts ≡ₚ t :: ts.
Proof.
  unfold insert_at. rewrite <- Permutation_middle. by rewrite take_drop.
Qed.

Lemma sum_over_perm (f : tunnel_t -> Z) h (l r : list ptr) :
  l ≡ₚ r -> sum_over f h l = sum_over f h r.
Proof. unfold sum_over. induction 1; simpl; lia. Qed.

Lemma insert_at_spec w self c ts t index :
  chain_ok sizeof_line (heap w) c ts -> tunnel_ok (heap w t) ->
  if decide (accepts (heap w) c t index) then
    exists c', tunnelchainInsertAt sizeof_line w self c t index =
        Ok (mk_world (<[t := set_chain self (heap w t)]> (heap w)) (startup_failed w), c') /\
      chain_ok sizeof_line (<[t := set_chain self (heap w t)]> (heap w)) c'
        (insert_at (Z.to_nat index) t ts) /\
      inserted_from c c'
  else tunnelchainInsertAt sizeof_line w self c t index = Ok (startupFailureRecord w, c).
Proof.
  intros C T. pose proof (insert_at_guards w self c ts t index C T) as G.
  destruct (decide _) as [(A1 & A2 & A3 & A4)|]; [|done].
  destruct G as (mc & ms & G). eexists; split; [exact G|]. split; [|done].
  eapply chain_ok_shape; [apply set_chain_shape|].
  pose proof (sum_over_perm tunnel_padding (heap w) _ _ (insert_at_perm (Z.to_nat index) t ts)) as SP.
  pose proof (sum_over_perm lstate_size (heap w) _ _ (insert_at_perm (Z.to_nat index) t ts)) as SL.
  destruct T as (Hl & nd & En & Hp). unfold u16, u32 in *.
  assert (0 <= tunnel_padding (heap w t)) by (unfold tunnel_padding; rewrite En; lia).
  destruct C as [Ct Cm Cl Cp Cpf Cs Csf]. split; simpl in *; try done; try lia.
  - rewrite Ct. unfold insert_at. by rewrite fmap_app, fmap_cons, fmap_take, fmap_drop.
  - rewrite insert_at_perm. constructor; [|done]. split; [done|]. by exists nd.
  - rewrite Ct in A1. unfold zlen in *. rewrite insert_at_perm. simpl. rewrite length_fmap in A1. lia.
Qed.

(** ** Registered relations *)

Abbreviation relation := tunnel_layer_relation_registration_t.

(** Some registration of [rs] states the same fact as [r]. *)
Definition states (rs : list relation) (r : relation) : Prop := exists x, x ∈ rs /\ rel_equiv x r.

(** Adding a relation unless it is already stated, and a whole list of them:
    union up to [rel_equiv], in order. *)
Definition add_relation (rs : list relation) (r : relation) : list relation :=
  if existsb (fun x => tunnelchainLayerRelationsMatch x r) rs then rs else rs ++ [r].
Definition merge_relations (rs new : list relation) : list relation := foldl add_relation rs new.

Definition with_relations (c : tunnel_chain_t) (rs : list relation) : tunnel_chain_t :=
  mk_chain (tunnels c) (sum_padding_left c) (sum_line_state_size c) (workers_count c) false
    (mux_client_tunnel_present c) (mux_server_tunnel_present c) false (finalized c) rs
    no_layers no_layers.

Lemma states_nil r : states [] r <-> False.
Proof. split; [|done]. intros (x & Hx & _). by apply elem_of_nil in Hx. Qed.

Lemma states_app rs rs' r : states (rs ++ rs') r <-> states rs r \/ states rs' r.
Proof.
  unfold states. split.
  - intros (x & [Hx|Hx]%elem_of_app & E); [left|right]; by exists x.
  - intros [(x & Hx & E)|(x & Hx & E)]; exists x; rewrite elem_of_app; auto.
Qed.

Lemma states_singleton r x : states [r] x <-> rel_equiv r x.
Proof.
  unfold states. split.
  - intros (y & ->%list_elem_of_singleton & E). done.
  - intros E. exists r. by rewrite list_elem_of_singleton.
Qed.

Lemma states_add rs r x : states (add_relation rs r) x <-> states rs x \/ rel_equiv r x.
Proof.
  unfold add_relation. destruct (existsb _ rs) eqn:E.
  - apply match_exists in E as (y & Hy & E). split; [by left|]. intros [H|H]; [done|].
    exists y. split; [done|]. by transitivity r.
  - by rewrite states_app, states_singleton.
Qed.

Lemma states_merge new : forall rs x,
  states (merge_relations rs new) x <-> states rs x \/ states new x.
Proof.
  induction new as [|r new IH]; intros rs x; simpl.
  - rewrite states_nil. tauto.
  - unfold merge_relations in *. simpl. rewrite IH, states_add, (states_app [r] new), states_singleton.
    tauto.
Qed.

Lemma distinct_add rs r : distinct rs -> distinct (add_relation rs r).
Proof.
  intros D. unfold add_relation. destruct (existsb _ rs) eqn:E; [done|].
  constructor; [done|]. intros x Hx Ex.
  rewrite (proj2 (match_exists r rs)) in E; [done|]. by exists x.
Qed.

Lemma add_relation_len rs r : zlen rs <= zlen (add_relation rs r).
Proof.
  unfold add_relation. destruct (existsb _ rs); [lia|]. rewrite zlen_app.
  change (zlen [r]) with 1. lia.
Qed.

Lemma merge_relations_len new : forall rs, zlen rs <= zlen (merge_relations rs new).
Proof.
  induction new as [|r new IH]; intros rs; simpl; [done|].
  pose proof (add_relation_len rs r). specialize (IH (add_relation rs r)).
  unfold merge_relations in *. simpl. lia.
Qed.

(** The counting pass computes the size of the union. *)
Lemma count_relations_spec dest rest : forall seen D,
  (forall x, states D x <-> states (dest ++ seen) x) -> zlen D <= kMaxLayerRelations ->
  count_relations dest seen rest (zlen D) =
  if zlen (merge_relations D rest) <=? kMaxLayerRelations
  then Some (zlen (merge_relations D rest)) else None.
Proof.
  induction rest as [|r rest IH]; intros seen D HD Hlen.
  { simpl. by rewrite (proj2 (Z.leb_le _ _)). }
  cbn [count_relations].
  assert (existsb (tunnelchainLayerRelationsMatch r) dest ||
          existsb (tunnelchainLayerRelationsMatch r) seen =
          existsb (fun x => tunnelchainLayerRelationsMatch x r) D)%bool as ->.
  { rewrite <- existsb_app. apply eq_true_iff_eq. rewrite match_exists_l, match_exists.
    symmetry. apply HD. }
  assert (forall x, states (add_relation D r) x <-> states (dest ++ seen ++ [r]) x) as HD'.
  { intros x. rewrite states_add, HD, app_assoc, (states_app (dest ++ seen)), states_singleton. done. }
  specialize (IH (seen ++ [r]) (add_relation D r) HD').
  unfold merge_relations in *. cbn [foldl].
  pose proof (merge_relations_len rest (add_relation D r)) as HL. unfold merge_relations in HL.
  unfold add_relation in IH, HL |- *. destruct (existsb _ D); [by apply IH|].
  rewrite zlen_app in IH, HL. change (zlen [r]) with 1 in *.
  destruct (zlen D >=? kMaxLayerRelations) eqn:E; bool_facts.
  - rewrite (proj2 (Z.leb_gt _ _)) by lia. done.
  - pose proof (zlen_nonneg D). change kMaxLayerRelations with 128 in *.
    rewrite wrap16_small by word_lia. apply IH. lia.
Qed.

(** Registration adds the relation when it is well formed, new and there is
    room; it changes nothing else but the cached solution. *)
Lemma register_spec w c r :
  valid_relation r -> finalized c = false ->
  zlen (add_relation (layer_relations c) r) <= kMaxLayerRelations ->
  exists c', tunnelchainRegisterLayerRelation w c (Some (left_tunnel r)) (left_side r)
      (Some (right_tunnel r)) (right_side r) (reg_kind r) = (true, w, c') /\
    layer_relations c' = add_relation (layer_relations c) r /\
    (c' = c \/ c' = with_relations c (add_relation (layer_relations c) r)).
Proof.
  intros (V1 & V2 & V3) F L. unfold tunnelchainRegisterLayerRelation. rewrite F.
  assert (mk_reg (left_tunnel r) (left_side r) (right_tunnel r) (right_side r) (reg_kind r) = r)
    as -> by by destruct r.
  replace (_ || _ || _)%bool with false.
  2:{ symmetry. rewrite !orb_false_iff, !andb_false_iff, !negb_false_iff, !Z.eqb_eq. tauto. }
  unfold add_relation in *. destruct (existsb _ _) eqn:E.
  - exists c. auto.
  - rewrite zlen_app in L. change (zlen [r]) with 1 in L.
    destruct (_ >=? kMaxLayerRelations) eqn:G; bool_facts; [lia|].
    eexists. split; [done|]. split; [done|]. right. unfold with_relations. by rewrite F.
Qed.

Lemma chain_ok_register h w c ts r :
  chain_ok sizeof_line h c ts -> valid_relation r -> finalized c = false ->
  zlen (add_relation (layer_relations c) r) <= kMaxLayerRelations ->
  exists c', tunnelchainRegisterLayerRelation w c (Some (left_tunnel r)) (left_side r)
      (Some (right_tunnel r)) (right_side r) (reg_kind r) = (true, w, c') /\
    layer_relations c' = add_relation (layer_relations c) r /\
    chain_ok sizeof_line h c' ts /\ finalized c' = false.
Proof.
  intros C V F L. destruct (register_spec w c r V F L) as (c' & E & R & D).
  exists c'. split; [done|]. split; [done|].
  destruct D as [->| ->]; [done|]. destruct C. split; [|done].
  split; simpl; try done; [|by apply distinct_add].
  unfold add_relation. destruct (existsb _ _); [done|]. apply Forall_app; auto.
Qed.

Lemma register_all_spec h w rs : forall d ts,
  chain_ok sizeof_line h d ts -> Forall valid_relation rs -> finalized d = false ->
  zlen (merge_relations (layer_relations d) rs) <= kMaxLayerRelations ->
  exists d', register_all w d rs = (false, w, d') /\ chain_ok sizeof_line h d' ts /\
    layer_relations d' = merge_relations (layer_relations d) rs.
Proof.
  induction rs as [|r rs IH]; intros d ts C V F L; cbn [register_all].
  { by exists d. }
  apply Forall_cons in V as [Vr V]. unfold merge_relations in L. simpl in L.
  pose proof (merge_relations_len rs (add_relation (layer_relations d) r)) as HL.
  unfold merge_relations in HL.
  destruct (chain_ok_register h w d ts r C Vr F) as (d1 & -> & R1 & C1 & F1); [lia|].
  destruct (IH d1 ts C1 V F1) as (d2 & E2 & C2 & R2); [by unfold merge_relations; rewrite R1|].
  exists d2. splits; [done|done|]. rewrite R2, R1. done.
Qed.

(** Room in the destination for a list of tunnels. *)
Definition room_for (h : ptr -> tunnel_t) (c : tunnel_chain_t) (new : list ptr) : Prop :=
  zlen (tunnels c) + zlen new <= kMaxChainLen /\
  sum_padding_left c + sum_over tunnel_padding h new <= padding_limit /\
  sizeof_line + sum_line_state_size c + sum_over lstate_size h new <= line_item_limit.

Lemma chain_ok_len h c ts : chain_ok sizeof_line h c ts -> zlen (tunnels c) = zlen ts.
Proof. intros C. rewrite (ok_tunnels _ _ _ _ C). unfold zlen. by rewrite length_fmap. Qed.

(** One step of the copying loop. *)
Lemma insert_end_spec self w d ts t new :
  chain_ok sizeof_line (heap w) d ts -> Forall (fun t => tunnel_ok (heap w t)) (t :: new) ->
  room_for (heap w) d (t :: new) ->
  let h1 := <[t := set_chain self (heap w t)]> (heap w) in
  exists d1, tunnelchainInsert sizeof_line w self d t = Ok (mk_world h1 (startup_failed w), d1) /\
    chain_ok sizeof_line h1 d1 (ts ++ [t]) /\ inserted_from d d1 /\ room_for h1 d1 new.
Proof.
  intros C T (HL & HP & HS) h1. apply Forall_cons in T as [Tt T].
  rewrite zlen_cons in HL. simpl in HP, HS.
  pose proof (sum_over_nonneg _ _ T) as [N1 N2]. pose proof (zlen_nonneg new).
  pose proof (chain_ok_len _ _ _ C) as El.
  pose proof (insert_at_spec w self d ts t (zlen (tunnels d)) C Tt) as I.
  rewrite decide_True in I by (unfold accepts, sum_over in *; lia).
  destruct I as (d1 & E1 & C1 & I1). exists d1.
  assert (insert_at (Z.to_nat (zlen (tunnels d))) t ts = ts ++ [t]) as Ei.
  { rewrite El. unfold insert_at, zlen. by rewrite Nat2Z.id, take_ge, drop_ge. }
  rewrite Ei in C1. splits; [done|done|done|..].
  pose proof (set_chain_shape (heap w) self t) as S1.
  pose proof (sum_over_shape _ _ _ new (shape_padding _ _ S1)) as P1.
  pose proof (sum_over_shape lstate_size _ _ new (fun t => proj2 (S1 t))) as L1.
  pose proof (ok_padding _ _ _ _ (chain_ok_shape _ _ _ _ (symmetry S1) C1)) as P2.
  pose proof (ok_lstate _ _ _ _ (chain_ok_shape _ _ _ _ (symmetry S1) C1)) as L2.
  rewrite sum_over_app in P2, L2.
  rewrite (ok_padding _ _ _ _ C) in HP. rewrite (ok_lstate _ _ _ _ C) in HS.
  unfold room_for, h1. rewrite (chain_ok_len _ _ _ C1), zlen_app, P1, L1, P2, L2.
  change (zlen [t]) with 1. simpl. unfold sum_over in *. simpl. lia.
Qed.

Lemma insert_all_spec self new : forall w d ts,
  chain_ok sizeof_line (heap w) d ts -> Forall (fun t => tunnel_ok (heap w t)) new ->
  startup_failed w = false -> room_for (heap w) d new ->
  exists w' d', insert_all sizeof_line w self d (Some <$> new) = Ok (false, w', d') /\
    startup_failed w' = false /\ same_shape (heap w) (heap w') /\
    chain_ok sizeof_line (heap w') d' (ts ++ new) /\
    layer_relations d' = layer_relations d /\ finalized d' = finalized d /\
    (forall t, t ∈ new -> chain (heap w' t) = Some self) /\
    (forall t, t ∉ new -> heap w' t = heap w t).
Proof.
  induction new as [|t new IH]; intros w d ts C T F R.
  { exists w, d. rewrite app_nil_r. splits; try done. by intros t ?%elem_of_nil. }
  destruct (insert_end_spec self w d ts t new C T R) as (d1 & E1 & C1 & (R1 & F1 & _) & Room1).
  rewrite fmap_cons. cbn [insert_all]. rewrite E1. change (Ok ?x ≫= ?k) with (k x). cbv beta iota.
  set (w1 := mk_world _ _) in *. change (startupFailurePending w1) with (startup_failed w). rewrite F.
  pose proof (set_chain_shape (heap w) self t) as S1. change (<[_ := _]> _) with (heap w1) in S1, C1.
  apply Forall_cons in T as [_ T].
  destruct (IH w1 d1 (ts ++ [t]) C1) as (w2 & d2 & E2 & F2 & S2 & C2 & R2 & Fd2 & In2 & Out2);
    [|done|done|].
  { eapply Forall_impl; [exact T|]. intros x. eauto with ww. }
  exists w2, d2. rewrite <- app_assoc in C2. splits; try done; try congruence.
  - by transitivity (heap w1).
  - intros x [->|Hx]%elem_of_cons; [|by apply In2].
    destruct (decide (t ∈ new)); [by apply In2|]. rewrite Out2 by done. unfold w1. simpl.
    by rewrite fn_lookup_insert.
  - intros x Hx. rewrite not_elem_of_cons in Hx. destruct Hx as [Hx1 Hx2].
    rewrite Out2 by done. unfold w1. simpl. by rewrite fn_lookup_insert_ne.
Qed.

(** ** Merging *)

Definition combinable (h : ptr -> tunnel_t) (d s : tunnel_chain_t) : Prop :=
  finalized d = false /\ finalized s = false /\
  zlen (tunnels d) + zlen (tunnels s) <= kMaxChainLen /\
  workers_count d = workers_count s /\
  zlen (merge_relations (layer_relations d) (layer_relations s)) <= kMaxLayerRelations /\
  sum_padding_left d + sum_padding_left s <= padding_limit /\
  sizeof_line + sum_line_state_size d + sum_line_state_size s <= line_item_limit.

#[export] Instance combinable_dec h d s : Decision (combinable h d s).
Proof. apply _. Defined.

Lemma combinable_room h d s td ts :
  chain_ok sizeof_line h d td -> chain_ok sizeof_line h s ts -> combinable h d s ->
  room_for h d ts.
Proof.
  intros Cd Cs (_ & _ & L & _ & _ & P & S). unfold room_for.
  rewrite <- (ok_padding _ _ _ _ Cs), <- (ok_lstate _ _ _ _ Cs), <- (chain_ok_len _ _ _ Cs). done.
Qed.

(** The copying phase after the checks succeeds. *)
Lemma combine_copies w self d s td ts :
  chain_ok sizeof_line (heap w) d td -> chain_ok sizeof_line (heap w) s ts ->
  startup_failed w = false -> combinable (heap w) d s ->
  exists w' d1 d', insert_all sizeof_line w self d (tunnels s) = Ok (false, w', d1) /\
    register_all w' d1 (layer_relations s) = (false, w', d') /\
    startup_failed w' = false /\ chain_ok sizeof_line (heap w') d' (td ++ ts) /\
    (forall r, states (layer_relations d') r <->
       states (layer_relations d) r \/ states (layer_relations s) r) /\
    (forall t, t ∈ ts -> chain (heap w' t) = Some self) /\
    (forall t, t ∉ ts -> heap w' t = heap w t).
Proof.
  intros Cd Cs F Cm. pose proof (combinable_room _ _ _ _ _ Cd Cs Cm) as Room.
  destruct (insert_all_spec self ts w d td Cd (ok_members _ _ _ _ Cs) F Room)
    as (w1 & d1 & E1 & F1 & S1 & C1 & R1 & Fd & In & Out).
  destruct Cm as (FD & _ & _ & _ & HR & _ & _).
  destruct (register_all_spec (heap w1) w1 (layer_relations s) d1 (td ++ ts) C1)
    as (d2 & E2 & C2 & R2); [by apply (ok_valid _ _ _ _ Cs)|congruence|by rewrite R1|].
  exists w1, d1, d2. rewrite (ok_tunnels _ _ _ _ Cs). splits; try done.
  intros r. by rewrite R2, states_merge, R1.
Qed.

(** The checks of [tunnelchainCombine] decide exactly [combinable]. *)
Ltac refuse_combine :=
  rewrite decide_False
    by (intros (? & ? & ? & ? & ? & ? & ?); unfold line_item_limit in *;
        change CACHE_LINE with 64 in *; lia || intuition congruence);
  reflexivity.


(** ** Building a chain *)

Inductive chain_op : Type :=
  | OpInsertAt (t : ptr) (index : Z)
  | OpRegister (left_t : option ptr) (lside : Z) (right_t : option ptr) (rside kind : Z).

Definition run_op (self : ptr) (w : world) (c : tunnel_chain_t) (op : chain_op)
  : outcome (world * tunnel_chain_t) :=
  match op with
  | OpInsertAt t index => tunnelchainInsertAt sizeof_line w self c t index
  | OpRegister l ls r rs k =>
      let '(_, w, c) := tunnelchainRegisterLayerRelation w c l ls r rs k in mret (w, c)
  end.

Fixpoint run_ops (self : ptr) (w : world) (c : tunnel_chain_t) (ops : list chain_op)
  : outcome (world * tunnel_chain_t) :=
  match ops with
  | [] => mret (w, c)
  | op :: ops' => '(w, c) ← run_op self w c op; run_ops self w c ops'
  end.

Definition op_inserts (op : chain_op) : list ptr :=
  match op with OpInsertAt t _ => [t] | OpRegister _ _ _ _ _ => [] end.

Lemma chain_ok_create (h : ptr -> tunnel_t) (n : Z) :
  chain_ok sizeof_line h (tunnelchainCreate n) [].
Proof.
  split; simpl; try done; try (unfold padding_limit, UINT16_MAX; lia); try lia; constructor.
Qed.

(** Any registration, well formed or not. *)
Lemma register_any h w c ts l ls r rs k :
  chain_ok sizeof_line h c ts ->
  exists ok w' c', tunnelchainRegisterLayerRelation w c l ls r rs k = (ok, w', c') /\
    chain_ok sizeof_line h c' ts /\
    if ok : bool then w' = w else w' = startupFailureRecord w /\ c' = c.
Proof.
  intros C. destruct l as [l|], r as [r|];
    try (exists false; do 2 eexists; split; [reflexivity|done]).
  destruct ((negb (ls =? kTunnelLayerSidePrev) && negb (ls =? kTunnelLayerSideNext)) ||
    (negb (rs =? kTunnelLayerSidePrev) && negb (rs =? kTunnelLayerSideNext)) ||
    (negb (k =? kTunnelLayerRelationSame) && negb (k =? kTunnelLayerRelationOpposite)))%bool eqn:V.
  { exists false. do 2 eexists. unfold tunnelchainRegisterLayerRelation. by rewrite V. }
  destruct (finalized c) eqn:F.
  { exists false. do 2 eexists. unfold tunnelchainRegisterLayerRelation. by rewrite V, F. }
  set (x := mk_reg l ls r rs k).
  destruct (Z.leb_spec (zlen (add_relation (layer_relations c) x)) kMaxLayerRelations) as [L|L].
  - destruct (chain_ok_register h w c ts x C) as (c' & E & R & C' & _); [|done|done|].
    { unfold valid_relation; simpl.
      rewrite !orb_false_iff, !andb_false_iff, !negb_false_iff, !Z.eqb_eq in V. tauto. }
    by exists true, w, c'.
  - exists false. do 2 eexists. unfold tunnelchainRegisterLayerRelation. rewrite V, F. fold x.
    unfold add_relation in L. pose proof (ok_relations _ _ _ _ C).
    destruct (existsb _ _); [lia|]. rewrite zlen_app in L. change (zlen [x]) with 1 in L.
    by rewrite Z.geb_leb, (proj2 (Z.leb_le _ _)) by lia.
Qed.

Lemma run_op_spec self w c ts op :
  chain_ok sizeof_line (heap w) c ts -> Forall (fun t => tunnel_ok (heap w t)) (op_inserts op) ->
  exists w' c' ts', run_op self w c op = Ok (w', c') /\ same_shape (heap w) (heap w') /\
    chain_ok sizeof_line (heap w') c' ts' /\
    (startup_failed w' = false -> startup_failed w = false /\ ts' ≡ₚ op_inserts op ++ ts).
Proof.
  intros C T. destruct op as [t i|l ls r rs k]; simpl in *.
  - rewrite Forall_singleton in T. pose proof (insert_at_spec w self c ts t i C T) as I.
    destruct (decide _).
    + destruct I as (c' & E & C' & _). do 3 eexists. split; [exact E|].
      split; [apply set_chain_shape|]. split; [exact C'|]. intros F. split; [done|].
      apply insert_at_perm.
    + do 3 eexists. by split; [exact I|].
  - destruct (register_any (heap w) w c ts l ls r rs k C) as ([] & w' & c' & -> & C' & D).
    + subst w'. by exists w, c', ts.
    + destruct D as [-> ->]. by eexists _, c, ts.
Qed.

(** Building a chain never faults and keeps it well formed, whatever the
    sequence of insertions and registrations, the positions asked for and the
    sizes involved: the aggregate padding and line-state sizes are the exact
    sums over the member tunnels, both respect their limits, at most 64 tunnels
    and 128 relations are held and no relation is stated twice.  Unless a
    startup failure was recorded, every insertion took effect. *)
Theorem tunnelchain_build_ok self n ops : forall w,
  Forall (fun t => tunnel_ok (heap w t)) (mjoin (op_inserts <$> ops)) ->
  exists w' c ts, run_ops self w (tunnelchainCreate n) ops = Ok (w', c) /\
    chain_ok sizeof_line (heap w') c ts /\
    (startup_failed w' = false -> ts ≡ₚ mjoin (op_inserts <$> ops)).
Proof.
  intros w T.
  enough (forall w c ts, chain_ok sizeof_line (heap w) c ts ->
    Forall (fun t => tunnel_ok (heap w t)) (mjoin (op_inserts <$> ops)) ->
    exists w' c' ts', run_ops self w c ops = Ok (w', c') /\ chain_ok sizeof_line (heap w') c' ts' /\
      (startup_failed w' = false -> startup_failed w = false /\
         ts' ≡ₚ mjoin (op_inserts <$> ops) ++ ts)) as G.
  { destruct (G w _ _ (chain_ok_create (heap w) n) T) as (w' & c' & ts' & E & C & P).
    exists w', c', ts'. splits; [done..|]. intros F. destruct (P F) as [_ ->]. by rewrite app_nil_r. }
  clear T w. induction ops as [|op ops IH]; intros w c ts C T; [by exists w, c, ts|].
  rewrite fmap_cons in T |- *. cbn [mjoin list_join run_ops] in *.
  apply Forall_app in T as [T1 T2].
  destruct (run_op_spec self w c ts op C T1) as (w1 & c1 & ts1 & -> & S1 & C1 & P1).
  change (Ok ?x ≫= ?k) with (k x). cbv beta iota.
  destruct (IH w1 c1 ts1 C1) as (w2 & c2 & ts2 & E2 & C2 & P2).
  { eapply Forall_impl; [exact T2|]. intros x. eauto with ww. }
  exists w2, c2, ts2. splits; [done..|]. intros F. destruct (P2 F) as [F1 Q2].
  destruct (P1 F1) as [F0 Q1]. split; [done|]. rewrite Q2, Q1. unfold mjoin. solve_Permutation.
Qed.
End Aggregates.

(** ** A concrete configuration *)

Definition demo_node : node_t := mk_node "Demo" 0 16 4 4 4 true true None.
Definition demo_tunnel : tunnel_t := mk_tunnel None None None 64 (Some demo_node).
Definition demo_world : world := mk_world (fun _ => demo_tunnel) false.
Definition demo_relation : tunnel_layer_relation_registration_t :=
  mk_reg 1%nat kTunnelLayerSidePrev 2%nat kTunnelLayerSideNext kTunnelLayerRelationOpposite.
Definition demo_chain (ts : list ptr) (rs : list tunnel_layer_relation_registration_t)
  : tunnel_chain_t :=
  mk_chain (Some <$> ts) (16 * zlen ts) (64 * zlen ts) 4 false false false false false rs
    no_layers no_layers.

Lemma demo_chain_ok (ts : list ptr) (rs : list tunnel_layer_relation_registration_t) :
  zlen ts <= kMaxChainLen -> zlen rs <= 1 -> Forall valid_relation rs ->
  chain_ok 256 (heap demo_world) (demo_chain ts rs) ts.
Proof.
  intros H1 H2 H3. pose proof (zlen_nonneg ts). change kMaxChainLen with 64 in H1.
  assert (forall f, sum_over f (heap demo_world) ts = f demo_tunnel * zlen ts) as S.
  { intros f. unfold sum_over, zlen. clear. induction ts as [|t ts IH]; simpl; [lia|].
    simpl in IH. rewrite IH. lia. }
  split; simpl; rewrite ?S; try done;
    try (unfold padding_limit, line_item_limit, UINT16_MAX, UINT32_MAX; change CACHE_LINE with 64; lia).
  - apply Forall_true. intros t. split; [by compute|]. exists demo_node. by compute.
  - change kMaxLayerRelations with 128. lia.
  - destruct rs as [|r [|]]; [constructor| |unfold zlen in H2; simpl in H2; lia].
    apply (distinct_snoc []); [constructor|]. by intros r' ?%elem_of_nil.
Qed.


Lemma tunnelchain_build_ok_witness :
  exists w' c ts, run_ops 256 9%nat demo_world (tunnelchainCreate 4)
      [OpInsertAt 1%nat 0; OpInsertAt 2%nat 0; OpRegister (Some 1%nat) 0 (Some 2%nat) 1 2;
       OpInsertAt 3%nat 7] = Ok (w', c) /\
    chain_ok 256 (heap w') c ts.
Proof.
  assert (0 <= 256 <= line_item_limit) as L by by compute.
  destruct (tunnelchain_build_ok 256 L 9%nat 4
    [OpInsertAt 1%nat 0; OpInsertAt 2%nat 0; OpRegister (Some 1%nat) 0 (Some 2%nat) 1 2; OpInsertAt 3%nat 7]
    demo_world) as (w' & c & ts & E & C & _).
  - apply Forall_true. intros t. split; [by compute|]. exists demo_node. by compute.
  - by exists w', c, ts.
Defined.
