(* ===== verification/LayerSolver.v ===== *)
(** * The layer solver ([ww/net/node_layer_solver.h], [ww/net/node_layer_solver.c])

    Decides for every link of an assembled chain whether packets (layer 3) or
    streams (layer 4) may cross it.  A link is an edge with a two-bit domain; the
    node descriptions seed the domains, relations between edges (same layer,
    opposite layers) are propagated to a fixed point, and the result is cached in
    the chain.  An edge pointer of the code is the index of the edge in the
    array; the two arrays on the stack have 128 and 256 entries, and writing
    past them is a fault.  The status the caller passes is present and zeroed;
    its message text is not modelled, but the pointers read to print it are. *)

From Stdlib Require Import ZArith Lia.
From stdpp Require Import base numbers option strings functions list.
From S2P Require Import Prelude Chain.
Open Scope Z_scope.
Open Scope word_scope.

Definition kNodeLayerNone : Z := Z.shiftl 1 0.
Definition kNodeLayer3 : Z := Z.shiftl 1 2.
Definition kNodeLayer4 : Z := Z.shiftl 1 3.
Definition kNodeLayerAnything : Z := Z.lor kNodeLayer3 kNodeLayer4.
Definition kNodeLayerSameAsNext : Z := Z.shiftl 1 4.
Definition kNodeLayerSameAsPrev : Z := Z.shiftl 1 5.
Definition kNodeLayerOppositeNext : Z := Z.shiftl 1 6.
Definition kNodeLayerOppositePrev : Z := Z.shiftl 1 7.

Definition kLayerDomainEmpty : Z := 0.
Definition kLayerDomainL3 : Z := Z.shiftl 1 0.
Definition kLayerDomainL4 : Z := Z.shiftl 1 1.
Definition kLayerDomainAny : Z := Z.lor kLayerDomainL3 kLayerDomainL4.

Definition nodeLayerDomainFlip (domain : Z) : Z :=
  if domain =? kLayerDomainL3 then kLayerDomainL4
  else if domain =? kLayerDomainL4 then kLayerDomainL3
  else if domain =? kLayerDomainAny then kLayerDomainAny
  else kLayerDomainEmpty.

Definition nodeLayerGroupToDomain (group : Z) : Z :=
  let d := kLayerDomainEmpty in
  let d := if negb (Z.land group kNodeLayer3 =? 0) then Z.lor d kLayerDomainL3 else d in
  if negb (Z.land group kNodeLayer4 =? 0) then Z.lor d kLayerDomainL4 else d.

Inductive node_layer_solver_code_t : Set :=
  | kNodeLayerSolverErrMetadataShape
  | kNodeLayerSolverErrStructural
  | kNodeLayerSolverErrRelativeMissingSide
  | kNodeLayerSolverErrConflict
  | kNodeLayerSolverErrConvergence.

Record node_layer_solver_status_t : Type := mk_status {
  code : node_layer_solver_code_t;
  primary_tunnel : option ptr;
  secondary_tunnel : option ptr
}.

(** A computation of the solver goes on, rejects the chain or faults. *)
Inductive solved (A : Type) : Type :=
  | Solved (a : A)
  | Rejected (s : node_layer_solver_status_t)
  | Faulted (f : fault).
Arguments Solved {A} a.
Arguments Rejected {A} s.
Arguments Faulted {A} f.

#[export] Instance solved_ret : MRet solved := fun A a => Solved a.
#[export] Instance solved_bind : MBind solved := fun A B f m =>
  match m with
  | Solved a => f a
  | Rejected s => Rejected s
  | Faulted e => Faulted e
  end.

Definition reject_if (b : bool) (s : node_layer_solver_status_t) : solved unit :=
  if b then Rejected s else Solved tt.

(** [p->node], read through a pointer. *)
Definition deref {A} (p : option A) : solved A :=
  match p with Some a => Solved a | None => Faulted MemoryFault end.

Definition is_null {A} (p : option A) : bool :=
  match p with None => true | Some _ => false end.
Definition non_null {A} (p : option A) : bool := negb (is_null p).

Definition has_flag (mask flag : Z) : bool := negb (Z.land mask flag =? 0).

(** ** Edges *)

Record node_layer_edge_t : Type := mk_edge {
  e_from : ptr;
  e_to : ptr;
  from_participates : bool;
  to_participates : bool;
  domain : Z
}.

Record node_layer_relation_t : Type := mk_rel {
  rel_kind : Z;
  e_left : nat;
  e_right : nat;
  rel_tunnel : ptr;
  rel_secondary_tunnel : option ptr;
  rel_left_side : Z;
  rel_right_side : Z
}.

Definition kRelationSameAs : Z := 1.
Definition kRelationOpposite : Z := 2.

Definition kMaxEdges : Z := kMaxChainLen * 2.
Definition kMaxRelations : Z := kMaxChainLen * 4.

Definition tunnelIsInChain (c : tunnel_chain_t) (t : option ptr) : bool :=
  match t with
  | None => false
  | Some _ => existsb (fun x => bool_decide (x = t)) (tunnels c)
  end.

Fixpoint findEdge (edges : list node_layer_edge_t) (from to : ptr) : option nat :=
  match edges with
  | [] => None
  | e :: edges' =>
      if bool_decide (e_from e = from) && bool_decide (e_to e = to) then Some 0%nat
      else S <$> findEdge edges' from to
  end.

Definition findOrAddEdge (edges : list node_layer_edge_t) (from to : ptr)
  : solved (list node_layer_edge_t * nat) :=
  match findEdge edges from to with
  | Some i => mret (edges, i)
  | None =>
      if zlen edges <? kMaxEdges
      then mret (edges ++ [mk_edge from to false false kLayerDomainAny], length edges)
      else Faulted MemoryFault
  end.

Definition addRelation (relations : list node_layer_relation_t) (kind : Z) (el er : nat)
    (t : ptr) (sec : option ptr) (ls rs : Z) : solved (list node_layer_relation_t) :=
  if existsb (fun r => (rel_kind r =? kind) &&
       ((bool_decide (e_left r = el) && bool_decide (e_right r = er)) ||
        (bool_decide (e_left r = er) && bool_decide (e_right r = el)))) relations
  then mret relations
  else if zlen relations <? kMaxRelations
  then mret (relations ++ [mk_rel kind el er t sec ls rs])
  else Faulted MemoryFault.

Definition set_from_participates (e : node_layer_edge_t) : node_layer_edge_t :=
  mk_edge (e_from e) (e_to e) true (to_participates e) (domain e).
Definition set_to_participates (e : node_layer_edge_t) : node_layer_edge_t :=
  mk_edge (e_from e) (e_to e) (from_participates e) true (domain e).
Definition set_domain (d : Z) (e : node_layer_edge_t) : node_layer_edge_t :=
  mk_edge (e_from e) (e_to e) (from_participates e) (to_participates e) d.

(** ** Validation of one node and of one tunnel *)

Definition nodeLayerValidateNodeMetadata (node : option node_t) : solved unit :=
  match node with
  | None => Rejected (mk_status kNodeLayerSolverErrMetadataShape None None)
  | Some nd =>
      let bad := mk_status kNodeLayerSolverErrMetadataShape (instance nd) None in
      let lg := layer_group nd in
      let req_next := layer_group_next_node nd in
      let req_prev := layer_group_prev_node nd in
      let next_legal :=
        (req_next =? kNodeLayerNone) || (req_next =? kNodeLayer3) ||
        (req_next =? kNodeLayer4) || (req_next =? kNodeLayerAnything) ||
        (req_next =? kNodeLayerSameAsPrev) ||
        (req_next =? Z.lor kNodeLayer3 kNodeLayerOppositePrev) ||
        (req_next =? Z.lor kNodeLayer4 kNodeLayerOppositePrev) ||
        (req_next =? Z.lor kNodeLayerAnything kNodeLayerOppositePrev) in
      let prev_legal :=
        (req_prev =? kNodeLayerNone) || (req_prev =? kNodeLayer3) ||
        (req_prev =? kNodeLayer4) || (req_prev =? kNodeLayerAnything) ||
        (req_prev =? kNodeLayerSameAsNext) ||
        (req_prev =? Z.lor kNodeLayer3 kNodeLayerOppositeNext) ||
        (req_prev =? Z.lor kNodeLayer4 kNodeLayerOppositeNext) ||
        (req_prev =? Z.lor kNodeLayerAnything kNodeLayerOppositeNext) in
      _ ← reject_if (negb (lg =? kNodeLayerNone) && negb (lg =? kNodeLayer3) &&
                     negb (lg =? kNodeLayer4) && negb (lg =? kNodeLayerAnything)) bad;
      _ ← reject_if (negb next_legal) bad;
      _ ← reject_if (negb prev_legal) bad;
      _ ← reject_if (negb (can_have_next nd) && negb (req_next =? kNodeLayerNone)) bad;
      reject_if (negb (can_have_prev nd) && negb (req_prev =? kNodeLayerNone)) bad
  end.

Section Solver.
Context (h : ptr -> tunnel_t) (c : tunnel_chain_t).

(** The checks of one round on the layer groups a tunnel states for its sides. *)
Definition validate_sides (t : ptr) (nd : node_t) : solved unit :=
  let nx := next (h t) in
  let pv := prev (h t) in
  let structural := mk_status kNodeLayerSolverErrStructural (Some t) in
  let missing := mk_status kNodeLayerSolverErrRelativeMissingSide (Some t) None in
  _ ← (if non_null nx && (layer_group_next_node nd =? kNodeLayerNone)
       then t' ← deref nx; _ ← deref (node (h t')); Rejected (structural nx)
       else Solved tt);
  _ ← (if non_null pv && (layer_group_prev_node nd =? kNodeLayerNone)
       then t' ← deref pv; _ ← deref (node (h t')); Rejected (structural pv)
       else Solved tt);
  _ ← reject_if (has_flag (layer_group_next_node nd) kNodeLayerOppositePrev &&
                 (is_null nx || is_null pv)) missing;
  reject_if (has_flag (layer_group_prev_node nd) kNodeLayerOppositeNext &&
             (is_null pv || is_null nx)) missing.

(** One round of the validation loop. *)
Definition validate_tunnel (p : option ptr) : solved unit :=
  match p with
  | None => Rejected (mk_status kNodeLayerSolverErrStructural None None)
  | Some t =>
      match node (h t) with
      | None => Rejected (mk_status kNodeLayerSolverErrStructural None None)
      | Some nd =>
          let nx := next (h t) in
          let pv := prev (h t) in
          let no_chain := has_flag (node_flags nd) kNodeFlagNoChain in
          let structural := mk_status kNodeLayerSolverErrStructural (Some t) in
          _ ← nodeLayerValidateNodeMetadata (Some nd);
          _ ← reject_if (is_null nx && is_null pv && negb no_chain) (structural None);
          _ ← reject_if (negb (has_flag (node_flags nd) (Z.lor kNodeFlagChainHead kNodeFlagChainEnd)) &&
                         no_chain && (non_null nx || non_null pv)) (structural None);
          _ ← reject_if (non_null nx && negb (can_have_next nd)) (structural nx);
          _ ← reject_if (non_null pv && negb (can_have_prev nd)) (structural pv);
          _ ← reject_if (is_null nx && negb (has_flag (node_flags nd) kNodeFlagChainEnd) &&
                         negb no_chain) (structural None);
          _ ← reject_if (is_null pv && negb (has_flag (node_flags nd) kNodeFlagChainHead) &&
                         negb no_chain) (structural None);
          _ ← reject_if (non_null nx && negb (tunnelIsInChain c nx)) (structural nx);
          _ ← reject_if (non_null pv && negb (tunnelIsInChain c pv)) (structural pv);
          validate_sides t nd
      end
  end.

Fixpoint validate_all (ts : list (option ptr)) : solved unit :=
  match ts with
  | [] => mret tt
  | p :: ts' => _ ← validate_tunnel p; validate_all ts'
  end.

(** ** The edge graph *)

Definition add_edges (edges : list node_layer_edge_t) (p : option ptr)
  : solved (list node_layer_edge_t) :=
  t ← deref p;
  edges ← match next (h t) with
          | None => mret edges
          | Some t' =>
              '(edges, i) ← findOrAddEdge edges t t';
              mret (alter set_from_participates i edges)
          end;
  match prev (h t) with
  | None => mret edges
  | Some t' =>
      '(edges, i) ← findOrAddEdge edges t' t;
      mret (alter set_to_participates i edges)
  end.

Fixpoint build_edges (edges : list node_layer_edge_t) (ts : list (option ptr))
  : solved (list node_layer_edge_t) :=
  match ts with
  | [] => mret edges
  | p :: ts' => edges ← add_edges edges p; build_edges edges ts'
  end.

(** [edge->domain &= ...] for the node the edge leaves, with the check for an
    empty domain, and then for the node it enters. *)
Definition seed_from (e : node_layer_edge_t) : solved node_layer_edge_t :=
  if from_participates e then
    nd ← deref (node (h (e_from e)));
    let d := Z.land (domain e) (nodeLayerGroupToDomain (layer_group nd)) in
    let d := if has_flag (layer_group_next_node nd) kNodeLayerAnything
             then Z.land d (nodeLayerGroupToDomain (Z.land (layer_group_next_node nd) kNodeLayerAnything))
             else d in
    if d =? kLayerDomainEmpty
    then Rejected (mk_status kNodeLayerSolverErrConflict (Some (e_from e)) (Some (e_to e)))
    else mret (set_domain d e)
  else mret e.

Definition seed_to (e : node_layer_edge_t) : solved node_layer_edge_t :=
  if to_participates e then
    nd ← deref (node (h (e_to e)));
    let to_dom := nodeLayerGroupToDomain (layer_group nd) in
    if Z.land (domain e) to_dom =? kLayerDomainEmpty
    then _ ← deref (node (h (e_from e)));
         Rejected (mk_status kNodeLayerSolverErrConflict (Some (e_from e)) (Some (e_to e)))
    else
      let e := set_domain (Z.land (domain e) to_dom) e in
      if has_flag (layer_group_prev_node nd) kNodeLayerAnything then
        let prev_req_dom :=
          nodeLayerGroupToDomain (Z.land (layer_group_prev_node nd) kNodeLayerAnything) in
        if Z.land (domain e) prev_req_dom =? kLayerDomainEmpty
        then _ ← deref (node (h (e_from e)));
             Rejected (mk_status kNodeLayerSolverErrConflict (Some (e_to e)) (Some (e_from e)))
        else mret (set_domain (Z.land (domain e) prev_req_dom) e)
      else mret e
  else mret e.

Fixpoint seed_all (edges : list node_layer_edge_t) : solved (list node_layer_edge_t) :=
  match edges with
  | [] => mret []
  | e :: edges' =>
      e ← seed_from e; e ← seed_to e;
      edges' ← seed_all edges'; mret (e :: edges')
  end.

(** ** Relations *)

(** The edge of [t] on one side, when [t] takes part in it. *)
Definition side_edge (edges : list node_layer_edge_t) (t : ptr) (side : Z) : option nat :=
  if side =? kTunnelLayerSidePrev then
    t' ← prev (h t); i ← findEdge edges t' t; e ← edges !! i;
    if to_participates e then Some i else None
  else
    t' ← next (h t); i ← findEdge edges t t'; e ← edges !! i;
    if from_participates e then Some i else None.

Definition node_relations (edges : list node_layer_edge_t) (relations : list node_layer_relation_t)
    (p : option ptr) : solved (list node_layer_relation_t) :=
  t ← deref p;
  match prev (h t), next (h t) with
  | Some _, Some _ =>
      match side_edge edges t kTunnelLayerSidePrev, side_edge edges t kTunnelLayerSideNext with
      | Some i, Some j =>
          nd ← deref (node (h t));
          let add rs kind := addRelation rs kind i j t None kTunnelLayerSidePrev kTunnelLayerSideNext in
          rs ← (if layer_group_next_node nd =? kNodeLayerSameAsPrev
                then add relations kRelationSameAs else mret relations);
          rs ← (if has_flag (layer_group_next_node nd) kNodeLayerOppositePrev
                then add rs kRelationOpposite else mret rs);
          rs ← (if layer_group_prev_node nd =? kNodeLayerSameAsNext
                then add rs kRelationSameAs else mret rs);
          (if has_flag (layer_group_prev_node nd) kNodeLayerOppositeNext
           then add rs kRelationOpposite else mret rs)
      | _, _ => mret relations
      end
  | _, _ => mret relations
  end.

Fixpoint all_node_relations (edges : list node_layer_edge_t)
    (relations : list node_layer_relation_t) (ts : list (option ptr))
  : solved (list node_layer_relation_t) :=
  match ts with
  | [] => mret relations
  | p :: ts' => rs ← node_relations edges relations p; all_node_relations edges rs ts'
  end.

Definition registered_relation (edges : list node_layer_edge_t)
    (relations : list node_layer_relation_t) (reg : tunnel_layer_relation_registration_t)
  : solved (list node_layer_relation_t) :=
  let bad t := mk_status kNodeLayerSolverErrStructural (Some t) None in
  _ ← reject_if (negb (tunnelIsInChain c (Some (left_tunnel reg)))) (bad (left_tunnel reg));
  _ ← reject_if (negb (tunnelIsInChain c (Some (right_tunnel reg)))) (bad (right_tunnel reg));
  match side_edge edges (left_tunnel reg) (left_side reg),
        side_edge edges (right_tunnel reg) (right_side reg) with
  | None, None => mret relations
  | None, _ => Rejected (bad (left_tunnel reg))
  | _, None => Rejected (bad (right_tunnel reg))
  | Some i, Some j =>
      let rkind := if reg_kind reg =? kTunnelLayerRelationSame then kRelationSameAs
                   else kRelationOpposite in
      addRelation relations rkind i j (left_tunnel reg) (Some (right_tunnel reg))
        (left_side reg) (right_side reg)
  end.

Fixpoint registered_relations (edges : list node_layer_edge_t)
    (relations : list node_layer_relation_t) (regs : list tunnel_layer_relation_registration_t)
  : solved (list node_layer_relation_t) :=
  match regs with
  | [] => mret relations
  | reg :: regs' =>
      rs ← registered_relation edges relations reg; registered_relations edges rs regs'
  end.

(** ** Propagation *)

Definition edge_at (edges : list node_layer_edge_t) (i : nat) : solved node_layer_edge_t :=
  deref (edges !! i).

(** [if (e->domain != d) { e->domain = d; changed = true; }] *)
Definition narrow (edges : list node_layer_edge_t) (i : nat) (d : Z)
  : solved (list node_layer_edge_t * bool) :=
  e ← edge_at edges i;
  if domain e =? d then mret (edges, false) else mret (<[i := set_domain d e]> edges, true).

Definition conflict_status (r : node_layer_relation_t) : node_layer_solver_status_t :=
  mk_status kNodeLayerSolverErrConflict (Some (rel_tunnel r)) (rel_secondary_tunnel r).

(** The conflict message reads the node of a relation a node itself demands. *)
Definition reject_conflict {A} (r : node_layer_relation_t) : solved A :=
  match rel_secondary_tunnel r with
  | Some _ => Rejected (conflict_status r)
  | None => _ ← deref (node (h (rel_tunnel r))); Rejected (conflict_status r)
  end.

Definition propagate_relation (edges : list node_layer_edge_t) (r : node_layer_relation_t)
  : solved (list node_layer_edge_t * bool) :=
  el ← edge_at edges (e_left r);
  er ← edge_at edges (e_right r);
  if rel_kind r =? kRelationSameAs then
    let inter := Z.land (domain el) (domain er) in
    if inter =? kLayerDomainEmpty then reject_conflict r else
    '(edges, c1) ← narrow edges (e_left r) inter;
    '(edges, c2) ← narrow edges (e_right r) inter;
    mret (edges, c1 || c2)
  else if rel_kind r =? kRelationOpposite then
    let new_left := Z.land (domain el) (nodeLayerDomainFlip (domain er)) in
    let new_right := Z.land (domain er) (nodeLayerDomainFlip (domain el)) in
    if (new_left =? kLayerDomainEmpty) || (new_right =? kLayerDomainEmpty)
    then reject_conflict r else
    '(edges, c1) ← narrow edges (e_left r) new_left;
    '(edges, c2) ← narrow edges (e_right r) new_right;
    mret (edges, c1 || c2)
  else mret (edges, false).

Fixpoint propagate_pass (edges : list node_layer_edge_t) (relations : list node_layer_relation_t)
    (changed : bool) : solved (list node_layer_edge_t * bool) :=
  match relations with
  | [] => mret (edges, changed)
  | r :: rs =>
      '(edges, ch) ← propagate_relation edges r;
      propagate_pass edges rs (changed || ch)
  end.

(** [left] is the number of iterations still allowed. *)
Fixpoint propagate (left : nat) (edges : list node_layer_edge_t)
    (relations : list node_layer_relation_t) : solved (list node_layer_edge_t) :=
  match left with
  | O => Rejected (mk_status kNodeLayerSolverErrConvergence None None)
  | S left' =>
      '(edges, changed) ← propagate_pass edges relations false;
      if changed : bool then propagate left' edges relations else mret edges
  end.

(** ** The cached solution *)

Definition side_domain (edges : list node_layer_edge_t) (t : ptr) (side : Z) : Z :=
  match side_edge edges t side ≫= fun i => edges !! i with
  | Some e => domain e
  | None => kLayerDomainEmpty
  end.

Fixpoint cache_layers (edges : list node_layer_edge_t) (i : nat) (ts : list (option ptr))
    (prevs nexts : list Z) : solved (list Z * list Z) :=
  match ts with
  | [] => mret (prevs, nexts)
  | p :: ts' =>
      t ← deref p;
      if Z.of_nat i <? kMaxChainLen then
        cache_layers edges (S i) ts'
          (<[i := side_domain edges t kTunnelLayerSidePrev]> prevs)
          (<[i := side_domain edges t kTunnelLayerSideNext]> nexts)
      else Faulted MemoryFault
  end.

Definition fixed_to_l3 (p : option ptr) : solved bool :=
  t ← deref p;
  nd ← deref (node (h t));
  let only3 g := (Z.land g kNodeLayer3 =? kNodeLayer3) && (Z.land g kNodeLayer4 =? 0) in
  mret ((layer_group nd =? kNodeLayer3) ||
        (non_null (next (h t)) && only3 (layer_group_next_node nd)) ||
        (non_null (prev (h t)) && only3 (layer_group_prev_node nd))).

Fixpoint any_fixed_to_l3 (ts : list (option ptr)) : solved bool :=
  match ts with
  | [] => mret false
  | p :: ts' => b ← fixed_to_l3 p; if b : bool then mret true else any_fixed_to_l3 ts'
  end.

Definition is_packet_chain (edges : list node_layer_edge_t)
    (relations : list node_layer_relation_t) : solved bool :=
  if existsb (fun e => domain e =? kLayerDomainL3) edges then mret true else
  b ← any_fixed_to_l3 (tunnels c);
  if b : bool then mret true else
  mret (existsb (fun r => rel_kind r =? kRelationOpposite) relations).

(** ** The solver *)

Definition solve_edges : solved (list node_layer_edge_t * list node_layer_relation_t) :=
  _ ← validate_all (tunnels c);
  edges ← build_edges [] (tunnels c);
  edges ← seed_all edges;
  relations ← all_node_relations edges [] (tunnels c);
  relations ← registered_relations edges relations (layer_relations c);
  edges ← propagate (2 * length edges + 2) edges relations;
  mret (edges, relations).
End Solver.

Definition reset_solution (c : tunnel_chain_t) : tunnel_chain_t :=
  mk_chain (tunnels c) (sum_padding_left c) (sum_line_state_size c) (workers_count c) false
    (mux_client_tunnel_present c) (mux_server_tunnel_present c) false (finalized c)
    (layer_relations c) no_layers no_layers.

Definition publish_solution (c : tunnel_chain_t) (packet : bool) (prevs nexts : list Z)
  : tunnel_chain_t :=
  mk_chain (tunnels c) (sum_padding_left c) (sum_line_state_size c) (workers_count c) packet
    (mux_client_tunnel_present c) (mux_server_tunnel_present c) true (finalized c)
    (layer_relations c) prevs nexts.

Definition solve_chain (h : ptr -> tunnel_t) (c : tunnel_chain_t) : solved tunnel_chain_t :=
  if zlen (tunnels c) =? 0 then mret (publish_solution c false no_layers no_layers) else
  '(edges, relations) ← solve_edges h c;
  '(prevs, nexts) ← cache_layers h edges 0 (tunnels c) no_layers no_layers;
  packet ← is_packet_chain h c edges relations;
  mret (publish_solution c packet prevs nexts).

(** Returns the chain and, when the result is [false], the status. *)
Definition nodeLayerSolveChain (h : ptr -> tunnel_t) (chain : option tunnel_chain_t)
  : outcome (option tunnel_chain_t * option node_layer_solver_status_t) :=
  match chain with
  | None => mret (None, Some (mk_status kNodeLayerSolverErrStructural None None))
  | Some c =>
      let c := reset_solution c in
      match solve_chain h c with
      | Solved c' => mret (Some c', None)
      | Rejected s => mret (Some c, Some s)
      | Faulted f => Fail f
      end
  end.
