(* ===== verification/LayerProofs.v ===== *)
(** * Correctness of the layer solver

    What a layer assignment must satisfy is stated over the node descriptions
    and the registered relations alone ([satisfies]); the theorems relate the
    solver of [LayerSolver] to it.  Each phase of the solver has a
    specification of the form [wp m Q E]: it does not fault, its result satisfies
    [Q] and a rejection satisfies [E]. *)

From Stdlib Require Import ZArith Lia.
From stdpp Require Import base numbers option strings functions sets list.
From S2P Require Import Prelude Chain LayerSolver.
Open Scope Z_scope.

(** ** Domains as sets of layers *)

Inductive layer : Set := L3 | L4.

Definition other (l : layer) : layer := match l with L3 => L4 | L4 => L3 end.
Definition allows (d : Z) (l : layer) : bool := Z.testbit d (match l with L3 => 0 | L4 => 1 end).
Definition group_allows (g : Z) (l : layer) : bool :=
  Z.testbit g (match l with L3 => 2 | L4 => 3 end).
Definition is_domain (d : Z) : Prop := 0 <= d <= 3.

Lemma is_domain_cases (d : Z) : is_domain d -> d = 0 \/ d = 1 \/ d = 2 \/ d = 3.
Proof. unfold is_domain. lia. Qed.

(** Case analysis on the domains in the context. *)
Ltac domain_cases :=
  repeat match goal with
  | H : is_domain ?d |- _ =>
      apply is_domain_cases in H; destruct H as [H|[H|[H|H]]]; rewrite ?H in *
  end.

Lemma allows_land (d d' : Z) (l : layer) : allows (Z.land d d') l = allows d l && allows d' l.
Proof. apply Z.land_spec. Qed.

Lemma is_domain_land (d d' : Z) : is_domain d -> is_domain (Z.land d d').
Proof.
  unfold is_domain. intros H. pose proof (land_range 2 d d' ltac:(lia)) as R.
  change (2 ^ 2) with 4 in R. lia.
Qed.

Lemma is_domain_group (g : Z) : is_domain (nodeLayerGroupToDomain g).
Proof.
  unfold nodeLayerGroupToDomain, is_domain. repeat case_match; compute; intuition discriminate.
Qed.

Lemma allows_group (g : Z) (l : layer) : allows (nodeLayerGroupToDomain g) l = group_allows g l.
Proof.
  unfold nodeLayerGroupToDomain. change kNodeLayer3 with (2 ^ 2). change kNodeLayer4 with (2 ^ 3).
  rewrite !land_bit_zero, !negb_involutive by lia. unfold group_allows.
  destruct l; destruct (Z.testbit g 2), (Z.testbit g 3); reflexivity.
Qed.

Lemma allows_flip (d : Z) (l : layer) :
  is_domain d -> allows (nodeLayerDomainFlip d) l = allows d (other l).
Proof. intros. domain_cases; destruct l; reflexivity. Qed.

Lemma is_domain_flip (d : Z) : is_domain (nodeLayerDomainFlip d).
Proof.
  unfold nodeLayerDomainFlip, is_domain. repeat case_match; compute; intuition discriminate.
Qed.

Lemma domain_nonempty (d : Z) : is_domain d -> d <> 0 -> exists l, allows d l = true.
Proof. intros. domain_cases; [done|by exists L3|by exists L4|by exists L3]. Qed.

Lemma domain_empty (d : Z) (l : layer) : d = 0 -> allows d l = false.
Proof. intros ->. by destruct l. Qed.

Lemma domain_ext (d d' : Z) :
  is_domain d -> is_domain d' -> (forall l, allows d l = allows d' l) -> d = d'.
Proof.
  intros H H' E. pose proof (E L3) as E3. pose proof (E L4) as E4.
  domain_cases; done.
Qed.

Lemma has_anything (g : Z) :
  has_flag g kNodeLayerAnything = group_allows g L3 || group_allows g L4.
Proof.
  unfold has_flag, group_allows. destruct (Z.land g kNodeLayerAnything =? 0) eqn:E; bool_facts.
  - assert (forall n, Z.testbit (Z.land g kNodeLayerAnything) n = false) as B
      by (intros; by rewrite E, Z.bits_0).
    pose proof (B 2) as B2. pose proof (B 3) as B3. rewrite Z.land_spec in B2, B3.
    change (Z.testbit kNodeLayerAnything 2) with true in B2.
    change (Z.testbit kNodeLayerAnything 3) with true in B3.
    rewrite andb_true_r in B2, B3. by rewrite B2, B3.
  - symmetry. apply not_false_iff_true. intros B. apply orb_false_iff in B as [B2 B3].
    apply E. apply Z.bits_inj'. intros n Hn. rewrite Z.land_spec, Z.bits_0.
    destruct (decide (n = 2)) as [->|]; [by rewrite B2|].
    destruct (decide (n = 3)) as [->|]; [by rewrite B3|].
    replace (Z.testbit kNodeLayerAnything n) with false; [apply andb_false_r|].
    symmetry. change kNodeLayerAnything with (Z.lor (2 ^ 2) (2 ^ 3)).
    by rewrite Z.lor_spec, !Z.pow2_bits_false by lia.
Qed.

Lemma group_allows_masked (g : Z) (l : layer) :
  group_allows (Z.land g kNodeLayerAnything) l = group_allows g l.
Proof.
  unfold group_allows. rewrite Z.land_spec. destruct l; apply andb_true_r.
Qed.

(** ** What an assignment of layers must satisfy *)

(** The layer of the link from one tunnel to another. *)
Definition assignment : Type := ptr -> ptr -> layer.

Definition side_layer (h : ptr -> tunnel_t) (a : assignment) (t : ptr) (side : Z) : option layer :=
  if side =? kTunnelLayerSidePrev
  then (fun t' => a t' t) <$> prev (h t)
  else (fun t' => a t t') <$> next (h t).

(** The layers a node admits on one side: its own group, and the requirement of
    that side when it names base layers. *)
Definition admits (own req : Z) (l : layer) : Prop :=
  group_allows own l = true /\ (has_flag req kNodeLayerAnything = true -> group_allows req l = true).

Definition wants_same (nd : node_t) : Prop :=
  layer_group_next_node nd = kNodeLayerSameAsPrev \/ layer_group_prev_node nd = kNodeLayerSameAsNext.
Definition wants_opposite (nd : node_t) : Prop :=
  has_flag (layer_group_next_node nd) kNodeLayerOppositePrev = true \/
  has_flag (layer_group_prev_node nd) kNodeLayerOppositeNext = true.

Definition related (kind : Z) (l l' : layer) : Prop :=
  if kind =? kTunnelLayerRelationSame then l = l' else l = other l'.

Record satisfies (h : ptr -> tunnel_t) (c : tunnel_chain_t) (ts : list ptr) (a : assignment)
  : Prop := {
  sat_next : forall t nd t', t ∈ ts -> node (h t) = Some nd -> next (h t) = Some t' ->
    admits (layer_group nd) (layer_group_next_node nd) (a t t');
  sat_prev : forall t nd t', t ∈ ts -> node (h t) = Some nd -> prev (h t) = Some t' ->
    admits (layer_group nd) (layer_group_prev_node nd) (a t' t);
  sat_same : forall t nd p q, t ∈ ts -> node (h t) = Some nd ->
    prev (h t) = Some p -> next (h t) = Some q -> wants_same nd -> a p t = a t q;
  sat_opposite : forall t nd p q, t ∈ ts -> node (h t) = Some nd ->
    prev (h t) = Some p -> next (h t) = Some q -> wants_opposite nd -> a p t = other (a t q);
  sat_registered : forall r l l', r ∈ layer_relations c ->
    left_tunnel r ∈ ts -> right_tunnel r ∈ ts ->
    side_layer h a (left_tunnel r) (left_side r) = Some l ->
    side_layer h a (right_tunnel r) (right_side r) = Some l' -> related (reg_kind r) l l'
}.

(** ** Specifications of solver computations *)

Definition wp {A} (m : solved A) (Q : A -> Prop) (E : node_layer_solver_status_t -> Prop) : Prop :=
  match m with
  | Solved a => Q a
  | Rejected s => E s
  | Faulted _ => False
  end.

Lemma wp_bind {A B} (m : solved A) (k : A -> solved B) Q E R :
  wp m R E -> (forall a, R a -> wp (k a) Q E) -> wp (m ≫= k) Q E.
Proof. destruct m; simpl; auto. Qed.

Lemma wp_mono {A} (m : solved A) (Q Q' : A -> Prop) (E E' : _ -> Prop) :
  wp m Q E -> (forall a, Q a -> Q' a) -> (forall s, E s -> E' s) -> wp m Q' E'.
Proof. destruct m; simpl; auto. Qed.

Lemma wp_reject_if (b : bool) s (Q : unit -> Prop) E :
  (b = true -> E s) -> (b = false -> Q tt) -> wp (reject_if b s) Q E.
Proof. destruct b; simpl; auto. Qed.

Definition is_early (s : node_layer_solver_status_t) : Prop :=
  code s <> kNodeLayerSolverErrConflict /\ code s <> kNodeLayerSolverErrConvergence.

Section Chain.
Context (h : ptr -> tunnel_t) (c : tunnel_chain_t) (ts : list ptr).
Context (Hts : tunnels c = Some <$> ts).
Context (Hnode : forall t, t ∈ ts -> exists nd, node (h t) = Some nd).

Implicit Types (edges : list node_layer_edge_t) (e : node_layer_edge_t).

(** ** Validation *)

Lemma in_chain (t : ptr) : tunnelIsInChain c (Some t) = true <-> t ∈ ts.
Proof.
  unfold tunnelIsInChain. rewrite existsb_exists, Hts. split.
  - intros (x & Hx & E). apply bool_decide_eq_true in E as ->.
    apply list_elem_of_In in Hx. by apply list_elem_of_fmap in Hx as (y & [= ->] & Hy).
  - intros Ht. exists (Some t). split; [|by apply bool_decide_eq_true].
    apply list_elem_of_In. by apply list_elem_of_fmap_2.
Qed.

(** Both links of a tunnel stay in the chain. *)
Definition linked (t : ptr) : Prop :=
  (forall t', next (h t) = Some t' -> t' ∈ ts) /\ (forall t', prev (h t) = Some t' -> t' ∈ ts).

Lemma wp_metadata (nd : node_t) :
  wp (nodeLayerValidateNodeMetadata (Some nd)) (fun _ => True) is_early.
Proof.
  unfold nodeLayerValidateNodeMetadata.
  repeat (eapply wp_bind; [by apply wp_reject_if with (Q := fun _ => True)|intros _ _]).
  by apply wp_reject_if.
Qed.

Lemma wp_validate_tunnel (t : ptr) :
  t ∈ ts -> wp (validate_tunnel h c (Some t)) (fun _ => linked t) is_early.
Proof.
  intros Ht. destruct (Hnode t Ht) as (nd & En). unfold validate_tunnel, validate_sides. rewrite En.
  eapply wp_bind; [apply wp_metadata|intros _ _].
  do 6 (eapply wp_bind; [by apply wp_reject_if with (Q := fun _ => True)|intros _ _]).
  eapply wp_bind with (R := fun _ => forall t', next (h t) = Some t' -> t' ∈ ts).
  { apply wp_reject_if; [done|]. intros E t' Et. rewrite Et in E. simpl in E.
    apply negb_false_iff in E. by apply in_chain. }
  intros _ N. eapply wp_bind with (R := fun _ => forall t', prev (h t) = Some t' -> t' ∈ ts).
  { apply wp_reject_if; [done|]. intros E t' Et. rewrite Et in E. simpl in E.
    apply negb_false_iff in E. by apply in_chain. }
  intros _ P.
  eapply wp_bind with (R := fun _ => True).
  { destruct (next (h t)) as [t'|]; [|done]. simpl. case_match; [|done].
    destruct (Hnode t' (N t' eq_refl)) as (nd' & ->). done. }
  intros _ _. eapply wp_bind with (R := fun _ => True).
  { destruct (prev (h t)) as [t'|]; [|done]. simpl. case_match; [|done].
    destruct (Hnode t' (P t' eq_refl)) as (nd' & ->). done. }
  intros _ _. eapply wp_bind; [by apply wp_reject_if with (Q := fun _ => True)|intros _ _].
  by apply wp_reject_if.
Qed.

Lemma wp_validate_all (l : list ptr) :
  l ⊆ ts -> wp (validate_all h c (Some <$> l)) (fun _ => forall t, t ∈ l -> linked t) is_early.
Proof.
  induction l as [|t l IH]; intros Hl; simpl; [by intros t ?%elem_of_nil|].
  eapply wp_bind; [apply wp_validate_tunnel; set_solver|intros [] Ht].
  eapply wp_mono; [apply IH; set_solver| |done]. intros [] H t' [->|]%elem_of_cons; auto.
Qed.

(** ** Edges *)

Definition key (e : node_layer_edge_t) : ptr * ptr := (e_from e, e_to e).

Lemma findEdge_Some edges f t i :
  findEdge edges f t = Some i -> exists e, edges !! i = Some e /\ key e = (f, t).
Proof.
  revert i. induction edges as [|e edges IH]; intros i; simpl; [done|].
  case_match eqn:E.
  - intros [= <-]. exists e. apply andb_prop in E as [E1 E2].
    apply bool_decide_eq_true in E1, E2. unfold key. by subst.
  - intros (j & Ej & ->)%fmap_Some. by apply IH.
Qed.

Lemma findEdge_None edges f t e : findEdge edges f t = None -> e ∈ edges -> key e <> (f, t).
Proof.
  induction edges as [|e' edges IH]; simpl; [by intros _ ?%elem_of_nil|].
  case_match eqn:E; [done|]. intros F%fmap_None [->|He]%elem_of_cons; [|by apply IH].
  intros [= E1 E2]. by rewrite !bool_decide_eq_true_2 in E by done.
Qed.

(** With distinct keys, an edge is found where it stands. *)
Lemma findEdge_at edges i e :
  NoDup (key <$> edges) -> edges !! i = Some e -> findEdge edges (e_from e) (e_to e) = Some i.
Proof.
  intros ND Hi. destruct (findEdge edges (e_from e) (e_to e)) as [j|] eqn:F.
  - apply findEdge_Some in F as (e' & Hj & K). f_equal.
    eapply NoDup_lookup; [exact ND|..]; rewrite list_lookup_fmap.
    + by rewrite Hj.
    + rewrite Hi. simpl. by rewrite K.
  - apply list_elem_of_lookup_2 in Hi. by destruct (findEdge_None _ _ _ _ F Hi).
Qed.

Lemma findEdge_keys edges edges' f t :
  key <$> edges = key <$> edges' -> findEdge edges f t = findEdge edges' f t.
Proof.
  revert edges'. induction edges as [|e edges IH]; intros [|e' edges']; simpl; try done.
  intros [= K1 K2 K]. rewrite K1, K2. case_match; [done|]. by rewrite (IH edges').
Qed.

(** Which edges exist, once the [next] links of [dn] and the [prev] links of
    [dp] have been entered. *)
Record edges_ok (dn dp : list ptr) (edges : list node_layer_edge_t) : Prop := {
  eo_from : forall e, e ∈ edges ->
    from_participates e = true <-> e_from e ∈ dn /\ next (h (e_from e)) = Some (e_to e);
  eo_to : forall e, e ∈ edges ->
    to_participates e = true <-> e_to e ∈ dp /\ prev (h (e_to e)) = Some (e_from e);
  eo_any : forall e, e ∈ edges -> domain e = kLayerDomainAny;
  eo_next : forall t t', t ∈ dn -> next (h t) = Some t' -> exists i, findEdge edges t t' = Some i;
  eo_prev : forall t t', t ∈ dp -> prev (h t) = Some t' -> exists i, findEdge edges t' t = Some i;
  eo_nodup : NoDup (key <$> edges)
}.

Definition takes_part (e : node_layer_edge_t) : Prop :=
  from_participates e = true \/ to_participates e = true.

Lemma elem_of_alter {A} (f : A -> A) (i : nat) (l : list A) (x : A) :
  x ∈ alter f i l ->
  (exists y, l !! i = Some y /\ x = f y) \/ (exists j, j <> i /\ l !! j = Some x).
Proof.
  intros (j & Hj)%list_elem_of_lookup. destruct (decide (j = i)) as [->|Hne].
  - rewrite list_lookup_alter_eq in Hj. apply fmap_Some in Hj as (y & Hy & ->). eauto.
  - rewrite list_lookup_alter_ne in Hj by done. eauto.
Qed.

Lemma key_alter (f : node_layer_edge_t -> node_layer_edge_t) (i : nat) edges :
  (forall e, key (f e) = key e) -> key <$> alter f i edges = key <$> edges.
Proof.
  intros K. apply list_eq. intros j. rewrite !list_lookup_fmap.
  destruct (decide (j = i)) as [->|].
  - rewrite list_lookup_alter_eq. by destruct (edges !! i); simpl; rewrite ?K.
  - by rewrite list_lookup_alter_ne.
Qed.

(** Two positions with the same key are one position. *)
Lemma key_unique edges i j e e' :
  NoDup (key <$> edges) -> edges !! i = Some e -> edges !! j = Some e' -> key e = key e' -> i = j.
Proof.
  intros ND Hi Hj K. eapply NoDup_lookup; [exact ND|..]; rewrite list_lookup_fmap.
  - by rewrite Hi.
  - by rewrite Hj, K.
Qed.

Lemma edges_ok_add dn dp edges f t :
  edges_ok dn dp edges -> findEdge edges f t = None ->
  edges_ok dn dp (edges ++ [mk_edge f t false false kLayerDomainAny]).
Proof.
  intros [F T A N P ND] Fn.
  assert (forall x y, findEdge edges x y <> None -> exists i,
    findEdge (edges ++ [mk_edge f t false false kLayerDomainAny]) x y = Some i) as K.
  { intros x y. clear. induction edges as [|e edges IH]; simpl; [done|].
    case_match; [eauto|]. intros Hn. destruct IH as (i & ->); [|eauto].
    intros E. by rewrite E in Hn. }
  split.
  - intros e [He| ->%list_elem_of_singleton]%elem_of_app; [by apply F|]. simpl. split; [done|].
    intros [Hin Hnx]. destruct (N _ _ Hin Hnx). congruence.
  - intros e [He| ->%list_elem_of_singleton]%elem_of_app; [by apply T|]. simpl. split; [done|].
    intros [Hin Hpv]. destruct (P _ _ Hin Hpv). congruence.
  - intros e [He| ->%list_elem_of_singleton]%elem_of_app; [by apply A|done].
  - intros x y Hx E. destruct (N x y Hx E) as (i & Hi). apply K. by rewrite Hi.
  - intros x y Hx E. destruct (P x y Hx E) as (i & Hi). apply K. by rewrite Hi.
  - rewrite fmap_app. apply NoDup_app. splits; [done| |by apply NoDup_singleton].
    intros k Hk ->%list_elem_of_singleton. apply list_elem_of_fmap in Hk as (e & Ek & He).
    by apply (findEdge_None _ _ _ _ Fn He).
Qed.

Lemma edges_ok_from dn dp edges i e t t' :
  edges_ok dn dp edges -> edges !! i = Some e -> key e = (t, t') -> next (h t) = Some t' ->
  edges_ok (t :: dn) dp (alter set_from_participates i edges).
Proof.
  intros [F T A N P ND] Hi Ke Hnx. pose proof (list_elem_of_lookup_2 _ _ _ Hi) as He.
  assert (forall x y, findEdge (alter set_from_participates i edges) x y = findEdge edges x y) as FE
    by (intros; by apply findEdge_keys, key_alter).
  split.
  - intros x [(y & Hy & ->)|(j & Hne & Hj)]%elem_of_alter; rewrite elem_of_cons.
    + assert (y = e) as -> by congruence. injection Ke as <- <-. simpl. tauto.
    + rewrite (F x) by by eapply list_elem_of_lookup_2. split; [tauto|].
      intros [[Ex|?] ?]; [|done]. exfalso. apply Hne.
      eapply key_unique; [done|exact Hj|exact Hi|]. unfold key in *. congruence.
  - intros x [(y & Hy & ->)|(j & Hne & Hj)]%elem_of_alter.
    + assert (y = e) as -> by congruence. by apply (T e).
    + by apply T, list_elem_of_lookup_2 with j.
  - intros x [(y & Hy & ->)|(j & Hne & Hj)]%elem_of_alter.
    + assert (y = e) as -> by congruence. by apply (A e).
    + by apply A, list_elem_of_lookup_2 with j.
  - intros x y Hx E. rewrite FE. apply elem_of_cons in Hx as [->|Hx]; [|by apply N].
    assert (y = t') as -> by congruence. exists i. injection Ke as <- <-. by apply findEdge_at.
  - intros x y Hx E. rewrite FE. by apply P.
  - by rewrite key_alter.
Qed.

Lemma edges_ok_to dn dp edges i e t t' :
  edges_ok dn dp edges -> edges !! i = Some e -> key e = (t', t) -> prev (h t) = Some t' ->
  edges_ok dn (t :: dp) (alter set_to_participates i edges).
Proof.
  intros [F T A N P ND] Hi Ke Hpv. pose proof (list_elem_of_lookup_2 _ _ _ Hi) as He.
  assert (forall x y, findEdge (alter set_to_participates i edges) x y = findEdge edges x y) as FE
    by (intros; by apply findEdge_keys, key_alter).
  split.
  - intros x [(y & Hy & ->)|(j & Hne & Hj)]%elem_of_alter.
    + assert (y = e) as -> by congruence. by apply (F e).
    + by apply F, list_elem_of_lookup_2 with j.
  - intros x [(y & Hy & ->)|(j & Hne & Hj)]%elem_of_alter; rewrite elem_of_cons.
    + assert (y = e) as -> by congruence. injection Ke as <- <-. simpl. tauto.
    + rewrite (T x) by by eapply list_elem_of_lookup_2. split; [tauto|].
      intros [[Ex|?] ?]; [|done]. exfalso. apply Hne.
      eapply key_unique; [done|exact Hj|exact Hi|]. unfold key in *. congruence.
  - intros x [(y & Hy & ->)|(j & Hne & Hj)]%elem_of_alter.
    + assert (y = e) as -> by congruence. by apply (A e).
    + by apply A, list_elem_of_lookup_2 with j.
  - intros x y Hx E. rewrite FE. by apply N.
  - intros x y Hx E. rewrite FE. apply elem_of_cons in Hx as [->|Hx]; [|by apply P].
    assert (y = t') as -> by congruence. exists i. injection Ke as <- <-. by apply findEdge_at.
  - by rewrite key_alter.
Qed.

(** Entering one link: the edge is found or appended, and marked. *)
Lemma wp_link dn dp edges f t mark (Q : list node_layer_edge_t -> Prop) E :
  edges_ok dn dp edges -> Forall takes_part edges -> zlen edges < kMaxEdges ->
  (forall e, takes_part (mark e)) ->
  (forall edges1 i e, edges_ok dn dp edges1 -> edges1 !! i = Some e -> key e = (f, t) ->
     Forall takes_part (alter mark i edges1) -> zlen (alter mark i edges1) <= zlen edges + 1 ->
     Q (alter mark i edges1)) ->
  wp ('(edges, i) ← findOrAddEdge edges f t; mret (alter mark i edges)) Q E.
Proof.
  intros O S L M HQ. unfold findOrAddEdge. destruct (findEdge edges f t) as [i|] eqn:F.
  - simpl. destruct (findEdge_Some _ _ _ _ F) as (e & Hi & K). apply (HQ edges i e); try done.
    + apply Forall_alter; auto.
    + unfold zlen. rewrite length_alter. lia.
  - rewrite (proj2 (Z.ltb_lt _ _)) by done. simpl.
    apply (HQ _ _ (mk_edge f t false false kLayerDomainAny)).
    + by apply edges_ok_add.
    + by rewrite list_lookup_middle.
    + done.
    + rewrite alter_app_r_alt by lia. rewrite Nat.sub_diag.
      apply Forall_app. split; [done|]. constructor; [apply M|constructor].
    + unfold zlen. rewrite length_alter, length_app. simpl. lia.
Qed.

Lemma edges_ok_skip_next dn dp edges t :
  next (h t) = None -> edges_ok dn dp edges -> edges_ok (t :: dn) dp edges.
Proof.
  intros Hnx [F T A N P ND]. split; try done.
  - intros e He. rewrite (F e He), elem_of_cons. split; [tauto|].
    intros [[->|?] ?]; [congruence|done].
  - intros x y [->|Hx]%elem_of_cons E; [congruence|by apply N].
Qed.

Lemma edges_ok_skip_prev dn dp edges t :
  prev (h t) = None -> edges_ok dn dp edges -> edges_ok dn (t :: dp) edges.
Proof.
  intros Hnx [F T A N P ND]. split; try done.
  - intros e He. rewrite (T e He), elem_of_cons. split; [tauto|].
    intros [[->|?] ?]; [congruence|done].
  - intros x y [->|Hx]%elem_of_cons E; [congruence|by apply P].
Qed.

Definition built (dn dp : list ptr) (n : Z) edges : Prop :=
  edges_ok dn dp edges /\ Forall takes_part edges /\ zlen edges <= n.

Lemma wp_add_edges d n edges t E :
  built d d n edges -> n + 2 <= kMaxEdges ->
  wp (add_edges h edges (Some t)) (built (t :: d) (t :: d) (n + 2)) E.
Proof.
  intros (O & S & L) Hn. unfold add_edges. cbn [deref].
  eapply wp_bind with (R := fun x => x = t); [done|]. intros ? ->.
  eapply wp_bind with (R := built (t :: d) d (n + 1)).
  - destruct (next (h t)) as [t'|] eqn:Hnx.
    + eapply wp_link; [done|done|lia|by left|]. intros edges1 i e O1 Hi K S1 L1.
      split; [by eapply edges_ok_from|]. split; [done|lia].
    + split; [by apply edges_ok_skip_next|]. split; [done|lia].
  - intros edges1 (O1 & S1 & L1). destruct (prev (h t)) as [t'|] eqn:Hpv.
    + eapply wp_link; [done|done|lia|by right|]. intros edges2 i e O2 Hi K S2 L2.
      split; [by eapply edges_ok_to|]. split; [done|lia].
    + split; [by apply edges_ok_skip_prev|]. split; [done|lia].
Qed.

Lemma wp_build_edges l E : forall d n edges,
  built d d n edges -> n + 2 * zlen l <= kMaxEdges ->
  wp (build_edges h edges (Some <$> l)) (built (reverse l ++ d) (reverse l ++ d) (n + 2 * zlen l)) E.
Proof.
  induction l as [|t l IH]; intros d n edges B Hn.
  - simpl. change (zlen []) with 0. by replace (n + 2 * 0) with n by lia.
  - rewrite zlen_cons in *. pose proof (zlen_nonneg l). rewrite fmap_cons. cbn [build_edges].
    eapply wp_bind; [eapply wp_add_edges; [done|lia]|]. intros edges1 B1.
    rewrite reverse_cons, <- app_assoc.
    replace (n + 2 * (1 + zlen l)) with (n + 2 + 2 * zlen l) by lia. apply IH; [done|lia].
Qed.

Lemma edges_ok_perm dn dp dn' dp' edges :
  (forall t, t ∈ dn <-> t ∈ dn') -> (forall t, t ∈ dp <-> t ∈ dp') ->
  edges_ok dn dp edges -> edges_ok dn' dp' edges.
Proof.
  intros En Ep [F T A N P ND]. split; try done.
  - intros e He. by rewrite <- En, F.
  - intros e He. by rewrite <- Ep, T.
  - intros x y Hx. apply N. by apply En.
  - intros x y Hx. apply P. by apply Ep.
Qed.

(** The graph of the whole chain. *)
Lemma wp_build_chain E :
  zlen ts <= kMaxChainLen ->
  wp (build_edges h [] (Some <$> ts)) (built ts ts (2 * zlen ts)) E.
Proof.
  intros L. eapply wp_mono.
  - apply (wp_build_edges ts E [] 0 []); [|unfold kMaxEdges; lia].
    split; [|done].
    by split; [intros ? ?%elem_of_nil..|intros ? ? ?%elem_of_nil|intros ? ? ?%elem_of_nil|constructor].
  - intros edges (O & S & Len). rewrite app_nil_r in O. split; [|done].
    eapply edges_ok_perm; [| |exact O]; intros t; by rewrite elem_of_reverse.
  - done.
Qed.

(** ** Seeding *)

(** The layers both ends of an edge admit, as far as they take part. *)
Definition edge_admits e (l : layer) : Prop :=
  (from_participates e = true -> forall nd, node (h (e_from e)) = Some nd ->
     admits (layer_group nd) (layer_group_next_node nd) l) /\
  (to_participates e = true -> forall nd, node (h (e_to e)) = Some nd ->
     admits (layer_group nd) (layer_group_prev_node nd) l).

(** The two ends of an edge agree up to its domain. *)
Definition same_edge e e' : Prop :=
  key e = key e' /\ from_participates e = from_participates e' /\
  to_participates e = to_participates e'.

Lemma same_edge_set_domain d e : same_edge e (set_domain d e).
Proof. done. Qed.

#[local] Instance same_edge_equiv : Equivalence same_edge.
Proof. unfold same_edge. split; [done|..]; intros ?; intros; intuition congruence. Qed.

(** An end narrows the domain to the layers it admits, or the domain is empty. *)
Lemma narrow_admits (own req d : Z) (l : layer) :
  allows (if has_flag req kNodeLayerAnything
          then Z.land (Z.land d (nodeLayerGroupToDomain own))
                      (nodeLayerGroupToDomain (Z.land req kNodeLayerAnything))
          else Z.land d (nodeLayerGroupToDomain own)) l = true <->
  allows d l = true /\ admits own req l.
Proof.
  unfold admits. destruct (has_flag req kNodeLayerAnything).
  - rewrite !allows_land, !allows_group, group_allows_masked, !andb_true_iff.
    split; [intros [[? ?] ?]; auto|intros (? & ? & ?); auto].
  - rewrite !allows_land, !allows_group, !andb_true_iff.
    split; [intros [? ?]; splits; done|intros (? & ? & _); auto].
Qed.

Definition real_domain (d : Z) : Prop := is_domain d /\ d <> kLayerDomainEmpty.

Definition no_layer (P : layer -> Prop) (s : node_layer_solver_status_t) : Prop :=
  code s = kNodeLayerSolverErrConflict /\ forall l, ~ P l.

Lemma wp_seed_from e nd :
  node (h (e_from e)) = Some nd -> real_domain (domain e) ->
  let P l := allows (domain e) l = true /\
    (from_participates e = true -> admits (layer_group nd) (layer_group_next_node nd) l) in
  wp (seed_from h e)
    (fun e' => same_edge e e' /\ real_domain (domain e') /\
       forall l, allows (domain e') l = true <-> P l) (no_layer P).
Proof.
  intros En D. unfold seed_from. destruct (from_participates e) eqn:F; simpl.
  2:{ splits; [done|apply D..|]. intros l. split; [done|]. by intros [? _]. }
  rewrite En. cbn [deref mbind solved_bind].
  pose proof (narrow_admits (layer_group nd) (layer_group_next_node nd) (domain e)) as N.
  set (d := if has_flag _ _ then _ else _) in *.
  assert (is_domain d) as Dd by (unfold d; case_match; repeat apply is_domain_land; apply D).
  destruct (d =? kLayerDomainEmpty) eqn:E; bool_facts; simpl.
  - split; [done|]. intros l [Hl Ha]. pose proof (proj2 (N l) (conj Hl (Ha eq_refl))) as K.
    by rewrite (domain_empty d l E) in K.
  - splits; [done..|]. intros l. rewrite (N l). split; [|by intros [? H]; auto].
    intros [? ?]. auto.
Qed.

Lemma wp_seed_to e nd ndf :
  node (h (e_to e)) = Some nd -> node (h (e_from e)) = Some ndf -> real_domain (domain e) ->
  let P l := allows (domain e) l = true /\
    (to_participates e = true -> admits (layer_group nd) (layer_group_prev_node nd) l) in
  wp (seed_to h e)
    (fun e' => same_edge e e' /\ real_domain (domain e') /\
       forall l, allows (domain e') l = true <-> P l) (no_layer P).
Proof.
  intros En Ef D. unfold seed_to. destruct (to_participates e) eqn:F; simpl.
  2:{ splits; [done|apply D..|]. intros l. split; [done|]. by intros [? _]. }
  rewrite En, Ef. cbn [deref mbind solved_bind].
  pose proof (narrow_admits (layer_group nd) (layer_group_prev_node nd) (domain e)) as N.
  set (d := Z.land (domain e) (nodeLayerGroupToDomain (layer_group nd))) in *.
  assert (is_domain d) as Dd by apply is_domain_land, D.
  destruct (d =? kLayerDomainEmpty) eqn:E1; bool_facts; simpl.
  { split; [done|]. intros l [Hl Ha]. pose proof (proj2 (N l) (conj Hl (Ha eq_refl))) as K.
    revert K. case_match; rewrite ?allows_land, (domain_empty d l E1); done. }
  destruct (has_flag _ _) eqn:G.
  2:{ simpl; splits; [done..|]. intros l. simpl. rewrite (N l).
      split; [by intros []; auto|by intros []; auto]. }
  set (d' := Z.land d _) in *. assert (is_domain d') as Dd' by by apply is_domain_land.
  destruct (d' =? kLayerDomainEmpty) eqn:E2; bool_facts; simpl.
  - split; [done|]. intros l [Hl Ha]. pose proof (proj2 (N l) (conj Hl (Ha eq_refl))) as K.
    by rewrite (domain_empty d' l E2) in K.
  - splits; [done..|]. intros l. rewrite (N l).
    split; [by intros []; auto|by intros []; auto].
Qed.

(** An edge whose two ends are nodes of the chain and which nothing has
    narrowed yet. *)
Definition fresh_edge e : Prop :=
  domain e = kLayerDomainAny /\ e_from e ∈ ts /\ e_to e ∈ ts.

Definition seeded e e' : Prop :=
  same_edge e e' /\ real_domain (domain e') /\
  forall l, allows (domain e') l = true <-> edge_admits e l.

Lemma wp_seed_edge e :
  fresh_edge e -> wp (e1 ← seed_from h e; seed_to h e1) (seeded e) (no_layer (edge_admits e)).
Proof.
  intros (A & Hf & Ht). destruct (Hnode _ Hf) as (ndf & Ef), (Hnode _ Ht) as (ndt & Et).
  assert (real_domain (domain e)) as D by (rewrite A; split; [by compute|done]).
  eapply wp_bind.
  - eapply wp_mono; [apply (wp_seed_from e ndf Ef D)|intros e1 R; exact R|].
    intros s [? N]. split; [done|]. intros l [E1 _]. apply (N l). rewrite A.
    split; [by destruct l|]. intros F. by apply E1.
  - intros e1 (S1 & D1 & P1). destruct S1 as (K1 & F1 & T1). injection K1 as K1 K2.
    eapply wp_mono; [apply (wp_seed_to e1 ndt ndf); [by rewrite <- K2|by rewrite <- K1|done]|..].
    + intros e2 (S2 & D2 & P2). split; [|split; [done|]].
      { transitivity e1; [|done]. unfold same_edge, key. by rewrite K1, K2. }
      intros l. rewrite P2, P1, A, <- T1. unfold edge_admits. rewrite Ef, Et. split.
      * intros [[_ Hn] Hp]. split; intros G nd [= <-]; auto.
      * intros [Hn Hp]. splits; [by destruct l|by intros G; apply Hn|by intros G; apply Hp].
    + intros s [? N]. split; [done|]. intros l [E1 E2]. apply (N l). split.
      * apply P1. rewrite A. split; [by destruct l|]. intros G. by apply E1.
      * rewrite <- T1. intros G. by apply E2.
Qed.

Lemma wp_seed_all edges :
  Forall fresh_edge edges ->
  wp (seed_all h edges) (Forall2 seeded edges)
    (fun s => exists e, e ∈ edges /\ no_layer (edge_admits e) s).
Proof.
  induction 1 as [|e edges Fr _ IH]; [by constructor|]. cbn [seed_all].
  pose proof (wp_seed_edge e Fr) as W.
  destruct (seed_from h e) as [e1|s|]; [|by exists e; split; [left|]|done].
  cbn [mbind solved_bind] in *.
  destruct (seed_to h e1) as [e2|s|]; [|by exists e; split; [left|]|done].
  cbn [mbind solved_bind] in *.
  destruct (seed_all h edges) as [es|s|]; [|destruct IH as (x & ? & ?); by exists x; split; [right|]|done].
  by constructor.
Qed.

(** ** Sides of a tunnel *)

Definition side_key (t : ptr) (side : Z) : option (ptr * ptr) :=
  if side =? kTunnelLayerSidePrev
  then (fun t' => (t', t)) <$> prev (h t)
  else (fun t' => (t, t')) <$> next (h t).

Lemma side_layer_key (a : assignment) t side :
  side_layer h a t side = (fun k => a k.1 k.2) <$> side_key t side.
Proof. unfold side_layer, side_key. case_match; by rewrite <- option_fmap_compose. Qed.

(** The edges of the whole chain, with whatever domains. *)
Definition graph edges : Prop :=
  exists base, built ts ts (2 * zlen ts) base /\ Forall2 same_edge base edges.

Lemma graph_same edges edges' : graph edges -> Forall2 same_edge edges edges' -> graph edges'.
Proof. intros (b & B & S) S'. exists b. split; [done|]. by transitivity edges. Qed.

Lemma same_edges_key edges edges' : Forall2 same_edge edges edges' -> key <$> edges = key <$> edges'.
Proof. induction 1 as [|e e' l l' (K & _) _ IH]; [done|]. by rewrite !fmap_cons, K, IH. Qed.

Lemma side_edge_sound edges t side i :
  side_edge h edges t side = Some i ->
  exists e, edges !! i = Some e /\ side_key t side = Some (key e).
Proof.
  unfold side_edge, side_key. case_match; intros H';
    apply bind_Some in H' as (t' & -> & H'); apply bind_Some in H' as (j & Hj & H');
    apply bind_Some in H' as (e & He & H'); case_match; simplify_eq;
    destruct (findEdge_Some _ _ _ _ Hj) as (e' & He' & K); exists e; simplify_eq; by rewrite K.
Qed.

Lemma side_edge_complete edges t side k :
  graph edges -> t ∈ ts -> side_key t side = Some k ->
  exists i e, side_edge h edges t side = Some i /\ edges !! i = Some e /\ key e = k.
Proof.
  intros (b & (O & _ & _) & S) Ht. unfold side_edge, side_key.
  pose proof (fun x y => findEdge_keys b edges x y (same_edges_key _ _ S)) as FE.
  case_match; intros (t' & Et & ->)%fmap_Some; rewrite Et; simpl.
  - destruct (eo_prev _ _ _ O t t' Ht Et) as (i & Hi). rewrite <- FE, Hi. simpl.
    destruct (findEdge_Some _ _ _ _ Hi) as (e & He & K).
    destruct (Forall2_lookup_l _ _ _ _ _ S He) as (e' & He' & K' & _ & T').
    rewrite He'. simpl. injection K as K1 K2. exists i, e'.
    rewrite <- T', (proj2 (eo_to _ _ _ O e (list_elem_of_lookup_2 _ _ _ He))) by by rewrite K1, K2.
    splits; try done. rewrite <- K'. unfold key. by rewrite K1, K2.
  - destruct (eo_next _ _ _ O t t' Ht Et) as (i & Hi). rewrite <- FE, Hi. simpl.
    destruct (findEdge_Some _ _ _ _ Hi) as (e & He & K).
    destruct (Forall2_lookup_l _ _ _ _ _ S He) as (e' & He' & K' & F' & _).
    rewrite He'. simpl. injection K as K1 K2. exists i, e'.
    rewrite <- F', (proj2 (eo_from _ _ _ O e (list_elem_of_lookup_2 _ _ _ He))) by by rewrite K1, K2.
    splits; try done. rewrite <- K'. unfold key. by rewrite K1, K2.
Qed.

(** ** Relations *)

Implicit Types (rels : list node_layer_relation_t) (P : Z -> nat -> nat -> Prop).

Definition rel_P P (r : node_layer_relation_t) : Prop := P (rel_kind r) (e_left r) (e_right r).
Definition symmetric_pred P : Prop := forall k i j, P k i j -> P k j i.

(** The tunnel a conflict message would name has a node. *)
Definition named (r : node_layer_relation_t) : Prop :=
  rel_secondary_tunnel r = None -> exists nd, node (h (rel_tunnel r)) = Some nd.

(** [rels'] holds the relations of [rels] and at most [n] more, which are the
    demands [D]: for every symmetric predicate, all relations of [rels'] have it
    exactly when those of [rels] and the demanded ones do. *)
Definition extends rels (D : (Z -> nat -> nat -> Prop) -> Prop) (n : Z) rels' : Prop :=
  zlen rels' <= zlen rels + n /\
  (forall P, symmetric_pred P -> Forall (rel_P P) rels' <-> Forall (rel_P P) rels /\ D P) /\
  (Forall named rels -> Forall named rels').

Lemma extends_refl rels (D : _ -> Prop) : (forall P, D P) -> extends rels D 0 rels.
Proof.
  intros H. unfold extends. splits; [lia| |done]. intros P _. split; [auto|by intros []].
Qed.

Lemma extends_mono rels (D D' : _ -> Prop) n n' rels' :
  extends rels D n rels' -> (forall P, D P <-> D' P) -> n <= n' -> extends rels D' n' rels'.
Proof.
  intros (L & H & N) E Hn. unfold extends. splits; [lia| |done]. intros P Ps. by rewrite <- E, (H P Ps).
Qed.

Lemma extends_trans rels (D D' : _ -> Prop) n n' rels' rels'' :
  extends rels D n rels' -> extends rels' D' n' rels'' ->
  extends rels (fun P => D P /\ D' P) (n + n') rels''.
Proof.
  intros (L & H & N) (L' & H' & N'). unfold extends. splits; [lia| |auto].
  intros P Ps. rewrite (H' P Ps), (H P Ps). tauto.
Qed.

Lemma wp_addRelation rels kind i j t sec ls rs E :
  zlen rels < kMaxRelations -> (sec = None -> exists nd, node (h t) = Some nd) ->
  wp (addRelation rels kind i j t sec ls rs) (extends rels (fun P => P kind i j) 1) E.
Proof.
  intros L Hn. unfold addRelation. case_match eqn:X.
  - simpl. unfold extends. splits; [lia| |done]. intros P Ps. split; [|by intros []].
    intros F. split; [done|].
    apply existsb_exists in X as (r & Hr%list_elem_of_In & X).
    rewrite Forall_forall in F. specialize (F r Hr). unfold rel_P in F.
    apply andb_prop in X as [K%Z.eqb_eq X]. rewrite K in F.
    apply orb_prop in X as [X|X]; apply andb_prop in X as [X1 X2];
      apply bool_decide_eq_true in X1, X2; subst; auto.
  - rewrite (proj2 (Z.ltb_lt _ _)) by done. simpl. unfold extends. splits.
    + rewrite zlen_app. change (zlen [_]) with 1. lia.
    + intros P Ps. rewrite Forall_app, Forall_singleton. done.
    + intros F. apply Forall_app. split; [done|]. by apply Forall_singleton.
Qed.

Lemma wp_addRelation_if (b : bool) rels kind i j t sec ls rs E :
  (b = true -> zlen rels < kMaxRelations) -> (sec = None -> exists nd, node (h t) = Some nd) ->
  wp (if b then addRelation rels kind i j t sec ls rs else mret rels)
    (extends rels (fun P => b = true -> P kind i j) (Z.b2z b)) E.
Proof.
  intros L Hn. destruct b.
  - eapply wp_mono; [apply wp_addRelation; auto| |done]. intros rels' X.
    eapply extends_mono; [exact X| |simpl; lia]. intros P. split; auto.
  - by apply extends_refl.
Qed.

(** What the description of one node, or one registration, demands. *)
Definition node_demand edges (t : ptr) P : Prop :=
  forall i j nd, side_edge h edges t kTunnelLayerSidePrev = Some i ->
    side_edge h edges t kTunnelLayerSideNext = Some j -> node (h t) = Some nd ->
    (wants_same nd -> P kRelationSameAs i j) /\ (wants_opposite nd -> P kRelationOpposite i j).

Definition relation_kind (reg : tunnel_layer_relation_registration_t) : Z :=
  if reg_kind reg =? kTunnelLayerRelationSame then kRelationSameAs else kRelationOpposite.

Definition reg_demand edges (reg : tunnel_layer_relation_registration_t) P : Prop :=
  forall i j, side_edge h edges (left_tunnel reg) (left_side reg) = Some i ->
    side_edge h edges (right_tunnel reg) (right_side reg) = Some j ->
    P (relation_kind reg) i j.

Lemma side_edge_link edges t side i :
  side_edge h edges t side = Some i ->
  if side =? kTunnelLayerSidePrev then is_Some (prev (h t)) else is_Some (next (h t)).
Proof.
  intros (e & _ & K)%side_edge_sound. unfold side_key in K.
  case_match; apply fmap_Some in K as (t' & -> & _); eauto.
Qed.

(** A side does not ask for both the same and the opposite layer. *)
Lemma same_not_opposite (g s o : Z) :
  Z.land s o = 0 -> Z.b2z (g =? s) + Z.b2z (has_flag g o) <= 1.
Proof.
  intros Z0. unfold has_flag. destruct (Z.eqb_spec g s) as [->|]; [by rewrite Z0|].
  destruct (negb _); simpl; lia.
Qed.

Lemma node_demand_none edges rels t :
  side_edge h edges t kTunnelLayerSidePrev = None \/
  side_edge h edges t kTunnelLayerSideNext = None ->
  extends rels (node_demand edges t) 2 rels.
Proof.
  intros N. eapply extends_mono; [by apply extends_refl with (D := fun _ => True)| |lia].
  intros P. split; [|done]. intros _ i j nd Hi Hj. destruct N; congruence.
Qed.

Lemma wp_node_relations edges rels t E :
  t ∈ ts -> zlen rels + 2 <= kMaxRelations ->
  wp (node_relations h edges rels (Some t)) (extends rels (node_demand edges t) 2) E.
Proof.
  intros Ht L. unfold node_relations. destruct (Hnode t Ht) as (nd & En).
  eapply wp_bind with (R := fun x => x = t); [done|]. intros ? ->.
  pose proof (node_demand_none edges rels t) as None_.
  destruct (side_edge h edges t kTunnelLayerSidePrev) as [i|] eqn:Si.
  2:{ destruct (prev (h t)), (next (h t)); apply None_; by left. }
  destruct (side_edge h edges t kTunnelLayerSideNext) as [j|] eqn:Sj.
  2:{ destruct (prev (h t)), (next (h t)); apply None_; by right. }
  clear None_. destruct (side_edge_link _ _ _ _ Si) as (p & ->), (side_edge_link _ _ _ _ Sj) as (q & ->).
  rewrite En. eapply wp_bind with (R := fun x => x = nd); [done|]. intros ? ->.
  pose proof (same_not_opposite (layer_group_next_node nd) kNodeLayerSameAsPrev kNodeLayerOppositePrev
    eq_refl) as B1.
  pose proof (same_not_opposite (layer_group_prev_node nd) kNodeLayerSameAsNext kNodeLayerOppositeNext
    eq_refl) as B2.
  assert (@None ptr = None -> exists nd, node (h t) = Some nd) as Hn by eauto.
  set (b1 := _ =? kNodeLayerSameAsPrev) in *. set (b2 := has_flag _ kNodeLayerOppositePrev) in *.
  set (b3 := _ =? kNodeLayerSameAsNext) in *. set (b4 := has_flag _ kNodeLayerOppositeNext) in *.
  assert (0 <= Z.b2z b1 /\ 0 <= Z.b2z b2 /\ 0 <= Z.b2z b3 /\ 0 <= Z.b2z b4) as (N1 & N2 & N3 & N4)
    by (destruct b1, b2, b3, b4; simpl; lia).
  eapply wp_bind; [apply wp_addRelation_if; [lia|done]|]. intros r1 X1.
  eapply wp_bind; [apply wp_addRelation_if; [destruct X1; lia|done]|]. intros r2 X2.
  pose proof (extends_trans _ _ _ _ _ _ _ X1 X2) as X12.
  eapply wp_bind; [apply wp_addRelation_if; [destruct X12; lia|done]|]. intros r3 X3.
  pose proof (extends_trans _ _ _ _ _ _ _ X12 X3) as X123.
  eapply wp_mono; [apply wp_addRelation_if; [|done]| |done].
  { intros Eb. destruct X123 as [X _]. rewrite Eb in *. simpl in *. lia. }
  intros r4 X4. eapply extends_mono; [exact (extends_trans _ _ _ _ _ _ _ X123 X4)| |lia].
  intros P. unfold node_demand, wants_same, wants_opposite. rewrite Si, Sj, En. split.
  - intros [[[D1 D2] D3] D4] i' j' nd' [= <-] [= <-] [= <-]. rewrite <- !Z.eqb_eq. fold b1 b2 b3 b4.
    split; intros [?|?]; auto.
  - intros D. destruct (D i j nd eq_refl eq_refl eq_refl) as [D1 D2].
    rewrite <- !Z.eqb_eq in D1. fold b1 b2 b3 b4 in D1, D2. splits; auto.
Qed.

Lemma wp_all_node_relations edges l E : forall rels,
  l ⊆ ts -> zlen rels + 2 * zlen l <= kMaxRelations ->
  wp (all_node_relations h edges rels (Some <$> l))
    (extends rels (fun P => forall t, t ∈ l -> node_demand edges t P) (2 * zlen l)) E.
Proof.
  induction l as [|t l IH]; intros rels Hl L.
  { apply extends_refl. by intros P t ?%elem_of_nil. }
  rewrite zlen_cons in *. pose proof (zlen_nonneg l). rewrite fmap_cons. cbn [all_node_relations].
  eapply wp_bind; [apply wp_node_relations; [set_solver|lia]|]. intros r1 X1.
  eapply wp_mono; [apply IH; [set_solver|destruct X1; lia]| |done]. intros r2 X2.
  eapply extends_mono; [exact (extends_trans _ _ _ _ _ _ _ X1 X2)| |lia].
  intros P. setoid_rewrite elem_of_cons. split; [by intros [? ?] ? [->|?]; auto|auto].
Qed.

Lemma wp_registered edges rels reg :
  zlen rels + 1 <= kMaxRelations ->
  wp (registered_relation h c edges rels reg)
    (fun rels' => left_tunnel reg ∈ ts /\ right_tunnel reg ∈ ts /\
       extends rels (reg_demand edges reg) 1 rels') is_early.
Proof.
  intros L. unfold registered_relation.
  eapply wp_bind with (R := fun _ => left_tunnel reg ∈ ts).
  { apply wp_reject_if; [done|]. intros E%negb_false_iff. by apply in_chain. }
  intros _ H1. eapply wp_bind with (R := fun _ => right_tunnel reg ∈ ts).
  { apply wp_reject_if; [done|]. intros E%negb_false_iff. by apply in_chain. }
  intros _ H2. destruct (side_edge h edges (left_tunnel reg) (left_side reg)) as [i|] eqn:Si,
    (side_edge h edges (right_tunnel reg) (right_side reg)) as [j|] eqn:Sj; try done.
  - fold (relation_kind reg). eapply wp_mono; [apply wp_addRelation; [lia|done]| |done].
    intros r X. splits; [done..|]. eapply extends_mono; [exact X| |lia]. intros P.
    unfold reg_demand. rewrite Si, Sj. split; [by intros ? ? ? [= <-] [= <-]|auto].
  - simpl. splits; [done..|]. eapply extends_mono; [by apply extends_refl with (D := fun _ => True)| |lia].
    intros P. unfold reg_demand. rewrite Si. split; [|done]. by intros _ ? ? ?.
Qed.

Lemma wp_registered_all edges regs : forall rels,
  zlen rels + zlen regs <= kMaxRelations ->
  wp (registered_relations h c edges rels regs)
    (fun rels' => (forall reg, reg ∈ regs -> left_tunnel reg ∈ ts /\ right_tunnel reg ∈ ts) /\
       extends rels (fun P => forall reg, reg ∈ regs -> reg_demand edges reg P) (zlen regs) rels')
    is_early.
Proof.
  induction regs as [|reg regs IH]; intros rels L.
  { split; [by intros ? ?%elem_of_nil|]. apply extends_refl. by intros P t ?%elem_of_nil. }
  rewrite zlen_cons in *. pose proof (zlen_nonneg regs). cbn [registered_relations].
  eapply wp_bind; [apply wp_registered; lia|]. intros r1 (Hl & Hr & X1).
  eapply wp_mono; [apply IH; destruct X1; lia| |done]. intros r2 (T & X2). split.
  - by intros x [->|Hx]%elem_of_cons; auto.
  - eapply extends_mono; [exact (extends_trans _ _ _ _ _ _ _ X1 X2)| |lia].
    intros P. setoid_rewrite elem_of_cons. split; [by intros [? ?] ? [->|?]; auto|auto].
Qed.

(** ** Propagation *)

Definition valuation : Type := nat -> layer.
Implicit Type v : valuation.

Definition fits v edges : Prop :=
  forall i e, edges !! i = Some e -> allows (domain e) (v i) = true.

(** A relation under a valuation, its bounds, and its fixed-point condition. *)
Definition holds_in v : Z -> nat -> nat -> Prop := fun k i j =>
  if k =? kRelationSameAs then v i = v j else v i = other (v j).
Definition in_range (n : nat) : Z -> nat -> nat -> Prop := fun k i j =>
  (k = kRelationSameAs \/ k = kRelationOpposite) /\ (i < n)%nat /\ (j < n)%nat.
Definition stable_in edges : Z -> nat -> nat -> Prop := fun k i j =>
  forall e e', edges !! i = Some e -> edges !! j = Some e' ->
  if k =? kRelationSameAs then domain e = domain e'
  else domain e = nodeLayerDomainFlip (domain e') /\ domain e' = nodeLayerDomainFlip (domain e).

Lemma other_other l : other (other l) = l.
Proof. by destruct l. Qed.

Lemma holds_in_sym v : symmetric_pred (holds_in v).
Proof. intros k i j. unfold holds_in. case_match; [done|]. intros ->. by rewrite other_other. Qed.

Lemma in_range_sym n : symmetric_pred (in_range n).
Proof. intros k i j. unfold in_range. tauto. Qed.

Lemma stable_in_sym edges : symmetric_pred (stable_in edges).
Proof.
  intros k i j H e e' He He'. specialize (H e' e He' He). case_match; [done|]. tauto.
Qed.

Definition weight edges : Z :=
  foldr (fun e n => (if domain e =? kLayerDomainAny then 2 else 1) + n) 0 edges.

Definition real_edges edges : Prop := Forall (fun e => real_domain (domain e)) edges.

Lemma weight_bounds edges : zlen edges <= weight edges <= 2 * zlen edges.
Proof.
  induction edges as [|e edges IH]; [done|]. rewrite zlen_cons. simpl. case_match; lia.
Qed.

Lemma weight_set edges i e d :
  edges !! i = Some e -> real_domain (domain e) -> real_domain d ->
  (forall l, allows d l = true -> allows (domain e) l = true) -> domain e <> d ->
  weight (<[i := set_domain d e]> edges) < weight edges.
Proof.
  intros Hi De Dd Sub Ne. revert i Hi.
  induction edges as [|x edges IH]; intros [|i]; simpl; try done.
  - intros [= ->]. destruct De as [De De0], Dd as [Dd Dd0]. unfold kLayerDomainEmpty in *.
    pose proof (Sub L3) as S3. pose proof (Sub L4) as S4.
    domain_cases; try done; try (discriminate (S3 eq_refl)); try (discriminate (S4 eq_refl));
      simpl; lia.
  - intros Hi. specialize (IH i Hi). lia.
Qed.

(** The same edge, with fewer layers. *)
Definition shrunk e e' : Prop :=
  same_edge e e' /\ forall l, allows (domain e') l = true -> allows (domain e) l = true.

#[local] Instance shrunk_preorder : PreOrder shrunk.
Proof.
  split; [by split|]. intros x y z [S1 A1] [S2 A2]. split; [by transitivity y|auto].
Qed.

Lemma shrunk_same edges edges' : Forall2 shrunk edges edges' -> Forall2 same_edge edges edges'.
Proof. intros S. eapply Forall2_impl; [exact S|]. by intros e e' []. Qed.

(** What one narrowing step, and any number of them, does to the edges. *)
Record step edges edges' (changed : bool) : Prop := {
  st_same : Forall2 shrunk edges edges';
  st_real : real_edges edges';
  st_quiet : changed = false -> edges' = edges;
  st_shrinks : changed = true -> weight edges' < weight edges
}.

Lemma step_refl edges : real_edges edges -> step edges edges false.
Proof. split; try done. Qed.

Lemma step_weight edges edges' b : step edges edges' b -> weight edges' <= weight edges.
Proof. intros [_ _ Q S]. destruct b; [specialize (S eq_refl); lia|by rewrite Q]. Qed.

Lemma step_trans edges1 edges2 edges3 b b' :
  step edges1 edges2 b -> step edges2 edges3 b' -> step edges1 edges3 (b || b').
Proof.
  intros S S'. pose proof (step_weight _ _ _ S). pose proof (step_weight _ _ _ S').
  destruct S as [S1 R1 Q1 W1], S' as [S2 R2 Q2 W2]. split.
  - by transitivity edges2.
  - done.
  - intros [-> ->]%orb_false_iff. by rewrite Q2, Q1.
  - intros [->| ->]%orb_true_iff; [specialize (W1 eq_refl)|specialize (W2 eq_refl)]; lia.
Qed.

Lemma narrow_spec edges i e d :
  real_edges edges -> edges !! i = Some e -> real_domain d ->
  (forall l, allows d l = true -> allows (domain e) l = true) ->
  exists edges' b, narrow edges i d = Solved (edges', b) /\ step edges edges' b /\
    (b = false -> domain e = d) /\
    edges' !! i = Some (set_domain d e) /\ (forall j, j <> i -> edges' !! j = edges !! j).
Proof.
  intros R Hi D Sub. unfold narrow, edge_at. rewrite Hi. cbn [deref mbind solved_bind].
  destruct (Z.eqb_spec (domain e) d) as [<-|Ne].
  - exists edges, false. splits; [done|by apply step_refl|done|rewrite Hi; by destruct e|done].
  - exists (<[i := set_domain d e]> edges), true. splits; try done.
    + split; try done.
      * rewrite <- (list_insert_id edges i e Hi) at 1. by apply Forall2_insert.
      * by apply Forall_insert.
      * intros _. apply weight_set; try done.
        by apply (Forall_lookup_1 _ _ _ _ R Hi).
    + apply list_lookup_insert_eq. by eapply lookup_lt_Some.
    + intros j Hj. by apply list_lookup_insert_ne.
Qed.

(** The two narrowings of one relation. *)
Lemma narrow_both edges i j e e' dl dr :
  real_edges edges -> edges !! i = Some e -> edges !! j = Some e' ->
  real_domain dl -> real_domain dr ->
  (forall l, allows dl l = true -> allows (domain e) l = true) ->
  (forall l, allows dr l = true -> allows (domain e') l = true) -> (i = j -> dl = dr) ->
  exists edges' b, ('(edges, c1) ← narrow edges i dl; '(edges, c2) ← narrow edges j dr;
                    mret (edges, c1 || c2)) = Solved (edges', b) /\
    step edges edges' b /\ (b = false -> domain e = dl /\ domain e' = dr) /\
    (forall v, fits v edges -> allows dl (v i) = true -> allows dr (v j) = true -> fits v edges').
Proof.
  intros R Hi Hj Dl Dr Sl Sr Same.
  destruct (narrow_spec edges i e dl R Hi Dl Sl) as (edges1 & b1 & E1 & S1 & Q1 & Hi1 & Ho1).
  rewrite E1. cbn [mbind solved_bind].
  assert (exists e1, edges1 !! j = Some e1 /\ (domain e1 = domain e' \/ domain e1 = dr) /\
    (b1 = false -> domain e1 = domain e')) as (e1 & Hj1 & Or & Qe).
  { destruct (decide (i = j)) as [Ej|Ne].
    - exists (set_domain dl e). rewrite <- Ej. splits; [done|right; simpl; auto|].
      intros ->. simpl. rewrite <- Q1 by done. by rewrite Ej, Hj in Hi; simplify_eq.
    - exists e'. rewrite Ho1 by done. auto. }
  destruct (narrow_spec edges1 j e1 dr (st_real _ _ _ S1) Hj1 Dr) as (edges2 & b2 & E2 & S2 & Q2 & Hj2 & Ho2).
  { destruct Or as [->| ->]; auto. }
  rewrite E2. exists edges2, (b1 || b2). splits; [done|by eapply step_trans|..].
  - intros [-> ->]%orb_false_iff. rewrite <- (Q2 eq_refl).
    split; [by apply Q1|symmetry; by apply Qe].
  - intros v F Al Ar k x Hx. destruct (decide (k = j)) as [->|Nj].
    { rewrite Hj2 in Hx. by simplify_eq. }
    rewrite Ho2 in Hx by done. destruct (decide (k = i)) as [->|Ni].
    { rewrite Hi1 in Hx. by simplify_eq. }
    rewrite Ho1 in Hx by done. by apply (F k).
Qed.

Lemma real_land d d' : real_domain d -> Z.land d d' <> kLayerDomainEmpty -> real_domain (Z.land d d').
Proof. intros [? ?] ?. split; [by apply is_domain_land|done]. Qed.

Lemma allows_land_l d d' l : allows (Z.land d d') l = true -> allows d l = true.
Proof. rewrite allows_land. by intros [? _]%andb_true_iff. Qed.

Lemma flip_stable (d d' : Z) :
  is_domain d -> is_domain d' -> d = Z.land d (nodeLayerDomainFlip d') ->
  d' = Z.land d' (nodeLayerDomainFlip d) -> d = nodeLayerDomainFlip d'.
Proof. intros D D' E E'. domain_cases; vm_compute in E, E' |- *; congruence. Qed.

Lemma wp_reject_conflict {A} r (Q : A -> Prop) E :
  named r -> E (conflict_status r) -> wp (reject_conflict h r) Q E.
Proof.
  unfold named, reject_conflict. destruct (rel_secondary_tunnel r); [done|].
  intros N. by destruct (N eq_refl) as (nd & ->).
Qed.

(** What one relation does: its domains are narrowed as far as it demands, no
    valuation that respects it is lost, and when nothing changes it is stable. *)
Definition relation_post edges (r : node_layer_relation_t)
  : list node_layer_edge_t * bool -> Prop := fun '(edges', b) =>
  step edges edges' b /\ (b = false -> rel_P (stable_in edges) r) /\
  forall v, rel_P (holds_in v) r -> fits v edges -> fits v edges'.

Definition relation_conflict edges (r : node_layer_relation_t) (s : node_layer_solver_status_t)
  : Prop :=
  code s = kNodeLayerSolverErrConflict /\ forall v, fits v edges -> ~ rel_P (holds_in v) r.

Section OneRelation.
Context (edges : list node_layer_edge_t) (r : node_layer_relation_t) (e e' : node_layer_edge_t).
Context (R : real_edges edges) (Nm : named r).
Context (Hi : edges !! e_left r = Some e) (Hj : edges !! e_right r = Some e').

Lemma wp_propagate_same :
  rel_kind r = kRelationSameAs ->
  wp (propagate_relation h edges r) (relation_post edges r) (relation_conflict edges r).
Proof.
  intros K. unfold propagate_relation, edge_at, relation_post, relation_conflict, rel_P, stable_in, holds_in.
  rewrite K, Hi, Hj. cbn [deref mbind solved_bind]. simpl.
  pose proof (Forall_lookup_1 _ _ _ _ R Hi) as De. pose proof (Forall_lookup_1 _ _ _ _ R Hj) as De'.
  destruct (_ =? kLayerDomainEmpty) eqn:E; bool_facts.
  - apply wp_reject_conflict; [done|]. split; [done|]. intros v F Hv.
    pose proof (F _ _ Hi) as A1. pose proof (F _ _ Hj) as A2. rewrite Hv in A1.
    pose proof (domain_empty _ (v (e_right r)) E) as A. by rewrite allows_land, A1, A2 in A.
  - destruct (narrow_both edges (e_left r) (e_right r) e e' (Z.land (domain e) (domain e'))
      (Z.land (domain e) (domain e'))) as (edges' & b & EQ & S & Q & V); try done.
    { by apply real_land. } { by apply real_land. } { apply allows_land_l. }
    { intros l. rewrite Z.land_comm. apply allows_land_l. }
    cbn [mbind solved_bind] in EQ. rewrite EQ. cbn [wp]. splits; [done| |].
    + intros Eb x x' Hx Hx'. destruct (Q Eb) as [Q1 Q2]. simplify_eq. congruence.
    + intros v Hv F. apply V; [done|..]; rewrite allows_land, andb_true_iff.
      * split; [by apply (F _ _ Hi)|]. rewrite Hv. by apply (F _ _ Hj).
      * split; [rewrite <- Hv; by apply (F _ _ Hi)|by apply (F _ _ Hj)].
Qed.

Lemma wp_propagate_opposite :
  rel_kind r = kRelationOpposite ->
  wp (propagate_relation h edges r) (relation_post edges r) (relation_conflict edges r).
Proof.
  intros K. unfold propagate_relation, edge_at, relation_post, relation_conflict, rel_P, stable_in, holds_in.
  rewrite K, Hi, Hj. cbn [deref mbind solved_bind]. simpl.
  pose proof (Forall_lookup_1 _ _ _ _ R Hi) as De. pose proof (Forall_lookup_1 _ _ _ _ R Hj) as De'.
  destruct (_ || _)%bool eqn:E; bool_facts.
  - apply wp_reject_conflict; [done|]. split; [done|]. intros v F Hv.
    pose proof (F _ _ Hi) as A1. pose proof (F _ _ Hj) as A2.
    apply orb_true_iff in E as [E|E]; bool_facts.
    + pose proof (domain_empty _ (v (e_left r)) E) as A. rewrite allows_land, A1, allows_flip in A
        by apply De'. rewrite Hv, other_other, A2 in A. done.
    + pose proof (domain_empty _ (v (e_right r)) E) as A. rewrite allows_land, A2, allows_flip in A
        by apply De. rewrite <- Hv, A1 in A. done.
  - destruct (narrow_both edges (e_left r) (e_right r) e e'
      (Z.land (domain e) (nodeLayerDomainFlip (domain e')))
      (Z.land (domain e') (nodeLayerDomainFlip (domain e)))) as (edges' & b & EQ & S & Q & V); try done.
    { by apply real_land. } { by apply real_land. } { apply allows_land_l. } { apply allows_land_l. }
    { intros Eij. pose proof Hi as Hi'. rewrite Eij, Hj in Hi'. by simplify_eq. }
    cbn [mbind solved_bind] in EQ. rewrite EQ. cbn [wp]. splits; [done| |].
    + intros Eb x x' Hx Hx'. destruct (Q Eb) as [Q1 Q2]. simplify_eq.
      split; apply flip_stable; try done; apply De || apply De'.
    + intros v Hv F. apply V; [done|..]; rewrite allows_land, andb_true_iff, allows_flip
        by (apply De || apply De').
      * split; [by apply (F _ _ Hi)|]. rewrite Hv, other_other. by apply (F _ _ Hj).
      * split; [by apply (F _ _ Hj)|]. rewrite <- Hv. by apply (F _ _ Hi).
Qed.
End OneRelation.

Lemma wp_propagate_relation edges r :
  real_edges edges -> named r -> rel_P (in_range (length edges)) r ->
  wp (propagate_relation h edges r) (relation_post edges r) (relation_conflict edges r).
Proof.
  intros R Nm (Kind & Li & Lj).
  destruct (lookup_lt_is_Some_2 _ _ Li) as (e & Hi), (lookup_lt_is_Some_2 _ _ Lj) as (e' & Hj).
  destruct Kind; [by eapply wp_propagate_same|by eapply wp_propagate_opposite].
Qed.

(** One pass over all relations. *)
Lemma wp_propagate_pass rels : forall edges b,
  real_edges edges -> Forall named rels -> Forall (rel_P (in_range (length edges))) rels ->
  wp (propagate_pass h edges rels b)
    (fun '(edges', b') => exists ch, b' = (b || ch)%bool /\ step edges edges' ch /\
       (ch = false -> Forall (rel_P (stable_in edges)) rels) /\
       forall v, Forall (rel_P (holds_in v)) rels -> fits v edges -> fits v edges')
    (fun s => code s = kNodeLayerSolverErrConflict /\
       forall v, fits v edges -> ~ Forall (rel_P (holds_in v)) rels).
Proof.
  induction rels as [|r rels IH]; intros edges b R Nm In.
  { exists false. splits; [by rewrite orb_false_r|by apply step_refl|by constructor|done]. }
  apply Forall_cons in Nm as [Nr Nm], In as [Ir In]. cbn [propagate_pass].
  eapply wp_bind.
  - eapply wp_mono; [by apply wp_propagate_relation|intros x H; exact H|].
    intros s [Cs V]. split; [done|]. intros v F Hv. apply Forall_cons in Hv as [? _]. by apply (V v F).
  - intros [edges1 b1] (S1 & Q1 & V1).
    assert (length edges1 = length edges) as Len by (symmetry; eapply Forall2_length, S1).
    eapply wp_mono; [apply (IH edges1 (b || b1)%bool); [apply S1|done|by rewrite Len]|..].
    + intros [edges2 b2] (ch & -> & S2 & Q2 & V2). exists (b1 || ch)%bool.
      splits; [by rewrite orb_assoc|by eapply step_trans|..].
      * intros [-> ->]%orb_false_iff. rewrite (st_quiet _ _ _ S1 eq_refl) in Q2. auto.
      * intros v Hv F. apply Forall_cons in Hv as [? ?]. auto.
    + intros s [Cs V]. split; [done|]. intros v F Hv. apply Forall_cons in Hv as [? Hv].
      apply (V v); auto.
Qed.

(** The loop: it reaches a fixed point before the iteration limit. *)
Lemma wp_propagate rels n : forall edges,
  real_edges edges -> Forall named rels -> Forall (rel_P (in_range (length edges))) rels ->
  weight edges - zlen edges < Z.of_nat n ->
  wp (propagate h n edges rels)
    (fun edges' => Forall2 shrunk edges edges' /\ real_edges edges' /\
       Forall (rel_P (stable_in edges')) rels /\
       forall v, Forall (rel_P (holds_in v)) rels -> fits v edges -> fits v edges')
    (fun s => code s = kNodeLayerSolverErrConflict /\
       forall v, fits v edges -> ~ Forall (rel_P (holds_in v)) rels).
Proof.
  induction n as [|n IH]; intros edges R Nm In W.
  { pose proof (weight_bounds edges). lia. }
  cbn [propagate]. eapply wp_bind; [by apply wp_propagate_pass|].
  intros [edges1 b1] (ch & -> & S1 & Q1 & V1). simpl.
  assert (length edges1 = length edges) as Len by (symmetry; eapply Forall2_length, S1).
  destruct ch.
  - eapply wp_mono; [apply IH; [apply S1|done|by rewrite Len|]|..].
    + pose proof (st_shrinks _ _ _ S1 eq_refl). unfold zlen in *. lia.
    + intros edges2 (S2 & R2 & St2 & V2). splits; [|done|done|auto].
      transitivity edges1; [apply S1|done].
    + intros s [Cs V]. split; [done|]. intros v F Hv. apply (V v); auto.
  - pose proof (st_quiet _ _ _ S1 eq_refl) as ->. simpl. splits; [done|done|auto|auto].
Qed.

(** ** The phases together *)

(** The valuation of the edges an assignment of layers gives. *)
Definition value_of (a : assignment) edges : valuation := fun i =>
  match edges !! i with Some e => a (e_from e) (e_to e) | None => L3 end.

Lemma same_edges_lookup edges edges' i e' :
  Forall2 same_edge edges edges' -> edges' !! i = Some e' ->
  exists e, edges !! i = Some e /\ same_edge e e'.
Proof. intros S H. destruct (Forall2_lookup_r _ _ _ _ _ S H) as (e & ? & ?). eauto. Qed.

Lemma value_of_same a edges edges' i :
  Forall2 same_edge edges edges' -> value_of a edges i = value_of a edges' i.
Proof.
  intros S. unfold value_of. pose proof (Forall2_lookup same_edge edges edges') as [H _].
  specialize (H S i). inversion H as [e e' (K & _)|]; [|done]. injection K as -> ->. done.
Qed.

Lemma side_edge_same edges edges' t side :
  Forall2 same_edge edges edges' -> side_edge h edges t side = side_edge h edges' t side.
Proof.
  intros S. unfold side_edge.
  pose proof (fun x y => findEdge_keys edges edges' x y (same_edges_key _ _ S)) as FE.
  pose proof (Forall2_lookup same_edge edges edges') as [L _]. specialize (L S).
  case_match.
  - destruct (prev (h t)) as [t'|]; [|done]. simpl. rewrite FE.
    destruct (findEdge edges' t' t) as [i|]; [|done]. simpl.
    specialize (L i). destruct (edges !! i), (edges' !! i); inversion L as [? ? (_ & F & T)|]; subst;
      [simpl; by rewrite T|done].
  - destruct (next (h t)) as [t'|]; [|done]. simpl. rewrite FE.
    destruct (findEdge edges' t t') as [i|]; [|done]. simpl.
    specialize (L i). destruct (edges !! i), (edges' !! i); inversion L as [? ? (_ & F & T)|]; subst;
      [simpl; by rewrite F|done].
Qed.

Lemma side_value a edges t side i :
  side_edge h edges t side = Some i -> side_layer h a t side = Some (value_of a edges i).
Proof.
  intros (e & He & K)%side_edge_sound. rewrite side_layer_key, K. unfold value_of. by rewrite He.
Qed.

(** An assignment that satisfies the chain satisfies what nodes and
    registrations demand of the edges. *)
Lemma satisfies_node a edges t :
  satisfies h c ts a -> t ∈ ts -> node_demand edges t (holds_in (value_of a edges)).
Proof.
  intros Sa Ht i j nd Hi Hj En.
  pose proof (side_value a edges t _ i Hi) as Vi. pose proof (side_value a edges t _ j Hj) as Vj.
  unfold side_layer in Vi, Vj. simpl in Vi, Vj.
  apply fmap_Some in Vi as (p & Ep & Vi), Vj as (q & Eq & Vj).
  unfold holds_in. rewrite Vi, Vj. simpl. split; intros W.
  - by eapply sat_same.
  - by eapply sat_opposite.
Qed.

Lemma satisfies_reg a edges reg :
  satisfies h c ts a -> reg ∈ layer_relations c -> left_tunnel reg ∈ ts -> right_tunnel reg ∈ ts ->
  reg_demand edges reg (holds_in (value_of a edges)).
Proof.
  intros Sa Hr Il Ir i j Hi Hj.
  pose proof (sat_registered _ _ _ _ Sa reg _ _ Hr Il Ir (side_value a edges _ _ i Hi)
    (side_value a edges _ _ j Hj)) as X.
  unfold related in X. unfold holds_in, relation_kind. by case_match.
Qed.

Lemma satisfies_edge a base e :
  satisfies h c ts a -> built ts ts (2 * zlen ts) base -> e ∈ base ->
  edge_admits e (a (e_from e) (e_to e)).
Proof.
  intros Sa (O & _ & _) He. split.
  - intros F nd En. apply (eo_from _ _ _ O e He) in F as [Hin Hn]. by eapply sat_next.
  - intros T nd En. apply (eo_to _ _ _ O e He) in T as [Hin Hp]. by eapply sat_prev.
Qed.

(** What the edge phase of the solver establishes. *)
Record solution edges rels : Prop := {
  so_graph : graph edges;
  so_real : real_edges edges;
  so_admits : forall e l, e ∈ edges -> allows (domain e) l = true -> edge_admits e l;
  so_stable : Forall (rel_P (stable_in edges)) rels;
  so_rels : forall P, symmetric_pred P -> Forall (rel_P P) rels <->
    (forall t, t ∈ ts -> node_demand edges t P) /\
    (forall reg, reg ∈ layer_relations c -> reg_demand edges reg P);
  so_regs : rels <> [] -> forall reg, reg ∈ layer_relations c ->
    left_tunnel reg ∈ ts /\ right_tunnel reg ∈ ts;
  so_complete : forall a, satisfies h c ts a -> fits (value_of a edges) edges
}.

Definition sound_rejection (s : node_layer_solver_status_t) : Prop :=
  code s <> kNodeLayerSolverErrConvergence /\
  (code s = kNodeLayerSolverErrConflict -> forall a, ~ satisfies h c ts a).

Lemma early_sound s : is_early s -> sound_rejection s.
Proof. intros [? ?]. by split. Qed.

Lemma conflict_sound s :
  code s = kNodeLayerSolverErrConflict -> (forall a, ~ satisfies h c ts a) -> sound_rejection s.
Proof. intros E N. split; [by rewrite E|done]. Qed.

Lemma built_fresh base n :
  (forall t, t ∈ ts -> linked t) -> built ts ts n base -> Forall fresh_edge base.
Proof.
  intros Ln (O & S & _). apply Forall_forall. intros e He.
  rewrite Forall_forall in S. split; [by apply (eo_any _ _ _ O)|].
  destruct (S e He) as [F|T].
  - apply (eo_from _ _ _ O e He) in F as [Hf Hn]. split; [done|]. by apply (proj1 (Ln _ Hf)).
  - apply (eo_to _ _ _ O e He) in T as [Ht Hp]. split; [|done]. by apply (proj2 (Ln _ Ht)).
Qed.

Lemma seeded_same base edges : Forall2 seeded base edges -> Forall2 same_edge base edges.
Proof. intros S. eapply Forall2_impl; [exact S|]. by intros e e' (? & _). Qed.

Lemma seeded_real base edges : Forall2 seeded base edges -> real_edges edges.
Proof. induction 1 as [|e e' l l' (_ & ? & _)]; by constructor. Qed.

Lemma seeded_fits a base edges :
  satisfies h c ts a -> built ts ts (2 * zlen ts) base -> Forall2 seeded base edges ->
  fits (value_of a edges) edges.
Proof.
  intros Sa B S i e' Hi. destruct (Forall2_lookup_r _ _ _ _ _ S Hi) as (e & He & (K & _) & _ & Ad).
  apply Ad. unfold value_of. rewrite Hi. injection K as <- <-.
  eapply satisfies_edge; [done..|]. by eapply list_elem_of_lookup_2.
Qed.

Lemma side_edge_lt edges t side i : side_edge h edges t side = Some i -> (i < length edges)%nat.
Proof. intros (e & He & _)%side_edge_sound. by eapply lookup_lt_Some. Qed.

(** The relations found in the description stay within the edge array. *)
Lemma demands_in_range edges :
  (forall t, t ∈ ts -> node_demand edges t (in_range (length edges))) /\
  (forall reg, reg ∈ layer_relations c -> reg_demand edges reg (in_range (length edges))).
Proof.
  split.
  - intros t _ i j nd Hi Hj _. unfold in_range.
    split; intros _; splits; try (by eapply side_edge_lt); auto.
  - intros reg _ i j Hi Hj. unfold in_range, relation_kind.
    splits; try (by eapply side_edge_lt). case_match; auto.
Qed.

Lemma node_demand_same edges edges' t P :
  Forall2 same_edge edges edges' -> node_demand edges t P <-> node_demand edges' t P.
Proof. intros S. unfold node_demand. by setoid_rewrite (side_edge_same _ _ _ _ S). Qed.

Lemma reg_demand_same edges edges' reg P :
  Forall2 same_edge edges edges' -> reg_demand edges reg P <-> reg_demand edges' reg P.
Proof. intros S. unfold reg_demand. by setoid_rewrite (side_edge_same _ _ _ _ S). Qed.

Lemma edge_admits_same e e' l : same_edge e e' -> edge_admits e l -> edge_admits e' l.
Proof. intros (K & F & T). injection K as K1 K2. unfold edge_admits. by rewrite K1, K2, F, T. Qed.

(** Propagation only removes layers, so the ends still admit what is left. *)
Lemma shrunk_admits base edges edges' :
  Forall2 seeded base edges -> Forall2 shrunk edges edges' ->
  forall e' l, e' ∈ edges' -> allows (domain e') l = true -> edge_admits e' l.
Proof.
  intros S S' e' l (i & Hi)%list_elem_of_lookup Al.
  destruct (Forall2_lookup_r _ _ _ _ _ S' Hi) as (e & He & Se & Sub).
  destruct (Forall2_lookup_r _ _ _ _ _ S He) as (b & Hb & Sb & _ & Ad).
  eapply edge_admits_same; [by transitivity e|]. apply Ad. by eapply Sub.
Qed.

Lemma wp_solve_edges :
  zlen ts <= kMaxChainLen -> zlen (layer_relations c) <= kMaxLayerRelations ->
  wp (solve_edges h c) (fun '(edges, rels) => solution edges rels) sound_rejection.
Proof.
  intros Lt Lr. unfold solve_edges. rewrite Hts.
  eapply wp_bind with (R := fun _ => forall t, t ∈ ts -> linked t).
  { eapply wp_mono; [by apply wp_validate_all|done|apply early_sound]. }
  intros [] Ln. eapply wp_bind; [by apply wp_build_chain|]. intros base B.
  eapply wp_bind.
  { eapply wp_mono; [apply wp_seed_all; by eapply built_fresh|intros x X; exact X|].
    intros s (e & He & Cs & N). apply conflict_sound; [done|]. intros a Sa.
    by apply (N (a (e_from e) (e_to e))), satisfies_edge with base. }
  intros e1 Sd. change kMaxChainLen with 64 in *. change kMaxLayerRelations with 128 in *.
  eapply wp_bind; [apply wp_all_node_relations; [done|change (zlen []) with 0; change kMaxRelations with 256; lia]|].
  intros r1 X1. destruct X1 as (L1 & X1 & N1). change (zlen []) with 0 in L1.
  eapply wp_bind.
  { eapply wp_mono; [apply (wp_registered_all e1 (layer_relations c) r1)|intros x X; exact X|apply early_sound].
    change kMaxRelations with 256. lia. }
  intros r2 (T2 & L2 & X2 & N2).
  assert (forall P, symmetric_pred P -> Forall (rel_P P) r2 <->
    (forall t, t ∈ ts -> node_demand e1 t P) /\
    (forall reg, reg ∈ layer_relations c -> reg_demand e1 reg P)) as Rels.
  { intros P Ps. rewrite (X2 P Ps), (X1 P Ps). split; [by intros [[_ ?] ?]|by intros [? ?]]. }
  eapply wp_bind.
  { eapply wp_mono; [apply wp_propagate|intros x X; exact X|].
    - by eapply seeded_real.
    - auto.
    - apply Rels; [apply in_range_sym|]. apply demands_in_range.
    - pose proof (weight_bounds e1). unfold zlen in *. lia.
    - intros s [Cs V]. apply conflict_sound; [done|]. intros a Sa.
      apply (V (value_of a e1)); [by eapply seeded_fits|]. apply Rels; [apply holds_in_sym|].
      split; intros; [by apply satisfies_node|apply satisfies_reg; by try apply T2]. }
  intros e2 (S2 & R2 & St2 & V2). simpl. pose proof (shrunk_same _ _ S2) as S2'. split; try done.
  - exists base. split; [done|]. transitivity e1; [by apply seeded_same|done].
  - by eapply shrunk_admits.
  - intros P Ps. rewrite (Rels P Ps). setoid_rewrite (node_demand_same e1 e2); [|done].
    by setoid_rewrite (reg_demand_same e1 e2); [|done].
  - intros a Sa i e Hi. rewrite <- (value_of_same a e1 e2) by done. revert i e Hi.
    apply (V2 (value_of a e1)); [|by eapply seeded_fits]. apply Rels; [apply holds_in_sym|].
    split; intros; [by apply satisfies_node|apply satisfies_reg; by try apply T2].
Qed.

(** ** The cached solution *)

Definition resolved (c' : tunnel_chain_t) (i : nat) (side : Z) : Z :=
  if side =? kTunnelLayerSidePrev then resolved_prev_layer c' !!! i else resolved_next_layer c' !!! i.

Lemma side_domain_edge edges t side k :
  graph edges -> t ∈ ts -> side_key t side = Some k ->
  exists i e, side_edge h edges t side = Some i /\ edges !! i = Some e /\ key e = k /\
    side_domain h edges t side = domain e.
Proof.
  intros G Ht K. destruct (side_edge_complete edges t side k G Ht K) as (i & e & Hi & He & Ke).
  exists i, e. unfold side_domain. rewrite Hi. simpl. by rewrite He.
Qed.

Lemma side_domain_none edges t side :
  side_key t side = None -> side_domain h edges t side = kLayerDomainEmpty.
Proof.
  intros K. unfold side_domain. destruct (side_edge h edges t side) as [i|] eqn:Hi; [|done].
  apply side_edge_sound in Hi as (e & _ & E). congruence.
Qed.

Lemma wp_cache edges l E : forall i prevs nexts,
  length prevs = Z.to_nat kMaxChainLen -> length nexts = Z.to_nat kMaxChainLen ->
  (i + length l <= Z.to_nat kMaxChainLen)%nat ->
  wp (cache_layers h edges i (Some <$> l) prevs nexts)
    (fun '(prevs', nexts') =>
       (forall k t, l !! k = Some t ->
          prevs' !! (i + k)%nat = Some (side_domain h edges t kTunnelLayerSidePrev) /\
          nexts' !! (i + k)%nat = Some (side_domain h edges t kTunnelLayerSideNext)) /\
       (forall k, (k < i)%nat -> prevs' !! k = prevs !! k /\ nexts' !! k = nexts !! k)) E.
Proof.
  induction l as [|t l IH]; intros i prevs nexts Lp Ln Li; [by split|].
  rewrite fmap_cons. cbn [cache_layers]. eapply wp_bind with (R := fun x => x = t); [done|].
  intros ? ->. simpl in Li. rewrite (proj2 (Z.ltb_lt _ _)) by lia.
  eapply wp_mono; [apply IH; rewrite ?length_insert; done || lia| |done].
  intros [p' n'] [H1 H2]. split.
  - intros [|k] x; simpl; [intros [= <-]|intros Hk; rewrite Nat.add_succ_r; by apply (H1 k)].
    rewrite Nat.add_0_r. destruct (H2 i ltac:(lia)) as [-> ->].
    rewrite !list_lookup_insert_eq by lia. done.
  - intros k Hk. destruct (H2 k ltac:(lia)) as [-> ->]. by rewrite !list_lookup_insert_ne by lia.
Qed.

(** A node that names layer 3 and nothing else, on itself or on a linked side. *)
Definition only_l3 (nd : node_t) (t : ptr) : Prop :=
  let only3 g := group_allows g L3 = true /\ group_allows g L4 = false in
  layer_group nd = kNodeLayer3 \/
  (is_Some (next (h t)) /\ only3 (layer_group_next_node nd)) \/
  (is_Some (prev (h t)) /\ only3 (layer_group_prev_node nd)).

Lemma only3_test (g : Z) :
  ((Z.land g kNodeLayer3 =? kNodeLayer3) && (Z.land g kNodeLayer4 =? 0) = true)%bool <->
  group_allows g L3 = true /\ group_allows g L4 = false.
Proof.
  unfold group_allows. rewrite andb_true_iff. change kNodeLayer4 with (2 ^ 3).
  rewrite land_bit_zero, negb_true_iff by lia.
  pose proof (land_bit_zero g 2 ltac:(lia)) as B. change (2 ^ 2) with kNodeLayer3 in B.
  destruct (Z.testbit g 2) eqn:T; simpl in B.
  - assert (Z.land g kNodeLayer3 = kNodeLayer3) as ->; [|by rewrite Z.eqb_refl].
    apply Z.bits_inj'. intros n Hn. rewrite Z.land_spec. change kNodeLayer3 with (2 ^ 2).
    rewrite Z.pow2_bits_eqb by lia. destruct (Z.eqb_spec 2 n) as [<-|]; [by rewrite T|apply andb_false_r].
  - bool_facts. rewrite B. done.
Qed.

Lemma non_null_is_Some {A} (p : option A) : non_null p = true <-> is_Some p.
Proof. destruct p; simpl; split; intros H; [eauto|done|done|by destruct H]. Qed.

Lemma wp_any_fixed l E :
  l ⊆ ts ->
  wp (any_fixed_to_l3 h (Some <$> l))
    (fun b => b = true <-> exists t nd, t ∈ l /\ node (h t) = Some nd /\ only_l3 nd t) E.
Proof.
  induction l as [|t l IH]; intros Hl.
  { simpl. split; [done|]. by intros (t & nd & ?%elem_of_nil & _). }
  destruct (Hnode t) as (nd & En); [set_solver|]. rewrite fmap_cons. cbn [any_fixed_to_l3].
  assert (wp (fixed_to_l3 h (Some t)) (fun b => b = true <-> only_l3 nd t) E) as F.
  { unfold fixed_to_l3. cbn [deref mbind solved_bind]. rewrite En. cbn [deref mbind solved_bind].
    simpl. rewrite !orb_true_iff, !(andb_true_iff (non_null _)), !only3_test, Z.eqb_eq.
    rewrite !non_null_is_Some. unfold only_l3. simpl. tauto. }
  eapply wp_bind; [exact F|]. intros b Hb. destruct b.
  - simpl. split; [|done]. intros _. exists t, nd. rewrite elem_of_cons. split; [by left|]. split; [done|].
    by apply Hb.
  - eapply wp_mono; [apply IH; clear Hb; set_solver| |done]. intros b' Hb'. rewrite Hb'. split.
    + intros (x & nx & Hx & R). exists x, nx. rewrite elem_of_cons. auto.
    + intros (x & nx & [->|Hx]%elem_of_cons & Ex & Ox); [|by exists x, nx].
      rewrite En in Ex. injection Ex as <-. by apply Hb in Ox.
Qed.

(** Why a chain is classified as a packet chain. *)
Definition packet_reason edges rels : Prop :=
  (exists e, e ∈ edges /\ domain e = kLayerDomainL3) \/
  (exists t nd, t ∈ ts /\ node (h t) = Some nd /\ only_l3 nd t) \/
  (exists r, r ∈ rels /\ rel_kind r = kRelationOpposite).

Lemma wp_is_packet edges rels E :
  wp (is_packet_chain h c edges rels) (fun b => b = true <-> packet_reason edges rels) E.
Proof.
  unfold is_packet_chain, packet_reason. destruct (existsb _ edges) eqn:X1.
  { apply existsb_exists in X1 as (e & He%list_elem_of_In & D%Z.eqb_eq). split; [|done].
    intros _. left. by exists e. }
  assert (~ exists e, e ∈ edges /\ domain e = kLayerDomainL3) as N1.
  { intros (e & He & D). rewrite <- not_true_iff_false, existsb_exists in X1. apply X1.
    exists e. split; [by apply list_elem_of_In|by apply Z.eqb_eq]. }
  rewrite Hts. eapply wp_bind; [by apply wp_any_fixed|]. intros b Hb. destruct b.
  { split; [|done]. intros _. right. left. by apply Hb. }
  simpl. rewrite existsb_exists. split.
  - intros (r & Hr%list_elem_of_In & K%Z.eqb_eq). right. right. by exists r.
  - intros [?|[?|(r & Hr & K)]]; [done|by apply Hb in H|].
    exists r. split; [by apply list_elem_of_In|by apply Z.eqb_eq].
Qed.

(** What a published solution is. *)
Definition published (c' : tunnel_chain_t) : Prop :=
  exists edges rels, solution edges rels /\
    tunnels c' = tunnels c /\ layer_relations c' = layer_relations c /\
    layer_solution_ready c' = true /\
    (forall i t side, ts !! i = Some t -> resolved c' i side = side_domain h edges t side) /\
    (contains_packet_node c' = true <-> packet_reason edges rels).

Lemma solution_nil : ts = [] -> solution [] [].
Proof.
  intros N. split.
  - exists []. rewrite N. split; [|by constructor]. split; [|split; [by apply Forall_nil|by compute]].
    by split; [intros ? ?%elem_of_nil..|intros ? ? ?%elem_of_nil|intros ? ? ?%elem_of_nil|constructor].
  - by constructor.
  - by intros e l ?%elem_of_nil.
  - by constructor.
  - intros P _. split; [|by constructor]. intros _. split; [rewrite N; by intros t ?%elem_of_nil|].
    by intros reg _ i j (e & He & _)%side_edge_sound.
  - done.
  - by intros a _ i e.
Qed.

Lemma resolved_at prevs nexts packet i side dp dn :
  prevs !! i = Some dp -> nexts !! i = Some dn ->
  resolved (publish_solution c packet prevs nexts) i side =
  if side =? kTunnelLayerSidePrev then dp else dn.
Proof.
  intros P N. unfold resolved, publish_solution. simpl.
  case_match; by apply list_lookup_total_correct.
Qed.

Lemma side_domain_other edges t side :
  side_domain h edges t side =
  if side =? kTunnelLayerSidePrev then side_domain h edges t kTunnelLayerSidePrev
  else side_domain h edges t kTunnelLayerSideNext.
Proof. unfold side_domain, side_edge. by destruct (side =? kTunnelLayerSidePrev). Qed.

Lemma wp_solve_chain :
  zlen ts <= kMaxChainLen -> zlen (layer_relations c) <= kMaxLayerRelations ->
  wp (solve_chain h c) published sound_rejection.
Proof.
  intros Lt Lr. unfold solve_chain.
  assert (zlen (tunnels c) = zlen ts) as -> by (rewrite Hts; unfold zlen; by rewrite length_fmap).
  destruct (Z.eqb_spec (zlen ts) 0) as [Z0|_].
  { assert (ts = []) as N by (destruct ts; [done|rewrite zlen_cons in Z0; pose proof (zlen_nonneg l); lia]).
    exists [], []. splits; try done; [by apply solution_nil|by rewrite N|].
    split; [done|]. unfold packet_reason. rewrite N.
    intros [(? & ?%elem_of_nil & _)|[(? & ? & ?%elem_of_nil & _)|(? & ?%elem_of_nil & _)]]; done. }
  eapply wp_bind; [by apply wp_solve_edges|]. intros [edges rels] So.
  rewrite Hts. eapply wp_bind.
  { apply wp_cache; [done|done|]. unfold zlen in Lt. simpl. lia. }
  intros [prevs nexts] [C1 _]. eapply wp_bind; [apply wp_is_packet|]. intros packet Pk.
  exists edges, rels. splits; try done. intros i t side Hi. destruct (C1 i t Hi) as [P N].
  rewrite (resolved_at _ _ _ _ _ _ _ P N). symmetry. apply side_domain_other.
Qed.

End Chain.

(** ** The theorems *)

(** The resolved layers of a solved chain, read side by side. *)
Record consistent (h : ptr -> tunnel_t) (c : tunnel_chain_t) (ts : list ptr) (c' : tunnel_chain_t)
  : Prop := {
  co_unlinked : forall i t side, ts !! i = Some t -> side_key h t side = None ->
    resolved c' i side = kLayerDomainEmpty;
  co_linked : forall i t side k, ts !! i = Some t -> side_key h t side = Some k ->
    resolved c' i side = kLayerDomainL3 \/ resolved c' i side = kLayerDomainL4 \/
    resolved c' i side = kLayerDomainAny;
  co_prev : forall i t nd p l, ts !! i = Some t -> node (h t) = Some nd -> prev (h t) = Some p ->
    allows (resolved c' i kTunnelLayerSidePrev) l = true ->
    admits (layer_group nd) (layer_group_prev_node nd) l;
  co_next : forall i t nd q l, ts !! i = Some t -> node (h t) = Some nd -> next (h t) = Some q ->
    allows (resolved c' i kTunnelLayerSideNext) l = true ->
    admits (layer_group nd) (layer_group_next_node nd) l;
  co_shared : forall i j t t', ts !! i = Some t -> ts !! j = Some t' ->
    next (h t) = Some t' -> prev (h t') = Some t ->
    resolved c' i kTunnelLayerSideNext = resolved c' j kTunnelLayerSidePrev;
  co_same : forall i t nd p q, ts !! i = Some t -> node (h t) = Some nd ->
    prev (h t) = Some p -> next (h t) = Some q -> wants_same nd ->
    resolved c' i kTunnelLayerSidePrev = resolved c' i kTunnelLayerSideNext;
  co_opposite : forall i t nd p q, ts !! i = Some t -> node (h t) = Some nd ->
    prev (h t) = Some p -> next (h t) = Some q -> wants_opposite nd ->
    resolved c' i kTunnelLayerSidePrev =
      nodeLayerDomainFlip (resolved c' i kTunnelLayerSideNext);
  co_registered : forall r i j k k', r ∈ layer_relations c ->
    ts !! i = Some (left_tunnel r) -> ts !! j = Some (right_tunnel r) ->
    side_key h (left_tunnel r) (left_side r) = Some k ->
    side_key h (right_tunnel r) (right_side r) = Some k' ->
    resolved c' i (left_side r) =
      if reg_kind r =? kTunnelLayerRelationSame then resolved c' j (right_side r)
      else nodeLayerDomainFlip (resolved c' j (right_side r))
}.

Section Published.
Context (h : ptr -> tunnel_t) (c : tunnel_chain_t) (ts : list ptr) (c' : tunnel_chain_t).
Context (edges : list node_layer_edge_t) (rels : list node_layer_relation_t).
Context (So : solution h c ts edges rels).
Context (Re : forall i t side, ts !! i = Some t -> resolved c' i side = side_domain h edges t side).

(** The edge behind one side of a tunnel. *)
Lemma edge_of i t side k :
  ts !! i = Some t -> side_key h t side = Some k ->
  exists n e, side_edge h edges t side = Some n /\ edges !! n = Some e /\ key e = k /\
    resolved c' i side = domain e.
Proof.
  intros Hi K. destruct (side_domain_edge h ts edges t side k) as (n & e & ? & ? & ? & D).
  - apply So.
  - by eapply list_elem_of_lookup_2.
  - done.
  - exists n, e. splits; try done. by rewrite (Re i t side Hi).
Qed.

Lemma edge_before i t p :
  ts !! i = Some t -> prev (h t) = Some p ->
  exists n e, side_edge h edges t kTunnelLayerSidePrev = Some n /\ edges !! n = Some e /\
    key e = (p, t) /\ resolved c' i kTunnelLayerSidePrev = domain e.
Proof. intros Hi Hp. apply edge_of; [done|]. unfold side_key. simpl. by rewrite Hp. Qed.

Lemma edge_after i t q :
  ts !! i = Some t -> next (h t) = Some q ->
  exists n e, side_edge h edges t kTunnelLayerSideNext = Some n /\ edges !! n = Some e /\
    key e = (t, q) /\ resolved c' i kTunnelLayerSideNext = domain e.
Proof. intros Hi Hq. apply edge_of; [done|]. unfold side_key. simpl. by rewrite Hq. Qed.

Lemma graph_participates e :
  e ∈ edges ->
  (from_participates e = true <-> e_from e ∈ ts /\ next (h (e_from e)) = Some (e_to e)) /\
  (to_participates e = true <-> e_to e ∈ ts /\ prev (h (e_to e)) = Some (e_from e)) /\
  (from_participates e = true \/ to_participates e = true).
Proof.
  intros (i & Hi)%list_elem_of_lookup. destruct (so_graph _ _ _ _ _ So) as (b & (O & T & _) & S).
  destruct (same_edges_lookup _ _ _ _ S Hi) as (x & Hx & K & F & P).
  injection K as <- <-. rewrite <- F, <- P. pose proof (list_elem_of_lookup_2 _ _ _ Hx) as Hx'.
  splits; [apply (eo_from _ _ _ _ O x Hx')|apply (eo_to _ _ _ _ O x Hx')|].
  by apply (Forall_lookup_1 _ _ _ _ T Hx).
Qed.

Lemma edge_at_admits e l nd :
  e ∈ edges -> allows (domain e) l = true ->
  (e_from e ∈ ts -> next (h (e_from e)) = Some (e_to e) -> node (h (e_from e)) = Some nd ->
     admits (layer_group nd) (layer_group_next_node nd) l) /\
  (e_to e ∈ ts -> prev (h (e_to e)) = Some (e_from e) -> node (h (e_to e)) = Some nd ->
     admits (layer_group nd) (layer_group_prev_node nd) l).
Proof.
  intros He Al. destruct (so_admits _ _ _ _ _ So e l He Al) as [A1 A2].
  destruct (graph_participates e He) as (F & T & _). split; intros Hin Hl En.
  - apply A1; [by apply F|done].
  - apply A2; [by apply T|done].
Qed.

Lemma stable_demands :
  (forall t, t ∈ ts -> node_demand h edges t (stable_in edges)) /\
  (forall reg, reg ∈ layer_relations c -> reg_demand h edges reg (stable_in edges)).
Proof. apply (so_rels _ _ _ _ _ So), So. apply stable_in_sym. Qed.

(** Two edges of the solution with the same ends are one edge. *)
Lemma solution_unique n m e e' :
  edges !! n = Some e -> edges !! m = Some e' -> key e = key e' -> e = e'.
Proof.
  intros He He' K. destruct (so_graph _ _ _ _ _ So) as (b & (O & _ & _) & S).
  assert (n = m) as <-; [|congruence]. eapply key_unique; [|done..].
  rewrite <- (same_edges_key _ _ S). apply O.
Qed.

Lemma published_consistent : consistent h c ts c'.
Proof.
  destruct stable_demands as [Dn Dr]. split.
  - intros i t side Hi K. rewrite (Re i t side Hi). by apply side_domain_none.
  - intros i t side k Hi K. destruct (edge_of i t side k Hi K) as (n & e & _ & He & _ & ->).
    destruct (Forall_lookup_1 _ _ _ _ (so_real _ _ _ _ _ So) He) as [D N]. domain_cases; [done|by left|by right; left|by right; right].
  - intros i t nd p l Hi En Hp. destruct (edge_before i t p Hi Hp) as (n & e & _ & He & K & ->).
    injection K as <- <-. intros Al. apply list_elem_of_lookup_2 in Hi, He.
    by apply (edge_at_admits e l nd He Al).
  - intros i t nd q l Hi En Hq. destruct (edge_after i t q Hi Hq) as (n & e & _ & He & K & ->).
    injection K as <- <-. intros Al. apply list_elem_of_lookup_2 in Hi, He.
    by apply (edge_at_admits e l nd He Al).
  - intros i j t t' Hi Hj Hn Hp.
    destruct (edge_after i t t' Hi Hn) as (n & e & _ & He & K & ->).
    destruct (edge_before j t' t Hj Hp) as (n' & e' & _ & He' & K' & ->).
    by rewrite (solution_unique n n' e e') by congruence.
  - intros i t nd p q Hi En Hp Hq W.
    destruct (edge_before i t p Hi Hp) as (n & e & Sn & He & _ & ->).
    destruct (edge_after i t q Hi Hq) as (m & e' & Sm & He' & _ & ->).
    exact (proj1 (Dn t (list_elem_of_lookup_2 _ _ _ Hi) n m nd Sn Sm En) W e e' He He').
  - intros i t nd p q Hi En Hp Hq W.
    destruct (edge_before i t p Hi Hp) as (n & e & Sn & He & _ & ->).
    destruct (edge_after i t q Hi Hq) as (m & e' & Sm & He' & _ & ->).
    exact (proj1 (proj2 (Dn t (list_elem_of_lookup_2 _ _ _ Hi) n m nd Sn Sm En) W e e' He He')).
  - intros r i j k k' Hr Hi Hj K K'.
    destruct (edge_of i _ _ k Hi K) as (n & e & Sn & He & _ & ->).
    destruct (edge_of j _ _ k' Hj K') as (m & e' & Sm & He' & _ & ->).
    pose proof (Dr r Hr n m Sn Sm e e' He He') as X. unfold relation_kind in X.
    destruct (reg_kind r =? kTunnelLayerRelationSame); [exact X|exact (proj1 X)].
Qed.

Lemma value_at (a : assignment) n e : edges !! n = Some e -> value_of a edges n = a (e_from e) (e_to e).
Proof. unfold value_of. by intros ->. Qed.

(** No satisfying assignment is lost. *)
Lemma published_complete (a : assignment) i t side l :
  satisfies h c ts a -> ts !! i = Some t -> side_layer h a t side = Some l ->
  allows (resolved c' i side) l = true.
Proof.
  intros Sa Hi Sl. rewrite side_layer_key in Sl. apply fmap_Some in Sl as (k & K & ->).
  destruct (edge_of i t side k Hi K) as (n & e & _ & He & <- & ->).
  pose proof (so_complete _ _ _ _ _ So a Sa n e He) as F. by rewrite (value_at a n e He) in F.
Qed.

(** An assignment within the domains that respects the relations satisfies the
    chain. *)
Lemma satisfies_of (a : assignment) :
  fits (value_of a edges) edges -> Forall (rel_P (holds_in (value_of a edges))) rels ->
  satisfies h c ts a.
Proof.
  intros F Hr. apply (so_rels _ _ _ _ _ So _ (holds_in_sym _)) in Hr as [Dn Dr].
  split.
  - intros t nd t' (i & Hi)%list_elem_of_lookup En Hn.
    destruct (edge_after i t t' Hi Hn) as (n & e & _ & He & K & _). pose proof (F n e He) as Al.
    rewrite (value_at a n e He) in Al. injection K as <- <-. apply list_elem_of_lookup_2 in Hi, He.
    by apply (edge_at_admits e _ nd He Al).
  - intros t nd t' (i & Hi)%list_elem_of_lookup En Hp.
    destruct (edge_before i t t' Hi Hp) as (n & e & _ & He & K & _). pose proof (F n e He) as Al.
    rewrite (value_at a n e He) in Al. injection K as <- <-. apply list_elem_of_lookup_2 in Hi, He.
    by apply (edge_at_admits e _ nd He Al).
  - intros t nd p q Ht En Hp Hq W. pose proof Ht as (i & Hi)%list_elem_of_lookup.
    destruct (edge_before i t p Hi Hp) as (n & e & Sn & He & K & _).
    destruct (edge_after i t q Hi Hq) as (m & e' & Sm & He' & K' & _).
    pose proof (proj1 (Dn t Ht n m nd Sn Sm En) W) as X. unfold holds_in in X. simpl in X.
    rewrite (value_at a n e He), (value_at a m e' He') in X. unfold key in K, K'. congruence.
  - intros t nd p q Ht En Hp Hq W. pose proof Ht as (i & Hi)%list_elem_of_lookup.
    destruct (edge_before i t p Hi Hp) as (n & e & Sn & He & K & _).
    destruct (edge_after i t q Hi Hq) as (m & e' & Sm & He' & K' & _).
    pose proof (proj2 (Dn t Ht n m nd Sn Sm En) W) as X. unfold holds_in in X. simpl in X.
    rewrite (value_at a n e He), (value_at a m e' He') in X. unfold key in K, K'. congruence.
  - intros r l l' Hr Il Ir Sl Sr. rewrite side_layer_key in Sl, Sr.
    apply fmap_Some in Sl as (k & K & ->), Sr as (k' & K' & ->).
    apply list_elem_of_lookup in Il as (i & Il), Ir as (j & Ir).
    destruct (edge_of i _ _ k Il K) as (n & e & Sn & He & <- & _).
    destruct (edge_of j _ _ k' Ir K') as (m & e' & Sm & He' & <- & _).
    pose proof (Dr r Hr n m Sn Sm) as X. unfold holds_in, relation_kind in X. unfold related.
    rewrite (value_at a n e He), (value_at a m e' He') in X.
    by destruct (reg_kind r =? kTunnelLayerRelationSame).
Qed.

(** The layer of an edge that has only one left. *)
Definition only_layer : assignment := fun f t =>
  match findEdge edges f t ≫= fun n => edges !! n with
  | Some e => if allows (domain e) L3 then L3 else L4
  | None => L4
  end.

Lemma only_layer_at n e :
  edges !! n = Some e -> value_of only_layer edges n = if allows (domain e) L3 then L3 else L4.
Proof.
  intros He. rewrite (value_at _ n e He). unfold only_layer.
  destruct (so_graph _ _ _ _ _ So) as (b & (O & _ & _) & S).
  rewrite (findEdge_at edges n e); [|rewrite <- (same_edges_key _ _ S); apply O|done].
  simpl. by rewrite He.
Qed.

(** Every edge shows up on a side of some tunnel of the chain. *)
Lemma edge_on_side n e :
  edges !! n = Some e ->
  exists i t side k, ts !! i = Some t /\ side_key h t side = Some k /\ resolved c' i side = domain e.
Proof.
  intros He. destruct (graph_participates e (list_elem_of_lookup_2 _ _ _ He)) as (F & T & [P|P]).
  - apply F in P as [(i & Hi)%list_elem_of_lookup Hn].
    destruct (edge_after i _ _ Hi Hn) as (m & e' & _ & He' & K & R).
    exists i, (e_from e), kTunnelLayerSideNext, (key e). splits; [done| |].
    + unfold side_key. simpl. by rewrite Hn.
    + by rewrite R, (solution_unique m n e' e).
  - apply T in P as [(i & Hi)%list_elem_of_lookup Hp].
    destruct (edge_before i _ _ Hi Hp) as (m & e' & _ & He' & K & R).
    exists i, (e_to e), kTunnelLayerSidePrev, (key e). splits; [done| |].
    + unfold side_key. simpl. by rewrite Hp.
    + by rewrite R, (solution_unique m n e' e).
Qed.

(** On edges with a single layer each, a stable relation holds of those layers. *)
Lemma stable_holds k n m e e' :
  edges !! n = Some e -> edges !! m = Some e' ->
  domain e = kLayerDomainL3 \/ domain e = kLayerDomainL4 ->
  domain e' = kLayerDomainL3 \/ domain e' = kLayerDomainL4 ->
  stable_in edges k n m -> holds_in (value_of only_layer edges) k n m.
Proof.
  intros He He' One One' St. specialize (St e e' He He'). unfold holds_in.
  rewrite (only_layer_at n e He), (only_layer_at m e' He').
  destruct One as [E|E], One' as [E'|E']; rewrite E, E' in *;
    destruct (k =? kRelationSameAs); try done; by destruct St.
Qed.

(** When every linked side is down to one layer, those layers are a solution. *)
Lemma published_determined :
  (forall i t side k, ts !! i = Some t -> side_key h t side = Some k ->
     resolved c' i side <> kLayerDomainAny) ->
  satisfies h c ts only_layer.
Proof.
  intros D.
  assert (forall n e, edges !! n = Some e -> domain e = kLayerDomainL3 \/ domain e = kLayerDomainL4) as One.
  { intros n e He. destruct (edge_on_side n e He) as (i & t & side & k & Hi & K & R).
    pose proof (D i t side k Hi K) as N. rewrite R in N.
    destruct (Forall_lookup_1 _ _ _ _ (so_real _ _ _ _ _ So) He) as [Dm Ne].
    domain_cases; [done|by left|by right|done]. }
  apply satisfies_of.
  - intros n e He. rewrite (only_layer_at n e He). by destruct (One n e He) as [-> | ->].
  - apply (so_rels _ _ _ _ _ So _ (holds_in_sym _)). destruct stable_demands as [Dn Dr]. split.
    + intros t Ht n m nd Sn Sm En. destruct (side_edge_sound _ _ _ _ _ Sn) as (e & He & _).
      destruct (side_edge_sound _ _ _ _ _ Sm) as (e' & He' & _).
      split; intros W; eapply stable_holds; eauto; by apply (Dn t Ht n m nd).
    + intros r Hr n m Sn Sm. destruct (side_edge_sound _ _ _ _ _ Sn) as (e & He & _).
      destruct (side_edge_sound _ _ _ _ _ Sm) as (e' & He' & _).
      eapply stable_holds; eauto. by apply (Dr r Hr).
Qed.

(** ** Packet chains *)

Definition all_streams : assignment := fun _ _ => L4.

Lemma value_streams n : (n < length edges)%nat -> value_of all_streams edges n = L4.
Proof.
  intros Hn. destruct (lookup_lt_is_Some_2 _ _ Hn) as (e & He). by rewrite (value_at _ n e He).
Qed.

Lemma rels_in_range : Forall (rel_P (in_range (length edges))) rels.
Proof. apply (so_rels _ _ _ _ _ So _ (in_range_sym _)), demands_in_range. Qed.

Lemma satisfies_rels (a : assignment) :
  satisfies h c ts a -> Forall (rel_P (holds_in (value_of a edges))) rels.
Proof.
  intros Sa. destruct rels as [|r rs] eqn:E; [by constructor|]. rewrite <- E in *.
  apply (so_rels _ _ _ _ _ So _ (holds_in_sym _)). split.
  - intros t Ht. by eapply satisfies_node.
  - intros reg Hr. destruct (so_regs _ _ _ _ _ So ltac:(by rewrite E) reg Hr). by eapply satisfies_reg.
Qed.

Lemma not_packet : ~ packet_reason h ts edges rels -> satisfies h c ts all_streams.
Proof.
  intros N. apply satisfies_of.
  - intros n e He. rewrite (value_at _ n e He). unfold all_streams.
    destruct (Forall_lookup_1 _ _ _ _ (so_real _ _ _ _ _ So) He) as [Dm Ne].
    domain_cases; try done. exfalso. apply N. left. exists e.
    split; [by eapply list_elem_of_lookup_2|done].
  - apply Forall_forall. intros r Hr. pose proof rels_in_range as In.
    rewrite Forall_forall in In. destruct (In r Hr) as ([K|K] & Ln & Lm).
    + unfold rel_P, holds_in. rewrite K. simpl. by rewrite !value_streams.
    + exfalso. apply N. right. right. by exists r.
Qed.

Lemma packet_not_streams :
  packet_reason h ts edges rels ->
  (exists t nd, t ∈ ts /\ node (h t) = Some nd /\ layer_group nd = kNodeLayer3 /\
     prev (h t) = None /\ next (h t) = None) \/
  ~ satisfies h c ts all_streams.
Proof.
  intros [(e & He & D)|[(t & nd & Ht & En & O)|(r & Hr & K)]].
  - right. intros Sa. apply list_elem_of_lookup in He as (n & He).
    pose proof (so_complete _ _ _ _ _ So _ Sa n e He) as F.
    rewrite (value_at _ n e He), D in F. discriminate.
  - assert (forall req, ~ admits kNodeLayer3 req L4) as A by (by intros req [? _]).
    assert (forall own req, group_allows req L3 = true /\ group_allows req L4 = false ->
      ~ admits own req L4) as A'.
    { intros own req [G3 G4] [_ B]. rewrite has_anything, G3, G4 in B. by specialize (B eq_refl). }
    destruct O as [O|[((q & Hq) & O)|((p & Hp) & O)]].
    + destruct (prev (h t)) as [p|] eqn:Hp.
      { right. intros Sa. pose proof (sat_prev _ _ _ _ Sa t nd p Ht En Hp) as X. rewrite O in X.
        by apply A in X. }
      destruct (next (h t)) as [q|] eqn:Hq; [|left; by exists t, nd].
      right. intros Sa. pose proof (sat_next _ _ _ _ Sa t nd q Ht En Hq) as X. rewrite O in X.
      by apply A in X.
    + right. intros Sa. exact (A' _ _ O (sat_next _ _ _ _ Sa t nd q Ht En Hq)).
    + right. intros Sa. exact (A' _ _ O (sat_prev _ _ _ _ Sa t nd p Ht En Hp)).
  - right. intros Sa.
    pose proof (satisfies_rels _ Sa) as F. pose proof rels_in_range as In.
    rewrite Forall_forall in F, In. specialize (F r Hr). destruct (In r Hr) as (_ & Ln & Lm).
    unfold rel_P, holds_in in F. rewrite K in F. simpl in F. by rewrite !value_streams in F.
Qed.
End Published.

Section Results.
Context (sizeof_line : Z) (h : ptr -> tunnel_t) (c : tunnel_chain_t) (ts : list ptr).
Context (Hok : chain_ok sizeof_line h c ts).

Lemma solver_result :
  match nodeLayerSolveChain h (Some c) with
  | Ok (Some c', None) => published h (reset_solution c) ts c'
  | Ok (Some c', Some s) => c' = reset_solution c /\ sound_rejection h (reset_solution c) ts s
  | _ => False
  end.
Proof.
  assert (forall t, t ∈ ts -> exists nd, node (h t) = Some nd) as Hn.
  { intros t Ht. pose proof (ok_members _ _ _ _ Hok) as M. rewrite Forall_forall in M.
    destruct (M t Ht) as (_ & nd & En & _). eauto. }
  pose proof (wp_solve_chain h (reset_solution c) ts (ok_tunnels _ _ _ _ Hok) Hn
    (ok_len _ _ _ _ Hok) (ok_relations _ _ _ _ Hok)) as W.
  unfold nodeLayerSolveChain. by destruct (solve_chain h (reset_solution c)).
Qed.

Lemma satisfies_reset a : satisfies h (reset_solution c) ts a <-> satisfies h c ts a.
Proof. split; intros []; by split. Qed.

(** C1. On every well-formed chain the solver returns: it never writes past its
    edge or relation array, never follows a null pointer, and never gives up for
    lack of iterations.  It either publishes a solution or rejects the chain
    with the cached solution cleared. *)
Theorem nodeLayerSolveChain_total :
  exists c' st, nodeLayerSolveChain h (Some c) = Ok (Some c', st) /\
    match st with
    | None => layer_solution_ready c' = true /\ tunnels c' = tunnels c
    | Some s => code s <> kNodeLayerSolverErrConvergence /\ c' = reset_solution c
    end.
Proof.
  pose proof solver_result as R.
  destruct (nodeLayerSolveChain h (Some c)) as [[[c'|] [s|]]|]; try done.
  - exists c', (Some s). destruct R as [-> [N _]]. done.
  - exists c', None. destruct R as (edges & rels & _ & T & _ & Rd & _). done.
Qed.

(** C2. A published solution is consistent with every node description and
    registered relation: an unlinked side is empty and a linked one is not, both
    ends of a link carry the same layers, each side only holds layers its node
    admits, sides that must agree are equal and sides that must differ are
    opposite. *)
Theorem nodeLayerSolveChain_consistent c' :
  nodeLayerSolveChain h (Some c) = Ok (Some c', None) -> consistent h c ts c'.
Proof.
  intros E. pose proof solver_result as R. rewrite E in R.
  destruct R as (edges & rels & So & _ & _ & _ & Re & _).
  destruct (published_consistent h _ ts c' edges rels So Re). by split.
Qed.

(** C3. No satisfying assignment of layers is ever lost: if one exists, the
    chain is not rejected for a layer conflict, and a published solution keeps
    the layer of that assignment on every linked side. *)
Theorem nodeLayerSolveChain_complete (a : assignment) c' st :
  satisfies h c ts a -> nodeLayerSolveChain h (Some c) = Ok (Some c', st) ->
  match st with
  | Some s => code s <> kNodeLayerSolverErrConflict
  | None => forall i t side l, ts !! i = Some t -> side_layer h a t side = Some l ->
      allows (resolved c' i side) l = true
  end.
Proof.
  intros Sa%satisfies_reset E. pose proof solver_result as R. rewrite E in R. destruct st as [s|].
  - destruct R as [_ [_ N]]. intros Cs. by apply (N Cs a).
  - destruct R as (edges & rels & So & _ & _ & _ & Re & _). intros i t side l.
    by apply (published_complete h _ ts c' edges rels So Re).
Qed.


(** The packet classification is exact up to isolated nodes: a chain that
    is not classified as a packet chain can run with streams on every link, and
    one that is classified cannot, unless it holds an unlinked layer 3 node. *)
Theorem nodeLayerSolveChain_packet c' :
  nodeLayerSolveChain h (Some c) = Ok (Some c', None) ->
  if contains_packet_node c' then
    (exists t nd, t ∈ ts /\ node (h t) = Some nd /\ layer_group nd = kNodeLayer3 /\
       prev (h t) = None /\ next (h t) = None) \/ ~ satisfies h c ts all_streams
  else satisfies h c ts all_streams.
Proof.
  intros E. pose proof solver_result as R. rewrite E in R.
  destruct R as (edges & rels & So & _ & _ & _ & Re & Pk).
  destruct (contains_packet_node c').
  - rewrite <- satisfies_reset. apply (packet_not_streams h _ ts edges rels So). by apply Pk.
  - apply satisfies_reset, (not_packet h _ ts c' edges rels So Re). intros P. by apply Pk in P.
Qed.
End Results.

(** ** Concrete chains *)

(** Three linked tunnels; the middle one has the given requirements. *)
Definition layer_node (flags req_next req_prev : Z) (has_next has_prev : bool) : node_t :=
  mk_node "Demo" flags 0 kNodeLayerAnything req_next req_prev has_next has_prev None.

Definition layer_heap (req_next req_prev : Z) : ptr -> tunnel_t := fun t =>
  match t with
  | 1%nat => mk_tunnel (Some 2%nat) None None 0
      (Some (layer_node kNodeFlagChainHead kNodeLayerAnything kNodeLayerNone true false))
  | 2%nat => mk_tunnel (Some 3%nat) (Some 1%nat) None 0
      (Some (layer_node 1 req_next req_prev true true))
  | _ => mk_tunnel None (Some 2%nat) None 0
      (Some (layer_node kNodeFlagChainEnd kNodeLayerNone kNodeLayerAnything false true))
  end.

Definition layer_chain : tunnel_chain_t :=
  mk_chain (Some <$> [1%nat; 2%nat; 3%nat]) 0 0 1 false false false false false [] no_layers no_layers.

Lemma layer_chain_ok req_next req_prev :
  chain_ok 256 (layer_heap req_next req_prev) layer_chain [1%nat; 2%nat; 3%nat].
Proof.
  split; simpl; try done; try by constructor.
  repeat constructor; simpl; eauto; try (by compute); eexists; (split; [done|by compute]).
Qed.

(** Translates layer 3 on the left to layer 4 on the right. *)
Abbreviation adapter_heap :=
  (layer_heap (Z.lor kNodeLayer4 kNodeLayerOppositePrev) kNodeLayerAnything).

Definition adapter_layers : assignment := fun f _ => if bool_decide (f = 1%nat) then L3 else L4.

Lemma three_cases (t : ptr) : t ∈ [1%nat; 2%nat; 3%nat] -> t = 1%nat \/ t = 2%nat \/ t = 3%nat.
Proof. rewrite !elem_of_cons, elem_of_nil. tauto. Qed.

Lemma adapter_satisfied : satisfies adapter_heap layer_chain [1%nat; 2%nat; 3%nat] adapter_layers.
Proof.
  split.
  - intros t nd t' [->|[->| ->]]%three_cases [= <-] [= <-]; by split.
  - intros t nd t' [->|[->| ->]]%three_cases [= <-] [= <-]; by split.
  - intros t nd p q [->|[->| ->]]%three_cases [= <-] [= <-] [= <-] [W|W]; discriminate.
  - by intros t nd p q [->|[->| ->]]%three_cases [= <-] [= <-] [= <-].
  - by intros r l l' ?%elem_of_nil.
Qed.

Lemma nodeLayerSolveChain_total_witness :
  exists c' st, nodeLayerSolveChain adapter_heap (Some layer_chain) = Ok (Some c', st) /\
    st <> Some (mk_status kNodeLayerSolverErrConvergence None None).
Proof.
  destruct (nodeLayerSolveChain_total 256 adapter_heap layer_chain [1%nat; 2%nat; 3%nat]
    (layer_chain_ok _ _)) as (c' & st & E & M).
  exists c', st. split; [exact E|]. destruct st as [s|]; [|done]. destruct M as [N _].
  intros X. injection X as X. apply N. by rewrite X.
Defined.

(** The published solution of the adapter chain. *)
Definition adapter_solution : tunnel_chain_t :=
  publish_solution layer_chain true
    ([0; 1; 2] ++ replicate 61 0) ([1; 2; 0] ++ replicate 61 0).

Lemma adapter_solved :
  nodeLayerSolveChain adapter_heap (Some layer_chain) = Ok (Some adapter_solution, None).
Proof. vm_compute. reflexivity. Qed.

Lemma nodeLayerSolveChain_consistent_witness :
  resolved adapter_solution 1 kTunnelLayerSidePrev =
  nodeLayerDomainFlip (resolved adapter_solution 1 kTunnelLayerSideNext).
Proof.
  eapply (co_opposite _ _ _ _ (nodeLayerSolveChain_consistent 256 adapter_heap layer_chain
    [1%nat; 2%nat; 3%nat] (layer_chain_ok _ _) adapter_solution adapter_solved)); try reflexivity.
  left. reflexivity.
Defined.

Lemma nodeLayerSolveChain_complete_witness :
  allows (resolved adapter_solution 1 kTunnelLayerSidePrev) L3 = true.
Proof.
  apply (nodeLayerSolveChain_complete 256 adapter_heap layer_chain [1%nat; 2%nat; 3%nat]
    (layer_chain_ok _ _) adapter_layers adapter_solution None adapter_satisfied adapter_solved
    1%nat 2%nat); reflexivity.
Defined.


Lemma nodeLayerSolveChain_packet_witness :
  ~ satisfies adapter_heap layer_chain [1%nat; 2%nat; 3%nat] all_streams.
Proof.
  destruct (nodeLayerSolveChain_packet 256 adapter_heap layer_chain [1%nat; 2%nat; 3%nat]
    (layer_chain_ok _ _) adapter_solution adapter_solved) as [(t & nd & Ht & En & G & _)|N]; [|exact N].
  apply three_cases in Ht as [->|[->| ->]]; injection En as <-; discriminate.
Defined.

(** Asks for the same layer and for opposite layers on its two sides. *)
Abbreviation contradictory_heap :=
  (layer_heap kNodeLayerSameAsPrev (Z.lor kNodeLayerAnything kNodeLayerOppositeNext)).

(** C39. Acceptance does not imply that a solution exists.  The solver narrows
    each relation on its own, so a node that asks for the same layer and for
    opposite layers on its two sides passes every check: the chain is published
    with both layers on both links, although no assignment satisfies it. *)
Theorem nodeLayerSolveChain_accepts_contradiction :
  (exists c', nodeLayerSolveChain contradictory_heap (Some layer_chain) = Ok (Some c', None) /\
     resolved c' 1 kTunnelLayerSidePrev = kLayerDomainAny /\
     resolved c' 1 kTunnelLayerSideNext = kLayerDomainAny) /\
  forall a, ~ satisfies contradictory_heap layer_chain [1%nat; 2%nat; 3%nat] a.
Proof.
  split; [eexists; split; [vm_compute; reflexivity|by vm_compute]|].
  intros a Sa. assert (2%nat ∈ [1%nat; 2%nat; 3%nat]) as H2 by (by right; left).
  pose proof (sat_same _ _ _ _ Sa 2%nat _ 1%nat 3%nat H2 eq_refl eq_refl eq_refl (or_introl eq_refl)) as S.
  pose proof (sat_opposite _ _ _ _ Sa 2%nat _ 1%nat 3%nat H2 eq_refl eq_refl eq_refl (or_intror eq_refl)) as O.
  rewrite S in O. by destruct (a 2%nat 3%nat).
Qed.
