(* ===== verification/RateBucket.v ===== *)
(** * Token buckets ([ww/base/rate_bucket.h], [ww/base/rate_bucket.c])

    The credit of a bucket is whole bytes plus thousandths of a byte, and the
    clock counts milliseconds.  The code avoids the unbounded product
    [rate * elapsed]; the theorems compare it with that product.  Every operation
    is on unsigned 64-bit values and wraps in the model as it does in C. *)

From Stdlib Require Import ZArith Lia.
From stdpp Require Import base numbers option list.
From S2P Require Import Prelude.
Open Scope Z_scope.
Open Scope word_scope.

Record rate_bucket_t : Type := mk_bucket {
  credit : Z;
  last_refill_ms : Z;
  remainder : Z;
  has_clock : bool
}.

Definition ratebucketSaturatingAdd (a b : Z) : Z :=
  if b >? (UINT64_MAX -64 a) then UINT64_MAX else a +64 b.

Definition ratebucketSaturatingMultiply (a b : Z) : Z :=
  if negb (a =? 0) && (b >? UINT64_MAX / a) then UINT64_MAX else a *64 b.

Definition ratebucketInit (initial_credit : Z) : rate_bucket_t :=
  mk_bucket initial_credit 0 0 false.

Definition ratebucketClamp (bucket : rate_bucket_t) (capacity : Z) : rate_bucket_t :=
  if credit bucket >=? capacity
  then mk_bucket capacity (last_refill_ms bucket) 0 (has_clock bucket)
  else bucket.

Definition set_credit (bucket : rate_bucket_t) (c r : Z) : rate_bucket_t :=
  mk_bucket c (last_refill_ms bucket) r (has_clock bucket).

Definition ratebucketRefill (bucket : rate_bucket_t) (rate capacity step_ms now_ms : Z)
  : outcome rate_bucket_t :=
  _ ← assert_ (step_ms >? 0);
  let bucket := ratebucketClamp bucket capacity in
  if negb (has_clock bucket)
  then mret (mk_bucket (credit bucket) now_ms (remainder bucket) true) else
  if now_ms <=? last_refill_ms bucket then mret bucket else
  let elapsed := now_ms -64 last_refill_ms bucket in
  let elapsed := elapsed -64 (elapsed mod step_ms) in
  let bucket := mk_bucket (credit bucket) (last_refill_ms bucket +64 elapsed)
                  (remainder bucket) (has_clock bucket) in
  if (elapsed =? 0) || (credit bucket =? capacity) || (rate =? 0) then mret bucket else
  let full := set_credit bucket capacity 0 in
  let missing := capacity -64 credit bucket in
  let seconds := elapsed / 1000 in
  if negb (seconds =? 0) && (rate >? (missing -64 1) / seconds) then mret full else
  let earned := seconds *64 rate in
  let millis := elapsed mod 1000 in
  let whole := rate / 1000 in
  if negb (millis =? 0) && (whole >? (missing -64 earned -64 1) / millis) then mret full else
  let earned := earned +64 (millis *64 whole) in
  let fraction := (millis *64 (rate mod 1000)) +64 remainder bucket in
  let extra := fraction / 1000 in
  if extra >=? (missing -64 earned) then mret full else
  mret (set_credit bucket (credit bucket +64 (earned +64 extra)) (wrap16 (fraction mod 1000))).

Definition ratebucketAvailable (bucket : rate_bucket_t) : Z := credit bucket.

Definition ratebucketGrant (bucket : rate_bucket_t) (requested : Z) (allow_partial : bool)
  : Z * rate_bucket_t :=
  let grant := requested in
  let grant := if grant >? credit bucket then (if allow_partial then credit bucket else 0)
               else grant in
  (grant, set_credit bucket (credit bucket -64 grant) (remainder bucket)).

(** The binary search of [ratebucketRetryMs]; [fuel] bounds its rounds. *)
Fixpoint retry_search (fuel : nat) (bucket : rate_bucket_t) (rate rem low high : Z) : Z :=
  match fuel with
  | O => low
  | S fuel' =>
      if low <? high then
        let middle := low +64 ((high -64 low) / 2) in
        let whole := (rate / 1000) *64 middle in
        let part := ((rate mod 1000) *64 middle) +64 remainder bucket in
        let whole := whole +64 (part / 1000) in
        if whole >=? rem then retry_search fuel' bucket rate rem low middle
        else retry_search fuel' bucket rate rem (middle +64 1) high
      else low
  end.

Definition kRetrySearchFuel : nat := 11.

Definition ratebucketRetryMs (bucket : rate_bucket_t) (rate step_ms now_ms requested : Z)
  : outcome Z :=
  _ ← assert_ (step_ms >? 0);
  if credit bucket >=? requested then mret 0 else
  if rate =? 0 then mret UINT64_MAX else
  let missing := requested -64 credit bucket in
  let seconds := missing / rate in
  let rem := missing mod rate in
  let borrow := (rem =? 0) && negb (seconds =? 0) in
  let '(seconds, rem) := if borrow then (seconds -64 1, rate) else (seconds, rem) in
  let wait := ratebucketSaturatingMultiply seconds 1000 in
  let low := retry_search kRetrySearchFuel bucket rate rem 0 1000 in
  let wait := ratebucketSaturatingAdd wait low in
  if wait =? UINT64_MAX then mret wait else
  let steps := (wait / step_ms) +64 (if negb (wait mod step_ms =? 0) then 1 else 0) in
  let rounded := ratebucketSaturatingMultiply steps step_ms in
  let phase := if has_clock bucket && (now_ms >? last_refill_ms bucket)
               then (now_ms -64 last_refill_ms bucket) mod step_ms else 0 in
  mret (if rounded >? phase then rounded -64 phase else 1).

(** ** Exactness of the refill *)

Definition bucket_ok (b : rate_bucket_t) : Prop :=
  u64 (credit b) /\ u64 (last_refill_ms b) /\ 0 <= remainder b < 1000.

(** The credit in thousandths of a byte. *)
Definition milli (b : rate_bucket_t) : Z := credit b * 1000 + remainder b.

(** The whole steps that have passed since the last refill. *)
Definition whole_steps (b : rate_bucket_t) (step_ms now_ms : Z) : Z :=
  if has_clock b then Z.max 0 (now_ms - last_refill_ms b) / step_ms * step_ms else 0.

(** The overflow-free form of [missing <= a * k]. *)
Lemma product_guard (a k missing : Z) :
  0 <= a -> 0 <= k -> 1 <= missing ->
  negb (k =? 0) && (a >? (missing - 1) / k) = (missing <=? a * k).
Proof.
  intros Ha Hk Hm. rewrite Z.gtb_ltb. apply eq_true_iff_eq.
  rewrite andb_true_iff, negb_true_iff, Z.eqb_neq, Z.ltb_lt, Z.leb_le.
  destruct (Z.eq_dec k 0) as [->|Hk0]; [lia|].
  pose proof (Z.div_mod (missing - 1) k). pose proof (Z.mod_pos_bound (missing - 1) k). nia.
Qed.

(** Splitting a product by thousands, as the refill does. *)
Lemma product_split (rate elapsed r : Z) :
  0 <= rate -> 0 <= elapsed -> 0 <= r ->
  (rate * elapsed + r) / 1000 =
    elapsed / 1000 * rate + elapsed mod 1000 * (rate / 1000) +
    (elapsed mod 1000 * (rate mod 1000) + r) / 1000 /\
  (rate * elapsed + r) mod 1000 = (elapsed mod 1000 * (rate mod 1000) + r) mod 1000.
Proof.
  intros H1 H2 H3.
  set (m := elapsed mod 1000). set (q := rate mod 1000).
  assert (rate * elapsed + r =
    (m * q + r) + (elapsed / 1000 * rate + m * (rate / 1000)) * 1000) as ->.
  { pose proof (Z.div_mod elapsed 1000). pose proof (Z.div_mod rate 1000). subst m q. nia. }
  split; [rewrite Z.div_add by lia; lia|by rewrite Z.mod_add by lia].
Qed.

Section Refill.
Context (b : rate_bucket_t) (rate capacity step now : Z).
Context (Hb : bucket_ok b) (Hrate : u64 rate) (Hcap : u64 capacity).
Context (Hstep : 0 < step <= UINT32_MAX) (Hnow : u64 now).

Lemma clamp_spec :
  bucket_ok (ratebucketClamp b capacity) /\
  milli (ratebucketClamp b capacity) = Z.min (capacity * 1000) (milli b) /\
  credit (ratebucketClamp b capacity) <= capacity /\
  (credit (ratebucketClamp b capacity) = capacity -> remainder (ratebucketClamp b capacity) = 0).
Proof.
  destruct Hb as (H1 & H2 & H3). unfold ratebucketClamp, milli, bucket_ok, u64 in *.
  destruct (_ >=? _) eqn:E; bool_facts; simpl; lia.
Qed.

(** The arithmetic of the refill on a clamped bucket that has room. *)
Definition refill_credit (c r elapsed : Z) : Z * Z :=
  let full := (capacity, 0) in
  let missing := capacity -64 c in
  let seconds := elapsed / 1000 in
  if negb (seconds =? 0) && (rate >? (missing -64 1) / seconds) then full else
  let earned := seconds *64 rate in
  let millis := elapsed mod 1000 in
  let whole := rate / 1000 in
  if negb (millis =? 0) && (whole >? (missing -64 earned -64 1) / millis) then full else
  let earned := earned +64 (millis *64 whole) in
  let fraction := (millis *64 (rate mod 1000)) +64 r in
  let extra := fraction / 1000 in
  if extra >=? (missing -64 earned) then full else
  (c +64 (earned +64 extra), wrap16 (fraction mod 1000)).

Lemma refill_credit_exact (c r elapsed : Z) :
  0 <= c < capacity -> 0 <= r < 1000 -> 0 <= elapsed <= UINT64_MAX ->
  let total := c * 1000 + r + rate * elapsed in
  refill_credit c r elapsed =
  if capacity * 1000 <=? total then (capacity, 0) else (total / 1000, total mod 1000).
Proof.
  intros Hc Hr He total. unfold u64, UINT64_MAX in *.
  destruct (product_split rate elapsed r) as [Pd Pm]; try lia.
  assert (total / 1000 = c + (rate * elapsed + r) / 1000 /\
          total mod 1000 = (rate * elapsed + r) mod 1000) as [Td Tm].
  { subst total. replace (c * 1000 + r + rate * elapsed) with (rate * elapsed + r + c * 1000) by lia.
    rewrite Z.div_add, Z.mod_add by lia. lia. }
  assert ((capacity * 1000 <=? total) = (capacity <=? total / 1000)) as ->.
  { apply eq_true_iff_eq. rewrite !Z.leb_le. pose proof (Z.div_mod total 1000).
    pose proof (Z.mod_pos_bound total 1000). lia. }
  rewrite Td, Tm, Pd, Pm. clear Td Tm Pd Pm total.
  unfold refill_credit. set (s := elapsed / 1000). set (m := elapsed mod 1000). set (w := rate / 1000).
  set (q := rate mod 1000).
  assert (0 <= s) as Hs by (apply Z.div_pos; lia). assert (0 <= w) as Hw by (apply Z.div_pos; lia).
  pose proof (Z.mod_pos_bound elapsed 1000 ltac:(lia)) as Hm. fold m in Hm.
  pose proof (Z.mod_pos_bound rate 1000 ltac:(lia)) as Hq. fold q in Hq.
  assert (0 <= m * q <= 999 * 999) as Hmq by nia.
  set (x := m * q + r) in *. assert (0 <= x <= 999 * 1000) as Hx by (subst x; lia).
  assert (0 <= x / 1000 <= 999) as Hxd by (split; [apply Z.div_pos|apply Z.div_le_upper_bound]; lia).
  assert (0 <= s * rate) as N1 by nia. assert (0 <= m * w) as N2 by nia.
  rewrite (wrap64_small (capacity - c)), (wrap64_small (capacity - c - 1)) by word_lia.
  rewrite product_guard by lia.
  destruct (Z.leb_spec (capacity - c) (rate * s)) as [E1|E1].
  { by rewrite (proj2 (Z.leb_le _ _)) by lia. }
  rewrite (wrap64_small (s * rate)), (wrap64_small (capacity - c - s * rate)),
    (wrap64_small (capacity - c - s * rate - 1)) by word_lia.
  rewrite product_guard by lia.
  destruct (Z.leb_spec (capacity - c - s * rate) (w * m)) as [E2|E2].
  { by rewrite (proj2 (Z.leb_le _ _)) by lia. }
  rewrite (wrap64_small (m * w)), (wrap64_small (s * rate + m * w)), (wrap64_small (m * q))
    by word_lia.
  fold x. rewrite (wrap64_small x), (wrap64_small (capacity - c - _)) by word_lia.
  destruct (x / 1000 >=? _) eqn:E3; bool_facts.
  - by rewrite (proj2 (Z.leb_le _ _)) by lia.
  - rewrite (proj2 (Z.leb_gt _ _)) by lia.
    rewrite (wrap64_small (s * rate + m * w + x / 1000)), (wrap64_small (c + _)) by word_lia.
    rewrite wrap16_small; [done|]. pose proof (Z.mod_pos_bound x 1000). unfold UINT16_MAX. lia.
Qed.

Lemma refill_credit_milli (c r elapsed : Z) :
  0 <= c < capacity -> 0 <= r < 1000 -> 0 <= elapsed <= UINT64_MAX ->
  let '(c', r') := refill_credit c r elapsed in
  0 <= c' <= UINT64_MAX /\ 0 <= r' < 1000 /\
  c' * 1000 + r' = Z.min (capacity * 1000) (c * 1000 + r + rate * elapsed).
Proof.
  intros Hc Hr He. unfold u64 in *. rewrite refill_credit_exact by done. cbv zeta.
  set (t := c * 1000 + r + rate * elapsed).
  assert (0 <= t) by (subst t; nia). pose proof (Z.div_mod t 1000). pose proof (Z.mod_pos_bound t 1000).
  destruct (Z.leb_spec (capacity * 1000) t); lia.
Qed.

Lemma whole_steps_bounds :
  0 <= whole_steps b step now <= Z.max 0 (now - last_refill_ms b) /\
  (has_clock b = true -> last_refill_ms b < now ->
   whole_steps b step now = now - last_refill_ms b - (now - last_refill_ms b) mod step).
Proof.
  unfold whole_steps. set (e := Z.max 0 (now - last_refill_ms b)).
  assert (0 <= e) by lia. pose proof (Z.div_mod e step). pose proof (Z.mod_pos_bound e step).
  assert (0 <= e / step) by (apply Z.div_pos; lia).
  split; [destruct (has_clock b); nia|]. intros -> Hlt.
  replace (now - last_refill_ms b) with e by lia. lia.
Qed.

Lemma refill_spec :
  exists b', ratebucketRefill b rate capacity step now = Ok b' /\ bucket_ok b' /\
    milli b' = Z.min (capacity * 1000) (milli b + rate * whole_steps b step now) /\
    has_clock b' = true /\
    last_refill_ms b' = (if has_clock b then last_refill_ms b + whole_steps b step now else now).
Proof.
  destruct clamp_spec as (C1 & C2 & C3 & C4). destruct whole_steps_bounds as [W1 W2].
  assert (has_clock (ratebucketClamp b capacity) = has_clock b /\
          last_refill_ms (ratebucketClamp b capacity) = last_refill_ms b) as [K1 K2]
    by (unfold ratebucketClamp; by case_match).
  unfold ratebucketRefill. rewrite assert_bind by (rewrite Z.gtb_lt; lia).
  set (k := ratebucketClamp b capacity) in *. rewrite K1, K2.
  assert (forall w, w = 0 -> Z.min (capacity * 1000) (milli b + rate * w) = milli k) as Idle
    by (intros w ->; rewrite C2; f_equal; lia).
  destruct C1 as (Ck & Lk & Rk). unfold u64 in *.
  destruct (has_clock b) eqn:H; simpl.
  2:{ eexists; split; [done|]. unfold milli, bucket_ok, u64 in *. simpl.
      rewrite Idle by (unfold whole_steps; by rewrite H). splits; done || lia. }
  destruct (Z.leb_spec now (last_refill_ms b)) as [Le|Lt].
  { eexists; split; [done|]. rewrite Idle by lia. rewrite K1, K2. unfold bucket_ok, u64.
    splits; done || lia. }
  specialize (W2 eq_refl Lt). rewrite (wrap64_small (now - _)), (wrap64_small (now - _ - _))
    by (pose proof (Z.mod_pos_bound (now - last_refill_ms b) step); lia).
  rewrite <- W2. set (w := whole_steps b step now) in *.
  rewrite (wrap64_small (last_refill_ms b + w)) by lia.
  destruct ((w =? 0) || (credit k =? capacity) || (rate =? 0))%bool eqn:E.
  - eexists; split; [done|]. assert (milli k = Z.min (capacity * 1000) (milli b + rate * w)) as <-.
    { rewrite !orb_true_iff, !Z.eqb_eq in E. destruct E as [[E|E]|E]; [by rewrite Idle| |rewrite C2, E; f_equal; lia].
      assert (0 <= rate * w) by nia.
      assert (milli k = capacity * 1000) by (unfold milli; rewrite E, (C4 E); lia). lia. }
    unfold bucket_ok, u64, milli. simpl. splits; done || lia.
  - apply orb_false_iff in E as [E E3]. apply orb_false_iff in E as [E1 E2]. bool_facts.
    pose proof (refill_credit_milli (credit k) (remainder k) w ltac:(lia) Rk ltac:(lia)) as X.
    fold (milli k) in X.
    exists (let '(c', r') := refill_credit (credit k) (remainder k) w in
            set_credit (mk_bucket (credit k) (last_refill_ms b + w) (remainder k) true) c' r').
    split; [unfold refill_credit; simpl; repeat (split_test; [done|]); done|].
    destruct (refill_credit _ _ _) as [c' r']. unfold bucket_ok, u64, milli at 1. simpl.
    assert (0 <= rate * w) by nia. splits; done || lia.
Qed.
End Refill.

(** ** Waiting times *)

Lemma saturating_add_min (a b : Z) :
  u64 a -> u64 b -> ratebucketSaturatingAdd a b = Z.min UINT64_MAX (a + b).
Proof.
  unfold u64, ratebucketSaturatingAdd. intros Ha Hb. rewrite (wrap64_small (UINT64_MAX - a)) by lia.
  destruct (_ >? _) eqn:E; bool_facts; [lia|]. rewrite wrap64_small; lia.
Qed.

Lemma saturating_mul_min (a b : Z) :
  u64 a -> u64 b -> ratebucketSaturatingMultiply a b = Z.min UINT64_MAX (a * b).
Proof.
  unfold u64, ratebucketSaturatingMultiply. intros Ha Hb.
  replace (UINT64_MAX / a) with ((UINT64_MAX + 1 - 1) / a) by (f_equal; lia).
  rewrite product_guard by word_lia. rewrite Z.mul_comm.
  destruct (Z.leb_spec (UINT64_MAX + 1) (a * b)); [lia|]. rewrite wrap64_small by nia. lia.
Qed.

(** [w] milliseconds earn [n] whole bytes, given the thousandths at hand. *)
Definition earns (b : rate_bucket_t) (rate n w : Z) : Prop := n * 1000 <= rate * w + remainder b.

Lemma retry_search_spec (b : rate_bucket_t) (rate n : Z) (fuel : nat) : forall low high,
  bucket_ok b -> u64 rate -> 0 <= low <= high -> high <= 1000 -> high - low < 2 ^ Z.of_nat fuel ->
  earns b rate n high -> (forall m, 0 <= m < low -> ~ earns b rate n m) ->
  let x := retry_search fuel b rate n low high in
  low <= x <= high /\ earns b rate n x /\ (forall m, 0 <= m < x -> ~ earns b rate n m).
Proof.
  intros low high (Hc & Hl & Hr) Hrate. revert low high. unfold u64, earns, UINT64_MAX in *.
  induction fuel as [|fuel IH]; intros low high Hlh Hh Hf E N; simpl.
  { change (2 ^ Z.of_nat 0) with 1 in Hf. replace low with high in * by lia. done. }
  rewrite Nat2Z.inj_succ, Z.pow_succ_r in Hf by lia.
  destruct (Z.ltb_spec low high) as [Hlt|Hge]; [|replace low with high in * by lia; done].
  pose proof (Z.div_mod (high - low) 2). pose proof (Z.mod_pos_bound (high - low) 2).
  rewrite (wrap64_small (high - low)), (wrap64_small (low + _)) by word_lia.
  set (mid := low + (high - low) / 2) in *.
  pose proof (Z.mod_pos_bound rate 1000). assert (0 <= rate / 1000) by (apply Z.div_pos; lia).
  assert (rate = rate / 1000 * 1000 + rate mod 1000) as Er by (pose proof (Z.div_mod rate 1000); lia).
  set (w := rate / 1000) in *. set (q := rate mod 1000) in *.
  assert (0 <= q * mid <= 999 * 999) by nia. assert (0 <= w * mid <= rate) by nia.
  assert ((q * mid + remainder b) / 1000 + w * mid = (rate * mid + remainder b) / 1000) as Ed.
  { rewrite <- Z.div_add by lia. f_equal. rewrite Er. ring. }
  assert (rate * mid <= rate * 999) by (apply Z.mul_le_mono_nonneg_l; lia).
  assert ((rate * mid + remainder b) / 1000 < rate + 1) by (apply Z.div_lt_upper_bound; lia).
  assert (0 <= (q * mid + remainder b) / 1000) by (apply Z.div_pos; lia).
  rewrite (wrap64_small (w * mid)), (wrap64_small (q * mid)), (wrap64_small (q * mid + _)),
    (wrap64_small (w * mid + _)), (Z.add_comm (w * mid)), Ed by word_lia.
  pose proof (Z.div_mod (rate * mid + remainder b) 1000).
  pose proof (Z.mod_pos_bound (rate * mid + remainder b) 1000).
  destruct (_ >=? n) eqn:G; bool_facts.
  - destruct (IH low mid) as (X1 & X2 & X3); try lia; try done. splits; try done; lia.
  - rewrite (wrap64_small (mid + 1)) by word_lia.
    destruct (IH (mid + 1) high) as (X1 & X2 & X3); try lia; try done; [|splits; try done; lia].
    intros m Hm Em. assert (rate * m <= rate * mid) by (apply Z.mul_le_mono_nonneg_l; lia). lia.
Qed.

(** The least number of milliseconds that earn the missing bytes. *)
Definition least_wait (b : rate_bucket_t) (rate missing w : Z) : Prop :=
  0 < w /\ earns b rate missing w /\ forall m, m < w -> ~ earns b rate missing m.

Lemma least_wait_split (b : rate_bucket_t) (rate s n x : Z) :
  0 < rate -> 0 <= s -> 1 <= n -> 0 <= remainder b < 1000 -> 0 <= x ->
  earns b rate n x -> (forall m, 0 <= m < x -> ~ earns b rate n m) ->
  least_wait b rate (s * rate + n) (s * 1000 + x).
Proof.
  unfold least_wait, earns. intros Hr Hs Hn Hb Hx E N.
  assert (0 < x) as Px.
  { destruct (Z.eq_dec x 0) as [->|]; lia. }
  splits; [lia|nia|]. intros m Hm Em.
  apply (N (x - 1)); [lia|]. assert (rate * m <= rate * (s * 1000 + x - 1)) by nia. nia.
Qed.

(** What the code computes before rounding: the least wait, saturated. *)
Lemma retry_wait (b : rate_bucket_t) (rate requested : Z) :
  bucket_ok b -> u64 rate -> 0 < rate -> u64 requested -> credit b < requested ->
  let missing := requested - credit b in
  let seconds := missing / rate in
  let rem := missing mod rate in
  let '(seconds, rem) := if (rem =? 0) && negb (seconds =? 0) then (seconds -64 1, rate)
                         else (seconds, rem) in
  exists w, least_wait b rate missing w /\
    ratebucketSaturatingAdd (ratebucketSaturatingMultiply seconds 1000)
      (retry_search kRetrySearchFuel b rate rem 0 1000) = Z.min UINT64_MAX w.
Proof.
  intros Hb Hu Hr Hq Hlt missing seconds rem.
  pose proof Hb as (Hc & _ & Hrm). unfold u64 in *.
  pose proof (Z.div_mod missing rate) as D. pose proof (Z.mod_pos_bound missing rate) as M.
  fold seconds rem in D, M. assert (0 <= seconds <= missing) as Hs.
  { subst seconds missing. split; [apply Z.div_pos; lia|apply Z.div_le_upper_bound; nia]. }
  assert (forall s n, 0 <= s <= UINT64_MAX -> 1 <= n <= rate -> missing = s * rate + n ->
    exists w, least_wait b rate missing w /\
      ratebucketSaturatingAdd (ratebucketSaturatingMultiply s 1000)
        (retry_search kRetrySearchFuel b rate n 0 1000) = Z.min UINT64_MAX w) as G.
  { intros s n Hs' Hn ->.
    destruct (retry_search_spec b rate n kRetrySearchFuel 0 1000) as (X1 & X2 & X3); try done; try lia.
    { unfold earns. nia. }
    set (x := retry_search _ _ _ _ _ _) in *. exists (s * 1000 + x).
    split; [apply least_wait_split; try done; lia|].
    rewrite saturating_mul_min by word_lia.
    rewrite saturating_add_min by word_lia. lia. }
  destruct ((rem =? 0) && negb (seconds =? 0))%bool eqn:E; bool_facts.
  - rewrite wrap64_small by lia. apply G; nia.
  - apply G; [lia| |nia]. apply andb_false_iff in E as [E|E]; bool_facts; [lia|].
    rewrite E in D. lia.
Qed.

(** Rounding a wait up to whole steps, from a point inside a step. *)
Lemma retry_rounded (b : rate_bucket_t) (rate step now requested r : Z) :
  bucket_ok b -> u64 rate -> 0 < rate -> u64 requested -> credit b < requested ->
  0 < step <= UINT32_MAX -> u64 now -> has_clock b = true -> last_refill_ms b <= now ->
  ratebucketRetryMs b rate step now requested = Ok r -> r <= UINT64_MAX - step ->
  exists w n, least_wait b rate (requested - credit b) w /\
    (n - 1) * step < w <= n * step /\ 1 <= n /\ r = n * step - (now - last_refill_ms b) mod step.
Proof.
  intros Hb Hu Hr Hq Hlt Hs Hn Hclk Hle E Hfin. unfold ratebucketRetryMs in E.
  rewrite assert_bind in E by (rewrite Z.gtb_lt; lia).
  cbv zeta in E.
  destruct (credit b >=? requested) eqn:G; bool_facts; [lia|].
  destruct (Z.eqb_spec rate 0) as [|_]; [lia|].
  pose proof (retry_wait b rate requested Hb Hu Hr Hq Hlt) as W. cbv zeta in W.
  pose proof Hb as (Hc & Hl & Hrm). unfold u64 in *.
  rewrite (wrap64_small (requested - credit b)) in E by lia.
  destruct (if (_ =? 0) && negb (_ =? 0) then _ else _) as [s m]. destruct W as (w & L & W). rewrite W in E.
  pose proof (proj1 L) as Pw.
  destruct (Z.eqb_spec (Z.min UINT64_MAX w) UINT64_MAX) as [Sat|Nsat];
    [injection E as <-; lia|].
  replace (Z.min UINT64_MAX w) with w in E by lia.
  pose proof (Z.div_mod w step) as D. pose proof (Z.mod_pos_bound w step) as M.
  assert (0 <= w / step <= w) as Dw
    by (split; [apply Z.div_pos; lia|apply Z.div_le_upper_bound; nia]).
  set (n := w / step + (if negb (w mod step =? 0) then 1 else 0)) in *.
  assert ((n - 1) * step < w <= n * step /\ 1 <= n) as (Hn1 & Hn2).
  { subst n. destruct (Z.eqb_spec (w mod step) 0); simpl; nia. }
  assert ((n - 1) * 1 <= (n - 1) * step) by (apply Z.mul_le_mono_nonneg_l; lia). clearbody n. unfold UINT32_MAX in *.
  rewrite (wrap64_small n) in E by lia.
  rewrite saturating_mul_min in E by word_lia.
  pose proof (Z.mod_pos_bound (now - last_refill_ms b) step) as Ph.
  assert (1 * step <= n * step) by (apply Z.mul_le_mono_nonneg_r; lia).
  assert (step <= Z.min UINT64_MAX (n * step)) as Big by word_lia.
  set (k := Z.min UINT64_MAX (n * step)) in *. rewrite Hclk in E. cbn [andb] in E.
  assert ((if now >? last_refill_ms b then (now -64 last_refill_ms b) mod step else 0) =
          (now - last_refill_ms b) mod step) as Ep.
  { destruct (now >? last_refill_ms b) eqn:Q; bool_facts; [by rewrite wrap64_small by lia|].
    replace (now - last_refill_ms b) with 0 by lia. by rewrite Z.mod_0_l by lia. }
  rewrite Ep in E. injection E as <-.
  destruct (k >? _) eqn:Q; bool_facts; [|lia]. rewrite wrap64_small in * by lia.
  exists w, n. splits; done || lia.
Qed.

(** ** The theorems *)

(** A refill is exact although the code never forms [rate * elapsed]: in
    thousandths of a byte the credit grows by the rate times the whole steps
    elapsed and is cut off at the capacity, the clock moves by those steps, and
    no intermediate value overflows.  Without a clock the refill only starts
    it. *)
Theorem ratebucketRefill_exact b rate capacity step now :
  bucket_ok b -> u64 rate -> u64 capacity -> 0 < step <= UINT32_MAX -> u64 now ->
  exists b', ratebucketRefill b rate capacity step now = Ok b' /\ bucket_ok b' /\
    milli b' = Z.min (capacity * 1000) (milli b + rate * whole_steps b step now) /\
    has_clock b' = true /\
    last_refill_ms b' = (if has_clock b then last_refill_ms b + whole_steps b step now else now).
Proof. apply refill_spec. Qed.

Inductive bucket_op : Type :=
  | OpRefill (now : Z)
  | OpGrant (requested : Z) (allow_partial : bool).

Section Sequence.
Context (rate capacity step : Z).
Context (Hrate : u64 rate) (Hcap : u64 capacity) (Hstep : 0 < step <= UINT32_MAX).

(** Runs operations on a bucket and adds up what was granted. *)
Fixpoint run_bucket (b : rate_bucket_t) (ops : list bucket_op) : outcome (Z * rate_bucket_t) :=
  match ops with
  | [] => mret (0, b)
  | OpRefill now :: ops' =>
      b ← ratebucketRefill b rate capacity step now; run_bucket b ops'
  | OpGrant requested partial :: ops' =>
      let '(g, b) := ratebucketGrant b requested partial in
      '(total, b) ← run_bucket b ops'; mret (g + total, b)
  end.

Definition op_before (T : Z) (op : bucket_op) : Prop :=
  match op with
  | OpRefill now => 0 <= now <= T
  | OpGrant requested _ => u64 requested
  end.

Lemma grant_spec (b : rate_bucket_t) (requested : Z) (partial : bool) :
  bucket_ok b -> u64 requested ->
  let '(g, b') := ratebucketGrant b requested partial in
  0 <= g <= requested /\ bucket_ok b' /\ milli b' = milli b - g * 1000 /\
  has_clock b' = has_clock b /\ last_refill_ms b' = last_refill_ms b.
Proof.
  intros (Hc & Hl & Hr) Hq. unfold ratebucketGrant, bucket_ok, milli, u64 in *.
  destruct (requested >? credit b) eqn:E; bool_facts; [destruct partial|]; simpl;
    rewrite wrap64_small by lia; splits; done || lia.
Qed.

(** C37. Whatever the order of refills and grants, and even if the clock jumps
    back, a bucket never hands out more than its initial credit plus the rate
    times the time that has passed: with all clock readings up to [T], the
    total granted is at most [initial + rate * (T - start)], in thousandths of a
    byte. *)
Theorem ratebucket_conforms (T : Z) ops : forall b,
  bucket_ok b -> has_clock b = true -> last_refill_ms b <= T <= UINT64_MAX ->
  Forall (op_before T) ops ->
  exists total b', run_bucket b ops = Ok (total, b') /\ bucket_ok b' /\
    0 <= total /\ total * 1000 + milli b' <= milli b + rate * (T - last_refill_ms b).
Proof.
  induction ops as [|op ops IH]; intros b Hb Hclk HT Hops.
  { exists 0, b. unfold u64 in *. splits; try done. nia. }
  apply Forall_cons in Hops as [Hop Hops]. destruct op as [now|requested partial];
    cbn [run_bucket op_before] in *.
  - destruct (refill_spec b rate capacity step now Hb Hrate Hcap Hstep) as (b1 & -> & B1 & M1 & K1 & L1).
    { unfold u64. lia. }
    change (Ok ?x ≫= ?k) with (k x). cbv beta. rewrite Hclk in L1.
    destruct (whole_steps_bounds b step now Hstep) as [W _].
    destruct (IH b1 B1 K1) as (total & b' & E & B' & P & Le); [lia|done|].
    exists total, b'. splits; try done. unfold u64 in *. rewrite L1 in Le. lia.
  - pose proof (grant_spec b requested partial Hb Hop) as G.
    destruct (ratebucketGrant b requested partial) as [g b1]. destruct G as (G1 & B1 & M1 & K1 & L1).
    destruct (IH b1 B1) as (total & b' & -> & B' & P & Le); [congruence|lia|done|].
    exists (g + total), b'. rewrite L1 in Le. splits; try done; lia.
Qed.
End Sequence.

Section Retry.
Context (b : rate_bucket_t) (rate capacity step now requested r : Z).
Context (Hb : bucket_ok b) (Hu : u64 rate) (Hr : 0 < rate) (Hcap : u64 capacity).
Context (Hq : credit b < requested <= capacity) (Hs : 0 < step <= UINT32_MAX) (Hn : u64 now).
Context (Hclk : has_clock b = true) (Hle : last_refill_ms b <= now).

(** The waiting time is right: a refill after that time covers the request,
    and, when the bucket is refilled up to date, no earlier refill does.  The
    time is meaningful when it is at least one step below [UINT64_MAX]. *)
Theorem ratebucketRetryMs_exact :
  ratebucketRetryMs b rate step now requested = Ok r ->
  r <= UINT64_MAX - step -> now + r <= UINT64_MAX ->
  (exists b', ratebucketRefill b rate capacity step (now + r) = Ok b' /\ requested <= credit b') /\
  (now - last_refill_ms b < step -> forall t, now <= t < now + r ->
     exists b', ratebucketRefill b rate capacity step t = Ok b' /\ credit b' < requested).
Proof.
  intros E Hfin Hend. pose proof Hb as (Hc & Hl & Hrm). unfold u64 in *.
  destruct (retry_rounded b rate step now requested r) as (w & n & (Pw & Ew & Nw) & Rn & Pn & Er);
    try done; try (unfold u64; lia).
  set (d := now - last_refill_ms b) in *. unfold earns in *.
  pose proof (Z.div_mod d step) as D. pose proof (Z.mod_pos_bound d step) as M.
  assert (0 <= d / step) by (apply Z.div_pos; lia).
  assert (0 <= d / step * step) by (apply Z.mul_nonneg_nonneg; lia).
  assert (1 * step <= n * step) by (apply Z.mul_le_mono_nonneg_r; lia).
  split.
  - destruct (refill_spec b rate capacity step (now + r)) as (b' & Eb & B' & Mb & _);
      try done; [unfold u64; lia|].
    exists b'. split; [done|]. destruct B' as (_ & _ & Rb').
    assert (whole_steps b step (now + r) = (d / step + n) * step) as Ws.
    { unfold whole_steps. rewrite Hclk. rewrite Z.max_r by lia.
      replace (now + r - last_refill_ms b) with ((d / step + n) * step) by lia.
      by rewrite Z.div_mul by lia. }
    rewrite Ws in Mb. rewrite Z.mul_add_distr_r in Mb.
    assert (rate * w <= rate * (d / step * step + n * step)) by (apply Z.mul_le_mono_nonneg_l; lia).
    unfold milli in Mb. lia.
  - intros Hfresh t Ht.
    destruct (refill_spec b rate capacity step t) as (b' & Eb & B' & Mb & _); try done; [unfold u64; lia|].
    exists b'. split; [done|]. destruct B' as (_ & _ & Rb').
    assert (d / step = 0) as Z0 by (apply Z.div_small; lia).
    assert (whole_steps b step t <= (n - 1) * step) as Ws.
    { unfold whole_steps. rewrite Hclk. rewrite Z.max_r by lia.
      apply Z.mul_le_mono_nonneg_r; [lia|]. apply Z.lt_succ_r, Z.div_lt_upper_bound; lia. }
    assert (~ requested * 1000 <= milli b + rate * whole_steps b step t) as N.
    { intros X. apply (Nw (whole_steps b step t)); [lia|]. unfold milli in X. lia. }
    unfold milli in *. lia.
Qed.
End Retry.

(** Rounding a wait up to the next step may leave the 64-bit range; the
    result is then [UINT64_MAX] less the time already spent in the current step
    and not [UINT64_MAX], the value documented for a wait that cannot be
    represented.  A refill after the returned time does not cover the request. *)
Theorem ratebucketRetryMs_saturation :
  let b := mk_bucket 0 0 0 true in
  let requested := 18446744073709551 in
  ratebucketRetryMs b 1 1000000 7 requested = Ok (UINT64_MAX - 7) /\
  exists b', ratebucketRefill b 1 requested 1000000 (7 + (UINT64_MAX - 7)) = Ok b' /\
    credit b' < requested.
Proof.
  split; [vm_compute; reflexivity|].
  exists (mk_bucket 18446744073709000 18446744073709000000 0 true).
  split; vm_compute; reflexivity.
Qed.

(** ** A concrete bucket: 1 MB/s, recharged every 20 ms *)

Definition demo_bucket : rate_bucket_t := mk_bucket 500 1000 250 true.

Lemma demo_bucket_ok : bucket_ok demo_bucket.
Proof. unfold bucket_ok, u64, UINT64_MAX, demo_bucket. simpl. lia. Qed.

Lemma ratebucketRefill_exact_witness :
  exists b', ratebucketRefill demo_bucket 1000000 65536 20 1047 = Ok b' /\ milli b' = 40500250.
Proof.
  destruct (ratebucketRefill_exact demo_bucket 1000000 65536 20 1047 demo_bucket_ok)
    as (b' & E & _ & M & _); try (unfold u64, UINT64_MAX, UINT32_MAX; lia).
  exists b'. split; [exact E|]. rewrite M. vm_compute. reflexivity.
Defined.

Lemma ratebucket_conforms_witness :
  exists total b', run_bucket 1000000 65536 20 demo_bucket
      [OpGrant 400 false; OpRefill 1047; OpGrant 100000 true; OpRefill 900] = Ok (total, b') /\
    total * 1000 + milli b' <= 500250 + 1000000 * (1047 - 1000).
Proof.
  destruct (ratebucket_conforms 1000000 65536 20) with (T := 1047) (b := demo_bucket)
    (ops := [OpGrant 400 false; OpRefill 1047; OpGrant 100000 true; OpRefill 900])
    as (total & b' & E & _ & _ & L); try (unfold u64, UINT64_MAX, UINT32_MAX; simpl; lia).
  - apply demo_bucket_ok.
  - repeat constructor; simpl; unfold u64, UINT64_MAX; lia.
  - exists total, b'. split; [exact E|exact L].
Defined.

Lemma ratebucketRetryMs_exact_witness :
  exists b', ratebucketRefill demo_bucket 1000000 65536 20 (1007 + 33) = Ok b' /\ 30000 <= credit b'.
Proof.
  assert (ratebucketRetryMs demo_bucket 1000000 20 1007 30000 = Ok 33) as E by (vm_compute; reflexivity).
  apply (ratebucketRetryMs_exact demo_bucket 1000000 65536 20 1007 30000 33 demo_bucket_ok);
    try exact E; try reflexivity; try (unfold u64, UINT64_MAX, UINT32_MAX; simpl; lia).
Defined.
