(* ===== verification/Checksum.v ===== *)
(** * Internet checksums ([ww/net/wchecksum_default.c], [ww/net/wchecksum.c])

    The portable checksum backend adds eight bytes at a time into a 64-bit sum
    with a separate carry count, folds, and complements.  It is compared with
    the definition: the one's complement of the one's complement sum of the
    16-bit big-endian words.  A data pointer with its length is the list of the
    bytes that remain.  The byte-order functions belong to the TCP/IP stack and
    are parameters: [NetOrder], with the swap they are documented to perform on
    the little-endian target as laws. *)

From Stdlib Require Import ZArith Lia.
From stdpp Require Import base numbers option list.
From S2P Require Import Prelude.
Open Scope Z_scope.
Open Scope word_scope.

(** ** Byte order *)

Class NetOrder : Type := {
  lwip_htons : Z -> Z;
  lwip_htonl : Z -> Z
}.

(** [ntohs] and [ntohl] are the same functions. *)
Abbreviation lwip_ntohs := lwip_htons.
Abbreviation lwip_ntohl := lwip_htonl.

Class NetOrderLaws `{NetOrder} : Prop := {
  htons_swap : forall x, 0 <= x <= 65535 -> lwip_htons x = x mod 256 * 256 + x / 256;
  htonl_swap : forall x, u32 x ->
    lwip_htonl x = x mod 256 * 16777216 + x / 256 mod 256 * 65536 + x / 65536 mod 256 * 256 + x / 16777216;
  htonl_involutive : forall x, u32 x -> lwip_htonl (lwip_htonl x) = x
}.

(** ** The code *)

Section Code.
Context `{NetOrder}.

Definition readBigEndian64 (data : list Z) : outcome Z :=
  match data with
  | d0 :: d1 :: d2 :: d3 :: d4 :: d5 :: d6 :: d7 :: _ =>
      mret (Z.lor (Z.lor (Z.lor (Z.lor (Z.lor (Z.lor (Z.lor
        (Z.shiftl d0 56) (Z.shiftl d1 48)) (Z.shiftl d2 40)) (Z.shiftl d3 32))
        (Z.shiftl d4 24)) (Z.shiftl d5 16)) (Z.shiftl d6 8)) d7)
  | _ => Fail MemoryFault
  end.

Definition readBigEndian32 (data : list Z) : outcome Z :=
  match data with
  | d0 :: d1 :: d2 :: d3 :: _ =>
      mret (Z.lor (Z.lor (Z.lor (Z.shiftl d0 24) (Z.shiftl d1 16)) (Z.shiftl d2 8)) d3)
  | _ => Fail MemoryFault
  end.

Definition readBigEndian16 (data : list Z) : outcome Z :=
  match data with
  | d0 :: d1 :: _ => mret (wrap16 (Z.lor (Z.shiftl d0 8) d1))
  | _ => Fail MemoryFault
  end.

(** The pair is [(sum, carry)]. *)
Definition addWithCarry (st : Z * Z) (val : Z) : Z * Z :=
  let '(sum, carry) := st in
  let old_sum := sum in
  let sum := sum +64 val in
  (sum, if sum <? old_sum then carry +64 1 else carry).

(** [n] calls [addWithCarry(&sum, &carry, read(data + k * width))]. *)
Fixpoint add_words (read : list Z -> outcome Z) (width : nat) (n : nat) (data : list Z)
    (st : Z * Z) : outcome (Z * Z) :=
  match n with
  | O => mret st
  | S n' => v ← read data; add_words read width n' (drop width data) (addWithCarry st v)
  end.

(** [while (len >= n * width) { ...; data += n * width; len -= n * width; }] *)
Fixpoint block_loop (fuel : nat) (read : list Z -> outcome Z) (width n : nat) (data : list Z)
    (len : Z) (st : Z * Z) : outcome (list Z * Z * (Z * Z)) :=
  match fuel with
  | O => Fail NotModelled
  | S fuel' =>
      if len >=? Z.of_nat (n * width) then
        st ← add_words read width n data st;
        block_loop fuel' read width n (drop (n * width) data) (len -64 Z.of_nat (n * width)) st
      else mret (data, len, st)
  end.

(** [while (sum >> 32) sum = (sum & 0xFFFFFFFF) + (sum >> 32)] *)
Fixpoint fold_loop (bits mask : Z) (fuel : nat) (sum : Z) : outcome Z :=
  match fuel with
  | O => Fail NotModelled
  | S fuel' =>
      if negb (Z.shiftr sum bits =? 0)
      then fold_loop bits mask fuel' (Z.land sum mask +64 Z.shiftr sum bits)
      else mret sum
  end.

Definition kFoldFuel : nat := 8.

Definition checksumBuffer (data : list Z) (len : Z) : outcome Z :=
  let fuel := S (length data) in
  '(data, len, st) ← block_loop fuel readBigEndian64 8 8 data len (0, 0);
  '(data, len, st) ← block_loop fuel readBigEndian64 8 4 data len st;
  '(data, len, st) ← block_loop fuel readBigEndian64 8 2 data len st;
  '(data, len, st) ← block_loop fuel readBigEndian64 8 1 data len st;
  '(data, len, st) ← block_loop fuel readBigEndian32 4 1 data len st;
  '(data, len, st) ← block_loop fuel readBigEndian16 2 1 data len st;
  '(sum, carry) ← (if negb (len =? 0)
                   then match data with
                        | d0 :: _ => mret (addWithCarry st (Z.shiftl d0 8))
                        | [] => Fail MemoryFault
                        end
                   else mret st);
  let sum := Z.land sum UINT32_MAX +64 Z.shiftr sum 32 +64 carry in
  sum ← fold_loop 32 UINT32_MAX kFoldFuel sum;
  mret (wrap32 sum).

Definition finalizeChecksum (sum : Z) : outcome Z :=
  sum ← fold_loop 16 UINT16_MAX kFoldFuel sum;
  mret (wrap16 (Z.lnot sum)).

Definition cChecksum (data : list Z) (len initial : Z) : outcome Z :=
  let sum := initial in
  s ← checksumBuffer data len;
  let sum := sum +64 s in
  r ← finalizeChecksum sum;
  mret (lwip_htons r).

Definition checksumDefault (data : list Z) (len initial : Z) : outcome Z :=
  cChecksum data len initial.

(** Without the SIMD backends the selected function is [checksumDefault]. *)
Definition calcGenericChecksum (data : list Z) (len initial : Z) : outcome Z :=
  checksumDefault data len initial.

(** [while (length > UINT16_MAX)]: whole chunks of 65534 bytes. *)
Fixpoint lwip_loop (fuel : nat) (bytes : list Z) (length : Z) (sum : Z)
  : outcome (list Z * Z * Z) :=
  match fuel with
  | O => Fail NotModelled
  | S fuel' =>
      if length >? UINT16_MAX then
        c ← calcGenericChecksum (take (Z.to_nat (UINT16_MAX - 1)) bytes) (UINT16_MAX - 1) 0;
        let sum := sum +32 wrap16 (Z.lnot c) in
        let sum := Z.land sum UINT16_MAX +32 Z.shiftr sum 16 in
        lwip_loop fuel' (drop (Z.to_nat (UINT16_MAX - 1)) bytes) (length - (UINT16_MAX - 1)) sum
      else mret (bytes, length, sum)
  end.

Definition wwLwipChecksum (data : list Z) (len : Z) : outcome Z :=
  _ ← assert_ (len >=? 0);
  if len =? 0 then mret 0 else
  if len <=? UINT16_MAX then
    c ← calcGenericChecksum data (wrap16 len) 0; mret (wrap16 (Z.lnot c))
  else
    '(bytes, len, sum) ← lwip_loop (S (length data)) data len 0;
    c ← calcGenericChecksum bytes (wrap16 len) 0;
    let sum := sum +32 wrap16 (Z.lnot c) in
    let sum := Z.land sum UINT16_MAX +32 Z.shiftr sum 16 in
    mret (wrap16 sum).

(** [while (sum >> 16) sum = (sum & 0xFFFFU) + (sum >> 16)] on a 32-bit sum. *)
Fixpoint fold32_loop (fuel : nat) (sum : Z) : outcome Z :=
  match fuel with
  | O => Fail NotModelled
  | S fuel' =>
      if negb (Z.shiftr sum 16 =? 0)
      then fold32_loop fuel' (Z.land sum 65535 +32 Z.shiftr sum 16)
      else mret sum
  end.

Definition checksumUpdateWord16 (checksum_network old_word_network new_word_network : Z)
  : outcome Z :=
  if old_word_network =? new_word_network then mret checksum_network else
  let hc := lwip_ntohs checksum_network in
  let m := lwip_ntohs old_word_network in
  let m_prime := lwip_ntohs new_word_network in
  let sum := Z.land (Z.lnot hc) 65535 +32 Z.land (Z.lnot m) 65535 +32 m_prime in
  sum ← fold32_loop kFoldFuel sum;
  let hc_prime := wrap16 (Z.lnot sum) in
  mret (lwip_htons hc_prime).

Definition checksumUpdateWord32 (checksum_network old_value_network new_value_network : Z)
  : outcome Z :=
  if old_value_network =? new_value_network then mret checksum_network else
  let old32_h := lwip_ntohl old_value_network in
  let new32_h := lwip_ntohl new_value_network in
  let old_high := lwip_htons (wrap16 (Z.shiftr old32_h 16)) in
  let old_low := lwip_htons (wrap16 (Z.land old32_h 65535)) in
  let new_high := lwip_htons (wrap16 (Z.shiftr new32_h 16)) in
  let new_low := lwip_htons (wrap16 (Z.land new32_h 65535)) in
  step1 ← checksumUpdateWord16 checksum_network old_high new_high;
  checksumUpdateWord16 step1 old_low new_low.
End Code.

(** ** The definition of the checksum *)

Definition is_byte (b : Z) : Prop := 0 <= b < 256.

(** The 16-bit big-endian words, an odd last byte padded with zero. *)
Fixpoint words_be (l : list Z) : list Z :=
  match l with
  | b0 :: b1 :: l' => b0 * 256 + b1 :: words_be l'
  | [b0] => [b0 * 256]
  | [] => []
  end.

(** One's complement addition of 16-bit words: the carry comes back in. *)
Definition ones_add (a b : Z) : Z := (a + b) mod 65536 + (a + b) / 65536.
Definition ones_sum (ws : list Z) : Z := foldl ones_add 0 ws.

Definition wsum (l : list Z) : Z := foldr Z.add 0 (words_be l).

(** ** Sums up to end-around carries

    Two sums are equivalent when folding their carries gives the same 16-bit
    word: equal modulo 65535, and zero together. *)

Definition ceq (a b : Z) : Prop :=
  0 <= a /\ 0 <= b /\ a mod 65535 = b mod 65535 /\ (a = 0 <-> b = 0).

(** The 16-bit word a sum folds to. *)
Definition rep (x : Z) : Z := if x =? 0 then 0 else (x - 1) mod 65535 + 1.

#[export] Instance ceq_sym : Symmetric ceq.
Proof. intros a b (? & ? & ? & ?). unfold ceq. intuition. Qed.

#[export] Instance ceq_trans : Transitive ceq.
Proof. intros a b c (? & ? & ? & ?) (? & ? & ? & ?). unfold ceq. intuition congruence. Qed.

Lemma ceq_refl a : 0 <= a -> ceq a a.
Proof. unfold ceq. intuition. Qed.
#[export] Hint Resolve ceq_refl : ww.

#[export] Instance ceq_add : Proper (ceq ==> ceq ==> ceq) Z.add.
Proof.
  intros a a' (A1 & A2 & A3 & A4) b b' (B1 & B2 & B3 & B4). unfold ceq. splits; try lia.
  rewrite (Z.add_mod a), (Z.add_mod a') by lia. by rewrite A3, B3.
Qed.

(** A carry out of any number of 16-bit digits may be added back at the end. *)
Lemma ceq_fold (h l : Z) : 0 <= h -> 0 <= l -> ceq (h * 65536 + l) (h + l).
Proof.
  intros Hh Hl. unfold ceq. splits; try lia.
  replace (h * 65536 + l) with (h + l + h * 65535) by lia. by rewrite Z.mod_add by lia.
Qed.
#[export] Hint Resolve ceq_fold : ww.

Lemma ceq_fold32 (x : Z) : 0 <= x -> ceq (x mod 4294967296 + x / 4294967296) x.
Proof.
  intros Hx. pose proof (Z.div_mod x 4294967296) as D. pose proof (Z.mod_pos_bound x 4294967296) as M.
  assert (0 <= x / 4294967296) by (apply Z.div_pos; lia). unfold ceq. splits; try lia.
  rewrite D at 3 by lia.
  replace (4294967296 * (x / 4294967296) + x mod 4294967296)
    with (x mod 4294967296 + x / 4294967296 + x / 4294967296 * 65537 * 65535) by lia.
  by rewrite Z.mod_add by lia.
Qed.

Lemma rep_range (x : Z) : 0 <= rep x <= 65535.
Proof. unfold rep. pose proof (Z.mod_pos_bound (x - 1) 65535). case_match; lia. Qed.

Lemma rep_small (x : Z) : 0 <= x <= 65535 -> rep x = x.
Proof.
  intros. unfold rep. destruct (Z.eqb_spec x 0); [done|]. rewrite Z.mod_small by lia. lia.
Qed.

Lemma ceq_rep (a b : Z) : ceq a b -> rep a = rep b.
Proof.
  intros (H1 & H2 & H3 & H4). unfold rep.
  destruct (Z.eqb_spec a 0) as [A|A], (Z.eqb_spec b 0) as [B|B]; try tauto.
  f_equal. rewrite (Zminus_mod a), (Zminus_mod b). by rewrite H3.
Qed.

Lemma rep_ceq (x : Z) : 0 <= x -> ceq (rep x) x.
Proof.
  intros Hx. pose proof (rep_range x). unfold rep in *.
  destruct (Z.eqb_spec x 0) as [->|]; [by apply ceq_refl|]. unfold ceq.
  pose proof (Z.mod_pos_bound (x - 1) 65535). splits; [lia|lia| |lia].
  rewrite Z.add_mod_idemp_l by lia. f_equal. lia.
Qed.

(** ** Folding loops *)

Lemma shift_split (bits x : Z) :
  0 < bits -> 0 <= x -> Z.land x (Z.ones bits) = x mod 2 ^ bits /\ Z.shiftr x bits = x / 2 ^ bits.
Proof. intros. rewrite Z.land_ones, Z.shiftr_div_pow2 by lia. done. Qed.

(** A bound on the sum and the rounds left: every round keeps the sum up to
    carries, and takes a sum up to [x] at least to the smaller of
    [2^bits - 1 + x / 2^bits] and [x - 2^bits + 1]. *)
Fixpoint fold_bound (bits : Z) (fuel : nat) (x : Z) : Prop :=
  match fuel with
  | O => False
  | S fuel' =>
      x < 2 ^ bits \/
      fold_bound bits fuel' (Z.min (2 ^ bits - 1 + x / 2 ^ bits) (x - 2 ^ bits + 1))
  end.

Lemma fold_bound_mono bits fuel : forall x y,
  0 <= bits -> y <= x -> fold_bound bits fuel x -> fold_bound bits fuel y.
Proof.
  induction fuel as [|fuel IH]; intros x y Hb Hle; simpl; [done|].
  intros [H|H]; [left; lia|right]. eapply IH; [done| |exact H].
  pose proof (Z.div_le_mono y x (2 ^ bits)). lia.
Qed.

Lemma fold_loop_spec bits fuel : forall x,
  (bits = 16 \/ bits = 32) -> 0 <= x <= UINT64_MAX -> fold_bound bits fuel x ->
  exists y, fold_loop bits (Z.ones bits) fuel x = Ok y /\ 0 <= y < 2 ^ bits /\ ceq y x.
Proof.
  induction fuel as [|fuel IH]; intros x Hb Hx HF; simpl in *; [done|].
  assert (0 < bits /\ 65536 <= 2 ^ bits <= 4294967296) as [Hp Hpow] by (destruct Hb as [-> | ->]; lia).
  destruct (shift_split bits x) as [E1 E2]; try lia. rewrite E1, E2.
  pose proof (Z.div_mod x (2 ^ bits)) as D. pose proof (Z.mod_pos_bound x (2 ^ bits)) as M.
  assert (0 <= x / 2 ^ bits) by (apply Z.div_pos; lia).
  destruct (Z.eqb_spec (x / 2 ^ bits) 0) as [Z0|NZ]; simpl.
  { exists x. splits; [done|lia|lia|auto with ww]. }
  destruct HF as [HF|HF]; [by rewrite Z.div_small in NZ by lia|]. unfold UINT64_MAX in *.
  assert (x / 2 ^ bits <= x / 65536) by (apply Z.div_le_compat_l; lia).
  assert (x / 65536 <= 281474976710655) by (apply Z.lt_succ_r, Z.div_lt_upper_bound; lia).
  rewrite wrap64_small by word_lia.
  destruct (IH (x mod 2 ^ bits + x / 2 ^ bits)) as (y & -> & Hy & Cy); try done; try lia.
  { eapply fold_bound_mono; [lia| |exact HF]. nia. }
  exists y. splits; try done; try lia. etransitivity; [exact Cy|].
  clear - D M Hb Hx H. destruct Hb as [-> | ->].
  - change (2 ^ 16) with 65536 in *. rewrite D at 3 by lia. rewrite (Z.mul_comm 65536), Z.add_comm.
    symmetry. auto with ww.
  - apply ceq_fold32. lia.
Qed.

(** A 64-bit sum folds within the fuel. *)
Lemma fold_bound_16 (x : Z) : x <= UINT64_MAX -> fold_bound 16 kFoldFuel x.
Proof.
  intros H. apply (fold_bound_mono _ _ UINT64_MAX); [lia|done|].
  vm_compute. repeat first [left; reflexivity|right].
Qed.

Lemma fold_bound_32 (x : Z) : x <= UINT64_MAX -> fold_bound 32 kFoldFuel x.
Proof.
  intros H. apply (fold_bound_mono _ _ UINT64_MAX); [lia|done|].
  vm_compute. repeat first [left; reflexivity|right].
Qed.

Lemma finalize_spec (x : Z) :
  0 <= x <= UINT64_MAX -> finalizeChecksum x = Ok (65535 - rep x).
Proof.
  intros Hx. unfold finalizeChecksum.
  destruct (fold_loop_spec 16 kFoldFuel x) as (y & E & Hy & Cy); [by left|done|apply fold_bound_16; lia|].
  change (Z.ones 16) with UINT16_MAX in E. rewrite E. change (Ok ?a ≫= ?k) with (k a). cbv beta.
  apply ceq_rep in Cy. rewrite (rep_small y) in Cy by lia. rewrite <- Cy. unfold Z.lnot, wrap16.
  change (2 ^ 16) with 65536 in *. f_equal.
  replace (Z.pred (- y)) with (65535 - y + -1 * 65536) by lia. rewrite Z.mod_add by lia.
  apply Z.mod_small. lia.
Qed.

(** ** The accumulator *)

(** The value of [(sum, carry)]: what was added, up to carries. *)
Definition acc_ok (st : Z * Z) (n total : Z) : Prop :=
  0 <= st.1 <= UINT64_MAX /\ 0 <= st.2 <= n /\ ceq (st.1 + st.2) total.

Lemma ceq_2_64 (a : Z) : 0 <= a -> ceq (a + 2 ^ 64) (a + 1).
Proof.
  intros Ha. change (2 ^ 64) with 18446744073709551616. unfold ceq. splits; try lia.
  replace (a + 18446744073709551616) with (a + 1 + 281479271743489 * 65535) by lia.
  by rewrite Z.mod_add by lia.
Qed.

Lemma add_carry_spec st n total v :
  acc_ok st n total -> 0 <= n < UINT32_MAX -> 0 <= v <= UINT64_MAX ->
  acc_ok (addWithCarry st v) (n + 1) (total + v).
Proof.
  destruct st as [sum carry]. unfold acc_ok, addWithCarry, UINT64_MAX, UINT32_MAX. simpl.
  intros (Hs & Hc & Ct) Hn Hv.
  assert (ceq (sum + carry + v) (total + v)) as Cv by (apply ceq_add; [done|auto with ww]).
  destruct (Z.lt_ge_cases (sum + v) (2 ^ 64)) as [Fit|Over].
  - rewrite wrap64_small by word_lia. rewrite (proj2 (Z.ltb_ge _ _)) by lia.
    splits; try lia. by replace (sum + v + carry) with (sum + carry + v) by lia.
  - assert (wrap64 (sum + v) = sum + v - 2 ^ 64) as ->.
    { unfold wrap64. replace (sum + v) with (sum + v - 2 ^ 64 + 1 * 2 ^ 64) at 1 by lia.
      rewrite Z.mod_add by lia. apply Z.mod_small. lia. }
    rewrite (proj2 (Z.ltb_lt _ _)) by lia. rewrite wrap64_small by word_lia.
    splits; try lia. etransitivity; [|exact Cv].
    replace (sum + v - 2 ^ 64 + (carry + 1)) with (sum + v - 2 ^ 64 + carry + 1) by lia.
    replace (sum + carry + v) with (sum + v - 2 ^ 64 + carry + 2 ^ 64) by lia.
    symmetry. apply ceq_2_64. lia.
Qed.

(** ** Reading words *)

Definition is_word (v : Z) (l : list Z) : Prop := 0 <= v <= UINT64_MAX /\ ceq v (wsum l).

Lemma words_value (l : list Z) : Forall is_byte l -> 0 <= wsum l.
Proof.
  unfold wsum. revert l. fix IH 1. intros [|b0 [|b1 l]] H; simpl; [lia| |].
  - apply Forall_cons in H as [H _]. unfold is_byte in H. lia.
  - apply Forall_cons in H as [H0 H]. apply Forall_cons in H as [H1 H]. specialize (IH l H).
    unfold is_byte in *. lia.
Qed.

Lemma read16_spec d0 d1 l :
  is_byte d0 -> is_byte d1 ->
  exists v, readBigEndian16 (d0 :: d1 :: l) = Ok v /\ is_word v [d0; d1].
Proof.
  unfold is_byte. intros. eexists; split; [done|].
  rewrite Z.shiftl_mul_pow2, (lor_add _ _ 8) by (try lia; by rewrite Z.mod_mul).
  rewrite wrap16_small by word_lia. unfold is_word, wsum, UINT64_MAX. simpl.
  split; [lia|]. replace (d0 * 256 + d1 + 0) with (d0 * 2 ^ 8 + d1) by lia. apply ceq_refl. lia.
Qed.

(** Joining one more byte on the right. *)
Lemma lor_byte (a b k k8 : Z) :
  0 <= k -> k8 = k + 8 -> is_byte b -> Z.lor (a * 2 ^ k8) (b * 2 ^ k) = (a * 256 + b) * 2 ^ k.
Proof.
  unfold is_byte. intros Hk -> Hb. assert (0 < 2 ^ k) by (apply Z.pow_pos_nonneg; lia).
  rewrite (lor_add _ _ (k + 8)); [|lia| |by rewrite Z.mod_mul by (apply Z.pow_nonzero; lia)].
  - rewrite Z.pow_add_r by lia. change (2 ^ 8) with 256. lia.
  - rewrite Z.pow_add_r by lia. change (2 ^ 8) with 256. nia.
Qed.

Lemma lor_byte_0 (a b : Z) : is_byte b -> Z.lor (a * 2 ^ 8) b = a * 256 + b.
Proof.
  intros. pose proof (lor_byte a b 0 8 ltac:(lia) eq_refl H) as E.
  change (2 ^ 0) with 1 in E. rewrite !Z.mul_1_r in E. exact E.
Qed.

Lemma read32_spec d0 d1 d2 d3 l :
  Forall is_byte [d0; d1; d2; d3] ->
  exists v, readBigEndian32 (d0 :: d1 :: d2 :: d3 :: l) = Ok v /\ is_word v [d0; d1; d2; d3].
Proof.
  rewrite !Forall_cons. intros (H0 & H1 & H2 & H3 & _).
  eexists; split; [done|]. rewrite !Z.shiftl_mul_pow2 by lia.
  rewrite (lor_byte _ _ 16 24), (lor_byte _ _ 8 16), lor_byte_0 by done.
  unfold is_word, wsum, is_byte, UINT64_MAX in *. simpl. split; [lia|].
  replace (((d0 * 256 + d1) * 256 + d2) * 256 + d3)
    with ((d0 * 256 + d1) * 65536 + (d2 * 256 + d3)) by lia.
  rewrite Z.add_0_r. auto with ww.
Qed.

Lemma read64_spec d0 d1 d2 d3 d4 d5 d6 d7 l :
  Forall is_byte [d0; d1; d2; d3; d4; d5; d6; d7] ->
  exists v, readBigEndian64 (d0 :: d1 :: d2 :: d3 :: d4 :: d5 :: d6 :: d7 :: l) = Ok v /\
    is_word v [d0; d1; d2; d3; d4; d5; d6; d7].
Proof.
  rewrite !Forall_cons. intros (H0 & H1 & H2 & H3 & H4 & H5 & H6 & H7 & _).
  eexists; split; [done|]. rewrite !Z.shiftl_mul_pow2 by lia.
  rewrite (lor_byte _ _ 48 56), (lor_byte _ _ 40 48), (lor_byte _ _ 32 40), (lor_byte _ _ 24 32),
    (lor_byte _ _ 16 24), (lor_byte _ _ 8 16), lor_byte_0 by done.
  unfold is_word, wsum, is_byte, UINT64_MAX in *. simpl. split; [lia|].
  set (w0 := d0 * 256 + d1). set (w1 := d2 * 256 + d3). set (w2 := d4 * 256 + d5).
  set (w3 := d6 * 256 + d7).
  transitivity ((w0 * 65536 + w1) * 65536 + w2 + w3).
  { etransitivity; [|apply ceq_fold with (h := (w0 * 65536 + w1) * 65536 + w2); lia].
    match goal with |- ceq ?x ?y => replace x with y by (subst w0 w1 w2 w3; lia) end.
    apply ceq_refl. subst w0 w1 w2 w3. lia. }
  rewrite Z.add_0_r, !Z.add_assoc. apply ceq_add; [|auto with ww].
  etransitivity; [apply ceq_fold; lia|]. apply ceq_add; auto with ww.
Qed.

(** A reader takes the words of the first [width] bytes. *)
Definition reader_ok (read : list Z -> outcome Z) (width : nat) : Prop :=
  forall l, Forall is_byte l -> (width <= length l)%nat ->
  exists v, read l = Ok v /\ is_word v (take width l).

Ltac take_bytes l n :=
  match n with
  | O => idtac
  | S ?m => let b := fresh "b" in destruct l as [|b l]; [simpl in *; lia|]; take_bytes l m
  end.

Lemma reader_64 : reader_ok readBigEndian64 8.
Proof.
  intros l Hl Hn. take_bytes l 8%nat. apply read64_spec.
  exact (Forall_take is_byte 8%nat _ Hl).
Qed.

Lemma reader_32 : reader_ok readBigEndian32 4.
Proof. intros l Hl Hn. take_bytes l 4%nat. apply read32_spec. exact (Forall_take is_byte 4%nat _ Hl). Qed.

Lemma reader_16 : reader_ok readBigEndian16 2.
Proof.
  intros l Hl Hn. take_bytes l 2%nat. rewrite !Forall_cons in Hl. destruct Hl as (? & ? & _).
  by apply read16_spec.
Qed.

(** ** The whole buffer *)

Lemma words_be_app (a b : list Z) :
  Nat.Even (length a) -> words_be (a ++ b) = words_be a ++ words_be b.
Proof.
  revert a. fix IH 1. intros [|x [|y a]] Hev; [done| |].
  - destruct Hev as [k Hk]. simpl in Hk. lia.
  - simpl. rewrite IH; [done|]. destruct Hev as [k Hk]. simpl in Hk. exists (k - 1)%nat. lia.
Qed.

Lemma wsum_app (a b : list Z) : Nat.Even (length a) -> wsum (a ++ b) = wsum a + wsum b.
Proof.
  intros H. unfold wsum. rewrite (words_be_app a b H).
  induction (words_be a) as [|w ws IH]; simpl; [done|]. rewrite IH. lia.
Qed.

Section Loops.
Context (read : list Z -> outcome Z) (width : nat).
Context (Hread : reader_ok read width) (Hw : Nat.Even width) (Hpos : (0 < width)%nat).

Lemma add_words_spec n : forall l st k total,
  Forall is_byte l -> (n * width <= length l)%nat -> acc_ok st k total ->
  0 <= k -> k + Z.of_nat n <= UINT32_MAX ->
  exists st', add_words read width n l st = Ok st' /\
    acc_ok st' (k + Z.of_nat n) (total + wsum (take (n * width) l)).
Proof.
  induction n as [|n IH]; intros l st k total Hl Hn A Hk Hb.
  { exists st. split; [done|]. change (take (0 * width) l) with (@nil Z).
    change (wsum []) with 0. by rewrite !Z.add_0_r. }
  simpl in Hn. destruct (Hread l Hl) as (v & E & (Hv & Cv)); [lia|].
  cbn [add_words]. rewrite E. change (Ok ?a ≫= ?f) with (f a). cbv beta.
  pose proof (add_carry_spec st k total v A ltac:(lia) Hv) as A1.
  destruct (IH (drop width l) (addWithCarry st v) (k + 1) (total + v)) as (st' & E' & A'); try done.
  - by apply Forall_drop.
  - rewrite length_drop. lia.
  - lia.
  - lia.
  - exists st'. split; [done|]. destruct A' as (X1 & X2 & X3). split; [done|]. split; [lia|].
    etransitivity; [exact X3|]. simpl.
    rewrite <- (take_take_drop l width (n * width)), wsum_app.
    + rewrite Z.add_assoc. apply ceq_add.
      * apply ceq_add; [apply ceq_refl; destruct A as (_ & _ & (? & ? & _)); lia|done].
      * apply ceq_refl, words_value. by apply Forall_take, Forall_drop.
    + rewrite length_take, Nat.min_l by lia. done.
Qed.

Lemma block_loop_spec n fuel : forall l st k total,
  (0 < n)%nat -> Forall is_byte l -> zlen l <= UINT16_MAX -> acc_ok st k total ->
  0 <= k -> k + zlen l <= UINT32_MAX -> (length l < fuel)%nat ->
  exists pre l' st' k', block_loop fuel read width n l (zlen l) st = Ok (l', zlen l', st') /\
    l = pre ++ l' /\ (length l' < n * width)%nat /\ k' + zlen l' <= k + zlen l /\ 0 <= k' /\
    acc_ok st' k' (total + wsum pre) /\ Nat.Even (length pre).
Proof.
  induction fuel as [|fuel IH]; intros l st k total Hn Hl HL A Hk Hb Hf; [lia|].
  cbn [block_loop]. destruct (zlen l >=? Z.of_nat (n * width)) eqn:E; bool_facts.
  2:{ exists [], l, st, k. unfold zlen in *. splits; try done; try lia.
      - change (wsum []) with 0. by rewrite Z.add_0_r.
      - by exists 0%nat. }
  assert (n * width <= length l)%nat as Hle by (unfold zlen in E; lia).
  assert (1 * 1 <= n * width)%nat by (apply Nat.mul_le_mono; lia).
  assert (n <= n * width)%nat by nia.
  destruct (add_words_spec n l st k total Hl Hle A Hk) as (st1 & -> & A1).
  { unfold zlen in *. lia. }
  change (Ok ?a ≫= ?f) with (f a). cbv beta.
  rewrite wrap64_small by (unfold zlen, UINT16_MAX, UINT64_MAX in *; lia).
  assert (zlen l - Z.of_nat (n * width) = zlen (drop (n * width) l)) as ->
    by (unfold zlen; rewrite length_drop; lia).
  destruct (IH (drop (n * width) l) st1 (k + Z.of_nat n) (total + wsum (take (n * width) l)))
    as (pre & l' & st' & k' & E' & El & Hlt & Hk' & Hk0 & A' & Ev); try done; try lia.
  { by apply Forall_drop. }
  { unfold zlen in *. rewrite length_drop. lia. }
  { unfold zlen in *. rewrite length_drop. lia. }
  { rewrite length_drop. lia. }
  exists (take (n * width) l ++ pre), l', st', k'.
  assert (Nat.Even (length (take (n * width) l))) as Ev1.
  { rewrite length_take, Nat.min_l by lia. destruct Hw as [j Hj]. exists (n * j)%nat. lia. }
  splits; try done.
  - rewrite <- app_assoc, <- El. by rewrite take_drop.
  - unfold zlen in *. rewrite length_drop in Hk'. lia.
  - rewrite wsum_app, Z.add_assoc by done. done.
  - rewrite length_app. by apply Nat.Even_Even_add.
Qed.
End Loops.

Section Buffer.
Context (data : list Z) (Hbytes : Forall is_byte data) (Hlen : zlen data <= UINT16_MAX).

(** [l] is what is left of the data, and [st] the sum of what was read. *)
Definition progress (l : list Z) (st : Z * Z) : Prop :=
  exists pre k, data = pre ++ l /\ Nat.Even (length pre) /\ acc_ok st k (wsum pre) /\
    0 <= k /\ k + zlen l <= UINT16_MAX.

Lemma progress_loop read width n l st :
  reader_ok read width -> Nat.Even width -> (0 < width)%nat -> (0 < n)%nat -> progress l st ->
  exists l' st', block_loop (S (length data)) read width n l (zlen l) st = Ok (l', zlen l', st') /\
    progress l' st' /\ (length l' < n * width)%nat.
Proof.
  intros HR HW HP Hn (pre & k & -> & Ev & A & Hk & Hb).
  apply Forall_app in Hbytes as [_ Hl]. pose proof (zlen_nonneg l). pose proof (zlen_nonneg pre).
  destruct (block_loop_spec read width HR HW HP n (S (length (pre ++ l))) l st k (wsum pre))
    as (pre' & l' & st' & k' & E & -> & Hlt & Hk' & Hk0 & A' & Ev'); try done.
  - lia.
  - unfold UINT16_MAX, UINT32_MAX in *. lia.
  - rewrite length_app. lia.
  - exists l', st'. splits; try done. exists (pre ++ pre'), k'.
    splits; try done; try lia.
    + by rewrite <- app_assoc.
    + rewrite length_app. by apply Nat.Even_Even_add.
    + by rewrite wsum_app.
Qed.

Lemma progress_odd l st :
  progress l st -> (length l < 2)%nat ->
  exists sum carry, (if negb (zlen l =? 0)
    then match l with d0 :: _ => mret (addWithCarry st (Z.shiftl d0 8)) | [] => Fail MemoryFault end
    else mret st) = Ok (sum, carry) /\ acc_ok (sum, carry) UINT16_MAX (wsum data).
Proof.
  intros (pre & k & E & Ev & A & Hk & Hb) Hlt. destruct l as [|d0 [|]]; [| |simpl in Hlt; lia].
  - destruct st as [sum carry]. exists sum, carry. split; [done|]. rewrite app_nil_r in E. subst pre.
    change (zlen []) with 0 in Hb. destruct A as (A1 & A2 & A3). split; [done|]. split; [lia|done].
  - change (zlen [d0]) with 1 in *. simpl.
    assert (is_byte d0) as Hd by (rewrite E in Hbytes; apply Forall_app in Hbytes as [_ X]; by inversion X).
    unfold is_byte in Hd. rewrite Z.shiftl_mul_pow2 by lia.
    pose proof (add_carry_spec st k (wsum pre) (d0 * 2 ^ 8) A) as X.
    destruct (addWithCarry st (d0 * 2 ^ 8)) as [sum carry]. exists sum, carry. split; [done|].
    unfold UINT16_MAX, UINT32_MAX, UINT64_MAX in *.
    destruct X as (X1 & X2 & X3); [lia|lia|]. split; [done|]. split; [lia|].
    rewrite E, wsum_app by done. unfold wsum at 2. simpl. by rewrite Z.add_0_r.
Qed.

Lemma checksumBuffer_spec :
  exists s, checksumBuffer data (zlen data) = Ok s /\ 0 <= s < 2 ^ 32 /\ ceq s (wsum data).
Proof.
  unfold checksumBuffer. cbv zeta.
  assert (progress data (0, 0)) as P0.
  { exists [], 0. splits; try done. by exists 0%nat. }
  assert (Nat.Even 8 /\ Nat.Even 4 /\ Nat.Even 2) as (E8 & E4 & E2)
    by (splits; [by exists 4%nat|by exists 2%nat|by exists 1%nat]).
  destruct (progress_loop _ 8 8 data (0, 0) reader_64 E8 ltac:(lia) ltac:(lia) P0) as (l1 & s1 & -> & P1 & _).
  change (Ok ?a ≫= ?f) with (f a). cbv beta iota.
  destruct (progress_loop _ 8 4 l1 s1 reader_64 E8 ltac:(lia) ltac:(lia) P1) as (l2 & s2 & -> & P2 & _).
  change (Ok ?a ≫= ?f) with (f a). cbv beta iota.
  destruct (progress_loop _ 8 2 l2 s2 reader_64 E8 ltac:(lia) ltac:(lia) P2) as (l3 & s3 & -> & P3 & _).
  change (Ok ?a ≫= ?f) with (f a). cbv beta iota.
  destruct (progress_loop _ 8 1 l3 s3 reader_64 E8 ltac:(lia) ltac:(lia) P3) as (l4 & s4 & -> & P4 & _).
  change (Ok ?a ≫= ?f) with (f a). cbv beta iota.
  destruct (progress_loop _ 4 1 l4 s4 reader_32 E4 ltac:(lia) ltac:(lia) P4) as (l5 & s5 & -> & P5 & _).
  change (Ok ?a ≫= ?f) with (f a). cbv beta iota.
  destruct (progress_loop _ 2 1 l5 s5 reader_16 E2 ltac:(lia) ltac:(lia) P5) as (l6 & s6 & -> & P6 & L6).
  change (Ok ?a ≫= ?f) with (f a). cbv beta iota.
  destruct (progress_odd l6 s6 P6 L6) as (sum & carry & -> & (A1 & A2 & A3)).
  change (Ok ?a ≫= ?f) with (f a). cbv beta iota. simpl in A1, A2, A3.
  unfold UINT16_MAX, UINT64_MAX in *. destruct (shift_split 32 sum) as [S1 S2]; try lia.
  change (Z.ones 32) with UINT32_MAX in S1. rewrite S1, S2. change (2 ^ 32) with 4294967296 in *.
  pose proof (Z.div_mod sum 4294967296) as D. pose proof (Z.mod_pos_bound sum 4294967296) as M.
  assert (0 <= sum / 4294967296) by (apply Z.div_pos; lia).
  assert (sum / 4294967296 < 4294967296) by (apply Z.div_lt_upper_bound; lia).
  rewrite (wrap64_small (_ + sum / _)), (wrap64_small (_ + carry)) by word_lia.
  destruct (fold_loop_spec 32 kFoldFuel (sum mod 4294967296 + sum / 4294967296 + carry))
    as (y & E & Hy & Cy); [by right|unfold UINT64_MAX; lia|apply fold_bound_32; unfold UINT64_MAX; lia|].
  change (Z.ones 32) with UINT32_MAX in E. rewrite E. exists (wrap32 y). split; [done|].
  change (2 ^ 32) with 4294967296 in Hy. rewrite wrap32_small by word_lia.
  split; [lia|]. etransitivity; [exact Cy|]. etransitivity; [|exact A3].
  apply ceq_add; [apply ceq_fold32; lia|auto with ww].
Qed.
End Buffer.

(** ** Results *)

Lemma ones_add_rep (a b : Z) :
  0 <= a <= 65535 -> 0 <= b <= 65535 -> ones_add a b = rep (a + b).
Proof.
  intros Ha Hb. unfold ones_add. destruct (Z.lt_ge_cases (a + b) 65536) as [H|H].
  - rewrite Z.mod_small, Z.div_small, rep_small by lia. lia.
  - assert ((a + b) / 65536 = 1) as -> by (symmetry; apply (Z.div_unique _ _ _ (a + b - 65536)); lia).
    rewrite <- (Z.mod_unique (a + b) 65536 1 (a + b - 65536)) by lia. unfold rep.
    rewrite (proj2 (Z.eqb_neq _ _)) by lia.
    rewrite <- (Z.mod_unique (a + b - 1) 65535 1 (a + b - 65536)) by lia. lia.
Qed.

Lemma ones_sum_rep (ws : list Z) : forall acc,
  0 <= acc -> Forall (fun w => 0 <= w <= 65535) ws ->
  foldl ones_add (rep acc) ws = rep (acc + foldr Z.add 0 ws).
Proof.
  induction ws as [|w ws IH]; intros acc Ha Hw; simpl; [by rewrite Z.add_0_r|].
  apply Forall_cons in Hw as [Hw Hws]. rewrite ones_add_rep by (done || apply rep_range).
  assert (rep (rep acc + w) = rep (acc + w)) as ->.
  { apply ceq_rep, ceq_add; [by apply rep_ceq|auto with ww]. }
  rewrite IH by (done || lia). f_equal. lia.
Qed.

Lemma words_be_range (l : list Z) :
  Forall is_byte l -> Forall (fun w => 0 <= w <= 65535) (words_be l).
Proof.
  revert l. fix IH 1. intros [|b0 [|b1 l]] H; simpl; [constructor| |].
  - apply Forall_cons in H as [H _]. unfold is_byte in H. constructor; [lia|constructor].
  - apply Forall_cons in H as [H0 H]. apply Forall_cons in H as [H1 H]. specialize (IH l H).
    unfold is_byte in *. constructor; [lia|done].
Qed.

Lemma ones_sum_words (l : list Z) : Forall is_byte l -> ones_sum (words_be l) = rep (wsum l).
Proof.
  intros H. unfold ones_sum, wsum. change 0 with (rep 0) at 1.
  rewrite ones_sum_rep by (done || by apply words_be_range). done.
Qed.

Section Results.
Context `{NetOrderLaws}.

Lemma htons_range (x : Z) : 0 <= x <= 65535 -> 0 <= lwip_htons x <= 65535.
Proof.
  intros Hx. rewrite htons_swap by done. pose proof (Z.mod_pos_bound x 256).
  assert (0 <= x / 256 < 256) by (split; [apply Z.div_pos|apply Z.div_lt_upper_bound]; lia). lia.
Qed.

(** Swapping bytes is multiplication by 256, up to carries. *)
Lemma htons_ceq (x : Z) : 0 <= x <= 65535 -> ceq (lwip_htons x) (x * 256).
Proof.
  intros Hx. rewrite htons_swap by done. pose proof (Z.div_mod x 256). pose proof (Z.mod_pos_bound x 256).
  assert (0 <= x / 256) by (apply Z.div_pos; lia).
  replace (x * 256) with (x / 256 * 65536 + x mod 256 * 256) by lia.
  rewrite Z.add_comm. symmetry. auto with ww.
Qed.

Lemma htons_complement (x : Z) : 0 <= x <= 65535 -> 65535 - lwip_htons (65535 - x) = lwip_htons x.
Proof.
  intros Hx. rewrite !htons_swap by lia.
  pose proof (Z.div_mod x 256) as D. pose proof (Z.mod_pos_bound x 256) as M.
  rewrite <- (Z.mod_unique (65535 - x) 256 (255 - x / 256) (255 - x mod 256)) by lia.
  rewrite <- (Z.div_unique (65535 - x) 256 (255 - x / 256) (255 - x mod 256)) by lia. lia.
Qed.

Lemma checksumDefault_spec (data : list Z) (initial : Z) :
  Forall is_byte data -> zlen data <= UINT16_MAX -> u32 initial ->
  checksumDefault data (zlen data) initial = Ok (lwip_htons (65535 - rep (initial + wsum data))).
Proof.
  intros Hd Hl Hi. unfold checksumDefault, cChecksum. unfold u32, UINT32_MAX in Hi.
  destruct (checksumBuffer_spec data Hd Hl) as (s & -> & Hs & Cs). change (2 ^ 32) with 4294967296 in Hs.
  change (Ok ?a ≫= ?f) with (f a). cbv beta zeta.
  rewrite wrap64_small by word_lia.
  rewrite finalize_spec by word_lia. change (Ok ?a ≫= ?f) with (f a). cbv beta.
  unfold mret, outcome_ret. do 3 f_equal. apply ceq_rep, ceq_add; [auto with ww|done].
Qed.

(** C33. The portable backend computes the Internet checksum: for every buffer of
    at most 65535 bytes and every 32-bit seed it returns, in network byte order,
    the complement of the one's complement sum of the two halves of the seed and
    the big-endian words of the data.  No read leaves the buffer, no carry is
    lost, and the folding loops end. *)
Theorem checksumDefault_is_internet_checksum (data : list Z) (initial : Z) :
  Forall is_byte data -> zlen data <= UINT16_MAX -> u32 initial ->
  checksumDefault data (zlen data) initial =
  Ok (lwip_htons (65535 - ones_sum (initial / 65536 :: initial mod 65536 :: words_be data))).
Proof.
  intros Hd Hl Hi. rewrite checksumDefault_spec by done. unfold u32, UINT32_MAX in Hi.
  unfold ones_sum. change (foldl ones_add 0) with (foldl ones_add (rep 0)).
  rewrite ones_sum_rep; [|done|].
  - do 3 f_equal. apply ceq_rep. simpl. fold (wsum data). rewrite Z.add_0_l, Z.add_assoc.
    pose proof (Z.div_mod initial 65536). pose proof (Z.mod_pos_bound initial 65536).
    assert (0 <= initial / 65536) by (apply Z.div_pos; lia).
    apply ceq_add; [|by apply ceq_refl, words_value].
    replace initial with (initial / 65536 * 65536 + initial mod 65536) at 1 by lia.
    auto with ww.
  - pose proof (Z.mod_pos_bound initial 65536).
    assert (0 <= initial / 65536 <= 65535).
    { split; [apply Z.div_pos; lia|]. apply Z.lt_succ_r, Z.div_lt_upper_bound; lia. }
    constructor; [done|]. constructor; [lia|]. by apply words_be_range.
Qed.

(** ** Long buffers *)

Lemma fold16_step (a b : Z) :
  0 <= a <= 65535 -> 0 <= b <= 65535 ->
  Z.land (a +32 b) UINT16_MAX +32 Z.shiftr (a +32 b) 16 = rep (a + b).
Proof.
  intros Ha Hb. rewrite (wrap32_small (a + b)) by word_lia.
  change UINT16_MAX with (Z.ones 16). rewrite Z.land_ones, Z.shiftr_div_pow2 by lia.
  change (2 ^ 16) with 65536. fold (ones_add a b). rewrite ones_add_rep by done.
  apply wrap32_small. pose proof (rep_range (a + b)). unfold UINT32_MAX. lia.
Qed.

(** The complement of a short checksum is the swapped word sum. *)
Lemma short_sum (data : list Z) :
  Forall is_byte data -> zlen data <= UINT16_MAX ->
  exists c, calcGenericChecksum data (zlen data) 0 = Ok c /\
    wrap16 (Z.lnot c) = lwip_htons (rep (wsum data)).
Proof.
  intros Hd Hl. unfold calcGenericChecksum. rewrite checksumDefault_spec by done. rewrite Z.add_0_l.
  eexists; split; [done|]. pose proof (rep_range (wsum data)).
  rewrite <- (htons_complement (rep (wsum data))) by done. pose proof (htons_range (65535 - rep (wsum data)) ltac:(lia)).
  unfold Z.lnot, wrap16. change (2 ^ 16) with 65536. set (x := lwip_htons _) in *.
  replace (Z.pred (- x)) with (65535 - x + -1 * 65536) by lia. rewrite Z.mod_add by lia.
  apply Z.mod_small. lia.
Qed.

Lemma ceq_mul256 (a b : Z) : ceq a b -> ceq (a * 256) (b * 256).
Proof.
  intros (H1 & H2 & H3 & H4). unfold ceq. splits; try lia.
  rewrite (Z.mul_mod a), (Z.mul_mod b) by lia. by rewrite H3.
Qed.

(** Adding the swapped sum of one more chunk. *)
Lemma chunk_sum (total : Z) (l : list Z) (sum : Z) :
  0 <= sum <= 65535 -> ceq sum (total * 256) -> Forall is_byte l ->
  ceq (rep (sum + lwip_htons (rep (wsum l)))) ((total + wsum l) * 256).
Proof.
  intros Hs Cs Hl. pose proof (rep_range (wsum l)) as R. pose proof (htons_range _ R).
  etransitivity; [apply rep_ceq; lia|]. rewrite Z.mul_add_distr_r. apply ceq_add; [done|].
  etransitivity; [by apply htons_ceq|]. apply ceq_mul256, rep_ceq. by apply words_value.
Qed.

Lemma lwip_loop_spec fuel : forall l total sum,
  Forall is_byte l -> (length l < fuel)%nat -> 0 <= sum <= 65535 -> ceq sum (total * 256) ->
  exists pre l' sum', lwip_loop fuel l (zlen l) sum = Ok (l', zlen l', sum') /\ l = pre ++ l' /\
    zlen l' <= UINT16_MAX /\ 0 <= sum' <= 65535 /\ ceq sum' ((total + wsum pre) * 256) /\
    Nat.Even (length pre).
Proof.
  induction fuel as [|fuel IH]; intros l total sum Hl Hf Hs Cs; [lia|]. cbn [lwip_loop].
  destruct (zlen l >? UINT16_MAX) eqn:E; bool_facts.
  2:{ exists [], l, sum. splits; try done; try lia.
      - change (wsum []) with 0. by rewrite Z.add_0_r.
      - by exists 0%nat. }
  set (n := Z.to_nat (UINT16_MAX - 1)).
  assert (Z.of_nat n = 65534) as En by (apply Z2Nat.id; unfold UINT16_MAX; lia).
  assert (Nat.Even n) as Evn by (exists (Z.to_nat 32767); lia). clearbody n. unfold UINT16_MAX, zlen in E.
  assert (zlen (take n l) = UINT16_MAX - 1) as Lt by (unfold zlen, UINT16_MAX; rewrite length_take; lia).
  destruct (short_sum (take n l)) as (c & Ec & Ec'); [by apply Forall_take|unfold UINT16_MAX in *; lia|].
  rewrite Lt in Ec. rewrite Ec. change (Ok ?a ≫= ?f) with (f a). cbv beta zeta. rewrite Ec'.
  pose proof (rep_range (wsum (take n l))) as R. pose proof (htons_range _ R) as R'.
  rewrite fold16_step by lia.
  assert (zlen l - (UINT16_MAX - 1) = zlen (drop n l)) as ->
    by (unfold zlen, UINT16_MAX in *; rewrite length_drop; lia).
  destruct (IH (drop n l) (total + wsum (take n l)) (rep (sum + lwip_htons (rep (wsum (take n l))))))
    as (pre & l' & sum' & E' & El & Hl' & Hs' & C' & Ev).
  { by apply Forall_drop. }
  { rewrite length_drop. lia. }
  { apply rep_range. }
  { apply chunk_sum; try done. by apply Forall_take. }
  assert (Nat.Even (length (take n l))) as Ev1.
  { by rewrite length_take, Nat.min_l by lia. }
  exists (take n l ++ pre), l', sum'. splits; try done; try lia.
  - rewrite <- app_assoc, <- El. by rewrite take_drop.
  - rewrite wsum_app, Z.add_assoc by done. done.
  - rewrite length_app. by apply Nat.Even_Even_add.
Qed.

(** The checksum hook of the TCP/IP stack returns the plain one's complement
    sum of the words, in memory byte order, for every buffer up to [INT_MAX]
    bytes: cutting a long buffer into chunks and adding the chunk sums loses
    neither carries nor word alignment. *)
Theorem wwLwipChecksum_sum (data : list Z) :
  Forall is_byte data -> zlen data <= INT_MAX ->
  wwLwipChecksum data (zlen data) = Ok (lwip_htons (ones_sum (words_be data))).
Proof.
  intros Hd Hl. rewrite ones_sum_words by done. pose proof (zlen_nonneg data). unfold wwLwipChecksum.
  rewrite assert_bind by (apply Z.geb_le; lia).
  destruct (Z.eqb_spec (zlen data) 0) as [Z0|_].
  { destruct data; [by rewrite htons_swap|]. rewrite zlen_cons in Z0. pose proof (zlen_nonneg data). lia. }
  destruct (Z.leb_spec (zlen data) UINT16_MAX) as [S|L].
  { rewrite wrap16_small by lia. destruct (short_sum data Hd S) as (c & -> & E). simpl. by rewrite E. }
  destruct (lwip_loop_spec (S (length data)) data 0 0) as (pre & l' & sum & -> & El & Hl' & Hs & C & Ev);
    try done; [lia|].
  change (Ok ?a ≫= ?f) with (f a). cbv beta iota. rewrite wrap16_small by (pose proof (zlen_nonneg l'); lia).
  assert (Forall is_byte l') as Hb by (rewrite El in Hd; by apply Forall_app in Hd as [_ ?]).
  destruct (short_sum l' Hb Hl') as (c & -> & E). change (Ok ?a ≫= ?f) with (f a). cbv beta zeta. rewrite E.
  pose proof (rep_range (wsum l')) as R. rewrite fold16_step by (done || by apply htons_range).
  pose proof (chunk_sum (0 + wsum pre) l' sum Hs C Hb) as X.
  pose proof (rep_range (sum + lwip_htons (rep (wsum l')))) as R2. set (x := rep (sum + _)) in *.
  rewrite Z.add_0_l, <- wsum_app, <- El in X by done. rewrite wrap16_small by done.
  unfold mret, outcome_ret. f_equal. pose proof (rep_range (wsum data)) as R3.
  rewrite <- (rep_small x), <- (rep_small (lwip_htons _)) by (done || by apply htons_range).
  apply ceq_rep. etransitivity; [exact X|]. symmetry. etransitivity; [by apply htons_ceq|].
  apply ceq_mul256, rep_ceq. by apply words_value.
Qed.


(** ** Incremental updates *)

Lemma lnot_low (x : Z) : 0 <= x <= 65535 -> Z.land (Z.lnot x) 65535 = 65535 - x.
Proof.
  intros Hx. change 65535 with (Z.ones 16) at 1. rewrite Z.land_ones by lia. unfold Z.lnot.
  change (2 ^ 16) with 65536. replace (Z.pred (- x)) with (65535 - x + -1 * 65536) by lia.
  rewrite Z.mod_add by lia. apply Z.mod_small. lia.
Qed.

Lemma htons_htons (x : Z) : 0 <= x <= 65535 -> lwip_htons (lwip_htons x) = x.
Proof.
  intros Hx. pose proof (htons_range x Hx). rewrite (htons_swap (lwip_htons x)), (htons_swap x) by done.
  pose proof (Z.div_mod x 256). pose proof (Z.mod_pos_bound x 256).
  assert (0 <= x / 256 < 256) by (split; [apply Z.div_pos|apply Z.div_lt_upper_bound]; lia).
  rewrite <- (Z.mod_unique (x mod 256 * 256 + x / 256) 256 (x mod 256) (x / 256)) by lia.
  rewrite <- (Z.div_unique (x mod 256 * 256 + x / 256) 256 (x mod 256) (x / 256)) by lia. lia.
Qed.

Lemma fold32_same (fuel : nat) : forall x,
  0 <= x <= UINT32_MAX -> fold32_loop fuel x = fold_loop 16 UINT16_MAX fuel x.
Proof.
  induction fuel as [|fuel IH]; intros x Hx; [done|]. cbn [fold32_loop fold_loop].
  change UINT16_MAX with 65535. destruct (shift_split 16 x) as [E1 E2]; try lia.
  change (Z.ones 16) with 65535 in E1. rewrite E1, E2. change (2 ^ 16) with 65536.
  pose proof (Z.mod_pos_bound x 65536). unfold UINT32_MAX in *.
  assert (0 <= x / 65536 <= 65535) by (split; [apply Z.div_pos; lia|apply Z.lt_succ_r, Z.div_lt_upper_bound; lia]).
  rewrite wrap32_small, wrap64_small by word_lia.
  case_match; [|done]. apply IH. lia.
Qed.

(** One word: the new checksum is that of any sum which differs from the old one
    by the two words. *)
Lemma update16_spec (total m m' : Z) :
  0 <= m <= total -> m <= 65535 -> 0 <= m' <= 65535 -> 0 < total - m + m' ->
  checksumUpdateWord16 (lwip_htons (65535 - rep total)) (lwip_htons m) (lwip_htons m') =
  Ok (lwip_htons (65535 - rep (total - m + m'))).
Proof.
  intros Hm Hmt Hm' Hnz. unfold checksumUpdateWord16. pose proof (rep_range total) as R.
  destruct (Z.eqb_spec (lwip_htons m) (lwip_htons m')) as [E|E].
  { apply (f_equal lwip_htons) in E. rewrite !htons_htons in E by lia. subst m'. do 4 f_equal. lia. }
  rewrite !htons_htons by lia. cbv zeta.
  rewrite !lnot_low by lia. replace (65535 - (65535 - rep total)) with (rep total) by lia.
  rewrite (wrap32_small (rep total + (65535 - m))) by word_lia.
  rewrite wrap32_small by word_lia.
  rewrite fold32_same by word_lia.
  set (x := rep total + (65535 - m) + m').
  destruct (fold_loop_spec 16 kFoldFuel x) as (y & Ey & Hy & Cy);
    [by left|unfold UINT64_MAX; lia|apply fold_bound_16; unfold UINT64_MAX; lia|].
  change (Z.ones 16) with UINT16_MAX in Ey. rewrite Ey. change (Ok ?a ≫= ?f) with (f a). cbv beta.
  assert (rep (total - m + m') = y) as ->.
  { change (2 ^ 16) with 65536 in Hy. rewrite <- (rep_small y) by lia. apply ceq_rep. symmetry.
    etransitivity; [exact Cy|]. pose proof (rep_ceq total ltac:(lia)) as (_ & _ & Md & Zr).
    assert (total = 0 -> m <> m') by (intros; intros ->; lia).
    unfold ceq. splits; try lia.
    subst x. replace (rep total + (65535 - m) + m') with (rep total + (m' - m) + 1 * 65535) by lia.
    rewrite Z.mod_add by lia. replace (total - m + m') with (total + (m' - m)) by lia.
    rewrite (Z.add_mod (rep total)), (Z.add_mod total) by lia. by rewrite Md. }
  unfold mret, outcome_ret. f_equal. f_equal. change (2 ^ 16) with 65536 in Hy.
  rewrite <- (lnot_low y) by lia. unfold wrap16. change 65535 with (Z.ones 16).
  by rewrite Z.land_ones by lia.
Qed.

Lemma ones_sum_total (ws : list Z) :
  Forall (fun w => 0 <= w <= 65535) ws -> ones_sum ws = rep (foldr Z.add 0 ws).
Proof.
  intros Hw. unfold ones_sum. change (foldl ones_add 0) with (foldl ones_add (rep 0)).
  by rewrite ones_sum_rep.
Qed.

Lemma sum_nonneg (ws : list Z) :
  Forall (fun w => 0 <= w <= 65535) ws -> 0 <= foldr Z.add 0 ws.
Proof. induction 1; simpl; lia. Qed.

Lemma sum_app (ws ws' : list Z) :
  foldr Z.add 0 (ws ++ ws') = foldr Z.add 0 ws + foldr Z.add 0 ws'.
Proof. induction ws as [|w ws IH]; simpl; [done|]. rewrite IH. lia. Qed.

Lemma halves (h l : Z) :
  0 <= h <= 65535 -> 0 <= l <= 65535 ->
  wrap16 (Z.shiftr (h * 65536 + l) 16) = h /\ wrap16 (Z.land (h * 65536 + l) 65535) = l.
Proof.
  intros Hh Hl. change 65535 with (Z.ones 16). rewrite Z.land_ones, Z.shiftr_div_pow2 by lia.
  change (2 ^ 16) with 65536.
  rewrite <- (Z.div_unique (h * 65536 + l) 65536 h l) by lia.
  rewrite <- (Z.mod_unique (h * 65536 + l) 65536 h l) by lia.
  by rewrite !wrap16_small by word_lia.
Qed.

(** The incremental update of RFC 1624 is exact: replacing a 32-bit value
    anywhere among the words a checksum covers turns the checksum of the old
    words into the checksum of the new ones, as long as the other words are not
    all zero. *)
Theorem checksumUpdateWord32_exact (ws ws' : list Z) (h l h' l' : Z) :
  Forall (fun w => 0 <= w <= 65535) ([h; l; h'; l'] ++ ws ++ ws') ->
  0 < foldr Z.add 0 (ws ++ ws') ->
  checksumUpdateWord32 (lwip_htons (65535 - ones_sum (ws ++ h :: l :: ws')))
    (lwip_htonl (h * 65536 + l)) (lwip_htonl (h' * 65536 + l')) =
  Ok (lwip_htons (65535 - ones_sum (ws ++ h' :: l' :: ws'))).
Proof.
  intros Hw Hnz. rewrite !Forall_app, !Forall_cons in Hw.
  destruct Hw as ((Hh & Hl & Hh' & Hl' & _) & Hws & Hws').
  pose proof (sum_nonneg ws Hws). pose proof (sum_nonneg ws' Hws').
  rewrite !ones_sum_total by (apply Forall_app; split; [done|]; repeat constructor; try lia; done).
  rewrite !sum_app in *. cbn [foldr] in *.
  set (a := foldr Z.add 0 ws) in *. set (b := foldr Z.add 0 ws') in *.
  unfold checksumUpdateWord32. rewrite !htonl_involutive by word_lia. cbv zeta.
  destruct (halves h l Hh Hl) as [-> ->], (halves h' l' Hh' Hl') as [-> ->].
  destruct (Z.eqb_spec (lwip_htonl (h * 65536 + l)) (lwip_htonl (h' * 65536 + l'))) as [E|E].
  { apply (f_equal lwip_htonl) in E. rewrite !htonl_involutive in E by word_lia.
    assert (h = h' /\ l = l') as [-> ->] by lia. done. }
  rewrite update16_spec by lia. change (Ok ?x ≫= ?f) with (f x). cbv beta.
  rewrite update16_spec by lia. do 4 f_equal. lia.
Qed.
End Results.

(** ** Concrete buffers *)

#[export] Instance little_endian : NetOrder := {
  lwip_htons x := x mod 256 * 256 + x / 256;
  lwip_htonl x := x mod 256 * 16777216 + x / 256 mod 256 * 65536 +
                  x / 65536 mod 256 * 256 + x / 16777216
}.

Lemma digits256 (b0 b1 b2 b3 : Z) :
  is_byte b0 -> is_byte b1 -> is_byte b2 -> is_byte b3 ->
  let x := b0 + 256 * b1 + 65536 * b2 + 16777216 * b3 in
  x mod 256 = b0 /\ x / 256 mod 256 = b1 /\ x / 65536 mod 256 = b2 /\ x / 16777216 = b3.
Proof.
  unfold is_byte. cbv zeta. intros H0 H1 H2 H3. set (x := b0 + 256 * b1 + 65536 * b2 + 16777216 * b3).
  assert (x / 256 = b1 + 256 * b2 + 65536 * b3) as E1
    by (symmetry; apply (Z.div_unique x 256 _ b0); lia).
  assert (x / 65536 = b2 + 256 * b3) as E2
    by (symmetry; apply (Z.div_unique x 65536 _ (b0 + 256 * b1)); lia).
  rewrite E1, E2. splits; symmetry.
  - apply (Z.mod_unique x 256 (b1 + 256 * b2 + 65536 * b3)); lia.
  - apply (Z.mod_unique _ 256 (b2 + 256 * b3)); lia.
  - apply (Z.mod_unique _ 256 b3); lia.
  - apply (Z.div_unique x _ _ (b0 + 256 * b1 + 65536 * b2)); lia.
Qed.

#[export] Instance little_endian_laws : NetOrderLaws.
Proof.
  split; [done|done|]. intros x Hx. unfold u32, UINT32_MAX in Hx. cbn [lwip_htonl little_endian].
  set (b0 := x mod 256). set (b1 := x / 256 mod 256). set (b2 := x / 65536 mod 256).
  set (b3 := x / 16777216).
  assert (is_byte b0 /\ is_byte b1 /\ is_byte b2 /\ is_byte b3) as (H0 & H1 & H2 & H3).
  { unfold is_byte. splits; try (apply Z.mod_pos_bound; lia).
    - apply Z.div_pos; lia.
    - apply Z.div_lt_upper_bound; lia. }
  assert (x = b0 + 256 * b1 + 65536 * b2 + 16777216 * b3) as Ex.
  { subst b0 b1 b2 b3.
    pose proof (Z.div_mod x 256 ltac:(lia)). pose proof (Z.div_mod (x / 256) 256 ltac:(lia)).
    pose proof (Z.div_mod (x / 65536) 256 ltac:(lia)).
    rewrite !Z.div_div in * by lia. change (256 * 256) with 65536 in *.
    change (65536 * 256) with 16777216 in *. lia. }
  destruct (digits256 b3 b2 b1 b0) as (E0 & E1 & E2 & E3); [done..|].
  replace (b0 * 16777216 + b1 * 65536 + b2 * 256 + b3)
    with (b3 + 256 * b2 + 65536 * b1 + 16777216 * b0) by lia.
  rewrite E0, E1, E2, E3. lia.
Qed.

Lemma checksumDefault_is_internet_checksum_witness :
  checksumDefault [0; 1; 242; 3; 244; 245; 246; 247; 9] 9 0 =
  Ok (lwip_htons (65535 - ones_sum [0; 0; 1; 61955; 62709; 63223; 2304])).
Proof.
  apply (checksumDefault_is_internet_checksum [0; 1; 242; 3; 244; 245; 246; 247; 9] 0).
  - repeat constructor; unfold is_byte; lia.
  - unfold zlen, UINT16_MAX. simpl. lia.
  - unfold u32, UINT32_MAX. lia.
Defined.

Lemma wwLwipChecksum_sum_witness :
  wwLwipChecksum [69; 0; 0; 20; 1] 5 = Ok (lwip_htons (ones_sum [17664; 20; 256])).
Proof.
  apply (wwLwipChecksum_sum [69; 0; 0; 20; 1]).
  - repeat constructor; unfold is_byte; lia.
  - unfold zlen, INT_MAX. simpl. lia.
Defined.

Lemma checksumUpdateWord32_exact_witness :
  checksumUpdateWord32 (lwip_htons (65535 - ones_sum [17664; 40; 49320; 1; 2560; 2]))
    (lwip_htonl (49320 * 65536 + 1)) (lwip_htonl (2570 * 65536 + 7)) =
  Ok (lwip_htons (65535 - ones_sum [17664; 40; 2570; 7; 2560; 2])).
Proof.
  apply (checksumUpdateWord32_exact [17664; 40] [2560; 2] 49320 1 2570 7); [|simpl; lia].
  repeat constructor; lia.
Defined.
