(* ===== verification/FlowHash.v ===== *)
(** * Flow hashes ([ww/devices/device_flow_hash.c], [ww/devices/device_flow_hash.h])

    The devices choose a worker for a packet by hashing the endpoints it
    carries.  The parsers and both hashes are translated at their widths.  A
    packet pointer is the byte list it points to ([None] for NULL) and comes with
    a separate [length]; an out parameter is the cell it points to, so that a
    call that fails can be seen to leave it alone. *)

From Stdlib Require Import ZArith Lia.
From stdpp Require Import base numbers option list.
From S2P Require Import Prelude ShiftBuffer Endian.
Open Scope Z_scope.
Open Scope word_scope.

Definition kDeviceFlowAffinityIpv4MoreFragments : Z := 0x2000.
Definition kDeviceFlowAffinityIpv4OffsetMask : Z := 0x1FFF.

Definition deviceFlowAffinityMix64 (value : Z) : Z :=
  let value := Z.lxor value (Z.shiftr value 30) in
  let value := value *64 0xBF58476D1CE4E5B9 in
  let value := Z.lxor value (Z.shiftr value 27) in
  let value := value *64 0x94D049BB133111EB in
  Z.lxor value (Z.shiftr value 31).

Definition deviceFlowAffinityMixTuple (src src_port dst dst_port proto fragment_key : Z) : Z :=
  let endpoint_a := Z.lor (wrap64 (Z.shiftl src 16)) src_port in
  let endpoint_b := Z.lor (wrap64 (Z.shiftl dst 16)) dst_port in
  let low := if endpoint_a <? endpoint_b then endpoint_a else endpoint_b in
  let high := if endpoint_a >? endpoint_b then endpoint_a else endpoint_b in
  let hash := deviceFlowAffinityMix64 (low +64 0x9E3779B97F4A7C15) in
  let hash := Z.lxor hash (deviceFlowAffinityMix64 (high +64 0xD1B54A32D192ED03)) in
  let hash := Z.lxor hash (deviceFlowAffinityMix64 (proto +64 0x94D049BB133111EB)) in
  let hash := if negb (fragment_key =? 0)
              then Z.lxor hash (deviceFlowAffinityMix64 (fragment_key +64 0xDB4F0B9175AE2165))
              else hash in
  deviceFlowAffinityMix64 hash.

Definition deviceFlowAffinityFoldIpv6Address (packet : list Z) (address : Z) : outcome Z :=
  a ← GET_BE32 packet address;
  b ← GET_BE32 packet (address + 4);
  c ← GET_BE32 packet (address + 8);
  d ← GET_BE32 packet (address + 12);
  mret (Z.lxor (Z.lxor (Z.lxor a b) c) d).

Record device_flow_affinity_tuple_t : Type := mk_tuple {
  src : Z;
  dst : Z;
  fragment_key : Z;
  src_port : Z;
  dst_port : Z;
  proto : Z
}.

(** The tuple written through [out], [None] when the function returns false
    (nothing was written then); the caller passes a zeroed tuple. *)
Definition deviceFlowAffinityParseIpv4 (packet : list Z) (length : Z)
  : outcome (option device_flow_affinity_tuple_t) :=
  if length <? 20 then mret None else
  b0 ← load8 packet 0;
  let ip_header_len := Z.land b0 0x0F *32 4 in
  if (ip_header_len <? 20) || (ip_header_len >? 60) || (length <? ip_header_len)
  then mret None else
  ip_total_len ← GET_BE16 packet 2;
  if (ip_total_len <? ip_header_len) || (ip_total_len >? length) then mret None else
  proto ← load8 packet 9;
  src ← GET_BE32 packet 12;
  dst ← GET_BE32 packet 16;
  fragment_field ← GET_BE16 packet 6;
  if negb (Z.land fragment_field
             (Z.lor kDeviceFlowAffinityIpv4MoreFragments kDeviceFlowAffinityIpv4OffsetMask) =? 0)
  then
    ident ← GET_BE16 packet 4;
    mret (Some (mk_tuple src dst (Z.lor 0x10000 ident) 0 0 proto))
  else
  let has_ports := (proto =? 6) || (proto =? 17) || (proto =? 132) in
  if has_ports && (ip_total_len >=? (ip_header_len +32 4)) then
    sp ← GET_BE16 packet ip_header_len;
    dp ← GET_BE16 packet (ip_header_len + 2);
    mret (Some (mk_tuple src dst 0 sp dp proto))
  else mret (Some (mk_tuple src dst 0 0 0 proto)).

Definition deviceFlowAffinityParseIpv6 (packet : list Z) (length : Z)
  : outcome (option device_flow_affinity_tuple_t) :=
  if length <? 40 then mret None else
  payload_len ← GET_BE16 packet 4;
  if (payload_len =? 0) || ((payload_len +32 40) >? length) then mret None else
  proto ← load8 packet 6;
  src ← deviceFlowAffinityFoldIpv6Address packet 8;
  dst ← deviceFlowAffinityFoldIpv6Address packet 24;
  let has_ports := (proto =? 6) || (proto =? 17) in
  if has_ports && (payload_len >=? 4) && (length >=? 44) then
    sp ← GET_BE16 packet 40;
    dp ← GET_BE16 packet 42;
    mret (Some (mk_tuple src dst 0 sp dp proto))
  else mret (Some (mk_tuple src dst 0 0 0 proto)).

(** The dispatch on the version nibble [deviceFlowAffinityHash] and
    [deviceFlowWorkerHash] share. *)
Definition parse_packet (packet : list Z) (length : Z)
  : outcome (option device_flow_affinity_tuple_t) :=
  b0 ← load8 packet 0;
  let version := Z.shiftr b0 4 in
  if version =? 4 then deviceFlowAffinityParseIpv4 packet length
  else if version =? 6 then deviceFlowAffinityParseIpv6 packet length
  else mret None.

Definition deviceFlowAffinityHash (packet : option (list Z)) (length : Z) (out_hash : option Z)
  : outcome (bool * option Z) :=
  match packet, out_hash with
  | Some packet, Some _ =>
      if length =? 0 then mret (false, out_hash) else
      parsed ← parse_packet packet length;
      match parsed with
      | None => mret (false, out_hash)
      | Some t => mret (true, Some (deviceFlowAffinityMixTuple
                    (src t) (src_port t) (dst t) (dst_port t) (proto t) (fragment_key t)))
      end
  | _, _ => mret (false, out_hash)
  end.

Definition deviceFlowWorkerMixEndpoint (endpoint : Z) : Z :=
  let endpoint := Z.lxor endpoint (Z.shiftr endpoint 16) in
  let endpoint := endpoint *32 0x85EBCA6B in
  Z.lxor endpoint (Z.shiftr endpoint 13).

Definition deviceFlowWorkerHashTuple (src src_word dst dst_word protocol fragment_key : Z) : Z :=
  let a := deviceFlowWorkerMixEndpoint (Z.lxor src (src_word *32 0x9E3779B1)) in
  let b := deviceFlowWorkerMixEndpoint (Z.lxor dst (dst_word *32 0x9E3779B1)) in
  let hash := Z.lxor (Z.lxor (a +32 b) protocol) fragment_key in
  let hash := hash *32 0x9E3779B1 in
  Z.lxor hash (Z.shiftr hash 16).

Definition deviceFlowWorkerHash (packet : option (list Z)) (length : Z) (out_hash : option Z)
  : outcome (bool * option Z) :=
  match packet, out_hash with
  | Some packet, Some _ =>
      if length =? 0 then mret (false, out_hash) else
      parsed ← parse_packet packet length;
      match parsed with
      | None => mret (false, out_hash)
      | Some t => mret (true, Some (deviceFlowWorkerHashTuple
                    (src t) (src_port t) (dst t) (dst_port t) (proto t) (fragment_key t)))
      end
  | _, _ => mret (false, out_hash)
  end.

Inductive device_opaque_flow_mode_t : Set :=
  | kDeviceOpaqueFlowPrefix
  | kDeviceOpaqueFlowPeer
  | kDeviceOpaqueFlowSpread
  | kDeviceOpaqueFlowAuto.

#[export] Instance flow_mode_eq_dec : EqDecision device_opaque_flow_mode_t.
Proof. solve_decision. Defined.

Definition with_words (t : device_flow_affinity_tuple_t) (sp dp : Z)
  : device_flow_affinity_tuple_t :=
  mk_tuple (src t) (dst t) 0 sp dp (proto t).

(** The IPv4 arm of [deviceReceiveWorkerHash]. *)
Definition receive_tuple4 (packet : list Z) (length : Z) (mode : device_opaque_flow_mode_t)
  : outcome (option device_flow_affinity_tuple_t) :=
  parsed ← deviceFlowAffinityParseIpv4 packet length;
  match parsed with
  | None => mret None
  | Some tuple =>
      if negb (fragment_key tuple =? 0)
      then mret (Some (mk_tuple (src tuple) (dst tuple) 0 (src_port tuple) (dst_port tuple) (proto tuple)))
      else
      let native := (proto tuple =? 6) || (proto tuple =? 17) in
      if negb native && bool_decide (mode = kDeviceOpaqueFlowSpread) then mret None else
      b0 ← load8 packet 0;
      let header := Z.land b0 15 *32 4 in
      if native || bool_decide (mode = kDeviceOpaqueFlowPrefix) then
        total ← GET_BE16 packet 2;
        if total >=? (header +32 4) then
          sp ← GET_BE16 packet header;
          dp ← GET_BE16 packet (header + 2);
          mret (Some (with_words tuple sp dp))
        else mret (Some (with_words tuple 0 0))
      else mret (Some (with_words tuple 0 0))
  end.

(** The IPv6 arm: an exact-length plain TCP or UDP packet with four transport
    bytes. *)
Definition receive_tuple6 (packet : list Z) (length : Z)
  : outcome (option device_flow_affinity_tuple_t) :=
  parsed ← deviceFlowAffinityParseIpv6 packet length;
  match parsed with
  | None => mret None
  | Some tuple =>
      payload_len ← GET_BE16 packet 4;
      if negb ((payload_len +32 40) =? length) then mret None else
      if negb (proto tuple =? 6) && negb (proto tuple =? 17) then mret None else
      if payload_len <? 4 then mret None else
      mret (Some tuple)
  end.

Definition deviceReceiveWorkerHash (packet : option (list Z)) (length : Z)
    (mode : device_opaque_flow_mode_t) (out_hash : option Z) : outcome (bool * option Z) :=
  _ ← assert_ (negb (bool_decide (mode = kDeviceOpaqueFlowAuto)));
  match packet, out_hash with
  | Some packet, Some _ =>
      if length =? 0 then mret (false, out_hash) else
      b0 ← load8 packet 0;
      parsed ← (if Z.shiftr b0 4 =? 6 then receive_tuple6 packet length
                else if Z.shiftr b0 4 =? 4 then receive_tuple4 packet length mode
                else mret None);
      match parsed with
      | None => mret (false, out_hash)
      | Some t => mret (true, Some (deviceFlowWorkerHashTuple
                    (src t) (src_port t) (dst t) (dst_port t) (proto t) 0))
      end
  | _, _ => mret (false, out_hash)
  end.

(** ** What the parsers read

    The fields of an IP packet by position, and which packets are structurally
    sound. *)

Definition version (p : list Z) : Z := byte_at p 0 / 2 ^ 4.
Definition header_length (p : list Z) : Z := byte_at p 0 mod 2 ^ 4 * 4.
Definition fragmented (p : list Z) : bool := negb (be16 p 6 mod 2 ^ 14 =? 0).

(** Bytes of the buffer the packet claims for itself. *)
Definition declared_length (p : list Z) : Z :=
  if version p =? 4 then be16 p 2 else be16 p 4 + 40.

(** The structural test: a known version, a header that fits in the declared
    length, a declared length that fits in the buffer, and an IPv6 payload. *)
Definition well_formed (p : list Z) (length : Z) : bool :=
  if version p =? 4 then
    (20 <=? length) && (20 <=? header_length p) && (header_length p <=? declared_length p) &&
    (declared_length p <=? length)
  else (version p =? 6) && (40 <=? length) && (0 <? be16 p 4) && (declared_length p <=? length).

Definition address6 (p : list Z) (i : Z) : Z :=
  Z.lxor (Z.lxor (Z.lxor (be32 p i) (be32 p (i + 4))) (be32 p (i + 8))) (be32 p (i + 12)).

Definition protocol (p : list Z) : Z := if version p =? 4 then byte_at p 9 else byte_at p 6.
Definition source (p : list Z) : Z := if version p =? 4 then be32 p 12 else address6 p 8.
Definition destination (p : list Z) : Z := if version p =? 4 then be32 p 16 else address6 p 24.

Definition transport_offset (p : list Z) : Z := if version p =? 4 then header_length p else 40.
Definition is_fragment (p : list Z) : bool := (version p =? 4) && fragmented p.

(** TCP, UDP and, over IPv4, SCTP carry ports; the declared length has to cover
    them. *)
Definition carries_ports (p : list Z) : bool :=
  negb (is_fragment p) &&
  ((protocol p =? 6) || (protocol p =? 17) || ((version p =? 4) && (protocol p =? 132))) &&
  (transport_offset p + 4 <=? declared_length p).

Definition source_port (p : list Z) : Z :=
  if carries_ports p then be16 p (transport_offset p) else 0.
Definition destination_port (p : list Z) : Z :=
  if carries_ports p then be16 p (transport_offset p + 2) else 0.
Definition fragment_identity (p : list Z) : Z :=
  if is_fragment p then 2 ^ 16 + be16 p 4 else 0.

Definition tuple_of (p : list Z) : device_flow_affinity_tuple_t :=
  mk_tuple (source p) (destination p) (fragment_identity p) (source_port p) (destination_port p)
    (protocol p).

Section Parsers.
Context (p : list Z) (length : Z).
Context (F : Forall u8 p) (Hl : 0 <= length) (Hfit : length <= zlen p).

Lemma header_wrap : Z.land (byte_at p 0) 15 *32 4 = header_length p.
Proof.
  unfold header_length. change 15 with (Z.ones 4). rewrite Z.land_ones by lia.
  pose proof (Z.mod_pos_bound (byte_at p 0) (2 ^ 4)). apply wrap32_small. word_lia.
Qed.

Lemma header_length_range : 0 <= header_length p <= 60.
Proof. unfold header_length. pose proof (Z.mod_pos_bound (byte_at p 0) (2 ^ 4)). lia. Qed.

Lemma fragment_test :
  negb (Z.land (be16 p 6) (Z.lor kDeviceFlowAffinityIpv4MoreFragments
          kDeviceFlowAffinityIpv4OffsetMask) =? 0) = fragmented p.
Proof.
  unfold fragmented. change (Z.lor _ _) with (Z.ones 14). by rewrite Z.land_ones by lia.
Qed.

Lemma ident_lor : Z.lor 0x10000 (be16 p 4) = 2 ^ 16 + be16 p 4.
Proof. pose proof (be16_u16 p 4 F). apply (lor_add _ _ 16); [lia|word_lia|done]. Qed.

Lemma version_shift : Z.shiftr (byte_at p 0) 4 = version p.
Proof. unfold version. by rewrite Z.shiftr_div_pow2 by lia. Qed.

Lemma parse4_spec :
  version p = 4 ->
  deviceFlowAffinityParseIpv4 p length =
    Ok (if well_formed p length then Some (tuple_of p) else None).
Proof.
  intros V. unfold well_formed, declared_length. rewrite V. change (4 =? 4) with true. cbv iota.
  pose proof header_length_range. pose proof (be16_u16 p 2 F).
  unfold deviceFlowAffinityParseIpv4. destruct (length <? 20) eqn:E1; bool_facts.
  { by replace (20 <=? length) with false by lia. }
  load_step. rewrite header_wrap.
  destruct (_ || _ || _) eqn:E2.
  { replace ((20 <=? length) && _ && _ && _) with false; [done|]. symmetry. lia. }
  bool_facts. load_step.
  destruct (_ || _) eqn:E3.
  { replace ((20 <=? length) && _ && _ && _) with false; [done|]. symmetry. lia. }
  bool_facts. replace ((20 <=? length) && _ && _ && _) with true by (symmetry; lia).
  load_step.
  repeat load_step.
  rewrite fragment_test. unfold tuple_of, source, destination, fragment_identity, source_port,
    destination_port, carries_ports, is_fragment, transport_offset, protocol, declared_length.
  rewrite V. change (4 =? 4) with true. cbv iota. rewrite !andb_true_l.
  destruct (fragmented p).
  - load_step. by rewrite ident_lor.
  - simpl negb. rewrite !andb_true_l, (wrap32_small (header_length p + 4)) by word_lia.
    rewrite Z.geb_leb. destruct (_ && _) eqn:E4; [|done]. bool_facts.
    by repeat load_step.
Qed.

Lemma fold6_ok (i : Z) :
  0 <= i -> i + 16 <= zlen p -> deviceFlowAffinityFoldIpv6Address p i = Ok (address6 p i).
Proof.
  intros. unfold deviceFlowAffinityFoldIpv6Address. by rewrite !GET_BE32_ok by (auto; lia).
Qed.

Lemma parse6_spec :
  version p = 6 ->
  deviceFlowAffinityParseIpv6 p length =
    Ok (if well_formed p length then Some (tuple_of p) else None).
Proof.
  intros V. unfold well_formed, declared_length. rewrite V. change (6 =? 4) with false.
  change (6 =? 6) with true. cbv iota.
  pose proof (be16_u16 p 4 F). unfold deviceFlowAffinityParseIpv6.
  destruct (length <? 40) eqn:E1; bool_facts.
  { by replace (40 <=? length) with false by lia. }
  load_step.
  rewrite (wrap32_small (be16 p 4 + 40)) by word_lia.
  destruct (_ || _) eqn:E2.
  { replace (true && _ && _ && _) with false; [done|]. symmetry. lia. }
  bool_facts. replace (true && _ && _ && _) with true by (unfold u16 in *; lia).
  load_step. rewrite !fold6_ok by lia. step_ok.
  unfold tuple_of, source, destination, fragment_identity, source_port,
    destination_port, carries_ports, is_fragment, transport_offset, protocol, declared_length.
  rewrite V. change (6 =? 4) with false. cbv iota. rewrite !andb_false_l, orb_false_r.
  simpl negb. rewrite !andb_true_l.
  replace (40 + 4 <=? be16 p 4 + 40) with (be16 p 4 >=? 4) by lia.
  replace (_ && _ && (length >=? 44)) with
    (((byte_at p 6 =? 6) || (byte_at p 6 =? 17)) && (be16 p 4 >=? 4)) by lia.
  destruct (_ && _) eqn:E4; [|done]. bool_facts. by repeat load_step.
Qed.

Lemma parse_packet_spec :
  length <> 0 ->
  parse_packet p length = Ok (if well_formed p length then Some (tuple_of p) else None).
Proof.
  intros Hn. unfold parse_packet. load_step. rewrite version_shift.
  destruct (version p =? 4) eqn:E4; [apply Z.eqb_eq in E4; by apply parse4_spec|].
  destruct (version p =? 6) eqn:E6; [apply Z.eqb_eq in E6; by apply parse6_spec|].
  unfold well_formed. by rewrite E4, E6.
Qed.
End Parsers.

(** ** The contract *)

(** What both hashes return for a packet inside its buffer. *)
Lemma hashes_spec (p : list Z) (length c : Z) :
  Forall u8 p -> 0 <= length <= zlen p ->
  let t := tuple_of p in
  let result h := if negb (length =? 0) && well_formed p length then (true, Some h) else (false, Some c) in
  deviceFlowAffinityHash (Some p) length (Some c) =
    Ok (result (deviceFlowAffinityMixTuple (src t) (src_port t) (dst t) (dst_port t) (proto t)
                  (fragment_key t))) /\
  deviceFlowWorkerHash (Some p) length (Some c) =
    Ok (result (deviceFlowWorkerHashTuple (src t) (src_port t) (dst t) (dst_port t) (proto t)
                  (fragment_key t))).
Proof.
  intros F Hl t result. unfold deviceFlowAffinityHash, deviceFlowWorkerHash, result.
  destruct (length =? 0) eqn:E; [done|]. bool_facts.
  rewrite parse_packet_spec by (auto; lia). simpl. by destruct (well_formed p length).
Qed.

Lemma well_formed_extent (p : list Z) (n : Z) :
  well_formed p n = true ->
  20 <= transport_offset p <= declared_length p /\ declared_length p <= n /\
  (version p <> 4 -> version p = 6 /\ 41 <= declared_length p).
Proof.
  unfold well_formed, transport_offset. intros W. destruct (version p =? 4) eqn:V; bool_facts.
  - splits; try lia.
  - unfold declared_length in *. rewrite (proj2 (Z.eqb_neq _ _) V) in *. splits; lia.
Qed.

Lemma well_formed_intro (p : list Z) (n m : Z) :
  well_formed p n = true -> declared_length p <= m -> well_formed p m = true.
Proof.
  intros W Hm. pose proof (well_formed_extent p n W) as (? & ? & H6).
  unfold well_formed in *. destruct (version p =? 4) eqn:V; bool_facts.
  - unfold transport_offset in *. rewrite (proj2 (Z.eqb_eq _ _) V) in *. lia.
  - destruct (H6 V). lia.
Qed.

(** A well-formed packet reads the same from any buffer that starts with it. *)
Lemma declared_extent (p q : list Z) (n : Z) :
  well_formed p n = true ->
  slice 0 (declared_length p) p = slice 0 (declared_length p) q ->
  tuple_of q = tuple_of p /\ declared_length q = declared_length p /\ well_formed q n = true.
Proof.
  intros W E. pose proof (well_formed_extent p n W) as (Ht & Hd & H6).
  assert (forall i, 0 <= i < declared_length p -> byte_at q i = byte_at p i) as B1.
  { intros i Hi. symmetry. apply (byte_at_moved p q 0 0 (declared_length p) i); auto; lia. }
  assert (forall i, 0 <= i -> i + 2 <= declared_length p -> be16 q i = be16 p i) as B2.
  { intros i Hi ?. unfold be16. by rewrite !B1 by lia. }
  assert (forall i, 0 <= i -> i + 4 <= declared_length p -> be32 q i = be32 p i) as B4.
  { intros i Hi ?. unfold be32. by rewrite !B2 by lia. }
  assert (version q = version p) as Ev by (unfold version; by rewrite B1 by lia).
  assert (header_length q = header_length p) as Eh by (unfold header_length; by rewrite B1 by lia).
  assert (declared_length q = declared_length p) as Ed.
  { unfold declared_length at 1 2. rewrite Ev, !B2 by lia. done. }
  assert (transport_offset q = transport_offset p) as Eo by (unfold transport_offset; by rewrite Ev, Eh).
  assert (is_fragment q = is_fragment p) as Ef.
  { unfold is_fragment, fragmented. by rewrite Ev, B2 by lia. }
  assert (protocol q = protocol p) as Ep by (unfold protocol; by rewrite Ev, !B1 by lia).
  assert (carries_ports q = carries_ports p) as Ec.
  { unfold carries_ports. by rewrite Ef, Ep, Ev, Eo, Ed. }
  splits; [|done|].
  - unfold tuple_of. rewrite Ep. f_equal.
    + unfold source, address6. rewrite Ev. destruct (version p =? 4) eqn:V; bool_facts; [|destruct (H6 V)];
        by rewrite !B4 by lia.
    + unfold destination, address6. rewrite Ev.
      destruct (version p =? 4) eqn:V; bool_facts; [|destruct (H6 V)]; by rewrite !B4 by lia.
    + unfold fragment_identity. by rewrite Ef, B2 by lia.
    + unfold source_port. rewrite Ec, Eo. destruct (carries_ports p) eqn:C; [|done].
      unfold carries_ports in C. bool_facts. by rewrite B2 by lia.
    + unfold destination_port. rewrite Ec, Eo. destruct (carries_ports p) eqn:C; [|done].
      unfold carries_ports in C. bool_facts. by rewrite B2 by lia.
  - unfold well_formed in *. rewrite Ev, Eh, Ed, B2 by lia. done.
Qed.


(** ** The two directions of a flow *)

(** [q] travels the flow of [p] the other way: same protocol, addresses and
    ports exchanged, neither of them a fragment.  Header options, lengths and
    everything else may differ. *)
Record opposite (p q : list Z) : Prop := mk_opposite {
  op_protocol : protocol q = protocol p;
  op_source : source q = destination p;
  op_destination : destination q = source p;
  op_source_port : source_port q = destination_port p;
  op_destination_port : destination_port q = source_port p;
  op_whole : is_fragment p = false /\ is_fragment q = false
}.

Lemma mix_tuple_sym (a pa b pb pr f : Z) :
  deviceFlowAffinityMixTuple a pa b pb pr f = deviceFlowAffinityMixTuple b pb a pa pr f.
Proof.
  unfold deviceFlowAffinityMixTuple. cbv zeta.
  generalize (Z.lor (wrap64 (Z.shiftl a 16)) pa) (Z.lor (wrap64 (Z.shiftl b 16)) pb). intros x y.
  replace (if x <? y then x else y) with (if y <? x then y else x) by (repeat split_test; lia).
  replace (if x >? y then x else y) with (if y >? x then y else x) by (repeat split_test; lia).
  done.
Qed.

Lemma worker_tuple_sym (a pa b pb pr f : Z) :
  deviceFlowWorkerHashTuple a pa b pb pr f = deviceFlowWorkerHashTuple b pb a pa pr f.
Proof. unfold deviceFlowWorkerHashTuple. cbv zeta. by rewrite Z.add_comm. Qed.

(** Equivalence: both directions of one flow have one hash.  Two sound
    packets, IPv4 or IPv6, that travel the same flow in opposite directions get
    the same 64-bit identity and the same worker hash, whatever their lengths,
    options and payloads; and all IPv4 fragments of one datagram (addresses,
    protocol and identification agree) get the same hashes as well. *)
Theorem flow_hash_stable (p q : list Z) (n m c : Z) :
  Forall u8 p -> Forall u8 q -> 0 < n <= zlen p -> 0 < m <= zlen q ->
  well_formed p n = true -> well_formed q m = true ->
  opposite p q \/
  (is_fragment p = true /\ is_fragment q = true /\ slice 4 2 p = slice 4 2 q /\
   byte_at p 9 = byte_at q 9 /\ slice 12 8 p = slice 12 8 q) ->
  exists h w, deviceFlowAffinityHash (Some p) n (Some c) = Ok (true, Some h) /\
    deviceFlowAffinityHash (Some q) m (Some c) = Ok (true, Some h) /\
    deviceFlowWorkerHash (Some p) n (Some c) = Ok (true, Some w) /\
    deviceFlowWorkerHash (Some q) m (Some c) = Ok (true, Some w).
Proof.
  intros Fp Fq Hn Hm Wp Wq H. destruct (hashes_spec p n c Fp) as [-> ->]; [lia|].
  destruct (hashes_spec q m c Fq) as [-> ->]; [lia|].
  replace (n =? 0) with false by lia. replace (m =? 0) with false by lia. rewrite Wp, Wq.
  simpl. destruct H as [[-> -> -> -> -> [Hp Hq]]|(Hp & Hq & Hi & Hpr & Ha)].
  - unfold fragment_identity. rewrite Hp, Hq. do 2 eexists. splits; [done| |done|].
    + by rewrite mix_tuple_sym.
    + by rewrite worker_tuple_sym.
  - assert (tuple_of q = tuple_of p) as E.
    { pose proof Hp as Hp'. pose proof Hq as Hq'. unfold is_fragment in Hp', Hq'. bool_facts.
      unfold tuple_of, fragment_identity, source_port, destination_port, carries_ports, source,
        destination, protocol. rewrite Hp, Hq.
      repeat match goal with H : version _ = 4 |- _ => rewrite H; clear H end. simpl.
      assert (be32 q 12 = be32 p 12) as -> by (symmetry; by apply (be32_moved p q 12 12 8 0)).
      assert (be32 q 16 = be32 p 16) as -> by (symmetry; by apply (be32_moved p q 12 12 8 4)).
      assert (be16 q 4 = be16 p 4) as -> by (symmetry; by apply (be16_moved p q 4 4 2 0)).
      by rewrite Hpr. }
    injection E as -> -> -> -> -> ->. eauto 10.
Qed.

(** ** Separation *)

Section Separation.
Implicit Types x y : Z.

Lemma mix_endpoint_range x : 0 <= x < 2 ^ 32 -> 0 <= deviceFlowWorkerMixEndpoint x < 2 ^ 32.
Proof.
  intros Hx. unfold deviceFlowWorkerMixEndpoint. cbv zeta.
  generalize (Z.lxor x (Z.shiftr x 16) * 0x85EBCA6B). intros v. pose proof (wrap32_range v).
  apply lxor_range; [lia|word_lia|]. rewrite Z.shiftr_div_pow2 by lia.
  unfold UINT32_MAX in *. split; [apply Z.div_pos; lia|]. apply Z.div_lt_upper_bound; lia.
Qed.

(** The endpoint mixer is injective on 32-bit words. *)
Lemma mix_endpoint_inj x y :
  0 <= x < 2 ^ 32 -> 0 <= y < 2 ^ 32 ->
  deviceFlowWorkerMixEndpoint x = deviceFlowWorkerMixEndpoint y -> x = y.
Proof.
  intros Hx Hy E. unfold deviceFlowWorkerMixEndpoint in E. cbv zeta in E.
  assert (forall v, 0 <= v < 2 ^ 32 -> 0 <= Z.lxor v (Z.shiftr v 16) < 2 ^ 32) as R.
  { intros v Hv. apply lxor_range; [lia|done|]. rewrite Z.shiftr_div_pow2 by lia.
    split; [apply Z.div_pos; lia|]. apply Z.div_lt_upper_bound; lia. }
  apply xorshift_inj in E; [|lia|apply wrap32_range|apply wrap32_range].
  apply (mul_mod_inj _ _ 0xa5cb9243) in E; [|done|auto|auto].
  apply xorshift_inj in E; lia.
Qed.

Lemma worker_tuple_endpoint x y b protocol key :
  0 <= x < 2 ^ 32 -> 0 <= y < 2 ^ 32 -> 0 <= protocol < 2 ^ 32 -> 0 <= key < 2 ^ 32 ->
  let finish a :=
    let hash := Z.lxor (Z.lxor (deviceFlowWorkerMixEndpoint a +32 b) protocol) key *32 0x9E3779B1 in
    Z.lxor hash (Z.shiftr hash 16) in
  finish x = finish y -> x = y.
Proof.
  intros Hx Hy Hp Hk finish E. unfold finish in E.
  assert (forall a, 0 <= Z.lxor (Z.lxor (a +32 b) protocol) key < 2 ^ 32) as R.
  { intros a. pose proof (wrap32_range (a + b)). unfold UINT32_MAX in *.
    repeat apply lxor_range; lia. }
  apply xorshift_inj in E; [|lia|apply wrap32_range|apply wrap32_range].
  apply (mul_mod_inj _ _ 0xe8b2f51) in E; [|done|auto|auto].
  do 2 apply lxor_cancel_r in E. apply mix_endpoint_inj; [done|done|].
  pose proof (mix_endpoint_range x Hx). pose proof (mix_endpoint_range y Hy).
  unfold wrap32 in E. revert E H H0.
  generalize (deviceFlowWorkerMixEndpoint x) (deviceFlowWorkerMixEndpoint y). intros a a' E ? ?.
  assert ((a - a') mod 2 ^ 32 = 0) as D.
  { replace (a - a') with ((a + b) - (a' + b)) by lia. rewrite Zminus_mod, E, Z.sub_diag. done. }
  apply Z.mod_divide in D as [k D]; [|done]. nia.
Qed.
End Separation.

(** Safety: no endpoint of a flow hides a change of the other.  For one
    fixed far endpoint, protocol and fragment key, two near endpoints that differ
    only in the address or only in the port never have the same worker hash; a
    collision needs both to differ. *)
Theorem worker_hash_separates (src src' word word' dst dst_word protocol key : Z) :
  u32 src -> u32 src' -> u16 word -> u16 word' -> u8 protocol -> u32 key ->
  deviceFlowWorkerHashTuple src word dst dst_word protocol key =
    deviceFlowWorkerHashTuple src' word' dst dst_word protocol key ->
  (src = src' /\ word = word') \/ (src <> src' /\ word <> word').
Proof.
  intros Hs Hs' Hw Hw' Hp Hk E.
  assert (forall s w, u32 s -> 0 <= Z.lxor s (w *32 0x9E3779B1) < 2 ^ 32) as R.
  { intros s w ?. pose proof (wrap32_range (w * 0x9E3779B1)). apply lxor_range; word_lia. }
  apply (worker_tuple_endpoint (Z.lxor src (word *32 0x9E3779B1)) (Z.lxor src' (word' *32 0x9E3779B1)))
    in E; auto; try word_lia.
  assert (src = src' -> word = word') as H1.
  { intros ->. rewrite !(Z.lxor_comm src') in E. apply lxor_cancel_r in E.
    apply (mul_mod_inj _ _ 0xe8b2f51) in E; [done|done|word_lia|word_lia]. }
  assert (word = word' -> src = src') as H2 by (intros ->; by apply lxor_cancel_r in E).
  destruct (Z.eq_dec src src') as [Es|Es]; [left; auto|right]. split; [done|auto].
Qed.

(** ** The receive policy *)

Definition native (p : list Z) : bool := (protocol p =? 6) || (protocol p =? 17).

Definition receive_accepts (p : list Z) (n : Z) (mode : device_opaque_flow_mode_t) : bool :=
  well_formed p n &&
  (if version p =? 4
   then is_fragment p || native p || negb (bool_decide (mode = kDeviceOpaqueFlowSpread))
   else (declared_length p =? n) && native p && (4 <=? be16 p 4)).

(** The endpoint words: the first four payload bytes, or none. *)
Definition has_words (p : list Z) (mode : device_opaque_flow_mode_t) : bool :=
  negb (is_fragment p) &&
  (native p || ((version p =? 4) && bool_decide (mode = kDeviceOpaqueFlowPrefix))) &&
  (transport_offset p + 4 <=? declared_length p).

Definition receive_hash (p : list Z) (mode : device_opaque_flow_mode_t) : Z :=
  deviceFlowWorkerHashTuple
    (source p) (if has_words p mode then be16 p (transport_offset p) else 0)
    (destination p) (if has_words p mode then be16 p (transport_offset p + 2) else 0)
    (protocol p) 0.

Section Receive.
Context (p : list Z) (n : Z) (mode : device_opaque_flow_mode_t).
Context (F : Forall u8 p) (Hn : 0 <= n <= zlen p).

(** The hash of a tuple as the receive policy computes it. *)
Definition tuple_hash (t : device_flow_affinity_tuple_t) : Z :=
  deviceFlowWorkerHashTuple (src t) (src_port t) (dst t) (dst_port t) (proto t) 0.

Lemma receive4_spec :
  version p = 4 ->
  exists r, receive_tuple4 p n mode = Ok r /\
    tuple_hash <$> r = (if receive_accepts p n mode then Some (receive_hash p mode) else None).
Proof.
  intros V. unfold receive_tuple4, receive_accepts. rewrite parse4_spec by (auto; lia).
  destruct (well_formed p n) eqn:W; step_ok; [|by eexists].
  apply well_formed_extent in W as (Ht & Hd & _). pose proof (be16_u16 p 2 F).
  unfold transport_offset, declared_length in Ht, Hd. unfold receive_hash, has_words.
  unfold transport_offset, declared_length. cbn [fragment_key tuple_of proto].
  unfold fragment_identity. rewrite V in *. change (4 =? 4) with true in *. cbv iota in *.
  rewrite !andb_true_l. pose proof (be16_u16 p 4 F).
  destruct (is_fragment p) eqn:Ef.
  { replace (2 ^ 16 + be16 p 4 =? 0) with false by word_lia. cbn [negb orb andb].
    eexists. split; [done|]. cbn -[deviceFlowWorkerHashTuple source destination protocol].
    unfold source_port, destination_port, carries_ports. by rewrite Ef. }
  cbn [negb orb andb Z.eqb]. change ((protocol p =? 6) || (protocol p =? 17)) with (native p).
  destruct (negb (native p) && _) eqn:E1.
  { eexists. split; [done|]. by destruct (native p), (bool_decide (mode = kDeviceOpaqueFlowSpread)). }
  assert (native p || negb (bool_decide (mode = kDeviceOpaqueFlowSpread)) = true) as ->.
  { by destruct (native p), (bool_decide (mode = kDeviceOpaqueFlowSpread)). }
  rewrite load8_ok by lia. step_ok. rewrite header_wrap.
  destruct (native p || _) eqn:E2; [|by eexists].
  rewrite (GET_BE16_ok p 2) by (auto; lia). step_ok. pose proof (header_length_range p).
  rewrite wrap32_small, Z.geb_leb by word_lia. rewrite andb_true_l.
  destruct (header_length p + 4 <=? be16 p 2) eqn:E3; [|by eexists]. bool_facts.
  rewrite !GET_BE16_ok by (auto; lia). by eexists.
Qed.

Lemma receive6_spec :
  version p = 6 ->
  exists r, receive_tuple6 p n = Ok r /\
    tuple_hash <$> r = (if receive_accepts p n mode then Some (receive_hash p mode) else None).
Proof.
  intros V. unfold receive_tuple6, receive_accepts. rewrite parse6_spec by (auto; lia).
  destruct (well_formed p n) eqn:W; step_ok; [|by eexists].
  apply well_formed_extent in W as (Ht & Hd & _). pose proof (be16_u16 p 4 F).
  unfold transport_offset, declared_length in Ht, Hd. unfold receive_hash, has_words.
  unfold transport_offset, declared_length. rewrite V in *. change (6 =? 4) with false in *.
  cbv iota in *. rewrite GET_BE16_ok by (auto; lia). step_ok.
  rewrite wrap32_small by word_lia. cbn [proto tuple_of]. rewrite andb_true_l.
  destruct (be16 p 4 + 40 =? n) eqn:E1; [|by eexists]. cbn [negb andb].
  rewrite <- negb_orb. change ((protocol p =? 6) || (protocol p =? 17)) with (native p).
  destruct (native p) eqn:E2; [|by eexists]. cbn [negb andb orb].
  destruct (be16 p 4 <? 4) eqn:E3; bool_facts.
  { replace (4 <=? be16 p 4) with false by lia. by eexists. }
  replace (4 <=? be16 p 4) with true by lia. eexists. split; [done|]. cbn [fmap option_fmap option_map].
  unfold tuple_hash. cbn [tuple_of src dst src_port dst_port proto].
  unfold source_port, destination_port, carries_ports, transport_offset, declared_length, is_fragment.
  rewrite V. change (6 =? 4) with false. rewrite !andb_false_l. cbv iota. rewrite orb_false_r.
  unfold native in E2. by rewrite E2.
Qed.
End Receive.

Lemma receive_spec (p : list Z) (n c : Z) (mode : device_opaque_flow_mode_t) :
  Forall u8 p -> 0 <= n <= zlen p -> mode <> kDeviceOpaqueFlowAuto ->
  deviceReceiveWorkerHash (Some p) n mode (Some c) =
    Ok (if negb (n =? 0) && receive_accepts p n mode then (true, Some (receive_hash p mode))
        else (false, Some c)).
Proof.
  intros F Hn Hm. unfold deviceReceiveWorkerHash. rewrite assert_bind by (by rewrite bool_decide_eq_false_2).
  destruct (n =? 0) eqn:E0; [done|]. bool_facts. rewrite load8_ok by lia. step_ok.
  rewrite version_shift. cbn [negb andb].
  destruct (version p =? 6) eqn:E6; bool_facts; [|destruct (version p =? 4) eqn:E4; bool_facts].
  - destruct (receive6_spec p n mode F Hn E6) as (r & -> & E). step_ok.
    destruct r as [t|], (receive_accepts p n mode); try done. by injection E as <-.
  - destruct (receive4_spec p n mode F Hn E4) as (r & -> & E). step_ok.
    destruct r as [t|], (receive_accepts p n mode); try done. by injection E as <-.
  - unfold receive_accepts, well_formed.
    by rewrite (proj2 (Z.eqb_neq _ _) E6), (proj2 (Z.eqb_neq _ _) E4).
Qed.

(** ** Concrete packets *)

(** A UDP datagram 10.0.0.1:1234 -> 10.0.0.2:53, and a longer answer with IP
    options. *)
Definition demo_query : list Z :=
  [69; 0; 0; 28; 0; 1; 0; 0; 64; 17; 0; 0; 10; 0; 0; 1; 10; 0; 0; 2; 4; 210; 0; 53; 0; 8; 0; 0].
Definition demo_answer : list Z :=
  [70; 0; 0; 34; 7; 7; 64; 0; 61; 17; 0; 0; 10; 0; 0; 2; 10; 0; 0; 1; 1; 1; 1; 0;
   0; 53; 4; 210; 0; 10; 0; 0; 97; 98].


Lemma flow_hash_stable_witness :
  exists h w, deviceFlowAffinityHash (Some demo_query) 28 (Some 0) = Ok (true, Some h) /\
    deviceFlowAffinityHash (Some demo_answer) 34 (Some 0) = Ok (true, Some h) /\
    deviceFlowWorkerHash (Some demo_query) 28 (Some 0) = Ok (true, Some w) /\
    deviceFlowWorkerHash (Some demo_answer) 34 (Some 0) = Ok (true, Some w).
Proof.
  apply (flow_hash_stable demo_query demo_answer 28 34 0).
  - concrete.
  - concrete.
  - concrete.
  - concrete.
  - reflexivity.
  - reflexivity.
  - left. split; vm_compute; auto.
Defined.

Lemma worker_hash_separates_witness :
  deviceFlowWorkerHashTuple 167772161 1234 167772162 53 17 0 = 
    deviceFlowWorkerHashTuple 167772161 1234 167772162 53 17 0 /\
  ((167772161 = 167772161 /\ 1234 = 1234) \/ (167772161 <> 167772161 /\ 1234 <> 1234)).
Proof.
  split; [reflexivity|].
  apply (worker_hash_separates 167772161 167772161 1234 1234 167772162 53 17 0); concrete.
Defined.
