(* ===== verification/PacketChecksum.v ===== *)
(** * Header checksums of device packets ([ww/devices/device_packet_checksum_internal.h],
    [ww/devices/device_packet_checksum.c])

    The devices check and rewrite the checksum of an IPv4 header word by word.
    The arithmetic is compared with the definition of the Internet checksum in
    [Checksum]. *)

From Stdlib Require Import ZArith Lia.
From stdpp Require Import base numbers option list.
From S2P Require Import Prelude ShiftBuffer Endian Checksum.
Open Scope Z_scope.
Open Scope word_scope.

(** [for (i = 0; i < header_len; i += 2) sum += GET_BE16(packet + i)] *)
Fixpoint header_sum_loop (fuel : nat) (packet : list Z) (header_len i sum : Z) : outcome Z :=
  match fuel with
  | O => Fail NotModelled
  | S fuel' =>
      if i <? header_len then
        w ← GET_BE16 packet i;
        header_sum_loop fuel' packet header_len (i +32 2) (sum +32 w)
      else mret sum
  end.

(** The carries are folded by the loop [while ((sum >> 16) != 0)]. *)
Definition deviceIpv4HeaderChecksum (packet : list Z) (header_len : Z) : outcome Z :=
  sum ← header_sum_loop (S (Z.to_nat header_len)) packet header_len 0 0;
  sum ← fold32_loop kFoldFuel sum;
  mret (wrap16 (Z.lnot sum)).

Definition deviceIpv4HeaderChecksumValid (packet : list Z) (header_len : Z) : outcome bool :=
  c ← deviceIpv4HeaderChecksum packet header_len;
  mret (c =? 0).

(** The new bytes of the packet, [None] when the function returns false. *)
Definition deviceIpv4NormalizeHeaderChecksum (packet : option (list Z)) (length : Z)
  : outcome (option (list Z)) :=
  match packet with
  | None => mret None
  | Some packet =>
      if length <? 20 then mret None else
      b0 ← load8 packet 0;
      if negb (Z.shiftr b0 4 =? 4) then mret None else
      let header_len := Z.land b0 0x0F *32 4 in
      if (header_len <? 20) || (header_len >? 60) || (header_len >? length) then mret None else
      total ← GET_BE16 packet 2;
      if negb (total =? length) then mret None else
      packet ← PUT_BE16 packet 10 0;
      c ← deviceIpv4HeaderChecksum packet header_len;
      packet ← PUT_BE16 packet 10 c;
      mret (Some packet)
  end.

(** ** The sum of a header *)

(** The one's complement checksum of the first [n] bytes. *)
Definition header_checksum (p : list Z) (n : Z) : Z := 65535 - ones_sum (words_be (slice 0 n p)).

Definition header_valid (p : list Z) (n : Z) : Prop := ones_sum (words_be (slice 0 n p)) = 65535.

Lemma u8_bytes (l : list Z) : Forall u8 l -> Forall is_byte l.
Proof. intros F. eapply Forall_impl; [exact F|]. unfold u8, UINT8_MAX, is_byte. simpl. lia. Qed.

Lemma wsum_slice_step (p : list Z) (i n : Z) :
  0 <= i -> 2 <= n -> i + n <= zlen p ->
  wsum (slice i n p) = be16 p i + wsum (slice (i + 2) (n - 2) p).
Proof.
  intros Hi Hn Hfit. rewrite slice_cons, slice_cons by lia.
  replace (i + 1 + 1) with (i + 2) by lia. replace (n - 1 - 1) with (n - 2) by lia. done.
Qed.

Lemma wsum_bound (l : list Z) : Forall u8 l -> 0 <= wsum l <= 65535 * zlen l.
Proof.
  intros F. assert (forall n l, (length l <= n)%nat -> Forall u8 l -> 0 <= wsum l <= 65535 * zlen l) as G.
  { clear. induction n as [|n IH]; intros l Hl F.
    - destruct l; [done|simpl in Hl; lia].
    - destruct l as [|b0 [|b1 l]]; [done| |].
      + apply Forall_cons in F as [F _]. unfold wsum, zlen. simpl. word_lia.
      + apply Forall_cons in F as [F0 F]. apply Forall_cons in F as [F1 F].
        specialize (IH l ltac:(simpl in Hl; lia) F). rewrite !zlen_cons.
        change (wsum (b0 :: b1 :: l)) with (b0 * 256 + b1 + wsum l). word_lia. }
  by apply (G (length l)).
Qed.

Section Header.
Context (p : list Z) (n : Z) (F : Forall u8 p).
Context (Hn : 0 <= n <= 60) (Heven : n mod 2 = 0) (Hfit : n <= zlen p).

Lemma header_sum_spec (fuel : nat) : forall i s,
  0 <= i <= n -> i mod 2 = 0 -> n - i < Z.of_nat fuel -> 0 <= s -> s + 65535 * (n - i) <= UINT32_MAX ->
  header_sum_loop fuel p n i s = Ok (s + wsum (slice i (n - i) p)).
Proof.
  induction fuel as [|fuel IH]; intros i s Hi Hm Hf Hs Hb; [lia|]. cbn [header_sum_loop].
  destruct (i <? n) eqn:E; bool_facts.
  - assert (i + 2 <= n) as H2.
    { pose proof (Z.div_mod n 2). pose proof (Z.div_mod i 2). lia. }
    load_step. pose proof (be16_u16 p i F). unfold u16, UINT16_MAX in *.
    rewrite (wrap32_small (i + 2)), (wrap32_small (s + be16 p i)) by (unfold UINT32_MAX in *; lia).
    rewrite IH; [| lia| |lia|lia|lia].
    + rewrite (wsum_slice_step p i) by lia.
      replace (n - (i + 2)) with (n - i - 2) by lia. f_equal. lia.
    + rewrite Z.add_mod, Hm by lia. done.
  - replace (n - i) with 0 by lia. rewrite slice_zero. unfold wsum. simpl. by rewrite Z.add_0_r.
Qed.

Lemma header_checksum_spec : deviceIpv4HeaderChecksum p n = Ok (header_checksum p n).
Proof.
  unfold deviceIpv4HeaderChecksum. rewrite header_sum_spec by (done || unfold UINT32_MAX; lia).
  step_ok. rewrite Z.add_0_l, Z.sub_0_r. pose proof (wsum_bound (slice 0 n p)) as B.
  rewrite zlen_slice in B by lia. specialize (B (Forall_slice _ _ _ _ F)).
  rewrite fold32_same by (unfold UINT32_MAX; lia).
  destruct (fold_loop_spec 16 kFoldFuel (wsum (slice 0 n p))) as (y & Ey & Hy & Cy);
    [by left|unfold UINT64_MAX; lia|apply fold_bound_16; unfold UINT64_MAX; lia|].
  change (Z.ones 16) with UINT16_MAX in Ey. rewrite Ey. step_ok. change (2 ^ 16) with 65536 in Hy.
  unfold header_checksum. rewrite ones_sum_words by (apply u8_bytes; by apply Forall_slice).
  f_equal. rewrite <- (lnot_low (rep (wsum (slice 0 n p)))) by (apply rep_range).
  rewrite <- (ceq_rep _ _ Cy), (rep_small y) by lia. unfold wrap16. change 65535 with (Z.ones 16).
  by rewrite Z.land_ones by lia.
Qed.

Lemma header_valid_spec :
  exists o, deviceIpv4HeaderChecksumValid p n = Ok o /\ (o = true <-> header_valid p n).
Proof.
  unfold deviceIpv4HeaderChecksumValid. rewrite header_checksum_spec. step_ok.
  eexists. split; [done|]. rewrite Z.eqb_eq. unfold header_checksum, header_valid. lia.
Qed.
End Header.

(** ** Writing the field *)

(** A big-endian field reads back what was stored, and only its bytes change. *)
Lemma be16_stored (l : list Z) (i v : Z) :
  0 <= i -> i + 2 <= zlen l -> be16 (splice_at l i (be16_bytes v)) i = v mod 2 ^ 16.
Proof.
  intros Hi Hfit. pose proof (slice_splice_same l i (be16_bytes v) Hi Hfit) as E.
  change (zlen (be16_bytes v)) with 2 in E.
  rewrite slice_bytes2 in E by (rewrite ?zlen_splice_at; auto). injection E as E0 E1.
  unfold be16. rewrite E0, E1. change (2 ^ 16) with (2 ^ 8 * 2 ^ 8).
  rewrite (Z.rem_mul_r v (2 ^ 8)) by lia. lia.
Qed.

(** The sum of a header around its checksum field. *)
Lemma wsum_around (p : list Z) (n : Z) :
  20 <= n -> n <= zlen p ->
  wsum (slice 0 n p) = wsum (slice 0 10 p) + be16 p 10 + wsum (slice 12 (n - 12) p).
Proof.
  intros Hn Hfit. replace n with (10 + (n - 10)) at 1 by lia. rewrite slice_split by lia.
  rewrite wsum_app.
  - rewrite Z.add_0_l, (wsum_slice_step p 10) by lia.
    replace (n - 10 - 2) with (n - 12) by lia. change (10 + 2) with 12. lia.
  - exists 5%nat. pose proof (zlen_slice 0 10 p). unfold zlen in *. lia.
Qed.

Lemma rep_complement (s : Z) : 0 <= s -> rep (s + (65535 - rep s)) = 65535.
Proof.
  intros Hs. pose proof (rep_range s). destruct (rep_ceq s Hs) as (_ & _ & M & Z0).
  assert (ceq (s + (65535 - rep s)) 65535) as C.
  { unfold ceq. splits; try lia.
    replace (s + (65535 - rep s)) with ((s - rep s) + 1 * 65535) by lia.
    rewrite Z.mod_add by lia. rewrite Zminus_mod, M, Z.sub_diag. done. }
  rewrite (ceq_rep _ _ C). by rewrite rep_small by lia.
Qed.

Section Written.
Context (p : list Z) (n : Z) (F : Forall u8 p) (Hn : 20 <= n <= 60) (Hfit : n <= zlen p).

Definition cleared : list Z := splice_at p 10 (be16_bytes 0).
Definition rewritten : list Z := splice_at cleared 10 (be16_bytes (header_checksum cleared n)).

Lemma cleared_u8 : Forall u8 cleared.
Proof. apply Forall_splice_at; auto. apply be16_bytes_u8. Qed.

Lemma zlen_cleared : zlen cleared = zlen p.
Proof. apply zlen_splice_at; [lia|]. change (zlen (be16_bytes 0)) with 2. lia. Qed.

Lemma zlen_rewritten : zlen rewritten = zlen p.
Proof.
  unfold rewritten. rewrite zlen_splice_at; [apply zlen_cleared|lia|].
  rewrite zlen_cleared. change (zlen (be16_bytes _)) with 2. lia.
Qed.

Lemma rewritten_u8 : Forall u8 rewritten.
Proof. apply Forall_splice_at; [apply cleared_u8|apply be16_bytes_u8]. Qed.

(** A header whose field was cleared and filled in with the checksum of the rest
    is valid. *)
Lemma rewritten_valid : header_valid rewritten n.
Proof.
  unfold header_valid. rewrite ones_sum_words by (apply u8_bytes, Forall_slice, rewritten_u8).
  rewrite wsum_around by (rewrite ?zlen_rewritten; lia). unfold rewritten.
  assert (10 + zlen (be16_bytes (header_checksum cleared n)) <= zlen cleared) as Hw
    by (rewrite zlen_cleared; change (zlen (be16_bytes _)) with 2; lia).
  rewrite be16_stored by (rewrite ?zlen_cleared; lia).
  rewrite slice_splice_before, slice_splice_after by (rewrite ?zlen_be16_bytes; auto; lia).
  unfold header_checksum. rewrite ones_sum_words by (apply u8_bytes, Forall_slice, cleared_u8).
  pose proof (rep_range (wsum (slice 0 n cleared))) as R. rewrite (Z.mod_small (65535 - _)) by lia.
  rewrite (wsum_around cleared n) by (rewrite ?zlen_cleared; lia).
  assert (be16 cleared 10 = 0) as -> by (unfold cleared; by rewrite be16_stored by lia).
  rewrite Z.add_0_r, <- Z.add_assoc, (Z.add_comm (65535 - _)), Z.add_assoc.
  apply rep_complement. pose proof (wsum_bound (slice 0 10 cleared)) as B1.
  pose proof (wsum_bound (slice 12 (n - 12) cleared)) as B2.
  specialize (B1 (Forall_slice _ _ _ _ cleared_u8)). specialize (B2 (Forall_slice _ _ _ _ cleared_u8)). lia.
Qed.

(** The code that does it. *)
Lemma rewrite_checksum_ok :
  n mod 2 = 0 ->
  (q ← PUT_BE16 p 10 0; c ← deviceIpv4HeaderChecksum q n; PUT_BE16 q 10 c) = Ok rewritten.
Proof.
  intros Heven. rewrite PUT_BE16_ok by lia. step_ok. change (splice_at p 10 (be16_bytes 0)) with cleared.
  rewrite header_checksum_spec by (rewrite ?zlen_cleared; auto using cleared_u8; lia). step_ok.
  by rewrite PUT_BE16_ok by (rewrite ?zlen_cleared; lia).
Qed.
End Written.

(** Round trip: rewriting the header checksum of a sound IPv4 packet leaves
    every other byte alone and makes the header pass the validity check; a packet
    that is not sound is refused without a change. *)
Theorem normalize_header_valid (p : list Z) (n : Z) :
  Forall u8 p -> 0 <= n <= zlen p ->
  let h := byte_at p 0 mod 2 ^ 4 * 4 in
  exists r, deviceIpv4NormalizeHeaderChecksum (Some p) n = Ok r /\
    match r with
    | Some q => 20 <= n /\ byte_at p 0 / 2 ^ 4 = 4 /\ 20 <= h <= n /\ be16 p 2 = n /\
        slice 0 10 q = slice 0 10 p /\ slice 12 (zlen p - 12) q = slice 12 (zlen p - 12) p /\
        zlen q = zlen p /\ deviceIpv4HeaderChecksumValid q h = Ok true
    | None => ~ (20 <= n /\ byte_at p 0 / 2 ^ 4 = 4 /\ 20 <= h <= n /\ be16 p 2 = n)
    end.
Proof.
  intros F Hn h. unfold deviceIpv4NormalizeHeaderChecksum.
  destruct (n <? 20) eqn:E1; bool_facts; [eexists; split; [done|intros (? & ? & ? & ?); lia]|].
  rewrite (load8_ok p 0) by lia. step_ok. rewrite Z.shiftr_div_pow2 by lia.
  assert (Z.land (byte_at p 0) 15 *32 4 = h) as ->.
  { change 15 with (Z.ones 4). rewrite Z.land_ones by lia. unfold h.
    pose proof (Z.mod_pos_bound (byte_at p 0) (2 ^ 4)). apply wrap32_small. word_lia. }
  assert (0 <= h <= 60 /\ h mod 2 = 0) as [Hh Heven].
  { unfold h. pose proof (Z.mod_pos_bound (byte_at p 0) (2 ^ 4)). split; [lia|].
    rewrite Z.mul_mod by lia. change (4 mod 2) with 0. by rewrite Z.mul_0_r. }
  clearbody h. destruct (byte_at p 0 / 2 ^ 4 =? 4) eqn:E2; cbn [negb]; bool_facts;
    [|eexists; split; [done|intros (? & ? & ? & ?); lia]].
  destruct (_ || _ || _) eqn:E3; [eexists; split; [done|intros (? & ? & ? & ?); lia]|]. bool_facts.
  rewrite (GET_BE16_ok p 2) by (auto; lia). step_ok.
  destruct (be16 p 2 =? n) eqn:E4; cbn [negb]; bool_facts; [|eexists; split; [done|intros (? & ? & ? & ?); lia]].
  pose proof (rewrite_checksum_ok p h F ltac:(lia) ltac:(lia) Heven) as R.
  apply bind_Ok in R as (q & -> & R). step_ok. apply bind_Ok in R as (ck & -> & R). step_ok.
  rewrite R. step_ok. eexists. split; [done|].
  pose proof (zlen_cleared p h ltac:(lia) ltac:(lia)) as Zc. 
  assert (10 + zlen (be16_bytes (header_checksum (cleared p) h)) <= zlen (cleared p)) as Hw
    by (rewrite Zc; change (zlen (be16_bytes _)) with 2; lia).
  assert (10 + zlen (be16_bytes 0) <= zlen p) as Hw0 by (change (zlen (be16_bytes _)) with 2; lia).
  cbv beta iota. splits; try lia.
  - unfold rewritten. rewrite slice_splice_before by (rewrite ?zlen_be16_bytes; auto; lia). unfold cleared.
    by rewrite slice_splice_before by (rewrite ?zlen_be16_bytes; auto; lia).
  - unfold rewritten. rewrite slice_splice_after by (rewrite ?zlen_be16_bytes; auto; lia). unfold cleared.
    by rewrite slice_splice_after by (rewrite ?zlen_be16_bytes; auto; lia).
  - apply (zlen_rewritten p h); lia.
  - destruct (header_valid_spec (rewritten p h) h) as (o & -> & Ho); auto.
    + by apply rewritten_u8.
    + rewrite (zlen_rewritten p h); lia.
    + f_equal. apply Ho. apply rewritten_valid; auto; lia.
Qed.

Lemma normalize_header_valid_witness :
  let p := [69; 0; 0; 20; 0; 1; 0; 0; 64; 17; 9; 9; 10; 0; 0; 1; 10; 0; 0; 2] in
  exists r, deviceIpv4NormalizeHeaderChecksum (Some p) 20 = Ok (Some r) /\
    deviceIpv4HeaderChecksumValid r 20 = Ok true.
Proof.
  intros p. destruct (normalize_header_valid p 20) as ([q|] & E & H).
  - concrete.
  - concrete.
  - exists q. split; [exact E|]. apply H.
  - discriminate E.
Defined.
