(* ===== verification/PacketView.v ===== *)
(** * Views of IPv4 packets ([ww/net/ipv4_packet_view.h], [ipv4_packet_view.c])

    Parsing of a complete IPv4 packet and of its TCP or UDP header into offsets
    and lengths.  A packet is the list of bytes at the pointer, and a read
    outside it faults.  Fields are loaded from the wire layout of the headers and
    converted by the stack's byte order functions ([Checksum.NetOrder]). *)

From Stdlib Require Import ZArith Lia.
From stdpp Require Import base numbers option list.
From S2P Require Import Prelude ShiftBuffer Endian Checksum.
Open Scope Z_scope.
Open Scope word_scope.

(** ** The headers on the wire *)

Definition IP_HLEN : Z := 20.
Definition IP_HLEN_MAX : Z := 60.
Definition TCP_HLEN : Z := 20.
Definition UDP_HLEN : Z := 8.
Definition ICMP_HLEN : Z := 8.
Definition IP_DF : Z := 0x4000.
Definition IP_MF : Z := 0x2000.
Definition IP_OFFMASK : Z := 0x1fff.
Definition IP_PROTO_ICMP : Z := 1.
Definition IP_PROTO_TCP : Z := 6.
Definition IP_PROTO_UDP : Z := 17.
Definition TCP_FIN : Z := 0x01.
Definition TCP_SYN : Z := 0x02.
Definition TCP_ECE : Z := 0x40.
Definition TCP_CWR : Z := 0x80.

Record ipv4_packet_view_t := mk_view {
  source_address : Z;
  destination_address : Z;
  tcp_sequence : Z;
  tcp_acknowledgment : Z;
  tcp_sequence_span : Z;
  ip_total_length : Z;
  ip_header_length : Z;
  transport_offset : Z;
  transport_length : Z;
  transport_header_length : Z;
  payload_offset : Z;
  payload_length : Z;
  fragment_state : Z;
  fragment_offset : Z;
  source_port : Z;
  destination_port : Z;
  ip_identification : Z;
  udp_datagram_length : Z;
  protocol : Z;
  ttl : Z;
  tcp_flags : Z;
  more_fragments : bool;
  fragmented : bool
}.

Definition zero_view : ipv4_packet_view_t :=
  mk_view 0 0 0 0 0 0 0 0 0 0 0 0 0 0 0 0 0 0 0 0 0 false false.

(** [*p] for a pointer that may be [NULL]. *)
Definition through {A} (p : option A) : outcome A :=
  match p with Some a => Ok a | None => Fail MemoryFault end.

Section Code.
Context `{NetOrder}.

(** A 16-bit or 32-bit field in host order. *)
Definition load_ntohs (p : list Z) (i : Z) : outcome Z :=
  v ← wendianLoad16 p i; mret (lwip_ntohs v).
Definition load_ntohl (p : list Z) (i : Z) : outcome Z :=
  v ← wendianLoad32 p i; mret (lwip_ntohl v).

(** [TCPH_HDRLEN_BYTES] of the TCP header at [i]. *)
Definition TCPH_HDRLEN_BYTES (p : list Z) (i : Z) : outcome Z :=
  v ← load_ntohs p (i + 12);
  mret (wrap8 (Z.shiftl (wrap16 (Z.shiftr v 12)) 2)).

(** The returned view is what [*view] holds afterwards. *)
Definition ipv4packetviewParse (packet : option (list Z)) (available_length : Z)
    (view : option ipv4_packet_view_t) : outcome (bool * option ipv4_packet_view_t) :=
  match packet, view with
  | Some packet, Some _ =>
      if available_length <? IP_HLEN then mret (false, view) else
      v_hl ← load8 packet 0;
      if negb (Z.shiftr v_hl 4 =? 4) then mret (false, view) else
      let ip_header_length := wrap8 (Z.land v_hl 0x0f * 4) in
      ip_total_length ← load_ntohs packet 2;
      if (ip_header_length <? IP_HLEN) || (ip_header_length >? IP_HLEN_MAX)
         || (ip_header_length >? available_length) || (ip_total_length <? ip_header_length)
         || (ip_total_length >? available_length)
      then mret (false, view) else
      fragment_state ← load_ntohs packet 6;
      source_address ← wendianLoad32 packet 12;
      destination_address ← wendianLoad32 packet 16;
      ip_identification ← load_ntohs packet 4;
      protocol ← load8 packet 9;
      ttl ← load8 packet 8;
      let transport_length := wrap16 (ip_total_length - ip_header_length) in
      mret (true, Some (mk_view source_address destination_address 0 0 0
        ip_total_length ip_header_length ip_header_length transport_length 0
        ip_header_length transport_length fragment_state
        (wrap16 (Z.land fragment_state IP_OFFMASK)) 0 0 ip_identification 0 protocol ttl 0
        (negb (Z.land fragment_state IP_MF =? 0))
        (negb (Z.land fragment_state (Z.lor IP_MF IP_OFFMASK) =? 0))))
  | _, _ => mret (false, view)
  end.

Definition ipv4packetviewParseTcp (packet : option (list Z)) (available_length : Z)
    (view : option ipv4_packet_view_t) : outcome (bool * option ipv4_packet_view_t) :=
  '(ok, parsed) ← ipv4packetviewParse packet available_length (Some zero_view);
  parsed ← through parsed;
  if negb ok || negb (protocol parsed =? IP_PROTO_TCP) || negb (fragment_offset parsed =? 0)
     || (transport_length parsed <? TCP_HLEN)
  then mret (false, view) else
  packet ← through packet;
  let tcpheader := transport_offset parsed in
  tcp_header_length ← TCPH_HDRLEN_BYTES packet tcpheader;
  if (tcp_header_length <? TCP_HLEN) || (tcp_header_length >? transport_length parsed)
  then mret (false, view) else
  let payload_length := wrap16 (transport_length parsed - tcp_header_length) in
  source_port ← load_ntohs packet tcpheader;
  destination_port ← load_ntohs packet (tcpheader + 2);
  tcp_sequence ← load_ntohl packet (tcpheader + 4);
  tcp_acknowledgment ← load_ntohl packet (tcpheader + 8);
  hdrlen_rsvd_flags ← load_ntohs packet (tcpheader + 12);
  let tcp_flags := wrap8 (Z.land hdrlen_rsvd_flags 0x00FF) in
  let tcp_sequence_span :=
    payload_length +32 (if negb (Z.land tcp_flags TCP_SYN =? 0) then 1 else 0)
      +32 (if negb (Z.land tcp_flags TCP_FIN =? 0) then 1 else 0) in
  _ ← through view;
  mret (true, Some (mk_view (source_address parsed) (destination_address parsed)
    tcp_sequence tcp_acknowledgment tcp_sequence_span
    (ip_total_length parsed) (ip_header_length parsed) tcpheader (transport_length parsed)
    tcp_header_length (wrap16 (tcpheader + tcp_header_length)) payload_length
    (fragment_state parsed) (fragment_offset parsed) source_port destination_port
    (ip_identification parsed) (udp_datagram_length parsed) (protocol parsed) (ttl parsed)
    tcp_flags (more_fragments parsed) (fragmented parsed))).

Definition ipv4packetviewParseUdp (packet : option (list Z)) (available_length : Z)
    (view : option ipv4_packet_view_t) : outcome (bool * option ipv4_packet_view_t) :=
  '(ok, parsed) ← ipv4packetviewParse packet available_length (Some zero_view);
  parsed ← through parsed;
  if negb ok || negb (protocol parsed =? IP_PROTO_UDP) || negb (fragment_offset parsed =? 0)
     || (transport_length parsed <? UDP_HLEN)
  then mret (false, view) else
  packet ← through packet;
  let udpheader := transport_offset parsed in
  udp_length ← load_ntohs packet (udpheader + 4);
  if (udp_length <? UDP_HLEN)
     || (negb (fragmented parsed) && (udp_length >? transport_length parsed))
  then mret (false, view) else
  source_port ← load_ntohs packet udpheader;
  destination_port ← load_ntohs packet (udpheader + 2);
  _ ← through view;
  mret (true, Some (mk_view (source_address parsed) (destination_address parsed)
    (tcp_sequence parsed) (tcp_acknowledgment parsed) (tcp_sequence_span parsed)
    (ip_total_length parsed) (ip_header_length parsed) udpheader (transport_length parsed)
    UDP_HLEN (wrap16 (udpheader + UDP_HLEN))
    (wrap16 ((if fragmented parsed then transport_length parsed else udp_length) - UDP_HLEN))
    (fragment_state parsed) (fragment_offset parsed) source_port destination_port
    (ip_identification parsed) udp_length (protocol parsed) (ttl parsed)
    (tcp_flags parsed) (more_fragments parsed) (fragmented parsed))).

Definition ipv4packetviewTcpFlagsAreOpeningSyn (tcp_flags tcp_payload_length : Z) : bool :=
  if negb (tcp_payload_length =? 0) || (Z.land tcp_flags TCP_SYN =? 0) then false
  else Z.land tcp_flags (Z.lor TCP_SYN (Z.lor TCP_ECE TCP_CWR)) =? tcp_flags.

Definition ipv4packetviewIsOpeningTcpSyn (view : option ipv4_packet_view_t) : bool :=
  match view with
  | Some view =>
      negb (fragmented view) && (protocol view =? IP_PROTO_TCP)
      && (transport_header_length view >=? TCP_HLEN)
      && ipv4packetviewTcpFlagsAreOpeningSyn (tcp_flags view) (payload_length view)
  | None => false
  end.

Definition ipv4packetviewTcpHasAnyFlags (view : option ipv4_packet_view_t) (flags : Z) : bool :=
  match view with Some view => negb (Z.land (tcp_flags view) flags =? 0) | None => false end.

Definition ipv4packetviewTcpHasAllFlags (view : option ipv4_packet_view_t) (flags : Z) : bool :=
  match view with Some view => Z.land (tcp_flags view) flags =? flags | None => false end.
End Code.

(** ** What the fields of a packet are *)

Definition ip_version (p : list Z) : Z := byte_at p 0 / 2 ^ 4.
Definition ip_hlen (p : list Z) : Z := byte_at p 0 mod 2 ^ 4 * 4.
Definition ip_tlen (p : list Z) : Z := be16 p 2.
Definition ip_fragment (p : list Z) : bool := negb (be16 p 6 mod 2 ^ 14 =? 0).
Definition tcp_hlen (p : list Z) (t : Z) : Z := byte_at p (t + 12) / 2 ^ 4 * 4.

(** A complete IPv4 packet at the front of [n] bytes. *)
Definition ipv4_sound (p : list Z) (n : Z) : bool :=
  (20 <=? n) && (ip_version p =? 4) && (20 <=? ip_hlen p) && (ip_hlen p <=? ip_tlen p)
  && (ip_tlen p <=? n).

Section Fields.
Context (p : list Z) (F : Forall u8 p).

Lemma ip_hlen_range : 0 <= ip_hlen p <= 60.
Proof. unfold ip_hlen. pose proof (Z.mod_pos_bound (byte_at p 0) (2 ^ 4)). lia. Qed.

Lemma ip_hlen_even : ip_hlen p mod 2 = 0.
Proof.
  unfold ip_hlen. replace (byte_at p 0 mod 2 ^ 4 * 4) with (byte_at p 0 mod 2 ^ 4 * 2 * 2) by lia.
  apply Z.mod_mul. lia.
Qed.

Lemma ip_hlen_code : wrap8 (Z.land (byte_at p 0) 0x0f * 4) = ip_hlen p.
Proof.
  change 15 with (Z.ones 4). rewrite Z.land_ones by lia. fold (ip_hlen p).
  pose proof ip_hlen_range. apply wrap8_small. word_lia.
Qed.

Lemma tcp_hlen_range t : 0 <= tcp_hlen p t <= 60.
Proof.
  unfold tcp_hlen. pose proof (byte_at_u8 p (t + 12) F) as B. unfold u8, UINT8_MAX in B.
  assert (0 <= byte_at p (t + 12) / 2 ^ 4 <= 15); [|lia].
  split; [apply Z.div_pos; lia|]. apply Z.lt_succ_r, Z.div_lt_upper_bound; lia.
Qed.

Context `{NetOrderLaws}.

Lemma le16_be16 i : 0 <= i -> i + 2 <= zlen p -> load_ntohs p i = Ok (be16 p i).
Proof.
  intros Hi Hf. unfold load_ntohs, wendianLoad16. rewrite mem_read_ok by lia.
  rewrite slice_bytes2 by lia. cbn [mbind outcome_bind mret outcome_ret le_value]. f_equal.
  pose proof (byte_at_u8 p i F). pose proof (byte_at_u8 p (i + 1) F). unfold u8, UINT8_MAX, be16 in *.
  rewrite htons_swap by lia. Z.div_mod_to_equations; lia.
Qed.

(** A 32-bit field as it is loaded, without a conversion. *)
Definition le32 (p : list Z) (i : Z) : Z := le_value (slice i 4 p).

Lemma load32_ok i : 0 <= i -> i + 4 <= zlen p -> wendianLoad32 p i = Ok (le32 p i).
Proof. intros. unfold wendianLoad32. by rewrite mem_read_ok by lia. Qed.

Lemma ntohl_be32 i : 0 <= i -> i + 4 <= zlen p -> u32 (le32 p i) /\ lwip_ntohl (le32 p i) = be32 p i.
Proof.
  intros Hi Hf. unfold le32. rewrite slice_bytes4 by lia. cbn [le_value].
  pose proof (byte_at_u8 p i F). pose proof (byte_at_u8 p (i + 1) F).
  pose proof (byte_at_u8 p (i + 2) F). pose proof (byte_at_u8 p (i + 2 + 1) F).
  unfold u8, UINT8_MAX, be32, be16 in *. split; [word_lia|]. rewrite htonl_swap by word_lia.
  Z.div_mod_to_equations; lia.
Qed.

Lemma le32_be32 i : 0 <= i -> i + 4 <= zlen p -> load_ntohl p i = Ok (be32 p i).
Proof.
  intros Hi Hf. unfold load_ntohl. rewrite load32_ok by done. step_ok. f_equal. by apply ntohl_be32.
Qed.

Lemma tcp_hlen_code t : 0 <= t -> t + 14 <= zlen p -> TCPH_HDRLEN_BYTES p t = Ok (tcp_hlen p t).
Proof.
  intros Ht Hf. unfold TCPH_HDRLEN_BYTES. rewrite le16_be16 by lia. step_ok. f_equal.
  pose proof (tcp_hlen_range t) as R. unfold tcp_hlen in *.
  pose proof (byte_at_u8 p (t + 12 + 1) F) as B. unfold u8, UINT8_MAX in B.
  rewrite Z.shiftr_div_pow2, Z.shiftl_mul_pow2 by lia.
  assert (be16 p (t + 12) / 2 ^ 12 = byte_at p (t + 12) / 2 ^ 4) as ->.
  { unfold be16. change (2 ^ 12) with (2 ^ 8 * 2 ^ 4). rewrite <- Z.div_div by lia.
    rewrite Z.div_add_l by lia. rewrite (Z.div_small (byte_at p (t + 12 + 1))) by lia. f_equal. lia. }
  rewrite wrap16_small, wrap8_small by word_lia. done.
Qed.
End Fields.

(** ** The views of a packet *)

Definition base_view (p : list Z) : ipv4_packet_view_t :=
  mk_view (le32 p 12) (le32 p 16) 0 0 0
    (ip_tlen p) (ip_hlen p) (ip_hlen p) (ip_tlen p - ip_hlen p) 0 (ip_hlen p) (ip_tlen p - ip_hlen p)
    (be16 p 6) (be16 p 6 mod 2 ^ 13) 0 0 (be16 p 4) 0 (byte_at p 9) (byte_at p 8) 0
    (Z.testbit (be16 p 6) 13) (ip_fragment p).

(** A TCP header at the start of the transport bytes. *)
Definition tcp_sound (p : list Z) (n : Z) : bool :=
  let t := ip_hlen p in
  ipv4_sound p n && (byte_at p 9 =? 6) && (be16 p 6 mod 2 ^ 13 =? 0) && (t + 20 <=? ip_tlen p)
  && (20 <=? tcp_hlen p t) && (t + tcp_hlen p t <=? ip_tlen p).

Definition udp_sound (p : list Z) (n : Z) : bool :=
  let t := ip_hlen p in
  ipv4_sound p n && (byte_at p 9 =? 17) && (be16 p 6 mod 2 ^ 13 =? 0) && (t + 8 <=? ip_tlen p)
  && (8 <=? be16 p (t + 4)) && (ip_fragment p || (t + be16 p (t + 4) <=? ip_tlen p)).

Definition tcp_view (p : list Z) : ipv4_packet_view_t :=
  let t := ip_hlen p in
  let payload := ip_tlen p - t - tcp_hlen p t in
  let flags := byte_at p (t + 13) in
  mk_view (le32 p 12) (le32 p 16) (be32 p (t + 4)) (be32 p (t + 8))
    (payload + (if Z.testbit flags 1 then 1 else 0) + (if Z.testbit flags 0 then 1 else 0))
    (ip_tlen p) t t (ip_tlen p - t) (tcp_hlen p t) (t + tcp_hlen p t) payload
    (be16 p 6) (be16 p 6 mod 2 ^ 13) (be16 p t) (be16 p (t + 2)) (be16 p 4) 0
    (byte_at p 9) (byte_at p 8) flags (Z.testbit (be16 p 6) 13) (ip_fragment p).

Definition udp_view (p : list Z) : ipv4_packet_view_t :=
  let t := ip_hlen p in
  mk_view (le32 p 12) (le32 p 16) 0 0 0
    (ip_tlen p) t t (ip_tlen p - t) 8 (t + 8)
    ((if ip_fragment p then ip_tlen p - t else be16 p (t + 4)) - 8)
    (be16 p 6) (be16 p 6 mod 2 ^ 13) (be16 p t) (be16 p (t + 2)) (be16 p 4) (be16 p (t + 4))
    (byte_at p 9) (byte_at p 8) 0 (Z.testbit (be16 p 6) 13) (ip_fragment p).

Lemma mask_offset x : Z.land x IP_OFFMASK = x mod 2 ^ 13.
Proof. change IP_OFFMASK with (Z.ones 13). by rewrite Z.land_ones. Qed.

Lemma mask_fragment x : Z.land x (Z.lor IP_MF IP_OFFMASK) = x mod 2 ^ 14.
Proof. change (Z.lor IP_MF IP_OFFMASK) with (Z.ones 14). by rewrite Z.land_ones. Qed.

(** Testing one bit with a mask. *)
Lemma mask_bit x k : 0 <= k -> negb (Z.land x (2 ^ k) =? 0) = Z.testbit x k.
Proof.
  intros Hk. destruct (Z.testbit x k) eqn:E.
  - apply negb_true_iff, Z.eqb_neq. intros Z0. apply (f_equal (fun y => Z.testbit y k)) in Z0.
    rewrite Z.land_spec, E, Z.pow2_bits_true, Z.bits_0 in Z0 by done. done.
  - apply negb_false_iff, Z.eqb_eq, Z.bits_inj_0. intros j. rewrite Z.land_spec.
    destruct (Z.eq_dec j k) as [->|N]; [by rewrite E|]. rewrite Z.pow2_bits_false by done. apply andb_false_r.
Qed.

Section Parse.
Context `{NetOrderLaws} (p : list Z) (F : Forall u8 p) (n : Z) (Hn : n <= zlen p).

Lemma view_parse_spec (v : ipv4_packet_view_t) :
  ipv4packetviewParse (Some p) n (Some v) =
  Ok (if ipv4_sound p n then (true, Some (base_view p)) else (false, Some v)).
Proof.
  unfold ipv4packetviewParse, ipv4_sound, IP_HLEN, IP_HLEN_MAX.
  destruct (Z.ltb_spec n 20) as [S|S]; [by replace (20 <=? n) with false by lia|].
  replace (20 <=? n) with true by lia. rewrite (load8_ok p 0) by lia. step_ok.
  rewrite Z.shiftr_div_pow2 by lia. fold (ip_version p). destruct (ip_version p =? 4) eqn:V; [|done]. cbn [negb andb].
  rewrite ip_hlen_code, (le16_be16 p F 2) by lia. step_ok. fold (ip_tlen p).
  pose proof (ip_hlen_range p) as R. pose proof (be16_u16 p 2 F) as U. fold (ip_tlen p) in U.
  destruct (_ || _) eqn:E.
  { replace (_ && _) with false; [done|]. symmetry. apply not_true_iff_false. intros X. bool_facts.
    repeat (apply orb_true_iff in E as [E|E]); bool_facts; lia. }
  bool_facts. replace (_ && _) with true by (symmetry; rewrite !andb_true_iff; lia).
  rewrite !(le16_be16 p F) by lia. step_ok. rewrite !load32_ok by lia. step_ok.
  rewrite !load8_ok by lia. step_ok. unfold mret, outcome_ret, base_view. repeat f_equal.
  - apply wrap16_small. unfold u16, UINT16_MAX in *. lia.
  - apply wrap16_small. unfold u16, UINT16_MAX in *. lia.
  - rewrite mask_offset. apply wrap16_small. pose proof (Z.mod_pos_bound (be16 p 6) (2 ^ 13)). word_lia.
  - apply (mask_bit _ 13). lia.
  - unfold ip_fragment. by rewrite mask_fragment.
Qed.

Lemma parse_tcp_spec (v : ipv4_packet_view_t) :
  ipv4packetviewParseTcp (Some p) n (Some v) =
  Ok (if tcp_sound p n then (true, Some (tcp_view p)) else (false, Some v)).
Proof.
  unfold ipv4packetviewParseTcp. rewrite view_parse_spec. step_ok. unfold tcp_sound.
  destruct (ipv4_sound p n) eqn:S; [|done]. cbn [through mbind outcome_bind negb orb andb].
  unfold base_view. cbn [protocol fragment_offset transport_length transport_offset]. unfold IP_PROTO_TCP, TCP_HLEN.
  destruct (byte_at p 9 =? 6); [|done]. destruct (be16 p 6 mod 2 ^ 13 =? 0); [|done]. cbn [negb orb andb].
  unfold ipv4_sound in S. bool_facts. pose proof (be16_u16 p 2 F) as U. fold (ip_tlen p) in U. unfold u16, UINT16_MAX in U.
  destruct (Z.ltb_spec (ip_tlen p - ip_hlen p) 20) as [L|L].
  { by replace (ip_hlen p + 20 <=? ip_tlen p) with false by lia. }
  replace (ip_hlen p + 20 <=? ip_tlen p) with true by lia.
  rewrite tcp_hlen_code by (auto; lia). step_ok. pose proof (tcp_hlen_range p F (ip_hlen p)) as T.
  destruct (_ || _) eqn:E.
  { replace (true && _ && _) with false; [done|]. symmetry. apply not_true_iff_false. intros X. bool_facts.
    apply orb_true_iff in E as [E|E]; bool_facts; lia. }
  bool_facts. replace (true && _ && _) with true by (symmetry; rewrite !andb_true_iff; lia).
  rewrite !(le16_be16 p F) by lia. step_ok. rewrite !(le32_be32 p F) by lia. step_ok.
  assert (wrap8 (Z.land (be16 p (ip_hlen p + 12)) 255) = byte_at p (ip_hlen p + 13)) as ->.
  { pose proof (byte_at_u8 p (ip_hlen p + 12 + 1) F) as B. unfold u8, UINT8_MAX in B.
    change 255 with (Z.ones 8). rewrite Z.land_ones by lia. unfold be16. rewrite Z.add_comm, Z.mod_add by lia.
    rewrite Z.mod_small by lia. rewrite wrap8_small by word_lia. f_equal. lia. }
  rewrite (mask_bit _ 1), (mask_bit _ 0) by lia. unfold mret, outcome_ret, tcp_view.
  assert (forall b : bool, 0 <= (if b then 1 else 0) <= 1) as B by (intros []; lia).
  pose proof (B (Z.testbit (byte_at p (ip_hlen p + 13)) 1)). pose proof (B (Z.testbit (byte_at p (ip_hlen p + 13)) 0)).
  rewrite !(wrap16_small (_ - _)), wrap16_small by word_lia. rewrite !wrap32_small by (rewrite ?wrap32_small; word_lia).
  done.
Qed.

Lemma parse_udp_spec (v : ipv4_packet_view_t) :
  ipv4packetviewParseUdp (Some p) n (Some v) =
  Ok (if udp_sound p n then (true, Some (udp_view p)) else (false, Some v)).
Proof.
  unfold ipv4packetviewParseUdp. rewrite view_parse_spec. step_ok. unfold udp_sound.
  destruct (ipv4_sound p n) eqn:S; [|done]. cbn [through mbind outcome_bind negb orb andb].
  unfold base_view. cbn [protocol fragment_offset transport_length transport_offset fragmented].
  unfold IP_PROTO_UDP, UDP_HLEN.
  destruct (byte_at p 9 =? 17); [|done]. destruct (be16 p 6 mod 2 ^ 13 =? 0); [|done]. cbn [negb orb andb].
  unfold ipv4_sound in S. bool_facts. pose proof (be16_u16 p 2 F) as U. fold (ip_tlen p) in U. unfold u16, UINT16_MAX in U.
  destruct (Z.ltb_spec (ip_tlen p - ip_hlen p) 8) as [L|L].
  { by replace (ip_hlen p + 8 <=? ip_tlen p) with false by lia. }
  replace (ip_hlen p + 8 <=? ip_tlen p) with true by lia.
  rewrite !(le16_be16 p F) by lia. step_ok. cbn [andb].
  pose proof (be16_u16 p (ip_hlen p + 4) F) as U4. unfold u16, UINT16_MAX in U4.
  destruct (_ || _) eqn:E.
  { replace (_ && _) with false; [done|]. symmetry. apply not_true_iff_false. intros X. bool_facts.
    apply orb_true_iff in E as [E|E]; bool_facts; [lia|].
    match goal with H : _ || _ = true |- _ => apply orb_true_iff in H as [?|?] end; bool_facts; [congruence|lia]. }
  apply orb_false_iff in E as [E1 E2]. bool_facts.
  replace (_ && _) with true.
  2:{ symmetry. apply andb_true_iff. split; [lia|]. destruct (ip_fragment p); [done|]. cbn [negb andb orb] in *. lia. }
  unfold mret, outcome_ret, udp_view. repeat f_equal; try (apply wrap16_small; unfold UINT16_MAX; lia).
  apply wrap16_small. unfold UINT16_MAX. destruct (ip_fragment p); lia.
Qed.
End Parse.

(** ** Views stay inside their packet *)

Record view_ok (n : Z) (v : ipv4_packet_view_t) : Prop := {
  vo_header : 20 <= ip_header_length v <= 60;
  vo_total : ip_header_length v + transport_length v = ip_total_length v;
  vo_fits : ip_total_length v <= n;
  vo_width : ip_total_length v <= UINT16_MAX;
  vo_transport : transport_offset v = ip_header_length v;
  vo_lengths : 0 <= transport_length v /\ 0 <= transport_header_length v /\ 0 <= payload_length v;
  vo_payload : payload_offset v = transport_offset v + transport_header_length v;
  vo_payload_end : payload_offset v + payload_length v <= ip_total_length v;
  vo_span : payload_length v <= tcp_sequence_span v <= payload_length v + 2 \/ tcp_sequence_span v = 0;
  vo_fragment : 0 <= fragment_offset v < 2 ^ 13 /\ (fragmented v = more_fragments v || negb (fragment_offset v =? 0));
  vo_fields : u16 (source_port v) /\ u16 (destination_port v) /\ u16 (ip_identification v)
    /\ u16 (udp_datagram_length v) /\ u16 (fragment_state v) /\ u8 (protocol v) /\ u8 (ttl v)
    /\ u8 (tcp_flags v);
  vo_words : u32 (source_address v) /\ u32 (destination_address v) /\ u32 (tcp_sequence v)
    /\ u32 (tcp_acknowledgment v) /\ u32 (tcp_sequence_span v)
}.

Section Typed.
Context `{NetOrderLaws} (p : list Z) (F : Forall u8 p) (n : Z) (Hn : n <= zlen p).

Lemma fragment_split :
  ip_fragment p = Z.testbit (be16 p 6) 13 || negb (be16 p 6 mod 2 ^ 13 =? 0).
Proof.
  unfold ip_fragment. pose proof (be16_u16 p 6 F) as U. unfold u16, UINT16_MAX in U.
  rewrite Z.testbit_eqb by lia. change (2 ^ 14) with (2 ^ 13 * 2). rewrite Z.rem_mul_r by lia.
  pose proof (Z.mod_pos_bound (be16 p 6) (2 ^ 13)). pose proof (Z.mod_pos_bound (be16 p 6 / 2 ^ 13) 2).
  apply eq_true_iff_eq. rewrite orb_true_iff, !negb_true_iff, !Z.eqb_neq, Z.eqb_eq. lia.
Qed.

(** What the three views have in common. *)
Ltac view_fields :=
  pose proof fragment_split; pose proof (ip_hlen_range p);
  pose proof (Z.mod_pos_bound (be16 p 6) (2 ^ 13) eq_refl);
  pose proof (ntohl_be32 p F 12 ltac:(lia) ltac:(lia)) as [? _];
  pose proof (ntohl_be32 p F 16 ltac:(lia) ltac:(lia)) as [? _];
  pose proof (be16_u16 p 2 F) as TL; fold (ip_tlen p) in TL; unfold u16, UINT16_MAX in TL;
  unfold u32, UINT32_MAX in *;
  split; cbn -[Z.testbit]; unfold u8, u16, u32, UINT8_MAX, UINT16_MAX, UINT32_MAX; splits;
  try (apply (byte_at_u8 p _ F) || apply (be16_u16 p _ F) || apply (be32_u32 p _ F)); auto; try lia.

Lemma base_view_ok : ipv4_sound p n = true -> view_ok n (base_view p).
Proof. intros S. unfold ipv4_sound in S. bool_facts. view_fields.
Qed.

Lemma tcp_view_ok : tcp_sound p n = true -> view_ok n (tcp_view p).
Proof.
  intros S. unfold tcp_sound, ipv4_sound in S. bool_facts. pose proof (tcp_hlen_range p F (ip_hlen p)).
  assert (forall b : bool, 0 <= (if b then 1 else 0) <= 1) as B by (intros []; lia).
  pose proof (B (Z.testbit (byte_at p (ip_hlen p + 13)) 1)). pose proof (B (Z.testbit (byte_at p (ip_hlen p + 13)) 0)).
  view_fields.
Qed.

Lemma udp_view_ok : udp_sound p n = true -> view_ok n (udp_view p).
Proof.
  intros S. unfold udp_sound, ipv4_sound in S. bool_facts.
  assert ((if ip_fragment p then ip_tlen p - ip_hlen p else be16 p (ip_hlen p + 4)) <= ip_tlen p - ip_hlen p /\
    8 <= (if ip_fragment p then ip_tlen p - ip_hlen p else be16 p (ip_hlen p + 4))) as [? ?].
  { destruct (ip_fragment p); cbn [orb] in *; bool_facts; lia. }
  view_fields.
Qed.
End Typed.

Inductive view_parser : Type := ParseIp | ParseTcp | ParseUdp.

Definition parse_with `{NetOrder} (k : view_parser) :=
  match k with
  | ParseIp => ipv4packetviewParse
  | ParseTcp => ipv4packetviewParseTcp
  | ParseUdp => ipv4packetviewParseUdp
  end.

Definition sound_for (k : view_parser) (p : list Z) (n : Z) : bool :=
  match k with
  | ParseIp => ipv4_sound p n
  | ParseTcp => tcp_sound p n
  | ParseUdp => udp_sound p n
  end.

(** C18. The type of a packet view.  On any bytes each parser returns without a
    read outside the packet; it accepts exactly the packets whose headers are
    complete and consistent; an accepted view is well formed (every field fits
    its width, the header, transport and payload ranges are nested and end inside
    the declared length, which is inside the available bytes); a refused packet
    leaves the caller's view as it was. *)
Theorem packet_views_typed `{NetOrderLaws} (k : view_parser) (p : list Z) (n : Z)
    (v : ipv4_packet_view_t) :
  Forall u8 p -> n <= zlen p ->
  exists ok v', parse_with k (Some p) n (Some v) = Ok (ok, Some v') /\
    ok = sound_for k p n /\ (if ok then view_ok n v' else v' = v).
Proof.
  intros F Hn. destruct k; cbn [parse_with sound_for].
  - rewrite view_parse_spec by done. destruct (ipv4_sound p n) eqn:S; eauto 6 using base_view_ok.
  - rewrite parse_tcp_spec by done. destruct (tcp_sound p n) eqn:S; eauto 6 using tcp_view_ok.
  - rewrite parse_udp_spec by done. destruct (udp_sound p n) eqn:S; eauto 6 using udp_view_ok.
Qed.

Definition demo_syn : list Z :=
  [69; 0; 0; 44; 0; 7; 64; 0; 64; 6; 0; 0; 10; 0; 0; 1; 10; 0; 0; 2;
   4; 210; 0; 80; 0; 0; 0; 9; 0; 0; 0; 0; 96; 194; 16; 0; 0; 0; 0; 0; 2; 4; 5; 180].

Lemma packet_views_typed_witness :
  exists v', ipv4packetviewParseTcp (Some demo_syn) 44 (Some zero_view) = Ok (true, Some v') /\
    view_ok 44 v' /\ payload_offset v' = 44 /\ ipv4packetviewIsOpeningTcpSyn (Some v') = true.
Proof.
  destruct (packet_views_typed ParseTcp demo_syn 44 zero_view) as (ok & v' & E & Eo & V).
  - repeat constructor; unfold UINT8_MAX; lia.
  - vm_compute. discriminate.
  - vm_compute in E. injection E as <- <-. exists (tcp_view demo_syn). splits; try reflexivity. exact V.
Defined.
