(* ===== verification/TransportChecksum.v ===== *)
(** * Checksums of whole packets ([ww/net/wchecksum.c])

    Recomputing the header and transport checksums of an IPv4 packet and keeping
    them right while an address or a transport word is replaced.  A packet is the
    list of bytes at the pointer; a function that writes through the pointer
    returns the new bytes.  [inet_chksum] belongs to the TCP/IP stack: it is a
    parameter whose law says that it complements the sum computed by the hook
    [LWIP_CHKSUM], which [ww/lwip/lwipopts.h] defines as [wwLwipChecksum]. *)

From Stdlib Require Import ZArith Lia.
From stdpp Require Import base numbers option list.
From S2P Require Import Prelude ShiftBuffer Endian Checksum PacketChecksum PacketView.
Open Scope Z_scope.
Open Scope word_scope.

Class InetChecksum : Type := { inet_chksum : list Z -> Z -> outcome Z }.

Class InetChecksumLaws `{NetOrder} `{InetChecksum} : Prop := {
  inet_chksum_hook : forall data,
    inet_chksum data (zlen data) = (s ← wwLwipChecksum data (zlen data); mret (wrap16 (Z.lnot s)))
}.

Inductive ipv4_checksum_address_field_e : Type :=
  kIpv4ChecksumAddressSource | kIpv4ChecksumAddressDestination.

Section Code.
Context `{NetOrder} `{InetChecksum}.

Definition IPH_CHKSUM_SET (buf : list Z) (v : Z) : outcome (list Z) := wendianStore16 buf 10 v.

(** [checksum(buf + off, len, initial)] and [inet_chksum(buf, len)]. *)
Definition checksum_at (buf : list Z) (off len initial : Z) : outcome Z :=
  data ← mem_read buf off len; calcGenericChecksum data len initial.
Definition inet_chksum_at (buf : list Z) (len : Z) : outcome Z :=
  data ← mem_read buf 0 len; inet_chksum data len.

(** [src] and [dst] are the packed addresses in network order. *)
Definition checksumPseudoHeader (src dst proto length : Z) : Z :=
  let src_h := lwip_ntohl src in
  let dst_h := lwip_ntohl dst in
  let sum := 0 +32 Z.land (Z.shiftr src_h 16) 0xFFFF in
  let sum := sum +32 Z.land src_h 0xFFFF in
  let sum := sum +32 Z.land (Z.shiftr dst_h 16) 0xFFFF in
  let sum := sum +32 Z.land dst_h 0xFFFF in
  let sum := sum +32 proto in
  sum +32 length.

(** The parsers on a packet that is there, with a view of the caller's own. *)
Definition view_of (packet : list Z) (available_len : Z) : outcome (bool * ipv4_packet_view_t) :=
  '(ok, view) ← ipv4packetviewParse (Some packet) available_len (Some zero_view);
  view ← through view; mret (ok, view).
Definition tcp_view_of (packet : list Z) (available_len : Z) : outcome (bool * ipv4_packet_view_t) :=
  '(ok, view) ← ipv4packetviewParseTcp (Some packet) available_len (Some zero_view);
  view ← through view; mret (ok, view).
Definition udp_view_of (packet : list Z) (available_len : Z) : outcome (bool * ipv4_packet_view_t) :=
  '(ok, view) ← ipv4packetviewParseUdp (Some packet) available_len (Some zero_view);
  view ← through view; mret (ok, view).

(** "Validate every field that will be accessed before modifying either
    checksum." *)
Definition transport_readable (buf : list Z) (available_len : Z) (packet : ipv4_packet_view_t)
  : outcome bool :=
  if fragmented packet then mret true else
  if protocol packet =? IP_PROTO_TCP then '(ok, _) ← tcp_view_of buf available_len; mret ok
  else if protocol packet =? IP_PROTO_UDP then '(ok, _) ← udp_view_of buf available_len; mret ok
  else if protocol packet =? IP_PROTO_ICMP then mret (negb (transport_length packet <? ICMP_HLEN))
  else mret true.

(** The second switch: the transport checksum by protocol. *)
Definition write_transport_checksum (buf : list Z) (packet : ipv4_packet_view_t)
  : outcome (list Z) :=
  let transport_hdr := transport_offset packet in
  if protocol packet =? IP_PROTO_TCP then
    buf ← wendianStore16 buf (transport_hdr + 16) 0;
    src ← wendianLoad32 buf 12; dst ← wendianLoad32 buf 16;
    let init := checksumPseudoHeader src dst IP_PROTO_TCP (transport_length packet) in
    c ← checksum_at buf transport_hdr (transport_length packet) init;
    wendianStore16 buf (transport_hdr + 16) c
  else if protocol packet =? IP_PROTO_UDP then
    udp_len ← load_ntohs buf (transport_hdr + 4);
    buf ← wendianStore16 buf (transport_hdr + 6) 0;
    src ← wendianLoad32 buf 12; dst ← wendianLoad32 buf 16;
    let init := checksumPseudoHeader src dst IP_PROTO_UDP udp_len in
    c ← checksum_at buf transport_hdr udp_len init;
    buf ← wendianStore16 buf (transport_hdr + 6) c;
    stored ← wendianLoad16 buf (transport_hdr + 6);
    if stored =? 0 then wendianStore16 buf (transport_hdr + 6) 0xFFFF else mret buf
  else if protocol packet =? IP_PROTO_ICMP then
    buf ← wendianStore16 buf (transport_hdr + 2) 0;
    c ← checksum_at buf transport_hdr (transport_length packet) 0;
    wendianStore16 buf (transport_hdr + 2) c
  else mret buf.

Definition calcFullPacketChecksum (buf : list Z) (available_len : Z) : outcome (bool * list Z) :=
  '(ok, packet) ← view_of buf available_len;
  if negb ok then mret (false, buf) else
  readable ← transport_readable buf available_len packet;
  if negb readable then mret (false, buf) else
  buf ← IPH_CHKSUM_SET buf 0;
  c ← inet_chksum_at buf (ip_header_length packet);
  buf ← IPH_CHKSUM_SET buf c;
  if fragmented packet then mret (true, buf) else
  buf ← write_transport_checksum buf packet;
  mret (true, buf).

Definition calcIpv4HeaderChecksum (buf : list Z) (available_len : Z) : outcome (bool * list Z) :=
  '(ok, packet) ← view_of buf available_len;
  if negb ok then mret (false, buf) else
  buf ← IPH_CHKSUM_SET buf 0;
  c ← inet_chksum_at buf (ip_header_length packet);
  buf ← IPH_CHKSUM_SET buf c;
  mret (true, buf).

(** The structural fields that a (possibly fragmented) packet has to show,
    lines 204 to 233. *)
Definition structure_present (buf : list Z) (packet : ipv4_packet_view_t)
    (effective_protocol start fin : Z) : outcome bool :=
  let payload := transport_offset packet in
  if effective_protocol =? IP_PROTO_TCP then
    if negb (more_fragments packet) && (fin <? TCP_HLEN) then mret false else
    if (start <=? 12) && (fin >? 12) then
      b ← load8 buf (payload + (12 - start));
      let header_length := Z.shiftr b 4 *32 4 in
      mret (negb ((header_length <? TCP_HLEN) || (negb (more_fragments packet) && (header_length >? fin))))
    else mret true
  else
    if negb (more_fragments packet) && (fin <? UDP_HLEN) then mret false else
    if (start =? 0) && (fin >=? 6) then
      b4 ← load8 buf (payload + 4); b5 ← load8 buf (payload + 5);
      let udp_length := wrap16 (Z.lor (wrap16 (Z.shiftl b4 8)) b5) in
      mret (negb ((udp_length <? UDP_HLEN) || (negb (fragmented packet) && (udp_length >? fin))))
    else mret true.

Definition updateIpv4TransportChecksumAddresses (buf : list Z) (available_len effective_protocol
    old_source_network old_destination_network new_source_network new_destination_network : Z)
  : outcome (bool * list Z) :=
  if negb (effective_protocol =? IP_PROTO_TCP) && negb (effective_protocol =? IP_PROTO_UDP)
  then mret (false, buf) else
  '(ok, packet) ← view_of buf available_len;
  if negb ok then mret (false, buf) else
  let start := fragment_offset packet *32 8 in
  let fin := start +32 transport_length packet in
  let checksum_offset := if effective_protocol =? IP_PROTO_TCP then 16 else 6 in
  if fragmented packet &&
     ((transport_length packet =? 0)
      || (more_fragments packet && negb (transport_length packet mod 8 =? 0))
      || (fin >? UINT16_MAX - IP_HLEN)
      || negb (Z.land (fragment_state packet) IP_DF =? 0))
  then mret (false, buf) else
  present ← structure_present buf packet effective_protocol start fin;
  if negb present then mret (false, buf) else
  if (fin <=? checksum_offset) || (start >=? checksum_offset + 2)
  then mret (fragmented packet, buf) else
  if (start >? checksum_offset) || (fin <? checksum_offset + 2) then mret (false, buf) else
  let field := transport_offset packet + checksum_offset - start in
  value ← wendianLoad16 buf field;
  if (effective_protocol =? IP_PROTO_UDP) && (value =? 0) then mret (true, buf) else
  value ← checksumUpdateWord32 value old_source_network new_source_network;
  value ← checksumUpdateWord32 value old_destination_network new_destination_network;
  let value := if (effective_protocol =? IP_PROTO_UDP) && (value =? 0) then 0xffff else value in
  buf ← wendianStore16 buf field value;
  mret (true, buf).

(** The transport header whose checksum follows an address change: [None] when
    the function returns false, [Some None] when there is nothing to update
    (lines 297 to 325). *)
Definition address_checksum_field (buf : list Z) (available_len : Z) (packet : ipv4_packet_view_t)
  : outcome (option (option Z)) :=
  if fragment_offset packet =? 0 then
    if protocol packet =? IP_PROTO_TCP then
      '(ok, transport) ← tcp_view_of buf available_len;
      if negb ok then mret None else mret (Some (Some (transport_offset transport + 16)))
    else if protocol packet =? IP_PROTO_UDP then
      '(ok, transport) ← udp_view_of buf available_len;
      if negb ok then mret None else
      c ← wendianLoad16 buf (transport_offset transport + 6);
      mret (Some (if negb (c =? 0) then Some (transport_offset transport + 6) else None))
    else mret (Some None)
  else mret (Some None).

Definition setIpv4AddressWithChecksumUpdate (buf : list Z) (available_len : Z)
    (field : ipv4_checksum_address_field_e) (new_address_network : Z) : outcome (bool * list Z) :=
  '(ok, packet) ← view_of buf available_len;
  if negb ok then mret (false, buf) else
  let address := match field with kIpv4ChecksumAddressSource => 12 | kIpv4ChecksumAddressDestination => 16 end in
  old_address_network ← wendianLoad32 buf address;
  if old_address_network =? new_address_network then mret (true, buf) else
  target ← address_checksum_field buf available_len packet;
  match target with
  | None => mret (false, buf)
  | Some target =>
      old_ip_chksum ← wendianLoad16 buf 10;
      new_ip_chksum ← checksumUpdateWord32 old_ip_chksum old_address_network new_address_network;
      new_trans_chksum ←
        match target with
        | Some at_ =>
            c ← wendianLoad16 buf at_;
            c ← checksumUpdateWord32 c old_address_network new_address_network;
            mret (if (protocol packet =? IP_PROTO_UDP) && (c =? 0) then 0xFFFF else c)
        | None => mret 0
        end;
      buf ← mem_write buf address (le_bytes 4 new_address_network);
      buf ← IPH_CHKSUM_SET buf new_ip_chksum;
      buf ← match target with Some at_ => wendianStore16 buf at_ new_trans_chksum | None => mret buf end;
      mret (true, buf)
  end.

Definition updateIpv4TransportChecksum16 (buf : list Z) (available_len old_word_network new_word_network : Z)
  : outcome (bool * list Z) :=
  '(ok, packet) ← view_of buf available_len;
  if negb ok then mret (false, buf) else
  if negb (protocol packet =? IP_PROTO_TCP) && negb (protocol packet =? IP_PROTO_UDP)
  then mret (false, buf) else
  if fragment_offset packet >? 0 then mret (false, buf) else
  '(ok, transport) ←
    (if protocol packet =? IP_PROTO_TCP then tcp_view_of buf available_len
     else udp_view_of buf available_len);
  if negb (ok : bool) then mret (false, buf) else
  if old_word_network =? new_word_network then mret (true, buf) else
  if protocol packet =? IP_PROTO_TCP then
    c ← wendianLoad16 buf (transport_offset transport + 16);
    c ← checksumUpdateWord16 c old_word_network new_word_network;
    buf ← wendianStore16 buf (transport_offset transport + 16) c;
    mret (true, buf)
  else
    c ← wendianLoad16 buf (transport_offset transport + 6);
    if negb (c =? 0) then
      c ← checksumUpdateWord16 c old_word_network new_word_network;
      let c := if c =? 0 then 0xFFFF else c in
      buf ← wendianStore16 buf (transport_offset transport + 6) c;
      mret (true, buf)
    else mret (true, buf).
End Code.

(** ** Sixteen-bit fields *)

Definition set16 (p : list Z) (f c : Z) : list Z := splice_at p f (be16_bytes c).

Section Field.
Context (p : list Z) (F : Forall u8 p) (f : Z) (Hf : 0 <= f) (Hfit : f + 2 <= zlen p).

Lemma zlen_set16 c : zlen (set16 p f c) = zlen p.
Proof. apply zlen_splice_at; rewrite ?zlen_be16_bytes; lia. Qed.

Lemma set16_u8 c : Forall u8 (set16 p f c).
Proof. apply Forall_splice_at; [done|apply be16_bytes_u8]. Qed.

Lemma set16_be16 c : 0 <= c <= 65535 -> be16 (set16 p f c) f = c.
Proof. intros. unfold set16. rewrite be16_stored by lia. apply Z.mod_small. lia. Qed.

Lemma set16_byte c i : 0 <= i -> i < f \/ f + 2 <= i -> byte_at (set16 p f c) i = byte_at p i.
Proof.
  intros Hi Ho. unfold set16. rewrite byte_at_splice by (rewrite ?zlen_be16_bytes; lia).
  rewrite zlen_be16_bytes, decide_False by lia. done.
Qed.

Lemma set16_be16_other c i : 0 <= i -> i + 2 <= f \/ f + 2 <= i -> be16 (set16 p f c) i = be16 p i.
Proof. intros. unfold be16. by rewrite !set16_byte by lia. Qed.

Lemma set16_slice c a n :
  0 <= a -> 0 <= n -> a + n <= f \/ f + 2 <= a -> slice a n (set16 p f c) = slice a n p.
Proof.
  intros Ha Hn [Hb|Hb]; unfold set16.
  - apply slice_splice_before; rewrite ?zlen_be16_bytes; lia.
  - apply slice_splice_after; rewrite ?zlen_be16_bytes; lia.
Qed.

Lemma set16_set16 a b : set16 (set16 p f a) f b = set16 p f b.
Proof.
  unfold set16, splice_at. rewrite !zlen_be16_bytes. unfold zlen in *.
  rewrite take_app_le by (rewrite length_take; lia). rewrite take_take, Nat.min_id. do 2 f_equal.
  rewrite drop_app_ge by (rewrite length_take; lia). rewrite length_take.
  rewrite drop_app_ge by (cbn [length be16_bytes]; lia). rewrite drop_drop. f_equal. cbn [length be16_bytes]. lia.
Qed.

Lemma be16_bytes_be16 : be16_bytes (be16 p f) = slice f 2 p.
Proof.
  rewrite slice_bytes2 by lia. unfold be16_bytes, be16.
  pose proof (byte_at_u8 p f F). pose proof (byte_at_u8 p (f + 1) F). unfold u8, UINT8_MAX in *.
  f_equal; [|f_equal]; Z.div_mod_to_equations; lia.
Qed.

Lemma set16_self : set16 p f (be16 p f) = p.
Proof.
  unfold set16. rewrite be16_bytes_be16. unfold splice_at. rewrite zlen_slice by lia. unfold slice.
  rewrite <- (take_drop (Z.to_nat f) p) at 4. f_equal.
  rewrite <- (take_drop (Z.to_nat 2) (drop (Z.to_nat f) p)) at 2. rewrite drop_drop. do 2 f_equal. lia.
Qed.

Lemma store16_zero : wendianStore16 p f 0 = Ok (set16 p f 0).
Proof. apply mem_write_ok; [lia|]. change (zlen (le_bytes 2 0)) with 2. lia. Qed.

Lemma store16_ones : wendianStore16 p f 0xFFFF = Ok (set16 p f 65535).
Proof. apply mem_write_ok; [lia|]. change (zlen (le_bytes 2 65535)) with 2. lia. Qed.

End Field.

Section NetField.
Context `{NetOrderLaws} (p : list Z) (F : Forall u8 p) (f : Z) (Hf : 0 <= f) (Hfit : f + 2 <= zlen p).

Lemma le_bytes_htons c : 0 <= c <= 65535 -> le_bytes 2 (lwip_htons c) = be16_bytes c.
Proof.
  intros Hc. rewrite htons_swap by done. cbn [le_bytes]. unfold be16_bytes, wrap8.
  f_equal; [|f_equal]; Z.div_mod_to_equations; lia.
Qed.

Lemma store16_ok c : 0 <= c <= 65535 -> wendianStore16 p f (lwip_htons c) = Ok (set16 p f c).
Proof.
  intros Hc. unfold wendianStore16. rewrite le_bytes_htons by done.
  by rewrite mem_write_ok by (rewrite ?zlen_be16_bytes; lia).
Qed.

Lemma load16_ok : wendianLoad16 p f = Ok (lwip_htons (be16 p f)).
Proof.
  pose proof (be16_u16 p f F) as U. unfold u16, UINT16_MAX in U.
  pose proof (le16_be16 p F f Hf Hfit) as E. unfold load_ntohs in E. apply bind_Ok in E as (w & Ew & E).
  injection E as <-. rewrite Ew. f_equal. symmetry. apply htons_htons.
  unfold wendianLoad16 in Ew. rewrite mem_read_ok in Ew by lia. injection Ew as <-.
  rewrite slice_bytes2 by lia. cbn [le_value].
  pose proof (byte_at_u8 p f F). pose proof (byte_at_u8 p (f + 1) F). unfold u8, UINT8_MAX in *. lia.
Qed.

(** In either byte order a field is zero, or all ones, at the same time. *)
Lemma htons_zero c : 0 <= c <= 65535 -> (lwip_htons c =? 0) = (c =? 0).
Proof. intros Hc. rewrite htons_swap by done. apply eq_true_iff_eq. rewrite !Z.eqb_eq. Z.div_mod_to_equations; lia. Qed.
End NetField.

(** Side conditions of the field lemmas. *)
Ltac field_side := first [exact _ | rewrite ?zlen_set16 by lia; auto using set16_u8; lia].

(** ** The words a checksum covers *)

(** The 16-bit words of [n] bytes at [off], without the field at [f]. *)
Definition covered (p : list Z) (off n f : Z) : list Z :=
  words_be (slice off (f - off) p) ++ words_be (slice (f + 2) (off + n - f - 2) p).

Definition internet_checksum (ws : list Z) : Z := 65535 - ones_sum ws.

(** The words of the pseudo header. *)
Definition pseudo_words (p : list Z) (proto len : Z) : list Z :=
  [be16 p 12; be16 p 14; be16 p 16; be16 p 18; proto; len].

Definition wordsum (ws : list Z) : Z := foldr Z.add 0 ws.

Lemma checksum_sum (ws : list Z) :
  Forall (fun w => 0 <= w <= 65535) ws -> internet_checksum ws = 65535 - rep (wordsum ws).
Proof. intros W. unfold internet_checksum. by rewrite ones_sum_total. Qed.

Lemma words_u16 (l : list Z) : Forall u8 l -> Forall (fun w => 0 <= w <= 65535) (words_be l).
Proof. intros F. by apply words_be_range, u8_bytes. Qed.

Lemma covered_words (p : list Z) (off n f : Z) :
  Forall u8 p -> Forall (fun w => 0 <= w <= 65535) (covered p off n f).
Proof. intros F. apply Forall_app; split; apply words_u16; by apply Forall_slice. Qed.

Lemma pseudo_words_u16 (p : list Z) (proto len : Z) :
  Forall u8 p -> 0 <= proto <= 255 -> 0 <= len <= 65535 ->
  Forall (fun w => 0 <= w <= 65535) (pseudo_words p proto len).
Proof.
  intros F Hp Hl. pose proof (be16_u16 p 12 F). pose proof (be16_u16 p 14 F).
  pose proof (be16_u16 p 16 F). pose proof (be16_u16 p 18 F). unfold u16, UINT16_MAX in *.
  repeat constructor; lia.
Qed.

Section Segment.
Context (p : list Z) (F : Forall u8 p) (off n f : Z).
Context (Hoff : 0 <= off) (Hf : off <= f) (Heven : (f - off) mod 2 = 0) (Hin : f + 2 <= off + n) (Hfit : off + n <= zlen p).

Lemma even_prefix : Nat.Even (length (slice off (f - off) p)).
Proof.
  pose proof (zlen_slice off (f - off) p ltac:(lia) ltac:(lia) ltac:(lia)) as L. unfold zlen in L.
  apply Z.mod_divide in Heven as [k Hk]; [|lia]. exists (Z.to_nat k). lia.
Qed.

Lemma wsum_field :
  wsum (slice off n p) = wordsum (covered p off n f) + be16 p f.
Proof.
  unfold wordsum, covered. rewrite sum_app. fold (wsum (slice off (f - off) p)).
  fold (wsum (slice (f + 2) (off + n - f - 2) p)).
  replace n with ((f - off) + (off + n - f)) at 1 by lia. rewrite slice_split by lia.
  rewrite wsum_app by apply even_prefix. replace (off + (f - off)) with f by lia.
  rewrite (wsum_slice_step p f) by lia. lia.
Qed.

Lemma covered_set16 c : covered (set16 p f c) off n f = covered p off n f.
Proof. unfold covered. by rewrite !set16_slice by lia. Qed.

(** A write elsewhere. *)
Lemma covered_outside g c :
  0 <= g -> g + 2 <= zlen p -> g + 2 <= off \/ off + n <= g ->
  covered (set16 p g c) off n f = covered p off n f.
Proof. intros Hg Hgf Ho. unfold covered. by rewrite !set16_slice by lia. Qed.
End Segment.

Lemma wordsum_nonneg (ws : list Z) : Forall (fun w => 0 <= w <= 65535) ws -> 0 <= wordsum ws.
Proof. apply sum_nonneg. Qed.

Lemma short_wordsum (ws : list Z) :
  Forall (fun w => 0 <= w <= 65535) ws -> (length ws <= 6)%nat -> wordsum ws <= UINT32_MAX.
Proof.
  intros W L. assert (wordsum ws <= 65535 * zlen ws) as B.
  { unfold wordsum. clear L. induction W as [|w ws Hw W IH]; [done|]. rewrite zlen_cons. cbn [foldr]. lia. }
  unfold zlen, UINT32_MAX in *. lia.
Qed.

Lemma wordsum_app (a b : list Z) : wordsum (a ++ b) = wordsum a + wordsum b.
Proof. apply sum_app. Qed.

Lemma checksum_range (ws : list Z) :
  Forall (fun w => 0 <= w <= 65535) ws -> 0 <= internet_checksum ws <= 65535.
Proof. intros W. rewrite checksum_sum by done. pose proof (rep_range (wordsum ws)). lia. Qed.

Section Computed.
Context `{NetOrderLaws} (p : list Z) (F : Forall u8 p) (off n f : Z).
Context (Hoff : 0 <= off) (Hf : off <= f) (Heven : (f - off) mod 2 = 0) (Hin : f + 2 <= off + n) (Hfit : off + n <= zlen p).

(** With the field cleared, the data sum is that of the covered words. *)
Lemma wsum_cleared : wsum (slice off n (set16 p f 0)) = wordsum (covered p off n f).
Proof.
  rewrite (wsum_field (set16 p f 0) off n f) by (rewrite ?zlen_set16 by lia; auto; lia).
  rewrite covered_set16, set16_be16 by lia. lia.
Qed.

Lemma checksum_at_cleared (ws : list Z) :
  n <= UINT16_MAX -> Forall (fun w => 0 <= w <= 65535) ws -> wordsum ws <= UINT32_MAX ->
  checksum_at (set16 p f 0) off n (wordsum ws) = Ok (lwip_htons (internet_checksum (ws ++ covered p off n f))).
Proof.
  intros Hn W Hs. unfold checksum_at. rewrite mem_read_ok by (rewrite ?zlen_set16 by lia; lia). step_ok.
  assert (Forall u8 (set16 p f 0)) as F' by by apply set16_u8.
  assert (zlen (slice off n (set16 p f 0)) = n) as L by (apply zlen_slice; rewrite ?zlen_set16 by lia; lia).
  unfold calcGenericChecksum. rewrite <- L at 2. rewrite checksumDefault_spec.
  - rewrite wsum_cleared, checksum_sum by (apply Forall_app; split; [done|by apply covered_words]).
    by rewrite wordsum_app.
  - by apply u8_bytes, Forall_slice.
  - lia.
  - split; [by apply wordsum_nonneg|done].
Qed.
End Computed.

Section Header.
Context `{InetChecksumLaws} `{!NetOrderLaws} (p : list Z) (F : Forall u8 p) (n : Z).
Context (Hn : 20 <= n <= 60) (Hfit : n <= zlen p).

Definition ip_checksum_of (p : list Z) (n : Z) : Z := internet_checksum (covered p 0 n 10).

Lemma ip_checksum_range : 0 <= ip_checksum_of p n <= 65535.
Proof. apply checksum_range. by apply covered_words. Qed.

Lemma inet_chksum_cleared : inet_chksum_at (set16 p 10 0) n = Ok (lwip_htons (ip_checksum_of p n)).
Proof.
  unfold inet_chksum_at. rewrite mem_read_ok by (rewrite ?zlen_set16 by lia; lia). step_ok.
  assert (Forall u8 (set16 p 10 0)) as F' by by apply set16_u8.
  assert (zlen (slice 0 n (set16 p 10 0)) = n) as L by (apply zlen_slice; rewrite ?zlen_set16 by lia; lia).
  rewrite <- L at 2. rewrite inet_chksum_hook, wwLwipChecksum_sum.
  2:{ by apply u8_bytes, Forall_slice. }
  2:{ rewrite L. unfold INT_MAX. lia. }
  step_ok. unfold mret, outcome_ret. f_equal. rewrite ones_sum_words by (by apply u8_bytes, Forall_slice).
  rewrite (wsum_cleared p) by (try done; lia). unfold ip_checksum_of. rewrite checksum_sum by (by apply covered_words).
  pose proof (rep_range (wordsum (covered p 0 n 10))) as R. set (x := rep _) in *.
  pose proof (htons_range x R) as Hx. rewrite <- (htons_complement (65535 - x)) by lia.
  replace (65535 - (65535 - x)) with x by lia. set (y := lwip_htons x) in *.
  unfold wrap16, Z.lnot. replace (Z.pred (- y)) with (65535 - y + -1 * 2 ^ 16) by lia.
  rewrite Z.mod_add by lia. apply Z.mod_small. lia.
Qed.
End Header.

Section Pseudo.
Context `{NetOrderLaws} (p : list Z) (F : Forall u8 p) (Hfit : 20 <= zlen p).

Lemma be32_halves i : be32 p i / 2 ^ 16 = be16 p i /\ be32 p i mod 2 ^ 16 = be16 p (i + 2).
Proof.
  pose proof (be16_u16 p (i + 2) F) as U. unfold u16, UINT16_MAX in U. unfold be32.
  split; Z.div_mod_to_equations; lia.
Qed.

Lemma address_halves i : 0 <= i -> i + 4 <= zlen p ->
  Z.land (Z.shiftr (lwip_ntohl (le32 p i)) 16) 0xFFFF = be16 p i /\
  Z.land (lwip_ntohl (le32 p i)) 0xFFFF = be16 p (i + 2).
Proof.
  intros Hi Hf. destruct (ntohl_be32 p F i Hi Hf) as [_ ->]. destruct (be32_halves i) as [E1 E2].
  change 65535 with (Z.ones 16). rewrite !Z.land_ones, Z.shiftr_div_pow2, E1, E2 by lia.
  pose proof (be16_u16 p i F) as U. unfold u16, UINT16_MAX in U. rewrite Z.mod_small by lia. done.
Qed.

Lemma pseudo_sum (proto len : Z) :
  0 <= proto <= 255 -> 0 <= len <= 65535 ->
  checksumPseudoHeader (le32 p 12) (le32 p 16) proto len = wordsum (pseudo_words p proto len) /\
  wordsum (pseudo_words p proto len) <= UINT32_MAX.
Proof.
  intros Hp Hl. unfold checksumPseudoHeader.
  destruct (address_halves 12) as [-> ->]; [lia..|]. destruct (address_halves 16) as [-> ->]; [lia..|].
  pose proof (pseudo_words_u16 p proto len F Hp Hl) as W. unfold pseudo_words, wordsum in *. cbn [foldr].
  change (12 + 2) with 14. change (16 + 2) with 18.
  rewrite !Forall_cons in W. destruct W as (? & ? & ? & ? & ? & ? & _).
  split; [|word_lia].
  unfold wrap32. rewrite !Zplus_mod_idemp_l, (Z.mod_small (0 + be16 p 12 + be16 p 14)) by lia.
  rewrite (Z.mod_small (_ + be16 p 18)), Z.mod_small by lia. lia.
Qed.
End Pseudo.

(** ** Packets that agree outside some fields *)

Definition agree_except (fs : list Z) (p q : list Z) : Prop :=
  zlen q = zlen p /\
  forall i, 0 <= i -> Forall (fun f => i < f \/ f + 2 <= i) fs -> byte_at q i = byte_at p i.

Lemma agree_refl fs p : agree_except fs p p.
Proof. done. Qed.

Lemma agree_trans fs p q r : agree_except fs p q -> agree_except fs q r -> agree_except fs p r.
Proof.
  intros [L1 A1] [L2 A2]. split; [lia|]. intros i Hi Ho. rewrite A2 by done. by apply A1.
Qed.

Lemma agree_set16 fs p f c : f ∈ fs -> 0 <= f -> f + 2 <= zlen p -> agree_except fs p (set16 p f c).
Proof.
  intros Hin Hf Hfit. split; [by apply zlen_set16|]. intros i Hi Ho. rewrite Forall_forall in Ho.
  apply set16_byte; auto.
Qed.

Lemma agree_weaken fs fs' p q : fs ⊆ fs' -> agree_except fs p q -> agree_except fs' p q.
Proof.
  intros S [L A]. split; [done|]. intros i Hi Ho. apply A; [done|]. rewrite Forall_forall in *. auto.
Qed.

Lemma slice_agree (p q : list Z) (off n : Z) :
  0 <= off -> 0 <= n -> off + n <= zlen p -> zlen q = zlen p ->
  (forall i, off <= i < off + n -> byte_at q i = byte_at p i) -> slice off n q = slice off n p.
Proof.
  intros Ho Hn Hf L A. revert off Ho Hf A. pattern n. apply natlike_ind; [|clear n Hn|done].
  { intros. by rewrite !slice_zero. }
  intros n Hn IH off Ho Hf A. rewrite !(slice_cons _ off) by lia. replace (Z.succ n - 1) with n by lia.
  rewrite A by lia. f_equal. apply IH; [lia..|]. intros i Hi. apply A. lia.
Qed.

Lemma covered_agree (p q : list Z) (off n f : Z) :
  0 <= off <= f -> f + 2 <= off + n -> off + n <= zlen p -> zlen q = zlen p ->
  (forall i, off <= i < off + n -> i < f \/ f + 2 <= i -> byte_at q i = byte_at p i) ->
  covered q off n f = covered p off n f.
Proof.
  intros Hf Hin Hfit L A. unfold covered.
  f_equal; f_equal; apply slice_agree; try lia; intros i Hi; apply A; lia.
Qed.

(** ** The checksums of a packet *)

(** Length, checksum field and pseudo header of the transport part. *)
Definition transport_part (p : list Z) : option (Z * Z * list Z) :=
  let h := ip_hlen p in
  let tl := ip_tlen p - h in
  if byte_at p 9 =? 6 then Some (tl, h + 16, pseudo_words p 6 tl)
  else if byte_at p 9 =? 17 then
    let ul := be16 p (h + 4) in Some (ul, h + 6, pseudo_words p 17 ul)
  else if byte_at p 9 =? 1 then Some (tl, h + 2, [])
  else None.

(** A UDP checksum of zero is transmitted as all ones. *)
Definition transmitted (proto c : Z) : Z := if (proto =? 17) && (c =? 0) then 65535 else c.

Definition expected_checksum (p : list Z) (n f : Z) (ws : list Z) : Z :=
  transmitted (byte_at p 9) (internet_checksum (ws ++ covered p (ip_hlen p) n f)).

(** The transport header is complete. *)
Definition transport_sound (p : list Z) (n : Z) : bool :=
  if byte_at p 9 =? 6 then tcp_sound p n
  else if byte_at p 9 =? 17 then udp_sound p n
  else if byte_at p 9 =? 1 then ip_hlen p + 8 <=? ip_tlen p
  else true.

Definition ip_checksum_ok (p : list Z) : bool := be16 p 10 =? ip_checksum_of p (ip_hlen p).

(** The transport checksum is exactly the expected one; a UDP checksum may be
    absent. *)
Definition transport_checksum_ok (p : list Z) : bool :=
  match transport_part p with
  | Some (n, f, ws) =>
      ((byte_at p 9 =? 17) && (be16 p f =? 0)) || (be16 p f =? expected_checksum p n f ws)
  | None => true
  end.

Definition checksums_ok (p : list Z) : bool :=
  ip_checksum_ok p && (ip_fragment p || transport_checksum_ok p).

Section Part.
Context (p : list Z) (F : Forall u8 p) (n : Z) (Hn : n <= zlen p) (S : ipv4_sound p n = true).

Lemma sound_bounds : 20 <= ip_hlen p <= 60 /\ ip_hlen p <= ip_tlen p <= n /\ ip_tlen p <= 65535.
Proof.
  unfold ipv4_sound in S. bool_facts. pose proof (be16_u16 p 2 F) as U. fold (ip_tlen p) in U.
  unfold u16, UINT16_MAX in U. pose proof (ip_hlen_range p). lia.
Qed.

Record part_facts (m f : Z) (ws : list Z) : Prop := {
  pf_low : ip_hlen p + 2 <= f;
  pf_even : (f - ip_hlen p) mod 2 = 0;
  pf_in : f + 2 <= ip_hlen p + m;
  pf_fit : ip_hlen p + m <= ip_tlen p;
  pf_words : Forall (fun w => 0 <= w <= 65535) ws;
  pf_sum : wordsum ws <= UINT32_MAX
}.

Lemma part_ok m f ws :
  ip_fragment p = false -> transport_sound p n = true -> transport_part p = Some (m, f, ws) -> part_facts m f ws.
Proof.
  intros Nf T E. destruct sound_bounds as (B1 & B2 & B3). unfold transport_sound, transport_part, tcp_sound, udp_sound in *.
  assert (20 <= zlen p) as L by lia.
  destruct (byte_at p 9 =? 6) eqn:P6; [|destruct (byte_at p 9 =? 17) eqn:P17; [|destruct (byte_at p 9 =? 1) eqn:P1; [|done]]];
    injection E as <- <- <-; bool_facts.
  - pose proof (pseudo_words_u16 p 6 (ip_tlen p - ip_hlen p) F ltac:(lia) ltac:(lia)).
    split; try lia; try done.
    + replace (ip_hlen p + 16 - ip_hlen p) with 16 by lia. done.
    + apply short_wordsum; [done|cbn; lia].
  - rewrite Nf in *. cbn [orb] in *. bool_facts.
    pose proof (pseudo_words_u16 p 17 (be16 p (ip_hlen p + 4)) F ltac:(lia) ltac:(lia)).
    split; try lia; try done.
    + replace (ip_hlen p + 6 - ip_hlen p) with 6 by lia. done.
    + apply short_wordsum; [done|cbn; lia].
  - split; try lia; try done. replace (ip_hlen p + 2 - ip_hlen p) with 2 by lia. done.
Qed.
End Part.

(** ** Recomputing the checksums *)

Section Views.
Context `{NetOrderLaws} (p : list Z) (F : Forall u8 p) (n : Z) (Hn : n <= zlen p).

Lemma view_of_spec :
  view_of p n = Ok (ipv4_sound p n, if ipv4_sound p n then base_view p else zero_view).
Proof. unfold view_of. rewrite view_parse_spec by done. by destruct (ipv4_sound p n). Qed.

Lemma tcp_view_of_spec :
  tcp_view_of p n = Ok (tcp_sound p n, if tcp_sound p n then tcp_view p else zero_view).
Proof. unfold tcp_view_of. rewrite parse_tcp_spec by done. by destruct (tcp_sound p n). Qed.

Lemma udp_view_of_spec :
  udp_view_of p n = Ok (udp_sound p n, if udp_sound p n then udp_view p else zero_view).
Proof. unfold udp_view_of. rewrite parse_udp_spec by done. by destruct (udp_sound p n). Qed.

Lemma readable_spec :
  transport_readable p n (base_view p) = Ok (ip_fragment p || transport_sound p n).
Proof.
  unfold transport_readable, transport_sound, IP_PROTO_TCP, IP_PROTO_UDP, IP_PROTO_ICMP, ICMP_HLEN.
  cbn [fragmented protocol transport_length base_view]. destruct (ip_fragment p); [done|]. cbn [orb].
  rewrite tcp_view_of_spec, udp_view_of_spec. step_ok.
  repeat case_match; try done. unfold mret, outcome_ret. f_equal. lia.
Qed.
End Views.

(** The packet with a transport checksum filled in. *)
Definition fill_transport (p : list Z) : list Z :=
  match transport_part p with
  | Some (n, f, ws) => set16 p f (expected_checksum p n f ws)
  | None => p
  end.

Section Fill.
Context `{NetOrderLaws} (p : list Z) (F : Forall u8 p) (n : Z) (Hn : n <= zlen p).
Context (S : ipv4_sound p n = true) (Nf : ip_fragment p = false) (T : transport_sound p n = true).

Lemma part_checksum_range m f ws :
  transport_part p = Some (m, f, ws) -> 0 <= internet_checksum (ws ++ covered p (ip_hlen p) m f) <= 65535.
Proof.
  intros E. destruct (part_ok p F n Hn S m f ws Nf T E). apply checksum_range, Forall_app.
  split; [done|by apply covered_words].
Qed.

Lemma transmitted_range proto c : 0 <= c <= 65535 -> 0 <= transmitted proto c <= 65535.
Proof. intros. unfold transmitted. case_match; lia. Qed.

(** The computation common to the three protocols. *)
Lemma segment_step m f ws :
  transport_part p = Some (m, f, ws) ->
  checksum_at (set16 p f 0) (ip_hlen p) m (wordsum ws) =
    Ok (lwip_htons (internet_checksum (ws ++ covered p (ip_hlen p) m f))).
Proof.
  intros E. destruct (part_ok p F n Hn S m f ws Nf T E). pose proof (sound_bounds p F n S).
  apply checksum_at_cleared; auto; unfold UINT16_MAX; lia.
Qed.

(** The pseudo header is read while the field is cleared. *)
Lemma pseudo_step f proto len :
  ip_hlen p + 2 <= f -> f + 2 <= zlen p -> 0 <= proto <= 255 -> 0 <= len <= 65535 ->
  wendianLoad32 (set16 p f 0) 12 = Ok (le32 p 12) /\ wendianLoad32 (set16 p f 0) 16 = Ok (le32 p 16) /\
  checksumPseudoHeader (le32 p 12) (le32 p 16) proto len = wordsum (pseudo_words p proto len).
Proof.
  intros Hf Hfit Hp Hl. pose proof (sound_bounds p F n S). splits.
  - rewrite load32_ok by (rewrite ?zlen_set16 by lia; lia). unfold le32. by rewrite set16_slice by lia.
  - rewrite load32_ok by (rewrite ?zlen_set16 by lia; lia). unfold le32. by rewrite set16_slice by lia.
  - apply pseudo_sum; auto; lia.
Qed.

Lemma write_transport_spec : write_transport_checksum p (base_view p) = Ok (fill_transport p).
Proof.
  unfold write_transport_checksum, IP_PROTO_TCP, IP_PROTO_UDP, IP_PROTO_ICMP.
  cbn [protocol transport_offset transport_length base_view].
  destruct (sound_bounds p F n S) as (B1 & B2 & B3).
  pose proof (part_ok p F n Hn S) as PF. pose proof segment_step as ST. pose proof part_checksum_range as RG.
  unfold fill_transport. pose proof (be16_u16 p (ip_hlen p + 4) F) as U4. unfold u16, UINT16_MAX in U4.
  destruct (transport_part p) as [[[m f] ws]|] eqn:E.
  2:{ unfold transport_part in E. repeat case_match; try discriminate. done. }
  specialize (PF m f ws Nf T eq_refl). specialize (ST m f ws eq_refl). specialize (RG m f ws eq_refl).
  destruct PF. unfold expected_checksum, transmitted. unfold transport_part in E.
  destruct (byte_at p 9 =? 6) eqn:P6; [|destruct (byte_at p 9 =? 17) eqn:P17; [|destruct (byte_at p 9 =? 1) eqn:P1; [|done]]];
    injection E as <- <- <-; bool_facts.
  - rewrite store16_zero by lia. step_ok.
    destruct (pseudo_step (ip_hlen p + 16) 6 (ip_tlen p - ip_hlen p)) as (-> & -> & Ps); [lia..|]. step_ok.
    rewrite Ps, ST. step_ok. rewrite store16_ok by field_side.
    rewrite set16_set16 by lia. replace (byte_at p 9 =? 17) with false by lia. done.
  - rewrite le16_be16 by field_side. step_ok. rewrite store16_zero by lia. step_ok.
    destruct (pseudo_step (ip_hlen p + 6) 17 (be16 p (ip_hlen p + 4))) as (-> & -> & Ps); [lia..|]. step_ok.
    rewrite Ps, ST. step_ok. rewrite store16_ok by field_side. step_ok.
    rewrite set16_set16 by lia. rewrite (load16_ok (H := H)) by field_side. step_ok.
    rewrite set16_be16, htons_zero by lia. cbn [andb]. destruct (_ =? 0) eqn:Z0; [|done].
    rewrite store16_ones by field_side. by rewrite set16_set16 by lia.
  - rewrite store16_zero by lia. step_ok. change (wordsum []) with 0 in ST. rewrite ST. step_ok.
    rewrite store16_ok by field_side.
    rewrite set16_set16 by lia. replace (byte_at p 9 =? 17) with false by lia. done.
Qed.
End Fill.

(** The fields a checksum is stored in. *)
Definition checksum_fields (p : list Z) : list Z :=
  10 :: match transport_part p with Some (_, f, _) => [f] | None => [] end.

(** Two packets that differ in their checksums only have the same structure and
    the same expected checksums. *)
Section Same.
Context (p q : list Z) (A : agree_except (checksum_fields p) p q).

Lemma same_byte i :
  0 <= i -> i < 10 \/ 12 <= i ->
  (forall m f ws, transport_part p = Some (m, f, ws) -> i < f \/ f + 2 <= i) ->
  byte_at q i = byte_at p i.
Proof.
  intros Hi Ho Ht. apply A; [done|]. unfold checksum_fields. constructor; [lia|].
  destruct (transport_part p) as [[[m f] ws]|]; [|done]. constructor; [by apply (Ht m f ws)|done].
Qed.

Context (Hh : 20 <= ip_hlen p).

Lemma part_field m f ws : transport_part p = Some (m, f, ws) ->
  (f = ip_hlen p + 16 /\ byte_at p 9 = 6) \/ (f = ip_hlen p + 6 /\ byte_at p 9 = 17) \/
  (f = ip_hlen p + 2 /\ byte_at p 9 = 1).
Proof. unfold transport_part. intros E. repeat case_match; try discriminate; injection E as <- <- <-; bool_facts; lia. Qed.

Lemma same_header i : 0 <= i < 10 \/ 12 <= i < 22 -> byte_at q i = byte_at p i.
Proof. intros Hi. apply same_byte; [lia..|]. intros m f ws E. apply part_field in E. lia. Qed.

Lemma same_be16 i : 0 <= i < 9 \/ 12 <= i < 21 -> be16 q i = be16 p i.
Proof. intros. unfold be16. by rewrite !same_header by lia. Qed.

Lemma same_lengths : ip_version q = ip_version p /\ ip_hlen q = ip_hlen p /\ ip_tlen q = ip_tlen p /\
  ip_fragment q = ip_fragment p /\ byte_at q 9 = byte_at p 9.
Proof.
  unfold ip_version, ip_hlen, ip_tlen, ip_fragment. by rewrite !same_header, !same_be16 by lia.
Qed.

Lemma same_sound n : ipv4_sound q n = ipv4_sound p n.
Proof. unfold ipv4_sound. by destruct same_lengths as (-> & -> & -> & _). Qed.

Lemma same_udp_length : byte_at p 9 = 17 -> be16 q (ip_hlen p + 4) = be16 p (ip_hlen p + 4).
Proof. intros P. unfold be16. by rewrite !same_byte by (try lia; intros m f ws E; apply part_field in E; lia). Qed.

Lemma same_tcp_length : byte_at p 9 = 6 -> tcp_hlen q (ip_hlen p) = tcp_hlen p (ip_hlen p).
Proof. intros P. unfold tcp_hlen. by rewrite !same_byte by (try lia; intros m f ws E; apply part_field in E; lia). Qed.

Lemma same_part : transport_part q = transport_part p.
Proof.
  unfold transport_part, pseudo_words. destruct same_lengths as (_ & -> & -> & _ & ->).
  rewrite !same_be16 by lia. destruct (byte_at p 9 =? 6); [done|].
  destruct (byte_at p 9 =? 17) eqn:P; [|done]. bool_facts. by rewrite same_udp_length.
Qed.

Lemma same_transport_sound n : transport_sound q n = transport_sound p n.
Proof.
  unfold transport_sound, tcp_sound, udp_sound. rewrite same_sound.
  destruct same_lengths as (_ & -> & -> & -> & ->). rewrite !same_be16 by lia.
  destruct (byte_at p 9 =? 6) eqn:P6; [bool_facts; by rewrite same_tcp_length|].
  destruct (byte_at p 9 =? 17) eqn:P; [bool_facts; by rewrite same_udp_length|done].
Qed.

Lemma same_base_view n : ipv4_sound p n = true -> n <= zlen p -> base_view q = base_view p.
Proof.
  intros S Hn. unfold ipv4_sound in S. bool_facts. destruct A as [L _].
  unfold base_view, le32. destruct same_lengths as (_ & -> & -> & -> & ->).
  rewrite !same_be16, (same_header 8) by lia.
  by rewrite !(slice_agree p q) by (try lia; intros; apply same_header; lia).
Qed.

Lemma same_ip_checksum : ip_hlen p <= zlen p -> ip_checksum_of q (ip_hlen p) = ip_checksum_of p (ip_hlen p).
Proof.
  intros Hf. unfold ip_checksum_of. f_equal. apply covered_agree; try lia; [apply A|].
  intros i Hi Ho. apply same_byte; [lia..|]. intros m f ws E. apply part_field in E. lia.
Qed.

Lemma same_expected m f ws :
  transport_part p = Some (m, f, ws) -> f + 2 <= ip_hlen p + m -> ip_hlen p + m <= zlen p ->
  expected_checksum q m f ws = expected_checksum p m f ws.
Proof.
  intros E Hin Hf. unfold expected_checksum. destruct same_lengths as (_ & -> & _ & _ & ->). do 3 f_equal.
  pose proof (part_field m f ws E). apply covered_agree; try lia; [apply A|].
  intros i Hi Ho. apply same_byte; [lia..|]. intros m' f' ws' E'. rewrite E in E'. injection E' as <- <- <-. lia.
Qed.
End Same.

(** The result of recomputing everything. *)
Definition fill_ip (p : list Z) : list Z := set16 p 10 (ip_checksum_of p (ip_hlen p)).

Definition fill_checksums (p : list Z) : list Z :=
  if ip_fragment p then fill_ip p else fill_transport (fill_ip p).

Section Full.
Context `{InetChecksumLaws} `{!NetOrderLaws} (p : list Z) (F : Forall u8 p) (n : Z) (Hn : n <= zlen p).

Lemma fill_ip_agree : 12 <= zlen p -> agree_except (checksum_fields p) p (fill_ip p).
Proof. intros. apply agree_set16; [|lia..]. unfold checksum_fields. left. Qed.

Lemma header_step : ipv4_sound p n = true ->
  (buf ← IPH_CHKSUM_SET p 0; c ← inet_chksum_at buf (ip_hlen p); IPH_CHKSUM_SET buf c) = Ok (fill_ip p).
Proof.
  intros S. destruct (sound_bounds p F n S) as (B1 & B2 & B3). unfold IPH_CHKSUM_SET.
  rewrite store16_zero by lia. step_ok. rewrite inet_chksum_cleared by (auto; lia). step_ok.
  pose proof (ip_checksum_range p F (ip_hlen p)). rewrite store16_ok by field_side.
  by rewrite set16_set16 by lia.
Qed.

Lemma calc_full_spec :
  calcFullPacketChecksum p n =
  Ok (if ipv4_sound p n && (ip_fragment p || transport_sound p n) then (true, fill_checksums p) else (false, p)).
Proof.
  unfold calcFullPacketChecksum. rewrite view_of_spec by done. step_ok.
  destruct (ipv4_sound p n) eqn:S; [|done]. cbn [negb andb]. rewrite readable_spec by done. step_ok.
  destruct (ip_fragment p || transport_sound p n) eqn:T; [|done]. cbn [negb].
  destruct (sound_bounds p F n S) as (B1 & B2 & B3).
  change (ip_header_length (base_view p)) with (ip_hlen p). change (fragmented (base_view p)) with (ip_fragment p).
  pose proof (header_step S) as Hd. apply bind_Ok in Hd as (b1 & -> & Hd). step_ok.
  apply bind_Ok in Hd as (c & -> & Hd). step_ok. rewrite Hd. step_ok. unfold fill_checksums.
  destruct (ip_fragment p) eqn:Nf; [done|]. cbn [orb] in T.
  pose proof (fill_ip_agree ltac:(lia)) as A.
  rewrite <- (same_base_view p (fill_ip p) A ltac:(lia) n) by (done || lia).
  rewrite (write_transport_spec (fill_ip p) (set16_u8 p F 10 _) n).
  - done.
  - unfold fill_ip. rewrite zlen_set16; lia.
  - rewrite (same_sound p); [done|done|lia].
  - pose proof (same_lengths p _ A ltac:(lia)) as (_ & _ & _ & -> & _). done.
  - rewrite (same_transport_sound p); [done|done|lia].
Qed.
End Full.
