(* ===== verification/PacketValidate.v ===== *)
(** * Validation of packets read from a stream ([tunnels/Internals/Ipv4StreamCodec/src/codec.c])

    The three validation levels of the IPv4 stream codec.  A check clears a
    checksum field in place, computes what it should hold and restores it.  The
    theorems relate the checks to the sums a receiver computes and to the
    functions of [TransportChecksum] that write them. *)

From Stdlib Require Import String ZArith Lia.
From stdpp Require Import base numbers option list.
From S2P Require Import Prelude ShiftBuffer Endian Checksum PacketChecksum PacketView TransportChecksum.
Open Scope Z_scope.
Open Scope word_scope.

Inductive ipv4stream_validation_level_t : Type :=
  kIpv4StreamValidationNone | kIpv4StreamValidationLoose | kIpv4StreamValidationHard.

Definition ipv4streamValidationLevelName (level : ipv4stream_validation_level_t) : string :=
  match level with
  | kIpv4StreamValidationNone => "none"
  | kIpv4StreamValidationLoose => "loose"
  | kIpv4StreamValidationHard => "hard"
  end%string.

(** The packet of a buffer, replaced in place. *)
Definition set_payload (b : sbuf_t) (l : list Z) : sbuf_t :=
  set_raw b (l ++ drop (Z.to_nat (len b)) (raw b)).

Section Code.
Context `{NetOrder} `{InetChecksum}.

Definition ipv4streamChecksumPseudoHeader (iphdr : list Z) (proto length : Z) : outcome Z :=
  src ← load_ntohl iphdr 12;
  dst ← load_ntohl iphdr 16;
  let sum := 0 +32 Z.land (Z.shiftr src 16) 0xFFFF in
  let sum := sum +32 Z.land src 0xFFFF in
  let sum := sum +32 Z.land (Z.shiftr dst 16) 0xFFFF in
  let sum := sum +32 Z.land dst 0xFFFF in
  let sum := sum +32 proto in
  mret (sum +32 length).

(** A reason, or the lengths written through the output pointers. *)
Definition ipv4streamValidateIpv4PacketHeader (packet : list Z) : outcome (string + Z * Z) :=
  let packet_len := zlen packet in
  if packet_len <? IP_HLEN then mret (inl "packet is smaller than the IPv4 header"%string) else
  v_hl ← load8 packet 0;
  if negb (Z.shiftr v_hl 4 =? 4) then mret (inl "unsupported IP version"%string) else
  let header_len := wrap8 (Z.land v_hl 0x0f * 4) in
  if header_len <? IP_HLEN then mret (inl "invalid IPv4 header length"%string) else
  if header_len >? packet_len
  then mret (inl "buffer is shorter than the IPv4 header length"%string) else
  total_len ← load_ntohs packet 2;
  if total_len <? header_len
  then mret (inl "IPv4 total length is smaller than the header"%string) else
  if total_len <? packet_len
  then mret (inl "IPv4 total length is smaller than the packet buffer"%string) else
  if total_len >? packet_len
  then mret (inl "buffer is shorter than the IPv4 total length"%string) else
  mret (inr (header_len, total_len)).

Definition ipv4streamValidateIpv4HeaderChecksum (iphdr : list Z) (header_len : Z)
  : outcome (option string * list Z) :=
  original_checksum ← wendianLoad16 iphdr 10;
  iphdr ← IPH_CHKSUM_SET iphdr 0;
  expected_checksum ← inet_chksum_at iphdr header_len;
  iphdr ← IPH_CHKSUM_SET iphdr original_checksum;
  if negb (original_checksum =? expected_checksum)
  then mret (Some "invalid IPv4 header checksum"%string, iphdr) else mret (None, iphdr).

Definition ipv4streamValidateTcpChecksum (iphdr : list Z) (header_len total_len : Z)
  : outcome (option string * list Z) :=
  let transport_len := wrap16 (total_len - header_len) in
  if transport_len <? TCP_HLEN
  then mret (Some "TCP packet is smaller than the minimum header"%string, iphdr) else
  let transport := header_len in
  tcp_hlen ← TCPH_HDRLEN_BYTES iphdr transport;
  if (tcp_hlen <? TCP_HLEN) || (tcp_hlen >? transport_len)
  then mret (Some "invalid TCP header length"%string, iphdr) else
  original_checksum ← wendianLoad16 iphdr (transport + 16);
  iphdr ← wendianStore16 iphdr (transport + 16) 0;
  seed ← ipv4streamChecksumPseudoHeader iphdr IP_PROTO_TCP transport_len;
  expected_checksum ← checksum_at iphdr transport transport_len seed;
  iphdr ← wendianStore16 iphdr (transport + 16) original_checksum;
  if negb (original_checksum =? expected_checksum)
  then mret (Some "invalid TCP checksum"%string, iphdr) else mret (None, iphdr).

Definition ipv4streamValidateUdpChecksum (iphdr : list Z) (header_len total_len : Z)
  : outcome (option string * list Z) :=
  let transport_len := wrap16 (total_len - header_len) in
  if transport_len <? UDP_HLEN
  then mret (Some "UDP packet is smaller than the minimum header"%string, iphdr) else
  let transport := header_len in
  udp_len ← load_ntohs iphdr (transport + 4);
  if (udp_len <? UDP_HLEN) || (udp_len >? transport_len)
  then mret (Some "invalid UDP length"%string, iphdr) else
  original_checksum ← wendianLoad16 iphdr (transport + 6);
  if original_checksum =? 0 then mret (None, iphdr) else
  iphdr ← wendianStore16 iphdr (transport + 6) 0;
  seed ← ipv4streamChecksumPseudoHeader iphdr IP_PROTO_UDP udp_len;
  expected_checksum ← checksum_at iphdr transport udp_len seed;
  iphdr ← wendianStore16 iphdr (transport + 6) original_checksum;
  let expected_checksum := if expected_checksum =? 0 then 0xFFFF else expected_checksum in
  if negb (original_checksum =? expected_checksum)
  then mret (Some "invalid UDP checksum"%string, iphdr) else mret (None, iphdr).

Definition ipv4streamValidateIcmpChecksum (iphdr : list Z) (header_len total_len : Z)
  : outcome (option string * list Z) :=
  let transport_len := wrap16 (total_len - header_len) in
  if transport_len <? ICMP_HLEN
  then mret (Some "ICMP packet is smaller than the minimum header"%string, iphdr) else
  let transport := header_len in
  original_checksum ← wendianLoad16 iphdr (transport + 2);
  iphdr ← wendianStore16 iphdr (transport + 2) 0;
  expected_checksum ← checksum_at iphdr transport transport_len 0;
  iphdr ← wendianStore16 iphdr (transport + 2) original_checksum;
  if negb (original_checksum =? expected_checksum)
  then mret (Some "invalid ICMP checksum"%string, iphdr) else mret (None, iphdr).

(** What follows the header checks at the hard level. *)
Definition hard_checks (iphdr : list Z) (header_len total_len : Z) : outcome (option string * list Z) :=
  '(reason, iphdr) ← ipv4streamValidateIpv4HeaderChecksum iphdr header_len;
  if bool_decide (reason <> None) then mret (reason, iphdr) else
  frag_field ← load_ntohs iphdr 6;
  if negb (Z.land frag_field (Z.lor IP_MF IP_OFFMASK) =? 0) then mret (None, iphdr) else
  proto ← load8 iphdr 9;
  if proto =? IP_PROTO_TCP then ipv4streamValidateTcpChecksum iphdr header_len total_len
  else if proto =? IP_PROTO_UDP then ipv4streamValidateUdpChecksum iphdr header_len total_len
  else if proto =? IP_PROTO_ICMP then ipv4streamValidateIcmpChecksum iphdr header_len total_len
  else mret (None, iphdr).

Definition ipv4streamValidatePacket (level : ipv4stream_validation_level_t) (packet : sbuf_t)
  : outcome (option string * sbuf_t) :=
  _ ← assert_ (negb (sbufIsSplice packet));
  match level with
  | kIpv4StreamValidationNone => mret (None, packet)
  | _ =>
      bytes ← read_at packet 0 (sbufGetLength packet);
      header ← ipv4streamValidateIpv4PacketHeader bytes;
      match header, level with
      | inl reason, _ => mret (Some reason, packet)
      | inr _, kIpv4StreamValidationLoose => mret (None, packet)
      | inr (header_len, total_len), _ =>
          '(reason, bytes) ← hard_checks bytes header_len total_len;
          mret (reason, set_payload packet bytes)
      end
  end.
End Code.

(** ** What the levels accept *)

(** One complete packet and nothing else. *)
Definition loose_sound (p : list Z) : bool := ipv4_sound p (zlen p) && (ip_tlen p =? zlen p).

Definition hard_sound (p : list Z) : bool :=
  loose_sound p && (ip_fragment p || transport_sound p (zlen p)) && checksums_ok p.

Definition level_sound (level : ipv4stream_validation_level_t) (p : list Z) : bool :=
  match level with
  | kIpv4StreamValidationNone => true
  | kIpv4StreamValidationLoose => loose_sound p
  | kIpv4StreamValidationHard => hard_sound p
  end.

Lemma restore16 (p : list Z) (f c : Z) :
  Forall u8 p -> 0 <= f -> f + 2 <= zlen p -> set16 (set16 p f c) f (be16 p f) = p.
Proof. intros. rewrite set16_set16 by lia. by apply set16_self. Qed.

Section Checks.
Context `{InetChecksumLaws} `{!NetOrderLaws} (p : list Z) (F : Forall u8 p).

Ltac refused :=
  eexists; split; [done|]; apply not_true_iff_false; intros X; bool_facts; lia.

Lemma header_checks_spec :
  exists r, ipv4streamValidateIpv4PacketHeader p = Ok r /\
    match r with
    | inl _ => loose_sound p = false
    | inr (h, t) => loose_sound p = true /\ h = ip_hlen p /\ t = ip_tlen p
    end.
Proof.
  unfold ipv4streamValidateIpv4PacketHeader, loose_sound, ipv4_sound, IP_HLEN.
  destruct (zlen p <? 20) eqn:E1; [refused|]. bool_facts.
  rewrite (load8_ok p 0) by lia. step_ok. rewrite Z.shiftr_div_pow2 by lia. fold (ip_version p).
  destruct (ip_version p =? 4) eqn:E2; cbn [negb]; [|refused].
  rewrite ip_hlen_code, (le16_be16 p F 2) by lia. step_ok. fold (ip_tlen p).
  pose proof (ip_hlen_range p).
  destruct (ip_hlen p <? 20) eqn:E3; [refused|]. destruct (ip_hlen p >? zlen p) eqn:E4; [refused|].
  destruct (ip_tlen p <? ip_hlen p) eqn:E5; [refused|]. destruct (ip_tlen p <? zlen p) eqn:E6; [refused|].
  destruct (ip_tlen p >? zlen p) eqn:E7; [refused|].
  eexists. split; [done|]. cbv beta iota. splits; try done. rewrite !andb_true_iff. bool_facts. lia.
Qed.

Context (L : loose_sound p = true).

Lemma loose_facts :
  ipv4_sound p (zlen p) = true /\ 20 <= ip_hlen p <= 60 /\ ip_hlen p <= ip_tlen p /\ ip_tlen p = zlen p /\ zlen p <= 65535.
Proof.
  unfold loose_sound in L. apply andb_true_iff in L as [S E]. bool_facts.
  destruct (sound_bounds p F (zlen p) S) as (? & ? & ?). splits; try lia; done.
Qed.

(** Comparing a stored field with a computed one, in either byte order. *)
Lemma htons_eqb a b : 0 <= a <= 65535 -> 0 <= b <= 65535 -> (lwip_htons a =? lwip_htons b) = (a =? b).
Proof.
  intros Ha Hb. apply eq_true_iff_eq. rewrite !Z.eqb_eq. split; [|by intros ->].
  intros E. apply (f_equal lwip_htons) in E. by rewrite !htons_htons in E by lia.
Qed.

Lemma be16_range i : 0 <= be16 p i <= 65535.
Proof. apply (be16_u16 p i F). Qed.

Lemma header_checksum_step :
  exists r, ipv4streamValidateIpv4HeaderChecksum p (ip_hlen p) = Ok (r, p) /\
    (r = None <-> ip_checksum_ok p = true).
Proof.
  destruct loose_facts as (S & B1 & B2 & B3 & B4). unfold ipv4streamValidateIpv4HeaderChecksum, IPH_CHKSUM_SET.
  rewrite (load16_ok p F) by lia. step_ok. rewrite store16_zero by lia. step_ok.
  rewrite inet_chksum_cleared by (auto; lia). step_ok.
  pose proof (be16_range 10). pose proof (ip_checksum_range p F (ip_hlen p)).
  rewrite store16_ok by field_side. step_ok. rewrite restore16, htons_eqb by (auto; lia).
  unfold ip_checksum_ok. destruct (be16 p 10 =? ip_checksum_of p (ip_hlen p)); cbn [negb]; eexists; split; done.
Qed.

Lemma pseudo_header_step f proto len :
  ip_hlen p + 2 <= f -> f + 2 <= zlen p -> 0 <= proto <= 255 -> 0 <= len <= 65535 ->
  ipv4streamChecksumPseudoHeader (set16 p f 0) proto len = Ok (wordsum (pseudo_words p proto len)).
Proof.
  intros Hf Hfit Hp Hl. destruct loose_facts as (S & B1 & B2 & B3 & B4).
  destruct (pseudo_step p F (zlen p) S f proto len) as (E1 & E2 & E3); [lia..|].
  unfold ipv4streamChecksumPseudoHeader, load_ntohl. rewrite E1, E2. step_ok. rewrite <- E3. done.
Qed.

Context (Nf : ip_fragment p = false).

Lemma no_offset : be16 p 6 mod 2 ^ 13 = 0.
Proof. rewrite (fragment_split p F) in Nf. apply orb_false_iff in Nf as [_ N]. bool_facts. done. Qed.

Lemma transport_len_code : wrap16 (ip_tlen p - ip_hlen p) = ip_tlen p - ip_hlen p.
Proof. destruct loose_facts as (S & B1 & B2 & B3 & B4). apply wrap16_small. unfold UINT16_MAX. lia. Qed.

(** The verdict of a transport check on a packet of its protocol. *)
Definition verdict (r : option string) : Prop :=
  r = None <-> transport_sound p (zlen p) && transport_checksum_ok p = true.

Lemma tcp_check : byte_at p 9 = 6 ->
  exists r, ipv4streamValidateTcpChecksum p (ip_hlen p) (ip_tlen p) = Ok (r, p) /\ verdict r.
Proof.
  intros P. destruct loose_facts as (S & B1 & B2 & B3 & B4).
  pose proof (segment_step p F (zlen p) ltac:(lia) S Nf) as ST.
  pose proof (part_checksum_range p F (zlen p) ltac:(lia) S Nf) as RG.
  unfold ipv4streamValidateTcpChecksum, verdict, TCP_HLEN, IP_PROTO_TCP. rewrite transport_len_code.
  unfold transport_sound, transport_checksum_ok, expected_checksum, transmitted, transport_part in *.
  rewrite P in *. cbn [Z.eqb Pos.eqb andb orb] in *. unfold tcp_sound in *. rewrite S, P, (no_offset) in *.
  cbn [Z.eqb Pos.eqb andb] in *.
  destruct (_ <? 20) eqn:E1.
  { eexists; split; [done|]. split; [done|]. intros X. bool_facts. lia. }
  bool_facts. rewrite tcp_hlen_code by (auto; lia). step_ok.
  destruct (_ || _) eqn:E2.
  { eexists; split; [done|]. split; [done|]. intros X. bool_facts. apply orb_true_iff in E2 as [E|E]; bool_facts; lia. }
  bool_facts. rewrite (load16_ok p F) by lia. step_ok. rewrite store16_zero by lia. step_ok.
  rewrite pseudo_header_step by field_side. step_ok.
  rewrite (ST ltac:(rewrite !andb_true_iff; lia) _ _ _ eq_refl).
  specialize (RG ltac:(rewrite !andb_true_iff; lia) _ _ _ eq_refl). step_ok. pose proof (be16_range (ip_hlen p + 16)).
  rewrite store16_ok by field_side. step_ok. rewrite restore16, htons_eqb by (auto; lia).
  replace ((_ <=? _) && _ && _) with true by (symmetry; rewrite !andb_true_iff; lia). cbn [andb].
  destruct (_ =? _); cbn [negb]; eexists; split; done.
Qed.

Lemma udp_check : byte_at p 9 = 17 ->
  exists r, ipv4streamValidateUdpChecksum p (ip_hlen p) (ip_tlen p) = Ok (r, p) /\ verdict r.
Proof.
  intros P. destruct loose_facts as (S & B1 & B2 & B3 & B4).
  pose proof (segment_step p F (zlen p) ltac:(lia) S Nf) as ST.
  pose proof (part_checksum_range p F (zlen p) ltac:(lia) S Nf) as RG.
  unfold ipv4streamValidateUdpChecksum, verdict, UDP_HLEN, IP_PROTO_UDP. rewrite transport_len_code.
  unfold transport_sound, transport_checksum_ok, expected_checksum, transmitted, transport_part in *.
  rewrite P in *. cbn [Z.eqb Pos.eqb andb orb] in *. unfold udp_sound in *. rewrite S, P, Nf, (no_offset) in *.
  cbn [Z.eqb Pos.eqb andb orb] in *.
  destruct (_ <? 8) eqn:E1.
  { eexists; split; [done|]. split; [done|]. intros X. bool_facts. lia. }
  bool_facts. rewrite (le16_be16 p F) by lia. step_ok.
  pose proof (be16_range (ip_hlen p + 4)). pose proof (be16_range (ip_hlen p + 6)).
  destruct (_ || _) eqn:E2.
  { eexists; split; [done|]. split; [done|]. intros X. bool_facts. apply orb_true_iff in E2 as [E|E]; bool_facts; lia. }
  bool_facts. replace ((_ <=? _) && _ && _) with true by (symmetry; rewrite !andb_true_iff; lia). cbn [andb].
  rewrite (load16_ok p F) by lia. step_ok. rewrite htons_zero by lia.
  destruct (be16 p (ip_hlen p + 6) =? 0) eqn:Z0; [eexists; split; done|]. cbn [orb].
  rewrite store16_zero by lia. step_ok. rewrite pseudo_header_step by field_side. step_ok.
  rewrite (ST ltac:(rewrite !andb_true_iff; lia) _ _ _ eq_refl).
  specialize (RG ltac:(rewrite !andb_true_iff; lia) _ _ _ eq_refl). step_ok.
  rewrite store16_ok by field_side. step_ok. rewrite restore16, htons_zero by (auto; lia).
  set (c := internet_checksum _) in *.
  replace (if c =? 0 then 65535 else lwip_htons c) with (lwip_htons (if c =? 0 then 65535 else c))
    by (destruct (c =? 0); [by rewrite htons_swap by lia|done]).
  rewrite htons_eqb by (try destruct (c =? 0); lia).
  destruct (be16 p (ip_hlen p + 6) =? (if c =? 0 then 65535 else c)); cbn [negb]; eexists; split; done.
Qed.

Lemma icmp_check : byte_at p 9 = 1 ->
  exists r, ipv4streamValidateIcmpChecksum p (ip_hlen p) (ip_tlen p) = Ok (r, p) /\ verdict r.
Proof.
  intros P. destruct loose_facts as (S & B1 & B2 & B3 & B4).
  pose proof (segment_step p F (zlen p) ltac:(lia) S Nf) as ST.
  pose proof (part_checksum_range p F (zlen p) ltac:(lia) S Nf) as RG.
  unfold ipv4streamValidateIcmpChecksum, verdict, ICMP_HLEN. rewrite transport_len_code.
  unfold transport_sound, transport_checksum_ok, expected_checksum, transmitted, transport_part in *.
  rewrite P in *. cbn [Z.eqb Pos.eqb andb orb] in *. pose proof (be16_range (ip_hlen p + 2)).
  destruct (_ <? 8) eqn:E1.
  { eexists; split; [done|]. split; [done|]. intros X. bool_facts. lia. }
  bool_facts. rewrite (load16_ok p F) by lia. step_ok. rewrite store16_zero by lia. step_ok.
  pose proof (ST ltac:(lia) _ _ _ eq_refl) as C. change (wordsum []) with 0 in C. rewrite C.
  specialize (RG ltac:(lia) _ _ _ eq_refl). step_ok.
  rewrite store16_ok by field_side. step_ok. rewrite restore16, htons_eqb by (auto; lia).
  replace (ip_hlen p + 8 <=? ip_tlen p) with true by lia. cbn [andb].
  destruct (_ =? _); cbn [negb]; eexists; split; done.
Qed.
End Checks.

(** All checks of the hard level. *)
Lemma hard_checks_spec `{InetChecksumLaws} `{!NetOrderLaws} (p : list Z) :
  Forall u8 p -> loose_sound p = true ->
  exists r, hard_checks p (ip_hlen p) (ip_tlen p) = Ok (r, p) /\ (r = None <-> hard_sound p = true).
Proof.
  intros F L. destruct (loose_facts p F L) as (S & B1 & B2 & B3 & B4). unfold hard_checks, hard_sound, checksums_ok.
  destruct (header_checksum_step p F L) as (r & -> & Hr). step_ok. rewrite L. cbn [andb].
  destruct r as [m|]; cbn [bool_decide].
  { rewrite bool_decide_eq_true_2 by done. eexists; split; [done|]. split; [done|]. intros X. bool_facts.
    destruct Hr as [_ Hr]. discriminate (Hr ltac:(done)). }
  rewrite bool_decide_eq_false_2 by (intros X; by apply X). destruct Hr as [-> _]; [|done].
  rewrite (le16_be16 p F) by lia. step_ok. rewrite mask_fragment. fold (ip_fragment p).
  destruct (ip_fragment p) eqn:Nf; [eexists; split; done|]. cbn [orb andb].
  rewrite load8_ok by lia. step_ok. unfold IP_PROTO_TCP, IP_PROTO_UDP, IP_PROTO_ICMP.
  destruct (byte_at p 9 =? 6) eqn:P6; [bool_facts; by apply tcp_check|].
  destruct (byte_at p 9 =? 17) eqn:P17; [bool_facts; by apply udp_check|].
  destruct (byte_at p 9 =? 1) eqn:P1; [bool_facts; by apply icmp_check|].
  eexists; split; [done|]. unfold transport_sound, transport_checksum_ok, transport_part. by rewrite P6, P17, P1.
Qed.

(** ** What a receiver sees *)

(** The sum over header or segment, checksum included, is all ones. *)
Definition receiver_accepts (p : list Z) : Prop :=
  ones_sum (words_be (slice 0 (ip_hlen p) p)) = 65535 /\
  match transport_part p with
  | Some (m, f, ws) =>
      ip_fragment p = true \/ (byte_at p 9 = 17 /\ be16 p f = 0) \/
      ones_sum (ws ++ words_be (slice (ip_hlen p) m p)) = 65535
  | None => True
  end.

Lemma complement_sums (x : Z) (proto : Z) : 0 <= x -> rep (x + transmitted proto (65535 - rep x)) = 65535.
Proof.
  intros Hx. unfold transmitted. destruct (_ && _) eqn:E; [|by apply rep_complement].
  bool_facts. assert (rep x = 65535) as R by lia. rewrite <- R at 2. rewrite <- R. apply ceq_rep.
  destruct (rep_ceq x Hx) as (_ & _ & M & Z0). unfold ceq. rewrite R in *. splits; try lia.
  rewrite Z.add_mod, Z.mod_same, Z.add_0_r, Z.mod_mod by lia. done.
Qed.

Section Receiver.
Context (p : list Z) (F : Forall u8 p).

(** A segment whose field holds the expected checksum sums to all ones. *)
Lemma segment_accepted (ws : list Z) (off n f proto : Z) :
  0 <= off <= f -> (f - off) mod 2 = 0 -> f + 2 <= off + n -> off + n <= zlen p ->
  Forall (fun w => 0 <= w <= 65535) ws ->
  be16 p f = transmitted proto (internet_checksum (ws ++ covered p off n f)) ->
  ones_sum (ws ++ words_be (slice off n p)) = 65535.
Proof.
  intros Hf He Hin Hfit W E. assert (Forall (fun w => 0 <= w <= 65535) (words_be (slice off n p)))
    by by apply words_u16, Forall_slice.
  rewrite ones_sum_total by by apply Forall_app. fold (wordsum (ws ++ words_be (slice off n p))).
  rewrite wordsum_app. unfold wordsum at 2. fold (wsum (slice off n p)). rewrite (wsum_field p off n f) by lia.
  rewrite E, checksum_sum by (apply Forall_app; split; [done|by apply covered_words]).
  rewrite Z.add_assoc, <- wordsum_app. apply complement_sums. apply wordsum_nonneg, Forall_app.
  split; [done|by apply covered_words].
Qed.

Lemma ok_accepted (n : Z) :
  n <= zlen p -> ipv4_sound p n = true -> ip_fragment p || transport_sound p n = true ->
  checksums_ok p = true -> receiver_accepts p.
Proof.
  intros Hn S T C. destruct (sound_bounds p F n S) as (B1 & B2 & B3).
  unfold checksums_ok, ip_checksum_ok, transport_checksum_ok in C. apply andb_true_iff in C as [C1 C2]. bool_facts.
  split.
  - rewrite <- (app_nil_l (words_be _)). apply (segment_accepted [] 0 (ip_hlen p) 10 0); try lia; done.
  - pose proof (part_ok p F n Hn S) as PF. destruct (transport_part p) as [[[m f] ws]|]; [|done].
    destruct (ip_fragment p) eqn:Nf; [by left|]. cbn [orb] in *. right.
    destruct (PF m f ws eq_refl T eq_refl). apply orb_true_iff in C2 as [C2|C2]; bool_facts; [by left|right].
    by apply (segment_accepted ws (ip_hlen p) m f (byte_at p 9)); try lia.
Qed.
End Receiver.

(** ** Theorems *)

Section Buffers.
Context (b : sbuf_t) (G : good b).

Lemma set_payload_id : set_payload b (payload b) = b.
Proof.
  unfold set_payload. rewrite payload_raw. unfold slice. rewrite drop_0, take_drop. by apply set_raw_id.
Qed.
End Buffers.

Lemma validate_packet_spec `{InetChecksumLaws} `{!NetOrderLaws}
    (level : ipv4stream_validation_level_t) (b : sbuf_t) :
  good b ->
  exists r, ipv4streamValidatePacket level b = Ok (r, b) /\
    (r = None <-> level_sound level (payload b) = true).
Proof.
  intros G. pose proof G as [W O]. unfold ipv4streamValidatePacket, sbufGetLength.
  unfold ordinary in O. rewrite O. cbn [negb]. rewrite assert_bind by done.
  destruct level; [eexists; split; done| |].
  all: rewrite read_payload by (auto; pose proof (wf_len b W); lia);
    rewrite take_ge by (pose proof (zlen_payload b W); unfold zlen in *; lia); step_ok;
    destruct (header_checks_spec (payload b) (payload_u8 b W)) as ([m|[h t]] & -> & R); step_ok; cbv beta iota.
  1, 3: eexists; split; [done|]; cbn [level_sound]; unfold hard_sound; rewrite R; done.
  { destruct R as (R & _). eexists; split; [done|]. cbn [level_sound]. by rewrite R. }
  destruct R as (L & -> & ->). destruct (hard_checks_spec (payload b) (payload_u8 b W) L) as (r & -> & Hr).
  step_ok. rewrite set_payload_id by done. eexists; split; done.
Qed.

(** C17. Validation of a packet at any level never reads outside it, accepts
    exactly the packets the level describes (anything; one complete IPv4 packet;
    one whose header checksum and, unless it is a fragment, TCP, UDP or ICMP
    checksum are the right ones, a UDP checksum possibly absent) and leaves every
    byte of the buffer as it was, although it clears the fields while it
    computes. *)
Theorem validate_packet_exact `{InetChecksumLaws} `{!NetOrderLaws}
    (level : ipv4stream_validation_level_t) (b : sbuf_t) :
  good b ->
  exists r, ipv4streamValidatePacket level b = Ok (r, b) /\
    (r = None <-> level_sound level (payload b) = true).
Proof. apply validate_packet_spec. Qed.

Section Filled.
Context (p : list Z) (F : Forall u8 p) (n : Z) (Hn : n <= zlen p) (S : ipv4_sound p n = true).
Context (T : ip_fragment p || transport_sound p n = true).

(** The transport part and what is stored there. *)
Lemma fill_transport_eq m f ws :
  ip_fragment p = false -> transport_part p = Some (m, f, ws) ->
  fill_checksums p = set16 (fill_ip p) f (expected_checksum p m f ws) /\
  0 <= expected_checksum p m f ws <= 65535 /\ part_facts p m f ws.
Proof.
  intros Nf E. pose proof T as T'. rewrite Nf in T'. cbn [orb] in T'. destruct (sound_bounds p F n S) as (B1 & B2 & B3).
  pose proof (part_ok p F n Hn S m f ws Nf T' E) as PF. pose proof PF as []. pose proof (fill_ip_agree p ltac:(lia)) as A.
  splits; try done.
  - unfold fill_checksums, fill_transport. rewrite Nf, (same_part p _ A), E by lia.
    by rewrite (same_expected p _ A) by (done || lia).
  - apply transmitted_range. by apply (part_checksum_range p F n Hn S Nf T').
  - apply transmitted_range. by apply (part_checksum_range p F n Hn S Nf T').
Qed.

Lemma fill_agree : agree_except (checksum_fields p) p (fill_checksums p).
Proof.
  destruct (sound_bounds p F n S) as (B1 & B2 & B3). pose proof (fill_ip_agree p ltac:(lia)) as A.
  case_eq (ip_fragment p); intros Nf; [unfold fill_checksums; by rewrite Nf|].
  destruct (transport_part p) as [[[m f] ws]|] eqn:E.
  - destruct (fill_transport_eq m f ws Nf E) as (-> & _ & []). eapply agree_trans; [exact A|].
    apply agree_set16; [|lia|unfold fill_ip; rewrite zlen_set16; lia].
    unfold checksum_fields. rewrite E. right. left.
  - unfold fill_checksums, fill_transport. rewrite Nf. rewrite (same_part p _ A), E by lia. done.
Qed.

Lemma fill_u8 : Forall u8 (fill_checksums p).
Proof.
  unfold fill_checksums, fill_transport, fill_ip. repeat case_match; repeat apply set16_u8; done.
Qed.

Lemma fill_be16_ip : be16 (fill_checksums p) 10 = ip_checksum_of p (ip_hlen p).
Proof.
  destruct (sound_bounds p F n S) as (B1 & B2 & B3). pose proof (fill_ip_agree p ltac:(lia)) as A.
  pose proof (ip_checksum_range p F (ip_hlen p)).
  assert (be16 (fill_ip p) 10 = ip_checksum_of p (ip_hlen p)) as E0 by (apply set16_be16; lia).
  case_eq (ip_fragment p); intros Nf; [unfold fill_checksums; by rewrite Nf|].
  destruct (transport_part p) as [[[m f] ws]|] eqn:E.
  - destruct (fill_transport_eq m f ws Nf E) as (-> & _ & []).
    rewrite set16_be16_other; [done|lia|unfold fill_ip; rewrite zlen_set16; lia|lia|lia].
  - unfold fill_checksums, fill_transport. rewrite Nf. by rewrite (same_part p _ A), E by lia.
Qed.

Lemma fill_valid : checksums_ok (fill_checksums p) = true.
Proof.
  destruct (sound_bounds p F n S) as (B1 & B2 & B3). pose proof fill_agree as A.
  pose proof (same_lengths p _ A ltac:(lia)) as (_ & Eh & _ & Ef & E9).
  unfold checksums_ok, ip_checksum_ok, transport_checksum_ok. rewrite Eh, Ef, E9, fill_be16_ip.
  rewrite (same_ip_checksum p _ A), Z.eqb_refl by (done || lia). cbn [andb].
  case_eq (ip_fragment p); intros Nf; [done|]. cbn [orb]. rewrite (same_part p _ A) by (done || lia).
  destruct (transport_part p) as [[[m f] ws]|] eqn:E; [|done].
  destruct (fill_transport_eq m f ws Nf E) as (Eq & R & []).
  rewrite (same_expected p _ A) by (done || lia). rewrite Eq at 2.
  rewrite set16_be16; [by rewrite Z.eqb_refl, orb_true_r|lia|unfold fill_ip; rewrite zlen_set16; lia|done].
Qed.
End Filled.

(** The lengths survive. *)
Lemma calc_full_shape `{InetChecksumLaws} `{!NetOrderLaws} (p : list Z) :
  Forall u8 p -> exists ok q, calcFullPacketChecksum p (zlen p) = Ok (ok, q) /\ zlen q = zlen p /\ Forall u8 q.
Proof.
  intros F. rewrite calc_full_spec by done. destruct (ipv4_sound p (zlen p)) eqn:S; [|by do 2 eexists]. cbn [andb].
  destruct (ip_fragment p || transport_sound p (zlen p)) eqn:T; [|by do 2 eexists]. do 2 eexists. splits; [done| |].
  - by apply (fill_agree p F (zlen p)).
  - by apply (fill_u8 p F (zlen p)).
Qed.

Lemma set_payload_spec (b : sbuf_t) (l : list Z) :
  good b -> zlen l = len b -> Forall u8 l -> good (set_payload b l) /\ payload (set_payload b l) = l /\ len (set_payload b l) = len b.
Proof.
  intros G L F. unfold set_payload. pose proof (zlen_raw b G) as Lr. pose proof (room_nonneg b G) as Hr.
  destruct (set_raw_good b G (l ++ drop (Z.to_nat (len b)) (raw b))) as [G' R].
  - rewrite zlen_app, L. unfold zlen in *. rewrite length_drop. lia.
  - apply Forall_app. split; [done|]. apply Forall_drop. by apply raw_u8.
  - splits; [done| |done]. rewrite payload_raw, R. cbn [len set_raw set_buf]. unfold slice. rewrite drop_0.
    apply take_app_length'. unfold zlen in L. lia.
Qed.

(** C16. Recomputing the checksums of a packet refuses exactly the packets whose
    headers are incomplete, without touching them.  Otherwise only the checksum
    fields change, every receiver's sum comes out as all ones, and a packet that
    fills its buffer passes the hard validation. *)
Theorem calcFullPacketChecksum_valid `{InetChecksumLaws} `{!NetOrderLaws} (p : list Z) (n : Z) :
  Forall u8 p -> n <= zlen p ->
  exists ok q, calcFullPacketChecksum p n = Ok (ok, q) /\
    ok = ipv4_sound p n && (ip_fragment p || transport_sound p n) /\
    if ok then agree_except (checksum_fields p) p q /\ receiver_accepts q /\
      (ip_tlen p = zlen p -> n = zlen p -> hard_sound q = true)
    else q = p.
Proof.
  intros F Hn. rewrite calc_full_spec by done.
  destruct (ipv4_sound p n) eqn:S; [|by do 2 eexists]. cbn [andb].
  destruct (ip_fragment p || transport_sound p n) eqn:T; [|by do 2 eexists]. do 2 eexists. splits; [done..|].
  pose proof (fill_agree p F n Hn S T) as A. pose proof (fill_valid p F n Hn S T) as V.
  destruct (sound_bounds p F n S) as (B1 & B2 & B3). pose proof A as [L _].
  pose proof (same_lengths p _ A ltac:(lia)) as (_ & _ & Et & Ef & _).
  assert (ipv4_sound (fill_checksums p) n = true) as S' by (rewrite (same_sound p _ A) by lia; done).
  assert (ip_fragment (fill_checksums p) || transport_sound (fill_checksums p) n = true) as T'
    by (rewrite Ef, (same_transport_sound p _ A) by lia; done).
  splits; [done|apply (ok_accepted _ (fill_u8 p F n T) n); (done || lia)|]. intros E1 E2. subst n.
  unfold hard_sound, loose_sound. rewrite L, S', T', V, Et, E1, Z.eqb_refl. done.
Qed.

(** ** A concrete stack and packets *)

#[export] Instance hook_checksum : InetChecksum := {
  inet_chksum data len := s ← wwLwipChecksum data len; mret (wrap16 (Z.lnot s))
}.

#[export] Instance hook_checksum_laws : InetChecksumLaws.
Proof. by split. Qed.

(** A UDP datagram with wrong checksums. *)
Definition demo_datagram : list Z :=
  [69; 0; 0; 31; 0; 7; 64; 0; 64; 17; 9; 9; 10; 0; 0; 1; 10; 0; 0; 2;
   4; 210; 0; 53; 0; 11; 1; 2; 97; 98; 99].

Lemma calcFullPacketChecksum_valid_witness :
  exists q, calcFullPacketChecksum demo_datagram 31 = Ok (true, q) /\
    hard_sound demo_datagram = false /\ hard_sound q = true.
Proof.
  destruct (calcFullPacketChecksum_valid demo_datagram 31) as (ok & q & E & Eo & V).
  - repeat constructor; unfold UINT8_MAX; lia.
  - vm_compute. discriminate.
  - change (ipv4_sound demo_datagram 31 && (ip_fragment demo_datagram || transport_sound demo_datagram 31)) with true in Eo.
    subst ok. exists q. splits; [exact E|reflexivity|]. apply V; reflexivity.
Defined.

Lemma validate_packet_exact_witness :
  exists r, ipv4streamValidatePacket kIpv4StreamValidationHard (sample demo_datagram) =
    Ok (Some r, sample demo_datagram).
Proof.
  destruct (validate_packet_exact kIpv4StreamValidationHard (sample demo_datagram)) as (r & E & R).
  - split; [sample_ok|reflexivity].
  - destruct r as [r|]; [by exists r|]. exfalso. destruct R as [R _]. discriminate (R eq_refl).
Defined.
