(* ===== verification/AddressRewrite.v ===== *)
(** * Rewriting addresses ([setIpv4AddressWithChecksumUpdate], [updateIpv4TransportChecksum16],
    [updateIpv4TransportChecksumAddresses] of [ww/net/wchecksum.c])

    The incremental updates keep the checksums of a packet exact: a packet that
    the hard validation accepts is accepted after an address was replaced. *)

From Stdlib Require Import ZArith Lia.
From stdpp Require Import base numbers option list.
From S2P Require Import Prelude ShiftBuffer Endian Checksum PacketChecksum PacketView TransportChecksum PacketValidate.
Open Scope Z_scope.
Open Scope word_scope.

(** ** Updates modulo 65535 *)

Definition congruent (a b : Z) : Prop := (a - b) mod 65535 = 0.

Lemma congruent_refl a : congruent a a.
Proof. unfold congruent. by rewrite Z.sub_diag. Qed.

Lemma congruent_shift a b d : congruent a b -> congruent (a + d) (b + d).
Proof. unfold congruent. intros H. by replace (a + d - (b + d)) with (a - b) by lia. Qed.

Lemma congruent_trans a b c : congruent a b -> congruent b c -> congruent a c.
Proof.
  unfold congruent. intros H1 H2. replace (a - c) with ((a - b) + (b - c)) by lia.
  rewrite Z.add_mod, H1, H2 by lia. done.
Qed.

Lemma congruent_rep x : 0 <= x -> congruent (rep x) x.
Proof.
  intros Hx. destruct (rep_ceq x Hx) as (_ & _ & M & _). unfold congruent.
  rewrite Zminus_mod, M, Z.sub_diag. done.
Qed.

(** Representatives of one class: they are equal, or 0 and 65535. *)
Lemma congruent_cases a b :
  0 <= a <= 65535 -> 0 <= b <= 65535 -> congruent a b -> a = b \/ (a = 0 /\ b = 65535) \/ (a = 65535 /\ b = 0).
Proof.
  unfold congruent. intros Ha Hb M. apply Z.mod_divide in M as [k Hk]; [|lia].
  assert (k = 0 \/ k = 1 \/ k = -1) as [-> | [-> | ->]] by lia; lia.
Qed.

Section Updates.
Context `{NetOrderLaws}.

Lemma update16_mod (x m m' : Z) :
  0 <= x <= 65535 -> 0 <= m <= 65535 -> 0 <= m' <= 65535 ->
  exists y, checksumUpdateWord16 (lwip_htons (65535 - x)) (lwip_htons m) (lwip_htons m') =
      Ok (lwip_htons (65535 - y)) /\
    0 <= y <= 65535 /\ congruent y (x - m + m') /\ (0 < x -> 0 < y).
Proof.
  intros Hx Hm Hm'. unfold checksumUpdateWord16. rewrite (htons_eqb m m') by done.
  destruct (Z.eqb_spec m m') as [<-|N].
  { exists x. splits; try done; try lia. replace (x - m + m) with x by lia. apply congruent_refl. }
  rewrite !htons_htons by lia. cbv zeta.
  rewrite !lnot_low by lia. replace (65535 - (65535 - x)) with x by lia.
  rewrite (wrap32_small (x + (65535 - m))), wrap32_small, fold32_same by word_lia.
  destruct (fold_loop_spec 16 kFoldFuel (x + (65535 - m) + m')) as (y & Ey & Hy & Cy);
    [by left|unfold UINT64_MAX; lia|apply fold_bound_16; unfold UINT64_MAX; lia|].
  change (Z.ones 16) with UINT16_MAX in Ey. rewrite Ey. step_ok. change (2 ^ 16) with 65536 in Hy.
  exists y. destruct Cy as (_ & _ & My & Zy). splits; try lia.
  - unfold mret, outcome_ret. do 2 f_equal. rewrite <- (lnot_low y) by lia. unfold wrap16.
    change 65535 with (Z.ones 16). by rewrite Z.land_ones by lia.
  - unfold congruent. replace (y - (x - m + m')) with (y - (x + (65535 - m) + m') + 1 * 65535) by lia.
    rewrite Z.mod_add, Zminus_mod, My, Z.sub_diag by lia. done.
Qed.

Lemma update32_mod (x a a' : Z) :
  0 <= x <= 65535 -> u32 a -> u32 a' ->
  let h := lwip_ntohl a in let h' := lwip_ntohl a' in
  u32 h -> u32 h' ->
  exists y, checksumUpdateWord32 (lwip_htons (65535 - x)) a a' = Ok (lwip_htons (65535 - y)) /\
    0 <= y <= 65535 /\
    congruent y (x - h / 2 ^ 16 - h mod 2 ^ 16 + h' / 2 ^ 16 + h' mod 2 ^ 16) /\ (0 < x -> 0 < y).
Proof.
  intros Hx Ha Ha' h h' Hh Hh'. unfold checksumUpdateWord32.
  destruct (Z.eqb_spec a a') as [<-|N].
  { exists x. splits; try done; try lia. subst h h'.
    replace (x - _ - _ + _ + _) with x by lia. apply congruent_refl. }
  fold h h'. clearbody h h'. unfold u32, UINT32_MAX in *. change (2 ^ 16) with 65536.
  assert (forall v, 0 <= v <= 4294967295 -> 0 <= v / 65536 <= 65535 /\ 0 <= v mod 65536 <= 65535 /\
    wrap16 (Z.shiftr v 16) = v / 65536 /\ wrap16 (Z.land v 65535) = v mod 65536) as D.
  { intros v Hv. assert (0 <= v / 65536 <= 65535) by (Z.div_mod_to_equations; lia).
    pose proof (Z.mod_pos_bound v 65536). change 65535 with (Z.ones 16).
    rewrite Z.land_ones, Z.shiftr_div_pow2 by lia. change (2 ^ 16) with 65536.
    change (Z.ones 16) with 65535. rewrite !wrap16_small by word_lia. lia. }
  destruct (D h Hh) as (D1 & D2 & -> & ->), (D h' Hh') as (D3 & D4 & -> & ->).
  destruct (update16_mod x (h / 65536) (h' / 65536)) as (y1 & -> & R1 & C1 & P1); [done..|]. step_ok.
  destruct (update16_mod y1 (h mod 65536) (h' mod 65536)) as (y & -> & R & C & P); [done..|].
  exists y. splits; auto; try lia. eapply congruent_trans; [exact C|].
  apply (congruent_shift _ _ (- (h mod 65536) + h' mod 65536)) in C1. unfold congruent in *.
  match goal with |- ?e mod _ = 0 => match type of C1 with ?e' mod _ = 0 => replace e with e' by lia end end. done.
Qed.
End Updates.

(** The positive representative of a class is unique. *)
Lemma rep_unique y t : 0 < y <= 65535 -> 0 < t -> congruent y t -> y = rep t.
Proof.
  intros Hy Ht C. pose proof (rep_range t) as R. destruct (rep_ceq t ltac:(lia)) as (_ & _ & _ & Z0).
  assert (congruent y (rep t)) as C'.
  { eapply congruent_trans; [exact C|]. pose proof (congruent_rep t ltac:(lia)) as Cr. unfold congruent in *.
    rewrite <- (Z.opp_involutive (t - rep t)), Z.mod_opp_l_z; [done|lia|].
    replace (- (t - rep t)) with (rep t - t) by lia. done. }
  destruct (congruent_cases y (rep t) ltac:(lia) R C') as [|[|[]]]; lia.
Qed.

(** What is transmitted depends on the class only. *)
Lemma transmitted_class y t :
  0 <= y <= 65535 -> 0 < t -> congruent y t -> transmitted 17 (65535 - y) = transmitted 17 (65535 - rep t).
Proof.
  intros Hy Ht C. destruct (Z.eq_dec y 0) as [->|N]; [|by rewrite (rep_unique y t) by (done || lia)].
  pose proof (rep_range t) as R. destruct (rep_ceq t ltac:(lia)) as (_ & _ & M & Z0).
  assert (rep t = 65535) as ->; [|done].
  assert (congruent 0 (rep t)) as C'.
  { unfold congruent in *. replace (0 - rep t) with (- rep t) in * by lia. replace (0 - t) with (- t) in * by lia.
    apply Z.mod_opp_l_z; [lia|]. rewrite M. rewrite <- (Z.opp_involutive t). by apply Z.mod_opp_l_z. }
  destruct (congruent_cases 0 (rep t) ltac:(lia) R C') as [|[|[]]]; lia.
Qed.

(** The sum behind a stored checksum, up to its class. *)
Lemma stored_class proto t :
  0 < t ->
  let x := 65535 - transmitted proto (65535 - rep t) in
  0 <= x <= 65535 /\ congruent x t /\ (proto <> 17 -> 0 < x).
Proof.
  intros Ht x. subst x. pose proof (rep_range t) as R. destruct (rep_ceq t ltac:(lia)) as (_ & _ & _ & Z0).
  pose proof (congruent_rep t ltac:(lia)) as C. unfold transmitted. destruct (_ && _) eqn:B; bool_facts.
  - splits; try lia. unfold congruent in *.
    replace (65535 - 65535 - t) with (rep t - t + (-1) * 65535) by lia. by rewrite Z.mod_add by lia.
  - replace (65535 - (65535 - rep t)) with (rep t) by lia. splits; try lia; done.
Qed.

(** ** Storing an address *)

Definition set32 (p : list Z) (a v : Z) : list Z := splice_at p a (le_bytes 4 v).

Lemma zlen_le_bytes4 v : zlen (le_bytes 4 v) = 4.
Proof. done. Qed.

Section Stored.
Context `{NetOrderLaws} (p : list Z) (F : Forall u8 p) (a v : Z) (Ha : 0 <= a) (Hfit : a + 4 <= zlen p) (Hv : u32 v).

Lemma zlen_set32 : zlen (set32 p a v) = zlen p.
Proof. apply zlen_splice_at; rewrite ?zlen_le_bytes4; lia. Qed.

Lemma set32_u8 : Forall u8 (set32 p a v).
Proof. apply Forall_splice_at; [done|apply le_bytes_u8]. Qed.

Lemma set32_byte i : 0 <= i -> i < a \/ a + 4 <= i -> byte_at (set32 p a v) i = byte_at p i.
Proof.
  intros Hi Ho. unfold set32. rewrite byte_at_splice by (rewrite ?zlen_le_bytes4; lia).
  rewrite zlen_le_bytes4, decide_False by lia. done.
Qed.

Lemma set32_be16_other i : 0 <= i -> i + 2 <= a \/ a + 4 <= i -> be16 (set32 p a v) i = be16 p i.
Proof. intros. unfold be16. by rewrite !set32_byte by lia. Qed.

Lemma set32_slice i n :
  0 <= i -> 0 <= n -> i + n <= a \/ a + 4 <= i -> slice i n (set32 p a v) = slice i n p.
Proof.
  intros Hi Hn [Hb|Hb]; unfold set32.
  - apply slice_splice_before; rewrite ?zlen_le_bytes4; lia.
  - apply slice_splice_after; rewrite ?zlen_le_bytes4; lia.
Qed.

Lemma set32_le32 : le32 (set32 p a v) a = v.
Proof.
  unfold le32, set32. pose proof (slice_splice_same p a (le_bytes 4 v) Ha) as E. rewrite zlen_le_bytes4 in E.
  rewrite E by lia. unfold u32, UINT32_MAX in Hv. cbn [le_bytes le_value]. unfold wrap8.
  Z.div_mod_to_equations. lia.
Qed.

Lemma set32_words :
  u32 (lwip_ntohl v) /\ be16 (set32 p a v) a = lwip_ntohl v / 2 ^ 16 /\
  be16 (set32 p a v) (a + 2) = lwip_ntohl v mod 2 ^ 16.
Proof.
  destruct (ntohl_be32 (set32 p a v) set32_u8 a Ha) as [_ E]; [rewrite zlen_set32; lia|].
  rewrite set32_le32 in E. rewrite E. destruct (be32_halves (set32 p a v) set32_u8 a) as [E1 E2].
  splits; [by apply be32_u32, set32_u8|done|done].
Qed.
End Stored.

(** ** A packet with a new address *)

Definition address_offset (field : ipv4_checksum_address_field_e) : Z :=
  match field with kIpv4ChecksumAddressSource => 12 | kIpv4ChecksumAddressDestination => 16 end.

(** The sum of the two words of an address. *)
Definition word_pair (x : Z) : Z := x / 2 ^ 16 + x mod 2 ^ 16.

Lemma header_sum_split (p : list Z) (h : Z) :
  20 <= h -> h <= zlen p ->
  wordsum (covered p 0 h 10) =
  be16 p 0 + wsum (slice 2 8 p) + (be16 p 12 + be16 p 14 + be16 p 16 + be16 p 18) + wsum (slice 20 (h - 20) p).
Proof.
  intros Hh Hfit. unfold covered. rewrite wordsum_app. unfold wordsum. rewrite Z.sub_0_r, Z.add_0_l.
  fold (wsum (slice 0 10 p)). fold (wsum (slice (10 + 2) (h - 10 - 2) p)).
  rewrite (wsum_slice_step p 0) by lia. change (0 + 2) with 2. change (10 - 2) with 8.
  change (10 + 2) with 12. rewrite (wsum_slice_step p 12) by lia. change (12 + 2) with 14.
  rewrite (wsum_slice_step p 14) by lia. change (14 + 2) with 16.
  rewrite (wsum_slice_step p 16) by lia. change (16 + 2) with 18.
  rewrite (wsum_slice_step p 18) by lia. change (18 + 2) with 20.
  replace (h - 10 - 2 - 2 - 2 - 2 - 2) with (h - 20) by lia. lia.
Qed.

Section Replaced.
Context `{NetOrderLaws} (p : list Z) (F : Forall u8 p) (n : Z) (Hn : n <= zlen p) (S : ipv4_sound p n = true).
Context (fld : ipv4_checksum_address_field_e) (v : Z) (Hv : u32 v).
Let a := address_offset fld.
Let q := set32 p a v.
Let old := lwip_ntohl (le32 p a).

Lemma replaced_bounds : 20 <= ip_hlen p <= 60 /\ ip_hlen p <= zlen p /\ (a = 12 \/ a = 16).
Proof. destruct (sound_bounds p F n S) as (? & ? & ?). subst a. destruct fld; cbn [address_offset]; lia. Qed.

Lemma replaced_byte i : 0 <= i < 12 \/ 20 <= i -> byte_at q i = byte_at p i.
Proof. pose proof replaced_bounds. intros. apply set32_byte; lia. Qed.

Lemma replaced_be16 i : 0 <= i < 11 \/ 20 <= i -> be16 q i = be16 p i.
Proof. intros. unfold be16. by rewrite !replaced_byte by lia. Qed.

Lemma replaced_lengths :
  ip_version q = ip_version p /\ ip_hlen q = ip_hlen p /\ ip_tlen q = ip_tlen p /\
  ip_fragment q = ip_fragment p /\ byte_at q 9 = byte_at p 9.
Proof.
  unfold ip_version, ip_hlen, ip_tlen, ip_fragment. by rewrite !replaced_byte, !replaced_be16 by lia.
Qed.

(** The address words before and after. *)
Lemma replaced_address :
  be16 q 12 + be16 q 14 + be16 q 16 + be16 q 18 =
  be16 p 12 + be16 p 14 + be16 p 16 + be16 p 18 - word_pair old + word_pair (lwip_ntohl v) /\
  0 <= word_pair old <= be16 p 12 + be16 p 14 + be16 p 16 + be16 p 18 /\ 0 <= word_pair (lwip_ntohl v).
Proof.
  pose proof replaced_bounds as (B1 & B2 & B3).
  destruct (set32_words p F a v ltac:(lia) ltac:(lia) Hv) as (U & W1 & W2). fold q in W1, W2.
  destruct (ntohl_be32 p F a ltac:(lia) ltac:(lia)) as [_ E]. fold old in E.
  destruct (be32_halves p F a) as [H1 H2]. rewrite <- E in H1, H2. unfold word_pair.
  pose proof (be16_range p F 12). pose proof (be16_range p F 14).
  pose proof (be16_range p F 16). pose proof (be16_range p F 18).
  assert (forall i, 0 <= i -> i + 2 <= a \/ a + 4 <= i -> be16 q i = be16 p i) as O
    by (intros; apply set32_be16_other; lia).
  rewrite H1, H2, <- W1, <- W2. pose proof (be16_range q (set32_u8 p F a v) a).
  pose proof (be16_range q (set32_u8 p F a v) (a + 2)).
  clearbody a. destruct B3 as [-> | ->].
  - change (12 + 2) with 14 in *. rewrite (O 16), (O 18) by lia. lia.
  - change (16 + 2) with 18 in *. rewrite (O 12), (O 14) by lia. lia.
Qed.

Lemma replaced_header_sum :
  let t := wordsum (covered p 0 (ip_hlen p) 10) in
  wordsum (covered q 0 (ip_hlen p) 10) = t - word_pair old + word_pair (lwip_ntohl v) /\
  0 < t /\ 0 < t - word_pair old.
Proof.
  pose proof replaced_bounds as (B1 & B2 & B3). intros t. subst t.
  assert (zlen q = zlen p) as L by (apply zlen_set32; lia).
  rewrite !header_sum_split by lia. rewrite (replaced_be16 0) by lia.
  unfold q. rewrite !set32_slice by lia. fold q. destruct replaced_address as (-> & R1 & R2).
  pose proof (wsum_bound (slice 2 8 p) (Forall_slice _ _ _ _ F)).
  pose proof (wsum_bound (slice 20 (ip_hlen p - 20) p) (Forall_slice _ _ _ _ F)).
  assert (0 < be16 p 0).
  { unfold ipv4_sound in S. bool_facts. unfold ip_version in *. unfold be16.
    pose proof (byte_at_u8 p 0 F) as U0. pose proof (byte_at_u8 p (0 + 1) F) as U1.
    unfold u8, UINT8_MAX in *. assert (byte_at p 0 <> 0) by (intros Z0; rewrite Z0 in *; done). lia. }
  lia.
Qed.

Lemma replaced_pseudo_sum proto len :
  wordsum (pseudo_words q proto len) =
  wordsum (pseudo_words p proto len) - word_pair old + word_pair (lwip_ntohl v).
Proof.
  destruct replaced_address as (E & _ & _). unfold pseudo_words, wordsum. cbn [foldr]. lia.
Qed.

Lemma replaced_covered m f :
  ip_hlen p <= f -> f + 2 <= ip_hlen p + m -> ip_hlen p + m <= zlen p ->
  covered q (ip_hlen p) m f = covered p (ip_hlen p) m f.
Proof.
  pose proof replaced_bounds as (B1 & B2 & B3). intros. apply covered_agree; try lia; [apply zlen_set32; lia|].
  intros i Hi _. apply replaced_byte. lia.
Qed.

(** Updating the checksum of one of the sums. *)
Lemma update_word (x : Z) :
  0 <= x <= 65535 ->
  exists y, checksumUpdateWord32 (lwip_htons (65535 - x)) (le32 p a) v = Ok (lwip_htons (65535 - y)) /\
    0 <= y <= 65535 /\ congruent y (x - word_pair old + word_pair (lwip_ntohl v)) /\ (0 < x -> 0 < y).
Proof.
  intros Hx. pose proof replaced_bounds as (B1 & B2 & B3).
  destruct (set32_words p F a v ltac:(lia) ltac:(lia) Hv) as (U & _ & _).
  destruct (ntohl_be32 p F a ltac:(lia) ltac:(lia)) as [Uo E]. fold old in E.
  assert (u32 old) as U' by (rewrite E; by apply be32_u32).
  destruct (update32_mod x (le32 p a) v Hx Uo Hv U' U) as (y & Ey & R & C & P).
  exists y. splits; auto; try lia. fold old in C. unfold word_pair.
  match type of C with congruent _ ?e => match goal with |- congruent _ ?e' => replace e' with e by lia end end. done.
Qed.
End Replaced.

(** ** The new checksums *)

Section NewSums.
Context `{NetOrderLaws} (p : list Z) (F : Forall u8 p) (n : Z) (Hn : n <= zlen p) (S : ipv4_sound p n = true).
Context (fld : ipv4_checksum_address_field_e) (v : Z) (Hv : u32 v).
Let a := address_offset fld.
Let q := set32 p a v.

Lemma ip_update :
  ip_checksum_ok p = true ->
  checksumUpdateWord32 (lwip_htons (be16 p 10)) (le32 p a) v = Ok (lwip_htons (ip_checksum_of q (ip_hlen p))).
Proof.
  intros C. unfold ip_checksum_ok, ip_checksum_of in *. bool_facts. rewrite C.
  rewrite !checksum_sum by (apply covered_words; first [done|by apply set32_u8]).
  destruct (replaced_header_sum p F n Hn S fld v Hv) as (E & P1 & P2). fold a q in E. rewrite E.
  set (t := wordsum (covered p 0 (ip_hlen p) 10)) in *. fold a in P2.
  pose proof (rep_range t) as R. destruct (rep_ceq t ltac:(lia)) as (_ & _ & _ & Z0).
  destruct (update_word p F n Hn S fld v Hv (rep t) R) as (y & Ey & Ry & Cy & Py). fold a in Ey, Cy.
  rewrite Ey. do 3 f_equal.
  destruct (replaced_address p F n Hn S fld v Hv) as (_ & _ & P3).
  apply rep_unique; [lia..|]. eapply congruent_trans; [exact Cy|].
  pose proof (congruent_rep t ltac:(lia)) as Cr.
  apply (congruent_shift _ _ (- word_pair (lwip_ntohl (le32 p a)) + word_pair (lwip_ntohl v))) in Cr.
  by rewrite !Z.add_assoc, !Z.add_opp_r in Cr.
Qed.

(** The transport sum has the protocol among its words. *)
Lemma transport_update m f proto :
  proto = 6 \/ proto = 17 -> 0 <= m <= 65535 ->
  ip_hlen p <= f -> f + 2 <= ip_hlen p + m -> ip_hlen p + m <= zlen p ->
  be16 p f = transmitted proto (internet_checksum (pseudo_words p proto m ++ covered p (ip_hlen p) m f)) ->
  exists c, checksumUpdateWord32 (lwip_htons (be16 p f)) (le32 p a) v = Ok (lwip_htons c) /\ 0 <= c <= 65535 /\
    transmitted proto c =
      transmitted proto (internet_checksum (pseudo_words q proto m ++ covered q (ip_hlen p) m f)).
Proof.
  intros Hp Hm Hf Hin Hfit E. pose proof (replaced_covered p F n Hn S fld v m f) as Ec. fold a q in Ec.
  rewrite Ec by lia.
  assert (Forall u8 q) as Fq by by apply set32_u8.
  assert (Forall (fun w => 0 <= w <= 65535) (covered p (ip_hlen p) m f)) as Wc by by apply covered_words.
  assert (Forall (fun w => 0 <= w <= 65535) (pseudo_words p proto m)) as Wp by (apply pseudo_words_u16; auto; lia).
  assert (Forall (fun w => 0 <= w <= 65535) (pseudo_words q proto m)) as Wq by (apply pseudo_words_u16; auto; lia).
  rewrite !checksum_sum, !wordsum_app in * by (by apply Forall_app).
  pose proof (replaced_pseudo_sum p F n Hn S fld v Hv proto m) as Ep. fold a q in Ep. rewrite Ep.
  pose proof (wordsum_nonneg _ Wc) as Nc. set (k := wordsum (covered _ _ _ _)) in *.
  destruct (replaced_address p F n Hn S fld v Hv) as (_ & R1 & R2). fold a in R1.
  assert (wordsum (pseudo_words p proto m) =
    be16 p 12 + be16 p 14 + be16 p 16 + be16 p 18 + proto + m) as Es by (unfold wordsum, pseudo_words; cbn [foldr]; lia).
  set (t := wordsum (pseudo_words p proto m) + k) in *.
  set (d := word_pair (lwip_ntohl (le32 p a))) in *. set (e := word_pair (lwip_ntohl v)) in *.
  destruct (stored_class proto t ltac:(lia)) as (Rx & Cx & Px). rewrite <- E in *. set (x := 65535 - be16 p f) in *.
  destruct (update_word p F n Hn S fld v Hv x Rx) as (y & Ey & Ry & Cy & Py). fold a in Ey, Cy. fold d e in Cy.
  subst x. replace (65535 - (65535 - be16 p f)) with (be16 p f) in Ey by lia. rewrite Ey.
  exists (65535 - y). splits; [done|lia|lia|].
  assert (congruent y (t - d + e)) as C.
  { eapply congruent_trans; [exact Cy|]. apply (congruent_shift _ _ (- d + e)) in Cx. by rewrite !Z.add_assoc, !Z.add_opp_r in Cx. }
  replace (wordsum (pseudo_words p proto m) - d + e + k) with (t - d + e) by (subst t; lia).
  destruct Hp as [-> | ->]; [|apply transmitted_class; auto; lia].
  do 2 f_equal. apply rep_unique; auto; lia.
Qed.
End NewSums.

(** ** The rewritten packet *)

(** The transport header of a first or only fragment can be read. *)
Definition rewritable (p : list Z) (n : Z) : bool :=
  negb (be16 p 6 mod 2 ^ 13 =? 0) ||
  (if byte_at p 9 =? 6 then tcp_sound p n else if byte_at p 9 =? 17 then udp_sound p n else true).

(** The checksum field that follows the address. *)
Definition address_target (p : list Z) : option Z :=
  if be16 p 6 mod 2 ^ 13 =? 0 then
    if byte_at p 9 =? 6 then Some (ip_hlen p + 16)
    else if byte_at p 9 =? 17 then
      if be16 p (ip_hlen p + 6) =? 0 then None else Some (ip_hlen p + 6)
    else None
  else None.

Lemma target_spec `{NetOrderLaws} (p : list Z) (n : Z) :
  Forall u8 p -> n <= zlen p -> ipv4_sound p n = true ->
  address_checksum_field p n (base_view p) =
  Ok (if rewritable p n then Some (address_target p) else None).
Proof.
  intros F Hn S. unfold address_checksum_field, rewritable, address_target, IP_PROTO_TCP, IP_PROTO_UDP.
  cbn [fragment_offset protocol base_view]. destruct (be16 p 6 mod 2 ^ 13 =? 0); [|done]. cbn [negb orb].
  rewrite tcp_view_of_spec, udp_view_of_spec by done. step_ok.
  destruct (byte_at p 9 =? 6); [by destruct (tcp_sound p n)|]. destruct (byte_at p 9 =? 17); [|done].
  destruct (udp_sound p n) eqn:U; [|done]. cbn [negb transport_offset udp_view].
  destruct (sound_bounds p F n S) as (B1 & B2 & B3). unfold udp_sound in U. bool_facts.
  rewrite (load16_ok p F) by lia. step_ok. rewrite htons_zero by apply (be16_range p F).
  by destruct (be16 p (ip_hlen p + 6) =? 0).
Qed.

(** Where the field is. *)
Lemma target_bounds (p : list Z) (n f : Z) :
  Forall u8 p -> n <= zlen p -> ipv4_sound p n = true -> rewritable p n = true -> address_target p = Some f ->
  ip_hlen p + 6 <= f /\ f + 2 <= zlen p /\ f ∈ checksum_fields p.
Proof.
  intros F Hn S R E. destruct (sound_bounds p F n S) as (B1 & B2 & B3).
  unfold address_target, rewritable, checksum_fields, transport_part in *.
  destruct (be16 p 6 mod 2 ^ 13 =? 0); [|done]. cbn [negb orb] in R.
  destruct (byte_at p 9 =? 6).
  - injection E as <-. unfold tcp_sound in R. bool_facts. splits; [lia..|]. right. left.
  - destruct (byte_at p 9 =? 17); [|done]. destruct (be16 p (ip_hlen p + 6) =? 0); [done|]. injection E as <-.
    unfold udp_sound in R. bool_facts. splits; [lia..|]. right. left.
Qed.

(** The bytes after the two checksums were stored. *)
Definition stored (q : list Z) (c : Z) (t : option Z) (c' : Z) : list Z :=
  match t with Some f => set16 (set16 q 10 c) f c' | None => set16 q 10 c end.

(** A value the code writes into the transport checksum. *)
Definition new_transport `{NetOrder} (p : list Z) (o v : Z) (t : option Z) (c : Z) : Prop :=
  match t with
  | Some f => exists d, checksumUpdateWord32 (lwip_htons (be16 p f)) o v = Ok (lwip_htons d) /\
      0 <= d <= 65535 /\ c = transmitted (byte_at p 9) d
  | None => c = 0
  end.

Section SetAddress.
Context `{NetOrderLaws} (p : list Z) (F : Forall u8 p) (n : Z) (Hn : n <= zlen p) (S : ipv4_sound p n = true).
Context (fld : ipv4_checksum_address_field_e) (v : Z) (Hv : u32 v) (C : ip_checksum_ok p = true).
Let a := address_offset fld.
Let q := set32 p a v.

Lemma new_transport_exists t :
  (forall f, t = Some f -> 0 <= f) -> exists c, new_transport p (le32 p a) v t c /\ 0 <= c <= 65535.
Proof.
  intros Ht. destruct t as [f|]; [|exists 0; split; [done|lia]]. pose proof (be16_range p F f).
  destruct (update_word p F n Hn S fld v Hv (65535 - be16 p f) ltac:(lia)) as (y & E & R & _). fold a in E.
  replace (65535 - (65535 - be16 p f)) with (be16 p f) in E by lia.
  exists (transmitted (byte_at p 9) (65535 - y)). split; [|by apply transmitted_range; lia].
  exists (65535 - y). splits; [done|lia..|done].
Qed.

Lemma set_address_run :
  (le32 p a =? v) = false -> rewritable p n = true ->
  exists c, new_transport p (le32 p a) v (address_target p) c /\ 0 <= c <= 65535 /\
    setIpv4AddressWithChecksumUpdate p n fld v =
    Ok (true, stored q (ip_checksum_of q (ip_hlen p)) (address_target p) c).
Proof.
  intros N R. destruct (replaced_bounds p F n Hn S fld v) as (B1 & B2 & B3). fold a in B3.
  assert (zlen q = zlen p) as L by (apply zlen_set32; lia). assert (Forall u8 q) as Fq by by apply set32_u8.
  pose proof (target_bounds p n) as TB. pose proof (ip_update p F n Hn S fld v Hv C) as IU. fold a q in IU.
  destruct (new_transport_exists (address_target p)) as (c & Hc & Rc).
  { intros f E. destruct (TB f F Hn S R E). lia. }
  exists c. splits; [done|lia..|]. unfold setIpv4AddressWithChecksumUpdate.
  rewrite view_of_spec by done. step_ok. rewrite S. cbn [negb].
  change (match fld with kIpv4ChecksumAddressSource => 12 | kIpv4ChecksumAddressDestination => 16 end) with a.
  rewrite load32_ok by lia. step_ok. rewrite N, target_spec, R by done. step_ok.
  rewrite (load16_ok p F 10) by lia. step_ok. rewrite IU. step_ok.
  pose proof (ip_checksum_range q Fq (ip_hlen p)) as Ri. cbn [protocol base_view].
  assert (mem_write p a (le_bytes 4 v) = Ok q) as Mw by (apply mem_write_ok; rewrite ?zlen_le_bytes4; lia).
  destruct (address_target p) as [f|].
  - destruct (TB f F Hn S R eq_refl) as (T1 & T2 & _). destruct Hc as (d & Ed & Rd & ->).
    rewrite (load16_ok p F f) by lia. step_ok. rewrite Ed. step_ok. rewrite Mw. step_ok. unfold IPH_CHKSUM_SET.
    rewrite store16_ok by (done || lia). step_ok. rewrite htons_zero by lia. unfold IP_PROTO_UDP.
    replace (if (byte_at p 9 =? 17) && (d =? 0) then 65535 else lwip_htons d)
      with (lwip_htons (transmitted (byte_at p 9) d))
      by (unfold transmitted; destruct ((byte_at p 9 =? 17) && (d =? 0)); [by rewrite htons_swap by lia|done]).
    rewrite store16_ok by (try done; rewrite ?zlen_set16 by lia; lia). done.
  - step_ok. rewrite Mw. step_ok. unfold IPH_CHKSUM_SET. by rewrite store16_ok by (done || lia).
Qed.

Lemma replaced_part :
  match transport_part p with
  | None => transport_part q = None
  | Some (m, f, ws) => exists ws', transport_part q = Some (m, f, ws') /\
      (((byte_at p 9 = 6 \/ byte_at p 9 = 17) /\ ws = pseudo_words p (byte_at p 9) m /\
        ws' = pseudo_words q (byte_at p 9) m) \/ (byte_at p 9 = 1 /\ ws = [] /\ ws' = []))
  end.
Proof.
  destruct (sound_bounds p F n S) as (B1 & B2 & B3).
  destruct (replaced_lengths p F n Hn S fld v) as (_ & E1 & E2 & _ & E3). fold a q in E1, E2, E3.
  pose proof (replaced_be16 p F n Hn S fld v (ip_hlen p + 4) ltac:(lia)) as E4. fold a q in E4.
  unfold transport_part. rewrite E1, E2, E3, E4.
  destruct (byte_at p 9 =? 6) eqn:P6; [|destruct (byte_at p 9 =? 17) eqn:P17; [|destruct (byte_at p 9 =? 1) eqn:P1; [|done]]];
    bool_facts; eexists; (split; [done|]).
  - left. rewrite P6. auto.
  - left. rewrite P17. auto.
  - right. auto.
Qed.

Lemma replaced_fields : checksum_fields q = checksum_fields p.
Proof.
  unfold checksum_fields. pose proof replaced_part as E. destruct (transport_part p) as [[[m f] ws]|].
  - by destruct E as (ws' & -> & _).
  - by rewrite E.
Qed.

Lemma replaced_sound :
  ipv4_sound q n = ipv4_sound p n /\ transport_sound q n = transport_sound p n.
Proof.
  destruct (sound_bounds p F n S) as (B1 & B2 & B3).
  destruct (replaced_lengths p F n Hn S fld v) as (E0 & E1 & E2 & Ef & E3). fold a q in E0, E1, E2, E3, Ef.
  assert (forall i, 0 <= i < 11 \/ 20 <= i -> be16 q i = be16 p i) as Eb by (intros; by apply (replaced_be16 p F n)).
  assert (forall i, 0 <= i < 12 \/ 20 <= i -> byte_at q i = byte_at p i) as Eb' by (intros; by apply (replaced_byte p F n)).
  unfold transport_sound, tcp_sound, udp_sound, ipv4_sound, tcp_hlen.
  rewrite E0, E1, E2, E3, Ef, !Eb, !Eb' by lia. done.
Qed.

Section Result.
Context (R : rewritable p n = true) (c : Z) (Rc : 0 <= c <= 65535).
Context (Hc : new_transport p (le32 p a) v (address_target p) c).
Let r := stored q (ip_checksum_of q (ip_hlen p)) (address_target p) c.

Lemma result_lengths : zlen q = zlen p /\ 20 <= ip_hlen p /\ ip_hlen p <= zlen p /\ (a = 12 \/ a = 16).
Proof.
  destruct (replaced_bounds p F n Hn S fld v) as (B1 & B2 & B3). fold a in B3.
  splits; try lia. apply zlen_set32; lia.
Qed.

Lemma result_agree : agree_except (checksum_fields q) q r.
Proof.
  destruct result_lengths as (L & B1 & B2 & B3). rewrite replaced_fields.
  assert (agree_except (checksum_fields p) q (set16 q 10 (ip_checksum_of q (ip_hlen p)))) as A
    by (apply agree_set16; [left|lia..]).
  subst r. unfold stored. pose proof (target_bounds p n) as TB. destruct (address_target p) as [f|]; [|done].
  destruct (TB f F Hn S R eq_refl) as (T1 & T2 & T3). eapply agree_trans; [exact A|].
  apply agree_set16; [done|lia|]. rewrite zlen_set16; lia.
Qed.

Lemma result_ip : be16 r 10 = ip_checksum_of q (ip_hlen p).
Proof.
  destruct result_lengths as (L & B1 & B2 & B3). pose proof (ip_checksum_range q (set32_u8 p F a v) (ip_hlen p)).
  subst r. unfold stored. pose proof (target_bounds p n) as TB. destruct (address_target p) as [f|].
  - destruct (TB f F Hn S R eq_refl) as (T1 & T2 & T3).
    rewrite set16_be16_other; [apply set16_be16; lia|lia|rewrite zlen_set16; lia|lia|lia].
  - apply set16_be16; lia.
Qed.

(** The transport field holds the new value, or what it held before. *)
Lemma result_field f m ws :
  transport_part p = Some (m, f, ws) -> f + 2 <= zlen p ->
  be16 r f = if decide (address_target p = Some f) then c else be16 p f.
Proof.
  intros E Hf. destruct result_lengths as (L & B1 & B2 & B3). pose proof (part_field p m f ws E) as Pf.
  pose proof (replaced_be16 p F n Hn S fld v f ltac:(lia)) as E0. fold a q in E0. subst r. unfold stored.
  pose proof (target_bounds p n) as TB. destruct (address_target p) as [f'|] eqn:ET.
  - destruct (TB f' F Hn S R eq_refl) as (T1 & T2 & T3).
    assert (f' = f) as ->.
    { unfold checksum_fields in T3. rewrite E in T3. rewrite !elem_of_cons in T3.
      destruct T3 as [?|[?|T3]]; [lia|done|by apply not_elem_of_nil in T3]. }
    rewrite decide_True by done. apply set16_be16; [lia|rewrite zlen_set16; lia|done].
  - rewrite decide_False by done. rewrite set16_be16_other by lia. done.
Qed.

Lemma target_exact m f :
  byte_at p 9 = 6 \/ byte_at p 9 = 17 -> address_target p = Some f -> 0 <= m <= 65535 ->
  ip_hlen p <= f -> f + 2 <= ip_hlen p + m -> ip_hlen p + m <= zlen p ->
  be16 p f = transmitted (byte_at p 9) (internet_checksum (pseudo_words p (byte_at p 9) m ++ covered p (ip_hlen p) m f)) ->
  c = transmitted (byte_at p 9) (internet_checksum (pseudo_words q (byte_at p 9) m ++ covered q (ip_hlen p) m f)).
Proof.
  intros Hp Ht Hm Hf Hin Hfit E. rewrite Ht in Hc. destruct Hc as (d' & E1' & E2' & ->).
  destruct (transport_update p F n Hn S fld v Hv m f (byte_at p 9)) as (d & E1 & E2 & E3); auto. fold a q in E1, E3.
  rewrite E1 in E1'. injection E1' as E1'.
  apply (f_equal lwip_htons) in E1'. rewrite !htons_htons in E1' by lia. by subst d'.
Qed.

Lemma result_transport :
  ip_fragment p = false -> transport_sound p n = true -> transport_checksum_ok p = true ->
  transport_checksum_ok r = true.
Proof.
  intros Nf T K. destruct result_lengths as (L & B1 & B2 & B3). destruct (sound_bounds p F n S) as (C1 & C2 & C3).
  destruct (replaced_lengths p F n Hn S fld v) as (_ & Eh & _ & _ & E9). fold a q in Eh, E9.
  pose proof result_agree as A. pose proof (same_part q r A ltac:(lia)) as SP.
  pose proof (same_lengths q r A ltac:(lia)) as (_ & _ & _ & _ & E9').
  pose proof replaced_part as RP. pose proof (part_ok p F n Hn S) as PO. pose proof (no_offset p F Nf) as NO.
  unfold transport_checksum_ok in *. rewrite SP, E9', E9.
  destruct (transport_part p) as [[[m f] ws]|] eqn:E; [|by rewrite RP].
  destruct (PO m f ws Nf T eq_refl) as [P1 P2 P3 P4 P5 P6]. destruct RP as (ws' & Eq & Cases). rewrite Eq.
  rewrite (same_expected q r A ltac:(lia) m f ws' Eq) by lia. rewrite (result_field f m ws E) by lia.
  pose proof (replaced_covered p F n Hn S fld v m f ltac:(lia) ltac:(lia) ltac:(lia)) as Ec. fold a q in Ec.
  pose proof (target_exact m f) as TE. unfold expected_checksum in *. rewrite E9, Eh in *.
  assert (address_target p = if byte_at p 9 =? 6 then Some f else
    if byte_at p 9 =? 17 then if be16 p f =? 0 then None else Some f else None) as AT.
  { destruct (part_field p m f ws E) as [[-> Ep]|[[-> Ep]|[-> Ep]]]; unfold address_target; by rewrite NO, Ep. }
  destruct Cases as [(Hp & -> & ->)|(Hp & -> & ->)].
  - destruct (decide (address_target p = Some f)) as [Ht|Ht].
    + apply orb_true_iff. right. apply Z.eqb_eq. apply TE; auto; try lia.
      apply orb_true_iff in K as [K|K]; [|by apply Z.eqb_eq].
      apply andb_true_iff in K as [K1 K2]. apply Z.eqb_eq in K1. rewrite AT, K1 in Ht. cbn [Z.eqb Pos.eqb] in Ht. by rewrite K2 in Ht.
    + destruct (be16 p f =? 0) eqn:Z0; destruct Hp as [Hp|Hp]; rewrite Hp in AT; cbn [Z.eqb Pos.eqb] in AT; try done.
      by rewrite Hp.
  - rewrite decide_False by (rewrite AT, Hp; done). by rewrite Ec.
Qed.

Lemma result_valid :
  ip_fragment p || transport_sound p n = true -> checksums_ok p = true ->
  checksums_ok r = true /\ ipv4_sound r n = true /\ ip_fragment r || transport_sound r n = true /\ le32 r a = v /\
  agree_except (a :: (a + 2) :: checksum_fields p) p r.
Proof.
  intros T K. destruct result_lengths as (L & B1 & B2 & B3). pose proof result_agree as A.
  destruct (replaced_lengths p F n Hn S fld v) as (_ & Eh & _ & Ef & E9). fold a q in Eh, Ef, E9.
  destruct (same_lengths q r A ltac:(lia)) as (_ & Eh' & _ & Ef' & _).
  destruct replaced_sound as [S1 S2]. rewrite (same_sound q r A), (same_transport_sound q r A), Ef', Ef, S1, S2 by lia.
  unfold checksums_ok in *. apply andb_true_iff in K as [_ K]. splits; try done.
  - rewrite Ef', Ef. apply andb_true_iff. split.
    + unfold ip_checksum_ok. rewrite result_ip, Eh', <- Eh, (same_ip_checksum q r A) by lia. apply Z.eqb_refl.
    + destruct (ip_fragment p) eqn:Nf; [done|]. by apply result_transport.
  - unfold le32. rewrite (slice_agree q r); [by apply set32_le32; auto; lia|lia|lia|lia|apply A|].
    intros i Hi. apply (same_header q r A); lia.
  - split; [destruct A; lia|]. intros i Hi Ho. rewrite !Forall_cons in Ho. destruct Ho as (Ho1 & Ho2 & Ho).
    destruct A as [_ A]. rewrite A; [apply set32_byte; lia|done|by rewrite replaced_fields].
Qed.
End Result.
End SetAddress.

(** ** Theorems *)

Definition valid_packet (p : list Z) (n : Z) : bool :=
  ipv4_sound p n && (ip_fragment p || transport_sound p n) && checksums_ok p.

Lemma unfragmented_rewritable (p : list Z) (n : Z) :
  Forall u8 p -> ip_fragment p = false -> transport_sound p n = true -> rewritable p n = true.
Proof.
  intros F Nf T. unfold rewritable, transport_sound in *. rewrite (no_offset p F Nf). cbn [Z.eqb negb orb].
  destruct (byte_at p 9 =? 6); [done|]. by destruct (byte_at p 9 =? 17).
Qed.

(** C15. Replacing the source or destination address of a packet that passes the
    hard validation gives a packet with that address that passes it too: the
    incremental updates of the header and the TCP or UDP checksum are exact,
    including the two encodings of a zero UDP checksum and an absent one.  Only
    the address and the checksums change.  A packet that is not a fragment is
    never refused, and a refused one is unchanged. *)
Theorem set_address_keeps_valid `{NetOrderLaws} (p : list Z) (n : Z)
    (fld : ipv4_checksum_address_field_e) (v : Z) :
  Forall u8 p -> n <= zlen p -> u32 v -> valid_packet p n = true ->
  let a := address_offset fld in
  exists ok q, setIpv4AddressWithChecksumUpdate p n fld v = Ok (ok, q) /\
    ok = (le32 p a =? v) || rewritable p n /\ (ip_fragment p = false -> ok = true) /\
    if ok then le32 q a = v /\ valid_packet q n = true /\
      agree_except (a :: (a + 2) :: checksum_fields p) p q
    else q = p.
Proof.
  intros F Hn Hv V a. unfold valid_packet in V. apply andb_true_iff in V as [V K]. apply andb_true_iff in V as [S T].
  assert (ip_fragment p = false -> rewritable p n = true) as U.
  { intros Nf. rewrite Nf in T. by apply unfragmented_rewritable. }
  destruct (le32 p a =? v) eqn:E.
  { exists true, p. unfold setIpv4AddressWithChecksumUpdate. rewrite view_of_spec, S by done. step_ok. cbn [negb].
    change (match fld with kIpv4ChecksumAddressSource => 12 | kIpv4ChecksumAddressDestination => 16 end) with a.
    destruct (replaced_bounds p F n Hn S fld v) as (B1 & B2 & B3). fold a in B3.
    rewrite load32_ok by lia. step_ok. rewrite E. bool_facts. splits; auto using agree_refl.
    unfold valid_packet. by rewrite S, T, K. }
  cbn [orb]. destruct (rewritable p n) eqn:R.
  - pose proof K as K0. unfold checksums_ok in K0. apply andb_true_iff in K0 as [K1 _].
    destruct (set_address_run p F n Hn S fld v Hv K1 E R) as (c & Hc & Rc & Run). rewrite Run.
    destruct (result_valid p F n Hn S fld v Hv R c Rc Hc T K) as (R1 & R2 & R3 & R4 & R5).
    do 2 eexists. splits; [done..|]. unfold valid_packet. by rewrite R1, R2, R3.
  - exists false, p. unfold setIpv4AddressWithChecksumUpdate. rewrite view_of_spec, S by done. step_ok. cbn [negb].
    change (match fld with kIpv4ChecksumAddressSource => 12 | kIpv4ChecksumAddressDestination => 16 end) with a.
    destruct (replaced_bounds p F n Hn S fld v) as (B1 & B2 & B3). fold a in B3.
    rewrite load32_ok by lia. step_ok. rewrite E, target_spec, R by done. splits; try done.
Qed.

(** A datagram whose UDP checksum is encoded as all ones. *)
Definition demo_valid : list Z :=
  [69; 0; 0; 30; 0; 7; 64; 0; 64; 17; 38; 198; 10; 0; 0; 1; 10; 0; 0; 2;
   4; 210; 0; 53; 0; 10; 255; 255; 230; 208].

Lemma set_address_keeps_valid_witness :
  exists q, setIpv4AddressWithChecksumUpdate demo_valid 30 kIpv4ChecksumAddressSource 0x0100A8C0 = Ok (true, q) /\
    valid_packet q 30 = true /\ le32 q 12 = 0x0100A8C0.
Proof.
  destruct (set_address_keeps_valid demo_valid 30 kIpv4ChecksumAddressSource 0x0100A8C0) as (ok & q & E & _ & Eo & V).
  - repeat constructor; unfold UINT8_MAX; lia.
  - vm_compute. discriminate.
  - split; unfold UINT32_MAX; lia.
  - reflexivity.
  - rewrite (Eo eq_refl) in E, V. exists q. split; [exact E|]. split; apply V.
Defined.

(** ** Replacing a transport word *)

Lemma covered_sum_set16 (p : list Z) (off n f i w : Z) :
  Forall u8 p -> 0 <= off -> off <= f -> (f - off) mod 2 = 0 -> f + 2 <= off + n -> off + n <= zlen p ->
  off <= i -> (i - off) mod 2 = 0 -> i + 2 <= off + n -> i <> f -> 0 <= w <= 65535 ->
  wordsum (covered (set16 p i w) off n f) = wordsum (covered p off n f) - be16 p i + w.
Proof.
  intros F Ho Hf Ef Hfi Hfit Hi Ei Hii N Hw.
  assert (i + 2 <= f \/ f + 2 <= i) as D.
  { apply Z.mod_divide in Ef as [k Hk]; [|lia]. apply Z.mod_divide in Ei as [k' Hk']; [|lia]. lia. }
  assert (zlen (set16 p i w) = zlen p) as L by (apply zlen_set16; lia).
  pose proof (wsum_field p off n f Ho Hf Ef Hfi Hfit) as E1.
  pose proof (wsum_field p off n i Ho Hi Ei Hii Hfit) as E2.
  pose proof (wsum_field (set16 p i w) off n f Ho Hf Ef Hfi ltac:(lia)) as E3.
  pose proof (wsum_field (set16 p i w) off n i Ho Hi Ei Hii ltac:(lia)) as E4.
  rewrite covered_set16 in E4 by lia. rewrite set16_be16 in E4 by lia. rewrite set16_be16_other in E3 by lia. lia.
Qed.

Section Word.
Context `{NetOrderLaws} (p : list Z) (F : Forall u8 p) (n : Z) (Hn : n <= zlen p) (S : ipv4_sound p n = true).
Context (Nf : ip_fragment p = false) (T : transport_sound p n = true) (K : transport_checksum_ok p = true).
Context (m f : Z) (ws : list Z) (E : transport_part p = Some (m, f, ws)) (P : byte_at p 9 = 6 \/ byte_at p 9 = 17).
Context (i w : Z) (Hi : ip_hlen p <= i) (Ei : (i - ip_hlen p) mod 2 = 0) (Hii : i + 2 <= ip_hlen p + m) (N : i <> f).
Context (Hw : 0 <= w <= 65535).
Let q := set16 p i w.
Context (Eq : transport_part q = Some (m, f, ws)) (Tq : transport_sound q n = true).

Lemma word_bounds : part_facts p m f ws /\ 20 <= ip_hlen p <= 60 /\ ip_hlen p <= ip_tlen p <= n /\ zlen q = zlen p /\ Forall u8 q.
Proof.
  pose proof (part_ok p F n Hn S m f ws Nf T E) as PF. pose proof PF as [].
  destruct (sound_bounds p F n S) as (B1 & B2 & B3). splits; try lia; try done.
  - apply zlen_set16; lia.
  - by apply set16_u8.
Qed.

Lemma word_header : ip_hlen q = ip_hlen p /\ byte_at q 9 = byte_at p 9 /\ ip_fragment q = ip_fragment p /\
  ipv4_sound q n = ipv4_sound p n /\ be16 q 6 = be16 p 6 /\ (f = ip_hlen p + 16 \/ f = ip_hlen p + 6) /\ be16 q f = be16 p f.
Proof.
  destruct word_bounds as ([Q1 Q2 Q3 Q4 Q5 Q6] & B1 & B2 & L & Fq).
  assert (i + 2 <= f \/ f + 2 <= i) as D.
  { pose proof Q2 as Ev. apply Z.mod_divide in Ev as [k Hk]; [|lia]. pose proof Ei as Ev.
    apply Z.mod_divide in Ev as [k' Hk']; [|lia]. lia. }
  pose proof (part_field p m f ws E) as Pf.
  assert (forall j, 0 <= j < 20 -> byte_at q j = byte_at p j) as Eb by (intros; apply set16_byte; lia).
  assert (be16 q f = be16 p f) as Ef by (apply set16_be16_other; lia).
  unfold ip_hlen, ip_fragment, ipv4_sound, ip_hlen, ip_version, ip_tlen, be16 in *. rewrite !Eb by lia.
  splits; try done. lia.
Qed.

(** The expected checksum before and after. *)
Lemma word_update :
  be16 p f = expected_checksum p m f ws ->
  exists d, checksumUpdateWord16 (lwip_htons (be16 p f)) (lwip_htons (be16 p i)) (lwip_htons w) = Ok (lwip_htons d) /\
    0 <= d <= 65535 /\ transmitted (byte_at p 9) d = expected_checksum q m f ws.
Proof.
  intros C. destruct word_bounds as ([Q1 Q2 Q3 Q4 Q5 Q6] & B1 & B2 & L & Fq). destruct word_header as (Eh & E9 & _).
  unfold expected_checksum in *. rewrite Eh, E9.
  assert (forall l, Forall u8 l -> Forall (fun x => 0 <= x <= 65535) (ws ++ covered l (ip_hlen p) m f)) as W
    by (intros; apply Forall_app; split; [done|by apply covered_words]).
  rewrite !checksum_sum, !wordsum_app in * by (apply W; done). unfold q. rewrite covered_sum_set16 by (auto; lia).
  pose proof (be16_range p F i). pose proof (wordsum_nonneg _ Q5) as Nw.
  assert (0 <= wordsum (covered p (ip_hlen p) m f) /\ be16 p i <= wordsum (covered p (ip_hlen p) m f)) as [Nc Ni].
  { pose proof (covered_sum_set16 p (ip_hlen p) m f i 0) as Z0.
    pose proof (wordsum_nonneg _ (covered_words (set16 p i 0) (ip_hlen p) m f (set16_u8 p F i 0))).
    rewrite Z0 in * by (auto; lia). split; [apply wordsum_nonneg, covered_words; done|lia]. }
  assert (0 < wordsum ws) as Pw.
  { unfold transport_part in E. pose proof (be16_range p F 12). pose proof (be16_range p F 14).
    pose proof (be16_range p F 16). pose proof (be16_range p F 18).
    repeat case_match; try discriminate; bool_facts; injection E as <- <- <-; try lia;
      unfold wordsum, pseudo_words; cbn [foldr]; lia. }
  set (t := wordsum ws + wordsum (covered p (ip_hlen p) m f)) in *.
  destruct (stored_class (byte_at p 9) t ltac:(lia)) as (Rx & Cx & Px). rewrite <- C in *.
  destruct (update16_mod (65535 - be16 p f) (be16 p i) w Rx ltac:(lia) Hw) as (y & Ey & Ry & Cy & Py).
  replace (65535 - (65535 - be16 p f)) with (be16 p f) in Ey by lia. rewrite Ey.
  exists (65535 - y). splits; [done|lia|lia|].
  assert (congruent y (t - be16 p i + w)) as Ct.
  { eapply congruent_trans; [exact Cy|]. apply (congruent_shift _ _ (- be16 p i + w)) in Cx.
    by rewrite !Z.add_assoc, !Z.add_opp_r in Cx. }
  replace (wordsum ws + _) with (t - be16 p i + w) by (subst t; lia).
  destruct P as [Ep | Ep]; rewrite Ep; [|apply transmitted_class; auto; lia].
  do 2 f_equal. apply rep_unique; auto; lia.
Qed.

(** The run of the code when the words differ. *)
Lemma word_run :
  (lwip_htons (be16 p i) =? lwip_htons w) = false ->
  updateIpv4TransportChecksum16 q n (lwip_htons (be16 p i)) (lwip_htons w) =
  if (byte_at p 9 =? 17) && (be16 p f =? 0) then Ok (true, q) else
  d ← checksumUpdateWord16 (lwip_htons (be16 p f)) (lwip_htons (be16 p i)) (lwip_htons w);
  r ← wendianStore16 q f (if (byte_at p 9 =? 17) && (d =? 0) then 0xFFFF else d);
  Ok (true, r).
Proof.
  intros Ne. destruct word_bounds as ([Q1 Q2 Q3 Q4 Q5 Q6] & B1 & B2 & L & Fq).
  destruct word_header as (Eh & E9 & Ef & Es & E6 & Hf & Eb). unfold updateIpv4TransportChecksum16.
  rewrite view_of_spec by (auto; lia). rewrite Es, S. step_ok. cbn [negb protocol fragment_offset base_view].
  rewrite E9, E6, (no_offset p F Nf). unfold IP_PROTO_TCP, IP_PROTO_UDP.
  rewrite tcp_view_of_spec, udp_view_of_spec by (auto; lia).
  pose proof Tq as Tq'. unfold transport_sound in Tq'. rewrite E9 in Tq'. pose proof (part_field p m f ws E) as Pf.
  destruct P as [Ep | Ep]; rewrite Ep in *; cbn [Z.eqb Pos.eqb negb andb Z.gtb Z.compare] in *; rewrite Tq'; step_ok;
    cbn [negb transport_offset tcp_view udp_view]; rewrite Ne, Eh.
  - replace (ip_hlen p + 16) with f by lia. rewrite (load16_ok q Fq) by lia. step_ok. by rewrite Eb.
  - replace (ip_hlen p + 6) with f by lia. rewrite (load16_ok q Fq) by lia. step_ok. rewrite Eb.
    rewrite htons_zero by apply (be16_range p F). by destruct (be16 p f =? 0).
Qed.

Lemma word_result :
  exists r, updateIpv4TransportChecksum16 q n (lwip_htons (be16 p i)) (lwip_htons w) = Ok (true, r) /\
    transport_checksum_ok r = true /\ agree_except [f] q r.
Proof.
  destruct word_bounds as ([Q1 Q2 Q3 Q4 Q5 Q6] & B1 & B2 & L & Fq).
  destruct word_header as (Eh & E9 & Ef & Es & E6 & Hf & Eb). pose proof (be16_range p F i).
  destruct (lwip_htons (be16 p i) =? lwip_htons w) eqn:Ne.
  { assert (q = p) as Eqp.
    { subst q. rewrite htons_eqb in Ne by done. bool_facts. rewrite <- Ne. apply set16_self; auto; lia. }
    exists q. rewrite Eqp. splits; [|done|apply agree_refl]. unfold updateIpv4TransportChecksum16.
    rewrite view_of_spec, S by done. step_ok. cbn [negb protocol fragment_offset base_view].
    rewrite (no_offset p F Nf), tcp_view_of_spec, udp_view_of_spec by done. unfold IP_PROTO_TCP, IP_PROTO_UDP.
    pose proof T as T'. unfold transport_sound in T'.
    destruct P as [Ep | Ep]; rewrite Ep in *; cbn [Z.eqb Pos.eqb negb andb Z.gtb Z.compare] in *; rewrite T'; step_ok;
      cbn [negb]; by rewrite Ne. }
  rewrite word_run by done. pose proof K as K'. unfold transport_checksum_ok in K'. rewrite E in K'.
  destruct ((byte_at p 9 =? 17) && (be16 p f =? 0)) eqn:U.
  { exists q. splits; [done| |apply agree_refl]. unfold transport_checksum_ok. by rewrite Eq, E9, Eb, U. }
  cbn [orb] in K'. bool_facts. destruct (word_update K') as (d & -> & Rd & Ed). step_ok. rewrite htons_zero by done.
  replace (if (byte_at p 9 =? 17) && (d =? 0) then 65535 else lwip_htons d) with (lwip_htons (transmitted (byte_at p 9) d))
    by (unfold transmitted; destruct ((byte_at p 9 =? 17) && (d =? 0)); [by rewrite htons_swap by lia|done]).
  pose proof (transmitted_range (byte_at p 9) d Rd) as Rt. rewrite store16_ok by (done || lia). step_ok.
  eexists. splits; [done| |apply agree_set16; [left|lia..]].
  assert (agree_except (checksum_fields q) q (set16 q f (transmitted (byte_at p 9) d))) as A.
  { apply agree_set16; [|lia..]. unfold checksum_fields. rewrite Eq. right. left. }
  pose proof (same_lengths q _ A ltac:(lia)) as (_ & _ & _ & _ & E9').
  unfold transport_checksum_ok. rewrite (same_part q _ A ltac:(lia)), Eq, (same_expected q _ A ltac:(lia) m f ws Eq) by lia.
  rewrite set16_be16, Ed by lia. by rewrite Z.eqb_refl, orb_true_r.
Qed.
End Word.

(** The contract of the incremental transport update: when one aligned word
    of a TCP or UDP segment (not the checksum and not a length) was replaced, the
    call with the old and the new word stores exactly the checksum of the new
    segment; a UDP datagram without a checksum keeps none. *)
Theorem transport_word_update_exact `{NetOrderLaws} (p : list Z) (n m f i w : Z) (ws : list Z) :
  Forall u8 p -> n <= zlen p -> valid_packet p n = true -> ip_fragment p = false ->
  byte_at p 9 = 6 \/ byte_at p 9 = 17 -> transport_part p = Some (m, f, ws) ->
  ip_hlen p <= i /\ (i - ip_hlen p) mod 2 = 0 /\ i + 2 <= ip_hlen p + m /\ i <> f -> 0 <= w <= 65535 ->
  transport_part (set16 p i w) = Some (m, f, ws) -> transport_sound (set16 p i w) n = true ->
  exists r, updateIpv4TransportChecksum16 (set16 p i w) n (lwip_htons (be16 p i)) (lwip_htons w) = Ok (true, r) /\
    transport_checksum_ok r = true /\ agree_except [f] (set16 p i w) r.
Proof.
  intros F Hn V Nf P E (H1 & H2 & H3 & H4) Hw Eq Tq. unfold valid_packet, checksums_ok in V. rewrite Nf in V.
  cbn [orb] in V. rewrite !andb_true_iff in V. destruct V as ((S & T) & _ & K).
  by apply (word_result p F n Hn S Nf T K m f ws E P i w).
Qed.

(** The source port of a datagram. *)
Lemma transport_word_update_exact_witness :
  exists r, updateIpv4TransportChecksum16 (set16 demo_valid 20 7777) 30 (lwip_htons 1234) (lwip_htons 7777) = Ok (true, r) /\
    transport_checksum_ok r = true.
Proof.
  destruct (transport_word_update_exact demo_valid 30 10 26 20 7777 (pseudo_words demo_valid 17 10)) as (r & E & K & _).
  - repeat constructor; unfold UINT8_MAX; lia.
  - vm_compute. discriminate.
  - reflexivity.
  - reflexivity.
  - by right.
  - reflexivity.
  - vm_compute. splits; congruence.
  - lia.
  - reflexivity.
  - reflexivity.
  - exists r. split; [exact E|exact K].
Defined.
