(* ===== verification/FragRanges.v ===== *)
(** * Coverage of a fragmented datagram ([ww/devices/device_frag_affinity.c])

    The parser of IPv4 fragments and the bookkeeping of which payload bytes of a
    datagram have arrived: a bounded array of ranges, kept sorted, in which a new
    range that touches its neighbours is merged with them.  The array is compared
    with the set of offsets it stands for.  The fields of
    [device_frag_affinity_entry_t] this part reads and writes are the record
    [coverage_t]; [FragAffinity] holds the rest of the entry. *)

From Stdlib Require Import ZArith Lia.
From stdpp Require Import base numbers option list.
From S2P Require Import Prelude ShiftBuffer Endian PacketChecksum.
Open Scope Z_scope.
Open Scope word_scope.

Definition kDeviceFragAffinityIpv4MoreFragments : Z := 0x2000.
Definition kDeviceFragAffinityIpv4OffsetMask : Z := 0x1fff.
Definition kDeviceFragAffinityMaxPayloadEnd : Z := UINT16_MAX - 20.
Definition kDeviceFragAffinityMaxRanges : Z := 16.

(** ** Parsing a fragment *)

Record device_frag_view_t : Type := mk_view {
  v_src : Z;
  v_dst : Z;
  v_ident : Z;
  v_offset : Z;
  v_payload_len : Z;
  v_proto : Z;
  v_more_fragments : bool
}.

Definition zero_view : device_frag_view_t := mk_view 0 0 0 0 0 0 false.

Inductive device_frag_parse_result_t : Set :=
  | kDeviceFragParseNotFragment
  | kDeviceFragParseInvalid
  | kDeviceFragParseValid.

Definition with_payload_len (v : device_frag_view_t) (n : Z) : device_frag_view_t :=
  mk_view (v_src v) (v_dst v) (v_ident v) (v_offset v) n (v_proto v) (v_more_fragments v).

(** The caller passes a zeroed view; the second component is what it holds
    afterwards.  A malformed fragment still fills in its association key. *)
Definition deviceFragAffinityParse (packet : option (list Z)) (length : Z)
    (trusted_ipv4_header : bool) : outcome (device_frag_parse_result_t * device_frag_view_t) :=
  match packet with
  | None => mret (kDeviceFragParseNotFragment, zero_view)
  | Some packet =>
      if length <? 20 then mret (kDeviceFragParseNotFragment, zero_view) else
      b0 ← load8 packet 0;
      if negb (Z.shiftr b0 4 =? 4) then mret (kDeviceFragParseNotFragment, zero_view) else
      fragment_field ← GET_BE16 packet 6;
      if Z.land fragment_field
           (Z.lor kDeviceFragAffinityIpv4MoreFragments kDeviceFragAffinityIpv4OffsetMask) =? 0
      then mret (kDeviceFragParseNotFragment, zero_view) else
      src ← GET_BE32 packet 12;
      dst ← GET_BE32 packet 16;
      proto ← load8 packet 9;
      ident ← GET_BE16 packet 4;
      let offset := wrap16 (Z.land fragment_field kDeviceFragAffinityIpv4OffsetMask * 8) in
      let more := negb (Z.land fragment_field kDeviceFragAffinityIpv4MoreFragments =? 0) in
      let view := mk_view src dst ident offset 0 proto more in
      let ip_header_len := Z.land b0 0x0F *32 4 in
      ip_total_len ← GET_BE16 packet 2;
      invalid ← (if negb (ip_header_len =? 20) || (ip_total_len <=? ip_header_len) ||
                    negb (ip_total_len =? length) then mret true
                 else if negb trusted_ipv4_header then
                   valid ← deviceIpv4HeaderChecksumValid packet ip_header_len; mret (negb valid)
                 else mret false);
      if (invalid : bool) then mret (kDeviceFragParseInvalid, view) else
      let view := with_payload_len view (wrap16 (ip_total_len -32 ip_header_len)) in
      let end_ := v_offset view +32 v_payload_len view in
      if (v_payload_len view =? 0) ||
         (v_more_fragments view && negb (v_payload_len view mod 8 =? 0)) ||
         (end_ >? kDeviceFragAffinityMaxPayloadEnd)
      then mret (kDeviceFragParseInvalid, view)
      else mret (kDeviceFragParseValid, view)
  end.

(** ** Ranges *)

Record device_frag_range_t : Type := mk_range {
  r_begin : Z;
  r_end : Z
}.

Record coverage_t : Type := mk_coverage {
  saw_last : bool;
  final_end : Z;
  range_count : Z;
  ranges : list device_frag_range_t
}.

Definition set_ranges (c : coverage_t) (count : Z) (rs : list device_frag_range_t) : coverage_t :=
  mk_coverage (saw_last c) (final_end c) count rs.

Inductive device_frag_account_result_t : Set :=
  | kDeviceFragAccountOk
  | kDeviceFragAccountOverlap
  | kDeviceFragAccountConflict
  | kDeviceFragAccountCapacity.

(** [while (insert < range_count && ranges[insert].end <= begin) ++insert] *)
Fixpoint find_insert (fuel : nat) (c : coverage_t) (begin insert : Z) : outcome Z :=
  match fuel with
  | O => Fail NotModelled
  | S fuel' =>
      if insert <? range_count c then
        r ← arr_get (ranges c) insert;
        if r_end r <=? begin then find_insert fuel' c begin (wrap8 (insert + 1)) else mret insert
      else mret insert
  end.

Definition deviceFragAffinityAddRange (c : coverage_t) (begin end_ : Z)
  : outcome (device_frag_account_result_t * coverage_t) :=
  insert ← find_insert (S (Z.to_nat kDeviceFragAffinityMaxRanges)) c begin 0;
  overlap ← (if insert <? range_count c then
               r ← arr_get (ranges c) insert; mret ((r_begin r <? end_) && (r_end r >? begin))
             else mret false);
  if (overlap : bool) then mret (kDeviceFragAccountOverlap, c) else
  '(erase_begin, merged_begin) ←
    (if insert >? 0 then
       r ← arr_get (ranges c) (insert - 1);
       mret (if r_end r =? begin then (wrap8 (insert - 1), r_begin r) else (insert, begin))
     else mret (insert, begin));
  '(erase_end, merged_end) ←
    (if insert <? range_count c then
       r ← arr_get (ranges c) insert;
       mret (if r_begin r =? end_ then (wrap8 (insert + 1), r_end r) else (insert, end_))
     else mret (insert, end_));
  if erase_begin =? erase_end then
    if range_count c >=? kDeviceFragAffinityMaxRanges then mret (kDeviceFragAccountCapacity, c) else
    rs ← arr_move (ranges c) (insert + 1) insert (range_count c - insert);
    rs ← arr_set rs insert (mk_range merged_begin merged_end);
    mret (kDeviceFragAccountOk, set_ranges c (wrap8 (range_count c + 1)) rs)
  else
    let erased := wrap8 (erase_end - erase_begin) in
    rs ← arr_move (ranges c) (erase_begin + 1) erase_end (range_count c - erase_end);
    let count := wrap8 (range_count c - erased + 1) in
    rs ← arr_set rs erase_begin (mk_range merged_begin merged_end);
    mret (kDeviceFragAccountOk, set_ranges c count rs).

Definition deviceFragAffinityIsComplete (c : coverage_t) : outcome bool :=
  if saw_last c && (range_count c =? 1) then
    r ← arr_get (ranges c) 0;
    mret ((r_begin r =? 0) && (r_end r =? final_end c))
  else mret false.

Definition deviceFragAffinityAccount (c : coverage_t) (view : device_frag_view_t)
  : outcome (device_frag_account_result_t * coverage_t) :=
  let end_ := v_offset view +32 v_payload_len view in
  conflict ← (if negb (v_more_fragments view) then
                if saw_last c && negb (final_end c =? end_) then mret true else
                if negb (saw_last c) && negb (range_count c =? 0) then
                  r ← arr_get (ranges c) (range_count c - 1); mret (r_end r >? end_)
                else mret false
              else mret (saw_last c && (end_ >? final_end c)));
  if (conflict : bool) then mret (kDeviceFragAccountConflict, c) else
  '(range_result, c) ← deviceFragAffinityAddRange c (v_offset view) end_;
  match range_result with
  | kDeviceFragAccountOk =>
      mret (kDeviceFragAccountOk,
            if negb (v_more_fragments view)
            then mk_coverage true end_ (range_count c) (ranges c) else c)
  | _ => mret (range_result, c)
  end.

(** ** Ranges as a set of offsets *)

Definition live (c : coverage_t) : list device_frag_range_t :=
  take (Z.to_nat (range_count c)) (ranges c).

(** Sorted, none of them empty, with a gap between neighbours; [lo] lies below
    the first one. *)
Fixpoint ascending (lo : Z) (l : list device_frag_range_t) : Prop :=
  match l with
  | [] => True
  | r :: l' => lo < r_begin r /\ r_begin r < r_end r /\ ascending (r_end r) l'
  end.

Fixpoint last_end (lo : Z) (l : list device_frag_range_t) : Z :=
  match l with
  | [] => lo
  | r :: l' => last_end (r_end r) l'
  end.

Definition inside (x : Z) (r : device_frag_range_t) : Prop := r_begin r <= x < r_end r.
Definition holds_offset (l : list device_frag_range_t) (x : Z) : Prop := Exists (inside x) l.
Definition covered (c : coverage_t) (x : Z) : Prop := holds_offset (live c) x.

Record coverage_wf (c : coverage_t) : Prop := mk_coverage_wf {
  cw_count : 0 <= range_count c <= kDeviceFragAffinityMaxRanges;
  cw_array : zlen (ranges c) = kDeviceFragAffinityMaxRanges;
  cw_sorted : ascending (-1) (live c);
  cw_bound : forall x, covered c x -> x < kDeviceFragAffinityMaxPayloadEnd;
  cw_last : saw_last c = true ->
    0 < final_end c <= kDeviceFragAffinityMaxPayloadEnd /\ forall x, covered c x -> x < final_end c
}.

Lemma ascending_app (lo : Z) (A B : list device_frag_range_t) :
  ascending lo (A ++ B) <-> ascending lo A /\ ascending (last_end lo A) B.
Proof.
  revert lo. induction A as [|r A IH]; intros lo; simpl; [tauto|]. rewrite IH. tauto.
Qed.

Lemma ascending_lower (lo lo' : Z) (l : list device_frag_range_t) :
  lo' <= lo -> ascending lo l -> ascending lo' l.
Proof. destruct l as [|r l]; simpl; [done|]. intros ? (? & ? & ?). splits; [lia|done|done]. Qed.

Lemma last_end_ge (lo : Z) (l : list device_frag_range_t) : ascending lo l -> lo <= last_end lo l.
Proof.
  revert lo. induction l as [|r l IH]; intros lo; simpl; [lia|].
  intros (? & ? & H). specialize (IH _ H). lia.
Qed.

Lemma last_end_snoc (lo : Z) (l : list device_frag_range_t) (r : device_frag_range_t) :
  last_end lo (l ++ [r]) = r_end r.
Proof. revert lo. induction l; intros; simpl; auto. Qed.

Lemma holds_app (A B : list device_frag_range_t) (x : Z) :
  holds_offset (A ++ B) x <-> holds_offset A x \/ holds_offset B x.
Proof. apply Exists_app. Qed.

Lemma holds_cons (r : device_frag_range_t) (l : list device_frag_range_t) (x : Z) :
  holds_offset (r :: l) x <-> r_begin r <= x < r_end r \/ holds_offset l x.
Proof. apply Exists_cons. Qed.

Lemma holds_nil_iff (x : Z) : holds_offset [] x <-> False.
Proof. apply Exists_nil. Qed.
#[export] Hint Rewrite holds_app holds_cons holds_nil_iff : ww.

(** An offset of sorted ranges lies between the ends of the list. *)
Lemma holds_range (lo : Z) (l : list device_frag_range_t) (x : Z) :
  ascending lo l -> holds_offset l x -> lo < x < last_end lo l.
Proof.
  revert lo. induction l as [|r l IH]; intros lo; simpl; rewrite ?holds_cons, ?holds_nil_iff; [done|].
  intros (? & ? & Hl) [Hx|Hx].
  - pose proof (last_end_ge _ _ Hl). lia.
  - specialize (IH _ Hl Hx). lia.
Qed.

(** The greatest offset of a non-empty list. *)
Lemma holds_last (lo : Z) (l : list device_frag_range_t) :
  ascending lo l -> l <> [] -> holds_offset l (last_end lo l - 1).
Proof.
  revert lo. induction l as [|r l IH]; intros lo; simpl; [done|]. intros (? & ? & Hl) _.
  rewrite holds_cons. destruct l as [|r' l]; [left; simpl; lia|]. right. by apply IH.
Qed.

(** ** Inserting a range *)

(** The ranges that end at or before [begin], and the rest. *)
Fixpoint cut (begin : Z) (l : list device_frag_range_t)
  : list device_frag_range_t * list device_frag_range_t :=
  match l with
  | [] => ([], [])
  | r :: l' => if r_end r <=? begin
               then let '(A, B) := cut begin l' in (r :: A, B)
               else ([], l)
  end.

Lemma cut_spec (begin : Z) (l A B : list device_frag_range_t) :
  cut begin l = (A, B) ->
  l = A ++ B /\ Forall (fun r => r_end r <= begin) A /\
  match B with [] => True | r :: _ => begin < r_end r end.
Proof.
  revert A B. induction l as [|r l IH]; intros A B; simpl; [by intros [= <- <-]|].
  destruct (r_end r <=? begin) eqn:E; bool_facts.
  - destruct (cut begin l) as [A' B'] eqn:C. intros [= <- <-].
    destruct (IH _ _ eq_refl) as (-> & ? & ?). splits; auto.
  - intros [= <- <-]. splits; auto.
Qed.

Lemma live_lookup (c : coverage_t) (i : Z) (r : device_frag_range_t) :
  coverage_wf c -> 0 <= i -> live c !! Z.to_nat i = Some r -> arr_get (ranges c) i = Ok r.
Proof.
  intros W Hi E. apply arr_get_ok; [done|]. unfold live in E.
  by apply lookup_take_Some in E as [? _].
Qed.

Lemma live_length (c : coverage_t) : coverage_wf c -> zlen (live c) = range_count c.
Proof.
  intros []. unfold live, zlen, kDeviceFragAffinityMaxRanges in *. rewrite length_take. lia.
Qed.

Lemma find_insert_spec (c : coverage_t) (begin : Z) (A B : list device_frag_range_t) :
  coverage_wf c -> cut begin (live c) = (A, B) ->
  find_insert (S (Z.to_nat kDeviceFragAffinityMaxRanges)) c begin 0 = Ok (zlen A).
Proof.
  intros W C. pose proof (live_length c W) as HL. pose proof (cw_count c W) as Hc.
  pose proof (cut_spec _ _ _ _ C) as (EL & FA & HB).
  unfold kDeviceFragAffinityMaxRanges in *.
  assert (forall fuel k, 0 <= k <= zlen A -> (Z.to_nat (zlen A - k) < fuel)%nat ->
    find_insert fuel c begin k = Ok (zlen A)) as G; [|apply G; pose proof (zlen_nonneg A)].
  2: lia.
  2: { assert (zlen A <= 16); [|lia]. rewrite EL, zlen_app in HL. pose proof (zlen_nonneg B). lia. }
  induction fuel as [|fuel IH]; intros k Hk Hf; [lia|]. cbn [find_insert].
  rewrite EL, zlen_app in HL. pose proof (zlen_nonneg B).
  destruct (Z.eq_dec k (zlen A)) as [->|Hne].
  - destruct B as [|r B].
    + rewrite zlen_nil in HL. by replace (zlen A <? range_count c) with false by lia.
    + rewrite zlen_cons in HL. pose proof (zlen_nonneg B).
      replace (zlen A <? range_count c) with true by lia.
      rewrite (live_lookup c (zlen A) r W); [|lia|].
      * step_ok. by replace (r_end r <=? begin) with false by lia.
      * rewrite EL. unfold zlen. rewrite Nat2Z.id. by rewrite list_lookup_middle.
  - replace (k <? range_count c) with true by lia.
    destruct (lookup_lt_is_Some_2 A (Z.to_nat k)) as [r Hr]; [unfold zlen in *; lia|].
    rewrite (live_lookup c k r W); [|lia|].
    + step_ok. rewrite Forall_lookup in FA. specialize (FA _ _ Hr). simpl in FA.
      replace (r_end r <=? begin) with true by lia. rewrite wrap8_small by (unfold UINT8_MAX; lia).
      apply IH; lia.
    + rewrite EL. by apply lookup_app_l_Some.
Qed.

(** Replaces the part [M] of the live prefix of an array by one element, the
    move first and the assignment second. *)
Lemma array_replace {X} (rs A M B : list X) (x : X) :
  take (length (A ++ M ++ B)) rs = A ++ M ++ B -> zlen A + 1 + zlen B <= zlen rs ->
  zlen (A ++ M ++ B) <= zlen rs ->
  exists rs1 rs2, arr_move rs (zlen A + 1) (zlen A + zlen M) (zlen B) = Ok rs1 /\
    arr_set rs1 (zlen A) x = Ok rs2 /\ zlen rs2 = zlen rs /\
    take (Z.to_nat (zlen A + 1 + zlen B)) rs2 = A ++ x :: B.
Proof.
  intros T Hfit Hlen. rewrite !zlen_app in Hlen.
  pose proof (zlen_nonneg A). pose proof (zlen_nonneg M). pose proof (zlen_nonneg B).
  assert (rs = (A ++ M) ++ B ++ drop (length (A ++ M ++ B)) rs) as R.
  { rewrite <- (take_drop (length (A ++ M ++ B)) rs) at 1. rewrite T. by rewrite <- !app_assoc. }
  rewrite arr_move_ok by lia.
  assert (slice (zlen A + zlen M) (zlen B) rs = B) as ->.
  { rewrite R, slice_app_r by (rewrite zlen_app; lia). rewrite zlen_app, Z.sub_diag.
    by rewrite slice_app_l, slice_0_all by lia. }
  assert (take (Z.to_nat (zlen A + 1)) rs = A ++ take 1 (drop (length A) rs)) as ->.
  { replace (Z.to_nat (zlen A + 1)) with (length A + 1)%nat by (unfold zlen; lia).
    rewrite <- take_take_drop. f_equal. rewrite R, <- !app_assoc. by rewrite take_app_length. }
  destruct (drop (length A) rs) as [|y rest] eqn:D.
  { apply (f_equal length) in D. rewrite length_drop in D. unfold zlen in *. simpl in D. lia. }
  eexists _, ((A ++ [x]) ++ B ++ drop (Z.to_nat (zlen A + 1 + zlen B)) rs).
  splits; [done| | |].
  - rewrite arr_set_ok.
    + f_equal. simpl. rewrite <- !app_assoc. unfold zlen at 1. rewrite Nat2Z.id.
      by rewrite insert_app_r_alt, Nat.sub_diag by lia.
    + rewrite !zlen_app. change (zlen (take 1 (y :: rest))) with 1.
      pose proof (zlen_nonneg (drop (Z.to_nat (zlen A + 1 + zlen B)) rs)). lia.
  - rewrite !zlen_app. change (zlen [x]) with 1. unfold zlen in *. rewrite length_drop. lia.
  - rewrite app_assoc, take_app_length'.
    + by rewrite <- app_assoc.
    + rewrite !length_app. unfold zlen. simpl. lia.
Qed.

Section AddRange.
Context (c : coverage_t) (W : coverage_wf c) (b e : Z) (Hb : 0 <= b < e).
Context (A B : list device_frag_range_t) (HL : live c = A ++ B).

Lemma parts_length : zlen A + zlen B = range_count c /\ range_count c <= 16.
Proof.
  pose proof (live_length c W) as H. rewrite HL, zlen_app in H.
  pose proof (cw_count c W). unfold kDeviceFragAffinityMaxRanges in *. lia.
Qed.

(** The neighbour on the left is absorbed when it ends where the new range
    begins. *)
Lemma merge_left :
  Forall (fun r => r_end r <= b) A ->
  exists A' M b',
    (if zlen A >? 0 then
       r ← arr_get (ranges c) (zlen A - 1);
       mret (if r_end r =? b then (wrap8 (zlen A - 1), r_begin r) else (zlen A, b))
     else mret (zlen A, b)) = Ok (zlen A', b') /\
    A = A' ++ M /\ zlen M <= 1 /\ ascending (-1) A' /\ last_end (-1) A' < b' /\ b' <= b /\
    forall x, holds_offset M x <-> b' <= x < b.
Proof.
  intros FA. pose proof (cw_sorted c W) as S. rewrite HL, ascending_app in S. destruct S as [SA _].
  pose proof parts_length as [? ?]. pose proof (zlen_nonneg B).
  destruct (decide (A = [])) as [->|Hne].
  { exists [], [], b. splits; try done; try (simpl; lia). intros x. rewrite holds_nil_iff. lia. }
  destruct (exists_last Hne) as (A0 & r & EA). rewrite EA in *.
  rewrite zlen_app in *. change (zlen [r]) with 1 in *. pose proof (zlen_nonneg A0).
  replace (zlen A0 + 1 >? 0) with true by lia. replace (zlen A0 + 1 - 1) with (zlen A0) by lia.
  rewrite (live_lookup c (zlen A0) r W); [|lia|].
  2: { rewrite HL. unfold zlen. rewrite Nat2Z.id, <- app_assoc. by apply list_lookup_middle. }
  step_ok. apply Forall_app in FA as [_ FA]. apply Forall_cons in FA as [Hr _].
  pose proof SA as SA'. apply ascending_app in SA' as [S0 (Sb & Se & _)].
  destruct (r_end r =? b) eqn:E; bool_facts.
  - exists A0, [r], (r_begin r). rewrite wrap8_small by (unfold UINT8_MAX; lia).
    splits; try done; try lia. intros x. rewrite holds_cons, holds_nil_iff. lia.
  - exists (A0 ++ [r]), [], b. rewrite zlen_app. change (zlen [r]) with 1.
    splits; try done; try lia; [by rewrite app_nil_r| |].
    + rewrite last_end_snoc. lia.
    + intros x. rewrite holds_nil_iff. lia.
Qed.

(** The neighbour on the right is absorbed when it begins where the new range
    ends. *)
Lemma merge_right :
  match B with [] => True | r :: _ => e <= r_begin r end ->
  exists M B' e',
    (if zlen A <? range_count c then
       r ← arr_get (ranges c) (zlen A);
       mret (if r_begin r =? e then (wrap8 (zlen A + 1), r_end r) else (zlen A, e))
     else mret (zlen A, e)) = Ok (zlen A + zlen M, e') /\
    B = M ++ B' /\ zlen M <= 1 /\ ascending e' B' /\ e <= e' /\
    forall x, holds_offset M x <-> e <= x < e'.
Proof.
  intros HB. pose proof (cw_sorted c W) as S. rewrite HL, ascending_app in S. destruct S as [_ SB].
  pose proof parts_length as [? ?]. pose proof (zlen_nonneg A).
  destruct B as [|r B'].
  { rewrite zlen_nil in *. replace (zlen A <? range_count c) with false by lia.
    exists [], [], e. rewrite zlen_nil, Z.add_0_r. splits; try done; try lia.
    intros x. rewrite holds_nil_iff. lia. }
  rewrite zlen_cons in *. pose proof (zlen_nonneg B').
  replace (zlen A <? range_count c) with true by lia.
  rewrite (live_lookup c (zlen A) r W); [|lia|].
  2: { rewrite HL. unfold zlen. rewrite Nat2Z.id. by apply list_lookup_middle. }
  step_ok. destruct SB as (S1 & S2 & S3). destruct (r_begin r =? e) eqn:E; bool_facts.
  - exists [r], B', (r_end r). rewrite wrap8_small by (unfold UINT8_MAX; lia).
    splits; try done; try lia. intros x. rewrite holds_cons, holds_nil_iff. lia.
  - exists [], (r :: B'), e. rewrite zlen_nil, Z.add_0_r. splits; try done; try lia.
    + simpl. splits; auto. lia.
    + intros x. rewrite holds_nil_iff. lia.
Qed.
End AddRange.

Lemma live_take (c : coverage_t) (l : list device_frag_range_t) :
  coverage_wf c -> live c = l -> take (length l) (ranges c) = l.
Proof.
  intros [] <-. unfold live, zlen, kDeviceFragAffinityMaxRanges in *. rewrite length_take.
  f_equal. lia.
Qed.

(** What a new range does to the set of offsets. *)
Definition range_added (c : coverage_t) (b e : Z) (r : device_frag_account_result_t)
    (c' : coverage_t) : Prop :=
  match r with
  | kDeviceFragAccountOk =>
      (forall x, b <= x < e -> ~ covered c x) /\
      saw_last c' = saw_last c /\ final_end c' = final_end c /\
      0 <= range_count c' <= Z.min kDeviceFragAffinityMaxRanges (range_count c + 1) /\
      zlen (ranges c') = kDeviceFragAffinityMaxRanges /\
      ascending (-1) (live c') /\
      (forall x, covered c' x <-> covered c x \/ b <= x < e)
  | kDeviceFragAccountOverlap => c' = c /\ exists x, b <= x < e /\ covered c x
  | kDeviceFragAccountCapacity => c' = c /\ range_count c = kDeviceFragAffinityMaxRanges /\
      forall x, b <= x < e -> ~ covered c x
  | kDeviceFragAccountConflict => False
  end.

(** The array after the absorbed ranges [M] were replaced by one range. *)
Lemma replaced_range (c : coverage_t) (A M B : list device_frag_range_t) (b' e' : Z) :
  coverage_wf c -> live c = A ++ M ++ B -> zlen A + 1 + zlen B <= kDeviceFragAffinityMaxRanges ->
  exists rs1 rs2,
    arr_move (ranges c) (zlen A + 1) (zlen A + zlen M) (zlen B) = Ok rs1 /\
    arr_set rs1 (zlen A) (mk_range b' e') = Ok rs2 /\
    zlen rs2 = kDeviceFragAffinityMaxRanges /\
    live (set_ranges c (zlen A + 1 + zlen B) rs2) = A ++ mk_range b' e' :: B.
Proof.
  intros W HL Hfit. pose proof (live_length c W) as Hlen. rewrite HL in Hlen.
  pose proof (cw_array c W) as Ha. pose proof (cw_count c W) as Hc.
  destruct (array_replace (ranges c) A M B (mk_range b' e')) as (rs1 & rs2 & E1 & E2 & Hl & Ht).
  - by apply live_take.
  - lia.
  - lia.
  - exists rs1, rs2. splits; auto. lia.
Qed.

(** The set the new array stands for. *)
Lemma replaced_set (c c' : coverage_t) (A M B : list device_frag_range_t) (b e b' e' : Z) :
  live c = A ++ M ++ B -> live c' = A ++ mk_range b' e' :: B ->
  ascending (-1) A -> last_end (-1) A < b' -> b' < e' -> ascending e' B ->
  (forall x, holds_offset M x \/ b <= x < e <-> b' <= x < e') ->
  ascending (-1) (live c') /\ forall x, covered c' x <-> covered c x \/ b <= x < e.
Proof.
  intros HL HL' SA Hlo Hlt SB HM. unfold covered. rewrite HL, HL'. split.
  - rewrite ascending_app. simpl. auto.
  - intros x. specialize (HM x). autorewrite with ww. simpl. tauto.
Qed.

Section Overlap.
Context (c : coverage_t) (W : coverage_wf c) (b e : Z) (Hb : 0 <= b < e).
Context (A B : list device_frag_range_t) (C : cut b (live c) = (A, B)).

Lemma overlap_test :
  exists o : bool,
    (if zlen A <? range_count c then
       r ← arr_get (ranges c) (zlen A); mret ((r_begin r <? e) && (r_end r >? b))
     else mret false) = Ok o /\
    if o then exists x, b <= x < e /\ covered c x
    else match B with [] => True | r :: _ => e <= r_begin r end.
Proof.
  pose proof (cut_spec _ _ _ _ C) as (HL & FA & HB).
  pose proof (parts_length c W A B HL) as [Hlen _]. pose proof (zlen_nonneg A).
  pose proof (cw_sorted c W) as S. rewrite HL, ascending_app in S. destruct S as [_ SB].
  destruct B as [|r B'].
  - rewrite zlen_nil in *. replace (zlen A <? range_count c) with false by lia. by exists false.
  - rewrite zlen_cons in *. pose proof (zlen_nonneg B').
    replace (zlen A <? range_count c) with true by lia.
    rewrite (live_lookup c (zlen A) r W); [|lia|].
    + step_ok. replace (r_end r >? b) with true by lia. rewrite andb_true_r.
      exists (r_begin r <? e). split; [done|]. destruct (r_begin r <? e) eqn:E; bool_facts; [|done].
      destruct SB as (? & ? & ?). exists (Z.max b (r_begin r)). split; [lia|].
      unfold covered. rewrite HL, holds_app, holds_cons. lia.
    + rewrite HL. unfold zlen. rewrite Nat2Z.id. by apply list_lookup_middle.
Qed.

Lemma no_overlap_free :
  match B with [] => True | r :: _ => e <= r_begin r end ->
  forall x, b <= x < e -> ~ covered c x.
Proof.
  pose proof (cut_spec _ _ _ _ C) as (HL & FA & _).
  pose proof (cw_sorted c W) as S. rewrite HL, ascending_app in S. destruct S as [_ SB].
  intros Ho x Hx Hc. unfold covered in Hc. rewrite HL, holds_app in Hc. destruct Hc as [Hc|Hc].
  - apply Exists_exists in Hc as (r & Hin & Hr). rewrite Forall_forall in FA.
    specialize (FA _ Hin). unfold inside in Hr. simpl in *. lia.
  - destruct B as [|r B']; [by apply holds_nil_iff in Hc|].
    apply holds_cons in Hc as [Hc|Hc]; [lia|]. destruct SB as (? & ? & SB).
    apply (holds_range _ _ _ SB) in Hc. lia.
Qed.
End Overlap.

Lemma add_range_spec (c : coverage_t) (b e : Z) :
  coverage_wf c -> 0 <= b < e ->
  exists r c', deviceFragAffinityAddRange c b e = Ok (r, c') /\ range_added c b e r c'.
Proof.
  intros W Hb. destruct (cut b (live c)) as [A B] eqn:C.
  pose proof (cut_spec _ _ _ _ C) as (HL & FA & _).
  pose proof (parts_length c W A B HL) as [Hlen Hmax].
  unfold deviceFragAffinityAddRange. rewrite (find_insert_spec c b A B W C). step_ok.
  destruct (overlap_test c W b e Hb A B C) as (o & -> & Ho). step_ok. destruct o.
  { exists kDeviceFragAccountOverlap, c. by split. }
  pose proof (no_overlap_free c W b e A B C Ho) as Hfree.
  destruct (merge_left c W b e Hb A B HL FA) as (A' & M1 & b' & -> & EA & ? & SA' & Hlo & Hb' & Hm1).
  destruct (merge_right c W e A B HL Ho) as (M2 & B' & e' & -> & EB & ? & SB' & He' & Hm2).
  step_ok. assert (HL' : live c = A' ++ (M1 ++ M2) ++ B') by (by rewrite HL, EA, EB, <- !app_assoc).
  assert (HlA : zlen A = zlen A' + zlen M1) by (by rewrite EA, zlen_app).
  assert (HlB : zlen B = zlen M2 + zlen B') by (by rewrite EB, zlen_app).
  pose proof (zlen_nonneg A'). pose proof (zlen_nonneg B'). pose proof (zlen_nonneg M1).
  pose proof (zlen_nonneg M2). unfold kDeviceFragAffinityMaxRanges in *.
  assert (HM : forall x, holds_offset (M1 ++ M2) x \/ b <= x < e <-> b' <= x < e').
  { intros x. rewrite holds_app, Hm1, Hm2. lia. }
  pose proof (fun c' E => replaced_set c c' A' (M1 ++ M2) B' b e b' e' HL' E SA' Hlo ltac:(lia) SB' HM) as Set_.
  pose proof (replaced_range c A' (M1 ++ M2) B' b' e' W HL') as Rep. rewrite zlen_app in Rep.
  unfold kDeviceFragAffinityMaxRanges in Rep.
  destruct (zlen A' =? zlen A + zlen M2) eqn:E; bool_facts.
  - destruct (range_count c >=? 16) eqn:Ecap; bool_facts.
    { exists kDeviceFragAccountCapacity, c. split; [done|]. unfold range_added. splits; auto.
      unfold kDeviceFragAffinityMaxRanges. lia. }
    destruct Rep as (rs1 & rs2 & E1 & E2 & E3 & E4); [lia|].
    replace (range_count c - zlen A) with (zlen B') by lia. replace (zlen A) with (zlen A') by lia.
    replace (zlen A' + (zlen M1 + zlen M2)) with (zlen A') in E1 by lia.
    rewrite E1. step_ok. rewrite E2. step_ok. rewrite wrap8_small by (unfold UINT8_MAX; lia).
    replace (range_count c + 1) with (zlen A' + 1 + zlen B') by lia.
    do 2 eexists. split; [done|]. destruct (Set_ _ E4). unfold range_added, kDeviceFragAffinityMaxRanges. simpl. splits; auto; lia.
  - destruct Rep as (rs1 & rs2 & E1 & E2 & E3 & E4); [lia|].
    replace (range_count c - (zlen A + zlen M2)) with (zlen B') by lia.
    replace (zlen A + zlen M2) with (zlen A' + (zlen M1 + zlen M2)) by lia.
    rewrite E1. step_ok. rewrite E2. step_ok. rewrite !wrap8_small by (rewrite ?wrap8_small; unfold UINT8_MAX; lia).
    replace (range_count c - (zlen A' + (zlen M1 + zlen M2) - zlen A') + 1)
      with (zlen A' + 1 + zlen B') by lia.
    do 2 eexists. split; [done|]. destruct (Set_ _ E4). unfold range_added, kDeviceFragAffinityMaxRanges. simpl. splits; auto; lia.
Qed.

(** ** The datagram as its set of received offsets *)

(** The end of the datagram, once the fragment without a successor was seen. *)
Definition known_end (c : coverage_t) : option Z :=
  if saw_last c then Some (final_end c) else None.

Record view_wf (v : device_frag_view_t) : Prop := mk_view_wf {
  vw_offset : 0 <= v_offset v;
  vw_len : 0 < v_payload_len v;
  vw_end : v_offset v + v_payload_len v <= kDeviceFragAffinityMaxPayloadEnd
}.

Definition v_end (v : device_frag_view_t) : Z := v_offset v + v_payload_len v.

(** A fragment that cannot belong to the datagram: a second end, an end before
    received bytes, or bytes behind the end. *)
Definition contradicts (c : coverage_t) (v : device_frag_view_t) : Prop :=
  match known_end c with
  | Some f => if v_more_fragments v then f < v_end v else f <> v_end v
  | None => v_more_fragments v = false /\ exists x, covered c x /\ v_end v <= x
  end.

Definition meets (c : coverage_t) (v : device_frag_view_t) : Prop :=
  exists x, v_offset v <= x < v_end v /\ covered c x.

(** The abstract transition: the offsets of the fragment are added to the set,
    and an end is recorded; every refusal leaves the state as it was. *)
Definition accounted (c : coverage_t) (v : device_frag_view_t) (r : device_frag_account_result_t)
    (c' : coverage_t) : Prop :=
  match r with
  | kDeviceFragAccountConflict => c' = c /\ contradicts c v
  | kDeviceFragAccountOverlap => c' = c /\ ~ contradicts c v /\ meets c v
  | kDeviceFragAccountCapacity => c' = c /\ ~ contradicts c v /\ ~ meets c v /\
      range_count c = kDeviceFragAffinityMaxRanges
  | kDeviceFragAccountOk => ~ contradicts c v /\ ~ meets c v /\
      known_end c' = (if v_more_fragments v then known_end c else Some (v_end v)) /\
      (forall x, covered c' x <-> covered c x \/ v_offset v <= x < v_end v) /\
      range_count c' <= range_count c + 1
  end.

Lemma last_range (c : coverage_t) :
  coverage_wf c -> range_count c <> 0 ->
  exists r, arr_get (ranges c) (range_count c - 1) = Ok r /\ covered c (r_end r - 1) /\
    forall x, covered c x -> x < r_end r.
Proof.
  intros W Hn. pose proof (live_length c W) as HL. pose proof (cw_count c W) as Hc.
  assert (live c <> []) as Hne by (intros E; rewrite E, zlen_nil in HL; lia).
  destruct (exists_last Hne) as (A & r & E). exists r.
  assert (last_end (-1) (live c) = r_end r) as El.
  { rewrite E. apply last_end_snoc. }
  splits.
  - apply live_lookup; auto; [lia|]. rewrite E, zlen_app in *. change (zlen [r]) with 1 in HL.
    replace (Z.to_nat (range_count c - 1)) with (length A) by (unfold zlen in HL; lia).
    by apply list_lookup_middle.
  - unfold covered. rewrite <- El. apply holds_last; [apply W|done].
  - intros x Hx. apply (holds_range (-1)) in Hx; [lia|apply W].
Qed.

Lemma conflict_test (c : coverage_t) (v : device_frag_view_t) :
  coverage_wf c -> view_wf v ->
  exists o : bool,
    (if negb (v_more_fragments v) then
       if saw_last c && negb (final_end c =? v_end v) then mret true else
       if negb (saw_last c) && negb (range_count c =? 0) then
         r ← arr_get (ranges c) (range_count c - 1); mret (r_end r >? v_end v)
       else mret false
     else mret (saw_last c && (v_end v >? final_end c))) = Ok o /\
    (o = true <-> contradicts c v).
Proof.
  intros W V. unfold contradicts, known_end.
  destruct (v_more_fragments v), (saw_last c) eqn:S; cbn [negb andb].
  - eexists. split; [done|]. rewrite Z.gtb_ltb. apply Z.ltb_lt.
  - exists false. split; [done|]. split; [done|]. by intros [? _].
  - destruct (final_end c =? v_end v) eqn:E; cbn [negb]; bool_facts.
    + exists false. split; [done|]. split; [done|]. done.
    + exists true. by split.
  - destruct (range_count c =? 0) eqn:E; cbn [negb]; bool_facts.
    + exists false. split; [done|]. split; [done|]. intros (_ & x & Hx & _).
      unfold covered, live in Hx. rewrite E in Hx. by apply holds_nil_iff in Hx.
    + destruct (last_range c W E) as (r & -> & Hr & Hmax). step_ok. eexists. split; [done|].
      rewrite Z.gtb_ltb, Z.ltb_lt. split.
      * intros ?. split; [done|]. exists (r_end r - 1). split; [done|lia].
      * intros (_ & x & Hx & ?). specialize (Hmax x Hx). lia.
Qed.

(** A coverage with the fragment's offsets added is well formed again. *)
Lemma accounted_wf (c c' : coverage_t) (v : device_frag_view_t) :
  coverage_wf c -> view_wf v -> accounted c v kDeviceFragAccountOk c' ->
  0 <= range_count c' <= kDeviceFragAffinityMaxRanges ->
  zlen (ranges c') = kDeviceFragAffinityMaxRanges -> ascending (-1) (live c') -> coverage_wf c'.
Proof.
  intros W [Ho Hl He] (Hno & _ & Hk & Hcov & _) Hc Ha Hs. fold (v_end v) in He.
  assert (v_end v = v_offset v + v_payload_len v) as Ee by done.
  split; auto.
  - intros x Hx. apply Hcov in Hx as [Hx|Hx]; [by apply W|lia].
  - intros S2. unfold contradicts in Hno. unfold known_end in Hk, Hno. rewrite S2 in Hk.
    destruct (saw_last c) eqn:Sc.
    + destruct (cw_last c W Sc) as [? Hw].
      destruct (v_more_fragments v); injection Hk as Hk; (split; [lia|]);
        intros x Hx; apply Hcov in Hx as [Hx|Hx]; try apply Hw in Hx; lia.
    + destruct (v_more_fragments v); [done|]. injection Hk as Hk. split; [lia|].
      intros x Hx. apply Hcov in Hx as [Hx|Hx]; [|lia].
      apply Znot_ge_lt. intros Hge. apply Hno. split; [done|]. exists x. split; [done|lia].
Qed.

Lemma account_spec (c : coverage_t) (v : device_frag_view_t) :
  coverage_wf c -> view_wf v ->
  exists r c', deviceFragAffinityAccount c v = Ok (r, c') /\ coverage_wf c' /\ accounted c v r c'.
Proof.
  intros W V. pose proof V as [Ho Hl He]. unfold deviceFragAffinityAccount.
  rewrite wrap32_small by (unfold kDeviceFragAffinityMaxPayloadEnd in *; word_lia).
  fold (v_end v) in *. assert (v_end v = v_offset v + v_payload_len v) as Ee by done.
  destruct (conflict_test c v W V) as (o & -> & Hcon). step_ok. destruct o.
  { exists kDeviceFragAccountConflict, c. splits; auto. split; [done|]. by apply Hcon. }
  assert (Hno : ~ contradicts c v) by (intros H; by apply Hcon in H).
  destruct (add_range_spec c (v_offset v) (v_end v) W) as (r & c' & -> & Hr); [lia|]. step_ok.
  destruct r; simpl in Hr.
  - destruct Hr as (Hfree & Es & Ef & Hc & Ha & Hs & Hcov).
    assert (accounted c v kDeviceFragAccountOk
      (if negb (v_more_fragments v) then mk_coverage true (v_end v) (range_count c') (ranges c') else c')) as Acc.
    { unfold accounted, known_end. rewrite <- Es, <- Ef.
      destruct (v_more_fragments v); cbn [negb]; splits; auto; try (simpl; lia);
        intros (x & Hx & Hcx); by apply (Hfree x). }
    do 2 eexists. split; [done|]. split; [|exact Acc].
    apply (accounted_wf c _ v W V Acc); destruct (v_more_fragments v); cbn [negb]; auto; simpl; lia.
  - destruct Hr as [-> Hm]. do 2 eexists. split; [done|]. split; [done|]. by split.
  - done.
  - destruct Hr as (-> & Hc & Hf). do 2 eexists. split; [done|]. split; [done|]. unfold accounted.
    splits; auto. intros (x & Hx & Hcx). by apply (Hf x).
Qed.

(** ** Completeness *)

Lemma complete_spec (c : coverage_t) :
  coverage_wf c ->
  exists o, deviceFragAffinityIsComplete c = Ok o /\
    (o = true <-> exists f, known_end c = Some f /\ forall x, covered c x <-> 0 <= x < f).
Proof.
  intros W. pose proof (live_length c W) as HL. pose proof (cw_sorted c W) as S.
  unfold deviceFragAffinityIsComplete, known_end. destruct (saw_last c) eqn:Sl; cbn [andb].
  2: { exists false. split; [done|]. split; [done|]. by intros (f & ? & _). }
  destruct (cw_last c W Sl) as [Hf _].
  destruct (range_count c =? 1) eqn:E1; bool_facts.
  - rewrite E1 in HL. destruct (live c) as [|r [|? ?]] eqn:EL; try (unfold zlen in HL; simpl in HL; lia).
    rewrite (live_lookup c 0 r W) by (rewrite ?EL; done || lia). step_ok. eexists. split; [done|].
    destruct S as (? & ? & _). unfold covered. rewrite EL. split.
    + intros ?. bool_facts. exists (final_end c). split; [done|]. intros x.
      rewrite holds_cons, holds_nil_iff. lia.
    + intros (f & [= <-] & Hx). pose proof (Hx (r_begin r)) as H1. pose proof (Hx 0) as H2.
      pose proof (Hx (r_end r)) as H3. pose proof (Hx (r_end r - 1)) as H4.
      rewrite holds_cons, holds_nil_iff in *. lia.
  - exists false. split; [done|]. split; [done|]. intros (f & [= <-] & Hx). exfalso. apply E1.
    unfold covered in Hx. destruct (live c) as [|r1 [|r2 L]] eqn:EL.
    + specialize (Hx 0). rewrite holds_nil_iff in Hx. lia.
    + by rewrite <- HL.
    + destruct S as (? & ? & ? & ? & SL).
      assert (0 <= r_begin r1 < final_end c) by (apply Hx; rewrite holds_cons; lia).
      assert (0 <= r_begin r2 < final_end c) by (apply Hx; rewrite !holds_cons; lia).
      assert (holds_offset (r1 :: r2 :: L) (r_end r1)) as J by (apply Hx; lia).
      rewrite !holds_cons in J. destruct J as [J|[J|J]]; [lia|lia|].
      apply (holds_range _ _ _ SL) in J. lia.
Qed.

(** ** What the parser accepts *)

Definition is_frag (p : list Z) (n : Z) : Prop :=
  20 <= n /\ byte_at p 0 / 2 ^ 4 = 4 /\ be16 p 6 mod 2 ^ 14 <> 0.

Definition view_of (p : list Z) (n : Z) : device_frag_view_t :=
  mk_view (be32 p 12) (be32 p 16) (be16 p 4) (be16 p 6 mod 2 ^ 13 * 8) (n - 20) (byte_at p 9)
    (Z.testbit (be16 p 6) 13).

(** A fragment the table may take: no options, the exact length, a valid header
    unless the device vouches for it, whole 8-byte blocks unless it is the last,
    and an end that leaves room for the header in the longest datagram. *)
Definition frag_ok (p : list Z) (n : Z) (trusted : bool) : Prop :=
  byte_at p 0 mod 2 ^ 4 = 5 /\ be16 p 2 = n /\ 20 < n /\ (trusted = true \/ header_valid p 20) /\
  (v_more_fragments (view_of p n) = true -> (n - 20) mod 8 = 0) /\
  v_end (view_of p n) <= kDeviceFragAffinityMaxPayloadEnd.

Definition same_key (v w : device_frag_view_t) : Prop :=
  v_src v = v_src w /\ v_dst v = v_dst w /\ v_ident v = v_ident w /\ v_proto v = v_proto w.

Definition parsed_as (p : list Z) (n : Z) (trusted : bool) (r : device_frag_parse_result_t)
    (v : device_frag_view_t) : Prop :=
  match r with
  | kDeviceFragParseNotFragment => ~ is_frag p n
  | kDeviceFragParseInvalid => is_frag p n /\ ~ frag_ok p n trusted /\ same_key v (view_of p n)
  | kDeviceFragParseValid => is_frag p n /\ frag_ok p n trusted /\ v = view_of p n
  end.

Lemma frag_view_wf (p : list Z) (n : Z) (trusted : bool) :
  Forall u8 p -> frag_ok p n trusted -> view_wf (view_of p n).
Proof.
  intros F (_ & _ & Hn & _ & _ & He). pose proof (Z.mod_pos_bound (be16 p 6) (2 ^ 13)).
  split; simpl; [lia|lia|]. exact He.
Qed.

Section Parse.
Context (p : list Z) (n : Z) (trusted : bool).
Context (F : Forall u8 p) (Hn : 0 <= n <= zlen p).

(** The second half of the parser, once the packet is known to be a fragment. *)
Lemma parse_checks :
  20 <= n ->
  let v0 := mk_view (be32 p 12) (be32 p 16) (be16 p 4) (be16 p 6 mod 2 ^ 13 * 8) 0 (byte_at p 9)
              (Z.testbit (be16 p 6) 13) in
  exists r v,
    (invalid ← (if negb (byte_at p 0 mod 2 ^ 4 * 4 =? 20) || (be16 p 2 <=? byte_at p 0 mod 2 ^ 4 * 4) ||
                   negb (be16 p 2 =? n) then mret true
                else if negb trusted then
                  valid ← deviceIpv4HeaderChecksumValid p (byte_at p 0 mod 2 ^ 4 * 4); mret (negb valid)
                else mret false);
     if (invalid : bool) then mret (kDeviceFragParseInvalid, v0) else
     let view := with_payload_len v0 (wrap16 (be16 p 2 -32 (byte_at p 0 mod 2 ^ 4 * 4))) in
     let end_ := v_offset view +32 v_payload_len view in
     if (v_payload_len view =? 0) ||
        (v_more_fragments view && negb (v_payload_len view mod 8 =? 0)) ||
        (end_ >? kDeviceFragAffinityMaxPayloadEnd)
     then mret (kDeviceFragParseInvalid, view)
     else mret (kDeviceFragParseValid, view)) = Ok (r, v) /\
    (is_frag p n -> parsed_as p n trusted r v).
Proof.
  intros H20 v0. pose proof (be16_u16 p 2 F) as U2. unfold u16, UINT16_MAX in U2.
  destruct (negb (_ =? 20) || _ || _) eqn:E1.
  { do 2 eexists. split; [done|]. intros Hf. split; [done|]. split; [|by repeat split].
    intros (H5 & Ht & Hl & _). lia. }
  apply orb_false_elim in E1 as [E1 E3]. apply orb_false_elim in E1 as [E1 E2]. bool_facts.
  rewrite E1. assert (exists o : bool, (if negb trusted then
      valid ← deviceIpv4HeaderChecksumValid p 20; mret (negb valid) else mret false) = Ok o /\
      (o = false <-> trusted = true \/ header_valid p 20)) as (o & -> & Ho).
  { destruct trusted; cbn [negb]; [exists false; split; [done|tauto]|].
    destruct (header_valid_spec p 20 F) as (ok & -> & Hok); [lia|done|lia|]. step_ok.
    exists (negb ok). split; [done|]. rewrite negb_false_iff, Hok. split; [tauto|]. by intros [|]. }
  step_ok. destruct o.
  { do 2 eexists. split; [done|]. intros Hf. split; [done|]. split; [|by repeat split].
    intros (_ & _ & _ & Hv & _). by apply Ho in Hv. }
  rewrite E3. rewrite (wrap32_small (n - 20)), (wrap16_small (n - 20)) by word_lia.
  change (with_payload_len v0 (n - 20)) with (view_of p n).
  pose proof (Z.mod_pos_bound (be16 p 6) (2 ^ 13)) as Hoff.
  assert (v_offset (view_of p n) = be16 p 6 mod 2 ^ 13 * 8) as Eo by done.
  assert (v_payload_len (view_of p n) = n - 20) as El by done.
  rewrite (wrap32_small (v_offset _ + _)) by word_lia. fold (v_end (view_of p n)). rewrite El.
  destruct (_ || _ || _) eqn:E4.
  - do 2 eexists. split; [done|]. intros Hf. split; [done|]. split; [|by repeat split].
    intros (_ & _ & _ & _ & Hm & He). rewrite !orb_true_iff, andb_true_iff in E4.
    destruct E4 as [[E4|[E4 E5]]|E4]; bool_facts; [lia|by apply Hm in E4|lia].
  - do 2 eexists. split; [done|]. intros Hf. split; [done|]. split; [|done].
    apply orb_false_elim in E4 as [E4 E6]. apply orb_false_elim in E4 as [E4 E5]. bool_facts.
    unfold frag_ok. splits; try lia; [by apply Ho|].
    intros Hm. rewrite Hm in E5. cbn [andb] in E5. by bool_facts.
Qed.

Lemma parse_spec :
  exists r v, deviceFragAffinityParse (Some p) n trusted = Ok (r, v) /\ parsed_as p n trusted r v.
Proof.
  unfold deviceFragAffinityParse.
  destruct (n <? 20) eqn:E1; bool_facts.
  { do 2 eexists. split; [done|]. intros (? & _). lia. }
  rewrite (load8_ok p 0) by lia. step_ok. rewrite Z.shiftr_div_pow2 by lia.
  destruct (byte_at p 0 / 2 ^ 4 =? 4) eqn:E2; cbn [negb]; bool_facts.
  2: { do 2 eexists. split; [done|]. intros (_ & ? & _). lia. }
  rewrite (GET_BE16_ok p 6) by (auto; lia). step_ok.
  change (Z.lor _ _) with (Z.ones 14). rewrite Z.land_ones by lia.
  destruct (be16 p 6 mod 2 ^ 14 =? 0) eqn:E3; bool_facts.
  { do 2 eexists. split; [done|]. by intros (_ & _ & ?). }
  rewrite !GET_BE32_ok by (auto; lia). step_ok. rewrite load8_ok by lia. step_ok.
  rewrite !GET_BE16_ok by (auto; lia). step_ok.
  unfold kDeviceFragAffinityIpv4OffsetMask. change 0x1fff with (Z.ones 13). rewrite Z.land_ones by lia.
  pose proof (Z.mod_pos_bound (be16 p 6) (2 ^ 13)). rewrite wrap16_small by word_lia.
  unfold kDeviceFragAffinityIpv4MoreFragments. change 0x2000 with (2 ^ 13).
  rewrite land_bit_zero, negb_involutive by lia.
  change 15 with (Z.ones 4). rewrite Z.land_ones by lia.
  pose proof (Z.mod_pos_bound (byte_at p 0) (2 ^ 4)). rewrite (wrap32_small (_ * 4)) by word_lia.
  destruct (parse_checks ltac:(lia)) as (r & v & E & Hp). exists r, v. split; [exact E|].
  by apply Hp.
Qed.
End Parse.

Definition empty_coverage : coverage_t :=
  mk_coverage false 0 0 (replicate (Z.to_nat kDeviceFragAffinityMaxRanges) (mk_range 0 0)).

Lemma empty_coverage_wf : coverage_wf empty_coverage.
Proof.
  split; try done.
  - intros x Hx. by apply holds_nil_iff in Hx.
Qed.

Lemma empty_not_covered (x : Z) : ~ covered empty_coverage x.
Proof. intros H. by apply holds_nil_iff in H. Qed.

(** Refinement: the array of ranges is the set of payload offsets received.
    On a well-formed coverage every acceptable fragment is either refused, which
    changes nothing and happens exactly when it contradicts the known end, when
    it meets received offsets, or when the array is full, or it adds exactly its
    offsets to the set and records the end if it is the last; the array stays
    sorted with gaps between its ranges, and the completeness test answers
    whether the set is the whole datagram. *)
Theorem coverage_refines (c : coverage_t) (v : device_frag_view_t) :
  coverage_wf c -> view_wf v ->
  exists r c' complete,
    deviceFragAffinityAccount c v = Ok (r, c') /\ coverage_wf c' /\ accounted c v r c' /\
    deviceFragAffinityIsComplete c' = Ok complete /\
    (complete = true <-> exists f, known_end c' = Some f /\ forall x, covered c' x <-> 0 <= x < f).
Proof.
  intros W V. destruct (account_spec c v W V) as (r & c' & E & W' & A).
  destruct (complete_spec c' W') as (o & Eo & Ho). exists r, c', o. auto.
Qed.

Lemma coverage_refines_witness :
  exists r c' complete,
    deviceFragAffinityAccount empty_coverage (mk_view 1 2 3 0 8 17 true) = Ok (r, c') /\
    coverage_wf c' /\ accounted empty_coverage (mk_view 1 2 3 0 8 17 true) r c' /\
    deviceFragAffinityIsComplete c' = Ok complete /\
    (complete = true <-> exists f, known_end c' = Some f /\ forall x, covered c' x <-> 0 <= x < f).
Proof.
  apply (coverage_refines empty_coverage (mk_view 1 2 3 0 8 17 true)).
  - apply empty_coverage_wf.
  - split; concrete.
Defined.
