(* ===== verification/FragAffinity.v ===== *)
(** * Fragment association of the packet devices ([ww/devices/device_frag_affinity.c])

    A device either reassembles IPv4 fragments or keeps them and sends all
    fragments of a datagram to the worker of its first one.  The table holds an
    entry per datagram in flight.  [device_frag_affinity_entry_t] groups the C
    fields: the association key, the coverage of [FragRanges], the buffers the
    entry owns ([storage_t]) and the rest.  An entry pointer is the index of its
    slot.  The reader's buffer pool is threaded through the operations, the field
    [release_pool] only says whether the pointer is set; the mutex of the table
    makes each operation one step.  Time and the number of workers are arguments. *)

From Stdlib Require Import ZArith Lia.
From stdpp Require Import base numbers option list.
From S2P Require Import Prelude ShiftBuffer Endian PoolInterface PacketChecksum FlowHash FragRanges.
Open Scope Z_scope.
Open Scope word_scope.

Definition kDeviceFragAffinityMaxEntries : Z := 256.
Definition kDeviceFragAffinityMaxStagedPerEntry : Z := 16.
Definition kDeviceFragAffinityMaxStaged : Z := 256.
Definition kDeviceFragAffinityMaxStagedBytes : Z := 32 * 1024 * 1024.
Definition kDeviceFragAffinityMaxAssemblyBytes : Z := 4 * 1024 * 1024.
Definition kDeviceFragAffinityMaxFragments : Z := 8192.
Definition kDeviceFragAffinityTimeoutMs : Z := 15000.

Inductive device_fragment_policy_t : Set :=
  | kDeviceFragmentPolicyUnset
  | kDeviceFragmentReassemble
  | kDeviceFragmentPreserve.

#[export] Instance fragment_policy_eq_dec : EqDecision device_fragment_policy_t.
Proof. solve_decision. Defined.

Inductive device_frag_affinity_action_t : Set :=
  | kDeviceFragAffinityNotFragment
  | kDeviceFragAffinityDispatch
  | kDeviceFragAffinityStaged
  | kDeviceFragAffinityConsumedDrop
  | kDeviceFragAffinityComplete.

Record frag_key : Type := mk_key {
  k_src : Z;
  k_dst : Z;
  k_ident : Z;
  k_proto : Z
}.

#[export] Instance frag_key_eq_dec : EqDecision frag_key.
Proof. solve_decision. Defined.

Record storage_t : Type := mk_storage {
  staged_count : Z;
  staged : list (option sbuf_t);
  assembly : option sbuf_t
}.

Record device_frag_affinity_entry_t : Type := mk_entry {
  e_key : frag_key;
  in_use : bool;
  poisoned : bool;
  wid_known : bool;
  wid : Z;
  expires_at_ms : Z;
  zero_flow_hash : Z;
  fragments : Z;
  e_cover : coverage_t;
  e_store : storage_t
}.

Definition zero_storage : storage_t :=
  mk_storage 0 (replicate (Z.to_nat kDeviceFragAffinityMaxStagedPerEntry) None) None.
Definition zero_entry : device_frag_affinity_entry_t :=
  mk_entry (mk_key 0 0 0 0) false false false 0 0 0 0 empty_coverage zero_storage.

Record device_frag_affinity_table_t : Type := mk_table {
  release_pool : bool;
  shared : bool;
  shared_padding : Z;
  generation_open : bool;
  trusted_ipv4_header : bool;
  policy : device_fragment_policy_t;
  retained_bytes : Z;
  staged_total : Z;
  entries : list device_frag_affinity_entry_t
}.

(** What an offer hands back; [input] is the raw fragment when it stays with the
    caller. *)
Record device_frag_affinity_result_t : Type := mk_result {
  released : list sbuf_t;
  result_wid : Z;
  completed : option sbuf_t;
  input : option sbuf_t
}.
Definition zero_result : device_frag_affinity_result_t := mk_result [] 0 None None.

(** ** Field updates *)

Definition set_entries (t : device_frag_affinity_table_t) (l : list device_frag_affinity_entry_t)
  : device_frag_affinity_table_t :=
  mk_table (release_pool t) (shared t) (shared_padding t) (generation_open t)
    (trusted_ipv4_header t) (policy t) (retained_bytes t) (staged_total t) l.
Definition set_counts (t : device_frag_affinity_table_t) (bytes total : Z)
  : device_frag_affinity_table_t :=
  mk_table (release_pool t) (shared t) (shared_padding t) (generation_open t)
    (trusted_ipv4_header t) (policy t) bytes total (entries t).
Definition set_generation (t : device_frag_affinity_table_t) (pool open : bool)
  : device_frag_affinity_table_t :=
  mk_table pool (shared t) (shared_padding t) open
    (trusted_ipv4_header t) (policy t) (retained_bytes t) (staged_total t) (entries t).
Definition put_entry (t : device_frag_affinity_table_t) (i : Z) (e : device_frag_affinity_entry_t)
  : outcome device_frag_affinity_table_t :=
  l ← arr_set (entries t) i e; mret (set_entries t l).
Definition get_entry (t : device_frag_affinity_table_t) (i : Z)
  : outcome device_frag_affinity_entry_t := arr_get (entries t) i.

Definition set_store (e : device_frag_affinity_entry_t) (s : storage_t)
  : device_frag_affinity_entry_t :=
  mk_entry (e_key e) (in_use e) (poisoned e) (wid_known e) (wid e) (expires_at_ms e)
    (zero_flow_hash e) (fragments e) (e_cover e) s.
Definition set_cover (e : device_frag_affinity_entry_t) (c : coverage_t)
  : device_frag_affinity_entry_t :=
  mk_entry (e_key e) (in_use e) (poisoned e) (wid_known e) (wid e) (expires_at_ms e)
    (zero_flow_hash e) (fragments e) c (e_store e).
Definition set_poisoned (e : device_frag_affinity_entry_t) (expires : Z)
  : device_frag_affinity_entry_t :=
  mk_entry (e_key e) (in_use e) true (wid_known e) (wid e) expires
    (zero_flow_hash e) (fragments e) (e_cover e) (e_store e).
Definition set_known (e : device_frag_affinity_entry_t) (hash w : Z)
  : device_frag_affinity_entry_t :=
  mk_entry (e_key e) (in_use e) (poisoned e) true w (expires_at_ms e)
    hash (fragments e) (e_cover e) (e_store e).
Definition count_fragment (e : device_frag_affinity_entry_t) : device_frag_affinity_entry_t :=
  mk_entry (e_key e) (in_use e) (poisoned e) (wid_known e) (wid e) (expires_at_ms e)
    (zero_flow_hash e) (wrap16 (fragments e + 1)) (e_cover e) (e_store e).

Definition view_key (v : device_frag_view_t) : frag_key :=
  mk_key (v_src v) (v_dst v) (v_ident v) (v_proto v).

(** ** Operations *)

Section Operations.
Context `{Allocator} {P : Type} `{PoolOps P} (workers_count : Z).
Implicit Types (t : device_frag_affinity_table_t) (pool : P).

(** Hashes a first fragment as if it were the whole datagram: the fragment
    field is cleared for the computation and restored afterwards. *)
Definition deviceFragAffinityHashAsWhole (b : sbuf_t) : outcome (option (Z * Z) * sbuf_t) :=
  let packet := raw b in
  saved ← GET_BE16 packet 6;
  packet ← PUT_BE16 packet 6 0;
  '(ok1, hash) ← deviceFlowAffinityHash (Some packet) (sbufGetLength b) (Some 0);
  '(ok2, worker_hash) ← (if (ok1 : bool)
                         then deviceFlowWorkerHash (Some packet) (sbufGetLength b) (Some 0)
                         else mret (false, Some 0));
  packet ← PUT_BE16 packet 6 saved;
  let b := set_raw b packet in
  match (ok2 : bool), hash, worker_hash with
  | true, Some h, Some w => mret (Some (h, wrap8 (w mod workers_count)), b)
  | _, _, _ => mret (None, b)
  end.

(** A shared table frees the buffer itself. *)
Definition deviceFragRecycle t pool (b : sbuf_t) : outcome P :=
  if shared t then mret pool
  else if release_pool t then pool_reuse pool b
  else Fail MemoryFault.

(** [for (i = 0; i < staged_count; ++i) { retained -= charge; recycle; }] *)
Fixpoint release_staged t pool (slots : list (option sbuf_t)) (i : Z) (n : nat) (bytes : Z)
  : outcome (Z * P) :=
  match n with
  | O => mret (bytes, pool)
  | S n' =>
      b ← slot_get slots i;
      pool ← deviceFragRecycle t pool b;
      release_staged t pool slots (i + 1) n' (bytes -64 sbufGetAllocationCharge b)
  end.

Definition deviceFragReleaseStorage t pool (i : Z)
  : outcome (device_frag_affinity_table_t * P) :=
  e ← get_entry t i;
  let s := e_store e in
  '(bytes, pool) ← release_staged t pool (staged s) 0 (Z.to_nat (staged_count s)) (retained_bytes t);
  let total := staged_total t -32 staged_count s in
  '(bytes, pool) ← match assembly s with
                   | Some a =>
                       pool ← deviceFragRecycle t pool a;
                       mret (bytes -64 sbufGetAllocationCharge a, pool)
                   | None => mret (bytes, pool)
                   end;
  t ← put_entry (set_counts t bytes total) i (set_store e (mk_storage 0 (staged s) None));
  mret (t, pool).

Definition deviceFragPoison t pool (i now : Z) : outcome (device_frag_affinity_table_t * P) :=
  '(t, pool) ← deviceFragReleaseStorage t pool i;
  e ← get_entry t i;
  if negb (poisoned e) then
    t ← put_entry t i (set_poisoned e (now +64 kDeviceFragAffinityTimeoutMs));
    mret (t, pool)
  else mret (t, pool).

(** One turn of the loop of [deviceFragSweep]. *)
Definition sweep_entry t pool (i now : Z) : outcome (device_frag_affinity_table_t * P) :=
  e ← get_entry t i;
  if negb (in_use e) || (now <? expires_at_ms e) then mret (t, pool)
  else if poisoned e then
    '(t, pool) ← deviceFragReleaseStorage t pool i;
    t ← put_entry t i zero_entry;
    mret (t, pool)
  else
    let expiry := expires_at_ms e in
    '(t, pool) ← deviceFragPoison t pool i expiry;
    e ← get_entry t i;
    if now >=? expires_at_ms e
    then t ← put_entry t i zero_entry; mret (t, pool)
    else mret (t, pool).

Fixpoint sweep_loop t pool (i : Z) (n : nat) (now : Z) : outcome (device_frag_affinity_table_t * P) :=
  match n with
  | O => mret (t, pool)
  | S n' => '(t, pool) ← sweep_entry t pool i now; sweep_loop t pool (i + 1) n' now
  end.

Definition deviceFragSweep t pool (now : Z) : outcome (device_frag_affinity_table_t * P) :=
  sweep_loop t pool 0 (Z.to_nat kDeviceFragAffinityMaxEntries) now.

(** The pool pointer is set unless the table is shared; allocation failure of
    the table and of its mutex are the [false] of [resources]. *)
Definition deviceFragCreate (pool_set : bool) (policy : device_fragment_policy_t) (shared : bool)
    (padding : Z) (resources : bool) : option device_frag_affinity_table_t :=
  if negb (bool_decide (policy = kDeviceFragmentReassemble)) &&
     negb (bool_decide (policy = kDeviceFragmentPreserve)) then None
  else if negb pool_set && negb shared then None
  else if negb resources then None
  else Some (mk_table pool_set shared padding true false policy 0 0
               (replicate (Z.to_nat kDeviceFragAffinityMaxEntries) zero_entry)).

Definition deviceFragAffinityCreate (pool_set : bool) (policy : device_fragment_policy_t)
    (resources : bool) := deviceFragCreate pool_set policy false 0 resources.
Definition deviceFragAffinityCreateShared (policy : device_fragment_policy_t) (padding : Z)
    (resources : bool) := deviceFragCreate false policy true padding resources.

Definition deviceFragAffinityEnableShared t (padding : Z) : outcome device_frag_affinity_table_t :=
  _ ← assert_ (retained_bytes t =? 0);
  mret (mk_table (release_pool t) true padding (generation_open t) (trusted_ipv4_header t)
          (policy t) (retained_bytes t) (staged_total t) (entries t)).

Definition deviceFragAffinityTrustIpv4HeaderChecksum t : outcome device_frag_affinity_table_t :=
  _ ← assert_ (forallb (fun e => negb (in_use e)) (entries t));
  mret (mk_table (release_pool t) (shared t) (shared_padding t) (generation_open t) true
          (policy t) (retained_bytes t) (staged_total t) (entries t)).

Definition deviceFragAffinityBeginGeneration t : device_frag_affinity_table_t :=
  set_generation t (release_pool t) true.

Definition end_entry (now : Z) (e : device_frag_affinity_entry_t) : device_frag_affinity_entry_t :=
  if in_use e && negb (poisoned e)
  then set_poisoned e (now +64 kDeviceFragAffinityTimeoutMs) else e.

Definition deviceFragAffinityEndGeneration t (now : Z) : device_frag_affinity_table_t :=
  let t := set_generation t (release_pool t) false in
  set_entries t (end_entry now <$> entries t).

Fixpoint release_loop t pool (i : Z) (n : nat) : outcome (device_frag_affinity_table_t * P) :=
  match n with
  | O => mret (t, pool)
  | S n' => '(t, pool) ← deviceFragReleaseStorage t pool i; release_loop t pool (i + 1) n'
  end.

Definition deviceFragAffinityReleaseStagedBuffers t pool
  : outcome (device_frag_affinity_table_t * P) :=
  '(t, pool) ← release_loop t pool 0 (Z.to_nat kDeviceFragAffinityMaxEntries);
  _ ← assert_ ((retained_bytes t =? 0) && (staged_total t =? 0));
  mret (t, pool).

Definition deviceFragAffinityRetireReleasePool t pool
  : outcome (device_frag_affinity_table_t * P) :=
  '(t, pool) ← deviceFragAffinityReleaseStagedBuffers t pool;
  mret (set_generation t false false, pool).

(** Returns the pool; the table itself is freed. *)
Definition deviceFragAffinityDestroy t pool : outcome P :=
  '(_, pool) ← deviceFragAffinityReleaseStagedBuffers t pool;
  mret pool.
End Operations.

(** ** Offering a fragment *)

(** The lookup loop: the first slot in use with the key, and the first free slot
    seen before it. *)
Fixpoint find_entry (l : list device_frag_affinity_entry_t) (key : frag_key) (i : Z)
    (free_entry : option Z) : option Z * option Z :=
  match l with
  | [] => (None, free_entry)
  | candidate :: l' =>
      if negb (in_use candidate) then
        find_entry l' key (i + 1) (match free_entry with Some f => Some f | None => Some i end)
      else if bool_decide (e_key candidate = key) then (Some i, free_entry)
      else find_entry l' key (i + 1) free_entry
  end.

Definition offer_outcome (P : Type) : Type :=
  device_frag_affinity_action_t * device_frag_affinity_result_t * device_frag_affinity_table_t * P.

Section Offer.
Context `{Allocator} {P : Type} `{PoolOps P} (workers_count : Z).
Implicit Types (t : device_frag_affinity_table_t) (pool : P).

(** The labels [drop] and [poison]. *)
Definition offer_drop t pool (b : sbuf_t) : outcome (offer_outcome P) :=
  pool ← deviceFragRecycle t pool b;
  mret (kDeviceFragAffinityConsumedDrop, zero_result, t, pool).

Definition offer_poison t pool (i : Z) (b : sbuf_t) (now : Z) : outcome (offer_outcome P) :=
  '(t, pool) ← deviceFragPoison t pool i now;
  offer_drop t pool b.

(** [for (i = 0; i < range_count; ++i) memoryCopy(grown + 20 + r.begin, ...)] *)
Fixpoint copy_ranges (old grown : sbuf_t) (c : coverage_t) (i : Z) (n : nat) : outcome sbuf_t :=
  match n with
  | O => mret grown
  | S n' =>
      r ← arr_get (ranges c) i;
      bytes ← read_at old (20 + r_begin r) (r_end r -32 r_begin r);
      grown ← write_at grown (20 + r_begin r) bytes;
      copy_ranges old grown c (i + 1) n'
  end.

(** The charge of the allocation that would hold [need] bytes. *)
Definition assembly_charge t pool (need padding : Z) : outcome (option Z) :=
  if shared t then
    mret (match sbufTryComputeCapacity need padding with
          | Some capacity => sbufTryComputeQueueCharge capacity
          | None => None
          end)
  else
    fit ← pool_query_best_fit pool need padding;
    mret (option_map allocation_charge fit).

(** The larger buffer with what was received; the charge of the replacement is
    reserved while the old buffer is still alive. *)
Definition replace_assembly t pool (e : device_frag_affinity_entry_t) (need padding charge : Z)
  : outcome (sbuf_t * device_frag_affinity_table_t * P) :=
  let t := set_counts t (retained_bytes t +64 charge) (staged_total t) in
  '(grown, pool) ← (if shared t
                    then b ← sbufCreateWithPadding need padding; mret (b, pool)
                    else pool_get_best_fit pool need padding);
  _ ← abort_if (negb (sbufGetAllocationCharge grown =? charge) ||
                (sbufGetMaximumWriteableSize grown <? need) ||
                (sbufGetLeftCapacity grown <? padding));
  match assembly (e_store e) with
  | None => mret (grown, t, pool)
  | Some old =>
      grown ← (if wid_known e then bytes ← read_at old 0 20; write_at grown 0 bytes
               else mret grown);
      grown ← copy_ranges old grown (e_cover e) 0 (Z.to_nat (range_count (e_cover e)));
      let t := set_counts t (retained_bytes t -64 sbufGetAllocationCharge old) (staged_total t) in
      pool ← deviceFragRecycle t pool old;
      mret (grown, t, pool)
  end.

(** Makes room in the assembly: [None] when the budget refuses, the old buffer
    if it is large enough, otherwise a larger one. *)
Definition grow_assembly t pool (e : device_frag_affinity_entry_t) (need : Z)
  : outcome (option (sbuf_t * device_frag_affinity_table_t * P)) :=
  let padding := if shared t then shared_padding t else pool_large_padding pool in
  if (match assembly (e_store e) with
      | Some a => need >? sbufGetMaximumWriteableSize a
      | None => true
      end)
  then
    charge ← assembly_charge t pool need padding;
    match charge with
    | None => mret None
    | Some charge =>
        if charge >? (kDeviceFragAffinityMaxAssemblyBytes -64 retained_bytes t) then mret None
        else r ← replace_assembly t pool e need padding charge; mret (Some r)
    end
  else
    match assembly (e_store e) with
    | Some a => mret (Some (a, t, pool))
    | None => mret None
    end.

(** The header of the reassembled packet: its length, no fragment bits, and a
    fresh checksum. *)
Definition finish_header (bytes : list Z) (final_end : Z) : outcome (list Z) :=
  bytes ← PUT_BE16 bytes 2 (20 +32 final_end);
  field ← GET_BE16 bytes 6;
  bytes ← PUT_BE16 bytes 6 (Z.land field 0xc000);
  bytes ← PUT_BE16 bytes 10 0;
  c ← deviceIpv4HeaderChecksum bytes 20;
  PUT_BE16 bytes 10 c.

(** The branch of the reassembly policy, from the accounted coverage on. *)
Definition offer_reassemble t pool (i : Z) (e : device_frag_affinity_entry_t) (cover : coverage_t)
    (view : device_frag_view_t) (b : sbuf_t) (now : Z) : outcome (offer_outcome P) :=
  let need := 20 +32 v_offset view +32 v_payload_len view in
  grown ← grow_assembly t pool e need;
  match grown with
  | None => offer_poison t pool i b now
  | Some (bytes, t, pool) =>
      bytes ← (if v_offset view =? 0 then h ← read_at b 0 20; write_at bytes 0 h else mret bytes);
      let known := if v_offset view =? 0 then true else wid_known e in
      data ← read_at b 20 (v_payload_len view);
      bytes ← write_at bytes (20 + v_offset view) data;
      let candidate := mk_entry (e_key e) (in_use e) (poisoned e) known (wid e) (expires_at_ms e)
        (zero_flow_hash e) (wrap16 (fragments e + 1)) cover
        (mk_storage (staged_count (e_store e)) (staged (e_store e)) (Some bytes)) in
      t ← put_entry t i candidate;
      pool ← deviceFragRecycle t pool b;
      complete ← (if known then deviceFragAffinityIsComplete cover else mret false);
      if negb complete then mret (kDeviceFragAffinityStaged, zero_result, t, pool) else
      l ← finish_header (raw bytes) (final_end cover);
      let bytes := set_raw bytes l in
      bytes ← sbufSetLength bytes (20 +32 final_end cover);
      let t := set_counts t (retained_bytes t -64 sbufGetAllocationCharge bytes) (staged_total t) in
      t ← put_entry t i zero_entry;
      mret (kDeviceFragAffinityComplete, mk_result [] 0 (Some bytes) None, t, pool)
  end.

(** [for (i = 0; i < staged_count; ++i) { out->released[i] = staged[i]; ... }] *)
Fixpoint hand_out (slots : list (option sbuf_t)) (i : Z) (n : nat) (bytes : Z)
  : outcome (list sbuf_t * Z) :=
  match n with
  | O => mret ([], bytes)
  | S n' =>
      b ← slot_get slots i;
      '(l, bytes) ← hand_out slots (i + 1) n' (bytes -64 sbufGetAllocationCharge b);
      mret (b :: l, bytes)
  end.

(** The branch of the preserving policy; [zero] is the hash of a first fragment. *)
Definition offer_preserve t pool (i : Z) (e : device_frag_affinity_entry_t) (cover : coverage_t)
    (view : device_frag_view_t) (zero : Z * Z) (b : sbuf_t) (now : Z) : outcome (offer_outcome P) :=
  let candidate := set_cover e cover in
  let candidate := if (v_offset view =? 0) && negb (wid_known e)
                   then set_known candidate (fst zero) (snd zero) else candidate in
  let s := e_store candidate in
  if negb (wid_known candidate) then
    let charge := sbufGetAllocationCharge b in
    if (staged_count s =? kDeviceFragAffinityMaxStagedPerEntry) ||
       (staged_total t =? kDeviceFragAffinityMaxStaged) ||
       (charge >? (kDeviceFragAffinityMaxStagedBytes -64 retained_bytes t))
    then offer_poison t pool i b now
    else
      slots ← slot_set (staged s) (staged_count s) b;
      let t := set_counts t (retained_bytes t +64 charge) (staged_total t +32 1) in
      t ← put_entry t i (count_fragment
            (set_store candidate (mk_storage (wrap8 (staged_count s + 1)) slots (assembly s))));
      mret (kDeviceFragAffinityStaged, zero_result, t, pool)
  else
    '(out, bytes) ← hand_out (staged s) 0 (Z.to_nat (staged_count s)) (retained_bytes t);
    let t := set_counts t bytes (staged_total t -32 staged_count s) in
    let candidate := count_fragment (set_store candidate (mk_storage 0 (staged s) (assembly s))) in
    complete ← deviceFragAffinityIsComplete cover;
    t ← put_entry t i (if (complete : bool) then zero_entry else candidate);
    mret (kDeviceFragAffinityDispatch, mk_result out (wid candidate) None (Some b), t, pool).

(** From the entry found or made on. *)
Definition offer_entry t pool (i : Z) (view : device_frag_view_t)
    (parsed : device_frag_parse_result_t) (b : sbuf_t) (now : Z) : outcome (offer_outcome P) :=
  e ← get_entry t i;
  if poisoned e then offer_drop t pool b else
  if (match parsed with kDeviceFragParseInvalid => true | _ => false end) ||
     (fragments e =? kDeviceFragAffinityMaxFragments) then offer_poison t pool i b now else
  '(bad, zero, b) ←
    (if bool_decide (policy t = kDeviceFragmentPreserve) && (v_offset view =? 0) then
       '(h, b) ← deviceFragAffinityHashAsWhole workers_count b;
       match h with
       | None => mret (true, (0, 0), b)
       | Some (hash, w) => mret (wid_known e && negb (zero_flow_hash e =? hash), (hash, w), b)
       end
     else mret (false, (0, 0), b));
  if (bad : bool) then offer_poison t pool i b now else
  '(accounted, cover) ← deviceFragAffinityAccount (e_cover e) view;
  match accounted with
  | kDeviceFragAccountOk =>
      if bool_decide (policy t = kDeviceFragmentReassemble)
      then offer_reassemble t pool i e cover view b now
      else offer_preserve t pool i e cover view zero b now
  | kDeviceFragAccountOverlap =>
      if (v_offset view =? 0) && negb (wid_known e) then offer_poison t pool i b now
      else offer_drop t pool b
  | _ => offer_poison t pool i b now
  end.

Definition deviceFragOfferLocked t pool (view : device_frag_view_t)
    (parsed : device_frag_parse_result_t) (b : sbuf_t) (now : Z) : outcome (offer_outcome P) :=
  if negb (generation_open t) then offer_drop t pool b else
  '(t, pool) ← deviceFragSweep t pool now;
  match find_entry (entries t) (view_key view) 0 None with
  | (Some i, _) => offer_entry t pool i view parsed b now
  | (None, None) => offer_drop t pool b
  | (None, Some i) =>
      t ← put_entry t i (mk_entry (view_key view) true false false 0
            (now +64 kDeviceFragAffinityTimeoutMs) 0 0 empty_coverage zero_storage);
      offer_entry t pool i view parsed b now
  end.

(** [packet] and [length] describe the bytes of [b]; the table pointer may be
    NULL only for packets that are not fragments. *)
Definition deviceFragAffinityOffer (table : option device_frag_affinity_table_t) pool
    (packet : option (list Z)) (length : Z) (b : sbuf_t) (now : Z)
  : outcome (device_frag_affinity_action_t * device_frag_affinity_result_t *
             option device_frag_affinity_table_t * P) :=
  '(parsed, view) ← deviceFragAffinityParse packet length
                      (match table with Some t => trusted_ipv4_header t | None => false end);
  match parsed with
  | kDeviceFragParseNotFragment =>
      mret (kDeviceFragAffinityNotFragment, mk_result [] 0 None (Some b), table, pool)
  | _ =>
      match table with
      | None => Fail AssertFailed
      | Some t =>
          _ ← assert_ (shared t || release_pool t);
          '(action, out, t, pool) ← deviceFragOfferLocked t pool view parsed b now;
          mret (action, out, Some t, pool)
      end
  end.
End Offer.
