(* ===== verification/FragInvariant.v ===== *)
(** * The fragment table keeps its accounts ([ww/devices/device_frag_affinity.c])

    The invariant of the table of [FragAffinity] and the proof that every
    operation preserves it without a fault: the byte and packet counters are
    exactly what the entries hold and stay below their limits, an unused slot
    holds nothing, no two slots serve one datagram, and the assembly of an entry
    has room for every offset its coverage claims. *)

From Stdlib Require Import ZArith Lia.
From stdpp Require Import base numbers option list.
From S2P Require Import Prelude ShiftBuffer Endian PoolInterface PacketChecksum FlowHash FragRanges.
From S2P Require Import FragAffinity.
Open Scope Z_scope.
Open Scope word_scope.

(** ** Invariants *)

Definition staged_items (s : storage_t) : list sbuf_t := cached_in (staged_count s) (staged s).

Definition entry_charge (e : device_frag_affinity_entry_t) : Z :=
  zsum sbufGetAllocationCharge (staged_items (e_store e)) +
  match assembly (e_store e) with Some a => sbufGetAllocationCharge a | None => 0 end.

Definition entry_staged (e : device_frag_affinity_entry_t) : Z := staged_count (e_store e).


Record storage_ok (s : storage_t) : Prop := mk_storage_ok {
  so_slots : zlen (staged s) = kDeviceFragAffinityMaxStagedPerEntry;
  so_holds : holds (staged s) (staged_items s);
  so_count : zlen (staged_items s) = staged_count s;
  so_good : Forall good (staged_items s);
  so_assembly : forall a, assembly s = Some a -> good a
}.

Definition holds_nothing (e : device_frag_affinity_entry_t) : Prop :=
  staged_count (e_store e) = 0 /\ assembly (e_store e) = None.

Record entry_ok (pol : device_fragment_policy_t) (e : device_frag_affinity_entry_t) : Prop :=
  mk_entry_ok {
  eo_cover : coverage_wf (e_cover e);
  eo_store : storage_ok (e_store e);
  eo_assembly : forall a, assembly (e_store e) = Some a ->
    pol = kDeviceFragmentReassemble /\ 20 <= room a /\
    forall x, covered (e_cover e) x -> 20 + x < room a;
  eo_missing : pol = kDeviceFragmentReassemble -> poisoned e = false ->
    assembly (e_store e) = None -> wid_known e = false /\ forall x, ~ covered (e_cover e) x;
  eo_staged : pol = kDeviceFragmentReassemble -> staged_count (e_store e) = 0;
  eo_free : in_use e = false -> holds_nothing e;
  eo_fragments : 0 <= fragments e <= kDeviceFragAffinityMaxFragments
}.

(** What the entries of a policy may hold together. *)
Definition byte_limit (pol : device_fragment_policy_t) : Z :=
  match pol with
  | kDeviceFragmentReassemble => kDeviceFragAffinityMaxAssemblyBytes
  | _ => kDeviceFragAffinityMaxStagedBytes
  end.

Definition usable (t : device_frag_affinity_table_t) : Prop := shared t || release_pool t = true.

Definition distinct_keys (l : list device_frag_affinity_entry_t) : Prop :=
  forall i j a b, l !! i = Some a -> l !! j = Some b -> in_use a = true -> in_use b = true ->
    e_key a = e_key b -> i = j.

Record table_ok (t : device_frag_affinity_table_t) : Prop := mk_table_ok {
  to_length : zlen (entries t) = kDeviceFragAffinityMaxEntries;
  to_each : Forall (entry_ok (policy t)) (entries t);
  to_bytes : retained_bytes t = zsum entry_charge (entries t);
  to_limit : retained_bytes t <= byte_limit (policy t);
  to_total : staged_total t = zsum entry_staged (entries t);
  to_total_limit : staged_total t <= kDeviceFragAffinityMaxStaged;
  to_policy : policy t = kDeviceFragmentReassemble \/ policy t = kDeviceFragmentPreserve;
  to_padding : u16 (shared_padding t);
  to_closed : generation_open t = false ->
    Forall (fun e => in_use e = true -> poisoned e = true) (entries t);
  to_keys : distinct_keys (entries t);
  to_usable : usable t \/ Forall holds_nothing (entries t)
}.

(** The part of it that concerns the buffers held, which also survives while the
    storage of live entries is being torn down. *)
Record accounts_ok (t : device_frag_affinity_table_t) : Prop := mk_accounts_ok {
  ao_length : zlen (entries t) = kDeviceFragAffinityMaxEntries;
  ao_store : Forall (fun e => storage_ok (e_store e)) (entries t);
  ao_bytes : retained_bytes t = zsum entry_charge (entries t);
  ao_limit : retained_bytes t <= kDeviceFragAffinityMaxStagedBytes;
  ao_total : staged_total t = zsum entry_staged (entries t);
  ao_total_limit : staged_total t <= kDeviceFragAffinityMaxStaged;
  ao_usable : usable t \/ Forall holds_nothing (entries t)
}.

Lemma table_accounts (t : device_frag_affinity_table_t) : table_ok t -> accounts_ok t.
Proof.
  intros []. split; auto.
  - eapply Forall_impl; [eassumption|]. intros e O. apply O.
  - unfold byte_limit, kDeviceFragAffinityMaxAssemblyBytes, kDeviceFragAffinityMaxStagedBytes in *.
    destruct (policy t); lia.
Qed.

(** Two tables that differ only in their entries and counters. *)
Definition same_config (t t' : device_frag_affinity_table_t) : Prop :=
  release_pool t' = release_pool t /\ shared t' = shared t /\
  shared_padding t' = shared_padding t /\ generation_open t' = generation_open t /\
  trusted_ipv4_header t' = trusted_ipv4_header t /\ policy t' = policy t.

#[export] Instance same_config_equiv : Equivalence same_config.
Proof.
  unfold same_config. split; [done|intros ? ?; intuition congruence|intros ? ? ?; intuition congruence].
Qed.

Lemma charge_good (b : sbuf_t) : good b -> sbufGetAllocationCharge b = 64 + capacity b.
Proof. intros [W O]. by apply charge_ordinary. Qed.

Lemma charge_range (b : sbuf_t) : good b -> 0 <= sbufGetAllocationCharge b <= UINT32_MAX + 64.
Proof. intros G. rewrite (charge_good b G). destruct G as [[] _]. lia. Qed.

Lemma charges_nonneg (l : list sbuf_t) : Forall good l -> 0 <= zsum sbufGetAllocationCharge l.
Proof.
  intros F. apply zsum_nonneg. eapply Forall_impl; [exact F|].
  intros b G. by apply charge_range.
Qed.

Lemma assembly_charge_nonneg (e : device_frag_affinity_entry_t) :
  storage_ok (e_store e) ->
  0 <= match assembly (e_store e) with Some a => sbufGetAllocationCharge a | None => 0 end.
Proof.
  intros S. destruct (assembly (e_store e)) eqn:E; [|done]. apply charge_range. by apply S.
Qed.

Lemma entry_charge_nonneg e : storage_ok (e_store e) -> 0 <= entry_charge e.
Proof.
  intros S. pose proof (charges_nonneg _ (so_good _ S)).
  pose proof (assembly_charge_nonneg e S). unfold entry_charge. lia.
Qed.

Lemma entry_staged_range e : storage_ok (e_store e) -> 0 <= entry_staged e <= 16.
Proof.
  intros S. unfold entry_staged. rewrite <- (so_count _ S).
  pose proof (holds_len _ _ (so_holds _ S)) as Hl. rewrite (so_slots _ S) in Hl.
  unfold kDeviceFragAffinityMaxStagedPerEntry in Hl. pose proof (zlen_nonneg (staged_items (e_store e))). lia.
Qed.

Lemma no_items (s : storage_t) : staged_count s = 0 -> staged_items s = [].
Proof. unfold staged_items, cached_in. by intros ->. Qed.

Lemma holds_nothing_charge e : holds_nothing e -> entry_charge e = 0 /\ entry_staged e = 0.
Proof.
  intros [H1 H2]. unfold entry_charge, entry_staged. by rewrite H1, H2, no_items.
Qed.

Lemma zero_storage_ok : storage_ok zero_storage.
Proof. split; try done. apply holds_nil. Qed.

Lemma zero_entry_ok pol : entry_ok pol zero_entry.
Proof.
  split; try done.
  - apply empty_coverage_wf.
  - apply zero_storage_ok.
  - intros _ _ _. split; [done|]. apply empty_not_covered.
Qed.

(** The entry made for a new datagram. *)
Definition fresh_entry (key : frag_key) (expires : Z) : device_frag_affinity_entry_t :=
  mk_entry key true false false 0 expires 0 0 empty_coverage zero_storage.

Lemma fresh_entry_ok pol key expires : entry_ok pol (fresh_entry key expires).
Proof.
  split; try done.
  - apply empty_coverage_wf.
  - apply zero_storage_ok.
  - intros _ _ _. split; [done|]. apply empty_not_covered.
Qed.

(** ** Replacing one entry *)

(** The table with slot [i] replaced and the counters moved along. *)
Definition replace_entry (t : device_frag_affinity_table_t) (i : Z)
    (e e' : device_frag_affinity_entry_t) : device_frag_affinity_table_t :=
  set_entries (set_counts t (retained_bytes t - entry_charge e + entry_charge e')
                            (staged_total t - entry_staged e + entry_staged e'))
    (<[Z.to_nat i := e']> (entries t)).

Definition has_entry (t : device_frag_affinity_table_t) (i : Z) (e : device_frag_affinity_entry_t)
  : Prop := 0 <= i < kDeviceFragAffinityMaxEntries /\ entries t !! Z.to_nat i = Some e.

Section Accounts.
Context (t : device_frag_affinity_table_t) (A : accounts_ok t).
Context (i : Z) (e : device_frag_affinity_entry_t) (Hi : has_entry t i e).

Lemma get_entry_ok : get_entry t i = Ok e.
Proof. destruct Hi. apply arr_get_ok; [lia|done]. Qed.

Lemma held_storage_ok : storage_ok (e_store e).
Proof. destruct Hi as [_ E]. apply (Forall_lookup_1 _ _ _ _ (ao_store t A) E). Qed.

Lemma held_charge : 0 <= entry_charge e <= retained_bytes t.
Proof.
  destruct Hi as [_ E]. rewrite (ao_bytes t A). apply (zsum_bound entry_charge (entries t) (Z.to_nat i)); [|done].
  eapply Forall_impl; [apply A|]. intros x. apply entry_charge_nonneg.
Qed.

Lemma held_staged : 0 <= entry_staged e <= staged_total t.
Proof.
  destruct Hi as [_ E]. rewrite (ao_total t A). apply (zsum_bound entry_staged (entries t) (Z.to_nat i)); [|done].
  eapply Forall_impl; [apply A|]. intros x S. by apply entry_staged_range.
Qed.

Lemma put_entry_counts (e' : device_frag_affinity_entry_t) (bytes total : Z) :
  bytes = retained_bytes t - entry_charge e + entry_charge e' ->
  total = staged_total t - entry_staged e + entry_staged e' ->
  put_entry (set_counts t bytes total) i e' = Ok (replace_entry t i e e').
Proof.
  intros -> ->. unfold put_entry. simpl. rewrite arr_set_ok by (rewrite (ao_length t A); apply Hi).
  done.
Qed.

Lemma put_entry_same (e' : device_frag_affinity_entry_t) :
  entry_charge e' = entry_charge e -> entry_staged e' = entry_staged e ->
  put_entry t i e' = Ok (replace_entry t i e e').
Proof.
  intros Ec Es. rewrite <- put_entry_counts with (bytes := retained_bytes t) (total := staged_total t) by lia.
  by destruct t.
Qed.

Lemma put_over (e1 e2 : device_frag_affinity_entry_t) :
  entry_charge e2 = entry_charge e1 -> entry_staged e2 = entry_staged e1 ->
  put_entry (replace_entry t i e e1) i e2 = Ok (replace_entry t i e e2).
Proof.
  intros Ec Es. unfold put_entry. simpl. rewrite arr_set_ok.
  - step_ok. f_equal. unfold replace_entry, set_entries, set_counts. simpl.
    by rewrite list_insert_insert_eq, Ec, Es.
  - unfold zlen. rewrite length_insert. fold (zlen (entries t)). rewrite (ao_length t A). apply Hi.
Qed.

Lemma entry_releasable : usable t \/ holds_nothing e.
Proof.
  destruct Hi as [_ E]. destruct (ao_usable t A) as [U|U]; [by left|right].
  apply (Forall_lookup_1 _ _ _ _ U E).
Qed.

(** Emptying an entry keeps the accounts. *)
Lemma vacated_accounts (e' : device_frag_affinity_entry_t) :
  storage_ok (e_store e') -> holds_nothing e' -> accounts_ok (replace_entry t i e e').
Proof.
  intros S N. pose proof held_charge. pose proof held_staged.
  destruct (holds_nothing_charge e' N) as [Ec Es]. destruct A as [Hl Hs Hb Hm Ht Htm Hu], Hi as [_ Ei].
  split; simpl; rewrite ?Ec, ?Es.
  - unfold zlen in *. by rewrite length_insert.
  - by apply Forall_insert.
  - rewrite (zsum_insert _ _ _ e), Ec by done. lia.
  - lia.
  - rewrite (zsum_insert _ _ _ e), Es by done. lia.
  - lia.
  - destruct Hu; [by left|right]. by apply Forall_insert.
Qed.
End Accounts.

Section Table.
Context (t : device_frag_affinity_table_t) (T : table_ok t).
Context (i : Z) (e : device_frag_affinity_entry_t) (Hi : has_entry t i e).

Lemma entry_is_ok : entry_ok (policy t) e.
Proof. destruct Hi as [_ E]. apply (Forall_lookup_1 _ _ _ _ (to_each t T) E). Qed.

Lemma entry_charge_bound : 0 <= entry_charge e <= retained_bytes t.
Proof. by apply (held_charge t (table_accounts t T) i). Qed.

Lemma entry_staged_bound : 0 <= entry_staged e <= staged_total t.
Proof. by apply (held_staged t (table_accounts t T) i). Qed.

Lemma retained_range : 0 <= retained_bytes t <= kDeviceFragAffinityMaxStagedBytes.
Proof.
  split; [pose proof entry_charge_bound; lia|]. pose proof (to_limit t T) as L.
  destruct (to_policy t T) as [-> | ->] in L; unfold byte_limit, kDeviceFragAffinityMaxAssemblyBytes,
    kDeviceFragAffinityMaxStagedBytes in *; lia.
Qed.

(** The condition on keys: the slot keeps its key, is vacated, or takes a key no
    other slot serves. *)
Definition key_fresh (e' : device_frag_affinity_entry_t) : Prop :=
  in_use e' = true -> forall j x, entries t !! j = Some x -> j <> Z.to_nat i -> in_use x = true ->
    e_key x <> e_key e'.

Lemma key_kept (e' : device_frag_affinity_entry_t) :
  e_key e' = e_key e -> in_use e = true -> key_fresh e'.
Proof.
  intros Hk Hu _ j x Hj Hne Hx E. destruct Hi as [_ Ei]. apply Hne.
  apply (to_keys t T j (Z.to_nat i) x e); auto. congruence.
Qed.

Lemma replace_ok (e' : device_frag_affinity_entry_t) :
  entry_ok (policy t) e' -> key_fresh e' ->
  (generation_open t = false -> in_use e' = true -> poisoned e' = true) ->
  (usable t \/ holds_nothing e') ->
  retained_bytes t - entry_charge e + entry_charge e' <= byte_limit (policy t) ->
  staged_total t - entry_staged e + entry_staged e' <= kDeviceFragAffinityMaxStaged ->
  table_ok (replace_entry t i e e').
Proof.
  intros O K C U L1 L2. destruct T as [Hl Hf Hb _ Ht _ Hp Hpad Hc Hk Hu]. destruct Hi as [Hr Ei].
  split; simpl; auto.
  - unfold zlen in *. by rewrite length_insert.
  - by apply Forall_insert.
  - rewrite (zsum_insert _ _ _ e) by done. lia.
  - rewrite (zsum_insert _ _ _ e) by done. lia.
  - intros Hg. apply Forall_insert; auto.
  - intros a b x y Ea Eb Ua Ub Exy.
    destruct (decide (a = Z.to_nat i)) as [->|Na], (decide (b = Z.to_nat i)) as [->|Nb]; try done.
    + rewrite list_lookup_insert_eq in Ea by (unfold zlen in *; lia). injection Ea as <-.
      rewrite list_lookup_insert_ne in Eb by done. exfalso. by apply (K Ua b y Eb Nb Ub).
    + rewrite list_lookup_insert_eq in Eb by (unfold zlen in *; lia). injection Eb as <-.
      rewrite list_lookup_insert_ne in Ea by done. exfalso. by apply (K Ub a x Ea Na Ua).
    + rewrite list_lookup_insert_ne in Ea, Eb by done. by apply (Hk a b x y).
  - destruct U as [U|U]; [by left|]. destruct Hu as [Hu|Hu]; [by left|]. right. by apply Forall_insert.
Qed.

Lemma replace_has (e' : device_frag_affinity_entry_t) : has_entry (replace_entry t i e e') i e'.
Proof.
  destruct Hi as [Hr Ei]. split; [done|]. simpl. apply list_lookup_insert_eq.
  by apply lookup_lt_Some in Ei.
Qed.

Lemma replace_config (e' : device_frag_affinity_entry_t) : same_config t (replace_entry t i e e').
Proof. done. Qed.

Lemma replace_same : replace_entry t i e e = t.
Proof.
  destruct Hi as [Hr Ei]. unfold replace_entry, set_entries, set_counts. simpl.
  rewrite (list_insert_id _ _ _ Ei). replace (retained_bytes t - _ + _) with (retained_bytes t) by lia.
  replace (staged_total t - _ + _) with (staged_total t) by lia. by destruct t.
Qed.

Lemma replace_replace (e1 e2 : device_frag_affinity_entry_t) :
  replace_entry (replace_entry t i e e1) i e1 e2 = replace_entry t i e e2.
Proof.
  unfold replace_entry, set_entries, set_counts. simpl. rewrite list_insert_insert_eq. f_equal; lia.
Qed.

End Table.

(** ** Giving storage back *)

Definition released_entry (e : device_frag_affinity_entry_t) : device_frag_affinity_entry_t :=
  set_store e (mk_storage 0 (staged (e_store e)) None).

Definition poison_entry (e : device_frag_affinity_entry_t) (now : Z) : device_frag_affinity_entry_t :=
  if poisoned e then released_entry e
  else set_poisoned (released_entry e) (now +64 kDeviceFragAffinityTimeoutMs).

Lemma released_nothing e : holds_nothing (released_entry e).
Proof. done. Qed.

Lemma poison_nothing e now : holds_nothing (poison_entry e now).
Proof. unfold poison_entry. by destruct (poisoned e). Qed.

Lemma released_ok pol e : entry_ok pol e -> poisoned e = true -> entry_ok pol (released_entry e).
Proof.
  intros [C S _ _ _ _ Fr] Hp. split; try done.
  - split; simpl; try done; [apply S|apply holds_nil].
  - intros _ Hq. simpl in Hq. congruence.
Qed.

Lemma poison_ok pol e now : entry_ok pol e -> entry_ok pol (poison_entry e now).
Proof.
  intros O. unfold poison_entry. destruct (poisoned e) eqn:Hp; [by apply released_ok|].
  destruct O as [C S _ _ _ _ Fr]. split; try done. split; simpl; try done; [apply S|apply holds_nil].
Qed.

Lemma poison_poisoned e now : poisoned (poison_entry e now) = true.
Proof. unfold poison_entry. by destruct (poisoned e) eqn:E. Qed.

Lemma poison_key e now : e_key (poison_entry e now) = e_key e /\ in_use (poison_entry e now) = in_use e.
Proof. unfold poison_entry. by destruct (poisoned e). Qed.

(** What the sweep makes of an entry. *)
Definition swept (now : Z) (e : device_frag_affinity_entry_t) : device_frag_affinity_entry_t :=
  if negb (in_use e) || (now <? expires_at_ms e) then e
  else if poisoned e then zero_entry
  else if now >=? (expires_at_ms e +64 kDeviceFragAffinityTimeoutMs) then zero_entry
  else poison_entry e (expires_at_ms e).

Lemma swept_ok pol now e : entry_ok pol e -> entry_ok pol (swept now e).
Proof.
  intros O. unfold swept. repeat case_match; auto using zero_entry_ok, poison_ok.
Qed.

Lemma swept_cases now e :
  (swept now e = e /\ (in_use e = false \/ now < expires_at_ms e)) \/
  holds_nothing (swept now e) /\ in_use e = true /\
    (swept now e = zero_entry \/ swept now e = poison_entry e (expires_at_ms e)).
Proof.
  unfold swept. destruct (negb (in_use e) || _) eqn:E1.
  - left. split; [done|]. apply orb_true_iff in E1 as [E1|E1]; bool_facts; auto.
  - right. bool_facts. repeat case_match; splits; auto; try apply poison_nothing; done.
Qed.

Section Release.
Context `{Allocator} {P : Type} `{PL : PoolLaws P}.
Implicit Types (t : device_frag_affinity_table_t) (pool : P).

Lemma recycle_ok t pool b :
  usable t -> pool_inv pool -> good b ->
  exists pool', deviceFragRecycle t pool b = Ok pool' /\ pool_inv pool' /\ same_geometry pool pool'.
Proof.
  intros U I [W O]. unfold usable, deviceFragRecycle in *. destruct (shared t); [by exists pool|].
  rewrite orb_false_l in U. rewrite U. by apply pool_reuse_law.
Qed.

Lemma recycle_config t t' pool b :
  same_config t t' -> deviceFragRecycle t' pool b = deviceFragRecycle t pool b.
Proof. intros (E1 & E2 & _). unfold deviceFragRecycle. by rewrite E1, E2. Qed.

Lemma release_staged_ok t pool slots items : forall l bytes,
  usable t -> pool_inv pool -> holds slots (l ++ items) -> Forall good items ->
  0 <= bytes <= UINT64_MAX -> zsum sbufGetAllocationCharge items <= bytes ->
  exists pool',
    release_staged t pool slots (zlen l) (length items) bytes =
      Ok (bytes - zsum sbufGetAllocationCharge items, pool') /\
    pool_inv pool' /\ same_geometry pool pool'.
Proof.
  revert pool. induction items as [|b items IH]; intros pool l bytes U I Hh F Hb Hz.
  { exists pool. simpl. by rewrite Z.sub_0_r. }
  apply Forall_cons in F as [Gb F]. cbn [length release_staged].
  rewrite (holds_get _ _ _ _ Hh). step_ok.
  destruct (recycle_ok t pool b U I Gb) as (p1 & -> & I1 & S1). step_ok.
  pose proof (charge_range b Gb). pose proof (charges_nonneg items F).
  cbn [zsum foldr] in Hz. fold (zsum sbufGetAllocationCharge items) in Hz.
  rewrite wrap64_small by lia. replace (zlen l + 1) with (zlen (l ++ [b])) by (rewrite zlen_app; done).
  destruct (IH p1 (l ++ [b]) (bytes - sbufGetAllocationCharge b)) as (p2 & E2 & I2 & S2);
    auto; try lia; [by rewrite <- app_assoc|].
  exists p2. splits; auto; [|by trans p1]. rewrite E2. do 2 f_equal.
  cbn [zsum foldr]. fold (zsum sbufGetAllocationCharge items). lia.
Qed.

(** Releasing empties the entry and takes exactly its charge off the table. *)
Lemma release_storage_ok t pool i e :
  accounts_ok t -> pool_inv pool -> has_entry t i e ->
  exists pool',
    deviceFragReleaseStorage t pool i = Ok (replace_entry t i e (released_entry e), pool') /\
    pool_inv pool' /\ same_geometry pool pool'.
Proof.
  intros A I Hi. pose proof (entry_releasable t A i e Hi) as U. pose proof (held_storage_ok t A i e Hi) as S.
  pose proof (held_charge t A i e Hi) as Hc. pose proof (held_staged t A i e Hi) as Hs.
  pose proof (ao_limit t A) as Hr. pose proof (charges_nonneg _ (so_good _ S)) as Hn.
  pose proof (assembly_charge_nonneg e S) as Ha. pose proof (ao_total_limit t A) as Htl.
  unfold kDeviceFragAffinityMaxStagedBytes, kDeviceFragAffinityMaxStaged in *.
  destruct (holds_nothing_charge _ (released_nothing e)) as [Rc Rs].
  assert (forall bytes, bytes = retained_bytes t - entry_charge e ->
    put_entry (set_counts t bytes (staged_total t -32 entry_staged e)) i (released_entry e) =
    Ok (replace_entry t i e (released_entry e))) as Put.
  { intros bytes ->. apply (put_entry_counts t A); auto; [lia|]. rewrite wrap32_small by word_lia. lia. }
  unfold deviceFragReleaseStorage. rewrite (get_entry_ok t i e Hi). step_ok.
  destruct U as [U|[N1 N2]].
  - pose proof (release_staged_ok t pool (staged (e_store e)) (staged_items (e_store e)) [] (retained_bytes t)
      U I (so_holds _ S) (so_good _ S)) as R.
    unfold entry_charge in Hc.
    assert (Z.to_nat (staged_count (e_store e)) = length (staged_items (e_store e))) as ->
      by (rewrite <- (so_count _ S) at 1; unfold zlen; lia).
    destruct R as (p1 & R & I1 & S1); [word_lia|lia|]. change (zlen []) with 0 in R. rewrite R. step_ok.
    unfold entry_charge in Put. fold (entry_staged e).
    destruct (assembly (e_store e)) as [a|] eqn:Ea.
    + destruct (recycle_ok t p1 a U I1 (so_assembly _ S a Ea)) as (p2 & -> & I2 & S2). step_ok.
      rewrite wrap64_small by word_lia.
      unfold released_entry in *. rewrite Put by lia. exists p2. splits; auto. by trans p1.
    + step_ok. unfold released_entry in *. rewrite Put by lia. by exists p1.
  - exists pool. split; [|done]. rewrite N1, N2. change (Z.to_nat 0) with 0%nat.
    cbn [release_staged]. step_ok.
    unfold entry_charge, entry_staged in Put. rewrite N2, N1, (no_items _ N1) in Put. unfold released_entry in *.
    rewrite Put by (simpl; lia). done.
Qed.

Lemma poison_spec t pool i e now :
  accounts_ok t -> pool_inv pool -> has_entry t i e ->
  exists pool',
    deviceFragPoison t pool i now = Ok (replace_entry t i e (poison_entry e now), pool') /\
    pool_inv pool' /\ same_geometry pool pool'.
Proof.
  intros A I Hi. unfold deviceFragPoison.
  destruct (release_storage_ok t pool i e A I Hi) as (p1 & -> & I1 & S1). step_ok.
  rewrite (get_entry_ok _ i (released_entry e)) by (by apply replace_has). step_ok.
  exists p1. unfold poison_entry. change (poisoned (released_entry e)) with (poisoned e).
  destruct (poisoned e); cbn [negb]; [done|]. splits; auto. by rewrite put_over.
Qed.

Lemma poison_table_ok t i e now :
  table_ok t -> has_entry t i e -> table_ok (replace_entry t i e (poison_entry e now)).
Proof.
  intros T Hi. pose proof (entry_is_ok t T i e Hi) as O.
  pose proof (entry_charge_bound t T i e Hi). pose proof (entry_staged_bound t T i e Hi).
  destruct (poison_key e now) as [K1 K2]. apply replace_ok; auto.
  - by apply poison_ok.
  - destruct (in_use e) eqn:U; [by apply (key_kept t T i e Hi)|]. intros U'. congruence.
  - intros _ _. apply poison_poisoned.
  - right. apply poison_nothing.
  - destruct (holds_nothing_charge _ (poison_nothing e now)) as [-> _]. pose proof (to_limit t T). lia.
  - destruct (holds_nothing_charge _ (poison_nothing e now)) as [_ ->]. pose proof (to_total_limit t T). lia.
Qed.

Lemma vacate_table_ok t i e :
  table_ok t -> has_entry t i e -> table_ok (replace_entry t i e zero_entry).
Proof.
  intros T Hi. pose proof (entry_charge_bound t T i e Hi). pose proof (entry_staged_bound t T i e Hi).
  apply replace_ok; auto using zero_entry_ok; try done; try by right.
  - change (entry_charge zero_entry) with 0. pose proof (to_limit t T). lia.
  - change (entry_staged zero_entry) with 0. pose proof (to_total_limit t T). lia.
Qed.

Lemma sweep_entry_ok t pool i e now :
  table_ok t -> pool_inv pool -> has_entry t i e ->
  exists pool',
    sweep_entry t pool i now = Ok (replace_entry t i e (swept now e), pool') /\
    pool_inv pool' /\ same_geometry pool pool'.
Proof.
  intros T I Hi. pose proof (table_accounts t T) as A. unfold sweep_entry, swept.
  rewrite (get_entry_ok t i e Hi). step_ok.
  destruct (negb (in_use e) || _); [exists pool; by rewrite replace_same|].
  destruct (poisoned e) eqn:Hp.
  - destruct (release_storage_ok t pool i e A I Hi) as (p1 & -> & I1 & S1). step_ok.
    rewrite put_over by done. by exists p1.
  - destruct (poison_spec t pool i e (expires_at_ms e) A I Hi) as (p1 & -> & I1 & S1). step_ok.
    rewrite (get_entry_ok _ i (poison_entry e (expires_at_ms e))) by (by apply replace_has). step_ok.
    assert (expires_at_ms (poison_entry e (expires_at_ms e)) =
      expires_at_ms e +64 kDeviceFragAffinityTimeoutMs) as -> by (unfold poison_entry; by rewrite Hp).
    exists p1. case_match; [|done].
    destruct (holds_nothing_charge _ (poison_nothing e (expires_at_ms e))) as [Ec Es].
    by rewrite put_over by (by rewrite ?Ec, ?Es).
Qed.

Lemma swept_table_ok t i e now :
  table_ok t -> has_entry t i e -> table_ok (replace_entry t i e (swept now e)).
Proof.
  intros T Hi. destruct (swept_cases now e) as [[-> _]|(_ & _ & [-> | ->])].
  - by rewrite replace_same.
  - by apply vacate_table_ok.
  - by apply poison_table_ok.
Qed.

Lemma sweep_loop_ok now n : forall t pool i,
  table_ok t -> pool_inv pool -> 0 <= i -> i + Z.of_nat n <= kDeviceFragAffinityMaxEntries ->
  exists t' pool',
    sweep_loop t pool i n now = Ok (t', pool') /\ table_ok t' /\ same_config t t' /\
    pool_inv pool' /\ same_geometry pool pool' /\
    forall j, entries t' !! j =
      (if decide (Z.to_nat i <= j < Z.to_nat i + n)%nat then swept now <$> entries t !! j
       else entries t !! j).
Proof.
  induction n as [|n IH]; intros t pool i T I Hi Hn; cbn [sweep_loop].
  { exists t, pool. splits; auto; try done. intros j. rewrite decide_False by lia. done. }
  assert (exists e, has_entry t i e) as (e & He).
  { pose proof (to_length t T) as L. destruct (lookup_lt_is_Some_2 (entries t) (Z.to_nat i)) as [e E].
    - unfold zlen in L. lia.
    - exists e. split; [lia|done]. }
  destruct (sweep_entry_ok t pool i e now T I He) as (p1 & -> & I1 & S1). step_ok.
  destruct (IH (replace_entry t i e (swept now e)) p1 (i + 1)) as (t2 & p2 & E2 & T2 & C2 & I2 & S2 & L2);
    auto; try lia; [by apply swept_table_ok|].
  exists t2, p2. splits; auto; [by trans p1|]. intros j. rewrite L2. simpl. destruct He as [Hr Ee].
  destruct (decide (j = Z.to_nat i)) as [->|Hne].
  - rewrite decide_False by lia. rewrite decide_True by lia.
    rewrite list_lookup_insert_eq by (by apply lookup_lt_Some in Ee). by rewrite Ee.
  - rewrite list_lookup_insert_ne by done. do 2 case_decide; auto; lia.
Qed.

(** A sweep rewrites every entry by [swept]. *)
Lemma sweep_ok t pool now :
  table_ok t -> pool_inv pool ->
  exists t' pool',
    deviceFragSweep t pool now = Ok (t', pool') /\ table_ok t' /\ same_config t t' /\
    pool_inv pool' /\ same_geometry pool pool' /\ entries t' = swept now <$> entries t.
Proof.
  intros T I. pose proof (to_length t T) as L. unfold zlen, kDeviceFragAffinityMaxEntries in L.
  destruct (sweep_loop_ok now (Z.to_nat kDeviceFragAffinityMaxEntries) t pool 0 T I)
    as (t' & p' & E & T' & C & I' & S & Hl); [done|done|].
  exists t', p'. splits; auto. apply list_eq. intros j. rewrite Hl, list_lookup_fmap.
  case_decide as D; [done|]. rewrite lookup_ge_None_2; [done|]. 
  unfold kDeviceFragAffinityMaxEntries in D. lia.
Qed.
End Release.

(** ** Hashing a first fragment *)

(** The fragment as a whole packet: no offset, no successor. *)
Definition whole_packet (b : sbuf_t) : list Z := splice_at (raw b) 6 (be16_bytes 0).

Definition whole_hash (workers_count : Z) (b : sbuf_t) : option (Z * Z) :=
  let q := whole_packet b in
  let t := tuple_of q in
  if well_formed q (len b)
  then Some (deviceFlowAffinityMixTuple (src t) (src_port t) (dst t) (dst_port t) (proto t) (fragment_key t),
             wrap8 (deviceFlowWorkerHashTuple (src t) (src_port t) (dst t) (dst_port t) (proto t)
                      (fragment_key t) mod workers_count))
  else None.

(** The buffer comes back unchanged. *)
Lemma hash_as_whole_spec (workers_count : Z) (b : sbuf_t) :
  good b -> 20 <= len b ->
  deviceFragAffinityHashAsWhole workers_count b = Ok (whole_hash workers_count b, b).
Proof.
  intros G Hl. pose proof (zlen_raw b G) as Zr. pose proof (raw_u8 b G) as U.
  pose proof (room_nonneg b G) as Hr. unfold deviceFragAffinityHashAsWhole.
  rewrite GET_BE16_ok by (auto; lia). step_ok. rewrite PUT_BE16_ok by lia. step_ok.
  fold (whole_packet b). unfold sbufGetLength.
  assert (Forall u8 (whole_packet b)) as Uw by (apply Forall_splice_at; auto using be16_bytes_u8).
  assert (zlen (whole_packet b) = zlen (raw b)) as Zw
    by (apply zlen_splice_at; rewrite ?zlen_be16_bytes; lia).
  destruct (hashes_spec (whole_packet b) (len b) 0 Uw) as [-> ->]; [lia|].
  replace (len b =? 0) with false by lia. cbn [negb andb]. unfold whole_hash.
  assert (PUT_BE16 (whole_packet b) 6 (be16 (raw b) 6) = Ok (raw b)) as Rst.
  { rewrite PUT_BE16_ok by lia. unfold whole_packet. by rewrite be16_restore by (auto; lia). }
  destruct (well_formed (whole_packet b) (len b)); step_ok; rewrite Rst; step_ok; by rewrite set_raw_id.
Qed.

(** ** Growing the assembly *)

(** Bytes of [g] that agree with [old] at the offsets of a list of ranges. *)
Definition agree (old g : sbuf_t) (x : Z) : Prop :=
  byte_at (raw g) (20 + x) = byte_at (raw old) (20 + x).

Lemma copy_ranges_ok (old : sbuf_t) (c : coverage_t) (n : nat) : forall g i,
  good old -> good g -> coverage_wf c -> 0 <= i -> i + Z.of_nat n <= range_count c ->
  (forall x, covered c x -> 20 + x < room old /\ 20 + x < room g) -> 20 <= room old -> 20 <= room g ->
  exists g', copy_ranges old g c i n = Ok g' /\ good g' /\
    curpos g' = curpos g /\ len g' = len g /\ capacity g' = capacity g /\
    slice 0 20 (raw g') = slice 0 20 (raw g) /\
    (forall x, holds_offset (take n (drop (Z.to_nat i) (live c))) x -> agree old g' x) /\
    (forall x, 0 <= x -> agree old g x -> agree old g' x).
Proof.
  induction n as [|n IH]; intros g i Go Gg W Hi Hn Hr Ho20 Hg20; cbn [copy_ranges].
  { exists g. splits; auto. intros x Hx. by apply holds_nil_iff in Hx. }
  pose proof (live_length c W) as Ll.
  destruct (lookup_lt_is_Some_2 (live c) (Z.to_nat i)) as [r Er]; [unfold zlen in Ll; lia|].
  rewrite (live_lookup c i r W Hi Er). step_ok.
  assert (0 <= r_begin r < r_end r /\ covered c (r_end r - 1)) as [Hb Hcov].
  { pose proof (cw_sorted c W) as S. rewrite <- (take_drop_middle _ _ _ Er) in S.
    apply ascending_app in S as [S1 (S2 & S3 & _)]. apply last_end_ge in S1 as S1'.
    split; [lia|]. unfold covered. rewrite <- (take_drop_middle _ _ _ Er).
    rewrite holds_app, holds_cons. lia. }
  destruct (Hr _ Hcov) as [Ro Rg]. pose proof (cw_bound c W _ Hcov) as Hbound.
  unfold kDeviceFragAffinityMaxPayloadEnd in Hbound. rewrite wrap32_small by word_lia.
  rewrite (read_raw old Go) by lia. step_ok.
  set (bs := slice (20 + r_begin r) (r_end r - r_begin r) (raw old)).
  assert (zlen bs = r_end r - r_begin r) as Zb by (apply zlen_slice; rewrite ?zlen_raw by done; lia).
  destruct (write_raw g Gg (20 + r_begin r) bs) as (g1 & -> & G1 & R1 & C1 & L1 & K1);
    [lia|lia|by apply Forall_slice, raw_u8|]. step_ok.
  assert (room g1 = room g) as Rm by (unfold room; by rewrite C1, K1).
  assert (forall x, 0 <= x -> byte_at (raw g1) (20 + x) =
    if decide (r_begin r <= x < r_end r) then byte_at (raw old) (20 + x) else byte_at (raw g) (20 + x)) as B1.
  { intros x Hx. rewrite R1, byte_at_splice by (rewrite ?zlen_raw by done; lia). rewrite Zb.
    do 2 case_decide; try lia; try done. unfold bs. rewrite byte_at_slice by lia. f_equal. lia. }
  destruct (IH g1 (i + 1) Go G1 W) as (g2 & E2 & G2 & C2 & L2 & K2 & S2 & H2 & A2); try lia.
  { intros x Hx. rewrite Rm. by apply Hr. }
  exists g2. splits; auto; try congruence.
  - rewrite S2, R1. apply slice_splice_before; rewrite ?zlen_raw by done; lia.
  - intros x Hx. rewrite (drop_S _ r) in Hx by done. cbn [take] in Hx. apply holds_cons in Hx as [Hx|Hx].
    + apply A2; [lia|]. unfold agree. rewrite B1 by lia. by rewrite decide_True by lia.
    + apply H2. by replace (Z.to_nat (i + 1)) with (S (Z.to_nat i)) by lia.
  - intros x Hx Ha. apply A2; [done|]. unfold agree in *. rewrite B1 by done. by case_decide.
Qed.

Section Grow.
Context `{Allocator} {P : Type} `{PL : PoolLaws P}.
Implicit Types (t : device_frag_affinity_table_t) (pool : P).

Definition grow_padding t pool : Z := if shared t then shared_padding t else pool_large_padding pool.

Lemma grow_padding_u16 t pool : table_ok t -> pool_inv pool -> u16 (grow_padding t pool).
Proof.
  intros T I. unfold grow_padding. destruct (shared t); [apply T|].
  destruct (pool_geometry pool I) as [_ Hp]. unfold u16, UINT16_MAX in *. lia.
Qed.

(** The allocation whose charge was asked for before. *)
Definition new_assembly t pool (need padding : Z) : outcome (sbuf_t * P) :=
  if shared t then b ← sbufCreateWithPadding need padding; mret (b, pool)
  else pool_get_best_fit pool need padding.

Lemma assembly_charge_ok t pool need padding :
  pool_inv pool -> 0 <= need <= UINT32_MAX -> u16 padding ->
  exists r, assembly_charge t pool need padding = Ok r /\
    match r with
    | None => ~ creatable need padding
    | Some charge => creatable need padding /\
        (shared t = true -> charge = 64 + round_line need + round_pad padding) /\
        exists g pool', new_assembly t pool need padding = Ok (g, pool') /\ idle g /\
          sbufGetAllocationCharge g = charge /\ need <= room g /\ padding <= curpos g /\
          pool_inv pool' /\ same_geometry pool pool'
    end.
Proof.
  intros I Hn Hp. unfold assembly_charge, new_assembly. destruct (shared t).
  - destruct (decide (0 <= need /\ 0 <= padding /\ round_pad padding <= UINT16_MAX /\
      round_line need + round_pad padding <= UINT32_MAX)) as [Hc|Hc].
    + rewrite try_capacity_some by done. pose proof Hc as (? & ? & ? & ?).
      pose proof (round_line_bounds need) as B1. pose proof (round_pad_bounds padding) as B2.
      unfold sbufTryComputeQueueCharge, SIZEOF_STRUCT_SBUF, kSbufAllocationAlignment.
      change (32 +64 32) with 64. change (SIZE_MAX -64 64) with (SIZE_MAX - 64).
      destruct (_ >? _) eqn:E; bool_facts; [word_lia|].
      rewrite wrap64_small by word_lia. eexists. split; [done|]. split; [done|]. split; [lia|].
      destruct (create_spec need padding Hc) as (g & -> & W & O & Hf & Hl & Hcur & Hpad & Hcap & _).
      exists g, pool. assert (idle g) as Ig by (split; auto; congruence). step_ok.
      splits; auto; try done; [|unfold room; lia|lia]. rewrite charge_good by (by apply idle_good). lia.
    + rewrite try_capacity_none by (done || lia). eexists. split; [done|]. exact Hc.
  - destruct (pool_query_law pool need padding I) as (r & Er & Hsome & Hnone); [word_lia|done|].
    rewrite Er. step_ok.
    destruct (decide (0 <= need /\ 0 <= padding /\ round_pad padding <= UINT16_MAX /\
      round_line need + round_pad padding <= UINT32_MAX)) as [Hc|Hc].
    + destruct (Hsome Hc) as (fit & ->). eexists. split; [done|]. cbn [option_map]. split; [done|].
      split; [done|].
      destruct (pool_best_fit_law pool need padding I Hc Hp) as (g & q & -> & Iq & Sg & Ig & Hr & Hl & Hfit).
      exists g, q. pose proof (idle_curpos _ Ig). splits; auto; [|unfold room; lia|lia].
      symmetry. by apply Hfit.
    + rewrite (Hnone Hc). by eexists.
Qed.

(** Bytes of the old assembly the new one keeps. *)
Definition kept (e : device_frag_affinity_entry_t) (a' : sbuf_t) : Prop :=
  forall a, assembly (e_store e) = Some a ->
    room a <= room a' /\
    (wid_known e = true -> slice 0 20 (raw a') = slice 0 20 (raw a)) /\
    forall x, covered (e_cover e) x -> byte_at (raw a') (20 + x) = byte_at (raw a) (20 + x).

Definition assembly_bytes (e : device_frag_affinity_entry_t) : Z :=
  match assembly (e_store e) with Some a => sbufGetAllocationCharge a | None => 0 end.

Definition grown_to t pool (e : device_frag_affinity_entry_t) (need : Z)
    (r : option (sbuf_t * device_frag_affinity_table_t * P)) : Prop :=
  match r with
  | None => shared t = true ->
      ~ (creatable need (shared_padding t) /\
         retained_bytes t + (64 + round_line need + round_pad (shared_padding t)) <=
           kDeviceFragAffinityMaxAssemblyBytes)
  | Some (a, t', pool') =>
      good a /\ need <= room a /\ kept e a /\ pool_inv pool' /\ same_geometry pool pool' /\
      t' = set_counts t (retained_bytes t - assembly_bytes e + sbufGetAllocationCharge a) (staged_total t) /\
      retained_bytes t' <= kDeviceFragAffinityMaxAssemblyBytes /\
      (shared t = true -> sbufGetAllocationCharge a <= Z.max (assembly_bytes e)
         (64 + round_line need + round_pad (shared_padding t)))
  end.

Section Entry.
Context t pool (T : table_ok t) (I : pool_inv pool) (U : usable t).
Context (i : Z) (e : device_frag_affinity_entry_t) (Hi : has_entry t i e).
Context (Hp : policy t = kDeviceFragmentReassemble) (Hpo : poisoned e = false).
Context (need : Z) (Hneed : 20 < need <= UINT16_MAX).

(** Copying the old contents into a fresh, larger buffer. *)
Lemma copy_old (old g : sbuf_t) :
  assembly (e_store e) = Some old -> good g -> room old < need -> need <= room g ->
  exists g', (g ← (if wid_known e then bytes ← read_at old 0 20; write_at g 0 bytes else mret g);
              copy_ranges old g (e_cover e) 0 (Z.to_nat (range_count (e_cover e)))) = Ok g' /\
    good g' /\ room g' = room g /\ capacity g' = capacity g /\ kept e g'.
Proof.
  intros Ea Gg Ho Hg. pose proof (entry_is_ok t T i e Hi) as O.
  destruct (eo_assembly _ _ O old Ea) as (_ & H20 & Hroom).
  pose proof (so_assembly _ (eo_store _ _ O) old Ea) as Go.
  pose proof (eo_cover _ _ O) as W. pose proof (cw_count _ W) as Hc.
  assert (exists g1, (if wid_known e then bytes ← read_at old 0 20; write_at g 0 bytes else mret g) = Ok g1 /\
    good g1 /\ room g1 = room g /\ capacity g1 = capacity g /\
    (wid_known e = true -> slice 0 20 (raw g1) = slice 0 20 (raw old))) as (g1 & -> & G1 & R1 & K1 & S1).
  { destruct (wid_known e); [|by exists g]. rewrite (read_raw old Go) by lia. step_ok.
    assert (zlen (slice 0 20 (raw old)) = 20) as Zs by (apply zlen_slice; rewrite ?zlen_raw by done; lia).
    destruct (write_raw g Gg 0 (slice 0 20 (raw old))) as (g1 & -> & G1 & Rr & C1 & L1 & K1);
      [lia|lia|by apply Forall_slice, raw_u8|]. exists g1. splits; auto; [unfold room; congruence|].
    intros _. rewrite Rr. rewrite <- Zs at 1. apply slice_splice_same; rewrite ?zlen_raw by done; lia. }
  step_ok.
  destruct (copy_ranges_ok old (e_cover e) (Z.to_nat (range_count (e_cover e))) g1 0 Go G1 W)
    as (g2 & -> & G2 & C2 & L2 & K2 & S2 & H2 & _); try lia.
  { intros x Hx. specialize (Hroom x Hx). lia. }
  exists g2. splits; auto; [unfold room in *; lia|lia|]. intros a Ea'. rewrite Ea in Ea'. injection Ea' as <-.
  split; [unfold room in *; lia|]. split; [intros Hw; rewrite S2; by apply S1|]. intros x Hx. apply (H2 x). cbn [Z.to_nat]. rewrite drop_0.
  rewrite take_ge; [done|]. pose proof (live_length _ W) as Ll. unfold zlen in Ll. lia.
Qed.

Lemma replace_assembly_ok (charge : Z) :
  match assembly (e_store e) with Some a => room a < need | None => True end ->
  assembly_charge t pool need (grow_padding t pool) = Ok (Some charge) ->
  retained_bytes t + charge <= kDeviceFragAffinityMaxAssemblyBytes ->
  exists a t' pool', replace_assembly t pool e need (grow_padding t pool) charge = Ok (a, t', pool') /\
    grown_to t pool e need (Some (a, t', pool')).
Proof.
  intros Hroom Ec Hfit. pose proof (entry_is_ok t T i e Hi) as O.
  pose proof (grow_padding_u16 t pool T I) as Pu. pose proof (retained_range t T i e Hi) as Hr.
  pose proof (entry_charge_bound t T i e Hi) as Hec. unfold entry_charge in Hec. fold (assembly_bytes e) in Hec.
  pose proof (charges_nonneg _ (so_good _ (eo_store _ _ O))) as Hst.
  unfold kDeviceFragAffinityMaxAssemblyBytes, kDeviceFragAffinityMaxStagedBytes in *.
  destruct (assembly_charge_ok t pool need (grow_padding t pool) I) as (r & Er & Hc);
    [word_lia|done|]. rewrite Ec in Er. injection Er as <-.
  destruct Hc as (_ & Hsh & g & p1 & En & Ig & Hg & Hroomg & Hcur & I1 & S1).
  pose proof (charge_range g (idle_good g Ig)) as Hcr. pose proof (idle_good g Ig) as Gg.
  assert (shared t = true -> charge = 64 + round_line need + round_pad (shared_padding t)) as Hsh'.
  { intros Es. rewrite (Hsh Es). unfold grow_padding. by rewrite Es. }
  unfold replace_assembly. cbn [shared set_counts]. unfold new_assembly in En. rewrite En. step_ok.
  rewrite Hg, Z.eqb_refl. rewrite writeable_size by apply Gg. fold (room g). unfold sbufGetLeftCapacity.
  replace (room g <? need) with false by lia. replace (curpos g <? _) with false by lia. rewrite abort_bind by done.
  unfold assembly_bytes in *. rewrite (wrap64_small (retained_bytes t + charge)) by word_lia.
  destruct (assembly (e_store e)) as [old|] eqn:Ea.
  - destruct (copy_old old g Ea Gg Hroom Hroomg) as (g' & Ecp & G' & Rg & Kg & Kept).
    apply bind_Ok in Ecp as (g1 & -> & Ecp). step_ok. rewrite Ecp. step_ok. cbn [set_counts retained_bytes staged_total].
    pose proof (charge_range old (so_assembly _ (eo_store _ _ O) old Ea)).
    rewrite wrap64_small by word_lia.
    set (t1 := set_counts _ _ _). assert (same_config t t1) as C1 by done.
    rewrite (recycle_config t t1 p1 old C1).
    destruct (recycle_ok t p1 old U I1 (so_assembly _ (eo_store _ _ O) old Ea)) as (p2 & -> & I2 & S2).
    step_ok. exists g', t1, p2. split; [done|]. unfold grown_to, assembly_bytes. rewrite Ea.
    assert (sbufGetAllocationCharge g' = charge) as Hg' by (rewrite <- Hg, !charge_good by done; lia).
    rewrite Hg'. splits; auto; try lia; try by trans p1.
    + unfold t1. f_equal; lia.
    + unfold t1, kDeviceFragAffinityMaxAssemblyBytes. simpl. lia.
    + intros Es. rewrite <- (Hsh' Es). lia.
  - exists g. do 2 eexists. split; [done|]. unfold grown_to, kept, assembly_bytes. rewrite Ea, Hg.
    splits; auto; try done.
    + f_equal. lia.
    + intros Es. rewrite <- (Hsh' Es). lia.
Qed.

Lemma grow_assembly_ok :
  exists r, grow_assembly t pool e need = Ok r /\ grown_to t pool e need r.
Proof.
  pose proof (entry_is_ok t T i e Hi) as O. pose proof (grow_padding_u16 t pool T I) as Pu.
  pose proof (retained_range t T i e Hi) as Hr. pose proof (to_limit t T) as Hlim. rewrite Hp in Hlim.
  unfold byte_limit, kDeviceFragAffinityMaxStagedBytes in *.
  unfold grow_assembly. fold (grow_padding t pool).
  destruct (match assembly (e_store e) with Some a => _ | None => true end) eqn:Eg.
  - destruct (assembly_charge_ok t pool need (grow_padding t pool) I) as (r & Er & Hc); [word_lia|done|].
    rewrite Er. step_ok. destruct r as [charge|].
    + destruct Hc as (Hc & Hsh & g & p1 & _ & Ig & Hg & _). pose proof (charge_range g (idle_good g Ig)) as Hcr.
      unfold kDeviceFragAffinityMaxAssemblyBytes in *. rewrite wrap64_small by word_lia.
      destruct (_ >? _) eqn:Eb; bool_facts.
      { exists None. split; [done|]. intros Es (_ & Hfit). rewrite (Hsh Es) in *. unfold grow_padding in Eb.
        rewrite Es in Eb. unfold kDeviceFragAffinityMaxAssemblyBytes in Hfit. lia. }
      destruct (replace_assembly_ok charge) as (a & t' & p2 & -> & Gr); auto;
        [|unfold kDeviceFragAffinityMaxAssemblyBytes; lia|].
      * destruct (assembly (e_store e)) as [old|] eqn:Ea; [|done].
        rewrite writeable_size in Eg by apply (so_assembly _ (eo_store _ _ O) old Ea). bool_facts. exact Eg.
      * step_ok. eauto.
    + exists None. split; [done|]. intros Es (Hcr & _). apply Hc. unfold grow_padding. by rewrite Es.
  - destruct (assembly (e_store e)) as [old|] eqn:Ea; [|done].
    pose proof (so_assembly _ (eo_store _ _ O) old Ea) as Go.
    rewrite writeable_size in Eg by apply Go. bool_facts. eexists. split; [done|].
    unfold grown_to, kept, assembly_bytes. rewrite Ea. unfold room. splits; auto; try done; try lia.
    + intros a [= <-]. splits; auto; lia.
    + replace (retained_bytes t - _ + _) with (retained_bytes t) by lia. by destruct t.
Qed.
End Entry.
End Grow.
