(* ===== verification/FragOffer.v ===== *)
(** * Offering fragments ([ww/devices/device_frag_affinity.c])

    What [deviceFragAffinityOffer] does in each of its branches, and that no
    sequence of calls on a table faults or breaks its accounts. *)

From Stdlib Require Import ZArith Lia.
From stdpp Require Import base numbers option list.
From S2P Require Import Prelude ShiftBuffer Endian PoolInterface PacketChecksum FlowHash FragRanges.
From S2P Require Import FragAffinity FragInvariant.
Open Scope Z_scope.
Open Scope word_scope.

(** ** The header of a reassembled packet *)

(** Fragment zero's header with the length [20 + f], the fragment bits cleared
    and the checksum recomputed. *)
Definition finish_list (l : list Z) (f : Z) : list Z :=
  let l := splice_at l 2 (be16_bytes (20 + f)) in
  rewritten (splice_at l 6 (be16_bytes (Z.land (be16 l 6) 0xc000))) 20.

Section Finish.
Context (l : list Z) (f : Z) (U : Forall u8 l) (Hl : 20 <= zlen l).
Context (Hf : 0 <= f <= kDeviceFragAffinityMaxPayloadEnd).

Let l1 := splice_at l 2 (be16_bytes (20 + f)).
Let l2 := splice_at l1 6 (be16_bytes (Z.land (be16 l1 6) 0xc000)).

Lemma finish_lengths : zlen l1 = zlen l /\ zlen l2 = zlen l.
Proof.
  assert (zlen l1 = zlen l) as E1 by (apply zlen_splice_at; rewrite ?zlen_be16_bytes; lia).
  split; [done|]. unfold l2. rewrite zlen_splice_at; rewrite ?zlen_be16_bytes; lia.
Qed.

Lemma finish_u8 : Forall u8 l1 /\ Forall u8 l2.
Proof.
  assert (Forall u8 l1) by (apply Forall_splice_at; auto using be16_bytes_u8).
  split; [done|]. apply Forall_splice_at; auto using be16_bytes_u8.
Qed.

Lemma finish_header_ok : finish_header l f = Ok (finish_list l f).
Proof.
  destruct finish_lengths as [E1 E2], finish_u8 as [U1 U2].
  unfold kDeviceFragAffinityMaxPayloadEnd in Hf. unfold finish_header.
  rewrite wrap32_small by word_lia. rewrite PUT_BE16_ok by lia. step_ok. fold l1.
  rewrite GET_BE16_ok by (auto; lia). step_ok. rewrite PUT_BE16_ok by lia. step_ok. fold l2.
  pose proof (rewrite_checksum_ok l2 20 U2 ltac:(lia) ltac:(lia) eq_refl) as R. exact R.
Qed.

Lemma finish_len : zlen (finish_list l f) = zlen l.
Proof.
  destruct finish_lengths as [E1 E2]. unfold finish_list. fold l1. fold l2.
  rewrite zlen_rewritten; lia.
Qed.

Lemma finish_list_u8 : Forall u8 (finish_list l f).
Proof. apply rewritten_u8, finish_u8. Qed.

(** Bytes outside the three fields are those of the fragment. *)
Lemma finish_byte (j : Z) :
  0 <= j -> ~ (2 <= j < 4) -> ~ (6 <= j < 8) -> ~ (10 <= j < 12) ->
  byte_at (finish_list l f) j = byte_at l j.
Proof.
  intros Hj N1 N2 N3. destruct finish_lengths as [E1 E2].
  unfold finish_list. fold l1. fold l2. unfold rewritten.
  assert (zlen (cleared l2) = zlen l) as E3 by (rewrite (zlen_cleared l2 20); lia).
  rewrite byte_at_splice by (rewrite ?zlen_be16_bytes; lia). rewrite zlen_be16_bytes.
  rewrite decide_False by lia. unfold cleared.
  rewrite byte_at_splice by (rewrite ?zlen_be16_bytes; lia). rewrite zlen_be16_bytes.
  rewrite decide_False by lia. unfold l2.
  rewrite byte_at_splice by (rewrite ?zlen_be16_bytes; lia). rewrite zlen_be16_bytes.
  rewrite decide_False by lia. unfold l1.
  rewrite byte_at_splice by (rewrite ?zlen_be16_bytes; lia). rewrite zlen_be16_bytes.
  by rewrite decide_False by lia.
Qed.

Lemma finish_field (j : Z) :
  0 <= j -> ~ (10 <= j < 12) -> byte_at (finish_list l f) j = byte_at l2 j.
Proof.
  intros Hj N. destruct finish_lengths as [E1 E2]. unfold finish_list. fold l1. fold l2. unfold rewritten.
  assert (zlen (cleared l2) = zlen l) as E3 by (rewrite (zlen_cleared l2 20); lia).
  rewrite byte_at_splice by (rewrite ?zlen_be16_bytes; lia). rewrite zlen_be16_bytes.
  rewrite decide_False by lia. unfold cleared.
  rewrite byte_at_splice by (rewrite ?zlen_be16_bytes; lia). rewrite zlen_be16_bytes.
  by rewrite decide_False by lia.
Qed.

Lemma finish_valid :
  header_valid (finish_list l f) 20 /\ be16 (finish_list l f) 2 = 20 + f /\
  be16 (finish_list l f) 6 = Z.land (be16 l 6) 0xc000.
Proof.
  destruct finish_lengths as [E1 E2], finish_u8 as [U1 U2].
  assert (be16 l1 6 = be16 l 6) as E6.
  { unfold be16, l1. rewrite !byte_at_splice by (rewrite ?zlen_be16_bytes; lia).
    by rewrite zlen_be16_bytes, !decide_False by lia. }
  splits.
  - unfold finish_list. fold l1. fold l2. apply rewritten_valid; auto; lia.
  - unfold be16. rewrite !finish_field by lia. unfold l2.
    rewrite !byte_at_splice by (rewrite ?zlen_be16_bytes; lia).
    rewrite zlen_be16_bytes, !decide_False by lia. fold (be16 l1 2). unfold l1.
    rewrite be16_stored by lia. unfold kDeviceFragAffinityMaxPayloadEnd, UINT16_MAX in Hf.
    apply Z.mod_small. lia.
  - unfold be16 at 1. rewrite !finish_field by lia. fold (be16 l2 6). unfold l2.
    rewrite be16_stored by lia. rewrite E6.
    pose proof (land_range 16 (be16 l 6) 0xc000). pose proof (be16_u16 l 6 U).
    unfold u16, UINT16_MAX in *. apply Z.mod_small. lia.
Qed.
End Finish.

(** ** Reassembly: one accepted fragment *)

(** The bytes of the assembly after a fragment was stored in it. *)
Record stored (e : device_frag_affinity_entry_t) (v : device_frag_view_t) (b a : sbuf_t) : Prop :=
  mk_stored {
  sd_header : v_offset v = 0 -> slice 0 20 (raw a) = slice 0 20 (raw b);
  sd_old_header : v_offset v <> 0 -> wid_known e = true ->
    forall old, assembly (e_store e) = Some old -> slice 0 20 (raw a) = slice 0 20 (raw old);
  sd_new : forall x, v_offset v <= x < v_end v ->
    byte_at (raw a) (20 + x) = byte_at (raw b) (20 + (x - v_offset v));
  sd_old : forall x old, covered (e_cover e) x -> assembly (e_store e) = Some old ->
    byte_at (raw a) (20 + x) = byte_at (raw old) (20 + x)
}.

Definition header_known (e : device_frag_affinity_entry_t) (v : device_frag_view_t) : bool :=
  if v_offset v =? 0 then true else wid_known e.

(** The entry with the fragment stored. *)
Definition stored_entry (e : device_frag_affinity_entry_t) (v : device_frag_view_t)
    (cover : coverage_t) (a : sbuf_t) : device_frag_affinity_entry_t :=
  mk_entry (e_key e) (in_use e) (poisoned e) (header_known e v) (wid e) (expires_at_ms e)
    (zero_flow_hash e) (wrap16 (fragments e + 1)) cover
    (mk_storage (staged_count (e_store e)) (staged (e_store e)) (Some a)).

(** A fragment with its buffer: the view is what the parser made of the bytes. *)
Definition carries (b : sbuf_t) (v : device_frag_view_t) : Prop :=
  good b /\ view_wf v /\ len b = 20 + v_payload_len v.

Lemma store_bytes (e : device_frag_affinity_entry_t) (v : device_frag_view_t) (b g : sbuf_t) :
  carries b v -> good g -> 20 + v_end v <= room g -> kept e g ->
  (forall x, v_offset v <= x < v_end v -> ~ covered (e_cover e) x) -> 
  (forall x, covered (e_cover e) x -> 0 <= x) ->
  exists a,
    (g ← (if v_offset v =? 0 then h ← read_at b 0 20; write_at g 0 h else mret g);
     data ← read_at b 20 (v_payload_len v);
     write_at g (20 + v_offset v) data) = Ok a /\
    good a /\ room a = room g /\ capacity a = capacity g /\ stored e v b a.
Proof.
  intros (Gb & [Ho Hl He] & Hlen) Gg Hroom K Hfree Hpos. pose proof (room_nonneg b Gb) as Rb.
  assert (v_end v = v_offset v + v_payload_len v) as Ee by done.
  assert (exists g1, (if v_offset v =? 0 then h ← read_at b 0 20; write_at g 0 h else mret g) = Ok g1 /\
    good g1 /\ room g1 = room g /\ capacity g1 = capacity g /\
    (forall x, 0 <= x -> byte_at (raw g1) (20 + x) = byte_at (raw g) (20 + x)) /\
    (v_offset v = 0 -> slice 0 20 (raw g1) = slice 0 20 (raw b)) /\
    (v_offset v <> 0 -> g1 = g)) as (g1 & -> & G1 & R1 & K1 & B1 & H1 & N1).
  { destruct (v_offset v =? 0) eqn:E; bool_facts; [|by exists g].
    rewrite (read_raw b Gb) by lia. step_ok.
    assert (zlen (slice 0 20 (raw b)) = 20) as Zs by (apply zlen_slice; rewrite ?zlen_raw by done; lia).
    destruct (write_raw g Gg 0 (slice 0 20 (raw b))) as (g1 & -> & G1 & Rr & C1 & L1 & K1);
      [lia|lia|by apply Forall_slice, raw_u8|]. exists g1. splits; auto; try done.
    - unfold room. lia.
    - intros x Hx. rewrite Rr, byte_at_splice by (rewrite ?zlen_raw by done; lia).
      by rewrite Zs, decide_False by lia.
    - intros _. rewrite Rr. rewrite <- Zs at 1. apply slice_splice_same; rewrite ?zlen_raw by done; lia. }
  step_ok. rewrite (read_raw b Gb) by lia. step_ok.
  set (bs := slice 20 (v_payload_len v) (raw b)).
  assert (zlen bs = v_payload_len v) as Zb by (apply zlen_slice; rewrite ?zlen_raw by done; lia).
  destruct (write_raw g1 G1 (20 + v_offset v) bs) as (a & -> & Ga & Ra & Ca & La & Ka);
    [lia|lia|by apply Forall_slice, raw_u8|].
  exists a. splits; auto; [unfold room in *; lia|lia|].
  assert (forall x, 0 <= x -> byte_at (raw a) (20 + x) = if decide (v_offset v <= x < v_end v)
    then byte_at (raw b) (20 + (x - v_offset v)) else byte_at (raw g) (20 + x)) as B2.
  { intros x Hx. rewrite Ra, byte_at_splice by (rewrite ?zlen_raw by done; lia). rewrite Zb.
    do 2 case_decide; try lia; [|by apply B1]. unfold bs. rewrite byte_at_slice by lia. f_equal. lia. }
  assert (slice 0 20 (raw a) = slice 0 20 (raw g1)) as Sh
    by (rewrite Ra; apply slice_splice_before; rewrite ?zlen_raw by done; lia).
  split.
  - intros E. rewrite Sh. by apply H1.
  - intros E Hw old Eo. rewrite Sh, (N1 E). destruct (K old Eo) as (_ & Kh & _). by apply Kh.
  - intros x Hx. rewrite B2 by lia. by rewrite decide_True by lia.
  - intros x old Hx Eo. rewrite B2 by (by apply Hpos). rewrite decide_False by (intros D; by apply (Hfree x D)).
    destruct (K old Eo) as (_ & _ & Kb). by apply Kb.
Qed.

Lemma covered_nonneg (c : coverage_t) (x : Z) : coverage_wf c -> covered c x -> 0 <= x.
Proof. intros W Hx. apply (holds_range (-1)) in Hx; [lia|apply W]. Qed.

Definition whole (c : coverage_t) (f : Z) : Prop :=
  known_end c = Some f /\ forall x, covered c x <-> 0 <= x < f.

(** Enough budget for one more assembly of [need] bytes in a shared table. *)
Definition affords (t : device_frag_affinity_table_t) (need : Z) : Prop :=
  creatable need (shared_padding t) /\
  retained_bytes t + (64 + round_line need + round_pad (shared_padding t)) <=
    kDeviceFragAffinityMaxAssemblyBytes.

Section Reassemble.
Context `{Allocator} {P : Type} `{PL : PoolLaws P}.
Context (t : device_frag_affinity_table_t) (pool : P).
Context (T : table_ok t) (I : pool_inv pool) (U : usable t).
Context (i : Z) (e : device_frag_affinity_entry_t) (Hi : has_entry t i e).
Context (Hp : policy t = kDeviceFragmentReassemble) (Hpo : poisoned e = false) (Hu : in_use e = true).
Context (Hfr : fragments e < kDeviceFragAffinityMaxFragments) (Hop : generation_open t = true).
Context (v : device_frag_view_t) (b : sbuf_t) (Cb : carries b v) (now : Z).

(** The three outcomes of the branch. *)
Definition reassembled (cover : coverage_t) (act : device_frag_affinity_action_t)
    (res : device_frag_affinity_result_t) (t' : device_frag_affinity_table_t) : Prop :=
  match act with
  | kDeviceFragAffinityConsumedDrop =>
      res = zero_result /\ t' = replace_entry t i e (poison_entry e now) /\
      (shared t = true -> ~ affords t (20 + v_end v))
  | kDeviceFragAffinityStaged =>
      res = zero_result /\ ~ (header_known e v = true /\ exists f, whole cover f) /\
      exists a, good a /\ stored e v b a /\ t' = replace_entry t i e (stored_entry e v cover a) /\
        (shared t = true -> sbufGetAllocationCharge a <= Z.max (assembly_bytes e)
           (64 + round_line (20 + v_end v) + round_pad (shared_padding t)))
  | kDeviceFragAffinityComplete =>
      header_known e v = true /\ exists f a c, whole cover f /\ stored e v b a /\
        20 + f <= room a /\ good a /\
        res = mk_result [] 0 (Some c) None /\ good c /\
        payload c = slice 0 (20 + f) (finish_list (raw a) f) /\
        t' = replace_entry t i e zero_entry
  | _ => False
  end.

Lemma poison_drop_ok :
  exists pool', offer_poison t pool i b now =
    Ok (kDeviceFragAffinityConsumedDrop, zero_result, replace_entry t i e (poison_entry e now), pool') /\
    pool_inv pool' /\ same_geometry pool pool'.
Proof.
  unfold offer_poison, offer_drop.
  destruct (poison_spec t pool i e now (table_accounts t T) I Hi) as (p1 & -> & I1 & S1). step_ok.
  rewrite (recycle_config t) by apply replace_config.
  destruct (recycle_ok t p1 b U I1 (proj1 Cb)) as (p2 & -> & I2 & S2). step_ok.
  exists p2. splits; auto. by trans p1.
Qed.

Lemma stored_entry_ok (cover : coverage_t) (a : sbuf_t) :
  coverage_wf cover -> accounted (e_cover e) v kDeviceFragAccountOk cover ->
  good a -> 20 + v_end v <= room a ->
  (forall old, assembly (e_store e) = Some old -> room old <= room a) -> entry_ok (policy t) (stored_entry e v cover a).
Proof.
  intros Wc (_ & _ & _ & Hcov & _) Ga Hroom K. pose proof (entry_is_ok t T i e Hi) as O.
  pose proof Cb as (_ & [Ho Hl _] & _). assert (v_end v = v_offset v + v_payload_len v) as Ee by done.
  pose proof (eo_store _ _ O) as S. split; simpl; try done.
  - split; simpl; try apply S. by intros ? [= <-].
  - intros a' [= <-]. splits; [done|lia|]. intros x Hx. apply Hcov in Hx as [Hx|Hx]; [|lia].
    destruct (assembly (e_store e)) as [old|] eqn:Eo.
    + pose proof (K old eq_refl) as Hr. destruct (eo_assembly _ _ O old Eo) as (_ & _ & Hc).
      specialize (Hc x Hx). lia.
    + destruct (eo_missing _ _ O Hp Hpo Eo) as [_ Hn]. by apply Hn in Hx.
  - apply (eo_staged _ _ O).
  - by rewrite Hu.
  - pose proof (eo_fragments _ _ O). unfold kDeviceFragAffinityMaxFragments in *.
    rewrite wrap16_small by word_lia. lia.
Qed.

Lemma stored_charge (cover : coverage_t) (a g : sbuf_t) :
  good a -> good g -> capacity a = capacity g ->
  entry_charge (stored_entry e v cover a) = entry_charge e - assembly_bytes e + sbufGetAllocationCharge g /\
  entry_staged (stored_entry e v cover a) = entry_staged e.
Proof.
  intros Ga Gg Hc. split; [|done]. unfold entry_charge, assembly_bytes. simpl.
  rewrite (charge_good a Ga), (charge_good g Gg), Hc. unfold staged_items. simpl. lia.
Qed.

Lemma stored_table_ok (cover : coverage_t) (a : sbuf_t) :
  entry_ok (policy t) (stored_entry e v cover a) -> good a ->
  retained_bytes t - assembly_bytes e + sbufGetAllocationCharge a <= kDeviceFragAffinityMaxAssemblyBytes ->
  table_ok (replace_entry t i e (stored_entry e v cover a)).
Proof.
  intros Oe Ga Hlim. destruct (stored_charge cover a a Ga Ga eq_refl) as [Ec Es].
  apply replace_ok; auto.
  - by apply (key_kept t T i e Hi).
  - by rewrite Hop.
  - rewrite Ec, Hp. unfold byte_limit. lia.
  - rewrite Es. pose proof (to_total_limit t T). lia.
Qed.

(** Closing a complete datagram. *)
Lemma finish_ok (cover : coverage_t) (a : sbuf_t) (f : Z) :
  let t1 := replace_entry t i e (stored_entry e v cover a) in
  table_ok t1 -> good a -> whole cover f ->
  exists c,
    (l ← finish_header (raw a) (final_end cover);
     let bytes := set_raw a l in
     bytes ← sbufSetLength bytes (20 +32 final_end cover);
     let t := set_counts t1 (retained_bytes t1 -64 sbufGetAllocationCharge bytes) (staged_total t1) in
     t ← put_entry t i zero_entry;
     mret (bytes, t)) = Ok (c, replace_entry t i e zero_entry) /\
    good c /\ 20 + f <= room a /\ payload c = slice 0 (20 + f) (finish_list (raw a) f).
Proof.
  intros t1 T1 Ga [Hk Hw]. assert (has_entry t1 i (stored_entry e v cover a)) as H1 by (by apply replace_has).
  pose proof (entry_is_ok t1 T1 i _ H1) as O1. pose proof (eo_cover _ _ O1) as Wc. simpl in Wc.
  unfold known_end in Hk. destruct (saw_last cover) eqn:Sl; [|done]. injection Hk as Hk.
  destruct (cw_last _ Wc Sl) as [Hf _]. rewrite Hk in *.
  destruct (eo_assembly _ _ O1 a eq_refl) as (_ & H20 & Hroom).
  assert (20 + f <= room a) as Hfit by (specialize (Hroom (f - 1)); simpl in Hroom; rewrite Hw in Hroom; lia).
  pose proof (zlen_raw a Ga) as Zr. pose proof (raw_u8 a Ga) as Ur.
  rewrite finish_header_ok by (auto; lia). step_ok.
  assert (zlen (finish_list (raw a) f) = zlen (raw a)) as Zf by (apply finish_len; auto; lia).
  destruct (set_raw_good a Ga (finish_list (raw a) f)) as [Gs Rs]; [lia|by apply finish_list_u8|].
  unfold kDeviceFragAffinityMaxPayloadEnd in Hf. rewrite wrap32_small by word_lia.
  rewrite set_length_ok; [|apply Gs|lia|unfold room in *; simpl; lia]. step_ok.
  set (c := set_pos_len (set_raw a (finish_list (raw a) f)) (curpos a) (20 + f)).
  assert (good c) as Gc.
  { apply set_pos_len_good; auto; [destruct Ga as [[] _]; lia|lia|unfold room in *; simpl; lia]. }
  change (set_pos_len _ _ _) with c.
  pose proof (entry_charge_bound t1 T1 i _ H1) as Hec.
  destruct (stored_charge cover a a Ga Ga eq_refl) as [Ecs _].
  assert (sbufGetAllocationCharge c = sbufGetAllocationCharge a) as Ecc by (by rewrite !charge_good).
  assert (entry_charge (stored_entry e v cover a) = sbufGetAllocationCharge c) as Ech.
  { rewrite Ecc. unfold entry_charge, stored_entry. cbn [e_store assembly].
    rewrite no_items; [done|]. by apply (eo_staged _ _ O1). }
  assert (entry_staged (stored_entry e v cover a) = 0) as Est by (by apply (eo_staged _ _ O1)).
  pose proof (retained_range t1 T1 i _ H1) as Hr1. unfold kDeviceFragAffinityMaxStagedBytes in Hr1.
  rewrite wrap64_small by word_lia.
  rewrite (put_entry_counts t1 (table_accounts t1 T1) i _ H1 zero_entry).
  - step_ok. exists c. split; [|split; [done|split; [done|]]].
    + do 2 f_equal. unfold t1. apply replace_replace.
    + rewrite payload_raw. change (len c) with (20 + f).
      assert (raw c = finish_list (raw a) f) as -> by exact Rs. done.
  - change (entry_charge zero_entry) with 0. lia.
  - change (entry_staged zero_entry) with 0. lia.
Qed.

Lemma reassemble_ok (cover : coverage_t) :
  coverage_wf cover -> accounted (e_cover e) v kDeviceFragAccountOk cover ->
  exists act res t' pool', offer_reassemble t pool i e cover v b now = Ok (act, res, t', pool') /\
    pool_inv pool' /\ same_geometry pool pool' /\ table_ok t' /\ reassembled cover act res t'.
Proof.
  intros Wc Acc. pose proof (entry_is_ok t T i e Hi) as O. pose proof Cb as (Gb & [Ho Hl He] & Hlen).
  assert (v_end v = v_offset v + v_payload_len v) as Ee by done. fold (v_end v) in He.
  unfold kDeviceFragAffinityMaxPayloadEnd in He. unfold offer_reassemble.
  rewrite (wrap32_small (20 + v_offset v)) by word_lia. rewrite (wrap32_small (20 + v_offset v + v_payload_len v)) by word_lia.
  replace (20 + v_offset v + v_payload_len v) with (20 + v_end v) by lia.
  destruct (grow_assembly_ok t pool T I U i e Hi Hp (20 + v_end v)) as (r & -> & Gr);
    [unfold UINT16_MAX in *; lia|]. step_ok.
  destruct r as [[[g t1] p1]|].
  2: { destruct poison_drop_ok as (p2 & -> & I2 & S2). do 4 eexists. split; [done|]. splits; auto.
       - by apply poison_table_ok.
       - unfold reassembled. splits; auto. }
  destruct Gr as (Gg & Hroom & K & I1 & S1 & -> & Hlim & Hch).
  pose proof Acc as (_ & Hfree & _ & _ & _).
  destruct (store_bytes e v b g Cb Gg Hroom K) as (a & Ea & Ga & Ra & Ka & Sa).
  { intros x Hx Hc. apply Hfree. by exists x. }
  { intros x. apply covered_nonneg, O. }
  apply bind_Ok in Ea as (g1 & -> & Ea). step_ok. apply bind_Ok in Ea as (data & -> & Ea). step_ok.
  rewrite Ea. step_ok. fold (header_known e v). fold (stored_entry e v cover a).
  destruct (stored_charge cover a g Ga Gg Ka) as [Ec Es].
  assert (sbufGetAllocationCharge a = sbufGetAllocationCharge g) as Eag by (by rewrite !charge_good, Ka).
  rewrite (put_entry_counts t (table_accounts t T) i e Hi) by lia. step_ok.
  assert (entry_ok (policy t) (stored_entry e v cover a)) as Oe.
  { apply stored_entry_ok; auto; [lia|]. intros old Eo. rewrite Ra. by apply K. }
  assert (table_ok (replace_entry t i e (stored_entry e v cover a))) as T1.
  { apply stored_table_ok; auto. rewrite Eag. exact Hlim. }
  rewrite (recycle_config t) by apply replace_config.
  destruct (recycle_ok t p1 b U I1 Gb) as (p2 & -> & I2 & S2). step_ok.
  assert (same_geometry pool p2) as S02 by (by trans p1).
  assert (exists o, (if header_known e v then deviceFragAffinityIsComplete cover else mret false) = Ok o /\
    (o = true <-> header_known e v = true /\ exists f, whole cover f)) as (o & -> & Hdone).
  { destruct (header_known e v); [|exists false; split; [done|]; split; [done|by intros [? _]]].
    destruct (complete_spec cover Wc) as (o & -> & Hdone). exists o. split; [done|].
    rewrite Hdone. split; [intros (f & ? & ?); split; [done|by exists f]|intros (_ & f & ? & ?); by exists f]. }
  step_ok. destruct o; cbn [negb].
  - destruct (proj1 Hdone eq_refl) as (Hh & f & Hf).
    destruct (finish_ok cover a f T1 Ga Hf) as (c & Ec' & Gc & Hfit & Hpay).
    apply bind_Ok in Ec' as (l & -> & Ec'). step_ok. apply bind_Ok in Ec' as (bytes & -> & Ec'). step_ok.
    apply bind_Ok in Ec' as (t2 & -> & Ec'). injection Ec' as -> ->. step_ok.
    do 4 eexists. split; [done|]. splits; auto; [by apply vacate_table_ok|].
    split; [done|]. exists f, a, c. splits; auto.
  - do 4 eexists. split; [done|]. splits; auto. unfold reassembled. splits; auto.
    + intros Hx. by apply Hdone in Hx.
    + exists a. splits; auto. intros Hs. rewrite Eag. by apply Hch.
Qed.
End Reassemble.

(** ** Preservation: one accepted fragment *)

Lemma hand_out_ok (slots : list (option sbuf_t)) (items : list sbuf_t) : forall l bytes,
  holds slots (l ++ items) -> Forall good items ->
  0 <= bytes <= UINT64_MAX -> zsum sbufGetAllocationCharge items <= bytes ->
  hand_out slots (zlen l) (length items) bytes = Ok (items, bytes - zsum sbufGetAllocationCharge items).
Proof.
  induction items as [|b items IH]; intros l bytes Hh F Hb Hz; cbn [hand_out length].
  { simpl. by rewrite Z.sub_0_r. }
  apply Forall_cons in F as [Gb F]. rewrite (holds_get _ _ _ _ Hh). step_ok.
  pose proof (charge_range b Gb). pose proof (charges_nonneg items F).
  cbn [zsum foldr] in Hz |- *. fold (zsum sbufGetAllocationCharge items) in *.
  rewrite wrap64_small by lia. replace (zlen l + 1) with (zlen (l ++ [b])) by (rewrite zlen_app; done).
  rewrite IH; auto; try lia; [|by rewrite <- app_assoc]. step_ok. do 2 f_equal. lia.
Qed.

Section Preserve.
Context `{Allocator} {P : Type} `{PL : PoolLaws P}.
Context (t : device_frag_affinity_table_t) (pool : P).
Context (T : table_ok t) (I : pool_inv pool) (U : usable t).
Context (i : Z) (e : device_frag_affinity_entry_t) (Hi : has_entry t i e).
Context (Hp : policy t = kDeviceFragmentPreserve) (Hpo : poisoned e = false) (Hu : in_use e = true).
Context (Hfr : fragments e < kDeviceFragAffinityMaxFragments) (Hop : generation_open t = true).
Context (v : device_frag_view_t) (b : sbuf_t) (Cb : carries b v) (zero : Z * Z) (now : Z).

(** The entry once fragment zero decided the worker. *)
Definition decided (cover : coverage_t) : device_frag_affinity_entry_t :=
  if (v_offset v =? 0) && negb (wid_known e)
  then set_known (set_cover e cover) (fst zero) (snd zero) else set_cover e cover.

Definition preserved (cover : coverage_t) (act : device_frag_affinity_action_t)
    (res : device_frag_affinity_result_t) (t' : device_frag_affinity_table_t) : Prop :=
  match act with
  | kDeviceFragAffinityConsumedDrop =>
      res = zero_result /\ t' = replace_entry t i e (poison_entry e now)
  | kDeviceFragAffinityStaged =>
      res = zero_result /\ wid_known e = false /\ v_offset v <> 0 /\
      exists e', t' = replace_entry t i e e' /\ e_key e' = e_key e /\ in_use e' = true /\
        poisoned e' = false /\ wid_known e' = false /\ e_cover e' = cover /\
        expires_at_ms e' = expires_at_ms e /\
        staged_items (e_store e') = staged_items (e_store e) ++ [b]
  | kDeviceFragAffinityDispatch =>
      let w := if wid_known e then wid e else snd zero in
      (wid_known e = true \/ v_offset v = 0) /\
      res = mk_result (staged_items (e_store e)) w None (Some b) /\
      exists e', t' = replace_entry t i e e' /\ holds_nothing e' /\
        (in_use e' = true -> e_key e' = e_key e /\ wid_known e' = true /\ wid e' = w /\
           poisoned e' = false /\ e_cover e' = cover /\ expires_at_ms e' = expires_at_ms e)
  | _ => False
  end.

Lemma preserve_no_assembly : assembly (e_store e) = None.
Proof.
  pose proof (entry_is_ok t T i e Hi) as O. destruct (assembly (e_store e)) eqn:E; [|done].
  destruct (eo_assembly _ _ O _ E) as [E' _]. congruence.
Qed.

(** An entry of this policy with other staged buffers is sound again. *)
Lemma restaged_ok (e' : device_frag_affinity_entry_t) :
  coverage_wf (e_cover e') -> storage_ok (e_store e') -> assembly (e_store e') = None ->
  in_use e' = true -> 0 <= fragments e' <= kDeviceFragAffinityMaxFragments ->
  entry_ok (policy t) e'.
Proof.
  intros C S Na Iu Fr. split; auto; try congruence.
Qed.

Lemma stage_ok (cover : coverage_t) :
  coverage_wf cover -> wid_known (decided cover) = false ->
  exists act res t' pool', 
    (let s := e_store (decided cover) in
     let charge := sbufGetAllocationCharge b in
     if (staged_count s =? kDeviceFragAffinityMaxStagedPerEntry) ||
        (staged_total t =? kDeviceFragAffinityMaxStaged) ||
        (charge >? (kDeviceFragAffinityMaxStagedBytes -64 retained_bytes t))
     then offer_poison t pool i b now
     else
       slots ← slot_set (staged s) (staged_count s) b;
       let t := set_counts t (retained_bytes t +64 charge) (staged_total t +32 1) in
       t ← put_entry t i (count_fragment
             (set_store (decided cover) (mk_storage (wrap8 (staged_count s + 1)) slots (assembly s))));
       mret (kDeviceFragAffinityStaged, zero_result, t, pool)) = Ok (act, res, t', pool') /\
    pool_inv pool' /\ same_geometry pool pool' /\ table_ok t' /\ preserved cover act res t'.
Proof.
  intros Wc Hk. pose proof (entry_is_ok t T i e Hi) as O. pose proof (eo_store _ _ O) as S.
  pose proof (entry_staged_range _ S) as Hs. unfold entry_staged in Hs.
  pose proof (retained_range t T i e Hi) as Hr. pose proof (entry_staged_bound t T i e Hi) as Ht.
  pose proof (to_total_limit t T) as Htl. pose proof (charge_range b (proj1 Cb)) as Hcr.
  pose proof (eo_fragments _ _ O) as Hf. pose proof preserve_no_assembly as Na.
  assert (wid_known e = false /\ v_offset v <> 0) as [Hw Hv].
  { unfold decided in Hk. destruct (v_offset v =? 0) eqn:E, (wid_known e) eqn:W; simpl in Hk; bool_facts; auto; congruence. }
  assert (decided cover = set_cover e cover) as -> by (unfold decided; by replace (v_offset v =? 0) with false by lia).
  cbv zeta. cbn [e_store set_cover]. destruct (_ || _ || _) eqn:E.
  { destruct (poison_drop_ok t pool T I U i e Hi v b Cb now) as (p2 & -> & I2 & S2).
    do 4 eexists. split; [done|]. splits; auto; [by apply poison_table_ok|]. by split. }
  apply orb_false_elim in E as [E E3]. apply orb_false_elim in E as [E1 E2]. bool_facts.
  unfold kDeviceFragAffinityMaxStagedBytes, kDeviceFragAffinityMaxStaged,
    kDeviceFragAffinityMaxStagedPerEntry, kDeviceFragAffinityMaxFragments in *.
  rewrite wrap64_small in E3 by word_lia. rewrite (wrap64_small (_ + _)) by word_lia.
  rewrite (wrap32_small (_ + 1)) by word_lia. rewrite wrap8_small by (unfold UINT8_MAX; lia).
  destruct (holds_set (staged (e_store e)) (staged_items (e_store e)) b (so_holds _ S)) as (slots & Es & Hh & Zs).
  { rewrite (so_count _ S), (so_slots _ S). unfold kDeviceFragAffinityMaxStagedPerEntry. lia. }
  rewrite (so_count _ S) in Es. rewrite Es. step_ok.
  set (e' := count_fragment _).
  assert (staged_items (e_store e') = staged_items (e_store e) ++ [b]) as Ei.
  { unfold staged_items at 1. apply cached_in_holds; [done|]. rewrite zlen_app, (so_count _ S). done. }
  assert (storage_ok (e_store e')) as S'.
  { split; rewrite ?Ei; simpl; auto.
    - rewrite Zs. apply S.
    - rewrite zlen_app, (so_count _ S). done.
    - apply Forall_app. split; [apply S|]. repeat constructor; apply Cb.
    - by rewrite Na. }
  assert (entry_charge e' = entry_charge e + sbufGetAllocationCharge b) as Ec.
  { unfold entry_charge. rewrite Ei, zsum_app. simpl. rewrite Na. lia. }
  assert (entry_staged e' = entry_staged e + 1) as Est by done.
  assert (entry_ok (policy t) e') as O'.
  { apply restaged_ok; auto. simpl. rewrite wrap16_small by word_lia.
    unfold kDeviceFragAffinityMaxFragments. lia. }
  rewrite (put_entry_counts t (table_accounts t T) i e Hi) by lia. step_ok. do 4 eexists. split; [done|]. splits; auto; try done.
  - apply replace_ok; auto.
    + by apply (key_kept t T i e Hi).
    + by rewrite Hop.
    + rewrite Ec, Hp. unfold byte_limit, kDeviceFragAffinityMaxStagedBytes. lia.
    + rewrite Est. unfold kDeviceFragAffinityMaxStaged. lia.
  - unfold preserved. splits; auto. exists e'. splits; auto.
Qed.

Lemma dispatch_ok (cover : coverage_t) :
  coverage_wf cover -> wid_known (decided cover) = true ->
  exists res t', 
    (let s := e_store (decided cover) in
     '(out, bytes) ← hand_out (staged s) 0 (Z.to_nat (staged_count s)) (retained_bytes t);
     let t := set_counts t bytes (staged_total t -32 staged_count s) in
     let candidate := count_fragment (set_store (decided cover) (mk_storage 0 (staged s) (assembly s))) in
     complete ← deviceFragAffinityIsComplete cover;
     t ← put_entry t i (if (complete : bool) then zero_entry else candidate);
     mret (kDeviceFragAffinityDispatch, mk_result out (wid candidate) None (Some b), t, pool)) =
      Ok (kDeviceFragAffinityDispatch, res, t', pool) /\
    table_ok t' /\ preserved cover kDeviceFragAffinityDispatch res t'.
Proof.
  intros Wc Hk. pose proof (entry_is_ok t T i e Hi) as O. pose proof (eo_store _ _ O) as S.
  pose proof (retained_range t T i e Hi) as Hr. pose proof (entry_staged_bound t T i e Hi) as Ht.
  pose proof (to_total_limit t T) as Htl. pose proof (entry_charge_bound t T i e Hi) as Hc.
  pose proof (eo_fragments _ _ O) as Hf. pose proof preserve_no_assembly as Na.
  unfold kDeviceFragAffinityMaxStagedBytes, kDeviceFragAffinityMaxStaged, kDeviceFragAffinityMaxFragments in *.
  assert (e_store (decided cover) = e_store e) as -> by (unfold decided; by case_match).
  cbv zeta. unfold entry_charge in Hc. rewrite Na in Hc.
  assert (Z.to_nat (staged_count (e_store e)) = length (staged_items (e_store e))) as ->
    by (rewrite <- (so_count _ S) at 1; unfold zlen; lia).
  pose proof (hand_out_ok (staged (e_store e)) (staged_items (e_store e)) [] (retained_bytes t)
    (so_holds _ S) (so_good _ S)) as Ho. change (zlen []) with 0 in Ho. rewrite Ho by word_lia. step_ok.
  unfold entry_staged in Ht. rewrite (wrap32_small (_ - _)) by word_lia.
  destruct (complete_spec cover Wc) as (o & -> & _). step_ok.
  set (e1 := count_fragment _).
  set (e' := if o then zero_entry else e1).
  assert (holds_nothing e1) as N1 by (split; [done|exact Na]).
  assert (holds_nothing e') as Ne by (unfold e'; by destruct o).
  destruct (holds_nothing_charge e' Ne) as [Ec Es].
  rewrite (put_entry_counts t (table_accounts t T) i e Hi e');
    [|unfold entry_charge at 1; rewrite Na; lia|unfold entry_staged at 1; lia].
  step_ok. do 2 eexists. split; [done|].
  assert (entry_ok (policy t) e1) as O1.
  { apply restaged_ok; try done.
    - by unfold e1, decided; case_match.
    - split; simpl; try done; [apply S|apply holds_nil|by rewrite Na].
    - unfold e1, decided. case_match; exact Hu.
    - assert (fragments e1 = fragments e + 1) as ->.
      { unfold e1, decided. simpl. case_match; simpl; by rewrite wrap16_small by word_lia. }
      unfold kDeviceFragAffinityMaxFragments. lia. }
  assert (entry_ok (policy t) e') as Oe by (unfold e'; destruct o; [apply zero_entry_ok|exact O1]).
  split.
  - apply replace_ok; auto.
    + unfold e'. destruct o; [by intros ?|]. apply (key_kept t T i e Hi); auto.
      unfold e1, decided. by case_match.
    + by rewrite Hop.
    + rewrite Ec. pose proof (to_limit t T). unfold entry_charge. rewrite Na. lia.
    + rewrite Es. unfold entry_staged, kDeviceFragAffinityMaxStaged. lia.
  - unfold preserved. unfold decided in Hk. splits.
    + destruct (v_offset v =? 0) eqn:E, (wid_known e) eqn:W; simpl in Hk; bool_facts; auto; congruence.
    + f_equal. unfold e1, decided.
      destruct (v_offset v =? 0) eqn:E, (wid_known e) eqn:W; simpl in Hk |- *; auto; congruence.
    + exists e'. splits; auto. unfold e'. destruct o; [done|]. intros _. unfold e1, decided.
      destruct (v_offset v =? 0) eqn:E, (wid_known e) eqn:W; simpl in Hk |- *; splits; auto; congruence.
Qed.

Lemma preserve_ok (cover : coverage_t) :
  coverage_wf cover ->
  exists act res t' pool', offer_preserve t pool i e cover v zero b now = Ok (act, res, t', pool') /\
    pool_inv pool' /\ same_geometry pool pool' /\ table_ok t' /\ preserved cover act res t'.
Proof.
  intros Wc. unfold offer_preserve. fold (decided cover). cbv zeta.
  destruct (wid_known (decided cover)) eqn:Hk; cbn [negb].
  - destruct (dispatch_ok cover Wc Hk) as (res & t' & E & T' & Pr). do 4 eexists. split; [exact E|].
    splits; auto. done.
  - by apply stage_ok.
Qed.
End Preserve.

(** ** One offer *)

Section Offered.
Context `{Allocator} {P : Type} `{PL : PoolLaws P} (workers_count : Z).

(** The view belongs to the bytes of the buffer: acceptable as it stands, or
    known to be malformed. *)
Definition parsed_view (b : sbuf_t) (parsed : device_frag_parse_result_t)
    (v : device_frag_view_t) : Prop :=
  good b /\ 20 <= len b /\
  match parsed with
  | kDeviceFragParseNotFragment => False
  | kDeviceFragParseInvalid => True
  | kDeviceFragParseValid => carries b v
  end.

(** Why an entry is given up. *)
Definition refuses (e : device_frag_affinity_entry_t) (pol : device_fragment_policy_t)
    (v : device_frag_view_t) (parsed : device_frag_parse_result_t) (b : sbuf_t) : Prop :=
  parsed = kDeviceFragParseInvalid \/ fragments e = kDeviceFragAffinityMaxFragments \/
  (pol = kDeviceFragmentPreserve /\ v_offset v = 0 /\
     match whole_hash workers_count b with
     | None => True
     | Some (h, _) => wid_known e = true /\ zero_flow_hash e <> h
     end) \/
  contradicts (e_cover e) v \/ range_count (e_cover e) = kDeviceFragAffinityMaxRanges \/
  (meets (e_cover e) v /\ v_offset v = 0 /\ wid_known e = false).

(** What an offer does to the entry of its datagram. *)
Inductive offered (t : device_frag_affinity_table_t) (i : Z) (e : device_frag_affinity_entry_t)
    (v : device_frag_view_t) (parsed : device_frag_parse_result_t) (b : sbuf_t) (now : Z)
  : device_frag_affinity_action_t -> device_frag_affinity_result_t ->
    device_frag_affinity_table_t -> Prop :=
  | offered_poisoned :
      poisoned e = true ->
      offered t i e v parsed b now kDeviceFragAffinityConsumedDrop zero_result t
  | offered_duplicate :
      poisoned e = false -> meets (e_cover e) v ->
      offered t i e v parsed b now kDeviceFragAffinityConsumedDrop zero_result t
  | offered_refused :
      poisoned e = false -> refuses e (policy t) v parsed b ->
      offered t i e v parsed b now kDeviceFragAffinityConsumedDrop zero_result
        (replace_entry t i e (poison_entry e now))
  | offered_reassembled cover act res t' :
      poisoned e = false -> parsed = kDeviceFragParseValid ->
      policy t = kDeviceFragmentReassemble -> coverage_wf cover ->
      accounted (e_cover e) v kDeviceFragAccountOk cover ->
      reassembled t i e v b now cover act res t' ->
      offered t i e v parsed b now act res t'
  | offered_preserved cover zero act res t' :
      poisoned e = false -> parsed = kDeviceFragParseValid ->
      policy t = kDeviceFragmentPreserve -> coverage_wf cover ->
      accounted (e_cover e) v kDeviceFragAccountOk cover ->
      (v_offset v = 0 -> whole_hash workers_count b = Some zero /\
         (wid_known e = true -> zero_flow_hash e = fst zero)) ->
      preserved t i e v b zero now cover act res t' ->
      offered t i e v parsed b now act res t'.

Section Entry.
Context (t : device_frag_affinity_table_t) (pool : P).
Context (T : table_ok t) (I : pool_inv pool) (U : usable t) (Hop : generation_open t = true).
Context (i : Z) (e : device_frag_affinity_entry_t) (Hi : has_entry t i e) (Hu : in_use e = true).
Context (v : device_frag_view_t) (b : sbuf_t) (now : Z).

Lemma drop_ok :
  good b -> exists pool', offer_drop t pool b = Ok (kDeviceFragAffinityConsumedDrop, zero_result, t, pool') /\
    pool_inv pool' /\ same_geometry pool pool'.
Proof.
  intros G. unfold offer_drop. destruct (recycle_ok t pool b U I G) as (p1 & -> & I1 & S1). by exists p1.
Qed.

Lemma give_up_ok :
  good b ->
  exists pool', offer_poison t pool i b now =
    Ok (kDeviceFragAffinityConsumedDrop, zero_result, replace_entry t i e (poison_entry e now), pool') /\
    pool_inv pool' /\ same_geometry pool pool' /\ table_ok (replace_entry t i e (poison_entry e now)).
Proof.
  intros G. unfold offer_poison, offer_drop.
  destruct (poison_spec t pool i e now (table_accounts t T) I Hi) as (p1 & -> & I1 & S1). step_ok.
  rewrite (recycle_config t) by apply replace_config.
  destruct (recycle_ok t p1 b U I1 G) as (p2 & -> & I2 & S2). step_ok.
  exists p2. splits; auto; [by trans p1|by apply poison_table_ok].
Qed.

(** The hash of a first fragment, when the policy asks for it. *)
Lemma zero_hash_ok :
  good b -> 20 <= len b ->
  exists bad zero,
    (if bool_decide (policy t = kDeviceFragmentPreserve) && (v_offset v =? 0) then
       '(h, b) ← deviceFragAffinityHashAsWhole workers_count b;
       match h with
       | None => mret (true, (0, 0), b)
       | Some (hash, w) => mret (wid_known e && negb (zero_flow_hash e =? hash), (hash, w), b)
       end
     else mret (false, (0, 0), b)) = Ok (bad, zero, b) /\
    (bad = true -> forall parsed, refuses e (policy t) v parsed b) /\
    (bad = false -> policy t = kDeviceFragmentPreserve -> v_offset v = 0 ->
       whole_hash workers_count b = Some zero /\ (wid_known e = true -> zero_flow_hash e = fst zero)).
Proof.
  intros G Hl. destruct (bool_decide _ && _) eqn:E.
  - apply andb_prop in E as [Epol Ev]. apply bool_decide_eq_true in Epol. apply Z.eqb_eq in Ev.
    rewrite hash_as_whole_spec by done. step_ok.
    destruct (whole_hash workers_count b) as [[h w]|] eqn:Eh.
    + do 2 eexists. split; [done|]. split.
      * intros Hb parsed. bool_facts. right; right; left. splits; auto. by rewrite Eh.
      * intros Hb _ _. split; [done|]. intros Hw. rewrite Hw in Hb. cbn [andb] in Hb. by bool_facts.
    + do 2 eexists. split; [done|]. split; [|done]. intros _ parsed. right; right; left.
      splits; auto. by rewrite Eh.
  - exists false, (0, 0). split; [done|]. split; [done|]. intros _ Hp Hv.
    rewrite bool_decide_eq_true_2 in E by done. rewrite Hv in E. done.
Qed.

Lemma offer_entry_ok (parsed : device_frag_parse_result_t) :
  parsed_view b parsed v ->
  exists act res t' pool', offer_entry workers_count t pool i v parsed b now = Ok (act, res, t', pool') /\
    pool_inv pool' /\ same_geometry pool pool' /\ table_ok t' /\
    offered t i e v parsed b now act res t'.
Proof.
  intros (G & Hl & Hv). destruct (drop_ok G) as (pd & Ed & Id & Sd).
  destruct (give_up_ok G) as (pp & Ep & Ip & Sp & Tp). unfold offer_entry.
  assert (forall P', refuses e (policy t) v parsed b -> poisoned e = false -> P' = Ok (kDeviceFragAffinityConsumedDrop, zero_result, replace_entry t i e (poison_entry e now), pp) ->
    exists act res t' pool', P' = Ok (act, res, t', pool') /\ pool_inv pool' /\ same_geometry pool pool' /\ table_ok t' /\
    offered t i e v parsed b now act res t') as GiveUp.
  { intros P' Hr Hpo ->. do 4 eexists. split; [done|]. splits; auto. by constructor. }
  rewrite (get_entry_ok t i e Hi). step_ok. destruct (poisoned e) eqn:Hpo.
  { rewrite Ed. do 4 eexists. split; [done|]. splits; auto. by constructor. }
  destruct (_ || _) eqn:E1.
  { apply GiveUp; auto. apply orb_true_iff in E1 as [E1|E1]; bool_facts; [|by right; left].
    left. by destruct parsed. }
  assert (parsed = kDeviceFragParseValid) as -> by (by destruct parsed).
  simpl in Hv. bool_facts. pose proof (entry_is_ok t T i e Hi) as O. pose proof (eo_fragments _ _ O).
  destruct (zero_hash_ok G Hl) as (bad & zero & -> & Hbad & Hz). step_ok. destruct bad.
  { apply GiveUp; auto. }
  destruct (account_spec (e_cover e) v (eo_cover _ _ O) (proj1 (proj2 Hv))) as (r & c & -> & Wc & Acc). step_ok.
  destruct r; simpl in Acc.
  - destruct (to_policy t T) as [Hp|Hp].
    + rewrite bool_decide_eq_true_2 by done.
      destruct (reassemble_ok t pool T I U i e Hi Hp Hpo Hu ltac:(lia) Hop v b Hv now c Wc Acc)
        as (act & res & t' & p' & E & Ip' & Sp' & T' & R).
      do 4 eexists. split; [exact E|]. splits; auto. by apply (offered_reassembled _ _ _ _ _ _ _ c).
    + rewrite bool_decide_eq_false_2 by (by rewrite Hp).
      destruct (preserve_ok t pool T I U i e Hi Hp Hpo Hu ltac:(lia) Hop v b Hv zero now c Wc)
        as (act & res & t' & p' & E & Ip' & Sp' & T' & R).
      do 4 eexists. split; [exact E|]. splits; auto. apply (offered_preserved _ _ _ _ _ _ _ c zero); auto.
  - destruct Acc as (_ & _ & Hm). destruct (_ && _) eqn:E2.
    + bool_facts. apply GiveUp; auto. unfold refuses. auto 10.
    + rewrite Ed. do 4 eexists. split; [done|]. splits; auto. by apply offered_duplicate.
  - apply GiveUp; auto. unfold refuses. destruct Acc. auto 10.
  - apply GiveUp; auto. unfold refuses. destruct Acc as (_ & _ & _ & ?). auto 10.
Qed.
End Entry.
End Offered.

(** ** Looking an entry up *)

Lemma find_entry_spec (key : frag_key) (l : list device_frag_affinity_entry_t) : forall i free r f,
  0 <= i -> find_entry l key i free = (r, f) ->
  match r with
  | Some k => exists e, i <= k /\ l !! Z.to_nat (k - i) = Some e /\ in_use e = true /\ e_key e = key
  | None => (forall j e, l !! j = Some e -> in_use e = true -> e_key e <> key) /\
      match f with
      | Some k => free = Some k \/
          exists e, i <= k /\ l !! Z.to_nat (k - i) = Some e /\ in_use e = false
      | None => free = None /\ Forall (fun e => in_use e = true) l
      end
  end.
Proof.
  induction l as [|c l IH]; intros i free r f Hi E; cbn [find_entry] in E.
  { injection E as <- <-. split; [by intros j e ?|]. destruct free; auto. }
  destruct (in_use c) eqn:Uc; cbn [negb] in E.
  - destruct (bool_decide (e_key c = key)) eqn:Ek.
    + injection E as <- <-. apply bool_decide_eq_true in Ek. exists c. rewrite Z.sub_diag. splits; auto. lia.
    + apply bool_decide_eq_false in Ek. apply (IH (i + 1)) in E; [|lia]. destruct r as [k|].
      * destruct E as (e & Hk & Hl & ?). exists e. splits; try tauto; [lia|].
        replace (Z.to_nat (k - i)) with (S (Z.to_nat (k - (i + 1)))) by lia. done.
      * destruct E as [Hn Hf]. split.
        { intros [|j] e Hj Hue; [by injection Hj as <-|by apply (Hn j e)]. }
        destruct f as [k|]; [|destruct Hf as [-> Hf]; auto].
        destruct Hf as [->|(e & Hk & Hl & ?)]; [by left|right]. exists e. splits; auto; [lia|].
        replace (Z.to_nat (k - i)) with (S (Z.to_nat (k - (i + 1)))) by lia. done.
  - apply (IH (i + 1)) in E; [|lia]. destruct r as [k|].
    + destruct E as (e & Hk & Hl & ?). exists e. splits; try tauto; [lia|].
      replace (Z.to_nat (k - i)) with (S (Z.to_nat (k - (i + 1)))) by lia. done.
    + destruct E as [Hn Hf]. split.
      { intros [|j] e Hj Hue; [injection Hj as <-; congruence|by apply (Hn j e)]. }
      destruct f as [k|]; [|by destruct free as [?|], Hf].
      destruct Hf as [Hf|(e & Hk & Hl & ?)].
      * destruct free as [k'|]; [by left; injection Hf as ->|]. injection Hf as <-. right.
        exists c. rewrite Z.sub_diag. splits; auto. lia.
      * right. exists e. splits; auto; [lia|].
        replace (Z.to_nat (k - i)) with (S (Z.to_nat (k - (i + 1)))) by lia. done.
Qed.

Definition absent (key : frag_key) (t : device_frag_affinity_table_t) : Prop :=
  forall j e, entries t !! j = Some e -> in_use e = true -> e_key e <> key.

Section Locked.
Context `{Allocator} {P : Type} `{PL : PoolLaws P} (workers_count : Z).

(** The entry an offer works on: the one that serves its datagram, or a free
    slot made fresh for it. *)
Definition serves (t1 : device_frag_affinity_table_t) (key : frag_key) (now : Z)
    (t2 : device_frag_affinity_table_t) (i : Z) (e : device_frag_affinity_entry_t) : Prop :=
  has_entry t2 i e /\ in_use e = true /\ e_key e = key /\
  (t2 = t1 \/
   exists old, has_entry t1 i old /\ in_use old = false /\ absent key t1 /\
     e = fresh_entry key (now +64 kDeviceFragAffinityTimeoutMs) /\ t2 = replace_entry t1 i old e).

Inductive locked (t : device_frag_affinity_table_t) (v : device_frag_view_t)
    (parsed : device_frag_parse_result_t) (b : sbuf_t) (now : Z)
  : device_frag_affinity_action_t -> device_frag_affinity_result_t ->
    device_frag_affinity_table_t -> Prop :=
  | locked_closed :
      generation_open t = false ->
      locked t v parsed b now kDeviceFragAffinityConsumedDrop zero_result t
  | locked_full t1 :
      generation_open t = true -> entries t1 = swept now <$> entries t -> same_config t t1 ->
      Forall (fun e => in_use e = true) (entries t1) -> absent (view_key v) t1 ->
      locked t v parsed b now kDeviceFragAffinityConsumedDrop zero_result t1
  | locked_entry t1 t2 i e act res t' :
      generation_open t = true -> entries t1 = swept now <$> entries t -> same_config t t1 ->
      table_ok t1 -> table_ok t2 -> same_config t t2 -> serves t1 (view_key v) now t2 i e ->
      offered workers_count t2 i e v parsed b now act res t' ->
      locked t v parsed b now act res t'.

Lemma fresh_table_ok (t : device_frag_affinity_table_t) (i : Z) (old : device_frag_affinity_entry_t)
    (key : frag_key) (expires : Z) :
  table_ok t -> generation_open t = true -> has_entry t i old -> in_use old = false -> absent key t ->
  put_entry t i (fresh_entry key expires) = Ok (replace_entry t i old (fresh_entry key expires)) /\
  table_ok (replace_entry t i old (fresh_entry key expires)).
Proof.
  intros T Ho Hi Hu Ha. pose proof (entry_is_ok t T i old Hi) as O.
  destruct (holds_nothing_charge old (eo_free _ _ O Hu)) as [Ec Es].
  split; [apply put_entry_same; auto using table_accounts|]. apply replace_ok; auto using fresh_entry_ok.
  - intros _ j x Hj _ Hx. simpl. by apply (Ha j).
  - by rewrite Ho.
  - by right.
  - rewrite Ec. change (entry_charge (fresh_entry key expires)) with 0. pose proof (to_limit t T). lia.
  - rewrite Es. change (entry_staged (fresh_entry key expires)) with 0. pose proof (to_total_limit t T). lia.
Qed.

Lemma offered_config t i e v parsed b now act res t' :
  offered workers_count t i e v parsed b now act res t' -> same_config t t'.
Proof.
  intros Of. inversion Of as [| | |cover a r t1 _ _ _ _ _ R|cover z a r t1 _ _ _ _ _ _ R]; subst; try done.
  - destruct act; simpl in R; try done.
    + destruct R as (_ & _ & a & _ & _ & -> & _). done.
    + by destruct R as (_ & -> & _).
    + by destruct R as (_ & f & a & c & _ & _ & _ & _ & _ & _ & _ & ->).
  - destruct act; simpl in R; try done.
    + by destruct R as (_ & _ & e' & -> & _).
    + by destruct R as (_ & _ & _ & e' & -> & _).
    + by destruct R as (_ & ->).
Qed.

Lemma offer_locked_ok (t : device_frag_affinity_table_t) (pool : P) (v : device_frag_view_t)
    (parsed : device_frag_parse_result_t) (b : sbuf_t) (now : Z) :
  table_ok t -> pool_inv pool -> usable t -> parsed_view b parsed v ->
  exists act res t' pool',
    deviceFragOfferLocked workers_count t pool v parsed b now = Ok (act, res, t', pool') /\
    pool_inv pool' /\ same_geometry pool pool' /\ table_ok t' /\ same_config t t' /\
    locked t v parsed b now act res t'.
Proof.
  intros T I U Hv. pose proof Hv as (G & Hl & _). unfold deviceFragOfferLocked.
  destruct (generation_open t) eqn:Ho; cbn [negb].
  2: { destruct (drop_ok t pool I U b G) as (p1 & -> & I1 & S1). do 4 eexists. split; [done|].
       splits; auto; [done|]. by constructor. }
  destruct (sweep_ok t pool now T I) as (t1 & p1 & -> & T1 & C1 & I1 & S1 & E1). step_ok.
  assert (usable t1) as U1 by (destruct C1 as (Ca & Cb & _); unfold usable; by rewrite Ca, Cb).
  assert (generation_open t1 = true) as Ho1 by (destruct C1 as (_ & _ & _ & Cg & _); congruence).
  assert (forall t2 i e, table_ok t2 -> same_config t1 t2 -> serves t1 (view_key v) now t2 i e ->
    exists act res t' pool',
    offer_entry workers_count t2 p1 i v parsed b now = Ok (act, res, t', pool') /\
    pool_inv pool' /\ same_geometry pool pool' /\ table_ok t' /\ same_config t t' /\
    locked t v parsed b now act res t') as Go.
  { intros t2 i e T2 C2 Sv. pose proof Sv as (Hi & Hue & _).
    assert (usable t2) as U2 by (destruct C2 as (Ca & Cb & _); unfold usable; by rewrite Ca, Cb).
    assert (generation_open t2 = true) as Ho2 by (destruct C2 as (_ & _ & _ & Cg & _); congruence).
    assert (same_config t t2) as C02 by (by trans t1).
    destruct (offer_entry_ok workers_count t2 p1 T2 I1 U2 Ho2 i e Hi Hue v b now parsed Hv)
      as (act & res & t' & p' & E & I' & S' & T' & Of).
    do 4 eexists. split; [exact E|]. splits; auto; [by trans p1|trans t2; [done|by eapply offered_config]|].
    by apply (locked_entry t v parsed b now t1 t2 i e). }
  pose proof (to_length t1 T1) as Lt. unfold zlen, kDeviceFragAffinityMaxEntries in Lt.
  destruct (find_entry (entries t1) (view_key v) 0 None) as [r f] eqn:Ef.
  apply find_entry_spec in Ef; [|lia]. destruct r as [k|].
  - destruct Ef as (e & Hk & He & Hue & Hke). rewrite Z.sub_0_r in He. apply Go with (e := e); auto; [done|].
    apply lookup_lt_Some in He as Hlt. split; [split; [unfold kDeviceFragAffinityMaxEntries; lia|done]|]. auto.
  - destruct Ef as [Ha Hf]. destruct f as [k|].
    + destruct Hf as [?|(old & Hk & He & Hue)]; [done|]. rewrite Z.sub_0_r in He.
      apply lookup_lt_Some in He as Hlt.
      assert (has_entry t1 k old) as Hi by (split; [unfold kDeviceFragAffinityMaxEntries; lia|done]).
      destruct (fresh_table_ok t1 k old (view_key v) (now +64 kDeviceFragAffinityTimeoutMs) T1 Ho1 Hi Hue Ha)
        as [Ep T2]. unfold fresh_entry in Ep at 1. rewrite Ep. step_ok.
      apply Go with (e := fresh_entry (view_key v) (now +64 kDeviceFragAffinityTimeoutMs)); auto; [done|].
      split; [by apply replace_has|]. splits; auto. right. exists old. splits; auto.
    + destruct Hf as [_ Hf]. destruct (drop_ok t1 p1 I1 U1 b G) as (p2 & -> & I2 & S2).
      do 4 eexists. split; [done|]. splits; auto; [by trans p1|]. by apply locked_full.
Qed.

(** A buffer is offered together with its own bytes. *)
Lemma offer_ok (t : device_frag_affinity_table_t) (pool : P) (b : sbuf_t) (now : Z) :
  table_ok t -> pool_inv pool -> usable t -> good b ->
  exists act res t' pool',
    deviceFragAffinityOffer workers_count (Some t) pool (Some (raw b)) (len b) b now =
      Ok (act, res, Some t', pool') /\
    pool_inv pool' /\ same_geometry pool pool' /\ table_ok t' /\ same_config t t' /\
    ((act = kDeviceFragAffinityNotFragment /\ ~ is_frag (raw b) (len b) /\ t' = t /\ input res = Some b) \/
     exists parsed v, parsed_as (raw b) (len b) (trusted_ipv4_header t) parsed v /\
       parsed_view b parsed v /\ locked t v parsed b now act res t').
Proof.
  intros T I U G. unfold deviceFragAffinityOffer. pose proof (room_nonneg b G) as Hr.
  destruct (parse_spec (raw b) (len b) (trusted_ipv4_header t) (raw_u8 b G)) as (r & v & -> & Hp);
    [rewrite zlen_raw by done; lia|]. step_ok.
  destruct r; [do 4 eexists; split; [done|]; splits; auto; try done; left; splits; auto| |].
  - simpl in Hp. rewrite assert_bind by exact U.
    assert (parsed_view b kDeviceFragParseInvalid v) as Hv by (destruct Hp as ((? & _) & _); by split).
    destruct (offer_locked_ok t pool v kDeviceFragParseInvalid b now T I U Hv)
      as (act & res & t' & p' & -> & ? & ? & ? & ? & ?). step_ok.
    do 4 eexists. split; [done|]. splits; auto. right. exists kDeviceFragParseInvalid, v. auto.
  - simpl in Hp. rewrite assert_bind by exact U. destruct Hp as ((H20 & Hf) & Hok & ->).
    assert (parsed_view b kDeviceFragParseValid (view_of (raw b) (len b))) as Hv.
    { split; [done|]. split; [done|]. split; [done|].
      split; [apply (frag_view_wf _ _ (trusted_ipv4_header t)); auto using raw_u8|simpl; lia]. }
    destruct (offer_locked_ok t pool _ kDeviceFragParseValid b now T I U Hv)
      as (act & res & t' & p' & -> & ? & ? & ? & ? & ?). step_ok.
    do 4 eexists. split; [done|]. splits; auto. right. do 2 eexists. splits; [|exact Hv|eassumption].
    simpl. splits; auto. done.
Qed.
End Locked.
