(* ===== verification/FragLife.v ===== *)
(** * The life of a fragment table ([ww/devices/device_frag_affinity.c])

    Every sequence of calls on a table: creation, generations, offers, release
    and destruction.  The accounts hold after each of them and none faults. *)

From Stdlib Require Import ZArith Lia.
From stdpp Require Import base numbers option list.
From S2P Require Import Prelude ShiftBuffer Endian PoolInterface BufferPool PacketChecksum FlowHash.
From S2P Require Import FragRanges FragAffinity FragInvariant FragOffer.
Open Scope Z_scope.
Open Scope word_scope.

Section Life.
Context `{Allocator} {P : Type} `{PL : PoolLaws P} (workers_count : Z).
Implicit Types (t : device_frag_affinity_table_t) (pool : P).

(** ** Creation and generations *)

Lemma create_table_ok (pool_set : bool) pol (sh : bool) padding resources t :
  u16 padding -> deviceFragCreate pool_set pol sh padding resources = Some t ->
  table_ok t /\ usable t /\ generation_open t = true.
Proof.
  intros Hp E. unfold deviceFragCreate in E. destruct (_ && _) eqn:E1 in E; [done|].
  destruct (negb pool_set && negb sh) eqn:E2; [done|]. destruct resources; [|done]. cbv iota beta delta [negb] in E.
  apply (inj Some) in E as <-.
  set (n := Z.to_nat kDeviceFragAffinityMaxEntries).
  assert (forall f, f zero_entry = 0 -> zsum f (replicate n zero_entry) = 0) as Z0
    by (intros f ?; by apply zsum_replicate).
  assert (Forall holds_nothing (replicate n zero_entry)) as N by (by apply Forall_replicate).
  split; [|split; [unfold usable; cbn [shared release_pool]; by destruct pool_set, sh|done]].
  split; cbn [entries policy retained_bytes staged_total shared_padding generation_open].
  - unfold zlen. rewrite length_replicate. unfold n, kDeviceFragAffinityMaxEntries. lia.
  - apply Forall_replicate, zero_entry_ok.
  - symmetry. by apply Z0.
  - by destruct pol.
  - symmetry. by apply Z0.
  - unfold kDeviceFragAffinityMaxStaged. lia.
  - destruct pol; auto. done.
  - done.
  - done.
  - intros i j a b Ha _ Hu. apply lookup_replicate in Ha as [-> _]. done.
  - by right.
Qed.

Lemma create_entries (pool_set : bool) pol (sh : bool) padding resources t :
  deviceFragCreate pool_set pol sh padding resources = Some t -> Forall (fun e => e = zero_entry) (entries t).
Proof.
  intros E. unfold deviceFragCreate in E. repeat case_match; try done. apply (inj Some) in E as <-.
  by apply Forall_replicate.
Qed.

Lemma end_entry_same now e :
  e_key (end_entry now e) = e_key e /\ in_use (end_entry now e) = in_use e /\
  e_store (end_entry now e) = e_store e /\ e_cover (end_entry now e) = e_cover e /\
  (in_use e = true -> poisoned (end_entry now e) = true) /\ fragments (end_entry now e) = fragments e /\
  wid_known (end_entry now e) = wid_known e /\ (poisoned (end_entry now e) = false -> poisoned e = false).
Proof. unfold end_entry. destruct (in_use e) eqn:U, (poisoned e) eqn:Hp; splits; auto; cbn; congruence. Qed.

Lemma end_entry_ok pol now e : entry_ok pol e -> entry_ok pol (end_entry now e).
Proof.
  intros [C S A M St Fr Fg]. pose proof (end_entry_same now e) as (_ & Eu & Es & Ec & _ & Ef & Ew & Hp).
  split; rewrite ?Eu, ?Es, ?Ec, ?Ef, ?Ew; auto.
  unfold holds_nothing. by rewrite Es.
Qed.

Lemma end_generation_ok t now : table_ok t -> table_ok (deviceFragAffinityEndGeneration t now).
Proof.
  intros [Hl He Hb Hm Ht Htm Hp Hpad _ Hk Hu].
  assert (forall e, e_store (end_entry now e) = e_store e) as Es by (intros e; apply (end_entry_same now e)).
  split; simpl; auto.
  - unfold zlen. by rewrite length_fmap.
  - apply Forall_fmap. eapply Forall_impl; [eassumption|]. intros e O. by apply end_entry_ok.
  - rewrite (zsum_fmap entry_charge); [done|]. intros e. unfold entry_charge. by rewrite Es.
  - rewrite (zsum_fmap entry_staged); [done|]. intros e. unfold entry_staged. by rewrite Es.
  - intros _. apply Forall_fmap, Forall_true. intros e. simpl. rewrite (proj1 (proj2 (end_entry_same now e))).
    apply (end_entry_same now e).
  - intros i j a b Ha Hb' Hua Hub Hkey. rewrite list_lookup_fmap in Ha, Hb'.
    destruct (entries t !! i) as [a'|] eqn:Ea; [|done]. destruct (entries t !! j) as [b'|] eqn:Eb; [|done].
    injection Ha as <-. injection Hb' as <-.
    pose proof (end_entry_same now a') as (Ka & Ua & _). pose proof (end_entry_same now b') as (Kb & Ub & _).
    apply (Hk i j a' b'); congruence.
  - destruct Hu as [U|U]; [by left|right]. apply Forall_fmap.
    eapply Forall_impl; [exact U|]. intros e N. unfold holds_nothing. simpl. by rewrite Es.
Qed.

Lemma begin_generation_ok t : table_ok t -> table_ok (deviceFragAffinityBeginGeneration t).
Proof. intros []. split; simpl; auto. done. Qed.

Lemma enable_shared_ok t padding :
  table_ok t -> u16 padding ->
  table_ok (mk_table (release_pool t) true padding (generation_open t) (trusted_ipv4_header t)
    (policy t) (retained_bytes t) (staged_total t) (entries t)).
Proof. intros [] Hp. split; simpl; auto. by left. Qed.

Lemma trust_ok t :
  table_ok t ->
  table_ok (mk_table (release_pool t) (shared t) (shared_padding t) (generation_open t) true
    (policy t) (retained_bytes t) (staged_total t) (entries t)).
Proof. intros []. by split. Qed.

(** ** Tearing down *)

Lemma release_loop_ok n : forall t pool i,
  accounts_ok t -> pool_inv pool -> 0 <= i -> i + Z.of_nat n <= kDeviceFragAffinityMaxEntries ->
  exists t' pool',
    release_loop t pool i n = Ok (t', pool') /\ accounts_ok t' /\ same_config t t' /\
    pool_inv pool' /\ same_geometry pool pool' /\
    forall j, entries t' !! j =
      (if decide (Z.to_nat i <= j < Z.to_nat i + n)%nat then released_entry <$> entries t !! j
       else entries t !! j).
Proof.
  induction n as [|n IH]; intros t pool i A I Hi Hn; cbn [release_loop].
  { exists t, pool. splits; auto; try done. intros j. rewrite decide_False by lia. done. }
  assert (exists e, has_entry t i e) as (e & He).
  { pose proof (ao_length t A) as L. destruct (lookup_lt_is_Some_2 (entries t) (Z.to_nat i)) as [e E].
    - unfold zlen in L. lia.
    - exists e. split; [lia|done]. }
  destruct (release_storage_ok t pool i e A I He) as (p1 & -> & I1 & S1). step_ok.
  assert (accounts_ok (replace_entry t i e (released_entry e))) as A1.
  { apply vacated_accounts; auto; [|done]. pose proof (held_storage_ok t A i e He) as S.
    split; simpl; try done; [apply S|apply holds_nil]. }
  destruct (IH (replace_entry t i e (released_entry e)) p1 (i + 1)) as (t2 & p2 & E2 & T2 & C2 & I2 & S2 & L2);
    auto; try lia.
  exists t2, p2. splits; auto; [by trans p1|]. intros j. rewrite L2. simpl. destruct He as [Hr Ee].
  destruct (decide (j = Z.to_nat i)) as [->|Hne].
  - rewrite decide_False by lia. rewrite decide_True by lia.
    rewrite list_lookup_insert_eq by (by apply lookup_lt_Some in Ee). by rewrite Ee.
  - rewrite list_lookup_insert_ne by done. do 2 case_decide; auto; lia.
Qed.

(** Everything goes back, whatever state the entries are in. *)
Lemma release_staged_buffers_ok t pool :
  accounts_ok t -> pool_inv pool ->
  exists t' pool',
    deviceFragAffinityReleaseStagedBuffers t pool = Ok (t', pool') /\ accounts_ok t' /\ same_config t t' /\
    pool_inv pool' /\ entries t' = released_entry <$> entries t.
Proof.
  intros A I. pose proof (ao_length t A) as L. unfold zlen, kDeviceFragAffinityMaxEntries in L.
  destruct (release_loop_ok (Z.to_nat kDeviceFragAffinityMaxEntries) t pool 0 A I)
    as (t' & p' & E & A' & C & I' & S & Hl); [done|done|].
  assert (entries t' = released_entry <$> entries t) as Ee.
  { apply list_eq. intros j. rewrite Hl, list_lookup_fmap.
    case_decide as D; [done|]. rewrite lookup_ge_None_2; [done|].
    unfold kDeviceFragAffinityMaxEntries in D. lia. }
  unfold deviceFragAffinityReleaseStagedBuffers. rewrite E. step_ok.
  rewrite (ao_bytes t' A'), (ao_total t' A'), Ee, !zsum_zero
    by (apply Forall_fmap, Forall_true; intros e; apply holds_nothing_charge, released_nothing).
  rewrite assert_bind by done. exists t', p'. auto.
Qed.

Lemma released_closed_ok pol e :
  entry_ok pol e -> (in_use e = true -> poisoned e = true) -> entry_ok pol (released_entry e).
Proof.
  intros O Hc. destruct (in_use e) eqn:U; [by apply released_ok, Hc|].
  destruct O as [C S A M St Fr Fg]. destruct (Fr U) as [N1 N2]. split; simpl; auto; try done.
  - split; simpl; try done; [apply S|apply holds_nil].
Qed.

(** Releasing the buffers of a closed table leaves a sound table that holds
    nothing. *)
Lemma release_closed_ok t pool :
  table_ok t -> pool_inv pool -> generation_open t = false ->
  exists t' pool',
    deviceFragAffinityReleaseStagedBuffers t pool = Ok (t', pool') /\ table_ok t' /\ same_config t t' /\
    pool_inv pool' /\ Forall holds_nothing (entries t') /\ entries t' = released_entry <$> entries t.
Proof.
  intros T I Hg. destruct (release_staged_buffers_ok t pool (table_accounts t T) I)
    as (t' & p' & E & A' & C & I' & Ee). exists t', p'.
  assert (Forall holds_nothing (entries t')) as N by (rewrite Ee; by apply Forall_fmap, Forall_true).
  splits; auto. pose proof C as (C1 & C2 & C3 & C4 & C5 & C6). pose proof (to_closed t T Hg) as Hc.
  destruct T as [Hl Hf Hb Hm Ht Htm Hp Hpad _ Hk Hu]. split; rewrite ?C3, ?C4, ?C6; auto.
  - apply A'.
  - rewrite Ee. apply Forall_fmap. rewrite Forall_forall in *. intros e He. simpl.
    apply released_closed_ok; auto.
  - apply A'.
  - rewrite (ao_bytes t' A'), zsum_zero; [by destruct (policy t)|].
    eapply Forall_impl; [exact N|]. apply holds_nothing_charge.
  - apply A'.
  - apply A'.
  - intros _. rewrite Ee. apply Forall_fmap. eapply Forall_impl; [exact Hc|]. done.
  - rewrite Ee. intros i j a b Ha Hb' Hua Hub Hkey. rewrite list_lookup_fmap in Ha, Hb'.
    destruct (entries t !! i) as [a'|] eqn:Ea; [|done]. destruct (entries t !! j) as [b'|] eqn:Eb; [|done].
    injection Ha as <-. injection Hb' as <-. by apply (Hk i j a' b').
Qed.

(** ** Sequences of calls *)

Inductive frag_call : Type :=
  | CallOffer (b : sbuf_t) (now : Z)
  | CallBegin
  | CallEnd (now : Z)
  | CallRelease
  | CallRetire
  | CallEnableShared (padding : Z)
  | CallTrust
  | CallOther (pool : P).

(** What an offer answered. *)
Definition reply : Type := option (device_frag_affinity_action_t * device_frag_affinity_result_t).

(** The effect of a call on the table and the reader's pool; [CallOther] is any
    use the reader makes of its pool in between. *)
Definition call_step (c : frag_call) t pool
  : outcome (reply * device_frag_affinity_table_t * P) :=
  match c with
  | CallOffer b now =>
      '(act, res, t', pool) ← deviceFragAffinityOffer workers_count (Some t) pool (Some (raw b))
                                (sbufGetLength b) b now;
      mret (Some (act, res), default t t', pool)
  | CallBegin => mret (None, deviceFragAffinityBeginGeneration t, pool)
  | CallEnd now => mret (None, deviceFragAffinityEndGeneration t now, pool)
  | CallRelease => '(t, pool) ← deviceFragAffinityReleaseStagedBuffers t pool; mret (None, t, pool)
  | CallRetire => '(t, pool) ← deviceFragAffinityRetireReleasePool t pool; mret (None, t, pool)
  | CallEnableShared padding =>
      t ← deviceFragAffinityEnableShared t padding; mret (None, t, pool)
  | CallTrust => t ← deviceFragAffinityTrustIpv4HeaderChecksum t; mret (None, t, pool)
  | CallOther pool => mret (None, t, pool)
  end.

(** When the devices make a call: buffers go back after the generation ended,
    the configuration changes before the first fragment. *)
Definition may_call (c : frag_call) t : Prop :=
  match c with
  | CallOffer b _ => good b /\ usable t
  | CallBegin | CallEnd _ => True
  | CallRelease | CallRetire => generation_open t = false
  | CallEnableShared padding => u16 padding /\ retained_bytes t = 0
  | CallTrust => Forall (fun e => in_use e = false) (entries t)
  | CallOther pool => pool_inv pool
  end.

(** A table with the calls made on it and their answers, oldest first. *)
Inductive table_life : list (frag_call * reply) -> device_frag_affinity_table_t -> P -> Prop :=
  | life_create pool_set pol sh padding t pool :
      u16 padding -> pool_inv pool -> deviceFragCreate pool_set pol sh padding true = Some t ->
      table_life [] t pool
  | life_call c h t pool r t' pool' :
      table_life h t pool -> may_call c t -> call_step c t pool = Ok (r, t', pool') ->
      table_life (h ++ [(c, r)]) t' pool'.

(** What a call other than an offer does to the entries. *)
Definition idle_call (c : frag_call) t t' : Prop :=
  policy t' = policy t /\
  match c with
  | CallOffer _ _ => False
  | CallEnd now => entries t' = end_entry now <$> entries t
  | CallRelease | CallRetire => entries t' = released_entry <$> entries t
  | _ => entries t' = entries t
  end.

Definition offer_call (c : frag_call) (r : reply) t t' : Prop :=
  exists b now act res, c = CallOffer b now /\ r = Some (act, res) /\ good b /\ same_config t t' /\
    ((act = kDeviceFragAffinityNotFragment /\ ~ is_frag (raw b) (len b) /\ t' = t) \/
     exists parsed v, parsed_as (raw b) (len b) (trusted_ipv4_header t) parsed v /\
       parsed_view b parsed v /\ locked workers_count t v parsed b now act res t').

(** Every admissible call returns and keeps the invariant. *)
Lemma call_ok c t pool :
  table_ok t -> pool_inv pool -> may_call c t ->
  exists r t' pool', call_step c t pool = Ok (r, t', pool') /\ table_ok t' /\ pool_inv pool' /\
    (offer_call c r t t' \/ r = None /\ idle_call c t t').
Proof.
  intros T I M. destruct c as [b now| |now| | |padding| |p]; simpl in M |- *.
  - destruct M as [G U]. unfold sbufGetLength.
    destruct (offer_ok workers_count t pool b now T I U G) as (a & r & t' & p' & -> & I' & _ & T' & C & D).
    step_ok. do 3 eexists. split; [done|]. splits; auto. left. exists b, now, a, r. splits; auto.
    destruct D as [(? & ? & ? & _)|D]; auto.
  - do 3 eexists. split; [done|]. splits; auto; [by apply begin_generation_ok|by right].
  - do 3 eexists. split; [done|]. splits; auto; [by apply end_generation_ok|by right].
  - destruct (release_closed_ok t pool T I M) as (t' & p' & -> & T' & C & I' & _ & Ee). step_ok.
    do 3 eexists. split; [done|]. splits; auto. right. split; [done|]. split; [apply C|done].
  - destruct (release_closed_ok t pool T I M) as (t' & p' & E & T' & C & I' & N & Ee).
    unfold deviceFragAffinityRetireReleasePool. rewrite E. step_ok. do 3 eexists. split; [done|].
    assert (generation_open t' = false) as Hg by (destruct C as (_ & _ & _ & -> & _); done).
    splits; auto; [destruct T'; split; simpl; auto|]. right. split; [done|]. split; [apply C|done].
  - destruct M as [Hp Hr]. unfold deviceFragAffinityEnableShared.
    rewrite assert_bind by (by rewrite Hr). step_ok. do 3 eexists. split; [done|]. splits; [|done|by right].
    by apply enable_shared_ok.
  - assert (forallb (fun e => negb (in_use e)) (entries t) = true) as Hf.
    { apply forallb_forall. rewrite Forall_forall in M. intros e He. rewrite M; [done|]. by apply list_elem_of_In. }
    unfold deviceFragAffinityTrustIpv4HeaderChecksum. rewrite assert_bind by done. step_ok.
    do 3 eexists. split; [done|]. splits; [|done|by right]. by apply trust_ok.
  - do 3 eexists. split; [done|]. splits; auto. by right.
Qed.

Lemma step_effect c t pool r t' pool' :
  table_ok t -> pool_inv pool -> may_call c t -> call_step c t pool = Ok (r, t', pool') ->
  table_ok t' /\ pool_inv pool' /\ (offer_call c r t t' \/ r = None /\ idle_call c t t').
Proof.
  intros T I M E. destruct (call_ok c t pool T I M) as (r2 & t2 & p2 & E2 & ?).
  rewrite E2 in E. injection E as <- <- <-. done.
Qed.

Lemma life_ok h t pool : table_life h t pool -> table_ok t /\ pool_inv pool.
Proof.
  induction 1 as [pool_set pol sh padding t pool Hp I E|c h t pool r t' pool' _ [T I] M E].
  - split; [|done]. by eapply create_table_ok.
  - by destruct (step_effect c t pool r t' pool' T I M E) as (? & ? & _).
Qed.

Lemma destroy_ok t pool :
  accounts_ok t -> pool_inv pool ->
  exists pool', deviceFragAffinityDestroy t pool = Ok pool' /\ pool_inv pool'.
Proof.
  intros A I. destruct (release_staged_buffers_ok t pool A I) as (t' & p' & E & _ & _ & I' & _).
  exists p'. unfold deviceFragAffinityDestroy. by rewrite E.
Qed.

(** C8. The accounts of a fragment table are exact over its whole life.  After
    any sequence of admissible calls the byte and packet counters equal what the
    256 entries hold and stay within the limits of the policy, no two live
    entries share a key, every further admissible call returns (no assertion of
    the code fails, no array is overrun), and the table can be destroyed. *)
Theorem frag_accounts_exact h t pool :
  table_life h t pool ->
  retained_bytes t = zsum entry_charge (entries t) /\ retained_bytes t <= byte_limit (policy t) /\
  staged_total t = zsum entry_staged (entries t) /\ staged_total t <= kDeviceFragAffinityMaxStaged /\
  distinct_keys (entries t) /\
  (forall c, may_call c t -> exists r t' pool', call_step c t pool = Ok (r, t', pool')) /\
  exists pool', deviceFragAffinityDestroy t pool = Ok pool' /\ pool_inv pool'.
Proof.
  intros L. destruct (life_ok h t pool L) as [T I]. splits; try apply T.
  - intros c M. destruct (call_ok c t pool T I M) as (r & t' & p' & E & _). eauto.
  - apply destroy_ok; auto using table_accounts.
Qed.
End Life.

Arguments frag_call P : clear implicits.

(** ** A concrete life *)

#[local] Existing Instance debug_allocator.

(** A fragment from 10.0.0.1 to 10.0.0.2 with identification 7: [units] is its
    offset in units of eight bytes. *)
Definition sample_fragment (units : Z) (more : bool) (bytes : list Z) : sbuf_t :=
  sample (rewritten ([0x45; 0] ++ be16_bytes (20 + zlen bytes) ++ [0; 7] ++
    be16_bytes (units + (if more then 0x2000 else 0)) ++
    [64; 17; 0; 0; 10; 0; 0; 1; 10; 0; 0; 2] ++ bytes) 20).

Definition sample_table : device_frag_affinity_table_t :=
  default (mk_table false false 0 false false kDeviceFragmentPolicyUnset 0 0 [])
    (deviceFragCreate true kDeviceFragmentReassemble false 0 true).

Lemma sample_life : table_life 4 [] sample_table demo_state.
Proof.
  apply (life_create 4 true kDeviceFragmentReassemble false 0).
  - unfold u16, UINT16_MAX. lia.
  - exact (proj1 (reachable_state_inv demo_state demo_reachable)).
  - reflexivity.
Qed.

Definition sample_tail : sbuf_t := sample_fragment 1 false [21; 22; 23].

Lemma sample_tail_good : good sample_tail.
Proof. split; [apply sample_wf; concrete|reflexivity]. Qed.

Lemma frag_accounts_exact_witness :
  match call_step 4 (CallOffer sample_tail 5) sample_table demo_state with
  | Ok (_, t, pool) =>
      retained_bytes t = zsum entry_charge (entries t) /\ retained_bytes t = 128 /\
      exists pool', deviceFragAffinityDestroy t pool = Ok pool'
  | Fail _ => False
  end.
Proof.
  assert (match call_step 4 (CallOffer sample_tail 5) sample_table demo_state with
          | Ok (_, t, _) => retained_bytes t | Fail _ => 0 end = 128) as B by (vm_compute; reflexivity).
  destruct (call_step _ _ _ _) as [[[r t] pool]|f] eqn:E; [|discriminate B].
  destruct (frag_accounts_exact 4 [(CallOffer sample_tail 5, r)] t pool) as (R & _ & _ & _ & _ & _ & pool' & D & _).
  - apply (life_call 4 (CallOffer sample_tail 5) [] sample_table demo_state r t pool);
      [exact sample_life|split; [exact sample_tail_good|reflexivity]|exact E].
  - split; [exact R|]. split; [exact B|]. exists pool'. exact D.
Defined.
