(* ===== verification/FragReassembly.v ===== *)
(** * Reassembly of datagrams ([ww/devices/device_frag_affinity.c])

    What the reassembling table delivers is the datagram that was fragmented,
    whatever else is offered in between, and offering the fragments of a datagram
    in any order delivers it. *)

From Stdlib Require Import ZArith Lia.
From stdpp Require Import base numbers option list.
From S2P Require Import Prelude ShiftBuffer Endian PoolInterface BufferPool PacketChecksum FlowHash.
From S2P Require Import FragRanges FragAffinity FragInvariant FragOffer FragLife.
Open Scope Z_scope.
Open Scope word_scope.

(** ** Datagrams and their fragments *)

(** A datagram by the header of its first fragment, of 20 bytes, and its data. *)
Record datagram : Type := mk_datagram {
  dg_header : list Z;
  dg_data : list Z
}.

Definition frag_view (b : sbuf_t) : device_frag_view_t := view_of (raw b) (len b).
Definition frag_key_of (b : sbuf_t) : frag_key := view_key (frag_view b).

(** A buffer the parser accepts as a fragment, at least on a trusted device. *)
Definition acceptable (b : sbuf_t) : Prop :=
  is_frag (raw b) (len b) /\ frag_ok (raw b) (len b) true.

(** [b] carries a piece of the datagram. *)
Record piece (g : datagram) (b : sbuf_t) : Prop := mk_piece {
  pc_inside : v_end (frag_view b) <= zlen (dg_data g);
  pc_last : v_more_fragments (frag_view b) = false <-> v_end (frag_view b) = zlen (dg_data g);
  pc_data : slice 20 (v_payload_len (frag_view b)) (raw b) =
    slice (v_offset (frag_view b)) (v_payload_len (frag_view b)) (dg_data g);
  pc_header : v_offset (frag_view b) = 0 -> slice 0 20 (raw b) = dg_header g
}.

Lemma view_offset_nonneg (b : sbuf_t) : 0 <= v_offset (frag_view b).
Proof. simpl. pose proof (Z.mod_pos_bound (be16 (raw b) 6) (2 ^ 13)). lia. Qed.

Lemma piece_bytes (g : datagram) (b : sbuf_t) (x : Z) :
  piece g b -> v_offset (frag_view b) <= x < v_end (frag_view b) ->
  byte_at (raw b) (20 + (x - v_offset (frag_view b))) = byte_at (dg_data g) x.
Proof.
  intros [_ _ D _] Hx. pose proof (view_offset_nonneg b). unfold v_end in Hx.
  rewrite (byte_at_moved (raw b) (dg_data g) 20 (v_offset (frag_view b)) (v_payload_len (frag_view b)));
    [f_equal; lia|lia|lia|lia|exact D].
Qed.

(** The packet that stands for the whole datagram: the data in full behind the
    header of the first fragment, in which the length is that of the datagram,
    of the fragment field only the reserved and the don't-fragment bits are
    left, and the checksum is right. *)
Record reassembly_of (g : datagram) (p : list Z) : Prop := mk_reassembly_of {
  ra_length : zlen p = 20 + zlen (dg_data g);
  ra_data : slice 20 (zlen (dg_data g)) p = dg_data g;
  ra_valid : header_valid p 20;
  ra_total : be16 p 2 = 20 + zlen (dg_data g);
  ra_flags : be16 p 6 = Z.land (be16 (dg_header g) 6) 0xc000;
  ra_rest : forall j, 0 <= j < 20 -> ~ (2 <= j < 4) -> ~ (6 <= j < 8) -> ~ (10 <= j < 12) ->
    byte_at p j = byte_at (dg_header g) j
}.

Lemma finished_reassembly (g : datagram) (l : list Z) :
  let f := zlen (dg_data g) in
  Forall u8 l -> 20 + f <= zlen l -> f <= kDeviceFragAffinityMaxPayloadEnd -> slice 0 20 l = dg_header g ->
  (forall x, 0 <= x < f -> byte_at l (20 + x) = byte_at (dg_data g) x) ->
  reassembly_of g (slice 0 (20 + f) (finish_list l f)).
Proof.
  intros f U Hl Hf Hh Hd. pose proof (zlen_nonneg (dg_data g)). assert (0 <= f) by (unfold f; lia).
  assert (20 <= zlen l) as H20 by lia. assert (0 <= f <= kDeviceFragAffinityMaxPayloadEnd) as Hf' by lia.
  pose proof (finish_len l f H20) as Hlen.
  destruct (finish_valid l f U H20 Hf') as (Hv & H2 & H6).
  assert (zlen (slice 0 (20 + f) (finish_list l f)) = 20 + f) as Zs by (apply zlen_slice; lia).
  assert (forall j, 0 <= j < 20 + f ->
    byte_at (slice 0 (20 + f) (finish_list l f)) j = byte_at (finish_list l f) j) as Hb.
  { intros j Hj. rewrite byte_at_slice by lia. done. }
  assert (forall j, 0 <= j < 20 -> byte_at (dg_header g) j = byte_at l j) as Hg.
  { intros j Hj. rewrite <- Hh, byte_at_slice by lia. done. }
  split.
  - done.
  - apply bytes_ext; [rewrite zlen_slice by lia; done|]. intros j Hj. rewrite zlen_slice in Hj by lia.
    rewrite byte_at_slice, Hb by lia. rewrite finish_byte by lia. by apply Hd.
  - unfold header_valid. rewrite slice_prefix by lia. exact Hv.
  - unfold be16. rewrite !Hb by lia. exact H2.
  - unfold be16. rewrite !Hb, !Hg by lia. exact H6.
  - intros j Hj N1 N2 N3. rewrite Hb, Hg by lia. apply finish_byte; auto; lia.
Qed.

(** ** Soundness *)

(** What an entry has of the datagram is right. *)
Record pieces_of (g : datagram) (e : device_frag_affinity_entry_t) : Prop := mk_pieces_of {
  po_bytes : forall a x, assembly (e_store e) = Some a -> covered (e_cover e) x ->
    byte_at (raw a) (20 + x) = byte_at (dg_data g) x;
  po_header : forall a, assembly (e_store e) = Some a -> wid_known e = true ->
    slice 0 20 (raw a) = dg_header g;
  po_range : forall x, covered (e_cover e) x -> x < zlen (dg_data g);
  po_end : forall f, known_end (e_cover e) = Some f -> f = zlen (dg_data g)
}.

Lemma fresh_pieces (g : datagram) (key : frag_key) (expires : Z) : pieces_of g (fresh_entry key expires).
Proof. split; simpl; try done. intros x Hx. by apply empty_not_covered in Hx. Qed.

(** Storing a piece keeps the entry right. *)
Lemma stored_pieces (g : datagram) (pol : device_fragment_policy_t) (e : device_frag_affinity_entry_t)
    (b a : sbuf_t) (cover : coverage_t) :
  entry_ok pol e -> pol = kDeviceFragmentReassemble -> poisoned e = false ->
  pieces_of g e -> piece g b -> stored e (frag_view b) b a ->
  accounted (e_cover e) (frag_view b) kDeviceFragAccountOk cover ->
  pieces_of g (stored_entry e (frag_view b) cover a).
Proof.
  intros O Hp Hpo [Pb Ph Pr Pe] Pc [Sh So Sn Sd] (_ & _ & Hk & Hc & _).
  pose proof Pc as [Ci Cl _ Ch]. split; simpl.
  - intros a' x [= <-] Hx. apply Hc in Hx as [Hx|Hx]; [|rewrite Sn by done; by apply piece_bytes].
    destruct (assembly (e_store e)) as [old|] eqn:Eo.
    + rewrite (Sd x old Hx eq_refl). by apply Pb.
    + destruct (eo_missing _ _ O Hp Hpo Eo) as [_ Hn]. by apply Hn in Hx.
  - intros a' [= <-] Hw. unfold header_known in Hw. destruct (v_offset (frag_view b) =? 0) eqn:E; bool_facts.
    + by rewrite Sh, Ch.
    + destruct (assembly (e_store e)) as [old|] eqn:Eo.
      * rewrite (So E Hw old eq_refl). by apply Ph.
      * destruct (eo_missing _ _ O Hp Hpo Eo) as [Hn _]. congruence.
  - intros x Hx. apply Hc in Hx as [Hx|Hx]; [by apply Pr|lia].
  - intros f. rewrite Hk. destruct (v_more_fragments (frag_view b)) eqn:Hm; [apply Pe|].
    intros [= <-]. by apply Cl.
Qed.

(** Every live entry of [key] is right. *)
Definition faithful (g : datagram) (key : frag_key) (l : list device_frag_affinity_entry_t) : Prop :=
  Forall (fun e => in_use e = true -> e_key e = key -> poisoned e = false -> pieces_of g e) l.

Definition done_right (g : datagram) (key : frag_key) (b : sbuf_t) (act : device_frag_affinity_action_t)
    (res : device_frag_affinity_result_t) : Prop :=
  act = kDeviceFragAffinityComplete -> frag_key_of b = key ->
  exists c, completed res = Some c /\ good c /\ reassembly_of g (payload c).

Section Sound.
Context `{Allocator} {P : Type} `{PL : PoolLaws P} (workers_count : Z).
Context (g : datagram) (key : frag_key).

Lemma completed_right t i e b now cover res t' :
  entry_ok (policy t) e -> policy t = kDeviceFragmentReassemble -> poisoned e = false ->
  pieces_of g e -> piece g b -> coverage_wf cover ->
  accounted (e_cover e) (frag_view b) kDeviceFragAccountOk cover ->
  reassembled t i e (frag_view b) b now cover kDeviceFragAffinityComplete res t' ->
  exists c, completed res = Some c /\ good c /\ reassembly_of g (payload c).
Proof.
  intros O Hp Hpo Pe Pc Wc Acc (Hh & f & a & c & [Wk Ww] & Sa & Hfit & Ga & -> & Gc & Hpay & ->).
  exists c. splits; auto.
  pose proof (stored_pieces g (policy t) e b a cover O Hp Hpo Pe Pc Sa Acc) as [Pb Ph Pr Pend].
  assert (f = zlen (dg_data g)) as -> by (by apply Pend).
  unfold known_end in Wk. destruct (saw_last cover) eqn:Sl; [|done]. injection Wk as Wk.
  destruct (cw_last _ Wc Sl) as [Hf _]. rewrite Hpay. apply finished_reassembly.
  - by apply raw_u8.
  - by rewrite zlen_raw.
  - lia.
  - by apply Ph.
  - intros x Hx. apply (Pb a); [done|]. by apply Ww.
Qed.

Lemma faithful_offered t i e v parsed b now act res t' :
  table_ok t -> policy t = kDeviceFragmentReassemble -> has_entry t i e -> in_use e = true ->
  e_key e = frag_key_of b ->
  (parsed = kDeviceFragParseValid -> v = frag_view b /\ (frag_key_of b = key -> piece g b)) ->
  faithful g key (entries t) ->
  offered workers_count t i e v parsed b now act res t' ->
  faithful g key (entries t') /\ done_right g key b act res.
Proof.
  intros T Hp Hi Hu Hke Hpc F Of. pose proof (entry_is_ok t T i e Hi) as O.
  assert (frag_key_of b = key -> poisoned e = false -> pieces_of g e) as Pe.
  { intros Hk Hpo. destruct Hi as [_ Ei]. apply (Forall_lookup_1 _ _ _ _ F Ei); auto; congruence. }
  assert (forall e', (in_use e' = true -> e_key e' = key -> poisoned e' = false -> pieces_of g e') ->
    faithful g key (entries (replace_entry t i e e'))) as Rep.
  { intros e' He'. by apply Forall_insert. }
  inversion Of as [| | |cover a r t1 Hpo Hv _ Wc Acc R|cover z a r t1 _ _ Hpol _ _ _ R]; subst;
    [by split|by split| | |congruence].
  { split; [|done]. apply Rep. intros _ _ Hx. by rewrite poison_poisoned in Hx. }
  destruct (Hpc eq_refl) as [-> Hpc']. clear Hpc. rename Hpc' into Hpc. destruct act; simpl in R; try done.
  - destruct R as (-> & _ & a & Ga & Sa & -> & _). split; [|done]. apply Rep. intros _ Hk _.
    simpl in Hk. rewrite Hke in Hk. by apply (stored_pieces g (policy t)); auto.
  - destruct R as (-> & -> & _). split; [|done]. apply Rep. intros _ _ Hx. by rewrite poison_poisoned in Hx.
  - split; [destruct R as (_ & f & a & c & _ & _ & _ & _ & _ & _ & _ & ->); by apply Rep|].
    intros _ Hk. apply (completed_right t i e b now cover res t'); auto.
Qed.

Lemma parsed_key b trusted parsed v :
  parsed_as (raw b) (len b) trusted parsed v -> parsed <> kDeviceFragParseNotFragment ->
  view_key v = frag_key_of b.
Proof.
  intros Hp Hn. destruct parsed; simpl in Hp; [done| |by destruct Hp as (_ & _ & ->)].
  destruct Hp as (_ & _ & ? & ? & ? & ?). unfold frag_key_of, frag_view, view_key. congruence.
Qed.

Lemma parsed_fragment b trusted v :
  parsed_as (raw b) (len b) trusted kDeviceFragParseValid v -> acceptable b /\ v = frag_view b.
Proof.
  intros (Hf & (H1 & H2 & H3 & _ & H5 & H6) & ->). split; [|done]. split; [done|].
  unfold frag_ok. auto 10.
Qed.

Lemma faithful_swept now l : faithful g key l -> faithful g key (swept now <$> l).
Proof.
  intros F. apply Forall_fmap. eapply Forall_impl; [exact F|]. intros e He. simpl.
  destruct (swept_cases now e) as [[-> _]|(_ & _ & [->| ->])]; [done|done|].
  intros _ _ Hx. by rewrite poison_poisoned in Hx.
Qed.

Lemma faithful_offer t b now act res t' :
  table_ok t -> policy t = kDeviceFragmentReassemble ->
  (acceptable b -> frag_key_of b = key -> piece g b) -> faithful g key (entries t) ->
  (exists parsed v, parsed_as (raw b) (len b) (trusted_ipv4_header t) parsed v /\
     parsed_view b parsed v /\ locked workers_count t v parsed b now act res t') ->
  faithful g key (entries t') /\ done_right g key b act res.
Proof.
  intros T Hp Hpc F (parsed & v & Hpa & (_ & _ & Hpv) & L).
  assert (view_key v = frag_key_of b) as Hk by (eapply parsed_key; [exact Hpa|by intros ->]).
  inversion L as [Hc|t1 Ho E1 C1 Hfull Ha|t1 t2 i e a r t3 Ho E1 C1 T1 T2 C2 Sv Of]; subst; try (by split).
  - split; [|done]. rewrite E1. by apply faithful_swept.
  - assert (faithful g key (entries t1)) as F1 by (rewrite E1; by apply faithful_swept).
    destruct Sv as (Hi & Hu & Hke & Hcase).
    assert (faithful g key (entries t2)) as F2.
    { destruct Hcase as [->|(old & _ & _ & _ & -> & ->)]; [done|]. apply Forall_insert; [done|].
      intros _ _ _. apply fresh_pieces. }
    eapply faithful_offered; [exact T2| |exact Hi|exact Hu|congruence| |exact F2|exact Of].
    + destruct C2 as (_ & _ & _ & _ & _ & ->). done.
    + intros ->. destruct (parsed_fragment _ _ _ Hpa) as [? ->]. auto.
Qed.

(** All offers of a history that belong to [key] are pieces of the datagram. *)
Definition only_pieces (h : list (frag_call P * reply)) : Prop :=
  forall b now r, (CallOffer b now, r) ∈ h -> acceptable b -> frag_key_of b = key -> piece g b.

Lemma faithful_idle c t t' :
  table_ok t -> may_call c t -> idle_call c t t' -> faithful g key (entries t) ->
  faithful g key (entries t').
Proof.
  intros T M [_ E] F. destruct c; simpl in M, E; try (by rewrite E); try done; rewrite E; apply Forall_fmap.
  - eapply Forall_impl; [exact F|]. intros e _ Hu _ Hx. simpl in *.
    destruct (end_entry_same now e) as (_ & E1 & _ & _ & E2 & _). rewrite E1 in Hu. rewrite E2 in Hx; done.
  - eapply Forall_impl; [exact (to_closed t T M)|]. intros e He Hu _ Hx. simpl in *. rewrite He in Hx; done.
  - eapply Forall_impl; [exact (to_closed t T M)|]. intros e He Hu _ Hx. simpl in *. rewrite He in Hx; done.
Qed.

Lemma life_faithful h t pool :
  table_life workers_count h t pool -> policy t = kDeviceFragmentReassemble -> only_pieces h ->
  faithful g key (entries t) /\
  forall b now act res, (CallOffer b now, Some (act, res)) ∈ h -> done_right g key b act res.
Proof.
  induction 1 as [ps pol sh padding t pool Hp I E|c h t pool r t' pool' L IH M E]; intros Hpol Hh.
  { split; [|by intros ? ? ? ? ?%not_elem_of_nil]. eapply Forall_impl; [by eapply create_entries|].
    by intros e ->. }
  destruct (life_ok workers_count h t pool L) as [T I].
  destruct (step_effect workers_count c t pool r t' pool' T I M E) as (T' & I' & Hstep).
  assert (policy t = kDeviceFragmentReassemble) as Hp0.
  { destruct Hstep as [(b & now & act & res & _ & _ & _ & (_ & _ & _ & _ & _ & <-) & _)|(_ & <- & _)]; done. }
  destruct IH as [F D]; [done|intros b now x Hx; apply (Hh b now x), elem_of_app; by left|].
  destruct Hstep as [(b & now & act & res & -> & -> & G & C & Hoff)|(-> & Hi)].
  - assert (faithful g key (entries t') /\ done_right g key b act res) as [F' D'].
    { destruct Hoff as [(-> & _ & ->)|Hoff]; [by split|]. eapply faithful_offer; [exact T|done| |exact F|exact Hoff].
      intros Hb Hk. apply (Hh b now (Some (act, res))); auto. apply elem_of_app. right. by apply list_elem_of_singleton. }
    split; [done|]. intros b' now' act' res' Hin. apply elem_of_app in Hin as [Hin|Hin]; [by eapply D|].
    apply list_elem_of_singleton in Hin. by injection Hin as -> -> -> ->.
  - split; [exact (faithful_idle c t t' T M Hi F)|]. intros b' now' act' res' Hin.
    apply elem_of_app in Hin as [Hin|Hin]; [by eapply D|]. apply list_elem_of_singleton in Hin. done.
Qed.
End Sound.

(** ** Completeness *)

Definition spans (b : sbuf_t) (x : Z) : Prop := v_offset (frag_view b) <= x < v_end (frag_view b).

(** What reassembling [need] bytes costs a shared table at most. *)
Definition full_charge (need padding : Z) : Z := 64 + round_line need + round_pad padding.

Lemma full_charge_le (m n padding : Z) : m <= n -> full_charge m padding <= full_charge n padding.
Proof.
  intros Hm. unfold full_charge, round_line.
  pose proof (Z.div_le_mono (m + 63) (n + 63) 64). lia.
Qed.

(** Offering fragments one after the other. *)
Fixpoint offer_all `{Allocator} `{PoolOps P} (workers_count : Z) (l : list (sbuf_t * Z))
    (t : device_frag_affinity_table_t) (pool : P)
  : outcome (list (device_frag_affinity_action_t * device_frag_affinity_result_t) *
             device_frag_affinity_table_t * P) :=
  match l with
  | [] => mret ([], t, pool)
  | (b, now) :: l =>
      '(act, res, t', pool) ← deviceFragAffinityOffer workers_count (Some t) pool (Some (raw b))
                                (sbufGetLength b) b now;
      '(rs, t, pool) ← offer_all workers_count l (default t t') pool;
      mret ((act, res) :: rs, t, pool)
  end.

Lemma offer_all_cons `{Allocator} `{PoolOps P} (workers_count : Z) b now l t (pool : P) act res t' pool' :
  deviceFragAffinityOffer workers_count (Some t) pool (Some (raw b)) (len b) b now =
    Ok (act, res, Some t', pool') ->
  offer_all workers_count ((b, now) :: l) t pool =
    '(rs, t, pool) ← offer_all workers_count l t' pool'; mret ((act, res) :: rs, t, pool).
Proof. intros E. cbn [offer_all]. unfold sbufGetLength. by rewrite E. Qed.

Section Complete.
Context `{Allocator} {P : Type} `{PL : PoolLaws P} (workers_count : Z).
Context (g : datagram) (key : frag_key).
Let size := zlen (dg_data g).

(** The entry after the pieces [bs]. *)
Record underway (padding : Z) (bs : list sbuf_t) (e : device_frag_affinity_entry_t) : Prop := mk_underway {
  uw_used : in_use e = true;
  uw_key : e_key e = key;
  uw_sane : poisoned e = false;
  uw_pieces : pieces_of g e;
  uw_cover : forall x, covered (e_cover e) x <-> exists b, b ∈ bs /\ spans b x;
  uw_known : wid_known e = true <-> exists b, b ∈ bs /\ v_offset (frag_view b) = 0;
  uw_end : known_end (e_cover e) <> None <-> exists b, b ∈ bs /\ v_end (frag_view b) = size;
  uw_ranges : range_count (e_cover e) <= zlen bs;
  uw_fragments : fragments e = zlen bs;
  uw_charge : entry_charge e <= full_charge (20 + size) padding
}.

Lemma fresh_underway padding expires : 0 <= padding -> underway padding [] (fresh_entry key expires).
Proof.
  intros Hp. assert (forall (Q : sbuf_t -> Prop), ~ exists b, b ∈ [] /\ Q b) as Hn
    by (intros Q (b & Hb & _); by apply not_elem_of_nil in Hb).
  split; try done.
  - apply fresh_pieces.
  - intros x. split; [by intros ?%empty_not_covered|]. by intros ?%Hn.
  - split; [done|]. by intros ?%Hn.
  - split; [done|]. by intros ?%Hn.
  - change (entry_charge (fresh_entry key expires)) with 0. unfold full_charge.
    pose proof (round_pad_bounds padding Hp). pose proof (zlen_nonneg (dg_data g)).
    pose proof (round_line_bounds (20 + size)). unfold size in *. lia.
Qed.

Definition covers (bs : list sbuf_t) : Prop :=
  forall x, 0 <= x < size -> exists b, b ∈ bs /\ spans b x.

Section Step.
Context (t : device_frag_affinity_table_t) (T : table_ok t).
Context (Hp : policy t = kDeviceFragmentReassemble) (Hs : shared t = true).
Context (i : Z) (e : device_frag_affinity_entry_t) (Hi : has_entry t i e).
Context (bs : list sbuf_t) (U : underway (shared_padding t) bs e).
Context (b : sbuf_t) (Hb : acceptable b) (Gb : good b) (Pc : piece g b).
Context (Hbs : Forall (piece g) bs).
Context (Hfree : forall b' x, b' ∈ bs -> spans b' x -> ~ spans b x) (Hmany : zlen bs < 16).
Context (Hcr : creatable (20 + size) (shared_padding t)).
Context (Hbudget : retained_bytes t - entry_charge e + 2 * full_charge (20 + size) (shared_padding t) <=
                   kDeviceFragAffinityMaxAssemblyBytes).

Lemma not_meets : ~ meets (e_cover e) (frag_view b).
Proof. intros (x & Hx & Hc). apply (uw_cover _ _ _ U) in Hc as (b' & Hin & Hb'). by apply (Hfree b' x). Qed.

Lemma not_contradicts : ~ contradicts (e_cover e) (frag_view b).
Proof.
  intros C. destruct (uw_pieces _ _ _ U) as [_ _ Pr Pe], Pc as [Ci Cl _ _]. unfold contradicts in C.
  destruct (known_end (e_cover e)) as [f|] eqn:Ek.
  - specialize (Pe f eq_refl). destruct (v_more_fragments (frag_view b)) eqn:Em; [lia|].
    apply C. rewrite (proj1 Cl eq_refl). done.
  - destruct C as [Em (x & Hx & Hle)]. specialize (Pr x Hx). rewrite (proj1 Cl Em) in Hle. lia.
Qed.

Lemma not_refused : ~ refuses workers_count e (policy t) (frag_view b) kDeviceFragParseValid b.
Proof.
  pose proof (uw_fragments _ _ _ U). pose proof (uw_ranges _ _ _ U).
  intros [?|[Hx|[(? & _)|[Hx|[Hx|(Hx & _)]]]]]; try done.
  - unfold kDeviceFragAffinityMaxFragments in Hx. lia.
  - congruence.
  - by apply not_contradicts.
  - unfold kDeviceFragAffinityMaxRanges in Hx. lia.
  - by apply not_meets.
Qed.

Lemma affordable : affords t (20 + v_end (frag_view b)).
Proof.
  pose proof Pc as [Ci _ _ _]. pose proof (to_padding t T) as Hpad. unfold u16 in Hpad.
  pose proof (frag_view_wf _ _ _ (raw_u8 b Gb) (proj2 Hb)) as [Ho Hl _].
  assert (0 <= v_end (frag_view b)) by (unfold v_end, frag_view in *; lia). split.
  - eapply creatable_le; [| |exact Hcr]; unfold size; lia.
  - pose proof (uw_charge _ _ _ U).
    pose proof (full_charge_le (20 + v_end (frag_view b)) (20 + size) (shared_padding t)) as Hm.
    unfold full_charge in *. unfold size in *. lia.
Qed.

(** The end of the datagram is known, and all of it is there, exactly when the
    pieces cover it. *)
Lemma complete_iff (cover : coverage_t) :
  coverage_wf cover -> accounted (e_cover e) (frag_view b) kDeviceFragAccountOk cover ->
  (header_known e (frag_view b) = true /\ exists f, whole cover f) <-> covers (bs ++ [b]).
Proof.
  intros Wc (_ & _ & Hk & Hc & _). pose proof Pc as [Ci Cl _ _].
  pose proof (frag_view_wf _ _ _ (raw_u8 b Gb) (proj2 Hb)) as [Ho Hl _].
  fold (frag_view b) in Ho, Hl. assert (v_end (frag_view b) = v_offset (frag_view b) + v_payload_len (frag_view b)) as Ee by done.
  assert (forall x, covered cover x <-> exists b', b' ∈ bs ++ [b] /\ spans b' x) as Hcov.
  { intros x. rewrite Hc, (uw_cover _ _ _ U). split.
    - intros [(b' & ? & ?)|?]; [exists b'|exists b]; rewrite elem_of_app, list_elem_of_singleton; auto.
    - intros (b' & Hin & ?). apply elem_of_app in Hin as [?|Hin]; [by left; exists b'|].
      apply list_elem_of_singleton in Hin as ->. by right. }
  assert (forall f, known_end cover = Some f -> f = size) as Hend.
  { intros f. rewrite Hk. destruct (v_more_fragments (frag_view b)) eqn:Em; [apply U|].
    intros [= <-]. by apply Cl. }
  split.
  - intros (_ & f & Hf & Hw) x Hx. rewrite (Hend f Hf) in Hw. by apply Hcov, Hw.
  - intros Hall. assert (0 < size) by (unfold size; lia). split.
    + destruct (Hall 0) as (b' & Hin & Hsp); [lia|]. unfold spans in Hsp. pose proof (view_offset_nonneg b').
      unfold header_known. destruct (v_offset (frag_view b) =? 0) eqn:E; [done|]. bool_facts.
      apply (uw_known _ _ _ U). apply elem_of_app in Hin as [Hin|Hin]; [exists b'; split; [done|lia]|].
      apply list_elem_of_singleton in Hin as ->. lia.
    + exists size. assert (known_end cover <> None) as Hne.
      { destruct (Hall (size - 1)) as (b' & Hin & Hsp); [lia|]. unfold spans in Hsp.
        rewrite Hk. destruct (v_more_fragments (frag_view b)) eqn:Em; [|done].
        apply (uw_end _ _ _ U). apply elem_of_app in Hin as [Hin|Hin].
        - exists b'. split; [done|]. rewrite Forall_forall in Hbs. destruct (Hbs b' Hin) as [? _ _ _].
          unfold size in *. lia.
        - apply list_elem_of_singleton in Hin as ->. exfalso.
          assert (v_end (frag_view b) = size) as E by (unfold size; lia). apply Cl in E. congruence. }
      destruct (known_end cover) as [f|] eqn:Ef; [|done]. split; [by rewrite <- (Hend f)|].
      intros x. rewrite Hcov. split; [|by apply Hall]. intros Hx. split; [by apply Hcov, covered_nonneg in Hx|].
      apply Hcov, Hc in Hx as [Hx|Hx]; [by apply (po_range _ _ (uw_pieces _ _ _ U))|unfold size; lia].
Qed.

Lemma stored_underway (cover : coverage_t) (a : sbuf_t) :
  coverage_wf cover -> accounted (e_cover e) (frag_view b) kDeviceFragAccountOk cover ->
  stored e (frag_view b) b a -> good a ->
  sbufGetAllocationCharge a <= Z.max (assembly_bytes e)
    (64 + round_line (20 + v_end (frag_view b)) + round_pad (shared_padding t)) ->
  underway (shared_padding t) (bs ++ [b]) (stored_entry e (frag_view b) cover a).
Proof.
  intros Wc Acc Sa Ga Hch. pose proof (entry_is_ok t T i e Hi) as O. pose proof Acc as (_ & _ & Hk & Hc & Hr).
  pose proof Pc as [Ci Cl _ _]. assert (forall (Q : sbuf_t -> Prop),
    (exists b', b' ∈ bs ++ [b] /\ Q b') <-> (exists b', b' ∈ bs /\ Q b') \/ Q b) as Hex.
  { intros Q. setoid_rewrite elem_of_app. setoid_rewrite list_elem_of_singleton. split.
    - intros (b' & [?| ->] & ?); [left; by exists b'|by right].
    - intros [(b' & ? & ?)|?]; [exists b'|exists b]; auto. }
  split; simpl.
  - apply U.
  - apply U.
  - apply U.
  - apply (stored_pieces g (policy t)); auto; apply U.
  - intros x. rewrite Hc, Hex, (uw_cover _ _ _ U). done.
  - rewrite Hex. unfold header_known. destruct (v_offset (frag_view b) =? 0) eqn:E; bool_facts; [tauto|].
    rewrite (uw_known _ _ _ U). tauto.
  - rewrite Hex, Hk, <- (uw_end _ _ _ U). destruct (v_more_fragments (frag_view b)) eqn:Em.
    + split; [auto|]. intros [?|Hx]; [done|]. apply Cl in Hx. done.
    + split; [|done]. intros _. right. by apply Cl.
  - rewrite zlen_app. pose proof (uw_ranges _ _ _ U). change (zlen [b]) with 1. lia.
  - rewrite zlen_app, (uw_fragments _ _ _ U). change (zlen [b]) with 1.
    pose proof (zlen_nonneg bs). apply wrap16_small. word_lia.
  - pose proof (full_charge_le (20 + v_end (frag_view b)) (20 + size) (shared_padding t)) as Hm.
    pose proof (uw_charge _ _ _ U) as Hu. unfold entry_charge in Hu |- *. unfold assembly_bytes in Hch.
    pose proof (eo_staged _ _ O Hp) as Hz. rewrite (no_items (e_store e) Hz) in Hu.
    cbn [stored_entry e_store assembly]. rewrite no_items by exact Hz. unfold full_charge, size in *.
    destruct (assembly (e_store e)); cbn [zsum foldr] in *; lia.
Qed.

Lemma offered_progress now act res t' :
  offered workers_count t i e (frag_view b) kDeviceFragParseValid b now act res t' ->
  (act = kDeviceFragAffinityStaged /\ res = zero_result /\ ~ covers (bs ++ [b]) /\
   exists e', t' = replace_entry t i e e' /\ expires_at_ms e' = expires_at_ms e /\
     underway (shared_padding t) (bs ++ [b]) e') \/
  (act = kDeviceFragAffinityComplete /\ covers (bs ++ [b]) /\
   exists c, completed res = Some c /\ good c /\ reassembly_of g (payload c)).
Proof.
  intros Of. pose proof not_meets as Nm. pose proof not_refused as Nr. pose proof affordable as Af.
  pose proof complete_iff as Ci. pose proof stored_underway as Su. pose proof (entry_is_ok t T i e Hi) as O.
  pose proof U as [_ _ Us Up _ _ _ _ _ _]. clear U Hi.
  inversion Of as [Hpo|Hpo Hm|Hpo Hr|cover a r t1 Hpo _ _ Wc Acc R|cover z a r t1 _ _ Hpol _ _ _ R]; subst.
  - congruence.
  - by destruct (Nm Hm).
  - by destruct (Nr Hr).
  - destruct act; simpl in R; try done.
    + left. destruct R as (-> & Hn & a & Ga & Sa & -> & Hch). splits; auto.
      * intros Hc. by apply Hn, (Ci cover).
      * exists (stored_entry e (frag_view b) cover a). splits; auto.
    + destruct R as (_ & _ & Hx). by destruct (Hx Hs Af).
    + right. pose proof R as (Hh & f & a & c & Hw & _). splits; [done|apply (Ci cover); eauto|].
      by apply (completed_right g t i e b now cover res t').
  - congruence.
Qed.
End Step.

Lemma swept_retained (t t1 : device_frag_affinity_table_t) now :
  table_ok t -> table_ok t1 -> entries t1 = swept now <$> entries t -> retained_bytes t1 <= retained_bytes t.
Proof.
  intros T T1 E. rewrite (to_bytes t T), (to_bytes t1 T1), E. apply zsum_fmap_le.
  eapply Forall_impl; [exact (to_each t T)|]. intros e O. simpl.
  destruct (swept_cases now e) as [[-> _]|(N & _)]; [lia|].
  destruct (holds_nothing_charge _ N) as [-> _]. apply entry_charge_nonneg, O.
Qed.

Lemma swept_absent (t t1 : device_frag_affinity_table_t) now :
  entries t1 = swept now <$> entries t -> absent key t -> absent key t1.
Proof.
  intros E Ha j e Hj Hu. rewrite E, list_lookup_fmap in Hj.
  destruct (entries t !! j) as [e0|] eqn:E0; [|done]. injection Hj as <-.
  destruct (swept_cases now e0) as [[Es _]|(_ & Hu0 & [Es|Es])]; rewrite Es in *; [by apply (Ha j)|done|].
  rewrite (proj1 (poison_key _ _)). by apply (Ha j).
Qed.

(** Where the datagram stands after the pieces [bs]: not begun, with a free
    slot, or in an entry that lives until [deadline]; either way the budget has
    room for the packet twice, as a larger buffer is filled from the old one. *)
Definition standing (t : device_frag_affinity_table_t) (bs : list sbuf_t) (deadline : Z) : Prop :=
  let cost := 2 * full_charge (20 + size) (shared_padding t) in
  match bs with
  | [] => absent key t /\ Exists (fun e => in_use e = false) (entries t) /\
      retained_bytes t + cost <= kDeviceFragAffinityMaxAssemblyBytes
  | _ => exists i e, has_entry t i e /\ underway (shared_padding t) bs e /\ expires_at_ms e = deadline /\
      retained_bytes t - entry_charge e + cost <= kDeviceFragAffinityMaxAssemblyBytes
  end.

(** A first piece sets the deadline, a later one has to meet it. *)
Definition in_time (bs : list sbuf_t) (now deadline : Z) : Prop :=
  match bs with
  | [] => now +64 kDeviceFragAffinityTimeoutMs = deadline
  | _ => now < deadline
  end.

(** The entry the lookup finds for the next piece. *)
Lemma standing_serves (t t1 t2 : device_frag_affinity_table_t) (bs : list sbuf_t) (now deadline i : Z)
    (e : device_frag_affinity_entry_t) :
  table_ok t -> table_ok t1 -> table_ok t2 -> entries t1 = swept now <$> entries t -> same_config t t1 ->
  standing t bs deadline -> in_time bs now deadline -> serves t1 key now t2 i e ->
  underway (shared_padding t) bs e /\ expires_at_ms e = deadline /\
  retained_bytes t2 - entry_charge e + 2 * full_charge (20 + size) (shared_padding t) <=
    kDeviceFragAffinityMaxAssemblyBytes.
Proof.
  intros T T1 T2 E1 C1 St Ht (Hi & Hu & Hk & Hcase). pose proof (swept_retained t t1 now T T1 E1) as Hr.
  destruct bs as [|b0 bs].
  - destruct St as (Ha & _ & Hb). pose proof (swept_absent t t1 now E1 Ha) as Ha1.
    destruct Hcase as [->|(old & Hio & Huo & _ & -> & ->)]; [by destruct Hi as [_ Hi]; destruct (Ha1 _ e Hi)|].
    destruct (holds_nothing_charge old (eo_free _ _ (entry_is_ok t1 T1 i old Hio) Huo)) as [Ec _].
    splits; [|done|].
    + apply fresh_underway. apply (to_padding t T).
    + simpl. rewrite Ec. change (entry_charge (fresh_entry _ _)) with 0. lia.
  - destruct St as (i0 & e0 & [Hi0 He0] & Uw & Hd & Hb). simpl in Ht.
    assert (entries t1 !! Z.to_nat i0 = Some e0) as He1.
    { rewrite E1, list_lookup_fmap, He0. simpl. f_equal. unfold swept.
      rewrite (uw_used _ _ _ Uw). cbn [negb orb]. by replace (now <? expires_at_ms e0) with true by lia. }
    destruct Hcase as [->|(old & _ & _ & Ha & _ & _)].
    + destruct Hi as [_ Hi].
      assert (Z.to_nat i0 = Z.to_nat i) as Eii.
      { apply (to_keys t1 T1 _ _ e0 e); auto; [apply Uw|]. by rewrite (uw_key _ _ _ Uw). }
      rewrite Eii, Hi in He1. injection He1 as ->. splits; auto. lia.
    + exfalso. apply (Ha _ e0 He1); apply Uw.
Qed.

(** A piece the table accepts as it stands. *)
Record fit_piece (trusted : bool) (b : sbuf_t) : Prop := mk_fit_piece {
  fp_good : good b;
  fp_frag : is_frag (raw b) (len b);
  fp_ok : frag_ok (raw b) (len b) trusted;
  fp_key : frag_key_of b = key;
  fp_piece : piece g b
}.

Lemma fit_span (trusted : bool) (b : sbuf_t) :
  fit_piece trusted b -> acceptable b /\ spans b (v_offset (frag_view b)) /\
    0 <= v_offset (frag_view b) < size.
Proof.
  intros [G F (O1 & O2 & O3 & _ & O5 & O6) _ [Ci _ _ _]]. pose proof (view_offset_nonneg b) as Ho.
  assert (v_end (frag_view b) = v_offset (frag_view b) + (len b - 20)) as Ee by done.
  unfold spans, size. splits; try lia. split; [done|]. unfold frag_ok. auto 10.
Qed.

Section Offers.
Context (padding : Z) (trusted : bool) (deadline : Z).

(** The table keeps its configuration all along. *)
Definition serving (t : device_frag_affinity_table_t) : Prop :=
  table_ok t /\ policy t = kDeviceFragmentReassemble /\ shared t = true /\ generation_open t = true /\
  shared_padding t = padding /\ trusted_ipv4_header t = trusted.

Lemma offer_piece (t : device_frag_affinity_table_t) (pool : P) (bs : list sbuf_t) (b : sbuf_t) (now : Z) :
  serving t -> pool_inv pool -> standing t bs deadline -> in_time bs now deadline ->
  Forall (fit_piece trusted) bs -> fit_piece trusted b ->
  (forall b' x, b' ∈ bs -> spans b' x -> ~ spans b x) -> zlen bs < 16 -> creatable (20 + size) padding ->
  exists act res t' pool',
    deviceFragAffinityOffer workers_count (Some t) pool (Some (raw b)) (len b) b now =
      Ok (act, res, Some t', pool') /\ serving t' /\ pool_inv pool' /\
    ((act = kDeviceFragAffinityStaged /\ res = zero_result /\ ~ covers (bs ++ [b]) /\
      standing t' (bs ++ [b]) deadline) \/
     (act = kDeviceFragAffinityComplete /\ covers (bs ++ [b]) /\
      exists c, completed res = Some c /\ good c /\ reassembly_of g (payload c))).
Proof.
  intros (T & Hp & Hs & Ho & Hpad & Htr) I St Ht Fbs Fb Hfree Hn Hcr. pose proof Fb as [G Hf Hok Hk Pc].
  destruct (fit_span trusted b Fb) as (Hb & _).
  assert (usable t) as U by (unfold usable; by rewrite Hs).
  destruct (offer_ok workers_count t pool b now T I U G) as (act & res & t' & p' & -> & I' & _ & T' & C & D).
  do 4 eexists. split; [done|].
  assert (serving t') as Sv' by (destruct C as (? & ? & ? & ? & ? & ?); unfold serving; splits; congruence).
  splits; auto. destruct D as [(_ & Hnf & _)|(parsed & v & Hpa & _ & L)]; [done|].
  assert (parsed = kDeviceFragParseValid /\ v = frag_view b) as [-> ->].
  { destruct parsed; simpl in Hpa; [done| |by destruct Hpa as (_ & _ & ->)].
    destruct Hpa as (_ & Hnok & _). by rewrite Htr in Hnok. }
  fold (frag_key_of b) in L. inversion L as [|t1 _ E1 C1 Hfull Ha|t1 t2 i e a r t3 _ E1 C1 T1 T2 C2 Sv Of]; subst.
  - congruence.
  - exfalso. fold (frag_key_of b) in Ha. destruct bs as [|b0 bs].
    + destruct St as (_ & Hx & _). apply Exists_exists in Hx as (e & Hin & Hu).
      rewrite E1 in Hfull. rewrite Forall_fmap, Forall_forall in Hfull. specialize (Hfull e Hin). simpl in Hfull.
      destruct (swept_cases now e) as [[Es _]|(_ & ? & _)]; [rewrite Es in Hfull|]; congruence.
    + destruct St as (i0 & e0 & [_ He0] & Uw & Hd & _). simpl in Ht. apply (Ha (Z.to_nat i0) e0); [|apply Uw|].
      * rewrite E1, list_lookup_fmap, He0. simpl. f_equal. unfold swept.
        rewrite (uw_used _ _ _ Uw). cbn [negb orb]. by replace (now <? expires_at_ms e0) with true by lia.
      * rewrite (uw_key _ _ _ Uw). done.
  - change (view_key (frag_view b)) with (frag_key_of b) in Sv.
    rewrite Hk in Sv. destruct (standing_serves t t1 t2 bs now deadline i e T T1 T2 E1 C1 St Ht Sv) as (Uw & Hd & Hbud).
    destruct C2 as (_ & C2s & C2p & _ & _ & C2q). rewrite <- Hpad, <- C2p in Hcr. rewrite <- C2p in Uw, Hbud.
    destruct (offered_progress t2 T2 ltac:(congruence) ltac:(congruence) i e (proj1 Sv) bs Uw b Hb G Pc) with (now := now) (act := act) (res := res) (t' := t')
      as [(-> & -> & Hnc & e' & -> & Hd' & Uw')|?]; auto.
    { eapply Forall_impl; [exact Fbs|]. by intros ? []. }
    left. splits; auto. unfold standing. destruct (bs ++ [b]) as [|x l] eqn:El; [by destruct bs|].
    exists i, e'. splits; auto; [by apply replace_has, Sv|congruence|].
    simpl. rewrite C2p in Uw', Hbud |- *. lia.
Qed.

(** No two fragments of the list have an offset in common. *)
Definition separate (l : list sbuf_t) : Prop :=
  forall i j b b' x, l !! i = Some b -> l !! j = Some b' -> spans b x -> spans b' x -> i = j.

Lemma separate_next (bs rest : list sbuf_t) (b b' : sbuf_t) (x : Z) :
  separate (bs ++ b :: rest) -> b' ∈ bs -> spans b' x -> ~ spans b x.
Proof.
  intros S Hin Hx Hb. apply list_elem_of_lookup_1 in Hin as (i & Hi).
  assert (i = length bs) as ->.
  { apply (S i (length bs) b' b x); auto; [by apply lookup_app_l_Some|by apply list_lookup_middle]. }
  apply lookup_lt_Some in Hi. lia.
Qed.

(** The pieces already offered, in [bs], and those to come. *)
Definition partition (bs rest : list sbuf_t) : Prop :=
  Forall (fit_piece trusted) (bs ++ rest) /\ separate (bs ++ rest) /\ covers (bs ++ rest) /\
  zlen (bs ++ rest) <= 16.

Lemma not_yet (bs rest : list sbuf_t) (b : sbuf_t) : partition bs (b :: rest) -> ~ covers bs.
Proof.
  intros (F & S & _ & _) C. apply Forall_app in F as [_ F]. apply Forall_cons in F as [Fb _].
  destruct (fit_span trusted b Fb) as (_ & Hx & Hr). destruct (C _ Hr) as (b' & Hin & Hb').
  by destruct (separate_next bs rest b b' _ S Hin Hb').
Qed.

Lemma offer_next t pool bs b rest now :
  serving t -> pool_inv pool -> standing t bs deadline -> in_time bs now deadline ->
  partition bs (b :: rest) -> creatable (20 + size) padding ->
  exists act res t' pool',
    deviceFragAffinityOffer workers_count (Some t) pool (Some (raw b)) (len b) b now =
      Ok (act, res, Some t', pool') /\ serving t' /\ pool_inv pool' /\
    match rest with
    | [] => act = kDeviceFragAffinityComplete /\
        exists c, completed res = Some c /\ good c /\ reassembly_of g (payload c)
    | _ => act = kDeviceFragAffinityStaged /\ res = zero_result /\ standing t' (bs ++ [b]) deadline
    end.
Proof.
  intros Sv I St Ht Pt Hcr. pose proof Pt as (F & S & Hc & Hn). apply Forall_app in F as [Fbs F].
  apply Forall_cons in F as [Fb Frest]. rewrite zlen_app, zlen_cons in Hn. pose proof (zlen_nonneg rest).
  destruct (offer_piece t pool bs b now Sv I St Ht Fbs Fb) as (act & res & t' & p' & E & Sv' & I' & D);
    [intros b' x Hin Hx; eapply separate_next; eauto|lia|done|].
  do 4 eexists. split; [exact E|]. splits; auto. destruct rest as [|b2 rest].
  - destruct D as [(_ & _ & Hnc & _)|(-> & _ & D)]; [by destruct Hnc|by split].
  - destruct D as [(-> & -> & _ & D)|(_ & D & _)]; [by splits|]. exfalso.
    apply (not_yet (bs ++ [b]) rest b2); [|done]. unfold partition. rewrite <- !app_assoc. apply Pt.
Qed.

Lemma offers_run (rest : list (sbuf_t * Z)) : forall t pool bs b now,
  serving t -> pool_inv pool -> standing t bs deadline -> in_time bs now deadline ->
  Forall (fun p => snd p < deadline) rest ->
  partition bs (b :: rest.*1) -> creatable (20 + size) padding ->
  exists res t' pool' c,
    offer_all workers_count ((b, now) :: rest) t pool =
      Ok (replicate (length rest) (kDeviceFragAffinityStaged, zero_result) ++
          [(kDeviceFragAffinityComplete, res)], t', pool') /\
    completed res = Some c /\ good c /\ reassembly_of g (payload c).
Proof.
  induction rest as [|[b2 now2] rest IH]; intros t pool bs b now Sv I St Ht Hr Pt Hcr;
    destruct (offer_next t pool bs b _ now Sv I St Ht Pt Hcr) as (act & res & t' & p' & E & Sv' & I' & D);
    rewrite (offer_all_cons _ _ _ _ _ _ _ _ _ _ E).
  - destruct D as (-> & c & ? & ? & ?). exists res, t', p', c. auto.
  - destruct D as (-> & -> & St'). apply Forall_cons in Hr as [Hr2 Hr].
    destruct (IH t' p' (bs ++ [b]) b2 now2) as (res & t2 & p2 & c & E2 & ? & ? & ?); auto.
    + by destruct bs.
    + unfold partition. rewrite <- !app_assoc. apply Pt.
    + rewrite E2. exists res, t2, p2, c. auto.
Qed.
End Offers.
End Complete.

(** ** What the table delivers *)

Section Theorems.
Context `{Allocator} {P : Type} `{PL : PoolLaws P} (workers_count : Z) (g : datagram) (key : frag_key).

(** C5. Soundness of reassembly: whatever calls were made on a reassembling
    table, in whatever order and with whatever packets of other datagrams in
    between, if all fragments offered under a key are pieces of one datagram,
    every packet completed under that key is that datagram: all its data in
    order behind the header of its first fragment, with the length, the fragment
    field and the checksum set for the whole. *)
Theorem reassembly_sound h t (pool : P) b now res :
  table_life workers_count h t pool -> policy t = kDeviceFragmentReassemble ->
  only_pieces g key h ->
  (CallOffer b now, Some (kDeviceFragAffinityComplete, res)) ∈ h -> frag_key_of b = key ->
  exists c, completed res = Some c /\ good c /\ reassembly_of g (payload c).
Proof.
  intros L Hp Ho Hin Hk. destruct (life_faithful workers_count g key h t pool L Hp Ho) as [_ D].
  by apply (D b now kDeviceFragAffinityComplete res).
Qed.

(** C6. Completeness of reassembly: at any moment in the life of a shared,
    open, reassembling table with a free slot and room in its budget, the
    fragments of a datagram (at most 16, covering it without overlap) may arrive
    in any order within the timeout of the first: each but the last is stored
    and answered with [Staged], the last one completes the datagram. *)
Theorem reassembly_complete h t (pool : P) b now rest :
  table_life workers_count h t pool -> policy t = kDeviceFragmentReassemble ->
  shared t = true -> generation_open t = true -> absent key t ->
  Exists (fun e => in_use e = false) (entries t) ->
  creatable (20 + zlen (dg_data g)) (shared_padding t) ->
  retained_bytes t + 2 * full_charge (20 + zlen (dg_data g)) (shared_padding t) <=
    kDeviceFragAffinityMaxAssemblyBytes ->
  0 <= now -> now + kDeviceFragAffinityTimeoutMs <= UINT64_MAX ->
  Forall (fun p => snd p < now + kDeviceFragAffinityTimeoutMs) rest ->
  partition g key (trusted_ipv4_header t) [] (b :: rest.*1) ->
  exists res t' pool' c,
    offer_all workers_count ((b, now) :: rest) t pool =
      Ok (replicate (length rest) (kDeviceFragAffinityStaged, zero_result) ++
          [(kDeviceFragAffinityComplete, res)], t', pool') /\
    completed res = Some c /\ good c /\ reassembly_of g (payload c).
Proof.
  intros L Hp Hs Ho Ha Hx Hcr Hb Hn Hn2 Hr Pt. destruct (life_ok workers_count h t pool L) as [T I].
  apply (offers_run workers_count g key (shared_padding t) (trusted_ipv4_header t)
    (now + kDeviceFragAffinityTimeoutMs) rest t pool []); auto.
  - by unfold serving.
  - by unfold standing.
  - unfold in_time. apply wrap64_small. unfold kDeviceFragAffinityTimeoutMs in *. lia.
Qed.
End Theorems.

(** ** A datagram in two fragments *)

#[local] Existing Instance debug_allocator.

Definition sample_head : sbuf_t := sample_fragment 0 true [11; 12; 13; 14; 15; 16; 17; 18].
Definition sample_datagram : datagram :=
  mk_datagram (slice 0 20 (payload sample_head)) [11; 12; 13; 14; 15; 16; 17; 18; 21; 22; 23].
Definition sample_key : frag_key := mk_key 0x0a000001 0x0a000002 7 17.

Lemma sample_pieces (trusted : bool) :
  Forall (fit_piece sample_datagram sample_key trusted) [sample_tail; sample_head].
Proof.
  apply Forall_cons. split; [|apply Forall_cons; split; [|constructor]]; split.
  all: try exact sample_tail_good; try (split; [apply sample_wf; concrete|reflexivity]).
  all: try (split; [concrete..]); try concrete.
  all: unfold frag_ok; splits; try concrete; by right.
Qed.

Lemma sample_partition (trusted : bool) :
  partition sample_datagram sample_key trusted [] [sample_tail; sample_head].
Proof.
  assert (v_offset (frag_view sample_tail) = 8) as Ot by (vm_compute; reflexivity).
  assert (v_end (frag_view sample_tail) = 11) as Et by (vm_compute; reflexivity).
  assert (v_offset (frag_view sample_head) = 0) as Oh by (vm_compute; reflexivity).
  assert (v_end (frag_view sample_head) = 8) as Eh by (vm_compute; reflexivity).
  split; [apply sample_pieces|]. splits.
  - intros [|[|i]] [|[|j]] b b' x Hb Hb' Hx Hx'; try done; injection Hb as <-; injection Hb' as <-;
      unfold spans in *; lia.
  - intros x Hx. change (zlen (dg_data sample_datagram)) with 11 in Hx.
    destruct (decide (x < 8)); [exists sample_head|exists sample_tail]; (split; [|unfold spans; lia]).
    + apply elem_of_cons. right. apply elem_of_cons. by left.
    + apply elem_of_cons. by left.
  - vm_compute. congruence.
Qed.

Definition sample_shared : device_frag_affinity_table_t :=
  default sample_table (deviceFragAffinityCreateShared kDeviceFragmentReassemble 32 true).

Lemma sample_shared_life : table_life 4 [] sample_shared demo_state.
Proof.
  apply (life_create 4 false kDeviceFragmentReassemble true 32).
  - unfold u16, UINT16_MAX. lia.
  - exact (proj1 (reachable_state_inv demo_state demo_reachable)).
  - reflexivity.
Qed.

Lemma reassembly_complete_witness :
  exists res t' pool' c,
    offer_all 4 [(sample_tail, 100); (sample_head, 200)] sample_shared demo_state =
      Ok ([(kDeviceFragAffinityStaged, zero_result); (kDeviceFragAffinityComplete, res)], t', pool') /\
    completed res = Some c /\ reassembly_of sample_datagram (payload c).
Proof.
  destruct (reassembly_complete 4 sample_datagram sample_key [] sample_shared demo_state sample_tail 100
    [(sample_head, 200)]) as (res & t' & pool' & c & E & D & _ & R).
  - exact sample_shared_life.
  - reflexivity.
  - reflexivity.
  - reflexivity.
  - intros j e Hj Hu. apply lookup_replicate in Hj as [-> _]. discriminate Hu.
  - apply Exists_cons_hd. reflexivity.
  - unfold creatable. concrete.
  - vm_compute. congruence.
  - lia.
  - vm_compute. congruence.
  - repeat constructor.
  - apply sample_partition.
  - exists res, t', pool', c. split; [exact E|]. split; [exact D|exact R].
Defined.

(** The tail arrives, then the head. *)
Lemma sample_two t0 r1 t1 pool1 r2 t2 pool2 :
  table_life 4 [] t0 demo_state -> usable t0 -> usable t1 ->
  call_step 4 (CallOffer sample_tail 100) t0 demo_state = Ok (r1, t1, pool1) ->
  call_step 4 (CallOffer sample_head 200) t1 pool1 = Ok (r2, t2, pool2) ->
  table_life 4 [(CallOffer sample_tail 100, r1); (CallOffer sample_head 200, r2)] t2 pool2.
Proof.
  intros L U0 U1 E1 E2. pose proof (sample_pieces true) as F.
  apply Forall_cons in F as [Ft F]. apply Forall_cons in F as [Fh _].
  apply (life_call 4 (CallOffer sample_head 200) [(CallOffer sample_tail 100, r1)] t1 pool1); auto.
  - apply (life_call 4 (CallOffer sample_tail 100) [] t0 demo_state); auto. split; [apply Ft|done].
  - split; [apply Fh|done].
Qed.

Lemma reassembly_sound_witness :
  exists r1 t1 pool1 res t pool c,
    call_step 4 (CallOffer sample_tail 100) sample_table demo_state = Ok (r1, t1, pool1) /\
    call_step 4 (CallOffer sample_head 200) t1 pool1 = Ok (Some (kDeviceFragAffinityComplete, res), t, pool) /\
    completed res = Some c /\ reassembly_of sample_datagram (payload c).
Proof.
  destruct (call_step 4 (CallOffer sample_tail 100) sample_table demo_state) as [[[r1 t1] pool1]|f] eqn:E1;
    [|vm_compute in E1; discriminate E1].
  assert (match (call_step 4 (CallOffer sample_tail 100) sample_table demo_state) with
    | Ok (_, t1, pool1) => match call_step 4 (CallOffer sample_head 200) t1 pool1 with
      | Ok (Some (kDeviceFragAffinityComplete, _), t, _) =>
          policy t = kDeviceFragmentReassemble /\ usable t1
      | _ => False end
    | _ => False end) as B by (vm_compute; split; reflexivity).
  rewrite E1 in B.
  destruct (call_step 4 (CallOffer sample_head 200) t1 pool1)
    as [[[[[[ | | | | ] res]|] t] pool]|f] eqn:E2; try contradiction.
  destruct B as [Bp Bu]. pose proof (sample_pieces true) as F.
  apply Forall_cons in F as [Ft F]. apply Forall_cons in F as [Fh _].
  destruct (reassembly_sound 4 sample_datagram sample_key
    [(CallOffer sample_tail 100, r1); (CallOffer sample_head 200, Some (kDeviceFragAffinityComplete, res))]
    t pool sample_head 200 res) as (c & D & _ & R).
  - apply (sample_two sample_table r1 t1 pool1); auto; [exact sample_life|reflexivity].
  - exact Bp.
  - intros b now r Hin _ _.
    apply elem_of_cons in Hin as [Hin|Hin]; [injection Hin as -> _ _; apply Ft|].
    apply elem_of_cons in Hin as [Hin|Hin]; [injection Hin as -> _ _; apply Fh|].
    destruct (not_elem_of_nil _ Hin).
  - apply elem_of_cons. right. apply elem_of_cons. left. reflexivity.
  - vm_compute. reflexivity.
  - exists r1, t1, pool1, res, t, pool, c. split; [reflexivity|]. split; [exact E2|]. split; [exact D|exact R].
Defined.
