(* ===== verification/FragPreserve.v ===== *)
(** * Keeping fragments together ([ww/devices/device_frag_affinity.c])

    The preserving table never rebuilds a datagram: it holds later fragments back
    until the first one names the worker, and hands everything to that worker in
    the order of arrival. *)

From Stdlib Require Import ZArith Lia.
From stdpp Require Import base numbers option list.
From S2P Require Import Prelude ShiftBuffer Endian PoolInterface BufferPool PacketChecksum FlowHash.
From S2P Require Import FragRanges FragAffinity FragInvariant FragOffer FragLife FragReassembly.
Open Scope Z_scope.
Open Scope word_scope.

Section Preserved.
Context `{Allocator} {P : Type} `{PL : PoolLaws P} (workers_count : Z) (key : frag_key).
Implicit Types (h : list (frag_call P * reply)) (t : device_frag_affinity_table_t).

(** The fragments offered under the key, in order. *)
Definition arrival (ev : frag_call P * reply) : list sbuf_t :=
  match ev with
  | (CallOffer b _, _) => if bool_decide (frag_key_of b = key) then [b] else []
  | _ => []
  end.

(** The fragments handed to workers with the worker each one goes to: what the
    table had staged, then the fragment just offered. *)
Definition delivery (ev : frag_call P * reply) : list (sbuf_t * Z) :=
  match ev with
  | (CallOffer b _, Some (kDeviceFragAffinityDispatch, res)) =>
      if bool_decide (frag_key_of b = key)
      then (fun x => (x, result_wid res)) <$> (released res ++ [b]) else []
  | _ => []
  end.

Definition arrivals h : list sbuf_t := concat (arrival <$> h).
Definition deliveries h : list (sbuf_t * Z) := concat (delivery <$> h).

Lemma arrivals_snoc h ev : arrivals (h ++ [ev]) = arrivals h ++ arrival ev.
Proof. unfold arrivals. rewrite fmap_app, concat_app. simpl. by rewrite app_nil_r. Qed.

Lemma deliveries_snoc h ev : deliveries (h ++ [ev]) = deliveries h ++ delivery ev.
Proof. unfold deliveries. rewrite fmap_app, concat_app. simpl. by rewrite app_nil_r. Qed.

(** The worker of the datagram, by its first fragment. *)
Context (w : Z).

Definition first_decides h : Prop :=
  forall b now r z, (CallOffer b now, r) ∈ h -> acceptable b -> frag_key_of b = key ->
    v_offset (frag_view b) = 0 -> whole_hash workers_count b = Some z -> snd z = w.

(** What was sent and what the entry still holds came in this order. *)
Definition held_in_order (sent : list (sbuf_t * Z)) (came : list sbuf_t)
    (e : device_frag_affinity_entry_t) : Prop :=
  in_use e = true -> e_key e = key ->
  sent.*1 ++ staged_items (e_store e) `sublist_of` came /\
  (poisoned e = false -> wid_known e = true -> wid e = w).

Record in_order (sent : list (sbuf_t * Z)) (came : list sbuf_t) (l : list device_frag_affinity_entry_t)
  : Prop := mk_in_order {
  io_sent : sent.*1 `sublist_of` came;
  io_worker : Forall (fun d => snd d = w) sent;
  io_held : Forall (held_in_order sent came) l
}.

(** An entry that lost its buffers, or is vacated, is still in order. *)
Lemma held_emptied sent came e e' :
  sent.*1 `sublist_of` came -> held_in_order sent came e -> holds_nothing e' ->
  (in_use e' = true -> e_key e' = key -> in_use e = true /\ e_key e = key /\
     (poisoned e' = false -> poisoned e = false /\ wid_known e' = wid_known e /\ wid e' = wid e)) ->
  held_in_order sent came e'.
Proof.
  intros Hs He [N _] Hk Hu Hkey. destruct (Hk Hu Hkey) as (Hu0 & Hk0 & Hw).
  rewrite (no_items _ N), app_nil_r. split; [done|]. intros Hp Hwk. destruct (Hw Hp) as (Hp0 & E1 & E2).
  rewrite E2. apply He; auto. congruence.
Qed.

Lemma in_order_map sent came l f :
  in_order sent came l -> (forall e, held_in_order sent came e -> held_in_order sent came (f e)) ->
  in_order sent came (f <$> l).
Proof.
  intros [Hs Hw Hh] Hf. split; auto. apply Forall_fmap. eapply Forall_impl; [exact Hh|]. done.
Qed.

Lemma swept_in_order sent came now l : in_order sent came l -> in_order sent came (swept now <$> l).
Proof.
  intros O. apply in_order_map; [done|]. intros e He.
  destruct (swept_cases now e) as [[-> _]|(N & _ & [E|E])]; [done| |]; rewrite E in *.
  - by apply (held_emptied sent came e); [apply O| | |].
  - apply (held_emptied sent came e); auto; [apply O|]. rewrite poison_poisoned.
    destruct (poison_key e (expires_at_ms e)) as [-> ->]. done.
Qed.

Lemma idle_in_order sent came (c : frag_call P) t t' :
  idle_call c t t' -> in_order sent came (entries t) -> in_order sent came (entries t').
Proof.
  intros [_ E] O. destruct c; try done; rewrite E; try done.
  - apply in_order_map; [done|]. intros e He Hu Hk.
    destruct (end_entry_same now e) as (E1 & E2 & E3 & _ & Ep & _). rewrite E3.
    rewrite E2 in Hu. rewrite E1 in Hk. destruct (He Hu Hk) as [? _]. split; [done|]. rewrite Ep by done. done.
  - apply in_order_map; [done|]. intros e He. by apply (held_emptied sent came e); [apply O|..].
  - apply in_order_map; [done|]. intros e He. by apply (held_emptied sent came e); [apply O|..].
Qed.

Lemma in_order_more sent came more l : in_order sent came l -> in_order sent (came ++ more) l.
Proof.
  intros [Hs Hw Hh]. split; auto; [by apply sublist_inserts_r|]. eapply Forall_impl; [exact Hh|].
  intros e He Hu Hk. destruct (He Hu Hk). split; [by apply sublist_inserts_r|done].
Qed.

(** Changing the entry of another datagram. *)
Lemma in_order_other sent came t i e e' :
  e_key e <> key -> (in_use e' = true -> e_key e' = e_key e) ->
  in_order sent came (entries t) -> in_order sent came (entries (replace_entry t i e e')).
Proof.
  intros Hk Hk' [Hs Hw Hh]. split; auto. apply Forall_insert; [done|]. intros Hu Hkey.
  destruct Hk. by rewrite <- Hk'.
Qed.

(** Changing the entry of the datagram: no other entry has its key. *)
Lemma in_order_own sent came t i e e' :
  table_ok t -> has_entry t i e -> in_use e = true -> e_key e = key ->
  sent.*1 `sublist_of` came -> Forall (fun d => snd d = w) sent -> held_in_order sent came e' ->
  in_order sent came (entries (replace_entry t i e e')).
Proof.
  intros T [Hr Hi] Hu Hk Hs Hw He'. split; auto. apply Forall_lookup. intros j x Hj. simpl in Hj.
  destruct (decide (j = Z.to_nat i)) as [->|Hne].
  - rewrite list_lookup_insert_eq in Hj by (by apply lookup_lt_Some in Hi). by injection Hj as <-.
  - rewrite list_lookup_insert_ne in Hj by done. intros Hux Hkx. destruct Hne.
    apply (to_keys t T j (Z.to_nat i) x e); auto. congruence.
Qed.

Section Step.
Context (t : device_frag_affinity_table_t) (T : table_ok t) (Hp : policy t = kDeviceFragmentPreserve).
Context (i : Z) (e : device_frag_affinity_entry_t) (Hi : has_entry t i e) (Hu : in_use e = true).
Context (b : sbuf_t) (now : Z) (Hk : e_key e = frag_key_of b).
Context (sent : list (sbuf_t * Z)) (came : list sbuf_t) (O : in_order sent came (entries t)).

(** The entry of another datagram is kept, poisoned or vacated. *)
Lemma offered_key v parsed act res t' :
  offered workers_count t i e v parsed b now act res t' ->
  t' = t \/ exists e', t' = replace_entry t i e e' /\ (in_use e' = true -> e_key e' = e_key e).
Proof.
  intros Of. inversion Of as [| | |? ? ? ? _ _ ? _ _ R|cover z a r t1 _ _ _ _ _ _ R]; subst; auto; [| congruence|].
  - right. eexists. split; [done|]. intros _. apply poison_key.
  - destruct act; simpl in R; try done; right.
    + destruct R as (_ & _ & e' & -> & _ & He'). exists e'. split; [done|]. intros Hx. by apply He'.
    + destruct R as (_ & _ & _ & e' & -> & He' & _). by exists e'.
    + destruct R as (_ & ->). eexists. split; [done|]. intros _. apply poison_key.
Qed.

Lemma held_own : frag_key_of b = key -> held_in_order sent came e.
Proof. intros _. destruct Hi as [_ Ei]. exact (Forall_lookup_1 _ _ _ _ (io_held _ _ _ O) Ei). Qed.

Lemma poison_in_order :
  frag_key_of b = key -> in_order sent (came ++ [b]) (entries (replace_entry t i e (poison_entry e now))).
Proof.
  intros Hkey. apply in_order_own; auto; [congruence|apply sublist_inserts_r, O|apply O|].
  intros _ _. rewrite (no_items _ (proj1 (poison_nothing e now))), app_nil_r.
  split; [apply sublist_inserts_r, O|]. by rewrite poison_poisoned.
Qed.

Lemma preserved_in_order v zero cover act res t' :
  frag_key_of b = key -> poisoned e = false -> (v_offset v = 0 -> wid_known e = false -> snd zero = w) ->
  preserved t i e v b zero now cover act res t' ->
  in_order (sent ++ delivery (CallOffer b now, Some (act, res))) (came ++ [b]) (entries t').
Proof.
  intros Hkey Hpo Hz R. destruct (held_own Hkey) as [Hsub Hwid]; [done|congruence|].
  unfold delivery. rewrite bool_decide_eq_true_2 by done. destruct act; simpl in R; try done.
  - destruct R as (Hcase & -> & e' & -> & [N _] & He'). cbn [released result_wid].
    set (w' := if wid_known e then wid e else snd zero) in *.
    assert (w' = w) as Ew by (unfold w'; destruct (wid_known e) eqn:E; [auto|destruct Hcase; [done|auto]]).
    assert ((sent ++ ((fun x => (x, w')) <$> (staged_items (e_store e) ++ [b]))).*1 =
            (sent.*1 ++ staged_items (e_store e)) ++ [b]) as Ef.
    { rewrite fmap_app, <- list_fmap_compose, <- app_assoc. f_equal.
      rewrite <- (list_fmap_id (staged_items (e_store e) ++ [b])) at 2. done. }
    apply in_order_own; auto; [congruence|rewrite Ef; by apply sublist_app|..].
    + apply Forall_app. split; [apply O|]. apply Forall_fmap, Forall_true. done.
    + intros Hux Hkx. rewrite Ef, (no_items _ N), app_nil_r. split; [by apply sublist_app|].
      intros _ _. destruct (He' Hux) as (_ & _ & -> & _). done.
  - destruct R as (-> & Hwk & Hv & e' & -> & Hke & Hue & Hpe & Hwe & _ & _ & Ei). rewrite app_nil_r.
    apply in_order_own; auto; [congruence|apply sublist_inserts_r, O|apply O|].
    intros _ _. rewrite Ei, app_assoc. split; [by apply sublist_app|congruence].
  - destruct R as (-> & ->). rewrite app_nil_r. by apply poison_in_order.
Qed.

Lemma offered_in_order v parsed act res t' :
  (parsed = kDeviceFragParseValid -> v = frag_view b /\
     (frag_key_of b = key -> v_offset v = 0 -> forall z, whole_hash workers_count b = Some z -> snd z = w)) ->
  offered workers_count t i e v parsed b now act res t' ->
  in_order (sent ++ delivery (CallOffer b now, Some (act, res)))
           (came ++ arrival (CallOffer b now, Some (act, res))) (entries t').
Proof.
  intros Hv Of. unfold arrival. destruct (decide (frag_key_of b = key)) as [Hkey|Hkey].
  2: { unfold delivery. rewrite !bool_decide_eq_false_2 by done.
       assert (in_order sent came (entries t')) as O'.
       { destruct (offered_key v parsed act res t' Of) as [->|(e' & -> & He')]; [done|].
         apply in_order_other; auto. congruence. }
       rewrite app_nil_r. by destruct act; rewrite app_nil_r. }
  rewrite bool_decide_eq_true_2 by done.
  inversion Of as [| | |? ? ? ? _ _ ? _ _ R|cover z a r t1 Hpo Hpv _ _ _ Hz R]; subst.
  - rewrite app_nil_r. by apply in_order_more.
  - rewrite app_nil_r. by apply in_order_more.
  - rewrite app_nil_r. by apply poison_in_order.
  - congruence.
  - destruct (Hv eq_refl) as [-> Hdec]. apply (preserved_in_order (frag_view b) z cover); auto.
    intros Ho _. apply (Hdec Hkey Ho). by apply Hz.
Qed.
End Step.

Lemma locked_in_order t b now act res t' sent came :
  policy t = kDeviceFragmentPreserve -> in_order sent came (entries t) ->
  (acceptable b -> frag_key_of b = key -> v_offset (frag_view b) = 0 ->
     forall z, whole_hash workers_count b = Some z -> snd z = w) ->
  (exists parsed v, parsed_as (raw b) (len b) (trusted_ipv4_header t) parsed v /\
     parsed_view b parsed v /\ locked workers_count t v parsed b now act res t') ->
  in_order (sent ++ delivery (CallOffer b now, Some (act, res)))
           (came ++ arrival (CallOffer b now, Some (act, res))) (entries t').
Proof.
  intros Hp O Hz (parsed & v & Hpa & (_ & _ & Hpv) & L).
  assert (view_key v = frag_key_of b) as Hk by (eapply parsed_key; [exact Hpa|by intros ->]).
  inversion L as [Hc|t1 Ho E1 C1 Hfull Ha|t1 t2 i e a r t3 Ho E1 C1 T1 T2 C2 Sv Of]; subst.
  - unfold delivery. rewrite app_nil_r. by apply in_order_more.
  - unfold delivery. rewrite app_nil_r, E1. by apply in_order_more, swept_in_order.
  - assert (in_order sent came (entries t1)) as O1 by (rewrite E1; by apply swept_in_order).
    destruct Sv as (Hi & Hu & Hke & Hcase).
    assert (in_order sent came (entries t2)) as O2.
    { destruct Hcase as [->|(old & Hio & _ & _ & -> & ->)]; [done|]. destruct O1 as [Os Ow Oh].
      split; auto. apply Forall_insert; [done|]. intros _ _. change (staged_items _) with (@nil sbuf_t).
      by rewrite app_nil_r. }
    apply (offered_in_order t2 T2) with (i := i) (e := e) (v := v) (parsed := parsed); auto.
    + destruct C2 as (_ & _ & _ & _ & _ & ->). done.
    + congruence.
    + intros ->. destruct (parsed_fragment _ _ _ Hpa) as [? ->]. auto.
Qed.

Lemma life_in_order h t (pool : P) :
  table_life workers_count h t pool -> policy t = kDeviceFragmentPreserve -> first_decides h ->
  in_order (deliveries h) (arrivals h) (entries t).
Proof.
  induction 1 as [ps pol sh padding t pool Hp I E|c h t pool r t' pool' L IH M E]; intros Hpol Hd.
  { split; [done|constructor|]. eapply Forall_impl; [by eapply create_entries|]. by intros e ->. }
  destruct (life_ok workers_count h t pool L) as [T I].
  destruct (step_effect workers_count c t pool r t' pool' T I M E) as (T' & I' & Hstep).
  assert (policy t = kDeviceFragmentPreserve) as Hp0.
  { destruct Hstep as [(b & now & act & res & _ & _ & _ & (_ & _ & _ & _ & _ & <-) & _)|(_ & <- & _)]; done. }
  rewrite deliveries_snoc, arrivals_snoc.
  assert (in_order (deliveries h) (arrivals h) (entries t)) as O.
  { apply IH; [done|]. intros b now x z Hx. apply (Hd b now x z), elem_of_app. by left. }
  destruct Hstep as [(b & now & act & res & -> & -> & G & C & Hoff)|(_ & Hi)].
  - destruct Hoff as [(-> & _ & ->)|Hoff]; [rewrite app_nil_r; by apply in_order_more|].
    apply (locked_in_order t b now); auto. intros Hb Hk Ho z. apply (Hd b now (Some (act, res)) z); auto.
    apply elem_of_app. right. by apply list_elem_of_singleton.
  - assert (delivery (c, r) = [] /\ arrival (c, r) = []) as [-> ->].
    { destruct Hi as [_ Hi]. by destruct c. }
    rewrite !app_nil_r. by apply (idle_in_order _ _ c t).
Qed.

(** C7. Order and affinity: in any life of a preserving table, the fragments of
    a key that reach the workers are a subsequence of those that arrived, in the
    order of arrival (later ones may be held back or dropped, but none overtakes,
    none is delivered twice), and if the first fragments of the key hash to one
    worker, all of them go to that worker. *)
Theorem preserve_in_order h t (pool : P) :
  table_life workers_count h t pool -> policy t = kDeviceFragmentPreserve -> first_decides h ->
  (deliveries h).*1 `sublist_of` arrivals h /\ Forall (fun d => snd d = w) (deliveries h).
Proof. intros L Hp Hd. by destruct (life_in_order h t pool L Hp Hd). Qed.
End Preserved.

(** ** The tail is held back *)

#[local] Existing Instance debug_allocator.

Definition sample_preserving : device_frag_affinity_table_t :=
  default sample_table (deviceFragAffinityCreateShared kDeviceFragmentPreserve 0 true).

Definition sample_worker : Z := from_option snd 0 (whole_hash 4 sample_head).

Lemma preserve_in_order_witness :
  exists r1 t1 pool1 res t pool,
    let h : list (frag_call state * reply) := [(CallOffer sample_tail 100, r1);
      (CallOffer sample_head 200, Some (kDeviceFragAffinityDispatch, res))] in
    call_step 4 (CallOffer sample_tail 100) sample_preserving demo_state = Ok (r1, t1, pool1) /\
    call_step 4 (CallOffer sample_head 200) t1 pool1 = Ok (Some (kDeviceFragAffinityDispatch, res), t, pool) /\
    length (deliveries sample_key h) = 2%nat /\
    (deliveries sample_key h).*1 `sublist_of` arrivals sample_key h /\
    Forall (fun d => snd d = sample_worker) (deliveries sample_key h).
Proof.
  destruct (call_step 4 (CallOffer sample_tail 100) sample_preserving demo_state) as [[[r1 t1] pool1]|f] eqn:E1;
    [|vm_compute in E1; discriminate E1].
  assert (match (call_step 4 (CallOffer sample_tail 100) sample_preserving demo_state) with
    | Ok (r1, t1, pool1) => match call_step 4 (CallOffer sample_head 200) t1 pool1 with
      | Ok (Some (kDeviceFragAffinityDispatch, res), t, _) =>
          policy t = kDeviceFragmentPreserve /\ usable t1 /\
          length (deliveries sample_key (P := state) [(CallOffer sample_tail 100, r1);
            (CallOffer sample_head 200, Some (kDeviceFragAffinityDispatch, res))]) = 2%nat
      | _ => False end
    | _ => False end) as B by (vm_compute; repeat split).
  rewrite E1 in B.
  destruct (call_step 4 (CallOffer sample_head 200) t1 pool1)
    as [[[[[[ | | | | ] res]|] t] pool]|f] eqn:E2; try contradiction.
  destruct B as (Bp & Bu & Bl).
  destruct (preserve_in_order 4 sample_key sample_worker
    [(CallOffer sample_tail 100, r1); (CallOffer sample_head 200, Some (kDeviceFragAffinityDispatch, res))]
    t pool) as [S F].
  - apply (sample_two sample_preserving r1 t1 pool1); auto; [|reflexivity].
    apply (life_create 4 false kDeviceFragmentPreserve true 0);
      [unfold u16, UINT16_MAX; lia|exact (proj1 (reachable_state_inv demo_state demo_reachable))|reflexivity].
  - exact Bp.
  - intros b now r z Hin _ _ Ho Hz. apply elem_of_cons in Hin as [Hin|Hin].
    + injection Hin as -> _ _. vm_compute in Ho. discriminate Ho.
    + apply elem_of_cons in Hin as [Hin|Hin]; [|destruct (not_elem_of_nil _ Hin)].
      injection Hin as -> _ _. unfold sample_worker. rewrite Hz. reflexivity.
  - exists r1, t1, pool1, res, t, pool. cbv zeta. split; [reflexivity|]. split; [exact E2|].
    split; [exact Bl|split; [exact S|exact F]].
Defined.
