(* ===== verification/FragYield.v ===== *)
(** * What an offer hands out ([ww/devices/device_frag_affinity.c])

    A fragment table holds packets back and later hands out several at once.
    Counted together with the packets it holds, an offer adds at most the packet
    it was given; what it hands out are live buffers; and the worker it names was
    computed for the first fragment of the datagram. *)

From Stdlib Require Import ZArith Lia.
From stdpp Require Import base numbers option list.
From S2P Require Import Prelude ShiftBuffer PoolInterface FlowHash.
From S2P Require Import FragRanges FragAffinity FragInvariant FragOffer FragLife.
Open Scope Z_scope.
Open Scope word_scope.

(** The packets a caller gets to dispatch. *)
Definition emitted (act : device_frag_affinity_action_t) (res : device_frag_affinity_result_t) (b : sbuf_t)
  : list sbuf_t :=
  match act with
  | kDeviceFragAffinityNotFragment => [b]
  | kDeviceFragAffinityComplete => option_list (completed res)
  | kDeviceFragAffinityConsumedDrop => []
  | kDeviceFragAffinityStaged => released res
  | kDeviceFragAffinityDispatch => released res ++ [default b (input res)]
  end.

Section Yield.
Context `{Allocator} {P : Type} `{PL : PoolLaws P} (workers_count : Z).
Implicit Types (t : device_frag_affinity_table_t) (e : device_frag_affinity_entry_t).

Lemma offered_yield t i e v parsed b now act res t' :
  table_ok t -> table_ok t' -> has_entry t i e -> good b ->
  offered workers_count t i e v parsed b now act res t' ->
  zlen (emitted act res b) + staged_total t' <= staged_total t + 1 /\ Forall good (emitted act res b) /\
  (act = kDeviceFragAffinityComplete -> exists c, completed res = Some c) /\
  (act = kDeviceFragAffinityStaged -> released res = []).
Proof.
  intros T T' Hi G Of. pose proof (entry_staged_bound t T i e Hi) as Hs. pose proof (eo_store _ _ (entry_is_ok t T i e Hi)) as St.
  assert (forall e', holds_nothing e' -> staged_total (replace_entry t i e e') = staged_total t - entry_staged e) as Hn.
  { intros e' N. apply holds_nothing_charge in N as [_ Es]. simpl. lia. }
  assert (staged_total (replace_entry t i e (poison_entry e now)) = staged_total t - entry_staged e) as Hp
    by (apply Hn; unfold poison_entry; by destruct (poisoned e)).
  inversion Of as [| | |cover a r t1 _ _ _ _ _ R|cover z a r t1 _ _ _ _ _ _ R]; subst; cbn [emitted].
  1-3: splits; [rewrite ?zlen_nil; lia|by apply Forall_nil|done|done].
  - destruct act; simpl in R; try done; cbn [emitted].
    + destruct R as (-> & _ & a & _ & _ & -> & _). splits; [|by apply Forall_nil|done|done]. simpl. unfold entry_staged. simpl. rewrite zlen_nil. lia.
    + destruct R as (-> & -> & _). splits; [rewrite zlen_nil; lia|by apply Forall_nil|done|done].
    + destruct R as (_ & f & a & c & _ & _ & _ & _ & -> & Gc & _ & ->). cbn [completed option_list].
      rewrite Hn by done. splits; [unfold zlen; simpl; lia|by apply Forall_singleton|by eexists|done].
  - destruct act; simpl in R; try done; cbn [emitted].
    + destruct R as (_ & -> & e' & -> & N & _). cbn [released input]. change (default b (Some b)) with b. rewrite Hn by done. rewrite zlen_app, (so_count _ St).
      unfold entry_staged. splits; [change (zlen [b]) with 1; lia| |done|done].
      apply Forall_app. split; [apply St|by apply Forall_singleton].
    + destruct R as (-> & _ & _ & e' & -> & _ & _ & _ & _ & _ & _ & Es). splits; [|by apply Forall_nil|done|done].
      pose proof (eo_store _ _ (entry_is_ok _ T' i e' (replace_has t i e Hi e'))) as S'.
      assert (entry_staged e' = entry_staged e + 1) as Ee.
      { unfold entry_staged. rewrite <- (so_count _ S'), <- (so_count _ St), Es, zlen_app. done. }
      simpl. rewrite zlen_nil. lia.
    + destruct R as (-> & ->). splits; [rewrite zlen_nil; lia|by apply Forall_nil|done|done].
Qed.

Lemma staged_nonneg t : table_ok t -> 0 <= staged_total t.
Proof.
  intros T. rewrite (to_total t T). apply zsum_nonneg. eapply Forall_impl; [apply T|].
  intros e O. apply (entry_staged_range e (eo_store _ _ O)).
Qed.

Lemma swept_total t t1 now :
  table_ok t -> table_ok t1 -> entries t1 = swept now <$> entries t -> staged_total t1 <= staged_total t.
Proof.
  intros T T1 E. rewrite (to_total t T), (to_total t1 T1), E. apply zsum_fmap_le.
  eapply Forall_impl; [apply T|]. intros e O. pose proof (entry_staged_range e (eo_store _ _ O)). unfold swept, poison_entry.
  repeat case_match; unfold entry_staged in *; simpl; lia.
Qed.

Lemma locked_yield t v parsed b now act res t' :
  table_ok t -> table_ok t' -> good b -> locked workers_count t v parsed b now act res t' ->
  zlen (emitted act res b) + staged_total t' <= staged_total t + 1 /\ Forall good (emitted act res b) /\
  (act = kDeviceFragAffinityComplete -> exists c, completed res = Some c) /\
  (act = kDeviceFragAffinityStaged -> released res = []).
Proof.
  intros T T' G L. destruct L as [Ho|t1 Ho E1 C1 _ _|t1 t2 i e act res t' Ho E1 C1 T1 T2 C2 (Hi & Hu & _ & Sv) Of].
  - splits; [simpl; rewrite zlen_nil; lia|by apply Forall_nil|done|done].
  - pose proof (swept_total t t1 now T T' E1). splits; [simpl; rewrite zlen_nil; lia|by apply Forall_nil|done|done].
  - destruct (offered_yield _ _ _ _ _ _ _ _ _ _ T2 T' Hi G Of) as (Y & ?). split; [|done].
    pose proof (swept_total t t1 now T T1 E1). enough (staged_total t2 <= staged_total t1) by lia.
    destruct Sv as [-> |(old & Hold & Hfree & _ & -> & ->)]; [done|]. simpl.
    change (entry_staged (fresh_entry _ _)) with 0. pose proof (entry_staged_bound t1 T1 i old Hold). lia.
Qed.

(** Packets that are no fragments pass. *)
Lemma offer_plain t (pool : P) b now :
  good b -> ~ is_frag (raw b) (len b) ->
  exists res, deviceFragAffinityOffer workers_count (Some t) pool (Some (raw b)) (len b) b now =
    Ok (kDeviceFragAffinityNotFragment, res, Some t, pool).
Proof.
  intros G Hf. unfold deviceFragAffinityOffer. pose proof (room_nonneg b G) as Hr.
  destruct (parse_spec (raw b) (len b) (trusted_ipv4_header t) (raw_u8 b G)) as (r & v & -> & Hp);
    [rewrite zlen_raw by done; lia|]. step_ok. destruct r; [by eexists|by destruct Hp|by destruct Hp].
Qed.

(** ** The workers of datagrams in progress *)

Definition assigned e : Prop := in_use e = true -> wid_known e = true -> 0 <= wid e < workers_count.

Definition workers_ok t : Prop := policy t = kDeviceFragmentPreserve -> Forall assigned (entries t).

Context (Hw : 0 < workers_count).

Lemma whole_hash_worker b h w : whole_hash workers_count b = Some (h, w) -> 0 <= w < workers_count.
Proof.
  unfold whole_hash. destruct (well_formed _ _); [|done]. intros [= _ <-].
  match goal with |- context [wrap8 (?x mod _)] =>
    pose proof (Z.mod_pos_bound x workers_count Hw) as M; set (y := x mod workers_count) in * end.
  unfold wrap8. change (2 ^ 8) with 256. pose proof (Z.mod_le y 256). pose proof (Z.mod_pos_bound y 256). lia.
Qed.

Lemma replace_assigned t i e e' : Forall assigned (entries t) -> assigned e' -> Forall assigned (entries (replace_entry t i e e')).
Proof. intros F A. simpl. by apply Forall_insert. Qed.

Lemma poison_assigned e now : assigned e -> assigned (poison_entry e now).
Proof. unfold assigned, poison_entry. intros A. by destruct (poisoned e). Qed.

Lemma swept_assigned now e : assigned e -> assigned (swept now e).
Proof.
  intros A. unfold swept. repeat case_match; auto using poison_assigned; by intros ?.
Qed.

Lemma offered_workers t i e v parsed b now act res t' :
  workers_ok t -> has_entry t i e -> in_use e = true ->
  offered workers_count t i e v parsed b now act res t' ->
  workers_ok t' /\ (act = kDeviceFragAffinityDispatch -> 0 <= result_wid res < workers_count).
Proof.
  intros W [_ Hi] Hu Of. unfold workers_ok.
  assert (policy t = kDeviceFragmentPreserve -> assigned e) as Ae
    by (intros Hp; apply (Forall_lookup_1 _ _ _ _ (W Hp) Hi)).
  inversion Of as [| | |cover a r t1 _ _ Hp _ _ R|cover z a r t1 _ _ Hp _ _ Hz R]; subst.
  1-2: by split.
  - split; [|done]. intros Hp. apply replace_assigned; auto using poison_assigned.
  - split; [|by intros ->; simpl in R]. intros Hq. exfalso.
    destruct act; simpl in R; try done; [destruct R as (_ & _ & a & _ & _ & -> & _)|destruct R as (_ & -> & _)
      |destruct R as (_ & f & a & c & _ & _ & _ & _ & _ & _ & _ & ->)]; simpl in Hq; congruence.
  - specialize (W Hp). specialize (Ae Hp). destruct act; simpl in R; try done.
    + destruct R as (Hk & -> & e' & -> & _ & He). assert (0 <= (if wid_known e then wid e else z.2) < workers_count) as Hr.
      { destruct (wid_known e) eqn:Ek; [by apply Ae|]. destruct Hk as [?|Hv]; [done|].
        destruct z as [h w]. by apply (whole_hash_worker b h), Hz. }
      split; [intros _; apply replace_assigned; [done|]|done]. intros Hu' _. by destruct (He Hu') as (_ & _ & -> & _).
    + destruct R as (_ & _ & _ & e' & -> & _ & _ & _ & Hk & _). split; [|done]. intros _.
      apply replace_assigned; [done|]. intros _ Hk'. congruence.
    + destruct R as (_ & ->). split; [|done]. intros _. apply replace_assigned; auto using poison_assigned.
Qed.

Lemma locked_workers t v parsed b now act res t' :
  workers_ok t -> locked workers_count t v parsed b now act res t' ->
  workers_ok t' /\ (act = kDeviceFragAffinityDispatch -> 0 <= result_wid res < workers_count).
Proof.
  intros W L.
  assert (forall t1, entries t1 = swept now <$> entries t -> same_config t t1 -> workers_ok t1) as Ws.
  { intros t1 E (_ & _ & _ & _ & _ & Ep) Hp. rewrite E. apply Forall_fmap.
    eapply Forall_impl; [apply W; congruence|]. intros e. apply swept_assigned. }
  destruct L as [Ho|t1 Ho E1 C1 _ _|t1 t2 i e act res t' Ho E1 C1 T1 T2 C2 (Hi & Hu & _ & Sv) Of]; [by split|by split; [apply Ws|]|].
  refine (offered_workers t2 i e v parsed b now act res t' _ Hi Hu Of).
  destruct Sv as [-> |(old & Hold & Hfree & _ & -> & ->)]; [by apply Ws|]. intros Hp.
  apply replace_assigned; [by apply Ws|]. by intros _.
Qed.

(** No call of the life of a table assigns a datagram to a worker there is not. *)
Lemma call_workers (c : frag_call P) r t t' :
  workers_ok t -> offer_call workers_count c r t t' \/ r = None /\ idle_call c t t' -> workers_ok t'.
Proof.
  intros W [(b & now & act & res & -> & -> & _ & C & [(_ & _ & ->)|(parsed & v & _ & _ & L)])|[-> [Ep I]]].
  - done.
  - by apply locked_workers in L as [? _].
  - intros Hp. rewrite Ep in Hp. specialize (W Hp).
    destruct c; simpl in I; try rewrite I; try done; apply Forall_fmap; (eapply Forall_impl; [exact W|]);
      intros e A; simpl; [unfold end_entry; destruct (_ && _); exact A|exact A|exact A].
Qed.

Lemma life_workers h t pool : table_life workers_count h t pool -> workers_ok t.
Proof.
  induction 1 as [pool_set pol sh padding t pool Hp I E|c h t pool r t' pool' L W M E].
  - intros _. eapply Forall_impl; [by eapply create_entries|]. by intros e ->.
  - destruct (life_ok workers_count h t pool L) as [T I]. eapply call_workers; [exact W|].
    by eapply step_effect.
Qed.
End Yield.
