(* ===== verification/Gate.v ===== *)
(** * The quiescence gate ([ww/base/quiescence_gate.h], [ww/base/quiescence_gate.c])

    One atomic word admits operations and lets a lifecycle owner wait until the
    admitted ones have left.  The functions are translated one atomic access at
    a time; [gate_step] interleaves the accesses of any number of threads and
    gates.  A plain load may return any value the word has had, so the relaxed
    loads of the code are covered; the value a compare-and-exchange or a
    fetch-and-modify acts on is the latest one. *)

From Stdlib Require Import ZArith Lia.
From stdpp Require Import base numbers option list.
From S2P Require Import Prelude.
Open Scope Z_scope.
Open Scope word_scope.

Definition QUIESCENCE_GATE_VALUE_BITS : Z := 32.
Definition W_ATOMIC_UINT_VALUE_SIGNED : Z := 0.
Definition QUIESCENCE_GATE_CLOSED_SHIFT : Z := QUIESCENCE_GATE_VALUE_BITS - 1 - W_ATOMIC_UINT_VALUE_SIGNED.
Definition QUIESCENCE_GATE_CLOSED : Z := Z.shiftl 1 QUIESCENCE_GATE_CLOSED_SHIFT.
Definition QUIESCENCE_GATE_COUNT_MASK : Z := QUIESCENCE_GATE_CLOSED - 1.
Definition kQuiescenceGateTrackedGatesPerThread : Z := 8.

(** ** Per-thread tracking of the debug build *)

(** A gate pointer is the number of the gate. *)
Record quiescence_gate_thread_entry_t : Type := mk_tracked {
  te_gate : option nat;
  te_depth : Z
}.

Definition zero_tracked : list quiescence_gate_thread_entry_t :=
  replicate (Z.to_nat kQuiescenceGateTrackedGatesPerThread) (mk_tracked None 0).

(** The loop of the three functions: the slot of the gate, and the first free
    slot before it. *)
Fixpoint track_scan (l : list quiescence_gate_thread_entry_t) (gate : nat) (i : Z)
    (free_entry : option Z) : option Z * option Z :=
  match l with
  | [] => (None, free_entry)
  | e :: l' =>
      if bool_decide (te_gate e = Some gate) then (Some i, free_entry)
      else track_scan l' gate (i + 1)
             (match te_gate e, free_entry with None, None => Some i | _, _ => free_entry end)
  end.

Definition quiescenceGateTrackThreadEnter (entries : list quiescence_gate_thread_entry_t) (gate : nat)
  : outcome (list quiescence_gate_thread_entry_t) :=
  match track_scan entries gate 0 None with
  | (Some i, _) =>
      e ← arr_get entries i;
      arr_set entries i (mk_tracked (te_gate e) (te_depth e +32 1))
  | (None, Some i) => arr_set entries i (mk_tracked (Some gate) 1)
  | (None, None) => Fail AssertFailed
  end.

Definition quiescenceGateTrackThreadLeave (entries : list quiescence_gate_thread_entry_t) (gate : nat)
  : outcome (list quiescence_gate_thread_entry_t) :=
  match track_scan entries gate 0 None with
  | (Some i, _) =>
      e ← arr_get entries i;
      _ ← assert_ (te_depth e >? 0);
      let depth := te_depth e -32 1 in
      arr_set entries i (mk_tracked (if depth =? 0 then None else te_gate e) depth)
  | (None, _) => Fail AssertFailed
  end.

Definition quiescenceGateThreadIsInsideGate (entries : list quiescence_gate_thread_entry_t)
    (gate : nat) : bool :=
  match track_scan entries gate 0 None with
  | (Some _, _) => true
  | (None, _) => false
  end.

(** ** The operations on the word *)

Definition is_closed (state : Z) : bool := negb (Z.land state QUIESCENCE_GATE_CLOSED =? 0).
Definition in_flight (state : Z) : Z := Z.land state QUIESCENCE_GATE_COUNT_MASK.

Definition quiescenceGateInit : Z := QUIESCENCE_GATE_CLOSED.
Definition quiescenceGateIsClosedAndQuiesced (state : Z) : bool := state =? QUIESCENCE_GATE_CLOSED.
Definition quiescenceGateIsActive (state : Z) : bool := Z.land state QUIESCENCE_GATE_CLOSED =? 0.

(** Returns whether the gate was opened, and the word. *)
Definition quiescenceGateOpen (word : Z) : outcome (bool * Z) :=
  if word =? QUIESCENCE_GATE_CLOSED then mret (true, 0)
  else
    _ ← assert_ (word =? QUIESCENCE_GATE_CLOSED);
    mret (false, word).

(** One turn of the loop of [quiescenceGateEnter]: [observed] is the value read
    before, [word] the value the exchange meets, [spurious] a weak exchange that
    fails although they agree. *)
Inductive enter_turn : Type :=
  | Refused
  | Entered (word : Z)
  | Retry (observed : Z).

Definition quiescenceGateEnter (observed word : Z) (spurious : bool) : outcome enter_turn :=
  if is_closed observed then mret Refused
  else if in_flight observed =? QUIESCENCE_GATE_COUNT_MASK then Fail AssertFailed
  else if (word =? observed) && negb spurious then mret (Entered (observed +32 1))
  else mret (Retry word).

Definition quiescenceGateLeave (entries : list quiescence_gate_thread_entry_t) (gate : nat) (word : Z)
  : outcome (list quiescence_gate_thread_entry_t * Z) :=
  entries ← quiescenceGateTrackThreadLeave entries gate;
  let entered := word in
  _ ← assert_ (in_flight entered >? 0);
  _ ← abort_if (in_flight entered =? 0);
  mret (entries, word -32 1).

Definition quiescenceGateClose (entries : list quiescence_gate_thread_entry_t) (gate : nat) (word : Z)
  : outcome Z :=
  _ ← assert_ (negb (quiescenceGateThreadIsInsideGate entries gate));
  mret (Z.lor word QUIESCENCE_GATE_CLOSED).

(** The waiting loop over the values it reads: [true] once one of them shows no
    operation in flight, [false] while it is still waiting. *)
Fixpoint wait_loop (reads : list Z) : bool :=
  match reads with
  | [] => false
  | state :: reads' => if in_flight state =? 0 then true else wait_loop reads'
  end.

Definition quiescenceGateWaitQuiesced (first : Z) (reads : list Z) : outcome bool :=
  _ ← assert_ (negb (Z.land first QUIESCENCE_GATE_CLOSED =? 0));
  mret (wait_loop reads).

(** ** Threads and gates *)

(** Where the lifecycle owner of a gate stands. *)
Inductive phase_t : Set :=
  | Opened
  | Closing
  | Quiesced.

#[export] Instance phase_eq_dec : EqDecision phase_t.
Proof. solve_decision. Defined.

(** The word, all values it has had, and those since the owner last closed it. *)
Record gate_t : Type := mk_gate {
  g_word : Z;
  g_past : list Z;
  g_recent : list Z;
  g_phase : phase_t
}.

Record thread_t : Type := mk_thread {
  th_entries : list quiescence_gate_thread_entry_t;
  th_pending : option (nat * Z)
}.

Record gate_system : Type := mk_system {
  gs_gates : list gate_t;
  gs_threads : list thread_t
}.

Definition publish (g : gate_t) (word : Z) : gate_t :=
  mk_gate word (word :: g_past g) (word :: g_recent g) (g_phase g).

Definition fetch {A} (l : list A) (i : nat) : outcome A :=
  match l !! i with Some a => Ok a | None => Fail MemoryFault end.

Definition put_gate (s : gate_system) (i : nat) (g : gate_t) : gate_system :=
  mk_system (<[i := g]> (gs_gates s)) (gs_threads s).
Definition put_thread (s : gate_system) (k : nat) (th : thread_t) : gate_system :=
  mk_system (gs_gates s) (<[k := th]> (gs_threads s)).

(** One atomic access of thread [k] or of the owner of gate [i]. *)
Inductive gate_action : Type :=
  | ALoad (k i : nat) (v : Z)
  | AExchange (k : nat) (spurious : bool)
  | ALeave (k i : nat)
  | AClose (k i : nat)
  | AWait (i : nat) (first : Z) (reads : list Z)
  | AOpen (i : nat).

Definition gate_step (a : gate_action) (s : gate_system) : outcome gate_system :=
  match a with
  | ALoad k i v =>
      th ← fetch (gs_threads s) k;
      mret (put_thread s k (mk_thread (th_entries th) (Some (i, v))))
  | AExchange k spurious =>
      th ← fetch (gs_threads s) k;
      match th_pending th with
      | None => Fail MemoryFault
      | Some (i, v) =>
          g ← fetch (gs_gates s) i;
          r ← quiescenceGateEnter v (g_word g) spurious;
          match r with
          | Refused => mret (put_thread s k (mk_thread (th_entries th) None))
          | Retry v' => mret (put_thread s k (mk_thread (th_entries th) (Some (i, v'))))
          | Entered word =>
              entries ← quiescenceGateTrackThreadEnter (th_entries th) i;
              mret (put_thread (put_gate s i (publish g word)) k (mk_thread entries None))
          end
      end
  | ALeave k i =>
      th ← fetch (gs_threads s) k;
      g ← fetch (gs_gates s) i;
      '(entries, word) ← quiescenceGateLeave (th_entries th) i (g_word g);
      mret (put_thread (put_gate s i (publish g word)) k (mk_thread entries (th_pending th)))
  | AClose k i =>
      th ← fetch (gs_threads s) k;
      g ← fetch (gs_gates s) i;
      word ← quiescenceGateClose (th_entries th) i (g_word g);
      mret (put_gate s i (mk_gate word (word :: g_past g) [word] Closing))
  | AWait i first reads =>
      g ← fetch (gs_gates s) i;
      done ← quiescenceGateWaitQuiesced first reads;
      mret (if (done : bool) then put_gate s i (mk_gate (g_word g) (g_past g) (g_recent g) Quiesced) else s)
  | AOpen i =>
      g ← fetch (gs_gates s) i;
      '(ok, word) ← quiescenceGateOpen (g_word g);
      mret (put_gate s i (mk_gate word (word :: g_past g) (word :: g_recent g)
                            (if (ok : bool) then Opened else g_phase g)))
  end.

(** ** The meaning of the word *)

Definition word_of (closed : bool) (n : Z) : Z := (if closed then 2 ^ 31 else 0) + n.

Lemma word_closed (closed : bool) (n : Z) : 0 <= n < 2 ^ 31 -> is_closed (word_of closed n) = closed.
Proof.
  intros Hn. unfold is_closed. change QUIESCENCE_GATE_CLOSED with (2 ^ 31).
  rewrite land_bit_zero, negb_involutive by lia. unfold word_of.
  rewrite Z.testbit_odd, Z.shiftr_div_pow2 by lia. destruct closed.
  - replace (2 ^ 31 + n) with (n + 1 * 2 ^ 31) by lia. rewrite Z.div_add, Z.div_small by lia. done.
  - rewrite Z.add_0_l, Z.div_small by lia. done.
Qed.

Lemma word_in_flight (closed : bool) (n : Z) : 0 <= n < 2 ^ 31 -> in_flight (word_of closed n) = n.
Proof.
  intros Hn. unfold in_flight. change QUIESCENCE_GATE_COUNT_MASK with (Z.ones 31).
  rewrite Z.land_ones by lia. unfold word_of. destruct closed.
  - replace (2 ^ 31 + n) with (n + 1 * 2 ^ 31) by lia. rewrite Z.mod_add by lia. by apply Z.mod_small.
  - rewrite Z.add_0_l. by apply Z.mod_small.
Qed.

Lemma word_close (closed : bool) (n : Z) :
  0 <= n < 2 ^ 31 -> Z.lor (word_of closed n) QUIESCENCE_GATE_CLOSED = word_of true n.
Proof.
  intros Hn. change QUIESCENCE_GATE_CLOSED with (2 ^ 31). unfold word_of.
  assert (Z.lor (2 ^ 31) n = 2 ^ 31 + n) as E by (apply (lor_add _ _ 31); [lia|lia|by rewrite Z.mod_same]).
  destruct closed.
  - rewrite <- E, (Z.lor_comm (2 ^ 31) n), <- Z.lor_assoc, Z.lor_diag. by rewrite Z.lor_comm, E.
  - rewrite Z.add_0_l, Z.lor_comm. exact E.
Qed.

(** ** Tracking *)

Definition depth_in (gate : nat) (l : list quiescence_gate_thread_entry_t) : Z :=
  zsum (fun e => if bool_decide (te_gate e = Some gate) then te_depth e else 0) l.

Record tracked_ok (l : list quiescence_gate_thread_entry_t) : Prop := mk_tracked_ok {
  tk_length : zlen l = kQuiescenceGateTrackedGatesPerThread;
  tk_depth : Forall (fun e => te_gate e <> None -> 0 < te_depth e) l;
  tk_once : forall i j a b gate, l !! i = Some a -> l !! j = Some b ->
    te_gate a = Some gate -> te_gate b = Some gate -> i = j
}.

Lemma zero_tracked_ok : tracked_ok zero_tracked.
Proof.
  split; [done|by repeat constructor|]. intros i j a b gate Ha _ Hg.
  apply lookup_replicate in Ha as [-> _]. done.
Qed.

Lemma track_scan_spec (gate : nat) (l : list quiescence_gate_thread_entry_t) : forall i free r f,
  0 <= i -> track_scan l gate i free = (r, f) ->
  match r with
  | Some k => exists e, i <= k /\ l !! Z.to_nat (k - i) = Some e /\ te_gate e = Some gate
  | None => Forall (fun e => te_gate e <> Some gate) l /\
      match f with
      | Some k => free = Some k \/ exists e, i <= k /\ l !! Z.to_nat (k - i) = Some e /\ te_gate e = None
      | None => free = None /\ Forall (fun e => te_gate e <> None) l
      end
  end.
Proof.
  induction l as [|c l IH]; intros i free r f Hi E; cbn [track_scan] in E.
  { injection E as <- <-. split; [constructor|]. destruct free; auto. }
  assert (forall k, i + 1 <= k -> Z.to_nat (k - i) = S (Z.to_nat (k - (i + 1)))) as Hs by lia.
  destruct (bool_decide (te_gate c = Some gate)) eqn:Eg.
  { injection E as <- <-. apply bool_decide_eq_true in Eg. exists c. rewrite Z.sub_diag. splits; auto. lia. }
  apply bool_decide_eq_false in Eg. apply (IH (i + 1)) in E; [|lia]. destruct r as [k|].
  { destruct E as (e & Hk & Hl & ?). exists e. rewrite Hs by lia. splits; auto. lia. }
  destruct E as [Hn Hf]. split; [by constructor|]. destruct f as [k|].
  - destruct Hf as [Hf|(e & Hk & Hl & ?)].
    + destruct (te_gate c) eqn:Ec; [by left|]. destruct free; [by left|]. injection Hf as <-.
      right. exists c. rewrite Z.sub_diag. splits; auto. lia.
    + right. exists e. rewrite Hs by lia. splits; auto. lia.
  - destruct Hf as [Hf Hu]. destruct (te_gate c) eqn:Ec; [|by destruct free]. split; [done|].
    constructor; [by rewrite Ec|done].
Qed.

Lemma depth_absent (gate : nat) (l : list quiescence_gate_thread_entry_t) :
  Forall (fun e => te_gate e <> Some gate) l -> depth_in gate l = 0.
Proof.
  intros F. apply zsum_zero. eapply Forall_impl; [exact F|]. intros e He. simpl.
  by rewrite bool_decide_eq_false_2.
Qed.

Section Tracked.
Context (l : list quiescence_gate_thread_entry_t) (W : tracked_ok l) (gate : nat).

Lemma depth_nonneg : 0 <= depth_in gate l.
Proof.
  apply zsum_nonneg. eapply Forall_impl; [exact (tk_depth l W)|]. intros e He. simpl.
  case_bool_decide; [|lia]. enough (0 < te_depth e) by lia. apply He. congruence.
Qed.

(** With the gate at index [k], its depth is the one stored there. *)
Lemma depth_found (k : nat) (e : quiescence_gate_thread_entry_t) :
  l !! k = Some e -> te_gate e = Some gate -> depth_in gate l = te_depth e /\ 0 < te_depth e.
Proof.
  intros Hk Hg. assert (0 < te_depth e) as Hp.
  { pose proof (tk_depth l W) as F. rewrite Forall_lookup in F. apply (F k e Hk). congruence. }
  split; [|done]. unfold depth_in. set (f := fun e => _).
  pose proof (zsum_insert f l k e (mk_tracked None 0) Hk) as Z1.
  assert (zsum f (<[k := mk_tracked None 0]> l) = 0) as Z2.
  { apply zsum_zero, Forall_lookup. intros j a Hj. unfold f.
    destruct (decide (j = k)) as [->|Hne].
    - rewrite list_lookup_insert_eq in Hj by (by apply lookup_lt_Some in Hk). by injection Hj as <-.
    - rewrite list_lookup_insert_ne in Hj by done. rewrite bool_decide_eq_false_2; [done|].
      intros Ha. apply Hne. by apply (tk_once l W j k a e gate). }
  assert (f e = te_depth e) as Ef by (unfold f; by rewrite bool_decide_eq_true_2).
  change (f (mk_tracked None 0)) with 0 in Z1. lia.
Qed.

Lemma inside_iff : quiescenceGateThreadIsInsideGate l gate = true <-> 0 < depth_in gate l.
Proof.
  unfold quiescenceGateThreadIsInsideGate. destruct (track_scan l gate 0 None) as [[k|] f] eqn:E;
    apply track_scan_spec in E; try lia.
  - destruct E as (e & Hk & Hl & Hg). destruct (depth_found _ e Hl Hg) as [-> ?]. by split.
  - destruct E as [Hn _]. rewrite (depth_absent gate l Hn). split; [done|lia].
Qed.

(** Replacing slot [k] by one for the same gate, or for none. *)
Lemma depth_replace (k : nat) (e e' : quiescence_gate_thread_entry_t) :
  l !! k = Some e -> te_gate e = Some gate \/ te_gate e = None ->
  (te_gate e = None -> depth_in gate l = 0 /\ Forall (fun x => te_gate x <> Some gate) l) ->
  (te_gate e' = Some gate /\ 0 < te_depth e' \/ te_gate e' = None /\ te_depth e' = 0) ->
  tracked_ok (<[k := e']> l) /\ depth_in gate (<[k := e']> l) = te_depth e' /\
  forall other, other <> gate -> depth_in other (<[k := e']> l) = depth_in other l.
Proof.
  intros Hk He Hnone He'. pose proof (lookup_lt_Some _ _ _ Hk) as Hlt.
  assert (forall j a, j <> k -> l !! j = Some a -> te_gate a <> Some gate) as Hother.
  { intros j a Hj Ha Hg. destruct He as [He|He]; [apply Hj, (tk_once l W j k a e gate); auto|].
    destruct (Hnone He) as [_ F]. rewrite Forall_lookup in F. by apply (F j a). }
  splits.
  - split.
    + unfold zlen. rewrite length_insert. apply W.
    + apply Forall_insert; [apply W|]. destruct He' as [[_ ?]|[-> _]]; done.
    + intros i j a b gt Ha Hb Hga Hgb.
      destruct (decide (i = k)) as [->|Ni], (decide (j = k)) as [->|Nj]; [done| | |].
      * rewrite list_lookup_insert_eq in Ha by done. injection Ha as <-.
        rewrite list_lookup_insert_ne in Hb by done. destruct He' as [[E _]|[E _]]; [|congruence].
        assert (gt = gate) as -> by congruence. by destruct (Hother j b Nj Hb).
      * rewrite list_lookup_insert_eq in Hb by done. injection Hb as <-.
        rewrite list_lookup_insert_ne in Ha by done. destruct He' as [[E _]|[E _]]; [|congruence].
        assert (gt = gate) as -> by congruence. by destruct (Hother i a Ni Ha).
      * rewrite list_lookup_insert_ne in Ha, Hb by done. by apply (tk_once l W i j a b gt).
  - unfold depth_in. rewrite (zsum_insert _ _ _ e) by done. fold (depth_in gate l).
    destruct He as [He|He].
    + destruct (depth_found k e Hk He) as [-> _]. rewrite bool_decide_eq_true_2 by done.
      destruct He' as [[E _]|[E Hz]]; [rewrite bool_decide_eq_true_2 by done; lia|].
      rewrite bool_decide_eq_false_2 by (by rewrite E). lia.
    + destruct (Hnone He) as [-> _]. rewrite bool_decide_eq_false_2 by (by rewrite He).
      destruct He' as [[E _]|[E Hz]]; [rewrite bool_decide_eq_true_2 by done; lia|].
      rewrite bool_decide_eq_false_2 by (by rewrite E). lia.
  - intros other Hne. unfold depth_in. rewrite (zsum_insert _ _ _ e) by done.
    rewrite !bool_decide_eq_false_2; [lia| |].
    + destruct He' as [[E _]|[E _]]; rewrite E; congruence.
    + destruct He as [E|E]; rewrite E; congruence.
Qed.

Lemma track_enter_ok :
  0 < depth_in gate l < UINT32_MAX \/ Exists (fun e => te_gate e = None) l ->
  depth_in gate l < UINT32_MAX ->
  exists l', quiescenceGateTrackThreadEnter l gate = Ok l' /\ tracked_ok l' /\
    depth_in gate l' = depth_in gate l + 1 /\
    forall other, other <> gate -> depth_in other l' = depth_in other l.
Proof.
  intros Hroom Hmax. unfold quiescenceGateTrackThreadEnter. pose proof (tk_length l W) as Hlen.
  destruct (track_scan l gate 0 None) as [[k|] f] eqn:E; apply track_scan_spec in E; try lia.
  - destruct E as (e & Hk & Hl & Hg). rewrite Z.sub_0_r in Hl. rewrite (arr_get_ok l k e) by done. step_ok.
    destruct (depth_found _ e Hl Hg) as [Ed Hp]. apply lookup_lt_Some in Hl as Hlt.
    rewrite arr_set_ok by (unfold zlen; lia). rewrite wrap32_small by (unfold UINT32_MAX in *; lia).
    destruct (depth_replace _ e (mk_tracked (te_gate e) (te_depth e + 1)) Hl) as (W' & D & O);
      [auto|congruence|left; simpl; auto with lia|].
    eexists. splits; eauto. rewrite D. simpl. lia.
  - destruct E as [Hn Hf]. pose proof (depth_absent gate l Hn) as E0. destruct f as [k|].
    + destruct Hf as [?|(e & Hk & Hl & Hg)]; [done|]. rewrite Z.sub_0_r in Hl. apply lookup_lt_Some in Hl as Hlt.
      rewrite arr_set_ok by (unfold zlen; lia).
      destruct (depth_replace _ e (mk_tracked (Some gate) 1) Hl) as (W' & D & O);
        [auto|auto|left; simpl; auto with lia|].
      eexists. splits; eauto. rewrite D. simpl. lia.
    + exfalso. destruct Hf as [_ Hf]. destruct Hroom as [?|Hx]; [lia|].
      apply Exists_exists in Hx as (e & Hin & He). rewrite Forall_forall in Hf. by apply (Hf e).
Qed.

Lemma track_leave_ok :
  0 < depth_in gate l <= UINT32_MAX ->
  exists l', quiescenceGateTrackThreadLeave l gate = Ok l' /\ tracked_ok l' /\
    depth_in gate l' = depth_in gate l - 1 /\
    forall other, other <> gate -> depth_in other l' = depth_in other l.
Proof.
  intros Hd. unfold quiescenceGateTrackThreadLeave.
  destruct (track_scan l gate 0 None) as [[k|] f] eqn:E; apply track_scan_spec in E; try lia.
  2: { destruct E as [Hn _]. rewrite (depth_absent gate l Hn) in Hd. lia. }
  destruct E as (e & Hk & Hl & Hg). rewrite Z.sub_0_r in Hl. rewrite (arr_get_ok l k e) by done. step_ok.
  destruct (depth_found _ e Hl Hg) as [Ed Hp]. apply lookup_lt_Some in Hl as Hlt.
  rewrite assert_bind by lia. rewrite wrap32_small by (unfold UINT32_MAX in *; lia).
  rewrite arr_set_ok by (unfold zlen; lia).
  destruct (depth_replace _ e (mk_tracked (if te_depth e - 1 =? 0 then None else te_gate e) (te_depth e - 1)) Hl)
    as (W' & D & O); [auto|congruence| |].
  - simpl. destruct (te_depth e - 1 =? 0) eqn:Ez; bool_facts; [by right|left; auto with lia].
  - eexists. splits; eauto. rewrite D. simpl. lia.
Qed.
End Tracked.

(** ** The system *)

(** The entries of all threads in gate [i]. *)
Definition inside_total (s : gate_system) (i : nat) : Z :=
  zsum (fun th => depth_in i (th_entries th)) (gs_threads s).

Definition closed_in (p : phase_t) : bool := match p with Opened => false | _ => true end.

Section System.
(** No gate is entered more than [limit] times at once. *)
Context (limit : Z) (Hlimit : 0 <= limit < QUIESCENCE_GATE_COUNT_MASK).

Definition plausible (v : Z) : Prop := exists c n, v = word_of c n /\ 0 <= n <= limit.

Record gate_ok (s : gate_system) (i : nat) (g : gate_t) : Prop := mk_gate_ok {
  go_word : g_word g = word_of (closed_in (g_phase g)) (inside_total s i);
  go_total : 0 <= inside_total s i <= limit;
  go_past : Forall plausible (g_past g);
  go_recent : g_phase g <> Opened -> Forall (fun v => exists n, v = word_of true n /\
    inside_total s i <= n <= limit) (g_recent g);
  go_current : g_word g ∈ g_past g /\ g_word g ∈ g_recent g;
  go_quiesced : g_phase g = Quiesced -> inside_total s i = 0
}.

Record thread_ok (s : gate_system) (th : thread_t) : Prop := mk_thread_ok {
  to_entries : tracked_ok (th_entries th);
  to_pending : forall i v, th_pending th = Some (i, v) -> (i < length (gs_gates s))%nat /\ plausible v;
  to_gates : forall i, (length (gs_gates s) <= i)%nat -> depth_in i (th_entries th) = 0
}.

Record system_ok (s : gate_system) : Prop := mk_system_ok {
  so_gates : forall i g, gs_gates s !! i = Some g -> gate_ok s i g;
  so_threads : Forall (thread_ok s) (gs_threads s)
}.

(** What the callers owe: a thread enters and leaves in turn and leaves only
    what it entered, an owner closes from outside, waits after closing and opens
    what it has seen quiesced.  The values read are values of the word. *)
Definition may_act (a : gate_action) (s : gate_system) : Prop :=
  match a with
  | ALoad k i v => exists th g, gs_threads s !! k = Some th /\ gs_gates s !! i = Some g /\
      th_pending th = None /\ v ∈ g_past g
  | AExchange k _ => exists th i v, gs_threads s !! k = Some th /\ th_pending th = Some (i, v) /\
      inside_total s i < limit /\
      (0 < depth_in i (th_entries th) \/ Exists (fun e => te_gate e = None) (th_entries th))
  | ALeave k i => exists th g, gs_threads s !! k = Some th /\ gs_gates s !! i = Some g /\
      0 < depth_in i (th_entries th)
  | AClose k i => exists th g, gs_threads s !! k = Some th /\ gs_gates s !! i = Some g /\
      depth_in i (th_entries th) = 0
  | AWait i first reads => exists g, gs_gates s !! i = Some g /\ g_phase g <> Opened /\
      first ∈ g_recent g /\ Forall (fun v => v ∈ g_recent g) reads
  | AOpen i => exists g, gs_gates s !! i = Some g /\ g_phase g = Quiesced
  end.

Lemma mask_value : QUIESCENCE_GATE_COUNT_MASK = 2 ^ 31 - 1.
Proof. reflexivity. Qed.

Lemma plausible_facts (v : Z) :
  plausible v -> exists c n, v = word_of c n /\ 0 <= n <= limit /\ is_closed v = c /\ in_flight v = n.
Proof.
  intros (c & n & -> & Hn). rewrite mask_value in Hlimit. exists c, n.
  rewrite word_closed, word_in_flight by lia. splits; auto; lia.
Qed.

Lemma thread_total (s : gate_system) (k i : nat) (th : thread_t) :
  system_ok s -> gs_threads s !! k = Some th -> 0 <= depth_in i (th_entries th) <= inside_total s i.
Proof.
  intros [_ Ft] Hk. apply (zsum_bound (fun th => depth_in i (th_entries th)) _ k th); [|done].
  eapply Forall_impl; [exact Ft|]. intros t Ht. apply depth_nonneg, Ht.
Qed.

(** *** How one change moves the totals *)

Lemma total_put_thread (s : gate_system) (k i : nat) (th th' : thread_t) :
  gs_threads s !! k = Some th ->
  inside_total (put_thread s k th') i =
    inside_total s i - depth_in i (th_entries th) + depth_in i (th_entries th').
Proof. intros Hk. unfold inside_total, put_thread. simpl. by apply (zsum_insert (fun th => depth_in i (th_entries th))). Qed.

Lemma thread_ok_gates (s s' : gate_system) (th : thread_t) :
  length (gs_gates s') = length (gs_gates s) -> thread_ok s th -> thread_ok s' th.
Proof. intros E [A B C]. split; [done|by rewrite E|by rewrite E]. Qed.

(** A step that only changes what a thread is about to do. *)
Lemma pending_ok (s : gate_system) (k : nat) (th : thread_t) (pending : option (nat * Z)) :
  system_ok s -> gs_threads s !! k = Some th ->
  (forall i v, pending = Some (i, v) -> (i < length (gs_gates s))%nat /\ plausible v) ->
  system_ok (put_thread s k (mk_thread (th_entries th) pending)).
Proof.
  intros [Fg Ft] Hk Hp. set (s' := put_thread _ _ _).
  assert (forall i, inside_total s' i = inside_total s i) as Ht.
  { intros i. unfold s'. rewrite (total_put_thread s k i th) by done. simpl. lia. }
  split.
  - intros i g Hg. destruct (Fg i g Hg) as [A B C D E F]. split; rewrite ?Ht; auto.
  - apply Forall_insert.
    + eapply Forall_impl; [exact Ft|]. intros x Hx. by apply (thread_ok_gates s).
    + rewrite Forall_lookup in Ft. destruct (Ft k th Hk) as [A B C]. by split.
Qed.

(** A step that moves one thread in or out of one gate, and publishes the word. *)
Lemma moved_ok (s : gate_system) (k i : nat) (th : thread_t) (g : gate_t)
    (entries : list quiescence_gate_thread_entry_t) (pending : option (nat * Z)) (d : Z) :
  system_ok s -> gs_threads s !! k = Some th -> gs_gates s !! i = Some g ->
  tracked_ok entries -> depth_in i entries = depth_in i (th_entries th) + d ->
  (forall other, other <> i -> depth_in other entries = depth_in other (th_entries th)) ->
  (pending = None \/ pending = th_pending th) ->
  0 <= inside_total s i + d <= limit -> (d = 1 /\ g_phase g = Opened \/ d = -1) ->
  system_ok (put_thread (put_gate s i (publish g (g_word g + d))) k (mk_thread entries pending)).
Proof.
  intros S Hk Hg We Hd Ho Hp Hl Hcase. pose proof S as [Fg Ft]. set (s' := put_thread _ _ _).
  assert (length (gs_gates s') = length (gs_gates s)) as Hlen by (unfold s'; simpl; by rewrite length_insert).
  assert (forall j, inside_total s' j = inside_total s j + (if decide (j = i) then d else 0)) as Ht.
  { intros j. unfold s'. rewrite (total_put_thread _ k j th) by done.
    change (inside_total (put_gate s i _) j) with (inside_total s j). simpl. case_decide as E.
    - subst j. lia.
    - rewrite (Ho j E). lia. }
  destruct (Fg i g Hg) as [A B C D E F].
  assert (g_word g + d = word_of (closed_in (g_phase g)) (inside_total s' i)) as Ew.
  { rewrite Ht, decide_True by done. rewrite A. unfold word_of. lia. }
  assert (plausible (g_word g + d)) as Pw.
  { rewrite Ew. do 2 eexists. split; [done|]. rewrite Ht, decide_True by done. lia. }
  split.
  - intros j x Hx. simpl in Hx. destruct (decide (j = i)) as [->|Hne].
    + rewrite list_lookup_insert_eq in Hx by (by apply lookup_lt_Some in Hg). injection Hx as <-.
      split; cbn [publish g_word g_past g_recent g_phase]; auto.
      * rewrite Ht, decide_True by done. lia.
      * intros Hph. destruct Hcase as [[_ ?]|Hd1]; [done|]. constructor.
        { exists (inside_total s' i). rewrite Ew. rewrite Ht, decide_True by done.
          split; [|lia]. by destruct (g_phase g). }
        eapply Forall_impl; [exact (D Hph)|]. intros v (n & -> & Hn). exists n. split; [done|].
        rewrite Ht, decide_True by done. lia.
      * split; apply elem_of_cons; by left.
      * intros Hph. rewrite Ht, decide_True by done. specialize (F Hph).
        destruct Hcase as [[_ ?]|Hd1]; [congruence|]. lia.
    + rewrite list_lookup_insert_ne in Hx by done. destruct (Fg j x Hx) as [A' B' C' D' E' F'].
      split; rewrite ?Ht, ?decide_False, ?Z.add_0_r by done; auto.
  - apply Forall_insert.
    + eapply Forall_impl; [exact Ft|]. intros x Hx. by apply (thread_ok_gates s).
    + rewrite Forall_lookup in Ft. destruct (Ft k th Hk) as [A' B' C']. split; simpl; auto.
      * intros j v E'. rewrite length_insert. destruct Hp as [->| ->]; [done|]. by apply B'.
      * intros j Hj. rewrite length_insert in Hj. rewrite Ho; [by apply C'|].
        intros ->. apply lookup_lt_Some in Hg. lia.
Qed.

(** A step of the owner, with the threads as they are. *)
Lemma owner_ok (s : gate_system) (i : nat) (g g' : gate_t) :
  system_ok s -> gs_gates s !! i = Some g -> gate_ok s i g' -> system_ok (put_gate s i g').
Proof.
  intros [Fg Ft] Hg Hg'. split.
  - intros j x Hx. simpl in Hx. change (gate_ok (put_gate s i g') j x) with
      (gate_ok (mk_system (<[i:=g']> (gs_gates s)) (gs_threads s)) j x).
    assert (forall y, gate_ok s j y -> gate_ok (put_gate s i g') j y) as Hsame by (by intros y []).
    destruct (decide (j = i)) as [->|Hne].
    + rewrite list_lookup_insert_eq in Hx by (by apply lookup_lt_Some in Hg). injection Hx as <-. by apply Hsame.
    + rewrite list_lookup_insert_ne in Hx by done. by apply Hsame, Fg.
  - eapply Forall_impl; [exact Ft|]. intros th Hth. apply (thread_ok_gates s); [|done].
    simpl. by rewrite length_insert.
Qed.

Lemma fetch_ok {A} (l : list A) (i : nat) (a : A) : l !! i = Some a -> fetch l i = Ok a.
Proof. intros E. unfold fetch. by rewrite E. Qed.

Lemma exchange_ok (s : gate_system) (k : nat) (spurious : bool) :
  system_ok s -> may_act (AExchange k spurious) s ->
  exists s', gate_step (AExchange k spurious) s = Ok s' /\ system_ok s'.
Proof.
  intros S (th & i & v & Hk & Hp & Hl & Hroom). pose proof S as [Fg Ft]. pose proof Hlimit as Hlm. rewrite mask_value in Hlm.
  rewrite Forall_lookup in Ft. destruct (Ft k th Hk) as [We Hpend Hg0]. destruct (Hpend i v Hp) as [Hi Pv].
  destruct (lookup_lt_is_Some_2 _ _ Hi) as [g Hg]. pose proof (Fg i g Hg) as Og.
  destruct (plausible_facts v Pv) as (c & n & Ev & Hn & Hc & Hf).
  simpl. rewrite (fetch_ok _ _ _ Hk). step_ok. rewrite Hp, (fetch_ok _ _ _ Hg). step_ok.
  unfold quiescenceGateEnter. rewrite Hc, Hf. destruct c.
  { step_ok. eexists. split; [done|]. by apply pending_ok. }
  rewrite mask_value. replace (n =? 2 ^ 31 - 1) with false by lia.
  destruct ((g_word g =? v) && negb spurious) eqn:E; step_ok.
  2: { eexists. split; [done|]. apply pending_ok; [done|done|]. intros j x [= <- <-]. split; [done|].
       destruct Og as [Ew Ht _ _ _ _]. rewrite Ew. do 2 eexists. split; [done|]. lia. }
  apply andb_prop in E as [E _]. apply Z.eqb_eq in E. pose proof (go_word _ _ _ Og) as Ew. pose proof (go_total _ _ _ Og) as Ht.
  pose proof (thread_total s k i th S Hk) as Hd.
  destruct (track_enter_ok (th_entries th) We i) as (entries & -> & We' & D & O);
    [destruct Hroom; [left|by right]; unfold UINT32_MAX; lia|unfold UINT32_MAX; lia|]. step_ok.
  assert (g_phase g = Opened) as Hph.
  { rewrite Ev in E. rewrite Ew in E. unfold word_of in E. destruct (g_phase g); simpl in E; [done|lia|lia]. }
  eexists. split; [done|]. rewrite wrap32_small by (rewrite Ev; unfold word_of, UINT32_MAX; lia). rewrite <- E.
  apply (moved_ok s k i th g entries None 1); auto. lia.
Qed.

Lemma leave_ok (s : gate_system) (k i : nat) :
  system_ok s -> may_act (ALeave k i) s ->
  exists s', gate_step (ALeave k i) s = Ok s' /\ system_ok s'.
Proof.
  intros S (th & g & Hk & Hg & Hd). pose proof S as [Fg Ft]. pose proof Hlimit as Hlm. rewrite mask_value in Hlm.
  rewrite Forall_lookup in Ft. destruct (Ft k th Hk) as [We _ _]. pose proof (Fg i g Hg) as Og.
  pose proof (go_word _ _ _ Og) as Ew. pose proof (go_total _ _ _ Og) as Ht.
  pose proof (thread_total s k i th S Hk) as Hdt.
  simpl. rewrite (fetch_ok _ _ _ Hk). step_ok. rewrite (fetch_ok _ _ _ Hg). step_ok.
  unfold quiescenceGateLeave.
  destruct (track_leave_ok (th_entries th) We i) as (entries & -> & We' & D & O); [unfold UINT32_MAX; lia|].
  step_ok. rewrite Ew, word_in_flight by lia. rewrite assert_bind by lia. rewrite abort_bind by lia.
  step_ok. eexists. split; [done|]. rewrite <- Ew.
  rewrite wrap32_small by (rewrite Ew; unfold word_of, UINT32_MAX; destruct (closed_in _); lia).
  apply (moved_ok s k i th g entries (th_pending th) (-1)); auto; lia.
Qed.

Lemma owner_step_ok (s : gate_system) (a : gate_action) :
  system_ok s -> may_act a s ->
  match a with AClose _ _ | AWait _ _ _ | AOpen _ => True | _ => False end ->
  exists s', gate_step a s = Ok s' /\ system_ok s'.
Proof.
  intros S M Ha. pose proof S as [Fg Ft]. pose proof Hlimit as Hl. rewrite mask_value in Hl.
  destruct a as [| | |k i|i first reads|i]; try done; simpl in M |- *; clear Ha.
  - destruct M as (th & g & Hk & Hg & Hd). rewrite Forall_lookup in Ft. destruct (Ft k th Hk) as [We _ _].
    destruct (Fg i g Hg) as [Ew Ht Hpast _ _ _]. rewrite (fetch_ok _ _ _ Hk). step_ok.
    rewrite (fetch_ok _ _ _ Hg). step_ok. unfold quiescenceGateClose.
    pose proof (inside_iff (th_entries th) We i) as Hin. destruct (quiescenceGateThreadIsInsideGate _ i);
      [destruct Hin as [Hin _]; specialize (Hin eq_refl); lia|].
    rewrite assert_bind by done. step_ok. eexists. split; [done|].
    rewrite Ew, word_close by lia. apply (owner_ok s i g); auto.
    assert (plausible (word_of true (inside_total s i))) as Pw by (do 2 eexists; split; [done|]; lia).
    split; cbn [g_word g_past g_recent g_phase closed_in]; auto; try done.
    + intros _. repeat constructor. eexists. split; [done|]. lia.
    + split; apply elem_of_cons; by left.
  - destruct M as (g & Hg & Hph & Hfirst & Hreads). destruct (Fg i g Hg) as [Ew Ht Hpast Hrec Hcur Hq].
    specialize (Hrec Hph). rewrite (fetch_ok _ _ _ Hg). step_ok. unfold quiescenceGateWaitQuiesced.
    assert (is_closed first = true) as Hc.
    { rewrite Forall_forall in Hrec. destruct (Hrec first Hfirst) as (n & -> & Hn). apply word_closed. lia. }
    unfold is_closed in Hc. rewrite assert_bind by done. step_ok. eexists. split; [done|].
    destruct (wait_loop reads) eqn:Ew'; [|done]. apply (owner_ok s i g); auto.
    assert (inside_total s i = 0) as Hz.
    { clear - Hreads Hrec Ew' Ht Hl. induction reads as [|v reads IH]; [done|]. cbn [wait_loop] in Ew'.
      apply Forall_cons in Hreads as [Hv Hreads]. destruct (in_flight v =? 0) eqn:E; [|by apply IH]. bool_facts.
      rewrite Forall_forall in Hrec. destruct (Hrec v Hv) as (n & -> & Hn). rewrite word_in_flight in E by lia. lia. }
    split; cbn [g_word g_past g_recent g_phase closed_in]; auto. destruct (g_phase g); [done|done|done].
  - destruct M as (g & Hg & Hph). destruct (Fg i g Hg) as [Ew Ht Hpast Hrec Hcur Hq]. specialize (Hq Hph).
    rewrite (fetch_ok _ _ _ Hg). step_ok. unfold quiescenceGateOpen. rewrite Ew, Hph, Hq. step_ok.
    eexists. split; [done|]. apply (owner_ok s i g); auto.
    split; cbn [g_word g_past g_recent g_phase closed_in]; auto; try done.
    + constructor; [|done]. exists false, 0. split; [done|lia].
    + split; apply elem_of_cons; by left.
Qed.

Lemma act_ok (s : gate_system) (a : gate_action) :
  system_ok s -> may_act a s -> exists s', gate_step a s = Ok s' /\ system_ok s'.
Proof.
  intros S M. destruct a as [k i v|k spurious|k i|k i|i first reads|i];
    [|by apply exchange_ok|by apply leave_ok|by apply owner_step_ok|by apply owner_step_ok|by apply owner_step_ok].
  destruct M as (th & g & Hk & Hg & Hp & Hv). simpl. rewrite (fetch_ok _ _ _ Hk). step_ok.
  eexists. split; [done|]. apply pending_ok; [done|done|]. intros j x [= <- <-].
  split; [by apply lookup_lt_Some in Hg|]. pose proof (go_past _ _ _ (so_gates s S i g Hg)) as F.
  rewrite Forall_forall in F. by apply F.
Qed.

(** ** Every interleaving *)

Definition new_gate : gate_t := mk_gate quiescenceGateInit [quiescenceGateInit] [quiescenceGateInit] Quiesced.

Inductive gate_run (gates threads : nat) : gate_system -> Prop :=
  | run_init : gate_run gates threads
      (mk_system (replicate gates new_gate) (replicate threads (mk_thread zero_tracked None)))
  | run_step a s s' :
      gate_run gates threads s -> may_act a s -> gate_step a s = Ok s' -> gate_run gates threads s'.

Lemma run_ok (gates threads : nat) (s : gate_system) : gate_run gates threads s -> system_ok s.
Proof.
  induction 1 as [|a s s' _ IH M E].
  - assert (forall i, depth_in i zero_tracked = 0) as Hz by (intros i; apply depth_absent; by repeat constructor).
    assert (forall i, inside_total (mk_system (replicate gates new_gate)
      (replicate threads (mk_thread zero_tracked None))) i = 0) as Ht.
    { intros i. apply zsum_replicate. apply Hz. }
    split.
    + intros i g Hg. apply lookup_replicate in Hg as [-> _]. split; rewrite ?Ht; try done; try lia.
      * repeat constructor. exists true, 0. split; [done|lia].
      * intros _. repeat constructor. exists 0. split; [done|lia].
      * split; apply elem_of_cons; by left.
    + apply Forall_replicate. split; [apply zero_tracked_ok|done|]. intros i _. apply Hz.
  - destruct (act_ok s a IH M) as (s2 & E2 & S2). rewrite E in E2. by injection E2 as <-.
Qed.

(** C35. The quiescence gate: under every interleaving of the atomic accesses of
    any number of threads and owners, the word counts the operations in flight
    exactly; once an owner has closed a gate and seen it quiesced, no thread is
    inside it, until the owner opens it again; no access of a caller that keeps
    the contract fails an assertion or underflows; and when the threads have
    left a closing gate the waiting owner returns. *)
Theorem quiescence_exclusive (gates threads : nat) (s : gate_system) :
  gate_run gates threads s ->
  (forall i g, gs_gates s !! i = Some g ->
     in_flight (g_word g) = inside_total s i /\
     quiescenceGateIsActive (g_word g) = bool_decide (g_phase g = Opened)) /\
  (forall i g, gs_gates s !! i = Some g -> g_phase g = Quiesced ->
     quiescenceGateIsClosedAndQuiesced (g_word g) = true /\
     Forall (fun th => quiescenceGateThreadIsInsideGate (th_entries th) i = false) (gs_threads s)) /\
  (forall a, may_act a s -> exists s', gate_step a s = Ok s') /\
  (forall i g, gs_gates s !! i = Some g -> g_phase g = Closing -> inside_total s i = 0 ->
     quiescenceGateWaitQuiesced (g_word g) [g_word g] = Ok true).
Proof.
  intros R. pose proof (run_ok gates threads s R) as S. pose proof S as [Fg Ft].
  pose proof Hlimit as Hl. rewrite mask_value in Hl. splits.
  - intros i g Hg. destruct (Fg i g Hg) as [Ew Ht _ _ _ _]. rewrite Ew, word_in_flight by lia. split; [done|].
    pose proof (word_closed (closed_in (g_phase g)) (inside_total s i)) as Hc. unfold is_closed in Hc.
    unfold quiescenceGateIsActive. destruct (_ =? 0); simpl in Hc; destruct (g_phase g); simpl in *; auto with lia.
  - intros i g Hg Hph. destruct (Fg i g Hg) as [Ew _ _ _ _ Hq]. specialize (Hq Hph). split.
    + rewrite Ew, Hph, Hq. reflexivity.
    + apply Forall_lookup. intros k th Hk. rewrite Forall_lookup in Ft. destruct (Ft k th Hk) as [We _ _].
      pose proof (thread_total s k i th S Hk). pose proof (inside_iff (th_entries th) We i) as Hin.
      destruct (quiescenceGateThreadIsInsideGate _ i); [|done]. destruct Hin as [Hin _]. specialize (Hin eq_refl). lia.
  - intros a M. destruct (act_ok s a S M) as (s' & E & _). eauto.
  - intros i g Hg Hph Hz. destruct (Fg i g Hg) as [Ew _ _ _ _ _]. rewrite Ew, Hph, Hz. reflexivity.
Qed.
End System.

(** One gate, two threads: the first is inside when the second closes. *)
Definition demo_gate_actions : list gate_action :=
  [AOpen 0; ALoad 0 0 0; AExchange 0 false; AClose 1 0].

Fixpoint run_actions (l : list gate_action) (s : gate_system) : outcome gate_system :=
  match l with
  | [] => mret s
  | a :: l => s ← gate_step a s; run_actions l s
  end.

Definition demo_gates (n : nat) : gate_system :=
  let init := mk_system [new_gate] [mk_thread zero_tracked None; mk_thread zero_tracked None] in
  match run_actions (take n demo_gate_actions) init with Ok s => s | Fail _ => init end.

Lemma quiescence_exclusive_witness :
  inside_total (demo_gates 4) 0 = 1 /\
  (forall a, may_act 10 a (demo_gates 4) -> exists s', gate_step a (demo_gates 4) = Ok s').
Proof.
  split; [reflexivity|].
  refine (proj1 (proj2 (proj2 (quiescence_exclusive 10 _ 1 2 (demo_gates 4) _)))); [vm_compute; split; congruence|].
  apply (run_step 10 1 2 (AClose 1 0) (demo_gates 3)); [|do 2 eexists; repeat split; reflexivity|reflexivity].
  apply (run_step 10 1 2 (AExchange 0 false) (demo_gates 2)); [| |reflexivity].
  2: { do 3 eexists. repeat split; try reflexivity. right. apply Exists_cons_hd. reflexivity. }
  apply (run_step 10 1 2 (ALoad 0 0 0) (demo_gates 1)); [| |reflexivity].
  2: { do 2 eexists. repeat split; try reflexivity. apply elem_of_cons. left. reflexivity. }
  apply (run_step 10 1 2 (AOpen 0) (demo_gates 0)); [apply run_init|eexists; split; reflexivity|reflexivity].
Defined.
