(* ===== verification/ReaderSession.v ===== *)
(** * The device reader session ([ww/devices/device_reader_session.c],
      [device_reader_budget.c], [device_reader_dispatch.c])

    Reader threads post batches of packets to workers through a session.  A
    budget bounds what is queued, each worker has an ordered queue that one
    scheduled token drains, and the session lives until its last reference.

    The session is one record, its reader pool included.  A message is a value;
    [list] positions stand for the linked list of a queue.  Every critical
    section and every atomic access is a definition of its own, so that
    [ReaderSystem] can interleave them; the functions of the sources compose
    them.  What the caller's thread and the worker message service decide is an
    argument: [accept] (the service takes the token), [local] (the thread runs
    in a callback of the target worker with a burst open). *)

From Stdlib Require Import ZArith Lia.
From stdpp Require Import base numbers option list.
From S2P Require Import Prelude ShiftBuffer PoolInterface FlowHash FragAffinity Gate.
Open Scope Z_scope.
Open Scope word_scope.

Definition kDeviceReaderWorkerPacketQuantum : Z := 256.
Definition kDeviceReaderWorkerByteQuantum : Z := 256 * 1024.

Inductive device_reader_post_result_e : Set :=
  | kDeviceReaderPostAccepted
  | kDeviceReaderPostCapacity
  | kDeviceReaderPostClosed.

Record device_reader_work_budget_t : Type := mk_work_budget {
  wb_packets : Z;
  wb_bytes : Z
}.

(** A message carries buffers or one work item.  [m_charges] is the parallel
    array of a budgeted session; [m_prepare] the function that completes a packet
    before delivery, the identity if there is none; [m_work] the charge and the
    packets reserved for a work item. *)
Record device_reader_message_t : Type := mk_message {
  m_generation : Z;
  m_consumed : Z;
  m_bufs : list sbuf_t;
  m_charges : list Z;
  m_prepare : sbuf_t -> sbuf_t;
  m_work : option (Z * Z)
}.

Definition set_consumed (m : device_reader_message_t) (n : Z) : device_reader_message_t :=
  mk_message (m_generation m) n (m_bufs m) (m_charges m) (m_prepare m) (m_work m).

(** [wq_burst] is the open burst of the owner, with its [owns_drain]. *)
Record device_reader_worker_queue_t : Type := mk_worker_queue {
  wq_messages : list device_reader_message_t;
  wq_scheduled : bool;
  wq_burst : option bool
}.

Record output_budget_t : Type := mk_output {
  output_charge : Z;
  output_packets : Z;
  output_waiting : bool;
  output_charge_limit : Z;
  output_packet_limit : Z
}.

Record device_reader_session_t (P : Type) : Type := mk_session {
  refcount : Z;
  generation : Z;
  producer_admission : bool;
  distribution_next : Z;
  opaque_flow_mode : device_opaque_flow_mode_t;
  delivery_gate : Z;
  capacity_notify_gate : Z;
  capacity_notify : bool;
  batch_capacity : Z;
  budget : output_budget_t;
  worker_queues : option (list device_reader_worker_queue_t);
  frag_affinity : device_frag_affinity_table_t;
  reader_pool_set : bool;
  reader_buffer_pool : P;
  freed : bool
}.
Arguments mk_session {P}.
Arguments refcount {P}.
Arguments generation {P}.
Arguments producer_admission {P}.
Arguments distribution_next {P}.
Arguments opaque_flow_mode {P}.
Arguments delivery_gate {P}.
Arguments capacity_notify_gate {P}.
Arguments capacity_notify {P}.
Arguments batch_capacity {P}.
Arguments budget {P}.
Arguments worker_queues {P}.
Arguments frag_affinity {P}.
Arguments reader_pool_set {P}.
Arguments reader_buffer_pool {P}.
Arguments freed {P}.

Section Session.
Context `{Allocator} {P : Type} `{PoolOps P}.
Implicit Types (s : device_reader_session_t P).

(** ** Field updates *)

Definition set_refcount s (n : Z) : device_reader_session_t P :=
  mk_session n (generation s) (producer_admission s) (distribution_next s) (opaque_flow_mode s)
    (delivery_gate s) (capacity_notify_gate s) (capacity_notify s) (batch_capacity s) (budget s)
    (worker_queues s) (frag_affinity s) (reader_pool_set s) (reader_buffer_pool s) (freed s).
Definition set_budget s (x : output_budget_t) : device_reader_session_t P :=
  mk_session (refcount s) (generation s) (producer_admission s) (distribution_next s) (opaque_flow_mode s)
    (delivery_gate s) (capacity_notify_gate s) (capacity_notify s) (batch_capacity s) x
    (worker_queues s) (frag_affinity s) (reader_pool_set s) (reader_buffer_pool s) (freed s).
Definition set_queues s (q : option (list device_reader_worker_queue_t)) : device_reader_session_t P :=
  mk_session (refcount s) (generation s) (producer_admission s) (distribution_next s) (opaque_flow_mode s)
    (delivery_gate s) (capacity_notify_gate s) (capacity_notify s) (batch_capacity s) (budget s)
    q (frag_affinity s) (reader_pool_set s) (reader_buffer_pool s) (freed s).
Definition set_gate s (word : Z) : device_reader_session_t P :=
  mk_session (refcount s) (generation s) (producer_admission s) (distribution_next s) (opaque_flow_mode s)
    word (capacity_notify_gate s) (capacity_notify s) (batch_capacity s) (budget s)
    (worker_queues s) (frag_affinity s) (reader_pool_set s) (reader_buffer_pool s) (freed s).
Definition set_frag s (t : device_frag_affinity_table_t) (set : bool) (pool : P) : device_reader_session_t P :=
  mk_session (refcount s) (generation s) (producer_admission s) (distribution_next s) (opaque_flow_mode s)
    (delivery_gate s) (capacity_notify_gate s) (capacity_notify s) (batch_capacity s) (budget s)
    (worker_queues s) t set pool (freed s).
Definition set_admission s (gen : Z) (admission : bool) (next gate notify_gate : Z)
  : device_reader_session_t P :=
  mk_session (refcount s) gen admission next (opaque_flow_mode s)
    gate notify_gate (capacity_notify s) (batch_capacity s) (budget s)
    (worker_queues s) (frag_affinity s) (reader_pool_set s) (reader_buffer_pool s) (freed s).
Definition set_next s (next : Z) : device_reader_session_t P :=
  set_admission s (generation s) (producer_admission s) next (delivery_gate s) (capacity_notify_gate s).
Definition set_freed s (pool : P) : device_reader_session_t P :=
  mk_session (refcount s) (generation s) (producer_admission s) (distribution_next s) (opaque_flow_mode s)
    (delivery_gate s) (capacity_notify_gate s) (capacity_notify s) (batch_capacity s) (budget s)
    None (frag_affinity s) (reader_pool_set s) pool true.

(** Using the session after it was freed faults. *)
Definition touch s : outcome unit := check MemoryFault (negb (freed s)).

Definition get_queue s (wid : Z) : outcome device_reader_worker_queue_t :=
  match worker_queues s with
  | None => Fail MemoryFault
  | Some qs => arr_get qs wid
  end.
Definition put_queue s (wid : Z) (q : device_reader_worker_queue_t) : outcome (device_reader_session_t P) :=
  match worker_queues s with
  | None => Fail MemoryFault
  | Some qs => qs ← arr_set qs wid q; mret (set_queues s (Some qs))
  end.

(** ** The output budget *)

(** The exchange of the waiting flag; the answer says whether the producers are
    notified. *)
Definition deviceReaderSessionSignalOutputCapacity s : bool * device_reader_session_t P :=
  let x := budget s in
  let s' := set_budget s (mk_output (output_charge x) (output_packets x) false
                            (output_charge_limit x) (output_packet_limit x)) in
  if negb (output_waiting x) then (false, s')
  else if capacity_notify s then (quiescenceGateIsActive (capacity_notify_gate s), s')
  else (true, s').

(** The critical section of a settlement. *)
Definition release_locked s (exact_charge packets : Z) : outcome (device_reader_session_t P) :=
  let x := budget s in
  _ ← abort_if ((output_charge x <? exact_charge) || (output_packets x <? packets));
  mret (set_budget s (mk_output (output_charge x -64 exact_charge) (output_packets x -32 packets)
                        (output_waiting x) (output_charge_limit x) (output_packet_limit x))).

Definition deviceReaderSessionReleaseWork s (exact_charge packets : Z)
  : outcome (device_reader_session_t P) :=
  _ ← touch s;
  _ ← assert_ (exact_charge >? 0);
  _ ← assert_ (packets >? 0);
  s ← release_locked s exact_charge packets;
  mret (snd (deviceReaderSessionSignalOutputCapacity s)).

Definition deviceReaderSessionReleaseOutput s (exact_charge : Z) : outcome (device_reader_session_t P) :=
  deviceReaderSessionReleaseWork s exact_charge 1.

(** [resources] is the mutex and the event descriptor. *)
Definition deviceReaderSessionConfigureOutputBudget s (max_charge max_packets : Z) (resources : bool)
  : outcome (bool * device_reader_session_t P) :=
  let x := budget s in
  _ ← assert_ ((max_charge >? 0) && (max_packets >? 0));
  _ ← assert_ (output_charge_limit x =? 0);
  _ ← assert_ (generation s =? 0);
  if negb resources then mret (false, s)
  else mret (true, set_budget s (mk_output (output_charge x) (output_packets x) (output_waiting x)
                                   max_charge max_packets)).

(** The critical section of a reservation: both dimensions or none. *)
Definition reserve_locked s (exact_charge packets : Z) : bool * device_reader_session_t P :=
  let x := budget s in
  if (packets >? (output_packet_limit x -32 output_packets x)) ||
     (exact_charge >? (output_charge_limit x -64 output_charge x))
  then (false, set_budget s (mk_output (output_charge x) (output_packets x) true
                               (output_charge_limit x) (output_packet_limit x)))
  else (true, set_budget s (mk_output (output_charge x +64 exact_charge) (output_packets x +32 packets)
                              (output_waiting x) (output_charge_limit x) (output_packet_limit x))).

(** [admitted] is the load of the admission flag. *)
Definition try_reserve s (admitted : bool) (exact_charge packets : Z) : outcome (bool * device_reader_session_t P) :=
  let x := budget s in
  _ ← touch s;
  _ ← assert_ (negb (output_charge_limit x =? 0));
  _ ← assert_ ((exact_charge >? 0) && (exact_charge <=? output_charge_limit x));
  _ ← assert_ ((packets >? 0) && (packets <=? output_packet_limit x));
  mret (if admitted then reserve_locked s exact_charge packets else (false, s)).

Definition deviceReaderSessionTryReserveWork s (exact_charge packets : Z)
  : outcome (bool * device_reader_session_t P) := try_reserve s (producer_admission s) exact_charge packets.

Definition deviceReaderSessionTryReserveOutput s (exact_charge : Z)
  : outcome (bool * device_reader_session_t P) := deviceReaderSessionTryReserveWork s exact_charge 1.

(** One turn of the waiting loop: the answer, or [None] to poll and try again. *)
Definition deviceReaderSessionWaitReserveWork s (charge packets gen : Z)
  : outcome (option bool * device_reader_session_t P) :=
  _ ← assert_ (negb (capacity_notify s));
  if negb (producer_admission s) || negb (gen =? generation s) then mret (Some false, s)
  else
    '(ok, s) ← deviceReaderSessionTryReserveWork s charge packets;
    mret (if (ok : bool) then Some true else None, s).

(** ** References *)

Definition deviceReaderSessionRef s : outcome (device_reader_session_t P) :=
  _ ← touch s;
  _ ← abort_if ((refcount s =? 0) || (refcount s >=? UINT32_MAX));
  mret (set_refcount s (refcount s + 1)).

Definition queue_idle (q : device_reader_worker_queue_t) : bool :=
  match wq_messages q, wq_scheduled q, wq_burst q with
  | [], false, None => true
  | _, _, _ => false
  end.

Definition deviceReaderDispatchDestroy s : outcome unit :=
  match worker_queues s with
  | None => mret tt
  | Some qs => assert_ (forallb queue_idle qs)
  end.

Definition deviceReaderSessionDestroyInternal s : outcome (device_reader_session_t P) :=
  _ ← deviceReaderDispatchDestroy s;
  pool ← deviceFragAffinityDestroy (frag_affinity s) (reader_buffer_pool s);
  mret (set_freed s pool).

Definition deviceReaderSessionUnref s : outcome (device_reader_session_t P) :=
  _ ← touch s;
  let previous := refcount s in
  let s := set_refcount s (previous -32 1) in
  _ ← assert_ (previous >? 0);
  _ ← abort_if (previous =? 0);
  if negb (previous =? 1) then mret s else deviceReaderSessionDestroyInternal s.

(** ** Messages *)

(** [for (i = consumed; i < count; i++) { sbufDestroy; if (charge) ReleaseOutput; }] *)
Fixpoint cleanup_loop s (charges : list Z) (i : Z) (n : nat) : outcome (device_reader_session_t P) :=
  match n with
  | O => mret s
  | S n' =>
      s ← match charges with
          | [] => mret s
          | _ => c ← arr_get charges i; if negb (c =? 0) then deviceReaderSessionReleaseOutput s c else mret s
          end;
      cleanup_loop s charges (i + 1) n'
  end.

Definition deviceReaderSessionCleanupMessage s (m : device_reader_message_t)
  : outcome (device_reader_session_t P) :=
  s ← match m_work m with
      | Some (charge, packets) => deviceReaderSessionReleaseWork s charge packets
      | None => cleanup_loop s (m_charges m) (m_consumed m) (Z.to_nat (zlen (m_bufs m) - m_consumed m))
      end;
  deviceReaderSessionUnref s.

Fixpoint cleanup_all s (l : list device_reader_message_t) : outcome (device_reader_session_t P) :=
  match l with
  | [] => mret s
  | m :: l => s ← deviceReaderSessionCleanupMessage s m; cleanup_all s l
  end.

(** ** Worker queues *)

(** The critical section of a cancellation. *)
Definition cancel_locked s (wid : Z) : outcome (list device_reader_message_t * device_reader_session_t P) :=
  _ ← touch s;
  q ← get_queue s wid;
  s ← put_queue s wid (mk_worker_queue [] false (wq_burst q));
  mret (wq_messages q, s).

Definition deviceReaderWorkerQueueCancel s (wid : Z) : outcome (device_reader_session_t P) :=
  '(l, s) ← cancel_locked s wid;
  s ← cleanup_all s l;
  deviceReaderSessionUnref s.

Definition deviceReaderWorkerQueueSchedule s (wid : Z) (accept : bool)
  : outcome (bool * device_reader_session_t P) :=
  if accept then mret (true, s)
  else s ← deviceReaderWorkerQueueCancel s wid; mret (false, s).

(** The critical section of an append: whether a token is to be scheduled, and
    whether the open burst takes it. *)
Definition append_locked s (m : device_reader_message_t) (wid : Z) (in_callback : bool)
  : outcome (bool * bool * device_reader_session_t P) :=
  _ ← touch s;
  q ← get_queue s wid;
  let messages := wq_messages q ++ [m] in
  if wq_scheduled q then
    s ← put_queue s wid (mk_worker_queue messages true (wq_burst q));
    mret (false, false, s)
  else
    s ← deviceReaderSessionRef s;
    match wq_burst q, in_callback with
    | Some owns_drain, true =>
        _ ← assert_ (negb owns_drain);
        s ← put_queue s wid (mk_worker_queue messages true (Some true));
        mret (true, true, s)
    | b, _ =>
        s ← put_queue s wid (mk_worker_queue messages true b);
        mret (true, false, s)
    end.

Definition deviceReaderWorkerQueueAppend s (m : device_reader_message_t) (wid : Z)
    (in_callback accept : bool) : outcome (bool * device_reader_session_t P) :=
  '(schedule, local, s) ← append_locked s m wid in_callback;
  if negb schedule || local then mret (true, s)
  else deviceReaderWorkerQueueSchedule s wid accept.

(** Bursts: opening one, and the critical section that closes it. *)
Definition deviceReaderSessionTryBeginBurst s (wid : Z) (in_callback : bool)
  : outcome (bool * device_reader_session_t P) :=
  if negb in_callback then mret (false, s)
  else
    q ← get_queue s wid;
    _ ← assert_ (match wq_burst q with None => true | Some _ => false end);
    s ← put_queue s wid (mk_worker_queue (wq_messages q) (wq_scheduled q) (Some false));
    mret (true, s).

Definition end_burst_locked s (wid : Z) : outcome (bool * device_reader_session_t P) :=
  _ ← touch s;
  q ← get_queue s wid;
  _ ← assert_ (match wq_burst q with Some _ => true | None => false end);
  s ← put_queue s wid (mk_worker_queue (wq_messages q) (wq_scheduled q) None);
  mret (default false (wq_burst q), s).

(** ** Draining a queue *)

(** The first critical section: the head, or the end of the token. *)
Definition drain_peek s (wid : Z) : outcome (option device_reader_message_t * device_reader_session_t P) :=
  _ ← touch s;
  q ← get_queue s wid;
  match wq_messages q with
  | [] => s ← put_queue s wid (mk_worker_queue [] false (wq_burst q)); mret (None, s)
  | m :: _ => mret (Some m, s)
  end.

(** Entering the delivery gate, and whether the message is of this generation. *)
Definition drain_enter s (m : device_reader_message_t) : outcome (bool * bool * device_reader_session_t P) :=
  _ ← touch s;
  r ← quiescenceGateEnter (delivery_gate s) (delivery_gate s) false;
  match r with
  | Entered word => mret (true, m_generation m =? generation s, set_gate s word)
  | _ => mret (false, false, s)
  end.

Definition drain_leave s (entered : bool) : outcome (device_reader_session_t P) :=
  if negb entered then mret s
  else
    _ ← assert_ (in_flight (delivery_gate s) >? 0);
    mret (set_gate s (delivery_gate s -32 1)).

(** The test of the inner loop. *)
Definition drain_more (m : device_reader_message_t) (b : device_reader_work_budget_t) : outcome bool :=
  if (m_consumed m <? zlen (m_bufs m)) && (wb_packets b >? 0) && (wb_bytes b >? 0) then
    x ← arr_get (m_bufs m) (m_consumed m);
    mret (negb ((sbufGetLength x >? wb_bytes b) &&
                negb (wb_packets b =? kDeviceReaderWorkerPacketQuantum)))
  else mret false.

(** Its body: one packet leaves the head of the queue, delivered or destroyed.
    Consuming it comes first in the code; the settlement follows. *)
Definition drain_take s (wid : Z) (b : device_reader_work_budget_t)
  : outcome (sbuf_t * Z * device_reader_work_budget_t * device_reader_session_t P) :=
  _ ← touch s;
  q ← get_queue s wid;
  match wq_messages q with
  | [] => Fail MemoryFault
  | m :: l =>
      x ← arr_get (m_bufs m) (m_consumed m);
      charge ← arr_get (m_charges m) (m_consumed m);
      s ← put_queue s wid (mk_worker_queue (set_consumed m (wrap16 (m_consumed m + 1)) :: l)
                             (wq_scheduled q) (wq_burst q));
      mret (x, charge, mk_work_budget (wb_packets b -32 1)
                         (wb_bytes b - Z.min (sbufGetLength x) (wb_bytes b)), s)
  end.

(** Removing the finished head. *)
Definition drain_pop s (wid : Z) : outcome (device_reader_message_t * device_reader_session_t P) :=
  _ ← touch s;
  q ← get_queue s wid;
  match wq_messages q with
  | [] => Fail AssertFailed
  | m :: l => s ← put_queue s wid (mk_worker_queue l (wq_scheduled q) (wq_burst q)); mret (m, s)
  end.

(** The last critical section: whether work is left. *)
Definition drain_end s (wid : Z) : outcome (bool * device_reader_session_t P) :=
  _ ← touch s;
  q ← get_queue s wid;
  match wq_messages q with
  | [] => s ← put_queue s wid (mk_worker_queue [] false (wq_burst q)); mret (false, s)
  | _ => mret (true, s)
  end.

(** What the head of a queue is, between the critical sections. *)
Definition queue_head s (wid : Z) : outcome device_reader_message_t :=
  q ← get_queue s wid;
  match wq_messages q with [] => Fail MemoryFault | m :: _ => mret m end.

(** The inner loop: the packets delivered, oldest first. *)
Fixpoint drain_packets (fuel : nat) s (wid : Z) (admitted : bool) (b : device_reader_work_budget_t)
  : outcome (list sbuf_t * device_reader_work_budget_t * device_reader_session_t P) :=
  match fuel with
  | O => Fail NotModelled
  | S fuel' =>
      m ← queue_head s wid;
      more ← drain_more m b;
      if negb more then mret ([], b, s)
      else
        '(x, charge, b, s) ← drain_take s wid b;
        s ← deviceReaderSessionReleaseOutput s charge;
        '(out, b, s) ← drain_packets fuel' s wid admitted b;
        mret (if admitted then m_prepare m x :: out else out, b, s)
  end.

(** A turn on a work item: its callback consumes budget and says whether it is
    finished; stale work costs one packet. *)
Definition drain_work (work : device_reader_work_budget_t -> bool * device_reader_work_budget_t)
    (admitted : bool) (b : device_reader_work_budget_t) : outcome (bool * device_reader_work_budget_t) :=
  if admitted then
    let '(done, b') := work b in
    _ ← assert_ ((wb_packets b' <=? wb_packets b) && (wb_bytes b' <=? wb_bytes b));
    _ ← assert_ (negb done || (wb_packets b' <? wb_packets b));
    mret (done, b')
  else mret (true, mk_work_budget (wb_packets b -32 1) (wb_bytes b)).

Definition finish_token s (wid : Z) (accept : bool) : outcome (device_reader_session_t P) :=
  '(more, s) ← drain_end s wid;
  if (more : bool) then '(_, s) ← deviceReaderWorkerQueueSchedule s wid accept; mret s
  else deviceReaderSessionUnref s.

(** The drain with no other thread in between; [fuel] counts its turns. *)
Fixpoint drain_loop (fuel : nat) (work : device_reader_work_budget_t -> bool * device_reader_work_budget_t)
    s (wid : Z) (b : device_reader_work_budget_t) (accept : bool)
  : outcome (list sbuf_t * device_reader_session_t P) :=
  match fuel with
  | O => Fail NotModelled
  | S fuel' =>
      if negb ((wb_packets b >? 0) && (wb_bytes b >? 0)) then
        s ← finish_token s wid accept; mret ([], s)
      else
        '(head, s) ← drain_peek s wid;
        match head with
        | None => s ← deviceReaderSessionUnref s; mret ([], s)
        | Some m =>
            '(entered, admitted, s) ← drain_enter s m;
            '(out, done, b, s) ←
              match m_work m with
              | Some _ => '(done, b) ← drain_work work admitted b; mret ([], done, b, s)
              | None =>
                  '(out, b, s) ← drain_packets (S (Z.to_nat kDeviceReaderWorkerPacketQuantum)) s wid admitted b;
                  m ← queue_head s wid;
                  mret (out, m_consumed m =? zlen (m_bufs m), b, s)
              end;
            s ← drain_leave s entered;
            if negb (done : bool) then s ← finish_token s wid accept; mret (out, s)
            else
              '(m, s) ← drain_pop s wid;
              s ← deviceReaderSessionCleanupMessage s m;
              '(out', s) ← drain_loop fuel' work s wid b accept;
              mret (out ++ out', s)
        end
  end.

Definition full_quantum : device_reader_work_budget_t :=
  mk_work_budget kDeviceReaderWorkerPacketQuantum kDeviceReaderWorkerByteQuantum.

Definition deviceReaderWorkerQueueDrain
    (work : device_reader_work_budget_t -> bool * device_reader_work_budget_t) s (wid : Z) (accept : bool)
  : outcome (list sbuf_t * device_reader_session_t P) :=
  drain_loop (S (Z.to_nat kDeviceReaderWorkerPacketQuantum)) work s wid full_quantum accept.

Definition deviceReaderSessionEndBurst
    (work : device_reader_work_budget_t -> bool * device_reader_work_budget_t) s (wid : Z) (accept : bool)
  : outcome (list sbuf_t * device_reader_session_t P) :=
  '(owns_drain, s) ← end_burst_locked s wid;
  if (owns_drain : bool) then deviceReaderWorkerQueueDrain work s wid accept else mret ([], s).

(** ** Posting *)

Definition set_pool s (pool : P) : device_reader_session_t P :=
  set_frag s (frag_affinity s) (reader_pool_set s) pool.

Fixpoint deviceReaderSessionReuseReaderBuffers s (bufs : list sbuf_t) : outcome (device_reader_session_t P) :=
  match bufs with
  | [] => mret s
  | b :: l =>
      pool ← pool_reuse (reader_buffer_pool s) b;
      deviceReaderSessionReuseReaderBuffers (set_pool s pool) l
  end.

(** [charges] is [None] for the NULL array. *)
Fixpoint deviceReaderSessionReuseReservedBuffers s (bufs : list sbuf_t) (charges : option (list Z))
    (i : Z) (detached : bool) : outcome (device_reader_session_t P) :=
  match bufs with
  | [] => mret s
  | b :: l =>
      charge ← match charges with Some cs => arr_get cs i | None => mret (sbufGetAllocationCharge b) end;
      s ← (if detached then mret s
           else pool ← pool_reuse (reader_buffer_pool s) b; mret (set_pool s pool));
      s ← deviceReaderSessionReleaseOutput s charge;
      deviceReaderSessionReuseReservedBuffers s l charges (i + 1) detached
  end.

(** The message of a post, with the charges it settles later. *)
Definition post_message s (bufs : list sbuf_t) (charges : option (list Z)) (prepare : sbuf_t -> sbuf_t)
  : device_reader_message_t :=
  let charged := negb (output_charge_limit (budget s) =? 0) in
  let derived := match worker_queues s with
                 | Some _ => sbufGetAllocationCharge <$> bufs
                 | None => replicate (length bufs) 0
                 end in
  mk_message (generation s) 0 bufs (if charged then default derived charges else []) prepare None.

(** What the environment decides in a post: the worker loops exist, the thread
    runs in a callback of the target, the service accepts. *)
Record post_env : Type := mk_env {
  loops_ready : bool;
  in_callback : bool;
  accepted : bool
}.

(** Without worker queues the message is handed to the message service, which
    keeps it ([true]) or cleans it up; the message is returned for the former. *)
Definition deviceReaderSessionPostInternal s (env : post_env) (target_wid : Z) (bufs : list sbuf_t)
    (charges : option (list Z)) (prepare : sbuf_t -> sbuf_t) (detached : bool)
  : outcome (bool * option device_reader_message_t * device_reader_session_t P) :=
  _ ← touch s;
  _ ← assert_ (detached || reader_pool_set s);
  let count := zlen bufs in
  if (count =? 0) || (count >? batch_capacity s) then
    s ← match charges with
        | Some _ => deviceReaderSessionReuseReservedBuffers s bufs charges 0 detached
        | None => deviceReaderSessionReuseReaderBuffers s bufs
        end;
    mret (false, None, s)
  else if negb (producer_admission s) || negb (loops_ready env) then
    s ← (if match charges, worker_queues s with None, None => true | _, _ => false end
         then deviceReaderSessionReuseReaderBuffers s bufs
         else deviceReaderSessionReuseReservedBuffers s bufs charges 0 detached);
    mret (false, None, s)
  else
    let m := post_message s bufs charges prepare in
    s ← deviceReaderSessionRef s;
    match worker_queues s with
    | Some _ =>
        '(ok, s) ← deviceReaderWorkerQueueAppend s m target_wid (in_callback env) (accepted env);
        mret (ok, None, s)
    | None =>
        if accepted env then mret (true, Some m, s)
        else s ← deviceReaderSessionCleanupMessage s m; mret (false, None, s)
    end.

Fixpoint charges_match (bufs : list sbuf_t) (charges : list Z) (i : Z) : outcome unit :=
  match bufs with
  | [] => mret tt
  | b :: l =>
      c ← arr_get charges i;
      _ ← abort_if (negb (c =? sbufGetAllocationCharge b));
      charges_match l charges (i + 1)
  end.

Definition deviceReaderSessionPostReserved s (env : post_env) (target_wid : Z) (bufs : list sbuf_t)
    (charges : list Z) (prepare : sbuf_t -> sbuf_t)
  : outcome (bool * option device_reader_message_t * device_reader_session_t P) :=
  _ ← assert_ (negb (output_charge_limit (budget s) =? 0));
  _ ← charges_match bufs charges 0;
  deviceReaderSessionPostInternal s env target_wid bufs (Some charges) prepare false.

(** The charge of a batch within the configured budget. *)
Fixpoint batch_charge s (bufs : list sbuf_t) (charge : Z) : outcome Z :=
  match bufs with
  | [] => mret charge
  | b :: l =>
      let next := sbufGetAllocationCharge b in
      _ ← abort_if (next >? (output_charge_limit (budget s) -64 charge));
      batch_charge s l (charge +64 next)
  end.

(** [still_open] is the second load of the admission flag, after a refusal. *)
Definition deviceReaderSessionTryPost s (env : post_env) (target_wid : Z) (bufs : list sbuf_t) (still_open : bool)
  : outcome (device_reader_post_result_e * device_reader_session_t P) :=
  qs ← match worker_queues s with Some qs => mret qs | None => Fail AssertFailed end;
  let count := zlen bufs in
  _ ← assert_ ((count >? 0) && (count <=? batch_capacity s) && (count <=? output_packet_limit (budget s)));
  _ ← assert_ (target_wid <? zlen (qs : list device_reader_worker_queue_t));
  charge ← batch_charge s bufs 0;
  '(ok, s) ← deviceReaderSessionTryReserveWork s charge count;
  if (ok : bool) then
    '(ok, _, s) ← deviceReaderSessionPostInternal s env target_wid bufs None id true;
    mret (if (ok : bool) then kDeviceReaderPostAccepted else kDeviceReaderPostClosed, s)
  else if still_open then mret (kDeviceReaderPostCapacity, s)
  else mret (kDeviceReaderPostClosed, s).

Definition work_message s (charge packets : Z) : device_reader_message_t :=
  mk_message (generation s) 0 [] [] id (Some (charge, packets)).

Definition deviceReaderSessionPostWork s (env : post_env) (target_wid charge packets : Z)
  : outcome (bool * device_reader_session_t P) :=
  _ ← assert_ (match worker_queues s with Some _ => true | None => false end);
  _ ← assert_ ((charge >? 0) && (packets >? 0));
  if negb (producer_admission s) || negb (loops_ready env) then
    s ← deviceReaderSessionReleaseWork s charge packets;
    mret (false, s)
  else
    let m := work_message s charge packets in
    s ← deviceReaderSessionRef s;
    deviceReaderWorkerQueueAppend s m target_wid (in_callback env) (accepted env).

(** [while (first + chunk < count && chunk < packet_limit)]: the longest prefix
    that fits an empty budget. *)
Fixpoint fitting_prefix s (bufs : list sbuf_t) (chunk charge : Z) : outcome (Z * Z) :=
  match bufs with
  | [] => mret (chunk, charge)
  | b :: l =>
      if negb (chunk <? output_packet_limit (budget s)) then mret (chunk, charge)
      else
        let next := sbufGetAllocationCharge b in
        _ ← abort_if (next >? output_charge_limit (budget s));
        if next >? (output_charge_limit (budget s) -64 charge) then mret (chunk, charge)
        else fitting_prefix s l (chunk + 1) (charge +64 next)
  end.

(** The loop of a blocking post.  [wait] is the waiting for the reservation with
    whatever other threads do meanwhile: turns of
    [deviceReaderSessionWaitReserveWork] until one answers. *)
Fixpoint post_loop (fuel : nat)
    (wait : device_reader_session_t P -> Z -> Z -> outcome (bool * device_reader_session_t P))
    s (env : post_env) (target_wid : Z) (bufs : list sbuf_t) : outcome (bool * device_reader_session_t P) :=
  match fuel with
  | O => Fail NotModelled
  | S fuel' =>
      match bufs with
      | [] => mret (true, s)
      | _ =>
          '(chunk, charge) ← fitting_prefix s bufs 0 0;
          _ ← assert_ (chunk >? 0);
          '(ok, s) ← wait s charge chunk;
          if negb ok then s ← deviceReaderSessionReuseReaderBuffers s bufs; mret (false, s)
          else
            let posted := take (Z.to_nat chunk) bufs in
            let rest := drop (Z.to_nat chunk) bufs in
            '(ok, _, s) ← deviceReaderSessionPostInternal s env target_wid posted None id false;
            if negb ok then s ← deviceReaderSessionReuseReaderBuffers s rest; mret (false, s)
            else post_loop fuel' wait s env target_wid rest
      end
  end.

Definition deviceReaderSessionPost
    (wait : device_reader_session_t P -> Z -> Z -> outcome (bool * device_reader_session_t P))
    s (env : post_env) (target_wid : Z) (bufs : list sbuf_t)
  : outcome (bool * option device_reader_message_t * device_reader_session_t P) :=
  let count := zlen bufs in
  if match worker_queues s with None => true | Some _ => (count =? 0) || (count >? batch_capacity s) end
  then deviceReaderSessionPostInternal s env target_wid bufs None id false
  else '(ok, s) ← post_loop (S (length bufs)) wait s env target_wid bufs; mret (ok, None, s).

(** Delivery of a message that went through the message service; [wpool] is the
    pool of the worker. *)
Fixpoint reuse_all_bufs (wpool : P) (bufs : list sbuf_t) : outcome P :=
  match bufs with
  | [] => mret wpool
  | b :: l => wpool ← pool_reuse wpool b; reuse_all_bufs wpool l
  end.

Definition deviceReaderSessionMessageReceived s (m : device_reader_message_t) (wpool : P)
  : outcome (list sbuf_t * P * device_reader_session_t P) :=
  '(entered, admitted, s) ← drain_enter s m;
  s ← (if (admitted : bool) then mret s else drain_leave s entered);
  wpool ← (if (admitted : bool) then mret wpool else reuse_all_bufs wpool (m_bufs m));
  s ← cleanup_loop s (m_charges m) 0 (length (m_bufs m));
  s ← (if (admitted : bool) then drain_leave s entered else mret s);
  s ← deviceReaderSessionUnref s;
  mret (if (admitted : bool) then m_prepare m <$> m_bufs m else [], wpool, s).

(** ** Life of a session *)

(** [resources] are the message pool and the parts of the fragment table. *)
Definition deviceReaderSessionCreate (capacity : Z) (pool : P) (policy : device_fragment_policy_t)
    (resources frag_resources : bool) : outcome (option (device_reader_session_t P)) :=
  _ ← assert_ (capacity >? 0);
  if negb resources then mret None
  else match deviceFragAffinityCreate true policy frag_resources with
       | None => mret None
       | Some t =>
           mret (Some (mk_session 1 0 false 0 kDeviceOpaqueFlowPrefix quiescenceGateInit quiescenceGateInit
                         false capacity (mk_output 0 0 false 0 0) None t true pool false))
       end.

Definition deviceReaderSessionEnableWorkerQueue s (workers_count : Z) (resources : bool)
  : outcome (bool * device_reader_session_t P) :=
  _ ← assert_ (negb (output_charge_limit (budget s) =? 0));
  _ ← assert_ (match worker_queues s with None => true | Some _ => false end);
  _ ← assert_ (generation s =? 0);
  _ ← assert_ (workers_count >? 0);
  if negb resources then mret (false, s)
  else mret (true, set_queues s (Some (replicate (Z.to_nat workers_count) (mk_worker_queue [] false None)))).

Definition deviceReaderSessionConfigureCapacityNotify s : outcome (device_reader_session_t P) :=
  _ ← assert_ (negb (output_charge_limit (budget s) =? 0));
  _ ← assert_ (generation s =? 0);
  _ ← assert_ (negb (capacity_notify s));
  mret (mk_session (refcount s) (generation s) (producer_admission s) (distribution_next s) (opaque_flow_mode s)
    (delivery_gate s) (capacity_notify_gate s) true (batch_capacity s) (budget s)
    (worker_queues s) (frag_affinity s) (reader_pool_set s) (reader_buffer_pool s) (freed s)).

Definition deviceReaderSessionSetOpaqueFlowMode s (mode : device_opaque_flow_mode_t)
  : outcome (device_reader_session_t P) :=
  _ ← assert_ (match mode with kDeviceOpaqueFlowAuto => false | _ => true end);
  _ ← assert_ (negb (producer_admission s));
  _ ← assert_ (quiescenceGateIsClosedAndQuiesced (delivery_gate s));
  mret (mk_session (refcount s) (generation s) (producer_admission s) (distribution_next s) mode
    (delivery_gate s) (capacity_notify_gate s) (capacity_notify s) (batch_capacity s) (budget s)
    (worker_queues s) (frag_affinity s) (reader_pool_set s) (reader_buffer_pool s) (freed s)).

(** Returns the generation, zero for a refusal. *)
Definition deviceReaderSessionBegin s : outcome (Z * device_reader_session_t P) :=
  _ ← touch s;
  if negb (quiescenceGateIsClosedAndQuiesced (delivery_gate s)) ||
     negb (quiescenceGateIsClosedAndQuiesced (capacity_notify_gate s)) then mret (0, s)
  else if generation s =? UINT32_MAX then mret (0, s)
  else
    let gen := generation s +32 1 in
    '(ok, word) ← quiescenceGateOpen (delivery_gate s);
    if negb ok then mret (0, s)
    else
      let t := deviceFragAffinityBeginGeneration (frag_affinity s) in
      '(_, notify) ← (if capacity_notify s
                      then '(ok, w) ← quiescenceGateOpen (capacity_notify_gate s);
                           _ ← abort_if (negb ok); mret (tt, w)
                      else mret (tt, capacity_notify_gate s));
      mret (gen, set_frag (set_admission s gen true 0 word notify) t (reader_pool_set s) (reader_buffer_pool s)).

(** The three stores of an end request; the signal is the fourth access. *)
Definition shut_admission s : device_reader_session_t P :=
  set_admission s (generation s) false (distribution_next s) (delivery_gate s) (capacity_notify_gate s).
Definition shut_notify s : outcome (device_reader_session_t P) :=
  word ← quiescenceGateClose zero_tracked 1 (capacity_notify_gate s);
  mret (set_admission s (generation s) (producer_admission s) (distribution_next s) (delivery_gate s) word).
Definition shut_delivery s : outcome (device_reader_session_t P) :=
  word ← quiescenceGateClose zero_tracked 0 (delivery_gate s);
  mret (set_admission s (generation s) (producer_admission s) (distribution_next s) word (capacity_notify_gate s)).

Definition deviceReaderSessionEndRequest s : outcome (device_reader_session_t P) :=
  _ ← touch s;
  s ← shut_notify (shut_admission s);
  s ← shut_delivery s;
  mret (snd (deviceReaderSessionSignalOutputCapacity s)).

(** [None] while one of the gates still has operations in flight. *)
Definition deviceReaderSessionEndWait s (now : Z) : outcome (option (device_reader_session_t P)) :=
  _ ← touch s;
  notify ← quiescenceGateWaitQuiesced (capacity_notify_gate s) [capacity_notify_gate s];
  gate ← quiescenceGateWaitQuiesced (delivery_gate s) [delivery_gate s];
  if negb (notify && gate) then mret None
  else mret (Some (set_frag s (deviceFragAffinityEndGeneration (frag_affinity s) now)
                     (reader_pool_set s) (reader_buffer_pool s))).

Definition deviceReaderSessionEnd s (now : Z) : outcome (option (device_reader_session_t P)) :=
  s ← deviceReaderSessionEndRequest s;
  deviceReaderSessionEndWait s now.

Definition deviceReaderSessionRetireGenerationBuffers s : outcome (device_reader_session_t P) :=
  _ ← touch s;
  _ ← assert_ (quiescenceGateIsClosedAndQuiesced (delivery_gate s));
  if negb (reader_pool_set s) then mret s
  else
    '(t, pool) ← deviceFragAffinityReleaseStagedBuffers (frag_affinity s) (reader_buffer_pool s);
    mret (set_frag s t true pool).

Definition deviceReaderSessionRetireProducerBuffers s : outcome (device_reader_session_t P) :=
  _ ← touch s;
  _ ← assert_ (quiescenceGateIsClosedAndQuiesced (delivery_gate s));
  _ ← assert_ (reader_pool_set s);
  '(t, pool) ← deviceFragAffinityRetireReleasePool (frag_affinity s) (reader_buffer_pool s);
  mret (set_frag s t false pool).
End Session.
