(* ===== verification/ReaderSystem.v ===== *)
(** * Concurrent readers and workers on one session

    [ReaderSession] splits the functions of the session into critical sections
    and atomic accesses.  Here any number of producers, settling threads and
    workers execute them in any order.  Every reference to the session belongs
    to somebody: a [job] (a thread, with the reservations it still owes), a
    message on its way to a queue, a queued message, the scheduled token of a
    queue, or an open burst.  The steps allow more than the code does: a thread
    may settle in portions, and what it read before (admission, capacity) may be
    outdated when it acts. *)

From Stdlib Require Import ZArith Lia.
From stdpp Require Import base numbers option list.
From S2P Require Import Prelude ShiftBuffer PoolInterface FlowHash FragAffinity FragInvariant FragOffer FragLife.
From S2P Require Import Gate ReaderSession.
Open Scope Z_scope.
Open Scope word_scope.

(** ** The system *)

(** What a thread with a reference still owes: reserved charge and packets, and
    a settlement whose signal has not been sent. *)
Record job : Type := mk_job {
  owed_charge : Z;
  owed_packets : Z;
  unsignalled : bool
}.

Definition settled_job : job := mk_job 0 0 false.
Definition owe (j : job) (charge packets : Z) : job :=
  mk_job (owed_charge j + charge) (owed_packets j + packets) (unsignalled j).
Definition settle (j : job) (charge packets : Z) : job :=
  mk_job (owed_charge j - charge) (owed_packets j - packets) true.
Definition signalled (j : job) : job := mk_job (owed_charge j) (owed_packets j) false.

(** Where the scheduled token of a queue is: handed to the message service,
    waiting there, kept by a burst, or in the drain. *)
Inductive token_phase : Set :=
  | Submitting
  | Waiting
  | Deferred
  | Looping
  | Peeked
  | Delivering (entered admitted : bool)
  | Leaving (entered done : bool)
  | Left (done : bool).

Record token : Type := mk_token {
  tk_phase : token_phase;
  tk_budget : device_reader_work_budget_t;
  tk_job : job
}.

Definition new_token (p : token_phase) : token := mk_token p full_quantum settled_job.
Definition at_phase (t : token) (p : token_phase) : token := mk_token p (tk_budget t) (tk_job t).

(** A packet with the generation of its message. *)
Definition packet : Type := Z * sbuf_t.

(** The token of a queue and its history: the packets appended, and the packets
    that left it, each with the generation it was delivered in, if it was. *)
Record lane : Type := mk_lane {
  ln_token : option token;
  ln_posted : list packet;
  ln_fates : list (packet * option Z)
}.

Definition with_token (ln : lane) (t : option token) : lane := mk_lane t (ln_posted ln) (ln_fates ln).

Record reader_system (P : Type) : Type := mk_readers {
  rs_session : device_reader_session_t P;
  rs_jobs : list job;
  rs_posts : list (nat * device_reader_message_t);
  rs_lanes : list lane
}.
Arguments mk_readers {P}.
Arguments rs_session {P}.
Arguments rs_jobs {P}.
Arguments rs_posts {P}.
Arguments rs_lanes {P}.

(** Who acts: a thread with a reference, or the drain of a token. *)
Inductive actor : Set := Thread (i : nat) | Lane (w : nat).

Definition callback : Type := device_reader_work_budget_t -> bool * device_reader_work_budget_t.

Inductive action (P : Type) : Type :=
  | DoRef (o : actor)
  | DoUnref (i : nat)
  | DoReserve (o : actor) (charge packets : Z)
  | DoSettle (o : actor) (charge packets : Z)
  | DoSignal (o : actor)
  | DoPost (o : actor) (w : nat) (bufs : list sbuf_t) (charges : option (list Z)) (prepare : sbuf_t -> sbuf_t)
  | DoPostWork (o : actor) (w : nat) (charge packets : Z)
  | DoAppend (k : nat) (in_callback : bool)
  | DoSubmit (w : nat) (accept : bool)
  | DoCancel (w : nat)
  | DoBeginBurst (i w : nat)
  | DoEndBurst (w : nat)
  | DoDrain (w : nat) (work : callback)
  | DoBegin
  | DoShutAdmission
  | DoShutNotify
  | DoShutDelivery
  | DoEndWait (now : Z)
  | DoRetireGeneration
  | DoRetireProducer
  | DoTable (c : frag_call P)
  | DoNext.
Arguments DoRef {P}.
Arguments DoUnref {P}.
Arguments DoReserve {P}.
Arguments DoSettle {P}.
Arguments DoSignal {P}.
Arguments DoPost {P}.
Arguments DoPostWork {P}.
Arguments DoAppend {P}.
Arguments DoSubmit {P}.
Arguments DoCancel {P}.
Arguments DoBeginBurst {P}.
Arguments DoEndBurst {P}.
Arguments DoDrain {P}.
Arguments DoBegin {P}.
Arguments DoShutAdmission {P}.
Arguments DoShutNotify {P}.
Arguments DoShutDelivery {P}.
Arguments DoEndWait {P}.
Arguments DoRetireGeneration {P}.
Arguments DoRetireProducer {P}.
Arguments DoTable {P}.
Arguments DoNext {P}.

(** What is left of a message: reservations and packets. *)
Definition m_charge (m : device_reader_message_t) : Z :=
  match m_work m with
  | Some (charge, _) => charge
  | None => zsum id (drop (Z.to_nat (m_consumed m)) (m_charges m))
  end.
Definition m_packets (m : device_reader_message_t) : Z :=
  match m_work m with
  | Some (_, packets) => packets
  | None => zlen (m_bufs m) - m_consumed m
  end.
Definition m_pending (m : device_reader_message_t) : list packet :=
  (fun b => (m_generation m, b)) <$> drop (Z.to_nat (m_consumed m)) (m_bufs m).

(** The job of the thread that cleans a message up. *)
Definition cleanup_job (m : device_reader_message_t) : job := mk_job (m_charge m) (m_packets m) false.

Definition discarded (x : packet) : packet * option Z := (x, None).

Section Steps.
Context `{Allocator} {P : Type} `{PoolOps P} (workers_count : Z).
Implicit Types (S : reader_system P).

Definition set_session S (s : device_reader_session_t P) : reader_system P :=
  mk_readers s (rs_jobs S) (rs_posts S) (rs_lanes S).
Definition add_jobs S (l : list job) : reader_system P :=
  mk_readers (rs_session S) (rs_jobs S ++ l) (rs_posts S) (rs_lanes S).
Definition drop_job S (i : nat) : reader_system P :=
  mk_readers (rs_session S) (delete i (rs_jobs S)) (rs_posts S) (rs_lanes S).
Definition add_post S (w : nat) (m : device_reader_message_t) : reader_system P :=
  mk_readers (rs_session S) (rs_jobs S) (rs_posts S ++ [(w, m)]) (rs_lanes S).
Definition drop_post S (k : nat) : reader_system P :=
  mk_readers (rs_session S) (rs_jobs S) (delete k (rs_posts S)) (rs_lanes S).
Definition put_lane S (w : nat) (ln : lane) : reader_system P :=
  mk_readers (rs_session S) (rs_jobs S) (rs_posts S) (<[w := ln]> (rs_lanes S)).

Definition get_token S (w : nat) : outcome (lane * token) :=
  ln ← fetch (rs_lanes S) w;
  match ln_token ln with Some t => mret (ln, t) | None => Fail NotModelled end.

Definition get_job S (o : actor) : outcome job :=
  match o with
  | Thread i => fetch (rs_jobs S) i
  | Lane w => '(_, t) ← get_token S w; mret (tk_job t)
  end.
Definition put_job S (o : actor) (j : job) : reader_system P :=
  match o with
  | Thread i => mk_readers (rs_session S) (<[i := j]> (rs_jobs S)) (rs_posts S) (rs_lanes S)
  | Lane w =>
      match rs_lanes S !! w with
      | Some (mk_lane (Some t) posted fates) =>
          put_lane S w (mk_lane (Some (mk_token (tk_phase t) (tk_budget t) j)) posted fates)
      | _ => S
      end
  end.

(** The token ends; the thread that ran it drops its reference. *)
Definition end_token S (w : nat) (ln : lane) (t : token) : reader_system P :=
  add_jobs (put_lane S w (with_token ln None)) [tk_job t].

(** The token is cancelled and its queue detached. *)
Definition cancel_step S (w : nat) (ln : lane) (t : token) : outcome (reader_system P) :=
  '(l, s) ← cancel_locked (rs_session S) (Z.of_nat w);
  let ln := mk_lane None (ln_posted ln) (ln_fates ln ++ (discarded <$> concat (m_pending <$> l))) in
  mret (add_jobs (put_lane (set_session S s) w ln) (tk_job t :: (cleanup_job <$> l))).

Definition end_step S (w : nat) (ln : lane) (t : token) : outcome (reader_system P) :=
  '(more, s) ← drain_end (rs_session S) (Z.of_nat w);
  let S := set_session S s in
  mret (if (more : bool) then put_lane S w (with_token ln (Some (at_phase t Submitting)))
        else end_token S w ln t).

(** A turn inside the gate: a work item, or one packet of the inner loop. *)
Definition deliver_step S (w : nat) (work : callback) (ln : lane) (t : token) (entered admitted : bool)
  : outcome (reader_system P) :=
  let s := rs_session S in
  m ← queue_head s (Z.of_nat w);
  match m_work m with
  | Some _ =>
      '(done, b) ← drain_work work admitted (tk_budget t);
      mret (put_lane S w (with_token ln (Some (mk_token (Leaving entered done) b (tk_job t)))))
  | None =>
      more ← drain_more m (tk_budget t);
      if (more : bool) then
        '(x, charge, b, s) ← drain_take s (Z.of_nat w) (tk_budget t);
        let fate := (m_generation m, x, if admitted then Some (generation s) else None) in
        mret (put_lane (set_session S s) w
                (mk_lane (Some (mk_token (tk_phase t) b (owe (tk_job t) charge 1)))
                   (ln_posted ln) (ln_fates ln ++ [fate])))
      else mret (put_lane S w (with_token ln (Some (at_phase t
                   (Leaving entered (m_consumed m =? zlen (m_bufs m)))))))
  end.

Definition drain_step S (w : nat) (work : callback) : outcome (reader_system P) :=
  '(ln, t) ← get_token S w;
  let s := rs_session S in
  let wid := Z.of_nat w in
  match tk_phase t with
  | Submitting | Deferred => Fail NotModelled
  | Waiting => mret (put_lane S w (with_token ln (Some (mk_token Looping full_quantum (tk_job t)))))
  | Looping =>
      if (wb_packets (tk_budget t) >? 0) && (wb_bytes (tk_budget t) >? 0) then
        '(head, s) ← drain_peek s wid;
        let S := set_session S s in
        mret (match head with
              | Some _ => put_lane S w (with_token ln (Some (at_phase t Peeked)))
              | None => end_token S w ln t
              end)
      else end_step S w ln t
  | Peeked =>
      m ← queue_head s wid;
      '(entered, admitted, s) ← drain_enter s m;
      mret (put_lane (set_session S s) w (with_token ln (Some (at_phase t (Delivering entered admitted)))))
  | Delivering entered admitted => deliver_step S w work ln t entered admitted
  | Leaving entered done =>
      s ← drain_leave s entered;
      mret (put_lane (set_session S s) w (with_token ln (Some (at_phase t (Left done)))))
  | Left true =>
      '(m, s) ← drain_pop s wid;
      mret (add_jobs (put_lane (set_session S s) w (with_token ln (Some (at_phase t Looping)))) [cleanup_job m])
  | Left false => end_step S w ln t
  end.

(** A message takes its reservation over from the thread that posts it. *)
Definition post_step S (o : actor) (w : nat) (m : device_reader_message_t) : outcome (reader_system P) :=
  j ← get_job S o;
  s ← deviceReaderSessionRef (rs_session S);
  mret (add_post (put_job (set_session S s) o (owe j (- m_charge m) (- m_packets m))) w m).

Definition append_step S (k : nat) (in_callback : bool) : outcome (reader_system P) :=
  '(w, m) ← fetch (rs_posts S) k;
  ln ← fetch (rs_lanes S) w;
  '(schedule, local, s) ← append_locked (rs_session S) m (Z.of_nat w) in_callback;
  let t := if (schedule : bool) then Some (new_token (if (local : bool) then Deferred else Submitting))
           else ln_token ln in
  mret (put_lane (drop_post (set_session S s) k) w (mk_lane t (ln_posted ln ++ m_pending m) (ln_fates ln))).

Definition submit_step S (w : nat) (accept : bool) : outcome (reader_system P) :=
  '(ln, t) ← get_token S w;
  match tk_phase t with
  | Submitting =>
      if accept then mret (put_lane S w (with_token ln (Some (at_phase t Waiting))))
      else cancel_step S w ln t
  | _ => Fail NotModelled
  end.

Definition end_burst_step S (w : nat) : outcome (reader_system P) :=
  '(owns_drain, s) ← end_burst_locked (rs_session S) (Z.of_nat w);
  let S := add_jobs (set_session S s) [settled_job] in
  if (owns_drain : bool) then
    '(ln, t) ← get_token S w;
    mret (put_lane S w (with_token ln (Some (mk_token Looping full_quantum (tk_job t)))))
  else mret S.

Definition table_step S (c : frag_call P) : outcome (reader_system P) :=
  let s := rs_session S in
  _ ← touch s;
  '(_, t, pool) ← call_step workers_count c (frag_affinity s) (reader_buffer_pool s);
  mret (set_session S (set_frag s t (reader_pool_set s) pool)).

Definition reader_step (a : action P) S : outcome (reader_system P) :=
  let s := rs_session S in
  match a with
  | DoRef o =>
      _ ← get_job S o;
      s ← deviceReaderSessionRef s;
      mret (add_jobs (set_session S s) [settled_job])
  | DoUnref i =>
      _ ← fetch (rs_jobs S) i;
      s ← deviceReaderSessionUnref s;
      mret (drop_job (set_session S s) i)
  | DoReserve o charge packets =>
      j ← get_job S o;
      '(ok, s) ← try_reserve s true charge packets;
      mret (put_job (set_session S s) o (if (ok : bool) then owe j charge packets else j))
  | DoSettle o charge packets =>
      j ← get_job S o;
      _ ← touch s;
      _ ← assert_ (charge >? 0);
      _ ← assert_ (packets >? 0);
      s ← release_locked s charge packets;
      mret (put_job (set_session S s) o (settle j charge packets))
  | DoSignal o =>
      j ← get_job S o;
      _ ← touch s;
      mret (put_job (set_session S (snd (deviceReaderSessionSignalOutputCapacity s))) o (signalled j))
  | DoPost o w bufs charges prepare => post_step S o w (post_message s bufs charges prepare)
  | DoPostWork o w charge packets => post_step S o w (work_message s charge packets)
  | DoAppend k in_callback => append_step S k in_callback
  | DoSubmit w accept => submit_step S w accept
  | DoCancel w => '(ln, t) ← get_token S w; cancel_step S w ln t
  | DoBeginBurst i w =>
      _ ← fetch (rs_jobs S) i;
      '(_, s) ← deviceReaderSessionTryBeginBurst s (Z.of_nat w) true;
      mret (drop_job (set_session S s) i)
  | DoEndBurst w => end_burst_step S w
  | DoDrain w work => drain_step S w work
  | DoBegin => '(_, s) ← deviceReaderSessionBegin s; mret (set_session S s)
  | DoShutAdmission => _ ← touch s; mret (set_session S (shut_admission s))
  | DoShutNotify => _ ← touch s; s ← shut_notify s; mret (set_session S s)
  | DoShutDelivery => _ ← touch s; s ← shut_delivery s; mret (set_session S s)
  | DoEndWait now => s' ← deviceReaderSessionEndWait s now; mret (set_session S (default s s'))
  | DoRetireGeneration => s ← deviceReaderSessionRetireGenerationBuffers s; mret (set_session S s)
  | DoRetireProducer => s ← deviceReaderSessionRetireProducerBuffers s; mret (set_session S s)
  | DoTable c => table_step S c
  | DoNext => _ ← touch s; mret (set_session S (set_next s (distribution_next s +32 1)))
  end.
End Steps.

(** ** The invariant *)

(** What a total counts for each part of the system. *)
Record weight : Type := mk_weight {
  on_job : job -> Z;
  on_message : device_reader_message_t -> Z;
  on_phase : token_phase -> Z;
  on_burst : option bool -> Z
}.

Definition inside (p : token_phase) : bool :=
  match p with Delivering entered _ | Leaving entered _ => entered | _ => false end.

Definition charge_weight : weight := mk_weight owed_charge m_charge (fun _ => 0) (fun _ => 0).
Definition packet_weight : weight := mk_weight owed_packets m_packets (fun _ => 0) (fun _ => 0).
Definition ref_weight : weight :=
  mk_weight (fun _ => 1) (fun _ => 1) (fun _ => 0) (fun b => match b with Some _ => 1 | None => 0 end).
Definition gate_weight : weight :=
  mk_weight (fun _ => 0) (fun _ => 0) (fun p => Z.b2z (inside p)) (fun _ => 0).
Definition signal_weight : weight :=
  mk_weight (fun j => Z.b2z (unsignalled j)) (fun _ => 0) (fun _ => 0) (fun _ => 0).

Definition token_weight (w : weight) (t : option token) : Z :=
  match t with Some t => on_job w (tk_job t) + on_phase w (tk_phase t) | None => 0 end.
Definition lane_weight (w : weight) (q : device_reader_worker_queue_t) (ln : lane) : Z :=
  zsum (on_message w) (wq_messages q) + on_burst w (wq_burst q) + token_weight w (ln_token ln).

Definition queues {P} (s : device_reader_session_t P) : list device_reader_worker_queue_t :=
  default [] (worker_queues s).

Definition total {P} (w : weight) (S : reader_system P) : Z :=
  zsum (on_job w) (rs_jobs S) + zsum (fun x => on_message w (snd x)) (rs_posts S) +
  zsum id (zip_with (lane_weight w) (queues (rs_session S)) (rs_lanes S)).

Definition message_ok (m : device_reader_message_t) : Prop :=
  0 <= m_consumed m <= zlen (m_bufs m) /\ zlen (m_bufs m) <= UINT16_MAX /\ Forall good (m_bufs m) /\
  match m_work m with
  | Some (charge, packets) => m_bufs m = [] /\ 0 < charge /\ 0 < packets
  | None => zlen (m_charges m) = zlen (m_bufs m) /\ Forall (fun c => 0 < c) (m_charges m)
  end.

Definition job_ok (j : job) : Prop := 0 <= owed_charge j /\ 0 <= owed_packets j.

Definition budget_ok (b : device_reader_work_budget_t) : Prop :=
  0 <= wb_packets b <= kDeviceReaderWorkerPacketQuantum /\ 0 <= wb_bytes b <= kDeviceReaderWorkerByteQuantum.

(** A message that still has something to deliver. *)
Definition unfinished (m : device_reader_message_t) : Prop := 0 < m_packets m.

(** What the phase of a token says about its queue: only the head that a drain
    is working on may be finished. *)
Definition head_ok (gen : Z) (b : device_reader_work_budget_t) (p : token_phase)
    (l : list device_reader_message_t) : Prop :=
  match p with
  | Submitting | Waiting | Deferred | Looping => Forall unfinished l
  | Peeked => l <> [] /\ 0 < wb_packets b /\ Forall unfinished l
  | Delivering entered admitted =>
      exists m l', l = m :: l' /\ Forall unfinished l' /\ (m_work m <> None -> 0 < wb_packets b) /\
        (admitted = true -> entered = true /\ m_generation m = gen)
  | Leaving _ done | Left done =>
      exists m l', l = m :: l' /\ Forall unfinished l' /\
        (done = true -> m_work m = None -> m_consumed m = zlen (m_bufs m)) /\ (done = false -> unfinished m)
  end.

Definition fate_ok (x : packet * option Z) : Prop :=
  match snd x with Some gen => gen = fst (fst x) | None => True end.

Record lane_ok (gen : Z) (q : device_reader_worker_queue_t) (ln : lane) : Prop := mk_lane_ok {
  lo_scheduled : wq_scheduled q = bool_decide (is_Some (ln_token ln));
  lo_token : match ln_token ln with
             | Some t => job_ok (tk_job t) /\ budget_ok (tk_budget t) /\
                 head_ok gen (tk_budget t) (tk_phase t) (wq_messages q) /\
                 (wq_burst q = Some true <-> tk_phase t = Deferred)
             | None => wq_messages q = [] /\ wq_burst q <> Some true
             end;
  lo_messages : Forall message_ok (wq_messages q);
  lo_history : ln_posted ln = (fst <$> ln_fates ln) ++ concat (m_pending <$> wq_messages q);
  lo_fates : Forall fate_ok (ln_fates ln)
}.

Section Invariant.
Context `{Allocator} {P : Type} `{PoolLaws P} (workers_count : Z).
Implicit Types (S : reader_system P) (s : device_reader_session_t P).

Definition post_ok (lanes : list lane) (x : nat * device_reader_message_t) : Prop :=
  (x.1 < length lanes)%nat /\ message_ok x.2 /\ unfinished x.2.

Record config_ok (s : device_reader_session_t P) : Prop := mk_config_ok {
  co_live : freed s = false;
  co_charge : output_charge_limit (budget s) <= UINT64_MAX;
  co_packets : output_packet_limit (budget s) <= UINT32_MAX;
  co_limit : 0 < output_charge_limit (budget s);
  co_batch : batch_capacity s <= UINT16_MAX;
  co_generation : 0 <= generation s <= UINT32_MAX;
  co_notify : exists closed, capacity_notify_gate s = word_of closed 0;
  co_table : table_ok (frag_affinity s);
  co_pool : pool_inv (reader_buffer_pool s)
}.

Record books_ok S : Prop := mk_books_ok {
  bo_charge : output_charge (budget (rs_session S)) = total charge_weight S;
  bo_charge_limit : output_charge (budget (rs_session S)) <= output_charge_limit (budget (rs_session S));
  bo_packets : output_packets (budget (rs_session S)) = total packet_weight S;
  bo_packet_limit : output_packets (budget (rs_session S)) <= output_packet_limit (budget (rs_session S));
  bo_refs : refcount (rs_session S) = total ref_weight S;
  bo_ref_range : 0 < refcount (rs_session S) <= UINT32_MAX;
  bo_gate : exists closed, delivery_gate (rs_session S) = word_of closed (total gate_weight S);
  bo_waiting : output_waiting (budget (rs_session S)) = true ->
    0 < output_charge (budget (rs_session S)) \/ 0 < output_packets (budget (rs_session S)) \/
    0 < total signal_weight S
}.

Record readers_ok S : Prop := mk_readers_ok {
  ro_config : config_ok (rs_session S);
  ro_books : books_ok S;
  ro_jobs : Forall job_ok (rs_jobs S);
  ro_posts : Forall (post_ok (rs_lanes S)) (rs_posts S);
  ro_queues : worker_queues (rs_session S) = Some (queues (rs_session S));
  ro_count : zlen (rs_lanes S) <= UINT16_MAX;
  ro_lanes : Forall2 (lane_ok (generation (rs_session S))) (queues (rs_session S)) (rs_lanes S)
}.

(** After the last reference: nobody is left, every packet has met its fate. *)
Record readers_gone S : Prop := mk_gone {
  rg_freed : freed (rs_session S) = true;
  rg_refs : refcount (rs_session S) = 0;
  rg_queues : worker_queues (rs_session S) = None;
  rg_jobs : rs_jobs S = [];
  rg_posts : rs_posts S = [];
  rg_lanes : Forall (fun ln => ln_token ln = None /\ ln_posted ln = fst <$> ln_fates ln /\
    Forall fate_ok (ln_fates ln)) (rs_lanes S)
}.

(** ** What the threads owe *)

Definition callback_ok (work : callback) (b : device_reader_work_budget_t) : Prop :=
  let '(done, b') := work b in
  budget_ok b' /\ wb_packets b' <= wb_packets b /\ wb_bytes b' <= wb_bytes b /\
  (done = true -> wb_packets b' < wb_packets b).

Definition in_phase S (w : nat) (ok : token_phase -> Prop) : Prop :=
  exists ln t, rs_lanes S !! w = Some ln /\ ln_token ln = Some t /\ ok (tk_phase t).

Definition may_do (a : action P) S : Prop :=
  let s := rs_session S in
  match a with
  | DoRef o => (exists j, get_job S o = Ok j) /\ refcount s < UINT32_MAX
  | DoUnref i => rs_jobs S !! i = Some settled_job
  | DoReserve o charge packets => (exists j, get_job S o = Ok j) /\
      0 < charge <= output_charge_limit (budget s) /\ 0 < packets <= output_packet_limit (budget s)
  | DoSettle o charge packets => exists j, get_job S o = Ok j /\
      0 < charge <= owed_charge j /\ 0 < packets <= owed_packets j
  | DoSignal o => (exists j, get_job S o = Ok j)
  | DoPost o w bufs charges _ => exists j, get_job S o = Ok j /\ refcount s < UINT32_MAX /\
      (w < length (rs_lanes S))%nat /\ Forall good bufs /\ 0 < zlen bufs <= batch_capacity s /\
      (charges = None \/ charges = Some (sbufGetAllocationCharge <$> bufs)) /\
      zsum sbufGetAllocationCharge bufs <= owed_charge j /\ zlen bufs <= owed_packets j
  | DoPostWork o w charge packets => exists j, get_job S o = Ok j /\ refcount s < UINT32_MAX /\
      (w < length (rs_lanes S))%nat /\ 0 < charge <= owed_charge j /\ 0 < packets <= owed_packets j
  | DoAppend k _ => (k < length (rs_posts S))%nat /\ refcount s < UINT32_MAX
  | DoSubmit w _ => in_phase S w (fun p => p = Submitting)
  | DoCancel w => in_phase S w (fun p => p = Waiting)
  | DoBeginBurst i w => rs_jobs S !! i = Some settled_job /\
      exists q, queues s !! w = Some q /\ wq_burst q = None
  | DoEndBurst w => exists q, queues s !! w = Some q /\ wq_burst q <> None
  | DoDrain w work => exists ln t, rs_lanes S !! w = Some ln /\ ln_token ln = Some t /\
      tk_phase t <> Submitting /\ tk_phase t <> Deferred /\ callback_ok work (tk_budget t)
  | DoBegin | DoShutAdmission | DoShutNotify | DoShutDelivery => rs_jobs S <> []
  | DoEndWait _ => rs_jobs S <> [] /\ is_closed (delivery_gate s) = true /\
      is_closed (capacity_notify_gate s) = true
  | DoRetireGeneration => rs_jobs S <> [] /\ generation_open (frag_affinity s) = false /\
      quiescenceGateIsClosedAndQuiesced (delivery_gate s) = true
  | DoRetireProducer => rs_jobs S <> [] /\ generation_open (frag_affinity s) = false /\
      quiescenceGateIsClosedAndQuiesced (delivery_gate s) = true /\ reader_pool_set s = true
  | DoTable c => rs_jobs S <> [] /\ may_call c (frag_affinity s)
  | DoNext => rs_jobs S <> []
  end.

(** ** Moving weight *)

Lemma lane_weight_insert (w : weight) qs lanes k q ln q' ln' :
  qs !! k = Some q -> lanes !! k = Some ln ->
  zsum id (zip_with (lane_weight w) (<[k := q']> qs) (<[k := ln']> lanes)) =
    zsum id (zip_with (lane_weight w) qs lanes) - lane_weight w q ln + lane_weight w q' ln'.
Proof.
  intros Hq Hl. rewrite <- insert_zip_with.
  by rewrite (zsum_insert id _ k (lane_weight w q ln)) by (by rewrite lookup_zip_with, Hq; simpl; rewrite Hl).
Qed.

(** What a session keeps when only its queues, references and gate change. *)
Definition lane_only (s s' : device_reader_session_t P) : Prop :=
  freed s' = freed s /\ budget s' = budget s /\ batch_capacity s' = batch_capacity s /\
  generation s' = generation s /\ capacity_notify_gate s' = capacity_notify_gate s /\
  frag_affinity s' = frag_affinity s /\ reader_buffer_pool s' = reader_buffer_pool s.

Lemma posts_lanes lanes lanes' l :
  length lanes' = length lanes -> Forall (post_ok lanes) l -> Forall (post_ok lanes') l.
Proof. intros E F. eapply Forall_impl; [exact F|]. intros x [Hx M]. split; [by rewrite E|done]. Qed.

(** The weight a step moves between the jobs, the posts and one lane. *)
Definition moved S jobs' (posts' : list (nat * device_reader_message_t)) q ln q' ln' (w : weight) : Z :=
  (zsum (on_job w) jobs' - zsum (on_job w) (rs_jobs S)) +
  (zsum (fun x => on_message w (snd x)) posts' - zsum (fun x => on_message w (snd x)) (rs_posts S)) +
  (lane_weight w q' ln' - lane_weight w q ln).

Lemma lane_step S s' jobs' posts' k q ln q' ln' :
  readers_ok S -> queues (rs_session S) !! k = Some q -> rs_lanes S !! k = Some ln ->
  lane_only (rs_session S) s' -> worker_queues s' = Some (<[k := q']> (queues (rs_session S))) ->
  Forall job_ok jobs' -> Forall (post_ok (rs_lanes S)) posts' ->
  lane_ok (generation (rs_session S)) q' ln' ->
  let d := moved S jobs' posts' q ln q' ln' in
  d charge_weight = 0 -> d packet_weight = 0 -> d signal_weight = 0 ->
  refcount s' = refcount (rs_session S) + d ref_weight -> 0 < refcount s' <= UINT32_MAX ->
  delivery_gate s' = delivery_gate (rs_session S) + d gate_weight ->
  readers_ok (mk_readers s' jobs' posts' (<[k := ln']> (rs_lanes S))).
Proof.
  intros [C [B1 B2 B3 B4 B5 B6 [c B7] B8] J Po Q N L] Hq Hl (E1 & E2 & E3 & E4 & E5 & E6 & E7) Eq J' P' L' d
    D1 D2 D3 D4 D5 D6.
  set (S' := mk_readers _ _ _ _).
  assert (queues s' = <[k := q']> (queues (rs_session S))) as Eq' by (unfold queues at 1; by rewrite Eq).
  assert (forall w, total w S' = total w S + d w) as T.
  { intros w. unfold total, S', d, moved. simpl. rewrite Eq'.
    rewrite (lane_weight_insert w _ _ k q ln) by done. lia. }
  split; simpl.
  - destruct C as [C1 C2 C3 C4 C5 C6 C7 C8 C9]. split; rewrite ?E1, ?E2, ?E3, ?E4, ?E5, ?E6, ?E7; auto.
  - split; rewrite ?T; simpl; rewrite ?E2; auto; try lia.
    + exists c. rewrite D6, B7. unfold word_of. lia.
    + rewrite D3, Z.add_0_r. done.
  - done.
  - by apply (posts_lanes (rs_lanes S)); [apply length_insert|].
  - by rewrite Eq', Eq.
  - unfold zlen in *. by rewrite length_insert.
  - rewrite Eq', E4. by apply Forall2_insert.
Qed.

(** *** Access to a lane *)

Lemma get_queue_at s k q :
  worker_queues s = Some (queues s) -> queues s !! k = Some q -> get_queue s (Z.of_nat k) = Ok q.
Proof.
  intros Q Hq. unfold get_queue. rewrite Q. apply arr_get_ok; [lia|]. by rewrite Nat2Z.id.
Qed.

Lemma put_queue_at s k q q' :
  worker_queues s = Some (queues s) -> queues s !! k = Some q ->
  put_queue s (Z.of_nat k) q' = Ok (set_queues s (Some (<[k := q']> (queues s)))).
Proof.
  intros Q Hq. unfold put_queue. rewrite Q, arr_set_ok; [by rewrite Nat2Z.id|].
  apply lookup_lt_Some in Hq. unfold zlen. lia.
Qed.

Lemma touch_live s : freed s = false -> touch s = Ok tt.
Proof. intros E. unfold touch. by rewrite E. Qed.

(** A lane of a consistent system with its queue. *)
Lemma lane_at S k ln :
  readers_ok S -> rs_lanes S !! k = Some ln ->
  exists q, queues (rs_session S) !! k = Some q /\ lane_ok (generation (rs_session S)) q ln.
Proof.
  intros R Hl. destruct (Forall2_lookup_r _ _ _ _ _ (ro_lanes S R) Hl) as (q & Hq & L). eauto.
Qed.

Lemma queue_lane S k q :
  readers_ok S -> queues (rs_session S) !! k = Some q ->
  exists ln, rs_lanes S !! k = Some ln /\ lane_ok (generation (rs_session S)) q ln.
Proof.
  intros R Hq. destruct (Forall2_lookup_l _ _ _ _ _ (ro_lanes S R) Hq) as (ln & Hl & L). eauto.
Qed.

Lemma get_token_inv S w ln t :
  get_token S w = Ok (ln, t) -> rs_lanes S !! w = Some ln /\ ln_token ln = Some t.
Proof.
  unfold get_token, fetch. intros E. destruct (rs_lanes S !! w) as [x|]; [|done].
  cbn in E. destruct (ln_token x) as [y|] eqn:Ex; [|done]. injection E as -> ->. done.
Qed.

Lemma get_token_at S w ln t :
  rs_lanes S !! w = Some ln -> ln_token ln = Some t -> get_token S w = Ok (ln, t).
Proof. intros E1 E2. unfold get_token, fetch. rewrite E1. cbn. by rewrite E2. Qed.

(** *** A step of a thread on its own account *)

(** What a session keeps when its references and its budget change. *)
Definition account_only (s s' : device_reader_session_t P) : Prop :=
  freed s' = freed s /\ batch_capacity s' = batch_capacity s /\ generation s' = generation s /\
  capacity_notify_gate s' = capacity_notify_gate s /\ frag_affinity s' = frag_affinity s /\
  reader_buffer_pool s' = reader_buffer_pool s /\ worker_queues s' = worker_queues s /\
  delivery_gate s' = delivery_gate s /\
  output_charge_limit (budget s') = output_charge_limit (budget s) /\
  output_packet_limit (budget s') = output_packet_limit (budget s).

(** The same, with jobs and posts that appear. *)
Definition grown S (jobs' : list job) (posts' : list (nat * device_reader_message_t)) : reader_system P :=
  mk_readers (rs_session S) (rs_jobs S ++ jobs') (rs_posts S ++ posts') (rs_lanes S).

Lemma job_found S o j :
  readers_ok S -> get_job S o = Ok j -> job_ok j.
Proof.
  intros R E. destruct o as [i|w]; simpl in E.
  - unfold fetch in E. destruct (rs_jobs S !! i) as [x|] eqn:Ei; [|done]. injection E as ->.
    pose proof (ro_jobs S R) as F. rewrite Forall_lookup in F. by apply (F i).
  - apply bind_Ok in E as ([ln t] & E & Ej). injection Ej as <-. apply get_token_inv in E as [El Et].
    destruct (lane_at S w ln R El) as (q & _ & L). pose proof (lo_token _ _ _ L) as T. rewrite Et in T. apply T.
Qed.

Lemma put_job_total S s' o j j' (w : weight) :
  readers_ok S -> worker_queues s' = worker_queues (rs_session S) -> get_job S o = Ok j ->
  total w (put_job (set_session S s') o j') = total w S - on_job w j + on_job w j'.
Proof.
  intros R Q E. destruct o as [i|k]; simpl in E.
  - unfold fetch in E. destruct (rs_jobs S !! i) as [x|] eqn:Ei; [|done]. injection E as ->.
    unfold total, queues. simpl. rewrite Q, (zsum_insert (on_job w) _ i j) by done. lia.
  - apply bind_Ok in E as ([ln t] & E & Ej). injection Ej as <-. apply get_token_inv in E as [El Et].
    destruct (lane_at S k ln R El) as (q & Hq & _). destruct ln as [t' posted fates]. simpl in Et. subst t'.
    simpl. rewrite El. unfold total. simpl. replace (queues s') with (queues (rs_session S)) by (unfold queues; by rewrite Q).
    rewrite <- (list_insert_id (queues (rs_session S)) k q) at 1 by done.
    rewrite (lane_weight_insert w _ _ k q _ _ _ Hq El). unfold lane_weight. simpl. lia.
Qed.

Lemma put_job_shape S s' o j j' :
  readers_ok S -> worker_queues s' = worker_queues (rs_session S) -> get_job S o = Ok j -> job_ok j' ->
  let S' := put_job (set_session S s') o j' in
  rs_session S' = s' /\ Forall job_ok (rs_jobs S') /\ rs_posts S' = rs_posts S /\
  length (rs_lanes S') = length (rs_lanes S) /\
  Forall2 (lane_ok (generation (rs_session S))) (queues (rs_session S)) (rs_lanes S').
Proof.
  intros R Q E J'. pose proof (ro_lanes S R) as L. destruct o as [i|k]; simpl in E |- *.
  - splits; auto. apply Forall_insert; [apply R|done].
  - apply bind_Ok in E as ([ln t] & E & Ej). injection Ej as <-. apply get_token_inv in E as [El Et].
    destruct (lane_at S k ln R El) as (q & Hq & Lq). destruct ln as [t' posted fates]. simpl in Et. subst t'.
    rewrite El. simpl. splits; auto; [apply R|by rewrite length_insert|].
    rewrite <- (list_insert_id (queues (rs_session S)) k q) by done. apply Forall2_insert; [done|].
    destruct Lq as [A B C D F]. split; auto. simpl in B |- *. destruct B as (_ & ? & ? & ?). done.
Qed.

(** The books follow from how the totals move. *)
Lemma account_step S S' (d : weight -> Z) :
  readers_ok S -> account_only (rs_session S) (rs_session S') ->
  Forall job_ok (rs_jobs S') -> Forall (post_ok (rs_lanes S')) (rs_posts S') ->
  length (rs_lanes S') = length (rs_lanes S) ->
  Forall2 (lane_ok (generation (rs_session S))) (queues (rs_session S)) (rs_lanes S') ->
  (forall w, total w S' = total w S + d w) ->
  let x := budget (rs_session S) in
  let x' := budget (rs_session S') in
  output_charge x' = output_charge x + d charge_weight -> output_charge x' <= output_charge_limit x ->
  output_packets x' = output_packets x + d packet_weight -> output_packets x' <= output_packet_limit x ->
  refcount (rs_session S') = refcount (rs_session S) + d ref_weight ->
  0 < refcount (rs_session S') <= UINT32_MAX -> d gate_weight = 0 ->
  (output_waiting x' = true -> 0 < output_charge x' \/ 0 < output_packets x' \/
     0 < total signal_weight S + d signal_weight) ->
  readers_ok S'.
Proof.
  intros R (E1 & E2 & E3 & E4 & E5 & E6 & E7 & E8 & E9 & E10) J' P' N' L' T x x' D1 D2 D3 D4 D5 D6 D7 D8. subst x x'.
  pose proof R as [C [B1 B2 B3 B4 B5 B6 [c B7] B8] J Po Q N L]. split; auto.
  - destruct C as [C1 C2 C3 C4 C5 C6 C7 C8 C9]. split; rewrite ?E1, ?E2, ?E3, ?E4, ?E5, ?E6, ?E9, ?E10; auto.
  - split; rewrite ?T, ?E9, ?E10; auto; try lia. exists c. rewrite D7, E8, B7, Z.add_0_r. done.
  - unfold queues. rewrite E7, Q. done.
  - unfold zlen in *. lia.
  - unfold queues. rewrite E7, E3, Q. done.
Qed.

Lemma thread_step S s' o j j' jobs' posts' :
  readers_ok S -> get_job S o = Ok j -> account_only (rs_session S) s' -> job_ok j' ->
  Forall job_ok jobs' -> Forall (post_ok (rs_lanes S)) posts' ->
  let d w := on_job w j' - on_job w j + zsum (on_job w) jobs' + zsum (fun x => on_message w (snd x)) posts' in
  let x := budget (rs_session S) in
  let x' := budget s' in
  output_charge x' = output_charge x + d charge_weight -> output_charge x' <= output_charge_limit x ->
  output_packets x' = output_packets x + d packet_weight -> output_packets x' <= output_packet_limit x ->
  refcount s' = refcount (rs_session S) + d ref_weight -> 0 < refcount s' <= UINT32_MAX ->
  d gate_weight = 0 ->
  (output_waiting x' = true -> 0 < output_charge x' \/ 0 < output_packets x' \/
     0 < total signal_weight S + d signal_weight) ->
  readers_ok (grown (put_job (set_session S s') o j') jobs' posts').
Proof.
  intros R E A J' Js Ps d x x' D1 D2 D3 D4 D5 D6 D7 D8. pose proof A as (_ & _ & _ & _ & _ & _ & E7 & _).
  destruct (put_job_shape S s' o j j' R E7 E J') as (F1 & F2 & F3 & F4 & F5).
  pose proof (fun w => put_job_total S s' o j j' w R E7 E) as T.
  set (S1 := put_job (set_session S s') o j') in *.
  apply (account_step S _ d R); cbn [grown rs_session rs_jobs rs_posts rs_lanes]; rewrite ?F1; auto.
  - by apply Forall_app.
  - rewrite F3. apply Forall_app.
    split; apply (posts_lanes (rs_lanes S)); auto. apply R.
  - intros w. specialize (T w). unfold total, grown, d in *. simpl in *. rewrite !zsum_app. lia.
Qed.

(** *** Shares of a total *)

Definition nonneg_weight (w : weight) : Prop :=
  (forall j, job_ok j -> 0 <= on_job w j) /\ (forall m, message_ok m -> 0 <= on_message w m) /\
  (forall p, 0 <= on_phase w p) /\ (forall b, 0 <= on_burst w b).

Lemma lane_weight_nonneg (w : weight) gen q ln : nonneg_weight w -> lane_ok gen q ln -> 0 <= lane_weight w q ln.
Proof.
  intros (Wj & Wm & Wp & Wb) [_ T M _ _]. unfold lane_weight.
  assert (0 <= zsum (on_message w) (wq_messages q)) by (apply zsum_nonneg; eapply Forall_impl; eauto).
  specialize (Wb (wq_burst q)). destruct (ln_token ln) as [t|]; simpl; [|lia].
  destruct T as (Jt & _). specialize (Wj _ Jt). specialize (Wp (tk_phase t)). lia.
Qed.

Lemma lanes_weight_nonneg (w : weight) gen qs lanes :
  nonneg_weight w -> Forall2 (lane_ok gen) qs lanes -> Forall (fun x => 0 <= id x) (zip_with (lane_weight w) qs lanes).
Proof.
  intros W. induction 1 as [|q ln qs lanes L _ IH]; simpl; constructor; [|done].
  unfold id. by eapply lane_weight_nonneg.
Qed.

Lemma weight_total_nonneg (w : weight) S gen :
  nonneg_weight w -> Forall job_ok (rs_jobs S) -> Forall (post_ok (rs_lanes S)) (rs_posts S) ->
  Forall2 (lane_ok gen) (queues (rs_session S)) (rs_lanes S) -> 0 <= total w S.
Proof.
  intros W J Po L. pose proof (zsum_nonneg id _ (lanes_weight_nonneg w gen _ _ W L)).
  destruct W as (Wj & Wm & _). unfold total.
  assert (0 <= zsum (on_job w) (rs_jobs S)) by (apply zsum_nonneg; eapply Forall_impl; eauto).
  assert (0 <= zsum (fun x => on_message w (snd x)) (rs_posts S)); [|lia].
  apply zsum_nonneg. eapply Forall_impl; [exact Po|]. intros x (_ & M & _). auto.
Qed.

Lemma job_share (w : weight) S o j :
  nonneg_weight w -> on_job w settled_job = 0 -> readers_ok S -> get_job S o = Ok j ->
  on_job w j <= total w S.
Proof.
  intros W Z0 R E. pose proof (put_job_total S (rs_session S) o j settled_job w R eq_refl E) as T.
  assert (job_ok settled_job) as Js by (by split).
  destruct (put_job_shape S (rs_session S) o j settled_job R eq_refl E Js) as (F1 & F2 & F3 & F4 & F5).
  assert (0 <= total w (put_job (set_session S (rs_session S)) o settled_job)) as N; [|lia].
  apply (weight_total_nonneg w _ (generation (rs_session S)) W F2); [|by rewrite F1].
  rewrite F3. apply (posts_lanes (rs_lanes S)); [done|apply R].
Qed.

Lemma m_charge_nonneg m : message_ok m -> 0 <= m_charge m.
Proof.
  intros (_ & _ & _ & M). unfold m_charge. destruct (m_work m) as [[c p]|]; [lia|].
  apply zsum_nonneg, Forall_drop. eapply Forall_impl; [apply M|]. unfold id. simpl. lia.
Qed.

Lemma m_packets_nonneg m : message_ok m -> 0 <= m_packets m.
Proof. intros (Hc & _ & _ & M). unfold m_packets. destruct (m_work m) as [[c p]|]; lia. Qed.

Lemma weights_nonneg :
  nonneg_weight charge_weight /\ nonneg_weight packet_weight /\ nonneg_weight ref_weight /\
  nonneg_weight gate_weight /\ nonneg_weight signal_weight.
Proof.
  unfold nonneg_weight, job_ok. splits; simpl; intros; auto using m_charge_nonneg, m_packets_nonneg; try lia.
  - destruct b; lia.
  - destruct (inside p); simpl; lia.
  - destruct (unsignalled j); simpl; lia.
Qed.
End Invariant.
