(* ===== verification/ReaderProofs.v ===== *)
(** * What every interleaving of a reader session guarantees

    Each step of [ReaderSystem] returns and keeps the invariant.  From that:
    the budget and the reference count are exact, the session is freed by the
    last reference and not before, the packets of a worker meet their fate in
    the order they were posted, none is delivered outside its generation, and no
    waiting producer and no queued message is forgotten. *)

From Stdlib Require Import ZArith Lia.
From stdpp Require Import base numbers option list.
From S2P Require Import Prelude ShiftBuffer PoolInterface BufferPool FlowHash.
From S2P Require Import FragAffinity FragInvariant FragOffer FragLife Gate ReaderSession ReaderSystem.
Open Scope Z_scope.
Open Scope word_scope.

Section Steps.
Context `{Allocator} {P : Type} `{PoolLaws P} (workers_count : Z).
Implicit Types (S : reader_system P) (s : device_reader_session_t P).

(** ** Threads *)

Lemma add_jobs_grown S l : add_jobs S l = grown S l [].
Proof. unfold add_jobs, grown. by rewrite app_nil_r. Qed.

Lemma add_post_grown S w m : add_post S w m = grown S [] [(w, m)].
Proof. unfold add_post, grown. by rewrite app_nil_r. Qed.

Lemma grown_nil S : grown S [] [] = S.
Proof. unfold grown. rewrite !app_nil_r. by destruct S. Qed.

Lemma put_job_same S s o j : get_job S o = Ok j -> put_job (set_session S s) o j = set_session S s.
Proof.
  intros E. destruct o as [i|k]; simpl in E |- *.
  - unfold fetch in E. destruct (rs_jobs S !! i) as [x|] eqn:Ei; [|done]. injection E as ->.
    unfold set_session. simpl. by rewrite list_insert_id.
  - apply bind_Ok in E as ([ln t] & E & Ej). injection Ej as <-. apply get_token_inv in E as [El Et].
    rewrite El. destruct ln as [t' posted fates]. simpl in Et. subst t'.
    unfold put_lane, set_session. simpl. rewrite list_insert_id; [done|]. rewrite El. by destruct t.
Qed.

Lemma ref_live s :
  freed s = false -> 0 < refcount s < UINT32_MAX ->
  deviceReaderSessionRef s = Ok (set_refcount s (refcount s + 1)).
Proof.
  intros L Hr. unfold deviceReaderSessionRef. rewrite (touch_live s L). step_ok.
  rewrite abort_bind by word_lia. done.
Qed.

Lemma account_refl s : account_only s s.
Proof. by splits. Qed.

Lemma ref_step_ok S o :
  readers_ok S -> may_do (DoRef o) S ->
  exists S', reader_step workers_count (DoRef o) S = Ok S' /\ readers_ok S'.
Proof.
  intros R [[j Ej] Hr]. pose proof R as [C B _ _ _ _ _]. simpl. rewrite Ej. step_ok.
  rewrite ref_live; [|apply C|destruct B; lia]. step_ok. eexists. split; [done|].
  rewrite add_jobs_grown, <- (put_job_same S _ o j Ej). destruct B as [B1 B2 B3 B4 B5 B6 B7 B8].
  eapply thread_step; eauto using job_found; simpl; auto; try lia.
  - by splits.
  - by repeat constructor.
  - intros W. specialize (B8 W). lia.
Qed.

Lemma reserve_step_ok S o charge packets :
  readers_ok S -> may_do (DoReserve o charge packets) S ->
  exists S', reader_step workers_count (DoReserve o charge packets) S = Ok S' /\ readers_ok S'.
Proof.
  intros R ([j Ej] & Hc & Hp). pose proof R as [[C1 C2 C3 C4 _ _ _ _ _] [B1 B2 B3 B4 B5 B6 B7 B8] J Po Q N L].
  destruct weights_nonneg as (Wc & Wp & _).
  pose proof (weight_total_nonneg _ S _ Wc J Po L) as Nc. pose proof (weight_total_nonneg _ S _ Wp J Po L) as Np.
  simpl. rewrite Ej. step_ok. unfold try_reserve. rewrite touch_live by done. step_ok.
  rewrite !assert_bind by lia. step_ok. unfold reserve_locked. rewrite wrap32_small, wrap64_small by word_lia.
  split_test; step_ok; eexists; (split; [done|]); rewrite <- (grown_nil (put_job _ _ _));
    (eapply thread_step; [done|exact Ej|by splits|..]); simpl; rewrite ?wrap64_small, ?wrap32_small by word_lia;
    auto; try lia; try (by eapply job_found).
  destruct (job_found S o j R Ej). split; simpl; lia.
Qed.

Lemma settle_step_ok S o charge packets :
  readers_ok S -> may_do (DoSettle o charge packets) S ->
  exists S', reader_step workers_count (DoSettle o charge packets) S = Ok S' /\ readers_ok S'.
Proof.
  intros R (j & Ej & Hc & Hp). pose proof R as [[C1 C2 C3 C4 _ _ _ _ _] [B1 B2 B3 B4 B5 B6 B7 B8] J Po Q N L].
  destruct weights_nonneg as (Wc & Wp & _ & _ & Ws).
  pose proof (job_share _ S o j Wc eq_refl R Ej) as Sc. pose proof (job_share _ S o j Wp eq_refl R Ej) as Sp.
  pose proof (job_share _ S o j Ws eq_refl R Ej) as Ss. simpl in Sc, Sp, Ss.
  simpl. rewrite Ej. step_ok. rewrite touch_live by done. step_ok. rewrite !assert_bind by lia.
  unfold release_locked. rewrite abort_bind by lia. step_ok. eexists. split; [done|].
  rewrite <- (grown_nil (put_job _ _ _)). rewrite wrap64_small, wrap32_small by word_lia.
  eapply thread_step; [done|exact Ej|by splits|..]; simpl; auto; try lia.
  split; simpl; lia.
Qed.

Lemma signal_step_ok S o :
  readers_ok S -> may_do (DoSignal o) S ->
  exists S', reader_step workers_count (DoSignal o) S = Ok S' /\ readers_ok S'.
Proof.
  intros R [j Ej]. pose proof R as [[C1 C2 C3 C4 _ _ _ _ _] [B1 B2 B3 B4 B5 B6 B7 B8] J Po Q N L].
  simpl. rewrite Ej. step_ok. rewrite touch_live by done. step_ok. eexists. split; [done|].
  rewrite <- (grown_nil (put_job _ _ _)).
  set (s' := snd _). assert (s' = set_budget (rs_session S) (mk_output (output_charge (budget (rs_session S)))
    (output_packets (budget (rs_session S))) false (output_charge_limit (budget (rs_session S)))
    (output_packet_limit (budget (rs_session S))))) as ->.
  { unfold s', deviceReaderSessionSignalOutputCapacity. by repeat split_test. }
  eapply thread_step; [done|exact Ej|by splits|..]; simpl; auto; try lia; try done.
  apply (job_found S o j R Ej).
Qed.

(** A message is posted with what its thread has reserved. *)
Lemma post_step_ok S o w m j :
  readers_ok S -> get_job S o = Ok j -> refcount (rs_session S) < UINT32_MAX ->
  (w < length (rs_lanes S))%nat -> message_ok m -> unfinished m -> m_charge m <= owed_charge j -> m_packets m <= owed_packets j ->
  exists S', post_step S o w m = Ok S' /\ readers_ok S'.
Proof.
  intros R Ej Hr Hw M U Hc Hp. pose proof R as [C [B1 B2 B3 B4 B5 B6 B7 B8] _ _ _ _ _].
  unfold post_step. rewrite Ej. step_ok. rewrite ref_live; [|apply C|lia]. step_ok. eexists. split; [done|].
  rewrite add_post_grown. eapply thread_step; [done|exact Ej|by splits|..]; simpl; auto; try lia.
  - split; simpl; lia.
  - by apply Forall_singleton.
  - intros W. specialize (B8 W). lia.
Qed.

Lemma posted_message S bufs charges prepare :
  readers_ok S -> Forall good bufs -> zlen bufs <= batch_capacity (rs_session S) ->
  (charges = None \/ charges = Some (sbufGetAllocationCharge <$> bufs)) ->
  let m := post_message (rs_session S) bufs charges prepare in
  message_ok m /\ m_charge m = zsum sbufGetAllocationCharge bufs /\ m_packets m = zlen bufs.
Proof.
  intros R G Hb Hc m. pose proof R as [[C1 C2 C3 C4 C5 _ _ _ _] _ _ _ Q _ _].
  assert (m_charges m = sbufGetAllocationCharge <$> bufs) as Ec.
  { unfold m, post_message. rewrite Q. simpl. replace (_ =? 0) with false by lia. by destruct Hc as [-> | ->]. }
  unfold message_ok, m_charge, m_packets. rewrite Ec. simpl. splits; auto; try (unfold zlen in *; lia).
  - unfold zlen. by rewrite length_fmap.
  - rewrite Forall_fmap. eapply Forall_impl; [exact G|]. intros b [W O]. simpl.
    rewrite charge_ordinary by done. destruct W. lia.
  - by apply (zsum_fmap sbufGetAllocationCharge id).
Qed.

Lemma zsum_ones {A} (l : list A) : zsum (fun _ => 1) l = zlen l.
Proof. induction l as [|x l IH]; [done|]. unfold zsum, zlen in *. simpl in *. lia. Qed.

(** The last reference is the last thing there is. *)
Lemma total_refs S :
  total ref_weight S = zlen (rs_jobs S) + zlen (rs_posts S) +
    zsum id (zip_with (lane_weight ref_weight) (queues (rs_session S)) (rs_lanes S)).
Proof. by rewrite <- !zsum_ones. Qed.

Lemma lane_weight_zero gen q ln :
  lane_ok gen q ln -> lane_weight ref_weight q ln = 0 ->
  queue_idle q = true /\ ln_token ln = None /\ ln_posted ln = fst <$> ln_fates ln /\ Forall fate_ok (ln_fates ln).
Proof.
  intros [Sc T M Hi F] E. unfold lane_weight in E.
  assert (0 <= zsum (on_message ref_weight) (wq_messages q)) as Nm by (apply zsum_nonneg, Forall_true; simpl; lia).
  unfold queue_idle. destruct (ln_token ln) as [t|] eqn:Et.
  { simpl in E, Nm. destruct (wq_burst q); lia. }
  destruct T as [Tm _]. rewrite Sc, Tm in *. destruct (wq_burst q); [simpl in E; lia|].
  splits; auto. by rewrite Hi, app_nil_r.
Qed.

Lemma lanes_zero gen qs lanes :
  Forall2 (lane_ok gen) qs lanes -> zsum id (zip_with (lane_weight ref_weight) qs lanes) = 0 ->
  forallb queue_idle qs = true /\
  Forall (fun ln => ln_token ln = None /\ ln_posted ln = fst <$> ln_fates ln /\ Forall fate_ok (ln_fates ln)) lanes.
Proof.
  intros F. induction F as [|q ln qs lanes L F IH]; [done|]. cbn [zip_with forallb]. intros E.
  change (lane_weight ref_weight q ln + zsum id (zip_with (lane_weight ref_weight) qs lanes) = 0) in E.
  destruct weights_nonneg as (_ & _ & Wr & _).
  pose proof (lane_weight_nonneg _ _ _ _ Wr L) as N1.
  pose proof (zsum_nonneg id _ (lanes_weight_nonneg _ _ _ _ Wr F)) as N2.
  destruct (lane_weight_zero gen q ln L) as (-> & ?); [lia|]. destruct IH as [-> ?]; [lia|]. split; [done|]. by constructor.
Qed.

Lemma unref_step_ok S i :
  readers_ok S -> may_do (DoUnref i) S ->
  exists S', reader_step workers_count (DoUnref i) S = Ok S' /\ (readers_ok S' \/ readers_gone S').
Proof.
  intros R Hi. simpl in Hi. pose proof R as [C B J Po Q N L]. simpl. rewrite (fetch_ok _ _ _ Hi). step_ok.
  unfold deviceReaderSessionUnref. rewrite touch_live by apply C. step_ok.
  destruct B as [B1 B2 B3 B4 B5 B6 B7 B8]. rewrite assert_bind, abort_bind by lia. rewrite wrap32_small by word_lia.
  destruct (negb (refcount (rs_session S) =? 1)) eqn:E; bool_facts; step_ok.
  - eexists. split; [done|]. left.
    apply (account_step S _ (fun w => - on_job w settled_job) R); simpl; auto; try lia.
    + by splits.
    + by apply Forall_delete.
    + intros w. unfold total. simpl. rewrite (zsum_delete (on_job w) _ i settled_job) by done.
      change (queues (set_refcount _ _)) with (queues (rs_session S)). lia.
    + intros W. specialize (B8 W). lia.
  - pose proof (total_refs S) as T. apply lookup_lt_Some in Hi as Hlt.
    destruct weights_nonneg as (_ & _ & Wr & _).
    pose proof (zsum_nonneg id _ (lanes_weight_nonneg _ _ _ _ Wr L)) as Nl. unfold zlen in T.
    assert (length (rs_jobs S) = 1%nat /\ length (rs_posts S) = 0%nat) as [Tj Tp] by lia.
    destruct (lanes_zero _ _ _ L) as [Hq Hl]; [lia|].
    unfold deviceReaderSessionDestroyInternal, deviceReaderDispatchDestroy. simpl.
    rewrite Q, assert_bind by done.
    destruct (destroy_ok (frag_affinity (rs_session S)) (reader_buffer_pool (rs_session S))) as (pool' & -> & _);
      [apply table_accounts, C|apply C|]. step_ok. eexists. split; [done|]. right.
    split; simpl; auto; [lia| |by apply nil_length_inv].
    destruct (rs_jobs S) as [|j [|j2 l]]; try done. by destruct i.
Qed.

(** ** Lanes *)

Lemma head_ok_app gen b p l m : head_ok gen b p l -> unfinished m -> head_ok gen b p (l ++ [m]).
Proof.
  assert (forall k, Forall unfinished k -> unfinished m -> Forall unfinished (k ++ [m])) as Hk
    by (intros k F U; apply Forall_app; split; [done|by apply Forall_singleton]).
  destruct p; simpl; auto.
  - intros (Hl & Hp & F) U. splits; auto. by destruct l.
  - intros (x & k & -> & F & ? & ?) U. exists x, (k ++ [m]). splits; auto.
  - intros (x & k & -> & F & ? & ?) U. exists x, (k ++ [m]). splits; auto.
  - intros (x & k & -> & F & ? & ?) U. exists x, (k ++ [m]). splits; auto.
Qed.

Lemma settled_ok : job_ok settled_job.
Proof. by split. Qed.

Lemma full_quantum_ok : budget_ok full_quantum.
Proof. by vm_compute. Qed.

(** Computes what a step moves. *)
Ltac weigh := unfold moved, lane_weight; simpl; rewrite ?zsum_app; simpl; try lia.

Lemma append_step_ok S k cb :
  readers_ok S -> may_do (DoAppend k cb) S ->
  exists S', reader_step workers_count (DoAppend k cb) S = Ok S' /\ readers_ok S'.
Proof.
  intros R [Hk Hr]. pose proof R as [C B J Po Q N L]. pose proof (bo_ref_range S B) as Hr0.
  destruct (lookup_lt_is_Some_2 _ _ Hk) as [[w m] Hm]. pose proof Po as Pf. rewrite Forall_lookup in Pf.
  destruct (Pf k _ Hm) as (Hw & M & U). simpl in Hw, M, U. destruct (lookup_lt_is_Some_2 _ _ Hw) as [ln Hl].
  destruct (lane_at S w ln R Hl) as (q & Hq & Lq). pose proof Lq as [Sc T Ms Hi F].
  simpl. unfold append_step. rewrite (fetch_ok _ _ _ Hm). step_ok. rewrite (fetch_ok _ _ _ Hl). step_ok.
  unfold append_locked. rewrite touch_live by apply C. step_ok. rewrite (get_queue_at _ w q Q Hq). step_ok.
  assert (Forall message_ok (wq_messages q ++ [m])) as Ms' by (apply Forall_app; split; [done|by apply Forall_singleton]).
  assert (ln_posted ln ++ m_pending m =
    (fst <$> ln_fates ln) ++ concat (m_pending <$> (wq_messages q ++ [m]))) as Hi'.
  { rewrite Hi, fmap_app, concat_app. simpl. by rewrite app_nil_r, app_assoc. }
  assert (Forall (post_ok (rs_lanes S)) (delete k (rs_posts S))) as Po' by (by apply Forall_delete).
  pose proof (fun W => zsum_delete (fun x : nat * _ => on_message W (snd x)) (rs_posts S) k (w, m) Hm) as Zd.
  simpl in Zd. destruct (wq_scheduled q) eqn:Es.
  - rewrite (put_queue_at _ w q _ Q Hq). step_ok. eexists. split; [done|].
    apply (lane_step S _ (rs_jobs S) _ w q ln (mk_worker_queue (wq_messages q ++ [m]) true (wq_burst q))
      (mk_lane (ln_token ln) (ln_posted ln ++ m_pending m) (ln_fates ln))); auto; try done;
      try (unfold moved; rewrite Zd; weigh).
    split; auto. simpl. destruct (ln_token ln) as [t|]; [|by rewrite bool_decide_eq_false_2 in Sc by (by intros [])].
    destruct T as (? & ? & ? & ?). splits; auto. by apply head_ok_app.
  - rewrite ref_live; [|apply C|lia]. step_ok.
    destruct (ln_token ln) as [t|] eqn:Et; [by rewrite bool_decide_eq_true_2 in Sc|]. destruct T as [Tm Tb].
    assert (forall p b, budget_ok full_quantum -> (b = Some true <-> p = Deferred) -> p = Deferred \/ p = Submitting ->
      on_burst ref_weight b = on_burst ref_weight (wq_burst q) ->
      readers_ok (mk_readers (set_queues (set_refcount (rs_session S) (refcount (rs_session S) + 1))
        (Some (<[w := mk_worker_queue (wq_messages q ++ [m]) true b]> (queues (rs_session S)))))
        (rs_jobs S) (delete k (rs_posts S))
        (<[w := mk_lane (Some (new_token p)) (ln_posted ln ++ m_pending m) (ln_fates ln)]> (rs_lanes S)))) as Hok.
    { intros p b Bq Hb Hp Ho. apply (lane_step S _ _ _ w q ln (mk_worker_queue (wq_messages q ++ [m]) true b)
        (mk_lane (Some (new_token p)) (ln_posted ln ++ m_pending m) (ln_fates ln))); auto; try done;
        try (unfold moved; rewrite Zd; weigh; rewrite Et; destruct Hp as [-> | ->]; simpl in *; lia); [|simpl; lia].
      split; auto. simpl. splits; auto using settled_ok. rewrite Tm.
      by destruct Hp as [-> | ->]; apply Forall_singleton. }
    destruct (wq_burst q) as [b|] eqn:Eb; [destruct cb|].
    + destruct b; [done|]. step_ok. rewrite (put_queue_at _ w q) by done. step_ok. eexists. split; [done|].
      by apply Hok; auto using full_quantum_ok.
    + rewrite (put_queue_at _ w q) by done. step_ok. eexists. split; [done|].
      apply Hok; auto using full_quantum_ok. split; [done|by intros].
    + rewrite (put_queue_at _ w q) by done. step_ok. eexists. split; [done|].
      apply Hok; auto using full_quantum_ok. split; [done|by intros].
Qed.

(** A token moves on; its queue stays as it is. *)
Lemma token_step_ok S s' w q ln t t' :
  readers_ok S -> queues (rs_session S) !! w = Some q -> rs_lanes S !! w = Some ln -> ln_token ln = Some t ->
  lane_only (rs_session S) s' -> worker_queues s' = worker_queues (rs_session S) ->
  refcount s' = refcount (rs_session S) ->
  delivery_gate s' = delivery_gate (rs_session S) + Z.b2z (inside (tk_phase t')) - Z.b2z (inside (tk_phase t)) ->
  tk_job t' = tk_job t -> budget_ok (tk_budget t') ->
  (tk_phase t' = Deferred <-> tk_phase t = Deferred) ->
  head_ok (generation (rs_session S)) (tk_budget t') (tk_phase t') (wq_messages q) ->
  readers_ok (put_lane (set_session S s') w (with_token ln (Some t'))).
Proof.
  intros R Hq Hl Et Lo Eq Er Eg Ej Bt Ed Ho. pose proof R as [C B J Po Q N L].
  destruct (lane_at S w ln R Hl) as (q2 & Hq2 & Lq). rewrite Hq in Hq2. injection Hq2 as <-.
  destruct Lq as [Sc T Ms Hi F]. rewrite Et in Sc, T. destruct T as (Tj & Tb & Th & Td).
  apply (lane_step S s' (rs_jobs S) (rs_posts S) w q ln q (with_token ln (Some t'))); auto; try done;
    try (weigh; rewrite ?Et, ?Ej; simpl; lia).
  - rewrite list_insert_id by done. by rewrite Eq.
  - split; auto; simpl. rewrite Ej. splits; auto. tauto.
  - rewrite Er. apply B.
Qed.

Lemma lane_only_refl s : lane_only s s.
Proof. by splits. Qed.

(** The token ends and its queue is empty. *)
Lemma end_token_ok S w q ln t :
  readers_ok S -> queues (rs_session S) !! w = Some q -> rs_lanes S !! w = Some ln -> ln_token ln = Some t ->
  wq_messages q = [] -> inside (tk_phase t) = false -> tk_phase t <> Deferred ->
  readers_ok (end_token (set_session S (set_queues (rs_session S)
    (Some (<[w := mk_worker_queue [] false (wq_burst q)]> (queues (rs_session S)))))) w ln t).
Proof.
  intros R Hq Hl Et Em Hin Hd. pose proof R as [C B J Po Q N L].
  destruct (lane_at S w ln R Hl) as (q2 & Hq2 & Lq). rewrite Hq in Hq2. injection Hq2 as <-.
  destruct Lq as [Sc T Ms Hi F]. rewrite Et in Sc, T. destruct T as (Tj & Tb & Th & Td).
  apply (lane_step S _ (rs_jobs S ++ [tk_job t]) (rs_posts S) w q ln
    (mk_worker_queue [] false (wq_burst q)) (with_token ln None)); auto; try done;
    try (weigh; rewrite Et, Em; simpl; rewrite ?Hin; simpl; lia).
  - apply Forall_app. split; [done|by apply Forall_singleton].
  - rewrite Em in Hi. split; auto; simpl. split; [done|]. tauto.
  - exact (bo_ref_range S B).
Qed.

Lemma zsum_cons {A} (f : A -> Z) (x : A) (l : list A) : zsum f (x :: l) = f x + zsum f l.
Proof. done. Qed.

(** The thread that cleans a message up carries its weight. *)
Lemma cleanup_weight (l : list device_reader_message_t) (W : weight) :
  W = charge_weight \/ W = packet_weight \/ W = ref_weight \/ W = gate_weight \/ W = signal_weight ->
  zsum (on_job W) (cleanup_job <$> l) = zsum (on_message W) l.
Proof. intros HW. apply zsum_fmap. intros m. by destruct HW as [-> |[-> |[-> |[-> | ->]]]]. Qed.

Lemma cancel_step_ok S w ln t :
  readers_ok S -> rs_lanes S !! w = Some ln -> ln_token ln = Some t ->
  inside (tk_phase t) = false -> tk_phase t <> Deferred ->
  exists S', cancel_step S w ln t = Ok S' /\ readers_ok S'.
Proof.
  intros R Hl Et Hin Hd. pose proof R as [C B J Po Q N L].
  destruct (lane_at S w ln R Hl) as (q & Hq & Lq). destruct Lq as [Sc T Ms Hi F].
  rewrite Et in Sc, T. destruct T as (Tj & Tb & Th & Td).
  unfold cancel_step, cancel_locked. rewrite touch_live by apply C. step_ok.
  rewrite (get_queue_at _ w q Q Hq). step_ok. rewrite (put_queue_at _ w q _ Q Hq). step_ok.
  eexists. split; [done|].
  pose proof (zsum_cons (A := job)) as Zj. pose proof (cleanup_weight (wq_messages q)) as Zc.
  apply (lane_step S _ (rs_jobs S ++ tk_job t :: (cleanup_job <$> wq_messages q)) (rs_posts S) w q ln
    (mk_worker_queue [] false (wq_burst q))
    (mk_lane None (ln_posted ln) (ln_fates ln ++ (discarded <$> concat (m_pending <$> wq_messages q)))));
    auto; try done;
    try (unfold moved; rewrite zsum_app, Zj, Zc by auto; weigh; rewrite ?Et; simpl; rewrite ?Hin; simpl; lia).
  - apply Forall_app. split; [done|]. constructor; [done|]. rewrite Forall_fmap. eapply Forall_impl; [exact Ms|].
    intros m M. split; simpl; auto using m_charge_nonneg, m_packets_nonneg.
  - split; simpl; auto; [split; [done|]; tauto| |].
    + rewrite app_nil_r, fmap_app, Hi. f_equal. rewrite <- list_fmap_compose. symmetry. apply list_fmap_id.
    + apply Forall_app. split; [done|]. apply Forall_fmap, Forall_true. done.
  - exact (bo_ref_range S B).
Qed.

Lemma set_session_same S : set_session S (rs_session S) = S.
Proof. by destruct S. Qed.

Lemma submit_step_ok S w accept :
  readers_ok S -> may_do (DoSubmit w accept) S ->
  exists S', reader_step workers_count (DoSubmit w accept) S = Ok S' /\ readers_ok S'.
Proof.
  intros R (ln & t & Hl & Et & Ep). simpl. unfold submit_step. rewrite (get_token_at S w ln t Hl Et). step_ok.
  rewrite Ep. destruct accept; [|by apply cancel_step_ok; rewrite ?Ep].
  destruct (lane_at S w ln R Hl) as (q & Hq & [_ T _ _ _]). rewrite Et in T. destruct T as (_ & Tb & Th & _).
  rewrite Ep in Th. eexists. split; [done|]. rewrite <- (set_session_same S) at 1.
  apply (token_step_ok S _ w q ln t); auto using lane_only_refl; simpl; rewrite ?Ep; simpl; try done. lia.
Qed.

Lemma cancel_do_ok S w :
  readers_ok S -> may_do (DoCancel w) S ->
  exists S', reader_step workers_count (DoCancel w) S = Ok S' /\ readers_ok S'.
Proof.
  intros R (ln & t & Hl & Et & Ep). simpl. rewrite (get_token_at S w ln t Hl Et). step_ok.
  by apply cancel_step_ok; rewrite ?Ep.
Qed.

Lemma begin_burst_ok S i w :
  readers_ok S -> may_do (DoBeginBurst i w) S ->
  exists S', reader_step workers_count (DoBeginBurst i w) S = Ok S' /\ readers_ok S'.
Proof.
  intros R (Hi & q & Hq & Eb). pose proof R as [C B J Po Q N L].
  destruct (queue_lane S w q R Hq) as (ln & Hl & [Sc T Ms Hh F]).
  simpl. rewrite (fetch_ok _ _ _ Hi). step_ok. unfold deviceReaderSessionTryBeginBurst. simpl.
  rewrite (get_queue_at _ w q Q Hq). step_ok. rewrite Eb. step_ok. rewrite (put_queue_at _ w q _ Q Hq). step_ok.
  eexists. split; [done|]. unfold drop_job, set_session. simpl.
  rewrite <- (list_insert_id (rs_lanes S) w ln) at 1 by done.
  pose proof (fun W => zsum_delete (on_job W) (rs_jobs S) i settled_job Hi) as Zd.
  apply (lane_step S _ (delete i (rs_jobs S)) (rs_posts S) w q ln
    (mk_worker_queue (wq_messages q) (wq_scheduled q) (Some false)) ln); auto; try done;
    try (unfold moved; rewrite Zd; weigh; rewrite ?Eb; simpl; lia).
  - by apply Forall_delete.
  - split; auto. simpl. destruct (ln_token ln) as [t|]; [|by destruct T].
    destruct T as (? & ? & ? & Td). splits; auto. split; [done|]. intros Ep. apply Td in Ep. congruence.
  - exact (bo_ref_range S B).
Qed.

Lemma end_burst_ok S w :
  readers_ok S -> may_do (DoEndBurst w) S ->
  exists S', reader_step workers_count (DoEndBurst w) S = Ok S' /\ readers_ok S'.
Proof.
  intros R (q & Hq & Eb). pose proof R as [C B J Po Q N L].
  destruct (queue_lane S w q R Hq) as (ln & Hl & [Sc T Ms Hh F]).
  simpl. unfold end_burst_step, end_burst_locked. rewrite touch_live by apply C. step_ok.
  rewrite (get_queue_at _ w q Q Hq). step_ok. destruct (wq_burst q) as [owns|] eqn:Ebq; [|done].
  step_ok. rewrite (put_queue_at _ w q _ Q Hq). step_ok.
  set (s' := set_queues _ _). simpl. destruct owns.
  - destruct (ln_token ln) as [t|] eqn:Et; [|by destruct T]. destruct T as (Tj & Tb & Th & Td).
    unfold get_token. simpl. rewrite (fetch_ok _ _ _ Hl). step_ok. rewrite Et. step_ok. eexists. split; [done|].
    assert (tk_phase t = Deferred) as Ep by tauto. rewrite Ep in Th.
    apply (lane_step S s' (rs_jobs S ++ [settled_job]) (rs_posts S) w q ln
      (mk_worker_queue (wq_messages q) (wq_scheduled q) None)
      (with_token ln (Some (mk_token Looping full_quantum (tk_job t))))); auto; try done;
      try (weigh; rewrite ?Ebq, ?Et; simpl; rewrite ?Ep; simpl; lia).
    + apply Forall_app. split; [done|]. apply Forall_singleton, settled_ok.
    + exact (bo_ref_range S B).
  - eexists. split; [done|]. unfold add_jobs, set_session. simpl.
    rewrite <- (list_insert_id (rs_lanes S) w ln) at 1 by done.
    apply (lane_step S s' (rs_jobs S ++ [settled_job]) (rs_posts S) w q ln
      (mk_worker_queue (wq_messages q) (wq_scheduled q) None) ln); auto; try done;
      try (weigh; rewrite ?Ebq; simpl; lia).
    + apply Forall_app. split; [done|]. apply Forall_singleton, settled_ok.
    + split; auto. simpl. destruct (ln_token ln) as [t|]; [|by destruct T].
      destruct T as (? & ? & ? & Td). splits; auto. split; [done|]. intros Ep. apply Td in Ep. congruence.
    + exact (bo_ref_range S B).
Qed.

(** ** Draining *)

Lemma end_step_ok S w ln t :
  readers_ok S -> rs_lanes S !! w = Some ln -> ln_token ln = Some t ->
  tk_phase t = Looping \/ tk_phase t = Left false ->
  exists S', end_step S w ln t = Ok S' /\ readers_ok S'.
Proof.
  intros R Hl Et Hph. assert (inside (tk_phase t) = false /\ tk_phase t <> Deferred) as [Hin Hd]
    by (by destruct Hph as [-> | ->]). pose proof R as [C B J Po Q N L].
  destruct (lane_at S w ln R Hl) as (q & Hq & [Sc T Ms Hh F]). rewrite Et in T. destruct T as (Tj & Tb & Th & Td).
  unfold end_step, drain_end. rewrite touch_live by apply C. step_ok. rewrite (get_queue_at _ w q Q Hq). step_ok.
  destruct (wq_messages q) as [|m l] eqn:Em.
  - rewrite (put_queue_at _ w q _ Q Hq). step_ok. eexists. split; [done|]. by apply end_token_ok.
  - step_ok. eexists. split; [done|].
    apply (token_step_ok S _ w q ln t); auto using lane_only_refl; simpl; rewrite ?Hin; try done; [simpl; lia|].
    rewrite Em. destruct Hph as [Ep|Ep]; rewrite Ep in Th; [done|].
    destruct Th as (x & k & [= <- <-] & F' & _ & U). constructor; auto.
Qed.

Lemma gate_share S w q ln :
  readers_ok S -> queues (rs_session S) !! w = Some q -> rs_lanes S !! w = Some ln ->
  lane_weight gate_weight q ln <= total gate_weight S <= zlen (rs_lanes S).
Proof.
  intros R Hq Hl. pose proof (ro_lanes S R) as L. destruct weights_nonneg as (_ & _ & _ & Wg & _).
  pose proof (lanes_weight_nonneg _ _ _ _ Wg L) as F.
  destruct (zsum_bound id _ w (lane_weight gate_weight q ln) F) as [_ Hb].
  { rewrite lookup_zip_with, Hq. simpl. by rewrite Hl. }
  unfold total. simpl. rewrite !(zsum_zero (fun _ => 0)) by (by apply Forall_true).
  change (id (lane_weight gate_weight q ln)) with (lane_weight gate_weight q ln) in Hb. split; [lia|].
  clear - L. induction L as [|q ln qs lanes _ _ IH]; [done|]. cbn [zip_with]. rewrite zsum_cons.
  assert (lane_weight gate_weight q ln <= 1) as Hone.
  { unfold lane_weight. simpl. rewrite (zsum_zero (fun _ => 0)) by (by apply Forall_true).
    destruct (ln_token ln) as [t|]; simpl; [|lia]. destruct (inside (tk_phase t)); simpl; lia. }
  change (id (lane_weight gate_weight q ln)) with (lane_weight gate_weight q ln). unfold zlen in *. simpl. lia.
Qed.

Lemma enter_ok S w q ln t m :
  readers_ok S -> queues (rs_session S) !! w = Some q -> rs_lanes S !! w = Some ln -> ln_token ln = Some t ->
  exists (entered admitted : bool), drain_enter (rs_session S) m =
      Ok (entered, admitted, if entered then set_gate (rs_session S) (delivery_gate (rs_session S) + 1) else rs_session S) /\
    (admitted = true -> entered = true /\ m_generation m = generation (rs_session S)).
Proof.
  intros R Hq Hl Et. pose proof R as [C B _ _ _ N _]. destruct (gate_share S w q ln R Hq Hl) as [_ Hb].
  destruct weights_nonneg as (_ & _ & _ & Wg & _). assert (0 <= total gate_weight S) as Hn by (eapply weight_total_nonneg; eauto; apply R).
  destruct (bo_gate S B) as [c Eg]. unfold drain_enter. rewrite touch_live by apply C. step_ok.
  unfold quiescenceGateEnter. unfold UINT16_MAX in N. rewrite Eg, word_closed, word_in_flight by lia. destruct c; step_ok.
  - by exists false, false.
  - rewrite mask_value. replace (_ =? 2 ^ 31 - 1) with false by lia. rewrite Z.eqb_refl. step_ok.
    rewrite wrap32_small by (unfold word_of, UINT32_MAX; lia).
    eexists true, _. split; [done|]. intros E. bool_facts. done.
Qed.

Lemma leave_lane_ok S w q ln t entered :
  readers_ok S -> queues (rs_session S) !! w = Some q -> rs_lanes S !! w = Some ln -> ln_token ln = Some t ->
  inside (tk_phase t) = entered ->
  drain_leave (rs_session S) entered =
    Ok (if entered then set_gate (rs_session S) (delivery_gate (rs_session S) - 1) else rs_session S).
Proof.
  intros R Hq Hl Et Hin. destruct entered; [|done]. pose proof R as [C B _ _ _ N _].
  destruct (gate_share S w q ln R Hq Hl) as [Hs Hb]. destruct (bo_gate S B) as [c Eg].
  assert (lane_weight gate_weight q ln = 1) as Hone.
  { unfold lane_weight. simpl. rewrite Et. simpl. rewrite (zsum_zero (fun _ => 0)) by (by apply Forall_true).
    rewrite Hin. done. }
  unfold drain_leave. simpl. unfold UINT16_MAX in N. rewrite Eg, word_in_flight by lia. rewrite assert_bind by lia.
  rewrite wrap32_small by (unfold word_of, UINT32_MAX; destruct c; lia). done.
Qed.

(** One packet leaves the head. *)
Lemma take_message m x c :
  message_ok m -> m_work m = None -> m_bufs m !! Z.to_nat (m_consumed m) = Some x ->
  m_charges m !! Z.to_nat (m_consumed m) = Some c ->
  let m' := set_consumed m (wrap16 (m_consumed m + 1)) in
  message_ok m' /\ m_charge m = c + m_charge m' /\ m_packets m = 1 + m_packets m' /\ 0 < c /\
  m_pending m = (m_generation m, x) :: m_pending m'.
Proof.
  intros (Hc & Hb & G & M) Ew Hx Hch m'. apply lookup_lt_Some in Hx as Hlt. rewrite Ew in M. destruct M as [El Fc].
  assert (wrap16 (m_consumed m + 1) = m_consumed m + 1) as Ewr by (apply wrap16_small; unfold zlen in *; lia).
  assert (Z.to_nat (m_consumed m + 1) = Datatypes.S (Z.to_nat (m_consumed m))) as En by lia.
  unfold m', message_ok, m_charge, m_packets, m_pending. simpl. rewrite Ewr, Ew, En. splits; auto; try (unfold zlen in *; lia).
  - by rewrite (drop_S _ c) by done.
  - rewrite Forall_lookup in Fc. by apply (Fc (Z.to_nat (m_consumed m))).
  - by rewrite (drop_S _ x) by done.
Qed.

Lemma take_step_ok S w ln t m l q entered admitted :
  readers_ok S -> queues (rs_session S) !! w = Some q -> rs_lanes S !! w = Some ln -> ln_token ln = Some t ->
  tk_phase t = Delivering entered admitted -> wq_messages q = m :: l -> m_work m = None ->
  drain_more m (tk_budget t) = Ok true ->
  exists x c b s', drain_take (rs_session S) (Z.of_nat w) (tk_budget t) = Ok (x, c, b, s') /\
    generation s' = generation (rs_session S) /\
    readers_ok (put_lane (set_session S s') w
      (mk_lane (Some (mk_token (tk_phase t) b (owe (tk_job t) c 1))) (ln_posted ln)
         (ln_fates ln ++ [(m_generation m, x, if admitted then Some (generation s') else None)]))).
Proof.
  intros R Hq Hl Et Ep Em Ew Emore. pose proof R as [C B J Po Q N L].
  destruct (lane_at S w ln R Hl) as (q2 & Hq2 & [Sc T Ms Hh F]). rewrite Hq in Hq2. injection Hq2 as <-.
  rewrite Et in T. destruct T as (Tj & Tb & Th & Td). rewrite Ep, Em in Th. destruct Th as (m2 & l2 & [= <- <-] & Fu & _ & Ha).
  unfold drain_more in Emore. destruct (_ && _ && _) eqn:Et2 in Emore; [|done]. bool_facts.
  rewrite Em in Ms. apply Forall_cons in Ms as [M Ms]. pose proof M as (Hc & _ & G & Mw). rewrite Ew in Mw. destruct Mw as [Elen _].
  destruct (lookup_lt_is_Some_2 (m_bufs m) (Z.to_nat (m_consumed m))) as [x Hx]; [unfold zlen in *; lia|].
  destruct (lookup_lt_is_Some_2 (m_charges m) (Z.to_nat (m_consumed m))) as [c Hch]; [unfold zlen in *; lia|].
  destruct (take_message m x c M Ew Hx Hch) as (M' & Eq1 & Eq2 & Hc0 & Eq3).
  rewrite Forall_lookup in G. destruct (G _ _ Hx) as [Wx _]. pose proof (wf_len x Wx) as Hlen.
  unfold drain_take. rewrite touch_live by apply C. step_ok. rewrite (get_queue_at _ w q Q Hq). step_ok. rewrite Em.
  rewrite (arr_get_ok _ _ x) by (done || lia). step_ok. rewrite (arr_get_ok _ _ c) by (done || lia). step_ok.
  rewrite (put_queue_at _ w q _ Q Hq). step_ok. do 4 eexists. split; [done|]. split; [done|].
  destruct Tb as [Tp Tby]. unfold kDeviceReaderWorkerPacketQuantum in Tp.
  apply (lane_step S _ (rs_jobs S) (rs_posts S) w q ln
    (mk_worker_queue (set_consumed m (wrap16 (m_consumed m + 1)) :: l) (wq_scheduled q) (wq_burst q))); auto; try done;
    try (unfold moved, lane_weight; rewrite Em, Et; simpl; rewrite ?zsum_cons; simpl; lia).
  - split; simpl; auto.
    + by rewrite Sc, Et.
    + rewrite wrap32_small by (unfold UINT32_MAX; lia). splits; auto.
      * destruct Tj. split; simpl; lia.
      * unfold budget_ok, sbufGetLength, kDeviceReaderWorkerPacketQuantum. simpl. lia.
      * rewrite Ep. simpl. do 2 eexists. split; [done|]. simpl. rewrite Ew. done.
    + rewrite Hh, Em, fmap_app. simpl. rewrite Eq3. simpl. by rewrite <- app_assoc.
    + apply Forall_app. split; [done|]. apply Forall_singleton. unfold fate_ok. destruct admitted; [|done]. simpl.
      destruct Ha as [_ ->]; done.
  - exact (bo_ref_range S B).
Qed.

Lemma deliver_step_ok S w work ln t q entered admitted :
  readers_ok S -> queues (rs_session S) !! w = Some q -> rs_lanes S !! w = Some ln -> ln_token ln = Some t ->
  tk_phase t = Delivering entered admitted -> callback_ok work (tk_budget t) ->
  exists S', deliver_step S w work ln t entered admitted = Ok S' /\ readers_ok S'.
Proof.
  intros R Hq Hl Et Ep Cb. pose proof R as [C B J Po Q N L].
  destruct (lane_at S w ln R Hl) as (q2 & Hq2 & [Sc T Ms Hh F]). rewrite Hq in Hq2. injection Hq2 as <-.
  rewrite Et in T. destruct T as (Tj & Tb & Th & Td). rewrite Ep in Th. destruct Th as (m & l & Em & Fu & Hw & Ha).
  assert (forall p b, budget_ok b -> inside p = entered -> p <> Deferred ->
    head_ok (generation (rs_session S)) b p (wq_messages q) ->
    readers_ok (put_lane S w (with_token ln (Some (mk_token p b (tk_job t)))))) as Hmove.
  { intros p b Hb Hin Hd Ho. rewrite <- (set_session_same S) at 1.
    apply (token_step_ok S _ w q ln t); auto using lane_only_refl; simpl; rewrite ?Ep, ?Hin; simpl; try done; lia. }
  unfold deliver_step, queue_head. rewrite (get_queue_at _ w q Q Hq). step_ok. rewrite Em. step_ok.
  destruct (m_work m) as [cp|] eqn:Ew.
  - assert (exists done b, drain_work work admitted (tk_budget t) = Ok (done, b) /\ budget_ok b) as (done & b & -> & Hb).
    { unfold drain_work, callback_ok in *. destruct admitted.
      - destruct (work (tk_budget t)) as [d b]. destruct Cb as (Hb & Hp & Hy & Hd).
        rewrite !assert_bind; [by exists d, b|destruct d; simpl; [specialize (Hd eq_refl)|]; lia|lia].
      - do 2 eexists. split; [done|]. assert (0 < wb_packets (tk_budget t)) by auto. destruct Tb as [Tp Ty].
        unfold budget_ok, kDeviceReaderWorkerPacketQuantum in *. simpl. rewrite wrap32_small by word_lia. lia. }
    step_ok. eexists. split; [done|]. apply Hmove; try done. rewrite Em. simpl. exists m, l.
    rewrite Ew. splits; auto; [done|]. intros _. rewrite Em in Ms. apply Forall_cons in Ms as [(_ & _ & _ & Mw) _].
    unfold unfinished, m_packets. rewrite Ew in *. destruct cp. lia.
  - destruct (drain_more m (tk_budget t)) as [more|f] eqn:Emore.
    2: { unfold drain_more in Emore. destruct (_ && _ && _) eqn:E in Emore; [|done]. bool_facts.
         assert (message_ok m) as (Hc & _) by (rewrite Em in Ms; by apply Forall_cons in Ms as [? _]).
         destruct (lookup_lt_is_Some_2 (m_bufs m) (Z.to_nat (m_consumed m))) as [x Hx]; [unfold zlen in *; lia|].
         by rewrite (arr_get_ok _ _ x) in Emore by (done || lia). }
    step_ok. destruct more.
    + destruct (take_step_ok S w ln t m l q entered admitted R Hq Hl Et Ep Em Ew Emore) as (x & c & b & s' & -> & Eg & R').
      step_ok. eauto.
    + eexists. split; [done|]. apply Hmove; try done. rewrite Em. simpl. exists m, l. splits; auto.
      * intros Ed _. by bool_facts.
      * intros Ed. bool_facts. rewrite Em in Ms. apply Forall_cons in Ms as [(Hc & _) _].
        unfold unfinished, m_packets. rewrite Ew. lia.
Qed.

Lemma pop_step_ok S w ln t q :
  readers_ok S -> queues (rs_session S) !! w = Some q -> rs_lanes S !! w = Some ln -> ln_token ln = Some t ->
  tk_phase t = Left true ->
  exists m s', drain_pop (rs_session S) (Z.of_nat w) = Ok (m, s') /\
    readers_ok (add_jobs (put_lane (set_session S s') w (with_token ln (Some (at_phase t Looping)))) [cleanup_job m]).
Proof.
  intros R Hq Hl Et Ep. pose proof R as [C B J Po Q N L].
  destruct (lane_at S w ln R Hl) as (q2 & Hq2 & [Sc T Ms Hh F]). rewrite Hq in Hq2. injection Hq2 as <-.
  rewrite Et in T. destruct T as (Tj & Tb & Th & Td). rewrite Ep in Th. destruct Th as (m & l & Em & Fu & Hd & _).
  rewrite Em in Ms. apply Forall_cons in Ms as [M Ms].
  assert (m_pending m = []) as Hp.
  { unfold m_pending. destruct M as (Hc & _ & _ & Mw). destruct (m_work m) as [[]|] eqn:Ew.
    - destruct Mw as [-> _]. by rewrite drop_nil.
    - rewrite drop_ge; [done|]. rewrite Hd by done. unfold zlen. lia. }
  unfold drain_pop. rewrite touch_live by apply C. step_ok. rewrite (get_queue_at _ w q Q Hq). step_ok. rewrite Em.
  rewrite (put_queue_at _ w q _ Q Hq). step_ok. do 2 eexists. split; [done|].
  apply (lane_step S _ (rs_jobs S ++ [cleanup_job m]) (rs_posts S) w q ln
    (mk_worker_queue l (wq_scheduled q) (wq_burst q)) (with_token ln (Some (at_phase t Looping)))); auto; try done;
    try (unfold moved, lane_weight; rewrite Em, Et; simpl; rewrite ?zsum_app, ?zsum_cons; simpl; rewrite ?Ep; simpl; lia).
  - apply Forall_app. split; [done|]. apply Forall_singleton. split; simpl; auto using m_charge_nonneg, m_packets_nonneg.
  - split; simpl; auto.
    + by rewrite Sc, Et.
    + splits; auto. rewrite Ep in Td. split; [|done]. intros E. by apply Td in E.
    + rewrite Hh, Em. simpl. by rewrite Hp.
  - exact (bo_ref_range S B).
Qed.

Lemma drain_do_ok S w work :
  readers_ok S -> may_do (DoDrain w work) S ->
  exists S', reader_step workers_count (DoDrain w work) S = Ok S' /\ readers_ok S'.
Proof.
  intros R (ln & t & Hl & Et & Hs & Hd & Cb). pose proof R as [C B J Po Q N L].
  destruct (lane_at S w ln R Hl) as (q & Hq & [Sc T Ms Hh F]). rewrite Et in T. destruct T as (Tj & Tb & Th & Td).
  simpl. unfold drain_step. rewrite (get_token_at S w ln t Hl Et). step_ok.
  destruct (tk_phase t) as [| | | | |entered admitted|entered dn|dn] eqn:Ep; try done.
  - eexists. split; [done|]. rewrite <- (set_session_same S) at 1.
    apply (token_step_ok S _ w q ln t); auto using lane_only_refl, full_quantum_ok; simpl; rewrite ?Ep; simpl; try done. lia.
  - destruct (_ && _) eqn:Eb; [|by apply end_step_ok; auto]. bool_facts.
    unfold drain_peek. rewrite touch_live by apply C. step_ok. rewrite (get_queue_at _ w q Q Hq). step_ok.
    destruct (wq_messages q) as [|m l] eqn:Em.
    + rewrite (put_queue_at _ w q _ Q Hq). step_ok. eexists. split; [done|]. by apply end_token_ok; rewrite ?Ep.
    + step_ok. eexists. split; [done|].
      apply (token_step_ok S _ w q ln t); auto using lane_only_refl; simpl; rewrite ?Ep, ?Em; simpl; try done; try lia.
  - destruct Th as (Hn & Hp & Fu). unfold queue_head. rewrite (get_queue_at _ w q Q Hq). step_ok.
    destruct (wq_messages q) as [|m l] eqn:Em; [done|]. step_ok.
    destruct (enter_ok S w q ln t m R Hq Hl Et) as (entered & admitted & -> & Ha). step_ok. eexists. split; [done|].
    apply (token_step_ok S _ w q ln t); auto; simpl; rewrite ?Ep; try (by destruct entered);
      [destruct entered; simpl; lia|]. rewrite Em. apply Forall_cons in Fu as [_ Fu]. eauto 8.
  - by apply (deliver_step_ok S w work ln t q).
  - rewrite (leave_lane_ok S w q ln t entered R Hq Hl Et) by (by rewrite Ep). step_ok. eexists. split; [done|].
    apply (token_step_ok S _ w q ln t); auto; simpl; rewrite ?Ep; try (by destruct entered); destruct entered; simpl; lia.
  - destruct dn; [|by apply end_step_ok; auto].
    destruct (pop_step_ok S w ln t q R Hq Hl Et Ep) as (m & s' & -> & R'). step_ok. eauto.
Qed.

(** ** The life of the session *)

(** What the lifecycle leaves alone. *)
Definition lifecycle_only (s s' : device_reader_session_t P) : Prop :=
  freed s' = freed s /\ batch_capacity s' = batch_capacity s /\ refcount s' = refcount s /\
  budget s' = budget s /\ worker_queues s' = worker_queues s.

Lemma lane_ok_outside gen gen' q ln :
  lane_ok gen q ln -> lane_weight gate_weight q ln = 0 -> lane_ok gen' q ln.
Proof.
  intros [Sc T Ms Hh F] E. split; auto. destruct (ln_token ln) as [t|] eqn:Et; [|done].
  destruct T as (Tj & Tb & Th & Td). splits; auto. unfold lane_weight in E. rewrite Et in E. simpl in E.
  rewrite (zsum_zero (fun _ => 0)) in E by (by apply Forall_true).
  destruct (tk_phase t) as [| | | | |entered admitted|entered dn|dn]; auto.
  destruct Th as (m & l & Em & Fu & Hw & Ha). exists m, l. splits; auto. intros Hadm. destruct (Ha Hadm) as [-> _].
  by simpl in E.
Qed.

Lemma lanes_outside gen gen' qs lanes :
  Forall2 (lane_ok gen) qs lanes -> zsum id (zip_with (lane_weight gate_weight) qs lanes) = 0 ->
  Forall2 (lane_ok gen') qs lanes.
Proof.
  intros L. induction L as [|q ln qs lanes Lq L IH]; [constructor|]. cbn [zip_with]. rewrite zsum_cons. intros E.
  destruct weights_nonneg as (_ & _ & _ & Wg & _).
  pose proof (lane_weight_nonneg _ _ _ _ Wg Lq) as N1.
  pose proof (zsum_nonneg id _ (lanes_weight_nonneg _ _ _ _ Wg L)) as N2.
  change (id (lane_weight gate_weight q ln)) with (lane_weight gate_weight q ln) in E.
  constructor; [apply (lane_ok_outside gen); auto; lia|]. apply IH. lia.
Qed.

Lemma total_gate S :
  total gate_weight S = zsum id (zip_with (lane_weight gate_weight) (queues (rs_session S)) (rs_lanes S)).
Proof. unfold total. simpl. by rewrite !(zsum_zero (fun _ => 0)) by (by apply Forall_true). Qed.

Lemma gate_range S : readers_ok S -> 0 <= total gate_weight S < 2 ^ 31.
Proof.
  intros R. destruct weights_nonneg as (_ & _ & _ & Wg & _). split; [eapply weight_total_nonneg; eauto; apply R|].
  pose proof (ro_count S R) as N. unfold UINT16_MAX in N. destruct (rs_lanes S) as [|ln lanes] eqn:El.
  - rewrite total_gate, El. destruct (queues _); unfold zsum; simpl; lia.
  - destruct (lane_at S 0 ln R) as (q & Hq & _); [by rewrite El|].
    destruct (gate_share S 0 q ln R Hq) as [_ Hb]; [by rewrite El|]. rewrite El in Hb. lia.
Qed.

Lemma lifecycle_step S s' :
  readers_ok S -> lifecycle_only (rs_session S) s' -> 0 <= generation s' <= UINT32_MAX ->
  (exists c, capacity_notify_gate s' = word_of c 0) ->
  (exists c, delivery_gate s' = word_of c (total gate_weight S)) ->
  table_ok (frag_affinity s') -> pool_inv (reader_buffer_pool s') ->
  (generation s' = generation (rs_session S) \/ total gate_weight S = 0) ->
  readers_ok (set_session S s').
Proof.
  intros R (E1 & E2 & E3 & E4 & E5) G Nt Dg Tb Pl Hg.
  pose proof R as [[C1 C2 C3 C4 C5 _ _ _ _] [B1 B2 B3 B4 B5 B6 _ B8] J Po Q N L].
  assert (queues s' = queues (rs_session S)) as Eq by (unfold queues; by rewrite E5).
  assert (forall w, total w (set_session S s') = total w S) as T by (intros w; unfold total; simpl; by rewrite Eq).
  split; simpl; auto.
  - split; rewrite ?E1, ?E2, ?E4; auto.
  - split; simpl; rewrite ?T, ?E3, ?E4; auto.
  - by rewrite E5, Eq.
  - rewrite Eq. destruct Hg as [->|Hz]; [done|]. rewrite total_gate in Hz. by apply (lanes_outside (generation (rs_session S))).
Qed.

Lemma quiesced_word c n :
  0 <= n < 2 ^ 31 -> quiescenceGateIsClosedAndQuiesced (word_of c n) = true -> c = true /\ n = 0.
Proof.
  intros Hn E. unfold quiescenceGateIsClosedAndQuiesced in E. bool_facts.
  change QUIESCENCE_GATE_CLOSED with (2 ^ 31) in E. unfold word_of in E. destruct c; [split; [done|lia]|lia].
Qed.

Lemma begin_step_ok S :
  readers_ok S -> exists S', reader_step workers_count DoBegin S = Ok S' /\ readers_ok S'.
Proof.
  intros R. pose proof R as [C B _ _ _ _ _]. pose proof (gate_range S R) as Hn.
  destruct (bo_gate S B) as [c Eg]. destruct (co_notify _ C) as [c' En]. destruct (co_generation _ C) as [G0 G1].
  simpl. unfold deviceReaderSessionBegin. rewrite touch_live by apply C. step_ok.
  destruct (quiescenceGateIsClosedAndQuiesced (delivery_gate _)) eqn:Ed; simpl;
    [|step_ok; eexists; split; [done|]; by rewrite set_session_same].
  destruct (quiescenceGateIsClosedAndQuiesced (capacity_notify_gate _)) eqn:Ec; simpl;
    [|step_ok; eexists; split; [done|]; by rewrite set_session_same].
  destruct (generation (rs_session S) =? UINT32_MAX) eqn:Egen; bool_facts;
    [step_ok; eexists; split; [done|]; by rewrite set_session_same|].
  rewrite Eg in Ed. destruct (quiesced_word c _ Hn Ed) as [-> Hz]. rewrite En in Ec.
  destruct (quiesced_word c' 0 ltac:(lia) Ec) as [-> _]. rewrite Hz in Eg.
  unfold quiescenceGateOpen. rewrite Eg, En. change (word_of true 0 =? QUIESCENCE_GATE_CLOSED) with true. step_ok.
  rewrite wrap32_small by lia.
  assert (forall w, (exists c, w = word_of c 0) -> readers_ok (set_session S (set_frag
    (set_admission (rs_session S) (generation (rs_session S) + 1) true 0 0 w)
    (deviceFragAffinityBeginGeneration (frag_affinity (rs_session S))) (reader_pool_set (rs_session S))
    (reader_buffer_pool (rs_session S))))) as Hok.
  { intros w Hw. apply lifecycle_step; simpl; auto; try lia; try done.
    - exists false. by rewrite Hz.
    - apply begin_generation_ok, C.
    - apply C. }
  destruct (capacity_notify (rs_session S)); step_ok; (eexists; split; [done|]); apply Hok; eauto.
  by exists false.
Qed.

Lemma close_outside k word :
  quiescenceGateClose zero_tracked k word = Ok (Z.lor word QUIESCENCE_GATE_CLOSED).
Proof. reflexivity. Qed.

Lemma shut_step_ok S a :
  readers_ok S -> match a with DoShutAdmission | DoShutNotify | DoShutDelivery | DoNext => True | _ => False end ->
  exists S', reader_step workers_count a S = Ok S' /\ readers_ok S'.
Proof.
  intros R Ha. pose proof R as [C B _ _ _ _ _]. pose proof (gate_range S R) as Hn.
  destruct (bo_gate S B) as [c Eg]. destruct (co_notify _ C) as [c' En].
  destruct a; try done; cbn [reader_step]; rewrite touch_live by apply C; step_ok.
  - eexists. split; [done|]. apply lifecycle_step; simpl; eauto; try apply C. done.
  - unfold shut_notify. rewrite close_outside. step_ok. eexists. split; [done|].
    rewrite En, word_close by lia. apply lifecycle_step; simpl; eauto; try apply C. done.
  - unfold shut_delivery. rewrite close_outside. step_ok. eexists. split; [done|].
    rewrite Eg, word_close by lia. apply lifecycle_step; simpl; eauto; try apply C. done.
  - eexists. split; [done|]. apply lifecycle_step; simpl; eauto; try apply C. done.
Qed.

Lemma end_wait_ok S now :
  readers_ok S -> may_do (DoEndWait now) S ->
  exists S', reader_step workers_count (DoEndWait now) S = Ok S' /\ readers_ok S'.
Proof.
  intros R (_ & Hd & Hc). pose proof R as [C B _ _ _ _ _].
  cbn [reader_step]. unfold deviceReaderSessionEndWait. rewrite touch_live by apply C. step_ok.
  unfold quiescenceGateWaitQuiesced, is_closed in *. rewrite (assert_bind _ _ Hc). step_ok.
  rewrite (assert_bind _ _ Hd). step_ok. destruct (negb (_ && _)); step_ok; (eexists; split; [done|]); simpl; [by rewrite set_session_same|].
  apply lifecycle_step; simpl; auto; try apply C; try apply B; [done|].
  apply end_generation_ok, C.
Qed.

(** A call on the fragment table. *)
Lemma table_call_ok S c set :
  readers_ok S -> may_call c (frag_affinity (rs_session S)) ->
  exists r t pool, call_step workers_count c (frag_affinity (rs_session S)) (reader_buffer_pool (rs_session S)) =
    Ok (r, t, pool) /\ readers_ok (set_session S (set_frag (rs_session S) t set pool)).
Proof.
  intros R M. pose proof R as [C B _ _ _ _ _].
  destruct (call_ok workers_count c _ _ (co_table _ C) (co_pool _ C) M) as (r & t & pool & -> & T & I & _).
  do 3 eexists. split; [done|]. apply lifecycle_step; simpl; auto; try apply C; try apply B. done.
Qed.

Lemma retire_step_ok S a :
  readers_ok S -> may_do a S -> match a with DoRetireGeneration | DoRetireProducer => True | _ => False end ->
  exists S', reader_step workers_count a S = Ok S' /\ readers_ok S'.
Proof.
  intros R M Ha. pose proof R as [C B _ _ _ _ _]. destruct a; try done; simpl in M |- *.
  - destruct M as (_ & Hg & Hq). unfold deviceReaderSessionRetireGenerationBuffers. rewrite touch_live by apply C.
    step_ok. rewrite assert_bind by done.
    destruct (reader_pool_set (rs_session S)); simpl; [|step_ok; eexists; split; [done|]; by rewrite set_session_same].
    destruct (table_call_ok S CallRelease true R Hg) as (r & t & pool & E & R'). simpl in E.
    apply bind_Ok in E as ([t2 p2] & E & [= <- <- <-]). rewrite E. step_ok. eauto.
  - destruct M as (_ & Hg & Hq & Hs). unfold deviceReaderSessionRetireProducerBuffers. rewrite touch_live by apply C.
    step_ok. rewrite !assert_bind by done.
    destruct (table_call_ok S CallRetire false R Hg) as (r & t & pool & E & R'). simpl in E.
    apply bind_Ok in E as ([t2 p2] & E & [= <- <- <-]). rewrite E. step_ok. eauto.
Qed.

Lemma do_ok S a :
  readers_ok S -> may_do a S ->
  exists S', reader_step workers_count a S = Ok S' /\ (readers_ok S' \/ readers_gone S').
Proof.
  intros R M.
  assert ((exists S', reader_step workers_count a S = Ok S' /\ readers_ok S') ->
    exists S', reader_step workers_count a S = Ok S' /\ (readers_ok S' \/ readers_gone S')) as Hok
    by (intros (S' & ? & ?); eauto).
  destruct a as [o|i|o c p|o c p|o|o w bufs charges prep|o w c p|k cb|w acc|w|i w|w|w work| | | | |now| | |c|];
    [..|].
  - by apply Hok, ref_step_ok.
  - by apply unref_step_ok.
  - by apply Hok, reserve_step_ok.
  - by apply Hok, settle_step_ok.
  - by apply Hok, signal_step_ok.
  - apply Hok. destruct M as (j & Ej & Hr & Hw & G & Hb & Hc & Hoc & Hop).
    destruct (posted_message S bufs charges prep R G) as (Mo & Mc & Mp); [lia|done|].
    apply (post_step_ok S o w _ j); auto; unfold unfinished; lia.
  - apply Hok. destruct M as (j & Ej & Hr & Hw & Hc & Hp). apply (post_step_ok S o w _ j); auto;
      unfold message_ok, unfinished, m_charge, m_packets, zlen, UINT16_MAX; simpl; splits; auto; lia.
  - by apply Hok, append_step_ok.
  - by apply Hok, submit_step_ok.
  - by apply Hok, cancel_do_ok.
  - by apply Hok, begin_burst_ok.
  - by apply Hok, end_burst_ok.
  - by apply Hok, drain_do_ok.
  - by apply Hok, begin_step_ok.
  - by apply Hok, shut_step_ok.
  - by apply Hok, shut_step_ok.
  - by apply Hok, shut_step_ok.
  - by apply Hok, end_wait_ok.
  - by apply Hok, retire_step_ok.
  - by apply Hok, retire_step_ok.
  - apply Hok. destruct M as [_ M].
    destruct (table_call_ok S c (reader_pool_set (rs_session S)) R M) as (r & t & pool & E & R').
    cbn [reader_step]. unfold table_step. rewrite touch_live by apply R. step_ok. rewrite E. step_ok. eauto.
  - by apply Hok, shut_step_ok.
Qed.

(** Nobody acts on a session that is gone. *)
Lemma gone_idle S a : readers_gone S -> ~ may_do a S.
Proof.
  intros [G1 G2 G3 G4 G5 G6] M.
  assert (forall o j, get_job S o <> Ok j) as Hj.
  { intros [i|w] j E; simpl in E; unfold fetch, get_token in E; [by rewrite G4 in E|].
    unfold fetch in E. destruct (rs_lanes S !! w) as [ln|] eqn:El; [|done]. simpl in E.
    rewrite Forall_lookup in G6. destruct (G6 w ln El) as [E2 _]. by rewrite E2 in E. }
  assert (forall w ln t, rs_lanes S !! w = Some ln -> ln_token ln <> Some t) as Hl.
  { intros w ln t El E. rewrite Forall_lookup in G6. destruct (G6 w ln El) as [E2 _]. congruence. }
  assert (queues (rs_session S) = []) as Hq by (unfold queues; by rewrite G3).
  destruct a; simpl in M; rewrite ?G4, ?G5, ?Hq in M; unfold in_phase in M; simpl in M;
    repeat match goal with
    | X : _ /\ _ |- _ => destruct X
    | X : ex _ |- _ => destruct X
    end; try done; try lia; first [by eapply Hj|by eapply Hl].
Qed.

(** ** Every run *)

(** A session as the devices set it up, with the reference of its owner. *)
Inductive reader_run : reader_system P -> Prop :=
  | run_start capacity pool policy max_charge max_packets count s0 s1 s2 s3 :
      capacity <= UINT16_MAX -> pool_inv pool -> 0 < max_charge <= UINT64_MAX ->
      0 < max_packets <= UINT32_MAX -> 0 < count <= UINT16_MAX ->
      deviceReaderSessionCreate capacity pool policy true true = Ok (Some s0) ->
      deviceReaderSessionConfigureOutputBudget s0 max_charge max_packets true = Ok (true, s1) ->
      deviceReaderSessionEnableWorkerQueue s1 count true = Ok (true, s2) ->
      (s3 = s2 \/ deviceReaderSessionConfigureCapacityNotify s2 = Ok s3) ->
      reader_run (mk_readers s3 [settled_job] [] (replicate (Z.to_nat count) (mk_lane None [] [])))
  | run_do a S S' :
      reader_run S -> may_do a S -> reader_step workers_count a S = Ok S' -> reader_run S'.

Lemma start_ok capacity pool policy max_charge max_packets count s0 s1 s2 s3 :
  capacity <= UINT16_MAX -> pool_inv pool -> 0 < max_charge <= UINT64_MAX ->
  0 < max_packets <= UINT32_MAX -> 0 < count <= UINT16_MAX ->
  deviceReaderSessionCreate capacity pool policy true true = Ok (Some s0) ->
  deviceReaderSessionConfigureOutputBudget s0 max_charge max_packets true = Ok (true, s1) ->
  deviceReaderSessionEnableWorkerQueue s1 count true = Ok (true, s2) ->
  (s3 = s2 \/ deviceReaderSessionConfigureCapacityNotify s2 = Ok s3) ->
  readers_ok (mk_readers s3 [settled_job] [] (replicate (Z.to_nat count) (mk_lane None [] []))).
Proof.
  intros Hcap I Hc Hp Hn E0 E1 E2 E3. unfold deviceReaderSessionCreate in E0. run_ok E0.
  destruct (deviceFragAffinityCreate true policy true) as [t|] eqn:Et; simpl in E0; [|done].
  injection E0 as <-. apply create_table_ok in Et as (T & _); [|unfold u16, UINT16_MAX; lia].
  unfold deviceReaderSessionConfigureOutputBudget in E1. run_ok E1. simpl in E1. injection E1 as <-.
  unfold deviceReaderSessionEnableWorkerQueue in E2. run_ok E2. simpl in E2. injection E2 as <-.
  set (qs := replicate _ _) in *.
  assert (exists n, s3 = mk_session 1 0 false 0 kDeviceOpaqueFlowPrefix quiescenceGateInit quiescenceGateInit n
    capacity (mk_output 0 0 false max_charge max_packets) (Some qs) t true pool false) as [n ->].
  { destruct E3 as [->|E3]; [by exists false|]. unfold deviceReaderSessionConfigureCapacityNotify in E3. run_ok E3.
    simpl in E3. injection E3 as <-. by exists true. }
  assert (forall w, on_burst w None = 0 -> zsum id (zip_with (lane_weight w) qs
    (replicate (Z.to_nat count) (mk_lane None [] []))) = 0) as Hz.
  { intros w Hw. unfold qs. rewrite zip_with_replicate. apply zsum_replicate. unfold lane_weight. simpl. unfold id. lia. }
  split; simpl; auto.
  - split; simpl; auto; try lia; try (unfold UINT32_MAX; lia). by exists true.
  - set (S0 := mk_readers _ _ _ _).
    assert (forall w, on_burst w None = 0 -> total w S0 = on_job w settled_job) as Ht.
    { intros w Hw. unfold total, queues, S0. simpl. rewrite Hz by done. lia. }
    split; rewrite ?Ht by done; simpl; try done; try lia. by exists true.
  - by repeat constructor.
  - unfold zlen. rewrite length_replicate. lia.
  - unfold queues, qs. simpl. apply Forall2_replicate. split; simpl; auto.
Qed.

Lemma reader_run_inv S : reader_run S -> readers_ok S \/ readers_gone S.
Proof.
  induction 1 as [|a S S' _ [R|G] M E].
  - left. by eapply start_ok.
  - destruct (do_ok S a R M) as (S2 & E2 & ?). rewrite E in E2. by injection E2 as <-.
  - by apply gone_idle in M.
Qed.

(** ** After the end of a generation *)

Definition delivered (ln : lane) : list packet :=
  omap (fun x : packet * option Z => match snd x with Some _ => Some (fst x) | None => None end) (ln_fates ln).
Definition deliveries S : list (list packet) := delivered <$> rs_lanes S.

Lemma put_lane_quiet S w ln ln' :
  rs_lanes S !! w = Some ln -> delivered ln' = delivered ln -> deliveries (put_lane S w ln') = deliveries S.
Proof.
  intros Hl E. unfold deliveries, put_lane. simpl. rewrite list_fmap_insert, E.
  apply list_insert_id. by rewrite list_lookup_fmap, Hl.
Qed.

Lemma put_job_quiet S o j : deliveries (put_job S o j) = deliveries S.
Proof.
  destruct o as [i|w]; [done|]. simpl. destruct (rs_lanes S !! w) as [[[t|] posted fates]|] eqn:El; [|done|done].
  by eapply put_lane_quiet.
Qed.

Lemma put_queue_gate s wid q s' : put_queue s wid q = Ok s' -> delivery_gate s' = delivery_gate s.
Proof. unfold put_queue. intros E. by invert_ok. Qed.

Lemma ref_gate s s' : deviceReaderSessionRef s = Ok s' -> delivery_gate s' = delivery_gate s.
Proof. unfold deviceReaderSessionRef. intros E. by invert_ok. Qed.

Lemma unref_gate s s' : deviceReaderSessionUnref s = Ok s' -> delivery_gate s' = delivery_gate s.
Proof. unfold deviceReaderSessionUnref, deviceReaderSessionDestroyInternal. intros E. by invert_ok. Qed.

Lemma append_gate s m wid cb r s' : append_locked s m wid cb = Ok (r, s') -> delivery_gate s' = delivery_gate s.
Proof.
  unfold append_locked. intros E. invert_ok;
    repeat match goal with
    | X : put_queue _ _ _ = Ok _ |- _ => apply put_queue_gate in X
    | X : deviceReaderSessionRef _ = Ok _ |- _ => apply ref_gate in X
    end; congruence.
Qed.

(** What a step leaves alone: the gate and everything delivered so far. *)
Definition quiet S S' : Prop :=
  delivery_gate (rs_session S') = delivery_gate (rs_session S) /\ deliveries S' = deliveries S.

Lemma cancel_quiet S w ln t S' :
  rs_lanes S !! w = Some ln -> cancel_step S w ln t = Ok S' -> quiet S S'.
Proof.
  intros Hl E. unfold cancel_step, cancel_locked in E. invert_ok.
  match goal with X : put_queue _ _ _ = Ok _ |- _ => apply put_queue_gate in X as Eg end.
  split; [simpl; congruence|]. change (deliveries (add_jobs ?T _)) with (deliveries T).
  rewrite (put_lane_quiet (set_session S _) w ln); [done|done|]. unfold delivered. simpl.
  rewrite omap_app. rewrite <- (app_nil_r (omap _ (ln_fates ln))) at 2. f_equal.
  induction (concat _) as [|x l IH]; done.
Qed.

Lemma end_step_quiet S w ln t S' :
  rs_lanes S !! w = Some ln -> end_step S w ln t = Ok S' -> quiet S S'.
Proof.
  intros Hl E. unfold end_step, drain_end in E. invert_ok;
    repeat match goal with X : put_queue _ _ _ = Ok _ |- _ => apply put_queue_gate in X end; simpl in *;
    (split; [simpl; congruence|]).
  - change (deliveries (end_token ?T w ln t)) with (deliveries (put_lane T w (with_token ln None))).
    by rewrite (put_lane_quiet (set_session S _) w ln).
  - by rewrite (put_lane_quiet (set_session S _) w ln).
Qed.

Lemma table_quiet c S S' : table_step workers_count S c = Ok S' -> quiet S S'.
Proof. unfold table_step. intros E. by invert_ok. Qed.

Lemma job_quiet S s' o j :
  delivery_gate s' = delivery_gate (rs_session S) -> quiet S (put_job (set_session S s') o j).
Proof.
  intros E. split; [|by rewrite put_job_quiet].
  destruct o as [i|w]; [done|]. simpl. by destruct (rs_lanes S !! w) as [[[t|] posted fates]|].
Qed.

Lemma lane_quiet S S1 w ln ln' :
  quiet S S1 -> rs_lanes S1 !! w = Some ln -> delivered ln' = delivered ln -> quiet S (put_lane S1 w ln').
Proof. intros [Eg Ed] Hl E. split; [done|]. by rewrite (put_lane_quiet S1 w ln). Qed.

Lemma fetch_inv {A} (l : list A) i a : fetch l i = Ok a -> l !! i = Some a.
Proof. unfold fetch. intros E. by invert_ok. Qed.

Lemma signal_gate s : delivery_gate (snd (deviceReaderSessionSignalOutputCapacity s)) = delivery_gate s.
Proof. unfold deviceReaderSessionSignalOutputCapacity. by repeat split_test. Qed.

Lemma reserve_gate s c p r s' : reserve_locked s c p = (r, s') -> delivery_gate s' = delivery_gate s.
Proof. unfold reserve_locked. intros E. destruct (_ || _); by injection E as <- <-. Qed.

(** Only a drain delivers, only a begin opens the gate. *)
Lemma other_step_quiet a S S' :
  reader_step workers_count a S = Ok S' ->
  match a with DoDrain _ _ | DoBegin | DoShutDelivery => False | _ => True end -> quiet S S'.
Proof.
  intros E Ha. destruct a; try done; clear Ha; cbn [reader_step] in E;
    unfold post_step, append_step, submit_step, end_burst_step, deviceReaderSessionTryBeginBurst,
      end_burst_locked, try_reserve, release_locked, shut_notify,
      deviceReaderSessionRetireGenerationBuffers, deviceReaderSessionRetireProducerBuffers,
      deviceReaderSessionEndWait in E;
    try (by eapply table_quiet); invert_ok;
    repeat match goal with
    | X : put_queue _ _ _ = Ok _ |- _ => apply put_queue_gate in X
    | X : deviceReaderSessionRef _ = Ok _ |- _ => apply ref_gate in X
    | X : deviceReaderSessionUnref _ = Ok _ |- _ => apply unref_gate in X
    | X : append_locked _ _ _ _ = Ok _ |- _ => apply append_gate in X
    | X : reserve_locked _ _ _ = _ |- _ => apply reserve_gate in X
    | X : get_token _ _ = Ok _ |- _ => apply get_token_inv in X as [? ?]
    | X : fetch _ _ = Ok _ |- _ => apply fetch_inv in X
    end; try done; try (by eapply cancel_quiet);
    try (by apply job_quiet; rewrite ?signal_gate); try (by eapply lane_quiet).
Qed.

(** In a quiesced session no token is inside the gate. *)
Lemma quiesced_outside S w ln t :
  readers_ok S -> quiescenceGateIsClosedAndQuiesced (delivery_gate (rs_session S)) = true ->
  rs_lanes S !! w = Some ln -> ln_token ln = Some t -> inside (tk_phase t) = false.
Proof.
  intros R Hq Hl Et. destruct (bo_gate S (ro_books S R)) as [c Eg]. rewrite Eg in Hq.
  destruct (quiesced_word c _ (gate_range S R) Hq) as [_ Hz].
  destruct (lane_at S w ln R Hl) as (q & Hqu & Lq). destruct (gate_share S w q ln R Hqu Hl) as [Hs _].
  unfold lane_weight in Hs. simpl in Hs. rewrite Et in Hs. simpl in Hs.
  rewrite (zsum_zero (fun _ => 0)) in Hs by (by apply Forall_true). destruct (inside (tk_phase t)); [|done].
  simpl in Hs. lia.
Qed.

Lemma take_gate s wid b r s' : drain_take s wid b = Ok (r, s') -> delivery_gate s' = delivery_gate s.
Proof.
  unfold drain_take. intros E. invert_ok.
  match goal with X : put_queue _ _ _ = Ok _ |- _ => by apply put_queue_gate in X end.
Qed.

Lemma enter_closed s m r :
  quiescenceGateIsClosedAndQuiesced (delivery_gate s) = true -> drain_enter s m = Ok r -> r = (false, false, s).
Proof.
  intros Hq E. unfold quiescenceGateIsClosedAndQuiesced in Hq. bool_facts. unfold drain_enter in E.
  rewrite Hq in E. apply bind_Ok in E as (? & _ & E). by injection E as <-.
Qed.

Lemma deliver_quiet S w work ln t entered S' :
  rs_lanes S !! w = Some ln -> deliver_step S w work ln t entered false = Ok S' -> quiet S S'.
Proof.
  intros Hl E. unfold deliver_step in E. invert_ok; try (by eapply lane_quiet; [|done|]).
  match goal with X : drain_take _ _ _ = Ok _ |- _ => apply take_gate in X as Eg end.
  eapply lane_quiet; [|done|]; [done|]. unfold delivered. simpl. by rewrite omap_app, app_nil_r.
Qed.

Lemma drain_quiet S w work S' :
  readers_ok S -> quiescenceGateIsClosedAndQuiesced (delivery_gate (rs_session S)) = true ->
  reader_step workers_count (DoDrain w work) S = Ok S' -> quiet S S'.
Proof.
  intros R Hq E. cbn [reader_step] in E. unfold drain_step in E. apply bind_Ok in E as ([ln t] & Eg & E).
  apply get_token_inv in Eg as [Hl Et]. pose proof (quiesced_outside S w ln t R Hq Hl Et) as Hin.
  destruct (lane_at S w ln R Hl) as (q & Hqu & [_ T _ _ _]). rewrite Et in T. destruct T as (_ & _ & Th & _).
  destruct (tk_phase t) as [| | | | |entered admitted|entered dn|[|]] eqn:Ep; simpl in Hin, Th; try done.
  - invert_ok. by eapply lane_quiet.
  - destruct (_ && _) in E; [|by eapply end_step_quiet]. unfold drain_peek in E. invert_ok.
    + match goal with X : put_queue _ _ _ = Ok _ |- _ => apply put_queue_gate in X end.
      split; [done|]. by apply (put_lane_quiet (set_session S _) w ln).
    + by eapply lane_quiet.
  - apply bind_Ok in E as (m & _ & E). apply bind_Ok in E as (r & Ee & E).
    apply (enter_closed _ _ _ Hq) in Ee. subst r. invert_ok. by eapply lane_quiet.
  - destruct Th as (m & l & _ & _ & _ & Ha). assert (admitted = false) as ->.
    { destruct admitted; [|done]. destruct Ha; congruence. }
    by eapply deliver_quiet.
  - subst entered. unfold drain_leave in E. simpl in E. invert_ok. by eapply lane_quiet.
  - unfold drain_pop in E. invert_ok.
    match goal with X : put_queue _ _ _ = Ok _ |- _ => apply put_queue_gate in X end.
    split; [done|]. by apply (put_lane_quiet (set_session S _) w ln).
  - by eapply end_step_quiet.
Qed.

(** Steps of a session that is not begun again. *)
Inductive reader_later S : reader_system P -> Prop :=
  | later_refl : reader_later S S
  | later_do a S1 S2 : reader_later S S1 -> a <> DoBegin -> may_do a S1 ->
      reader_step workers_count a S1 = Ok S2 -> reader_later S S2.

Lemma later_quiet S S' :
  reader_run S -> quiescenceGateIsClosedAndQuiesced (delivery_gate (rs_session S)) = true ->
  reader_later S S' -> reader_run S' /\ quiet S S'.
Proof.
  intros R Hq. induction 1 as [|a S1 S2 _ [R1 [Eg Ed]] Ha M E]; [by split|]. split; [by eapply run_do|].
  destruct (reader_run_inv S1 R1) as [O|G]; [|by apply gone_idle in M]. rewrite <- Eg in Hq.
  assert (quiet S1 S2) as [Eg2 Ed2]; [|split; congruence].
  destruct a; try (by eapply other_step_quiet); [by eapply drain_quiet|].
  cbn [reader_step] in E. unfold shut_delivery in E. rewrite close_outside in E. invert_ok. split; [|done]. simpl.
  unfold quiescenceGateIsClosedAndQuiesced in Hq. bool_facts. by rewrite Hq.
Qed.
End Steps.
