(* ===== verification/ReaderDrain.v ===== *)
(** * The composed operations of a reader session are runs of its steps

    [ReaderSession] composes critical sections into the functions of the
    sources.  Executed by one thread they are sequences of the steps of
    [ReaderSystem], so they return and keep its invariant; the fuel of the drain
    is enough. *)

From Stdlib Require Import ZArith Lia.
From stdpp Require Import base numbers option list.
From S2P Require Import Prelude ShiftBuffer PoolInterface FlowHash FragAffinity FragInvariant FragOffer FragLife.
From S2P Require Import Gate ReaderSession ReaderSystem ReaderProofs.
Open Scope Z_scope.
Open Scope word_scope.

Section Drain.
Context `{Allocator} {P : Type} `{PoolLaws P} (workers_count : Z).
Implicit Types (S : reader_system P) (s : device_reader_session_t P).

Inductive reaches S : reader_system P -> Prop :=
  | reach_refl : reaches S S
  | reach_do a S1 S2 : reaches S S1 -> may_do a S1 -> reader_step workers_count a S1 = Ok S2 -> reaches S S2.

Lemma reach_trans S1 S2 S3 : reaches S1 S2 -> reaches S2 S3 -> reaches S1 S3.
Proof. intros R12. induction 1; [done|]. by eapply reach_do. Qed.

Lemma reach_run S S' : reader_run workers_count S -> reaches S S' -> reader_run workers_count S'.
Proof. intros R. induction 1; [done|]. by eapply run_do. Qed.

(** An admissible step and its result. *)
Lemma reach_step a S S' :
  readers_ok S -> may_do a S -> reader_step workers_count a S = Ok S' ->
  reaches S S' /\ (readers_ok S' \/ readers_gone S').
Proof.
  intros R M E. split; [by eapply reach_do; [apply reach_refl| |]|].
  destruct (do_ok workers_count S a R M) as (S2 & E2 & O). rewrite E in E2. by injection E2 as <-.
Qed.

(** ** Settling *)

Lemma put_job_twice S s1 s2 o j j1 j2 :
  get_job S o = Ok j ->
  put_job (set_session (put_job (set_session S s1) o j1) s2) o j2 = put_job (set_session S s2) o j2.
Proof.
  intros E. destruct o as [i|w]; simpl in E |- *.
  - unfold set_session. simpl. by rewrite list_insert_insert_eq.
  - apply bind_Ok in E as ([ln t] & E & _). apply get_token_inv in E as [El Et]. rewrite El.
    destruct ln as [t' posted fates]. simpl in Et. subst t'. simpl.
    rewrite list_lookup_insert_eq by (by apply lookup_lt_Some in El).
    unfold put_lane, set_session. simpl. by rewrite list_insert_insert_eq.
Qed.

Lemma get_put_job S s o j j' : get_job S o = Ok j -> get_job (put_job (set_session S s) o j') o = Ok j'.
Proof.
  intros E. destruct o as [i|w]; simpl in E |- *.
  - apply fetch_inv in E. apply fetch_ok, list_lookup_insert_eq. by apply lookup_lt_Some in E.
  - apply bind_Ok in E as ([ln t] & E & _). apply get_token_inv in E as [El Et]. rewrite El.
    destruct ln as [t' posted fates]. simpl in Et. subst t'. simpl.
    unfold get_token, put_lane. simpl.
    by rewrite (fetch_ok _ _ _ (list_lookup_insert_eq _ _ _ (lookup_lt_Some _ _ _ El))).
Qed.

Lemma put_job_session S s o j : rs_session (put_job (set_session S s) o j) = s.
Proof. destruct o as [i|w]; [done|]. simpl. by destruct (rs_lanes S !! w) as [[[t|] posted fates]|]. Qed.

Lemma release_refs s charge packets s' :
  deviceReaderSessionReleaseWork s charge packets = Ok s' -> refcount s' = refcount s.
Proof.
  unfold deviceReaderSessionReleaseWork, release_locked, deviceReaderSessionSignalOutputCapacity.
  intros E. invert_ok. by repeat split_test.
Qed.

Lemma release_run S o j charge packets :
  readers_ok S -> get_job S o = Ok j -> unsignalled j = false ->
  0 < charge <= owed_charge j -> 0 < packets <= owed_packets j ->
  exists s', deviceReaderSessionReleaseWork (rs_session S) charge packets = Ok s' /\
    let S' := put_job (set_session S s') o (owe j (- charge) (- packets)) in reaches S S' /\ readers_ok S'.
Proof.
  intros R Ej Hu Hc Hp.
  destruct (settle_step_ok workers_count S o charge packets R) as (S1 & E1 & R1); [by exists j|].
  pose proof E1 as E1'. cbn [reader_step] in E1'. rewrite Ej in E1'. cbn [mbind outcome_bind] in E1'.
  apply bind_Ok in E1' as ([] & Et & E1'). apply bind_Ok in E1' as ([] & Ea & E1').
  apply bind_Ok in E1' as ([] & Eb & E1'). apply bind_Ok in E1' as (s1 & El & [= E1']).
  assert (get_job S1 o = Ok (settle j charge packets)) as Ej1 by (subst S1; by eapply get_put_job).
  destruct (signal_step_ok workers_count S1 o R1) as (S2 & E2 & R2); [by eexists|].
  pose proof E2 as E2'. cbn [reader_step] in E2'. rewrite Ej1 in E2'. cbn [mbind outcome_bind] in E2'.
  apply bind_Ok in E2' as ([] & Et2 & [= E2']).
  assert (rs_session S1 = s1) as Es by (subst S1; apply put_job_session). rewrite Es in E2', Et2.
  exists (snd (deviceReaderSessionSignalOutputCapacity s1)). split.
  - unfold deviceReaderSessionReleaseWork. rewrite Et, Ea. step_ok. rewrite Eb. step_ok. by rewrite El.
  - simpl. assert (S2 = put_job (set_session S (snd (deviceReaderSessionSignalOutputCapacity s1))) o
      (owe j (- charge) (- packets))) as <-.
    { subst S2 S1. rewrite (put_job_twice S _ _ o j _ _ Ej). f_equal. unfold signalled, settle, owe. simpl. by rewrite Hu. }
    split; [|done]. eapply reach_do; [eapply reach_do; [apply reach_refl| |exact E1]| |exact E2]; [by exists j|by eexists].
Qed.

Lemma unref_run S i :
  readers_ok S -> rs_jobs S !! i = Some settled_job ->
  exists s', deviceReaderSessionUnref (rs_session S) = Ok s' /\
    let S' := drop_job (set_session S s') i in reaches S S' /\ (readers_ok S' \/ readers_gone S') /\
      (1 < refcount (rs_session S) -> readers_ok S').
Proof.
  intros R Hi. destruct (unref_step_ok workers_count S i R Hi) as (S' & E & O). pose proof E as E'.
  cbn [reader_step] in E'. rewrite (fetch_ok _ _ _ Hi) in E'. cbn [mbind outcome_bind] in E'.
  apply bind_Ok in E' as (s' & Es & [= E']). exists s'. split; [done|]. simpl. rewrite E'.
  split; [exact (reach_do S (DoUnref i) S S' (reach_refl S) Hi E)|]. split; [done|]. intros Hr.
  destruct O as [O|G]; [done|]. exfalso. pose proof (rg_freed _ G) as Gf. subst S'. simpl in Gf.
  unfold deviceReaderSessionUnref in Es. apply bind_Ok in Es as (? & _ & Es). apply bind_Ok in Es as (? & _ & Es).
  apply bind_Ok in Es as (? & _ & Es). replace (refcount (rs_session S) =? 1) with false in Es by lia.
  simpl in Es. injection Es as <-. simpl in Gf. rewrite (co_live _ (ro_config S R)) in Gf. done.
Qed.

(** ** Cleaning up *)

Lemma put_thread_same S s i j : rs_jobs S !! i = Some j -> put_job (set_session S s) (Thread i) j = set_session S s.
Proof. intros E. apply put_job_same. by apply fetch_ok. Qed.

Lemma thread_job S i j : rs_jobs S !! i = Some j -> get_job S (Thread i) = Ok j.
Proof. apply fetch_ok. Qed.

Lemma cleanup_loop_turn s charges c k n :
  0 <= k -> charges !! Z.to_nat k = Some c -> c <> 0 ->
  cleanup_loop s charges k (Datatypes.S n) =
    (s ← deviceReaderSessionReleaseOutput s c; cleanup_loop s charges (k + 1) n).
Proof.
  intros Hk Hc Hne. cbn [cleanup_loop]. destruct charges as [|c0 l]; [by rewrite lookup_nil in Hc|].
  rewrite (arr_get_ok _ _ c) by done. step_ok. by replace (c =? 0) with false by lia.
Qed.

(** The thread [i] that owes the charges from [k] on settles them one by one. *)
Lemma cleanup_loop_run n S i charges k :
  readers_ok S -> Forall (fun c => 0 < c) charges -> 0 <= k -> (Z.to_nat k + n = length charges)%nat ->
  rs_jobs S !! i = Some (mk_job (zsum id (drop (Z.to_nat k) charges)) (Z.of_nat n) false) ->
  exists s', cleanup_loop (rs_session S) charges k n = Ok s' /\ refcount s' = refcount (rs_session S) /\
    let S' := put_job (set_session S s') (Thread i) settled_job in reaches S S' /\ readers_ok S'.
Proof.
  revert S k. induction n as [|n IH]; intros S k R F Hk Hn Hi.
  - exists (rs_session S). split; [done|]. rewrite drop_ge in Hi by lia.
    rewrite (put_thread_same S _ i settled_job) by done. rewrite set_session_same. split; [done|]. split; [apply reach_refl|done].
  - destruct (lookup_lt_is_Some_2 charges (Z.to_nat k)) as [c Hc]; [lia|].
    assert (0 < c) as Hpos by (rewrite Forall_lookup in F; by eapply F).
    rewrite (drop_S _ c) in Hi by done. rewrite zsum_cons in Hi. change (id c) with c in Hi.
    assert (0 <= zsum id (drop (Datatypes.S (Z.to_nat k)) charges)) as Hrest.
    { apply zsum_nonneg, Forall_drop. eapply Forall_impl; [exact F|]. unfold id. simpl. lia. }
    destruct (release_run S (Thread i) _ c 1 R (thread_job S i _ Hi)) as (s1 & E1 & Re1 & R1);
      [done|simpl; lia|simpl; lia|].
    set (S1 := put_job (set_session S s1) (Thread i) _) in *.
    rewrite (cleanup_loop_turn _ _ c) by (done || lia). unfold deviceReaderSessionReleaseOutput. rewrite E1. step_ok.
    apply release_refs in E1. destruct (IH S1 (k + 1)) as (s2 & E2 & Er2 & Re2 & R2); [done|done|lia|lia| |].
    { unfold S1. cbn [put_job rs_jobs set_session].
      rewrite list_lookup_insert_eq by (by apply lookup_lt_Some in Hi).
      replace (Z.to_nat (k + 1)) with (Datatypes.S (Z.to_nat k)) by lia.
      set (z := zsum _ _). f_equal. unfold owe. cbn [owed_charge owed_packets unsignalled].
      replace (c + z + - c) with z by lia. by replace (_ + - (1)) with (Z.of_nat n) by lia. }
    assert (rs_session S1 = s1) as Es by done. rewrite Es in E2, Er2. exists s2. split; [done|]. split; [congruence|].
    unfold S1 in Re2, R2. rewrite (put_job_twice S _ _ (Thread i) _ _ _ (thread_job S i _ Hi)) in Re2, R2.
    split; [|done]. by eapply reach_trans.
Qed.

(** The cleanup of a message by the thread that took it over, with another
    reference left. *)
Lemma cleanup_run S i m :
  readers_ok S -> message_ok m -> rs_jobs S !! i = Some (cleanup_job m) -> 1 < refcount (rs_session S) ->
  exists s', deviceReaderSessionCleanupMessage (rs_session S) m = Ok s' /\
    let S' := drop_job (set_session S s') i in reaches S S' /\ readers_ok S'.
Proof.
  intros R (Hc & Hb & G & M) Hi Hr. unfold deviceReaderSessionCleanupMessage.
  assert (exists s1, match m_work m with
      | Some (charge, packets) => deviceReaderSessionReleaseWork (rs_session S) charge packets
      | None => cleanup_loop (rs_session S) (m_charges m) (m_consumed m) (Z.to_nat (zlen (m_bufs m) - m_consumed m))
      end = Ok s1 /\ refcount s1 = refcount (rs_session S) /\
    let S1 := put_job (set_session S s1) (Thread i) settled_job in reaches S S1 /\ readers_ok S1)
    as (s1 & -> & Er1 & Re1 & R1).
  { unfold cleanup_job, m_charge, m_packets in Hi. destruct (m_work m) as [[c p]|] eqn:Ew.
    - destruct (release_run S (Thread i) _ c p R (thread_job S i _ Hi)) as (s1 & E1 & Re1 & R1); simpl; try lia.
      exists s1. split; [done|]. split; [by eapply release_refs|]. replace settled_job with (owe (mk_job c p false) (- c) (- p)); [done|].
      unfold owe, settled_job. simpl. f_equal; lia.
    - destruct M as [El F]. apply cleanup_loop_run; auto; [lia|unfold zlen in *; lia|].
      by rewrite Z2Nat.id by lia. }
  step_ok. set (S1 := put_job _ _ _) in *. apply lookup_lt_Some in Hi as Hlt.
  destruct (unref_run S1 i R1) as (s2 & E2 & Re2 & _ & R2); [by apply list_lookup_insert_eq|].
  assert (rs_session S1 = s1) as Es by done. rewrite Es in *. exists s2. split; [done|].
  assert (drop_job (set_session S1 s2) i = drop_job (set_session S s2) i) as Ed.
  { unfold drop_job, set_session, S1. simpl. f_equal. apply list_eq. intros j.
    destruct (decide (j < i)%nat).
    - rewrite !list_lookup_delete_lt by done. apply list_lookup_insert_ne. lia.
    - rewrite !list_lookup_delete_ge by lia. apply list_lookup_insert_ne. lia. }
  rewrite Ed in *. split; [by eapply reach_trans|]. apply R2. congruence.
Qed.

(** ** Cancelling *)

Lemma jobs_refs S : readers_ok S -> zlen (rs_jobs S) <= refcount (rs_session S).
Proof.
  intros R. rewrite (bo_refs _ (ro_books S R)), total_refs. destruct weights_nonneg as (_ & _ & Wr & _).
  pose proof (zsum_nonneg id _ (lanes_weight_nonneg _ _ _ _ Wr (ro_lanes S R))). unfold zlen in *. lia.
Qed.

(** What a run of one thread leaves alone, and where it ends. *)
Definition ends S s' S' : Prop :=
  reaches S S' /\ rs_session S' = s' /\ (readers_ok S' \/ readers_gone S').

Lemma cleanup_all_run l S J :
  readers_ok S -> Forall message_ok l -> rs_jobs S = J ++ settled_job :: (cleanup_job <$> l) ->
  exists s', cleanup_all (rs_session S) l = Ok s' /\
    let S' := mk_readers s' (J ++ [settled_job]) (rs_posts S) (rs_lanes S) in reaches S S' /\ readers_ok S'.
Proof.
  revert S. induction l as [|m l IH]; intros S R F Ej; cbn [cleanup_all].
  - exists (rs_session S). split; [done|]. simpl in Ej. rewrite <- Ej.
    replace (mk_readers _ _ _ _) with S by (by destruct S). split; [apply reach_refl|done].
  - apply Forall_cons in F as [M F].
    assert (rs_jobs S !! Datatypes.S (length J) = Some (cleanup_job m)) as Hi.
    { rewrite Ej, lookup_app_r by lia. by replace (Datatypes.S (length J) - length J)%nat with 1%nat by lia. }
    pose proof (jobs_refs S R) as Hr. rewrite Ej in Hr. unfold zlen in Hr. rewrite length_app in Hr. simpl in Hr.
    destruct (cleanup_run S _ m R M Hi) as (s1 & -> & Re1 & R1); [lia|]. step_ok.
    set (S1 := drop_job _ _) in *.
    destruct (IH S1 R1 F) as (s2 & E2 & Re2 & R2).
    { unfold S1. simpl. rewrite Ej. rewrite delete_take_drop, take_app_ge, drop_app_ge by lia.
      replace (Datatypes.S (length J) - length J)%nat with 1%nat by lia.
      replace (Datatypes.S (Datatypes.S (length J)) - length J)%nat with 2%nat by lia. by rewrite <- app_assoc. }
    exists s2. split; [exact E2|]. split; [|exact R2]. by eapply reach_trans.
Qed.

Lemma cancel_run S w ln t S1 :
  readers_ok S -> rs_lanes S !! w = Some ln -> ln_token ln = Some t -> tk_job t = settled_job ->
  cancel_step S w ln t = Ok S1 -> readers_ok S1 ->
  exists s' S', deviceReaderWorkerQueueCancel (rs_session S) (Z.of_nat w) = Ok s' /\
    reaches S1 S' /\ rs_session S' = s' /\ (readers_ok S' \/ readers_gone S') /\ rs_lanes S' = rs_lanes S1 /\
    rs_jobs S' = rs_jobs S.
Proof.
  intros R Hl Et Ejob E R1. unfold cancel_step in E. apply bind_Ok in E as ([l s1] & Ec & [= E]).
  destruct (lane_at S w ln R Hl) as (q & Hq & [_ _ Ms _ _]).
  assert (Forall message_ok l) as F.
  { unfold cancel_locked in Ec. rewrite touch_live in Ec by apply R. cbn [mbind outcome_bind] in Ec.
    rewrite (get_queue_at _ w q (ro_queues S R) Hq) in Ec. cbn [mbind outcome_bind] in Ec.
    rewrite (put_queue_at _ w q _ (ro_queues S R) Hq) in Ec. cbn [mbind outcome_bind] in Ec. by injection Ec as <- _. }
  destruct (cleanup_all_run l S1 (rs_jobs S) R1 F) as (s2 & E2 & Re2 & R2); [by rewrite <- E, <- Ejob|].
  set (S2 := mk_readers _ _ _ _) in *. assert (rs_session S1 = s1) as Es by (by rewrite <- E). rewrite Es in E2.
  destruct (unref_run S2 (length (rs_jobs S)) R2) as (s3 & E3 & Re3 & O3 & _); [simpl; by rewrite list_lookup_middle|].
  exists s3, (drop_job (set_session S2 s3) (length (rs_jobs S))).
  split; [unfold deviceReaderWorkerQueueCancel; rewrite Ec; step_ok; by rewrite E2|].
  split; [by eapply reach_trans|]. splits; auto. simpl. by rewrite delete_middle, app_nil_r.
Qed.

(** ** Draining *)

Context (work : callback) (Hwork : forall b, budget_ok b -> callback_ok work b).

Lemma drain_reach S w ln t :
  readers_ok S -> rs_lanes S !! w = Some ln -> ln_token ln = Some t ->
  tk_phase t <> Submitting -> tk_phase t <> Deferred ->
  exists S', drain_step S w work = Ok S' /\ reaches S S' /\ readers_ok S'.
Proof.
  intros R Hl Et Hs Hd. destruct (lane_at S w ln R Hl) as (q & Hq & [_ T _ _ _]). rewrite Et in T.
  assert (may_do (DoDrain w work) S) as M by (exists ln, t; splits; auto; apply Hwork, T).
  destruct (drain_do_ok workers_count S w work R M) as (S' & E & R'). exists S'. split; [exact E|].
  split; [|done]. exact (reach_do S (DoDrain w work) S S' (reach_refl S) M E).
Qed.

(** The packets that left a lane since. *)
Definition left_since ln ln' (new : list (packet * option Z)) : Prop := ln_fates ln' = ln_fates ln ++ new.

Lemma finish_run S w ln t accept :
  readers_ok S -> rs_lanes S !! w = Some ln -> ln_token ln = Some t -> tk_job t = settled_job ->
  drain_step S w work = end_step S w ln t -> tk_phase t <> Submitting -> tk_phase t <> Deferred ->
  exists s' S' ln' new, finish_token (rs_session S) (Z.of_nat w) accept = Ok s' /\ ends S s' S' /\
    rs_lanes S' !! w = Some ln' /\ left_since ln ln' new /\ Forall (fun x => snd x = None) new.
Proof.
  intros R Hl Et Ej Ed Hs Hd. apply lookup_lt_Some in Hl as Hlt.
  destruct (drain_reach S w ln t R Hl Et Hs Hd) as (S1 & E1 & Re1 & R1). rewrite Ed in E1. unfold end_step in E1.
  apply bind_Ok in E1 as ([more s1] & Ee & [= E1]). unfold finish_token. rewrite Ee. step_ok. destruct more.
  - set (ln1 := with_token ln (Some (at_phase t Submitting))) in *.
    assert (rs_lanes S1 !! w = Some ln1 /\ rs_session S1 = s1) as [Hl1 Es] by (rewrite <- E1; simpl; by rewrite list_lookup_insert_eq).
    assert (may_do (DoSubmit w accept) S1) as M by (by exists ln1, (at_phase t Submitting)).
    destruct (submit_step_ok workers_count S1 w accept R1 M) as (S2 & E2 & R2).
    assert (reaches S1 S2) as Re2 by exact (reach_do S1 (DoSubmit w accept) S1 S2 (reach_refl S1) M E2).
    cbn [reader_step] in E2. unfold submit_step in E2. rewrite (get_token_at S1 w ln1 _ Hl1 eq_refl) in E2.
    cbn [mbind outcome_bind at_phase tk_phase] in E2. unfold deviceReaderWorkerQueueSchedule. destruct accept; step_ok.
    + injection E2 as <-. eexists s1, _, _, []. split; [done|]. split; [split; [by eapply reach_trans|by split; [|left]]|].
      simpl. rewrite list_lookup_insert_eq by (by apply lookup_lt_Some in Hl1). split; [done|].
      split; [|constructor]. unfold left_since, ln1. simpl. by rewrite app_nil_r.
    + destruct (cancel_run S1 w ln1 _ S2 R1 Hl1 eq_refl Ej E2 R2) as (s3 & S3 & E3 & Re3 & Es3 & O3 & El3 & _).
      rewrite Es in E3. rewrite E3. step_ok. unfold cancel_step in E2. apply bind_Ok in E2 as ([l s2] & _ & [= E2]).
      eexists s3, S3, _, (discarded <$> concat (m_pending <$> l)). split; [done|].
      split; [split; [by eapply reach_trans; [|eapply reach_trans]|done]|].
      rewrite El3, <- E2. simpl. rewrite list_lookup_insert_eq by (by apply lookup_lt_Some in Hl1). split; [done|].
      split; [done|]. apply Forall_fmap, Forall_true. done.
  - destruct (unref_run S1 (length (rs_jobs S)) R1) as (s2 & E2 & Re2 & O2 & _).
    { rewrite <- E1. simpl. rewrite Ej. by apply list_lookup_middle. }
    assert (rs_session S1 = s1) as Es by (by rewrite <- E1). rewrite Es in E2.
    eexists s2, _, _, []. split; [exact E2|]. split; [split; [by eapply reach_trans|done]|].
    simpl. rewrite <- E1. simpl. rewrite list_lookup_insert_eq by done. split; [done|]. split; [|constructor].
    unfold left_since. simpl. by rewrite app_nil_r.
Qed.

Lemma release_queues s charge packets s' :
  deviceReaderSessionReleaseWork s charge packets = Ok s' -> worker_queues s' = worker_queues s.
Proof.
  unfold deviceReaderSessionReleaseWork, release_locked, deviceReaderSessionSignalOutputCapacity.
  intros E. invert_ok. by repeat split_test.
Qed.

(** The number of packets delivered among those that left. *)
Definition delivered_count (new : list (packet * option Z)) : nat :=
  length (filter (fun x => is_Some (snd x)) new).

Lemma delivered_count_app new new' : delivered_count (new ++ new') = (delivered_count new + delivered_count new')%nat.
Proof. unfold delivered_count. by rewrite filter_app, length_app. Qed.

Lemma delivered_count_none new : Forall (fun x => snd x = None) new -> delivered_count new = 0%nat.
Proof.
  intros F. unfold delivered_count. induction F as [|[x [g|]] l E _ IH]; [done|done|].
  by rewrite filter_cons_False by (by intros []).
Qed.

(** A lane in the middle of delivering the packets of its head. *)
Record delivering S (w : nat) (ln : lane) (entered admitted : bool) (b : device_reader_work_budget_t)
    (m : device_reader_message_t) : Prop := mk_delivering {
  de_ok : readers_ok S;
  de_lane : rs_lanes S !! w = Some ln;
  de_token : ln_token ln = Some (mk_token (Delivering entered admitted) b settled_job);
  de_head : queue_head (rs_session S) (Z.of_nat w) = Ok m;
  de_packets : m_work m = None
}.

(** One packet is delivered or dropped, and settled. *)
Lemma packet_run S w ln entered admitted b m :
  delivering S w ln entered admitted b m -> drain_more m b = Ok true ->
  exists x charge b' s1 s2 S' ln' fate,
    drain_take (rs_session S) (Z.of_nat w) b = Ok (x, charge, b', s1) /\
    deviceReaderSessionReleaseOutput s1 charge = Ok s2 /\ rs_session S' = s2 /\ reaches S S' /\
    delivering S' w ln' entered admitted b' (set_consumed m (wrap16 (m_consumed m + 1))) /\
    left_since ln ln' [((m_generation m, x), fate)] /\ (is_Some fate <-> admitted = true) /\
    wb_packets b = wb_packets b' + 1.
Proof.
  intros [R Hl Et Hh Hw] Hm. apply lookup_lt_Some in Hl as Hlt.
  destruct (lane_at S w ln R Hl) as (q & Hq & [_ T Ms _ _]). rewrite Et in T. destruct T as (_ & Tb & Th & _).
  simpl in Tb, Th. destruct Th as (m2 & l & Em & _). pose proof Hh as Hh'. unfold queue_head in Hh'.
  rewrite (get_queue_at _ w q (ro_queues S R) Hq) in Hh'. cbn [mbind outcome_bind] in Hh'. rewrite Em in Hh'.
  injection Hh' as ->.
  destruct (drain_reach S w ln _ R Hl Et) as (S1 & E1 & Re1 & R1); [done|done|].
  unfold drain_step in E1. rewrite (get_token_at S w ln _ Hl Et) in E1. cbn [mbind outcome_bind tk_phase] in E1.
  unfold deliver_step in E1. rewrite Hh in E1. cbn [mbind outcome_bind tk_budget] in E1. rewrite Hw, Hm in E1.
  cbn [mbind outcome_bind] in E1. apply bind_Ok in E1 as ([[[x c] b'] s1] & Etk & [= E1]).
  cbn [tk_phase tk_job] in E1. pose proof Etk as Etk'. unfold drain_take in Etk'. rewrite touch_live in Etk' by apply R.
  cbn [mbind outcome_bind] in Etk'. rewrite (get_queue_at _ w q (ro_queues S R) Hq) in Etk'. cbn [mbind outcome_bind] in Etk'.
  rewrite Em in Etk'. apply bind_Ok in Etk' as (x' & Ex & Etk'). apply bind_Ok in Etk' as (c' & Ec & Etk').
  rewrite (put_queue_at _ w q _ (ro_queues S R) Hq) in Etk'. cbn [mbind outcome_bind] in Etk'.
  injection Etk' as -> -> <- Es1.
  set (ln1 := mk_lane _ _ _) in E1. assert (rs_lanes S1 !! w = Some ln1 /\ rs_session S1 = s1) as [Hl1 Ess]
    by (rewrite <- E1; simpl; by rewrite list_lookup_insert_eq).
  assert (0 < c) as Hc.
  { rewrite Em in Ms. apply Forall_cons in Ms as [(_ & _ & _ & M) _]. rewrite Hw in M. destruct M as [_ M].
    apply arr_get_inv in Ec as [_ Ec]. rewrite Forall_lookup in M. by eapply M. }
  assert (get_job S1 (Lane w) = Ok (owe settled_job c 1)) as Ej1.
  { simpl. rewrite (get_token_at S1 w ln1 _ Hl1 eq_refl). done. }
  destruct (release_run S1 (Lane w) _ c 1 R1 Ej1) as (s2 & E2 & Re2 & R2); [done|simpl; lia|simpl; lia|].
  rewrite Ess in E2. set (S2 := put_job _ _ _) in *.
  assert (owe (owe settled_job c 1) (- c) (- (1)) = settled_job) as Ejs.
  { unfold owe, settled_job. simpl. f_equal; lia. }
  set (ln2 := mk_lane (Some (mk_token (Delivering entered admitted) (mk_work_budget (wb_packets b -32 1)
    (wb_bytes b - Z.min (sbufGetLength x) (wb_bytes b))) settled_job)) (ln_posted ln1) (ln_fates ln1)).
  assert (rs_lanes S2 !! w = Some ln2) as Hl2.
  { unfold S2. rewrite Ejs. simpl. rewrite Hl1. simpl. by rewrite list_lookup_insert_eq by (by apply lookup_lt_Some in Hl1). }
  assert (rs_session S2 = s2) as Es2 by apply put_job_session.
  assert (wb_packets b -32 1 = wb_packets b - 1) as Ew.
  { unfold drain_more in Hm. destruct (_ && _ && _) eqn:Et2 in Hm; [|done]. bool_facts. destruct Tb as [Tp _].
    unfold kDeviceReaderWorkerPacketQuantum in Tp. apply wrap32_small. word_lia. }
  do 6 eexists. exists ln2, (if admitted then Some (generation s1) else None). split; [done|]. split; [exact E2|].
  split; [exact Es2|]. split; [by eapply reach_trans|]. split; [|splits].
  - split; auto. unfold queue_head, get_queue. rewrite Es2, (release_queues _ _ _ _ E2), <- Es1.
    cbn [worker_queues set_queues]. rewrite (arr_get_ok _ _ (mk_worker_queue
      (set_consumed m (wrap16 (m_consumed m + 1)) :: l) (wq_scheduled q) (wq_burst q))); [done|lia|].
    rewrite Nat2Z.id. apply list_lookup_insert_eq. by apply lookup_lt_Some in Hq.
  - done.
  - by destruct admitted; split.
  - simpl. lia.
Qed.

Lemma more_returns S w ln entered admitted b m :
  delivering S w ln entered admitted b m -> exists more, drain_more m b = Ok more.
Proof.
  intros [R Hl Et Hh Hw]. unfold drain_more. destruct (_ && _ && _) eqn:E; [|by eexists]. bool_facts.
  destruct (lane_at S w ln R Hl) as (q & Hq & [_ _ Ms _ _]). unfold queue_head in Hh.
  rewrite (get_queue_at _ w q (ro_queues S R) Hq) in Hh. cbn [mbind outcome_bind] in Hh.
  destruct (wq_messages q) as [|m2 l]; [done|]. injection Hh as ->. apply Forall_cons in Ms as [(Hc & _) _].
  destruct (lookup_lt_is_Some_2 (m_bufs m) (Z.to_nat (m_consumed m))) as [x Hx]; [unfold zlen in *; lia|].
  rewrite (arr_get_ok _ _ x) by (done || lia). by eexists.
Qed.

(** The inner loop. *)
Lemma packets_run fuel S w ln entered admitted b m :
  delivering S w ln entered admitted b m -> (Z.to_nat (wb_packets b) < fuel)%nat -> 0 <= wb_packets b ->
  exists out b' s' S' ln' m' new,
    drain_packets fuel (rs_session S) (Z.of_nat w) admitted b = Ok (out, b', s') /\ rs_session S' = s' /\
    reaches S S' /\ delivering S' w ln' entered admitted b' m' /\ drain_more m' b' = Ok false /\
    left_since ln ln' new /\ wb_packets b = wb_packets b' + zlen new /\ length out = delivered_count new /\
    (new = [] -> m' = m).
Proof.
  revert S ln b m. induction fuel as [|fuel IH]; intros S ln b m D Hf Hb; [lia|].
  cbn [drain_packets]. rewrite (de_head _ _ _ _ _ _ _ D). step_ok.
  destruct (more_returns _ _ _ _ _ _ _ D) as [more Hm]. rewrite Hm. step_ok. destruct more; simpl.
  - destruct (packet_run _ _ _ _ _ _ _ D Hm) as (x & c & b1 & s1 & s2 & S1 & ln1 & fate & Et & Er & Es & Re & D1 & Hl & Hfa & Hp).
    rewrite Et. step_ok. rewrite Er. step_ok. subst s2.
    assert (0 <= wb_packets b1) as Hb1.
    { destruct (lane_at S1 w ln1 (de_ok _ _ _ _ _ _ _ D1) (de_lane _ _ _ _ _ _ _ D1)) as (q & _ & [_ T _ _ _]).
      rewrite (de_token _ _ _ _ _ _ _ D1) in T. apply T. }
    destruct (IH S1 ln1 b1 _ D1) as (out & b2 & s3 & S2 & ln2 & m2 & new & E2 & Es2 & Re2 & D2 & Hm2 & Hl2 & Hp2 & Hout & _);
      [lia|done|]. rewrite E2. step_ok.
    do 3 eexists. exists S2, ln2, m2, (((m_generation m, x), fate) :: new). split; [done|].
    split; [done|]. split; [by eapply reach_trans|]. splits; auto; [| | |done].
    + unfold left_since in *. by rewrite Hl2, Hl, <- app_assoc.
    + unfold zlen in *. simpl. lia.
    + unfold delivered_count in *. destruct admitted; simpl.
      * rewrite filter_cons_True by (simpl; tauto). simpl. lia.
      * rewrite filter_cons_False; [done|]. simpl. intros Hx. by apply Hfa in Hx.
  - do 3 eexists. exists S, ln, m, []. split; [done|]. splits; auto; [apply reach_refl| |unfold zlen; simpl; lia].
    unfold left_since. by rewrite app_nil_r.
Qed.

(** A lane whose drain is at the head of its loop, or at a later phase. *)
Record at_token S (w : nat) (ln : lane) (p : token_phase) (b : device_reader_work_budget_t) : Prop := mk_at_token {
  at_ok : readers_ok S;
  at_lane : rs_lanes S !! w = Some ln;
  at_tok : ln_token ln = Some (mk_token p b settled_job)
}.

Lemma at_budget S w ln p b : at_token S w ln p b -> budget_ok b.
Proof.
  intros [R Hl Et]. destruct (lane_at S w ln R Hl) as (q & _ & [_ T _ _ _]). rewrite Et in T. apply T.
Qed.

Lemma at_step S w ln p b :
  at_token S w ln p b -> p <> Submitting -> p <> Deferred ->
  exists S', drain_step S w work = Ok S' /\ reaches S S' /\ readers_ok S'.
Proof. intros [R Hl Et] Hs Hd. by apply (drain_reach S w ln _ R Hl Et). Qed.

(** What the next step of a drain computes. *)
Lemma at_unfold S w ln p b :
  at_token S w ln p b -> get_token S w = Ok (ln, mk_token p b settled_job).
Proof. intros [R Hl Et]. by apply get_token_at. Qed.

Lemma put_lane_at S s' w ln ln' p b :
  rs_lanes S !! w = Some ln -> ln_token ln' = Some (mk_token p b settled_job) ->
  readers_ok (put_lane (set_session S s') w ln') -> at_token (put_lane (set_session S s') w ln') w ln' p b.
Proof. intros Hl Et R. split; auto. simpl. apply list_lookup_insert_eq. by apply lookup_lt_Some in Hl. Qed.

Lemma token_refs S w ln t :
  readers_ok S -> rs_lanes S !! w = Some ln -> ln_token ln = Some t ->
  zlen (rs_jobs S) + 1 <= refcount (rs_session S).
Proof.
  intros R Hl Et. rewrite (bo_refs _ (ro_books S R)), total_refs. destruct weights_nonneg as (_ & _ & Wr & _).
  destruct (lane_at S w ln R Hl) as (q & Hq & Lq).
  destruct (zsum_bound id _ w (lane_weight ref_weight q ln) (lanes_weight_nonneg _ _ _ _ Wr (ro_lanes S R))) as [_ Hb].
  { rewrite lookup_zip_with, Hq. simpl. by rewrite Hl. }
  assert (1 <= lane_weight ref_weight q ln) as Hone.
  { unfold lane_weight. rewrite Et. simpl. assert (0 <= zsum (on_message ref_weight) (wq_messages q)) as Hn
      by (apply zsum_nonneg, Forall_true; simpl; lia). simpl in Hn. destruct (wq_burst q); lia. }
  change (id (lane_weight ref_weight q ln)) with (lane_weight ref_weight q ln) in Hb. unfold zlen in *. lia.
Qed.

(** Peeking at an empty queue ends the token. *)
Lemma peek_run S w ln b :
  at_token S w ln Looping b -> 0 < wb_packets b -> 0 < wb_bytes b ->
  exists head, drain_peek (rs_session S) (Z.of_nat w) = Ok head /\
    match head with
    | (None, s1) => exists s' S' ln', deviceReaderSessionUnref s1 = Ok s' /\ ends S s' S' /\
        rs_lanes S' !! w = Some ln' /\ ln_fates ln' = ln_fates ln
    | (Some m, s1) => exists S', reaches S S' /\ rs_session S' = s1 /\
        at_token S' w (with_token ln (Some (mk_token Peeked b settled_job))) Peeked b /\
        queue_head s1 (Z.of_nat w) = Ok m
    end.
Proof.
  intros A Hp Hb. destruct (at_step _ _ _ _ _ A) as (S1 & E1 & Re1 & R1); [done|done|].
  unfold drain_step in E1. rewrite (at_unfold _ _ _ _ _ A) in E1. cbn [mbind outcome_bind tk_phase tk_budget] in E1.
  replace ((wb_packets b >? 0) && (wb_bytes b >? 0)) with true in E1 by lia.
  apply bind_Ok in E1 as ([head s1] & Ep & [= E1]). exists (head, s1). split; [done|].
  pose proof (lookup_lt_Some _ _ _ (at_lane _ _ _ _ _ A)) as Hlt. destruct head as [m|].
  - subst S1. eexists. split; [exact Re1|]. split; [done|]. split.
    + apply (put_lane_at S s1 w ln); [apply A|done|done].
    + unfold drain_peek in Ep. unfold queue_head.
      apply bind_Ok in Ep as (? & _ & Ep). apply bind_Ok in Ep as (q & Eq & Ep).
      destruct (wq_messages q) as [|m' l] eqn:Em; [by invert_ok|]. injection Ep as <- <-. rewrite Eq. cbn. by rewrite Em.
  - subst S1. destruct (unref_run _ (length (rs_jobs S)) R1) as (s2 & E2 & Re2 & O2 & _).
    { simpl. by apply list_lookup_middle. }
    eexists s2, _, _. split; [exact E2|]. split; [split; [by eapply reach_trans|done]|].
    simpl. rewrite list_lookup_insert_eq by done. done.
Qed.

Lemma enter_run S w ln b m :
  at_token S w ln Peeked b -> queue_head (rs_session S) (Z.of_nat w) = Ok m ->
  exists entered admitted s1 S', drain_enter (rs_session S) m = Ok (entered, admitted, s1) /\
    reaches S S' /\ rs_session S' = s1 /\
    at_token S' w (with_token ln (Some (mk_token (Delivering entered admitted) b settled_job)))
      (Delivering entered admitted) b /\ queue_head s1 (Z.of_nat w) = Ok m.
Proof.
  intros A Hh. destruct (at_step _ _ _ _ _ A) as (S1 & E1 & Re1 & R1); [done|done|].
  unfold drain_step in E1. rewrite (at_unfold _ _ _ _ _ A) in E1. cbn [mbind outcome_bind tk_phase tk_budget] in E1.
  rewrite Hh in E1. cbn [mbind outcome_bind] in E1. apply bind_Ok in E1 as ([[e a] s1] & Ee & [= E1]). subst S1.
  exists e, a, s1. eexists. split; [done|]. split; [exact Re1|]. split; [done|]. split.
  - apply (put_lane_at S s1 w ln); [apply A|done|done].
  - assert (worker_queues s1 = worker_queues (rs_session S)) as Eq
      by (clear Hh Re1; unfold drain_enter in Ee; invert_ok; done).
    unfold queue_head, get_queue in *. by rewrite Eq.
Qed.

Lemma leave_run S w ln b entered dn :
  at_token S w ln (Leaving entered dn) b ->
  exists s1 S', drain_leave (rs_session S) entered = Ok s1 /\ reaches S S' /\ rs_session S' = s1 /\
    at_token S' w (with_token ln (Some (mk_token (Left dn) b settled_job))) (Left dn) b.
Proof.
  intros A. destruct (at_step _ _ _ _ _ A) as (S1 & E1 & Re1 & R1); [done|done|].
  unfold drain_step in E1. rewrite (at_unfold _ _ _ _ _ A) in E1. cbn [mbind outcome_bind tk_phase] in E1.
  apply bind_Ok in E1 as (s1 & Ee & [= E1]). subst S1. exists s1. eexists. split; [done|]. split; [exact Re1|].
  split; [done|]. apply (put_lane_at S s1 w ln); [apply A|done|done].
Qed.

(** The finished head is removed and cleaned up. *)
Lemma pop_run S w ln b :
  at_token S w ln (Left true) b ->
  exists m s1 s2 S', drain_pop (rs_session S) (Z.of_nat w) = Ok (m, s1) /\
    deviceReaderSessionCleanupMessage s1 m = Ok s2 /\ reaches S S' /\ rs_session S' = s2 /\
    at_token S' w (with_token ln (Some (mk_token Looping b settled_job))) Looping b.
Proof.
  intros A. destruct (at_step _ _ _ _ _ A) as (S1 & E1 & Re1 & R1); [done|done|].
  unfold drain_step in E1. rewrite (at_unfold _ _ _ _ _ A) in E1. cbn [mbind outcome_bind tk_phase] in E1.
  apply bind_Ok in E1 as ([m s1] & Ep & [= E1]). pose proof (lookup_lt_Some _ _ _ (at_lane _ _ _ _ _ A)) as Hlt.
  assert (message_ok m) as M.
  { destruct (lane_at S w ln (at_ok _ _ _ _ _ A) (at_lane _ _ _ _ _ A)) as (q & Hq & [_ _ Ms _ _]).
    unfold drain_pop in Ep. apply bind_Ok in Ep as (? & _ & Ep).
    rewrite (get_queue_at _ w q (ro_queues S (at_ok _ _ _ _ _ A)) Hq) in Ep. cbn [mbind outcome_bind] in Ep.
    destruct (wq_messages q) as [|m' l]; [done|]. apply bind_Ok in Ep as (? & _ & [= <- _]).
    by apply Forall_cons in Ms as [? _]. }
  set (ln1 := with_token ln (Some (mk_token Looping b settled_job))).
  assert (rs_lanes S1 !! w = Some ln1) as Hl1 by (rewrite <- E1; simpl; by rewrite list_lookup_insert_eq).
  pose proof (token_refs S1 w ln1 _ R1 Hl1 eq_refl) as Hr.
  destruct (cleanup_run S1 (length (rs_jobs S)) m R1 M) as (s2 & E2 & Re2 & R2).
  { rewrite <- E1. simpl. by apply list_lookup_middle. }
  { rewrite <- E1 in Hr at 1. simpl in Hr. unfold zlen in Hr. rewrite length_app in Hr. simpl in Hr. lia. }
  assert (rs_session S1 = s1) as Es by (by rewrite <- E1). rewrite Es in E2.
  exists m, s1, s2. eexists. split; [done|]. split; [exact E2|]. split; [by eapply reach_trans|]. split; [done|].
  split; [exact R2|exact Hl1|done].
Qed.

Lemma delivered_count_le new : (delivered_count new <= length new)%nat.
Proof. apply length_filter. Qed.

(** What happens inside the gate. *)
Lemma body_run S w ln entered admitted b m :
  at_token S w ln (Delivering entered admitted) b -> queue_head (rs_session S) (Z.of_nat w) = Ok m ->
  unfinished m -> 0 < wb_packets b ->
  exists out dn b2 s2 S' ln' new,
    match m_work m with
    | Some _ => '(done, b) ← drain_work work admitted b; mret ([], done, b, rs_session S)
    | None =>
        '(out, b, s) ← drain_packets (Datatypes.S (Z.to_nat kDeviceReaderWorkerPacketQuantum)) (rs_session S)
                         (Z.of_nat w) admitted b;
        m ← queue_head s (Z.of_nat w);
        mret (out, m_consumed m =? zlen (m_bufs m), b, s)
    end = Ok (out, dn, b2, s2) /\
    reaches S S' /\ rs_session S' = s2 /\ at_token S' w ln' (Leaving entered dn) b2 /\
    left_since ln ln' new /\ length out = delivered_count new /\ wb_packets b2 + zlen out <= wb_packets b /\
    (dn = true -> wb_packets b2 < wb_packets b).
Proof.
  intros A Hh U Hp. pose proof (at_budget _ _ _ _ _ A) as Hb. destruct (m_work m) as [cp|] eqn:Ew.
  - destruct (at_step _ _ _ _ _ A) as (S1 & E1 & Re1 & R1); [done|done|].
    unfold drain_step in E1. rewrite (at_unfold _ _ _ _ _ A) in E1. cbn [mbind outcome_bind tk_phase] in E1.
    unfold deliver_step in E1. rewrite Hh in E1. cbn [mbind outcome_bind tk_budget] in E1. rewrite Ew in E1.
    apply bind_Ok in E1 as ([dn b2] & Ed & [= E1]). cbn [tk_job] in E1. rewrite Ed. step_ok. subst S1.
    do 5 eexists. exists (with_token ln (Some (mk_token (Leaving entered dn) b2 settled_job))), [].
    split; [done|]. split; [exact Re1|]. split; [done|].
    assert (wb_packets b2 <= wb_packets b /\ (dn = true -> wb_packets b2 < wb_packets b)) as [Hle Hlt].
    { destruct Hb as [Hb _]. unfold kDeviceReaderWorkerPacketQuantum in Hb. unfold drain_work in Ed. destruct admitted.
      - destruct (work b) as [d b']. run_ok Ed. injection Ed as <- <-. destruct x, x0. unfold assert_, check in *.
        repeat match goal with X : (if ?t then _ else _) = Ok _ |- _ => destruct t eqn:?; [|done] end.
        bool_facts. split; [lia|]. intros ->. simpl in *. lia.
      - injection Ed as <- <-. simpl. rewrite wrap32_small by word_lia. lia. }
    split; [|splits].
    + rewrite <- (set_session_same S) in R1 at 1. rewrite <- (set_session_same S) at 1.
      apply (put_lane_at S _ w ln); [apply A|done|done].
    + unfold left_since. simpl. by rewrite app_nil_r.
    + done.
    + unfold zlen. simpl. lia.
    + done.
  - assert (delivering S w ln entered admitted b m) as D by (destruct A; by split).
    destruct (packets_run (Datatypes.S (Z.to_nat kDeviceReaderWorkerPacketQuantum)) _ _ _ _ _ _ _ D)
      as (out & b2 & s2 & S2 & ln2 & m2 & new & E2 & Es2 & Re2 & D2 & Hm2 & Hl2 & Hp2 & Hout & Hnil); [destruct Hb; lia|lia|].
    rewrite E2. step_ok. rewrite <- Es2, (de_head _ _ _ _ _ _ _ D2). step_ok.
    assert (at_token S2 w ln2 (Delivering entered admitted) b2) as A2 by (destruct D2; by split).
    destruct (at_step _ _ _ _ _ A2) as (S3 & E3 & Re3 & R3); [done|done|].
    unfold drain_step in E3. rewrite (at_unfold _ _ _ _ _ A2) in E3. cbn [mbind outcome_bind tk_phase] in E3.
    unfold deliver_step in E3. rewrite (de_head _ _ _ _ _ _ _ D2) in E3. cbn [mbind outcome_bind tk_budget] in E3.
    rewrite (de_packets _ _ _ _ _ _ _ D2), Hm2 in E3. cbn [mbind outcome_bind] in E3. injection E3 as <-.
    do 5 eexists. eexists _, new. split; [done|]. split; [by eapply reach_trans|]. split; [done|].
    pose proof (delivered_count_le new) as Hle. split; [|splits].
    + rewrite <- (set_session_same S2) in R3 at 1. rewrite <- (set_session_same S2) at 1.
      apply (put_lane_at S2 _ w ln2); [apply A2|done|exact R3].
    + exact Hl2.
    + done.
    + unfold zlen in *. lia.
    + intros Ed. bool_facts. destruct new as [|x new]; [|unfold zlen in *; simpl in Hp2; lia].
      rewrite Hnil in Ed by done. unfold unfinished, m_packets in U. rewrite Ew in U. lia.
Qed.

Lemma drain_loop_run fuel S w ln b accept :
  at_token S w ln Looping b -> (Z.to_nat (wb_packets b) < fuel)%nat ->
  exists out s' S' ln' new,
    drain_loop fuel work (rs_session S) (Z.of_nat w) b accept = Ok (out, s') /\ ends S s' S' /\
    rs_lanes S' !! w = Some ln' /\ left_since ln ln' new /\ length out = delivered_count new /\
    zlen out <= wb_packets b.
Proof.
  revert S ln b. induction fuel as [|fuel IH]; intros S ln b A Hf; [lia|].
  pose proof (at_budget _ _ _ _ _ A) as [Hp0 Hb0]. cbn [drain_loop].
  destruct ((wb_packets b >? 0) && (wb_bytes b >? 0)) eqn:Et; cbn [negb].
  2: { destruct (finish_run S w ln (mk_token Looping b settled_job) accept) as (s' & S' & ln' & new & E & En & Hl & Hs & Hn);
         try apply A; try done.
       { unfold drain_step. rewrite (at_unfold _ _ _ _ _ A). step_ok. cbn [tk_phase tk_budget]. by rewrite Et. }
       rewrite E. step_ok. exists [], s', S', ln', new. splits; auto; [by rewrite delivered_count_none|unfold zlen; simpl; lia]. }
  bool_facts. destruct (peek_run _ _ _ _ A) as ([[m|] s1] & -> & Hpk); [lia|lia| |]; step_ok.
  2: { destruct Hpk as (s' & S' & ln' & -> & En & Hl & Hs). step_ok. exists [], s', S', ln', []. splits; auto; [|unfold zlen; simpl; lia].
       unfold left_since. by rewrite app_nil_r. }
  destruct Hpk as (S1 & Re1 & <- & A1 & Hh1).
  assert (unfinished m) as U.
  { destruct (lane_at _ _ _ (at_ok _ _ _ _ _ A1) (at_lane _ _ _ _ _ A1)) as (q & Hq & [_ T _ _ _]).
    destruct T as (_ & _ & (_ & _ & F) & _). unfold queue_head in Hh1.
    rewrite (get_queue_at _ w q (ro_queues _ (at_ok _ _ _ _ _ A1)) Hq) in Hh1. cbn [mbind outcome_bind] in Hh1.
    destruct (wq_messages q); [done|]. injection Hh1 as ->. by apply Forall_cons in F as [? _]. }
  destruct (enter_run _ _ _ _ _ A1 Hh1) as (e & a & s2 & S2 & -> & Re2 & <- & A2 & Hh2). step_ok.
  destruct (body_run _ _ _ _ _ _ _ A2 Hh2 U) as (out & dn & b2 & s3 & S3 & ln3 & new & -> & Re3 & <- & A3 & Hl3 & Ho & Hw & Hd);
    [lia|]. step_ok.
  destruct (leave_run _ _ _ _ _ _ A3) as (s4 & S4 & -> & Re4 & <- & A4). step_ok.
  assert (reaches S S4) as Re by (do 3 (eapply reach_trans; [|eassumption]); done). destruct dn; cbn [negb].
  - destruct (pop_run _ _ _ _ A4) as (m5 & s5 & s6 & S5 & -> & Ec & Re5 & <- & A5). step_ok. rewrite Ec. step_ok.
    destruct (IH S5 _ b2 A5) as (out' & s' & S' & ln' & new' & -> & (Re6 & Es & O) & Hl & Hs & Ho' & Hw'); [lia|].
    step_ok. eexists _, s', S', ln', (new ++ new'). split; [done|].
    split; [split; [do 2 (eapply reach_trans; [|eassumption]); done|done]|]. split; [done|]. splits.
    + unfold left_since in *. rewrite Hs. simpl. by rewrite Hl3, <- app_assoc.
    + by rewrite length_app, delivered_count_app, Ho, Ho'.
    + specialize (Hd eq_refl). unfold zlen in *. rewrite length_app. lia.
  - destruct (finish_run S4 w _ _ accept (at_ok _ _ _ _ _ A4) (at_lane _ _ _ _ _ A4) (at_tok _ _ _ _ _ A4))
      as (s' & S' & ln' & new' & E & (Re6 & Es & O) & Hl & Hs & Hn); try done.
    { unfold drain_step. by rewrite (at_unfold _ _ _ _ _ A4). }
    rewrite E. step_ok. eexists out, s', S', ln', (new ++ new'). split; [done|].
    split; [split; [by eapply reach_trans|done]|]. split; [done|]. splits.
    + unfold left_since in *. rewrite Hs. simpl. by rewrite Hl3, <- app_assoc.
    + by rewrite delivered_count_app, (delivered_count_none new'), Nat.add_0_r.
    + pose proof (at_budget _ _ _ _ _ A4) as [? _]. lia.
Qed.

(** ** Posting without waiting *)

Lemma batch_charge_ok s bufs charge :
  0 <= charge -> Forall good bufs -> output_charge_limit (budget s) <= UINT64_MAX ->
  charge + zsum sbufGetAllocationCharge bufs <= output_charge_limit (budget s) ->
  batch_charge s bufs charge = Ok (charge + zsum sbufGetAllocationCharge bufs).
Proof.
  intros Hc F Hl. revert charge Hc. induction F as [|x l [W O] F IH]; intros charge Hc Hs; cbn [batch_charge].
  - unfold zsum in *. simpl in *. by rewrite Z.add_0_r.
  - rewrite zsum_cons in *. assert (0 <= zsum sbufGetAllocationCharge l) as Hn.
    { apply zsum_nonneg. eapply Forall_impl; [exact F|]. intros y [Wy Oy]. simpl. rewrite charge_ordinary by done.
      destruct Wy. lia. }
    assert (0 < sbufGetAllocationCharge x) as Hx by (rewrite charge_ordinary by done; destruct W; lia).
    rewrite !wrap64_small by word_lia. rewrite abort_bind by lia. rewrite IH by lia. f_equal. lia.
Qed.

(** A refused batch is settled buffer by buffer. *)
Lemma reserved_run bufs S i k :
  readers_ok S -> Forall good bufs ->
  rs_jobs S !! i = Some (mk_job (zsum sbufGetAllocationCharge bufs) (zlen bufs) false) ->
  exists s', deviceReaderSessionReuseReservedBuffers (rs_session S) bufs None k true = Ok s' /\
    let S' := put_job (set_session S s') (Thread i) settled_job in reaches S S' /\ readers_ok S'.
Proof.
  revert S k. induction bufs as [|x bufs IH]; intros S k R F Hi; cbn [deviceReaderSessionReuseReservedBuffers].
  - exists (rs_session S). split; [done|]. rewrite (put_thread_same S _ i settled_job) by done.
    rewrite set_session_same. split; [apply reach_refl|done].
  - apply Forall_cons in F as [[W O] F]. rewrite zsum_cons in Hi. step_ok.
    assert (0 <= zsum sbufGetAllocationCharge bufs) as Hn.
    { apply zsum_nonneg. eapply Forall_impl; [exact F|]. intros y [Wy Oy]. simpl. rewrite charge_ordinary by done.
      destruct Wy. lia. }
    assert (0 < sbufGetAllocationCharge x) as Hc by (rewrite charge_ordinary by done; destruct W; lia).
    destruct (release_run S (Thread i) _ (sbufGetAllocationCharge x) 1 R (thread_job S i _ Hi)) as (s1 & E1 & Re1 & R1);
      [done|simpl; lia|unfold zlen; simpl; lia|].
    unfold deviceReaderSessionReleaseOutput. rewrite E1. step_ok. set (S1 := put_job _ _ _) in *.
    destruct (IH S1 (k + 1) R1 F) as (s2 & E2 & Re2 & R2).
    { unfold S1. cbn [put_job rs_jobs set_session]. rewrite list_lookup_insert_eq by (by apply lookup_lt_Some in Hi).
      f_equal. unfold owe. cbn [owed_charge owed_packets unsignalled]. set (z := zsum _ _).
      replace (_ + z + _) with z by lia. replace (_ + - (1)) with (zlen bufs); [done|]. unfold zlen. simpl length. lia. }
    exists s2. split; [exact E2|].
    unfold S1 in Re2, R2. rewrite (put_job_twice S _ _ (Thread i) _ _ _ (thread_job S i _ Hi)) in Re2, R2.
    split; [|done]. by eapply reach_trans.
Qed.

(** Appending a posted message.  An accepted message is queued; a refused token
    takes the whole queue with it. *)
Lemma append_run S k w m ln cb accept :
  readers_ok S -> rs_posts S !! k = Some (w, m) -> rs_lanes S !! w = Some ln -> refcount (rs_session S) < UINT32_MAX ->
  exists ok s' S' ln' new,
    deviceReaderWorkerQueueAppend (rs_session S) m (Z.of_nat w) cb accept = Ok (ok, s') /\ ends S s' S' /\
    rs_jobs S' = rs_jobs S /\ rs_lanes S' = <[w := ln']> (rs_lanes S) /\
    ln_posted ln' = ln_posted ln ++ m_pending m /\ left_since ln ln' new /\ Forall (fun x => snd x = None) new /\ (ok = true -> new = []).
Proof.
  intros R Hk Hl Hr. apply lookup_lt_Some in Hl as Hlt.
  assert (may_do (DoAppend k cb) S) as M by (split; [by apply lookup_lt_Some in Hk|done]).
  destruct (append_step_ok workers_count S k cb R M) as (S1 & E1 & R1).
  pose proof (reach_do S (DoAppend k cb) S S1 (reach_refl S) M E1) as Re1.
  cbn [reader_step] in E1. unfold append_step in E1. rewrite (fetch_ok _ _ _ Hk) in E1. cbn [mbind outcome_bind] in E1.
  rewrite (fetch_ok _ _ _ Hl) in E1. cbn [mbind outcome_bind] in E1.
  apply bind_Ok in E1 as ([[schedule local] s1] & Ea & [= E1]).
  unfold deviceReaderWorkerQueueAppend. rewrite Ea. step_ok.
  set (ln1 := mk_lane _ _ _) in E1.
  assert (rs_lanes S1 = <[w := ln1]> (rs_lanes S) /\ rs_session S1 = s1 /\ rs_jobs S1 = rs_jobs S) as (El1 & Es1 & Ej1)
    by (by rewrite <- E1).
  assert (rs_lanes S1 !! w = Some ln1) as Hl1 by (by rewrite El1, list_lookup_insert_eq).
  destruct (negb schedule || local) eqn:Et.
  { step_ok. exists true, s1, S1, ln1, []. split; [done|]. split; [split; [done|by split; [|left]]|]. splits; auto.
    unfold left_since, ln1. simpl. by rewrite app_nil_r. }
  apply orb_false_elim in Et as [Et ->]. apply negb_false_iff in Et as ->.
  assert (may_do (DoSubmit w accept) S1) as M1 by (by exists ln1, (new_token Submitting)).
  destruct (submit_step_ok workers_count S1 w accept R1 M1) as (S2 & E2 & R2).
  pose proof (reach_do S1 (DoSubmit w accept) S1 S2 (reach_refl S1) M1 E2) as Re2.
  cbn [reader_step] in E2. unfold submit_step in E2. rewrite (get_token_at S1 w ln1 _ Hl1 eq_refl) in E2.
  cbn [mbind outcome_bind new_token tk_phase] in E2. unfold deviceReaderWorkerQueueSchedule. destruct accept; step_ok.
  - injection E2 as <-. eexists true, s1, _, _, []. split; [done|].
    split; [split; [by eapply reach_trans|by split; [|left]]|]. split; [exact Ej1|].
    simpl. rewrite El1, list_insert_insert_eq. split; [done|]. splits; auto.
    unfold left_since, ln1. simpl. by rewrite app_nil_r.
  - destruct (cancel_run S1 w ln1 _ S2 R1 Hl1 eq_refl eq_refl E2 R2) as (s3 & S3 & E3 & Re3 & Es3 & O3 & El3 & Ej3).
    rewrite Es1 in E3. rewrite E3. step_ok. unfold cancel_step in E2. apply bind_Ok in E2 as ([l s2] & _ & [= E2]).
    eexists false, s3, S3, _, (discarded <$> concat (m_pending <$> l)). split; [done|].
    split; [split; [by eapply reach_trans; [|eapply reach_trans]|done]|]. split; [congruence|].
    rewrite El3, <- E2. simpl. rewrite El1, list_insert_insert_eq. split; [done|].
    splits; auto; try done. apply Forall_fmap, Forall_true. done.
Qed.

(** The post of a reserved, detached batch. *)
Lemma post_internal_run S i w ln bufs env :
  readers_ok S -> rs_lanes S !! w = Some ln -> Forall good bufs -> 0 < zlen bufs <= batch_capacity (rs_session S) ->
  rs_jobs S !! i = Some (mk_job (zsum sbufGetAllocationCharge bufs) (zlen bufs) false) ->
  refcount (rs_session S) + 1 < UINT32_MAX ->
  exists ok s' S' ln' new,
    deviceReaderSessionPostInternal (rs_session S) env (Z.of_nat w) bufs None id true = Ok (ok, None, s') /\
    ends S s' S' /\ rs_jobs S' = <[i := settled_job]> (rs_jobs S) /\ rs_lanes S' = <[w := ln']> (rs_lanes S) /\
    left_since ln ln' new /\ Forall (fun x => snd x = None) new /\
    (ok = false /\ ln' = ln \/
     (ok = true -> new = []) /\ ln_posted ln' = ln_posted ln ++ ((fun b => (generation (rs_session S), b)) <$> bufs)).
Proof.
  intros R Hl G Hb Hi Hr. apply lookup_lt_Some in Hl as Hlt. unfold deviceReaderSessionPostInternal.
  rewrite touch_live by apply R. step_ok. rewrite assert_bind by done.
  replace ((zlen bufs =? 0) || (zlen bufs >? batch_capacity (rs_session S))) with false by lia.
  destruct (negb (producer_admission (rs_session S)) || negb (loops_ready env)).
  { rewrite (ro_queues S R). destruct (reserved_run bufs S i 0 R G Hi) as (s' & -> & Re & R'). step_ok.
    eexists false, s', _, ln, []. split; [done|]. split; [split; [exact Re|by split; [|left]]|].
    split; [done|]. rewrite list_insert_id by done. splits; auto; try done. unfold left_since. by rewrite app_nil_r. }
  set (m := post_message _ _ _ _).
  assert (may_do (DoPost (Thread i) w bufs None id) S) as M.
  { eexists. split; [by apply thread_job|]. simpl. splits; auto; lia. }
  destruct (posted_message S bufs None id R G) as (Mo & Mc & Mp); [lia|by left|]. fold m in Mo, Mc, Mp.
  destruct (post_step_ok S (Thread i) w m _ R (thread_job S i _ Hi)) as (S1 & E1 & R1); simpl; auto; try (unfold unfinished; lia).
  pose proof (reach_do S (DoPost (Thread i) w bufs None id) S S1 (reach_refl S) M E1) as Re1.
  unfold post_step in E1. rewrite (thread_job S i _ Hi) in E1. cbn [mbind outcome_bind] in E1.
  apply bind_Ok in E1 as (s1 & Er & [= E1]). rewrite Er. step_ok.
  assert (worker_queues s1 = worker_queues (rs_session S) /\ refcount s1 = refcount (rs_session S) + 1) as [Eq Erc].
  { unfold deviceReaderSessionRef in Er. clear - Er. by invert_ok. }
  rewrite Eq, (ro_queues S R).
  assert (rs_session S1 = s1 /\ rs_lanes S1 = rs_lanes S /\ rs_posts S1 = rs_posts S ++ [(w, m)]) as (Es1 & El1 & Ep1)
    by (by rewrite <- E1).
  assert (rs_jobs S1 = <[i := settled_job]> (rs_jobs S)) as Ej1.
  { rewrite <- E1. simpl. f_equal. unfold owe. simpl. rewrite Mc, Mp. unfold settled_job. f_equal; lia. }
  destruct (append_run S1 (length (rs_posts S)) w m ln (in_callback env) (accepted env) R1)
    as (ok & s2 & S2 & ln2 & new & E2 & (Re2 & Es2 & O2) & Ej2 & El2 & Hp2 & Hs2 & Hn & Hok).
  { rewrite Ep1. by apply list_lookup_middle. }
  { by rewrite El1. }
  { rewrite Es1. lia. }
  rewrite Es1 in E2. rewrite E2. step_ok. exists ok, s2, S2, ln2, new. split; [done|].
  split; [split; [by eapply reach_trans|done]|]. splits; auto; try congruence.
Qed.

Lemma left_since_quiet ln ln' new :
  left_since ln ln' new -> Forall (fun x => snd x = None) new -> delivered ln' = delivered ln.
Proof.
  intros E F. unfold delivered. rewrite E, omap_app. rewrite <- (app_nil_r (omap _ (ln_fates ln))) at 2. f_equal.
  clear E. induction F as [|[x [g|]] l Hx _ IH]; done.
Qed.

(** A reservation by a thread that owes nothing. *)
Lemma reserve_run S i charge packets :
  readers_ok S -> rs_jobs S !! i = Some settled_job ->
  0 < charge <= output_charge_limit (budget (rs_session S)) ->
  0 < packets <= output_packet_limit (budget (rs_session S)) ->
  exists ok s', try_reserve (rs_session S) true charge packets = Ok (ok, s') /\
    let S' := put_job (set_session S s') (Thread i) (if (ok : bool) then mk_job charge packets false else settled_job) in
    reaches S S' /\ readers_ok S' /\ refcount s' = refcount (rs_session S) /\
    batch_capacity s' = batch_capacity (rs_session S) /\ generation s' = generation (rs_session S).
Proof.
  intros R Hi Hc Hp.
  assert (may_do (DoReserve (Thread i) charge packets) S) as M by (split; [eexists; by apply thread_job|done]).
  destruct (reserve_step_ok workers_count S (Thread i) charge packets R M) as (S1 & E1 & R1).
  pose proof (reach_do S (DoReserve (Thread i) charge packets) S S1 (reach_refl S) M E1) as Re1.
  cbn [reader_step] in E1. rewrite (thread_job S i _ Hi) in E1. cbn [mbind outcome_bind] in E1.
  apply bind_Ok in E1 as ([ok s'] & Et & [= E1]). exists ok, s'. split; [done|]. cbv zeta.
  assert (S1 = put_job (set_session S s') (Thread i) (if ok then mk_job charge packets false else settled_job)) as <-.
  { rewrite <- E1. by destruct ok. }
  unfold try_reserve in Et. clear - Et Re1 R1. invert_ok. unfold reserve_locked in *. by destruct (_ || _); simplify_eq.
Qed.

(** What a nonblocking post does to the lane of its worker. *)
Definition post_outcome (r : device_reader_post_result_e) (packets : list packet) (ln ln' : lane) : Prop :=
  delivered ln' = delivered ln /\
  match r with
  | kDeviceReaderPostAccepted => ln_fates ln' = ln_fates ln /\ ln_posted ln' = ln_posted ln ++ packets
  | kDeviceReaderPostCapacity => ln' = ln
  | kDeviceReaderPostClosed => ln' = ln \/ ln_posted ln' = ln_posted ln ++ packets
  end.

Definition stamped (gen : Z) (bufs : list sbuf_t) : list packet := (fun b => (gen, b)) <$> bufs.

Lemma charges_positive bufs : Forall good bufs -> bufs <> [] -> 0 < zsum sbufGetAllocationCharge bufs.
Proof.
  intros G Hne. destruct G as [|x l [W O] F]; [done|]. rewrite zsum_cons, charge_ordinary by done.
  enough (0 <= zsum sbufGetAllocationCharge l) by (destruct W; lia). apply zsum_nonneg.
  eapply Forall_impl; [exact F|]. intros y [Wy Oy]. simpl. rewrite charge_ordinary by done. destruct Wy. lia.
Qed.

Lemma try_post_run S i w ln bufs env still_open :
  readers_ok S -> rs_jobs S !! i = Some settled_job -> rs_lanes S !! w = Some ln -> Forall good bufs ->
  0 < zlen bufs <= batch_capacity (rs_session S) -> zlen bufs <= output_packet_limit (budget (rs_session S)) ->
  zsum sbufGetAllocationCharge bufs <= output_charge_limit (budget (rs_session S)) ->
  refcount (rs_session S) + 1 < UINT32_MAX ->
  exists r s' S' ln',
    deviceReaderSessionTryPost (rs_session S) env (Z.of_nat w) bufs still_open = Ok (r, s') /\
    ends S s' S' /\ rs_jobs S' = rs_jobs S /\ rs_lanes S' = <[w := ln']> (rs_lanes S) /\
    post_outcome r (stamped (generation (rs_session S)) bufs) ln ln'.
Proof.
  intros R Hi Hl G Hb Hk Hc Hr. pose proof (ro_config S R) as C. destruct (lane_at S w ln R Hl) as (q & Hq & _).
  assert (0 < zsum sbufGetAllocationCharge bufs) as Hpos by (apply charges_positive; [done|intros ->; by destruct Hb]).
  unfold deviceReaderSessionTryPost. rewrite (ro_queues S R). step_ok. apply lookup_lt_Some in Hq as Hlt.
  rewrite !assert_bind by (unfold zlen in *; lia).
  rewrite batch_charge_ok by (auto; try lia; apply C). rewrite Z.add_0_l. step_ok.
  unfold deviceReaderSessionTryReserveWork.
  assert (forall s1 S1 ok, (ok = kDeviceReaderPostCapacity \/ ok = kDeviceReaderPostClosed) -> ends S s1 S1 ->
    rs_jobs S1 = rs_jobs S -> rs_lanes S1 = rs_lanes S ->
    exists r s' S' ln', Ok (ok, s1) = Ok (r, s') /\ ends S s' S' /\ rs_jobs S' = rs_jobs S /\
      rs_lanes S' = <[w := ln']> (rs_lanes S) /\ post_outcome r (stamped (generation (rs_session S)) bufs) ln ln')
    as Hrefused.
  { intros s1 S1 ok Ho He Ej El. exists ok, s1, S1, ln. rewrite El, list_insert_id by done. splits; auto.
    split; [done|]. destruct Ho as [-> | ->]; [done|by left]. }
  destruct (producer_admission (rs_session S)).
  - destruct (reserve_run S i (zsum sbufGetAllocationCharge bufs) (zlen bufs) R Hi) as (ok & s1 & -> & Re1 & R1 & Er & Eb & Eg);
      [lia|lia|]. step_ok. destruct ok.
    + set (S1 := put_job _ _ _) in *. assert (rs_session S1 = s1) as Es1 by done.
      destruct (post_internal_run S1 i w ln bufs env R1 Hl G) as (ok & s2 & S2 & ln2 & new & E2 & (Re2 & Es2 & O2) & Ej & El2 & Hs & Hn & Hok);
        [by rewrite Es1, Eb|apply list_lookup_insert_eq; by apply lookup_lt_Some in Hi|by rewrite Es1, Er|].
      rewrite Es1, Eg in *. rewrite E2. step_ok. do 4 eexists. split; [done|].
      split; [split; [by eapply reach_trans|done]|]. split; [|split; [exact El2|split; [by eapply left_since_quiet|]]].
      * rewrite Ej. unfold S1. simpl. rewrite list_insert_insert_eq. by apply list_insert_id.
      * destruct Hok as [[-> ->]|[Hn0 Hp]]; [by left|]. destruct ok; [|by right]. split; [|done].
        rewrite Hn0 in Hs by done. unfold left_since in Hs. by rewrite app_nil_r in Hs.
    + rewrite (put_thread_same S s1 i settled_job Hi) in *.
      destruct still_open; (apply (Hrefused s1 (set_session S s1)); [auto|split; [done|by split; [|left]]|done|done]).
  - unfold try_reserve. rewrite touch_live by apply C. step_ok. rewrite !assert_bind by (destruct C; lia). step_ok.
    destruct still_open; (apply (Hrefused _ S); [auto|split; [apply reach_refl|by split; [|left]]|done|done]).
Qed.
End Drain.
