(* ===== verification/ReaderRuns.v ===== *)
(** * The guarantees of a reader session

    The properties of [ReaderProofs] over every run, and one concrete run: a
    packet is reserved, posted, scheduled and delivered, and the generation
    ends. *)

From Stdlib Require Import ZArith Lia.
From stdpp Require Import base numbers option list.
From S2P Require Import Prelude ShiftBuffer PoolInterface BufferPool FlowHash.
From S2P Require Import FragAffinity FragInvariant FragOffer FragLife Gate ReaderSession ReaderSystem ReaderProofs.
From S2P Require Import ReaderDrain.
Open Scope Z_scope.
Open Scope word_scope.

Section Runs.
Context `{Allocator} {P : Type} `{PoolLaws P} (workers_count : Z).
Implicit Types (S : reader_system P).

(** The messages queued for worker [w]. *)
Definition queued S (w : nat) : list device_reader_message_t :=
  match queues (rs_session S) !! w with Some q => wq_messages q | None => [] end.

(** C19. The accounts of a reader session are exact under every interleaving of
    its threads.  While the session lives, the reserved charge and packets are
    the sum of what threads, posted messages, queues and drains still have to
    settle, within the configured limits, and the reference count is the number
    of its holders.  It is freed by the last of them and not before.  No access a
    thread may make fails: no assertion, no underflow of the budget, no use
    after the session was freed. *)
Theorem reader_accounts_exact S :
  reader_run workers_count S ->
  (freed (rs_session S) = false ->
     output_charge (budget (rs_session S)) = total charge_weight S /\
     output_charge (budget (rs_session S)) <= output_charge_limit (budget (rs_session S)) /\
     output_packets (budget (rs_session S)) = total packet_weight S /\
     output_packets (budget (rs_session S)) <= output_packet_limit (budget (rs_session S)) /\
     refcount (rs_session S) = total ref_weight S /\ 0 < refcount (rs_session S)) /\
  (freed (rs_session S) = true ->
     rs_jobs S = [] /\ rs_posts S = [] /\ Forall (fun ln => ln_token ln = None) (rs_lanes S)) /\
  forall a, may_do a S -> exists S', reader_step workers_count a S = Ok S'.
Proof.
  intros R. destruct (reader_run_inv workers_count S R) as [O|G].
  - destruct (ro_books S O). splits; [intros _; splits; auto; lia|intros Hf; by rewrite (co_live _ (ro_config S O)) in Hf|].
    intros a M. destruct (do_ok workers_count S a O M) as (S' & E & _). eauto.
  - pose proof G as [G1 _ _ G4 G5 G6]. splits; [congruence| |by intros a M; apply gone_idle in M].
    intros _. splits; auto. eapply Forall_impl; [exact G6|]. by intros ln [? _].
Qed.

(** C20. Packets of one worker meet their fate in the order they were posted:
    what was appended to its queue is what has left it, in order, followed by
    what is still queued, so none is lost, repeated or overtaken; and a packet
    that was delivered was delivered in the generation it was posted in. *)
Theorem reader_worker_fifo S (w : nat) (ln : lane) :
  reader_run workers_count S -> rs_lanes S !! w = Some ln ->
  ln_posted ln = (fst <$> ln_fates ln) ++ concat (m_pending <$> queued S w) /\
  Forall (fun x => forall gen, snd x = Some gen -> gen = fst (fst x)) (ln_fates ln).
Proof.
  intros R Hl.
  assert (Forall fate_ok (ln_fates ln) -> Forall (fun x => forall gen, snd x = Some gen -> gen = fst (fst x)) (ln_fates ln)) as Hf.
  { intros F. eapply Forall_impl; [exact F|]. intros [x fate] Hx gen E. simpl in E. by subst fate. }
  destruct (reader_run_inv workers_count S R) as [O|G].
  - destruct (lane_at S w ln O Hl) as (q & Hq & [_ _ _ Hh F]). unfold queued. rewrite Hq. auto.
  - pose proof G as [_ _ G3 _ _ G6]. rewrite Forall_lookup in G6. destruct (G6 w ln Hl) as (_ & Hh & F).
    unfold queued, queues. rewrite G3. simpl. rewrite app_nil_r. auto.
Qed.



(** A drain callback is a run of steps of the session, it always returns,
    and its work is bounded: started on a token the service hands out, with a
    work callback that keeps its contract, [deviceReaderWorkerQueueDrain] ends in
    a state the steps reach, has delivered no more than one packet quantum, and
    what it returned is what left the queue as delivered. *)
Theorem drain_bounded_run S (w : nat) (ln : lane) (t : token) (work : callback) (accept : bool) :
  reader_run workers_count S -> rs_lanes S !! w = Some ln -> ln_token ln = Some t ->
  tk_phase t = Waiting -> tk_job t = settled_job -> (forall b, budget_ok b -> callback_ok work b) ->
  exists out s' S' ln' new,
    deviceReaderWorkerQueueDrain work (rs_session S) (Z.of_nat w) accept = Ok (out, s') /\
    reader_run workers_count S' /\ rs_session S' = s' /\ rs_lanes S' !! w = Some ln' /\
    ln_fates ln' = ln_fates ln ++ new /\ length out = delivered_count new /\
    zlen out <= kDeviceReaderWorkerPacketQuantum.
Proof.
  intros R Hl Et Ep Ej Hw. destruct (reader_run_inv workers_count S R) as [O|G].
  2: { pose proof (rg_lanes S G) as F. rewrite Forall_lookup in F. destruct (F w ln Hl) as [E _]. congruence. }
  destruct (drain_reach workers_count work Hw S w ln t O Hl Et) as (S1 & E1 & Re1 & R1); [by rewrite Ep|by rewrite Ep|].
  unfold drain_step in E1. rewrite (get_token_at S w ln t Hl Et) in E1. cbn [mbind outcome_bind] in E1.
  rewrite Ep in E1. injection E1 as <-. rewrite Ej in *.
  set (ln1 := with_token ln (Some (mk_token Looping full_quantum settled_job))) in *.
  assert (at_token (put_lane S w ln1) w ln1 Looping full_quantum) as A.
  { split; auto. simpl. apply list_lookup_insert_eq. by apply lookup_lt_Some in Hl. }
  destruct (drain_loop_run workers_count work Hw (Datatypes.S (Z.to_nat kDeviceReaderWorkerPacketQuantum)) _ _ _ _ accept A)
    as (out & s' & S' & ln' & new & E & (Re & Es & _) & Hl' & Hs & Ho & Hb); [simpl; lia|].
  exists out, s', S', ln', new. split; [exact E|]. split; [by eapply reach_run; [|eapply reach_trans]|]. by splits.
Qed.

(** The outcome of [deviceReaderSessionTryPost] says what became of the
    batch, on every branch.  Accepted: the whole batch was appended to the queue
    of the worker, in order, in the current generation.  Capacity: the queue is
    untouched and the caller keeps the buffers.  Closed: nothing of it is
    delivered, though it may have passed through the queue.  In all cases the
    call returns, the other queues are as they were, the caller's thread owes
    nothing, and the state is one the steps reach. *)
Theorem try_post_contract S (i w : nat) (ln : lane) (bufs : list sbuf_t) (env : post_env) (still_open : bool) :
  reader_run workers_count S -> rs_jobs S !! i = Some settled_job -> rs_lanes S !! w = Some ln ->
  Forall good bufs -> 0 < zlen bufs <= batch_capacity (rs_session S) ->
  zlen bufs <= output_packet_limit (budget (rs_session S)) ->
  zsum sbufGetAllocationCharge bufs <= output_charge_limit (budget (rs_session S)) ->
  refcount (rs_session S) + 1 < UINT32_MAX ->
  exists r s' S' ln',
    deviceReaderSessionTryPost (rs_session S) env (Z.of_nat w) bufs still_open = Ok (r, s') /\
    reader_run workers_count S' /\ rs_session S' = s' /\ rs_jobs S' = rs_jobs S /\
    rs_lanes S' = <[w := ln']> (rs_lanes S) /\
    post_outcome r (stamped (generation (rs_session S)) bufs) ln ln'.
Proof.
  intros R Hi Hl G Hb Hk Hc Hr. destruct (reader_run_inv workers_count S R) as [O|Go].
  2: { pose proof (rg_jobs S Go) as E. by rewrite E in Hi. }
  destruct (try_post_run workers_count S i w ln bufs env still_open O Hi Hl G Hb Hk Hc Hr)
    as (r & s' & S' & ln' & E & (Re & Es & _) & ?).
  exists r, s', S', ln'. split; [done|]. split; [by eapply reach_run|]. done.
Qed.
End Runs.

(** ** A concrete run *)

#[local] Existing Instance debug_allocator.

Definition unset_session : device_reader_session_t state :=
  mk_session 0 0 false 0 kDeviceOpaqueFlowPrefix 0 0 false 0 (mk_output 0 0 false 0 0) None
    sample_table false demo_state true.

(** Two workers, a budget of 1024 bytes and four packets. *)
Definition created_session : device_reader_session_t state :=
  match deviceReaderSessionCreate 4 demo_state kDeviceFragmentReassemble true true with
  | Ok (Some s) => s | _ => unset_session end.
Definition budgeted_session : device_reader_session_t state :=
  match deviceReaderSessionConfigureOutputBudget created_session 1024 4 true with
  | Ok (_, s) => s | _ => unset_session end.
Definition queued_session : device_reader_session_t state :=
  match deviceReaderSessionEnableWorkerQueue budgeted_session 2 true with
  | Ok (_, s) => s | _ => unset_session end.

Definition idle_work : callback := fun b => (false, b).

Definition demo_init : reader_system state :=
  mk_readers queued_session [settled_job] [] (replicate 2 (mk_lane None [] [])).

Definition after (a : action state) (x : reader_system state) : reader_system state :=
  match reader_step 4 a x with Ok x => x | Fail _ => x end.

(** One packet is reserved for, posted to worker 0, delivered and settled; then
    the delivery gate is shut.  The states are kept evaluated. *)
Definition demo0 : reader_system state := Eval vm_compute in demo_init.
Definition demo1 : reader_system state := Eval vm_compute in after DoBegin demo0.
Definition demo2 : reader_system state := Eval vm_compute in after (DoReserve (Thread 0) 160 1) demo1.
Definition demo3 : reader_system state := Eval vm_compute in after (DoPost (Thread 0) 0 [sample_tail] None id) demo2.
Definition demo4 : reader_system state := Eval vm_compute in after (DoAppend 0 false) demo3.
Definition demo5 : reader_system state := Eval vm_compute in after (DoSubmit 0 true) demo4.
Definition demo6 : reader_system state := Eval vm_compute in after (DoDrain 0 idle_work) demo5.
Definition demo7 : reader_system state := Eval vm_compute in after (DoDrain 0 idle_work) demo6.
Definition demo8 : reader_system state := Eval vm_compute in after (DoDrain 0 idle_work) demo7.
Definition demo9 : reader_system state := Eval vm_compute in after (DoDrain 0 idle_work) demo8.
Definition demo10 : reader_system state := Eval vm_compute in after (DoDrain 0 idle_work) demo9.
Definition demo11 : reader_system state := Eval vm_compute in after (DoDrain 0 idle_work) demo10.
Definition demo12 : reader_system state := Eval vm_compute in after DoShutDelivery demo11.

Lemma demo_start : reader_run 4 demo0.
Proof.
  apply (run_start 4 4 demo_state kDeviceFragmentReassemble 1024 4 2 created_session budgeted_session queued_session);
    try (vm_compute; repeat split; congruence); [|by left].
  exact (proj1 (reachable_state_inv demo_state demo_reachable)).
Qed.

Ltac run_demo a x y := apply (run_do 4 a x y); [| |reflexivity].
Ltac may_drain :=
  do 2 eexists; split; [vm_compute; reflexivity|]; split; [reflexivity|]; split; [discriminate|];
  split; [discriminate|]; vm_compute; repeat split; congruence.

Lemma demo_posted : reader_run 4 demo3.
Proof.
  run_demo (DoPost (P := state) (Thread 0) 0 [sample_tail] None id) demo2 demo3.
  2: { exists (mk_job 160 1 false). split; [vm_compute; reflexivity|]. split; [vm_compute; reflexivity|].
       split; [vm_compute; lia|]. split; [apply Forall_singleton, sample_tail_good|].
       split; [vm_compute; split; congruence|]. split; [by left|]. vm_compute. split; congruence. }
  run_demo (DoReserve (P := state) (Thread 0) 160 1) demo1 demo2.
  2: { split; [exists settled_job; vm_compute; reflexivity|]. vm_compute. repeat split; congruence. }
  run_demo (DoBegin (P := state)) demo0 demo1; [exact demo_start|]. vm_compute. congruence.
Qed.

Lemma demo_delivered : reader_run 4 demo9.
Proof.
  run_demo (DoDrain (P := state) 0 idle_work) demo8 demo9; [|may_drain].
  run_demo (DoDrain (P := state) 0 idle_work) demo7 demo8; [|may_drain].
  run_demo (DoDrain (P := state) 0 idle_work) demo6 demo7; [|may_drain].
  run_demo (DoDrain (P := state) 0 idle_work) demo5 demo6; [|may_drain].
  run_demo (DoSubmit (P := state) 0 true) demo4 demo5.
  2: { do 2 eexists. split; [vm_compute; reflexivity|]. split; reflexivity. }
  run_demo (DoAppend (P := state) 0 false) demo3 demo4; [exact demo_posted|].
  split; [vm_compute; lia|vm_compute; reflexivity].
Qed.

Lemma demo_ended : reader_run 4 demo12.
Proof.
  run_demo (DoShutDelivery (P := state)) demo11 demo12; [|vm_compute; congruence].
  run_demo (DoDrain (P := state) 0 idle_work) demo10 demo11; [|may_drain].
  run_demo (DoDrain (P := state) 0 idle_work) demo9 demo10; [|may_drain]. exact demo_delivered.
Qed.

Lemma reader_accounts_exact_witness :
  total charge_weight demo3 = 160 /\
  output_charge (budget (rs_session demo3)) = total charge_weight demo3 /\
  exists S', reader_step 4 (DoAppend 0 false) demo3 = Ok S'.
Proof.
  destruct (reader_accounts_exact 4 demo3 demo_posted) as (A & _ & C).
  split; [vm_compute; reflexivity|]. split; [apply A; vm_compute; reflexivity|].
  apply C. split; [vm_compute; lia|vm_compute; reflexivity].
Defined.

Definition demo_lane : lane :=
  match rs_lanes demo9 !! 0%nat with Some ln => ln | None => mk_lane None [] [] end.

Lemma reader_worker_fifo_witness :
  ln_fates demo_lane = [((1, sample_tail), Some 1)] /\
  ln_posted demo_lane = (fst <$> ln_fates demo_lane) ++ concat (m_pending <$> queued demo9 0).
Proof.
  split; [vm_compute; reflexivity|].
  exact (proj1 (reader_worker_fifo 4 demo9 0 demo_lane demo_delivered ltac:(vm_compute; reflexivity))).
Defined.



Definition demo_waiting_lane : lane :=
  match rs_lanes demo5 !! 0%nat with Some ln => ln | None => mk_lane None [] [] end.

Lemma drain_bounded_run_witness :
  match deviceReaderWorkerQueueDrain idle_work (rs_session demo5) 0 true with
  | Ok (out, s') => out = [sample_tail] /\ exists S', reader_run 4 S' /\ rs_session S' = s'
  | Fail _ => False
  end.
Proof.
  destruct (drain_bounded_run 4 demo5 0 demo_waiting_lane (new_token Waiting) idle_work true)
    as (out & s' & S' & ln' & new & E & R & Es & _); [|vm_compute; reflexivity..| |].
  - run_demo (DoSubmit (P := state) 0 true) demo4 demo5.
    2: { do 2 eexists. split; [vm_compute; reflexivity|]. split; reflexivity. }
    run_demo (DoAppend (P := state) 0 false) demo3 demo4; [exact demo_posted|].
    split; [vm_compute; lia|vm_compute; reflexivity].
  - intros b [Hp Hb]. repeat split; try apply Hp; try apply Hb; try apply Z.le_refl. discriminate.
  - assert (match deviceReaderWorkerQueueDrain idle_work (rs_session demo5) 0 true with
            | Ok (out, _) => out | Fail _ => [] end = [sample_tail]) as Eo by (vm_compute; reflexivity).
    change (Z.of_nat 0) with 0 in E. rewrite E in Eo |- *. split; [exact Eo|]. exists S'. split; [exact R|exact Es].
Defined.

Definition open_env : post_env := mk_env true false true.

Definition demo_open_lane : lane := mk_lane None [] [].

Lemma try_post_contract_witness :
  match deviceReaderSessionTryPost (rs_session demo1) open_env 1 [sample_tail; sample_tail] true with
  | Ok (r, s') => r = kDeviceReaderPostAccepted /\ exists S', reader_run 4 S' /\ rs_session S' = s'
  | Fail _ => False
  end.
Proof.
  destruct (try_post_contract 4 demo1 0 1 demo_open_lane [sample_tail; sample_tail] open_env true)
    as (r & s' & S' & ln' & E & R & Es & _);
    [|vm_compute; reflexivity|vm_compute; reflexivity| |vm_compute; split; congruence|vm_compute; congruence
     |vm_compute; congruence|vm_compute; reflexivity|].
  - run_demo (DoBegin (P := state)) demo0 demo1; [exact demo_start|]. vm_compute. congruence.
  - apply Forall_cons. split; [exact sample_tail_good|]. apply Forall_singleton. exact sample_tail_good.
  - assert (match deviceReaderSessionTryPost (rs_session demo1) open_env 1 [sample_tail; sample_tail] true with
            | Ok (r, _) => r | Fail _ => kDeviceReaderPostClosed end = kDeviceReaderPostAccepted) as Eo
      by (vm_compute; reflexivity).
    change (Z.of_nat 1) with 1 in E. rewrite E in Eo |- *. split; [exact Eo|]. exists S'. split; [exact R|exact Es].
Defined.
