(* ===== verification/FlowAffinity.v ===== *)
(** * Receive distribution ([ww/devices/device_flow_affinity.c])

    A reader hands over the batches it read.  Fragments pass through the
    fragment table of the session, every other packet is assigned a worker, and
    one counting sort groups the batch by worker, so that each queue is posted to
    once and keeps the order of arrival.

    [Posting] is what the distribution needs of the session: the three ways to
    post.  [session_posting] implements it with the functions of
    [ReaderSession].  Arrays are lists of their declared size, their
    uninitialised cells [None]. *)

From Stdlib Require Import ZArith Lia.
From stdpp Require Import base numbers option list.
From S2P Require Import Prelude ShiftBuffer PoolInterface FlowHash FragAffinity FragInvariant ReaderSession.
Open Scope Z_scope.
Open Scope word_scope.

Definition kDeviceFlowAffinityMaxBatch : Z := 512.
Definition kDeviceFlowAffinityBuckets : Z := UINT8_MAX + 1.
Definition kDeviceFlowAffinityMaxDispatch : Z := kDeviceFlowAffinityMaxBatch + kDeviceFragAffinityMaxStaged.

Class Posting (P : Type) : Type := {
  do_try_post : device_reader_session_t P -> Z -> list sbuf_t ->
    outcome (device_reader_post_result_e * device_reader_session_t P);
  do_post : device_reader_session_t P -> Z -> list sbuf_t -> outcome (bool * device_reader_session_t P);
  do_post_reserved : device_reader_session_t P -> Z -> list sbuf_t -> list Z -> (sbuf_t -> sbuf_t) ->
    outcome (bool * device_reader_session_t P)
}.

(** The argument that selects how a sorted batch is posted. *)
Inductive post_mode : Type :=
  | NonBlocking
  | Blocking
  | Charged (prepare : sbuf_t -> sbuf_t).

(** A buffer with its reservation, zero where there is none. *)
Definition item : Type := sbuf_t * Z.

(** The worker of a flow; [out_wid] is [None] for the NULL pointer. *)
Definition deviceFlowAffineWID (workers_count : Z) (packet : option (list Z)) (length : Z) (out_wid : option Z)
  : outcome (bool * option Z) :=
  match out_wid with
  | None => mret (false, None)
  | Some _ =>
      '(ok, hash) ← deviceFlowWorkerHash packet length (Some 0);
      mret (if (ok : bool) then (true, Some (wrap8 (default 0 hash mod workers_count))) else (false, out_wid))
  end.

Section Distribution.
Context `{Allocator} {P : Type} `{PoolOps P} `{Posting P} (workers_count : Z).
Implicit Types (s : device_reader_session_t P).

Definition deviceReaderSelectWID s (reader_wid reader_count : Z) (b : sbuf_t)
  : outcome (Z * device_reader_session_t P) :=
  _ ← assert_ ((reader_count >? 0) && (reader_count <=? workers_count));
  _ ← assert_ (reader_wid <? reader_count);
  if (workers_count =? 1) || (reader_count >? 1) then mret (reader_wid, s)
  else
    '(ok, hash) ← deviceReceiveWorkerHash (Some (raw b)) (sbufGetLength b) (opaque_flow_mode s) (Some 0);
    mret (if (ok : bool) then (wrap8 (default 0 hash mod workers_count), s)
          else (wrap8 (distribution_next s mod workers_count), set_next s (distribution_next s +32 1))).

(** ** Collecting a dispatch list *)

(** [dispatch[filled] = buf; dispatch_wids[filled] = wid] *)
Definition push (dispatch : list (sbuf_t * Z)) (b : sbuf_t) (wid : Z) : outcome (list (sbuf_t * Z)) :=
  _ ← check MemoryFault (zlen dispatch <? kDeviceFlowAffinityMaxDispatch);
  mret (dispatch ++ [(b, wrap8 wid)]).

Fixpoint push_all (dispatch : list (sbuf_t * Z)) (l : list sbuf_t) (wid : Z) : outcome (list (sbuf_t * Z)) :=
  match l with
  | [] => mret dispatch
  | b :: l => dispatch ← push dispatch b wid; push_all dispatch l wid
  end.

(** [now] is the clock the fragment table reads. *)
Definition deviceFlowAffinityAppend s (b : sbuf_t) (now : Z) (dispatch : list (sbuf_t * Z))
  : outcome (list (sbuf_t * Z) * device_reader_session_t P) :=
  '(action, frag, t, pool) ← deviceFragAffinityOffer workers_count (Some (frag_affinity s)) (reader_buffer_pool s)
                               (Some (raw b)) (sbufGetLength b) b now;
  let s := set_frag s (default (frag_affinity s) t) (reader_pool_set s) pool in
  let selected b :=
    '(wid, s) ← deviceReaderSelectWID s 0 1 b;
    dispatch ← push dispatch b wid;
    mret (dispatch, s) in
  match action with
  | kDeviceFragAffinityNotFragment => selected b
  | kDeviceFragAffinityComplete =>
      match completed frag with Some b => selected b | None => Fail MemoryFault end
  | kDeviceFragAffinityConsumedDrop => mret (dispatch, s)
  | kDeviceFragAffinityStaged =>
      dispatch ← push_all dispatch (released frag) (result_wid frag);
      mret (dispatch, s)
  | kDeviceFragAffinityDispatch =>
      dispatch ← push_all dispatch (released frag) (result_wid frag);
      dispatch ← push dispatch (default b (input frag)) (result_wid frag);
      mret (dispatch, s)
  end.

Fixpoint append_loop s (bufs : list (sbuf_t * Z)) (dispatch : list (sbuf_t * Z))
  : outcome (list (sbuf_t * Z) * device_reader_session_t P) :=
  match bufs with
  | [] => mret (dispatch, s)
  | (b, now) :: l =>
      '(dispatch, s) ← deviceFlowAffinityAppend s b now dispatch;
      append_loop s l dispatch
  end.

(** ** The counting sort *)

(** [counts[wids[i]]++] *)
Fixpoint count_loop (wids counts : list Z) : outcome (list Z) :=
  match wids with
  | [] => mret counts
  | wid :: l =>
      c ← arr_get counts wid;
      counts ← arr_set counts wid (wrap16 (c + 1));
      count_loop l counts
  end.

(** The offsets of the buckets, and the last offset. *)
Fixpoint offset_loop (counts : list Z) (offset : Z) : list Z * Z :=
  match counts with
  | [] => ([], offset)
  | c :: l => let '(offsets, last) := offset_loop l (wrap16 (offset + c)) in (offset :: offsets, last)
  end.

(** [position = positions[wids[i]]++; sorted[position] = dispatch[i]] *)
Fixpoint place_loop (items : list item) (wids positions : list Z) (sorted : list (option item))
  : outcome (list (option item)) :=
  match items, wids with
  | x :: items, wid :: wids =>
      position ← arr_get positions wid;
      positions ← arr_set positions wid (wrap16 (position + 1));
      sorted ← arr_set sorted position (Some x);
      place_loop items wids positions sorted
  | _, _ => mret sorted
  end.

(** Cells [first] to [first + n]; reading one that was never written is not
    modelled. *)
Fixpoint read_run (sorted : list (option item)) (first : Z) (n : nat) : outcome (list item) :=
  match n with
  | O => mret []
  | S n' =>
      cell ← arr_get sorted first;
      x ← match cell with Some x => mret x | None => Fail NotModelled end;
      l ← read_run sorted (first + 1) n';
      mret (x :: l)
  end.

(** ** Posting a sorted list *)

(** [while (fitting < chunk)]: how many of the buffers fit an empty budget. *)
Fixpoint fitting_count (limit : Z) (l : list item) (charge : Z) : Z :=
  match l with
  | [] => 0
  | (b, _) :: l =>
      let next := sbufGetAllocationCharge b in
      if next >? (limit -64 charge) then 0 else 1 + fitting_count limit l (charge +64 next)
  end.

(** One post: whether it was accepted, and how many buffers it took over. *)
Definition post_turn s (mode : post_mode) (sorted : list (option item)) (wid first remaining : Z)
  : outcome (bool * Z * device_reader_session_t P) :=
  let chunk := Z.min remaining (batch_capacity s) in
  match mode with
  | NonBlocking =>
      let chunk := Z.min chunk (output_packet_limit (budget s)) in
      run ← read_run sorted first (Z.to_nat chunk);
      let chunk := fitting_count (output_charge_limit (budget s)) run 0 in
      '(result, s) ← (if negb (chunk =? 0) then do_try_post s wid (fst <$> take (Z.to_nat chunk) run)
                      else mret (kDeviceReaderPostCapacity, s));
      mret (match result with
            | kDeviceReaderPostAccepted => (true, chunk, s)
            | kDeviceReaderPostCapacity => (false, 0, s)
            | kDeviceReaderPostClosed => (false, chunk, s)
            end)
  | Blocking =>
      run ← read_run sorted first (Z.to_nat chunk);
      '(ok, s) ← do_post s wid (fst <$> run);
      mret (ok, chunk, s)
  | Charged prepare =>
      run ← read_run sorted first (Z.to_nat chunk);
      '(ok, s) ← do_post_reserved s wid (fst <$> run) (snd <$> run) prepare;
      mret (ok, chunk, s)
  end.

(** What was never posted goes back to the reader's pool. *)
Definition recycle_item s (mode : post_mode) (x : item) : outcome (device_reader_session_t P) :=
  pool ← pool_reuse (reader_buffer_pool s) (fst x);
  let s := set_pool s pool in
  match mode with Charged _ => deviceReaderSessionReleaseOutput s (snd x) | _ => mret s end.

Fixpoint recycle_loop s (mode : post_mode) (sorted : list (option item)) (i : Z) (n : nat)
  : outcome (device_reader_session_t P) :=
  match n with
  | O => mret s
  | S n' =>
      cell ← arr_get sorted i;
      x ← match cell with Some x => mret x | None => Fail NotModelled end;
      s ← recycle_item s mode x;
      recycle_loop s mode sorted (i + 1) n'
  end.

(** [while (remaining > 0)] of one bucket; each accepted turn takes a buffer. *)
Fixpoint bucket_loop (fuel : nat) s (mode : post_mode) (sorted : list (option item))
    (wid offset posted remaining total : Z) : outcome (bool * device_reader_session_t P) :=
  match fuel with
  | O => Fail NotModelled
  | S fuel' =>
      if negb (remaining >? 0) then mret (true, s)
      else
        '(accepted, chunk, s) ← post_turn s mode sorted wid (offset + posted) remaining;
        if negb accepted then
          let first_unposted := offset + posted + chunk in
          s ← recycle_loop s mode sorted first_unposted (Z.to_nat (total - first_unposted));
          mret (false, s)
        else bucket_loop fuel' s mode sorted wid offset (wrap16 (posted + chunk)) (wrap16 (remaining - chunk)) total
  end.

Fixpoint buckets_loop s (mode : post_mode) (sorted : list (option item)) (counts offsets : list Z) (wid total : Z)
  : outcome (bool * device_reader_session_t P) :=
  match counts, offsets with
  | c :: counts, offset :: offsets =>
      '(ok, s) ← bucket_loop (S (Z.to_nat c)) s mode sorted wid offset 0 c total;
      if negb ok then mret (false, s)
      else buckets_loop s mode sorted counts offsets (wid + 1) total
  | _, _ => mret (true, s)
  end.

Definition deviceFlowAffinityPostSorted s (mode : post_mode) (dispatch : list item) (wids : list Z)
  : outcome (bool * device_reader_session_t P) :=
  counts ← count_loop wids (replicate (Z.to_nat kDeviceFlowAffinityBuckets) 0);
  let '(offsets, last) := offset_loop counts 0 in
  _ ← assert_ (last =? zlen dispatch);
  sorted ← place_loop dispatch wids offsets (replicate (Z.to_nat kDeviceFlowAffinityMaxDispatch) None);
  buckets_loop s mode sorted counts offsets 0 (zlen dispatch).

(** ** Distribution *)

Fixpoint recycle_list s (mode : post_mode) (l : list item) : outcome (device_reader_session_t P) :=
  match l with
  | [] => mret s
  | x :: l => s ← recycle_item s mode x; recycle_list s mode l
  end.

(** The buffers come with the clock values of their offers; the loop takes at
    least one of them per turn. *)
Fixpoint distribute_loop (fuel : nat) s (bufs : list (sbuf_t * Z)) (mode : post_mode)
  : outcome (device_reader_session_t P) :=
  match fuel with
  | O => Fail NotModelled
  | S fuel' =>
      match bufs with
      | [] => mret s
      | _ =>
          let chunk_count := Z.to_nat (Z.min (zlen bufs) kDeviceFlowAffinityMaxBatch) in
          '(dispatch, s) ← append_loop s (take chunk_count bufs) [];
          '(admitted, s) ← deviceFlowAffinityPostSorted s mode ((fun x => (fst x, 0)) <$> dispatch) (snd <$> dispatch);
          let rest := drop chunk_count bufs in
          if negb admitted then recycle_list s mode ((fun x => (fst x, 0)) <$> rest)
          else distribute_loop fuel' s rest mode
      end
  end.

Definition deviceReaderDistributeBatchInternal s (bufs : list (sbuf_t * Z)) (nonblocking : bool)
  : outcome (device_reader_session_t P) :=
  distribute_loop (S (length bufs)) s bufs (if nonblocking then NonBlocking else Blocking).

Definition deviceReaderDistributeBatch s (bufs : list (sbuf_t * Z)) : outcome (device_reader_session_t P) :=
  deviceReaderDistributeBatchInternal s bufs false.

Definition deviceReaderDistributeBatchDroppingOverflow s (bufs : list (sbuf_t * Z))
  : outcome (device_reader_session_t P) :=
  _ ← assert_ (match worker_queues s with Some _ => true | None => false end);
  _ ← assert_ (negb (output_charge_limit (budget s) =? 0));
  deviceReaderDistributeBatchInternal s bufs true.

(** The workers of segments that need no fragment table. *)
Fixpoint select_loop s (bufs : list item) : outcome (list Z * device_reader_session_t P) :=
  match bufs with
  | [] => mret ([], s)
  | (b, _) :: l =>
      '(wid, s) ← deviceReaderSelectWID s 0 1 b;
      '(wids, s) ← select_loop s l;
      mret (wrap8 wid :: wids, s)
  end.

Fixpoint gso_loop (fuel : nat) s (bufs : list item) (prepare : sbuf_t -> sbuf_t)
  : outcome (device_reader_session_t P) :=
  match fuel with
  | O => Fail NotModelled
  | S fuel' =>
      match bufs with
      | [] => mret s
      | _ =>
          let chunk_count := Z.to_nat (Z.min (zlen bufs) kDeviceFlowAffinityMaxBatch) in
          '(wids, s) ← select_loop s (take chunk_count bufs);
          '(admitted, s) ← deviceFlowAffinityPostSorted s (Charged prepare) (take chunk_count bufs) wids;
          let rest := drop chunk_count bufs in
          if negb admitted then recycle_list s (Charged prepare) rest
          else gso_loop fuel' s rest prepare
      end
  end.

(** [charges] has a cell for each buffer; an item is a buffer with its cell. *)
Definition deviceReaderDistributeGsoBatch s (bufs : list item) (prepare : sbuf_t -> sbuf_t)
  : outcome (device_reader_session_t P) := gso_loop (S (length bufs)) s bufs prepare.
End Distribution.

(** Posting through a session: [env] is what its threads decide, [wait] the
    waiting of a blocking post. *)
Definition session_posting `{Allocator} {P} `{PoolOps P} (env : post_env) (still_open : bool)
    (wait : device_reader_session_t P -> Z -> Z -> outcome (bool * device_reader_session_t P)) : Posting P := {|
  do_try_post s wid bufs := deviceReaderSessionTryPost s env wid bufs still_open;
  do_post s wid bufs := '(ok, _, s) ← deviceReaderSessionPost wait s env wid bufs; mret (ok, s);
  do_post_reserved s wid bufs charges prepare :=
    '(ok, _, s) ← deviceReaderSessionPostReserved s env wid bufs charges prepare; mret (ok, s)
|}.
