(* ===== verification/BatchSort.v ===== *)
(** * The counting sort of a batch

    What [deviceFlowAffinityPostSorted] of [FlowAffinity] computes: the arrays of
    counts, offsets and positions are those of the groups of packets per worker,
    the sorted array is their concatenation, and the posting loops are loops over
    the groups.  The reference definitions work on the groups alone. *)

From Stdlib Require Import ZArith Lia.
From stdpp Require Import base numbers option list.
From S2P Require Import Prelude ShiftBuffer PoolInterface FlowHash FragAffinity FragInvariant ReaderSession.
From S2P Require Import FlowAffinity.
Open Scope Z_scope.
Open Scope word_scope.

(** ** Arrays given by a function of the index *)

Definition table_of {A} (n : nat) (f : nat -> A) : list A := f <$> seq 0 n.
Arguments table_of : simpl never.

Section Tables.
Context {A : Type}.
Implicit Types (f g : nat -> A) (n : nat).

Lemma table_lookup n f i : (i < n)%nat -> table_of n f !! i = Some (f i).
Proof. intros Hi. unfold table_of. rewrite list_lookup_fmap, lookup_seq_lt by done. done. Qed.

Lemma table_length n f : length (table_of n f) = n.
Proof. unfold table_of. by rewrite length_fmap, length_seq. Qed.

Lemma table_ext n f g : (forall i, (i < n)%nat -> f i = g i) -> table_of n f = table_of n g.
Proof.
  intros E. apply list_eq. intros i. destruct (decide (i < n)%nat) as [Hi|Hi].
  - by rewrite !table_lookup, E.
  - by rewrite !lookup_ge_None_2 by (rewrite table_length; lia).
Qed.

Lemma table_insert n f i a :
  (i < n)%nat -> <[i := a]> (table_of n f) = table_of n (fun k => if decide (k = i) then a else f k).
Proof.
  intros Hi. apply list_eq. intros k. destruct (decide (k < n)%nat) as [Hk|Hk].
  - rewrite (table_lookup n) by done. destruct (decide (k = i)) as [->|Hne].
    + by rewrite list_lookup_insert_eq by (by rewrite table_length).
    + by rewrite list_lookup_insert_ne, table_lookup.
  - by rewrite !lookup_ge_None_2 by (rewrite ?length_insert, table_length; lia).
Qed.

Lemma table_get n f w : 0 <= w < Z.of_nat n -> arr_get (table_of n f) w = Ok (f (Z.to_nat w)).
Proof. intros Hw. apply arr_get_ok; [lia|]. apply table_lookup. lia. Qed.

Lemma table_set n f w a :
  0 <= w < Z.of_nat n ->
  arr_set (table_of n f) w a = Ok (table_of n (fun k => if decide (k = Z.to_nat w) then a else f k)).
Proof.
  intros Hw. rewrite arr_set_ok by (unfold zlen; rewrite table_length; lia). by rewrite table_insert by lia.
Qed.
End Tables.

(** ** Groups and their concatenation *)

Section Concat.
Context {A : Type}.
Implicit Types (gs : list (list A)) (i j p : nat).

(** Where group [i] begins. *)
Definition group_start gs i : nat := length (concat (take i gs)).

Lemma group_start_step gs i g : gs !! i = Some g -> group_start gs (S i) = (group_start gs i + length g)%nat.
Proof. intros E. unfold group_start. by rewrite (take_S_r gs i g E), concat_app, length_app, concat_cons, app_nil_r. Qed.

Lemma group_start_mono gs i k : (i <= k)%nat -> (group_start gs i <= group_start gs k)%nat.
Proof.
  intros Hik. unfold group_start. rewrite <- (take_drop i (take k gs)), take_take, Nat.min_l by done.
  rewrite concat_app, length_app. lia.
Qed.

Lemma group_start_total gs i : (group_start gs i <= length (concat gs))%nat.
Proof. unfold group_start. rewrite <- (take_drop i gs) at 2. rewrite concat_app, length_app. lia. Qed.

Lemma concat_split gs i g :
  gs !! i = Some g -> concat gs = concat (take i gs) ++ g ++ concat (drop (S i) gs).
Proof. intros E. rewrite <- (take_drop_middle gs i g E) at 1. by rewrite concat_app, concat_cons. Qed.

Lemma concat_lookup gs i j g x :
  gs !! i = Some g -> g !! j = Some x -> concat gs !! (group_start gs i + j)%nat = Some x.
Proof.
  intros E Ej. rewrite (concat_split gs i g E). unfold group_start.
  rewrite lookup_app_r by lia. replace (_ + _ - _)%nat with j by lia. rewrite lookup_app_l; [done|].
  by apply lookup_lt_Some in Ej.
Qed.

Lemma concat_lookup_inv gs p x :
  concat gs !! p = Some x ->
  exists i j g, gs !! i = Some g /\ g !! j = Some x /\ p = (group_start gs i + j)%nat.
Proof.
  revert p. induction gs as [|g gs IH]; intros p E; [done|]. rewrite concat_cons in E.
  apply lookup_app_Some in E as [E|[Hp E]]; [by exists 0%nat, p, g|].
  apply IH in E as (i & j & g' & Hi & Hj & Ep). exists (S i), j, g'. splits; auto.
  unfold group_start in *. simpl. rewrite length_app. lia.
Qed.

(** Cells of different groups are different. *)
Lemma group_cells gs i1 j1 g1 i2 j2 g2 :
  gs !! i1 = Some g1 -> gs !! i2 = Some g2 -> (j1 < length g1)%nat -> (j2 < length g2)%nat ->
  (group_start gs i1 + j1 = group_start gs i2 + j2)%nat -> i1 = i2 /\ j1 = j2.
Proof.
  intros E1 E2 H1 H2 E. pose proof (group_start_step _ _ _ E1). pose proof (group_start_step _ _ _ E2).
  destruct (lt_eq_lt_dec i1 i2) as [[Hlt| ->]|Hlt]; [|lia|].
  - pose proof (group_start_mono gs (S i1) i2). lia.
  - pose proof (group_start_mono gs (S i2) i1). lia.
Qed.

Lemma concat_insert_perm gs i g x : gs !! i = Some g -> concat (<[i := x :: g]> gs) ≡ₚ x :: concat gs.
Proof.
  revert i. induction gs as [|h gs IH]; intros [|i] E; simpl in *; [done|done|by injection E as ->|].
  rewrite (IH i E). symmetry. apply Permutation_middle.
Qed.
End Concat.

Lemma offsets_spec {A} (gs : list (list A)) (offset : Z) :
  0 <= offset -> offset + zlen (concat gs) <= UINT16_MAX ->
  offset_loop (zlen <$> gs) offset =
    (table_of (length gs) (fun w => offset + Z.of_nat (group_start gs w)), offset + zlen (concat gs)).
Proof.
  revert offset. induction gs as [|g gs IH]; intros offset H0 H1; simpl.
  { by rewrite zlen_nil, Z.add_0_r. }
  rewrite concat_cons in H1. rewrite zlen_app in H1 |- *. pose proof (zlen_nonneg g). pose proof (zlen_nonneg (concat gs)).
  rewrite wrap16_small by lia. rewrite IH by lia. f_equal; [|lia].
  unfold table_of. cbn [seq fmap list_fmap]. f_equal; [unfold group_start; simpl; lia|].
  rewrite <- fmap_S_seq, <- list_fmap_compose. apply list_fmap_ext. intros _ w _. simpl.
  unfold group_start, zlen. simpl. rewrite length_app. lia.
Qed.

(** ** The groups of a batch *)

Definition of_worker (w : nat) (l : list (item * Z)) : list item :=
  fst <$> filter (fun x => snd x = Z.of_nat w) l.

Definition groups (l : list (item * Z)) : list (list item) := table_of 256 (fun w => of_worker w l).

Lemma of_worker_cons w x v l :
  of_worker w ((x, v) :: l) = if decide (v = Z.of_nat w) then x :: of_worker w l else of_worker w l.
Proof. unfold of_worker. rewrite filter_cons. simpl. by destruct (decide (v = Z.of_nat w)). Qed.

Lemma of_worker_app w l k : of_worker w (l ++ k) = of_worker w l ++ of_worker w k.
Proof. unfold of_worker. by rewrite filter_app, fmap_app. Qed.

Lemma of_worker_length w l : (length (of_worker w l) <= length l)%nat.
Proof. unfold of_worker. rewrite length_fmap. apply length_filter. Qed.

Definition wids_ok (l : list (item * Z)) : Prop := Forall (fun x => u8 (snd x)) l.

Lemma groups_cons x v l :
  u8 v -> groups ((x, v) :: l) = <[Z.to_nat v := x :: of_worker (Z.to_nat v) l]> (groups l).
Proof.
  unfold u8, UINT8_MAX, groups. intros Hv. rewrite table_insert by lia. apply table_ext. intros w Hw.
  rewrite of_worker_cons. repeat case_decide; try lia; [by subst w|done].
Qed.

Lemma groups_lookup l w : (w < 256)%nat -> groups l !! w = Some (of_worker w l).
Proof. intros Hw. by apply (table_lookup 256 (fun w => of_worker w l)). Qed.

Lemma groups_lookup_inv l w g : groups l !! w = Some g -> (w < 256)%nat /\ g = of_worker w l.
Proof.
  intros E. assert (w < 256)%nat as Hw by (apply lookup_lt_Some in E; unfold groups in E; by rewrite table_length in E).
  rewrite groups_lookup in E by done. by injection E as <-.
Qed.

Lemma groups_perm l : wids_ok l -> concat (groups l) ≡ₚ l.*1.
Proof.
  induction 1 as [|[x v] l Hv F IH]; [done|]. simpl in Hv. rewrite groups_cons by done. unfold u8, UINT8_MAX in Hv.
  rewrite concat_insert_perm by (apply groups_lookup; lia). by rewrite fmap_cons, IH.
Qed.

Lemma groups_total l : wids_ok l -> length (concat (groups l)) = length l.
Proof. intros F. by rewrite (groups_perm l F), length_fmap. Qed.

Lemma count_spec l (f : nat -> Z) :
  wids_ok l -> (forall w, 0 <= f w /\ f w + zlen l <= UINT16_MAX) ->
  count_loop l.*2 (table_of 256 f) = Ok (table_of 256 (fun w => f w + zlen (of_worker w l))).
Proof.
  intros F. revert f. induction F as [|[x v] l Hv F IH]; intros f Hf.
  { simpl. f_equal. apply table_ext. intros w _. change (of_worker w []) with (@nil item). rewrite zlen_nil. lia. }
  simpl in Hv |- *. unfold u8, UINT8_MAX in Hv. rewrite table_get by lia. step_ok. rewrite table_set by lia. step_ok.
  pose proof (zlen_nonneg l). rewrite IH.
  - f_equal. apply table_ext. intros w Hw. rewrite of_worker_cons. pose proof (Hf w) as Hfw. rewrite zlen_cons in Hfw.
    repeat case_decide; try lia; subst w. rewrite wrap16_small, zlen_cons by lia. lia.
  - intros w. pose proof (Hf w) as Hfw. rewrite zlen_cons in Hfw. case_decide; [subst w; rewrite wrap16_small by lia|]; lia.
Qed.

(** ** Placing *)

Section Place.
Context (all : list (item * Z)) (F : wids_ok all) (Hall : zlen all <= kDeviceFlowAffinityMaxDispatch).

Definition start (w : nat) : nat := group_start (groups all) w.

(** The packets handled so far are in the cells of their groups. *)
Definition placed (seen : list (item * Z)) (sorted : list (option item)) : Prop :=
  forall w j x, (w < 256)%nat -> of_worker w seen !! j = Some x -> sorted !! (start w + j)%nat = Some (Some x).

Lemma placed_step seen x v todo sorted :
  all = seen ++ (x, v) :: todo -> u8 v -> length sorted = Z.to_nat kDeviceFlowAffinityMaxDispatch ->
  placed seen sorted ->
  let p := (start (Z.to_nat v) + length (of_worker (Z.to_nat v) seen))%nat in
  (p < length all)%nat /\ placed (seen ++ [(x, v)]) (<[p := Some x]> sorted).
Proof.
  intros Ea Hv Hs Pl p. unfold u8, UINT8_MAX in Hv.
  assert (forall w, of_worker w seen `prefix_of` of_worker w all) as Pre.
  { intros w. rewrite Ea, of_worker_app. by eexists. }
  assert (groups all !! Z.to_nat v = Some (of_worker (Z.to_nat v) all)) as Eg by (apply groups_lookup; lia).
  assert (length (of_worker (Z.to_nat v) seen) < length (of_worker (Z.to_nat v) all))%nat as Hlt.
  { rewrite Ea, of_worker_app, length_app, of_worker_cons, decide_True by lia. simpl. lia. }
  assert (p < length all)%nat as Hp.
  { pose proof (group_start_step _ _ _ Eg). pose proof (group_start_total (groups all) (S (Z.to_nat v))) as Ht.
    rewrite groups_total in Ht by done. subst p. unfold start. lia. }
  split; [done|]. intros w j y Hw Ey. rewrite of_worker_app in Ey.
  apply lookup_app_Some in Ey as [Ey|[Hj Ey]].
  - apply lookup_lt_Some in Ey as Hj. rewrite list_lookup_insert_ne; [by apply Pl|]. intros Ep. subst p.
    pose proof (prefix_length _ _ (Pre w)).
    destruct (group_cells _ _ _ _ w j _ Eg (groups_lookup all w Hw) Hlt ltac:(lia) Ep) as [<- Ej]. lia.
  - rewrite of_worker_cons in Ey. change (of_worker w []) with (@nil item) in Ey. case_decide as Hvw; [|done].
    assert (w = Z.to_nat v) as -> by lia. destruct (_ - _)%nat as [|k] eqn:Ek; [|done].
    injection Ey as <-. assert (j = length (of_worker (Z.to_nat v) seen)) as -> by lia.
    apply list_lookup_insert_eq. rewrite Hs. unfold zlen in Hall. lia.
Qed.

Lemma place_spec todo : forall seen sorted,
  all = seen ++ todo -> length sorted = Z.to_nat kDeviceFlowAffinityMaxDispatch -> placed seen sorted ->
  exists sorted', place_loop todo.*1 todo.*2
      (table_of 256 (fun w => Z.of_nat (start w) + zlen (of_worker w seen))) sorted = Ok sorted' /\
    length sorted' = Z.to_nat kDeviceFlowAffinityMaxDispatch /\ placed all sorted'.
Proof.
  induction todo as [|[x v] todo IH]; intros seen sorted Ea Hs Pl.
  { rewrite app_nil_r in Ea. subst seen. by exists sorted. }
  assert (u8 v) as Hv.
  { unfold wids_ok in F. rewrite Ea in F. apply Forall_app in F as [_ F2]. by apply Forall_cons in F2 as [? _]. }
  destruct (placed_step seen x v todo sorted Ea Hv Hs Pl) as [Hp Pl']. pose proof Hv as Hv'. unfold u8, UINT8_MAX in Hv'.
  cbn [place_loop fmap list_fmap fst snd]. rewrite table_get by lia. step_ok. rewrite table_set by lia. step_ok.
  unfold zlen, kDeviceFlowAffinityMaxDispatch in *. rewrite arr_set_ok by (unfold zlen; lia). step_ok.
  rewrite <- Nat2Z.inj_add, Nat2Z.id.
  destruct (IH (seen ++ [(x, v)]) (<[(start (Z.to_nat v) + length (of_worker (Z.to_nat v) seen))%nat := Some x]> sorted))
    as (sorted' & E & ?); [by rewrite <- app_assoc|by rewrite length_insert|done|].
  exists sorted'. split; [|done]. rewrite <- E. f_equal. apply table_ext. intros w Hw.
  rewrite of_worker_app, length_app, of_worker_cons. change (of_worker w []) with (@nil item).
  repeat case_decide; try lia; simpl; [|lia]. subst w.
  unfold kDeviceFlowAffinityMaxBatch, kDeviceFragAffinityMaxStaged in Hall. rewrite wrap16_small by word_lia. lia.
Qed.

Lemma sorted_spec sorted :
  length sorted = Z.to_nat kDeviceFlowAffinityMaxDispatch -> placed all sorted ->
  sorted = (Some <$> concat (groups all)) ++ drop (length all) sorted.
Proof.
  intros Hs Pl. rewrite <- (take_drop (length all) sorted) at 1. f_equal. apply list_eq_same_length with (length all).
  - by rewrite length_fmap, groups_total.
  - rewrite length_take. unfold zlen in Hall. lia.
  - intros p x y Hp Ex Ey. rewrite lookup_take_lt in Ex by done.
    rewrite list_lookup_fmap in Ey. destruct (concat (groups all) !! p) as [z|] eqn:Ez; [|done]. injection Ey as <-.
    apply concat_lookup_inv in Ez as (w & j & g & Eg & Ej & ->).
    apply groups_lookup_inv in Eg as [Hw ->]. pose proof (Pl w j z Hw Ej) as E. unfold start in E. congruence.
Qed.
End Place.

(** ** Posting by groups *)

(** What the distribution relies on: posting leaves the configuration of the
    session alone, and its two counters are unsigned. *)
Definition same_limits {P} (s s' : device_reader_session_t P) : Prop :=
  batch_capacity s' = batch_capacity s /\
  output_charge_limit (budget s') = output_charge_limit (budget s) /\
  output_packet_limit (budget s') = output_packet_limit (budget s).

#[export] Instance same_limits_equiv {P} : Equivalence (@same_limits P).
Proof.
  unfold same_limits. split; [done|intros ? ?; intuition congruence|intros ? ? ?; intuition congruence].
Qed.

Definition limits_ok {P} (s : device_reader_session_t P) : Prop :=
  0 < batch_capacity s /\ 0 <= output_packet_limit (budget s).

Lemma same_limits_ok {P} (s s' : device_reader_session_t P) : same_limits s s' -> limits_ok s -> limits_ok s'.
Proof. unfold same_limits, limits_ok. intuition congruence. Qed.

Class PostingLaws (P : Type) `{Posting P} : Prop := {
  try_post_keeps s wid bufs r s' : do_try_post s wid bufs = Ok (r, s') -> same_limits s s';
  post_keeps s wid bufs ok s' : do_post s wid bufs = Ok (ok, s') -> same_limits s s';
  post_reserved_keeps s wid bufs charges prepare ok s' :
    do_post_reserved s wid bufs charges prepare = Ok (ok, s') -> same_limits s s'
}.

Section Reference.
Context `{Allocator} {P : Type} `{PoolOps P} `{PostingLaws P}.
Implicit Types (s : device_reader_session_t P).

(** One post of the front of a group: whether it was accepted, and how many
    packets it took over. *)
Definition front_turn s (mode : post_mode) (wid : Z) (group : list item)
  : outcome (bool * nat * device_reader_session_t P) :=
  let front := take (Z.to_nat (batch_capacity s)) group in
  match mode with
  | NonBlocking =>
      let front := take (Z.to_nat (output_packet_limit (budget s))) front in
      let chunk := Z.to_nat (fitting_count (output_charge_limit (budget s)) front 0) in
      match chunk with
      | O => mret (false, O, s)
      | _ =>
          '(result, s) ← do_try_post s wid (fst <$> take chunk front);
          mret (match result with
                | kDeviceReaderPostAccepted => (true, chunk, s)
                | kDeviceReaderPostCapacity => (false, O, s)
                | kDeviceReaderPostClosed => (false, chunk, s)
                end)
      end
  | Blocking => '(ok, s) ← do_post s wid (fst <$> front); mret (ok, length front, s)
  | Charged prepare =>
      '(ok, s) ← do_post_reserved s wid (fst <$> front) (snd <$> front) prepare; mret (ok, length front, s)
  end.

(** A group is posted front by front; after a refusal what is left of it and
    [rest], the later groups, goes back to the pool. *)
Fixpoint post_group (fuel : nat) s (mode : post_mode) (wid : Z) (group rest : list item)
  : outcome (bool * device_reader_session_t P) :=
  match fuel with
  | O => Fail NotModelled
  | S fuel' =>
      match group with
      | [] => mret (true, s)
      | _ =>
          '(accepted, chunk, s) ← front_turn s mode wid group;
          if negb accepted then s ← recycle_list s mode (drop chunk group ++ rest); mret (false, s)
          else post_group fuel' s mode wid (drop chunk group) rest
      end
  end.

Fixpoint post_groups s (mode : post_mode) (wid : Z) (gs : list (list item))
  : outcome (bool * device_reader_session_t P) :=
  match gs with
  | [] => mret (true, s)
  | g :: gs =>
      '(ok, s) ← post_group (S (length g)) s mode wid g (concat gs);
      if negb ok then mret (false, s) else post_groups s mode (wid + 1) gs
  end.

Lemma read_run_spec (flat : list item) (tail : list (option item)) (first : nat) (n : nat) :
  (first + n <= length flat)%nat ->
  read_run ((Some <$> flat) ++ tail) (Z.of_nat first) n = Ok (take n (drop first flat)).
Proof.
  revert first. induction n as [|n IH]; intros first Hl; [done|]. cbn [read_run].
  destruct (lookup_lt_is_Some_2 flat first ltac:(lia)) as [x Ex].
  rewrite (arr_get_ok _ _ (Some x)); [|lia|].
  - step_ok. replace (Z.of_nat first + 1) with (Z.of_nat (S first)) by lia. rewrite IH by lia. step_ok.
    by rewrite (drop_S flat x first Ex).
  - rewrite Nat2Z.id, lookup_app_l, list_lookup_fmap, Ex; [done|]. rewrite length_fmap. lia.
Qed.

Lemma recycle_spec mode (flat : list item) (tail : list (option item)) (n : nat) : forall first s,
  (first + n = length flat)%nat ->
  recycle_loop s mode ((Some <$> flat) ++ tail) (Z.of_nat first) n = recycle_list s mode (drop first flat).
Proof.
  induction n as [|n IH]; intros first s Hl.
  { by rewrite drop_ge by lia. }
  cbn [recycle_loop]. destruct (lookup_lt_is_Some_2 flat first ltac:(lia)) as [x Ex].
  rewrite (arr_get_ok _ _ (Some x)); [|lia|].
  - step_ok. rewrite (drop_S flat x first Ex). cbn [recycle_list]. destruct (recycle_item s mode x); [|done]. step_ok.
    replace (Z.of_nat first + 1) with (Z.of_nat (S first)) by lia. apply IH. lia.
  - rewrite Nat2Z.id, lookup_app_l, list_lookup_fmap, Ex; [done|]. rewrite length_fmap. lia.
Qed.

Lemma fitting_bound limit l charge : 0 <= fitting_count limit l charge <= zlen l.
Proof.
  revert charge. induction l as [|[b c] l IH]; intros charge; [done|]. cbn [fitting_count]. rewrite zlen_cons.
  destruct (_ >? _); [pose proof (zlen_nonneg l); lia|]. specialize (IH (charge +64 sbufGetAllocationCharge b)). lia.
Qed.

(** A turn on the sorted array is a turn on what is left of the group. *)
Lemma turn_spec s mode (flat : list item) tail (wid : Z) (first : nat) (group rest : list item) :
  drop first flat = group ++ rest -> (first + length group <= length flat)%nat -> 0 <= batch_capacity s ->
  0 <= output_packet_limit (budget s) ->
  post_turn s mode ((Some <$> flat) ++ tail) wid (Z.of_nat first) (zlen group) =
    ('(ok, chunk, s) ← front_turn s mode wid group; mret (ok, Z.of_nat chunk, s)).
Proof.
  intros Ed Hl Hb Hp. unfold post_turn, front_turn. cbv zeta.
  assert (forall n, 0 <= n -> read_run ((Some <$> flat) ++ tail) (Z.of_nat first) (Z.to_nat (Z.min (zlen group) n)) =
    Ok (take (Z.to_nat n) group)) as Hr.
  { intros n Hn. rewrite read_run_spec by (unfold zlen; lia). f_equal. rewrite Ed.
    unfold zlen. rewrite Z2Nat.inj_min, Nat2Z.id. rewrite take_app_le by lia.
    destruct (Nat.le_ge_cases (length group) (Z.to_nat n)) as [Hc|Hc]; [rewrite Nat.min_l, !take_ge by lia; done|].
    by rewrite Nat.min_r by lia. }
  assert (forall n, 0 <= n -> Z.min (zlen group) n = Z.of_nat (length (take (Z.to_nat n) group))) as Hlen.
  { intros n Hn. rewrite length_take. unfold zlen. lia. }
  destruct mode as [| |prepare].
  - rewrite <- Z.min_assoc, Hr by lia. step_ok.
    assert (take (Z.to_nat (output_packet_limit (budget s))) (take (Z.to_nat (batch_capacity s)) group) =
      take (Z.to_nat (batch_capacity s `min` output_packet_limit (budget s))) group) as ->
      by (rewrite take_take, <- Z2Nat.inj_min; do 2 f_equal; lia).
    set (front := take (Z.to_nat (_ `min` _)) group). pose proof (fitting_bound (output_charge_limit (budget s)) front 0) as Hf.
    set (fit := fitting_count _ front 0) in *. destruct (Z.to_nat fit) as [|n] eqn:En.
    + by rewrite (proj2 (Z.eqb_eq fit 0)) by lia.
    + rewrite (proj2 (Z.eqb_neq fit 0)) by lia. cbn [negb]. destruct (do_try_post _ _ _) as [[r s1]|]; [|done]. step_ok.
      destruct r; step_ok; repeat f_equal; lia.
  - rewrite Hr, Hlen by lia. step_ok. by destruct (do_post _ _ _) as [[ok s1]|].
  - rewrite Hr, Hlen by lia. step_ok. by destruct (do_post_reserved _ _ _ _ _) as [[ok s1]|].
Qed.

Lemma front_turn_inv s mode wid group ok chunk s' :
  front_turn s mode wid group = Ok (ok, chunk, s') -> group <> [] -> limits_ok s ->
  same_limits s s' /\ (chunk <= length group)%nat /\ (ok = true -> (0 < chunk)%nat).
Proof.
  intros E Hg [Hb Hp]. unfold front_turn in E. cbv zeta in E.
  assert (0 < length group)%nat as Hl by (destruct group; [done|simpl; lia]).
  destruct mode as [| |prepare].
  - set (front := take _ (take _ group)) in E.
    pose proof (fitting_bound (output_charge_limit (budget s)) front 0) as Hf.
    assert (zlen front <= zlen group) by (unfold zlen, front; rewrite !length_take; lia). unfold zlen in *.
    destruct (Z.to_nat (fitting_count _ front 0)) as [|n] eqn:En; [invert_ok; split; [done|lia]|].
    apply bind_Ok in E as ([r s1] & E & Er). apply try_post_keeps in E.
    destruct r; injection Er as <- <- <-; (split; [done|lia]).
  - apply bind_Ok in E as ([r s1] & E & [= <- <- <-]). apply post_keeps in E. rewrite length_take. split; [done|lia].
  - apply bind_Ok in E as ([r s1] & E & [= <- <- <-]). apply post_reserved_keeps in E. rewrite length_take.
    split; [done|lia].
Qed.

Lemma bucket_spec mode (pre group rest : list item) tail wid : forall fuel s k,
  limits_ok s -> (k <= length group)%nat -> zlen (pre ++ group ++ rest) <= UINT16_MAX ->
  bucket_loop fuel s mode ((Some <$> pre ++ group ++ rest) ++ tail) wid (zlen pre) (Z.of_nat k)
      (zlen group - Z.of_nat k) (zlen (pre ++ group ++ rest)) =
    post_group fuel s mode wid (drop k group) rest.
Proof.
  induction fuel as [|fuel IH]; intros s k L Hk Hm; [done|]. cbn [bucket_loop post_group].
  destruct (drop k group) as [|x l] eqn:Ed.
  { apply (f_equal length) in Ed. rewrite length_drop in Ed. simpl in Ed. unfold zlen.
    destruct (Z.gtb_spec (Z.of_nat (length group) - Z.of_nat k) 0); [lia|done]. }
  rewrite <- Ed. assert (length group - k = length (drop k group))%nat as El by (by rewrite length_drop).
  assert (0 < length (drop k group))%nat by (rewrite Ed; simpl; lia).
  assert (drop (length pre + k) (pre ++ group ++ rest) = drop k group ++ rest) as Edr
    by (rewrite drop_app_add', drop_app_le by lia; done).
  unfold zlen in *. destruct (Z.gtb_spec (Z.of_nat (length group) - Z.of_nat k) 0); [|lia]. cbn [negb].
  replace (Z.of_nat (length pre) + Z.of_nat k) with (Z.of_nat (length pre + k)) by lia.
  replace (Z.of_nat (length group) - Z.of_nat k) with (zlen (drop k group)) by (unfold zlen; lia).
  rewrite !length_app in Hm. rewrite (turn_spec s mode (pre ++ group ++ rest) tail wid (length pre + k) (drop k group) rest);
    [|done|rewrite !length_app; lia|destruct L; lia|apply L].
  destruct (front_turn s mode wid (drop k group)) as [[[ok chunk] s1]|] eqn:Ef; [|done]. step_ok.
  apply front_turn_inv in Ef as (Sl & Hc & _); [|by rewrite Ed|done]. destruct ok; cbn [negb].
  - unfold UINT16_MAX in Hm. rewrite !wrap16_small by (unfold zlen; word_lia).
    rewrite drop_drop, <- (IH s1 (k + chunk)%nat); [|by eapply same_limits_ok|lia|rewrite !length_app; unfold UINT16_MAX; lia].
    f_equal; unfold zlen; lia.
  - replace (Z.of_nat (length pre + k) + Z.of_nat chunk) with (Z.of_nat (length pre + k + chunk)) by lia.
    rewrite recycle_spec by (rewrite !length_app; lia). rewrite <- drop_drop, Edr, drop_app_le by lia. done.
Qed.

Lemma post_group_keeps mode wid : forall fuel s group rest ok s',
  limits_ok s -> post_group fuel s mode wid group rest = Ok (ok, s') -> ok = true -> same_limits s s'.
Proof.
  induction fuel as [|fuel IH]; intros s group rest ok s' L E Hok; [done|]. cbn [post_group] in E.
  destruct group as [|x l]; [by injection E as _ <-|]. apply bind_Ok in E as ([[ok1 chunk] s1] & Ef & E).
  apply front_turn_inv in Ef as (Sl & _); [|done|done]. destruct ok1; cbn [negb] in E.
  - trans s1; [done|]. eapply IH; [by eapply same_limits_ok|exact E|done].
  - apply bind_Ok in E as (s2 & _ & E). injection E as <- _. done.
Qed.

Lemma buckets_spec mode tail : forall gs pre s wid,
  limits_ok s -> zlen (pre ++ concat gs) <= UINT16_MAX ->
  buckets_loop s mode ((Some <$> pre ++ concat gs) ++ tail) (zlen <$> gs)
      (table_of (length gs) (fun w => zlen pre + Z.of_nat (group_start gs w))) wid (zlen (pre ++ concat gs)) =
    post_groups s mode wid gs.
Proof.
  induction gs as [|g gs IH]; intros pre s wid L Hm; [done|]. rewrite concat_cons in *.
  unfold table_of. cbn [length seq fmap list_fmap buckets_loop post_groups].
  replace (zlen pre + Z.of_nat (group_start (g :: gs) 0)) with (zlen pre) by (unfold group_start; simpl; lia).
  replace (S (Z.to_nat (zlen g))) with (S (length g)) by (unfold zlen; lia).
  pose proof (bucket_spec mode pre g (concat gs) tail wid (S (length g)) s 0 L ltac:(lia) Hm) as Eb.
  rewrite Z.sub_0_r, drop_0 in Eb. change (Z.of_nat 0) with 0 in Eb. rewrite Eb.
  destruct (post_group (S (length g)) s mode wid g (concat gs)) as [[ok s1]|] eqn:Eg; [|done]. step_ok.
  destruct ok; cbn [negb]; [|done]. apply post_group_keeps in Eg; [|done|done].
  rewrite <- (IH (pre ++ g) s1 (wid + 1)); [|by eapply same_limits_ok|by rewrite <- app_assoc].
  rewrite <- !app_assoc. f_equal. rewrite <- fmap_S_seq, <- list_fmap_compose. apply list_fmap_ext. intros _ w _.
  unfold group_start. simpl. rewrite zlen_app, length_app. unfold zlen. lia.
Qed.

(** The sort and its loops post the groups. *)
Lemma sorted_is_grouped s mode (l : list (item * Z)) :
  wids_ok l -> zlen l <= kDeviceFlowAffinityMaxDispatch -> limits_ok s ->
  deviceFlowAffinityPostSorted s mode l.*1 l.*2 = post_groups s mode 0 (groups l).
Proof.
  intros F Hl L. unfold kDeviceFlowAffinityMaxDispatch, kDeviceFlowAffinityMaxBatch, kDeviceFragAffinityMaxStaged in Hl.
  unfold deviceFlowAffinityPostSorted.
  assert (replicate (Z.to_nat kDeviceFlowAffinityBuckets) 0 = table_of 256 (fun _ => 0)) as -> by done.
  rewrite count_spec by (auto; intros w; unfold UINT16_MAX; lia). step_ok.
  assert (table_of 256 (fun w => 0 + zlen (of_worker w l)) = zlen <$> groups l) as -> by done.
  assert (zlen (concat (groups l)) = zlen l) as Et by (unfold zlen; by rewrite groups_total).
  rewrite offsets_spec by (rewrite ?Et; unfold UINT16_MAX; lia). rewrite Et.
  assert (length (groups l) = 256%nat) as -> by apply table_length.
  rewrite assert_bind by (unfold zlen; rewrite length_fmap; lia).
  destruct (place_spec l F ltac:(done) l [] (replicate (Z.to_nat kDeviceFlowAffinityMaxDispatch) None) eq_refl)
    as (sorted & E & Hs & Pl); [by rewrite length_replicate|by intros w [|j] x _ ?|].
  assert (place_loop l.*1 l.*2 (table_of 256 (fun w => 0 + Z.of_nat (group_start (groups l) w)))
    (replicate (Z.to_nat kDeviceFlowAffinityMaxDispatch) None) = Ok sorted) as ->.
  { rewrite <- E. f_equal. apply table_ext. intros w _. unfold start, zlen. simpl. lia. }
  step_ok. rewrite (sorted_spec l F ltac:(done) sorted Hs Pl).
  pose proof (buckets_spec mode (drop (length l) sorted) (groups l) [] s 0 L) as Eb.
  rewrite app_nil_l, Et, zlen_nil in Eb. assert (zlen l.*1 = zlen l) as -> by (unfold zlen; by rewrite length_fmap).
  apply Eb. unfold UINT16_MAX. lia.
Qed.

(** C24. The counting sort with its 16-bit counters and its three nested loops
    posts exactly what the plain description posts, in every posting mode and
    on every error path: for each worker in turn the list of that worker's
    packets in order of arrival.  The groups together hold each dispatched
    packet once. *)
Theorem sort_posts_by_worker s mode (l : list (item * Z)) :
  wids_ok l -> zlen l <= kDeviceFlowAffinityMaxDispatch -> limits_ok s ->
  deviceFlowAffinityPostSorted s mode l.*1 l.*2 = post_groups s mode 0 (groups l) /\
  concat (groups l) ≡ₚ l.*1 /\
  forall w : nat, (w < 256)%nat -> groups l !! w = Some (fst <$> filter (fun x => snd x = Z.of_nat w) l).
Proof.
  intros F Hl L. split; [by apply sorted_is_grouped|]. split; [by apply groups_perm|]. apply groups_lookup.
Qed.
End Reference.
