(* ===== verification/ReaderFrame.v ===== *)
(** * What posting leaves alone

    Posting to a queue, and everything it may trigger (settling, cancelling,
    releasing references), changes the counters and queues of a session and, with
    the last reference, frees it.  The configuration, the generation, the
    fragment table and the reader's pool of a live session stay as they are. *)

From Stdlib Require Import ZArith Lia.
From stdpp Require Import base numbers option list.
From S2P Require Import Prelude ShiftBuffer PoolInterface FlowHash FragAffinity FragInvariant ReaderSession.
From S2P Require Import FlowAffinity BatchSort.
Open Scope Z_scope.
Open Scope word_scope.

Section Frame.
Context `{Allocator} {P : Type} `{PoolOps P}.
Implicit Types (s : device_reader_session_t P).

(** [k] bounds the references gained. *)
Record framed (k : Z) s s' : Prop := mk_framed {
  fr_limits : same_limits s s';
  fr_refs : refcount s' <= refcount s + k;
  fr_freed : freed s = true -> freed s' = true;
  fr_generation : generation s' = generation s;
  fr_mode : opaque_flow_mode s' = opaque_flow_mode s;
  fr_next : distribution_next s' = distribution_next s;
  fr_table : frag_affinity s' = frag_affinity s;
  fr_pool_set : reader_pool_set s' = reader_pool_set s;
  fr_pool : freed s' = false -> reader_buffer_pool s' = reader_buffer_pool s
}.

Lemma framed_refl k s : 0 <= k -> framed k s s.
Proof. split; auto; [done|lia]. Qed.

Lemma framed_trans k1 k2 k s1 s2 s3 :
  framed k1 s1 s2 -> framed k2 s2 s3 -> k1 + k2 <= k -> framed k s1 s3.
Proof.
  intros [L1 R1 F1 G1 M1 N1 T1 S1 P1] [L2 R2 F2 G2 M2 N2 T2 S2 P2] Hk. split; try congruence; auto; [by trans s2|lia|].
  intros Hf. rewrite P2 by done. apply P1. destruct (freed s2); [|done]. by rewrite F2 in Hf.
Qed.

Lemma framed_le k k' s s' : framed k s s' -> k <= k' -> framed k' s s'.
Proof. intros [] Hk. split; auto. lia. Qed.

Lemma set_budget_framed s x :
  output_charge_limit x = output_charge_limit (budget s) -> output_packet_limit x = output_packet_limit (budget s) ->
  framed 0 s (set_budget s x).
Proof. split; simpl; auto; [done|lia]. Qed.

Lemma put_queue_framed s wid q s' : put_queue s wid q = Ok s' -> framed 0 s s'.
Proof. unfold put_queue. intros E. invert_ok. split; simpl; auto; [done|lia]. Qed.

Lemma release_framed s charge packets s' :
  deviceReaderSessionReleaseWork s charge packets = Ok s' -> framed 0 s s'.
Proof.
  unfold deviceReaderSessionReleaseWork, release_locked, deviceReaderSessionSignalOutputCapacity. intros E. invert_ok.
  repeat case_match; split; simpl; auto; try done; lia.
Qed.

Lemma ref_framed s s' : deviceReaderSessionRef s = Ok s' -> framed 1 s s'.
Proof. unfold deviceReaderSessionRef. intros E. invert_ok. split; simpl; auto; [done|lia]. Qed.

Lemma unref_framed s s' : deviceReaderSessionUnref s = Ok s' -> framed 0 s s'.
Proof.
  unfold deviceReaderSessionUnref. intros E. apply bind_Ok in E as ([] & _ & E). apply bind_Ok in E as ([] & Ea & E).
  apply check_Ok in Ea. apply bind_Ok in E as ([] & _ & E).
  assert (refcount s -32 1 <= refcount s + 0) as Hr by (unfold wrap32; pose proof (Z.mod_le (refcount s - 1) (2 ^ 32)) as M; bool_facts; lia).
  destruct (negb (refcount s =? 1)).
  - injection E as <-. split; simpl; auto. done.
  - unfold deviceReaderSessionDestroyInternal in E. invert_ok. split; simpl; auto; done.
Qed.

Lemma cleanup_loop_framed charges n : forall s k s', cleanup_loop s charges k n = Ok s' -> framed 0 s s'.
Proof.
  induction n as [|n IH]; intros s k s' E; cbn [cleanup_loop] in E; [injection E as <-; by apply framed_refl|].
  apply bind_Ok in E as (s1 & E1 & E). apply IH in E. apply (framed_trans 0 0 0 _ s1); [|exact E|lia].
  destruct charges; [injection E1 as <-; by apply framed_refl|]. apply bind_Ok in E1 as (c & _ & E1).
  destruct (negb (c =? 0)); [by eapply release_framed|injection E1 as <-; by apply framed_refl].
Qed.

Lemma cleanup_message_framed s m s' : deviceReaderSessionCleanupMessage s m = Ok s' -> framed 0 s s'.
Proof.
  unfold deviceReaderSessionCleanupMessage. intros E. apply bind_Ok in E as (s1 & E1 & E). apply unref_framed in E.
  apply (framed_trans 0 0 0 _ s1); [|exact E|lia].
  destruct (m_work m) as [[c p]|]; [by eapply release_framed|by eapply cleanup_loop_framed].
Qed.

Lemma cleanup_all_framed l : forall s s', cleanup_all s l = Ok s' -> framed 0 s s'.
Proof.
  induction l as [|m l IH]; intros s s' E; cbn [cleanup_all] in E; [injection E as <-; by apply framed_refl|].
  apply bind_Ok in E as (s1 & E1 & E). eapply framed_trans; [by eapply cleanup_message_framed|by apply IH|lia].
Qed.

Lemma append_framed s m wid cb accept ok s' :
  deviceReaderWorkerQueueAppend s m wid cb accept = Ok (ok, s') -> framed 1 s s'.
Proof.
  unfold deviceReaderWorkerQueueAppend. intros E. apply bind_Ok in E as ([[schedule local] s1] & E1 & E).
  assert (framed 1 s s1) as F1.
  { unfold append_locked in E1. apply bind_Ok in E1 as ([] & _ & E1). apply bind_Ok in E1 as (q & _ & E1).
    destruct (wq_scheduled q).
    - apply bind_Ok in E1 as (s2 & E2 & [= _ _ <-]). eapply framed_le; [by eapply put_queue_framed|lia].
    - apply bind_Ok in E1 as (s2 & E2 & E1). apply ref_framed in E2.
      assert (forall q2 (l2 : bool) r2, (s3 ← put_queue s2 wid q2; mret (true, l2, s3)) = Ok r2 -> framed 1 s r2.2) as Hput.
      { intros q2 l2 r2 Ep. apply bind_Ok in Ep as (s3 & E3 & [= <-]).
        eapply framed_trans; [exact E2|by eapply put_queue_framed|lia]. }
      destruct (wq_burst q) as [owns|]; [destruct cb; [apply bind_Ok in E1 as ([] & _ & E1)|]|]; by apply Hput in E1. }
  destruct (negb schedule || local); [by injection E as _ <-|]. unfold deviceReaderWorkerQueueSchedule in E.
  destruct accept; [by injection E as _ <-|]. apply bind_Ok in E as (s2 & E2 & [= _ <-]).
  unfold deviceReaderWorkerQueueCancel in E2. apply bind_Ok in E2 as ([l s3] & E3 & E2).
  apply bind_Ok in E2 as (s4 & E4 & E2). unfold cancel_locked in E3. apply bind_Ok in E3 as ([] & _ & E3).
  apply bind_Ok in E3 as (q & _ & E3). apply bind_Ok in E3 as (s5 & E5 & [= _ <-]).
  apply put_queue_framed in E5. apply cleanup_all_framed in E4. apply unref_framed in E2.
  assert (framed 0 s5 s2) as F2 by (eapply framed_trans; [exact E4|exact E2|lia]).
  assert (framed 0 s1 s2) as F3 by (eapply framed_trans; [exact E5|exact F2|lia]).
  eapply framed_trans; [exact F1|exact F3|lia].
Qed.

Lemma reserved_framed charges bufs : forall s k s',
  deviceReaderSessionReuseReservedBuffers s bufs charges k true = Ok s' -> framed 0 s s'.
Proof.
  induction bufs as [|b bufs IH]; intros s k s' E; cbn [deviceReaderSessionReuseReservedBuffers] in E;
    [injection E as <-; by apply framed_refl|].
  apply bind_Ok in E as (c & _ & E). apply bind_Ok in E as (s1 & [= <-] & E). apply bind_Ok in E as (s2 & E2 & E).
  eapply framed_trans; [by eapply release_framed|by eapply IH|lia].
Qed.

Lemma try_post_framed s env wid bufs still_open r s' :
  deviceReaderSessionTryPost s env wid bufs still_open = Ok (r, s') -> framed 2 s s'.
Proof.
  unfold deviceReaderSessionTryPost. intros E. apply bind_Ok in E as (qs & Eq & E). destruct (worker_queues s) as [qs'|] eqn:Ew; [|done].
  apply bind_Ok in E as ([] & Ea & E). apply check_Ok in Ea. apply bind_Ok in E as ([] & _ & E).
  apply bind_Ok in E as (charge & _ & E). apply bind_Ok in E as ([ok s1] & E1 & E).
  assert (framed 0 s s1 /\ worker_queues s1 = worker_queues s /\ batch_capacity s1 = batch_capacity s) as (F1 & Eq1 & Eb1).
  { unfold deviceReaderSessionTryReserveWork, try_reserve in E1. repeat (apply bind_Ok in E1 as ([] & _ & E1)).
    destruct (producer_admission s); [|injection E1 as _ <-; split; [by apply framed_refl|done]].
    unfold reserve_locked in E1. destruct (_ || _) in E1; injection E1 as _ <-;
      (split; [by apply set_budget_framed|done]). }
  destruct ok; [|destruct still_open; injection E as _ <-; by eapply framed_le].
  apply bind_Ok in E as ([[ok m] s2] & E2 & [= _ <-]). unfold deviceReaderSessionPostInternal in E2.
  repeat (apply bind_Ok in E2 as ([] & _ & E2)). apply (framed_trans 0 2 2 _ s1); [exact F1| |lia].
  replace ((zlen bufs =? 0) || (zlen bufs >? batch_capacity s1)) with false in E2 by lia.
  rewrite Eq1, Ew in E2. destruct (_ || _) in E2.
  - apply bind_Ok in E2 as (s3 & E3 & [= _ _ <-]). eapply framed_le; [by eapply reserved_framed|lia].
  - apply bind_Ok in E2 as (s3 & E3 & E2). pose proof E3 as E3'. apply ref_framed in E3.
    assert (worker_queues s3 = worker_queues s1) as Eq3 by (unfold deviceReaderSessionRef in E3'; by invert_ok).
    rewrite Eq3, Eq1, Ew in E2. apply bind_Ok in E2 as ([ok2 s4] & E4 & [= _ _ <-]).
    eapply framed_trans; [exact E3|by eapply append_framed|lia].
Qed.

(** ** Posting keeps the limits, whichever way *)

Lemma reuse_reader_limits bufs : forall s s', deviceReaderSessionReuseReaderBuffers s bufs = Ok s' -> same_limits s s'.
Proof.
  induction bufs as [|b bufs IH]; intros s s' E; cbn [deviceReaderSessionReuseReaderBuffers] in E; [by injection E as <-|].
  apply bind_Ok in E as (pool & _ & E). apply IH in E. exact E.
Qed.

Lemma reuse_reserved_limits charges detached bufs : forall s k s',
  deviceReaderSessionReuseReservedBuffers s bufs charges k detached = Ok s' -> same_limits s s'.
Proof.
  induction bufs as [|b bufs IH]; intros s k s' E; cbn [deviceReaderSessionReuseReservedBuffers] in E; [by injection E as <-|].
  apply bind_Ok in E as (c & _ & E). apply bind_Ok in E as (s1 & E1 & E). apply bind_Ok in E as (s2 & E2 & E).
  apply release_framed, fr_limits in E2. apply IH in E. trans s2; [|done]. trans s1; [|done].
  destruct detached; [by injection E1 as <-|]. by apply bind_Ok in E1 as (pool & _ & [= <-]).
Qed.

Lemma post_internal_limits s env wid bufs charges prepare detached ok m s' :
  deviceReaderSessionPostInternal s env wid bufs charges prepare detached = Ok (ok, m, s') -> same_limits s s'.
Proof.
  unfold deviceReaderSessionPostInternal. intros E. repeat (apply bind_Ok in E as ([] & _ & E)).
  destruct (_ || _) in E; [|destruct (_ || _) in E].
  - apply bind_Ok in E as (s1 & E1 & [= _ _ <-]).
    destruct charges; [by eapply reuse_reserved_limits|by eapply reuse_reader_limits].
  - apply bind_Ok in E as (s1 & E1 & [= _ _ <-]).
    destruct charges, (worker_queues s); first [by eapply reuse_reserved_limits|by eapply reuse_reader_limits].
  - apply bind_Ok in E as (s1 & E1 & E). apply ref_framed, fr_limits in E1. trans s1; [done|].
    destruct (worker_queues s1).
    + apply bind_Ok in E as ([ok2 s2] & E2 & [= _ _ <-]). by eapply fr_limits, append_framed.
    + destruct (accepted env); [by injection E as _ _ <-|]. apply bind_Ok in E as (s2 & E2 & [= _ _ <-]).
      by eapply fr_limits, cleanup_message_framed.
Qed.

Context (wait : device_reader_session_t P -> Z -> Z -> outcome (bool * device_reader_session_t P)).
Context (wait_keeps : forall s charge packets ok s', wait s charge packets = Ok (ok, s') -> same_limits s s').

Lemma post_loop_limits env wid : forall fuel s bufs ok s',
  post_loop fuel wait s env wid bufs = Ok (ok, s') -> same_limits s s'.
Proof.
  induction fuel as [|fuel IH]; intros s bufs ok s' E; [done|]. cbn [post_loop] in E.
  destruct bufs as [|b bufs]; [by injection E as _ <-|]. apply bind_Ok in E as ([chunk charge] & _ & E).
  apply bind_Ok in E as ([] & _ & E). apply bind_Ok in E as ([ok1 s1] & E1 & E). apply wait_keeps in E1. trans s1; [done|].
  destruct ok1; cbn [negb] in E; [|apply bind_Ok in E as (s2 & E2 & [= _ <-]); by eapply reuse_reader_limits].
  apply bind_Ok in E as ([[ok2 m] s2] & E2 & E). apply post_internal_limits in E2. trans s2; [done|].
  destruct ok2; cbn [negb] in E; [by eapply IH|]. apply bind_Ok in E as (s3 & E3 & [= _ <-]). by eapply reuse_reader_limits.
Qed.

#[export] Instance session_posting_laws (env : post_env) (still_open : bool) :
  @PostingLaws P (session_posting env still_open wait).
Proof.
  split; cbn [do_try_post do_post do_post_reserved session_posting]; intros.
  - by eapply fr_limits, try_post_framed.
  - match goal with X : _ = Ok _ |- _ => apply bind_Ok in X as ([[ok1 m] s1] & E & [= _ <-]) end.
    unfold deviceReaderSessionPost in E. destruct (match worker_queues s with None => _ | Some _ => _ end);
      [by eapply post_internal_limits|]. apply bind_Ok in E as ([ok2 s2] & E2 & [= _ _ <-]). by eapply post_loop_limits.
  - match goal with X : _ = Ok _ |- _ => apply bind_Ok in X as ([[ok1 m] s1] & E & [= _ <-]) end.
    unfold deviceReaderSessionPostReserved in E. do 2 (apply bind_Ok in E as ([] & _ & E)). by eapply post_internal_limits.
Qed.
End Frame.
