(* ===== verification/Distribution.v ===== *)
(** * Distributing a read batch ([ww/devices/device_flow_affinity.c])

    The functions of [FlowAffinity] on a session that other threads use, as a
    run of the steps of [ReaderSystem]: collecting a batch through the fragment
    table, the counting sort of [BatchSort], and the nonblocking posts. *)

From Stdlib Require Import ZArith Lia.
From stdpp Require Import base numbers option list.
From S2P Require Import Prelude ShiftBuffer PoolInterface BufferPool FlowHash FragRanges FragAffinity FragInvariant FragOffer.
From S2P Require Import FragLife FragYield Gate ReaderSession ReaderSystem ReaderProofs ReaderDrain ReaderRuns.
From S2P Require Import FlowAffinity BatchSort ReaderFrame.
Open Scope Z_scope.
Open Scope word_scope.

Section Collect.
Context `{Allocator} {P : Type} `{PL : PoolLaws P} (workers_count : Z) (Hw : 0 < workers_count <= 256).
Implicit Types (S : reader_system P) (s : device_reader_session_t P).

(** A session a producing thread [i] distributes from. *)
Record ready S (i : nat) : Prop := mk_ready {
  rd_ok : readers_ok S;
  rd_job : rs_jobs S !! i = Some settled_job;
  rd_usable : usable (frag_affinity (rs_session S));
  rd_workers : workers_ok workers_count (frag_affinity (rs_session S));
  rd_lanes : zlen (rs_lanes S) = workers_count;
  rd_mode : opaque_flow_mode (rs_session S) <> kDeviceOpaqueFlowAuto;
  rd_batch : 0 < batch_capacity (rs_session S)
}.

(** What collecting leaves alone. *)
Definition kept s s' : Prop :=
  refcount s' = refcount s /\ same_limits s s' /\ generation s' = generation s /\
  opaque_flow_mode s' = opaque_flow_mode s.

#[export] Instance kept_preorder : PreOrder kept.
Proof.
  split; [by intros s|]. intros s1 s2 s3 (? & ? & ? & ?) (? & ? & ? & ?).
  split; [congruence|]. split; [by trans s2|]. split; congruence.
Qed.

Lemma ready_step S i a s' :
  ready S i -> may_do a S -> reader_step workers_count a S = Ok (set_session S s') ->
  usable (frag_affinity s') -> workers_ok workers_count (frag_affinity s') -> kept (rs_session S) s' ->
  reaches workers_count S (set_session S s') /\ ready (set_session S s') i.
Proof.
  intros [R J U W L M B] Hm E U' W' (_ & (Eb & _) & _ & Em).
  destruct (reach_step workers_count a S _ R Hm E) as [Re [O|G]].
  - split; [done|]. split; simpl; auto; congruence.
  - exfalso. pose proof (rg_jobs _ G) as Ej. simpl in Ej. by rewrite Ej in J.
Qed.

Lemma jobs_nonempty S i : ready S i -> rs_jobs S <> [].
Proof. intros [_ J _ _ _ _ _] E. by rewrite E in J. Qed.

(** The worker of a packet whose bytes name a flow. *)
Definition flow_worker (mode : device_opaque_flow_mode_t) (b : sbuf_t) : option Z :=
  if negb (len b =? 0) && receive_accepts (raw b) (len b) mode
  then Some (receive_hash (raw b) mode mod workers_count) else None.

Lemma worker_small x : 0 <= x mod workers_count < workers_count /\ wrap8 (x mod workers_count) = x mod workers_count.
Proof.
  pose proof (Z.mod_pos_bound x workers_count ltac:(lia)). split; [done|]. apply wrap8_small. unfold UINT8_MAX. lia.
Qed.

Lemma select_run S i b :
  ready S i -> good b ->
  exists w s', deviceReaderSelectWID workers_count (rs_session S) 0 1 b = Ok (w, s') /\
    reaches workers_count S (set_session S s') /\ ready (set_session S s') i /\ kept (rs_session S) s' /\
    frag_affinity s' = frag_affinity (rs_session S) /\ 0 <= w < workers_count /\
    forall w', flow_worker (opaque_flow_mode (rs_session S)) b = Some w' -> w = w'.
Proof.
  intros Rd G. unfold deviceReaderSelectWID. rewrite !assert_bind by lia.
  assert (forall w, 0 <= w < workers_count ->
    (forall w', flow_worker (opaque_flow_mode (rs_session S)) b = Some w' -> w = w') ->
    exists w0 s', Ok (w, rs_session S) = Ok (w0, s') /\ reaches workers_count S (set_session S s') /\
      ready (set_session S s') i /\ kept (rs_session S) s' /\ frag_affinity s' = frag_affinity (rs_session S) /\
      0 <= w0 < workers_count /\ forall w', flow_worker (opaque_flow_mode (rs_session S)) b = Some w' -> w0 = w') as Hsame.
  { intros w Hr Hf. exists w, (rs_session S). rewrite set_session_same. splits; auto; try lia; [apply reach_refl|done]. }
  destruct (_ || _) eqn:E1.
  { apply Hsame; [lia|]. intros w' Ef. unfold flow_worker in Ef. destruct (_ && _) in Ef; [|done]. injection Ef as <-.
    assert (workers_count = 1) as -> by lia. by rewrite Z.mod_1_r. }
  pose proof (room_nonneg b G) as Hroom. destruct G as [Wf O] eqn:EG.
  rewrite receive_spec; [|apply raw_u8; by split|unfold sbufGetLength; rewrite zlen_raw by (by split); lia|apply Rd].
  unfold flow_worker in *. change (sbufGetLength b) with (len b). destruct (_ && _); step_ok; cbn [from_option id].
  { destruct (worker_small (receive_hash (raw b) (opaque_flow_mode (rs_session S)))) as [Hr ->].
    apply Hsame; [done|]. by intros w' [= <-]. }
  destruct (worker_small (distribution_next (rs_session S))) as [Hr ->]. do 2 eexists. split; [done|].
  set (s' := set_next _ _). assert (kept (rs_session S) s') as K by done.
  destruct (ready_step S i DoNext s' Rd) as [Re Rd']; [by eapply jobs_nonempty| |apply Rd|apply Rd|done|].
  { cbn [reader_step]. by rewrite touch_live by apply Rd. }
  split; [exact Re|]. split; [exact Rd'|]. split; [exact K|]. split; [done|]. split; [exact Hr|done].
Qed.

(** ** Collecting *)

Lemma push_all_ok (w : Z) l : forall dispatch,
  zlen dispatch + zlen l <= kDeviceFlowAffinityMaxDispatch ->
  push_all dispatch l w = Ok (dispatch ++ ((fun b => (b, wrap8 w)) <$> l)).
Proof.
  induction l as [|b l IH]; intros dispatch Hl; [by rewrite app_nil_r|]. rewrite zlen_cons in Hl.
  pose proof (zlen_nonneg l). cbn [push_all]. unfold push. rewrite (proj2 (Z.ltb_lt _ _)) by lia. step_ok.
  cbn [check]. step_ok. rewrite IH by (rewrite zlen_app; change (zlen [(b, wrap8 w)]) with 1; lia).
  by rewrite <- app_assoc.
Qed.

(** A dispatched packet: live, and for a worker there is. *)
Definition dispatchable (x : sbuf_t * Z) : Prop := good x.1 /\ 0 <= x.2 < workers_count.

(** One packet taken in: what it adds to the dispatch list. *)
Definition collected mode (b : sbuf_t) (new : list (sbuf_t * Z)) : Prop :=
  Forall dispatchable new /\
  (~ is_frag (raw b) (len b) ->
     exists w, new = [(b, w)] /\ forall w', flow_worker mode b = Some w' -> w = w').

(** What the fragment table makes of a packet. *)
Lemma offer_facts S i b now :
  ready S i -> good b ->
  let s := rs_session S in let t := frag_affinity s in
  exists act res t' pool',
    deviceFragAffinityOffer workers_count (Some t) (reader_buffer_pool s) (Some (raw b)) (len b) b now =
      Ok (act, res, Some t', pool') /\
    zlen (emitted act res b) + staged_total t' <= staged_total t + 1 /\ Forall good (emitted act res b) /\
    (act = kDeviceFragAffinityComplete -> exists c, completed res = Some c) /\
    (act = kDeviceFragAffinityStaged -> released res = []) /\ workers_ok workers_count t' /\
    (act = kDeviceFragAffinityDispatch -> 0 <= result_wid res < workers_count) /\
    (~ is_frag (raw b) (len b) -> act = kDeviceFragAffinityNotFragment) /\ usable t' /\
    0 <= staged_total t /\ 0 <= staged_total t'.
Proof.
  intros Rd G s t. pose proof (ro_config _ (rd_ok S i Rd)) as C.
  destruct (offer_ok workers_count t (reader_buffer_pool s) b now (co_table _ C) (co_pool _ C) (rd_usable S i Rd) G)
    as (act & res & t' & pool' & E & I' & _ & T' & Cf & D).
  exists act, res, t', pool'. split; [done|].
  pose proof (staged_nonneg t (co_table _ C)) as Hts. pose proof (staged_nonneg t' T') as Hts'.
  assert (usable t') as U' by (destruct Cf as (Er & Es & _); unfold usable; rewrite Er, Es; apply Rd).
  destruct D as [(-> & Hf & -> & Hi)|(parsed & v & Hp & Hv & L)].
  - splits; try done; [simpl; change (zlen [b]) with 1; lia|by apply Forall_singleton|apply Rd].
  - destruct (locked_yield workers_count t v parsed b now act res t' (co_table _ C) T' G L) as (? & ? & ? & ?).
    destruct (locked_workers workers_count ltac:(lia) t v parsed b now act res t' (rd_workers S i Rd) L) as (? & ?).
    splits; auto. intros Hf.
    destruct (offer_plain workers_count t (reader_buffer_pool s) b now G Hf) as [res2 E2]. congruence.
Qed.

Lemma append_collects S i b now dispatch :
  ready S i -> good b ->
  zlen dispatch + staged_total (frag_affinity (rs_session S)) + 1 <= kDeviceFlowAffinityMaxDispatch ->
  exists new s', deviceFlowAffinityAppend workers_count (rs_session S) b now dispatch = Ok (dispatch ++ new, s') /\
    reaches workers_count S (set_session S s') /\ ready (set_session S s') i /\ kept (rs_session S) s' /\
    zlen new + staged_total (frag_affinity s') <= staged_total (frag_affinity (rs_session S)) + 1 /\
    collected (opaque_flow_mode (rs_session S)) b new.
Proof.
  intros Rd G Hr. destruct (offer_facts S i b now Rd G)
    as (act & res & t' & pool' & E & Y & Ge & Hc & Hst & W' & Hd & Hn & U' & Hts & Hts').
  set (t := frag_affinity (rs_session S)) in *.
  set (s1 := set_frag (rs_session S) t' (reader_pool_set (rs_session S)) pool').
  assert (kept (rs_session S) s1) as K1 by done.
  destruct (ready_step S i (DoTable (CallOffer b now)) s1 Rd) as [Re1 Rd1]; try done.
  { split; [by eapply jobs_nonempty|]. split; [done|apply Rd]. }
  { cbn [reader_step]. unfold table_step. rewrite touch_live by apply Rd. step_ok. cbn [call_step].
    change (sbufGetLength b) with (len b). fold t. by rewrite E. }
  assert (forall c, good c -> emitted act res b = [c] -> (~ is_frag (raw b) (len b) -> c = b) ->
    exists new s', ('(w, s) ← deviceReaderSelectWID workers_count s1 0 1 c; d ← push dispatch c w; mret (d, s)) = Ok (dispatch ++ new, s') /\
      reaches workers_count S (set_session S s') /\ ready (set_session S s') i /\ kept (rs_session S) s' /\
      zlen new + staged_total (frag_affinity s') <= staged_total t + 1 /\
      collected (opaque_flow_mode (rs_session S)) b new) as Hsel.
  { intros c Gc Ec Hcb. destruct (select_run (set_session S s1) i c Rd1 Gc) as (w & s' & Es & Re2 & Rd2 & K2 & Ef & Hrw & Hfw).
    cbn [rs_session set_session] in Es, K2, Ef, Hfw. rewrite Es. step_ok. unfold push. rewrite (proj2 (Z.ltb_lt _ _)) by lia.
    cbn [check]. step_ok. rewrite wrap8_small by (unfold UINT8_MAX; lia). exists [(c, w)], s'. split; [done|].
    split; [by eapply reach_trans|]. split; [done|]. split; [by trans s1|]. split.
    - rewrite Ef. simpl. rewrite Ec in Y. unfold zlen in *. simpl in *. lia.
    - split; [apply Forall_singleton; by split|]. intros Hf. exists w. rewrite (Hcb Hf). split; [done|].
      rewrite <- (Hcb Hf). exact Hfw. }
  assert (forall l, emitted act res b = l -> act <> kDeviceFragAffinityNotFragment ->
    (l <> [] -> 0 <= result_wid res < workers_count) ->
    zlen dispatch + zlen l <= kDeviceFlowAffinityMaxDispatch /\
    zlen ((fun c => (c, wrap8 (result_wid res))) <$> l) + staged_total t' <= staged_total t + 1 /\
    collected (opaque_flow_mode (rs_session S)) b ((fun c => (c, wrap8 (result_wid res))) <$> l)) as Hall.
  { intros l El Hna Hr'. rewrite El in Y, Ge. assert (zlen ((fun c => (c, wrap8 (result_wid res))) <$> l) = zlen l) as ->
      by (unfold zlen; by rewrite length_fmap). split; [lia|]. split; [done|]. split; [|intros Hf; by apply Hn in Hf].
    apply Forall_fmap, Forall_forall. intros c Hin. rewrite Forall_forall in Ge. split; [by apply Ge|].
    assert (l <> []) as Hne by (intros ->; by apply not_elem_of_nil in Hin). simpl.
    rewrite wrap8_small by (specialize (Hr' Hne); unfold UINT8_MAX; lia). auto. }
  unfold deviceFlowAffinityAppend. fold t. change (sbufGetLength b) with (len b). rewrite E. step_ok. cbn [from_option id].
  fold s1. destruct act; cbn [emitted] in *.
  - apply (Hsel b G); auto.
  - destruct (Hall _ eq_refl ltac:(done) ltac:(auto)) as (Hz & Hy & Hcol). rewrite zlen_app in Hz.
    change (zlen [default b (input res)]) with 1 in Hz. rewrite push_all_ok by lia. step_ok. unfold push.
    rewrite (proj2 (Z.ltb_lt _ _)) by (rewrite zlen_app; unfold zlen in *; rewrite length_fmap; lia). cbn [check]. step_ok.
    rewrite fmap_app in Hy, Hcol. eexists _, s1. rewrite <- app_assoc. split; [done|]. by splits.
  - rewrite Hst in * by done. exists [], s1. rewrite app_nil_r. split; [done|].
    destruct (Hall _ eq_refl ltac:(done) ltac:(done)) as (Hz & Hy & Hcol). by splits.
  - destruct (Hall _ eq_refl ltac:(done) ltac:(done)) as (Hz & Hy & Hcol). exists [], s1. rewrite app_nil_r. by splits.
  - destruct Hc as [c Ec]; [done|]. rewrite Ec in *. change (option_list (Some c)) with [c] in *. apply (Hsel c); [by rewrite Forall_singleton in Ge|done|].
    intros Hf. by apply Hn in Hf.
Qed.

Lemma append_loop_collects i bufs : forall S dispatch,
  ready S i -> Forall (fun x => good x.1) bufs ->
  zlen dispatch + staged_total (frag_affinity (rs_session S)) + zlen bufs <= kDeviceFlowAffinityMaxDispatch ->
  exists news s', append_loop workers_count (rs_session S) bufs dispatch = Ok (dispatch ++ concat news, s') /\
    reaches workers_count S (set_session S s') /\ ready (set_session S s') i /\ kept (rs_session S) s' /\
    zlen (concat news) + staged_total (frag_affinity s') <= staged_total (frag_affinity (rs_session S)) + zlen bufs /\
    Forall2 (fun x => collected (opaque_flow_mode (rs_session S)) x.1) bufs news.
Proof.
  induction bufs as [|[b now] bufs IH]; intros S dispatch Rd F Hr.
  { exists [], (rs_session S). rewrite app_nil_r, set_session_same. split; [done|].
    split; [apply reach_refl|]. split; [done|]. split; [done|]. split; [unfold zlen; simpl; lia|constructor]. }
  apply Forall_cons in F as [G F]. rewrite zlen_cons in Hr |- *. pose proof (zlen_nonneg bufs).
  destruct (append_collects S i b now dispatch Rd G) as (new & s1 & E1 & Re1 & Rd1 & K1 & Y1 & C1); [lia|].
  cbn [append_loop]. rewrite E1. step_ok.
  destruct (IH (set_session S s1) (dispatch ++ new) Rd1 F) as (news & s2 & E2 & Re2 & Rd2 & K2 & Y2 & C2).
  { rewrite zlen_app. simpl. lia. }
  cbn [rs_session set_session] in *. rewrite E2. exists (new :: news), s2. rewrite <- app_assoc. split; [done|].
  split; [by eapply reach_trans|]. split; [done|]. split; [by trans s1|].
  split; [rewrite concat_cons, zlen_app; lia|]. constructor; [done|]. by rewrite (proj2 (proj2 (proj2 K1))) in C2.
Qed.

(** Collecting one chunk of at most 512 packets never overruns the arrays of
    768 dispatched packets, whatever fragments the table releases: the table
    and the dispatch list together never hold more than was staged and read.
    Every dispatched packet is live and for an existing worker. *)
Theorem collecting_fits S i (bufs : list (sbuf_t * Z)) :
  reader_run workers_count S -> ready S i -> Forall (fun x => good x.1) bufs ->
  zlen bufs <= kDeviceFlowAffinityMaxBatch ->
  exists dispatch s', append_loop workers_count (rs_session S) bufs [] = Ok (dispatch, s') /\
    reader_run workers_count (set_session S s') /\
    zlen dispatch + staged_total (frag_affinity s') <= staged_total (frag_affinity (rs_session S)) + zlen bufs /\
    zlen dispatch <= kDeviceFlowAffinityMaxDispatch /\ Forall dispatchable dispatch.
Proof.
  intros R Rd G Hb. pose proof (co_table _ (ro_config _ (rd_ok S i Rd))) as T. pose proof (to_total_limit _ T) as Ht.
  destruct (append_loop_collects i bufs S [] Rd G) as (news & s' & E & Re & Rd' & _ & Y & C).
  { change (zlen (@nil (sbuf_t * Z))) with 0. unfold kDeviceFlowAffinityMaxDispatch. lia. }
  pose proof (staged_nonneg _ (co_table _ (ro_config _ (rd_ok _ _ Rd')))) as Ht'. simpl in Ht'.
  exists (concat news), s'. split; [exact E|]. split; [by eapply reach_run|]. split; [exact Y|].
  split; [unfold kDeviceFlowAffinityMaxDispatch; lia|]. apply Forall_concat.
  clear -C. induction C as [|x new bufs news [Hd _] _ IH]; by constructor.
Qed.
End Collect.

(** ** Posting the groups *)

Section Post.
Context `{Allocator} {P : Type} `{PL : PoolLaws P} (workers_count : Z) (Hw : 0 < workers_count <= 256).
Context (env : post_env) (still_open : bool).
Context (wait : device_reader_session_t P -> Z -> Z -> outcome (bool * device_reader_session_t P)).
Context (wait_keeps : forall s charge packets ok s', wait s charge packets = Ok (ok, s') -> same_limits s s').
Implicit Types (S : reader_system P) (s : device_reader_session_t P).

#[local] Instance posting : Posting P := session_posting env still_open wait.
#[local] Instance posting_laws : PostingLaws P := session_posting_laws wait wait_keeps env still_open.

(** What fits an empty budget is within it. *)
Lemma fitting_sum limit l : forall charge,
  0 <= charge <= limit -> limit <= UINT64_MAX -> Forall (fun x : item => good x.1) l ->
  charge + zsum sbufGetAllocationCharge (take (Z.to_nat (fitting_count limit l charge)) l).*1 <= limit.
Proof.
  induction l as [|[b c] l IH]; intros charge Hc Hl F; cbn [fitting_count].
  { simpl. lia. }
  apply Forall_cons in F as [G F]. pose proof G as [Wf O]. simpl in Wf, O.
  assert (0 < sbufGetAllocationCharge b) as Hb by (rewrite charge_ordinary by done; destruct Wf; lia).
  rewrite (wrap64_small (limit - charge)) by word_lia.
  destruct (Z.gtb_spec (sbufGetAllocationCharge b) (limit - charge)); [simpl; lia|].
  rewrite (wrap64_small (charge + _)) by word_lia. specialize (IH (charge + sbufGetAllocationCharge b) ltac:(lia) Hl F).
  pose proof (fitting_bound limit l (charge + sbufGetAllocationCharge b)) as [Hf _].
  rewrite Z2Nat.inj_add by lia. change (Z.to_nat 1) with 1%nat. cbn [Nat.add take fmap list_fmap fst].
  rewrite zsum_cons. lia.
Qed.

(** What posting may change: references are gained, at most [k]. *)
Definition drift (k : Z) s s' : Prop :=
  refcount s' <= refcount s + k /\ same_limits s s' /\ generation s' = generation s /\
  opaque_flow_mode s' = opaque_flow_mode s /\ frag_affinity s' = frag_affinity s.

Lemma drift_trans k1 k2 k s1 s2 s3 : drift k1 s1 s2 -> drift k2 s2 s3 -> k1 + k2 <= k -> drift k s1 s3.
Proof.
  intros (R1 & L1 & G1 & M1 & T1) (R2 & L2 & G2 & M2 & T2) Hk. split; [lia|]. split; [by trans s2|]. splits; congruence.
Qed.

Lemma framed_drift k s s' : framed k s s' -> drift k s s'.
Proof. intros []. by splits. Qed.

Lemma drift_refl k s : 0 <= k -> drift k s s.
Proof. intros Hk. split; [lia|done]. Qed.

(** The packets [bufs] have been appended to a lane, nothing was delivered. *)
Definition gains (gen : Z) (bufs : list sbuf_t) (ln ln' : lane) : Prop :=
  delivered ln' = delivered ln /\ ln_posted ln' = ln_posted ln ++ stamped gen bufs.

Lemma gains_refl gen ln : gains gen [] ln ln.
Proof. split; [done|]. simpl. by rewrite app_nil_r. Qed.

Lemma gains_trans gen l1 l2 ln1 ln2 ln3 :
  gains gen l1 ln1 ln2 -> gains gen l2 ln2 ln3 -> gains gen (l1 ++ l2) ln1 ln3.
Proof.
  intros [D1 P1] [D2 P2]. split; [congruence|]. unfold stamped in *. by rewrite P2, P1, fmap_app, app_assoc.
Qed.

Lemma ready_after S i k S' w ln' :
  ready workers_count S i -> (readers_ok S' \/ readers_gone S') -> rs_jobs S' = rs_jobs S ->
  rs_lanes S' = <[w := ln']> (rs_lanes S) -> framed k (rs_session S) (rs_session S') -> ready workers_count S' i.
Proof.
  intros Rd O Ej El F. assert (readers_ok S') as R.
  { destruct O as [O|G]; [done|]. pose proof (rg_jobs _ G) as E. rewrite Ej in E. by apply (jobs_nonempty workers_count S i) in E. }
  pose proof Rd as [_ J U W L M B]. pose proof F as [(Fb & _) _ _ _ Fm _ Ft _ _].
  assert (zlen (rs_lanes S') = workers_count) by (unfold zlen in *; by rewrite El, length_insert).
  split; rewrite ?Ft, ?Fm, ?Fb, ?Ej; auto.
Qed.

Lemma front_turn_run S i w ln group :
  ready workers_count S i -> rs_lanes S !! w = Some ln -> group <> [] -> Forall (fun x : item => good x.1) group ->
  refcount (rs_session S) + 1 < UINT32_MAX ->
  exists ok chunk s' S' ln' bufs, front_turn (rs_session S) NonBlocking (Z.of_nat w) group = Ok (ok, chunk, s') /\
    reaches workers_count S S' /\ rs_session S' = s' /\ ready workers_count S' i /\ drift 2 (rs_session S) s' /\
    rs_lanes S' = <[w := ln']> (rs_lanes S) /\ gains (generation (rs_session S)) bufs ln ln' /\
    bufs `prefix_of` group.*1 /\ (ok = true -> bufs = take chunk group.*1).
Proof.
  intros Rd Hl Hne G Hr. unfold front_turn. cbv zeta. pose proof (ro_config _ (rd_ok _ _ _ Rd)) as C.
  set (front := take _ (take _ group)). set (limit := output_charge_limit (budget (rs_session S))).
  assert (front `prefix_of` group) as Hpf.
  { unfold front. rewrite take_take. apply prefix_take. }
  assert (Forall (fun x : item => good x.1) front) as Gf by (destruct Hpf as [k Ek]; rewrite Ek in G; by apply Forall_app in G as [? _]).
  pose proof (fitting_bound limit front 0) as Hf. pose proof (fitting_sum limit front 0) as Hs.
  destruct (Z.to_nat (fitting_count limit front 0)) as [|n] eqn:En.
  { exists false, 0%nat, (rs_session S), S, ln, []. split; [done|]. rewrite list_insert_id by done.
    split; [apply reach_refl|]. split; [done|]. split; [done|]. split; [by apply drift_refl|]. split; [done|].
    split; [apply gains_refl|]. split; [by eexists|done]. }
  set (chunk := Datatypes.S n) in *. assert (0 < chunk)%nat as Hch by (unfold chunk; lia). clearbody chunk.
  unfold item in *.
  assert (0 < zlen (take chunk front).*1 <= zlen front) as Hlen.
  { unfold zlen. rewrite length_fmap, length_take. unfold zlen in Hf. lia. }
  assert (zlen front <= batch_capacity (rs_session S) /\ zlen front <= output_packet_limit (budget (rs_session S))) as Hcap.
  { assert (0 < zlen front) as Hz by lia. revert Hz. unfold front, zlen. rewrite !length_take. lia. }
  destruct (try_post_run workers_count S i w ln (take chunk front).*1 env still_open (rd_ok _ _ _ Rd) (rd_job _ _ _ Rd) Hl)
    as (r & s' & S' & ln' & E & (Re & Es & O) & Ej & El & Po); auto.
  { apply Forall_fmap. destruct Hpf as [k Ek]. by apply Forall_take. }
  { lia. }
  { lia. }
  { rewrite Z.add_0_l in Hs. apply Hs; auto; [|apply C]. pose proof (co_limit _ C). unfold limit. lia. }
  assert (framed 2 (rs_session S) s') as Fr by (by eapply try_post_framed).
  assert (ready workers_count S' i) as Rd' by (eapply ready_after; eauto; by rewrite Es).
  assert ((take chunk front).*1 `prefix_of` group.*1) as Hpre.
  { destruct Hpf as [k Ek]. rewrite Ek, fmap_app, fmap_take. trans front.*1; [apply prefix_take|by eexists]. }
  assert (take chunk group.*1 = (take chunk front).*1) as Htk.
  { destruct Hpf as [k Ek]. rewrite Ek, fmap_app, fmap_take, take_app_le; [done|]. rewrite length_fmap. unfold zlen in Hf. lia. }
  cbn [do_try_post posting session_posting]. rewrite E. step_ok. destruct Po as [D Po].
  destruct r.
  - exists true, chunk, s', S', ln', (take chunk front).*1. split; [done|]. splits; auto; [by apply framed_drift|split; [done|apply Po]].
  - subst ln'. exists false, 0%nat, s', S', ln, []. split; [done|].
    split; [done|]. split; [done|]. split; [done|]. split; [by apply framed_drift|]. split; [done|].
    split; [apply gains_refl|]. split; [by eexists|done].
  - destruct Po as [-> |Po].
    + exists false, chunk, s', S', ln, []. split; [done|].
      split; [done|]. split; [done|]. split; [done|]. split; [by apply framed_drift|]. split; [done|].
      split; [apply gains_refl|]. split; [by eexists|done].
    + exists false, chunk, s', S', ln', (take chunk front).*1. split; [done|].
      split; [done|]. split; [done|]. split; [done|]. split; [by apply framed_drift|]. split; [done|].
      split; [by split|]. split; [done|done].
Qed.

(** Buffers that were never posted go back to the pool of the reader. *)
Lemma recycle_list_run i l : forall S,
  ready workers_count S i -> Forall (fun x : item => good x.1) l ->
  exists s', recycle_list (rs_session S) NonBlocking l = Ok s' /\ reaches workers_count S (set_session S s') /\
    ready workers_count (set_session S s') i /\ drift 0 (rs_session S) s'.
Proof.
  induction l as [|[b c] l IH]; intros S Rd F; cbn [recycle_list].
  { exists (rs_session S). rewrite set_session_same. split; [done|]. split; [apply reach_refl|]. split; [done|by apply drift_refl]. }
  apply Forall_cons in F as [[Wf O] F]. pose proof (ro_config _ (rd_ok _ _ _ Rd)) as C.
  destruct (pool_reuse_law (reader_buffer_pool (rs_session S)) b (co_pool _ C) Wf O) as (pool & Ep & Ip & _).
  unfold recycle_item at 1. cbn [fst]. rewrite Ep. step_ok. set (s1 := set_pool (rs_session S) pool).
  assert (kept (rs_session S) s1) as K1 by done.
  destruct (ready_step workers_count S i (DoTable (CallOther pool)) s1 Rd) as [Re1 Rd1];
    [by split; [by eapply jobs_nonempty|]| |apply Rd|apply Rd|done|].
  { cbn [reader_step]. unfold table_step. by rewrite touch_live by apply C. }
  destruct (IH (set_session S s1) Rd1 F) as (s2 & E2 & Re2 & Rd2 & K2). cbn [rs_session set_session] in E2, K2.
  exists s2. split; [exact E2|]. split; [by eapply reach_trans|]. split; [done|].
  apply (drift_trans 0 0 0 _ s1); [|exact K2|lia]. split; [simpl; lia|done].
Qed.

Lemma ready_limits S i : ready workers_count S i -> limits_ok (rs_session S).
Proof.
  intros Rd. split; [apply Rd|]. pose proof (rd_ok _ _ _ Rd) as R. pose proof (ro_books _ R) as B.
  pose proof (bo_packet_limit _ B). pose proof (bo_packets _ B). destruct weights_nonneg as (_ & Wp & _).
  pose proof (weight_total_nonneg packet_weight S _ Wp (ro_jobs S R) (ro_posts S R) (ro_lanes S R)). lia.
Qed.

Lemma post_group_run i w rest : forall fuel S ln group,
  ready workers_count S i -> rs_lanes S !! w = Some ln -> (length group < fuel)%nat ->
  Forall (fun x : item => good x.1) (group ++ rest) ->
  refcount (rs_session S) + 2 * zlen group < UINT32_MAX ->
  exists ok s' S' ln' bufs,
    post_group fuel (rs_session S) NonBlocking (Z.of_nat w) group rest = Ok (ok, s') /\
    reaches workers_count S S' /\ rs_session S' = s' /\ ready workers_count S' i /\
    drift (2 * zlen group) (rs_session S) s' /\ rs_lanes S' = <[w := ln']> (rs_lanes S) /\
    gains (generation (rs_session S)) bufs ln ln' /\ bufs `prefix_of` group.*1 /\ (ok = true -> bufs = group.*1).
Proof.
  induction fuel as [|fuel IH]; intros S ln group Rd Hl Hf G Hr; [lia|]. cbn [post_group].
  destruct (decide (group = [])) as [->|Hne].
  { exists true, (rs_session S), S, ln, []. split; [done|]. rewrite list_insert_id by done.
    split; [apply reach_refl|]. split; [done|]. split; [done|]. split; [by apply drift_refl|]. split; [done|].
    split; [apply gains_refl|]. by split. }
  assert (0 < zlen group) as Hz by (destruct group; [done|rewrite zlen_cons; pose proof (zlen_nonneg group); lia]).
  pose proof G as G0. apply Forall_app in G0 as [Gg Gr].
  destruct (front_turn_run S i w ln group Rd Hl Hne Gg) as (ok & chunk & s1 & S1 & ln1 & bufs & E & Re & Es & Rd1 & D1 & El & X1 & Pf & Hok); [lia|].
  destruct group as [|x0 l0]; [done|]. set (group := x0 :: l0) in *. rewrite E. step_ok.
  assert (Forall (fun x : item => good x.1) (drop chunk group ++ rest)) as Gd by (apply Forall_app; split; [by apply Forall_drop|done]).
  destruct (front_turn_inv _ _ _ _ _ _ _ E Hne) as (_ & Hc & Hpos); [by apply ready_limits with i|].
  destruct ok; cbn [negb].
  - specialize (Hok eq_refl). specialize (Hpos eq_refl).
    destruct (IH S1 ln1 (drop chunk group)) as (ok2 & s2 & S2 & ln2 & bufs2 & E2 & Re2 & Es2 & Rd2 & D2 & El2 & X2 & Pf2 & Hok2); auto.
    { rewrite El. apply list_lookup_insert_eq. by apply lookup_lt_Some in Hl. }
    { rewrite length_drop. lia. }
    { destruct D1 as (Hr1 & _). rewrite Es. unfold zlen in *. rewrite length_drop. lia. }
    rewrite Es in *. exists ok2, s2, S2, ln2, (bufs ++ bufs2). split; [exact E2|].
    split; [by eapply reach_trans|]. split; [done|]. split; [done|].
    split; [eapply drift_trans; [exact D1|exact D2|unfold zlen in *; rewrite length_drop; lia]|].
    split; [by rewrite El2, El, list_insert_insert_eq|].
    split; [eapply gains_trans; [exact X1|]; by rewrite (proj1 (proj2 (proj2 D1))) in X2|].
    assert (group.*1 = take chunk group.*1 ++ (drop chunk group).*1) as Eg by (by rewrite fmap_drop, take_drop).
    rewrite Hok. split; [rewrite Eg at 2; by apply prefix_app|]. intros H1. by rewrite (Hok2 H1), <- Eg.
  - destruct (recycle_list_run i (drop chunk group ++ rest) S1 Rd1 Gd) as (s2 & E2 & Re2 & Rd2 & K2).
    rewrite Es in *. rewrite E2. step_ok. exists false, s2, (set_session S1 s2), ln1, bufs. split; [done|].
    split; [by eapply reach_trans|]. split; [done|]. split; [done|].
    split; [apply (drift_trans 2 0 _ _ s1); [exact D1|exact K2|lia]|]. by splits.
Qed.

(** The packets of worker [w] among groups that start at worker [k]. *)
Definition share (gs : list (list item)) (k w : nat) : list sbuf_t :=
  if decide (k <= w)%nat then (default [] (gs !! (w - k)%nat)).*1 else [].

Lemma share_cons g gs k w :
  share (g :: gs) k w = if decide (w = k) then g.*1 else share gs (Datatypes.S k) w.
Proof.
  unfold share. destruct (decide (w = k)) as [->|Hne].
  - rewrite decide_True by lia. by rewrite Nat.sub_diag.
  - repeat case_decide; try lia; [|done]. by replace (w - k)%nat with (Datatypes.S (w - Datatypes.S k)) by lia.
Qed.

Definition only (w : nat) (l : list sbuf_t) : nat -> list sbuf_t := fun v => if decide (v = w) then l else [].

Lemma share_after (l : list sbuf_t) gs k w :
  only k l w ++ share gs (Datatypes.S k) w = if decide (w = k) then l else share gs (Datatypes.S k) w.
Proof.
  unfold only, share. destruct (decide (w = k)) as [->|]; [|done]. rewrite decide_False by lia. by rewrite app_nil_r.
Qed.

(** What a distribution adds to every lane: in order, the front of its share,
    all of it when nothing was refused. *)
Definition served (ok : bool) (gen : Z) (due : nat -> list sbuf_t) S S' : Prop :=
  forall w ln, rs_lanes S !! w = Some ln -> exists ln' bufs, rs_lanes S' !! w = Some ln' /\
    gains gen bufs ln ln' /\ bufs `prefix_of` due w /\ (ok = true -> bufs = due w).

Lemma served_nothing gen S due : (forall w, due w = []) -> served true gen due S S.
Proof. intros E w ln Hl. exists ln, []. rewrite E. split; [done|]. by split; [apply gains_refl|]. Qed.

Lemma served_one (ok : bool) gen w ln ln' bufs (l : list sbuf_t) S S' :
  rs_lanes S !! w = Some ln -> rs_lanes S' = <[w := ln']> (rs_lanes S) -> gains gen bufs ln ln' ->
  bufs `prefix_of` l -> (ok = true -> bufs = l) -> served ok gen (only w l) S S'.
Proof.
  intros Hl El X Pf Hok v lv Hv. unfold only. destruct (decide (v = w)) as [->|Hne].
  - assert (lv = ln) as -> by congruence. exists ln', bufs. rewrite El, list_lookup_insert_eq; [done|].
    by apply lookup_lt_Some in Hl.
  - exists lv, []. rewrite El, list_lookup_insert_ne by done. by split; [|split; [apply gains_refl|]].
Qed.

Lemma served_trans (ok : bool) gen (due1 due2 due : nat -> list sbuf_t) S1 S2 S3 :
  served true gen due1 S1 S2 -> served ok gen due2 S2 S3 -> (forall w, due w = due1 w ++ due2 w) ->
  served ok gen due S1 S3.
Proof.
  intros V1 V2 E w ln Hl. destruct (V1 w ln Hl) as (ln1 & b1 & H1 & X1 & _ & E1).
  destruct (V2 w ln1 H1) as (ln2 & b2 & H2 & X2 & Pf & E2). exists ln2, (b1 ++ b2). rewrite E, E1 by done.
  split; [done|]. split; [eapply gains_trans; [|exact X2]; by rewrite <- E1|].
  split; [by apply prefix_app|]. intros Hok. by rewrite E2.
Qed.

Lemma served_stop (ok : bool) gen (due1 due : nat -> list sbuf_t) S1 S2 :
  served ok gen due1 S1 S2 -> (forall w, due1 w `prefix_of` due w) -> served false gen due S1 S2.
Proof.
  intros V Hp w ln Hl. destruct (V w ln Hl) as (ln1 & b1 & H1 & X1 & Pf & _). exists ln1, b1.
  split; [done|]. split; [done|]. split; [by trans (due1 w)|done].
Qed.

Lemma served_lanes (ok : bool) gen (due : nat -> list sbuf_t) S1 S2 S3 :
  served ok gen due S1 S2 -> rs_lanes S3 = rs_lanes S2 -> served ok gen due S1 S3.
Proof. intros V E w ln Hl. rewrite E. by apply V. Qed.

Lemma post_groups_run i : forall gs S k,
  ready workers_count S i -> Forall (Forall (fun x : item => good x.1)) gs ->
  (forall j g, gs !! j = Some g -> g <> [] -> Z.of_nat (k + j) < workers_count) ->
  refcount (rs_session S) + 2 * zlen (concat gs) < UINT32_MAX ->
  exists ok s' S', post_groups (rs_session S) NonBlocking (Z.of_nat k) gs = Ok (ok, s') /\
    reaches workers_count S S' /\ rs_session S' = s' /\ ready workers_count S' i /\
    drift (2 * zlen (concat gs)) (rs_session S) s' /\ served ok (generation (rs_session S)) (share gs k) S S'.
Proof.
  induction gs as [|g gs IH]; intros S k Rd G Hk Hr.
  { exists true, (rs_session S), S. split; [done|]. split; [apply reach_refl|]. split; [done|]. split; [done|].
    split; [by apply drift_refl|]. apply served_nothing. intros w. unfold share. by case_decide. }
  apply Forall_cons in G as [Gg Gs]. cbn [post_groups]. rewrite concat_cons, zlen_app in *.
  pose proof (zlen_nonneg g). pose proof (zlen_nonneg (concat gs)).
  assert (forall j g', gs !! j = Some g' -> g' <> [] -> Z.of_nat (Datatypes.S k + j) < workers_count) as Hk'.
  { intros j g' Ej Hne. specialize (Hk (Datatypes.S j) g' Ej Hne). lia. }
  replace (Z.of_nat k + 1) with (Z.of_nat (Datatypes.S k)) by lia.
  destruct (decide (g = [])) as [->|Hne].
  { cbn [length post_group]. step_ok. cbn [negb]. destruct (IH S (Datatypes.S k) Rd Gs Hk') as (ok & s' & S' & E & Re & Es & Rd' & D & Sv);
      [lia|]. exists ok, s', S'. split; [done|]. splits; auto.
    apply (served_trans ok _ (only k []) (share gs (Datatypes.S k)) _ S S S'); [by apply served_nothing; intros w; unfold only; case_decide|done|].
    intros w. by rewrite share_cons, share_after. }
  assert (Z.of_nat k < workers_count) as Hkw by (specialize (Hk 0%nat g eq_refl Hne); lia).
  destruct (lookup_lt_is_Some_2 (rs_lanes S) k) as [ln Hl].
  { pose proof (rd_lanes _ _ _ Rd) as El. unfold zlen in El. lia. }
  destruct (post_group_run i k (concat gs) (Datatypes.S (length g)) S ln g Rd Hl)
    as (ok & s1 & S1 & ln1 & bufs & E & Re & Es & Rd1 & D1 & El & X & Pf & Hok); [lia| |lia|].
  { apply Forall_app. split; [done|]. by apply Forall_concat. }
  rewrite E. step_ok. pose proof (served_one ok _ k ln ln1 bufs g.*1 S S1 Hl El X Pf Hok) as Sv1. destruct ok; cbn [negb].
  - destruct (IH S1 (Datatypes.S k) Rd1 Gs Hk') as (ok2 & s2 & S2 & E2 & Re2 & Es2 & Rd2 & D2 & Sv2).
    { rewrite Es. destruct D1. lia. }
    rewrite Es in *. rewrite (proj1 (proj2 (proj2 D1))) in Sv2. exists ok2, s2, S2. split; [done|].
    split; [by eapply reach_trans|]. split; [done|]. split; [done|].
    split; [eapply drift_trans; [exact D1|exact D2|lia]|].
    eapply served_trans; [exact Sv1|exact Sv2|]. intros w. by rewrite share_cons, share_after.
  - exists false, s1, S1. split; [done|]. split; [done|]. split; [done|]. split; [done|].
    split; [eapply drift_trans; [exact D1|by apply (drift_refl 0)|lia]|].
    eapply served_stop; [exact Sv1|]. intros w. rewrite share_cons. unfold only. case_decide; [done|apply prefix_nil].
Qed.

(** ** The whole batch *)

(** The packets dispatched to worker [w], in order. *)
Definition assigned_to (w : nat) (dispatched : list (sbuf_t * Z)) : list sbuf_t :=
  (filter (fun x => x.2 = Z.of_nat w) dispatched).*1.

Definition unreserved (x : sbuf_t * Z) : item * Z := ((x.1, 0), x.2).

Lemma of_worker_assigned w d : (of_worker w (unreserved <$> d)).*1 = assigned_to w d.
Proof.
  induction d as [|[b v] d IH]; [done|]. change (unreserved <$> (b, v) :: d) with (((b, 0), v) :: (unreserved <$> d)).
  rewrite of_worker_cons. unfold assigned_to in *. rewrite filter_cons. simpl. case_decide; [|done]. by rewrite !fmap_cons, IH.
Qed.

Lemma share_assigned d w :
  Forall (dispatchable workers_count) d -> share (groups (unreserved <$> d)) 0 w = assigned_to w d.
Proof.
  intros F. unfold share. rewrite decide_True, Nat.sub_0_r by lia. destruct (decide (w < 256)%nat) as [Hlt|Hge].
  - rewrite groups_lookup by done. apply of_worker_assigned.
  - rewrite lookup_ge_None_2 by (unfold groups; rewrite table_length; lia). unfold assigned_to. symmetry.
    cut (filter (fun x : sbuf_t * Z => x.2 = Z.of_nat w) d = []); [by intros ->|].
    induction F as [|x d [_ Hx] F IH]; [done|]. by rewrite filter_cons, decide_False by lia.
Qed.

(** One chunk: collected, sorted and posted. *)
Lemma chunk_run i S bufs :
  ready workers_count S i -> Forall (fun x : sbuf_t * Z => good x.1) bufs -> zlen bufs <= kDeviceFlowAffinityMaxBatch ->
  refcount (rs_session S) + 2 * (staged_total (frag_affinity (rs_session S)) + zlen bufs) < UINT32_MAX ->
  exists news s1 ok s' S',
    append_loop workers_count (rs_session S) bufs [] = Ok (concat news, s1) /\
    deviceFlowAffinityPostSorted s1 NonBlocking ((fun x => (x.1, 0)) <$> concat news) (concat news).*2 = Ok (ok, s') /\
    reaches workers_count S S' /\ rs_session S' = s' /\ ready workers_count S' i /\
    same_limits (rs_session S) s' /\ generation s' = generation (rs_session S) /\
    opaque_flow_mode s' = opaque_flow_mode (rs_session S) /\
    refcount s' + 2 * staged_total (frag_affinity s') <=
      refcount (rs_session S) + 2 * (staged_total (frag_affinity (rs_session S)) + zlen bufs) /\
    Forall2 (fun x => collected workers_count (opaque_flow_mode (rs_session S)) x.1) bufs news /\
    served ok (generation (rs_session S)) (fun w => assigned_to w (concat news)) S S'.
Proof.
  intros Rd G Hb Hr. pose proof (to_total_limit _ (co_table _ (ro_config _ (rd_ok _ _ _ Rd)))) as Ht.
  pose proof (staged_nonneg _ (co_table _ (ro_config _ (rd_ok _ _ _ Rd)))) as Ht0.
  destruct (append_loop_collects workers_count Hw i bufs S [] Rd G) as (news & s1 & E1 & Re1 & Rd1 & K1 & Y1 & C1).
  { rewrite zlen_nil. unfold kDeviceFlowAffinityMaxDispatch. lia. }
  rewrite app_nil_l in E1. exists news, s1. set (S1 := set_session S s1) in *. set (d := concat news) in *.
  pose proof (staged_nonneg _ (co_table _ (ro_config _ (rd_ok _ _ _ Rd1)))) as Ht1.
  cbn [S1 rs_session set_session] in Ht1. destruct K1 as (Kr & Kl & Kg & Km).
  assert (Forall (dispatchable workers_count) d) as Fd.
  { apply Forall_concat. clear - C1. induction C1 as [|x new bufs news [Fn _] _ IH]; by constructor. }
  assert (wids_ok (unreserved <$> d)) as Fw.
  { apply Forall_fmap. eapply Forall_impl; [exact Fd|]. intros x [_ Hx]. unfold u8, UINT8_MAX. simpl. lia. }
  assert (zlen (unreserved <$> d) = zlen d) as Ez by (unfold zlen; by rewrite length_fmap).
  assert (deviceFlowAffinityPostSorted s1 NonBlocking ((fun x => (x.1, 0)) <$> d) d.*2 =
    post_groups s1 NonBlocking 0 (groups (unreserved <$> d))) as ->.
  { rewrite <- sorted_is_grouped; [|done|unfold kDeviceFlowAffinityMaxDispatch; lia|exact (ready_limits S1 i Rd1)].
    by rewrite <- !list_fmap_compose. }
  assert (zlen (concat (groups (unreserved <$> d))) = zlen d) as Eg by (unfold zlen; rewrite groups_total, length_fmap; done).
  destruct (post_groups_run i (groups (unreserved <$> d)) S1 0 Rd1) as (ok & s' & S' & E2 & Re2 & Es2 & Rd2 & (Dr & Dl & Dg & Dm & Dt) & Sv).
  { apply Forall_lookup. intros w g Hg. apply groups_lookup_inv in Hg as [_ ->].
    apply Forall_fmap, Forall_forall. intros x Hx. apply list_elem_of_filter in Hx as [_ Hx].
    apply list_elem_of_fmap in Hx as (y & -> & Hy). rewrite Forall_forall in Fd. by destruct (Fd y Hy). }
  { intros w g Hg Hne. apply groups_lookup_inv in Hg as [_ ->]. destruct (assigned_to w d) as [|b l] eqn:Ea.
    - exfalso. apply Hne. rewrite <- of_worker_assigned in Ea. by apply fmap_nil_inv in Ea.
    - assert (b ∈ assigned_to w d) as Hin by (rewrite Ea; left). unfold assigned_to in Hin.
      apply list_elem_of_fmap in Hin as (x & _ & Hx). apply list_elem_of_filter in Hx as [Ex Hx].
      rewrite Forall_forall in Fd. destruct (Fd x Hx) as [_ ?]. lia. }
  { unfold S1. cbn [rs_session set_session]. rewrite Eg, Kr. lia. }
  exists ok, s', S'. unfold S1 in E2, Dr, Dl, Dg, Dm, Dt, Sv. cbn [rs_session set_session] in E2, Dr, Dl, Dg, Dm, Dt, Sv. rewrite Eg in Dr.
  split; [done|]. split; [done|]. split; [by eapply reach_trans|]. split; [done|]. split; [done|].
  split; [by trans s1|]. split; [congruence|]. split; [congruence|]. split; [rewrite Dt; lia|]. split; [done|].
  rewrite Kg in Sv. intros w ln Hl. rewrite <- (share_assigned d w Fd). by apply Sv.
Qed.

Lemma assigned_app w d1 d2 : assigned_to w (d1 ++ d2) = assigned_to w d1 ++ assigned_to w d2.
Proof. unfold assigned_to. by rewrite filter_app, fmap_app. Qed.

Lemma distribute_run i : forall fuel S bufs,
  ready workers_count S i -> Forall (fun x : sbuf_t * Z => good x.1) bufs -> (length bufs < fuel)%nat ->
  refcount (rs_session S) + 2 * (staged_total (frag_affinity (rs_session S)) + zlen bufs) < UINT32_MAX ->
  exists ok taken news s' S', distribute_loop workers_count fuel (rs_session S) bufs NonBlocking = Ok s' /\
    reaches workers_count S S' /\ rs_session S' = s' /\ ready workers_count S' i /\
    taken `prefix_of` bufs /\ (ok = true -> taken = bufs) /\
    Forall2 (fun x => collected workers_count (opaque_flow_mode (rs_session S)) x.1) taken news /\
    served ok (generation (rs_session S)) (fun w => assigned_to w (concat news)) S S'.
Proof.
  induction fuel as [|fuel IH]; intros S bufs Rd G Hf Hr; [lia|]. cbn [distribute_loop].
  destruct (decide (bufs = [])) as [->|Hne].
  { exists true, [], [], (rs_session S), S. split; [done|]. split; [apply reach_refl|]. split; [done|]. split; [done|].
    split; [done|]. split; [done|]. split; [constructor|]. by apply served_nothing. }
  destruct bufs as [|x0 l0]; [done|]. set (bufs := x0 :: l0) in *.
  set (n := Z.to_nat (zlen bufs `min` kDeviceFlowAffinityMaxBatch)).
  assert (0 < n <= length bufs)%nat as Hn.
  { unfold n, kDeviceFlowAffinityMaxBatch, zlen. assert (0 < length bufs)%nat by (simpl; lia). lia. }
  assert (zlen (take n bufs) = Z.of_nat n) as Ezt by (unfold zlen; rewrite length_take; lia).
  assert (zlen (drop n bufs) = zlen bufs - Z.of_nat n) as Ezd by (unfold zlen; rewrite length_drop; lia).
  assert (Forall (fun x : sbuf_t * Z => good x.1) (take n bufs) /\ Forall (fun x : sbuf_t * Z => good x.1) (drop n bufs)) as [Gt Gd]
    by (split; [by apply Forall_take|by apply Forall_drop]).
  destruct (chunk_run i S (take n bufs) Rd Gt) as (news & s1 & ok & s2 & S2 & E1 & E2 & Re & Es & Rd2 & _ & Eg & Em & Hr2 & C1 & Sv1).
  { rewrite Ezt. unfold n. lia. }
  { pose proof (zlen_nonneg (drop n bufs)). lia. }
  rewrite E1. step_ok. rewrite E2. step_ok. destruct ok; cbn [negb].
  - destruct (IH S2 (drop n bufs) Rd2 Gd) as (ok & taken & news2 & s3 & S3 & E3 & Re3 & Es3 & Rd3 & Pf & Hok & C2 & Sv2).
    { rewrite length_drop. lia. }
    { rewrite Es. lia. }
    rewrite Es in *. rewrite Em in C2. rewrite Eg in Sv2. exists ok, (take n bufs ++ taken), (news ++ news2), s3, S3. split; [exact E3|].
    split; [by eapply reach_trans|]. split; [done|]. split; [done|].
    split; [rewrite <- (take_drop n bufs) at 2; by apply prefix_app|].
    split; [intros H1; rewrite (Hok H1); apply take_drop|]. split; [by apply Forall2_app|].
    eapply served_trans; [exact Sv1|exact Sv2|]. intros w. simpl. by rewrite concat_app, assigned_app.
  - destruct (recycle_list_run i ((fun x : sbuf_t * Z => (x.1, 0)) <$> drop n bufs) S2 Rd2) as (s3 & E3 & Re3 & Rd3 & _).
    { apply Forall_fmap. exact Gd. }
    rewrite Es in E3. rewrite E3. exists false, (take n bufs), news, s3, (set_session S2 s3). split; [done|].
    split; [by eapply reach_trans|]. split; [done|]. split; [done|]. split; [apply prefix_take|]. split; [done|].
    split; [done|]. by eapply served_lanes.
Qed.

End Post.

(** ** Concrete batches *)

#[local] Existing Instance debug_allocator.

Definition no_wait (s : device_reader_session_t state) (charge packets : Z)
  : outcome (bool * device_reader_session_t state) := mret (false, s).

Lemma no_wait_keeps s charge packets ok s' : no_wait s charge packets = Ok (ok, s') -> same_limits s s'.
Proof. by intros [= _ <-]. Qed.

(** A query and the last fragment of another datagram. *)
Definition demo_batch : list (sbuf_t * Z) := [(sample demo_query, 5); (sample_tail, 6)].

Lemma demo_batch_good : Forall (fun x : sbuf_t * Z => good x.1) demo_batch.
Proof.
  apply Forall_cons. split; [split; [apply sample_wf; concrete|reflexivity]|].
  apply Forall_singleton. exact sample_tail_good.
Qed.

Lemma demo_begun : reader_run 2 demo1.
Proof.
  apply (run_do 2 (DoBegin (P := state)) demo0 demo1); [|vm_compute; congruence|reflexivity].
  apply (run_start 2 4 demo_state kDeviceFragmentReassemble 1024 4 2 created_session budgeted_session queued_session);
    try (vm_compute; repeat split; congruence); [|by left].
  exact (proj1 (reachable_state_inv demo_state demo_reachable)).
Qed.

Lemma demo_ready : ready 2 demo1 0.
Proof.
  assert (readers_ok demo1) as O.
  { destruct (reader_run_inv 2 demo1 demo_begun) as [O|G]; [done|]. pose proof (rg_jobs _ G) as E. discriminate E. }
  split; [exact O|reflexivity|reflexivity|intros E; discriminate E|reflexivity|discriminate|reflexivity].
Qed.


Lemma collecting_fits_witness :
  exists dispatch s', append_loop 2 (rs_session demo1) demo_batch [] = Ok (dispatch, s') /\
    reader_run 2 (set_session demo1 s') /\
    zlen dispatch + staged_total (frag_affinity s') <= staged_total (frag_affinity (rs_session demo1)) + zlen demo_batch /\
    zlen dispatch <= kDeviceFlowAffinityMaxDispatch /\ Forall (dispatchable 2) dispatch.
Proof.
  apply (collecting_fits 2 ltac:(lia) demo1 0 demo_batch);
    [exact demo_begun|exact demo_ready|exact demo_batch_good|vm_compute; congruence].
Defined.

(** Three packets for workers 1, 0 and 1. *)
Definition demo_dispatch : list (item * Z) :=
  [((sample_tail, 0), 1); ((sample demo_query, 0), 0); ((sample_tail, 0), 1)].

Lemma sort_posts_by_worker_witness :
  let ops := session_posting (mk_env true false true) true no_wait in
  @deviceFlowAffinityPostSorted _ _ ops (rs_session demo1) NonBlocking demo_dispatch.*1 demo_dispatch.*2 =
    @post_groups _ _ ops (rs_session demo1) NonBlocking 0 (groups demo_dispatch) /\
  groups demo_dispatch !! 1%nat = Some [(sample_tail, 0); (sample_tail, 0)].
Proof.
  intros ops.
  pose proof (session_posting_laws no_wait no_wait_keeps (mk_env true false true) true) as laws. fold ops in laws.
  destruct (sort_posts_by_worker (H1 := ops) (rs_session demo1) NonBlocking demo_dispatch) as (E & _ & G).
  - repeat constructor; unfold u8, UINT8_MAX; simpl; lia.
  - vm_compute. congruence.
  - vm_compute. split; congruence.
  - split; [exact E|]. exact (G 1%nat ltac:(lia)).
Defined.
