(* ===== verification/ClientHello.v ===== *)
(** * TLS ClientHello parsing ([ww/net/tls_client_hello.c])

    The parser walks the nested length fields of a ClientHello with a cursor
    that it checks before each access, and records where the server name, the
    pre-shared keys and the encrypted hello were found.  The sniffers and the
    packet rewriting nodes use the recorded offsets.

    A pointer is the list of the bytes from there to the end of the object; the
    cursors are [size_t] values no larger than the length of the body, which is
    at most [UINT32_MAX].  A parse returns its result together with the view,
    which the code publishes on every path. *)

From Stdlib Require Import ZArith Lia.
From stdpp Require Import base numbers option list.
From S2P Require Import Prelude Endian.
Open Scope Z_scope.
Open Scope word_scope.

Inductive tls_client_hello_result_t : Set :=
  | kTlsClientHelloNeedMore
  | kTlsClientHelloNotClientHello
  | kTlsClientHelloMalformed
  | kTlsClientHelloNoSni
  | kTlsClientHelloFound.

#[export] Instance tls_client_hello_result_eq_dec : EqDecision tls_client_hello_result_t.
Proof. solve_decision. Defined.

Record tls_client_hello_view_t : Set := mk_hello_view {
  record_total_length : Z;
  record_body_length : Z;
  record_length_field_offset : Z;
  handshake_offset : Z;
  handshake_total_length : Z;
  handshake_body_offset : Z;
  handshake_body_length : Z;
  handshake_length_field_offset : Z;
  extensions_length_field_offset : Z;
  extensions_offset : Z;
  extensions_length : Z;
  sni_extension_offset : Z;
  sni_extension_length_field_offset : Z;
  server_name_list_length_field_offset : Z;
  sni_name_length_field_offset : Z;
  sni_name_offset : Z;
  sni_extension_length : Z;
  server_name_list_length : Z;
  sni_name_length : Z;
  sni_extension_index : Z;
  psk_extension_offset : Z;
  psk_extension_length : Z;
  psk_extension_index : Z;
  ech_extension_offset : Z;
  ech_extension_data_offset : Z;
  ech_extension_length : Z;
  ech_extension_index : Z;
  has_sni : bool;
  has_psk : bool;
  has_ech : bool;
  ech_before_sni : bool
}.

Definition kTlsRecordHeaderLength : Z := 5.
Definition kTlsHandshakeHeaderLength : Z := 4.
Definition kTlsClientHelloFixedLength : Z := 34.
Definition kTlsExtensionServerName : Z := 0x0000.
Definition kTlsExtensionPreSharedKey : Z := 0x0029.
Definition kTlsExtensionEncryptedHello : Z := 0xFE0D.

Definition rangeContains (offset length end_ : Z) : bool :=
  (offset <=? end_) && (length <=? end_ - offset).

Definition tlsclienthelloInitializeView : tls_client_hello_view_t :=
  mk_hello_view 0 0 UINT32_MAX 0 0 0 0 UINT32_MAX 0 0 0 0 0 0 0 0 0 0 0 0 0 0 0 0 0 0 0 false false false false.

(** ** Groups of assignments to the view *)

Definition set_record (v : tls_client_hello_view_t) (total body field : Z) : tls_client_hello_view_t :=
  let 'mk_hello_view _ _ _ a b c d e f g h i j k l m n o p q r s t u x y z w1 w2 w3 w4 := v in
  mk_hello_view total body field a b c d e f g h i j k l m n o p q r s t u x y z w1 w2 w3 w4.

Definition set_handshake (v : tls_client_hello_view_t) (offset total body_offset body field : Z)
  : tls_client_hello_view_t :=
  let 'mk_hello_view a b c _ _ _ _ _ f g h i j k l m n o p q r s t u x y z w1 w2 w3 w4 := v in
  mk_hello_view a b c offset total body_offset body field f g h i j k l m n o p q r s t u x y z w1 w2 w3 w4.

Definition set_extensions (v : tls_client_hello_view_t) (field offset length : Z) : tls_client_hello_view_t :=
  let 'mk_hello_view a b c d e f g h _ _ _ i j k l m n o p q r s t u x y z w1 w2 w3 w4 := v in
  mk_hello_view a b c d e f g h field offset length i j k l m n o p q r s t u x y z w1 w2 w3 w4.

Definition set_sni (v : tls_client_hello_view_t)
    (offset ext_field list_field name_field name_offset ext_length list_length name_length index : Z)
  : tls_client_hello_view_t :=
  let 'mk_hello_view a b c d e f g h i j k _ _ _ _ _ _ _ _ _ r s t u x y z _ w2 w3 w4 := v in
  mk_hello_view a b c d e f g h i j k offset ext_field list_field name_field name_offset ext_length list_length
    name_length index r s t u x y z true w2 w3 w4.

Definition set_psk (v : tls_client_hello_view_t) (offset length index : Z) : tls_client_hello_view_t :=
  let 'mk_hello_view a b c d e f g h i j k l m n o p q r s t _ _ _ u x y z w1 _ w3 w4 := v in
  mk_hello_view a b c d e f g h i j k l m n o p q r s t offset length index u x y z w1 true w3 w4.

Definition set_ech (v : tls_client_hello_view_t) (offset data_offset length index : Z) : tls_client_hello_view_t :=
  let 'mk_hello_view a b c d e f g h i j k l m n o p q r s t u x y _ _ _ _ w1 w2 _ w4 := v in
  mk_hello_view a b c d e f g h i j k l m n o p q r s t u x y offset data_offset length index w1 w2 true w4.

Definition set_order (v : tls_client_hello_view_t) (before : bool) : tls_client_hello_view_t :=
  let 'mk_hello_view a b c d e f g h i j k l m n o p q r s t u x y z z1 z2 z3 w1 w2 w3 _ := v in
  mk_hello_view a b c d e f g h i j k l m n o p q r s t u x y z z1 z2 z3 w1 w2 w3 before.

(** ** The body *)

(** [while (names_cursor < names_end)]: false where the code returns
    [kTlsClientHelloMalformed].  Each entry takes at least three bytes. *)
Fixpoint names_loop (fuel : nat) (body : list Z) (body_offset extension_offset extension_data_offset
    extension_length server_name_list_length extension_index names_end names_cursor : Z)
    (view : tls_client_hello_view_t) : outcome (bool * tls_client_hello_view_t) :=
  match fuel with
  | O => Fail NotModelled
  | S fuel' =>
      if negb (names_cursor <? names_end) then mret (true, view)
      else if negb (rangeContains names_cursor 3 names_end) then mret (false, view)
      else
        name_type ← load8 body names_cursor;
        let name_length_offset := names_cursor + 1 in
        name_length ← GET_BE16 body name_length_offset;
        let name_offset := names_cursor + 3 in
        if negb (rangeContains name_offset name_length names_end) then mret (false, view)
        else
          let view :=
            if (name_type =? 0x00) && negb (has_sni view) then
              set_sni view (body_offset +32 wrap32 extension_offset)
                (body_offset +32 wrap32 extension_offset +32 2)
                (body_offset +32 wrap32 extension_data_offset)
                (body_offset +32 wrap32 name_length_offset)
                (body_offset +32 wrap32 name_offset)
                extension_length server_name_list_length name_length extension_index
            else view in
          names_loop fuel' body body_offset extension_offset extension_data_offset extension_length
            server_name_list_length extension_index names_end (name_offset + name_length) view
  end.

(** What one extension does to the view. *)
Definition visit_extension (body : list Z) (body_offset extension_offset extension_type extension_length
    extension_index cursor extension_end : Z) (view : tls_client_hello_view_t)
  : outcome (bool * tls_client_hello_view_t) :=
  let extension_data_offset := cursor in
  if (extension_type =? kTlsExtensionServerName) && negb (has_sni view) then
    if extension_length <? 2 then mret (false, view)
    else
      server_name_list_length ← GET_BE16 body cursor;
      let names_cursor := cursor + 2 in
      let names_end := names_cursor + server_name_list_length in
      if negb (names_end =? extension_end) then mret (false, view)
      else names_loop (S (Z.to_nat server_name_list_length)) body body_offset extension_offset
             extension_data_offset extension_length server_name_list_length extension_index names_end names_cursor view
  else if (extension_type =? kTlsExtensionPreSharedKey) && negb (has_psk view) then
    mret (true, set_psk view (body_offset +32 wrap32 extension_offset) extension_length extension_index)
  else if (extension_type =? kTlsExtensionEncryptedHello) && negb (has_ech view) then
    mret (true, set_ech view (body_offset +32 wrap32 extension_offset)
                  (body_offset +32 wrap32 extension_data_offset) extension_length extension_index)
  else mret (true, view).

(** [while (cursor < extensions_end)]; each extension takes at least four bytes. *)
Fixpoint extensions_loop (fuel : nat) (body : list Z) (body_offset extensions_end cursor extension_index : Z)
    (view : tls_client_hello_view_t) : outcome (bool * tls_client_hello_view_t) :=
  match fuel with
  | O => Fail NotModelled
  | S fuel' =>
      if negb (cursor <? extensions_end) then mret (true, view)
      else if negb (rangeContains cursor 4 extensions_end) then mret (false, view)
      else
        let extension_offset := cursor in
        extension_type ← GET_BE16 body cursor;
        extension_length ← GET_BE16 body (cursor + 2);
        let cursor := cursor + 4 in
        if negb (rangeContains cursor extension_length extensions_end) then mret (false, view)
        else
          let extension_end := cursor + extension_length in
          '(ok, view) ← visit_extension body body_offset extension_offset extension_type extension_length
                          extension_index cursor extension_end view;
          if negb ok then mret (false, view)
          else extensions_loop fuel' body body_offset extensions_end extension_end (wrap16 (extension_index + 1)) view
  end.

Definition tlsclienthelloParseBodyAt (body : option (list Z)) (body_length body_offset : Z)
    (view : tls_client_hello_view_t) : outcome (tls_client_hello_result_t * tls_client_hello_view_t) :=
  let malformed := mret (kTlsClientHelloMalformed, view) in
  match body with
  | None => malformed
  | Some body =>
      if (body_length <? kTlsClientHelloFixedLength) || (body_length >? UINT32_MAX) then malformed
      else
        let cursor := kTlsClientHelloFixedLength in
        if negb (rangeContains cursor 1 body_length) then malformed
        else
          session_id_length ← load8 body cursor;
          let cursor := cursor + 1 in
          if negb (rangeContains cursor (session_id_length + 2) body_length) then malformed
          else
            let cursor := cursor + session_id_length in
            cipher_suites_length ← GET_BE16 body cursor;
            let cursor := cursor + 2 in
            if negb (rangeContains cursor (cipher_suites_length + 1) body_length) then malformed
            else
              let cursor := cursor + cipher_suites_length in
              compression_methods_length ← load8 body cursor;
              let cursor := cursor + 1 in
              if negb (rangeContains cursor compression_methods_length body_length) then malformed
              else
                let cursor := cursor + compression_methods_length in
                if cursor =? body_length then mret (kTlsClientHelloNoSni, view)
                else if negb (rangeContains cursor 2 body_length) then malformed
                else
                  let extensions_length_offset := cursor in
                  extensions_length ← GET_BE16 body cursor;
                  let cursor := cursor + 2 in
                  if negb (rangeContains cursor extensions_length body_length) ||
                     negb (cursor + extensions_length =? body_length) then malformed
                  else
                    let extensions_offset := cursor in
                    let extensions_end := cursor + extensions_length in
                    let view := set_extensions view (body_offset +32 wrap32 extensions_length_offset)
                                  (body_offset +32 wrap32 extensions_offset) extensions_length in
                    '(ok, view) ← extensions_loop (S (Z.to_nat extensions_length)) body body_offset
                                    extensions_end cursor 0 view;
                    if negb ok then mret (kTlsClientHelloMalformed, view)
                    else
                      let view := set_order view
                        (has_ech view && has_sni view && (ech_extension_index view <? sni_extension_index view)) in
                      mret (if has_sni view then kTlsClientHelloFound else kTlsClientHelloNoSni, view)
  end.

(** ** Entry points *)

(** The view is what is written through the pointer, if it is not NULL. *)
Definition tlsclienthelloParseHandshakeBody (body : option (list Z)) (body_length : Z)
  : outcome (tls_client_hello_result_t * tls_client_hello_view_t) :=
  let parsed := tlsclienthelloInitializeView in
  let parsed := set_handshake parsed (handshake_offset parsed) (handshake_total_length parsed)
    (handshake_body_offset parsed) (if body_length <=? UINT32_MAX then wrap32 body_length else 0)
    (handshake_length_field_offset parsed) in
  tlsclienthelloParseBodyAt body body_length 0 parsed.

Definition tlsclienthelloParseHandshakeAt (handshake : list Z) (available_length handshake_offset : Z)
    (view : tls_client_hello_view_t) : outcome (tls_client_hello_result_t * tls_client_hello_view_t) :=
  if available_length =? 0 then mret (kTlsClientHelloNeedMore, view)
  else
    kind ← load8 handshake 0;
    if negb (kind =? 0x01) then mret (kTlsClientHelloNotClientHello, view)
    else if available_length <? kTlsHandshakeHeaderLength then mret (kTlsClientHelloNeedMore, view)
    else
      body_length ← GET_BE24 handshake 1;
      if available_length <? kTlsHandshakeHeaderLength + body_length then mret (kTlsClientHelloNeedMore, view)
      else
        let view := set_handshake view handshake_offset (kTlsHandshakeHeaderLength +32 body_length)
          (handshake_offset +32 kTlsHandshakeHeaderLength) body_length (handshake_offset +32 1) in
        tlsclienthelloParseBodyAt (Some (drop (Z.to_nat kTlsHandshakeHeaderLength) handshake)) body_length
          (handshake_body_offset view) view.

Definition tlsclienthelloParseHandshake (handshake : option (list Z)) (available_length : Z)
  : outcome (tls_client_hello_result_t * tls_client_hello_view_t) :=
  let parsed := tlsclienthelloInitializeView in
  match handshake with
  | None => mret (kTlsClientHelloNeedMore, parsed)
  | Some handshake => tlsclienthelloParseHandshakeAt handshake available_length 0 parsed
  end.

(** [length >= n && test p[i]]: the byte is read only when it is there. *)
Definition guarded_byte (present : bool) (p : list Z) (i : Z) (test : Z -> bool) : outcome bool :=
  if present then b ← load8 p i; mret (test b) else mret false.

Definition tlsclienthelloParseRecord (record : option (list Z)) (available_length : Z)
  : outcome (tls_client_hello_result_t * tls_client_hello_view_t) :=
  let parsed := tlsclienthelloInitializeView in
  match record with
  | None => mret (kTlsClientHelloNeedMore, parsed)
  | Some record =>
      if available_length =? 0 then mret (kTlsClientHelloNeedMore, parsed)
      else
        kind ← load8 record 0;
        if negb (kind =? 0x16) then mret (kTlsClientHelloNotClientHello, parsed)
        else
          major ← guarded_byte (available_length >=? 2) record 1 (fun b => negb (b =? 0x03));
          minor ← (if (major : bool) then mret true
                   else guarded_byte (available_length >=? 3) record 2 (fun b => b >? 0x03));
          if (minor : bool) then mret (kTlsClientHelloNotClientHello, parsed)
          else if available_length <? kTlsRecordHeaderLength then mret (kTlsClientHelloNeedMore, parsed)
          else
            record_body_length ← GET_BE16 record 3;
            if record_body_length <? kTlsHandshakeHeaderLength then mret (kTlsClientHelloMalformed, parsed)
            else
              let record_total_length := kTlsRecordHeaderLength +32 record_body_length in
              if available_length <? record_total_length then mret (kTlsClientHelloNeedMore, parsed)
              else
                let parsed := set_record parsed record_total_length record_body_length 3 in
                '(result, parsed) ← tlsclienthelloParseHandshakeAt
                    (drop (Z.to_nat kTlsRecordHeaderLength) record) record_body_length kTlsRecordHeaderLength parsed;
                mret (match result with
                      | kTlsClientHelloNeedMore => kTlsClientHelloMalformed
                      | _ => result
                      end, parsed)
  end.
