(* ===== verification/HelloGrammar.v ===== *)
(** * The ClientHello grammar and its parser

    [hello] is a ClientHello as the TLS specification describes it and
    [enc_hello] its bytes.  The parser of [ClientHello] accepts exactly the
    encodings, and the view it fills in points at the parts of the message. *)

From Stdlib Require Import ZArith Lia.
From stdpp Require Import base numbers option list.
From S2P Require Import Prelude Endian ClientHello.
Open Scope Z_scope.
Open Scope word_scope.

(** ** Messages *)

(** An entry of a server name list: its type, and its bytes. *)
Definition server_name : Type := Z * list Z.

Definition enc_name (n : server_name) : list Z := [n.1] ++ be16_bytes (zlen n.2) ++ n.2.
Definition enc_names (l : list server_name) : list Z := concat (enc_name <$> l).

(** The first host name of a list. *)
Fixpoint host_name (l : list server_name) : option (list Z) :=
  match l with
  | [] => None
  | n :: l => if n.1 =? 0 then Some n.2 else host_name l
  end.

Inductive extension : Type :=
  | ServerNames (names : list server_name)
  | Opaque (type : Z) (data : list Z).

Definition ext_type (e : extension) : Z :=
  match e with ServerNames _ => kTlsExtensionServerName | Opaque t _ => t end.
Definition ext_data (e : extension) : list Z :=
  match e with
  | ServerNames names => be16_bytes (zlen (enc_names names)) ++ enc_names names
  | Opaque _ data => data
  end.
Definition enc_ext (e : extension) : list Z :=
  be16_bytes (ext_type e) ++ be16_bytes (zlen (ext_data e)) ++ ext_data e.
Definition enc_exts (l : list extension) : list Z := concat (enc_ext <$> l).

(** The name the message asks for: the first host name of the first server name
    extension that has one. *)
Fixpoint sni_of (l : list extension) : option (list Z) :=
  match l with
  | [] => None
  | ServerNames names :: l => match host_name names with Some n => Some n | None => sni_of l end
  | Opaque _ _ :: l => sni_of l
  end.

Record hello : Type := mk_hello {
  ch_fixed : list Z;
  ch_session : list Z;
  ch_ciphers : list Z;
  ch_compression : list Z;
  ch_extensions : option (list extension)
}.

Definition enc_hello (h : hello) : list Z :=
  ch_fixed h ++ [zlen (ch_session h)] ++ ch_session h ++
  be16_bytes (zlen (ch_ciphers h)) ++ ch_ciphers h ++
  [zlen (ch_compression h)] ++ ch_compression h ++
  match ch_extensions h with
  | None => []
  | Some l => be16_bytes (zlen (enc_exts l)) ++ enc_exts l
  end.

Definition name_wf (n : server_name) : Prop := u8 n.1 /\ Forall u8 n.2 /\ zlen n.2 <= UINT16_MAX.

(** A server name extension must be one until a host name was [found]; later
    ones may hold anything. *)
Definition ext_wf (found : bool) (e : extension) : Prop :=
  zlen (ext_data e) <= UINT16_MAX /\
  match e with
  | ServerNames names => Forall name_wf names
  | Opaque t data => u16 t /\ Forall u8 data /\ (t = kTlsExtensionServerName -> found = true)
  end.

Definition finds (found : bool) (e : extension) : bool :=
  found || match e with ServerNames names => bool_decide (is_Some (host_name names)) | Opaque _ _ => false end.

Fixpoint exts_wf (found : bool) (l : list extension) : Prop :=
  match l with
  | [] => True
  | e :: l => ext_wf found e /\ exts_wf (finds found e) l
  end.

Record hello_wf (h : hello) : Prop := mk_hello_wf {
  hw_fixed : zlen (ch_fixed h) = kTlsClientHelloFixedLength /\ Forall u8 (ch_fixed h);
  hw_session : zlen (ch_session h) <= UINT8_MAX /\ Forall u8 (ch_session h);
  hw_ciphers : zlen (ch_ciphers h) <= UINT16_MAX /\ Forall u8 (ch_ciphers h);
  hw_compression : zlen (ch_compression h) <= UINT8_MAX /\ Forall u8 (ch_compression h);
  hw_extensions : match ch_extensions h with
                  | None => True
                  | Some l => zlen (enc_exts l) <= UINT16_MAX /\ exts_wf false l
                  end
}.

Definition hello_sni (h : hello) : option (list Z) := sni_of (default [] (ch_extensions h)).

(** ** Lengths *)

Lemma zlen_enc_name n : zlen (enc_name n) = 3 + zlen n.2.
Proof. unfold enc_name. rewrite !zlen_app, zlen_be16_bytes. change (zlen [n.1]) with 1. lia. Qed.

Lemma enc_names_cons n l : enc_names (n :: l) = enc_name n ++ enc_names l.
Proof. done. Qed.

Lemma enc_exts_cons e l : enc_exts (e :: l) = enc_ext e ++ enc_exts l.
Proof. done. Qed.

Lemma zlen_enc_ext e : zlen (enc_ext e) = 4 + zlen (ext_data e).
Proof. unfold enc_ext. rewrite !zlen_app, !zlen_be16_bytes. lia. Qed.

Lemma zlen_u16 {A} (l : list A) : zlen l <= UINT16_MAX -> u16 (zlen l).
Proof. pose proof (zlen_nonneg l). by split. Qed.

Lemma contains_iff offset length end_ :
  0 <= length -> rangeContains offset length end_ = true <-> offset + length <= end_.
Proof. intros Hl. unfold rangeContains. rewrite andb_true_iff, !Z.leb_le. lia. Qed.

Lemma contains_yes offset length end_ :
  0 <= length -> offset + length <= end_ -> rangeContains offset length end_ = true.
Proof. intros. by apply contains_iff. Qed.

Lemma contains_no offset length end_ :
  0 <= length -> rangeContains offset length end_ = false -> end_ < offset + length.
Proof.
  intros Hl E. destruct (Z.lt_ge_cases end_ (offset + length)) as [|H]; [done|].
  assert (rangeContains offset length end_ = true) by (apply contains_iff; lia). congruence.
Qed.

(** ** The view of a message *)

(** The first host name of a list at [c], with its position. *)
Fixpoint host_at (c : Z) (l : list server_name) : option (Z * list Z) :=
  match l with
  | [] => None
  | n :: l => if n.1 =? 0 then Some (c, n.2) else host_at (c + zlen (enc_name n)) l
  end.

(** The view after an extension at offset [c] of a body at [base]. *)
Definition see (base c index : Z) (e : extension) (v : tls_client_hello_view_t) : tls_client_hello_view_t :=
  let at_ x := base +32 wrap32 x in
  match e with
  | ServerNames names =>
      if has_sni v then v
      else match host_at (c + 6) names with
           | Some (p, name) =>
               set_sni v (at_ c) (at_ c +32 2) (at_ (c + 4)) (at_ (p + 1)) (at_ (p + 3))
                 (zlen (ext_data e)) (zlen (enc_names names)) (zlen name) index
           | None => v
           end
  | Opaque t data =>
      if (t =? kTlsExtensionPreSharedKey) && negb (has_psk v) then set_psk v (at_ c) (zlen data) index
      else if (t =? kTlsExtensionEncryptedHello) && negb (has_ech v) then
        set_ech v (at_ c) (at_ (c + 4)) (zlen data) index
      else v
  end.

Fixpoint see_all (base c index : Z) (l : list extension) (v : tls_client_hello_view_t) : tls_client_hello_view_t :=
  match l with
  | [] => v
  | e :: l => see_all base (c + zlen (enc_ext e)) (wrap16 (index + 1)) l (see base c index e v)
  end.

Lemma host_at_name l : forall c, snd <$> host_at c l = host_name l.
Proof. induction l as [|n l IH]; intros c; simpl; [done|]. by destruct (n.1 =? 0). Qed.

(** Assignments to one part of the view leave the others alone. *)
Lemma sni_sets v a b c d e f g h i : let v' := set_sni v a b c d e f g h i in
  has_sni v' = true /\ has_psk v' = has_psk v /\ has_ech v' = has_ech v.
Proof. by destruct v. Qed.
Lemma psk_sets v a b c : let v' := set_psk v a b c in
  has_psk v' = true /\ has_sni v' = has_sni v /\ has_ech v' = has_ech v.
Proof. by destruct v. Qed.
Lemma ech_sets v a b c d : let v' := set_ech v a b c d in
  has_ech v' = true /\ has_sni v' = has_sni v /\ has_psk v' = has_psk v.
Proof. by destruct v. Qed.

Lemma see_finds base c index e v : has_sni (see base c index e v) = finds (has_sni v) e.
Proof.
  unfold see, finds. destruct e as [names|t data].
  - destruct (has_sni v) eqn:Hs; [done|]. simpl. rewrite <- (host_at_name names (c + 6)).
    destruct (host_at (c + 6) names) as [[p name]|]; simpl; [by destruct v|]. by rewrite Hs.
  - rewrite orb_false_r. repeat split_test; by destruct v.
Qed.

Section Body.
Context (body : list Z) (F : Forall u8 body) (base : Z).

(** ** Server names *)

Section Names.
Context (eo elen llen index : Z).

Lemma names_complete names : forall fuel c v,
  Forall name_wf names -> located body c (enc_names names) -> (Z.to_nat (zlen (enc_names names)) < fuel)%nat ->
  names_loop fuel body base eo (eo + 4) elen llen index (c + zlen (enc_names names)) c v =
    Ok (true, if has_sni v then v else
              match host_at c names with
              | Some (p, name) =>
                  set_sni v (base +32 wrap32 eo) (base +32 wrap32 eo +32 2) (base +32 wrap32 (eo + 4))
                    (base +32 wrap32 (p + 1)) (base +32 wrap32 (p + 3)) elen llen (zlen name) index
              | None => v
              end).
Proof.
  induction names as [|n names IH]; intros [|fuel] c v W L Hf; try lia.
  { cbn [names_loop]. change (zlen (enc_names [])) with 0. rewrite Z.add_0_r, (proj2 (Z.ltb_ge c c)) by lia.
    simpl. by destruct (has_sni v). }
  apply Forall_cons in W as [(Wt & Wn & Wl) W]. rewrite enc_names_cons in *. rewrite zlen_app, zlen_enc_name in *.
  apply located_app in L as [L1 L2]. pose proof (proj1 (proj2 L2)) as Hb. rewrite zlen_enc_name in *.
  pose proof (zlen_nonneg n.2) as Hn. pose proof (zlen_nonneg (enc_names names)) as Hm.
  unfold enc_name in L1. apply located_app in L1 as [Lt L1]. apply located_app in L1 as [Ll Ln].
  change (zlen [n.1]) with 1 in *. rewrite zlen_be16_bytes in *. pose proof (proj1 Lt) as Hc.
  cbn [names_loop]. rewrite (proj2 (Z.ltb_lt _ _)) by lia. cbn [negb].
  rewrite contains_yes by lia. cbn [negb]. load_step. load_step.
  rewrite (located_byte _ _ _ Lt), (located_be16 _ _ _ (zlen_u16 _ Wl) Ll).
  rewrite contains_yes by lia. cbn [negb].
  replace (c + (3 + zlen n.2 + zlen (enc_names names))) with (c + 3 + zlen n.2 + zlen (enc_names names)) by lia.
  rewrite IH; [|done|by replace (c + 3 + zlen n.2) with (c + (3 + zlen n.2)) by lia|lia].
  cbn [host_at]. rewrite zlen_enc_name. replace (c + (3 + zlen n.2)) with (c + 3 + zlen n.2) by lia.
  do 2 f_equal. destruct (n.1 =? 0), (has_sni v) eqn:Hs; simpl; rewrite ?Hs; try done. by destruct v.
Qed.

Lemma names_sound names_end : forall fuel c v,
  0 <= c <= names_end -> names_end <= zlen body -> (Z.to_nat (names_end - c) < fuel)%nat ->
  exists ok v', names_loop fuel body base eo (eo + 4) elen llen index names_end c v = Ok (ok, v') /\
    (ok = true -> exists names, Forall name_wf names /\ located body c (enc_names names) /\
                   names_end = c + zlen (enc_names names)).
Proof.
  induction fuel as [|fuel IH]; intros c v Hc He Hf; [lia|]. cbn [names_loop].
  destruct (c <? names_end) eqn:Et; bool_facts; cbn [negb].
  2: { exists true, v. split; [done|]. intros _. exists []. split; [done|]. change (enc_names []) with (@nil Z).
       rewrite zlen_nil. split; [apply located_nil; lia|lia]. }
  destruct (rangeContains c 3 names_end) eqn:E3; cbn [negb]; [|by exists false, v].
  apply contains_iff in E3; [|lia]. rewrite load8_ok by lia. step_ok. rewrite GET_BE16_ok by (auto; lia). step_ok.
  pose proof (be16_u16 body (c + 1) F) as [Hn Hn2].
  destruct (rangeContains (c + 3) (be16 body (c + 1)) names_end) eqn:En; cbn [negb]; [|by exists false, v].
  apply contains_iff in En; [|done]. set (len := be16 body (c + 1)) in *.
  match goal with |- context [names_loop fuel body base eo (eo + 4) elen llen index names_end _ ?w] =>
    destruct (IH (c + 3 + len) w) as (ok & v' & E & Hok) end; [lia|lia|lia|].
  exists ok, v'. split; [exact E|]. intros Ht. destruct (Hok Ht) as (names & W & L & Ee).
  assert (zlen (slice (c + 3) len body) = len) as Es by (apply zlen_slice; lia).
  exists ((byte_at body c, slice (c + 3) len body) :: names). rewrite enc_names_cons, zlen_app, zlen_enc_name. cbn [fst snd].
  rewrite Es. split; [|split; [|lia]].
  - constructor; [|done]. split; [by apply byte_at_u8|]. cbn [snd]. rewrite Es. split; [by apply Forall_slice|done].
  - apply located_app. rewrite zlen_enc_name. cbn [fst snd]. rewrite Es. split; [|by replace (c + (3 + len)) with (c + 3 + len) by lia].
    unfold enc_name. cbn [fst snd]. rewrite Es. apply located_app. split; [apply byte_located; lia|].
    apply located_app. change (zlen [byte_at body c]) with 1. rewrite zlen_be16_bytes.
    split; [apply be16_located; auto; lia|]. replace (c + 1 + 2) with (c + 3) by lia. apply located_slice; lia.
Qed.
End Names.

(** ** Extensions *)

Lemma ext_parts c e : located body c (enc_ext e) ->
  located body c (be16_bytes (ext_type e)) /\ located body (c + 2) (be16_bytes (zlen (ext_data e))) /\
  located body (c + 4) (ext_data e).
Proof.
  unfold enc_ext. rewrite !located_app, !zlen_be16_bytes. by replace (c + 2 + 2) with (c + 4) by lia.
Qed.

Lemma ext_type_u16 found e : ext_wf found e -> u16 (ext_type e).
Proof. destruct e; intros [_ W]; [split; vm_compute; congruence|apply W]. Qed.

Lemma visit_complete c index e v :
  located body c (enc_ext e) -> ext_wf (has_sni v) e ->
  visit_extension body base c (ext_type e) (zlen (ext_data e)) index (c + 4) (c + 4 + zlen (ext_data e)) v =
    Ok (true, see base c index e v).
Proof.
  intros L [Wl W]. apply ext_parts in L as (_ & _ & L). unfold visit_extension, see. destruct e as [names|t data].
  - cbn [ext_type ext_data] in *. rewrite Z.eqb_refl. destruct (has_sni v) eqn:Hs; [done|].
    apply located_app in L as [Ll Ln]. rewrite zlen_app, zlen_be16_bytes in *. pose proof (zlen_nonneg (enc_names names)).
    pose proof (proj1 Ll). pose proof (proj1 (proj2 Ln)). cbn [andb negb]. rewrite (proj2 (Z.ltb_ge _ _)) by lia.
    load_step. rewrite (located_be16 _ _ (zlen (enc_names names)) ltac:(split; lia) Ll).
    rewrite (proj2 (Z.eqb_eq _ _)) by lia. cbn [negb]. rewrite names_complete by (auto; lia).
    rewrite Hs. by replace (c + 4 + 2) with (c + 6) by lia.
  - destruct W as (_ & _ & W). cbn [ext_type ext_data] in *.
    destruct (t =? kTlsExtensionServerName) eqn:Et; bool_facts; [rewrite (W Et)|]; cbn [andb negb]; by repeat split_test.
Qed.

Lemma extensions_complete l : forall fuel c index v,
  exts_wf (has_sni v) l -> located body c (enc_exts l) -> (Z.to_nat (zlen (enc_exts l)) < fuel)%nat ->
  extensions_loop fuel body base (c + zlen (enc_exts l)) c index v = Ok (true, see_all base c index l v).
Proof.
  induction l as [|e l IH]; intros [|fuel] c index v W L Hf; try lia.
  { cbn [extensions_loop]. change (zlen (enc_exts [])) with 0. by rewrite Z.add_0_r, (proj2 (Z.ltb_ge c c)) by lia. }
  destruct W as [We W]. rewrite enc_exts_cons, zlen_app, zlen_enc_ext in *. apply located_app in L as [Le L].
  rewrite zlen_enc_ext in L. pose proof (zlen_nonneg (ext_data e)) as Hd. pose proof (zlen_nonneg (enc_exts l)).
  pose proof (proj1 (proj2 L)) as Hb. destruct (ext_parts c e Le) as (Lt & Ll & _). pose proof (proj1 Lt) as Hc.
  cbn [extensions_loop]. rewrite (proj2 (Z.ltb_lt _ _)) by lia. cbn [negb]. rewrite contains_yes by lia. cbn [negb].
  load_step. load_step. rewrite (located_be16 _ _ _ (ext_type_u16 _ _ We) Lt).
  rewrite (located_be16 _ _ _ (zlen_u16 _ (proj1 We)) Ll). rewrite contains_yes by lia. cbn [negb].
  rewrite visit_complete by done. step_ok. cbn [negb].
  replace (c + (4 + zlen (ext_data e) + zlen (enc_exts l))) with (c + 4 + zlen (ext_data e) + zlen (enc_exts l)) by lia.
  rewrite IH; [|by rewrite see_finds|by replace (c + 4 + zlen (ext_data e)) with (c + (4 + zlen (ext_data e))) by lia|lia].
  cbn [see_all]. rewrite zlen_enc_ext. by replace (c + (4 + zlen (ext_data e))) with (c + 4 + zlen (ext_data e)) by lia.
Qed.

Lemma visit_sound c index t len v :
  0 <= c -> 0 <= len -> c + 4 + len <= zlen body -> t = be16 body c -> len = be16 body (c + 2) ->
  exists ok v', visit_extension body base c t len index (c + 4) (c + 4 + len) v = Ok (ok, v') /\
    (ok = true -> exists e, ext_wf (has_sni v) e /\ located body c (enc_ext e) /\ zlen (ext_data e) = len).
Proof.
  intros Hc Hl Hb Et El. pose proof (be16_u16 body c F) as Ht. pose proof (be16_u16 body (c + 2) F) as Hn.
  rewrite <- Et in Ht. rewrite <- El in Hn.
  assert (forall data, zlen data = len -> located body (c + 4) data ->
    located body c (be16_bytes t ++ be16_bytes (zlen data) ++ data)) as Build.
  { intros data Ed Ld. rewrite Ed. apply located_app. split; [rewrite Et; apply be16_located; auto; lia|].
    rewrite zlen_be16_bytes. apply located_app. rewrite zlen_be16_bytes. replace (c + 2 + 2) with (c + 4) by lia.
    split; [rewrite El; apply be16_located; auto; lia|done]. }
  assert (zlen (slice (c + 4) len body) = len) as Es by (apply zlen_slice; lia).
  assert ((t = kTlsExtensionServerName -> has_sni v = true) ->
    exists e, ext_wf (has_sni v) e /\ located body c (enc_ext e) /\ zlen (ext_data e) = len) as Plain.
  { intros Hs. exists (Opaque t (slice (c + 4) len body)). cbn [ext_data]. split; [split; cbn [ext_data]|split; [|done]].
    - rewrite Es. apply Hn.
    - split; [done|]. split; [by apply Forall_slice|done].
    - unfold enc_ext. cbn [ext_type ext_data]. apply Build; [done|]. apply located_slice; lia. }
  unfold visit_extension. destruct (t =? kTlsExtensionServerName) eqn:E0; bool_facts.
  2: { cbn [andb]. repeat split_test; (eexists true, _; split; [done|]; intros _; apply Plain; lia). }
  destruct (has_sni v) eqn:Hs; cbn [andb negb].
  { rewrite E0. repeat split_test; (eexists true, _; split; [done|]; intros _; by apply Plain). }
  destruct (len <? 2) eqn:E2; bool_facts; [by exists false, v|]. rewrite GET_BE16_ok by (auto; lia). step_ok.
  pose proof (be16_u16 body (c + 4) F) as Hm. set (m := be16 body (c + 4)) in *. unfold u16 in Hm.
  destruct (c + 4 + 2 + m =? c + 4 + len) eqn:Em; bool_facts; cbn [negb]; [|by exists false, v].
  destruct (names_sound c len m index (c + 4 + 2 + m) (S (Z.to_nat m)) (c + 4 + 2) v) as (ok & v' & E & Hok); [lia|lia|lia|].
  exists ok, v'. split; [exact E|]. intros Hk. destruct (Hok Hk) as (names & W & L & Ee).
  assert (zlen (ext_data (ServerNames names)) = len) as Ed by (cbn [ext_data]; rewrite zlen_app, zlen_be16_bytes; lia).
  exists (ServerNames names). split; [split; [rewrite Ed; apply Hn|done]|]. split; [|done].
  unfold enc_ext. cbn [ext_type]. rewrite <- E0. apply Build; [done|]. cbn [ext_data]. apply located_app.
  replace (zlen (enc_names names)) with m by lia. split; [apply be16_located; auto; lia|by rewrite zlen_be16_bytes].
Qed.

Lemma extensions_sound extensions_end : forall fuel c index v,
  0 <= c <= extensions_end -> extensions_end <= zlen body -> (Z.to_nat (extensions_end - c) < fuel)%nat ->
  exists ok v', extensions_loop fuel body base extensions_end c index v = Ok (ok, v') /\
    (ok = true -> exists l, exts_wf (has_sni v) l /\ located body c (enc_exts l) /\
                   extensions_end = c + zlen (enc_exts l)).
Proof.
  induction fuel as [|fuel IH]; intros c index v Hc He Hf; [lia|]. cbn [extensions_loop].
  destruct (c <? extensions_end) eqn:Et; bool_facts; cbn [negb].
  2: { exists true, v. split; [done|]. intros _. exists []. split; [done|]. change (enc_exts []) with (@nil Z).
       rewrite zlen_nil. split; [apply located_nil; lia|lia]. }
  destruct (rangeContains c 4 extensions_end) eqn:E4; cbn [negb]; [|by exists false, v].
  apply contains_iff in E4; [|lia]. do 2 (rewrite GET_BE16_ok by (auto; lia); step_ok).
  pose proof (be16_u16 body (c + 2) F) as [Hn _]. set (len := be16 body (c + 2)) in *.
  destruct (rangeContains (c + 4) len extensions_end) eqn:En; cbn [negb]; [|by exists false, v].
  apply contains_iff in En; [|done].
  destruct (visit_sound c index (be16 body c) len v) as (ok & v1 & E1 & Hok); [lia|done|lia|done|done|].
  rewrite E1. step_ok. destruct ok; cbn [negb]; [|by exists false, v1].
  destruct (Hok eq_refl) as (e & We & Le & Ed).
  destruct (IH (c + 4 + len) (wrap16 (index + 1)) v1) as (ok & v2 & E2 & Hok2); [lia|lia|lia|].
  exists ok, v2. split; [exact E2|]. intros Hk. destruct (Hok2 Hk) as (l & W & L & Ee). exists (e :: l).
  assert (v1 = see base c index e v) as Ev.
  { pose proof (visit_complete c index e v Le We) as E3. destruct (ext_parts c e Le) as (Lt & _ & _).
    rewrite (located_be16 _ _ _ (ext_type_u16 _ _ We) Lt), <- Ed in E1. congruence. }
  rewrite enc_exts_cons, zlen_app, zlen_enc_ext, Ed. split; [split; [done|by rewrite Ev, see_finds in W]|].
  split; [|lia]. apply located_app. rewrite zlen_enc_ext, Ed. split; [done|].
  by replace (c + (4 + len)) with (c + 4 + len) by lia.
Qed.
End Body.

Lemma see_all_sni base l : forall c index v,
  has_sni (see_all base c index l v) = has_sni v || bool_decide (is_Some (sni_of l)).
Proof.
  induction l as [|e l IH]; intros c index v; cbn [see_all sni_of]; [by rewrite orb_false_r|].
  rewrite IH, see_finds. unfold finds. destruct e as [names|t data]; [|by rewrite orb_false_r].
  destruct (has_sni v), (host_name names); simpl; done.
Qed.

(** ** The whole body *)

(** The offset of the extensions. *)
Definition exts_offset (h : hello) : Z :=
  kTlsClientHelloFixedLength + 1 + zlen (ch_session h) + 2 + zlen (ch_ciphers h) + 1 + zlen (ch_compression h) + 2.

Definition hello_view (base : Z) (h : hello) (v : tls_client_hello_view_t) : tls_client_hello_view_t :=
  match ch_extensions h with
  | None => v
  | Some l =>
      let v := set_extensions v (base +32 wrap32 (exts_offset h - 2)) (base +32 wrap32 (exts_offset h)) (zlen (enc_exts l)) in
      let v := see_all base (exts_offset h) 0 l v in
      set_order v (has_ech v && has_sni v && (ech_extension_index v <? sni_extension_index v))
  end.

Definition hello_result (h : hello) : tls_client_hello_result_t :=
  match hello_sni h with Some _ => kTlsClientHelloFound | None => kTlsClientHelloNoSni end.

Section Whole.
Context (bytes : list Z) (F : Forall u8 bytes) (base : Z).

Lemma hello_parts h : located bytes 0 (enc_hello h) -> zlen (ch_fixed h) = kTlsClientHelloFixedLength ->
  located bytes 34 [zlen (ch_session h)] /\
  located bytes (35 + zlen (ch_session h)) (be16_bytes (zlen (ch_ciphers h))) /\
  located bytes (37 + zlen (ch_session h) + zlen (ch_ciphers h)) [zlen (ch_compression h)] /\
  located bytes (exts_offset h - 2)
    match ch_extensions h with None => [] | Some l => be16_bytes (zlen (enc_exts l)) ++ enc_exts l end.
Proof.
  unfold enc_hello. rewrite !located_app, !zlen_be16_bytes. change (zlen [?x]) with 1. intros L Ef. rewrite Ef in L.
  unfold exts_offset, kTlsClientHelloFixedLength in *.
  destruct L as (_ & L1 & _ & L2 & _ & L3 & _ & L4). split; [exact L1|].
  split; [by replace (35 + zlen (ch_session h)) with (0 + 34 + 1 + zlen (ch_session h)) by lia|].
  split; [|match type of L4 with located _ ?x _ => match goal with |- located _ ?y _ => by replace y with x by lia end end].
  match type of L3 with located _ ?x _ => match goal with |- located _ ?y _ => by replace y with x by lia end end.
Qed.

Lemma zlen_enc_hello h : zlen (ch_fixed h) = kTlsClientHelloFixedLength ->
  zlen (enc_hello h) = exts_offset h - 2 +
    match ch_extensions h with None => 0 | Some l => 2 + zlen (enc_exts l) end.
Proof.
  intros E. unfold enc_hello, exts_offset. rewrite !zlen_app, !zlen_be16_bytes, E. change (zlen [?x]) with 1.
  destruct (ch_extensions h); [rewrite zlen_app, zlen_be16_bytes|change (zlen (@nil Z)) with 0]; lia.
Qed.

Lemma body_complete h v :
  hello_wf h -> located bytes 0 (enc_hello h) -> zlen (enc_hello h) <= UINT32_MAX -> has_sni v = false ->
  tlsclienthelloParseBodyAt (Some bytes) (zlen (enc_hello h)) base v = Ok (hello_result h, hello_view base h v).
Proof.
  intros [[Hf _] [Hs _] [Hci _] [Hco _] He] L Hm Hv. pose proof (proj1 (proj2 L)) as Hb.
  destruct (hello_parts h L Hf) as (L1 & L2 & L3 & L4). rewrite (zlen_enc_hello h Hf) in *. clear L.
  pose proof (zlen_nonneg (ch_session h)). pose proof (zlen_nonneg (ch_ciphers h)). pose proof (zlen_nonneg (ch_compression h)).
  set (tail := match ch_extensions h with None => 0 | Some l => 2 + zlen (enc_exts l) end) in *.
  assert (0 <= tail) by (unfold tail; destruct (ch_extensions h); [pose proof (zlen_nonneg (enc_exts l))|]; lia).
  assert (exts_offset h - 2 = 34 + 1 + zlen (ch_session h) + 2 + zlen (ch_ciphers h) + 1 + zlen (ch_compression h)) as Eo
    by (unfold exts_offset, kTlsClientHelloFixedLength; lia).
  unfold tlsclienthelloParseBodyAt, kTlsClientHelloFixedLength in *.
  rewrite (proj2 (orb_false_iff _ _)) by (split; lia). rewrite contains_yes by lia. cbn [negb]. load_step.
  rewrite (located_byte _ _ _ L1), contains_yes by lia. cbn [negb]. load_step.
  replace (34 + 1 + zlen (ch_session h)) with (35 + zlen (ch_session h)) by lia.
  rewrite (located_be16 _ _ _ (zlen_u16 _ Hci) L2), contains_yes by lia. cbn [negb].
  replace (35 + zlen (ch_session h) + 2 + zlen (ch_ciphers h)) with (37 + zlen (ch_session h) + zlen (ch_ciphers h)) by lia.
  load_step. rewrite (located_byte _ _ _ L3), contains_yes by lia. cbn [negb].
  replace (37 + zlen (ch_session h) + zlen (ch_ciphers h) + 1 + zlen (ch_compression h)) with (exts_offset h - 2) by lia.
  unfold tail, hello_result, hello_sni, hello_view in *. clear tail. destruct (ch_extensions h) as [l|].
  2: { by rewrite Z.add_0_r, Z.eqb_refl. }
  destruct He as [Hl W]. pose proof (zlen_nonneg (enc_exts l)). apply located_app in L4 as [L4 L5]. rewrite zlen_be16_bytes in L5.
  rewrite (proj2 (Z.eqb_neq _ _)), contains_yes by lia. cbn [negb]. load_step.
  rewrite (located_be16 _ _ _ (zlen_u16 _ Hl) L4), contains_yes, (proj2 (Z.eqb_eq _ _)) by lia. cbn [negb orb].
  replace (exts_offset h - 2 + 2) with (exts_offset h) in * by lia. set (v1 := set_extensions v _ _ _).
  assert (has_sni v1 = false) as Hv1 by (unfold v1; by destruct v).
  rewrite extensions_complete; [|done|by rewrite Hv1|done|lia]. step_ok. cbn [negb default].
  assert (forall w b, has_sni (set_order w b) = has_sni w) as -> by (by intros []).
  rewrite see_all_sni, Hv1. cbn [orb]. unfold default, id. by destruct (sni_of l).
Qed.

(** The bytes of a body whose fields lie where the parser found them. *)
Lemma hello_built session ciphers compression (tail : list Z) exts :
  let s := slice 35 session bytes in
  let ci := slice (37 + session) ciphers bytes in
  let co := slice (38 + session + ciphers) compression bytes in
  session = byte_at bytes 34 -> ciphers = be16 bytes (35 + session) ->
  compression = byte_at bytes (37 + session + ciphers) ->
  38 + session + ciphers + compression <= zlen bytes ->
  located bytes (38 + session + ciphers + compression) tail ->
  tail = match exts with None => [] | Some l => be16_bytes (zlen (enc_exts l)) ++ enc_exts l end ->
  let h := mk_hello (slice 0 34 bytes) s ci co exts in
  located bytes 0 (enc_hello h) /\ zlen (enc_hello h) = 38 + session + ciphers + compression + zlen tail /\
  (match exts with None => True | Some l => zlen (enc_exts l) <= UINT16_MAX /\ exts_wf false l end -> hello_wf h).
Proof.
  intros s ci co Es Eci Eco Hb Lt Et h. pose proof (byte_at_u8 bytes 34 F) as Us. rewrite <- Es in Us.
  pose proof (be16_u16 bytes (35 + session) F) as Uci. rewrite <- Eci in Uci.
  pose proof (byte_at_u8 bytes (37 + session + ciphers) F) as Uco. rewrite <- Eco in Uco.
  unfold u8, u16 in Us, Uci, Uco.
  assert (zlen (slice 0 34 bytes) = 34) as L0 by (apply zlen_slice; lia).
  assert (zlen s = session) as L1 by (apply zlen_slice; lia).
  assert (zlen ci = ciphers) as L2 by (apply zlen_slice; lia).
  assert (zlen co = compression) as L3 by (apply zlen_slice; lia).
  split; [|split].
  - unfold enc_hello, h. cbn [ch_fixed ch_session ch_ciphers ch_compression ch_extensions].
    rewrite <- Et, !located_app, !zlen_be16_bytes, L0, L1, L2, L3. change (zlen [?x]) with 1.
    split; [apply located_slice; lia|]. split; [rewrite Es; apply byte_located; lia|].
    split; [apply located_slice; lia|].
    replace (0 + 34 + 1 + session) with (35 + session) by lia.
    split; [rewrite Eci; apply be16_located; auto; lia|]. replace (35 + session + 2) with (37 + session) by lia.
    split; [apply located_slice; lia|].
    split; [rewrite Eco; apply byte_located; lia|].
    replace (37 + session + ciphers + 1) with (38 + session + ciphers) by lia. split; [apply located_slice; lia|done].
  - unfold enc_hello, h. cbn [ch_fixed ch_session ch_ciphers ch_compression ch_extensions].
    rewrite <- Et, !zlen_app, zlen_be16_bytes, L0, L1, L2, L3. change (zlen [?x]) with 1. lia.
  - intros We. unfold h. split; cbn [ch_fixed ch_session ch_ciphers ch_compression ch_extensions]; rewrite ?L0, ?L1, ?L2, ?L3;
      try (split; [first [done|lia]|by apply Forall_slice]). done.
Qed.

Lemma body_sound body_length v :
  0 <= body_length <= zlen bytes -> has_sni v = false ->
  exists r v', tlsclienthelloParseBodyAt (Some bytes) body_length base v = Ok (r, v') /\
    (r = kTlsClientHelloMalformed \/
     exists h, hello_wf h /\ located bytes 0 (enc_hello h) /\ zlen (enc_hello h) = body_length /\ body_length <= UINT32_MAX).
Proof.
  intros Hl Hv. unfold tlsclienthelloParseBodyAt, kTlsClientHelloFixedLength.
  assert (forall (m : outcome (tls_client_hello_result_t * tls_client_hello_view_t)) w Q,
    m = Ok (kTlsClientHelloMalformed, w) -> exists r v', m = Ok (r, v') /\ (r = kTlsClientHelloMalformed \/ Q)) as Bad.
  { intros m w Q ->. eexists _, _. split; [done|by left]. }
  destruct (_ || _) eqn:E; [by eapply Bad|]. bool_facts.
  destruct (rangeContains 34 1 _) eqn:E1; cbn [negb]; [|by eapply Bad]. apply contains_iff in E1; [|lia].
  rewrite load8_ok by lia. step_ok. pose proof (byte_at_u8 bytes 34 F) as Us. set (s := byte_at bytes 34) in *. unfold u8 in Us.
  destruct (rangeContains (34 + 1) (s + 2) _) eqn:E2; cbn [negb]; [|by eapply Bad]. apply contains_iff in E2; [|lia].
  replace (34 + 1 + s) with (35 + s) by lia. rewrite GET_BE16_ok by (auto; lia). step_ok.
  pose proof (be16_u16 bytes (35 + s) F) as Uci. set (ci := be16 bytes (35 + s)) in *. unfold u16 in Uci.
  destruct (rangeContains (35 + s + 2) (ci + 1) _) eqn:E3; cbn [negb]; [|by eapply Bad]. apply contains_iff in E3; [|lia].
  replace (35 + s + 2 + ci) with (37 + s + ci) by lia. rewrite load8_ok by lia. step_ok.
  pose proof (byte_at_u8 bytes (37 + s + ci) F) as Uco. set (co := byte_at bytes (37 + s + ci)) in *. unfold u8 in Uco.
  destruct (rangeContains (37 + s + ci + 1) co _) eqn:E4; cbn [negb]; [|by eapply Bad]. apply contains_iff in E4; [|lia].
  replace (37 + s + ci + 1 + co) with (38 + s + ci + co) by lia.
  destruct (38 + s + ci + co =? body_length) eqn:E5; bool_facts.
  { eexists _, _. split; [done|]. right.
    destruct (hello_built s ci co [] None) as (L & El & W); [done|done|done|lia|apply located_nil; lia|done|].
    eexists. split; [by apply W|]. split; [exact L|]. rewrite El. change (zlen (@nil Z)) with 0. lia. }
  destruct (rangeContains _ 2 _) eqn:E6; cbn [negb]; [|by eapply Bad]. apply contains_iff in E6; [|lia].
  rewrite GET_BE16_ok by (auto; lia). step_ok. pose proof (be16_u16 bytes (38 + s + ci + co) F) as Ux.
  set (x := be16 bytes (38 + s + ci + co)) in *. unfold u16 in Ux.
  destruct (_ || _) eqn:E7; [by eapply Bad|]. bool_facts. clear E6. set (v1 := set_extensions v _ _ _).
  assert (has_sni v1 = false) as Hv1 by (unfold v1; by destruct v).
  destruct (extensions_sound bytes F base (38 + s + ci + co + 2 + x) (S (Z.to_nat x)) (38 + s + ci + co + 2) 0 v1)
    as (ok & v2 & E8 & Hok); [lia|lia|lia|]. rewrite E8. step_ok. destruct ok; cbn [negb]; [|by eapply Bad].
  destruct (Hok eq_refl) as (l & W & L & El). rewrite Hv1 in W. eexists _, _. split; [done|]. right.
  assert (x = zlen (enc_exts l)) as Ex by lia.
  destruct (hello_built s ci co (be16_bytes x ++ enc_exts l) (Some l)) as (Lh & Eh & Wh);
    [done|done|done|lia| |by rewrite Ex|].
  { apply located_app. rewrite zlen_be16_bytes. split; [apply be16_located; auto; lia|done]. }
  rewrite zlen_app, zlen_be16_bytes in Eh. eexists. split; [apply Wh; split; [lia|done]|]. split; [exact Lh|]. lia.
Qed.
End Whole.

(** ** What the view says *)

(** The view points at the server name extension and, inside it, at the entry
    with the name; every length field it names precedes what it measures. *)
Record sni_at (whole : list Z) (l : list extension) (v : tls_client_hello_view_t) (name : list Z) : Prop := mk_sni_at {
  sa_extension : exists names, l !! Z.to_nat (sni_extension_index v) = Some (ServerNames names) /\
    host_name names = Some name /\ located whole (sni_extension_offset v) (enc_ext (ServerNames names)) /\
    server_name_list_length v = zlen (enc_names names);
  sa_extension_field : sni_extension_length_field_offset v = sni_extension_offset v + 2;
  sa_extension_length : sni_extension_length v = server_name_list_length v + 2;
  sa_list_field : server_name_list_length_field_offset v = sni_extension_offset v + 4;
  sa_name : located whole (sni_name_length_field_offset v) (be16_bytes (sni_name_length v) ++ name);
  sa_name_offset : sni_name_offset v = sni_name_length_field_offset v + 2;
  sa_name_length : sni_name_length v = zlen name;
  sa_inside : server_name_list_length_field_offset v + 2 < sni_name_length_field_offset v /\
    sni_name_offset v + sni_name_length v <= sni_extension_offset v + 4 + sni_extension_length v
}.

(** The first extension of a type. *)
Definition first_ext (t : Z) (l : list extension) (i : nat) (e : extension) : Prop :=
  l !! i = Some e /\ ext_type e = t /\ forall j e', (j < i)%nat -> l !! j = Some e' -> ext_type e' <> t.

(** Extension number [index] is the first of type [t], at [offset], its data at
    [data]. *)
Definition ext_at (whole : list Z) (l : list extension) (t index offset data length : Z) : Prop :=
  exists e, first_ext t l (Z.to_nat index) e /\ located whole offset (enc_ext e) /\
    data = offset + 4 /\ length = zlen (ext_data e) /\ 0 <= index.

Section Views.
Context (whole : list Z) (base : Z) (Hbase : 0 <= base).

Lemma at_small c : 0 <= c -> base + c <= UINT32_MAX -> base +32 wrap32 c = base + c.
Proof. intros. rewrite (wrap32_small c), wrap32_small by lia. done. Qed.

Lemma host_at_located names : forall c p name,
  host_at c names = Some (p, name) -> located whole (base + c) (enc_names names) ->
  located whole (base + (p + 1)) (be16_bytes (zlen name) ++ name) /\ c <= p /\
  p + 3 + zlen name <= c + zlen (enc_names names) /\ host_name names = Some name.
Proof.
  induction names as [|n names IH]; intros c p name E L; [done|]. rewrite enc_names_cons in *.
  apply located_app in L as [L1 L2]. rewrite zlen_app, zlen_enc_name in *. simpl in E |- *.
  pose proof (zlen_nonneg (enc_names names)). pose proof (zlen_nonneg n.2).
  destruct (n.1 =? 0).
  - injection E as <- <-. unfold enc_name in L1. apply located_app in L1 as [_ L1].
    change (zlen [n.1]) with 1 in L1. rewrite Z.add_assoc. split; [exact L1|]. by splits; try lia.
  - rewrite zlen_enc_name in E. destruct (IH _ _ _ E) as (? & ? & ? & ?);
      [by replace (base + (c + (3 + zlen n.2))) with (base + c + (3 + zlen n.2)) by lia|]. splits; auto; lia.
Qed.

(** The fields about the server name. *)
Definition sni_part (v : tls_client_hello_view_t) : list Z :=
  [sni_extension_offset v; sni_extension_length_field_offset v; server_name_list_length_field_offset v;
   sni_name_length_field_offset v; sni_name_offset v; sni_extension_length v; server_name_list_length v;
   sni_name_length v; sni_extension_index v].

Lemma see_all_keeps_sni l : forall c index v,
  has_sni v = true -> sni_part (see_all base c index l v) = sni_part v.
Proof.
  induction l as [|e l IH]; intros c index v Hs; [done|]. cbn [see_all].
  rewrite IH by (rewrite see_finds; unfold finds; by rewrite Hs).
  unfold see. destruct e as [names|t data]; [by rewrite Hs|]. repeat split_test; by destruct v.
Qed.

Lemma sni_at_part l v v' name : sni_part v' = sni_part v -> sni_at whole l v name -> sni_at whole l v' name.
Proof.
  intros [= E1 E2 E3 E4 E5 E6 E7 E8 E9] [A B C D E G I J].
  split; rewrite ?E1, ?E2, ?E3, ?E4, ?E5, ?E6, ?E7, ?E8, ?E9; assumption.
Qed.

Lemma see_sni c index names v p name l :
  has_sni v = false -> host_at (c + 6) names = Some (p, name) -> 0 <= c -> l !! Z.to_nat index = Some (ServerNames names) ->
  located whole (base + c) (enc_ext (ServerNames names)) -> base + c + zlen (enc_ext (ServerNames names)) <= UINT32_MAX ->
  sni_at whole l (see base c index (ServerNames names) v) name.
Proof.
  intros Hs Hp Hc Hl L Hm. unfold see. rewrite Hs, Hp. rewrite zlen_enc_ext in Hm. cbn [ext_data] in *.
  rewrite zlen_app, zlen_be16_bytes in *. pose proof (zlen_nonneg (enc_names names)). pose proof (zlen_nonneg name).
  assert (located whole (base + (c + 6)) (enc_names names)) as Ln.
  { unfold enc_ext in L. cbn [ext_data] in L. rewrite !located_app, !zlen_be16_bytes in L.
    replace (base + (c + 6)) with (base + c + 2 + 2 + 2) by lia. apply L. }
  destruct (host_at_located names _ _ _ Hp Ln) as (L1 & ? & ? & Hh).
  rewrite !at_small by lia. rewrite (wrap32_small (base + c + 2)) by lia.
  destruct v. split; simpl; try lia; [|done]. by exists names.
Qed.

Lemma see_all_finds_sni name l : forall (before : list extension) c index v,
  has_sni v = false -> sni_of l = Some name -> 0 <= c -> located whole (base + c) (enc_exts l) ->
  base + c + zlen (enc_exts l) <= UINT32_MAX -> index = zlen before -> index + zlen l <= UINT16_MAX ->
  sni_at whole (before ++ l) (see_all base c index l v) name.
Proof.
  induction l as [|e l IH]; intros before c index v Hs Hn Hc L Hm Hi Hk; [done|]. cbn [see_all].
  rewrite enc_exts_cons, zlen_app in *. apply located_app in L as [Le L]. rewrite zlen_cons in Hk.
  pose proof (zlen_nonneg (enc_exts l)). pose proof (zlen_nonneg (enc_ext e)). pose proof (zlen_nonneg l). pose proof (zlen_nonneg before).
  assert (has_sni (see base c index e v) = false -> sni_of l = Some name ->
    sni_at whole (before ++ e :: l) (see_all base (c + zlen (enc_ext e)) (wrap16 (index + 1)) l (see base c index e v)) name) as Later.
  { intros Hs' Hn'. rewrite wrap16_small by lia. rewrite cons_middle, app_assoc. apply IH; try done; try lia.
    - by rewrite Z.add_assoc.
    - rewrite zlen_app. change (zlen [e]) with 1. lia. }
  destruct e as [names|t data]; cbn [sni_of] in Hn; [|apply Later; [rewrite see_finds; unfold finds; by rewrite Hs|done]].
  rewrite <- (host_at_name names (c + 6)) in Hn. destruct (host_at (c + 6) names) as [[p n]|] eqn:Hp.
  - simpl in Hn. injection Hn as ->. eapply sni_at_part; [apply see_all_keeps_sni|].
    + rewrite see_finds. unfold finds. rewrite Hs, <- (host_at_name names (c + 6)), Hp. done.
    + eapply see_sni; eauto; [|lia]. rewrite Hi. unfold zlen. by rewrite Nat2Z.id, list_lookup_middle.
  - apply Later; [|done]. unfold see. by rewrite Hs, Hp.
Qed.

(** ** The other two extensions

    [has] and [part] are the flag and the fields of an extension type of which
    the first occurrence is recorded. *)

Section First.
Context (t : Z) (has : tls_client_hello_view_t -> bool) (part : tls_client_hello_view_t -> Z * Z * Z * Z).
Context (keeps : forall c index e v, has v = true ->
  has (see base c index e v) = true /\ part (see base c index e v) = part v).
Context (skips : forall c index e v, has v = false -> ext_type e <> t -> has (see base c index e v) = false).
Context (sets : forall c index e v, has v = false -> ext_type e = t -> 0 <= c -> base + c + 4 <= UINT32_MAX ->
  has (see base c index e v) = true /\
  part (see base c index e v) = (index, base + c, base + c + 4, zlen (ext_data e))).

Definition recorded (l : list extension) (v : tls_client_hello_view_t) : Prop :=
  if has v then let '(index, offset, data, length) := part v in ext_at whole l t index offset data length
  else Forall (fun e => ext_type e <> t) l.

Lemma see_all_keeps l : forall c index v, has v = true ->
  has (see_all base c index l v) = true /\ part (see_all base c index l v) = part v.
Proof.
  induction l as [|e l IH]; intros c index v Hv; [done|]. cbn [see_all].
  destruct (keeps c index e v Hv) as [Hs <-]. by apply IH.
Qed.

Lemma see_all_records l : forall (before : list extension) c index v,
  has v = false -> Forall (fun e => ext_type e <> t) before -> 0 <= c -> located whole (base + c) (enc_exts l) ->
  base + c + zlen (enc_exts l) <= UINT32_MAX -> index = zlen before -> index + zlen l <= UINT16_MAX ->
  recorded (before ++ l) (see_all base c index l v).
Proof.
  induction l as [|e l IH]; intros before c index v Hv Hb Hc L Hm Hi Hk.
  { unfold recorded. cbn [see_all]. by rewrite Hv, app_nil_r. }
  cbn [see_all]. rewrite enc_exts_cons, zlen_app in *. apply located_app in L as [Le L]. rewrite zlen_cons in Hk.
  pose proof (zlen_nonneg (enc_exts l)). pose proof (zlen_enc_ext e). pose proof (zlen_nonneg (ext_data e)).
  pose proof (zlen_nonneg l). pose proof (zlen_nonneg before).
  destruct (decide (ext_type e = t)) as [Et|Hne].
  - destruct (sets c index e v Hv Et Hc ltac:(lia)) as [Hs Ep]. unfold recorded.
    destruct (see_all_keeps l (c + zlen (enc_ext e)) (wrap16 (index + 1)) _ Hs) as [-> ->]. rewrite Ep.
    exists e. split; [|by splits; try lia]. assert (Z.to_nat index = length before) as -> by (rewrite Hi; unfold zlen; lia).
    split; [by apply list_lookup_middle|]. split; [done|]. intros j e' Hj He. rewrite lookup_app_l in He by done.
    exact (proj1 (Forall_lookup _ _) Hb j e' He).
  - rewrite cons_middle, app_assoc, wrap16_small by lia. apply IH; try lia; [by apply skips| |by rewrite Z.add_assoc|].
    + apply Forall_app. split; [done|by apply Forall_singleton].
    + rewrite zlen_app. change (zlen [e]) with 1. lia.
Qed.
End First.

Definition psk_recorded : list extension -> tls_client_hello_view_t -> Prop :=
  recorded kTlsExtensionPreSharedKey has_psk (fun v =>
    (psk_extension_index v, psk_extension_offset v, psk_extension_offset v + 4, psk_extension_length v)).
Definition ech_recorded : list extension -> tls_client_hello_view_t -> Prop :=
  recorded kTlsExtensionEncryptedHello has_ech (fun v =>
    (ech_extension_index v, ech_extension_offset v, ech_extension_data_offset v, ech_extension_length v)).

(** Case analysis on what an extension does to the view. *)
Ltac see_cases :=
  unfold see; clear -Hbase; intros ? ? [names|ty data] w; cbn [ext_type ext_data];
  [destruct (has_sni w); [|destruct (host_at _ _) as [[? ?]|]]|destruct (Z.eqb_spec ty kTlsExtensionPreSharedKey), (Z.eqb_spec ty kTlsExtensionEncryptedHello),
     (has_psk w) eqn:?, (has_ech w) eqn:?];
  intros; destruct w; simpl in *;
  try (unfold kTlsExtensionServerName, kTlsExtensionPreSharedKey, kTlsExtensionEncryptedHello in *; first [done | congruence | lia]).

Lemma see_all_psk l c v :
  has_psk v = false -> 0 <= c -> located whole (base + c) (enc_exts l) ->
  base + c + zlen (enc_exts l) <= UINT32_MAX -> zlen l <= UINT16_MAX -> psk_recorded l (see_all base c 0 l v).
Proof.
  intros. apply (see_all_records _ _ _) with (before := []); try done.
  - see_cases.
  - see_cases.
  - see_cases; by rewrite at_small by lia.
Qed.

Lemma see_all_ech l c v :
  has_ech v = false -> 0 <= c -> located whole (base + c) (enc_exts l) ->
  base + c + zlen (enc_exts l) <= UINT32_MAX -> zlen l <= UINT16_MAX -> ech_recorded l (see_all base c 0 l v).
Proof.
  intros. apply (see_all_records _ _ _) with (before := []); try done.
  - see_cases.
  - see_cases.
  - see_cases; rewrite !at_small by lia; by rewrite Z.add_assoc.
Qed.
End Views.
