(* ===== verification/HelloRecords.v ===== *)
(** * ClientHello messages in handshakes and records

    The entry points of [ClientHello] on arbitrary input: the body parser
    accepts exactly the grammar, a record that carries a message is found with
    every offset of the view inside the record, and a decision is never revised
    when more bytes arrive. *)

From Stdlib Require Import ZArith Lia.
From stdpp Require Import base numbers option list.
From S2P Require Import Prelude Endian ClientHello HelloGrammar.
Open Scope Z_scope.
Open Scope word_scope.

(** ** Reading more than is needed changes nothing *)

Section Grow.
Context (l k : list Z).

Lemma load8_grow i x : load8 l i = Ok x -> load8 (l ++ k) i = Ok x.
Proof.
  unfold load8. destruct (0 <=? i); [|done]. destruct (l !! Z.to_nat i) as [y|] eqn:E; [|done].
  by rewrite (lookup_app_l_Some _ _ _ _ E).
Qed.

Lemma mem_read_grow i n bs : mem_read l i n = Ok bs -> mem_read (l ++ k) i n = Ok bs.
Proof.
  intros E. apply mem_read_inv in E as (? & ? & ? & ->). pose proof (zlen_nonneg k).
  rewrite mem_read_ok by (rewrite ?zlen_app; lia). by rewrite slice_app_l by lia.
Qed.

Lemma GET_BE16_grow i x : GET_BE16 l i = Ok x -> GET_BE16 (l ++ k) i = Ok x.
Proof.
  unfold GET_BE16, wendianLoad16. intros E. apply bind_Ok in E as (v & E & Ev).
  apply bind_Ok in E as (bs & E & Eb). rewrite (mem_read_grow _ _ _ E). step_ok. by injection Eb as ->.
Qed.

Lemma GET_BE24_grow i x : GET_BE24 l i = Ok x -> GET_BE24 (l ++ k) i = Ok x.
Proof.
  unfold GET_BE24, wendianGetBe24. intros E. apply bind_Ok in E as (a & Ea & E). apply bind_Ok in E as (b & Eb & E).
  apply bind_Ok in E as (c & Ec & E). by rewrite (load8_grow _ _ Ea), (load8_grow _ _ Eb), (load8_grow _ _ Ec).
Qed.

(** Repeats a successful load on the longer object. *)
Ltac grow H :=
  repeat first
    [ lazymatch type of H with (if ?b then _ else _) = Ok _ => destruct b; [try exact H|try exact H] end
    | let x := fresh "x" in let E := fresh "E" in
      lazymatch type of H with
      | load8 l ?i ≫= _ = Ok _ => apply bind_Ok in H as (x & E & H); rewrite (load8_grow _ _ E); step_ok
      | GET_BE16 l ?i ≫= _ = Ok _ => apply bind_Ok in H as (x & E & H); rewrite (GET_BE16_grow _ _ E); step_ok
      | GET_BE24 l ?i ≫= _ = Ok _ => apply bind_Ok in H as (x & E & H); rewrite (GET_BE24_grow _ _ E); step_ok
      end ].

Lemma names_grow bo eo edo el sl ei ne : forall fuel c v r,
  names_loop fuel l bo eo edo el sl ei ne c v = Ok r -> names_loop fuel (l ++ k) bo eo edo el sl ei ne c v = Ok r.
Proof.
  induction fuel as [|fuel IH]; intros c v r E; [done|]. cbn [names_loop] in *. grow E. by apply IH.
Qed.

Lemma visit_grow bo eo t el ei c ee v r :
  visit_extension l bo eo t el ei c ee v = Ok r -> visit_extension (l ++ k) bo eo t el ei c ee v = Ok r.
Proof. unfold visit_extension. cbv zeta. intros E. grow E. by apply names_grow. Qed.

Lemma extensions_grow bo ee : forall fuel c i v r,
  extensions_loop fuel l bo ee c i v = Ok r -> extensions_loop fuel (l ++ k) bo ee c i v = Ok r.
Proof.
  induction fuel as [|fuel IH]; intros c i v r E; [done|]. cbn [extensions_loop] in *. grow E.
  apply bind_Ok in E as ([ok w] & Ew & E). rewrite (visit_grow _ _ _ _ _ _ _ _ _ Ew). step_ok.
  destruct ok; cbn [negb] in *; [by apply IH|done].
Qed.

Lemma body_grow n base v r :
  tlsclienthelloParseBodyAt (Some l) n base v = Ok r -> tlsclienthelloParseBodyAt (Some (l ++ k)) n base v = Ok r.
Proof.
  unfold tlsclienthelloParseBodyAt. cbv zeta. intros E. grow E.
  apply bind_Ok in E as ([ok w] & Ew & E). by rewrite (extensions_grow _ _ _ _ _ _ _ Ew).
Qed.
End Grow.

(** ** Totality *)

Lemma handshake_total p n offset v :
  Forall u8 p -> 0 <= n <= zlen p -> has_sni v = false ->
  exists r v', tlsclienthelloParseHandshakeAt p n offset v = Ok (r, v').
Proof.
  intros F Hn Hv. unfold tlsclienthelloParseHandshakeAt, kTlsHandshakeHeaderLength. cbv zeta.
  destruct (n =? 0) eqn:E0; bool_facts; [by eauto|]. rewrite load8_ok by lia. step_ok.
  destruct (negb _); [by eauto|]. destruct (n <? 4) eqn:E4; bool_facts; [by eauto|].
  rewrite GET_BE24_ok by (auto; lia). step_ok. destruct (n <? 4 + be24 p 1) eqn:Eb; bool_facts; [by eauto|].
  assert (0 <= be24 p 1) by (pose proof (byte_at_u8 p 1 F); pose proof (be16_u16 p (1 + 1) F); unfold be24, u8, u16 in *; lia).
  edestruct body_sound as (r & v' & E & _); [by apply Forall_drop| | |by eauto].
  - unfold zlen in *. rewrite length_drop. lia.
  - by destruct v.
Qed.

Lemma record_total p : Forall u8 p -> exists r v, tlsclienthelloParseRecord (Some p) (zlen p) = Ok (r, v).
Proof.
  intros F. unfold tlsclienthelloParseRecord, guarded_byte, kTlsRecordHeaderLength, kTlsHandshakeHeaderLength. cbv zeta.
  pose proof (zlen_nonneg p). destruct (zlen p =? 0) eqn:E0; bool_facts; [by eauto|]. rewrite (load8_ok p 0) by lia. step_ok.
  destruct (negb _); [by eauto|].
  assert (forall (b : bool) i (f : Z -> bool) (Hb : b = true -> 0 <= i < zlen p), exists x,
    (if b then y ← load8 p i; mret (f y) else mret false) = Ok x) as G.
  { intros [] i f Hb; [|by eauto]. rewrite load8_ok by (by apply Hb). by eauto. }
  destruct (G (zlen p >=? 2) 1 (fun b => negb (b =? 3))) as [major ->]; [intros ?; bool_facts; lia|]. step_ok.
  assert (exists x, (if major then mret true else if zlen p >=? 3 then b ← load8 p 2; mret (b >? 3) else mret false) = Ok x)
    as [minor ->]; [destruct major; [by eauto|apply G; intros ?; bool_facts; lia]|]. step_ok.
  destruct minor; [by eauto|]. destruct (zlen p <? 5) eqn:E5; bool_facts; [by eauto|].
  rewrite GET_BE16_ok by (auto; lia). step_ok. pose proof (be16_u16 p 3 F) as Hn. unfold u16, UINT16_MAX in Hn.
  destruct (be16 p 3 <? 4); [by eauto|]. rewrite wrap32_small by (unfold UINT32_MAX; lia).
  destruct (zlen p <? 5 + be16 p 3) eqn:Eb; bool_facts; [by eauto|].
  edestruct (handshake_total (drop (Z.to_nat 5) p) (be16 p 3) 5) as (r & v & ->);
    [by apply Forall_drop|unfold zlen in *; rewrite length_drop; lia|done|]. step_ok. by eauto.
Qed.

(** ** Stability *)

Lemma handshake_grow p k n offset v r :
  tlsclienthelloParseHandshakeAt p n offset v = Ok r -> (Z.to_nat 4 <= length p)%nat ->
  tlsclienthelloParseHandshakeAt (p ++ k) n offset v = Ok r.
Proof.
  unfold tlsclienthelloParseHandshakeAt, kTlsHandshakeHeaderLength. cbv zeta. intros E Hp.
  destruct (n =? 0); [done|]. apply bind_Ok in E as (x & Ex & E). rewrite (load8_grow _ _ _ _ Ex). step_ok.
  destruct (negb _); [done|]. destruct (n <? 4); [done|].
  apply bind_Ok in E as (y & Ey & E). rewrite (GET_BE24_grow _ _ _ _ Ey). step_ok. destruct (n <? 4 + y); [done|].
  rewrite drop_app_le by done. by apply body_grow.
Qed.

Lemma guarded_grow (p k : list Z) n m j i f x :
  n <= m -> guarded_byte (n >=? j) p i f = Ok x -> x = true \/ j <= n -> guarded_byte (m >=? j) (p ++ k) i f = Ok x.
Proof.
  unfold guarded_byte. intros Hm E Hx. destruct (n >=? j) eqn:En; bool_facts.
  - replace (m >=? j) with true by lia. apply bind_Ok in E as (b & Eb & E). by rewrite (load8_grow _ _ _ _ Eb).
  - injection E as <-. destruct Hx; [done|lia].
Qed.

Lemma record_grow p k r v :
  tlsclienthelloParseRecord (Some p) (zlen p) = Ok (r, v) -> r <> kTlsClientHelloNeedMore ->
  tlsclienthelloParseRecord (Some (p ++ k)) (zlen (p ++ k)) = Ok (r, v).
Proof.
  unfold tlsclienthelloParseRecord, kTlsRecordHeaderLength, kTlsHandshakeHeaderLength. cbv zeta. intros E Hr.
  rewrite zlen_app. pose proof (zlen_nonneg p). pose proof (zlen_nonneg k).
  destruct (zlen p =? 0) eqn:E0; bool_facts; [by injection E as <- <-|]. rewrite (proj2 (Z.eqb_neq _ 0)) by lia.
  apply bind_Ok in E as (kind & Ek & E). rewrite (load8_grow _ _ _ _ Ek). step_ok. destruct (negb _); [done|].
  apply bind_Ok in E as (major & Ej & E). apply bind_Ok in E as (minor & En & E).
  destruct major.
  { rewrite (guarded_grow p k (zlen p) (zlen p + zlen k) 2 _ _ true ltac:(lia) Ej ltac:(by left)). step_ok. by injection En as <-. }
  destruct (zlen p <? 5) eqn:E5; bool_facts.
  { destruct minor; [|by injection E as <- <-]. assert (3 <= zlen p).
    { unfold guarded_byte in En. destruct (zlen p >=? 3) eqn:E3; bool_facts; [done|by injection En]. }
    rewrite (guarded_grow p k (zlen p) (zlen p + zlen k) 2 _ _ false ltac:(lia) Ej ltac:(lia)). step_ok.
    by rewrite (guarded_grow p k (zlen p) (zlen p + zlen k) 3 _ _ true ltac:(lia) En ltac:(by left)). }
  rewrite (guarded_grow p k (zlen p) (zlen p + zlen k) 2 _ _ false ltac:(lia) Ej ltac:(lia)). step_ok.
  rewrite (guarded_grow p k (zlen p) (zlen p + zlen k) 3 _ _ minor ltac:(lia) En ltac:(lia)). step_ok. destruct minor; [done|].
  replace (zlen p + zlen k <? 5) with false by lia.
  apply bind_Ok in E as (n & El & E). rewrite (GET_BE16_grow _ _ _ _ El). step_ok. destruct (n <? 4) eqn:E4; [done|].
  destruct (zlen p <? 5 +32 n) eqn:Et; [by injection E as <- <-|]. bool_facts.
  replace (zlen p + zlen k <? 5 +32 n) with false by lia.
  apply bind_Ok in E as ([r1 v1] & E1 & E). rewrite drop_app_le by (unfold zlen in *; lia).
  pose proof (GET_BE16_range _ _ _ El) as Hn. unfold u16 in Hn.
  rewrite wrap32_small in Et by (unfold UINT16_MAX, UINT32_MAX in *; lia).
  by rewrite (handshake_grow _ k _ _ _ _ E1) by (rewrite length_drop; unfold zlen in *; lia).
Qed.

(** A decision of the record parser is final: on any bytes the parser
    returns without reading outside them, and unless it asked for more, any
    continuation of the input gives the same result and the same view. *)
Theorem hello_decision_final p k :
  Forall u8 p ->
  exists r v, tlsclienthelloParseRecord (Some p) (zlen p) = Ok (r, v) /\
    (r <> kTlsClientHelloNeedMore -> tlsclienthelloParseRecord (Some (p ++ k)) (zlen (p ++ k)) = Ok (r, v)).
Proof.
  intros F. destruct (record_total p F) as (r & v & E). exists r, v. split; [done|]. by apply record_grow.
Qed.

(** ** The grammar *)


(** ** Views of whole messages *)

Lemma exts_count l : 4 * zlen l <= zlen (enc_exts l).
Proof.
  induction l as [|e l IH]; [done|]. rewrite enc_exts_cons, zlen_app, zlen_enc_ext, zlen_cons.
  pose proof (zlen_nonneg (ext_data e)). lia.
Qed.

(** The fields outside the three extensions. *)
Definition frame_part (v : tls_client_hello_view_t) : list Z :=
  [record_total_length v; record_body_length v; record_length_field_offset v; handshake_offset v;
   handshake_total_length v; handshake_body_offset v; handshake_body_length v; handshake_length_field_offset v;
   extensions_length_field_offset v; extensions_offset v; extensions_length v].

Lemma see_all_frame base l : forall c index v, frame_part (see_all base c index l v) = frame_part v.
Proof.
  induction l as [|e l IH]; intros c index v; [done|]. cbn [see_all]. rewrite IH. unfold see.
  destruct e as [names|t data]; [destruct (has_sni v); [done|]; destruct (host_at _ _) as [[p n]|]; by destruct v|].
  repeat split_test; by destruct v.
Qed.

(** The view describes the message [h] in [whole]. *)
Definition describes (whole : list Z) (h : hello) (v : tls_client_hello_view_t) : Prop :=
  match ch_extensions h with
  | None => has_sni v = false /\ has_psk v = false /\ has_ech v = false
  | Some l =>
      located whole (extensions_length_field_offset v) (be16_bytes (extensions_length v) ++ enc_exts l) /\
      extensions_offset v = extensions_length_field_offset v + 2 /\ extensions_length v = zlen (enc_exts l) /\
      match sni_of l with Some name => has_sni v = true /\ sni_at whole l v name | None => has_sni v = false end /\
      psk_recorded whole l v /\ ech_recorded whole l v /\
      ech_before_sni v = has_ech v && has_sni v && (ech_extension_index v <? sni_extension_index v)
  end.

Lemma describes_order whole h v b :
  b = has_ech v && has_sni v && (ech_extension_index v <? sni_extension_index v) ->
  describes whole h (set_order v b) <->
  match ch_extensions h with
  | None => has_sni v = false /\ has_psk v = false /\ has_ech v = false
  | Some l =>
      located whole (extensions_length_field_offset v) (be16_bytes (extensions_length v) ++ enc_exts l) /\
      extensions_offset v = extensions_length_field_offset v + 2 /\ extensions_length v = zlen (enc_exts l) /\
      match sni_of l with Some name => has_sni v = true /\ sni_at whole l v name | None => has_sni v = false end /\
      psk_recorded whole l v /\ ech_recorded whole l v
  end.
Proof.
  intros ->. unfold describes, psk_recorded, ech_recorded, recorded. destruct (ch_extensions h) as [l|]; [|by destruct v].
  destruct v; simpl. split; [intros (? & ? & ? & S & ? & ? & _)|intros (? & ? & ? & S & ? & ?)]; splits; auto;
    (destruct (sni_of l); [|done]); destruct S as [? S]; (split; [done|]);
    (eapply sni_at_part; [|exact S]); reflexivity.
Qed.

Lemma view_describes whole base h v :
  hello_wf h -> 0 <= base -> located whole base (enc_hello h) -> base + zlen (enc_hello h) <= UINT32_MAX ->
  has_sni v = false -> has_psk v = false -> has_ech v = false ->
  describes whole h (hello_view base h v) /\
  take 8 (frame_part (hello_view base h v)) = take 8 (frame_part v).
Proof.
  intros W Hb L Hm Hs Hp He. pose proof (hw_fixed _ W) as [Hf _]. pose proof (hw_extensions _ W) as Wx.
  rewrite (zlen_enc_hello h Hf) in Hm. unfold hello_view. destruct (ch_extensions h) as [l|] eqn:Ex.
  2: { unfold describes. by rewrite Ex. }
  destruct Wx as [Hl Wl]. pose proof (exts_count l) as Hn. pose proof (zlen_nonneg (enc_exts l)). pose proof (zlen_nonneg l).
  assert (located whole (base + (exts_offset h - 2)) (be16_bytes (zlen (enc_exts l)) ++ enc_exts l)) as Lx.
  { assert (0 <= base <= zlen whole) as Hbw by (destruct L as (? & ? & ?); pose proof (zlen_nonneg (enc_hello h)); lia).
    assert (located (drop (Z.to_nat base) whole) 0 (enc_hello h)) as L0 by (apply located_drop; [done|lia|by rewrite Z.add_0_r]).
    pose proof (hello_parts _ h L0 Hf) as (_ & _ & _ & L4). rewrite Ex in L4. by apply (located_drop whole base) in L4;
      [|done|apply (proj1 L4)]. }
  assert (0 <= exts_offset h - 2) as Ho.
  { unfold exts_offset, kTlsClientHelloFixedLength. pose proof (zlen_nonneg (ch_session h)).
    pose proof (zlen_nonneg (ch_ciphers h)). pose proof (zlen_nonneg (ch_compression h)). lia. }
  pose proof Lx as Lx2. apply located_app in Lx2 as [_ Le]. rewrite zlen_be16_bytes in Le.
  replace (base + (exts_offset h - 2) + 2) with (base + exts_offset h) in Le by lia.
  set (v1 := set_extensions v _ _ _).
  assert (has_sni v1 = false /\ has_psk v1 = false /\ has_ech v1 = false) as (Hs1 & Hp1 & He1) by (unfold v1; by destruct v).
  pose proof (see_all_frame base l (exts_offset h) 0 v1) as Fr. set (v2 := see_all base (exts_offset h) 0 l v1) in *.
  assert (extensions_length_field_offset v1 = base + (exts_offset h - 2) /\ extensions_offset v1 = base + exts_offset h /\
    extensions_length v1 = zlen (enc_exts l)) as (F1 & F2 & F3).
  { unfold v1. rewrite !(at_small base Hb) by lia. by destruct v. }
  assert (take 8 (frame_part v1) = take 8 (frame_part v)) as Fv by (unfold v1; by destruct v).
  split; [|transitivity (take 8 (frame_part v2)); [by destruct v2|by rewrite Fr]].
  apply describes_order; [done|]. rewrite Ex. injection Fr as _ _ _ _ _ _ _ _ G1 G2 G3. rewrite G1, G2, G3, F1, F2, F3.
  split; [done|]. split; [lia|]. split; [done|]. split; [|split].
  - pose proof (see_all_sni base l (exts_offset h) 0 v1) as Hsn. fold v2 in Hsn. rewrite Hs1 in Hsn.
    destruct (sni_of l) as [name|] eqn:En; [|done]. split; [done|].
    apply (see_all_finds_sni whole base Hb name l []); auto; unfold UINT16_MAX in *; lia.
  - apply see_all_psk; auto; unfold UINT16_MAX in *; lia.
  - apply see_all_ech; auto; unfold UINT16_MAX in *; lia.
Qed.

(** ** Messages in their containers *)

Definition be24_bytes (v : Z) : list Z := [v / 2 ^ 16 mod 2 ^ 8] ++ be16_bytes v.

Definition enc_handshake (h : hello) : list Z := [1] ++ be24_bytes (zlen (enc_hello h)) ++ enc_hello h.

Definition enc_record (minor : Z) (payload : list Z) : list Z :=
  [0x16; 3; minor] ++ be16_bytes (zlen payload) ++ payload.

Lemma zlen_enc_handshake h : zlen (enc_handshake h) = 4 + zlen (enc_hello h).
Proof. unfold enc_handshake, be24_bytes. rewrite !zlen_app, zlen_be16_bytes. change (zlen [?x]) with 1. lia. Qed.

Lemma located_be24 l c v : 0 <= v < 2 ^ 24 -> located l c (be24_bytes v) -> be24 l c = v.
Proof.
  intros Hv L. unfold be24_bytes in L. apply located_app in L as [L1 L2]. apply located_byte in L1.
  change (zlen [?x]) with 1 in L2. unfold be24. rewrite L1.
  assert (be16_bytes v = be16_bytes (v mod 2 ^ 16)) as E.
  { unfold be16_bytes. change (2 ^ 8) with 256. change (2 ^ 16) with 65536. f_equal; [|f_equal];
      Z.div_mod_to_equations; lia. }
  rewrite E in L2. pose proof (Z.mod_pos_bound v (2 ^ 16)).
  rewrite (located_be16 _ _ (v mod 2 ^ 16) ltac:(unfold u16, UINT16_MAX; lia) L2).
  rewrite (Z.mod_small (v / 2 ^ 16)) by (split; [apply Z.div_pos; lia|apply Z.div_lt_upper_bound; lia]).
  pose proof (Z.div_mod v (2 ^ 16)). lia.
Qed.

Lemma handshake_complete p n offset h v :
  Forall u8 p -> hello_wf h -> located p 0 (enc_handshake h) -> zlen (enc_handshake h) <= n -> zlen (enc_hello h) < 2 ^ 24 ->
  0 <= offset <= UINT16_MAX -> has_sni v = false ->
  let len := zlen (enc_hello h) in
  tlsclienthelloParseHandshakeAt p n offset v =
    Ok (hello_result h, hello_view (offset + 4) h (set_handshake v offset (4 + len) (offset + 4) len (offset + 1))).
Proof.
  intros F W L Hn Hm Ho Hv len. pose proof (proj1 (proj2 L)) as Hp. rewrite zlen_enc_handshake in *. fold len in Hn, Hm, Hp.
  assert (0 <= len) by apply zlen_nonneg. unfold enc_handshake in L. apply located_app in L as [L1 L].
  apply located_app in L as [L2 L]. change (zlen [1]) with 1 in *. change (zlen (be24_bytes _)) with 3 in L.
  unfold tlsclienthelloParseHandshakeAt, kTlsHandshakeHeaderLength. cbv zeta. unfold UINT16_MAX in Ho.
  replace (n =? 0) with false by lia. rewrite load8_ok by lia. step_ok. rewrite (located_byte _ _ _ L1). cbn [negb Z.eqb Pos.eqb].
  replace (n <? 4) with false by lia. rewrite GET_BE24_ok by (auto; lia). step_ok.
  rewrite (located_be24 _ _ len) by (fold len in L2; try lia; exact L2). replace (n <? 4 + len) with false by lia.
  rewrite !wrap32_small by (unfold UINT32_MAX; lia). set (v1 := set_handshake _ _ _ _ _ _).
  assert (handshake_body_offset v1 = offset + 4 /\ has_sni v1 = false) as [-> Hv1] by (unfold v1; by destruct v).
  apply body_complete; auto; [by apply Forall_drop| |unfold UINT32_MAX; lia].
  apply located_drop; [unfold zlen in *; lia|lia|exact L].
Qed.

Lemma record_found h minor more rest :
  let payload := enc_handshake h ++ more in
  let record := enc_record minor payload ++ rest in
  hello_wf h -> 0 <= minor <= 3 -> zlen payload <= UINT16_MAX -> Forall u8 (record : list Z) ->
  exists v, tlsclienthelloParseRecord (Some record) (zlen record) = Ok (hello_result h, v) /\
    describes record h v /\ located record (handshake_body_offset v) (enc_hello h) /\
    take 8 (frame_part v) = [5 + zlen payload; zlen payload; 3; 5; 4 + zlen (enc_hello h); 9; zlen (enc_hello h); 6].
Proof.
  intros payload record W Hmin Hl F. pose proof (zlen_nonneg rest). pose proof (zlen_nonneg payload).
  pose proof (zlen_nonneg more). pose proof (zlen_nonneg (enc_hello h)).
  assert (zlen payload = 4 + zlen (enc_hello h) + zlen more) as Ep by (unfold payload; rewrite zlen_app, zlen_enc_handshake; lia).
  assert (zlen record = 5 + zlen payload + zlen rest) as Er
    by (unfold record, enc_record; rewrite !zlen_app, zlen_be16_bytes; change (zlen [22; 3; minor]) with 3; lia).
  pose proof (located_self record) as L. unfold record at 2 in L. apply located_app in L as [L _].
  unfold enc_record in L. apply located_app in L as [L0 L]. apply located_app in L as [L1 L].
  change (zlen [22; 3; minor]) with 3 in *. rewrite zlen_be16_bytes in *. replace (0 + 3 + 2) with 5 in L by lia.
  change [22; 3; minor] with ([22] ++ [3] ++ [minor]) in L0. rewrite !located_app in L0. change (zlen [?x]) with 1 in L0.
  destruct L0 as (B0 & B1 & B2). apply located_byte in B0, B1, B2. replace (0 + 1) with 1 in * by lia. replace (1 + 1) with 2 in B2 by lia.
  assert (located (drop (Z.to_nat 5) record) 0 (enc_handshake h)) as Lh.
  { apply located_drop; [lia|lia|]. unfold payload in L. by apply located_app in L as [L _]. }
  unfold UINT16_MAX in Hl.
  unfold tlsclienthelloParseRecord, guarded_byte, kTlsRecordHeaderLength, kTlsHandshakeHeaderLength. cbv zeta.
  replace (zlen record =? 0) with false by lia. rewrite !load8_ok by lia. step_ok. rewrite B0, B1, B2. cbn [negb Z.eqb Pos.eqb].
  replace (zlen record >=? 2) with true by lia. replace (zlen record >=? 3) with true by lia. replace (minor >? 3) with false by lia.
  cbn [negb]. step_ok. replace (zlen record <? 5) with false by lia. rewrite GET_BE16_ok by (auto; lia). step_ok.
  rewrite (located_be16 _ _ (zlen payload)) by (auto; unfold u16, UINT16_MAX; lia).
  replace (zlen payload <? 4) with false by lia. rewrite wrap32_small by (unfold UINT32_MAX; lia).
  replace (zlen record <? 5 + zlen payload) with false by lia.
  rewrite (handshake_complete _ _ _ h);
    [|by apply Forall_drop|done|exact Lh|rewrite zlen_enc_handshake; lia|lia|unfold UINT16_MAX; lia|done].
  step_ok. change (5 + 4) with 9. set (v0 := set_handshake _ _ _ _ _ _).
  assert (located record 9 (enc_hello h)) as L9.
  { unfold enc_handshake in Lh. rewrite !located_app in Lh. destruct Lh as (_ & _ & Lh).
    apply (located_drop record 5) in Lh; [exact Lh|lia|done]. }
  destruct (view_describes record 9 h v0 W ltac:(lia) L9) as [D Fr]; [unfold UINT32_MAX; lia|done|done|done|].
  eexists. split; [unfold hello_result; by destruct (hello_sni h)|]. split; [exact D|].
  split; [|rewrite Fr; reflexivity]. assert (handshake_body_offset (hello_view 9 h v0) = 9) as ->; [|done]. by injection Fr.
Qed.

(** A record that carries a ClientHello is recognised, whatever follows the
    message in the record and the record in the input, and the view describes
    the message: every offset and length field it names is where the bytes of
    that part of the message lie in the record. *)
Theorem hello_record_found h minor more rest :
  let payload := enc_handshake h ++ more in
  let record := enc_record minor payload ++ rest in
  hello_wf h -> 0 <= minor <= 3 -> zlen payload <= UINT16_MAX -> Forall u8 (record : list Z) ->
  exists v, tlsclienthelloParseRecord (Some record) (zlen record) = Ok (hello_result h, v) /\
    describes record h v /\ located record (handshake_body_offset v) (enc_hello h) /\
    take 8 (frame_part v) = [5 + zlen payload; zlen payload; 3; 5; 4 + zlen (enc_hello h); 9; zlen (enc_hello h); 6].
Proof. apply record_found. Qed.

(** ** A concrete message *)

(** A hello for the host [a.io] with an encrypted hello before the name. *)
Definition demo_hello : hello :=
  mk_hello (replicate 34 7) [1; 2] [19; 1] [0]
    (Some [Opaque kTlsExtensionEncryptedHello [9; 9]; ServerNames [(1, [5]); (0, [97; 46; 105; 111])]]).

Lemma demo_hello_wf : hello_wf demo_hello.
Proof.
  split; cbn [demo_hello ch_fixed ch_session ch_ciphers ch_compression ch_extensions];
    try (split; [vm_compute; congruence|apply bytes_ok_u8; reflexivity]).
  split; [vm_compute; congruence|]. cbn [exts_wf]. unfold ext_wf. cbn [ext_data].
  split; [split; [vm_compute; congruence|split; [vm_compute; split; congruence|]]|].
  - split; [apply bytes_ok_u8; reflexivity|discriminate].
  - split; [split; [vm_compute; congruence|]|done].
    repeat constructor; unfold u8, UINT8_MAX; simpl; try lia; vm_compute; congruence.
Qed.

Definition demo_record : list Z := enc_record 1 (enc_handshake demo_hello ++ [4]) ++ [23].

Lemma hello_record_found_witness :
  exists v, tlsclienthelloParseRecord (Some demo_record) (zlen demo_record) = Ok (kTlsClientHelloFound, v) /\
    describes demo_record demo_hello v /\ located demo_record (handshake_body_offset v) (enc_hello demo_hello).
Proof.
  destruct (hello_record_found demo_hello 1 [4] [23] demo_hello_wf) as (v & E & D & L & _).
  - lia.
  - vm_compute. congruence.
  - apply bytes_ok_u8. reflexivity.
  - by exists v.
Defined.


(** Two bytes already tell that something else is spoken. *)
Lemma hello_decision_final_witness :
  tlsclienthelloParseRecord (Some [22; 2; 0; 0]) 4 = Ok (kTlsClientHelloNotClientHello, tlsclienthelloInitializeView).
Proof.
  destruct (hello_decision_final [22; 2] [0; 0]) as (r & v & E & S); [apply bytes_ok_u8; reflexivity|].
  assert (tlsclienthelloParseRecord (Some [22; 2]) (zlen [22; 2]) =
    Ok (kTlsClientHelloNotClientHello, tlsclienthelloInitializeView)) as E2 by reflexivity.
  rewrite E2 in E. injection E as <- <-. by apply S.
Defined.
