(* ===== verification/Sniffer.v ===== *)
(** * Protocol sniffing ([ww/net/generic_sniffer.c])

    The first bytes of a connection decide where it is routed.  The sniffers look
    at the bytes that have arrived and answer that the protocol was found, that it
    is not the protocol, or that more bytes are needed.  A TLS ClientHello may
    be split over several records; its fragments are joined in a scratch buffer
    of the caller.

    A pointer is the list of the bytes from there to the end of the object.
    Strings are their ASCII codes, with the terminating zero where the code reads
    it.  An access outside an object faults. *)

From Stdlib Require Import ZArith Lia.
From stdpp Require Import base numbers option list.
From S2P Require Import Prelude Endian ClientHello.
Open Scope Z_scope.
Open Scope word_scope.

Inductive generic_sniffer_result_t : Set :=
  | kGenericSnifferNeedMore
  | kGenericSnifferMissing
  | kGenericSnifferFound.

#[export] Instance generic_sniffer_result_eq_dec : EqDecision generic_sniffer_result_t.
Proof. solve_decision. Defined.

Definition kGenericSnifferMethodDecideBytes : Z := 8.
Definition kGenericSnifferMaxWindowBytes : Z := 8192.

Definition TAB : Z := 9.
Definition CHAR_LF : Z := 10.
Definition CHAR_CR : Z := 13.
Definition SPACE : Z := 32.
Definition DOT : Z := 46.
Definition COLON : Z := 58.
Definition BRACKET : Z := 91.

Definition asciiLower (c : Z) : Z :=
  if (65 <=? c) && (c <=? 90) then wrap8 (Z.lor c 0x20) else c.

(** [memcmp(a, b, n) == 0] *)
Definition memoryEqual (a b : list Z) (n : Z) : outcome bool :=
  x ← mem_read a 0 n; y ← mem_read b 0 n; mret (bool_decide (x = y)).

(** ** Request lines *)

(** [name] is terminated by a zero. *)
Fixpoint name_loop (fuel : nat) (p : list Z) (n : Z) (name : list Z) (i : Z) : outcome bool :=
  match fuel with
  | O => Fail NotModelled
  | S fuel' =>
      if negb (i <? n) then c ← load8 name n; mret (c =? 0)
      else
        c ← load8 name i;
        if c =? 0 then mret false
        else
          b ← load8 p i;
          if negb (asciiLower b =? c) then mret false
          else name_loop fuel' p n name (i + 1)
  end.

Definition headerNameEquals (p : list Z) (n : Z) (name : list Z) : outcome bool :=
  name_loop (S (Z.to_nat n)) p n name 0.

(** ["GET "], ["POST "], ["PUT "], ["HEAD "], ["DELETE "], ["OPTIONS "],
    ["PATCH "], ["TRACE "], ["CONNECT "] *)
Definition http1_methods : list (list Z) :=
  [[71; 69; 84; 32]; [80; 79; 83; 84; 32]; [80; 85; 84; 32]; [72; 69; 65; 68; 32];
   [68; 69; 76; 69; 84; 69; 32]; [79; 80; 84; 73; 79; 78; 83; 32]; [80; 65; 84; 67; 72; 32];
   [84; 82; 65; 67; 69; 32]; [67; 79; 78; 78; 69; 67; 84; 32]].

(** ["PRI "] *)
Definition h2_preface_method : list Z := [80; 82; 73; 32].

(** The loop over the methods: [None] where the code returns 1, else
    [any_prefix]. *)
Fixpoint methods_loop (p : list Z) (n : Z) (methods : list (list Z)) (any_prefix : bool) : outcome (option bool) :=
  match methods with
  | [] => mret (Some any_prefix)
  | m :: methods =>
      let mlen := zlen m in
      let cmp := if n <? mlen then n else mlen in
      equal ← memoryEqual p m cmp;
      if (equal : bool) then
        if n >=? mlen then mret None else methods_loop p n methods true
      else methods_loop p n methods any_prefix
  end.

Definition classifyHttpMethodEx (p : list Z) (n : Z) (include_http2_preface : bool) : outcome Z :=
  r ← methods_loop p n http1_methods false;
  match r with
  | None => mret 1
  | Some any_prefix =>
      r ← (if include_http2_preface then methods_loop p n [h2_preface_method] any_prefix
           else mret (Some any_prefix));
      mret (match r with None => 1 | Some any_prefix => if (any_prefix : bool) then -1 else 0 end)
  end.

Definition classifyHttpMethod (p : list Z) (n : Z) : outcome Z := classifyHttpMethodEx p n true.
Definition classifyHttp1Method (p : list Z) (n : Z) : outcome Z := classifyHttpMethodEx p n false.

(** ** Header lines *)

(** [None] where the code returns false. *)
Fixpoint line_feed_loop (fuel : nat) (p : list Z) (i end_ : Z) : outcome (option Z) :=
  match fuel with
  | O => Fail NotModelled
  | S fuel' =>
      if negb (i <? end_) then mret None
      else b ← load8 p i; if b =? CHAR_LF then mret (Some i) else line_feed_loop fuel' p (i + 1) end_
  end.

Definition findLineFeed (p : list Z) (start end_ : Z) : outcome (option Z) :=
  line_feed_loop (S (Z.to_nat (end_ - start))) p start end_.

(** [p[i] == codes[0] && p[i + 1] == codes[1] && ...] *)
Fixpoint bytes_match (p : list Z) (i : Z) (codes : list Z) : outcome bool :=
  match codes with
  | [] => mret true
  | c :: codes => b ← load8 p i; if b =? c then bytes_match p (i +32 1) codes else mret false
  end.

(** [for (i = 0; i + last < n; ++i)]: the first position of [codes]. *)
Fixpoint match_loop (fuel : nat) (p : list Z) (n last : Z) (codes : list Z) (i : Z) : outcome (option Z) :=
  match fuel with
  | O => Fail NotModelled
  | S fuel' =>
      if negb (i +32 last <? n) then mret None
      else
        found ← bytes_match p i codes;
        if (found : bool) then mret (Some i) else match_loop fuel' p n last codes (i +32 1)
  end.

Definition findHeaderEnd (p : list Z) (n : Z) : outcome (option Z) :=
  r ← match_loop (S (Z.to_nat n)) p n 3 [CHAR_CR; CHAR_LF; CHAR_CR; CHAR_LF] 0;
  match r with
  | Some i => mret (Some i)
  | None => match_loop (S (Z.to_nat n)) p n 1 [CHAR_LF; CHAR_LF] 0
  end.

(** ** Host names *)

(** [while (len > 0 && test p[len - 1]) len -= 1] down to [floor]. *)
Fixpoint trim_loop (fuel : nat) (p : list Z) (floor : Z) (test : Z -> bool) (len : Z) : outcome Z :=
  match fuel with
  | O => Fail NotModelled
  | S fuel' =>
      if negb (len >? floor) then mret len
      else
        b ← load8 p (len - 1);
        if test b then trim_loop fuel' p floor test (len - 1) else mret len
  end.

(** The loop that counts colons: [colon_index] and [multiple_colons]. *)
Fixpoint colon_loop (fuel : nat) (p : list Z) (n i colon_index : Z) : outcome (Z * bool) :=
  match fuel with
  | O => Fail NotModelled
  | S fuel' =>
      if negb (i <? n) then mret (colon_index, false)
      else
        b ← load8 p i;
        if b =? COLON then
          if colon_index >=? 0 then mret (colon_index, true)
          else colon_loop fuel' p n (i + 1) (to_int i)
        else colon_loop fuel' p n (i + 1) colon_index
  end.

Fixpoint digits_loop (fuel : nat) (p : list Z) (n i : Z) : outcome bool :=
  match fuel with
  | O => Fail NotModelled
  | S fuel' =>
      if negb (i <? n) then mret true
      else
        b ← load8 p i;
        if (b <? 48) || (b >? 57) then mret false else digits_loop fuel' p n (i + 1)
  end.

Definition is_blank (b : Z) : bool := (b =? SPACE) || (b =? TAB).

(** The pointer is not moved; the result is the new length. *)
Definition genericsnifferStripHostPortAndDot (host : option (list Z)) (host_len : Z) : outcome Z :=
  match host with
  | None => mret host_len
  | Some host =>
      let fuel := S (Z.to_nat host_len) in
      host_len ← trim_loop fuel host 0 (fun b => is_blank b || (b =? CHAR_CR)) host_len;
      bracket ← guarded_byte (host_len >? 0) host 0 (fun b => b =? BRACKET);
      if (bracket : bool) then mret host_len
      else
        '(colon_index, multiple_colons) ← colon_loop fuel host host_len 0 (-1);
        host_len ← (if (colon_index >? 0) && negb multiple_colons && (colon_index +32 1 <? host_len) then
                      port_is_numeric ← digits_loop fuel host host_len (colon_index +32 1);
                      mret (if (port_is_numeric : bool) then wrap32 colon_index else host_len)
                    else mret host_len);
        trim_loop fuel host 0 (fun b => b =? DOT) host_len
  end.

(** ** HTTP/1 headers *)

(** [while (i < end && test p[i]) ++i] *)
Fixpoint skip_loop (fuel : nat) (p : list Z) (end_ : Z) (test : Z -> bool) (i : Z) : outcome Z :=
  match fuel with
  | O => Fail NotModelled
  | S fuel' =>
      if negb (i <? end_) then mret i
      else b ← load8 p i; if test b then skip_loop fuel' p end_ test (i + 1) else mret i
  end.

(** One header line from [line_start] to [line_end]: the place and length of the
    value if the line has the name. *)
Definition header_line (p : list Z) (line_start line_end : Z) (name : list Z) : outcome (option (Z * Z)) :=
  let fuel := S (Z.to_nat (line_end - line_start)) in
  cr ← guarded_byte (line_end >? line_start) p (line_end - 1) (fun b => b =? CHAR_CR);
  let content_end := if (cr : bool) then line_end - 1 else line_end in
  colon ← skip_loop fuel p content_end (fun b => negb (b =? COLON)) line_start;
  name_end ← trim_loop fuel p line_start is_blank colon;
  named ← (if colon <? content_end
           then headerNameEquals (drop (Z.to_nat line_start) p) (name_end - line_start) name
           else mret false);
  if (named : bool) then
    value_start ← skip_loop fuel p content_end is_blank (colon + 1);
    mret (Some (value_start, content_end - value_start))
  else mret None.

Fixpoint lines_loop (fuel : nat) (p : list Z) (header_end : Z) (name : list Z) (line_start : Z)
  : outcome (option (Z * Z)) :=
  match fuel with
  | O => Fail NotModelled
  | S fuel' =>
      if negb (line_start <? header_end) then mret None
      else
        lf ← findLineFeed p line_start header_end;
        let line_end := default header_end lf in
        r ← header_line p line_start line_end name;
        match r with
        | Some value => mret (Some value)
        | None => lines_loop fuel' p header_end name (line_end +32 1)
        end
  end.

(** The value is given by its offset in the payload and its length. *)
Definition findHttpHeader (p : list Z) (n : Z) (name : list Z)
  : outcome (generic_sniffer_result_t * option (Z * Z)) :=
  header_end ← findHeaderEnd p n;
  match header_end with
  | None => mret (if n <? kGenericSnifferMaxWindowBytes then kGenericSnifferNeedMore else kGenericSnifferMissing, None)
  | Some header_end =>
      request_line_end ← findLineFeed p 0 header_end;
      match request_line_end with
      | None => mret (kGenericSnifferMissing, None)
      | Some request_line_end =>
          r ← lines_loop (S (Z.to_nat header_end)) p header_end name (request_line_end +32 1);
          mret (match r with Some value => (kGenericSnifferFound, Some value) | None => (kGenericSnifferMissing, None) end)
      end
  end.

(** ["host"] and ["upgrade"] *)
Definition name_host : list Z := [104; 111; 115; 116; 0].
Definition name_upgrade : list Z := [117; 112; 103; 114; 97; 100; 101; 0].

Definition findHttpHost (p : list Z) (n : Z) : outcome (generic_sniffer_result_t * option (Z * Z)) :=
  '(result, value) ← findHttpHeader p n name_host;
  match result, value with
  | kGenericSnifferFound, Some (value, value_len) =>
      value_len ← genericsnifferStripHostPortAndDot (Some (drop (Z.to_nat value) p)) value_len;
      mret (if value_len =? 0 then (kGenericSnifferMissing, None) else (kGenericSnifferFound, Some (value, value_len)))
  | kGenericSnifferFound, None => Fail NotModelled
  | _, _ => mret (result, None)
  end.

(** The common start of the HTTP sniffers: [None] where they go on. *)
Definition method_decision (payload_len http_method : Z) : option generic_sniffer_result_t :=
  if (http_method <? 0) && (payload_len <? kGenericSnifferMethodDecideBytes) then Some kGenericSnifferNeedMore
  else if http_method <=? 0 then Some kGenericSnifferMissing
  else None.

Definition genericsnifferSniffHttp1Host (payload : list Z) (payload_len : Z)
  : outcome (generic_sniffer_result_t * option (Z * Z)) :=
  if payload_len =? 0 then mret (kGenericSnifferNeedMore, None)
  else
    http_method ← classifyHttpMethod payload payload_len;
    match method_decision payload_len http_method with
    | Some result => mret (result, None)
    | None => findHttpHost payload payload_len
    end.

Definition genericsnifferSniffHttp1Request (payload : list Z) (payload_len : Z) : outcome generic_sniffer_result_t :=
  if payload_len =? 0 then mret kGenericSnifferNeedMore
  else
    http_method ← classifyHttp1Method payload payload_len;
    mret (default kGenericSnifferFound (method_decision payload_len http_method)).

Definition genericsnifferSniffHttp1UpgradeHeader (payload : list Z) (payload_len : Z) : outcome generic_sniffer_result_t :=
  if payload_len =? 0 then mret kGenericSnifferNeedMore
  else
    http_method ← classifyHttpMethod payload payload_len;
    match method_decision payload_len http_method with
    | Some result => mret result
    | None => '(result, _) ← findHttpHeader payload payload_len name_upgrade; mret result
    end.

(** ** TLS *)

(** Where the bytes of the message lie. *)
Inductive hello_bytes_t : Set := InPayload | InScratch.

(** One turn of the record loop: the code returns, or goes on at an offset. *)
Inductive turn : Set :=
  | Return (result : tls_client_hello_result_t) (view : tls_client_hello_view_t) (place : hello_bytes_t)
  | Continue (offset used needed : Z).

(** [if (used == 4U && needed == 4U)]: the length of the message is known now, and
    the rest of the record belongs to it; [None] where the code returns
    [kTlsClientHelloMalformed]. *)
Definition grow_message (record scratch : list Z) (record_len take_ used needed : Z)
  : outcome (option (Z * Z) * list Z) :=
  if (used =? 4) && (needed =? 4) then
    length ← GET_BE24 scratch 1;
    let needed := needed +32 length in
    if needed >? kGenericSnifferMaxWindowBytes then mret (None, scratch)
    else
      let rest := Z.min (record_len -32 take_) (needed -32 used) in
      bytes ← mem_read record (5 + take_) rest;
      scratch ← mem_write scratch used bytes;
      mret (Some (used +32 rest, needed), scratch)
  else mret (Some (used, needed), scratch).

(** The body of a complete record. *)
Definition join_record (record : list Z) (record_len offset used needed : Z) (scratch : list Z)
    (hello : tls_client_hello_view_t) : outcome (turn * list Z) :=
  let take_ := Z.min record_len (needed -32 used) in
  bytes ← mem_read record 5 take_;
  scratch ← mem_write scratch used bytes;
  let used := used +32 take_ in
  kind ← load8 scratch 0;
  if negb (kind =? 0x01) then mret (Return kTlsClientHelloNotClientHello hello InPayload, scratch)
  else
    '(grown, scratch) ← grow_message record scratch record_len take_ used needed;
    match grown with
    | None => mret (Return kTlsClientHelloMalformed hello InPayload, scratch)
    | Some (used, needed) =>
        if used =? needed then
          '(result, hello) ← tlsclienthelloParseHandshake (Some scratch) used;
          mret (Return result hello InScratch, scratch)
        else mret (Continue (offset +32 (5 +32 record_len)) used needed, scratch)
    end.

Definition record_turn (payload : list Z) (payload_len offset used needed : Z) (scratch : list Z)
    (hello : tls_client_hello_view_t) : outcome (turn * list Z) :=
  let stop result := mret (Return result hello InPayload, scratch) in
  let record := drop (Z.to_nat offset) payload in
  let available := payload_len -32 offset in
  kind ← load8 record 0;
  other ← (if negb (kind =? 0x16) then mret true
           else
             major ← guarded_byte (available >=? 2) record 1 (fun b => negb (b =? 0x03));
             if (major : bool) then mret true
             else guarded_byte (available >=? 3) record 2 (fun b => b >? 0x03));
  if (other : bool) then stop kTlsClientHelloMalformed
  else if available <? 5 then stop kTlsClientHelloNeedMore
  else
    record_len ← GET_BE16 record 3;
    if record_len =? 0 then stop kTlsClientHelloMalformed
    else if record_len >? available -32 5 then stop kTlsClientHelloNeedMore
    else join_record record record_len offset used needed scratch hello.

(** [while (offset < payload_len)]; each record takes at least six bytes. *)
Fixpoint records_loop (fuel : nat) (payload : list Z) (payload_len offset used needed : Z) (scratch : list Z)
    (hello : tls_client_hello_view_t)
  : outcome (tls_client_hello_result_t * tls_client_hello_view_t * hello_bytes_t * list Z) :=
  match fuel with
  | O => Fail NotModelled
  | S fuel' =>
      if negb (offset <? payload_len) then mret (kTlsClientHelloNeedMore, hello, InPayload, scratch)
      else
        '(t, scratch) ← record_turn payload payload_len offset used needed scratch hello;
        match t with
        | Return result hello place => mret (result, hello, place, scratch)
        | Continue offset used needed => records_loop fuel' payload payload_len offset used needed scratch hello
        end
  end.

Definition sniffTlsClientHelloRecords (payload : list Z) (payload_len : Z) (scratch : list Z)
  : outcome (tls_client_hello_result_t * tls_client_hello_view_t * hello_bytes_t * list Z) :=
  '(result, hello) ← tlsclienthelloParseRecord (Some payload) payload_len;
  match result with
  | kTlsClientHelloMalformed =>
      records_loop (S (Z.to_nat payload_len)) payload payload_len 0 0 4 scratch hello
  | _ => mret (result, hello, InPayload, scratch)
  end.

Definition need_more (payload_len : Z) : generic_sniffer_result_t :=
  if payload_len <? kGenericSnifferMaxWindowBytes then kGenericSnifferNeedMore else kGenericSnifferMissing.

(** [scratch] is the uninitialised array of the function. *)
Definition genericsnifferSniffTlsClientHello (payload : list Z) (payload_len : Z) (scratch : list Z)
  : outcome generic_sniffer_result_t :=
  '(result, _, _, _) ← sniffTlsClientHelloRecords payload payload_len scratch;
  mret (match result with
        | kTlsClientHelloNeedMore => need_more payload_len
        | kTlsClientHelloFound | kTlsClientHelloNoSni => kGenericSnifferFound
        | _ => kGenericSnifferMissing
        end).

(** The host is given by its object, offset and length. *)
Definition genericsnifferSniffTlsClientHelloSni (payload : list Z) (payload_len : Z) (scratch : list Z)
  : outcome (generic_sniffer_result_t * option (hello_bytes_t * Z * Z) * list Z) :=
  '(result, hello, place, scratch) ← sniffTlsClientHelloRecords payload payload_len scratch;
  match result with
  | kTlsClientHelloNeedMore => mret (need_more payload_len, None, scratch)
  | kTlsClientHelloFound =>
      let bytes := match place with InPayload => payload | InScratch => scratch end in
      let value := sni_name_offset hello in
      value_len ← genericsnifferStripHostPortAndDot (Some (drop (Z.to_nat value) bytes)) (sni_name_length hello);
      mret (if value_len =? 0 then (kGenericSnifferMissing, None, scratch)
            else (kGenericSnifferFound, Some (place, value, value_len), scratch))
  | _ => mret (kGenericSnifferMissing, None, scratch)
  end.

(** ** BitTorrent *)

(** ["\x13BitTorrent protocol"] *)
Definition bittorrent_prefix : list Z :=
  [19; 66; 105; 116; 84; 111; 114; 114; 101; 110; 116; 32; 112; 114; 111; 116; 111; 99; 111; 108].

Definition genericsnifferSniffBittorrentHandshake (payload : list Z) (payload_len : Z)
  : outcome generic_sniffer_result_t :=
  if payload_len =? 0 then mret kGenericSnifferNeedMore
  else
    let compare_len := if payload_len <? zlen bittorrent_prefix then payload_len else zlen bittorrent_prefix in
    equal ← memoryEqual payload bittorrent_prefix compare_len;
    mret (if negb equal then kGenericSnifferMissing
          else if payload_len <? zlen bittorrent_prefix then kGenericSnifferNeedMore else kGenericSnifferFound).
