(* ===== verification/HostNames.v ===== *)
(** * Scanning loops and host names

    The cursor loops of [Sniffer] as functions on lists: the longest prefix or
    suffix that passes a test, the first occurrence of a pattern, and what the
    code strips from a host name. *)

From Stdlib Require Import ZArith Lia.
From stdpp Require Import base numbers option list.
From S2P Require Import Prelude Endian ClientHello Sniffer.
Open Scope Z_scope.
Open Scope word_scope.

(** ** Lists *)

(** The length of the longest prefix that passes a test. *)
Fixpoint span (test : Z -> bool) (l : list Z) : nat :=
  match l with
  | [] => O
  | x :: l => if test x then S (span test l) else O
  end.

Definition trim_end (test : Z -> bool) (l : list Z) : list Z := take (length l - span test (reverse l)) l.

Fixpoint has_prefix (codes l : list Z) : bool :=
  match codes, l with
  | [], _ => true
  | c :: codes, x :: l => (x =? c) && has_prefix codes l
  | _ :: _, [] => false
  end.

(** The first position of a pattern. *)
Fixpoint first_at (codes l : list Z) : option nat :=
  match l with
  | [] => None
  | x :: l' => if has_prefix codes l then Some O else S <$> first_at codes l'
  end.

Definition is_digit (b : Z) : bool := negb ((b <? 48) || (b >? 57)).

(** A numeric port behind a name without another colon. *)
Definition strip_port (l : list Z) : list Z :=
  let k := span (fun b => negb (b =? COLON)) l in
  let port := drop (S k) l in
  if bool_decide (0 < k)%nat && bool_decide (port <> []) && forallb is_digit port then take k l else l.

Definition strip_host (l : list Z) : list Z :=
  let l := trim_end (fun b => is_blank b || (b =? CHAR_CR)) l in
  match l with
  | x :: _ => if x =? BRACKET then l else trim_end (fun b => b =? DOT) (strip_port l)
  | [] => []
  end.

Lemma span_length test l : (span test l <= length l)%nat.
Proof. induction l as [|x l IH]; simpl; [lia|]. destruct (test x); lia. Qed.

Lemma span_all test l : (span test l = length l)%nat <-> Forall (fun x => test x = true) l.
Proof.
  induction l as [|x l IH]; simpl; [by split|]. rewrite Forall_cons. destruct (test x) eqn:E.
  - split; [intros [= H]; split; [done|by apply IH]|intros [_ H]; f_equal; by apply IH].
  - split; [done|by intros [[=] _]].
Qed.

Lemma span_stop test l : (span test l < length l)%nat -> exists x, l !! span test l = Some x /\ test x = false.
Proof.
  induction l as [|x l IH]; simpl; [lia|]. destruct (test x) eqn:E; intros H; [apply IH; lia|by exists x].
Qed.

Lemma span_before test l i x : (i < span test l)%nat -> l !! i = Some x -> test x = true.
Proof.
  revert i. induction l as [|y l IH]; simpl; intros i Hi E; [lia|]. destruct (test y) eqn:Ey; [|lia].
  destruct i as [|i]; simpl in E; [by injection E as <-|]. apply (IH i); [lia|done].
Qed.

Lemma trim_end_prefix test l : trim_end test l `prefix_of` l.
Proof. apply prefix_take. Qed.

Lemma strip_port_prefix l : strip_port l `prefix_of` l.
Proof. unfold strip_port. destruct (_ && _); [apply prefix_take|done]. Qed.

(** What is stripped lies at the end. *)
Lemma strip_host_prefix l : strip_host l `prefix_of` l.
Proof.
  unfold strip_host. pose proof (trim_end_prefix (fun b => is_blank b || (b =? CHAR_CR)) l) as P1.
  destruct (trim_end _ l) as [|x k]; [apply prefix_nil|]. destruct (x =? BRACKET); [done|].
  trans (x :: k); [|done]. trans (strip_port (x :: k)); [apply trim_end_prefix|apply strip_port_prefix].
Qed.

Lemma trim_snoc test l x : trim_end test (l ++ [x]) = if test x then trim_end test l else l ++ [x].
Proof.
  unfold trim_end. rewrite reverse_app. simpl. rewrite length_app. simpl. destruct (test x).
  - pose proof (span_length test (reverse l)). rewrite length_reverse in *. rewrite take_app_le by lia. f_equal. lia.
  - rewrite take_ge by (rewrite length_app; simpl; lia). done.
Qed.

(** ** Cursor loops *)

Lemma slice_snoc (l : list Z) (i n : Z) :
  0 <= i -> 0 < n -> i + n <= zlen l -> slice i n l = slice i (n - 1) l ++ [byte_at l (i + n - 1)].
Proof.
  intros. replace n with (n - 1 + 1) at 1 by lia. rewrite slice_split by lia. rewrite slice_1 by lia.
  by replace (i + (n - 1)) with (i + n - 1) by lia.
Qed.

Section Loops.
Context (p : list Z).

Lemma skip_loop_exact end_ test : forall fuel i,
  0 <= i <= end_ -> end_ <= zlen p -> (Z.to_nat (end_ - i) < fuel)%nat ->
  skip_loop fuel p end_ test i = Ok (i + Z.of_nat (span test (slice i (end_ - i) p))).
Proof.
  induction fuel as [|fuel IH]; intros i Hi He Hf; [lia|]. cbn [skip_loop].
  destruct (i <? end_) eqn:E; bool_facts; cbn [negb].
  - rewrite load8_ok by lia. step_ok. rewrite slice_cons by lia. cbn [span]. destruct (test (byte_at p i)).
    + rewrite IH by lia. replace (end_ - (i + 1)) with (end_ - i - 1) by lia. f_equal. lia.
    + f_equal. lia.
  - replace (end_ - i) with 0 by lia. rewrite slice_zero. simpl. f_equal. lia.
Qed.

Lemma trim_loop_exact floor test : forall fuel len,
  0 <= floor <= len -> len <= zlen p -> (Z.to_nat (len - floor) < fuel)%nat ->
  trim_loop fuel p floor test len = Ok (floor + zlen (trim_end test (slice floor (len - floor) p))).
Proof.
  induction fuel as [|fuel IH]; intros len Hl He Hf; [lia|]. cbn [trim_loop].
  destruct (len >? floor) eqn:E; bool_facts; cbn [negb].
  - rewrite load8_ok by lia. step_ok. rewrite (slice_snoc p floor (len - floor)) by lia. rewrite trim_snoc.
    replace (floor + (len - floor) - 1) with (len - 1) by lia. destruct (test (byte_at p (len - 1))).
    + rewrite IH by lia. by replace (len - 1 - floor) with (len - floor - 1) by lia.
    + rewrite zlen_app, zlen_slice by lia. change (zlen [?x]) with 1. step_ok. f_equal. lia.
  - replace (len - floor) with 0 by lia. rewrite slice_zero. change (zlen (trim_end test [])) with 0. f_equal. lia.
Qed.

Lemma line_feed_exact start end_ :
  0 <= start <= end_ -> end_ <= zlen p ->
  let k := Z.of_nat (span (fun b => negb (b =? CHAR_LF)) (slice start (end_ - start) p)) in
  findLineFeed p start end_ = Ok (if k <? end_ - start then Some (start + k) else None).
Proof.
  intros Hs He. unfold findLineFeed. cbv zeta.
  assert (forall fuel i, start <= i <= end_ -> (Z.to_nat (end_ - i) < fuel)%nat ->
    let k := Z.of_nat (span (fun b => negb (b =? CHAR_LF)) (slice i (end_ - i) p)) in
    line_feed_loop fuel p i end_ = Ok (if k <? end_ - i then Some (i + k) else None)) as L; [|apply L; lia].
  induction fuel as [|fuel IH]; intros i Hi Hf; [lia|]. cbn [line_feed_loop]. cbv zeta.
  destruct (i <? end_) eqn:E; bool_facts; cbn [negb].
  - rewrite load8_ok by lia. step_ok. rewrite slice_cons by lia. cbn [span]. destruct (byte_at p i =? CHAR_LF); cbn [negb].
    + rewrite (proj2 (Z.ltb_lt _ _)) by lia. do 2 f_equal. lia.
    + rewrite IH by lia. cbv zeta. replace (end_ - (i + 1)) with (end_ - i - 1) by lia.
      set (k := span _ _). f_equal. destruct (Z.ltb_spec (Z.of_nat k) (end_ - i - 1)), (Z.ltb_spec (Z.of_nat (S k)) (end_ - i));
        try lia; [|done]. f_equal. lia.
  - replace (end_ - i) with 0 by lia. rewrite slice_zero. done.
Qed.

Lemma bytes_match_exact codes : forall i,
  0 <= i -> i + zlen codes <= zlen p -> zlen p <= UINT32_MAX ->
  bytes_match p i codes = Ok (has_prefix codes (drop (Z.to_nat i) p)).
Proof.
  induction codes as [|c codes IH]; intros i Hi Hb Hm; [done|]. rewrite zlen_cons in Hb. pose proof (zlen_nonneg codes).
  cbn [bytes_match]. rewrite load8_ok by lia. step_ok.
  assert (p !! Z.to_nat i = Some (byte_at p i)) as Ex.
  { unfold byte_at. destruct (lookup_lt_is_Some_2 p (Z.to_nat i)) as [x Hx]; [unfold zlen in *; lia|].
    rewrite Hx. f_equal. symmetry. by apply nth_lookup_Some with (d := 0) in Hx. }
  rewrite (drop_S _ _ _ Ex). cbn [has_prefix]. destruct (byte_at p i =? c); [|done]. simpl.
  rewrite wrap32_small by lia. rewrite IH by lia. do 3 f_equal. lia.
Qed.

Lemma has_prefix_length codes l : has_prefix codes l = true -> (length codes <= length l)%nat.
Proof.
  revert l. induction codes as [|c codes IH]; intros [|x l]; simpl; try done; try lia.
  intros E. apply andb_prop in E as [_ E]. apply IH in E. lia.
Qed.

Lemma first_at_short codes l : (length l < length codes)%nat -> first_at codes l = None.
Proof.
  induction l as [|x l IH]; [done|]. intros Hl. cbn [first_at]. destruct (has_prefix codes (x :: l)) eqn:E.
  - apply has_prefix_length in E. lia.
  - rewrite IH; [done|]. simpl in Hl. lia.
Qed.

Lemma match_loop_exact codes : zlen p <= UINT32_MAX -> 0 < zlen codes <= 4 -> forall fuel i,
  0 <= i <= zlen p -> (Z.to_nat (zlen p - i) < fuel)%nat -> i + zlen codes - 1 <= UINT32_MAX ->
  match_loop fuel p (zlen p) (zlen codes - 1) codes i =
    Ok ((fun k => i + Z.of_nat k) <$> first_at codes (drop (Z.to_nat i) p)).
Proof.
  intros Hm Hc. induction fuel as [|fuel IH]; intros i Hi Hf Hw; [lia|]. cbn [match_loop]. rewrite wrap32_small by lia.
  destruct (i + (zlen codes - 1) <? zlen p) eqn:E; bool_facts; cbn [negb].
  2: { rewrite first_at_short; [done|]. unfold zlen in *. rewrite length_drop. lia. }
  rewrite bytes_match_exact by lia. step_ok.
  destruct (lookup_lt_is_Some_2 p (Z.to_nat i)) as [x Hx]; [unfold zlen in *; lia|].
  rewrite (drop_S _ _ _ Hx). cbn [first_at]. destruct (has_prefix codes _) eqn:Eh.
  - simpl. do 2 f_equal. lia.
  - rewrite wrap32_small by lia. rewrite IH by lia. replace (Z.to_nat (i + 1)) with (S (Z.to_nat i)) by lia.
    destruct (first_at codes _); simpl; [|done]. do 2 f_equal. lia.
Qed.
End Loops.

(** ** Host names *)

Definition no_colon (b : Z) : bool := negb (b =? COLON).

Section Strip.
Context (p : list Z).

Lemma colon_after n ci : 0 <= ci -> forall fuel i,
  0 <= i <= n -> n <= zlen p -> (Z.to_nat (n - i) < fuel)%nat ->
  colon_loop fuel p n i ci = Ok (ci, negb (forallb no_colon (slice i (n - i) p))).
Proof.
  intros Hc. induction fuel as [|fuel IH]; intros i Hi Hn Hf; [lia|]. cbn [colon_loop].
  destruct (i <? n) eqn:E; bool_facts; cbn [negb].
  - rewrite load8_ok by lia. step_ok. rewrite slice_cons by lia. cbn [forallb].
    change (no_colon (byte_at p i)) with (negb (byte_at p i =? COLON)). destruct (byte_at p i =? COLON); cbn [negb andb]; [by rewrite (proj2 (Z.geb_le _ _)) by lia|].
    rewrite IH by lia. by replace (n - (i + 1)) with (n - i - 1) by lia.
  - replace (n - i) with 0 by lia. by rewrite slice_zero.
Qed.

Lemma colon_first n : n <= INT_MAX -> forall fuel i,
  0 <= i <= n -> n <= zlen p -> (Z.to_nat (n - i) < fuel)%nat ->
  let k := Z.of_nat (span no_colon (slice i (n - i) p)) in
  colon_loop fuel p n i (-1) =
    Ok (if k <? n - i then (i + k, negb (forallb no_colon (slice (i + k + 1) (n - (i + k + 1)) p))) else (-1, false)).
Proof.
  intros Hm. induction fuel as [|fuel IH]; intros i Hi Hn Hf; [lia|]. cbn [colon_loop]. cbv zeta.
  destruct (i <? n) eqn:E; bool_facts; cbn [negb].
  2: { replace (n - i) with 0 by lia. by rewrite slice_zero. }
  rewrite load8_ok by lia. step_ok. rewrite slice_cons by lia. cbn [span].
  change (no_colon (byte_at p i)) with (negb (byte_at p i =? COLON)). destruct (byte_at p i =? COLON); cbn [negb].
  - rewrite (proj2 (Z.ltb_lt _ _)) by lia. cbn [Z.geb Z.compare]. unfold to_int. replace (i >? INT_MAX) with false by lia.
    rewrite colon_after by lia. change (Z.of_nat 0) with 0. by rewrite Z.add_0_r.
  - rewrite IH by lia. cbv zeta. replace (n - (i + 1)) with (n - i - 1) by lia.
    set (k := span no_colon _).
    replace (i + Z.of_nat (S k)) with (i + 1 + Z.of_nat k) by lia.
    destruct (Z.ltb_spec (Z.of_nat k) (n - i - 1)), (Z.ltb_spec (Z.of_nat (S k)) (n - i)); try lia; done.
Qed.

Lemma digits_exact n : forall fuel i,
  0 <= i <= n -> n <= zlen p -> (Z.to_nat (n - i) < fuel)%nat ->
  digits_loop fuel p n i = Ok (forallb is_digit (slice i (n - i) p)).
Proof.
  induction fuel as [|fuel IH]; intros i Hi Hn Hf; [lia|]. cbn [digits_loop].
  destruct (i <? n) eqn:E; bool_facts; cbn [negb].
  - rewrite load8_ok by lia. step_ok. rewrite slice_cons by lia. cbn [forallb]. unfold is_digit at 1.
    destruct (_ || _); cbn [negb andb]; [done|]. rewrite IH by lia. by replace (n - (i + 1)) with (n - i - 1) by lia.
  - replace (n - i) with 0 by lia. by rewrite slice_zero.
Qed.

Lemma prefix_slice (l : list Z) n : 0 <= n <= zlen p -> l `prefix_of` slice 0 n p -> l = slice 0 (zlen l) p.
Proof.
  intros Hn P. pose proof (prefix_length _ _ P) as Hl. destruct P as [k E].
  assert (zlen l <= n) by (unfold zlen in *; unfold slice in Hl; rewrite length_take, length_drop in Hl; lia).
  rewrite <- (slice_prefix (zlen l) n) by (pose proof (zlen_nonneg l); lia). rewrite E, slice_app_l by (pose proof (zlen_nonneg l); lia).
  by rewrite slice_0_all.
Qed.

Lemma digits_no_colon l : forallb is_digit l = true -> forallb no_colon l = true.
Proof.
  rewrite !forallb_forall. intros D x Hx. specialize (D x Hx). unfold is_digit, no_colon, COLON in *. bool_facts.
  apply negb_true_iff. lia.
Qed.

Lemma port_exact n fuel :
  0 <= n <= INT_MAX -> n <= zlen p -> (Z.to_nat n < fuel)%nat ->
  ('(colon_index, multiple_colons) ← colon_loop fuel p n 0 (-1);
   if (colon_index >? 0) && negb multiple_colons && (colon_index +32 1 <? n) then
     port_is_numeric ← digits_loop fuel p n (colon_index +32 1);
     mret (if (port_is_numeric : bool) then wrap32 colon_index else n)
   else mret n) = Ok (zlen (strip_port (slice 0 n p))).
Proof.
  intros Hn Hp Hf. rewrite colon_first by lia. cbv zeta. rewrite Z.sub_0_r, Z.add_0_l. unfold strip_port.
  fold no_colon. change (fun b : Z => negb (b =? COLON)) with no_colon. set (k := span no_colon (slice 0 n p)).
  assert (zlen (slice 0 n p) = n) as El by (apply zlen_slice; lia).
  assert (Z.of_nat k <= n) as Hk by (pose proof (span_length no_colon (slice 0 n p)); unfold zlen in El; lia).
  unfold INT_MAX in Hn. destruct (Z.ltb_spec (Z.of_nat k) n) as [Hkn|Hkn]; step_ok.
  2: { cbn [Z.gtb Z.compare andb]. rewrite (drop_ge (slice 0 n p)) by (unfold zlen in El; lia).
       rewrite (bool_decide_eq_false_2 ([] <> [])) by (by intros []). rewrite andb_false_r. simpl. by rewrite El. }
  assert (drop (S k) (slice 0 n p) = slice (Z.of_nat k + 1) (n - (Z.of_nat k + 1)) p) as Ed.
  { replace (S k) with (Z.to_nat (Z.of_nat k + 1)) by lia. rewrite slice_drop by lia. by rewrite Z.add_0_l. }
  rewrite Ed. set (port := slice (Z.of_nat k + 1) (n - (Z.of_nat k + 1)) p).
  assert (zlen port = n - (Z.of_nat k + 1)) as Ep by (apply zlen_slice; lia).
  rewrite !wrap32_small by (unfold UINT32_MAX; lia).
  destruct (Z.ltb_spec (Z.of_nat k + 1) n) as [Hn1|Hn1].
  - rewrite (bool_decide_eq_true_2 (port <> [])) by (intros E; rewrite E in Ep; change (zlen (@nil Z)) with 0 in Ep; lia).
    rewrite !andb_true_r. rewrite digits_exact by lia. fold port.
    replace (Z.of_nat k >? 0) with (bool_decide (0 < k)%nat) by (case_bool_decide; lia).
    case_bool_decide; simpl; [|by rewrite El]. destruct (forallb is_digit port) eqn:D.
    + rewrite (digits_no_colon _ D). cbn [negb]. step_ok. f_equal. unfold zlen in *. rewrite length_take. lia.
    + destruct (forallb no_colon port); step_ok; by rewrite El.
  - rewrite andb_false_r. rewrite (bool_decide_eq_false_2 (port <> [])); [rewrite andb_false_r; simpl; by rewrite El|].
    intros H. apply H. unfold zlen in Ep. destruct port; [done|simpl in Ep; lia].
Qed.

(** The code computes [strip_host]. *)
Lemma strip_exact len :
  0 <= len <= INT_MAX -> len <= zlen p ->
  genericsnifferStripHostPortAndDot (Some p) len = Ok (zlen (strip_host (slice 0 len p))).
Proof.
  intros Hl Hp. unfold genericsnifferStripHostPortAndDot. cbv zeta.
  rewrite trim_loop_exact by lia. rewrite Z.sub_0_r, Z.add_0_l. step_ok. unfold strip_host. cbv zeta.
  set (l1 := trim_end (fun b => is_blank b || (b =? CHAR_CR)) (slice 0 len p)).
  assert (l1 = slice 0 (zlen l1) p) as E1 by (apply (prefix_slice _ len); [lia|apply trim_end_prefix]).
  assert (zlen l1 <= len) as H1.
  { pose proof (prefix_length _ _ (trim_end_prefix (fun b => is_blank b || (b =? CHAR_CR)) (slice 0 len p))) as H.
    fold l1 in H. unfold slice, zlen in *. rewrite length_take, length_drop in H. lia. }
  pose proof (zlen_nonneg l1). set (n := zlen l1) in *. clearbody n. unfold guarded_byte.
  destruct (Z.gtb_spec n 0) as [Hn|Hn].
  2: { assert (n = 0) as -> by lia. rewrite slice_zero in E1. rewrite E1. step_ok. rewrite colon_first by lia. cbv zeta.
       rewrite slice_zero. done. }
  rewrite load8_ok by lia. step_ok. rewrite E1. rewrite slice_cons by lia.
  destruct (byte_at p 0 =? BRACKET).
  - rewrite <- slice_cons, zlen_slice by lia. done.
  - rewrite <- slice_cons by lia. pose proof (port_exact n (S (Z.to_nat len)) ltac:(lia) ltac:(lia) ltac:(lia)) as E.
    destruct (colon_loop _ p n 0 (-1)) as [[ci mc]|f]; [|done]. cbn [mbind outcome_bind] in E |- *. rewrite E.
    cbn [mbind outcome_bind]. set (l2 := strip_port (slice 0 n p)).
    assert (l2 = slice 0 (zlen l2) p) as E2 by (apply (prefix_slice _ n); [lia|apply strip_port_prefix]).
    assert (zlen l2 <= n) as H2.
    { pose proof (prefix_length _ _ (strip_port_prefix (slice 0 n p))) as H2. fold l2 in H2.
      unfold slice, zlen in *. rewrite length_take, length_drop in H2. lia. }
    pose proof (zlen_nonneg l2). rewrite trim_loop_exact by lia. by rewrite Z.sub_0_r, Z.add_0_l, <- E2.
Qed.
End Strip.
