(* ===== verification/HttpHeaders.v ===== *)
(** * HTTP/1 headers

    The header search of [Sniffer] against its description on lines: the header
    block ends at the first empty line, its lines are split at line feeds, and
    the value of a header is what follows the colon of the first line with that
    name. *)

From Stdlib Require Import ZArith Lia.
From stdpp Require Import base numbers option list.
From S2P Require Import Prelude Endian ClientHello Sniffer HostNames.
Open Scope Z_scope.
Open Scope word_scope.

(** ** The description *)

Definition not_lf (b : Z) : bool := negb (b =? CHAR_LF).

Fixpoint split_lines (l : list Z) : list (list Z) :=
  match l with
  | [] => [[]]
  | x :: l =>
      if x =? CHAR_LF then [] :: split_lines l
      else match split_lines l with [] => [[x]] | h :: t => (x :: h) :: t end
  end.

(** A line without its carriage return. *)
Definition chop_cr (l : list Z) : list Z :=
  match last l with Some b => if b =? CHAR_CR then take (length l - 1) l else l | None => l end.

(** The value of a line with the given name, and its place in the line. *)
Definition line_value (name line : list Z) : option (Z * list Z) :=
  let content := chop_cr line in
  let k := span no_colon content in
  if bool_decide (k < length content)%nat && bool_decide (asciiLower <$> trim_end is_blank (take k content) = name) then
    let rest := drop (S k) content in
    let b := span is_blank rest in
    Some (Z.of_nat (S k + b), drop b rest)
  else None.

(** The first line with the name; [off] is the place of the first line. *)
Fixpoint lines_value (name : list Z) (off : Z) (lines : list (list Z)) : option (Z * list Z) :=
  match lines with
  | [] => None
  | line :: lines =>
      match line_value name line with
      | Some (o, v) => Some (off + o, v)
      | None => lines_value name (off + zlen line + 1) lines
      end
  end.

(** The end of the header block. *)
Definition block_end (p : list Z) : option nat :=
  match first_at [CHAR_CR; CHAR_LF; CHAR_CR; CHAR_LF] p with Some i => Some i | None => first_at [CHAR_LF; CHAR_LF] p end.

(** A header of the block, below the request line. *)
Definition block_value (name block : list Z) : option (Z * list Z) :=
  match split_lines block with
  | request :: lines => lines_value name (zlen request + 1) lines
  | [] => None
  end.

Definition header_spec (p name : list Z) : generic_sniffer_result_t * option (Z * list Z) :=
  match block_end p with
  | None => (need_more (zlen p), None)
  | Some e =>
      match block_value name (take e p) with
      | Some v => (kGenericSnifferFound, Some v)
      | None => (kGenericSnifferMissing, None)
      end
  end.

(** ** Lines *)

Lemma split_lines_span l :
  let k := span not_lf l in
  split_lines l = take k l :: (if bool_decide (k < length l)%nat then split_lines (drop (S k) l) else []).
Proof.
  induction l as [|x l IH]; [done|]. cbn [split_lines span length]. change (not_lf x) with (negb (x =? CHAR_LF)).
  destruct (x =? CHAR_LF) eqn:E; cbn [negb].
  - done.
  - cbv zeta in *. rewrite IH. simpl. f_equal.
    destruct (decide (span not_lf l < length l)%nat); [rewrite !bool_decide_eq_true_2 by lia|rewrite !bool_decide_eq_false_2 by lia]; done.
Qed.

Lemma chop_cr_prefix l : chop_cr l `prefix_of` l.
Proof. unfold chop_cr. destruct (last l); [|done]. destruct (_ =? _); [apply prefix_take|done]. Qed.

Section Lines.
Context (p : list Z) (name : list Z) (Hname : Forall (fun c => c <> 0) name).
Context (Hp : zlen p <= INT_MAX).

Lemma name_exact q n : 0 <= n <= zlen q ->
  headerNameEquals q n (name ++ [0]) = Ok (bool_decide (asciiLower <$> slice 0 n q = name)).
Proof.
  intros Hn. unfold headerNameEquals.
  assert (forall fuel i, 0 <= i <= n -> i <= zlen name -> (Z.to_nat (n - i) < fuel)%nat ->
    name_loop fuel q n (name ++ [0]) i = Ok (bool_decide (asciiLower <$> slice i (n - i) q = drop (Z.to_nat i) name))) as L.
  2: { rewrite L by (pose proof (zlen_nonneg name); lia). by rewrite Z.sub_0_r. }
  induction fuel as [|fuel IH]; intros i Hi Hl Hf; [lia|]. cbn [name_loop].
  assert (forall j, 0 <= j <= zlen name ->
    load8 (name ++ [0]) j = Ok (if bool_decide (j = zlen name) then 0 else byte_at name j)) as Ld.
  { intros j Hj. rewrite load8_ok by (rewrite zlen_app; change (zlen [0]) with 1; lia). f_equal.
    rewrite byte_at_app by lia. case_decide; case_bool_decide; try lia. by replace (j - zlen name) with 0 by lia. }
  destruct (i <? n) eqn:E; bool_facts; cbn [negb].
  - rewrite Ld by lia. step_ok. rewrite slice_cons by lia. rewrite fmap_cons. case_bool_decide as Hd.
    { cbn [Z.eqb]. rewrite bool_decide_eq_false_2; [done|]. rewrite drop_ge by (unfold zlen in Hd; lia). done. }
    destruct (lookup_lt_is_Some_2 name (Z.to_nat i)) as [c Hc]; [unfold zlen in *; lia|].
    assert (byte_at name i = c) as -> by (unfold byte_at; by apply nth_lookup_Some with (d := 0) in Hc).
    pose proof (proj1 (Forall_lookup _ _) Hname _ _ Hc) as Hz. simpl in Hz.
    rewrite (proj2 (Z.eqb_neq c 0) Hz), load8_ok by lia. step_ok. rewrite (drop_S _ _ _ Hc).
    destruct (asciiLower (byte_at q i) =? c) eqn:Ec; bool_facts; cbn [negb].
    + rewrite IH by (unfold zlen in *; lia). replace (n - (i + 1)) with (n - i - 1) by lia.
      replace (Z.to_nat (i + 1)) with (S (Z.to_nat i)) by lia. f_equal. apply bool_decide_ext. rewrite Ec. split; congruence.
    + rewrite bool_decide_eq_false_2; [done|]. intros [= Hx _]. done.
  - replace (n - i) with 0 by lia. rewrite slice_zero. replace i with n in * by lia. rewrite Ld by lia. step_ok.
    f_equal. simpl. case_bool_decide as Hd.
    + rewrite drop_ge by (unfold zlen in Hd; lia). by rewrite bool_decide_eq_true_2.
    + destruct (lookup_lt_is_Some_2 name (Z.to_nat n)) as [c Hc]; [unfold zlen in *; lia|].
      assert (byte_at name n = c) as -> by (unfold byte_at; by apply nth_lookup_Some with (d := 0) in Hc).
      pose proof (proj1 (Forall_lookup _ _) Hname _ _ Hc) as Hz. simpl in Hz. rewrite (drop_S _ _ _ Hc).
      rewrite bool_decide_eq_false_2 by done. by apply Z.eqb_neq.
Qed.

Lemma chop_slice s n : 0 <= s -> 0 <= n -> s + n <= zlen p ->
  chop_cr (slice s n p) = slice s (if (n >? 0) && (byte_at p (s + n - 1) =? CHAR_CR) then n - 1 else n) p.
Proof.
  intros Hs Hn Hb. unfold chop_cr. destruct (Z.gtb_spec n 0) as [H|H].
  - rewrite slice_snoc by lia. rewrite last_snoc. cbn [andb]. destruct (byte_at p (s + n - 1) =? CHAR_CR).
    + rewrite length_app. simpl. by rewrite Nat.add_sub, take_app_length.
    + by rewrite <- slice_snoc by lia.
  - replace n with 0 by lia. rewrite slice_zero. simpl. by rewrite slice_zero.
Qed.

Lemma line_exact ls le : 0 <= ls <= le -> le <= zlen p ->
  header_line p ls le (name ++ [0]) =
    Ok ((fun x : Z * list Z => (ls + x.1, zlen x.2)) <$> line_value name (slice ls (le - ls) p)).
Proof.
  intros Hs He. unfold header_line, guarded_byte. cbv zeta.
  assert ((if le >? ls then b ← load8 p (le - 1); mret (b =? CHAR_CR) else mret false) =
    Ok ((le - ls >? 0) && (byte_at p (ls + (le - ls) - 1) =? CHAR_CR))) as ->.
  { replace (ls + (le - ls) - 1) with (le - 1) by lia. destruct (Z.gtb_spec le ls), (Z.gtb_spec (le - ls) 0); try lia; [|done].
    rewrite load8_ok by lia. done. }
  step_ok. unfold line_value. cbv zeta. rewrite chop_slice by lia. set (cr := (le - ls >? 0) && _).
  assert (cr = true -> 0 < le - ls) as Hcr by (unfold cr; destruct (Z.gtb_spec (le - ls) 0); [lia|done]).
  set (m := if cr then le - ls - 1 else le - ls).
  assert ((if cr then le - 1 else le) = ls + m) as -> by (unfold m; destruct cr; lia).
  assert (0 <= m /\ ls + m <= le) as [Hm0 Hm] by (unfold m; destruct cr; [specialize (Hcr eq_refl)|]; lia). clearbody m.
  rewrite skip_loop_exact by lia. replace (ls + m - ls) with m by lia. step_ok.
  change (fun b : Z => negb (b =? COLON)) with no_colon. set (content := slice ls m p). set (k := span no_colon content).
  assert (zlen content = m) as Ec by (apply zlen_slice; lia).
  assert (Z.of_nat k <= m) as Hk by (pose proof (span_length no_colon content); unfold zlen in Ec; lia).
  rewrite trim_loop_exact by lia. replace (ls + Z.of_nat k - ls) with (Z.of_nat k) by lia. step_ok.
  assert (slice ls (Z.of_nat k) p = take k content) as Ek.
  { unfold content. rewrite <- (slice_take ls (Z.of_nat k) m) by lia. by rewrite Nat2Z.id. }
  rewrite Ek. set (field := trim_end is_blank (take k content)).
  assert (slice 0 (zlen field) (drop (Z.to_nat ls) p) = field) as Ef.
  { symmetry. apply (prefix_slice _ field (Z.of_nat k)); [unfold zlen; rewrite length_drop; unfold zlen in *; lia|].
    assert (slice 0 (Z.of_nat k) (drop (Z.to_nat ls) p) = slice ls (Z.of_nat k) p) as -> by (unfold slice; by rewrite drop_0).
    rewrite Ek. apply trim_end_prefix. }
  assert (zlen field <= Z.of_nat k) as Hfl.
  { pose proof (prefix_length _ _ (trim_end_prefix is_blank (take k content))) as H. fold field in H. rewrite length_take in H.
    unfold zlen. lia. }
  replace (ls + zlen field - ls) with (zlen field) by lia.
  replace (ls + Z.of_nat k <? ls + m) with (bool_decide (k < length content)%nat)
    by (case_bool_decide; unfold zlen in Ec; lia).
  case_bool_decide as Hkc; [|done]. cbn [andb].
  rewrite name_exact by (pose proof (zlen_nonneg field); unfold zlen in *; rewrite length_drop; lia).
  rewrite Ef. step_ok. case_bool_decide; [|done]. unfold zlen in Ec.
  rewrite skip_loop_exact by lia. step_ok.
  assert (slice (ls + Z.of_nat k + 1) (ls + m - (ls + Z.of_nat k + 1)) p = drop (S k) content) as ->.
  { unfold content. replace (S k) with (Z.to_nat (Z.of_nat k + 1)) by lia. rewrite slice_drop by lia. f_equal; lia. }
  pose proof (span_length is_blank (drop (S k) content)) as Hb. rewrite length_drop in Hb.
  simpl. unfold zlen. rewrite !length_drop. do 2 f_equal. f_equal; lia.
Qed.

Lemma line_located line o v : line_value name line = Some (o, v) -> located line o v.
Proof.
  unfold line_value. cbv zeta. destruct (_ && _) eqn:E; [|done]. apply andb_prop in E as [E _].
  apply bool_decide_eq_true in E. set (content := chop_cr line) in *. set (k := span no_colon content) in *.
  set (b := span is_blank (drop (S k) content)). intros [= <- <-]. destruct (chop_cr_prefix line) as [tail ->].
  fold content. pose proof (span_length is_blank (drop (S k) content)) as Hb. fold b in Hb. rewrite length_drop in Hb.
  assert (located content (Z.of_nat (S k + b)) (drop b (drop (S k) content))) as L.
  { rewrite drop_drop. split; [lia|]. unfold zlen, slice. rewrite length_drop. split; [lia|].
    rewrite !Nat2Z.id. apply take_ge. rewrite length_drop. lia. }
  destruct L as (? & ? & ?). pose proof (zlen_nonneg tail). pose proof (zlen_nonneg (drop b (drop (S k) content))).
  split; [done|]. rewrite zlen_app. split; [lia|]. by rewrite slice_app_l.
Qed.

Definition placed (x : Z * list Z) : Z * Z := (x.1, zlen x.2).

Lemma lines_exact he : 0 <= he <= zlen p -> forall fuel ls,
  0 <= ls <= he -> (Z.to_nat (he - ls) < fuel)%nat ->
  lines_loop fuel p he (name ++ [0]) ls = Ok (placed <$> lines_value name ls (split_lines (slice ls (he - ls) p))).
Proof.
  intros Hh. unfold INT_MAX in Hp. induction fuel as [|fuel IH]; intros ls Hl Hf; [lia|]. cbn [lines_loop].
  destruct (ls <? he) eqn:E; bool_facts; cbn [negb].
  2: { replace (he - ls) with 0 by lia. by rewrite slice_zero. }
  rewrite line_feed_exact by lia. cbv zeta. step_ok. change (fun b : Z => negb (b =? CHAR_LF)) with not_lf.
  rewrite split_lines_span. cbv zeta. set (block := slice ls (he - ls) p). set (k := span not_lf block).
  assert (zlen block = he - ls) as Eb by (apply zlen_slice; lia).
  assert (Z.of_nat k <= he - ls) as Hk by (pose proof (span_length not_lf block); unfold zlen in Eb; lia).
  set (le := default he (if Z.of_nat k <? he - ls then Some (ls + Z.of_nat k) else None)).
  assert (le = ls + Z.of_nat k) as Ele by (unfold le; destruct (Z.ltb_spec (Z.of_nat k) (he - ls)); cbn [from_option id default]; simpl; lia).
  rewrite Ele, line_exact by lia. replace (ls + Z.of_nat k - ls) with (Z.of_nat k) by lia.
  assert (slice ls (Z.of_nat k) p = take k block) as ->.
  { unfold block. rewrite <- (slice_take ls (Z.of_nat k) (he - ls)) by lia. by rewrite Nat2Z.id. }
  cbn [lines_value]. destruct (line_value name (take k block)) as [[o v]|]; step_ok; [done|]. simpl.
  rewrite wrap32_small by (unfold UINT32_MAX; lia).
  assert (zlen (take k block) = Z.of_nat k) as -> by (unfold zlen in *; rewrite length_take; lia).
  case_bool_decide as Hd; unfold zlen in Eb.
  - rewrite IH by lia. assert (slice (ls + Z.of_nat k + 1) (he - (ls + Z.of_nat k + 1)) p = drop (S k) block) as ->; [|done].
    unfold block. replace (S k) with (Z.to_nat (Z.of_nat k + 1)) by lia. rewrite slice_drop by lia. f_equal; lia.
  - simpl. destruct fuel as [|fuel']; [lia|]. cbn [lines_loop]. by rewrite (proj2 (Z.ltb_ge _ _)) by lia.
Qed.

Lemma lines_located block : forall off o v,
  lines_value name off (split_lines block) = Some (o, v) -> located block (o - off) v.
Proof.
  induction block as [block IH] using (induction_ltof1 _ (@length Z)); unfold ltof in IH.
  intros off o v. rewrite split_lines_span. cbv zeta. set (k := span not_lf block). cbn [lines_value].
  pose proof (span_length not_lf block) as Hk. fold k in Hk.
  destruct (line_value name (take k block)) as [[o1 v1]|] eqn:E.
  - intros [= <- <-]. apply line_located in E as (Ho & Hb & Es). replace (off + o1 - off) with o1 by lia.
    rewrite <- (take_drop k block). pose proof (zlen_nonneg v1). pose proof (zlen_nonneg (drop k block)).
    split; [done|]. rewrite zlen_app. split; [lia|]. by rewrite slice_app_l.
  - case_bool_decide as Hd; [|done]. assert (zlen (take k block) = Z.of_nat k) as -> by (unfold zlen; rewrite length_take; lia).
    intros H. apply IH in H; [|rewrite length_drop; lia]. pose proof (proj1 H) as Hc.
    replace (S k) with (Z.to_nat (Z.of_nat k + 1)) in H by lia.
    apply (located_drop block (Z.of_nat k + 1)) in H; [|unfold zlen; lia|done].
    by replace (o - off) with (Z.of_nat k + 1 + (o - (off + Z.of_nat k + 1))) by lia.
Qed.

Lemma first_at_fits codes l i : first_at codes l = Some i -> (i + length codes <= length l)%nat.
Proof.
  revert i. induction l as [|x l IH]; intros i E; [done|]. cbn [first_at] in E. destruct (has_prefix codes (x :: l)) eqn:Eh.
  - injection E as <-. by apply has_prefix_length in Eh.
  - destruct (first_at codes l) as [j|]; [|done]. injection E as <-. specialize (IH j eq_refl). simpl. lia.
Qed.

Lemma header_end_exact : findHeaderEnd p (zlen p) = Ok (Z.of_nat <$> block_end p).
Proof.
  unfold findHeaderEnd, block_end. unfold INT_MAX in Hp. pose proof (zlen_nonneg p).
  assert (forall o : option nat, (fun k => 0 + Z.of_nat k) <$> o = Z.of_nat <$> o) as Z0 by (by intros []).
  rewrite (match_loop_exact p [CHAR_CR; CHAR_LF; CHAR_CR; CHAR_LF]); [|unfold UINT32_MAX; lia|done|lia|lia|unfold zlen, UINT32_MAX; simpl; lia].
  rewrite drop_0, Z0. step_ok. destruct (first_at [CHAR_CR; CHAR_LF; CHAR_CR; CHAR_LF] p) as [i|]; [done|]. cbn [fmap option_fmap option_map].
  rewrite (match_loop_exact p [CHAR_LF; CHAR_LF]); [|unfold UINT32_MAX; lia|done|lia|lia|unfold zlen, UINT32_MAX; simpl; lia].
  by rewrite drop_0, Z0.
Qed.

Lemma block_end_bound e : block_end p = Some e -> (e < length p)%nat.
Proof.
  unfold block_end. destruct (first_at [CHAR_CR; CHAR_LF; CHAR_CR; CHAR_LF] p) as [i|] eqn:E.
  - intros [= <-]. apply first_at_fits in E. simpl in E. lia.
  - intros E2. apply first_at_fits in E2. simpl in E2. lia.
Qed.

Lemma header_exact :
  findHttpHeader p (zlen p) (name ++ [0]) = Ok ((header_spec p name).1, placed <$> (header_spec p name).2).
Proof.
  unfold findHttpHeader, header_spec. rewrite header_end_exact. step_ok. destruct (block_end p) as [e|] eqn:Ee; [|done].
  apply block_end_bound in Ee. unfold INT_MAX in Hp. cbn [fmap option_fmap option_map]. assert (Z.of_nat e <= zlen p) as He by (unfold zlen; lia).
  rewrite line_feed_exact by lia. rewrite Z.sub_0_r. cbv zeta. step_ok. change (fun b : Z => negb (b =? CHAR_LF)) with not_lf.
  assert (slice 0 (Z.of_nat e) p = take e p) as Es by (unfold slice; by rewrite drop_0, Nat2Z.id).
  unfold block_value. rewrite split_lines_span. cbv zeta. rewrite Es. set (k := span not_lf (take e p)).
  pose proof (span_length not_lf (take e p)) as Hk. fold k in Hk. rewrite length_take in *.
  assert (zlen (take k (take e p)) = Z.of_nat k) as -> by (unfold zlen; rewrite !length_take; lia).
  destruct (Z.ltb_spec (Z.of_nat k) (Z.of_nat e)) as [H|H].
  - rewrite bool_decide_eq_true_2 by lia. rewrite Z.add_0_l, wrap32_small by (unfold UINT32_MAX; lia).
    rewrite lines_exact by lia. step_ok.
    assert (slice (Z.of_nat k + 1) (Z.of_nat e - (Z.of_nat k + 1)) p = drop (S k) (take e p)) as ->.
    { rewrite <- Es. replace (S k) with (Z.to_nat (Z.of_nat k + 1)) by lia. rewrite slice_drop by lia. f_equal; lia. }
    by destruct (lines_value _ _ _).
  - by rewrite bool_decide_eq_false_2 by lia.
Qed.

Lemma header_located o v : (header_spec p name).2 = Some (o, v) -> located p o v.
Proof.
  unfold header_spec. destruct (block_end p) as [e|] eqn:Ee; [|done]. apply block_end_bound in Ee.
  unfold block_value. destruct (split_lines (take e p)) as [|request lines] eqn:Es; [done|].
  destruct (lines_value _ _ lines) as [[o1 v1]|] eqn:El; [|done]. simpl. intros [= <- <-].
  rewrite split_lines_span in Es. cbv zeta in Es. set (k := span not_lf (take e p)) in *. injection Es as Er Et.
  pose proof (span_length not_lf (take e p)) as Hk. fold k in Hk. rewrite length_take in Hk.
  assert (zlen request = Z.of_nat k) as Ez by (rewrite <- Er; unfold zlen; rewrite !length_take; lia).
  case_bool_decide as Hd; [|by rewrite <- Et in El]. rewrite <- Et, Ez in El. apply lines_located in El. pose proof (proj1 El) as Hc.
  replace (S k) with (Z.to_nat (Z.of_nat k + 1)) in El by lia.
  apply (located_drop (take e p) (Z.of_nat k + 1)) in El; [|rewrite length_take in Hd; unfold zlen; rewrite length_take; lia|done].
  replace (Z.of_nat k + 1 + (o1 - (Z.of_nat k + 1))) with o1 in El by lia. destruct El as (Ho & Hb & Ev).
  rewrite <- (take_drop e p). pose proof (zlen_nonneg v1). pose proof (zlen_nonneg (drop e p)).
  split; [done|]. rewrite zlen_app. split; [lia|]. by rewrite slice_app_l.
Qed.
End Lines.

(** ** The HTTP sniffers *)

Definition method_seen (methods : list (list Z)) (p : list Z) : bool := existsb (fun m => has_prefix m p) methods.
Definition method_started (methods : list (list Z)) (p : list Z) : bool := existsb (fun m => has_prefix p m) methods.

(** The host of a request: the header without port and trailing dots. *)
Definition host_spec (p : list Z) : generic_sniffer_result_t * option (Z * list Z) :=
  let methods := http1_methods ++ [h2_preface_method] in
  if method_seen methods p then
    match header_spec p [104; 111; 115; 116] with
    | (kGenericSnifferFound, Some (o, v)) =>
        if bool_decide (strip_host v = []) then (kGenericSnifferMissing, None) else (kGenericSnifferFound, Some (o, strip_host v))
    | (r, _) => (r, None)
    end
  else if method_started methods p then (kGenericSnifferNeedMore, None)
  else (kGenericSnifferMissing, None).

Lemma has_prefix_take codes l : has_prefix codes l = bool_decide (take (length codes) l = codes).
Proof.
  revert l. induction codes as [|c codes IH]; intros [|x l]; simpl; try done. rewrite IH.
  destruct (Z.eqb_spec x c) as [->|Hn]; simpl; [|rewrite bool_decide_eq_false_2; [done|congruence]].
  apply bool_decide_ext. split; congruence.
Qed.

Lemma methods_exact p methods : forall any,
  0 < zlen p ->
  methods_loop p (zlen p) methods any =
    Ok (if method_seen methods p then None else Some (any || method_started methods p)).
Proof.
  unfold method_seen, method_started. induction methods as [|m methods IH]; intros any Hp; cbn [methods_loop existsb].
  { by rewrite orb_false_r. }
  pose proof (zlen_nonneg m). unfold memoryEqual.
  set (cmp := if zlen p <? zlen m then zlen p else zlen m).
  assert (cmp <= zlen p /\ cmp <= zlen m /\ 0 <= cmp) as (? & ? & ?) by (unfold cmp; destruct (Z.ltb_spec (zlen p) (zlen m)); lia).
  rewrite !mem_read_ok by lia. step_ok. destruct (Z.ltb_spec (zlen p) (zlen m)) as [H3|H3].
  - change cmp with (zlen p). rewrite slice_0_all. assert (has_prefix m p = false) as ->.
    { destruct (has_prefix m p) eqn:E; [|done]. apply has_prefix_length in E. unfold zlen in H3. lia. }
    assert (bool_decide (p = slice 0 (zlen p) m) = has_prefix p m) as ->.
    { rewrite has_prefix_take. unfold slice, zlen. rewrite drop_0, Nat2Z.id. by apply bool_decide_ext. }
    replace (zlen p >=? zlen m) with false by lia.
    destruct (has_prefix p m); rewrite IH by done; simpl; [by rewrite orb_true_r|done].
  - change cmp with (zlen m). rewrite slice_0_all.
    assert (bool_decide (slice 0 (zlen m) p = m) = has_prefix m p) as ->.
    { rewrite has_prefix_take. unfold slice, zlen. by rewrite drop_0, Nat2Z.id. }
    replace (zlen p >=? zlen m) with true by lia. destruct (has_prefix m p) eqn:E; [done|]. rewrite IH by done. simpl.
    assert (has_prefix p m = false) as ->; [|done]. destruct (has_prefix p m) eqn:E2; [|done].
    rewrite has_prefix_take in E, E2. apply bool_decide_eq_true in E2. apply bool_decide_eq_false in E. exfalso. apply E.
    pose proof (f_equal length E2) as El. rewrite length_take in El. unfold zlen in H3.
    rewrite take_ge in E2 by lia. subst m. apply take_ge. lia.
Qed.

Lemma prefix_flip p m : has_prefix p m = true -> (length m <= length p)%nat -> has_prefix m p = true.
Proof.
  rewrite !has_prefix_take, !bool_decide_eq_true. intros E H. rewrite take_ge in E by done. subst m. by apply take_ge.
Qed.

Lemma started_short methods p :
  Forall (fun m => (length m <= 8)%nat) methods -> method_started methods p = true -> method_seen methods p = false ->
  zlen p < kGenericSnifferMethodDecideBytes.
Proof.
  unfold method_started, method_seen, kGenericSnifferMethodDecideBytes. rewrite existsb_exists. intros F (m & Hm & E) Hs.
  pose proof (proj1 (Forall_forall _ _) F m (proj2 (list_elem_of_In _ _) Hm)) as Hl. simpl in Hl.
  destruct (decide (length m <= length p)%nat) as [H|H]; [|unfold zlen; lia].
  apply (prefix_flip p m E) in H. enough (existsb (fun m => has_prefix m p) methods = true) by congruence.
  apply existsb_exists. by exists m.
Qed.

Lemma name_host_codes : Forall (fun c => c <> 0) [104; 111; 115; 116].
Proof. repeat (apply Forall_cons; split; [lia|]). by apply Forall_nil. Qed.

Lemma methods_short : Forall (fun m => (length m <= 8)%nat) (http1_methods ++ [h2_preface_method]).
Proof. simpl. repeat (apply Forall_cons; split; [simpl; lia|]). apply Forall_nil. done. Qed.

Lemma classify_exact p : 0 < zlen p ->
  let methods := http1_methods ++ [h2_preface_method] in
  classifyHttpMethod p (zlen p) = Ok (if method_seen methods p then 1 else if method_started methods p then -1 else 0).
Proof.
  intros Hp methods. unfold classifyHttpMethod, classifyHttpMethodEx, methods. rewrite methods_exact by done. step_ok.
  unfold method_seen, method_started. rewrite !existsb_app. destruct (existsb (fun m => has_prefix m p) http1_methods); [done|].
  rewrite methods_exact by done. unfold method_seen, method_started. step_ok. rewrite !orb_false_l.
  by destruct (existsb (fun m => has_prefix m p) [h2_preface_method]).
Qed.


(** A request for [x.io] on a port. *)
Definition demo_request : list Z :=
  [71; 69; 84; 32; 47; 13; 10; 65; 58; 98; 13; 10; 72; 111; 83; 84; 32; 58; 32; 120; 46; 105; 111; 58; 56; 48; 13; 10; 13; 10].


(** C40. A header block that ends with bare line feeds is not the end of the
    search: when the body holds an empty line with carriage returns, its lines
    are taken for headers, so the answer for a complete request without a host
    changes when the body arrives. *)
Theorem host_read_from_body :
  let request := [71; 69; 84; 32; 47; 10; 65; 58; 98; 10; 10] in
  let body := [10; 72; 111; 115; 116; 58; 32; 101; 118; 105; 108; 13; 10; 13; 10] in
  genericsnifferSniffHttp1Host request (zlen request) = Ok (kGenericSnifferMissing, None) /\
  genericsnifferSniffHttp1Host (request ++ body) (zlen (request ++ body)) = Ok (kGenericSnifferFound, Some (18, 4)) /\
  located (request ++ body) 18 [101; 118; 105; 108].
Proof.
  intros request body. split; [reflexivity|]. split; [reflexivity|]. split; [lia|]. split; [vm_compute; congruence|reflexivity].
Qed.
