(* ===== verification/TlsSniff.v ===== *)
(** * TLS ClientHello messages split over records

    The record loop of [Sniffer] joins the fragments of a handshake message in
    the scratch buffer.  However a ClientHello is cut into records, the sniffer
    finds it and the host name it asks for; on any input it stays inside the
    payload and the scratch buffer. *)

From Stdlib Require Import ZArith Lia.
From stdpp Require Import base numbers option list.
From S2P Require Import Prelude Endian ClientHello HelloGrammar HelloRecords Sniffer HostNames.
Open Scope Z_scope.
Open Scope word_scope.

(** ** Copies *)

Lemma take_extends (l : list Z) u t :
  0 <= u -> 0 <= t -> take (Z.to_nat (u + t)) l = take (Z.to_nat u) l ++ slice u t l.
Proof.
  intros. assert (forall m, 0 <= m -> take (Z.to_nat m) l = slice 0 m l) as E by (intros m ?; unfold slice; by rewrite drop_0).
  rewrite !E by lia. rewrite slice_split by lia. by rewrite Z.add_0_l.
Qed.

Lemma zlen_take (l : list Z) u : 0 <= u <= zlen l -> zlen (take (Z.to_nat u) l) = u.
Proof. unfold zlen. intros. rewrite length_take. lia. Qed.

(** A part of an object at [c] that is also a part of a stream at [u]. *)
Lemma copy_read rec_ c f stream u a t :
  located rec_ c f -> located stream u f -> 0 <= a -> 0 <= t -> a + t <= zlen f ->
  mem_read rec_ (c + a) t = Ok (slice (u + a) t stream).
Proof.
  intros (Hc & Hb & Er) (Hu & Hb2 & Es) Ha Ht Hf. rewrite mem_read_ok by lia. f_equal.
  assert (forall l k, 0 <= k -> slice k (zlen f) l = f -> slice (k + a) t l = slice a t f) as G; [|by rewrite (G _ c), (G _ u)].
  intros l k Hk E. rewrite <- E at 1. unfold slice. rewrite skipn_firstn_comm, drop_drop, take_take.
  f_equal; [|f_equal]; lia.
Qed.

Section Join.
Context (payload : list Z) (Fp : Forall u8 payload) (Hn : zlen payload <= UINT32_MAX).
Context (h : hello) (W : hello_wf h) (Hh : zlen (enc_handshake h) <= kGenericSnifferMaxWindowBytes).
Context (more : list Z).

Abbreviation hs := (enc_handshake h).
Abbreviation size := (zlen (enc_handshake h)).

(** The first [used] bytes of the message are in the scratch buffer. *)
Record joined (used : Z) (scratch : list Z) : Prop := mk_joined {
  jo_used : 0 <= used <= size;
  jo_length : zlen scratch = kGenericSnifferMaxWindowBytes;
  jo_bytes : Forall u8 scratch;
  jo_prefix : located scratch 0 (take (Z.to_nat used) hs)
}.

Definition wanted (used : Z) : Z := if used <? 4 then 4 else size.

Lemma size_large : 38 <= size.
Proof.
  rewrite zlen_enc_handshake, (zlen_enc_hello h (proj1 (hw_fixed _ W))). unfold exts_offset, kTlsClientHelloFixedLength.
  pose proof (zlen_nonneg (ch_session h)). pose proof (zlen_nonneg (ch_ciphers h)). pose proof (zlen_nonneg (ch_compression h)).
  destruct (ch_extensions h) as [l|]; [pose proof (zlen_nonneg (enc_exts l))|]; lia.
Qed.

(** Copying the next bytes of the message. *)
Lemma join_more used scratch t :
  joined used scratch -> Forall u8 hs -> 0 <= t -> used + t <= size ->
  exists scratch', mem_write scratch used (slice used t hs) = Ok scratch' /\ joined (used + t) scratch'.
Proof.
  intros [Hu Hl Fs L] F Ht Hs. unfold kGenericSnifferMaxWindowBytes in *.
  assert (zlen (take (Z.to_nat used) hs) = used) as E by (apply zlen_take; lia).
  assert (zlen (slice used t hs) = t) as Et by (apply zlen_slice; lia).
  eexists. split; [apply mem_write_ok; lia|].
  pose proof (splice_extends scratch _ (slice used t hs) L ltac:(lia)) as L2. rewrite E, <- take_extends in L2 by lia.
  split; [lia| |apply Forall_splice_at; auto; by apply Forall_slice|done].
  rewrite zlen_splice_at; unfold kGenericSnifferMaxWindowBytes; lia.
Qed.

Lemma joined_kind used scratch : joined used scratch -> 1 <= used -> load8 scratch 0 = Ok 1.
Proof.
  intros [Hu Hl Fs L] H1. unfold kGenericSnifferMaxWindowBytes in Hl. rewrite load8_ok by lia. f_equal. apply located_byte.
  assert (take (Z.to_nat used) hs = [1] ++ drop 1 (take (Z.to_nat used) hs)) as E.
  { replace (Z.to_nat used) with (S (Z.to_nat (used - 1))) by lia. done. }
  rewrite E in L. by apply located_app in L as [L _].
Qed.

Lemma joined_length used scratch : joined used scratch -> 4 <= used -> GET_BE24 scratch 1 = Ok (size - 4).
Proof.
  intros [Hu Hl Fs L] H1. unfold kGenericSnifferMaxWindowBytes in *. rewrite GET_BE24_ok by (auto; lia). f_equal.
  rewrite zlen_enc_handshake in *. rewrite (located_be24 _ _ (zlen (enc_hello h))); [lia|pose proof (zlen_nonneg (enc_hello h)); lia|].
  assert (take (Z.to_nat used) hs = [1] ++ be24_bytes (zlen (enc_hello h)) ++ drop 4 (take (Z.to_nat used) hs)) as E.
  { replace (Z.to_nat used) with (S (S (S (S (Z.to_nat (used - 4)))))) by lia. done. }
  rewrite E in L. apply located_app in L as [_ L]. by apply located_app in L as [L _].
Qed.

(** ** One record *)

(** The header of a record lets the turn through. *)
Lemma record_header (rec_ : list Z) minor f avail :
  Forall u8 rec_ -> located rec_ 0 (enc_record minor f) -> 0 <= minor <= 3 -> zlen f <= UINT16_MAX -> 5 <= avail ->
  load8 rec_ 0 = Ok 0x16 /\ guarded_byte (avail >=? 2) rec_ 1 (fun b => negb (b =? 0x03)) = Ok false /\
  guarded_byte (avail >=? 3) rec_ 2 (fun b => b >? 0x03) = Ok false /\ GET_BE16 rec_ 3 = Ok (zlen f) /\ located rec_ 5 f.
Proof.
  intros F L Hm Hf Ha. pose proof (proj1 (proj2 L)) as Hb. unfold enc_record in L, Hb. pose proof (zlen_nonneg f).
  rewrite !zlen_app, zlen_be16_bytes in Hb. change (zlen [22; 3; minor]) with 3 in Hb.
  apply located_app in L as [L0 L]. apply located_app in L as [L1 L]. change (zlen [22; 3; minor]) with 3 in *.
  rewrite zlen_be16_bytes in L. change [22; 3; minor] with ([22] ++ [3] ++ [minor]) in L0. rewrite !located_app in L0.
  change (zlen [?x]) with 1 in L0. destruct L0 as (B0 & B1 & B2). apply located_byte in B0, B1, B2.
  unfold guarded_byte. replace (avail >=? 2) with true by lia. replace (avail >=? 3) with true by lia.
  rewrite !load8_ok, GET_BE16_ok by (auto; lia). step_ok.
  change (0 + 3) with 3 in *. change (3 + 2) with 5 in L. change (0 + 1) with 1 in *. change (1 + 1) with 2 in *.
  rewrite B0, B1, B2. rewrite (located_be16 _ _ _ (zlen_u16 _ Hf) L1). splits; try done. f_equal. lia.
Qed.

Definition handshake_view : tls_client_hello_view_t :=
  hello_view 4 h (set_handshake tlsclienthelloInitializeView 0 size 4 (zlen (enc_hello h)) 1).

(** The length field, once it is complete, tells how much is wanted. *)
Lemma grow_joins (rec_ f : list Z) used t1 s1 :
  (forall a t, 0 <= a -> 0 <= t -> a + t <= zlen f -> used + a + t <= size ->
    mem_read rec_ (5 + a) t = Ok (slice (used + a) t hs)) ->
  Forall u8 hs -> 0 <= used < size -> 0 < zlen f <= UINT16_MAX -> t1 = Z.min (zlen f) (wanted used - used) ->
  joined (used + t1) s1 ->
  let used' := Z.min (used + zlen f) size in
  exists s2, joined used' s2 /\
    grow_message rec_ s1 (zlen f) t1 (used + t1) (wanted used) = Ok (Some (used', wanted used'), s2).
Proof.
  intros Copy F Hu Hf Et1 J1. set (used' := Z.min (used + zlen f) size).
  assert (used' = Z.min (used + zlen f) size) as Eu by done. clearbody used'. pose proof size_large as Hsz.
  unfold kGenericSnifferMaxWindowBytes, UINT16_MAX in *.
  assert (0 < wanted used - used <= size - used) as Hw by (unfold wanted; destruct (Z.ltb_spec used 4); lia).
  unfold grow_message. destruct ((used + t1 =? 4) && (wanted used =? 4)) eqn:E4; bool_facts.
  - rewrite (joined_length _ _ J1) by lia. step_ok. replace (wanted used) with 4 by lia.
    rewrite !wrap32_small by (unfold UINT32_MAX; lia). replace (4 + (size - 4)) with size by lia.
    unfold kGenericSnifferMaxWindowBytes. replace (size >? 8192) with false by lia.
    rewrite (wrap32_small (zlen f - t1)), (wrap32_small (size - (used + t1))) by (unfold UINT32_MAX; lia).
    remember (Z.min (zlen f - t1) (size - (used + t1))) as r eqn:Er. rewrite Copy by lia. step_ok.
    destruct (join_more (used + t1) s1 r J1 F ltac:(lia) ltac:(lia)) as (s2 & W2 & J2). rewrite W2. step_ok.
    rewrite wrap32_small by (unfold UINT32_MAX; lia). replace (used + t1 + r) with used' in * by lia. exists s2. split; [done|].
    do 4 f_equal. unfold wanted. destruct (Z.ltb_spec used' 4); lia.
  - exists s1. assert (used + t1 = used' /\ wanted used = wanted used') as [E1 E2]; [|rewrite E2, E1; rewrite E1 in J1; by split].
    apply andb_false_iff in E4. rewrite !Z.eqb_neq in E4. unfold wanted in *. destruct (Z.ltb_spec used 4), (Z.ltb_spec used' 4); lia.
Qed.

(** The bytes of a fragment reach the scratch buffer. *)
Lemma join_exact rec_ f offset used scratch v :
  located rec_ 5 f -> 0 < zlen f <= UINT16_MAX -> Forall u8 hs -> located (hs ++ more) used f ->
  joined used scratch -> used < size -> 0 <= offset -> offset + 5 + zlen f <= UINT32_MAX ->
  let used' := Z.min (used + zlen f) size in
  exists scratch', joined used' scratch' /\
    join_record rec_ (zlen f) offset used (wanted used) scratch v =
      Ok (if used' =? size then Return (hello_result h) handshake_view InScratch
          else Continue (offset + 5 + zlen f) used' (wanted used'), scratch').
Proof.
  intros Lf Hf F Ls J Hu Ho Hb. set (used' := Z.min (used + zlen f) size).
  assert (used' = Z.min (used + zlen f) size) as Eu by done. clearbody used'. pose proof size_large as Hsz. pose proof (jo_used _ _ J) as Hj.
  unfold kGenericSnifferMaxWindowBytes, UINT16_MAX, UINT32_MAX in *.
  assert (forall a t, 0 <= a -> 0 <= t -> a + t <= zlen f -> used + a + t <= size ->
    mem_read rec_ (5 + a) t = Ok (slice (used + a) t hs)) as Copy.
  { intros a t ? ? ? ?. rewrite (copy_read _ 5 f (hs ++ more) used) by (auto; lia). by rewrite slice_app_l by lia. }
  assert (0 < wanted used - used <= size - used) as Hw by (unfold wanted; destruct (Z.ltb_spec used 4); lia).
  unfold join_record. cbv zeta. rewrite (wrap32_small (wanted used - used)) by (unfold UINT32_MAX; lia).
  remember (Z.min (zlen f) (wanted used - used)) as t1 eqn:Et1.
  assert (1 <= t1 <= zlen f /\ used + t1 <= size) as [Ht1 Hs1] by lia.
  pose proof (Copy 0 t1 ltac:(lia) ltac:(lia) ltac:(lia) ltac:(lia)) as R1. rewrite !Z.add_0_r in R1. rewrite R1. step_ok.
  destruct (join_more used scratch t1 J F ltac:(lia) ltac:(lia)) as (s1 & W1 & J1). rewrite W1. step_ok.
  rewrite (wrap32_small (used + t1)) by (unfold UINT32_MAX; lia). rewrite (joined_kind _ _ J1) by lia. step_ok. cbn [Z.eqb Pos.eqb negb].
  destruct (grow_joins rec_ f used t1 s1 Copy F ltac:(lia) ltac:(unfold UINT16_MAX; lia) Et1 J1) as (s2 & J2 & ->). rewrite <- Eu in *.
  step_ok. destruct (Z.eqb_spec used' size) as [Ee|Hne].
  - replace (wanted used') with size by (unfold wanted; destruct (Z.ltb_spec used' 4); lia). rewrite Ee, Z.eqb_refl. rewrite Ee in J2.
    exists s2. split; [done|]. unfold tlsclienthelloParseHandshake. destruct J2 as [_ Hl2 F2 L2].
    rewrite take_ge in L2 by (unfold zlen; lia). rewrite (handshake_complete _ _ _ h); auto; try lia.
    + unfold handshake_view. by rewrite zlen_enc_handshake.
    + rewrite zlen_enc_handshake in *. lia.
    + unfold UINT16_MAX. lia.
  - replace (used' =? wanted used') with false by (unfold wanted; destruct (Z.ltb_spec used' 4); lia).
    exists s2. split; [done|]. rewrite !wrap32_small by (unfold UINT32_MAX; rewrite ?wrap32_small by (unfold UINT32_MAX; lia); lia). do 3 f_equal. lia.
Qed.

Lemma turn_joins offset minor f used scratch v :
  located payload offset (enc_record minor f) -> 0 <= minor <= 3 -> 0 < zlen f <= UINT16_MAX ->
  Forall u8 hs -> located (hs ++ more) used f -> joined used scratch -> used < size ->
  let used' := Z.min (used + zlen f) size in
  exists scratch', joined used' scratch' /\
    record_turn payload (zlen payload) offset used (wanted used) scratch v =
      Ok (if used' =? size then Return (hello_result h) handshake_view InScratch
          else Continue (offset + 5 + zlen f) used' (wanted used'), scratch').
Proof.
  intros L Hm Hf F Ls J Hu used'. pose proof (proj1 L) as Ho. pose proof (proj1 (proj2 L)) as Hb.
  assert (zlen (enc_record minor f) = 5 + zlen f) as Er
    by (unfold enc_record; rewrite !zlen_app, zlen_be16_bytes; change (zlen [22; 3; minor]) with 3; lia).
  assert (located (drop (Z.to_nat offset) payload) 0 (enc_record minor f)) as Lr
    by (apply located_drop; [lia|lia|by rewrite Z.add_0_r]).
  unfold record_turn. cbv zeta. rewrite (wrap32_small (zlen payload - offset)) by lia.
  destruct (record_header (drop (Z.to_nat offset) payload) minor f (zlen payload - offset)) as (E0 & E1 & E2 & E3 & Lf);
    [by apply Forall_drop|done|done|lia|lia|].
  rewrite E0. step_ok. cbn [Z.eqb Pos.eqb negb]. rewrite E1. step_ok. rewrite E2. step_ok.
  replace (zlen payload - offset <? 5) with false by lia. rewrite E3. step_ok. replace (zlen f =? 0) with false by lia.
  rewrite (wrap32_small (zlen payload - offset - 5)) by lia. replace (zlen f >? zlen payload - offset - 5) with false by lia.
  apply join_exact; auto; lia.
Qed.

(** ** All records *)

(** A fragment and the minor version of its record. *)
Definition fragment_ok (x : Z * list Z) : Prop := 0 <= x.1 <= 3 /\ 0 < zlen x.2 <= UINT16_MAX.
Definition enc_fragments (l : list (Z * list Z)) : list Z := concat ((fun x => enc_record x.1 x.2) <$> l).

Lemma loop_joins v : forall frags fuel offset used scratch before,
  Forall fragment_ok frags -> Forall u8 hs -> hs ++ more = before ++ concat frags.*2 -> zlen before = used ->
  located payload offset (enc_fragments frags) -> joined used scratch -> used < size ->
  (Z.to_nat (zlen payload - offset) < fuel)%nat ->
  exists scratch', joined size scratch' /\
    records_loop fuel payload (zlen payload) offset used (wanted used) scratch v =
      Ok (hello_result h, handshake_view, InScratch, scratch').
Proof.
  induction frags as [|[minor f] frags IH]; intros fuel offset used scratch before O F Eq Eb L J Hu Hf.
  { exfalso. apply (f_equal zlen) in Eq. rewrite !zlen_app in Eq. change (zlen (concat [].*2)) with 0 in Eq.
    pose proof (zlen_nonneg more). lia. }
  apply Forall_cons in O as [[Om Of] O]. simpl in Om, Of. change (enc_fragments ((minor, f) :: frags)) with (enc_record minor f ++ enc_fragments frags) in L.
  apply located_app in L as [L1 L2]. rewrite fmap_cons, concat_cons in Eq. cbn [snd] in Eq.
  assert (located (hs ++ more) used f) as Ls.
  { rewrite Eq. pose proof (located_self (before ++ f ++ concat frags.*2)) as S. apply located_app in S as [_ S].
    apply located_app in S as [S _]. by rewrite Z.add_0_l, Eb in S. }
  destruct fuel as [|fuel]; [lia|]. cbn [records_loop]. pose proof (proj1 (proj2 L1)) as Hb.
  assert (zlen (enc_record minor f) = 5 + zlen f) as Er
    by (unfold enc_record; rewrite !zlen_app, zlen_be16_bytes; change (zlen [22; 3; minor]) with 3; lia).
  rewrite (proj2 (Z.ltb_lt _ _)) by lia. cbn [negb].
  destruct (turn_joins offset minor f used scratch v L1 Om Of F Ls J Hu) as (s1 & J1 & E1). cbv zeta in E1, J1. rewrite E1. step_ok.
  destruct (Z.eqb_spec (Z.min (used + zlen f) size) size) as [Ee|Hne].
  - rewrite Ee in J1. by exists s1.
  - replace (Z.min (used + zlen f) size) with (used + zlen f) in * by lia.
    apply (IH fuel _ _ _ (before ++ f)); auto; try lia.
    + by rewrite <- app_assoc.
    + rewrite zlen_app. lia.
    + by replace (offset + 5 + zlen f) with (offset + zlen (enc_record minor f)) by lia.
    + pose proof (jo_used _ _ J1). lia.
Qed.

(** ** The first record *)

Lemma first_record minor f rest :
  payload = enc_record minor f ++ rest -> 0 <= minor <= 3 -> 0 < zlen f <= UINT16_MAX -> zlen f < size ->
  located (hs ++ more) 0 f ->
  exists v, tlsclienthelloParseRecord (Some payload) (zlen payload) = Ok (kTlsClientHelloMalformed, v).
Proof.
  intros Ep Hm Hf Hs Ls. pose proof (zlen_nonneg rest). unfold UINT16_MAX in Hf.
  pose proof (located_self payload) as L. rewrite Ep in L at 2. apply located_app in L as [L _].
  assert (zlen payload = 5 + zlen f + zlen rest) as Er
    by (rewrite Ep; unfold enc_record; rewrite !zlen_app, zlen_be16_bytes; change (zlen [22; 3; minor]) with 3; lia).
  destruct (record_header payload minor f (zlen payload)) as (E0 & E1 & E2 & E3 & Lf);
    [done|done|done|unfold UINT16_MAX; lia|lia|].
  unfold tlsclienthelloParseRecord, kTlsRecordHeaderLength, kTlsHandshakeHeaderLength. cbv zeta.
  replace (zlen payload =? 0) with false by lia. rewrite E0. step_ok. cbn [Z.eqb Pos.eqb negb].
  rewrite E1. step_ok. rewrite E2. step_ok. replace (zlen payload <? 5) with false by lia. rewrite E3. step_ok.
  destruct (zlen f <? 4) eqn:E4; bool_facts; [by eauto|]. rewrite wrap32_small by (unfold UINT32_MAX; lia).
  replace (zlen payload <? 5 + zlen f) with false by lia. set (v := set_record _ _ _ _).
  assert (f = take (Z.to_nat (zlen f)) hs) as Ef.
  { destruct Ls as (_ & _ & Es). rewrite slice_app_l in Es by lia. unfold slice in Es. by rewrite drop_0 in Es. }
  assert (located (drop (Z.to_nat 5) payload) 0 f) as Ld by (apply located_drop; [lia|lia|done]).
  assert (exists tail, f = [1] ++ be24_bytes (zlen (enc_hello h)) ++ tail) as [tail Et].
  { rewrite Ef. replace (Z.to_nat (zlen f)) with (4 + Z.to_nat (zlen f - 4))%nat by lia. by eexists. }
  rewrite Et in Ld at 1. apply located_app in Ld as [Lk Ld]. apply located_app in Ld as [Ll _]. change (0 + zlen [1]) with 1 in Ll.
  unfold tlsclienthelloParseHandshakeAt, kTlsHandshakeHeaderLength. cbv zeta. replace (zlen f =? 0) with false by lia.
  assert (zlen (drop (Z.to_nat 5) payload) = zlen f + zlen rest) as Ez by (unfold zlen in *; rewrite length_drop; lia).
  rewrite load8_ok, (located_byte _ _ _ Lk) by lia. step_ok. cbn [Z.eqb Pos.eqb negb]. replace (zlen f <? 4) with false by lia.
  rewrite GET_BE24_ok by (try apply Forall_drop; auto; lia). step_ok. rewrite zlen_enc_handshake in *.
  unfold kGenericSnifferMaxWindowBytes in Hh. pose proof (zlen_nonneg (enc_hello h)).
  rewrite (located_be24 _ _ (zlen (enc_hello h))) by (auto; lia). replace (zlen f <? 4 + zlen (enc_hello h)) with true by lia.
  step_ok. by eauto.
Qed.
End Join.

(** ** Fragmented messages *)

Lemma fragments_u8 frags : Forall u8 (enc_fragments frags) -> Forall u8 (concat frags.*2).
Proof.
  induction frags as [|[m f] frags IH]; intros F; [done|]. rewrite fmap_cons, concat_cons. cbn [snd].
  change (enc_fragments ((m, f) :: frags)) with (enc_record m f ++ enc_fragments frags) in F.
  apply Forall_app in F as [Ff F]. apply Forall_app. split; [|by apply IH]. unfold enc_record in Ff. apply Forall_app in Ff as [_ Ff]. by apply Forall_app in Ff as [_ Ff].
Qed.

(** The bytes the answer refers to. *)
Definition place_bytes (payload scratch : list Z) (place : hello_bytes_t) : list Z :=
  match place with InPayload => payload | InScratch => scratch end.

Lemma fragments_found h frags more rest scratch :
  let payload := enc_fragments frags ++ rest in
  hello_wf h -> zlen (enc_handshake h) <= kGenericSnifferMaxWindowBytes -> Forall fragment_ok frags ->
  concat frags.*2 = enc_handshake h ++ more -> Forall u8 payload -> zlen payload <= UINT32_MAX ->
  zlen scratch = kGenericSnifferMaxWindowBytes -> Forall u8 scratch ->
  exists v place scratch',
    sniffTlsClientHelloRecords payload (zlen payload) scratch = Ok (hello_result h, v, place, scratch') /\
    describes (place_bytes payload scratch' place) h v.
Proof.
  intros payload W Hh O Eq Fp Hn Hs Fs. destruct frags as [|[minor f] frags]; [discriminate Eq|].
  assert (Forall u8 (concat ((minor, f) :: frags).*2)) as Fc by (apply fragments_u8; by apply Forall_app in Fp as [Fp _]).
  rewrite Eq in Fc. apply Forall_app in Fc as [Fh _]. pose proof (size_large h W) as Hsz.
  pose proof O as O'. apply Forall_cons in O' as [[Om Of] _]. cbn [fst snd] in Om, Of.
  assert (payload = enc_record minor f ++ (enc_fragments frags ++ rest)) as Ep by (unfold payload; by rewrite app_assoc).
  rewrite fmap_cons, concat_cons in Eq. cbn [snd] in Eq.
  unfold sniffTlsClientHelloRecords. destruct (Z.lt_ge_cases (zlen f) (zlen (enc_handshake h))) as [Hlt|Hge].
  - destruct (first_record payload Fp h Hh more minor f _ Ep Om Of Hlt) as [v0 ->].
    { rewrite <- Eq. pose proof (located_self (f ++ concat frags.*2)) as S. by apply located_app in S as [S _]. }
    step_ok.
    destruct (loop_joins payload Fp Hn h W Hh more v0 ((minor, f) :: frags) (S (Z.to_nat (zlen payload))) 0 0 scratch [] O Fh)
      as (s' & J & E); auto; try lia.
    + unfold payload. pose proof (located_self (enc_fragments ((minor, f) :: frags) ++ rest)) as S. by apply located_app in S as [S _].
    + split; [lia|done|done|]. apply located_nil. unfold kGenericSnifferMaxWindowBytes in *. lia.
    + change (wanted h 0) with 4 in E. rewrite E. exists (handshake_view h), InScratch, s'. split; [done|].
      destruct J as [_ Hl _ L]. rewrite take_ge in L by (unfold zlen; lia). unfold kGenericSnifferMaxWindowBytes in *.
      apply view_describes; auto; [lia| |rewrite zlen_enc_handshake in *; unfold UINT32_MAX; lia].
      unfold enc_handshake in L. rewrite !located_app in L. apply L.
  - assert (exists m2, f = enc_handshake h ++ m2) as [m2 Ef].
    { exists (drop (length (enc_handshake h)) f). rewrite <- (take_drop (length (enc_handshake h)) f) at 1. f_equal.
      apply (f_equal (take (length (enc_handshake h)))) in Eq. rewrite take_app_length, take_app_le in Eq by (unfold zlen in Hge; lia). done. }
    destruct (record_found h minor m2 (enc_fragments frags ++ rest)) as (v & E & D & _); rewrite <- ?Ef, <- ?Ep; auto; try apply Of.
    rewrite <- Ef, <- Ep in E, D. rewrite E. step_ok. exists v, InPayload, scratch. split; [|done].
    unfold hello_result. by destruct (hello_sni h).
Qed.

(** ** Arbitrary input *)

Lemma handshake_sound whole offset n v r v' :
  let p := drop (Z.to_nat offset) whole in
  Forall u8 whole -> 0 <= offset <= 5 -> offset + n <= zlen whole -> 0 <= n ->
  has_sni v = false -> has_psk v = false -> has_ech v = false ->
  tlsclienthelloParseHandshakeAt p n offset v = Ok (r, v') ->
  r = kTlsClientHelloFound \/ r = kTlsClientHelloNoSni ->
  exists h, hello_wf h /\ located whole (offset + 4) (enc_hello h) /\ r = hello_result h /\ describes whole h v'.
Proof.
  intros p F Ho Hn Hn0 Hs Hk He E Hr. assert (Forall u8 p) as Fp by (by apply Forall_drop).
  assert (zlen p = zlen whole - offset) as Ez by (unfold p, zlen in *; rewrite length_drop; lia).
  unfold tlsclienthelloParseHandshakeAt, kTlsHandshakeHeaderLength in E. cbv zeta in E.
  destruct (n =? 0) eqn:E0; bool_facts; [injection E as <- <-; by destruct Hr|].
  rewrite load8_ok in E by lia. cbn [mbind outcome_bind] in E. destruct (negb _); [injection E as <- <-; by destruct Hr|].
  destruct (n <? 4) eqn:E4; bool_facts; [injection E as <- <-; by destruct Hr|].
  rewrite GET_BE24_ok in E by (auto; lia). cbn [mbind outcome_bind] in E. set (len := be24 p 1) in *.
  assert (0 <= len < 2 ^ 24) as Hl.
  { pose proof (byte_at_u8 p 1 Fp). pose proof (be16_u16 p (1 + 1) Fp). unfold len, be24, u8, u16, UINT8_MAX, UINT16_MAX in *. lia. }
  destruct (n <? 4 + len) eqn:E5; bool_facts; [injection E as <- <-; by destruct Hr|].
  rewrite !wrap32_small in E by (unfold UINT32_MAX; lia). set (v1 := set_handshake _ _ _ _ _ _) in E.
  assert (handshake_body_offset v1 = offset + 4 /\ has_sni v1 = false /\ has_psk v1 = false /\ has_ech v1 = false)
    as (Eb & Hs1 & Hp1 & He1) by (unfold v1; by destruct v). rewrite Eb in E.
  destruct (body_sound (drop (Z.to_nat 4) p) ltac:(by apply Forall_drop) (offset + 4) len v1) as (r2 & v2 & E2 & D);
    [unfold zlen in *; rewrite length_drop; lia|done|]. rewrite E2 in E. injection E as <- <-.
  destruct D as [->|(h & W & L & El & Hm)]; [by destruct Hr|]. exists h. rewrite <- El in E2.
  rewrite body_complete in E2 by (auto; try lia; by apply Forall_drop). injection E2 as <- <-.
  assert (located whole (offset + 4) (enc_hello h)) as Lw.
  { apply located_drop in L; [|lia|lia]. rewrite Z.add_0_r in L. by apply located_drop in L; [|lia|lia]. }
  split; [done|]. split; [done|]. split; [done|]. apply view_describes; auto; try lia. unfold UINT32_MAX. lia.
Qed.

(** The name a description leads to. *)
Lemma described_name whole h v name :
  describes whole h v -> hello_sni h = Some name ->
  located whole (sni_name_offset v) name /\ sni_name_length v = zlen name.
Proof.
  unfold describes, hello_sni. destruct (ch_extensions h) as [l|]; [|done]. cbn [default from_option id].
  intros (_ & _ & _ & S & _) E. unfold default, id in E. rewrite E in S. destruct S as [_ [_ _ _ _ L Eo El _]].
  apply located_app in L as [_ L]. rewrite zlen_be16_bytes in L. by rewrite Eo.
Qed.

Lemma host_small names name : Forall name_wf names -> host_name names = Some name -> zlen name <= UINT16_MAX.
Proof.
  induction 1 as [|n names (_ & _ & Hn) _ IH]; simpl; [done|]. destruct (n.1 =? 0); [by intros [= <-]|exact IH].
Qed.

Lemma sni_small name l : forall found, exts_wf found l -> sni_of l = Some name -> zlen name <= UINT16_MAX.
Proof.
  induction l as [|[names|t data] l IH]; intros found W E; [done| |]; destruct W as [[_ We] W]; cbn [sni_of] in E; [|by eapply IH].
  destruct (host_name names) as [n|] eqn:En; [|by eapply IH]. injection E as ->. by eapply host_small.
Qed.

Lemma hello_sni_small h name : hello_wf h -> hello_sni h = Some name -> zlen name <= UINT16_MAX.
Proof.
  intros W E. pose proof (hw_extensions _ W) as Wx. unfold hello_sni in E. destruct (ch_extensions h) as [l|]; [|done].
  eapply sni_small; [apply Wx|exact E].
Qed.

Section Total.
Context (payload : list Z) (Fp : Forall u8 payload) (Hn : zlen payload <= UINT32_MAX).

(** The state of the record loop. *)
Record collecting (used needed : Z) (scratch : list Z) : Prop := mk_collecting {
  cl_length : zlen scratch = kGenericSnifferMaxWindowBytes;
  cl_bytes : Forall u8 scratch;
  cl_used : 0 <= used < needed;
  cl_needed : needed = 4 \/ 4 <= used /\ needed <= kGenericSnifferMaxWindowBytes
}.

Lemma write_part (scratch : list Z) used bs :
  zlen scratch = kGenericSnifferMaxWindowBytes -> Forall u8 scratch -> Forall u8 bs ->
  0 <= used -> used + zlen bs <= kGenericSnifferMaxWindowBytes ->
  exists s, mem_write scratch used bs = Ok s /\ zlen s = kGenericSnifferMaxWindowBytes /\ Forall u8 s.
Proof.
  intros Hl F Fb Hu Hb. eexists. split; [apply mem_write_ok; lia|]. rewrite zlen_splice_at by lia. split; [done|].
  by apply Forall_splice_at.
Qed.

Lemma grow_total rec_ s1 rl t1 used needed :
  Forall u8 rec_ -> 5 + rl <= zlen rec_ -> 0 <= t1 <= rl -> rl <= UINT16_MAX ->
  zlen s1 = kGenericSnifferMaxWindowBytes -> Forall u8 s1 -> 0 <= used <= needed ->
  needed = 4 \/ 4 <= used /\ needed <= kGenericSnifferMaxWindowBytes ->
  exists r s2, grow_message rec_ s1 rl t1 used needed = Ok (r, s2) /\ zlen s2 = kGenericSnifferMaxWindowBytes /\ Forall u8 s2 /\
    (forall u' n', r = Some (u', n') -> u' = n' /\ 0 <= u' <= kGenericSnifferMaxWindowBytes \/ collecting u' n' s2).
Proof.
  intros Fr Hr Ht Hrl Hl F Hu Hnd. unfold grow_message. unfold kGenericSnifferMaxWindowBytes, UINT16_MAX in *.
  destruct ((used =? 4) && (needed =? 4)) eqn:E; bool_facts.
  - rewrite GET_BE24_ok by (auto; lia). step_ok. subst used needed. set (len := be24 s1 1).
    assert (0 <= len < 2 ^ 24) as Hlen.
    { pose proof (byte_at_u8 s1 1 F). pose proof (be16_u16 s1 (1 + 1) F). unfold len, be24, u8, u16, UINT8_MAX, UINT16_MAX in *. lia. }
    clearbody len. rewrite !wrap32_small by (unfold UINT32_MAX; lia). destruct (4 + len >? 8192) eqn:E8; bool_facts.
    { exists None, s1. by splits. }
    rewrite (wrap32_small (rl - t1)), (wrap32_small (4 + len - 4)) by (unfold UINT32_MAX; lia).
    remember (Z.min (rl - t1) (4 + len - 4)) as rest eqn:Er. rewrite mem_read_ok by lia. step_ok.
    destruct (write_part s1 4 (slice (5 + t1) rest rec_)) as (s2 & -> & ? & ?); auto;
      [by apply Forall_slice|lia|rewrite zlen_slice by lia; unfold kGenericSnifferMaxWindowBytes; lia|]. step_ok.
    rewrite wrap32_small by (unfold UINT32_MAX; lia). eexists _, s2. split; [done|]. split; [done|]. split; [done|].
    intros u' n' [= <- <-]. destruct (Z.eq_dec (4 + rest) (4 + len)); [left; lia|right].
    split; auto; unfold kGenericSnifferMaxWindowBytes; lia.
  - eexists _, s1. split; [done|]. split; [done|]. split; [done|]. intros u' n' [= <- <-].
    destruct (Z.eq_dec used needed) as [->|]; [left; lia|right]. split; auto; unfold kGenericSnifferMaxWindowBytes; lia.
Qed.

(** What a turn leaves behind. *)
Definition turn_ok (next : Z) (t : turn) (scratch : list Z) : Prop :=
  zlen scratch = kGenericSnifferMaxWindowBytes /\ Forall u8 scratch /\
  match t with
  | Return r v InPayload => r <> kTlsClientHelloFound
  | Return r v InScratch => r = kTlsClientHelloFound -> exists h, hello_wf h /\ hello_result h = r /\ describes scratch h v
  | Continue offset used needed => offset = next /\ collecting used needed scratch
  end.

Lemma join_total rec_ rl offset used needed scratch v :
  Forall u8 rec_ -> 5 + rl <= zlen rec_ -> 0 < rl <= UINT16_MAX -> 0 <= offset -> offset + 5 + rl <= UINT32_MAX ->
  collecting used needed scratch ->
  exists t s', join_record rec_ rl offset used needed scratch v = Ok (t, s') /\ turn_ok (offset + 5 + rl) t s'.
Proof.
  intros Fr Hr Hrl Ho Hb [Hl F Hu Hnd]. unfold join_record. cbv zeta.
  assert (needed <= kGenericSnifferMaxWindowBytes) as Hm by (unfold kGenericSnifferMaxWindowBytes in *; lia).
  pose proof Hm as Hm2. unfold kGenericSnifferMaxWindowBytes in Hm2. unfold UINT16_MAX, UINT32_MAX in *.
  rewrite (wrap32_small (needed - used)) by (unfold UINT32_MAX; lia). remember (Z.min rl (needed - used)) as t1 eqn:Et.
  rewrite mem_read_ok by lia. step_ok.
  destruct (write_part scratch used (slice 5 t1 rec_)) as (s1 & -> & Hl1 & F1); auto;
    [by apply Forall_slice|lia|rewrite zlen_slice by lia; lia|]. step_ok.
  rewrite load8_ok by (unfold kGenericSnifferMaxWindowBytes in Hl1; lia). step_ok.
  destruct (negb _). { eexists _, s1. split; [done|]. by split. }
  rewrite (wrap32_small (used + t1)) by (unfold UINT32_MAX; lia).
  destruct (grow_total rec_ s1 rl t1 (used + t1) needed) as (r & s2 & -> & Hl2 & F2 & Hc); auto; try (unfold UINT16_MAX; lia). step_ok.
  destruct r as [[u' n']|]. 2: { eexists _, s2. split; [done|]. by split. }
  specialize (Hc u' n' eq_refl). destruct (Z.eqb_spec u' n') as [Eu|Hne].
  - assert (0 <= u' <= kGenericSnifferMaxWindowBytes) as Hu'.
    { destruct Hc as [[_ ?]|[_ _ ? ?]]; [done|lia]. }
    unfold tlsclienthelloParseHandshake.
    destruct (handshake_total s2 u' 0 tlsclienthelloInitializeView F2 ltac:(lia) eq_refl) as (r & v' & E).
    rewrite E. step_ok. eexists _, s2. split; [done|]. split; [done|]. split; [done|]. intros ->.
    destruct (handshake_sound s2 0 u' tlsclienthelloInitializeView kTlsClientHelloFound v') as (h & W & _ & Er & D);
      auto; try lia. by exists h.
  - destruct Hc as [[? _]|Hc]; [done|]. eexists _, s2. split; [done|]. split; [done|]. split; [done|].
    rewrite (wrap32_small (5 + rl)), wrap32_small by (unfold UINT32_MAX; lia). split; [lia|done].
Qed.

Lemma turn_total offset used needed scratch v :
  0 <= offset < zlen payload -> collecting used needed scratch ->
  exists t s' next, record_turn payload (zlen payload) offset used needed scratch v = Ok (t, s') /\
    turn_ok next t s' /\ offset < next <= zlen payload.
Proof.
  intros Ho C. pose proof C as [Hl F _ _]. pose proof Hn as Hn'. unfold UINT32_MAX in Hn'.
  unfold record_turn, guarded_byte. cbv zeta.
  set (rec_ := drop (Z.to_nat offset) payload). assert (Forall u8 rec_) as Fr by (by apply Forall_drop).
  assert (zlen rec_ = zlen payload - offset) as Er by (unfold rec_, zlen in *; rewrite length_drop; lia).
  assert (forall r, r <> kTlsClientHelloFound -> exists t s' next,
    mret (Return r v InPayload, scratch) = Ok (t, s') /\ turn_ok next t s' /\ offset < next <= zlen payload) as Stop.
  { intros r Hr. eexists _, scratch, (zlen payload). split; [done|]. split; [by split|lia]. }
  rewrite (wrap32_small (zlen payload - offset)) by (unfold UINT32_MAX; lia). rewrite <- Er.
  rewrite (load8_ok rec_ 0) by lia. step_ok.
  assert (forall (b : bool) i (f : Z -> bool), (b = true -> 0 <= i < zlen rec_) ->
    exists x, (if b then y ← load8 rec_ i; mret (f y) else mret false) = Ok x) as G.
  { intros [] i f Hi; [rewrite load8_ok by (by apply Hi)|]; by eexists. }
  match goal with |- exists _ _ _, ?m ≫= _ = _ /\ _ => assert (exists x, m = Ok x) as [other ->] end.
  { destruct (negb _); [by eexists|].
    destruct (G (zlen rec_ >=? 2) 1 (fun b => negb (b =? 3))) as [major ->]; [intros ?; bool_facts; lia|]. step_ok.
    destruct major; [by eexists|]. apply G. intros ?; bool_facts; lia. }
  step_ok. destruct other; [by apply Stop|]. destruct (zlen rec_ <? 5) eqn:E5; bool_facts; [by apply Stop|].
  rewrite GET_BE16_ok by (auto; lia). step_ok. pose proof (be16_u16 rec_ 3 Fr) as Hrl. unfold u16 in Hrl.
  destruct (be16 rec_ 3 =? 0) eqn:E0; bool_facts; [by apply Stop|].
  rewrite (wrap32_small (zlen rec_ - 5)) by (unfold UINT32_MAX; lia).
  destruct (be16 rec_ 3 >? zlen rec_ - 5) eqn:E6; bool_facts; [by apply Stop|].
  destruct (join_total rec_ (be16 rec_ 3) offset used needed scratch v) as (t & s' & E & T); auto; try lia.
  exists t, s', (offset + 5 + be16 rec_ 3). split; [exact E|]. split; [done|lia].
Qed.

Lemma loop_total : forall fuel offset used needed scratch v,
  0 <= offset <= zlen payload -> collecting used needed scratch -> (Z.to_nat (zlen payload - offset) < fuel)%nat ->
  exists r v' place s', records_loop fuel payload (zlen payload) offset used needed scratch v = Ok (r, v', place, s') /\
    turn_ok 0 (Return r v' place) s'.
Proof.
  induction fuel as [|fuel IH]; intros offset used needed scratch v Ho C Hf; [lia|]. cbn [records_loop].
  destruct (offset <? zlen payload) eqn:E; bool_facts; cbn [negb].
  2: { eexists _, _, _, scratch. split; [done|]. destruct C. by split. }
  destruct (turn_total offset used needed scratch v ltac:(lia) C) as (t & s' & next & -> & T & Hx). step_ok.
  destruct t as [r v' place|o u n].
  - eexists _, _, _, s'. split; [done|exact T].
  - destruct T as (_ & _ & -> & C'). apply IH; auto; lia.
Qed.

Lemma record_sound r v :
  tlsclienthelloParseRecord (Some payload) (zlen payload) = Ok (r, v) -> r = kTlsClientHelloFound ->
  exists h, hello_wf h /\ hello_result h = r /\ describes payload h v.
Proof.
  unfold tlsclienthelloParseRecord, kTlsRecordHeaderLength, kTlsHandshakeHeaderLength. cbv zeta. intros E ->.
  destruct (zlen payload =? 0); [done|]. apply bind_Ok in E as (kind & _ & E). destruct (negb _); [done|].
  apply bind_Ok in E as (major & _ & E). apply bind_Ok in E as (minor & _ & E). destruct minor; [done|].
  destruct (zlen payload <? 5) eqn:E5; [done|]. apply bind_Ok in E as (n & Eg & E). destruct (n <? 4) eqn:E4; [done|].
  apply GET_BE16_range in Eg. unfold u16, UINT16_MAX in Eg. rewrite wrap32_small in E by (unfold UINT32_MAX; lia).
  destruct (zlen payload <? 5 + n) eqn:E6; [done|]. bool_facts. apply bind_Ok in E as ([r1 v1] & E1 & E).
  assert (r1 = kTlsClientHelloFound /\ v1 = v) as [-> ->] by (destruct r1; injection E; intros; subst; done).
  destruct (handshake_sound payload 5 n (set_record tlsclienthelloInitializeView (5 + n) n 3) kTlsClientHelloFound v)
    as (h & W & _ & Er & D); auto; try lia. by exists h.
Qed.

Lemma records_total scratch :
  zlen scratch = kGenericSnifferMaxWindowBytes -> Forall u8 scratch ->
  exists r v place s', sniffTlsClientHelloRecords payload (zlen payload) scratch = Ok (r, v, place, s') /\
    (r = kTlsClientHelloFound ->
     exists h, hello_wf h /\ hello_result h = r /\ describes (place_bytes payload s' place) h v).
Proof.
  intros Hl F. unfold sniffTlsClientHelloRecords. destruct (record_total payload Fp) as (r & v & E). rewrite E. step_ok.
  pose proof (record_sound r v E) as Snd. pose proof (zlen_nonneg payload).
  destruct (decide (r = kTlsClientHelloMalformed)) as [->|Hr].
  - destruct (loop_total (S (Z.to_nat (zlen payload))) 0 0 4 scratch v) as (r' & v' & place & s' & -> & (_ & _ & T)); [lia| |lia|].
    { split; auto; lia. }
    eexists _, _, _, _. split; [done|]. intros ->. destruct place; [done|by apply T].
  - exists r, v, InPayload, scratch. split; [by destruct r|exact Snd].
Qed.
End Total.

(** ** Properties *)

(** What the name sniffer answers for a description. *)
Lemma answer_of h v bytes name :
  hello_wf h -> describes bytes h v -> hello_sni h = Some name ->
  genericsnifferStripHostPortAndDot (Some (drop (Z.to_nat (sni_name_offset v)) bytes)) (sni_name_length v) =
    Ok (zlen (strip_host name)) /\ located bytes (sni_name_offset v) (strip_host name).
Proof.
  intros W D Es. destruct (described_name bytes h v name D Es) as [L El]. pose proof (hello_sni_small h name W Es) as Hs.
  pose proof (zlen_nonneg name). destruct L as (Ho & Hb & En). rewrite El. unfold UINT16_MAX in Hs. split.
  - rewrite strip_exact by (unfold INT_MAX; try lia; unfold zlen in *; rewrite length_drop; lia).
    assert (slice 0 (zlen name) (drop (Z.to_nat (sni_name_offset v)) bytes) = name) as ->; [|done].
    unfold slice in *. by rewrite drop_0.
  - assert (located bytes (sni_name_offset v) name) as L by done. destruct (strip_host_prefix name) as [tail Et].
    rewrite Et in L. by apply located_app in L as [L _].
Qed.

(** C25. However a ClientHello of at most 8192 bytes is cut into non-empty TLS
    records, and whatever follows it, the sniffer recognises it, and finds the
    host it asks for: the answer is the name of the message without port and
    trailing dots, in the payload or in the scratch buffer. *)
Theorem fragmented_hello_found h frags more rest scratch name :
  let payload := enc_fragments frags ++ rest in
  hello_wf h -> zlen (enc_handshake h) <= kGenericSnifferMaxWindowBytes -> Forall fragment_ok frags ->
  concat frags.*2 = enc_handshake h ++ more -> Forall u8 payload -> zlen payload <= UINT32_MAX ->
  zlen scratch = kGenericSnifferMaxWindowBytes -> Forall u8 scratch ->
  hello_sni h = Some name -> strip_host name <> [] ->
  exists place off scratch',
    genericsnifferSniffTlsClientHelloSni payload (zlen payload) scratch =
      Ok (kGenericSnifferFound, Some (place, off, zlen (strip_host name)), scratch') /\
    located (place_bytes payload scratch' place) off (strip_host name).
Proof.
  intros payload W Hh O Eq Fp Hn Hs Fs En Hne.
  destruct (fragments_found h frags more rest scratch W Hh O Eq Fp Hn Hs Fs) as (v & place & s' & E & D).
  destruct (answer_of h v _ name W D En) as [Ea L]. exists place, (sni_name_offset v), s'. split; [|done].
  unfold genericsnifferSniffTlsClientHelloSni. fold payload in E, Ea. rewrite E. step_ok. unfold hello_result. rewrite En.
  fold (place_bytes payload s' place). rewrite Ea. step_ok.
  assert ((zlen (strip_host name) =? 0) = false) as ->; [|done].
  destruct (strip_host name); [done|]. rewrite zlen_cons. pose proof (zlen_nonneg l). lia.
Qed.


(** ** A concrete message *)

(** The message of [demo_hello] in three records, the first of them too short to
    hold its length. *)
Definition demo_frags : list (Z * list Z) :=
  [(1, take 2 (enc_handshake demo_hello)); (3, take 20 (drop 2 (enc_handshake demo_hello)));
   (3, drop 22 (enc_handshake demo_hello))].

Definition demo_scratch : list Z := replicate (Z.to_nat kGenericSnifferMaxWindowBytes) 0.

Lemma demo_scratch_u8 : Forall u8 demo_scratch.
Proof. apply Forall_replicate. unfold u8, UINT8_MAX. lia. Qed.

Lemma fragmented_hello_found_witness :
  let payload := enc_fragments demo_frags ++ [23; 3; 3] in
  exists place off scratch',
    genericsnifferSniffTlsClientHelloSni payload (zlen payload) demo_scratch =
      Ok (kGenericSnifferFound, Some (place, off, 4), scratch') /\
    located (place_bytes payload scratch' place) off [97; 46; 105; 111].
Proof.
  apply (fragmented_hello_found demo_hello demo_frags [] [23; 3; 3] demo_scratch [97; 46; 105; 111]).
  - exact demo_hello_wf.
  - vm_compute. congruence.
  - repeat (apply Forall_cons; split; [split; vm_compute; split; congruence|]). by apply Forall_nil.
  - reflexivity.
  - apply bytes_ok_u8. reflexivity.
  - vm_compute. congruence.
  - unfold demo_scratch. by rewrite zlen_replicate.
  - exact demo_scratch_u8.
  - reflexivity.
  - discriminate.
Defined.

