(* ===== verification/Base64.v ===== *)
(** * Base64 ([ww/utils/base64.c])

    The standard alphabet with padding, the canonical decoder the key parsers
    use, and the alphabet of URLs without padding.

    Characters are their codes as [unsigned char].  Output goes to a buffer of
    the caller, the list [out]; writing outside it faults. *)

From Stdlib Require Import ZArith Lia.
From stdpp Require Import base numbers option list.
From S2P Require Import Prelude Endian.
Open Scope Z_scope.
Open Scope word_scope.

Definition base64en : list Z :=
  [65; 66; 67; 68; 69; 70; 71; 72; 73; 74; 75; 76; 77; 78; 79; 80;
   81; 82; 83; 84; 85; 86; 87; 88; 89; 90; 97; 98; 99; 100; 101; 102;
   103; 104; 105; 106; 107; 108; 109; 110; 111; 112; 113; 114; 115; 116; 117; 118;
   119; 120; 121; 122; 48; 49; 50; 51; 52; 53; 54; 55; 56; 57; 43; 47].

Definition BASE64_PAD : Z := 61.
Definition BASE64DE_FIRST : Z := 43.
Definition BASE64DE_LAST : Z := 122.

Definition base64de : list Z :=
  [62; (-1); (-1); (-1); 63; 52; 53; 54; 55; 56; 57; 58; 59; 60; 61; (-1);
   (-1); (-1); (-1); (-1); (-1); (-1); 0; 1; 2; 3; 4; 5; 6; 7; 8; 9;
   10; 11; 12; 13; 14; 15; 16; 17; 18; 19; 20; 21; 22; 23; 24; 25;
   (-1); (-1); (-1); (-1); (-1); (-1); 26; 27; 28; 29; 30; 31; 32; 33; 34; 35;
   36; 37; 38; 39; 40; 41; 42; 43; 44; 45; 46; 47; 48; 49; 50; 51].

Definition BASE64_ENCODE_OUT_SIZE (s : Z) : Z := (s + 2) / 3 * 4.
Definition BASE64_DECODE_OUT_SIZE (s : Z) : Z := s / 4 * 3.

(** [out[j] = c] *)
Definition put (out : list Z) (j c : Z) : outcome (list Z) := mem_write out j [c].

(** ** Encoding *)

Fixpoint encode_loop (fuel : nat) (in_ : list Z) (inlen : Z) (out : list Z) (i j : Z) : outcome (list Z * Z) :=
  match fuel with
  | O => Fail NotModelled
  | S fuel' =>
      if negb (i <? inlen) then mret (out, j)
      else
        let s := i mod 3 in
        b ← load8 in_ i;
        if s =? 0 then
          c ← arr_get base64en (Z.land (Z.shiftr b 2) 0x3F);
          out ← put out j c;
          encode_loop fuel' in_ inlen out (i + 1) (j +32 1)
        else
          a ← load8 in_ (i - 1);
          if s =? 1 then
            c ← arr_get base64en (Z.shiftl (Z.land a 0x3) 4 + Z.land (Z.shiftr b 4) 0xF);
            out ← put out j c;
            encode_loop fuel' in_ inlen out (i + 1) (j +32 1)
          else
            c ← arr_get base64en (Z.shiftl (Z.land a 0xF) 2 + Z.land (Z.shiftr b 6) 0x3);
            out ← put out j c;
            d ← arr_get base64en (Z.land b 0x3F);
            out ← put out (j +32 1) d;
            encode_loop fuel' in_ inlen out (i + 1) (j +32 1 +32 1)
  end.

Definition wwBase64Encode (in_ : list Z) (inlen : Z) (out : list Z) : outcome (Z * list Z) :=
  if inlen =? 0 then mret (0, out)
  else
    '(out, j) ← encode_loop (S (Z.to_nat inlen)) in_ inlen out 0 0;
    let i := inlen - 1 in
    b ← load8 in_ i;
    if i mod 3 =? 0 then
      c ← arr_get base64en (Z.shiftl (Z.land b 0x3) 4);
      out ← put out j c;
      out ← put out (j +32 1) BASE64_PAD;
      out ← put out (j +32 1 +32 1) BASE64_PAD;
      mret (to_int (j +32 1 +32 1 +32 1), out)
    else if i mod 3 =? 1 then
      c ← arr_get base64en (Z.shiftl (Z.land b 0xF) 2);
      out ← put out j c;
      out ← put out (j +32 1) BASE64_PAD;
      mret (to_int (j +32 1 +32 1), out)
    else mret (to_int j, out).

(** ** Decoding *)

(** [None] where the code returns -1. *)
Definition char_value (ch : Z) : outcome (option Z) :=
  if (ch <? BASE64DE_FIRST) || (ch >? BASE64DE_LAST) then mret None
  else
    c ← arr_get base64de (ch - BASE64DE_FIRST);
    mret (if c =? -1 then None else Some c).

Definition first_byte (c0 c1 : Z) : Z := wrap8 (Z.lor (Z.shiftl c0 2) (Z.land (Z.shiftr c1 4) 0x3)).
Definition second_byte (c1 c2 : Z) : Z := wrap8 (Z.lor (Z.shiftl (Z.land c1 0xF) 4) (Z.land (Z.shiftr c2 2) 0xF)).
Definition third_byte (c2 c3 : Z) : Z := wrap8 (Z.lor (Z.shiftl (Z.land c2 0x3) 6) c3).

(** The result is the returned [int] and the buffer. *)
Fixpoint decode_loop (fuel : nat) (in_ : list Z) (inlen : Z) (out : list Z) (i j : Z) : outcome (Z * list Z) :=
  match fuel with
  | O => Fail NotModelled
  | S fuel' =>
      if negb (i <? inlen) then mret (to_int j, out)
      else
        ch0 ← load8 in_ i; ch1 ← load8 in_ (i + 1); ch2 ← load8 in_ (i + 2); ch3 ← load8 in_ (i + 3);
        v0 ← char_value ch0;
        match v0 with
        | None => mret (-1, out)
        | Some c0 =>
            v1 ← char_value ch1;
            match v1 with
            | None => mret (-1, out)
            | Some c1 =>
                if ch2 =? BASE64_PAD then
                  if negb (ch3 =? BASE64_PAD) || negb (i +32 4 =? inlen) then mret (-1, out)
                  else out ← put out j (first_byte c0 c1); mret (to_int (j +32 1), out)
                else
                  v2 ← char_value ch2;
                  match v2 with
                  | None => mret (-1, out)
                  | Some c2 =>
                      if ch3 =? BASE64_PAD then
                        if negb (i +32 4 =? inlen) then mret (-1, out)
                        else
                          out ← put out j (first_byte c0 c1);
                          out ← put out (j +32 1) (second_byte c1 c2);
                          mret (to_int (j +32 1 +32 1), out)
                      else
                        v3 ← char_value ch3;
                        match v3 with
                        | None => mret (-1, out)
                        | Some c3 =>
                            out ← put out j (first_byte c0 c1);
                            out ← put out (j +32 1) (second_byte c1 c2);
                            out ← put out (j +32 1 +32 1) (third_byte c2 c3);
                            decode_loop fuel' in_ inlen out (i +32 4) (j +32 1 +32 1 +32 1)
                        end
                  end
            end
        end
  end.

Definition wwBase64Decode (in_ : list Z) (inlen : Z) (out : list Z) : outcome (Z * list Z) :=
  if negb (inlen mod 4 =? 0) then mret (-1, out)
  else decode_loop (S (Z.to_nat inlen)) in_ inlen out 0 0.

(** NULL is [None]. *)
Definition wwBase64DecodeCanonical (in_ : option (list Z)) (inlen : Z) (out : option (list Z)) (out_capacity : Z)
  : outcome (Z * list Z) :=
  _ ← assert_ (bool_decide (is_Some in_) || (inlen =? 0));
  _ ← assert_ (bool_decide (is_Some out) || (out_capacity =? 0));
  let text := default [] in_ in
  let buffer := default [] out in
  if negb (inlen mod 4 =? 0) then mret (-1, buffer)
  else
    let decoded_size := BASE64_DECODE_OUT_SIZE inlen in
    '(bad, decoded_size) ←
      (if inlen =? 0 then mret (false, decoded_size)
       else
         final ← load8 text (inlen - 1);
         if negb (final =? BASE64_PAD) then mret (false, decoded_size)
         else
           before ← load8 text (inlen - 2);
           let two_pads := before =? BASE64_PAD in
           let decoded_size := decoded_size -64 (if two_pads then 2 else 1) in
           last ← load8 text (inlen - (if two_pads then 3 else 2));
           if (last <? BASE64DE_FIRST) || (last >? BASE64DE_LAST) then mret (true, decoded_size)
           else
             value ← arr_get base64de (last - BASE64DE_FIRST);
             mret ((value <? 0) || negb (Z.land value (if two_pads then 15 else 3) =? 0), decoded_size));
    if (bad : bool) then mret (-1, buffer)
    else if (decoded_size >? out_capacity) || (decoded_size >? INT_MAX) then mret (-1, buffer)
    else wwBase64Decode text inlen buffer.

(** ** The URL alphabet *)

Definition url_table : list Z :=
  [65; 66; 67; 68; 69; 70; 71; 72; 73; 74; 75; 76; 77; 78; 79; 80;
   81; 82; 83; 84; 85; 86; 87; 88; 89; 90; 97; 98; 99; 100; 101; 102;
   103; 104; 105; 106; 107; 108; 109; 110; 111; 112; 113; 114; 115; 116; 117; 118;
   119; 120; 121; 122; 48; 49; 50; 51; 52; 53; 54; 55; 56; 57; 45; 95].


(** [None] where the code returns false; the caller's pointer is not NULL. *)
Definition wwBase64UrlEncodedSizeNoPadding (input_len : Z) : option Z :=
  let full_groups := input_len / 3 in
  let rem := input_len mod 3 in
  let rem_bytes := if rem =? 0 then 0 else if rem =? 1 then 2 else 3 in
  if full_groups >? (SIZE_MAX -64 rem_bytes) / 4 then None
  else Some (full_groups *64 4 +64 rem_bytes).

Fixpoint put_all (out : list Z) (j : Z) (codes : list Z) : outcome (list Z) :=
  match codes with
  | [] => mret out
  | c :: codes => out ← put out j c; put_all out (j + 1) codes
  end.

(** [table[(v >> shift) & 0x3F]] for each shift. *)
Fixpoint url_codes (v : Z) (shifts : list Z) : outcome (list Z) :=
  match shifts with
  | [] => mret []
  | s :: shifts =>
      c ← arr_get url_table (Z.land (Z.shiftr v s) 0x3F);
      l ← url_codes v shifts;
      mret (c :: l)
  end.

Fixpoint url_encode_loop (fuel : nat) (input : list Z) (input_len : Z) (output : list Z) (i out_pos : Z)
  : outcome (list Z * Z * Z) :=
  match fuel with
  | O => Fail NotModelled
  | S fuel' =>
      if negb (i +64 3 <=? input_len) then mret (output, i, out_pos)
      else
        a ← load8 input i; b ← load8 input (i + 1); c ← load8 input (i + 2);
        let v := Z.lor (Z.lor (Z.shiftl a 16) (Z.shiftl b 8)) c in
        codes ← url_codes v [18; 12; 6; 0];
        output ← put_all output out_pos codes;
        url_encode_loop fuel' input input_len output (i + 3) (out_pos + 4)
  end.

(** The result is the returned flag, the value stored in [*output_len] and the
    buffer. *)
Definition wwBase64UrlEncodeNoPadding (input : option (list Z)) (input_len : Z) (output : option (list Z))
    (output_capacity : Z) : outcome (bool * Z * list Z) :=
  let buffer := default [] output in
  if ((input_len >? 0) && bool_decide (input = None)) || bool_decide (output = None) then mret (false, 0, buffer)
  else
    match wwBase64UrlEncodedSizeNoPadding input_len with
    | None => mret (false, 0, buffer)
    | Some req_len =>
        if output_capacity <? req_len then mret (false, 0, buffer)
        else
          let text := default [] input in
          '(buffer, i, out_pos) ← url_encode_loop (S (Z.to_nat input_len)) text input_len buffer 0 0;
          let rem := input_len - i in
          buffer ← (if rem =? 1 then
                      a ← load8 text i;
                      codes ← url_codes (Z.shiftl a 16) [18; 12];
                      put_all buffer out_pos codes
                    else if rem =? 2 then
                      a ← load8 text i; b ← load8 text (i + 1);
                      codes ← url_codes (Z.lor (Z.shiftl a 16) (Z.shiftl b 8)) [18; 12; 6];
                      put_all buffer out_pos codes
                    else mret buffer);
          buffer ← (if output_capacity >? req_len then put buffer req_len 0 else mret buffer);
          mret (true, req_len, buffer)
    end.

Definition base64UrlCharValue (c : Z) : Z :=
  if (65 <=? c) && (c <=? 90) then c - 65
  else if (97 <=? c) && (c <=? 122) then 26 + (c - 97)
  else if (48 <=? c) && (c <=? 57) then 52 + (c - 48)
  else if c =? 45 then 62
  else if c =? 95 then 63
  else -1.

(** [while (pad_count < input_len && input[input_len - 1 - pad_count] == '=')] *)
Fixpoint pad_loop (fuel : nat) (input : list Z) (input_len pad_count : Z) : outcome Z :=
  match fuel with
  | O => Fail NotModelled
  | S fuel' =>
      if negb (pad_count <? input_len) then mret pad_count
      else
        c ← load8 input (input_len - 1 - pad_count);
        if c =? BASE64_PAD then pad_loop fuel' input input_len (pad_count + 1) else mret pad_count
  end.

(** Whether a pad is inside the text. *)
Fixpoint inner_pad_loop (fuel : nat) (input : list Z) (effective_len i : Z) : outcome bool :=
  match fuel with
  | O => Fail NotModelled
  | S fuel' =>
      if negb (i <? effective_len) then mret false
      else c ← load8 input i; if c =? BASE64_PAD then mret true else inner_pad_loop fuel' input effective_len (i + 1)
  end.

Definition url_value (input : list Z) (i : Z) : outcome Z := c ← load8 input i; mret (base64UrlCharValue c).

Definition url_byte0 (c0 c1 : Z) : Z := wrap8 (Z.lor (Z.shiftl c0 2) (Z.shiftr c1 4)).
Definition url_byte1 (c1 c2 : Z) : Z := wrap8 (Z.lor (Z.shiftl (Z.land c1 0xF) 4) (Z.shiftr c2 2)).
Definition url_byte2 (c2 c3 : Z) : Z := wrap8 (Z.lor (Z.shiftl (Z.land c2 0x3) 6) c3).

(** [for (b = 0; b < full_blocks; ++b)]: false where the code returns false. *)
Fixpoint url_decode_loop (blocks : nat) (input output : list Z) (in_idx out_idx : Z) : outcome (bool * list Z) :=
  match blocks with
  | O => mret (true, output)
  | S blocks =>
      c0 ← url_value input in_idx; c1 ← url_value input (in_idx + 1);
      c2 ← url_value input (in_idx + 2); c3 ← url_value input (in_idx + 3);
      if (c0 <? 0) || (c1 <? 0) || (c2 <? 0) || (c3 <? 0) then mret (false, output)
      else
        output ← put_all output out_idx [url_byte0 c0 c1; url_byte1 c1 c2; url_byte2 c2 c3];
        url_decode_loop blocks input output (in_idx + 4) (out_idx + 3)
  end.

Definition wwBase64UrlDecode (input : option (list Z)) (input_len : Z) (output : option (list Z)) (output_capacity : Z)
  : outcome (bool * Z * list Z) :=
  let buffer := default [] output in
  let refuse := mret (false, 0, buffer) in
  if ((input_len >? 0) && bool_decide (input = None)) || bool_decide (output = None) then refuse
  else if input_len =? 0 then mret (true, 0, buffer)
  else
    let text := default [] input in
    pad_count ← pad_loop (S (Z.to_nat input_len)) text input_len 0;
    if pad_count >? 2 then refuse
    else
      let effective_len := input_len - pad_count in
      inner ← inner_pad_loop (S (Z.to_nat effective_len)) text effective_len 0;
      if (inner : bool) then refuse
      else if (pad_count >? 0) &&
              (negb ((effective_len + pad_count) mod 4 =? 0) ||
               ((pad_count =? 1) && negb (effective_len mod 4 =? 3)) ||
               ((pad_count =? 2) && negb (effective_len mod 4 =? 2))) then refuse
      else
        let rem := effective_len mod 4 in
        if rem =? 1 then refuse
        else
          let full_blocks := effective_len / 4 in
          let decoded_len := full_blocks * 3 + (if rem =? 2 then 1 else if rem =? 3 then 2 else 0) in
          if output_capacity <? decoded_len then refuse
          else
            '(ok, buffer) ← url_decode_loop (Z.to_nat full_blocks) text buffer 0 0;
            if negb ok then mret (false, 0, buffer)
            else
              let in_idx := full_blocks * 4 in
              let out_idx := full_blocks * 3 in
              if rem =? 2 then
                c0 ← url_value text in_idx; c1 ← url_value text (in_idx + 1);
                if (c0 <? 0) || (c1 <? 0) then mret (false, 0, buffer)
                else buffer ← put_all buffer out_idx [url_byte0 c0 c1]; mret (true, decoded_len, buffer)
              else if rem =? 3 then
                c0 ← url_value text in_idx; c1 ← url_value text (in_idx + 1); c2 ← url_value text (in_idx + 2);
                if (c0 <? 0) || (c1 <? 0) || (c2 <? 0) then mret (false, 0, buffer)
                else buffer ← put_all buffer out_idx [url_byte0 c0 c1; url_byte1 c1 c2]; mret (true, decoded_len, buffer)
              else mret (true, decoded_len, buffer).
