(* ===== verification/Base64Proofs.v ===== *)
(** * Base64 round trips

    [b64] is the Base64 text of bytes, three at a time.  The encoder writes it,
    and the canonical decoder accepts exactly the texts it produces. *)

From Stdlib Require Import ZArith Lia.
From stdpp Require Import base numbers option list.
From S2P Require Import Prelude Endian Base64.
Open Scope Z_scope.
Open Scope word_scope.

(** ** The text *)

Definition en (v : Z) : Z := byte_at base64en v.

Fixpoint b64 (l : list Z) : list Z :=
  match l with
  | a :: b :: c :: l =>
      [en (a / 4); en (a mod 4 * 16 + b / 16); en (b mod 16 * 4 + c / 64); en (c mod 64)] ++ b64 l
  | [a; b] => [en (a / 4); en (a mod 4 * 16 + b / 16); en (b mod 16 * 4); BASE64_PAD]
  | [a] => [en (a / 4); en (a mod 4 * 16); BASE64_PAD; BASE64_PAD]
  | [] => []
  end.

(** What the loop of the encoder writes, and what follows it. *)
Fixpoint loop_codes (l : list Z) : list Z :=
  match l with
  | a :: b :: c :: l =>
      [en (a / 4); en (a mod 4 * 16 + b / 16); en (b mod 16 * 4 + c / 64); en (c mod 64)] ++ loop_codes l
  | [a; b] => [en (a / 4); en (a mod 4 * 16 + b / 16)]
  | [a] => [en (a / 4)]
  | [] => []
  end.

Fixpoint tail_codes (l : list Z) : list Z :=
  match l with
  | _ :: _ :: _ :: l => tail_codes l
  | [a; b] => [en (b mod 16 * 4); BASE64_PAD]
  | [a] => [en (a mod 4 * 16); BASE64_PAD; BASE64_PAD]
  | [] => []
  end.

(** Induction in steps of three. *)
Lemma triple_ind (P : list Z -> Prop) :
  P [] -> (forall a, P [a]) -> (forall a b, P [a; b]) -> (forall a b c l, P l -> P (a :: b :: c :: l)) -> forall l, P l.
Proof.
  intros H0 H1 H2 H3. fix IH 1. intros [|a [|b [|c l]]]; [exact H0|apply H1|apply H2|apply H3, IH].
Qed.

Lemma b64_split l : b64 l = loop_codes l ++ tail_codes l.
Proof. induction l as [|a|a b|a b c l IH] using triple_ind; [done..|]. simpl. by rewrite IH. Qed.

(** ** Arithmetic of the bit fields *)

Lemma land_mask x k : 0 <= k -> Z.land x (Z.ones k) = x mod 2 ^ k.
Proof. intros. by apply Z.land_ones. Qed.

Ltac fields :=
  repeat first
    [ rewrite (land_mask _ 6) by lia | rewrite (land_mask _ 4) by lia | rewrite (land_mask _ 2) by lia
    | rewrite Z.shiftl_mul_pow2 by lia | rewrite Z.shiftr_div_pow2 by lia ].

Lemma sextet_facts a b c : u8 a -> u8 b -> u8 c ->
  Z.land (Z.shiftr a 2) 0x3F = a / 4 /\
  Z.shiftl (Z.land a 0x3) 4 + Z.land (Z.shiftr b 4) 0xF = a mod 4 * 16 + b / 16 /\
  Z.shiftl (Z.land b 0xF) 2 + Z.land (Z.shiftr c 6) 0x3 = b mod 16 * 4 + c / 64 /\
  Z.land c 0x3F = c mod 64 /\
  Z.shiftl (Z.land a 0x3) 4 = a mod 4 * 16 /\ Z.shiftl (Z.land b 0xF) 2 = b mod 16 * 4.
Proof.
  unfold u8, UINT8_MAX. intros Ha Hb Hc. change 0x3F with (Z.ones 6). change 0x3 with (Z.ones 2). change 0xF with (Z.ones 4).
  fields. change (2 ^ 2) with 4. change (2 ^ 4) with 16. change (2 ^ 6) with 64. splits; try done; Z.div_mod_to_equations; lia.
Qed.

Lemma byte_facts c0 c1 c2 c3 : 0 <= c0 < 64 -> 0 <= c1 < 64 -> 0 <= c2 < 64 -> 0 <= c3 < 64 ->
  first_byte c0 c1 = c0 * 4 + c1 / 16 /\ second_byte c1 c2 = c1 mod 16 * 16 + c2 / 4 /\
  third_byte c2 c3 = c2 mod 4 * 64 + c3.
Proof.
  intros H0 H1 H2 H3. unfold first_byte, second_byte, third_byte.
  change 0x3 with (Z.ones 2). change 0xF with (Z.ones 4). fields. change (2 ^ 2) with 4. change (2 ^ 4) with 16. change (2 ^ 6) with 64.
  assert (0 <= c1 / 16 < 4 /\ 0 <= c2 / 4 < 16 /\ 0 <= c1 mod 16 < 16 /\ 0 <= c2 mod 4 < 4) as (? & ? & ? & ?)
    by (splits; Z.div_mod_to_equations; lia).
  rewrite (Z.mod_small (c1 / 16)), (Z.mod_small (c2 / 4)) by lia.
  rewrite (lor_add (c0 * 4) _ 2), (lor_add (c1 mod 16 * 16) _ 4), (lor_add (c2 mod 4 * 64) _ 6)
    by (first [done | lia | by apply Z.mod_mul]).
  rewrite !wrap8_small by (unfold UINT8_MAX; lia). done.
Qed.

(** ** The encoder *)

Lemma put_exact pre x rest c : put (pre ++ x :: rest) (zlen pre) c = Ok (pre ++ c :: rest).
Proof.
  unfold put. pose proof (zlen_nonneg pre). pose proof (zlen_nonneg rest).
  rewrite mem_write_ok by (rewrite ?zlen_app, ?zlen_cons, ?zlen_nil; lia). unfold splice_at, zlen. f_equal.
  rewrite Nat2Z.id, take_app_length. f_equal. change (length [c]) with 1%nat.
  replace (Z.to_nat (Z.of_nat (length pre) + Z.of_nat 1)) with (length pre + 1)%nat by lia.
  by rewrite drop_app_add'.
Qed.

Lemma en_get v : 0 <= v < 64 -> arr_get base64en v = Ok (en v).
Proof.
  intros Hv. unfold arr_get, en, byte_at. replace (0 <=? v) with true by lia.
  destruct (lookup_lt_is_Some_2 base64en (Z.to_nat v)) as [x Hx]; [change (length base64en) with 64%nat; lia|].
  rewrite Hx. f_equal. symmetry. by apply nth_lookup_Some with (d := 0) in Hx.
Qed.

Lemma put_second pre c x rest d : put (pre ++ c :: x :: rest) (zlen pre + 1) d = Ok (pre ++ c :: d :: rest).
Proof. pose proof (put_exact (pre ++ [c]) x rest d) as E. rewrite zlen_app, <- !app_assoc in E. exact E. Qed.

Lemma put_third pre b c x rest d : put (pre ++ b :: c :: x :: rest) (zlen pre + 2) d = Ok (pre ++ b :: c :: d :: rest).
Proof. pose proof (put_exact (pre ++ [b; c]) x rest d) as E. rewrite zlen_app, <- !app_assoc in E. exact E. Qed.

Lemma load_first (pre : list Z) x l : load8 (pre ++ x :: l) (zlen pre) = Ok x.
Proof.
  unfold load8, zlen. rewrite (proj2 (Z.leb_le _ _)) by lia. by rewrite Nat2Z.id, list_lookup_middle.
Qed.

Lemma load_second (pre : list Z) a x l : load8 (pre ++ a :: x :: l) (zlen pre + 1) = Ok x.
Proof. pose proof (load_first (pre ++ [a]) x l) as E. by rewrite zlen_app, <- !app_assoc in E. Qed.

Lemma load_third (pre : list Z) a b x l : load8 (pre ++ a :: b :: x :: l) (zlen pre + 2) = Ok x.
Proof. pose proof (load_first (pre ++ [a; b]) x l) as E. by rewrite zlen_app, <- !app_assoc in E. Qed.

Lemma load_fourth (pre : list Z) a b c x l : load8 (pre ++ a :: b :: c :: x :: l) (zlen pre + 3) = Ok x.
Proof. pose proof (load_first (pre ++ [a; b; c]) x l) as E. by rewrite zlen_app, <- !app_assoc in E. Qed.

Section Steps.
Context (pre : list Z) (Hpre : zlen pre mod 3 = 0) (fuel : nat) (n : Z) (out : list Z) (j : Z).

Lemma encode_first a l : u8 a -> zlen pre < n ->
  encode_loop (S fuel) (pre ++ a :: l) n out (zlen pre) j =
    (out ← put out j (en (a / 4)); encode_loop fuel (pre ++ a :: l) n out (zlen pre + 1) (j +32 1)).
Proof.
  intros Ha Hn. destruct (sextet_facts a a a Ha Ha Ha) as (Ea & _). cbn [encode_loop].
  replace (zlen pre <? n) with true by lia. cbn [negb]. rewrite load_first. step_ok. rewrite Hpre. cbn [Z.eqb].
  rewrite Ea, en_get by (unfold u8, UINT8_MAX in Ha; Z.div_mod_to_equations; lia). done.
Qed.

Lemma encode_second a b l : u8 a -> u8 b -> zlen pre + 1 < n ->
  encode_loop (S fuel) (pre ++ a :: b :: l) n out (zlen pre + 1) j =
    (out ← put out j (en (a mod 4 * 16 + b / 16)); encode_loop fuel (pre ++ a :: b :: l) n out (zlen pre + 2) (j +32 1)).
Proof.
  intros Ha Hb Hn. destruct (sextet_facts a b b Ha Hb Hb) as (_ & Eb & _). cbn [encode_loop].
  replace (zlen pre + 1 <? n) with true by lia. cbn [negb]. rewrite load_second. step_ok.
  replace ((zlen pre + 1) mod 3) with 1 by (Z.div_mod_to_equations; lia). cbn [Z.eqb Pos.eqb].
  replace (zlen pre + 1 - 1) with (zlen pre) by lia. rewrite load_first. step_ok.
  rewrite Eb, en_get by (unfold u8, UINT8_MAX in *; Z.div_mod_to_equations; lia). step_ok.
  by replace (zlen pre + 1 + 1) with (zlen pre + 2) by lia.
Qed.

Lemma encode_third a b c l : u8 b -> u8 c -> zlen pre + 2 < n ->
  encode_loop (S fuel) (pre ++ a :: b :: c :: l) n out (zlen pre + 2) j =
    (out ← put out j (en (b mod 16 * 4 + c / 64)); out ← put out (j +32 1) (en (c mod 64));
     encode_loop fuel (pre ++ a :: b :: c :: l) n out (zlen pre + 3) (j +32 1 +32 1)).
Proof.
  intros Hb Hc Hn. destruct (sextet_facts b b c Hb Hb Hc) as (_ & _ & Ec & Ed & _). cbn [encode_loop].
  replace (zlen pre + 2 <? n) with true by lia. cbn [negb]. rewrite load_third. step_ok.
  replace ((zlen pre + 2) mod 3) with 2 by (Z.div_mod_to_equations; lia). cbn [Z.eqb Pos.eqb].
  replace (zlen pre + 2 - 1) with (zlen pre + 1) by lia. rewrite load_second. step_ok.
  rewrite Ec, en_get by (unfold u8, UINT8_MAX in *; Z.div_mod_to_equations; lia). step_ok.
  rewrite Ed, en_get by (unfold u8, UINT8_MAX in *; Z.div_mod_to_equations; lia). step_ok.
  by replace (zlen pre + 2 + 1) with (zlen pre + 3) by lia.
Qed.
End Steps.

Lemma encode_end fuel in_ n out i j : n <= i -> encode_loop (S fuel) in_ n out i j = Ok (out, j).
Proof. intros. cbn [encode_loop]. by replace (i <? n) with false by lia. Qed.

Lemma encode_group pre a b c l fuel n sofar r1 r2 r3 r4 rest :
  u8 a -> u8 b -> u8 c -> zlen pre mod 3 = 0 -> zlen pre + 3 <= n -> zlen sofar + 4 <= INT_MAX ->
  encode_loop (S (S (S fuel))) (pre ++ a :: b :: c :: l) n (sofar ++ r1 :: r2 :: r3 :: r4 :: rest) (zlen pre) (zlen sofar) =
    encode_loop fuel (pre ++ a :: b :: c :: l) n
      (sofar ++ [en (a / 4); en (a mod 4 * 16 + b / 16); en (b mod 16 * 4 + c / 64); en (c mod 64)] ++ rest)
      (zlen pre + 3) (zlen sofar + 4).
Proof.
  intros Ha Hb Hc Hp Hn Hj. unfold INT_MAX in Hj. pose proof (zlen_nonneg sofar).
  rewrite encode_first, put_exact by (auto; lia). step_ok.
  rewrite encode_second by (auto; lia). rewrite (wrap32_small (zlen sofar + 1)), put_second by (unfold UINT32_MAX; lia). step_ok.
  rewrite encode_third by (auto; lia). rewrite (wrap32_small (zlen sofar + 1 + 1)) by (unfold UINT32_MAX; lia).
  replace (zlen sofar + 1 + 1) with (zlen sofar + 2) by lia. rewrite put_third. step_ok.
  rewrite (wrap32_small (zlen sofar + 2 + 1)) by (unfold UINT32_MAX; lia).
  pose proof (put_exact (sofar ++ [en (a / 4); en (a mod 4 * 16 + b / 16); en (b mod 16 * 4 + c / 64)]) r4 rest (en (c mod 64))) as E4.
  rewrite zlen_app, <- !app_assoc in E4. cbn [app] in E4. change (zlen [?x; ?y; ?z]) with 3 in E4.
  replace (zlen sofar + 2 + 1) with (zlen sofar + 3) by lia. rewrite E4. step_ok. rewrite wrap32_small by (unfold UINT32_MAX; lia).
  by replace (zlen sofar + 3 + 1) with (zlen sofar + 4) by lia.
Qed.

Lemma encode_loop_exact l : forall pre fuel sofar rest,
  Forall u8 l -> zlen pre mod 3 = 0 -> (length (loop_codes l) <= length rest)%nat ->
  zlen sofar + zlen (loop_codes l) <= INT_MAX -> (length l < fuel)%nat ->
  encode_loop fuel (pre ++ l) (zlen (pre ++ l)) (sofar ++ rest) (zlen pre) (zlen sofar) =
    Ok (sofar ++ loop_codes l ++ drop (length (loop_codes l)) rest, zlen sofar + zlen (loop_codes l)).
Proof.
  induction l as [|a|a b|a b c l IH] using triple_ind; intros pre fuel sofar rest F Hp Hr Hj Hf;
    (destruct fuel as [|fuel]; [simpl in Hf; lia|]); unfold INT_MAX in Hj; pose proof (zlen_nonneg sofar).
  - rewrite encode_end by (rewrite zlen_app; change (zlen (@nil Z)) with 0; lia).
    change (zlen (loop_codes [])) with 0. by rewrite Z.add_0_r.
  - apply Forall_cons in F as [Ha _]. simpl in Hr, Hf. destruct rest as [|r1 rest]; [simpl in Hr; lia|].
    assert (zlen (pre ++ [a]) = zlen pre + 1) as En by (by rewrite zlen_app).
    rewrite encode_first, put_exact by (auto; lia). step_ok. destruct fuel as [|fuel]; [lia|]. rewrite encode_end by lia.
    change (zlen (loop_codes [a])) with 1 in *. by rewrite wrap32_small by (unfold UINT32_MAX; lia).
  - apply Forall_cons in F as [Ha F]. apply Forall_cons in F as [Hb _]. simpl in Hr, Hf.
    destruct rest as [|r1 [|r2 rest]]; simpl in Hr; [lia..|].
    assert (zlen (pre ++ [a; b]) = zlen pre + 2) as En by (by rewrite zlen_app). change (zlen (loop_codes [a; b])) with 2 in *.
    rewrite encode_first, put_exact by (auto; lia). step_ok. do 2 (destruct fuel as [|fuel]; [lia|]).
    rewrite encode_second by (auto; lia). rewrite (wrap32_small (zlen sofar + 1)), put_second by (unfold UINT32_MAX; lia). step_ok.
    rewrite encode_end by lia. rewrite wrap32_small by (unfold UINT32_MAX; lia). do 2 f_equal. lia.
  - apply Forall_cons in F as [Ha F]. apply Forall_cons in F as [Hb F]. apply Forall_cons in F as [Hc F]. simpl in Hf.
    assert (zlen (loop_codes (a :: b :: c :: l)) = 4 + zlen (loop_codes l)) as El by (cbn [loop_codes]; rewrite zlen_app; done).
    rewrite El in *. pose proof (zlen_nonneg (loop_codes l)). simpl in Hr. destruct rest as [|r1 [|r2 [|r3 [|r4 rest]]]]; simpl in Hr; [lia..|].
    assert (zlen (pre ++ a :: b :: c :: l) = zlen pre + 3 + zlen l) as En by (rewrite zlen_app, !zlen_cons; lia). pose proof (zlen_nonneg l).
    do 2 (destruct fuel as [|fuel]; [lia|]). rewrite encode_group by (auto; unfold INT_MAX; lia).
    set (codes := [en (a / 4); en (a mod 4 * 16 + b / 16); en (b mod 16 * 4 + c / 64); en (c mod 64)]).
    specialize (IH (pre ++ [a; b; c]) fuel (sofar ++ codes) rest F). rewrite (zlen_app pre), (zlen_app sofar), <- !app_assoc in IH. cbn [app] in IH.
    change (zlen [a; b; c]) with 3 in IH. rewrite En in IH. change (zlen codes) with 4 in IH.
    rewrite En. etrans; [apply IH; [Z.div_mod_to_equations; lia|lia|unfold INT_MAX; lia|lia]|]. cbn [loop_codes]. do 2 f_equal. lia.
Qed.

(** The last one to three bytes. *)
Lemma last_group l : l <> [] ->
  exists pre t, l = pre ++ t /\ zlen pre mod 3 = 0 /\ (1 <= length t <= 3)%nat /\
    loop_codes l = loop_codes pre ++ loop_codes t /\ tail_codes l = tail_codes t.
Proof.
  induction l as [|a|a b|a b c l IH] using triple_ind; intros Hl; [done|by exists [], [a]; splits; simpl; try lia|by exists [], [a; b]; splits; simpl; try lia|].
  destruct (decide (l = [])) as [->|Hn]; [by exists [], [a; b; c]; splits; simpl; try lia|].
  destruct (IH Hn) as (pre & t & -> & Hp & Ht & El & Et). exists (a :: b :: c :: pre), t. splits; try done; try lia.
  - rewrite !zlen_cons. Z.div_mod_to_equations. lia.
  - cbn [loop_codes]. by rewrite El, app_assoc.
Qed.

(** The encoder writes the text at the start of the buffer and nothing else. *)
Lemma encode_exact in_ out :
  Forall u8 in_ -> zlen (b64 in_) <= zlen out -> zlen (b64 in_) <= INT_MAX ->
  wwBase64Encode in_ (zlen in_) out = Ok (zlen (b64 in_), b64 in_ ++ drop (length (b64 in_)) out).
Proof.
  intros F Ho Hm. unfold wwBase64Encode. pose proof (zlen_nonneg in_) as Hi. unfold INT_MAX in Hm.
  destruct (decide (in_ = [])) as [->|Hn]; [done|]. rewrite b64_split in *. rewrite zlen_app in *.
  assert (zlen in_ <> 0) by (destruct in_; [done|rewrite zlen_cons; pose proof (zlen_nonneg in_); lia]).
  rewrite (proj2 (Z.eqb_neq _ _)) by done. pose proof (zlen_nonneg (loop_codes in_)). pose proof (zlen_nonneg (tail_codes in_)).
  pose proof (encode_loop_exact in_ [] (S (Z.to_nat (zlen in_))) [] out F) as E. cbn [app] in E. change (zlen (@nil Z)) with 0 in E.
  rewrite Z.add_0_l in E. rewrite E by (try done; unfold INT_MAX; unfold zlen in *; lia). step_ok. clear E.
  set (codes := loop_codes in_) in *. set (rest := drop (length codes) out).
  assert (length rest = length out - length codes)%nat as Er by apply length_drop.
  destruct (last_group in_ Hn) as (pre & t & Ei & Hp & Ht & _ & Et). rewrite Et in *.
  assert (length (tail_codes t) <= length rest)%nat as Hr by (unfold zlen in *; lia).
  assert (drop (length (codes ++ tail_codes t)) out = drop (length (tail_codes t)) rest) as ->
    by (unfold rest; by rewrite length_app, drop_drop).
  rewrite <- app_assoc. clearbody codes rest. rewrite Ei, zlen_app in *.
  assert (Forall u8 t) as Ft by (by apply Forall_app in F as [_ F]).
  destruct t as [|a [|b [|c [|? ?]]]]; simpl in Ht; try lia.
  - change (zlen (tail_codes [a])) with 3 in *. change (zlen [a]) with 1 in *. cbn [tail_codes] in *.
    apply Forall_cons in Ft as [Ha _]. destruct (sextet_facts a a a Ha Ha Ha) as (_ & _ & _ & _ & Ea & _).
    replace (zlen pre + 1 - 1) with (zlen pre) by lia. rewrite load_first. step_ok. rewrite Hp. cbn [Z.eqb].
    rewrite Ea, en_get by (unfold u8, UINT8_MAX in Ha; Z.div_mod_to_equations; lia). step_ok.
    destruct rest as [|r1 [|r2 [|r3 rest]]]; simpl in Hr; try lia. rewrite put_exact. step_ok.
    rewrite (wrap32_small (zlen codes + 1)), put_second by (unfold UINT32_MAX; lia). step_ok.
    rewrite (wrap32_small (zlen codes + 1 + 1)) by (unfold UINT32_MAX; lia).
    replace (zlen codes + 1 + 1) with (zlen codes + 2) by lia. rewrite put_third. step_ok.
    rewrite wrap32_small by (unfold UINT32_MAX; lia). unfold to_int, INT_MAX.
    replace (zlen codes + 2 + 1 >? 2147483647) with false by lia. simpl. do 2 f_equal. lia.
  - change (zlen (tail_codes [a; b])) with 2 in *. change (zlen [a; b]) with 2 in *. cbn [tail_codes] in *.
    apply Forall_cons in Ft as [Ha Ft]. apply Forall_cons in Ft as [Hb _]. destruct (sextet_facts b b b Hb Hb Hb) as (_ & _ & _ & _ & _ & Eb).
    replace (zlen pre + 2 - 1) with (zlen pre + 1) by lia. rewrite load_second. step_ok.
    replace ((zlen pre + 1) mod 3) with 1 by (Z.div_mod_to_equations; lia). cbn [Z.eqb Pos.eqb].
    rewrite Eb, en_get by (unfold u8, UINT8_MAX in Hb; Z.div_mod_to_equations; lia). step_ok.
    destruct rest as [|r1 [|r2 rest]]; simpl in Hr; try lia. rewrite put_exact. step_ok.
    rewrite (wrap32_small (zlen codes + 1)), put_second by (unfold UINT32_MAX; lia). step_ok.
    rewrite wrap32_small by (unfold UINT32_MAX; lia). unfold to_int, INT_MAX.
    replace (zlen codes + 1 + 1 >? 2147483647) with false by lia. simpl. do 2 f_equal. lia.
  - change (zlen (tail_codes [a; b; c])) with 0 in *. change (zlen [a; b; c]) with 3 in *. cbn [tail_codes] in *.
    replace (zlen pre + 3 - 1) with (zlen pre + 2) by lia. rewrite load_third. step_ok.
    replace ((zlen pre + 2) mod 3) with 2 by (Z.div_mod_to_equations; lia). cbn [Z.eqb Pos.eqb].
    unfold to_int, INT_MAX. replace (zlen codes >? 2147483647) with false by lia. simpl. by rewrite Z.add_0_r, drop_0.
Qed.

(** ** The alphabet *)

Definition val (ch : Z) : option Z :=
  if (ch <? BASE64DE_FIRST) || (ch >? BASE64DE_LAST) then None
  else let c := byte_at base64de (ch - BASE64DE_FIRST) in if c =? -1 then None else Some c.

Lemma char_value_exact ch : char_value ch = Ok (val ch).
Proof.
  unfold char_value, val. destruct (_ || _) eqn:E; [done|]. bool_facts. unfold BASE64DE_FIRST, BASE64DE_LAST in *.
  unfold arr_get, byte_at. replace (0 <=? ch - 43) with true by lia.
  destruct (lookup_lt_is_Some_2 base64de (Z.to_nat (ch - 43))) as [x Hx]; [change (length base64de) with 80%nat; lia|].
  rewrite Hx. step_ok. apply nth_lookup_Some with (d := 0) in Hx. by rewrite Hx.
Qed.

(** The two tables, compared code by code. *)
Lemma tables_agree :
  forallb (fun n => match val (Z.of_nat n) with
                    | Some v => (en v =? Z.of_nat n) && (0 <=? v) && (v <? 64) && negb (Z.of_nat n =? BASE64_PAD)
                    | None => true
                    end) (seq 0 256) = true /\
  forallb (fun n => match val (en (Z.of_nat n)) with Some v => v =? Z.of_nat n | None => false end) (seq 0 64) = true.
Proof. split; reflexivity. Qed.

Lemma val_en v : 0 <= v < 64 -> val (en v) = Some v.
Proof.
  intros Hv. destruct tables_agree as [_ T]. rewrite forallb_forall in T. specialize (T (Z.to_nat v)).
  rewrite Z2Nat.id in T by lia. destruct (val (en v)) as [w|]; [|exfalso; enough (false = true) by done; apply T; apply in_seq; lia].
  f_equal. apply Z.eqb_eq, T, in_seq. lia.
Qed.

Lemma val_some ch v : val ch = Some v -> en v = ch /\ 0 <= v < 64 /\ ch <> BASE64_PAD.
Proof.
  intros E. assert (43 <= ch <= 122) as Hc.
  { unfold val, BASE64DE_FIRST, BASE64DE_LAST in E. destruct (_ || _) eqn:Eo; [done|]. bool_facts. lia. }
  destruct tables_agree as [T _]. rewrite forallb_forall in T. specialize (T (Z.to_nat ch)). rewrite Z2Nat.id, E in T by lia.
  assert (In (Z.to_nat ch) (seq 0 256)) as Hi by (apply in_seq; lia). specialize (T Hi). bool_facts. lia.
Qed.

Lemma val_pad : val BASE64_PAD = None.
Proof. reflexivity. Qed.

(** ** Decoding lists *)

Fixpoint dec (l : list Z) : option (list Z) :=
  match l with
  | [] => Some []
  | c0 :: c1 :: c2 :: c3 :: l =>
      match val c0, val c1 with
      | Some a, Some b =>
          if c2 =? BASE64_PAD then
            if (c3 =? BASE64_PAD) && bool_decide (l = []) then Some [first_byte a b] else None
          else
            match val c2 with
            | Some c =>
                if c3 =? BASE64_PAD then
                  if bool_decide (l = []) then Some [first_byte a b; second_byte b c] else None
                else
                  match val c3, dec l with
                  | Some d, Some t => Some (first_byte a b :: second_byte b c :: third_byte c d :: t)
                  | _, _ => None
                  end
            | None => None
            end
      | _, _ => None
      end
  | _ => None
  end.

(** How much the decoder may write. *)
Fixpoint dec_size (l : list Z) : Z :=
  match l with
  | [c0; c1; c2; c3] => if c3 =? BASE64_PAD then if c2 =? BASE64_PAD then 1 else 2 else 3
  | _ :: _ :: _ :: _ :: l => 3 + dec_size l
  | _ => 0
  end.

(** The bits a padded group drops are zero. *)
Fixpoint clean (l : list Z) : bool :=
  match l with
  | [c0; c1; c2; c3] =>
      if c3 =? BASE64_PAD then
        if c2 =? BASE64_PAD then match val c1 with Some v => v mod 16 =? 0 | None => false end
        else match val c2 with Some v => v mod 4 =? 0 | None => false end
      else true
  | _ :: _ :: _ :: _ :: l => clean l
  | _ => true
  end.

Lemma quad_ind (P : list Z -> Prop) :
  P [] -> (forall a b c d l, P l -> P (a :: b :: c :: d :: l)) -> forall l, (length l mod 4 = 0)%nat -> P l.
Proof.
  intros H0 H4. fix IH 1. intros [|a [|b [|c [|d l]]]] Hl; try discriminate Hl; [exact H0|]. apply H4, IH.
  clear -Hl. simpl length in Hl. replace (S (S (S (S (length l))))) with (length l + 1 * 4)%nat in Hl by lia.
  by rewrite Nat.Div0.mod_add in Hl.
Qed.

Lemma dec_size_nonneg l : 0 <= dec_size l.
Proof.
  revert l. fix IH 1. intros [|a [|b [|c [|d l]]]]; try (simpl; lia).
  assert (0 <= dec_size l) by apply IH. destruct l; simpl in *; repeat case_match; lia.
Qed.

(** A group without padding. *)
Lemma dec_size_plain a b c d l : d <> BASE64_PAD -> dec_size (a :: b :: c :: d :: l) = 3 + dec_size l.
Proof. intros Hd. destruct l; [|done]. simpl. by rewrite (proj2 (Z.eqb_neq _ _) Hd). Qed.

Lemma put_three (sofar : list Z) r1 r2 r3 rest x y z k : zlen sofar + 3 <= INT_MAX ->
  (out ← put (sofar ++ r1 :: r2 :: r3 :: rest) (zlen sofar) x; out ← put out (zlen sofar +32 1) y;
   out ← put out (zlen sofar +32 1 +32 1) z; k out (zlen sofar +32 1 +32 1 +32 1)) =
  (k (sofar ++ x :: y :: z :: rest) (zlen sofar + 3) : outcome (Z * list Z)).
Proof.
  intros Hj. unfold INT_MAX in Hj. pose proof (zlen_nonneg sofar).
  rewrite put_exact. step_ok. rewrite (wrap32_small (zlen sofar + 1)), put_second by (unfold UINT32_MAX; lia). step_ok.
  rewrite (wrap32_small (zlen sofar + 1 + 1)) by (unfold UINT32_MAX; lia). replace (zlen sofar + 1 + 1) with (zlen sofar + 2) by lia.
  rewrite put_third. step_ok. rewrite wrap32_small by (unfold UINT32_MAX; lia). by replace (zlen sofar + 2 + 1) with (zlen sofar + 3) by lia.
Qed.

Lemma put_two (sofar : list Z) r1 r2 rest x y k : zlen sofar + 2 <= INT_MAX ->
  (out ← put (sofar ++ r1 :: r2 :: rest) (zlen sofar) x; out ← put out (zlen sofar +32 1) y; k out (zlen sofar +32 1 +32 1)) =
  (k (sofar ++ x :: y :: rest) (zlen sofar + 2) : outcome (Z * list Z)).
Proof.
  intros Hj. unfold INT_MAX in Hj. pose proof (zlen_nonneg sofar).
  rewrite put_exact. step_ok. rewrite (wrap32_small (zlen sofar + 1)), put_second by (unfold UINT32_MAX; lia). step_ok.
  rewrite (wrap32_small (zlen sofar + 1 + 1)) by (unfold UINT32_MAX; lia). by replace (zlen sofar + 1 + 1) with (zlen sofar + 2) by lia.
Qed.

(** What a run of the decoder from [sofar] reports for the characters [l]. *)
Definition decoded (l sofar rest : list Z) (r : Z) (out : list Z) : Prop :=
  match dec l with
  | Some x => r = zlen sofar + zlen x /\ out = sofar ++ x ++ drop (length x) rest
  | None => r = -1
  end.

Lemma at_end (pre : list Z) a b c d l : zlen (pre ++ a :: b :: c :: d :: l) <= UINT32_MAX ->
  (zlen pre +32 4 =? zlen (pre ++ a :: b :: c :: d :: l)) = bool_decide (l = []).
Proof.
  rewrite zlen_app, !zlen_cons. intros Hm. pose proof (zlen_nonneg l). pose proof (zlen_nonneg pre). rewrite wrap32_small by lia.
  case_bool_decide as Hn; [rewrite Hn; change (zlen (@nil Z)) with 0; lia|].
  destruct l; [done|]. rewrite zlen_cons. pose proof (zlen_nonneg l). lia.
Qed.

Lemma decode_loop_exact l : (length l mod 4 = 0)%nat -> forall pre fuel sofar rest,
  zlen (pre ++ l) <= UINT32_MAX -> dec_size l <= zlen rest -> zlen sofar + dec_size l <= INT_MAX -> (length l < fuel)%nat ->
  exists r out, decode_loop fuel (pre ++ l) (zlen (pre ++ l)) (sofar ++ rest) (zlen pre) (zlen sofar) = Ok (r, out) /\
    decoded l sofar rest r out.
Proof.
  intros Hl. revert l Hl. refine (quad_ind _ _ _); [|intros a b c d l IH]; intros pre fuel sofar rest Hm Hr Hj Hf;
    (destruct fuel as [|fuel]; [simpl in Hf; lia|]); cbn [decode_loop]; unfold decoded; pose proof (zlen_nonneg sofar).
  { rewrite app_nil_r, Z.ltb_irrefl. cbn [negb]. eexists _, _. split; [done|]. cbn [dec]. unfold to_int. simpl in Hj.
    replace (zlen sofar >? INT_MAX) with false by lia. split; [|done]. change (zlen (@nil Z)) with 0. lia. }
  pose proof (at_end pre a b c d l Hm) as Eend. rewrite zlen_app, !zlen_cons in Hm.
  pose proof (zlen_nonneg l). pose proof (zlen_nonneg pre). pose proof (dec_size_nonneg l). simpl in Hf.
  replace (zlen pre <? zlen (pre ++ a :: b :: c :: d :: l)) with true by (rewrite zlen_app, !zlen_cons; lia). cbn [negb].
  rewrite load_first, load_second, load_third, load_fourth. step_ok. rewrite !char_value_exact. step_ok. cbn [dec].
  destruct (val a) as [v0|]; [|by eexists _, _]. step_ok. destruct (val b) as [v1|]; [|by eexists _, _].
  rewrite Eend. unfold to_int. destruct (c =? BASE64_PAD) eqn:Ec.
  { destruct (d =? BASE64_PAD) eqn:Ed; cbn [negb orb andb]; [|by eexists _, _]. case_bool_decide as Hn; cbn [negb]; [|by eexists _, _].
    subst l. simpl in Hr, Hj. rewrite Ec, Ed in Hr, Hj. destruct rest as [|r1 rest]; [change (zlen (@nil Z)) with 0 in Hr; lia|].
    rewrite put_exact. step_ok. rewrite wrap32_small by (unfold UINT32_MAX, INT_MAX in *; lia).
    replace (zlen sofar + 1 >? INT_MAX) with false by lia. by eexists _, _. }
  destruct (val c) as [v2|]; [|by eexists _, _]. destruct (d =? BASE64_PAD) eqn:Ed.
  { case_bool_decide as Hn; cbn [negb]; [|by eexists _, _]. subst l. simpl in Hr, Hj. rewrite Ec, Ed in Hr, Hj.
    destruct rest as [|r1 [|r2 rest]]; rewrite ?zlen_cons in Hr; try (change (zlen (@nil Z)) with 0 in Hr; lia).
    rewrite (put_two _ _ _ _ _ _ (fun out j => mret (if j >? INT_MAX then j - 4294967296 else j, out))) by lia.
    replace (zlen sofar + 2 >? INT_MAX) with false by lia. by eexists _, _. }
  bool_facts. rewrite dec_size_plain in Hr, Hj by done. destruct (val d) as [v3|]; [|by eexists _, _].
  destruct rest as [|r1 [|r2 [|r3 rest]]]; rewrite ?zlen_cons in Hr; try (change (zlen (@nil Z)) with 0 in Hr; lia).
  rewrite (put_three _ _ _ _ _ _ _ _ (fun out j => decode_loop fuel _ _ out _ j)) by lia. rewrite wrap32_small by lia.
  destruct (IH (pre ++ [a; b; c; d]) fuel (sofar ++ [first_byte v0 v1; second_byte v1 v2; third_byte v2 v3]) rest) as (r & out & E & D);
    rewrite ?zlen_app, <- ?app_assoc; cbn [app]; change (zlen [?x; ?y; ?z]) with 3; change (zlen [?x; ?y; ?z; ?w]) with 4; rewrite ?zlen_app, ?zlen_cons; try lia.
  rewrite !zlen_app, <- !app_assoc in E. cbn [app] in E. change (zlen [?x; ?y; ?z]) with 3 in E. change (zlen [?x; ?y; ?z; ?w]) with 4 in E.
  exists r, out. split; [rewrite <- E; f_equal; rewrite ?zlen_app, ?zlen_cons; lia|].
  unfold decoded in D. destruct (dec l) as [t|]; [|done]. destruct D as [-> ->]. rewrite zlen_app, <- app_assoc.
  split; [rewrite !zlen_cons; change (zlen (@nil Z)) with 0; lia|done].
Qed.

(** ** The decoder against the text *)

Lemma sextets_range a b c : u8 a -> u8 b -> u8 c ->
  0 <= a / 4 < 64 /\ 0 <= a mod 4 * 16 + b / 16 < 64 /\ 0 <= b mod 16 * 4 + c / 64 < 64 /\ 0 <= c mod 64 < 64 /\
  0 <= a mod 4 * 16 < 64 /\ 0 <= b mod 16 * 4 < 64.
Proof. unfold u8, UINT8_MAX. intros. splits; Z.div_mod_to_equations; lia. Qed.

(** The three bytes of a group come back from its four sextets. *)
Lemma bytes_back a b c : u8 a -> u8 b -> u8 c ->
  first_byte (a / 4) (a mod 4 * 16 + b / 16) = a /\
  second_byte (a mod 4 * 16 + b / 16) (b mod 16 * 4 + c / 64) = b /\
  third_byte (b mod 16 * 4 + c / 64) (c mod 64) = c.
Proof.
  intros Ha Hb Hc. destruct (sextets_range a b c Ha Hb Hc) as (R0 & R1 & R2 & R3 & _).
  destruct (byte_facts _ _ _ _ R0 R1 R2 R3) as (-> & -> & ->). unfold u8, UINT8_MAX in *. splits; Z.div_mod_to_equations; lia.
Qed.

Lemma en_not_pad v : 0 <= v < 64 -> (en v =? BASE64_PAD) = false.
Proof. intros Hv. apply Z.eqb_neq. by destruct (val_some _ _ (val_en v Hv)) as (_ & _ & ?). Qed.

Lemma u8_zero : u8 0.
Proof. unfold u8, UINT8_MAX. lia. Qed.

Lemma dec_b64 x : Forall u8 x -> dec (b64 x) = Some x /\ clean (b64 x) = true.
Proof.
  pose proof u8_zero as H0.
  induction x as [|a|a b|a b c x IH] using triple_ind; intros F; [done| | |]; rewrite !Forall_cons in F.
  - destruct F as [Ha _]. destruct (sextets_range a 0 0 Ha H0 H0) as (R0 & _ & _ & _ & R1 & _).
    destruct (bytes_back a 0 0 Ha H0 H0) as (E & _). change (0 / 16) with 0 in E. rewrite Z.add_0_r in E.
    cbn [b64 dec clean]. rewrite !val_en, Z.eqb_refl, E by done. split; [done|]. simpl. Z.div_mod_to_equations; lia.
  - destruct F as (Ha & Hb & _). destruct (sextets_range a b 0 Ha Hb H0) as (R0 & R1 & _ & _ & _ & R2).
    destruct (bytes_back a b 0 Ha Hb H0) as (E & E' & _). change (0 / 64) with 0 in E'. rewrite Z.add_0_r in E'.
    cbn [b64 dec clean]. rewrite !val_en, en_not_pad, Z.eqb_refl, E, E' by done. split; [done|]. simpl. Z.div_mod_to_equations; lia.
  - destruct F as (Ha & Hb & Hc & F). destruct (IH F) as [Ed Ec]. destruct (sextets_range a b c Ha Hb Hc) as (R0 & R1 & R2 & R3 & _).
    destruct (bytes_back a b c Ha Hb Hc) as (E & E' & E''). cbn [b64 app dec].
    rewrite !val_en, !en_not_pad, Ed, E, E', E'' by done. split; [done|].
    cbn [clean]. rewrite !en_not_pad by done. by destruct (b64 x).
Qed.

Lemma dec_length l : (length l mod 4 = 0)%nat -> forall x, dec l = Some x -> dec_size l = zlen x.
Proof.
  intros Hl. revert l Hl. refine (quad_ind _ _ _); [by intros ? [= <-]|]. intros a b c d l IH x E. cbn [dec] in E.
  destruct (val a) as [v0|]; [|done]. destruct (val b) as [v1|]; [|done]. destruct (c =? BASE64_PAD) eqn:Ec.
  { destruct (d =? BASE64_PAD) eqn:Ed; [|done]. cbn [andb] in E. case_bool_decide; [|done]. injection E as <-. subst l. simpl. by rewrite Ec, Ed. }
  destruct (val c) as [v2|]; [|done]. destruct (d =? BASE64_PAD) eqn:Ed.
  { case_bool_decide; [|done]. injection E as <-. subst l. simpl. by rewrite Ec, Ed. }
  destruct (val d) as [v3|]; [|done]. destruct (dec l) as [t|]; [|done]. injection E as <-. bool_facts. rewrite dec_size_plain by done.
  rewrite (IH t), !zlen_cons by done. lia.
Qed.

(** Four sextets come back from the three bytes they spell. *)
Lemma sextets_back c0 c1 c2 c3 : 0 <= c0 < 64 -> 0 <= c1 < 64 -> 0 <= c2 < 64 -> 0 <= c3 < 64 ->
  u8 (first_byte c0 c1) /\ u8 (second_byte c1 c2) /\ u8 (third_byte c2 c3) /\
  first_byte c0 c1 / 4 = c0 /\ first_byte c0 c1 mod 4 = c1 / 16 /\
  second_byte c1 c2 / 16 = c1 mod 16 /\ second_byte c1 c2 mod 16 = c2 / 4 /\
  third_byte c2 c3 / 64 = c2 mod 4 /\ third_byte c2 c3 mod 64 = c3.
Proof.
  intros H0 H1 H2 H3. destruct (byte_facts c0 c1 c2 c3 H0 H1 H2 H3) as (-> & -> & ->).
  unfold u8, UINT8_MAX. splits; Z.div_mod_to_equations; lia.
Qed.

Lemma clean_plain a b c d l : d <> BASE64_PAD -> clean (a :: b :: c :: d :: l) = clean l.
Proof. intros Hd. destruct l; [|done]. simpl. by rewrite (proj2 (Z.eqb_neq _ _) Hd). Qed.

Lemma b64_dec l : (length l mod 4 = 0)%nat -> forall x, dec l = Some x -> clean l = true -> l = b64 x /\ Forall u8 x.
Proof.
  intros Hl. revert l Hl. refine (quad_ind _ _ _); [by intros ? [= <-]|]. intros a b c d l IH x E Hc. cbn [dec] in E.
  destruct (val a) as [v0|] eqn:E0; [|done]. destruct (val b) as [v1|] eqn:E1; [|done].
  apply val_some in E0 as (<- & R0 & _). pose proof E1 as E1'. apply val_some in E1 as (<- & R1 & _). destruct (c =? BASE64_PAD) eqn:Ec.
  { destruct (d =? BASE64_PAD) eqn:Ed; [|done]. cbn [andb] in E. case_bool_decide; [|done]. injection E as <-. subst l.
    cbn [clean] in Hc. rewrite Ec, Ed, E1' in Hc. bool_facts.
    destruct (sextets_back v0 v1 0 0 R0 R1 ltac:(lia) ltac:(lia)) as (U & _ & _ & Q0 & Q1 & _). subst. simpl. rewrite Q0, Q1.
    replace (v1 / 16 * 16) with v1 by (Z.div_mod_to_equations; lia). auto. }
  destruct (val c) as [v2|] eqn:E2; [|done]. pose proof E2 as E2'. apply val_some in E2 as (<- & R2 & _). destruct (d =? BASE64_PAD) eqn:Ed.
  { case_bool_decide; [|done]. injection E as <-. subst l. cbn [clean] in Hc. rewrite Ec, Ed, E2' in Hc. bool_facts.
    destruct (sextets_back v0 v1 v2 0 R0 R1 R2 ltac:(lia)) as (U0 & U1 & _ & Q0 & Q1 & Q2 & Q3 & _). subst. simpl. rewrite Q0, Q1, Q2, Q3.
    replace (v1 / 16 * 16 + v1 mod 16) with v1 by (Z.div_mod_to_equations; lia).
    replace (v2 / 4 * 4) with v2 by (Z.div_mod_to_equations; lia). auto. }
  destruct (val d) as [v3|] eqn:E3; [|done]. apply val_some in E3 as (<- & R3 & Np). destruct (dec l) as [t|]; [|done]. injection E as <-.
  rewrite clean_plain in Hc by done. destruct (IH t eq_refl Hc) as [-> F].
  destruct (sextets_back v0 v1 v2 v3 R0 R1 R2 R3) as (U0 & U1 & U2 & Q0 & Q1 & Q2 & Q3 & Q4 & Q5). cbn [b64 app].
  rewrite Q0, Q1, Q2, Q3, Q4, Q5.
  replace (v1 / 16 * 16 + v1 mod 16) with v1 by (Z.div_mod_to_equations; lia).
  replace (v2 / 4 * 4 + v2 mod 4) with v2 by (Z.div_mod_to_equations; lia). auto.
Qed.

(** ** The canonical decoder *)

Lemma quad_tail l : (length l mod 4 = 0)%nat -> l <> [] ->
  exists l0 a b c d, l = l0 ++ [a; b; c; d] /\ (length l0 mod 4 = 0)%nat /\
    clean l = clean [a; b; c; d] /\ dec_size l = zlen l0 / 4 * 3 + dec_size [a; b; c; d].
Proof.
  intros Hl. revert l Hl. refine (quad_ind _ _ _); [done|]. intros a b c d l IH _. destruct (decide (l = [])) as [->|Hn].
  { exists [], a, b, c, d. splits; done. }
  destruct (IH Hn) as (l0 & a' & b' & c' & d' & -> & Hl & Ec & Es). exists (a :: b :: c :: d :: l0), a', b', c', d'. split; [done|].
  split; [simpl length; replace (S (S (S (S (length l0))))) with (length l0 + 1 * 4)%nat by lia; by rewrite Nat.Div0.mod_add|].
  rewrite !zlen_cons. destruct (l0 ++ [a'; b'; c'; d']) eqn:E; [by destruct l0|].
  split; [exact Ec|]. change (dec_size (a :: b :: c :: d :: z :: l)) with (3 + dec_size (z :: l)). rewrite Es. Z.div_mod_to_equations; lia.
Qed.

Lemma mod4_zlen (l : list Z) : zlen l mod 4 = 0 <-> (length l mod 4 = 0)%nat.
Proof. unfold zlen. change 4 with (Z.of_nat 4). rewrite <- Nat2Z.inj_mod. lia. Qed.

(** A character looked up without the test for -1. *)
Lemma raw_value ch bits (k : Z) : (k = 15 /\ bits = 16) \/ (k = 3 /\ bits = 4) -> forall (size : Z),
  (if (ch <? BASE64DE_FIRST) || (ch >? BASE64DE_LAST) then mret (true, size)
   else value ← arr_get base64de (ch - BASE64DE_FIRST); mret ((value <? 0) || negb (Z.land value k =? 0), size)) =
  Ok (negb match val ch with Some v => v mod bits =? 0 | None => false end, size).
Proof.
  intros Hk size. pose proof (char_value_exact ch) as E. unfold char_value in E.
  destruct (_ || _) eqn:Eo; [injection E as <-; done|].
  destruct (arr_get base64de (ch - BASE64DE_FIRST)) as [v|e]; [|done]. revert E. step_ok. intros E.
  destruct (v =? -1) eqn:Ev; [assert (v = -1) as -> by lia; by injection E as <-|]. injection E as E. rewrite <- E.
  destruct (val_some ch v) as (_ & Hv & _); [done|]. replace (v <? 0) with false by lia. cbn [orb]. unfold mret, outcome_ret.
  destruct Hk as [[-> ->]|[-> ->]]; [change 15 with (Z.ones 4)|change 3 with (Z.ones 2)]; by rewrite land_mask by lia.
Qed.

Lemma canonical_gates s out : (length s mod 4 = 0)%nat -> zlen s <= UINT32_MAX ->
  wwBase64DecodeCanonical (Some s) (zlen s) (Some out) (zlen out) =
    (if negb (clean s) then mret (-1, out)
     else if (dec_size s >? zlen out) || (dec_size s >? INT_MAX) then mret (-1, out)
     else wwBase64Decode s (zlen s) out).
Proof.
  intros Hl Hm. unfold wwBase64DecodeCanonical. cbn [default]. pose proof (proj2 (mod4_zlen s) Hl) as Hz. rewrite Hz. cbn [Z.eqb negb].
  rewrite !bool_decide_true by (by eexists). unfold assert_, id. cbn [orb]. step_ok. destruct (decide (s = [])) as [->|Hn]; [done|].
  destruct (quad_tail s Hl Hn) as (l0 & a & b & c & d & -> & Hl0 & -> & ->). apply mod4_zlen in Hl0.
  rewrite zlen_app in *. change (zlen [a; b; c; d]) with 4 in *. pose proof (zlen_nonneg l0).
  replace (zlen l0 + 4 =? 0) with false by lia. replace (zlen l0 + 4 - 1) with (zlen l0 + 3) by lia.
  replace (zlen l0 + 4 - 2) with (zlen l0 + 2) by lia. rewrite load_fourth, load_third. step_ok. unfold BASE64_DECODE_OUT_SIZE.
  assert ((zlen l0 + 4) / 4 * 3 = zlen l0 / 4 * 3 + 3) as -> by (Z.div_mod_to_equations; lia). cbn [clean dec_size].
  destruct (d =? BASE64_PAD); cbn [negb]; [|step_ok; done]. step_ok. unfold UINT32_MAX in Hm.
  destruct (c =? BASE64_PAD).
  - replace (zlen l0 + 4 - 3) with (zlen l0 + 1) by lia. rewrite load_second. step_ok. rewrite (raw_value b 16 15) by auto. step_ok. rewrite wrap64_small by (unfold UINT64_MAX; Z.div_mod_to_equations; lia).
    by replace (zlen l0 / 4 * 3 + 3 - 2) with (zlen l0 / 4 * 3 + 1) by lia.
  - replace (zlen l0 + 4 - 2) with (zlen l0 + 2) by lia. rewrite load_third. step_ok. rewrite (raw_value c 4 3) by auto. step_ok. rewrite wrap64_small by (unfold UINT64_MAX; Z.div_mod_to_equations; lia).
    by replace (zlen l0 / 4 * 3 + 3 - 1) with (zlen l0 / 4 * 3 + 2) by lia.
Qed.

Lemma decode_run s out : (length s mod 4 = 0)%nat -> zlen s <= UINT32_MAX -> dec_size s <= zlen out -> dec_size s <= INT_MAX ->
  exists r out', wwBase64Decode s (zlen s) out = Ok (r, out') /\ decoded s [] out r out'.
Proof.
  intros Hl Hm Ho Hi. unfold wwBase64Decode. rewrite (proj2 (mod4_zlen s) Hl). cbn [Z.eqb negb].
  apply (decode_loop_exact s Hl [] (S (Z.to_nat (zlen s))) [] out Hm Ho); [|unfold zlen; lia].
  change (zlen (@nil Z)) with 0. lia.
Qed.

(** The texts a decoder with room for [room] bytes takes. *)
Definition spells (s x : list Z) (room : Z) : Prop :=
  Forall u8 x /\ s = b64 x /\ zlen x <= room /\ zlen x <= INT_MAX.

Lemma b64_quads x : (length (b64 x) mod 4 = 0)%nat.
Proof.
  induction x as [|a|a b|a b c x IH] using triple_ind; [done..|]. cbn [b64]. rewrite length_app.
  change (length [?x; ?y; ?z; ?w]) with 4%nat. by rewrite Nat.add_comm, (Nat.Div0.mod_add _ 1 4).
Qed.

Lemma canonical_run s out : zlen s <= UINT32_MAX ->
  exists r out', wwBase64DecodeCanonical (Some s) (zlen s) (Some out) (zlen out) = Ok (r, out') /\
    ((exists x, spells s x (zlen out) /\ r = zlen x /\ out' = x ++ drop (length x) out) \/
     (r = -1 /\ forall x, ~ spells s x (zlen out))).
Proof.
  intros Hm. destruct (decide (length s mod 4 = 0)%nat) as [Hl|Hl]; cycle 1.
  { exists (-1), out. split; [|right; split; [done|intros x (_ & -> & _); by apply Hl, b64_quads]].
    unfold wwBase64DecodeCanonical. cbn [default]. rewrite !bool_decide_true by (by eexists). unfold assert_, id. cbn [orb]. step_ok.
    rewrite <- mod4_zlen in Hl. by rewrite (proj2 (Z.eqb_neq _ _) Hl). }
  rewrite canonical_gates by done. destruct (clean s) eqn:Ec; cbn [negb]; cycle 1.
  { exists (-1), out. split; [done|]. right. split; [done|]. intros x (F & -> & _). destruct (dec_b64 x F). congruence. }
  destruct (_ || _) eqn:Ez.
  { exists (-1), out. split; [done|]. right. split; [done|]. intros x (F & -> & ? & ?). destruct (dec_b64 x F) as [Ed _].
    rewrite (dec_length _ (b64_quads x) x Ed) in Ez. bool_facts. lia. }
  bool_facts. destruct (decode_run s out Hl Hm) as (r & out' & E & D); [lia..|]. exists r, out'. split; [done|].
  unfold decoded in D. destruct (dec s) as [x|] eqn:Ed.
  - destruct D as [-> ->]. left. exists x. destruct (b64_dec s Hl x Ed Ec) as [-> F]. rewrite (dec_length _ Hl x Ed) in *.
    split; [|done]. unfold spells. splits; [done|done|lia|lia].
  - right. split; [done|]. intros x (F & -> & _). destruct (dec_b64 x F). congruence.
Qed.

(** C29. [wwBase64DecodeCanonical] terminates without touching a byte outside its buffers and accepts exactly the
    canonical texts: it returns the length of [x] and writes [x] over the front of the buffer, the rest kept, when
    the input is the Base64 text of bytes [x] that fit the buffer and an [int]; it returns -1 when the input is no
    such text - a length that is no multiple of four, a foreign character, a misplaced padding, dropped bits that are
    not zero - or the bytes do not fit. *)
Theorem base64_canonical_exact s out : zlen s <= UINT32_MAX ->
  exists r out', wwBase64DecodeCanonical (Some s) (zlen s) (Some out) (zlen out) = Ok (r, out') /\
    ((exists x, spells s x (zlen out) /\ r = zlen x /\ out' = x ++ drop (length x) out) \/
     (r = -1 /\ forall x, ~ spells s x (zlen out))).
Proof. apply canonical_run. Qed.

Lemma b64_length x : zlen (b64 x) = BASE64_ENCODE_OUT_SIZE (zlen x).
Proof.
  unfold BASE64_ENCODE_OUT_SIZE. induction x as [|a|a b|a b c x IH] using triple_ind; [done..|]. cbn [b64].
  rewrite zlen_app, IH, !zlen_cons. change (zlen (@nil Z)) with 0. Z.div_mod_to_equations; lia.
Qed.

(** Encoding and decoding are inverse.  [wwBase64Encode] writes its text into a buffer of
    [BASE64_ENCODE_OUT_SIZE] bytes or more and returns its length; decoding those characters, strictly or not, into a
    buffer with room for the bytes gives them back. *)
Theorem base64_roundtrip x text out : Forall u8 x -> BASE64_ENCODE_OUT_SIZE (zlen x) <= zlen text ->
  BASE64_ENCODE_OUT_SIZE (zlen x) <= INT_MAX -> zlen x <= zlen out ->
  exists n text', wwBase64Encode x (zlen x) text = Ok (n, text') /\ n = BASE64_ENCODE_OUT_SIZE (zlen x) /\
    let s := take (Z.to_nat n) text' in
    wwBase64Decode s n out = Ok (zlen x, x ++ drop (length x) out) /\
    wwBase64DecodeCanonical (Some s) n (Some out) (zlen out) = Ok (zlen x, x ++ drop (length x) out).
Proof.
  rewrite <- b64_length. intros F Ht Hm Ho. rewrite encode_exact by done. eexists _, _. split; [done|]. split; [done|].
  cbv zeta. unfold INT_MAX in Hm.
  assert (take (Z.to_nat (zlen (b64 x))) (b64 x ++ drop (length (b64 x)) text) = b64 x) as ->
    by (unfold zlen; by rewrite Nat2Z.id, take_app_length).
  assert (zlen x <= INT_MAX) by (rewrite b64_length in Hm; unfold BASE64_ENCODE_OUT_SIZE, INT_MAX in *; Z.div_mod_to_equations; lia).
  pose proof (dec_b64 x F) as [Ed Ec]. pose proof (dec_length _ (b64_quads x) x Ed) as Es.
  assert (wwBase64Decode (b64 x) (zlen (b64 x)) out = Ok (zlen x, x ++ drop (length x) out)) as E.
  { destruct (decode_run (b64 x) out) as (r & out' & E & D); [apply b64_quads|unfold UINT32_MAX; lia|lia|lia|].
    rewrite E. unfold decoded in D. rewrite Ed in D. by destruct D as [-> ->]. }
  split; [exact E|]. rewrite canonical_gates by (apply b64_quads || (unfold UINT32_MAX; lia)). rewrite Ec, Es. cbn [negb].
  replace (zlen x >? zlen out) with false by lia. replace (zlen x >? INT_MAX) with false by lia. exact E.
Qed.

(** "Wall" and "Water" with buffers of the right size. *)
Lemma base64_canonical_exact_witness :
  exists r out', wwBase64DecodeCanonical (Some (b64 [87; 97; 108; 108])) 8 (Some [0; 0; 0; 0; 7]) 5 = Ok (r, out') /\
    ((exists x, spells (b64 [87; 97; 108; 108]) x 5 /\ r = zlen x /\ out' = x ++ drop (length x) [0; 0; 0; 0; 7]) \/
     (r = -1 /\ forall x, ~ spells (b64 [87; 97; 108; 108]) x 5)).
Proof. apply (base64_canonical_exact (b64 [87; 97; 108; 108]) [0; 0; 0; 0; 7]). discriminate. Defined.

Lemma base64_roundtrip_witness :
  exists n text', wwBase64Encode [87; 97; 116; 101; 114] 5 (repeat 0 8) = Ok (n, text') /\ n = 8 /\
    let s := take (Z.to_nat n) text' in
    wwBase64Decode s n (repeat 0 5) = Ok (5, [87; 97; 116; 101; 114]) /\
    wwBase64DecodeCanonical (Some s) n (Some (repeat 0 5)) 5 = Ok (5, [87; 97; 116; 101; 114]).
Proof.
  apply (base64_roundtrip [87; 97; 116; 101; 114] (repeat 0 8) (repeat 0 5)); try discriminate.
  repeat constructor; discriminate.
Defined.
