(* ===== verification/Base64Url.v ===== *)
(** * Base64 for URLs: encoding and decoding are inverse

    [url] is the text of bytes in the URL alphabet, without padding.
    [wwBase64UrlEncodeNoPadding] writes it and [wwBase64UrlDecode] gives the
    bytes back, with or without the padding of the other form. *)

From Stdlib Require Import ZArith Lia.
From stdpp Require Import base numbers option list.
From S2P Require Import Prelude Endian Base64 Base64Proofs.
Open Scope Z_scope.
Open Scope word_scope.

(** ** The text *)

Definition ue (v : Z) : Z := byte_at url_table v.

Fixpoint url (l : list Z) : list Z :=
  match l with
  | a :: b :: c :: l =>
      [ue (a / 4); ue (a mod 4 * 16 + b / 16); ue (b mod 16 * 4 + c / 64); ue (c mod 64)] ++ url l
  | [a; b] => [ue (a / 4); ue (a mod 4 * 16 + b / 16); ue (b mod 16 * 4)]
  | [a] => [ue (a / 4); ue (a mod 4 * 16)]
  | [] => []
  end.

(** Whole groups, and the one or two bytes after them. *)
Lemma split_groups x : exists full tail : list Z, x = full ++ tail /\ (length full mod 3 = 0)%nat /\ (length tail < 3)%nat.
Proof.
  induction x as [|a|a b|a b c x (full & tail & -> & Hf & Ht)] using triple_ind;
    [exists [], []|exists [], [a]|exists [], [a; b]|exists (a :: b :: c :: full), tail]; splits; try done; try (simpl; lia).
  change (length (a :: b :: c :: full)) with (1 * 3 + length full)%nat. by rewrite Nat.add_comm, Nat.Div0.mod_add.
Qed.

Lemma three_ind (P : list Z -> Prop) :
  P [] -> (forall a b c l, P l -> P (a :: b :: c :: l)) -> forall l, (length l mod 3 = 0)%nat -> P l.
Proof.
  intros H0 H3 l. induction l as [|a|a b|a b c l IH] using triple_ind; intros Hl; try discriminate Hl; [exact H0|].
  apply H3, IH. simpl length in Hl. replace (S (S (S (length l)))) with (length l + 1 * 3)%nat in Hl by lia.
  by rewrite Nat.Div0.mod_add in Hl.
Qed.

Lemma url_app full tail : (length full mod 3 = 0)%nat -> url (full ++ tail) = url full ++ url tail.
Proof. revert full. refine (three_ind _ _ _); [done|]. intros a b c l IH. cbn [app url]. by rewrite IH. Qed.

(** ** The alphabet *)

Lemma url_alphabet :
  forallb (fun n => let c := ue (Z.of_nat n) in
             (base64UrlCharValue c =? Z.of_nat n) && negb (c =? BASE64_PAD)) (seq 0 64) = true.
Proof. reflexivity. Qed.

Lemma url_char v : 0 <= v < 64 -> base64UrlCharValue (ue v) = v /\ ue v <> BASE64_PAD.
Proof.
  intros Hv. pose proof url_alphabet as T. rewrite forallb_forall in T. specialize (T (Z.to_nat v)).
  rewrite Z2Nat.id in T by lia. assert (In (Z.to_nat v) (seq 0 64)) as Hi by (apply in_seq; lia). specialize (T Hi).
  cbv zeta in T. bool_facts. split; [lia|done].
Qed.

Lemma url_get v : 0 <= v < 64 -> arr_get url_table v = Ok (ue v).
Proof.
  intros Hv. unfold arr_get, ue, byte_at. replace (0 <=? v) with true by lia.
  destruct (lookup_lt_is_Some_2 url_table (Z.to_nat v)) as [x Hx]; [change (length url_table) with 64%nat; lia|].
  rewrite Hx. apply nth_lookup_Some with (d := 0) in Hx. by rewrite Hx.
Qed.

Lemma put_all_exact codes : forall sofar rest, (length codes <= length rest)%nat ->
  put_all (sofar ++ rest) (zlen sofar) codes = Ok (sofar ++ codes ++ drop (length codes) rest).
Proof.
  induction codes as [|c codes IH]; intros sofar rest Hr; cbn [put_all]; [by rewrite drop_0|].
  destruct rest as [|r rest]; [simpl in Hr; lia|]. simpl in Hr. rewrite put_exact. step_ok.
  specialize (IH (sofar ++ [c]) rest ltac:(lia)). rewrite zlen_app, <- !app_assoc in IH. exact IH.
Qed.

Lemma url_codes_exact v shifts : url_codes v shifts = Ok ((fun s => ue (Z.land (Z.shiftr v s) 0x3F)) <$> shifts).
Proof.
  induction shifts as [|s shifts IH]; [done|]. cbn [url_codes]. change 0x3F with (Z.ones 6). rewrite land_mask by lia.
  rewrite url_get by (apply Z.mod_pos_bound; lia). step_ok. rewrite IH. step_ok. cbn [fmap list_fmap]. change 0x3F with (Z.ones 6).
  by rewrite land_mask by lia.
Qed.

(** The four sextets of a 24-bit group. *)
Lemma group_sextets a b c : u8 a -> u8 b -> u8 c -> let v := Z.lor (Z.lor (Z.shiftl a 16) (Z.shiftl b 8)) c in
  Z.land (Z.shiftr v 18) 0x3F = a / 4 /\ Z.land (Z.shiftr v 12) 0x3F = a mod 4 * 16 + b / 16 /\
  Z.land (Z.shiftr v 6) 0x3F = b mod 16 * 4 + c / 64 /\ Z.land (Z.shiftr v 0) 0x3F = c mod 64.
Proof.
  intros Ha Hb Hc v. unfold u8, UINT8_MAX in *. assert (v = a * 65536 + b * 256 + c) as ->.
  { subst v. rewrite !Z.shiftl_mul_pow2 by lia. change (2 ^ 16) with 65536. change (2 ^ 8) with 256.
    rewrite (lor_add (a * 65536) (b * 256) 16) by (first [done | lia | by apply Z.mod_mul]).
    rewrite (lor_add _ c 8) by (try lia; change (2 ^ 8) with 256; Z.div_mod_to_equations; lia). done. }
  change 0x3F with (Z.ones 6). rewrite !land_mask, !Z.shiftr_div_pow2 by lia.
  change (2 ^ 18) with 262144. change (2 ^ 12) with 4096. change (2 ^ 6) with 64. change (2 ^ 0) with 1.
  splits; Z.div_mod_to_equations; lia.
Qed.

(** ** The encoder *)

Lemma url_encode_loop_exact full tail : (length full mod 3 = 0)%nat -> (length tail < 3)%nat -> Forall u8 full ->
  forall pre fuel sofar rest, zlen (pre ++ full ++ tail) + 3 <= UINT64_MAX ->
  (length (url full) <= length rest)%nat -> (length full < fuel)%nat ->
  url_encode_loop fuel (pre ++ full ++ tail) (zlen (pre ++ full ++ tail)) (sofar ++ rest) (zlen pre) (zlen sofar) =
    Ok (sofar ++ url full ++ drop (length (url full)) rest, zlen (pre ++ full), zlen sofar + zlen (url full)).
Proof.
  intros Hl Ht. revert full Hl. refine (three_ind _ _ _); [|intros a b c l IH]; intros F pre fuel sofar rest Hm Hr Hf;
    (destruct fuel as [|fuel]; [simpl in Hf; lia|]); cbn [url_encode_loop]; pose proof (zlen_nonneg pre); rewrite !zlen_app in *.
  { change (zlen (@nil Z)) with 0 in *. pose proof (zlen_nonneg tail). rewrite wrap64_small by lia. cbn [app].
    replace (zlen pre + 3 <=? _) with false by (unfold zlen in *; lia). cbn [negb url]. simpl.
    change (zlen (@nil Z)) with 0. by rewrite ?app_nil_r, drop_0, !Z.add_0_r. }
  apply Forall_cons in F as [Ha F]. apply Forall_cons in F as [Hb F]. apply Forall_cons in F as [Hc F].
  rewrite !zlen_cons in *. pose proof (zlen_nonneg l). pose proof (zlen_nonneg tail). cbn [app].
  rewrite wrap64_small by lia. replace (zlen pre + 3 <=? _) with true by lia. cbn [negb].
  rewrite load_first, load_second, load_third. step_ok. rewrite url_codes_exact. step_ok. cbn [fmap list_fmap].
  destruct (group_sextets a b c Ha Hb Hc) as (-> & -> & -> & ->). cbn [url app] in Hr. simpl in Hr, Hf.
  rewrite put_all_exact by (simpl; lia). step_ok. set (codes := [ue (a / 4); _; _; _]).
  pose proof (IH F (pre ++ [a; b; c]) fuel (sofar ++ codes) (drop 4 rest)) as E.
  rewrite !zlen_app, <- !app_assoc, length_drop in E. change (zlen codes) with 4 in E. change (zlen [a; b; c]) with 3 in E. cbn [app] in E.
  specialize (E ltac:(lia) ltac:(lia) ltac:(lia)). change (length codes) with 4%nat.
  replace (zlen pre + (1 + (1 + (1 + zlen l)) + zlen tail)) with (zlen pre + 3 + (zlen l + zlen tail)) by lia.
  rewrite E. change (url (a :: b :: c :: l)) with (codes ++ url l). rewrite zlen_app, length_app, drop_drop, <- !app_assoc.
  change (zlen codes) with 4. change (length codes) with 4%nat. do 2 f_equal; [f_equal|]; lia.
Qed.

Lemma url_size x : zlen (url x) = zlen x / 3 * 4 + (if zlen x mod 3 =? 0 then 0 else if zlen x mod 3 =? 1 then 2 else 3).
Proof.
  induction x as [|a|a b|a b c x IH] using triple_ind; [done..|]. cbn [url]. rewrite zlen_app, IH, !zlen_cons.
  change (zlen (@nil Z)) with 0. replace (1 + (1 + (1 + zlen x))) with (zlen x + 1 * 3) by lia.
  rewrite Z.div_add, Z.mod_add by lia. lia.
Qed.

Lemma url_size_model x : zlen (url x) <= SIZE_MAX -> wwBase64UrlEncodedSizeNoPadding (zlen x) = Some (zlen (url x)).
Proof.
  rewrite url_size. unfold wwBase64UrlEncodedSizeNoPadding, SIZE_MAX, UINT64_MAX. intros Hm. pose proof (zlen_nonneg x).
  assert (0 <= zlen x / 3) by (apply Z.div_pos; lia).
  assert (exists r, 0 <= r <= 3 /\ (if zlen x mod 3 =? 0 then 0 else if zlen x mod 3 =? 1 then 2 else 3) = r) as (r & Hr & Er)
    by (eexists; split; [|done]; repeat case_match; lia).
  rewrite Er in *. rewrite (wrap64_small (_ - _)), (wrap64_small (_ * 4)), wrap64_small by (unfold UINT64_MAX; lia).
  replace (_ >? _) with false by (Z.div_mod_to_equations; lia). done.
Qed.

(** The one or two bytes after the groups. *)
Lemma url_tail_exact full tail out : (length tail < 3)%nat -> Forall u8 tail -> zlen (url full) + zlen (url tail) <= zlen out ->
  (if zlen tail =? 1 then
     a ← load8 (full ++ tail) (zlen full); codes ← url_codes (Z.shiftl a 16) [18; 12];
     put_all (url full ++ drop (length (url full)) out) (zlen (url full)) codes
   else if zlen tail =? 2 then
     a ← load8 (full ++ tail) (zlen full); b ← load8 (full ++ tail) (zlen full + 1);
     codes ← url_codes (Z.lor (Z.shiftl a 16) (Z.shiftl b 8)) [18; 12; 6];
     put_all (url full ++ drop (length (url full)) out) (zlen (url full)) codes
   else mret (url full ++ drop (length (url full)) out)) =
  Ok (url full ++ url tail ++ drop (length (url full) + length (url tail)) out).
Proof.
  intros Ht F Ho. pose proof u8_zero as H0. destruct tail as [|a [|b [|? ?]]]; [..|simpl in Ht; lia].
  - by rewrite Nat.add_0_r.
  - apply Forall_cons in F as [Ha _]. change (zlen [a] =? 1) with true. cbn [negb]. rewrite load_first. step_ok. rewrite url_codes_exact. step_ok.
    cbn [fmap list_fmap]. destruct (group_sextets a 0 0 Ha H0 H0) as (E0 & E1 & _).
    change (Z.shiftl 0 8) with 0 in *. rewrite !Z.lor_0_r in *. change (0 / 16) with 0 in E1. rewrite Z.add_0_r in E1.
    rewrite put_all_exact by (rewrite length_drop; unfold zlen in Ho; simpl in *; lia). by rewrite E0, E1, drop_drop.
  - apply Forall_cons in F as [Ha F]. apply Forall_cons in F as [Hb _]. change (zlen [a; b] =? 1) with false. change (zlen [a; b] =? 2) with true.
    rewrite load_first, load_second. step_ok. rewrite url_codes_exact. step_ok.
    cbn [fmap list_fmap]. destruct (group_sextets a b 0 Ha Hb H0) as (E0 & E1 & E2 & _).
    rewrite !Z.lor_0_r in *. change (0 / 64) with 0 in E2. rewrite Z.add_0_r in E2.
    rewrite put_all_exact by (rewrite length_drop; unfold zlen in Ho; simpl in *; lia). by rewrite E0, E1, E2, drop_drop.
Qed.

(** What the encoder leaves: the text, a terminator where there is room, and the rest of the buffer. *)
Definition url_written (x out : list Z) : list Z :=
  url x ++ match drop (length (url x)) out with [] => [] | _ :: rest => 0 :: rest end.

Lemma url_encode_exact x out : Forall u8 x -> zlen x + 3 <= UINT64_MAX -> zlen (url x) <= zlen out -> zlen out <= SIZE_MAX ->
  wwBase64UrlEncodeNoPadding (Some x) (zlen x) (Some out) (zlen out) = Ok (true, zlen (url x), url_written x out).
Proof.
  intros F Hx Ho Hm. unfold wwBase64UrlEncodeNoPadding. cbn [default]. unfold id. rewrite andb_comm. cbn [bool_decide andb orb].
  rewrite url_size_model by lia. replace (zlen out <? zlen (url x)) with false by lia.
  destruct (split_groups x) as (full & tail & -> & Hf & Ht). rewrite Forall_app in F. destruct F as [Ff Ft].
  rewrite url_app in * by done. rewrite !zlen_app in *.
  pose proof (url_encode_loop_exact full tail Hf Ht Ff [] (S (Z.to_nat (zlen full + zlen tail))) [] out) as E.
  cbn [app] in E. rewrite !zlen_app in E. change (zlen (@nil Z)) with 0 in E. cbn [Z.add] in E.
  rewrite E by (unfold zlen in *; lia). clear E. step_ok. rewrite !bool_decide_false by done. cbn [andb orb].
  replace (zlen full + zlen tail - zlen full) with (zlen tail) by lia. cbn [Z.add]. rewrite url_tail_exact by done. step_ok.
  unfold url_written. rewrite url_app, length_app by done. destruct (drop _ out) as [|r rest] eqn:Er.
  - apply (f_equal length) in Er. rewrite length_drop in Er. replace (zlen out >? _) with false by (unfold zlen in *; simpl in Er; lia).
    step_ok. by rewrite !app_nil_r.
  - apply (f_equal length) in Er. rewrite length_drop in Er. replace (zlen out >? _) with true by (unfold zlen in *; simpl in Er; lia).
    rewrite <- zlen_app, app_assoc, put_exact. step_ok. by rewrite <- app_assoc.
Qed.

(** ** The decoder *)

Lemma url_value_at pre v l : 0 <= v < 64 -> url_value (pre ++ ue v :: l) (zlen pre) = Ok v.
Proof. intros Hv. unfold url_value. rewrite load_first. step_ok. by destruct (url_char v Hv) as [-> _]. Qed.

(** The bytes of a group, as the decoder computes them. *)
Lemma url_bytes c0 c1 c2 c3 : 0 <= c0 < 64 -> 0 <= c1 < 64 -> 0 <= c2 < 64 -> 0 <= c3 < 64 ->
  url_byte0 c0 c1 = first_byte c0 c1 /\ url_byte1 c1 c2 = second_byte c1 c2 /\ url_byte2 c2 c3 = third_byte c2 c3.
Proof.
  intros. unfold url_byte0, url_byte1, url_byte2, first_byte, second_byte, third_byte.
  change 0x3 with (Z.ones 2). change 0xF with (Z.ones 4). rewrite !land_mask by lia. rewrite !Z.shiftr_div_pow2 by lia.
  change (2 ^ 2) with 4. change (2 ^ 4) with 16.
  rewrite (Z.mod_small (c1 / 16)), (Z.mod_small (c2 / 4)) by (Z.div_mod_to_equations; lia). done.
Qed.

Lemma url_decode_loop_exact full : (length full mod 3 = 0)%nat -> Forall u8 full ->
  forall pre suf sofar rest, (length full <= length rest)%nat ->
  url_decode_loop (length full / 3) (pre ++ url full ++ suf) (sofar ++ rest) (zlen pre) (zlen sofar) =
    Ok (true, sofar ++ full ++ drop (length full) rest).
Proof.
  revert full. refine (three_ind _ _ _); [by intros; rewrite drop_0|]. intros a b c l IH F pre suf sofar rest Hr.
  change (length (a :: b :: c :: l)) with (1 * 3 + length l)%nat in *. rewrite Nat.add_comm, Nat.div_add by lia.
  rewrite Nat.add_1_r. cbn [url_decode_loop url app]. apply Forall_cons in F as [Ha F]. apply Forall_cons in F as [Hb F]. apply Forall_cons in F as [Hc F].
  destruct (sextets_range a b c Ha Hb Hc) as (R0 & R1 & R2 & R3 & _). unfold url_value.
  rewrite load_first, load_second, load_third, load_fourth. step_ok.
  rewrite (proj1 (url_char _ R0)), (proj1 (url_char _ R1)), (proj1 (url_char _ R2)), (proj1 (url_char _ R3)).
  rewrite !(proj2 (Z.ltb_ge _ _)) by lia. cbn [orb]. rewrite put_all_exact by (simpl; lia). step_ok.
  destruct (url_bytes _ _ _ _ R0 R1 R2 R3) as (-> & -> & ->). destruct (bytes_back a b c Ha Hb Hc) as (-> & -> & ->).
  set (codes := [ue (a / 4); ue (a mod 4 * 16 + b / 16); ue (b mod 16 * 4 + c / 64); ue (c mod 64)]).
  pose proof (IH F (pre ++ codes) suf (sofar ++ [a; b; c]) (drop 3 rest)) as E. rewrite !zlen_app, <- !app_assoc, length_drop in E.
  change (length [a; b; c]) with 3%nat. cbn [app]. change (zlen codes) with 4 in E. change (zlen [a; b; c]) with 3 in E.
  etrans; [apply E; lia|]. rewrite drop_drop. by replace (length l + 1 * 3)%nat with (3 + length l)%nat by lia.
Qed.

Lemma url_not_pad x : Forall u8 x -> Forall (fun c => c <> BASE64_PAD) (url x).
Proof.
  pose proof u8_zero as H0. induction x as [|a|a b|a b c x IH] using triple_ind; intros F; [done|..]; rewrite !Forall_cons in F; cbn [url].
  - destruct F as [Ha _]. destruct (sextets_range a 0 0 Ha H0 H0) as (R0 & _ & _ & _ & R1 & _). repeat constructor; by apply url_char.
  - destruct F as (Ha & Hb & _). destruct (sextets_range a b 0 Ha Hb H0) as (R0 & R1 & _ & _ & _ & R2). repeat constructor; by apply url_char.
  - destruct F as (Ha & Hb & Hc & F). destruct (sextets_range a b c Ha Hb Hc) as (R0 & R1 & R2 & R3 & _).
    apply Forall_app. split; [repeat constructor; by apply url_char|by apply IH].
Qed.

Lemma inner_pad_exact l : Forall (fun c => c <> BASE64_PAD) l -> forall pre suf fuel, (length l < fuel)%nat ->
  inner_pad_loop fuel (pre ++ l ++ suf) (zlen pre + zlen l) (zlen pre) = Ok false.
Proof.
  induction l as [|c l IH]; intros F pre suf fuel Hf; (destruct fuel as [|fuel]; [simpl in Hf; lia|]); cbn [inner_pad_loop].
  { change (zlen (@nil Z)) with 0. by rewrite Z.add_0_r, Z.ltb_irrefl. }
  apply Forall_cons in F as [Hc F]. rewrite zlen_cons. pose proof (zlen_nonneg l). replace (zlen pre <? _) with true by lia. cbn [negb app].
  rewrite load_first. step_ok. rewrite (proj2 (Z.eqb_neq _ _) Hc). specialize (IH F (pre ++ [c]) suf fuel ltac:(simpl in Hf; lia)).
  rewrite zlen_app, <- app_assoc in IH. change (zlen [c]) with 1 in IH. by replace (zlen pre + (1 + zlen l)) with (zlen pre + 1 + zlen l) by lia.
Qed.

(** [k] pads end the text; [j] of them are counted. *)
Lemma pad_loop_exact l c k : c <> BASE64_PAD -> forall d j fuel, (j + d = k)%nat -> (d < fuel)%nat ->
  pad_loop fuel (l ++ c :: replicate k BASE64_PAD) (zlen l + 1 + Z.of_nat k) (Z.of_nat j) = Ok (Z.of_nat k).
Proof.
  intros Hc. pose proof (zlen_nonneg l). induction d as [|d IH]; intros j fuel Hj Hf; (destruct fuel as [|fuel]; [lia|]); cbn [pad_loop];
    rewrite (proj2 (Z.ltb_lt _ _)) by lia; cbn [negb].
  { replace (zlen l + 1 + Z.of_nat k - 1 - Z.of_nat j) with (zlen l) by lia. rewrite load_first. step_ok.
    rewrite (proj2 (Z.eqb_neq _ _) Hc). f_equal. lia. }
  assert (load8 (l ++ c :: replicate k BASE64_PAD) (zlen l + 1 + Z.of_nat k - 1 - Z.of_nat j) = Ok BASE64_PAD) as ->.
  { pose proof (load_first (l ++ c :: replicate d BASE64_PAD) BASE64_PAD (replicate j BASE64_PAD)) as E.
    rewrite <- app_assoc in E. cbn [app] in E. change (BASE64_PAD :: replicate j BASE64_PAD) with (replicate (S j) BASE64_PAD) in E.
    rewrite <- replicate_add in E. replace (d + S j)%nat with k in E by lia. rewrite <- E. f_equal.
    rewrite zlen_app, zlen_cons. unfold zlen. rewrite length_replicate. lia. }
  step_ok. rewrite Z.eqb_refl. replace (Z.of_nat j + 1) with (Z.of_nat (S j)) by lia. apply IH; lia.
Qed.

(** The characters after the last whole group. *)
Lemma url_rest_exact full tail suf out : (length tail < 3)%nat -> Forall u8 tail -> (length full + length tail <= length out)%nat ->
  let text := url full ++ url tail ++ suf in
  let n := zlen full + zlen tail in
  (if zlen (url tail) =? 2 then
     c0 ← url_value text (zlen (url full)); c1 ← url_value text (zlen (url full) + 1);
     if (c0 <? 0) || (c1 <? 0) then mret (false, 0, full ++ drop (length full) out)
     else buffer ← put_all (full ++ drop (length full) out) (zlen full) [url_byte0 c0 c1]; mret (true, n, buffer)
   else if zlen (url tail) =? 3 then
     c0 ← url_value text (zlen (url full)); c1 ← url_value text (zlen (url full) + 1); c2 ← url_value text (zlen (url full) + 2);
     if (c0 <? 0) || (c1 <? 0) || (c2 <? 0) then mret (false, 0, full ++ drop (length full) out)
     else buffer ← put_all (full ++ drop (length full) out) (zlen full) [url_byte0 c0 c1; url_byte1 c1 c2]; mret (true, n, buffer)
   else mret (true, n, full ++ drop (length full) out)) =
  Ok (true, n, full ++ tail ++ drop (length full + length tail) out).
Proof.
  intros Ht F Ho text n. pose proof u8_zero as H0. subst text. destruct tail as [|a [|b [|? ?]]]; [..|simpl in Ht; lia].
  - by rewrite Nat.add_0_r.
  - apply Forall_cons in F as [Ha _]. destruct (sextets_range a 0 0 Ha H0 H0) as (R0 & _ & _ & _ & R1 & _).
    destruct (bytes_back a 0 0 Ha H0 H0) as (E & _). change (0 / 16) with 0 in E. rewrite Z.add_0_r in E.
    change (zlen (url [a]) =? 2) with true. cbn [url app]. unfold url_value. rewrite load_first, load_second. step_ok.
    rewrite (proj1 (url_char _ R0)), (proj1 (url_char _ R1)), !(proj2 (Z.ltb_ge _ _)) by lia. cbn [orb].
    destruct (url_bytes _ _ _ _ R0 R1 R1 R1) as (-> & _). rewrite E, put_all_exact by (rewrite length_drop; simpl in *; lia). step_ok.
    by rewrite drop_drop.
  - apply Forall_cons in F as [Ha F]. apply Forall_cons in F as [Hb _]. destruct (sextets_range a b 0 Ha Hb H0) as (R0 & R1 & _ & _ & _ & R2).
    destruct (bytes_back a b 0 Ha Hb H0) as (E & E' & _). change (0 / 64) with 0 in E'. rewrite Z.add_0_r in E'.
    change (zlen (url [a; b]) =? 2) with false. change (zlen (url [a; b]) =? 3) with true. cbn [url app].
    unfold url_value. rewrite load_first, load_second, load_third. step_ok.
    rewrite (proj1 (url_char _ R0)), (proj1 (url_char _ R1)), (proj1 (url_char _ R2)), !(proj2 (Z.ltb_ge _ _)) by lia. cbn [orb].
    destruct (url_bytes _ _ _ _ R0 R1 R2 R1) as (-> & -> & _). rewrite E, E', put_all_exact by (rewrite length_drop; simpl in *; lia). step_ok.
    by rewrite drop_drop.
Qed.

(** Sizes of the parts of a text, as the decoder computes them. *)
Lemma url_sizes full tail : (length full mod 3 = 0)%nat -> (length tail < 3)%nat ->
  (zlen (url full) + zlen (url tail)) mod 4 = zlen (url tail) /\ (zlen (url full) + zlen (url tail)) / 4 = zlen full / 3 /\
  zlen (url full) = zlen full / 3 * 4 /\ zlen full = zlen full / 3 * 3 /\ zlen (url tail) <> 1 /\ 0 <= zlen (url tail) < 4 /\
  zlen tail = (if zlen (url tail) =? 2 then 1 else if zlen (url tail) =? 3 then 2 else 0).
Proof.
  intros Hf Ht. assert (zlen full mod 3 = 0) as Hz by (unfold zlen; change 3 with (Z.of_nat 3); rewrite <- Nat2Z.inj_mod; lia).
  pose proof (url_size full) as Ef. rewrite Hz in Ef. cbn [Z.eqb] in Ef.
  assert (exists k, zlen (url tail) = k /\ 0 <= k < 4 /\ k <> 1 /\ zlen tail = (if k =? 2 then 1 else if k =? 3 then 2 else 0)) as (k & -> & Hk & H1 & ->).
  { destruct tail as [|a [|b [|? ?]]]; [exists 0|exists 2|exists 3|simpl in Ht; lia]; splits; try done; lia. }
  rewrite Ef. splits; try done; Z.div_mod_to_equations; lia.
Qed.

Lemma pads_counted x k fuel : Forall u8 x -> x <> [] -> (k < fuel)%nat ->
  pad_loop fuel (url x ++ replicate k BASE64_PAD) (zlen (url x) + Z.of_nat k) 0 = Ok (Z.of_nat k) /\ 0 < zlen (url x).
Proof.
  intros F Hx Hf. destruct (exists_last (l := url x)) as (l & c & E); [by destruct x as [|? [|? [|? ?]]]|].
  pose proof (url_not_pad x F) as Fp. rewrite E, Forall_app, Forall_singleton in Fp. destruct Fp as [_ Hc].
  rewrite E, zlen_app, <- app_assoc. change (zlen [c]) with 1. pose proof (zlen_nonneg l). split; [|lia].
  apply (pad_loop_exact l c k Hc k 0); lia.
Qed.

Lemma url_decode_exact x k out : Forall u8 x -> zlen x <= zlen out ->
  k = 0%nat \/ ((k <= 2)%nat /\ (zlen (url x) + Z.of_nat k) mod 4 = 0) ->
  let s := url x ++ replicate k BASE64_PAD in
  wwBase64UrlDecode (Some s) (zlen s) (Some out) (zlen out) = Ok (true, zlen x, x ++ drop (length x) out).
Proof.
  intros F Ho Hk s. unfold wwBase64UrlDecode. cbn [default]. unfold id. rewrite !bool_decide_false by done. rewrite andb_false_r. cbn [orb].
  assert (zlen s = zlen (url x) + Z.of_nat k) as Es by (subst s; rewrite zlen_app; unfold zlen; by rewrite length_replicate).
  destruct (decide (x = [])) as [->|Hx].
  { assert (k = 0%nat) as -> by (change (zlen (url [])) with 0 in Hk; destruct Hk as [->|[? Hk]]; [done|]; Z.div_mod_to_equations; lia).
    by destruct out. }
  rewrite Es. destruct (pads_counted x k (S (Z.to_nat (zlen (url x) + Z.of_nat k))) F Hx) as [Ep Hn]; [pose proof (zlen_nonneg (url x)); lia|].
  rewrite (proj2 (Z.eqb_neq _ 0)) by lia. fold s in Ep. rewrite Ep. clear Ep. step_ok.
  replace (Z.of_nat k >? 2) with false by lia. replace (zlen (url x) + Z.of_nat k - Z.of_nat k) with (zlen (url x)) by lia.
  rewrite (inner_pad_exact (url x) (url_not_pad x F) [] (replicate k BASE64_PAD)) by (unfold zlen; lia). step_ok.
  destruct (split_groups x) as (full & tail & -> & Hf & Ht). rewrite Forall_app in F. destruct F as [Ff Ft].
  rewrite url_app, !zlen_app in * by done. destruct (url_sizes full tail Hf Ht) as (M & D & E4 & E3 & N1 & R & Et). rewrite M, D.
  replace ((Z.of_nat k >? 0) && _) with false by (symmetry; apply andb_false_iff; destruct Hk as [->|[Hk Hz]]; [by left|right];
    rewrite Hz; cbn [Z.eqb negb orb]; Z.div_mod_to_equations; lia).
  rewrite (proj2 (Z.eqb_neq _ 1) N1), <- Et, <- E3. rewrite (proj2 (Z.ltb_ge _ _)) by lia. subst s. rewrite url_app, <- app_assoc by done.
  pose proof (url_decode_loop_exact full Hf Ff [] (url tail ++ replicate k BASE64_PAD) [] out) as E. cbn [app] in E. change (zlen (@nil Z)) with 0 in E.
  replace (Z.to_nat (zlen full / 3)) with (length full / 3)%nat by (unfold zlen; change 3 with (Z.of_nat 3); rewrite <- Nat2Z.inj_div; lia).
  rewrite E by (unfold zlen in Ho; lia). step_ok. cbn [negb]. rewrite <- E4, length_app, <- app_assoc.
  apply url_rest_exact; [done|done|unfold zlen in Ho; lia].
Qed.

Lemma url_size_some x n : wwBase64UrlEncodedSizeNoPadding (zlen x) = Some n -> zlen x <= SIZE_MAX ->
  n = zlen (url x) /\ zlen (url x) <= SIZE_MAX /\ zlen x + 3 <= UINT64_MAX.
Proof.
  rewrite url_size. unfold wwBase64UrlEncodedSizeNoPadding, SIZE_MAX, UINT64_MAX. pose proof (zlen_nonneg x).
  assert (exists r, 0 <= r <= 3 /\ (if zlen x mod 3 =? 0 then 0 else if zlen x mod 3 =? 1 then 2 else 3) = r) as (r & Hr & ->)
    by (eexists; split; [|done]; repeat case_match; lia).
  intros E Hx. rewrite (wrap64_small (_ - _)) in E by (unfold UINT64_MAX; lia). destruct (_ >? _) eqn:Eg; [done|]. injection E as <-.
  assert (0 <= zlen x / 3 /\ zlen x / 3 * 4 + r <= 18446744073709551615) as [? ?] by (split; Z.div_mod_to_equations; lia).
  rewrite (wrap64_small (_ * 4)), wrap64_small by (unfold UINT64_MAX; lia). splits; [done|lia|Z.div_mod_to_equations; lia].
Qed.

(** The URL codec round-trips.  [wwBase64UrlEncodeNoPadding] into a buffer of the size
    [wwBase64UrlEncodedSizeNoPadding] announces succeeds with exactly that many characters; [wwBase64UrlDecode] of
    them into a buffer with room for the bytes returns the bytes, their number and an untouched rest, both without
    padding and with the one or two pads that fill up the last group. *)
Theorem base64_url_roundtrip x text out n k : Forall u8 x -> zlen x <= SIZE_MAX ->
  wwBase64UrlEncodedSizeNoPadding (zlen x) = Some n -> n <= zlen text <= SIZE_MAX -> zlen x <= zlen out ->
  k = 0%nat \/ ((k <= 2)%nat /\ (n + Z.of_nat k) mod 4 = 0) ->
  exists text', wwBase64UrlEncodeNoPadding (Some x) (zlen x) (Some text) (zlen text) = Ok (true, n, text') /\
    let s := take (Z.to_nat n) text' ++ replicate k BASE64_PAD in
    wwBase64UrlDecode (Some s) (zlen s) (Some out) (zlen out) = Ok (true, zlen x, x ++ drop (length x) out).
Proof.
  intros F Hx En Ht Ho Hk. destruct (url_size_some x n En Hx) as (-> & Hu & H3). rewrite url_encode_exact by (done || lia).
  eexists. split; [done|]. cbv zeta. unfold url_written.
  assert (take (Z.to_nat (zlen (url x))) (url x ++ match drop (length (url x)) text with [] => [] | _ :: rest => 0 :: rest end) = url x) as ->
    by (unfold zlen; by rewrite Nat2Z.id, take_app_length).
  by apply url_decode_exact.
Qed.

(** The bytes 0xFB 0xFF 0xBE 0x3F, whose text uses both special characters, with two pads. *)
Lemma base64_url_roundtrip_witness :
  exists text', wwBase64UrlEncodeNoPadding (Some [251; 255; 190; 63]) 4 (Some (repeat 1 8)) 8 = Ok (true, 6, text') /\
    let s := take (Z.to_nat 6) text' ++ replicate 2 BASE64_PAD in
    wwBase64UrlDecode (Some s) (zlen s) (Some (repeat 9 5)) 5 = Ok (true, 4, [251; 255; 190; 63; 9]).
Proof.
  apply (base64_url_roundtrip [251; 255; 190; 63] (repeat 1 8) (repeat 9 5) 6 2); try done; [repeat constructor; discriminate|].
  right. split; [lia|done].
Defined.
