(* ===== verification/PacketStream.v ===== *)
(** * IPv4 packets over a byte stream ([tunnels/Internals/Ipv4StreamCodec])

    A carrier connection transports IPv4 packets as a raw concatenation; the
    receiver finds the boundaries with the total length of each header
    ([codec.c]).  Bytes that cannot start a packet are skipped.  Delivering a
    packet is a callback that can hand further bytes to the same receiver:
    these nested deliveries wait in a bounded queue ([input.c]).

    The stream, its pool and the queue are those of [BufferStream],
    [PoolInterface] and [BufferQueue].  The budget of the queue is a field of the
    input: a pointer to it is the index 0 in the list of that one budget.
    [IP_HLEN] is the size of an IPv4 header without options. *)

From Stdlib Require Import ZArith Lia.
From stdpp Require Import base numbers option list.
From S2P Require Import Prelude ShiftBuffer PoolInterface Endian BufferStream BufferQueue PacketView.
Open Scope Z_scope.
Open Scope word_scope.

Definition kMaxAllowedPacketLength : Z := 1500.
Definition kResyncScanWindow : Z := 256.

Definition kIpv4StreamNestedBytes : Z := 128 * 1024.
Definition kIpv4StreamNestedCharge : Z := 2 * 1024 * 1024.
Definition kIpv4StreamIncompleteCharge : Z := 128 * 1024.

(** ** Finding packets *)

(** The returned flag and [*total_len_out]. *)
Definition ipv4streamIpv4HeaderLooksValid (header : list Z) : outcome (bool * Z) :=
  b0 ← load8 header 0;
  b2 ← load8 header 2;
  b3 ← load8 header 3;
  let version := wrap8 (Z.shiftr b0 4) in
  let header_len := wrap8 (Z.land b0 0x0F * 4) in
  let total_len := wrap16 (Z.lor (wrap16 (Z.shiftl b2 8)) b3) in
  mret ((version =? 4) && (header_len >=? IP_HLEN) && (total_len >=? header_len) &&
        (total_len <=? wrap16 kMaxAllowedPacketLength), total_len).

(** [for (i = 1; i + IP_HLEN <= window; ++i)]: the value of [found]. *)
Fixpoint resync_loop (fuel : nat) (scan : list Z) (window i : Z) : outcome Z :=
  match fuel with
  | O => Fail NotModelled
  | S fuel' =>
      if negb (i + IP_HLEN <=? window) then mret 0
      else
        '(valid, _) ← ipv4streamIpv4HeaderLooksValid (drop (Z.to_nat i) scan);
        if (valid : bool) then mret i else resync_loop fuel' scan window (i + 1)
  end.

Definition ipv4streamIsForwardablePacket (packet : sbuf_t) : outcome bool :=
  _ ← assert_ (negb (sbufIsSplice packet));
  let len := sbufGetLength packet in
  if (len <? IP_HLEN) || (len >? kMaxAllowedPacketLength) then mret false
  else
    bytes ← read_at packet 0 len;
    '(valid, total_len) ← ipv4streamIpv4HeaderLooksValid bytes;
    mret (valid && (total_len =? len)).

Section Operations.
Context `{Allocator} {P : Type} `{PoolOps P}.
Implicit Types (stream : buffer_stream_t) (pool : P).

Definition ipv4streamDropResyncBytes stream pool : outcome (buffer_stream_t * P) :=
  let buffered := bufferstreamGetBufLen stream in
  let window := if buffered <? kResyncScanWindow then buffered else kResyncScanWindow in
  scan ← bufferstreamViewBytesAt stream 0 window;
  found ← resync_loop (S (Z.to_nat window)) scan window 1;
  let drop := if found >? 0 then found else window -64 (IP_HLEN - 1) in
  '(dropped, stream, pool) ← bufferstreamReadExact stream pool drop;
  pool ← pool_reuse pool dropped;
  mret (stream, pool).

(** [None] where the code returns false.  Each turn that does not return drops
    a byte or more. *)
Fixpoint try_read_loop (fuel : nat) stream pool : outcome (option sbuf_t * buffer_stream_t * P) :=
  match fuel with
  | O => Fail NotModelled
  | S fuel' =>
      let buffered := bufferstreamGetBufLen stream in
      if buffered <? IP_HLEN then mret (None, stream, pool)
      else
        header ← bufferstreamViewBytesAt stream 0 IP_HLEN;
        '(valid, total_len) ← ipv4streamIpv4HeaderLooksValid header;
        if (valid : bool) then
          if buffered <? total_len then mret (None, stream, pool)
          else
            '(packet, stream, pool) ← bufferstreamReadExact stream pool total_len;
            mret (Some packet, stream, pool)
        else
          '(stream, pool) ← ipv4streamDropResyncBytes stream pool;
          try_read_loop fuel' stream pool
  end.

Definition ipv4streamTryReadPacket stream pool : outcome (option sbuf_t * buffer_stream_t * P) :=
  try_read_loop (S (Z.to_nat (bufferstreamGetBufLen stream))) stream pool.
End Operations.

(** ** Deliveries *)

Record ipv4stream_input_t : Type := mk_input {
  pending : buffer_queue_t;
  in_budget : buffer_budget_t;
  active : buffer_budget_reservation_t;
  draining : bool
}.

Inductive ipv4stream_input_result_t : Set :=
  | kIpv4StreamInputDrain
  | kIpv4StreamInputQueued
  | kIpv4StreamInputEmpty
  | kIpv4StreamInputRejected.

(** The budget the pointers of the input lead to. *)
Definition own_budget (bs : list buffer_budget_t) : outcome buffer_budget_t :=
  match bs with [x] => mret x | _ => Fail MemoryFault end.

Definition ipv4streamInputInit : outcome ipv4stream_input_t :=
  let pending := bufferqueueInitEmpty in
  let budget := bufferbudgetInit (mk_cost kIpv4StreamNestedBytes kIpv4StreamNestedCharge) in
  '(attached, bs, pending) ← bufferqueueTryAttachBudget [budget] pending 0;
  _ ← assert_ attached;
  budget ← own_budget bs;
  mret (mk_input pending budget empty_reservation false).

Section Input.
Context `{Allocator} {P : Type} `{PoolOps P} (deque_reserve : Z -> bool).
Implicit Types (input : ipv4stream_input_t) (stream : buffer_stream_t) (pool : P).

Definition ipv4streamInputDestroy input pool : outcome (ipv4stream_input_t * P) :=
  '(bs, pending, pool) ← bufferqueueDestroy [in_budget input] (pending input) pool;
  '(bs, active) ← bufferbudgetReservationRelease bs (active input);
  budget ← own_budget bs;
  _ ← bufferbudgetAssertEmpty budget;
  mret (mk_input pending budget active false, pool).

Definition ipv4streamInputReset input pool : outcome (ipv4stream_input_t * P) :=
  '(_, pool) ← ipv4streamInputDestroy input pool;
  input ← ipv4streamInputInit;
  mret (input, pool).

Definition ipv4streamInputAdmit input stream pool (b : sbuf_t)
  : outcome (ipv4stream_input_result_t * ipv4stream_input_t * buffer_stream_t * P) :=
  _ ← assert_ (negb (sbufIsSplice b));
  if sbufGetLength b =? 0 then
    pool ← pool_reuse pool b;
    mret (kIpv4StreamInputEmpty, input, stream, pool)
  else if draining input then
    '(pushed, bs, pending, _) ← bufferqueueTryPushBack deque_reserve [in_budget input] (pending input) b;
    budget ← own_budget bs;
    mret (if (pushed : bool) then kIpv4StreamInputQueued else kIpv4StreamInputRejected,
          mk_input pending budget (active input) (draining input), stream, pool)
  else
    _ ← assert_ ((bufferqueueGetBufCount (pending input) =? 0) && bool_decide (r_budget (active input) = None));
    if bufferstreamGetBufLen stream >? UINT32_MAX - sbufGetLength b then
      mret (kIpv4StreamInputRejected, input, stream, pool)
    else
      let input := mk_input (pending input) (in_budget input) (active input) true in
      '(stream, pool) ← bufferstreamPush stream pool b;
      mret (kIpv4StreamInputDrain, input, stream, pool).

Definition ipv4streamInputAdvance input stream pool
  : outcome (bool * ipv4stream_input_t * buffer_stream_t * P) :=
  _ ← assert_ (draining input);
  _ ← assert_ (bufferstreamGetBufLen stream <? kMaxAllowedPacketLength);
  '(settled, stream, pool) ← bufferstreamSettleRetained stream pool kIpv4StreamIncompleteCharge;
  _ ← assert_ settled;
  '(bs, active) ← bufferbudgetReservationRelease [in_budget input] (active input);
  '(next, bs, pending, active') ← bufferqueuePopFrontReserved bs (pending input) active;
  let active := default active active' in
  budget ← own_budget bs;
  match next with
  | Some next =>
      '(stream, pool) ← bufferstreamPush stream pool next;
      mret (true, mk_input pending budget active (draining input), stream, pool)
  | None => mret (false, mk_input pending budget active false, stream, pool)
  end.
End Input.
