(* ===== verification/PacketFrames.v ===== *)
(** * The packets of a byte sequence

    [frames] reads a byte sequence one byte at a time: it skips what cannot
    start a packet, cuts out the packets that are complete and keeps the rest.
    It does not depend on how the bytes arrive ([frames_app]).  The extractor of
    [PacketStream], which scans windows of a buffered stream, computes it
    ([try_read_frames]). *)

From Stdlib Require Import ZArith Lia.
From stdpp Require Import base numbers option list.
From S2P Require Import Prelude ShiftBuffer PoolInterface Endian BufferStream PacketView PacketStream.
Open Scope Z_scope.
Open Scope word_scope.

(** ** The reference *)

(** The fields of a header that decide where a packet ends. *)
Definition head_total (l : list Z) : Z := byte_at l 2 * 256 + byte_at l 3.
Definition plausible (l : list Z) : bool :=
  let header_len := byte_at l 0 mod 16 * 4 in
  (byte_at l 0 / 16 =? 4) && (header_len >=? IP_HLEN) && (head_total l >=? header_len) &&
  (head_total l <=? kMaxAllowedPacketLength).

Fixpoint frames_loop (fuel : nat) (l : list Z) : list (list Z) * list Z :=
  match fuel with
  | O => ([], l)
  | S fuel' =>
      if zlen l <? IP_HLEN then ([], l)
      else if plausible l then
        if zlen l <? head_total l then ([], l)
        else
          let n := Z.to_nat (head_total l) in
          let '(packets, rest) := frames_loop fuel' (drop n l) in
          (take n l :: packets, rest)
      else frames_loop fuel' (drop 1 l)
  end.
Definition frames (l : list Z) : list (list Z) * list Z := frames_loop (S (length l)) l.

Lemma plausible_total l : plausible l = true -> IP_HLEN <= head_total l <= kMaxAllowedPacketLength.
Proof. unfold plausible. intros H. bool_facts. lia. Qed.

(** Enough fuel is enough. *)
Lemma frames_fuel n : forall m l, (length l < n)%nat -> (length l < m)%nat -> frames_loop n l = frames_loop m l.
Proof.
  induction n as [|n IH]; intros m l Hn Hm; [lia|]. destruct m as [|m]; [lia|]. cbn [frames_loop].
  destruct (zlen l <? IP_HLEN) eqn:E0; [done|]. unfold IP_HLEN, zlen in E0.
  destruct (plausible l) eqn:Ep.
  - destruct (zlen l <? head_total l) eqn:Et; [done|]. apply plausible_total in Ep. unfold IP_HLEN in Ep.
    rewrite (IH m (drop _ l)) by (rewrite length_drop; lia). done.
  - apply IH; rewrite length_drop; lia.
Qed.

(** The equation of the reference. *)
Lemma frames_eq l :
  frames l =
    if zlen l <? IP_HLEN then ([], l)
    else if plausible l then
      if zlen l <? head_total l then ([], l)
      else
        let n := Z.to_nat (head_total l) in
        let '(packets, rest) := frames (drop n l) in (take n l :: packets, rest)
    else frames (drop 1 l).
Proof.
  unfold frames at 1. cbn [frames_loop]. destruct (zlen l <? IP_HLEN) eqn:E0; [done|]. unfold IP_HLEN, zlen in E0.
  destruct (plausible l) eqn:Ep.
  - destruct (zlen l <? head_total l) eqn:Et; [done|]. apply plausible_total in Ep. unfold IP_HLEN in Ep. unfold frames. cbv zeta.
    rewrite (frames_fuel (length l) (S (length (drop (Z.to_nat (head_total l)) l)))) by (rewrite length_drop; lia). done.
  - apply frames_fuel; rewrite length_drop; lia.
Qed.

(** Bytes that wait for more. *)
Definition incomplete (l : list Z) : Prop := zlen l < IP_HLEN \/ (plausible l = true /\ zlen l < head_total l).

Lemma frames_incomplete l : incomplete l -> frames l = ([], l).
Proof.
  intros H. rewrite frames_eq. destruct (zlen l <? IP_HLEN) eqn:E; [done|]. bool_facts.
  destruct H as [?|[-> ?]]; [lia|]. by rewrite (proj2 (Z.ltb_lt _ _)) by lia.
Qed.

Lemma frames_packet l : IP_HLEN <= zlen l -> plausible l = true -> head_total l <= zlen l ->
  let n := Z.to_nat (head_total l) in
  frames l = (take n l :: fst (frames (drop n l)), snd (frames (drop n l))).
Proof.
  intros H0 Hp Ht n. rewrite frames_eq, (proj2 (Z.ltb_ge _ _) H0), Hp, (proj2 (Z.ltb_ge _ _) Ht). cbv zeta.
  fold n. by destruct (frames (drop n l)).
Qed.

Lemma frames_skip l : IP_HLEN <= zlen l -> plausible l = false -> frames l = frames (drop 1 l).
Proof. intros H0 Hp. by rewrite frames_eq, (proj2 (Z.ltb_ge _ _) H0), Hp. Qed.

(** Induction along the reference. *)
Lemma frames_ind (Q : list Z -> Prop) :
  (forall l, incomplete l -> Q l) ->
  (forall l, IP_HLEN <= zlen l -> plausible l = true -> head_total l <= zlen l ->
     Q (drop (Z.to_nat (head_total l)) l) -> Q l) ->
  (forall l, IP_HLEN <= zlen l -> plausible l = false -> Q (drop 1 l) -> Q l) ->
  forall l, Q l.
Proof.
  intros H1 H2 H3 l. remember (length l) as n eqn:En. revert l En.
  induction (lt_wf n) as [n _ IH]. intros l ->.
  destruct (decide (zlen l < IP_HLEN)) as [?|Hl]; [apply H1; by left|]. apply Z.nlt_ge in Hl. pose proof Hl as Hl'.
  unfold zlen, IP_HLEN in Hl'. destruct (plausible l) eqn:Ep.
  - destruct (decide (zlen l < head_total l)) as [?|Ht]; [apply H1; by right|]. pose proof (plausible_total l Ep) as Hp.
    unfold IP_HLEN in Hp. apply H2; [done|done|lia|]. eapply IH; [|done]. rewrite length_drop. lia.
  - apply H3; [done|done|]. eapply IH; [|done]. rewrite length_drop. lia.
Qed.

(** ** Independence of the arrival *)

Lemma byte_at_front l m i : 0 <= i < zlen l -> byte_at (l ++ m) i = byte_at l i.
Proof. intros Hi. unfold byte_at, zlen in *. apply app_nth1. lia. Qed.

Lemma head_app l m : IP_HLEN <= zlen l -> plausible (l ++ m) = plausible l /\ head_total (l ++ m) = head_total l.
Proof.
  unfold IP_HLEN. intros H. assert (head_total (l ++ m) = head_total l) as E
    by (unfold head_total; by rewrite !byte_at_front by lia).
  split; [|done]. unfold plausible. rewrite E. by rewrite !byte_at_front by lia.
Qed.

Lemma frames_app l m :
  frames (l ++ m) = (fst (frames l) ++ fst (frames (snd (frames l) ++ m)), snd (frames (snd (frames l) ++ m))).
Proof.
  induction l as [l H|l H0 Hp Ht IH|l H0 Hp IH] using frames_ind.
  - rewrite (frames_incomplete l H). simpl. by destruct (frames (l ++ m)).
  - destruct (head_app l m H0) as [Ep Et]. pose proof (zlen_nonneg m).
    rewrite (frames_packet (l ++ m)), (frames_packet l); rewrite ?Ep, ?Et, ?zlen_app; try done; try lia. cbn [fst snd].
    unfold zlen in Ht. rewrite take_app_le, drop_app_le, IH by lia. done.
  - destruct (head_app l m H0) as [Ep _]. pose proof (zlen_nonneg m).
    rewrite (frames_skip (l ++ m)), (frames_skip l); rewrite ?Ep, ?zlen_app; try done; try lia.
    unfold zlen, IP_HLEN in H0. by rewrite drop_app_le by lia.
Qed.

(** What is left waits for more bytes. *)
Lemma frames_rest l : incomplete (snd (frames l)).
Proof.
  induction l as [l H|l H0 Hp Ht IH|l H0 Hp IH] using frames_ind.
  - by rewrite frames_incomplete.
  - by rewrite frames_packet.
  - by rewrite frames_skip.
Qed.

Lemma incomplete_short l : incomplete l -> zlen l < kMaxAllowedPacketLength.
Proof. intros [H|[Hp H]]; [|apply plausible_total in Hp]; unfold IP_HLEN, kMaxAllowedPacketLength in *; lia. Qed.

(** A sequence of packets as a sender emits them. *)
Definition packet (p : list Z) : Prop := IP_HLEN <= zlen p /\ plausible p = true /\ head_total p = zlen p.

Lemma frames_concat ps l : Forall packet ps -> frames (mjoin ps ++ l) = (ps ++ fst (frames l), snd (frames l)).
Proof.
  induction 1 as [|p ps (H0 & Hp & Ht) _ IH]; [apply surjective_pairing|]. change (mjoin (p :: ps)) with (p ++ mjoin ps). rewrite <- app_assoc.
  destruct (head_app p (mjoin ps ++ l) H0) as [Ep Et]. pose proof (zlen_nonneg (mjoin ps)). pose proof (zlen_nonneg l).
  rewrite frames_packet; rewrite ?Ep, ?Et, ?zlen_app; try done; try lia. rewrite Ht. unfold zlen.
  rewrite Nat2Z.id, take_app_length, drop_app_length. by rewrite IH.
Qed.

(** Skipping a run of positions that cannot start a packet. *)
Lemma frames_skip_run k : forall l, Z.of_nat k + IP_HLEN - 1 <= zlen l ->
  (forall i, (i < k)%nat -> plausible (drop i l) = false) -> frames l = frames (drop k l).
Proof.
  induction k as [|k IH]; intros l Hl Hn; [done|]. unfold IP_HLEN, zlen in Hl.
  rewrite frames_skip; [|unfold IP_HLEN, zlen; lia|by apply (Hn 0%nat); lia].
  rewrite (IH (drop 1 l)); [by rewrite drop_drop|unfold IP_HLEN, zlen; rewrite length_drop; lia|].
  intros i Hi. rewrite drop_drop. apply Hn. lia.
Qed.

(** ** The extractor *)

Lemma looks_valid_exact header : Forall u8 header -> 4 <= zlen header ->
  ipv4streamIpv4HeaderLooksValid header = Ok (plausible header, head_total header).
Proof.
  intros F Hl. unfold ipv4streamIpv4HeaderLooksValid. rewrite !load8_ok by lia. step_ok.
  pose proof (byte_at_u8 header 0 F) as H0. pose proof (byte_at_u8 header 2 F) as H2. pose proof (byte_at_u8 header 3 F) as H3.
  unfold u8, UINT8_MAX in *. unfold plausible, head_total.
  change 0x0F with (Z.ones 4). rewrite Z.land_ones, Z.shiftr_div_pow2, Z.shiftl_mul_pow2 by lia.
  change (2 ^ 4) with 16. change (2 ^ 8) with 256. change (wrap16 kMaxAllowedPacketLength) with kMaxAllowedPacketLength.
  rewrite (wrap8_small (_ / 16)), (wrap8_small (_ mod 16 * 4)) by (unfold UINT8_MAX; Z.div_mod_to_equations; lia).
  rewrite (wrap16_small (_ * 256)) by (unfold UINT16_MAX; lia). rewrite (lor_add _ _ 8) by (try lia; change (2 ^ 8) with 256; try (by apply Z.mod_mul); lia).
  by rewrite wrap16_small by (unfold UINT16_MAX; lia).
Qed.

(** A position inside a window is judged as in the whole sequence. *)
Lemma plausible_window l w j : Z.of_nat j + IP_HLEN <= Z.of_nat w -> (w <= length l)%nat ->
  plausible (drop j (take w l)) = plausible (drop j l).
Proof.
  unfold IP_HLEN. intros Hj Hw. pose proof (length_take_le l w Hw) as La.
  assert (drop j l = drop j (take w l) ++ drop w l) as -> by (rewrite <- drop_app_le by lia; by rewrite take_drop).
  symmetry. apply head_app. unfold IP_HLEN, zlen. rewrite length_drop. lia.
Qed.

Lemma resync_loop_spec fuel scan : forall i, Forall u8 scan -> 1 <= i -> Z.max 0 (zlen scan - i) < Z.of_nat fuel ->
  exists r, resync_loop fuel scan (zlen scan) i = Ok r /\
    ((r = 0 /\ forall j, i <= j -> j + IP_HLEN <= zlen scan -> plausible (drop (Z.to_nat j) scan) = false) \/
     (i <= r /\ r + IP_HLEN <= zlen scan /\ forall j, i <= j < r -> plausible (drop (Z.to_nat j) scan) = false)).
Proof.
  induction fuel as [|fuel IH]; intros i F Hi Hf; cbn [resync_loop]; [lia|]. unfold IP_HLEN in *.
  destruct (i + 20 <=? zlen scan) eqn:E; bool_facts; cbn [negb]; cycle 1.
  { exists 0. split; [done|]. left. split; [done|]. lia. }
  rewrite looks_valid_exact by (first [by apply Forall_drop|unfold zlen in *; rewrite length_drop; lia]). step_ok.
  destruct (plausible (drop (Z.to_nat i) scan)) eqn:Ep.
  { exists i. split; [done|]. right. splits; [lia|lia|lia]. }
  destruct (IH (i + 1) F) as (r & -> & Hr); [lia|lia|]. exists r. split; [done|].
  destruct Hr as [[-> Hr]|(H1 & H2 & Hr)]; [left|right]; splits; try done; try lia; intros j Hj.
  - intros Hw. destruct (decide (j = i)) as [->|?]; [done|]. apply Hr; lia.
  - destruct (decide (j = i)) as [->|?]; [done|]. apply Hr; lia.
Qed.

Lemma contents_u8 bufs : Forall good bufs -> Forall u8 (contents bufs).
Proof.
  induction 1 as [|b bufs [W _] _ IH]; [done|]. rewrite contents_cons. apply Forall_app. split; [by apply payload_u8|done].
Qed.

Section Extractor.
Context `{Allocator} {P : Type} `{PoolLaws P}.
Implicit Types (stream : buffer_stream_t) (pool : P).

Lemma view_front stream n : stream_wf stream -> 0 < n <= size stream ->
  bufferstreamViewBytesAt stream 0 n = Ok (take (Z.to_nat n) (contents (q stream))).
Proof.
  intros [Hg Hz Hl _] Hn. unfold kStreamLimit, UINT16_MAX, UINT32_MAX in *. unfold bufferstreamViewBytesAt.
  rewrite wrap64_small by word_lia. rewrite assert_bind by lia.
  rewrite view_bytes_loop_spec; auto; change (zlen (@nil Z)) with 0; unfold UINT32_MAX; try lia.
  by rewrite Z.sub_0_r.
Qed.

(** Resynchronizing drops bytes the reference skips. *)
Lemma drop_resync_frames stream pool : stream_wf stream -> pool_inv pool ->
  IP_HLEN <= size stream -> plausible (contents (q stream)) = false ->
  exists stream' pool', ipv4streamDropResyncBytes stream pool = Ok (stream', pool') /\
    stream_wf stream' /\ pool_inv pool' /\ size stream' < size stream /\
    frames (contents (q stream')) = frames (contents (q stream)).
Proof.
  intros W I Hs Hp. pose proof (wf_length _ W) as Lc. unfold ipv4streamDropResyncBytes, bufferstreamGetBufLen.
  set (window := if size stream <? kResyncScanWindow then size stream else kResyncScanWindow).
  assert (IP_HLEN <= window <= size stream /\ window <= 256) as [Hw Hw']
    by (subst window; unfold kResyncScanWindow, IP_HLEN in *; case_match; bool_facts; lia).
  unfold IP_HLEN in *. rewrite view_front by (auto; lia). step_ok.
  set (l := contents (q stream)) in *. pose proof (contents_u8 _ (sw_good _ W)) as U. fold l in U.
  assert (zlen (take (Z.to_nat window) l) = window) as Ls by (unfold zlen in *; rewrite length_take; lia).
  pose proof (resync_loop_spec (S (Z.to_nat window)) (take (Z.to_nat window) l) 1) as R. rewrite Ls in R.
  destruct R as (r & -> & Hr); [by apply Forall_take|lia|lia|]. step_ok.
  set (k := if r >? 0 then r else window -64 (20 - 1)).
  assert (1 <= k <= window - 19 /\ forall j, 0 <= j < k -> plausible (drop (Z.to_nat j) l) = false) as [Hk Hskip].
  { unfold IP_HLEN in Hr. assert (forall j, 1 <= j -> j + 20 <= window -> plausible (drop (Z.to_nat j) (take (Z.to_nat window) l)) = plausible (drop (Z.to_nat j) l))
      as Ew by (intros j ? ?; apply plausible_window; unfold IP_HLEN, zlen in *; lia).
    subst k. destruct Hr as [[-> Hr]|(R1 & R2 & Hr)].
    - cbn [Z.gtb Z.compare]. rewrite wrap64_small by (unfold UINT64_MAX; lia). split; [lia|]. intros j Hj.
      destruct (decide (j = 0)) as [->|?]; [by rewrite drop_0|]. rewrite <- Ew by lia. apply Hr; lia.
    - rewrite (proj2 (Z.gtb_lt _ _)) by lia. split; [lia|]. intros j Hj.
      destruct (decide (j = 0)) as [->|?]; [by rewrite drop_0|]. rewrite <- Ew by lia. apply Hr; lia. }
  destruct (read_exact_spec stream pool k W I) as (b & s' & p' & -> & I' & _ & W' & [Wb Ob] & Lb & Pb & Cb); [lia|]. step_ok.
  destruct (pool_reuse_law p' b I' Wb Ob) as (p2 & -> & I2 & _). step_ok. exists s', p2. splits; try done.
  - rewrite <- (wf_length _ W'), Cb. fold l. unfold zlen in *. rewrite length_drop. lia.
  - rewrite Cb. fold l. symmetry. apply frames_skip_run; [unfold IP_HLEN; lia|]. intros i Hi.
    rewrite <- (Nat2Z.id i). apply Hskip. lia.
Qed.

(** What a call of the extractor makes of a stream. *)
Definition extracted (before after : list Z) (r : option sbuf_t) : Prop :=
  match r with
  | None => frames before = ([], after)
  | Some b => good b /\ frames before = (payload b :: fst (frames after), snd (frames after))
  end.

Lemma try_read_spec fuel : forall stream pool, stream_wf stream -> pool_inv pool -> size stream < Z.of_nat fuel ->
  exists r stream' pool', try_read_loop fuel stream pool = Ok (r, stream', pool') /\
    stream_wf stream' /\ pool_inv pool' /\ extracted (contents (q stream)) (contents (q stream')) r /\
    size stream' + (if r is Some _ then 1 else 0) <= size stream.
Proof.
  induction fuel as [|fuel IH]; intros stream pool W I Hf; pose proof (wf_length _ W) as Lc;
    pose proof (zlen_nonneg (contents (q stream))) as Ln; [lia|]. cbn [try_read_loop]. unfold bufferstreamGetBufLen.
  destruct (size stream <? IP_HLEN) eqn:E0; bool_facts.
  { exists None, stream, pool. splits; try done; [|lia]. apply frames_incomplete. left. lia. }
  rewrite view_front by (auto; unfold IP_HLEN in *; lia). step_ok.
  set (l := contents (q stream)) in *. pose proof (contents_u8 _ (sw_good _ W)) as U. fold l in U.
  assert (IP_HLEN <= zlen (take (Z.to_nat IP_HLEN) l)) as Lh by (unfold IP_HLEN, zlen in *; rewrite length_take; lia).
  rewrite looks_valid_exact by (first [by apply Forall_take|unfold IP_HLEN in *; lia]). step_ok.
  destruct (head_app (take (Z.to_nat IP_HLEN) l) (drop (Z.to_nat IP_HLEN) l) Lh) as [Ep Et]. rewrite take_drop in Ep, Et. rewrite <- Ep, <- Et.
  destruct (plausible l) eqn:Hp; cycle 1.
  { destruct (drop_resync_frames stream pool W I) as (s' & p' & -> & W' & I' & Hs & Ef); [lia|done|]. step_ok.
    destruct (IH s' p' W' I') as (r & s2 & p2 & -> & W2 & I2 & X & Z2); [lia|]. exists r, s2, p2. splits; try done; [|lia].
    unfold extracted in *. fold l in Ef. by rewrite <- Ef. }
  pose proof (plausible_total l Hp) as Ht. unfold IP_HLEN in Ht. destruct (size stream <? head_total l) eqn:E1; bool_facts.
  { exists None, stream, pool. splits; try done; [|lia]. apply (frames_incomplete l). right. split; [done|lia]. }
  destruct (read_exact_spec stream pool (head_total l) W I) as (b & s' & p' & -> & I' & _ & W' & G & Lb & Pb & Cb); [lia|]. step_ok.
  exists (Some b), s', p'. splits; try done.
  - unfold extracted. split; [done|]. rewrite Pb, Cb. fold l. apply frames_packet; [lia|done|lia].
  - rewrite <- (wf_length _ W'), Cb, <- Lc. unfold zlen in *. rewrite length_drop. fold l. lia.
Qed.

Lemma try_read_frames stream pool : stream_wf stream -> pool_inv pool ->
  exists r stream' pool', ipv4streamTryReadPacket stream pool = Ok (r, stream', pool') /\
    stream_wf stream' /\ pool_inv pool' /\ extracted (contents (q stream)) (contents (q stream')) r /\
    size stream' + (if r is Some _ then 1 else 0) <= size stream.
Proof.
  intros W I. pose proof (wf_length _ W). pose proof (zlen_nonneg (contents (q stream))).
  apply try_read_spec; [done|done|]. unfold bufferstreamGetBufLen. lia.
Qed.
End Extractor.

(** The sender's test. *)
Lemma forwardable_exact b : good b ->
  exists r, ipv4streamIsForwardablePacket b = Ok r /\ (r = true <-> packet (payload b) /\ zlen (payload b) <= kMaxAllowedPacketLength).
Proof.
  intros [W O]. pose proof (zlen_payload b W) as Lp. pose proof (wf_len b W) as Hl. unfold ipv4streamIsForwardablePacket, sbufGetLength, packet.
  unfold ordinary in O. rewrite O. cbn [negb]. rewrite assert_bind by done. rewrite Lp.
  destruct ((len b <? IP_HLEN) || (len b >? kMaxAllowedPacketLength)) eqn:E; bool_facts.
  { exists false. split; [done|]. split; [done|]. intros [(? & _) ?]. lia. }
  rewrite read_payload by (auto; lia). step_ok. rewrite take_ge by (unfold zlen in *; lia).
  rewrite looks_valid_exact by (first [by apply payload_u8|unfold IP_HLEN in *; lia]). step_ok. eexists. split; [done|].
  rewrite andb_true_iff, Z.eqb_eq. intuition lia.
Qed.
