(* ===== verification/StreamInput.v ===== *)
(** * The bounded input of a carrier ([tunnels/Internals/Ipv4StreamCodec/src/input.c])

    What the operations of [PacketStream] on nested deliveries do to the budget,
    the queue and the stream.  The bytes that wait, in the stream and behind it
    in the queue, are the state the extraction of packets depends on. *)

From Stdlib Require Import ZArith Lia.
From stdpp Require Import base numbers option list.
From S2P Require Import Prelude ShiftBuffer PoolInterface Endian BufferStream BufferQueue PacketView PacketStream PacketFrames.
Open Scope Z_scope.
Open Scope word_scope.

Definition nested_limits : buffer_budget_cost_t := mk_cost kIpv4StreamNestedBytes kIpv4StreamNestedCharge.

(** What the delivery that is being processed pays. *)
Definition active_cost (input : ipv4stream_input_t) (a : component) : Z :=
  match r_budget (active input) with Some _ => get a (r_cost (active input)) | None => 0 end.

Record input_ok (input : ipv4stream_input_t) : Prop := {
  io_queue : queue_ok (pending input);
  io_bound : q_budget (pending input) = Some 0%nat;
  io_limits : limits (in_budget input) = nested_limits;
  io_reserved : r_budget (active input) = None \/ r_budget (active input) = Some 0%nat;
  io_cost : forall a, 0 <= active_cost input a;
  io_used : forall a, get a (used (in_budget input)) = get a (queue_cost (pending input)) + active_cost input a;
  io_fits : forall a, get a (used (in_budget input)) <= get a nested_limits;
  io_idle : draining input = false -> q_bufs (pending input) = [] /\ r_budget (active input) = None
}.

(** The bytes of the queued deliveries. *)
Definition queued (input : ipv4stream_input_t) : list Z := contents (q_bufs (pending input)).

Lemma nested_small a : get a nested_limits <= SIZE_MAX.
Proof. destruct a; vm_compute; discriminate. Qed.

Lemma input_budget_ok input : input_ok input -> budget_ok (in_budget input).
Proof.
  intros [Q B L R C U F I]. split; intros a.
  - rewrite L. specialize (F a). specialize (C a). rewrite U in *. pose proof (queue_range _ a Q). lia.
  - rewrite L. apply nested_small.
Qed.

Lemma single_insert (x y : buffer_budget_t) : <[0%nat := y]> [x] = [y].
Proof. done. Qed.

Lemma input_init_ok : exists input, ipv4streamInputInit = Ok input /\ input_ok input /\ draining input = false /\ queued input = [].
Proof.
  eexists. split; [reflexivity|]. splits; try done. split; cbn; try done.
  - split; cbn; try done; by intros [].
  - by left.
  - by intros [].
  - intros []; vm_compute; discriminate.
Qed.

Section Laws.
Context `{Allocator} {P : Type} `{PoolLaws P} (deque_reserve : Z -> bool).
Implicit Types (input : ipv4stream_input_t) (stream : buffer_stream_t) (pool : P).

(** Releasing the reservation of the current delivery. *)
Lemma release_active input : input_ok input ->
  exists y r, bufferbudgetReservationRelease [in_budget input] (active input) = Ok ([y], r) /\
    r_budget r = None /\ limits y = nested_limits /\ forall a, get a (used y) = get a (queue_cost (pending input)).
Proof.
  intros IO. pose proof (input_budget_ok input IO) as BO. destruct IO as [Q B L R C U F I].
  unfold bufferbudgetReservationRelease. unfold active_cost in *.
  destruct R as [R|R]; rewrite R in *.
  - exists (in_budget input), (active input). splits; try done. intros a. rewrite U. lia.
  - rewrite (release_spec [in_budget input] 0 (in_budget input)); [|done|done|].
    + step_ok. do 2 eexists. splits; [done|done|done|]. intros a. cbn [set_used used]. rewrite get_sub, U. lia.
    + intros a. split; [apply C|]. rewrite U. pose proof (queue_range _ a Q). lia.
Qed.

Lemma input_destroy_ok input pool : input_ok input -> pool_inv pool ->
  exists input' pool', ipv4streamInputDestroy input pool = Ok (input', pool') /\ pool_inv pool'.
Proof.
  intros IO I0. pose proof (input_budget_ok input IO) as BO. pose proof IO as [Q B L R C U F I].
  unfold ipv4streamInputDestroy, bufferqueueDestroy.
  destruct (reuse_all_spec (q_bufs (pending input)) pool (qo_good _ Q) I0) as (pool' & Ep & Ip & _).
  assert ((if zlen (q_bufs (pending input)) >? 0 then reuse_all (q_bufs (pending input)) pool else mret pool) = Ok pool') as ->.
  { destruct (q_bufs (pending input)); [done|by rewrite <- Ep]. }
  step_ok. rewrite B. rewrite (release_spec [in_budget input] 0 (in_budget input)); [|done|done|].
  2:{ intros a. pose proof (queue_range _ a Q). rewrite U. specialize (C a). lia. }
  step_ok. rewrite single_insert. set (x := set_used _ _).
  assert (forall a, get a (used x) = active_cost input a) as Ux.
  { intros a. subst x. cbn [set_used used]. rewrite get_sub, U. lia. }
  assert (budget_ok x) as Bx.
  { split; intros a; cbn [x set_used limits]; rewrite ?Ux, ?L; [|apply nested_small].
    specialize (C a). specialize (F a). rewrite U in F. pose proof (queue_range _ a Q). lia. }
  assert (exists y r, bufferbudgetReservationRelease [x] (active input) = Ok ([y], r) /\ forall a, get a (used y) = 0) as (y & r & -> & Zy).
  { unfold bufferbudgetReservationRelease, active_cost in *. destruct R as [R|R]; rewrite R in *.
    - do 2 eexists. split; [done|]. intros a. apply Ux.
    - rewrite (release_spec [x] 0 x); [|done|done|intros a; rewrite Ux; specialize (C a); lia].
      step_ok. do 2 eexists. split; [done|]. intros a. cbn [set_used used]. rewrite get_sub, Ux. lia. }
  step_ok. cbn [own_budget]. step_ok. unfold bufferbudgetAssertEmpty.
  pose proof (Zy Bytes) as Z1. pose proof (Zy Charge) as Z2. cbn [get] in Z1, Z2. rewrite Z1, Z2. step_ok.
  do 2 eexists. split; [done|done].
Qed.

Lemma input_reset_ok input pool : input_ok input -> pool_inv pool ->
  exists input' pool', ipv4streamInputReset input pool = Ok (input', pool') /\ pool_inv pool' /\
    input_ok input' /\ draining input' = false /\ queued input' = [].
Proof.
  intros IO I0. unfold ipv4streamInputReset. destruct (input_destroy_ok input pool IO I0) as (i & p & -> & Ip). step_ok.
  destruct input_init_ok as (input' & -> & O & D & E). step_ok. do 2 eexists. splits; eauto.
Qed.

(** The bound of an outer delivery. *)
Definition kDeliveryLimit : Z := kStreamLimit - kMaxAllowedPacketLength.

(** What admission does with a delivery. *)
Definition admitted input stream (b : sbuf_t) (r : ipv4stream_input_result_t) input' stream' : Prop :=
  match r with
  | kIpv4StreamInputEmpty => payload b = [] /\ input' = input /\ stream' = stream
  | kIpv4StreamInputDrain => draining input = false /\ draining input' = true /\
      queued input' = queued input /\ contents (q stream') = contents (q stream) ++ payload b
  | kIpv4StreamInputQueued => draining input = true /\ draining input' = true /\ stream' = stream /\
      queued input' = queued input ++ payload b
  | kIpv4StreamInputRejected => draining input = true /\ draining input' = true /\ stream' = stream /\ queued input' = queued input
  end.

Lemma input_admit_ok input stream pool b :
  input_ok input -> stream_wf stream -> pool_inv pool -> good b -> len b <= kDeliveryLimit ->
  (draining input = false -> incomplete (contents (q stream))) ->
  exists r input' stream' pool', ipv4streamInputAdmit deque_reserve input stream pool b = Ok (r, input', stream', pool') /\
    input_ok input' /\ stream_wf stream' /\ pool_inv pool' /\ admitted input stream b r input' stream'.
Proof.
  intros IO W I0 G Hl Hi. pose proof IO as [Q B L R C U F I]. pose proof G as [Wb Ob]. pose proof (zlen_payload b Wb) as Lp.
  unfold ipv4streamInputAdmit, sbufGetLength. unfold ordinary in Ob. rewrite Ob. cbn [negb]. rewrite assert_bind by done.
  destruct (len b =? 0) eqn:E0; bool_facts.
  { destruct (pool_reuse_law pool b I0 Wb Ob) as (p & -> & Ip & _). step_ok. do 4 eexists. splits; eauto.
    cbn. splits; try done. apply nil_length_inv. unfold zlen in Lp. lia. }
  destruct (draining input) eqn:D.
  - pose proof (insert_spec deque_reserve [in_budget input] (pending input) b false) as X.
    destruct X as [(_ & _ & bs' & E & Qi & [Lb Rb])|[_ E]]; auto.
    + by repeat constructor; apply input_budget_ok.
    + intros k E. rewrite B in E. injection E as <-. by exists (in_budget input).
    + unfold bufferqueueTryPushBack. rewrite E. step_ok.
      destruct (Rb 0%nat (in_budget input) eq_refl) as (y & Ey & [By Ly] & El & Eu).
      destruct bs' as [|y' [|]]; try discriminate. injection Ey as ->. cbn [own_budget]. step_ok.
      do 4 eexists. splits; [done| |done|done|].
      * assert (forall a, get a (used y) = get a (queue_cost (inserted (pending input) b false)) + active_cost input a) as Uy.
        { intros a. rewrite Eu, U. unfold pay_q, paid. cbn [inserted q_budget]. rewrite B, bool_decide_eq_true_2 by done. lia. }
        split; cbn; auto.
        -- by rewrite El.
        -- intros a. specialize (By a). rewrite El, L in By. apply By.
        -- discriminate.
      * cbn [admitted draining]. splits; try done. unfold queued. cbn [pending inserted q_bufs]. rewrite contents_app, contents_cons.
        by rewrite app_nil_r.
    + unfold bufferqueueTryPushBack. rewrite E. step_ok. cbn [own_budget]. step_ok. do 4 eexists. splits; [done| |done|done|].
      * split; cbn; auto.
      * cbn. splits; done.
  - destruct (I eq_refl) as [I1 I2]. unfold bufferqueueGetBufCount. rewrite I1, I2. rewrite bool_decide_eq_true_2 by done.
    rewrite assert_bind by done. pose proof (incomplete_short _ (Hi eq_refl)) as Hs.
    rewrite (wf_length _ W) in Hs. unfold kDeliveryLimit, kStreamLimit, kMaxAllowedPacketLength, bufferstreamGetBufLen, UINT16_MAX, UINT32_MAX in *.
    destruct (_ >? _) eqn:E1; bool_facts; [lia|].
    destruct (stream_push_spec stream pool b W I0 G) as (s' & p' & -> & W' & I' & _ & Cs & _ & _); [unfold kStreamLimit, UINT16_MAX, UINT32_MAX; lia|].
    step_ok. do 4 eexists. splits; [done| |done|done|].
    + split; cbn; auto.
    + cbn. splits; done.
Qed.

Lemma input_advance_ok input stream pool :
  input_ok input -> stream_wf stream -> pool_inv pool -> draining input = true -> incomplete (contents (q stream)) ->
  exists more input' stream' pool', ipv4streamInputAdvance input stream pool = Ok (more, input', stream', pool') /\
    input_ok input' /\ stream_wf stream' /\ pool_inv pool' /\ draining input' = more /\
    contents (q stream') ++ queued input' = contents (q stream) ++ queued input /\
    if more : bool then length (q_bufs (pending input)) = S (length (q_bufs (pending input')))
    else queued input' = [] /\ contents (q stream') = contents (q stream).
Proof.
  intros IO W I0 D Hi. pose proof IO as [Q B L R C U F I]. unfold ipv4streamInputAdvance, bufferstreamGetBufLen.
  pose proof (incomplete_short _ Hi) as Hs. rewrite (wf_length _ W) in Hs. rewrite D, !assert_bind by (done || lia).
  destruct (settle_spec stream pool kIpv4StreamIncompleteCharge W I0) as (s1 & p1 & -> & W1 & I1 & C1 & _); [vm_compute; discriminate|].
  step_ok. rewrite assert_bind by done.
  destruct (release_active input IO) as (y & r & -> & Rr & Ly & Uy). step_ok. unfold bufferqueuePopFrontReserved.
  rewrite B, Rr. rewrite !bool_decide_eq_true_2 by (done || by eexists). cbn [andb]. rewrite assert_bind by done.
  destruct (q_bufs (pending input)) as [|b bufs] eqn:Eb.
  - unfold bufferqueuePop. rewrite Eb. step_ok. cbn [default own_budget]. step_ok. do 4 eexists. splits; [done| |done|done|done| |].
    + split; cbn; auto.
      * unfold active_cost. cbn. rewrite Rr. lia.
      * intros a. unfold active_cost. cbn. rewrite Rr, Uy. lia.
      * intros a. rewrite Uy. specialize (F a). specialize (C a). rewrite U in F. lia.
    + unfold queued. cbn. by rewrite Eb, C1.
    + unfold queued. cbn. by rewrite Eb, C1.
  - destruct (popped_ok (pending input) bufs b Q Eb) as (Q' & Le & Pay).
    rewrite (pop_frame [y] (pending input) bufs b (Some r) Q Eb), B. step_ok. cbn [default own_budget]. step_ok.
    pose proof (qo_good _ Q) as G. rewrite Eb in G. apply Forall_cons in G as [Gb _].
    assert (len b <= kIpv4StreamNestedBytes) as Hb.
    { specialize (F Bytes). specialize (C Bytes). rewrite U in F. specialize (Le Bytes). cbn in *. lia. }
    destruct (stream_push_spec s1 p1 b W1 I1 Gb) as (s2 & p2 & -> & W2 & I2 & _ & C2 & _ & _).
    { pose proof (wf_length _ W1) as L1. rewrite C1, (wf_length _ W) in L1.
      unfold kIpv4StreamNestedBytes, kStreamLimit, kMaxAllowedPacketLength, UINT16_MAX, UINT32_MAX in *. lia. }
    step_ok. do 4 eexists. splits; [done| |done|done|done| |].
    + split; cbn; auto.
      * unfold active_cost. cbn. intros a. pose proof (buf_cost_range b a Gb). lia.
      * unfold active_cost. cbn [r_budget active r_cost]. intros a. rewrite Uy.
        pose proof (Pay a 0%nat) as Pa. unfold pay_q, paid in Pa. cbn [popped q_budget] in Pa. rewrite B, bool_decide_eq_true_2 in Pa by done. exact Pa.
      * intros a. rewrite Uy. specialize (F a). specialize (C a). rewrite U in F. lia.
      * discriminate.
    + unfold queued. cbn [pending popped q_bufs]. rewrite Eb, C2, C1. cbn. by rewrite <- app_assoc.
    + done.
Qed.
End Laws.
