(* ===== verification/LineRefs.v ===== *)
(** * Lifetimes of lines ([ww/net/line.h], [ww/net/line.c])

    A line is logically alive until its creator destroys it and physically there
    until the last reference is released.  The lines of a worker are a finite
    map; a reclaimed line is not in it, and an access to one faults.  Line
    pointers are numbers that are not used again: the pool can hand out the
    memory of a reclaimed line, but no code compares a pointer it holds no
    reference for. *)

From Stdlib Require Import ZArith Lia.
From stdpp Require Import base numbers option list gmap.
From S2P Require Import Prelude.
Open Scope Z_scope.
Open Scope word_scope.

Record line_t : Type := mk_line { alive : bool; refc : Z }.

Definition LINE_REFC_MAX : Z := UINT32_MAX.

Abbreviation lines_t := (gmap nat line_t).

Definition line_at (L : lines_t) (l : nat) : outcome line_t :=
  match L !! l with Some x => Ok x | None => Fail MemoryFault end.

(** The line as [lineCreateForWorker] initializes it. *)
Definition lineCreate (L : lines_t) (l : nat) : lines_t := <[l := mk_line true 1]> L.

Definition lineIsAlive (L : lines_t) (l : nat) : outcome bool :=
  x ← line_at L l; mret (alive x).

Definition lineRef (L : lines_t) (l : nat) : outcome lines_t :=
  x ← line_at L l;
  _ ← assert_ (alive x);
  let previous := refc x in
  _ ← abort_if ((previous =? 0) || (previous =? LINE_REFC_MAX));
  mret (<[l := mk_line (alive x) (previous +32 1)]> L).

(** The final release gives the memory back to the pool. *)
Definition lineUnRefInternal (L : lines_t) (l : nat) : outcome lines_t :=
  x ← line_at L l;
  let previous := refc x in
  _ ← assert_ (negb (previous =? 0));
  if previous >? 1 then mret (<[l := mk_line (alive x) (previous -32 1)]> L)
  else
    _ ← assert_ (negb (alive x));
    mret (delete l L).

Definition lineUnref := lineUnRefInternal.

Definition lineDestroy (L : lines_t) (l : nat) : outcome lines_t :=
  x ← line_at L l;
  _ ← assert_ (alive x);
  lineUnref (<[l := mk_line false (refc x)]> L) l.

(** [lineCallWithRef] after the callback: releases and reports. *)
Definition call_returned (L : lines_t) (l : nat) : outcome (bool * lines_t) :=
  ok ← lineIsAlive L l;
  L ← lineUnref L l;
  mret (ok, L).

(** ** Who holds what *)

Definition cnt (l : nat) (xs : list nat) : Z := Z.of_nat (length (filter (fun k => k = l) xs)).

Lemma cnt_cons l k xs : cnt l (k :: xs) = (if decide (k = l) then 1 else 0) + cnt l xs.
Proof. unfold cnt. rewrite filter_cons. case_decide; simpl; lia. Qed.

Lemma cnt_app l xs ys : cnt l (xs ++ ys) = cnt l xs + cnt l ys.
Proof. unfold cnt. rewrite filter_app, length_app. lia. Qed.

Lemma cnt_nonneg l xs : 0 <= cnt l xs.
Proof. unfold cnt. lia. Qed.

Lemma cnt_elem l xs : l ∈ xs -> 0 < cnt l xs.
Proof.
  induction xs as [|x xs IH]; intros E; [by apply not_elem_of_nil in E|]. rewrite cnt_cons. pose proof (cnt_nonneg l xs).
  apply elem_of_cons in E as [->|E]; [rewrite decide_True by done; lia|]. specialize (IH E). case_decide; lia.
Qed.

#[export] Instance cnt_proper l : Proper ((≡ₚ) ==> (=)) (cnt l).
Proof. intros xs ys E. unfold cnt. by rewrite E. Qed.

(** Every reference is the creator's or one of [xs]. *)
Definition lines_ok (L : lines_t) (xs : list nat) : Prop :=
  forall l, match L !! l with
            | Some x => refc x = (if alive x then 1 else 0) + cnt l xs /\ 0 < refc x <= LINE_REFC_MAX
            | None => cnt l xs = 0
            end.

Definition is_alive (L : lines_t) (l : nat) : bool :=
  match L !! l with Some x => alive x | None => false end.

#[export] Instance lines_ok_proper L : Proper ((≡ₚ) ==> iff) (lines_ok L).
Proof.
  intros xs ys E. unfold lines_ok. split; intros O l; specialize (O l); destruct (L !! l); by rewrite E in * || by rewrite <- E in *.
Qed.

(** No line is added and no count grows. *)
Definition shrinks (L L' : lines_t) : Prop :=
  forall k x', L' !! k = Some x' -> exists x, L !! k = Some x /\ refc x' <= refc x.

Section Lines.
Context (L : lines_t) (xs : list nat) (O : lines_ok L xs).

Lemma alive_here l : is_alive L l = true -> exists x, L !! l = Some x /\ alive x = true.
Proof. unfold is_alive. intros E. destruct (L !! l) as [x|]; [by exists x|done]. Qed.

Lemma held_here l : l ∈ xs -> exists x, L !! l = Some x.
Proof. intros E. specialize (O l). apply cnt_elem in E. destruct (L !! l) as [x|]; [by exists x|lia]. Qed.

Lemma alive_read l : is_Some (L !! l) -> lineIsAlive L l = Ok (is_alive L l).
Proof. unfold lineIsAlive, line_at, is_alive. by intros [x ->]. Qed.

Lemma line_create_ok l : L !! l = None -> lines_ok (lineCreate L l) xs /\ forall k, is_alive (lineCreate L l) k = if decide (k = l) then true else is_alive L k.
Proof.
  intros N. pose proof (O l) as Ol. rewrite N in Ol. unfold lineCreate, is_alive. split; intros k; destruct (decide (k = l)) as [->|D].
  - rewrite lookup_insert_eq. cbn. unfold LINE_REFC_MAX, UINT32_MAX. lia.
  - rewrite lookup_insert_ne by done. apply O.
  - by rewrite lookup_insert_eq.
  - by rewrite lookup_insert_ne.
Qed.

Lemma ref_ok l x : L !! l = Some x -> alive x = true -> refc x < LINE_REFC_MAX ->
  exists L', lineRef L l = Ok L' /\ lines_ok L' (l :: xs) /\ (forall k, is_alive L' k = is_alive L k) /\
    L' !! l = Some (mk_line true (refc x + 1)) /\ (forall k, k <> l -> L' !! k = L !! k).
Proof.
  intros E A R. pose proof (O l) as Ol. rewrite E, A in Ol. unfold LINE_REFC_MAX in *. unfold lineRef, line_at. rewrite E. step_ok.
  rewrite A, assert_bind by done. rewrite abort_bind by (unfold LINE_REFC_MAX; lia). rewrite wrap32_small by lia.
  eexists. splits; [done| | | |].
  - intros k. rewrite cnt_cons. destruct (decide (l = k)) as [<-|D].
    + rewrite lookup_insert_eq. cbn. unfold LINE_REFC_MAX. lia.
    + rewrite lookup_insert_ne by done. specialize (O k). by rewrite Z.add_0_l.
  - intros k. unfold is_alive. destruct (decide (k = l)) as [->|D]; [by rewrite lookup_insert_eq, E, A|by rewrite lookup_insert_ne].
  - by rewrite lookup_insert_eq.
  - intros k D. by rewrite lookup_insert_ne.
Qed.

Lemma line_destroy_ok l : is_alive L l = true ->
  exists L', lineDestroy L l = Ok L' /\ lines_ok L' xs /\ (forall k, is_alive L' k = if decide (k = l) then false else is_alive L k) /\
    shrinks L L'.
Proof.
  intros A. destruct (alive_here l A) as (x & E & Ax). pose proof (O l) as Ol. rewrite E, Ax in Ol. unfold LINE_REFC_MAX, UINT32_MAX in *.
  unfold lineDestroy, line_at. rewrite E. step_ok. rewrite Ax, assert_bind by done.
  unfold lineUnref, lineUnRefInternal, line_at. rewrite lookup_insert_eq. step_ok. cbn [refc alive].
  rewrite assert_bind by lia. pose proof (cnt_nonneg l xs). destruct (refc x >? 1) eqn:G; bool_facts.
  - rewrite wrap32_small by (unfold UINT32_MAX; lia). rewrite insert_insert_eq. eexists. splits; [done| | |].
    + intros k. destruct (decide (k = l)) as [->|D]; [rewrite lookup_insert_eq; cbn; unfold LINE_REFC_MAX, UINT32_MAX; lia|].
      rewrite lookup_insert_ne by done. apply O.
    + intros k. unfold is_alive. destruct (decide (k = l)) as [->|D]; [by rewrite lookup_insert_eq|by rewrite lookup_insert_ne].
    + intros k x'. destruct (decide (k = l)) as [->|D].
      * rewrite lookup_insert_eq. intros [= <-]. exists x. cbn. split; [done|lia].
      * rewrite lookup_insert_ne by done. intros E'. exists x'. split; [done|lia].
  - cbn [negb]. rewrite assert_bind by done. rewrite delete_insert_eq. eexists. splits; [done| | |].
    + intros k. destruct (decide (k = l)) as [->|D]; [rewrite lookup_delete_eq; lia|]. rewrite lookup_delete_ne by done. apply O.
    + intros k. unfold is_alive. destruct (decide (k = l)) as [->|D]; [by rewrite lookup_delete_eq|by rewrite lookup_delete_ne].
    + intros k x'. destruct (decide (k = l)) as [->|D]; [by rewrite lookup_delete_eq|].
      rewrite lookup_delete_ne by done. intros E'. exists x'. split; [done|lia].
Qed.
End Lines.

Lemma unref_ok (L : lines_t) (xs : list nat) (l : nat) : lines_ok L (l :: xs) ->
  exists L', lineUnref L l = Ok L' /\ lines_ok L' xs /\ (forall k, is_alive L' k = is_alive L k) /\
    shrinks L L'.
Proof.
  intros O. destruct (held_here L _ O l) as (x & E); [left|]. pose proof (O l) as Ol. rewrite E, cnt_cons, decide_True in Ol by done.
  pose proof (cnt_nonneg l xs). unfold LINE_REFC_MAX, UINT32_MAX in *. unfold lineUnref, lineUnRefInternal, line_at. rewrite E. step_ok.
  rewrite assert_bind by lia. destruct (refc x >? 1) eqn:G; bool_facts.
  - rewrite wrap32_small by (unfold UINT32_MAX; lia). eexists. splits; [done| | |].
    + intros k. pose proof (O k) as Ok. rewrite cnt_cons in Ok. destruct (decide (l = k)) as [<-|D].
      * rewrite lookup_insert_eq. cbn. unfold LINE_REFC_MAX, UINT32_MAX. lia.
      * rewrite lookup_insert_ne by done. by rewrite Z.add_0_l in Ok.
    + intros k. unfold is_alive. destruct (decide (k = l)) as [->|D]; [by rewrite lookup_insert_eq, E|by rewrite lookup_insert_ne].
    + intros k x'. destruct (decide (k = l)) as [->|D].
      * rewrite lookup_insert_eq. intros [= <-]. exists x. cbn. split; [done|lia].
      * rewrite lookup_insert_ne by done. intros E'. exists x'. split; [done|lia].
  - assert (alive x = false) as A by (destruct (alive x); [lia|done]). rewrite A. cbn [negb]. rewrite assert_bind by done.
    rewrite A in Ol. eexists. splits; [done| | |].
    + intros k. pose proof (O k) as Ok. rewrite cnt_cons in Ok. destruct (decide (l = k)) as [<-|D].
      * rewrite lookup_delete_eq. lia.
      * rewrite lookup_delete_ne by done. by rewrite Z.add_0_l in Ok.
    + intros k. unfold is_alive. destruct (decide (k = l)) as [->|D]; [by rewrite lookup_delete_eq, E|by rewrite lookup_delete_ne].
    + intros k x'. destruct (decide (k = l)) as [->|D]; [by rewrite lookup_delete_eq|].
      rewrite lookup_delete_ne by done. intros E'. exists x'. split; [done|lia].
Qed.

Lemma call_returned_ok (L : lines_t) (xs : list nat) (l : nat) : lines_ok L (l :: xs) ->
  exists L', call_returned L l = Ok (is_alive L l, L') /\ lines_ok L' xs /\ (forall k, is_alive L' k = is_alive L k) /\
    shrinks L L'.
Proof.
  intros O. destruct (held_here L _ O l) as (x & E); [left|]. unfold call_returned. rewrite alive_read by (by exists x). step_ok.
  destruct (unref_ok L xs l O) as (L' & -> & O' & A & S). step_ok. by exists L'.
Qed.
