(* ===== verification/PacketCarrier.v ===== *)
(** * The packet side of an IPv4 carrier ([tunnels/PacketsToStream])

    One worker's part of the node: packets from the packet line go out as a
    concatenation on a stream line the node creates and replaces, and packets
    extracted from that line come back.  Every call of a neighbouring node can
    call this node again before it returns.  A handler therefore runs up to its
    next callback and leaves a [frame], what is left to do; the frames of the
    suspended handlers form a stack.

    The log records what crosses the boundary, it has no influence on a run.
    Sending packets is [tunnelNextUpStreamPayload], delivering them
    [tunnelPrevDownStreamPayload].  The outcomes the node cannot decide (the
    time, whether a task is accepted, whether a timer is created) are arguments. *)

From Stdlib Require Import ZArith Lia.
From stdpp Require Import base numbers option list gmap.
From S2P Require Import Prelude ShiftBuffer PoolInterface Endian Checksum BufferStream BufferQueue LineRefs.
From S2P Require Import PacketView TransportChecksum PacketValidate PacketStream.
Open Scope Z_scope.
Open Scope word_scope.

Definition kSensitivePayloadSize : Z := 5.
Definition kHeartbeatPacketSize : Z := IP_HLEN + kSensitivePayloadSize.
Definition kHeartbeatProtocol : Z := 0xFD.
Definition kSensitivePingByte : Z := 0xFF.
Definition kSensitivePongByte : Z := 0xDD.

(** The settings; the timers are in [world]. *)
Record packetstostream_tstate_t : Type := mk_tstate {
  tolerance_ms : Z;
  packet_validation_level : ipv4stream_validation_level_t;
  sensitive_mode : bool
}.

(** The state of the packet line; a stream without a pool is [None]. *)
Record packetstostream_lstate_t : Type := mk_lstate {
  ls_line : option nat;
  read_stream : option buffer_stream_t;
  read_input : ipv4stream_input_t;
  ping_sent_at_ms : Z;
  pong_deadline_ms : Z;
  paused : bool;
  awaiting_pong : bool;
  recreate_scheduled : bool
}.

Inductive entry : Type :=
  | Opened (l : nat)
  | Sent (l : nat) (bytes : list Z)
  | Closed (l : nat)
  | Ended (l : nat)
  | Received (l : nat) (bytes : list Z)
  | Extracted (l : nat) (bytes : list Z)
  | Delivered (l : nat) (bytes : list Z).

(** [next_line] numbers the lines; [timeout_timer] and [heartbeat_timer] are the
    worker's slots; [tasks] counts the queued recreation tasks. *)
Record world (P : Type) : Type := mk_world {
  ls : packetstostream_lstate_t;
  pool : P;
  lines : lines_t;
  next_line : nat;
  timeout_timer : bool;
  heartbeat_timer : bool;
  tasks : nat;
  shutdown : bool;
  log : list entry
}.
Arguments mk_world {P}.
Arguments ls {P}.
Arguments pool {P}.
Arguments lines {P}.
Arguments next_line {P}.
Arguments timeout_timer {P}.
Arguments heartbeat_timer {P}.
Arguments tasks {P}.
Arguments shutdown {P}.
Arguments log {P}.

(** What follows [packetstostreamEnsureOutputLine] in its callers. *)
Inductive ensure_cont : Type :=
  | AfterInit
  | AfterPayload (b : sbuf_t) (recalculate_checksum : bool)
  | AfterHeartbeat.

(** A suspended handler; the frames that hold a reference to a line name it. *)
Inductive frame : Type :=
  | KReturn
  | KEnsure (new_line : nat) (k : ensure_cont)
  | KPayload (stream_line : nat)
  | KPing (stream_line : nat) (created : bool)
  | KClose (stream_line : nat) (drained : option nat)
  | KStop (stream_line : nat)
  | KDrain (l : nat).

Section Fields.
Context {P : Type}.
Implicit Types w : world P.

Definition set_ls w (x : packetstostream_lstate_t) : world P :=
  mk_world x (pool w) (lines w) (next_line w) (timeout_timer w) (heartbeat_timer w) (tasks w) (shutdown w) (log w).
Definition set_pool w (x : P) : world P :=
  mk_world (ls w) x (lines w) (next_line w) (timeout_timer w) (heartbeat_timer w) (tasks w) (shutdown w) (log w).
Definition set_lines w (x : lines_t) : world P :=
  mk_world (ls w) (pool w) x (next_line w) (timeout_timer w) (heartbeat_timer w) (tasks w) (shutdown w) (log w).
Definition set_timer w (x : bool) : world P :=
  mk_world (ls w) (pool w) (lines w) (next_line w) x (heartbeat_timer w) (tasks w) (shutdown w) (log w).
Definition set_tasks w (x : nat) : world P :=
  mk_world (ls w) (pool w) (lines w) (next_line w) (timeout_timer w) (heartbeat_timer w) x (shutdown w) (log w).
Definition set_shutdown w : world P :=
  mk_world (ls w) (pool w) (lines w) (next_line w) (timeout_timer w) (heartbeat_timer w) (tasks w) true (log w).
Definition record w (e : entry) : world P :=
  mk_world (ls w) (pool w) (lines w) (next_line w) (timeout_timer w) (heartbeat_timer w) (tasks w) (shutdown w) (log w ++ [e]).

Definition set_input (x : packetstostream_lstate_t) (s : buffer_stream_t) (i : ipv4stream_input_t) : packetstostream_lstate_t :=
  mk_lstate (ls_line x) (Some s) i (ping_sent_at_ms x) (pong_deadline_ms x) (paused x) (awaiting_pong x) (recreate_scheduled x).
Definition set_recreate (x : packetstostream_lstate_t) (v : bool) : packetstostream_lstate_t :=
  mk_lstate (ls_line x) (read_stream x) (read_input x) (ping_sent_at_ms x) (pong_deadline_ms x) (paused x) (awaiting_pong x) v.
Definition set_paused (x : packetstostream_lstate_t) (v : bool) : packetstostream_lstate_t :=
  mk_lstate (ls_line x) (read_stream x) (read_input x) (ping_sent_at_ms x) (pong_deadline_ms x) v (awaiting_pong x) (recreate_scheduled x).
Definition set_line (x : packetstostream_lstate_t) (v : option nat) : packetstostream_lstate_t :=
  mk_lstate v (read_stream x) (read_input x) (ping_sent_at_ms x) (pong_deadline_ms x) (paused x) (awaiting_pong x) (recreate_scheduled x).
Definition set_ping (x : packetstostream_lstate_t) (waiting : bool) (sent deadline : Z) : packetstostream_lstate_t :=
  mk_lstate (ls_line x) (read_stream x) (read_input x) sent deadline (paused x) waiting (recreate_scheduled x).
End Fields.

(** A handler that returned, or one that waits for a callback. *)
Abbreviation run P := (outcome (world P * option frame)).

Section Node.
Context `{NetOrder} `{InetChecksum} `{Allocator} {P : Type} `{PoolOps P}.
Context (deque_reserve : Z -> bool) (ts : packetstostream_tstate_t).
Implicit Types w : world P.

Definition reuse w (b : sbuf_t) : outcome (world P) :=
  p ← pool_reuse (pool w) b; mret (set_pool w p).

Definition on_lines w (f : lines_t -> outcome lines_t) : outcome (world P) :=
  L ← f (lines w); mret (set_lines w L).

Definition returned w : run P := mret (w, None).
Definition waits w (k : frame) : run P := mret (w, Some k).

(** ** Line state *)

Definition zero_queue : buffer_queue_t := mk_queue None [] 0 0.
Definition zero_input : ipv4stream_input_t :=
  mk_input zero_queue (mk_budget no_cost no_cost) empty_reservation false.
Definition zero_lstate : packetstostream_lstate_t := mk_lstate None None zero_input 0 0 false false false.

Definition packetstostreamLinestateInitialize w : outcome (world P) :=
  input ← ipv4streamInputInit;
  mret (set_ls w (mk_lstate None (Some (bufferstreamCreate 0)) input 0 0 false false false)).

Definition packetstostreamLinestateDestroy w : outcome (world P) :=
  match read_stream (ls w) with
  | Some s =>
      '(_, p) ← ipv4streamInputDestroy (read_input (ls w)) (pool w);
      p ← bufferstreamDestroy s p;
      mret (set_ls (set_pool w p) zero_lstate)
  | None => mret (set_ls w zero_lstate)
  end.

(** ** Heartbeats *)

Definition packetstostreamCreateHeartbeatPacket w (fill_byte : Z) : outcome (sbuf_t * world P) :=
  '(b, p) ← pool_get_best_fit (pool w) kHeartbeatPacketSize (pool_large_padding (pool w));
  b ← sbufSetLength b kHeartbeatPacketSize;
  b ← write_at b 0 (replicate 20 0);
  b ← write_at b 0 [Z.lor (Z.shiftl 4 4) (IP_HLEN / 4)];
  b ← write_at b 2 (le_bytes 2 (lwip_htons kHeartbeatPacketSize));
  b ← write_at b 8 [64];
  b ← write_at b 9 [kHeartbeatProtocol];
  b ← write_at b 10 (le_bytes 2 0);
  header ← read_at b 0 IP_HLEN;
  c ← inet_chksum header IP_HLEN;
  b ← write_at b 10 (le_bytes 2 c);
  b ← write_at b IP_HLEN (replicate 5 fill_byte);
  mret (b, set_pool w p).

(** [for (i = 0; i < kSensitivePayloadSize; ++i)] *)
Fixpoint fill_loop (fuel : nat) (payload : list Z) (fill_byte i : Z) : outcome bool :=
  match fuel with
  | O => Fail NotModelled
  | S fuel' =>
      if i <? kSensitivePayloadSize then
        x ← load8 payload i;
        if negb (x =? fill_byte) then mret false else fill_loop fuel' payload fill_byte (i + 1)
      else mret true
  end.

Definition packetstostreamFrameMatchesFillByte (b : sbuf_t) (fill_byte : Z) : outcome bool :=
  if negb (sbufGetLength b =? kHeartbeatPacketSize) then mret false else
  data ← read_at b 0 (sbufGetLength b);
  b0 ← load8 data 0;
  b9 ← load8 data 9;
  if negb (Z.shiftr b0 4 =? 4) || negb (Z.land b0 0x0F =? IP_HLEN / 4) || negb (b9 =? kHeartbeatProtocol)
  then mret false else
  fill_loop 6 (drop (Z.to_nat IP_HLEN) data) fill_byte 0.

(** The slot afterwards; [created] is whether [wtimerAdd] succeeds. *)
Definition packetstostreamArmTimeoutTimer w (created : bool) : bool * world P :=
  if timeout_timer w then (true, w)
  else if created then (true, set_timer w true) else (false, w).

Definition packetstostreamDisarmTimeoutTimer w : world P := set_timer w false.

(** ** The output line *)

Definition packetstostreamScheduleRecreateOutputLine w (accepted : bool) : world P :=
  if recreate_scheduled (ls w) then w
  else if accepted then set_tasks (set_ls w (set_recreate (ls w) true)) (S (tasks w))
  else set_ls w (set_recreate (ls w) false).

Definition packetstostreamResetOutputLineState w : outcome (world P) :=
  let x := ls w in
  let w := set_ls w (mk_lstate None (read_stream x) (read_input x) 0 0 false false (recreate_scheduled x)) in
  let w := packetstostreamDisarmTimeoutTimer w in
  match read_stream (ls w) with
  | Some s =>
      '(s, p) ← bufferstreamEmpty s (pool w);
      '(i, p) ← ipv4streamInputReset (read_input (ls w)) p;
      mret (set_ls (set_pool w p) (set_input (ls w) s i))
  | None => mret w
  end.

(** The stream line is finished while it is detached and referenced; [drained]
    is the line whose drain loop asked for it. *)
Definition packetstostreamCloseOutputLineAndScheduleRecreate w (drained : option nat) (accepted : bool) : run P :=
  let stream_line := ls_line (ls w) in
  w ← packetstostreamResetOutputLineState w;
  live ← match stream_line with Some l => lineIsAlive (lines w) l | None => mret false end;
  match stream_line with
  | Some l =>
      if (live : bool) then
        w ← on_lines w (fun L => lineRef L l);
        waits (record w (Closed l)) (KClose l drained)
      else
        let w := packetstostreamScheduleRecreateOutputLine w accepted in
        w ← match drained with Some d => on_lines w (fun L => lineUnref L d) | None => mret w end;
        returned w
  | None =>
      let w := packetstostreamScheduleRecreateOutputLine w accepted in
      w ← match drained with Some d => on_lines w (fun L => lineUnref L d) | None => mret w end;
      returned w
  end.

(** After [tunnelNextUpStreamFinish]. *)
Definition finish_returned w (l : nat) : outcome (world P) :=
  live ← lineIsAlive (lines w) l;
  w ← (if (live : bool) then on_lines w (fun L => lineDestroy L l) else mret w);
  on_lines w (fun L => lineUnref L l).

Definition close_returned w (l : nat) (drained : option nat) (accepted : bool) : run P :=
  w ← finish_returned w l;
  let w := packetstostreamScheduleRecreateOutputLine w accepted in
  w ← match drained with Some d => on_lines w (fun L => lineUnref L d) | None => mret w end;
  returned w.

(** The line and whether it was created, or the frame that waits for
    [tunnelNextUpStreamInit]. *)
Definition packetstostreamEnsureOutputLine w (k : ensure_cont)
  : outcome (world P * (option nat * bool + frame)) :=
  w ← match read_stream (ls w) with None => packetstostreamLinestateInitialize w | Some _ => mret w end;
  live ← match ls_line (ls w) with Some l => lineIsAlive (lines w) l | None => mret false end;
  if (live : bool) then mret (w, inl (ls_line (ls w), false)) else
  if recreate_scheduled (ls w) then mret (w, inl (None, false)) else
  let w := set_ls w (set_paused (set_line (ls w) None) false) in
  match read_stream (ls w) with
  | None => Fail MemoryFault
  | Some s =>
      '(s, p) ← bufferstreamEmpty s (pool w);
      '(i, p) ← ipv4streamInputReset (read_input (ls w)) p;
      let w := set_ls (set_pool w p) (set_input (ls w) s i) in
      let new_line := next_line w in
      let w := mk_world (set_line (ls w) (Some new_line)) (pool w) (lineCreate (lines w) new_line) (S new_line)
                 (timeout_timer w) (heartbeat_timer w) (tasks w) (shutdown w) (log w) in
      w ← on_lines w (fun L => lineRef L new_line);
      mret (record w (Opened new_line), inr (KEnsure new_line k))
  end.

Definition ensure_returned w (new_line : nat) : outcome (world P * (option nat * bool)) :=
  '(ok, L) ← call_returned (lines w) new_line;
  let w := set_lines w L in
  if negb ok then
    let w := if bool_decide (ls_line (ls w) = Some new_line) then set_ls w (set_line (ls w) None) else w in
    mret (w, (ls_line (ls w), false))
  else mret (w, (ls_line (ls w), bool_decide (ls_line (ls w) = Some new_line))).

Definition packetstostreamResumePacketSource w (stream_line : option nat) : run P :=
  match stream_line with
  | Some l =>
      if bool_decide (ls_line (ls w) = Some l) then
        live ← lineIsAlive (lines w) l;
        if (live : bool) && negb (paused (ls w)) then waits w KReturn else returned w
      else returned w
  | None => returned w
  end.

(** ** Packets from the packet line *)

Definition packettunnelTakeChecksumRequest (b : sbuf_t) : outcome (bool * sbuf_t) :=
  _ ← assert_ (negb (sbufIsSplice b));
  let recalculate_checksum := sbufGetRecalculateChecksum b in
  b ← sbufSetRecalculateChecksum b false;
  mret (recalculate_checksum, b).

(** [tunnelNextUpStreamPayload] takes the buffer. *)
Definition send w (l : nat) (b : sbuf_t) : world P := record w (Sent l (payload b)).

Definition upstream_payload_rest w (b : sbuf_t) (recalculate_checksum : bool)
    (stream_line : option nat) (created : bool) : run P :=
  match stream_line with
  | Some l =>
      if paused (ls w) || (sbufGetLength b >? kMaxAllowedPacketLength) then
        w ← reuse w b;
        if created then packetstostreamResumePacketSource w stream_line else returned w
      else
        b ← (if recalculate_checksum then
               bytes ← read_at b 0 (sbufGetLength b);
               '(_, bytes) ← calcFullPacketChecksum bytes (sbufGetLength b);
               mret (set_payload b bytes)
             else mret b);
        forwardable ← ipv4streamIsForwardablePacket b;
        if negb forwardable then
          w ← reuse w b;
          if created then packetstostreamResumePacketSource w stream_line else returned w
        else if negb created then waits (send w l b) KReturn
        else
          w ← on_lines w (fun L => lineRef L l);
          waits (send w l b) (KPayload l)
  | None =>
      w ← reuse w b;
      if created then packetstostreamResumePacketSource w stream_line else returned w
  end.

Definition payload_returned w (stream_line : nat) : run P :=
  '(ok, L) ← call_returned (lines w) stream_line;
  let w := set_lines w L in
  if ok : bool then packetstostreamResumePacketSource w (Some stream_line) else returned w.

(** ** Pings *)

(** Without a timer the ping is dropped and the program is asked to stop. *)
Definition packetstostreamSendSensitivePing w (stream_line : nat) (created : bool) (now : Z) (timer_created : bool) : run P :=
  '(b, w) ← packetstostreamCreateHeartbeatPacket w kSensitivePingByte;
  let '(armed, w) := packetstostreamArmTimeoutTimer w timer_created in
  if negb armed then
    w ← reuse w b;
    returned (set_shutdown w)
  else
    let w := set_ls w (set_ping (ls w) true now (now +64 tolerance_ms ts)) in
    w ← on_lines w (fun L => lineRef L stream_line);
    waits (send w stream_line b) (KPing stream_line created).

Definition ping_returned w (stream_line : nat) (created accepted : bool) : run P :=
  '(ok, L) ← call_returned (lines w) stream_line;
  let w := set_lines w L in
  if ok : bool then
    if created then packetstostreamResumePacketSource w (Some stream_line) else returned w
  else if bool_decide (ls_line (ls w) = Some stream_line) then
    w ← packetstostreamResetOutputLineState w;
    returned (packetstostreamScheduleRecreateOutputLine w accepted)
  else returned w.

(** ** After the output line is there *)

Definition ensured w (k : ensure_cont) (stream_line : option nat) (created : bool) (now : Z) (timer_created : bool) : run P :=
  match k with
  | AfterInit => if created then packetstostreamResumePacketSource w stream_line else returned w
  | AfterPayload b recalculate_checksum => upstream_payload_rest w b recalculate_checksum stream_line created
  | AfterHeartbeat =>
      match stream_line with
      | None => returned w
      | Some l => packetstostreamSendSensitivePing w l created now timer_created
      end
  end.

Definition ensure_then w (k : ensure_cont) (now : Z) (timer_created : bool) : run P :=
  '(w, r) ← packetstostreamEnsureOutputLine w k;
  match r with
  | inl (stream_line, created) => ensured w k stream_line created now timer_created
  | inr f => waits w f
  end.

Definition packetstostreamTunnelUpStreamInit w : run P := ensure_then w AfterInit 0 false.

Definition packetstostreamTunnelUpStreamPayload w (b : sbuf_t) : run P :=
  '(recalculate_checksum, b) ← packettunnelTakeChecksumRequest b;
  ensure_then w (AfterPayload b recalculate_checksum) 0 false.

Definition packetstostreamRecreateOutputLineTask w : run P :=
  if negb (recreate_scheduled (ls w)) then returned w else
  ensure_then (set_ls w (set_recreate (ls w) false)) AfterInit 0 false.

Definition packetstostreamHeartbeatTimerCallback w (now : Z) (timer_created : bool) : run P :=
  _ ← assert_ (sensitive_mode ts);
  _ ← assert_ (heartbeat_timer w);
  match read_stream (ls w) with
  | None => returned w
  | Some _ =>
      if awaiting_pong (ls w) then returned w
      else ensure_then w AfterHeartbeat now timer_created
  end.

(** [reset] is the result of [wtimerReset]. *)
Definition packetstostreamTimeoutTimerCallback w (now : Z) (reset accepted : bool) : run P :=
  _ ← assert_ (timeout_timer w);
  if negb (awaiting_pong (ls w)) then returned (set_timer w false) else
  if now <? pong_deadline_ms (ls w) then
    returned (if reset then w else set_timer w false)
  else
    packetstostreamCloseOutputLineAndScheduleRecreate (set_timer w false) None accepted.

(** ** Bytes from the stream line *)

(** [while (true)]: extracts up to the next delivery. *)
Fixpoint drain_loop (fuel : nat) w (l : nat) (now : Z) (accepted : bool) : run P :=
  match fuel, read_stream (ls w) with
  | O, _ => Fail NotModelled
  | _, None => Fail MemoryFault
  | S fuel', Some s =>
      '(r, s, p) ← ipv4streamTryReadPacket s (pool w);
      match r with
      | None =>
          '(more, i, s, p) ← ipv4streamInputAdvance (read_input (ls w)) s p;
          let w := set_ls (set_pool w p) (set_input (ls w) s i) in
          if more : bool then drain_loop fuel' w l now accepted
          else
            w ← on_lines w (fun L => lineUnref L l);
            returned w
      | Some b =>
          let w := set_ls (set_pool w p) (set_input (ls w) s (read_input (ls w))) in
          let w := record w (Extracted l (payload b)) in
          pong ← (if sensitive_mode ts then packetstostreamFrameMatchesFillByte b kSensitivePongByte else mret false);
          if (pong : bool) then
            let elapsed_ms :=
              if awaiting_pong (ls w) && (ping_sent_at_ms (ls w) >? 0) && (now >=? ping_sent_at_ms (ls w))
              then now - ping_sent_at_ms (ls w) else 0 in
            w ← reuse w b;
            if awaiting_pong (ls w) && (elapsed_ms >=? tolerance_ms ts) then
              packetstostreamCloseOutputLineAndScheduleRecreate w (Some l) accepted
            else drain_loop fuel' (set_ls w (set_ping (ls w) false 0 0)) l now accepted
          else
            '(reason, b) ← ipv4streamValidatePacket (packet_validation_level ts) b;
            if bool_decide (reason <> None) then
              w ← reuse w b;
              drain_loop fuel' w l now accepted
            else
              waits (record w (Delivered l (payload b))) (KDrain l)
      end
  end.

(** Every turn takes bytes from the stream or a delivery from the queue. *)
Definition drain_fuel w : nat :=
  match read_stream (ls w) with
  | Some s => S (Z.to_nat (bufferstreamGetBufLen s) + Z.to_nat (total_len (pending (read_input (ls w)))) +
                 length (q_bufs (pending (read_input (ls w)))))
  | None => 1
  end.

Definition packetstostreamTunnelDownStreamPayload w (l : nat) (b : sbuf_t) (now : Z) (accepted : bool) : run P :=
  match read_stream (ls w) with
  | Some s =>
      if negb (bool_decide (ls_line (ls w) = Some l)) then w ← reuse w b; returned w else
      '(r, i, s, p) ← ipv4streamInputAdmit deque_reserve (read_input (ls w)) s (pool w) b;
      let w := set_ls (set_pool w p) (set_input (ls w) s i) in
      match r with
      | kIpv4StreamInputRejected =>
          w ← reuse w b;
          packetstostreamCloseOutputLineAndScheduleRecreate w None accepted
      | kIpv4StreamInputDrain =>
          let w := record w (Received l (payload b)) in
          w ← on_lines w (fun L => lineRef L l);
          drain_loop (drain_fuel w) w l now accepted
      | _ => returned (record w (Received l (payload b)))
      end
  | None => w ← reuse w b; returned w
  end.

(** After [tunnelPrevDownStreamPayload]. *)
Definition drain_returned w (l : nat) (now : Z) (accepted : bool) : run P :=
  live ← lineIsAlive (lines w) l;
  if negb live || negb (bool_decide (ls_line (ls w) = Some l)) || bool_decide (read_stream (ls w) = None) then
    w ← on_lines w (fun L => lineUnref L l);
    returned w
  else drain_loop (drain_fuel w) w l now accepted.

(** ** The other callbacks *)

Definition packetstostreamTunnelDownStreamEst w (l : nat) : run P :=
  if bool_decide (ls_line (ls w) = Some l) then waits w KReturn else returned w.

Definition packetstostreamTunnelDownStreamFinish w (l : nat) (accepted : bool) : run P :=
  if bool_decide (ls_line (ls w) = Some l) then
    w ← packetstostreamResetOutputLineState w;
    live ← lineIsAlive (lines w) l;
    w ← (if (live : bool) then on_lines w (fun L => lineDestroy L l) else mret w);
    returned (packetstostreamScheduleRecreateOutputLine (record w (Ended l)) accepted)
  else
    live ← lineIsAlive (lines w) l;
    w ← (if (live : bool) then on_lines w (fun L => lineDestroy L l) else mret w);
    returned (record w (Ended l)).

Definition packetstostreamTunnelDownStreamPause w (l : nat) : run P :=
  if bool_decide (ls_line (ls w) = Some l) && negb (paused (ls w))
  then waits (set_ls w (set_paused (ls w) true)) KReturn else returned w.

Definition packetstostreamTunnelDownStreamResume w (l : nat) : run P :=
  if bool_decide (ls_line (ls w) = Some l) && paused (ls w)
  then waits (set_ls w (set_paused (ls w) false)) KReturn else returned w.

Definition packetstostreamTunnelUpStreamFinish w : run P := Fail AbortProgram.

(** ** Starting and stopping the worker *)

(** The task of [packetstostreamTunnelOnStart]; without a timer the program is asked to stop. *)
Definition packetstostreamStartWorkerTimer w (created : bool) : world P :=
  if created then
    mk_world (ls w) (pool w) (lines w) (next_line w) (timeout_timer w) true (tasks w) (shutdown w) (log w)
  else set_shutdown w.

Definition packetstostreamTunnelOnWorkerQuiesce w : world P :=
  mk_world (ls w) (pool w) (lines w) (next_line w) false false (tasks w) (shutdown w) (log w).

Definition stop_rest w : run P :=
  match read_stream (ls w) with
  | Some _ => w ← packetstostreamLinestateDestroy w; returned w
  | None => returned w
  end.

Definition packetstostreamTunnelOnWorkerStop w : run P :=
  let stream_line := ls_line (ls w) in
  let w := set_ls w (set_recreate (ls w) false) in
  w ← packetstostreamResetOutputLineState w;
  live ← match stream_line with Some l => lineIsAlive (lines w) l | None => mret false end;
  match stream_line with
  | Some l =>
      if (live : bool) then
        w ← on_lines w (fun L => lineRef L l);
        waits (record w (Closed l)) (KStop l)
      else stop_rest w
  | None => stop_rest w
  end.

(** ** A handler resumes when its callback returns *)

Definition resume w (f : frame) (now : Z) (timer_created accepted : bool) : run P :=
  match f with
  | KReturn => returned w
  | KEnsure new_line k =>
      '(w, (stream_line, created)) ← ensure_returned w new_line;
      ensured w k stream_line created now timer_created
  | KPayload l => payload_returned w l
  | KPing l created => ping_returned w l created accepted
  | KClose l drained => close_returned w l drained accepted
  | KStop l => w ← finish_returned w l; stop_rest w
  | KDrain l => drain_returned w l now accepted
  end.
End Node.
