(* ===== verification/CarrierInvariant.v ===== *)
(** * What the carrier keeps true ([tunnels/PacketsToStream])

    The invariant of [PacketCarrier] between and inside handlers: references and
    lines agree, at most the attached line is drained, the bytes of the attached
    line and the packets extracted from it fit together, and a ping is
    supervised. *)

From Stdlib Require Import ZArith Lia.
From stdpp Require Import base numbers option list gmap.
From S2P Require Import Prelude ShiftBuffer PoolInterface Endian Checksum BufferStream BufferQueue LineRefs.
From S2P Require Import PacketView TransportChecksum PacketValidate PacketStream PacketFrames StreamInput PacketCarrier.
Open Scope Z_scope.
Open Scope word_scope.

(** ** Reading the log *)

Definition received (l : nat) (log : list entry) : list Z :=
  mjoin (omap (fun e => match e with Received k b => if decide (k = l) then Some b else None | _ => None end) log).
Definition extracted_of (l : nat) (log : list entry) : list (list Z) :=
  omap (fun e => match e with Extracted k b => if decide (k = l) then Some b else None | _ => None end) log.
Definition delivered (l : nat) (log : list entry) : list (list Z) :=
  omap (fun e => match e with Delivered k b => if decide (k = l) then Some b else None | _ => None end) log.
Definition sent (l : nat) (log : list entry) : list (list Z) :=
  omap (fun e => match e with Sent k b => if decide (k = l) then Some b else None | _ => None end) log.

(** The life of a line as its neighbours see it. *)
Inductive phase : Set := Fresh | Open | Over.

#[export] Instance phase_eq : EqDecision phase.
Proof. solve_decision. Defined.

Definition phase_step (l : nat) (ph : phase) (e : entry) : phase :=
  match e with
  | Opened k => if decide (k = l) then Open else ph
  | Closed k | Ended k => if decide (k = l) then Over else ph
  | _ => ph
  end.
Definition phase_of (l : nat) (log : list entry) : phase := foldl (phase_step l) Fresh log.

(** A line is opened once; it is written to and finished only while it is open. *)
Definition entry_ok (log : list entry) (e : entry) : bool :=
  match e with
  | Opened l => bool_decide (phase_of l log = Fresh)
  | Sent l _ | Closed l => bool_decide (phase_of l log = Open)
  | _ => true
  end.
Fixpoint log_ok (before : list entry) (log : list entry) : bool :=
  match log with
  | [] => true
  | e :: rest => entry_ok before e && log_ok (before ++ [e]) rest
  end.

Lemma log_ok_snoc log e : forall before,
  log_ok before (log ++ [e]) = log_ok before log && entry_ok (before ++ log) e.
Proof.
  induction log as [|x log IH]; intros before; cbn [app log_ok].
  - by rewrite app_nil_r, andb_true_r.
  - rewrite IH, <- app_assoc. cbn [app]. by rewrite andb_assoc.
Qed.

Lemma phase_snoc l log e : phase_of l (log ++ [e]) = phase_step l (phase_of l log) e.
Proof. unfold phase_of. by rewrite foldl_app. Qed.

Lemma closed_over l log : phase_of l (log ++ [Closed l]) = Over.
Proof. rewrite phase_snoc. cbn. by rewrite decide_True. Qed.

(** The effect of one more entry. *)
Lemma received_snoc l log e :
  received l (log ++ [e]) = received l log ++ match e with Received k b => if decide (k = l) then b else [] | _ => [] end.
Proof.
  unfold received. rewrite omap_app, join_app. f_equal. destruct e; cbn; try done. case_decide; cbn; [by rewrite app_nil_r|done].
Qed.

Lemma extracted_snoc l log e :
  extracted_of l (log ++ [e]) = extracted_of l log ++ match e with Extracted k b => if decide (k = l) then [b] else [] | _ => [] end.
Proof. unfold extracted_of. rewrite omap_app. f_equal. destruct e; cbn; try done. by case_decide. Qed.

Lemma delivered_snoc l log e :
  delivered l (log ++ [e]) = delivered l log ++ match e with Delivered k b => if decide (k = l) then [b] else [] | _ => [] end.
Proof. unfold delivered. rewrite omap_app. f_equal. destruct e; cbn; try done. by case_decide. Qed.

Lemma sent_snoc l log e :
  sent l (log ++ [e]) = sent l log ++ match e with Sent k b => if decide (k = l) then [b] else [] | _ => [] end.
Proof. unfold sent. rewrite omap_app. f_equal. destruct e; cbn; try done. by case_decide. Qed.

(** ** What is kept of the packets *)

Definition heartbeat (fill : Z) (p : list Z) : bool :=
  (zlen p =? 25) && (byte_at p 0 / 16 =? 4) && (byte_at p 0 mod 16 =? 5) && (byte_at p 9 =? 0xFD) &&
  bool_decide (drop 20 p = replicate 5 fill).

Definition keep (ts : packetstostream_tstate_t) (p : list Z) : bool :=
  negb (sensitive_mode ts && heartbeat kSensitivePongByte p) && level_sound (packet_validation_level ts) p.

Definition keeps (ts : packetstostream_tstate_t) (ps : list (list Z)) : list (list Z) := filter (fun p => keep ts p = true) ps.

(** ** References *)

Definition frame_refs (f : frame) : list nat :=
  match f with
  | KReturn => []
  | KEnsure l _ | KPayload l | KPing l _ | KStop l | KDrain l => [l]
  | KClose l d => l :: option_list d
  end.
Definition frame_drains (f : frame) : list nat := match f with KDrain l => [l] | _ => [] end.
(** The line of a close is over for good. *)
Definition frame_ok (log : list entry) (f : frame) : Prop :=
  match f with
  | KEnsure _ (AfterPayload b _) => good b
  | KClose l _ | KStop l => phase_of l log = Over
  | _ => True
  end.

Section Invariant.
Context `{Allocator} {P : Type} `{PoolLaws P} (ts : packetstostream_tstate_t).
(** The log before the handler. *)
Context (base : list entry).
Implicit Types w : world P.

(** The bytes of the attached line that were received but not extracted. *)
Definition waiting (s : buffer_stream_t) (i : ipv4stream_input_t) : list Z := contents (q s) ++ queued i.

(** The parser state belongs to the attached line. *)
Definition parser_ok w (ds : list nat) : Prop :=
  match read_stream (ls w) with
  | None => ls_line (ls w) = None
  | Some s =>
      stream_wf s /\ input_ok (read_input (ls w)) /\
      (draining (read_input (ls w)) = false -> incomplete (contents (q s))) /\
      match ls_line (ls w) with
      | None => draining (read_input (ls w)) = false
      | Some l => cnt l ds = (if draining (read_input (ls w)) then 1 else 0) /\
          frames (received l (log w)) =
            (extracted_of l (log w) ++ fst (frames (waiting s (read_input (ls w)))),
             snd (frames (waiting s (read_input (ls w)))))
      end
  end.

(** [refs] are the references held by handlers and neighbours, [ds] the lines of
    the drain loops, [k] bounds the references a handler can still take. *)
Record mid w (refs ds : list nat) (k : Z) : Prop := mk_mid {
  m_base : base `prefix_of` log w;
  m_pool : pool_inv (pool w);
  m_lines : lines_ok (lines w) refs;
  m_room : forall l x, lines w !! l = Some x -> refc x + k <= LINE_REFC_MAX;
  m_fresh : forall l, is_Some (lines w !! l) -> (l < next_line w)%nat;
  m_line : forall l, ls_line (ls w) = Some l -> is_alive (lines w) l = true;
  m_drains : Forall (fun l => (l < next_line w)%nat) ds;
  m_parser : parser_ok w ds;
  m_kept : forall l, delivered l (log w) = keeps ts (extracted_of l (log w));
  m_prefix : forall l, extracted_of l (log w) `prefix_of` fst (frames (received l (log w)));
  m_sent : forall l, Forall (fun p => packet p /\ zlen p <= kMaxAllowedPacketLength) (sent l (log w));
  m_log : log_ok [] (log w) = true;
  m_open : forall l, ls_line (ls w) = Some l -> phase_of l (log w) = Open;
  m_unused : forall l, (next_line w <= l)%nat ->
    phase_of l (log w) = Fresh /\ received l (log w) = [] /\ extracted_of l (log w) = [];
  m_ping : awaiting_pong (ls w) = true ->
    (timeout_timer w = true /\ pong_deadline_ms (ls w) <= ping_sent_at_ms (ls w) + tolerance_ms ts) \/ shutdown w = true;
  m_heart : heartbeat_timer w = true -> sensitive_mode ts = true
}.

(** What a handler leaves behind. *)
Definition post (w : world P) (f : option frame) (refs ds : list nat) : Prop :=
  match f with
  | None => mid w refs ds 0
  | Some f => mid w (frame_refs f ++ refs) (frame_drains f ++ ds) 0 /\ frame_ok (log w) f
  end.

Definition runs (r : run P) (refs ds : list nat) : Prop :=
  exists w f, r = Ok (w, f) /\ post w f refs ds.

(** ** Steps that touch one part *)

Lemma mid_room w refs ds k k' : k' <= k -> mid w refs ds k -> mid w refs ds k'.
Proof. intros Hk []. split; auto. intros l x E. specialize (m_room0 l x E). lia. Qed.

Lemma mid_refs w refs refs' ds k : refs ≡ₚ refs' -> mid w refs ds k -> mid w refs' ds k.
Proof. intros E []. split; auto. by rewrite <- E. Qed.

(** Without an attached line the drain loops do not matter. *)
Lemma mid_detached w refs ds ds' k :
  ls_line (ls w) = None -> Forall (fun l => (l < next_line w)%nat) ds' -> mid w refs ds k -> mid w refs ds' k.
Proof.
  intros E F []. split; auto. unfold parser_ok in *. destruct (read_stream (ls w)); [|done]. by destruct (ls_line (ls w)).
Qed.

Lemma drop_drain w refs l ds k : ls_line (ls w) <> Some l -> mid w refs (l :: ds) k -> mid w refs ds k.
Proof.
  intros N []. split; auto; [by apply Forall_cons in m_drains0 as [_ ?]|]. unfold parser_ok in *.
  destruct (read_stream (ls w)); [|done]. destruct (ls_line (ls w)) as [l'|]; [|done].
  rewrite cnt_cons, decide_False in m_parser0 by congruence. by rewrite Z.add_0_l in m_parser0.
Qed.

Lemma pool_mid w refs ds k p : pool_inv p -> mid w refs ds k -> mid (set_pool w p) refs ds k.
Proof. intros I []. by split. Qed.

Lemma reuse_mid w refs ds k b : good b -> mid w refs ds k ->
  exists p, reuse w b = Ok (set_pool w p) /\ mid (set_pool w p) refs ds k.
Proof.
  intros [W O] M. destruct (pool_reuse_law (pool w) b (m_pool _ _ _ _ M) W O) as (p & E & I & _).
  exists p. unfold reuse. rewrite E. split; [done|]. by apply pool_mid.
Qed.

Lemma lines_mid w refs refs' ds k k' L :
  lines_ok L refs' -> (forall l x, L !! l = Some x -> refc x + k' <= LINE_REFC_MAX) ->
  (forall l, is_Some (L !! l) -> is_Some (lines w !! l)) ->
  (forall l, ls_line (ls w) = Some l -> is_alive L l = true) ->
  mid w refs ds k -> mid (set_lines w L) refs' ds k'.
Proof. intros O R S A []. split; auto. Qed.

Lemma shrinks_room (L L' : lines_t) k :
  shrinks L L' -> (forall l x, L !! l = Some x -> refc x + k <= LINE_REFC_MAX) ->
  (forall l x, L' !! l = Some x -> refc x + k <= LINE_REFC_MAX) /\ (forall l, is_Some (L' !! l) -> is_Some (L !! l)).
Proof.
  intros S R. split.
  - intros l x E. destruct (S l x E) as (y & Ey & Le). specialize (R l y Ey). lia.
  - intros l [x E]. destruct (S l x E) as (y & Ey & _). by exists y.
Qed.

Lemma unref_mid w l refs ds k : mid w (l :: refs) ds k ->
  exists L, on_lines w (fun L => lineUnref L l) = Ok (set_lines w L) /\ mid (set_lines w L) refs ds k /\
    forall j, is_alive L j = is_alive (lines w) j.
Proof.
  intros M. destruct (unref_ok _ _ _ (m_lines _ _ _ _ M)) as (L & E & O & A & S).
  destruct (shrinks_room _ _ k S (m_room _ _ _ _ M)) as [R Sub].
  exists L. unfold on_lines. rewrite E. splits; [done| |done]. eapply lines_mid; eauto.
  intros j Ej. rewrite A. by apply (m_line _ _ _ _ M).
Qed.

Lemma returned_mid w l refs ds k : mid w (l :: refs) ds k ->
  exists L, call_returned (lines w) l = Ok (is_alive (lines w) l, L) /\ mid (set_lines w L) refs ds k /\
    forall j, is_alive L j = is_alive (lines w) j.
Proof.
  intros M. destruct (call_returned_ok _ _ _ (m_lines _ _ _ _ M)) as (L & E & O & A & S).
  destruct (shrinks_room _ _ k S (m_room _ _ _ _ M)) as [R Sub].
  exists L. rewrite E. splits; [done| |done]. eapply lines_mid; eauto.
  intros j Ej. rewrite A. by apply (m_line _ _ _ _ M).
Qed.

Lemma ref_mid w l refs ds k : 0 < k -> is_alive (lines w) l = true -> mid w refs ds k ->
  exists L, on_lines w (fun L => lineRef L l) = Ok (set_lines w L) /\ mid (set_lines w L) (l :: refs) ds (k - 1) /\
    forall j, is_alive L j = is_alive (lines w) j.
Proof.
  intros Hk Al M. destruct (alive_here _ _ Al) as (x & Ex & Ax). pose proof (m_room _ _ _ _ M l x Ex) as R.
  destruct (ref_ok _ _ (m_lines _ _ _ _ M) l x Ex Ax) as (L & E & O & A & El & En); [lia|].
  exists L. unfold on_lines. rewrite E. splits; [done| |done]. eapply lines_mid; eauto.
  - intros j y Ej. destruct (decide (j = l)) as [->|D].
    + rewrite El in Ej. injection Ej as <-. cbn. lia.
    + rewrite En in Ej by done. pose proof (m_room _ _ _ _ M j y Ej). lia.
  - intros j [y Ej]. destruct (decide (j = l)) as [->|D]; [by exists x|]. rewrite En in Ej by done. by exists y.
  - intros j Ej. rewrite A. by apply (m_line _ _ _ _ M).
Qed.

Lemma destroy_mid w l refs ds k : is_alive (lines w) l = true -> ls_line (ls w) <> Some l -> mid w refs ds k ->
  exists L, on_lines w (fun L => lineDestroy L l) = Ok (set_lines w L) /\ mid (set_lines w L) refs ds k /\
    forall j, is_alive L j = if decide (j = l) then false else is_alive (lines w) j.
Proof.
  intros Al N M. destruct (line_destroy_ok _ _ (m_lines _ _ _ _ M) l Al) as (L & E & O & A & S).
  destruct (shrinks_room _ _ k S (m_room _ _ _ _ M)) as [R Sub].
  exists L. unfold on_lines. rewrite E. splits; [done| |done]. eapply lines_mid; eauto.
  intros j Ej. rewrite A, decide_False by congruence. by apply (m_line _ _ _ _ M).
Qed.

(** A line someone refers to is there. *)
Lemma held_mid w l refs ds k : l ∈ refs -> mid w refs ds k -> lineIsAlive (lines w) l = Ok (is_alive (lines w) l).
Proof. intros E M. apply alive_read. apply (held_here _ _ (m_lines _ _ _ _ M)) in E as [x Ex]. by exists x. Qed.

Lemma alive_mid w l : is_alive (lines w) l = true -> lineIsAlive (lines w) l = Ok true.
Proof. intros A. destruct (alive_here _ _ A) as (x & E & Ax). rewrite alive_read by (by exists x). by rewrite A. Qed.

Lemma schedule_mid w refs ds k accepted : mid w refs ds k ->
  mid (packetstostreamScheduleRecreateOutputLine w accepted) refs ds k /\
  ls_line (ls (packetstostreamScheduleRecreateOutputLine w accepted)) = ls_line (ls w) /\
  lines (packetstostreamScheduleRecreateOutputLine w accepted) = lines w.
Proof.
  intros M. unfold packetstostreamScheduleRecreateOutputLine. destruct (recreate_scheduled (ls w)); [done|].
  destruct accepted; destruct M; (split; [by split|done]).
Qed.

Lemma timer_mid w refs ds k v : awaiting_pong (ls w) = false \/ v = true \/ shutdown w = true -> mid w refs ds k -> mid (set_timer w v) refs ds k.
Proof.
  intros Hv []. split; auto. cbn. intros A. destruct Hv as [Hv|[->|Hv]]; [congruence| |by right].
  destruct (m_ping0 A) as [[_ D]|S]; [by left|by right].
Qed.

(** Detaching the line and clearing the parser. *)
Lemma reset_mid w refs ds ds' k : Forall (fun l => (l < next_line w)%nat) ds' -> mid w refs ds k ->
  exists w', packetstostreamResetOutputLineState w = Ok w' /\ mid w' refs ds' k /\ ls_line (ls w') = None /\
    lines w' = lines w /\ log w' = log w /\ next_line w' = next_line w /\ awaiting_pong (ls w') = false /\
    (is_Some (read_stream (ls w')) <-> is_Some (read_stream (ls w))).
Proof.
  intros F M. pose proof M as []. unfold packetstostreamResetOutputLineState, packetstostreamDisarmTimeoutTimer. cbn [set_ls set_timer ls read_stream pool read_input].
  unfold parser_ok in m_parser0. destruct (read_stream (ls w)) as [s|] eqn:Es.
  - destruct m_parser0 as (W & IO & _). destruct (empty_spec s (pool w) W m_pool0) as (p & -> & Ip & _ & We). step_ok.
    destruct (input_reset_ok (read_input (ls w)) p IO Ip) as (i & p' & -> & Ip' & IO' & D & Q). step_ok.
    eexists. splits; [done| |done..]. split; auto; cbn; try done.
    unfold parser_ok. cbn. splits; try done. intros _. left. done.
  - eexists. splits; [done| |done..]. split; auto; cbn; try done.
Qed.

(** ** Entries of the log *)

(** Entries that do not concern the parser. *)
Definition recordable w (e : entry) : Prop :=
  match e with
  | Closed l => ls_line (ls w) <> Some l /\ phase_of l (log w) = Open
  | Ended l => ls_line (ls w) <> Some l /\ (l < next_line w)%nat
  | Sent l p => ls_line (ls w) = Some l /\ packet p /\ zlen p <= kMaxAllowedPacketLength
  | _ => False
  end.

Lemma open_below w refs ds k l : mid w refs ds k -> phase_of l (log w) = Open -> (l < next_line w)%nat.
Proof.
  intros M E. destruct (decide (next_line w <= l)%nat) as [Le|]; [|lia].
  destruct (m_unused _ _ _ _ M l Le) as (F & _). congruence.
Qed.

Lemma record_mid w e refs ds k : recordable w e -> mid w refs ds k -> mid (record w e) refs ds k.
Proof.
  intros R M. pose proof M as [].
  assert (forall l, received l (log w ++ [e]) = received l (log w) /\ extracted_of l (log w ++ [e]) = extracted_of l (log w) /\
    delivered l (log w ++ [e]) = delivered l (log w)) as Q.
  { intros l. rewrite received_snoc, extracted_snoc, delivered_snoc. destruct e; try done; by rewrite !app_nil_r. }
  assert (log (record w e) = log w ++ [e]) as El by done.
  split; auto; rewrite ?El.
  - by apply prefix_app_r.
  - unfold parser_ok in *. rewrite El. change (ls (record w e)) with (ls w). destruct (read_stream (ls w)); [|done].
    destruct (ls_line (ls w)) as [l|]; [|done]. destruct (Q l) as (-> & -> & _). done.
  - intros l. destruct (Q l) as (_ & -> & ->). done.
  - intros l. destruct (Q l) as (-> & -> & _). done.
  - intros l. rewrite sent_snoc. destruct e; try (by rewrite app_nil_r). apply Forall_app. split; [done|].
    case_decide; [|done]. constructor; [apply R|done].
  - rewrite log_ok_snoc. apply andb_true_iff. split; [done|]. destruct e; try done; apply bool_decide_eq_true_2; [|apply R].
    apply m_open0, R.
  - intros l E. change (ls_line (ls w) = Some l) in E. rewrite phase_snoc. rewrite (m_open0 l E). destruct e; try done; cbn; destruct R as [R _]; by rewrite decide_False by congruence.
  - intros l Le. destruct (Q l) as (-> & -> & _). destruct (m_unused0 l Le) as (F & ? & ?). splits; try done.
    rewrite phase_snoc, F. cbn in Le. destruct e; try done; cbn; rewrite decide_False; try done; intros ->.
    + destruct R as [_ R]. pose proof (open_below w refs ds k l M R). lia.
    + destruct R as [_ R]. lia.
Qed.

(** ** Closing the output line *)

Lemma finish_returned_mid w l refs ds k : ls_line (ls w) <> Some l -> mid w (l :: refs) ds k ->
  exists L, finish_returned w l = Ok (set_lines w L) /\ mid (set_lines w L) refs ds k.
Proof.
  intros N M. unfold finish_returned. rewrite (held_mid w l (l :: refs) ds k) by (done || left). step_ok.
  destruct (is_alive (lines w) l) eqn:A.
  - destruct (destroy_mid w l (l :: refs) ds k A N M) as (L & -> & M1 & _). step_ok.
    destruct (unref_mid (set_lines w L) l refs ds k M1) as (L2 & -> & M2 & _). by exists L2.
  - step_ok. destruct (unref_mid w l refs ds k M) as (L2 & -> & M2 & _). by exists L2.
Qed.

Lemma close_rest_mid w (d : option nat) refs ds k accepted : mid w (option_list d ++ refs) ds k -> 0 <= k ->
  runs (w ← match d with Some d => on_lines (packetstostreamScheduleRecreateOutputLine w accepted) (fun L => lineUnref L d)
        | None => mret (packetstostreamScheduleRecreateOutputLine w accepted) end; returned w) refs ds.
Proof.
  intros M Hk. destruct (schedule_mid w _ ds k accepted M) as (M1 & _). destruct d as [d|]; cbn [option_list app] in *.
  - destruct (unref_mid _ d refs ds k M1) as (L & -> & M2 & _). step_ok. eexists _, None. split; [done|].
    cbn [post]. by eapply mid_room; [|exact M2].
  - step_ok. eexists _, None. split; [done|]. cbn [post]. by eapply mid_room; [|exact M1].
Qed.

Lemma close_mid w (d : option nat) refs ds ds' k accepted :
  0 < k -> Forall (fun l => (l < next_line w)%nat) ds' -> mid w (option_list d ++ refs) ds k ->
  runs (packetstostreamCloseOutputLineAndScheduleRecreate w d accepted) refs ds'.
Proof.
  intros Hk F M. unfold packetstostreamCloseOutputLineAndScheduleRecreate.
  destruct (reset_mid w _ ds ds' k F M) as (w1 & -> & M1 & E1 & E2 & E3 & E4 & _). step_ok.
  destruct (ls_line (ls w)) as [l|] eqn:El.
  - pose proof (m_line _ _ _ _ M l El) as A. pose proof (m_open _ _ _ _ M l El) as Op.
    rewrite E2, (alive_mid w l A). step_ok. rewrite <- E2 in A.
    destruct (ref_mid w1 l _ ds' k Hk A M1) as (L & -> & M2 & _). step_ok.
    eexists _, (Some (KClose l d)). split; [done|]. split; [|apply closed_over].
    cbn [frame_refs frame_drains app]. apply record_mid; [split; cbn; rewrite ?E1, ?E3; done|]. eapply mid_room; [|exact M2]. lia.
  - step_ok. eapply close_rest_mid; [exact M1|lia].
Qed.

Lemma close_returned_mid w l d refs ds accepted :
  ls_line (ls w) <> Some l -> mid w (l :: option_list d ++ refs) ds 0 ->
  runs (close_returned w l d accepted) refs ds.
Proof.
  intros N M. unfold close_returned. destruct (finish_returned_mid w l _ ds 0 N M) as (L & -> & M1). step_ok.
  eapply close_rest_mid; [exact M1|lia].
Qed.
End Invariant.
