(* ===== verification/CarrierSteps.v ===== *)
(** * The handlers of the carrier ([tunnels/PacketsToStream])

    Every handler of [PacketCarrier], up to its next callback and after it,
    succeeds from a state that satisfies the invariant and leaves such a state. *)

From Stdlib Require Import ZArith Lia.
From stdpp Require Import base numbers option list gmap.
From S2P Require Import Prelude ShiftBuffer PoolInterface Endian Checksum BufferStream BufferQueue LineRefs.
From S2P Require Import PacketChecksum PacketView TransportChecksum PacketValidate PacketStream PacketFrames StreamInput PacketCarrier CarrierInvariant.
Open Scope Z_scope.
Open Scope word_scope.

(** Overwriting a part of the payload. *)
Lemma write_payload (b : sbuf_t) (off : Z) (bs : list Z) :
  good b -> 0 <= off -> off + zlen bs <= len b -> Forall u8 bs ->
  exists b', write_at b off bs = Ok b' /\ good b' /\ len b' = len b /\ payload b' = splice_at (payload b) off bs.
Proof.
  intros G Ho Hf Hu. pose proof (room_nonneg b G) as R. pose proof (zlen_raw b G) as Lr. pose proof (zlen_nonneg bs) as N.
  destruct (write_raw b G off bs) as (b' & E & G' & Er & _ & El & _); [lia|lia|done|].
  exists b'. splits; try done. rewrite !payload_raw, Er, El. unfold slice, splice_at, zlen in *. rewrite !drop_0.
  rewrite take_app_ge by (rewrite length_take; lia). rewrite take_app_ge by (rewrite length_take; lia).
  rewrite take_take, length_take, Nat.min_l by lia. rewrite (Nat.min_l (Z.to_nat off) (Z.to_nat (len b))) by lia.
  do 2 f_equal. rewrite skipn_firstn_comm. f_equal. lia.
Qed.

(** A buffer for a packet the node makes itself. *)
Lemma best_fit_buffer {P} `{PoolLaws P} (p : P) n : pool_inv p -> 0 <= n <= UINT16_MAX ->
  exists b q b', pool_get_best_fit p n (pool_large_padding p) = Ok (b, q) /\ pool_inv q /\
    sbufSetLength b n = Ok b' /\ good b' /\ len b' = n.
Proof.
  intros I Hn. destruct (pool_geometry p I) as [_ Hp]. unfold UINT16_MAX in *.
  assert (creatable n (pool_large_padding p)) as C.
  { unfold creatable, round_line, round_pad, UINT16_MAX, UINT32_MAX. splits; try lia; Z.div_mod_to_equations; lia. }
  destruct (pool_best_fit_law p n _ I C) as (b & q & E & Iq & _ & Ib & Hc & _); [unfold u16, UINT16_MAX; lia|].
  pose proof (idle_good b Ib) as G. pose proof (idle_curpos b Ib) as Cp. destruct (G) as [W O].
  pose proof (set_length_ok b n W) as S. pose proof W as []. unfold UINT32_MAX in *.
  exists b, q, (set_pos_len b (curpos b) n). rewrite S by lia. splits; try done.
  eapply set_length_good; [exact G| | |apply S]; unfold UINT32_MAX; lia.
Qed.

Lemma cnt_fresh n ds : Forall (fun l => (l < n)%nat) ds -> cnt n ds = 0.
Proof. induction 1; [done|]. rewrite cnt_cons, decide_False by lia. lia. Qed.

Section Handlers.
Context `{InetChecksumLaws} `{!NetOrderLaws} `{Allocator} {P : Type} `{PoolLaws P}.
Context (ts : packetstostream_tstate_t) (base : list entry).
Implicit Types w : world P.
Local Abbreviation mid := (mid ts base).
Local Abbreviation runs := (runs ts base).

Lemma done_runs w refs ds k : 0 <= k -> mid w refs ds k -> runs (returned w) refs ds.
Proof. intros Hk M. exists w, None. split; [done|]. by eapply mid_room. Qed.

Lemma waits_runs w f refs ds k : 0 <= k -> frame_ok (log w) f ->
  mid w (frame_refs f ++ refs) (frame_drains f ++ ds) k -> runs (waits w f) refs ds.
Proof. intros Hk F M. exists w, (Some f). split; [done|]. split; [|done]. by eapply mid_room. Qed.

Lemma reuse_done w b refs ds k : 0 <= k -> good b -> mid w refs ds k ->
  runs (w ← reuse w b; returned w) refs ds.
Proof.
  intros Hk G M. destruct (reuse_mid ts base w refs ds k b G M) as (p & -> & M'). step_ok. by eapply done_runs.
Qed.

Lemma resume_source w l refs ds k : 0 <= k -> mid w refs ds k -> runs (packetstostreamResumePacketSource w l) refs ds.
Proof.
  intros Hk M. unfold packetstostreamResumePacketSource. destruct l as [l|]; [|by eapply done_runs].
  case_bool_decide as E; [|by eapply done_runs]. rewrite alive_mid by (by eapply m_line). step_ok.
  destruct (true && negb (paused (ls w))); [by eapply waits_runs|by eapply done_runs].
Qed.

(** ** The output line *)

Lemma initialize_mid w refs ds k : mid w refs ds k ->
  exists w' s, match read_stream (ls w) with None => packetstostreamLinestateInitialize w | Some _ => mret w end = Ok w' /\
    mid w' refs ds k /\ read_stream (ls w') = Some s /\ lines w' = lines w /\ next_line w' = next_line w.
Proof.
  intros M. destruct (read_stream (ls w)) as [s|] eqn:Es; [by exists w, s|].
  unfold packetstostreamLinestateInitialize. destruct input_init_ok as (i & -> & IO & D & Q). step_ok. do 2 eexists.
  splits; [done| |done..]. pose proof M as []. split; auto; cbn; try done.
  unfold parser_ok. cbn. splits; try done.
  intros _. by left.
Qed.

(** A new line, attached and announced. *)
Lemma open_mid w s refs ds k p i : ls_line (ls w) = None -> read_stream (ls w) = Some s -> k <= 3 ->
  stream_wf s -> contents (q s) = [] -> input_ok i -> draining i = false -> queued i = [] -> pool_inv p ->
  mid w refs ds k ->
  mid (record (mk_world (set_line (set_input (ls w) s i) (Some (next_line w))) p (lineCreate (lines w) (next_line w)) (S (next_line w))
         (timeout_timer w) (heartbeat_timer w) (tasks w) (shutdown w) (log w)) (Opened (next_line w))) refs ds k.
Proof.
  intros El Es Hk W C IO D Q I M. pose proof M as []. destruct (m_unused (next_line w)) as (F & R & X); [lia|].
  assert (lines w !! next_line w = None) as N.
  { destruct (lines w !! next_line w) as [x|] eqn:E; [|done]. specialize (m_fresh (next_line w)). rewrite E in m_fresh.
    assert (next_line w < next_line w)%nat by (apply m_fresh; by eexists). lia. }
  destruct (line_create_ok _ _ m_lines (next_line w) N) as [O A].
  assert (forall l, received l (log w ++ [Opened (next_line w)]) = received l (log w) /\
    extracted_of l (log w ++ [Opened (next_line w)]) = extracted_of l (log w) /\
    delivered l (log w ++ [Opened (next_line w)]) = delivered l (log w) /\
    sent l (log w ++ [Opened (next_line w)]) = sent l (log w)) as Same.
  { intros l. by rewrite received_snoc, extracted_snoc, delivered_snoc, sent_snoc, !app_nil_r. }
  split; cbn [record set_line set_input ls pool lines next_line log ls_line awaiting_pong timeout_timer shutdown ping_sent_at_ms pong_deadline_ms];
    try done; try (intros l; destruct (Same l) as (E1 & E2 & E3 & E4)).
  - by apply prefix_app_r.
  - intros x. unfold lineCreate. destruct (decide (l = next_line w)) as [->|Dn].
    + rewrite lookup_insert_eq. intros [= <-]. cbn. unfold LINE_REFC_MAX, UINT32_MAX. lia.
    + rewrite lookup_insert_ne by done. apply m_room.
  - unfold lineCreate. destruct (decide (l = next_line w)) as [->|Dn]; [lia|]. rewrite lookup_insert_ne by done.
    intros S. apply m_fresh in S. lia.
  - intros [= <-]. rewrite A. by rewrite decide_True.
  - eapply Forall_impl; [exact m_drains|]. cbn. lia.
  - unfold parser_ok. cbn [record ls set_line set_input read_stream read_input ls_line log]. destruct (Same (next_line w)) as (-> & -> & _).
    rewrite R, X, D. unfold waiting. rewrite C, Q. splits; try done; [by left|]. by apply cnt_fresh.
  - rewrite E2, E3. done.
  - rewrite E1, E2. done.
  - rewrite E4. done.
  - rewrite log_ok_snoc, m_log. cbn. by apply bool_decide_eq_true_2.
  - intros [= <-]. rewrite phase_snoc. cbn. by rewrite decide_True.
  - intros Le. rewrite E1, E2. destruct (m_unused l) as (F' & ? & ?); [lia|]. splits; try done. rewrite phase_snoc, F'. cbn.
    rewrite decide_False by lia. done.
Qed.

Lemma ensure_mid w c refs ds k : k <= 3 -> 0 < k -> mid w refs ds k ->
  exists w' r, packetstostreamEnsureOutputLine w c = Ok (w', r) /\
    match r with
    | inl (l, created) => mid w' refs ds k /\ forall j, l = Some j -> ls_line (ls w') = Some j
    | inr f => exists n, f = KEnsure n c /\ mid w' (n :: refs) ds 0
    end.
Proof.
  intros Hk Hp M. unfold packetstostreamEnsureOutputLine.
  destruct (initialize_mid w refs ds k M) as (w1 & s & -> & M1 & Es & _ & _). step_ok.
  destruct (ls_line (ls w1)) as [l|] eqn:El.
  { rewrite alive_mid by (by eapply m_line). step_ok. do 2 eexists. split; [done|]. split; [done|]. by intros j [= ->]. }
  step_ok. destruct (recreate_scheduled (ls w1)); [by do 2 eexists|].
  cbn [set_ls set_paused set_line ls read_stream pool read_input]. rewrite Es.
  pose proof (m_parser _ _ _ _ _ _ M1) as PO. unfold parser_ok in PO. rewrite Es, El in PO. destruct PO as (W & IO & _ & D).
  destruct (empty_spec s (pool w1) W (m_pool _ _ _ _ _ _ M1)) as (p & -> & Ip & _ & We). step_ok.
  destruct (input_reset_ok (read_input (ls w1)) p IO Ip) as (i & p' & -> & Ip' & IO' & D' & Q'). step_ok.
  set (w2 := set_ls w1 (set_input (set_paused (ls w1) false) (set_q_size s [] 0) i)).
  assert (mid w2 refs ds k) as M2.
  { destruct M1. split; auto; cbn; try done. unfold parser_ok. cbn. rewrite El. splits; try done. left; done. }
  assert (M3 := open_mid w2 (set_q_size s [] 0) refs ds k p' i El eq_refl Hk We eq_refl IO' D' Q' Ip' M2).
  destruct (ref_mid ts base _ (next_line w2) refs ds k Hp (m_line _ _ _ _ _ _ M3 _ eq_refl) M3) as (L & E & M4 & _).
  unfold on_lines in *. cbn [lines set_ls set_pool record] in *. destruct (lineRef _ _) as [L'|]; [|done]. cbn in E. injection E as <-.
  step_ok. do 2 eexists. split; [done|]. eexists. split; [done|]. eapply mid_room; [|exact M4]. lia.
Qed.

Lemma ensure_returned_mid w n refs ds k : mid w (n :: refs) ds k ->
  exists w' l created, ensure_returned w n = Ok (w', (l, created)) /\ mid w' refs ds k /\ l = ls_line (ls w').
Proof.
  intros M. unfold ensure_returned. destruct (returned_mid ts base w n refs ds k M) as (L & -> & M1 & A). step_ok.
  cbn [set_lines ls]. destruct (negb (is_alive (lines w) n)) eqn:Al; [|by do 3 eexists].
  case_bool_decide as E; [|by do 3 eexists]. apply (m_line _ _ _ _ _ _ M) in E. by rewrite E in Al.
Qed.

(** ** Packets from the packet line *)

Lemma drop_runs w b l (created : bool) refs ds k : 0 <= k -> good b -> mid w refs ds k ->
  runs (w ← reuse w b; if created then packetstostreamResumePacketSource w l else returned w) refs ds.
Proof.
  intros Hk G M. destruct (reuse_mid ts base w refs ds k b G M) as (p & -> & M'). step_ok.
  destruct created; [by eapply resume_source|by eapply done_runs].
Qed.

Lemma send_mid w l b refs ds k : ls_line (ls w) = Some l -> packet (payload b) -> zlen (payload b) <= kMaxAllowedPacketLength ->
  mid w refs ds k -> mid (send w l b) refs ds k.
Proof. intros. by apply record_mid. Qed.

(** Recalculated checksums keep the buffer and its length. *)
Lemma recalculated b (r : bool) : good b ->
  exists b', (if r then bytes ← read_at b 0 (sbufGetLength b);
                 '(_, bytes) ← calcFullPacketChecksum bytes (sbufGetLength b); mret (set_payload b bytes)
       else mret b) = Ok b' /\ good b' /\ len b' = len b.
Proof.
  intros G. pose proof G as [W _]. pose proof (zlen_payload b W) as Lp. destruct r; [|by exists b]. unfold sbufGetLength.
  rewrite read_payload by (auto; pose proof (wf_len b W); lia). rewrite take_ge by (unfold zlen in Lp; lia). step_ok.
  assert (calcFullPacketChecksum (payload b) (len b) = calcFullPacketChecksum (payload b) (zlen (payload b))) as -> by (by rewrite Lp).
  destruct (calc_full_shape (payload b) (payload_u8 b W)) as (ok & q & -> & Lq & Uq). step_ok.
  eexists. split; [done|]. rewrite Lp in Lq. destruct (set_payload_spec b q G Lq Uq) as (? & _ & ?). done.
Qed.

Lemma payload_rest_runs w b r l created refs ds k : 0 < k -> good b -> (forall j, l = Some j -> ls_line (ls w) = Some j) ->
  mid w refs ds k -> runs (upstream_payload_rest w b r l created) refs ds.
Proof.
  intros Hk G Hl M. unfold upstream_payload_rest. destruct l as [l|]; [|eapply drop_runs; eauto; lia]. specialize (Hl l eq_refl).
  destruct (_ || _); [eapply drop_runs; eauto; lia|].
  destruct (recalculated b r G) as (b' & -> & G' & _). step_ok.
  destruct (forwardable_exact b' G') as (f & -> & Hf). step_ok.
  destruct f; cbn [negb]; [|eapply drop_runs; eauto; lia]. destruct Hf as [[Hp Hm] _]; [done|].
  destruct created; cbn [negb].
  - destruct (ref_mid ts base w l refs ds k Hk (m_line _ _ _ _ _ _ M l Hl) M) as (L & -> & M1 & _). step_ok.
    eapply (waits_runs _ _ _ _ (k - 1)); [lia|done|]. by apply send_mid.
  - eapply (waits_runs _ _ _ _ k); [lia|done|]. by apply send_mid.
Qed.

Lemma payload_returned_runs w l refs ds k : 0 <= k -> mid w (l :: refs) ds k -> runs (payload_returned w l) refs ds.
Proof.
  intros Hk M. unfold payload_returned. destruct (returned_mid ts base w l refs ds k M) as (L & -> & M1 & _). step_ok.
  destruct (is_alive (lines w) l); [by eapply resume_source|by eapply done_runs].
Qed.

(** ** Pings *)

Lemma inet_header_total header : zlen header = IP_HLEN -> Forall u8 header -> exists c, inet_chksum header IP_HLEN = Ok c.
Proof.
  intros L U. rewrite <- L. rewrite inet_chksum_hook, wwLwipChecksum_sum; [by eexists|by apply u8_bytes|by rewrite L].
Qed.

Lemma heartbeat_bytes (p0 : list Z) (fill c : Z) : zlen p0 = 25 -> u8 fill ->
  let p := splice_at (splice_at (splice_at (splice_at (splice_at (splice_at (splice_at (splice_at p0
    0 (replicate 20 0)) 0 [Z.lor (Z.shiftl 4 4) (IP_HLEN / 4)]) 2 (le_bytes 2 (lwip_htons kHeartbeatPacketSize)))
    8 [64]) 9 [kHeartbeatProtocol]) 10 (le_bytes 2 0)) 10 (le_bytes 2 c)) IP_HLEN (replicate 5 fill) in
  packet p /\ zlen p = kHeartbeatPacketSize /\ heartbeat fill p = true.
Proof.
  intros L F. rewrite htons_swap by (vm_compute; split; congruence).
  assert (length p0 = 25%nat) as L' by (unfold zlen in L; lia). clear L. rename L' into L.
  do 25 (destruct p0 as [|? p0]; [discriminate L|]). destruct p0; [|discriminate L].
  split; [|split; [reflexivity|unfold heartbeat; rewrite bool_decide_eq_true_2 by done; reflexivity]].
  split; [by vm_compute|split; reflexivity].
Qed.

Ltac put_bytes F :=
  match goal with
  | |- context [write_at ?b ?off ?bs] =>
      let b' := fresh "b" in let E := fresh "E" in let G := fresh "G" in let L := fresh "L" in let Q := fresh "Q" in
      destruct (write_payload b off bs) as (b' & E & G & L & Q);
        [assumption|unfold IP_HLEN; lia|unfold zlen, IP_HLEN; simpl length; lia
        |first [apply le_bytes_u8|cbn [replicate]; repeat (constructor; [first [exact F|split; vm_compute; congruence]|]); constructor]
        |rewrite E; step_ok]
  end.

Lemma heartbeat_mid w fill refs ds k : u8 fill -> mid w refs ds k ->
  exists b p, packetstostreamCreateHeartbeatPacket w fill = Ok (b, set_pool w p) /\ mid (set_pool w p) refs ds k /\
    good b /\ packet (payload b) /\ zlen (payload b) = kHeartbeatPacketSize /\ heartbeat fill (payload b) = true.
Proof.
  intros F M. unfold packetstostreamCreateHeartbeatPacket.
  destruct (best_fit_buffer (pool w) kHeartbeatPacketSize (m_pool _ _ _ _ _ _ M)) as (b0 & p & b1 & -> & Ip & E1 & G1 & L1);
    [by vm_compute|]. step_ok. rewrite E1. step_ok. change kHeartbeatPacketSize with 25 in L1.
  pose proof (zlen_payload b1 (proj1 G1)) as Lp. rewrite L1 in Lp.
  put_bytes F. put_bytes F. put_bytes F. put_bytes F. put_bytes F. put_bytes F.
  match goal with
  | G : good ?b |- context [read_at ?b 0 IP_HLEN] => rewrite (read_payload b IP_HLEN (proj1 G)) by (unfold IP_HLEN; lia);
      destruct (inet_header_total (take (Z.to_nat IP_HLEN) (payload b))) as [c Ec];
        [pose proof (zlen_payload b (proj1 G)); unfold zlen, IP_HLEN in *; rewrite length_take; lia
        |by apply Forall_take, payload_u8, G|]
  end.
  step_ok. rewrite Ec. step_ok. put_bytes F. put_bytes F. do 2 eexists. split; [done|]. split; [by apply pool_mid|]. split; [done|].
  repeat match goal with Q : payload ?b = splice_at _ _ _ |- context [payload ?b] => rewrite Q end.
  by apply heartbeat_bytes.
Qed.

Lemma add64_le a b : 0 <= a -> 0 <= b -> a +64 b <= a + b.
Proof. intros. unfold wrap64. apply Z.mod_le; lia. Qed.

Lemma shutdown_mid w refs ds k : mid w refs ds k -> mid (set_shutdown w) refs ds k.
Proof. intros []. split; auto. Qed.

Lemma ping_runs w l created now timer refs ds k : 0 < k -> 0 <= now -> 0 <= tolerance_ms ts ->
  ls_line (ls w) = Some l -> mid w refs ds k -> runs (packetstostreamSendSensitivePing ts w l created now timer) refs ds.
Proof.
  intros Hk Hn Ht Hl M. unfold packetstostreamSendSensitivePing.
  destruct (heartbeat_mid w kSensitivePingByte refs ds k) as (b & p & -> & M1 & G & Hp & Lp & _); [by vm_compute|done|]. step_ok.
  unfold packetstostreamArmTimeoutTimer. destruct (timeout_timer (set_pool w p)) eqn:Et; [|destruct timer].
  3: { destruct (reuse_mid ts base _ refs ds k b G M1) as (p' & -> & M2). step_ok. eapply (done_runs _ _ _ k); [lia|]. by apply shutdown_mid. }
  all: cbn [negb]; match goal with |- context [set_ls ?v _] => set (w1 := v);
    assert (mid (set_ls w1 (set_ping (ls w1) true now (now +64 tolerance_ms ts))) refs ds k) as M2
      by (destruct M1; split; auto; cbn; intros _; left; split; [done|by apply add64_le]) end.
  all: destruct (ref_mid ts base _ l refs ds k Hk (m_line _ _ _ _ _ _ M2 l Hl) M2) as (L & -> & M3 & _); step_ok.
  all: eapply (waits_runs _ _ _ _ (k - 1)); [lia|done|]; apply send_mid; [done|done|by rewrite Lp|done].
Qed.

Lemma ping_returned_runs w l created accepted refs ds k : 0 <= k -> mid w (l :: refs) ds k ->
  runs (ping_returned w l created accepted) refs ds.
Proof.
  intros Hk M. unfold ping_returned. destruct (returned_mid ts base w l refs ds k M) as (L & -> & M1 & A). step_ok.
  destruct (is_alive (lines w) l) eqn:Al.
  { destruct created; [by eapply resume_source|by eapply done_runs]. }
  rewrite bool_decide_eq_false_2; [by eapply done_runs|]. cbn [set_lines ls]. intros E. apply (m_line _ _ _ _ _ _ M) in E. congruence.
Qed.

(** ** After the output line is there *)

Definition cont_ok (c : ensure_cont) : Prop := match c with AfterPayload b _ => good b | _ => True end.

Lemma ensured_runs w c l created now timer refs ds k : 0 < k -> 0 <= now -> 0 <= tolerance_ms ts -> cont_ok c ->
  (forall j, l = Some j -> ls_line (ls w) = Some j) -> mid w refs ds k -> runs (ensured ts w c l created now timer) refs ds.
Proof.
  intros Hk Hn Ht Hc Hl M. unfold ensured. destruct c as [|b r|].
  - destruct created; [eapply (resume_source _ _ _ _ k)|eapply (done_runs _ _ _ k)]; (lia || done).
  - by eapply payload_rest_runs.
  - destruct l as [l|]; [eapply ping_runs; eauto|]. eapply (done_runs _ _ _ k); (lia || done).
Qed.

Lemma ensure_then_runs w c now timer refs ds k : 0 < k -> k <= 3 -> 0 <= now -> 0 <= tolerance_ms ts -> cont_ok c ->
  mid w refs ds k -> runs (ensure_then ts w c now timer) refs ds.
Proof.
  intros Hk H3k Hn Ht Hc M. unfold ensure_then. destruct (ensure_mid w c refs ds k H3k Hk M) as (w' & r & -> & Hr). step_ok.
  destruct r as [[l created]|f].
  - destruct Hr as [M1 Hl]. by eapply ensured_runs.
  - destruct Hr as (n & -> & M1). eapply (waits_runs _ _ _ _ 0); [done| |done]. by destruct c.
Qed.

(** ** Timers and tasks *)

Lemma set_recreate_mid w v refs ds k : mid w refs ds k -> mid (set_ls w (set_recreate (ls w) v)) refs ds k.
Proof. intros []. split; auto. Qed.

Lemma set_paused_mid w v refs ds k : mid w refs ds k -> mid (set_ls w (set_paused (ls w) v)) refs ds k.
Proof. intros []. split; auto. Qed.

Lemma close_runs w refs ds k accepted : 0 < k -> mid w refs ds k ->
  runs (packetstostreamCloseOutputLineAndScheduleRecreate w None accepted) refs ds.
Proof. intros Hk M. eapply (close_mid ts base w None refs ds ds k); [done|apply M|done]. Qed.

Lemma timeout_runs w now (reset accepted : bool) refs ds k : 0 < k -> timeout_timer w = true ->
  (reset = true \/ shutdown w = true) -> mid w refs ds k -> runs (packetstostreamTimeoutTimerCallback w now reset accepted) refs ds.
Proof.
  intros Hk Ht Hr M. unfold packetstostreamTimeoutTimerCallback. rewrite Ht, assert_bind by done.
  destruct (awaiting_pong (ls w)) eqn:A; cbn [negb].
  2: { eapply (done_runs _ _ _ k); [lia|]. apply timer_mid; [by left|done]. }
  destruct (now <? pong_deadline_ms (ls w)).
  - destruct reset; [by eapply (done_runs _ _ _ k); [lia|]|]. eapply (done_runs _ _ _ k); [lia|]. apply timer_mid; [|done].
    right. destruct Hr as [|]; [done|]. by right.
  - by apply (close_runs w refs ds k accepted).
Qed.
End Handlers.
