(* ===== verification/CarrierDrain.v ===== *)
(** * The drain loop of the carrier ([tunnels/PacketsToStream/downstream/payload.c])

    The loop extracts every packet the received bytes hold, keeps the packets the
    settings ask for, and ends: the fuel of [drain_loop] is enough. *)

From Stdlib Require Import ZArith Lia.
From stdpp Require Import base numbers option list gmap.
From S2P Require Import Prelude ShiftBuffer PoolInterface Endian Checksum BufferStream BufferQueue LineRefs.
From S2P Require Import PacketView TransportChecksum PacketValidate PacketStream PacketFrames StreamInput PacketCarrier CarrierInvariant CarrierSteps.
Open Scope Z_scope.
Open Scope word_scope.

Lemma fill_loop_spec fill payload : Forall u8 payload -> zlen payload = 5 ->
  fill_loop 6 payload fill 0 = Ok (bool_decide (payload = replicate 5 fill)).
Proof.
  intros _ L. assert (length payload = 5%nat) as L' by (unfold zlen in L; lia). clear L.
  do 5 (destruct payload as [|? payload]; [discriminate L'|]). destruct payload; [|discriminate L'].
  cbn [replicate]. match goal with |- _ = Ok ?x => remember x as r eqn:Er end. lazy -[Z.eqb].
  repeat match goal with
  | |- context [?a =? fill] => destruct (Z.eqb_spec a fill); [subst a|rewrite Er; symmetry; f_equal; apply bool_decide_eq_false_2; congruence]
  end.
  by rewrite Er, bool_decide_eq_true_2.
Qed.

Lemma frame_matches b fill : good b -> packetstostreamFrameMatchesFillByte b fill = Ok (heartbeat fill (payload b)).
Proof.
  intros [W O]. pose proof (zlen_payload b W) as Lp. pose proof (payload_u8 b W) as U.
  unfold packetstostreamFrameMatchesFillByte, heartbeat, sbufGetLength. rewrite Lp. change kHeartbeatPacketSize with 25.
  destruct (len b =? 25) eqn:E; cbn [negb andb]; [|done]. bool_facts.
  rewrite read_payload by (auto; lia). rewrite take_ge by (unfold zlen in Lp; lia). step_ok.
  rewrite !load8_ok by lia. step_ok. rewrite Z.shiftr_div_pow2 by lia. change 0x0F with (Z.ones 4). rewrite Z.land_ones by lia.
  change (2 ^ 4) with 16. change (IP_HLEN / 4) with 5. unfold kHeartbeatProtocol.
  destruct (byte_at (payload b) 0 / 16 =? 4); cbn [negb andb orb]; [|done].
  destruct (byte_at (payload b) 0 mod 16 =? 5); cbn [negb andb orb]; [|done].
  destruct (byte_at (payload b) 9 =? 253); cbn [negb andb orb]; [|done].
  rewrite fill_loop_spec; [done|by apply Forall_drop|]. unfold zlen, IP_HLEN in *. rewrite length_drop. lia.
Qed.

Lemma queued_length i : input_ok i -> total_len (pending i) = zlen (queued i).
Proof.
  intros [Q _ _ _ _ _ _ _]. pose proof (qo_total _ Q Bytes) as T. cbn in T. rewrite T. unfold queued. rewrite zlen_contents by apply Q.
  generalize (q_bufs (pending i)). induction l as [|b l IH]; [done|]. cbn in *. lia.
Qed.

Section Drain.
Context `{InetChecksumLaws} `{!NetOrderLaws} `{Allocator} {P : Type} `{PoolLaws P}.
Context (ts : packetstostream_tstate_t) (base : list entry).
Implicit Types w : world P.
Local Abbreviation mid := (mid ts base).
Local Abbreviation runs := (runs ts base).

(** New bytes and a new parser state of the attached line. *)
Definition parsed w (p : P) (s : buffer_stream_t) (i : ipv4stream_input_t) : world P :=
  set_ls (set_pool w p) (set_input (ls w) s i).

Lemma parser_facts w l s refs ds k : mid w refs ds k -> ls_line (ls w) = Some l -> read_stream (ls w) = Some s ->
  stream_wf s /\ input_ok (read_input (ls w)) /\
  (draining (read_input (ls w)) = false -> incomplete (contents (q s))) /\
  cnt l ds = (if draining (read_input (ls w)) then 1 else 0) /\
  frames (received l (log w)) =
    (extracted_of l (log w) ++ fst (frames (waiting s (read_input (ls w)))), snd (frames (waiting s (read_input (ls w))))).
Proof. intros M El Es. pose proof (m_parser _ _ _ _ _ _ M) as PO. unfold parser_ok in PO. rewrite Es, El in PO. tauto. Qed.

Lemma attached_stream w l refs ds k : mid w refs ds k -> ls_line (ls w) = Some l -> exists s, read_stream (ls w) = Some s.
Proof.
  intros M El. pose proof (m_parser _ _ _ _ _ _ M) as PO. unfold parser_ok in PO. destruct (read_stream (ls w)) as [s|]; [by exists s|].
  congruence.
Qed.

Lemma parsed_mid w p s i l refs ds ds' k : mid w refs ds k -> ls_line (ls w) = Some l -> pool_inv p -> stream_wf s -> input_ok i ->
  (draining i = false -> incomplete (contents (q s))) -> cnt l ds' = (if draining i then 1 else 0) ->
  Forall (fun j => (j < next_line w)%nat) ds' ->
  frames (received l (log w)) = (extracted_of l (log w) ++ fst (frames (waiting s i)), snd (frames (waiting s i))) ->
  mid (parsed w p s i) refs ds' k.
Proof.
  intros M El Ip W IO Hi Hc F E. destruct M. split; auto; cbn; try done.
  unfold parser_ok. cbn [parsed set_ls set_pool set_input ls read_stream read_input ls_line log]. by rewrite El.
Qed.

(** A packet leaves the stream: it is kept and delivered, or it is not. *)
Lemma extract_mid w p s s' l b refs ds k :
  mid w refs ds k -> ls_line (ls w) = Some l -> read_stream (ls w) = Some s -> draining (read_input (ls w)) = true ->
  pool_inv p -> stream_wf s' -> frames (contents (q s)) = (b :: fst (frames (contents (q s'))), snd (frames (contents (q s')))) ->
  let w' := record (parsed w p s' (read_input (ls w))) (Extracted l b) in
  (keep ts b = false -> mid w' refs ds k) /\ (keep ts b = true -> mid (record w' (Delivered l b)) refs ds k).
Proof.
  intros M El Es D Ip W' E w'. destruct (parser_facts w l s refs ds k M El Es) as (W & IO & _ & C & F). pose proof M as [].
  assert (frames (waiting s (read_input (ls w))) =
    (b :: fst (frames (waiting s' (read_input (ls w)))), snd (frames (waiting s' (read_input (ls w)))))) as Fw.
  { unfold waiting. rewrite frames_app, E. cbn [fst snd]. rewrite (frames_app (contents (q s'))). done. }
  rewrite Fw in F. cbn [fst snd] in F.
  assert (forall tail, tail = [] \/ tail = [Delivered l b] -> forall j,
    received j ((log w ++ [Extracted l b]) ++ tail) = received j (log w) /\
    extracted_of j ((log w ++ [Extracted l b]) ++ tail) = extracted_of j (log w) ++ (if decide (l = j) then [b] else []) /\
    sent j ((log w ++ [Extracted l b]) ++ tail) = sent j (log w) /\
    phase_of j ((log w ++ [Extracted l b]) ++ tail) = phase_of j (log w)) as Same.
  { intros tail Ht j. destruct Ht as [->| ->]; rewrite ?app_nil_r, ?received_snoc, ?extracted_snoc, ?sent_snoc, ?phase_snoc, ?app_nil_r; done. }
  assert (forall tail, tail = [] \/ tail = [Delivered l b] -> log_ok [] ((log w ++ [Extracted l b]) ++ tail) = true) as Lo.
  { intros tail Ht. destruct Ht as [->| ->]; rewrite ?app_nil_r, ?log_ok_snoc, m_log; done. }
  assert (forall tail v, tail = [] \/ tail = [Delivered l b] -> log v = (log w ++ [Extracted l b]) ++ tail ->
    (forall j, delivered j (log v) = keeps ts (extracted_of j (log v))) ->
    ls v = set_input (ls w) s' (read_input (ls w)) -> pool v = p -> lines v = lines w -> next_line v = next_line w ->
    timeout_timer v = timeout_timer w -> shutdown v = shutdown w -> heartbeat_timer v = heartbeat_timer w -> mid v refs ds k) as All.
  { intros tail v Ht Ev Kv Lv Pv Nv Xv Tv Sv Hv. specialize (Same tail Ht). specialize (Lo tail Ht). rewrite <- Ev in Same, Lo.
    split; rewrite ?Lv, ?Pv, ?Nv, ?Xv, ?Tv, ?Sv, ?Hv; auto.
    - rewrite Ev. by do 2 apply prefix_app_r.
    - unfold parser_ok. rewrite Lv. cbn [set_input read_stream read_input ls_line]. rewrite El, D. splits; try done; [by rewrite C, D|].
      destruct (Same l) as (-> & -> & _). rewrite decide_True by done. by rewrite <- app_assoc.
    - intros j. destruct (Same j) as (-> & -> & _). case_decide as Ej; [subst j|by rewrite app_nil_r]. rewrite F. cbn [fst].
      eexists. by rewrite <- app_assoc.
    - intros j. by destruct (Same j) as (_ & _ & -> & _).
    - intros j Ej. destruct (Same j) as (_ & _ & _ & ->). by apply m_open.
    - intros j Hj. destruct (Same j) as (-> & -> & _ & ->). destruct (m_unused j Hj) as (? & ? & Ex). rewrite Ex.
      rewrite decide_False; [done|]. intros ->. apply m_open in El. congruence. }
  split; intros Kb.
  - apply (All []); try done; [by left|by rewrite app_nil_r|]. intros j. subst w'. cbn [record parsed set_ls log set_pool].
    rewrite delivered_snoc, extracted_snoc, app_nil_r, m_kept. unfold keeps. rewrite filter_app. case_decide; [|by rewrite app_nil_r].
    rewrite filter_cons, decide_False by congruence. by rewrite app_nil_r.
  - apply (All [Delivered l b]); try done; [by right|]. intros j. subst w'. cbn [record parsed set_ls log set_pool].
    rewrite !delivered_snoc, !extracted_snoc, !app_nil_r, m_kept. unfold keeps. rewrite filter_app. f_equal.
    case_decide; [|done]. rewrite filter_cons, decide_True by done. done.
Qed.

Lemma ping_off_mid w refs ds k : mid w refs ds k -> mid (set_ls w (set_ping (ls w) false 0 0)) refs ds k.
Proof. intros []. by split. Qed.

Definition work w (s : buffer_stream_t) : Z :=
  size s + total_len (pending (read_input (ls w))) + zlen (q_bufs (pending (read_input (ls w)))).

(** A drain loop at the head of its turn. *)
Record loop_at w (l : nat) (s : buffer_stream_t) refs ds k : Prop := mk_loop_at {
  la_mid : mid w (l :: refs) (l :: ds) k;
  la_line : ls_line (ls w) = Some l;
  la_stream : read_stream (ls w) = Some s;
  la_draining : draining (read_input (ls w)) = true
}.

(** Nothing complete in the stream: the next delivery, or the end. *)
Lemma advance_step w l s s1 p refs ds k :
  loop_at w l s refs ds k -> stream_wf s1 -> pool_inv p -> size s1 <= size s -> frames (contents (q s)) = ([], contents (q s1)) ->
  exists more i s2 p2, ipv4streamInputAdvance (read_input (ls w)) s1 p = Ok (more, i, s2, p2) /\
    if more : bool then loop_at (parsed w p2 s2 i) l s2 refs ds k /\ work (parsed w p2 s2 i) s2 < work w s
    else mid (parsed w p2 s2 i) (l :: refs) ds k.
Proof.
  intros [M El Es D] W1 I1 Hs E. destruct (parser_facts w l s _ _ k M El Es) as (W & IO & _ & C & F).
  assert (incomplete (contents (q s1))) as Hi by (pose proof (frames_rest (contents (q s))) as R; by rewrite E in R).
  destruct (input_advance_ok (read_input (ls w)) s1 p IO W1 I1 D Hi) as (more & i & s2 & p2 & -> & IO2 & W2 & I2 & D2 & Q & Hm).
  exists more, i, s2, p2. split; [done|]. rewrite D in C.
  assert (frames (received l (log w)) = (extracted_of l (log w) ++ fst (frames (waiting s2 i)), snd (frames (waiting s2 i)))) as F2.
  { rewrite F. unfold waiting. rewrite Q. rewrite (frames_app (contents (q s))), E. done. }
  destruct more.
  - split; [split; try done|].
    + apply (parsed_mid w p2 s2 i l _ (l :: ds)); try done; [by rewrite D2|by rewrite D2|apply M].
    + unfold work. cbn [parsed set_ls set_input ls read_input]. rewrite !queued_length by done.
      apply (f_equal zlen) in Q. rewrite !zlen_app, !wf_length in Q by done. unfold zlen at 2 4. lia.
  - destruct Hm as [Q2 E2]. apply (parsed_mid w p2 s2 i l _ (l :: ds)); try done; [by rewrite E2| |].
    + rewrite D2. rewrite cnt_cons, decide_True in C by done. lia.
    + pose proof (m_drains _ _ _ _ _ _ M) as Fd. by apply Forall_cons in Fd as [_ ?].
Qed.

Lemma keep_split p : keep ts p = negb (sensitive_mode ts && heartbeat kSensitivePongByte p) && level_sound (packet_validation_level ts) p.
Proof. done. Qed.

Lemma drain_loop_runs fuel : forall w l s now accepted refs ds k, 0 < k -> loop_at w l s refs ds k -> work w s < Z.of_nat fuel ->
  runs (drain_loop ts fuel w l now accepted) refs ds.
Proof.
  induction fuel as [|fuel IH]; intros w l s now accepted refs ds k Hk LA Hf.
  { exfalso. pose proof LA as [M El Es D]. destruct (parser_facts w l s _ _ k M El Es) as (W & IO & _).
    unfold work in Hf. rewrite queued_length in Hf by done. rewrite <- (wf_length s W) in Hf. unfold zlen in Hf. lia. }
  pose proof LA as [M El Es D]. cbn [drain_loop]. rewrite Es.
  destruct (parser_facts w l s _ _ k M El Es) as (W & IO & _).
  destruct (try_read_frames s (pool w) W (m_pool _ _ _ _ _ _ M)) as (r & s1 & p1 & -> & W1 & I1 & X & Hs). step_ok.
  destruct r as [b|]; cbv beta iota in Hs.
  2: { destruct (advance_step w l s s1 p1 refs ds k LA W1 I1) as (more & i & s2 & p2 & -> & Hm); [lia|done|]. step_ok.
    destruct more; [destruct Hm as [LA2 Hw]; eapply (IH (parsed w p2 s2 i)); [exact Hk|exact LA2|lia]|].
    fold (parsed w p2 s2 i). destruct (unref_mid ts base _ l refs ds k Hm) as (L & -> & M2 & _). step_ok. eapply done_runs; [|exact M2]. lia. }
  destruct X as [G E]. destruct (extract_mid w p1 s s1 l (payload b) _ _ k M El Es D I1 W1 E) as [Kf Kt].
  fold (parsed w p1 s1 (read_input (ls w))) in *. set (w1 := record (parsed w p1 s1 (read_input (ls w))) (Extracted l (payload b))) in *.
  assert (forall v, mid v (l :: refs) (l :: ds) k -> (exists a t d, ls v = set_ping (ls w1) a t d) -> loop_at v l s1 refs ds k /\ work v s1 < work w s) as Next.
  { intros v Mv (a & t & d & Ev). split; [split; try done; by rewrite Ev|]. unfold work. rewrite Ev. cbn. lia. }
  assert ((if sensitive_mode ts then packetstostreamFrameMatchesFillByte b kSensitivePongByte else mret false) =
    Ok (sensitive_mode ts && heartbeat kSensitivePongByte (payload b))) as -> by (destruct (sensitive_mode ts); [by rewrite frame_matches|done]).
  step_ok. rewrite keep_split in Kf, Kt. destruct (sensitive_mode ts && heartbeat kSensitivePongByte (payload b)); cbn [negb andb] in Kf, Kt.
  - destruct (reuse_mid ts base w1 _ _ k b G (Kf eq_refl)) as (p2 & -> & M2). step_ok. destruct (_ && _).
    + eapply (close_mid ts base _ (Some l) refs (l :: ds) ds k); [done| |exact M2]. by apply (Forall_cons_1 _ l ds), M2.
    + destruct (Next _ (ping_off_mid _ _ _ _ M2)) as [LA2 Hw]; [by do 3 eexists|]. eapply IH; [exact Hk|exact LA2|lia].
  - destruct (validate_packet_spec (packet_validation_level ts) b G) as (r & -> & Hr). step_ok. case_bool_decide as Er.
    + destruct (reuse_mid ts base w1 (l :: refs) (l :: ds) k b G) as (p2 & -> & M2).
      { apply Kf. destruct (level_sound _ _); [|done]. by destruct Er; apply Hr. }
      step_ok. destruct (Next _ M2) as [LA2 Hw]; 
        [by exists (awaiting_pong (ls w)), (ping_sent_at_ms (ls w)), (pong_deadline_ms (ls w))|]. eapply IH; [exact Hk|exact LA2|lia].
    + eapply (waits_runs ts base _ (KDrain l) refs ds k); [lia|done|]. apply Kt. apply Hr. destruct r; [|done]. by destruct Er.
Qed.

(** ** Bytes from the stream line *)

Lemma receive_mid w p s s' i l b refs ds ds' k :
  mid w refs ds k -> ls_line (ls w) = Some l -> read_stream (ls w) = Some s -> pool_inv p -> stream_wf s' -> input_ok i ->
  (draining i = false -> incomplete (contents (q s'))) -> cnt l ds' = (if draining i then 1 else 0) ->
  Forall (fun j => (j < next_line w)%nat) ds' -> waiting s' i = waiting s (read_input (ls w)) ++ b ->
  mid (record (parsed w p s' i) (Received l b)) refs ds' k.
Proof.
  intros M El Es Ip W IO Hi Hc Fd E. destruct (parser_facts w l s refs ds k M El Es) as (_ & _ & _ & _ & F). pose proof M as [].
  assert (forall j, received j (log w ++ [Received l b]) = received j (log w) ++ (if decide (l = j) then b else []) /\
    extracted_of j (log w ++ [Received l b]) = extracted_of j (log w) /\
    delivered j (log w ++ [Received l b]) = delivered j (log w) /\ sent j (log w ++ [Received l b]) = sent j (log w) /\
    phase_of j (log w ++ [Received l b]) = phase_of j (log w)) as Same.
  { intros j. by rewrite received_snoc, extracted_snoc, delivered_snoc, sent_snoc, phase_snoc, !app_nil_r. }
  assert (log (record (parsed w p s' i) (Received l b)) = log w ++ [Received l b]) as Lw by done.
  split; auto; rewrite ?Lw; try (intros j; destruct (Same j) as (E1 & E2 & E3 & E4 & E5)).
  - by apply prefix_app_r.
  - unfold parser_ok. rewrite Lw. cbn [record parsed set_ls set_pool set_input ls read_stream read_input ls_line]. rewrite El. splits; try done.
    destruct (Same l) as (-> & -> & _). rewrite decide_True by done. rewrite frames_app, F. cbn [fst snd]. rewrite E, (frames_app (waiting s _)).
    cbn [fst snd]. by rewrite app_assoc.
  - rewrite E2, E3. done.
  - rewrite E1, E2. rewrite frames_app. cbn [fst]. apply prefix_app_r. done.
  - rewrite E4. done.
  - rewrite log_ok_snoc, m_log. done.
  - rewrite E5. apply m_open.
  - intros Hj. rewrite E1, E2, E5. destruct (m_unused j Hj) as (? & Er & ?). rewrite Er. rewrite decide_False; [done|].
    intros ->. apply m_open in El. congruence.
Qed.

Lemma drain_fuel_enough w l s refs ds k : loop_at w l s refs ds k -> work w s < Z.of_nat (drain_fuel w).
Proof.
  intros [M El Es _]. destruct (parser_facts w l s _ _ k M El Es) as (W & IO & _). unfold work, drain_fuel, bufferstreamGetBufLen.
  rewrite Es. pose proof (wf_length s W) as Ls. pose proof (queued_length _ IO) as Lq. unfold zlen in *. lia.
Qed.

Lemma drain_runs w l s now accepted refs ds k : 0 < k -> loop_at w l s refs ds k ->
  runs (drain_loop ts (drain_fuel w) w l now accepted) refs ds.
Proof. intros Hk LA. eapply drain_loop_runs; [done|done|]. by eapply drain_fuel_enough. Qed.

Lemma down_payload_runs (deque_reserve : Z -> bool) w l b now accepted refs ds k : 1 < k -> good b -> len b <= kDeliveryLimit -> mid w refs ds k ->
  runs (packetstostreamTunnelDownStreamPayload deque_reserve ts w l b now accepted) refs ds.
Proof.
  intros Hk G Hb M. unfold packetstostreamTunnelDownStreamPayload. destruct (read_stream (ls w)) as [s|] eqn:Es; cycle 1.
  { eapply (reuse_done ts base w b refs ds k); (lia || done). }
  case_bool_decide as El; cbn [negb]; [|eapply (reuse_done ts base w b refs ds k); (lia || done)].
  destruct (parser_facts w l s refs ds k M El Es) as (W & IO & Hi & C & F).
  destruct (input_admit_ok deque_reserve _ s (pool w) b IO W (m_pool _ _ _ _ _ _ M) G Hb Hi) as (r & i & s' & p & -> & IO' & W' & I' & A).
  step_ok. fold (parsed w p s' i). pose proof (m_drains _ _ _ _ _ _ M) as Fd.
  assert (l < next_line w)%nat as Hl by (eapply open_below; [exact M|by eapply m_open]).
  destruct r; cbn [admitted] in A.
  - destruct A as (D & D' & Q & E). rewrite D in C. destruct (io_idle _ IO D) as [Qi _].
    assert (mid (record (parsed w p s' i) (Received l (payload b))) refs (l :: ds) k) as M1.
    { apply (receive_mid w p s s' i l _ refs ds (l :: ds) k M El Es I' W' IO'); [congruence| |by constructor|].
      - by rewrite D', cnt_cons, decide_True, C by done.
      - unfold waiting. rewrite Q, E. unfold queued. rewrite Qi. by rewrite !app_nil_r. }
    assert (0 < k) as Hk0 by lia.
    destruct (ref_mid ts base _ l refs (l :: ds) k Hk0 (m_line _ _ _ _ _ _ M1 l El) M1) as (L & -> & M2 & _). step_ok.
    eapply (drain_runs _ l s' _ _ _ _ (k - 1)); [lia|]. by split.
  - destruct A as (D & D' & -> & Q). eapply (done_runs ts base _ _ _ k); [lia|].
    apply (receive_mid w p s s i l _ refs ds ds k M El Es I' W IO'); [congruence|by rewrite D', C, D|done|]. unfold waiting. by rewrite Q, app_assoc.
  - destruct A as (E & -> & ->). eapply (done_runs ts base _ _ _ k); [lia|].
    apply (receive_mid w p s s _ l _ refs ds ds k M El Es I' W IO Hi C Fd). by rewrite E, app_nil_r.
  - destruct A as (D & D' & -> & Q). assert (mid (parsed w p s i) refs ds k) as M1.
    { apply (parsed_mid w p s i l refs ds ds k M El I' W IO'); [congruence|by rewrite D', C, D|done|]. rewrite F. unfold waiting. by rewrite Q. }
    destruct (reuse_mid ts base _ refs ds k b G M1) as (p2 & -> & M2). step_ok. eapply close_runs; [|exact M2]. lia.
Qed.

Lemma drain_returned_runs w l now accepted refs ds k : 0 < k -> mid w (l :: refs) (l :: ds) k ->
  runs (drain_returned ts w l now accepted) refs ds.
Proof.
  intros Hk M. unfold drain_returned. rewrite (held_mid ts base w l (l :: refs) (l :: ds) k) by (done || left). step_ok.
  destruct (decide (ls_line (ls w) = Some l)) as [El|El].
  - destruct (attached_stream w l _ _ k M El) as [s Es]. rewrite (m_line _ _ _ _ _ _ M l El), Es.
    rewrite bool_decide_eq_true_2, bool_decide_eq_false_2 by done. cbn [negb orb]. eapply drain_runs; [done|]. split; try done.
    destruct (parser_facts w l s _ _ k M El Es) as (_ & _ & _ & C & _). rewrite cnt_cons, decide_True in C by done.
    pose proof (cnt_nonneg l ds). destruct (draining _); [done|lia].
  - rewrite (bool_decide_eq_false_2 (ls_line (ls w) = Some l)) by done. rewrite orb_true_r. cbn [orb].
    apply drop_drain in M; [|done]. destruct (unref_mid ts base w l refs ds k M) as (L & -> & M1 & _). step_ok.
    eapply (done_runs ts base _ _ _ k); [lia|done].
Qed.
End Drain.
