(* ===== verification/CarrierRuns.v ===== *)
(** * Runs of the carrier ([tunnels/PacketsToStream])

    One worker's node with everything that can happen to it: its neighbours call
    it, also from inside its own calls, callbacks return in stack order, lines
    are referenced from outside, and the event loop runs tasks and timers
    between handlers.  The theorems hold in every reachable state. *)

From Stdlib Require Import ZArith Lia.
From stdpp Require Import base numbers option list gmap.
From S2P Require Import Prelude ShiftBuffer MasterPool GenericPool PoolInterface BufferPool Endian Checksum BufferStream BufferQueue LineRefs.
From S2P Require Import PacketView TransportChecksum PacketValidate PacketStream PacketFrames StreamInput PacketCarrier CarrierInvariant CarrierSteps CarrierDrain.
Open Scope Z_scope.
Open Scope word_scope.

(** ** The system *)

(** [outside] are the references held by other code. *)
Record system (P : Type) : Type := mk_system { node : world P; stack : list frame; outside : list nat }.
Arguments mk_system {P}.
Arguments node {P}.
Arguments stack {P}.
Arguments outside {P}.

Inductive event : Type :=
  | EInit
  | EPayload (b : sbuf_t)
  | EDownPayload (l : nat) (b : sbuf_t) (now : Z) (accepted : bool)
  | EDownFinish (l : nat) (accepted : bool)
  | EDownEst (l : nat)
  | EDownPause (l : nat)
  | EDownResume (l : nat)
  | EReturn (now : Z) (timer_created accepted : bool)
  | ERef (l : nat)
  | EUnref (i : nat)
  | EStart (timer_created : bool)
  | ETask
  | EHeartbeat (now : Z) (timer_created : bool)
  | ETimeout (now : Z) (reset accepted : bool)
  | EShutdown
  | EQuiesce
  | EStop.

Section System.
Context `{NetOrder} `{InetChecksum} `{Allocator} {P : Type} `{PoolOps P}.
Context (deque_reserve : Z -> bool) (ts : packetstostream_tstate_t).
Implicit Types s : system P.

Definition entered s (r : run P) (rest : list frame) : outcome (system P) :=
  '(w, f) ← r; mret (mk_system w (option_list f ++ rest) (outside s)).

Definition set_node s (w : world P) : system P := mk_system w (stack s) (outside s).

Definition step s (e : event) : outcome (system P) :=
  let w := node s in
  match e with
  | EInit => entered s (packetstostreamTunnelUpStreamInit ts w) (stack s)
  | EPayload b => entered s (packetstostreamTunnelUpStreamPayload ts w b) (stack s)
  | EDownPayload l b now accepted =>
      entered s (packetstostreamTunnelDownStreamPayload deque_reserve ts w l b now accepted) (stack s)
  | EDownFinish l accepted => entered s (packetstostreamTunnelDownStreamFinish w l accepted) (stack s)
  | EDownEst l => entered s (packetstostreamTunnelDownStreamEst w l) (stack s)
  | EDownPause l => entered s (packetstostreamTunnelDownStreamPause w l) (stack s)
  | EDownResume l => entered s (packetstostreamTunnelDownStreamResume w l) (stack s)
  | EReturn now timer_created accepted =>
      match stack s with
      | f :: rest => entered s (resume ts w f now timer_created accepted) rest
      | [] => Fail NotModelled
      end
  | ERef l => w ← on_lines w (fun L => lineRef L l); mret (mk_system w (stack s) (l :: outside s))
  | EUnref i =>
      match outside s !! i with
      | Some l => w ← on_lines w (fun L => lineUnref L l); mret (mk_system w (stack s) (delete i (outside s)))
      | None => Fail NotModelled
      end
  | EStart timer_created => mret (set_node s (packetstostreamStartWorkerTimer w timer_created))
  | ETask => entered s (packetstostreamRecreateOutputLineTask ts (set_tasks w (pred (tasks w)))) (stack s)
  | EHeartbeat now timer_created => entered s (packetstostreamHeartbeatTimerCallback ts w now timer_created) (stack s)
  | ETimeout now reset accepted => entered s (packetstostreamTimeoutTimerCallback w now reset accepted) (stack s)
  | EShutdown => mret (set_node s (set_shutdown w))
  | EQuiesce => mret (set_node s (packetstostreamTunnelOnWorkerQuiesce w))
  | EStop => entered s (packetstostreamTunnelOnWorkerStop w) (stack s)
  end.

(** What the neighbours, the event loop and the clock keep to.  References are
    counted in 32 bits and a handler needs up to three. *)
Definition allowed s (e : event) : Prop :=
  let w := node s in
  map_Forall (fun _ x => refc x + 3 <= LINE_REFC_MAX) (lines w) /\
  match e with
  | EInit | EShutdown => True
  | EPayload b => good b
  | EDownPayload l b now _ => is_Some (lines w !! l) /\ good b /\ len b <= kDeliveryLimit /\ 0 <= now
  | EDownFinish l _ | EDownEst l | EDownPause l | EDownResume l => is_Some (lines w !! l)
  | EReturn now _ _ => stack s <> [] /\ 0 <= now
  | ERef l => is_alive (lines w) l = true
  | EUnref i => (i < length (outside s))%nat
  | EStart _ => stack s = [] /\ sensitive_mode ts = true
  | ETask => stack s = [] /\ (0 < tasks w)%nat
  | EHeartbeat now _ => stack s = [] /\ heartbeat_timer w = true /\ 0 <= now
  | ETimeout now reset _ => stack s = [] /\ timeout_timer w = true /\ 0 <= now /\ (reset = true \/ shutdown w = true)
  | EQuiesce => stack s = [] /\ shutdown w = true
  | EStop => stack s = []
  end.

Definition initial (p : P) : system P :=
  mk_system (mk_world zero_lstate p ∅ 0 false false 0 false []) [] [].

Fixpoint run_events s (es : list event) : outcome (system P) :=
  match es with
  | [] => mret s
  | e :: es => s ← step s e; run_events s es
  end.

(** Every event of a run is allowed where it happens. *)
Fixpoint legal s (es : list event) : Prop :=
  match es with
  | [] => True
  | e :: es => allowed s e /\ match step s e with Ok s => legal s es | Fail _ => False end
  end.

Inductive reachable (p : P) : system P -> Prop :=
  | reach_init : reachable p (initial p)
  | reach_step s e s' : reachable p s -> allowed s e -> step s e = Ok s' -> reachable p s'.
End System.

(** ** Handlers *)

Section Runs.
Context `{InetChecksumLaws} `{!NetOrderLaws} `{Allocator} {P : Type} `{PoolLaws P}.
Context (deque_reserve : Z -> bool) (ts : packetstostream_tstate_t) (tolerance_nonneg : 0 <= tolerance_ms ts).
Implicit Types (w : world P) (s : system P).

Section Handlers.
Context (base : list entry).
Local Abbreviation mid := (mid ts base).
Local Abbreviation runs := (runs ts base).

Lemma detach_line w l refs ds k : ls_line (ls w) <> Some l -> is_Some (lines w !! l) -> mid w refs ds k ->
  exists L, (live ← lineIsAlive (lines w) l; if (live : bool) then on_lines w (fun L => lineDestroy L l) else mret w) = Ok (set_lines w L) /\
    mid (record (set_lines w L) (Ended l)) refs ds k.
Proof.
  intros N S M. pose proof (m_fresh _ _ _ _ _ _ M l S) as Hl. rewrite alive_read by done. step_ok. destruct (is_alive (lines w) l) eqn:A.
  - destruct (destroy_mid ts base w l refs ds k A N M) as (L & -> & M1 & _). exists L. split; [done|]. by apply record_mid.
  - exists (lines w). assert (set_lines w (lines w) = w) as -> by (by destruct w). split; [done|]. by apply record_mid.
Qed.

Lemma down_finish_runs w l accepted refs ds k : 0 <= k -> is_Some (lines w !! l) -> mid w refs ds k ->
  runs (packetstostreamTunnelDownStreamFinish w l accepted) refs ds.
Proof.
  intros Hk S M. unfold packetstostreamTunnelDownStreamFinish. case_bool_decide as El.
  - destruct (reset_mid ts base w refs ds ds k (m_drains _ _ _ _ _ _ M) M) as (w1 & -> & M1 & E1 & E2 & _). step_ok.
    destruct (detach_line w1 l refs ds k) as (L & E & M2); [by rewrite E1|by rewrite E2|done|].
    apply bind_Ok in E as (live & -> & E). step_ok. rewrite E. step_ok.
    eapply (done_runs ts base _ _ _ k); [done|]. by apply schedule_mid.
  - destruct (detach_line w l refs ds k El S M) as (L & E & M2).
    apply bind_Ok in E as (live & -> & E). step_ok. rewrite E. step_ok. by eapply (done_runs ts base _ _ _ k).
Qed.

Lemma line_destroy_mid w refs ds k : mid w refs ds k ->
  exists w', packetstostreamLinestateDestroy w = Ok w' /\ mid w' refs ds k.
Proof.
  intros M. pose proof M as []. unfold packetstostreamLinestateDestroy. unfold parser_ok in m_parser.
  destruct (read_stream (ls w)) as [s|].
  - destruct m_parser as (W & IO & _). destruct (input_destroy_ok _ (pool w) IO m_pool) as (i & p & -> & Ip). step_ok.
    destruct (reuse_all_spec (q s) p (sw_good _ W) Ip) as (p' & E & Ip' & _). unfold bufferstreamDestroy. rewrite E. step_ok.
    eexists. split; [done|]. by split.
  - eexists. split; [done|]. by split.
Qed.

Lemma stop_rest_runs w refs ds k : 0 <= k -> mid w refs ds k -> runs (stop_rest w) refs ds.
Proof.
  intros Hk M. unfold stop_rest. destruct (read_stream (ls w)); [|by eapply (done_runs ts base _ _ _ k)].
  destruct (line_destroy_mid w refs ds k M) as (w' & -> & M'). step_ok. by eapply (done_runs ts base _ _ _ k).
Qed.

Lemma stop_runs w refs ds k : 0 < k -> mid w refs ds k -> runs (packetstostreamTunnelOnWorkerStop w) refs ds.
Proof.
  intros Hk M. unfold packetstostreamTunnelOnWorkerStop. apply (set_recreate_mid ts base w false) in M.
  destruct (reset_mid ts base _ refs ds ds k (m_drains _ _ _ _ _ _ M) M) as (w1 & -> & M1 & E1 & E2 & E3 & _). step_ok.
  destruct (ls_line (ls w)) as [l|] eqn:El; [|step_ok; eapply (stop_rest_runs _ _ _ k); (lia || done)].
  pose proof (m_line _ _ _ _ _ _ M l El) as A. rewrite <- E2 in A. rewrite (alive_mid w1 l A). step_ok.
  destruct (ref_mid ts base w1 l refs ds k Hk A M1) as (L & -> & M2 & _). step_ok.
  eapply (waits_runs ts base _ _ _ _ (k - 1)); [lia|apply closed_over|]. apply record_mid; [|done].
  split; cbn; [by rewrite E1|]. rewrite E3. apply (m_open _ _ _ _ _ _ M l El).
Qed.

Lemma over_detached w l refs ds k : mid w refs ds k -> phase_of l (log w) = Over -> ls_line (ls w) <> Some l.
Proof. intros M Ho E. apply (m_open _ _ _ _ _ _ M) in E. congruence. Qed.

(** A callback returns. *)
Lemma resume_runs w f now timer accepted refs ds k : 0 < k -> 0 <= now -> frame_ok (log w) f ->
  mid w (frame_refs f ++ refs) (frame_drains f ++ ds) k -> runs (resume ts w f now timer accepted) refs ds.
Proof.
  intros Hk Hn Ho M. destruct f as [|n c|l|l created|l d|l|l]; cbn [resume frame_refs frame_drains app] in *.
  - eapply (done_runs ts base _ _ _ k); [lia|done].
  - destruct (ensure_returned_mid ts base w n refs ds k M) as (w' & l & created & -> & M1 & El). step_ok.
    eapply (ensured_runs ts base _ _ _ _ _ _ _ _ k); try done. intros j ->. done.
  - eapply (payload_returned_runs ts base _ _ _ _ k); [lia|done].
  - eapply (ping_returned_runs ts base _ _ _ _ _ _ k); [lia|done].
  - eapply close_returned_mid; [by eapply over_detached|]. eapply mid_room; [|exact M]. lia.
  - destruct (finish_returned_mid ts base w l refs ds k) as (L & -> & M1); [by eapply over_detached|done|]. step_ok.
    eapply (stop_rest_runs _ _ _ k); [lia|done].
  - by eapply (drain_returned_runs ts base _ _ _ _ _ _ k).
Qed.
End Handlers.

(** ** Every event keeps the invariant *)

Lemma rebase w b b' refs ds k : b' `prefix_of` log w -> mid ts b w refs ds k -> mid ts b' w refs ds k.
Proof. intros E []. by split. Qed.

Lemma over_stays log more l : log_ok [] (log ++ more) = true -> phase_of l log = Over -> phase_of l (log ++ more) = Over.
Proof.
  induction more as [|e more IH] using rev_ind; intros Ho E; [by rewrite app_nil_r|]. rewrite app_assoc in *.
  rewrite log_ok_snoc in Ho. apply andb_true_iff in Ho as [Ho He]. rewrite phase_snoc, IH by done.
  destruct e as [j| |j|j| | | ]; cbn [phase_step entry_ok app] in *; try done; try (by destruct (decide _)).
  apply bool_decide_eq_true_1 in He. rewrite decide_False; [done|]. intros ->. rewrite IH in He by done. done.
Qed.

Lemma frame_ok_grows log more f : log_ok [] (log ++ more) = true -> frame_ok log f -> frame_ok (log ++ more) f.
Proof. destruct f; cbn; try done; by apply over_stays. Qed.

Record inv s : Prop := mk_inv {
  i_mid : mid ts [] (node s) ((stack s ≫= frame_refs) ++ outside s) (stack s ≫= frame_drains) 0;
  i_frames : Forall (frame_ok (log (node s))) (stack s)
}.

(** The log only grows. *)
Definition continues s s' : Prop := inv s' /\ log (node s) `prefix_of` log (node s').

Lemma handler_inv s r rest : Forall (frame_ok (log (node s))) rest ->
  runs ts (log (node s)) r ((rest ≫= frame_refs) ++ outside s) (rest ≫= frame_drains) ->
  exists s', entered s r rest = Ok s' /\ continues s s'.
Proof.
  intros F (w & f & -> & Hp). unfold entered. step_ok. eexists. split; [done|].
  assert (exists refs' ds', mid ts (log (node s)) w refs' ds' 0) as (refs' & ds' & Mw).
  { destruct f; [destruct Hp as [Hp _]|]; by do 2 eexists. }
  pose proof (m_base _ _ _ _ _ _ Mw) as [more El]. pose proof (m_log _ _ _ _ _ _ Mw) as Lo. rewrite El in Lo.
  split; [|exists more; exact El]. split; cbn [node stack outside].
  - destruct f as [f|]; cbn [option_list app].
    + destruct Hp as [Hp _]. cbn. rewrite <- app_assoc. eapply rebase; [apply prefix_nil|exact Hp].
    + eapply rebase; [apply prefix_nil|exact Hp].
  - assert (Forall (frame_ok (log w)) rest) as F'.
    { rewrite El. eapply Forall_impl; [exact F|]. intros g. by apply frame_ok_grows. }
    destruct f as [f|]; cbn [option_list app]; [|done]. constructor; [apply Hp|done].
Qed.

(** The state at the start of a handler. *)
Lemma handler_start s : inv s -> map_Forall (fun _ x => refc x + 3 <= LINE_REFC_MAX) (lines (node s)) ->
  mid ts (log (node s)) (node s) ((stack s ≫= frame_refs) ++ outside s) (stack s ≫= frame_drains) 3.
Proof. intros [[] _] R. by split. Qed.

Lemma quiet_inv s w : (forall b k, mid ts b (node s) ((stack s ≫= frame_refs) ++ outside s) (stack s ≫= frame_drains) k ->
    mid ts b w ((stack s ≫= frame_refs) ++ outside s) (stack s ≫= frame_drains) k) -> log w = log (node s) ->
  inv s -> continues s (set_node s w).
Proof. intros Hw El [M F]. split; [split; cbn; [by apply Hw|by rewrite El]|]. cbn. by rewrite El. Qed.

Lemma take_request_ok b : good b -> exists r b', packettunnelTakeChecksumRequest b = Ok (r, b') /\ good b'.
Proof.
  intros [W O]. unfold packettunnelTakeChecksumRequest. unfold ordinary in O. rewrite O, assert_bind by done.
  destruct (set_recalc_spec b false W O) as (f & -> & W' & O' & _). step_ok. do 2 eexists. split; [done|by split].
Qed.

(** Entries from the neighbours. *)
Lemma neighbour_step s e : inv s -> allowed ts s e ->
  match e with EInit | EPayload _ | EDownPayload _ _ _ _ | EDownFinish _ _ | EDownEst _ | EDownPause _ | EDownResume _ | EReturn _ _ _ => True | _ => False end ->
  exists s', step deque_reserve ts s e = Ok s' /\ continues s s'.
Proof.
  intros I [R A] Ek. pose proof (handler_start s I R) as M. pose proof (i_frames _ I) as F.
  set (refs := (stack s ≫= frame_refs) ++ outside s) in *. set (ds := stack s ≫= frame_drains) in *.
  destruct e as [|b|l b now accepted|l accepted|l|l|l|now tm accepted| | | | | | | | |]; try done; cbn [step]; cbn [allowed] in A.
  1-7: apply handler_inv; [done|]; fold refs ds.
  - by eapply (ensure_then_runs ts _ _ _ _ _ _ _ 3).
  - destruct (take_request_ok b A) as (r & b' & E & G). unfold packetstostreamTunnelUpStreamPayload. rewrite E. step_ok.
    by eapply (ensure_then_runs ts _ _ _ _ _ _ _ 3).
  - destruct A as (_ & G & Hb & _). by eapply (down_payload_runs ts _ _ _ _ _ _ _ _ _ 3).
  - by eapply (down_finish_runs _ _ _ _ _ _ 3).
  - unfold packetstostreamTunnelDownStreamEst. case_bool_decide; [by eapply (waits_runs ts _ _ _ _ _ 3)|by eapply (done_runs ts _ _ _ _ 3)].
  - unfold packetstostreamTunnelDownStreamPause. destruct (_ && _); [|by eapply (done_runs ts _ _ _ _ 3)].
    eapply (waits_runs ts _ _ _ _ _ 3); [done|done|]. by apply set_paused_mid.
  - unfold packetstostreamTunnelDownStreamResume. destruct (_ && _); [|by eapply (done_runs ts _ _ _ _ 3)].
    eapply (waits_runs ts _ _ _ _ _ 3); [done|done|]. by apply set_paused_mid.
  - destruct A as [Ns Hn]. subst refs ds. destruct (stack s) as [|f rest]; [done|]. apply Forall_cons in F as [Ff F].
    apply handler_inv; [done|]. eapply (resume_runs _ _ _ _ _ _ _ _ 3); try done. cbn in M. by rewrite <- app_assoc in M.
Qed.

Lemma tasks_mid w b n refs ds k : mid ts b w refs ds k -> mid ts b (set_tasks w n) refs ds k.
Proof. intros []. by split. Qed.

(** References from outside. *)
Lemma reference_step s e : inv s -> allowed ts s e -> match e with ERef _ | EUnref _ => True | _ => False end ->
  exists s', step deque_reserve ts s e = Ok s' /\ continues s s'.
Proof.
  intros I [R A] Ek. pose proof (handler_start s I R) as M. pose proof (i_frames _ I) as F.
  destruct e as [| | | | | | | |l|i| | | | | | |]; try done; cbn [step]; cbn [allowed] in A.
  - assert (0 < 3) as K3 by done. destruct (ref_mid ts _ _ l _ _ 3 K3 A M) as (L & -> & M1 & _). step_ok. eexists. split; [done|].
    split; [|done]. split; [|done]. cbn [node stack outside]. eapply rebase; [apply prefix_nil|]. eapply mid_refs; [apply Permutation_middle|].
    by eapply mid_room; [|exact M1].
  - destruct (lookup_lt_is_Some_2 _ _ A) as [l El]. rewrite El. apply delete_Permutation in El.
    assert (mid ts (log (node s)) (node s) (l :: (stack s ≫= frame_refs) ++ delete i (outside s)) (stack s ≫= frame_drains) 3) as M1.
    { eapply mid_refs; [|exact M]. rewrite El at 1. symmetry. apply Permutation_middle. }
    destruct (unref_mid ts _ _ l _ _ 3 M1) as (L & -> & M2 & _). step_ok. eexists. split; [done|].
    split; [|done]. split; [|done]. cbn [node stack outside]. eapply rebase; [apply prefix_nil|]. by eapply mid_room; [|exact M2].
Qed.

(** Entries from the event loop. *)
Lemma worker_step s e : inv s -> allowed ts s e ->
  match e with EStart _ | ETask | EHeartbeat _ _ | ETimeout _ _ _ | EShutdown | EQuiesce | EStop => True | _ => False end ->
  exists s', step deque_reserve ts s e = Ok s' /\ continues s s'.
Proof.
  intros I [R A] Ek. pose proof (handler_start s I R) as M. pose proof (i_frames _ I) as F.
  destruct e as [| | | | | | | | | |tm| |now tm|now reset accepted| | |]; try done; cbn [step]; cbn [allowed] in A.
  - eexists. split; [done|]. destruct A as [_ Hs]. apply quiet_inv; [|by destruct tm|done]. intros b k []. destruct tm; by split; auto.
  - apply handler_inv; [done|]. unfold packetstostreamRecreateOutputLineTask. apply (tasks_mid _ _ (pred (tasks (node s)))) in M.
    destruct (negb _); [by eapply (done_runs ts _ _ _ _ 3)|].
    eapply (ensure_then_runs ts _ _ _ _ _ _ _ 3); try done. by apply set_recreate_mid.
  - apply handler_inv; [done|]. destruct A as (_ & Ht & Hn). unfold packetstostreamHeartbeatTimerCallback.
    rewrite (m_heart _ _ _ _ _ _ M Ht), Ht, !assert_bind by done. destruct (read_stream (ls (node s))); [|by eapply (done_runs ts _ _ _ _ 3)].
    destruct (awaiting_pong (ls (node s))); [by eapply (done_runs ts _ _ _ _ 3)|]. by eapply (ensure_then_runs ts _ _ _ _ _ _ _ 3).
  - apply handler_inv; [done|]. destruct A as (_ & Ht & _ & Hr). by eapply (timeout_runs ts _ _ _ _ _ _ _ 3).
  - eexists. split; [done|]. apply quiet_inv; [|done..]. intros b k. apply shutdown_mid.
  - eexists. split; [done|]. apply quiet_inv; [|done..]. destruct A as [_ Sd]. intros b k []. by split; auto.
  - apply handler_inv; [done|]. by eapply (stop_runs _ _ _ _ 3).
Qed.

Lemma carrier_step_inv s e : inv s -> allowed ts s e -> exists s', step deque_reserve ts s e = Ok s' /\ continues s s'.
Proof.
  intros I A. destruct e; first [by apply neighbour_step|by apply reference_step|by apply worker_step].
Qed.

Lemma initial_inv p : pool_inv p -> inv (initial p).
Proof.
  intros Ip. split; [|done]. split; cbn; try done; try (by intros l [x Ex]).
Qed.

Lemma carrier_reachable_inv p s : pool_inv p -> reachable deque_reserve ts p s -> inv s.
Proof.
  intros Ip. induction 1 as [|s e s' R IH A E]; [by apply initial_inv|].
  destruct (carrier_step_inv s e IH A) as (s2 & E2 & C & _). congruence.
Qed.

Lemma run_reachable p es : forall s s', reachable deque_reserve ts p s -> legal deque_reserve ts s es ->
  run_events deque_reserve ts s es = Ok s' -> reachable deque_reserve ts p s'.
Proof.
  induction es as [|e es IH]; intros s s' R L E; cbn [run_events legal] in *; [by injection E as <-|].
  destruct L as [A L]. destruct (step deque_reserve ts s e) as [s1|] eqn:Es; [|done]. cbn in E.
  apply (IH s1 s'); [by eapply reach_step|done|done].
Qed.

Lemma keeps_prefix ps qs : ps `prefix_of` qs -> keeps ts ps `prefix_of` keeps ts qs.
Proof. intros [r ->]. unfold keeps. rewrite filter_app. by eexists. Qed.

Lemma no_drain l fs : KDrain l ∉ fs -> cnt l (fs ≫= frame_drains) = 0.
Proof.
  induction fs as [|f fs IH]; intros N; [done|]. apply not_elem_of_cons in N as [Nf N]. cbn. rewrite cnt_app. rewrite (IH N), Z.add_0_r.
  destruct f as [| | | | | |l']; try done. cbn [frame_drains]. rewrite cnt_cons, decide_False by congruence. done.
Qed.

(** The parser of the attached line between drain loops. *)
Lemma settled s l : inv s -> ls_line (ls (node s)) = Some l -> KDrain l ∉ stack s ->
  extracted_of l (log (node s)) = fst (frames (received l (log (node s)))).
Proof.
  intros [M _] El N. destruct (attached_stream ts [] _ l _ _ 0 M El) as [b Es].
  destruct (parser_facts ts [] _ l b _ _ 0 M El Es) as (_ & IO & Hi & C & F). rewrite (no_drain l _ N) in C.
  destruct (draining _) eqn:D; [done|]. destruct (io_idle _ IO D) as [Q _]. rewrite F. unfold waiting, queued. rewrite Q.
  rewrite app_nil_r, frames_incomplete by auto. cbn. by rewrite app_nil_r.
Qed.
End Runs.

(** ** The theorems *)

Section Theorems.
Context `{InetChecksumLaws} `{!NetOrderLaws} `{Allocator} {P : Type} `{PoolLaws P}.
Context (deque_reserve : Z -> bool) (ts : packetstostream_tstate_t) (tolerance_nonneg : 0 <= tolerance_ms ts).
Context (p : P) (I : pool_inv p).
Implicit Types s : system P.

(** C9. Whatever the neighbours do, also from inside the node's own calls, and
    however tasks, timers, outside references and the shutdown interleave, every
    handler of the node runs to its end or to its next callback: no assertion
    fails, no reclaimed line is touched and no line is destroyed twice. *)
Theorem carrier_safe s e :
  reachable deque_reserve ts p s -> allowed ts s e -> exists s', step deque_reserve ts s e = Ok s'.
Proof.
  intros R A. pose proof (carrier_reachable_inv deque_reserve ts tolerance_nonneg p s I R) as V.
  destruct (carrier_step_inv deque_reserve ts tolerance_nonneg s e V A) as (s' & E & _). by exists s'.
Qed.

(** C10. In every reachable state what was delivered from a line is a prefix of
    the wanted packets in the bytes received on it, in order; outside of a drain
    loop the attached line has delivered all of them. *)
Theorem carrier_delivers s l :
  reachable deque_reserve ts p s ->
  let wanted := keeps ts (fst (frames (received l (log (node s))))) in
  delivered l (log (node s)) `prefix_of` wanted /\
  (ls_line (ls (node s)) = Some l -> KDrain l ∉ stack s -> delivered l (log (node s)) = wanted).
Proof.
  intros R wanted. pose proof (carrier_reachable_inv deque_reserve ts tolerance_nonneg p s I R) as V. pose proof V as [M _].
  rewrite (m_kept _ _ _ _ _ _ M). split; [apply keeps_prefix, M|]. intros El N. unfold wanted. f_equal. by apply (settled ts s l V El N).
Qed.

(** C12. A line is opened once, and it is written to and finished only while it is
    open; every buffer written to it is exactly one packet its receiver can cut out. *)
Theorem carrier_protocol s :
  reachable deque_reserve ts p s ->
  log_ok [] (log (node s)) = true /\
  forall l, Forall (fun b => packet b /\ zlen b <= kMaxAllowedPacketLength) (sent l (log (node s))).
Proof.
  intros R. destruct (carrier_reachable_inv deque_reserve ts tolerance_nonneg p s I R) as [M _]. split; apply M.
Qed.

(** C13. The reference count of every line is the number of its holders: the node
    as long as the line is alive, the suspended handlers and the outside.  With
    no handler suspended and no reference outside, every remaining line is alive
    and has one holder. *)
Theorem carrier_references s :
  reachable deque_reserve ts p s ->
  (forall l x, lines (node s) !! l = Some x ->
     refc x = (if alive x then 1 else 0) + cnt l ((stack s ≫= frame_refs) ++ outside s)) /\
  (stack s = [] -> outside s = [] -> map_Forall (fun _ x => x = mk_line true 1) (lines (node s))).
Proof.
  intros R. destruct (carrier_reachable_inv deque_reserve ts tolerance_nonneg p s I R) as [M _].
  pose proof (m_lines _ _ _ _ _ _ M) as O. split.
  - intros l x E. specialize (O l). rewrite E in O. apply O.
  - intros E1 E2 l x E. specialize (O l). rewrite E, E1, E2 in O. change (cnt l _) with 0 in O.
    destruct x as [[] r]; cbn [refc alive] in O; [f_equal|]; lia.
Qed.

(** C14. While a pong is awaited the timeout timer is armed and its deadline is at
    most the tolerance after the ping, unless the program is shutting down.  The
    bytes held back for a suspended drain stay within the nested limits, and
    outside of a drain less than one packet is held. *)
Theorem carrier_bounded s :
  reachable deque_reserve ts p s ->
  let x := ls (node s) in
  (awaiting_pong x = true ->
     (timeout_timer (node s) = true /\ pong_deadline_ms x <= ping_sent_at_ms x + tolerance_ms ts) \/ shutdown (node s) = true) /\
  forall b, read_stream x = Some b ->
    total_len (pending (read_input x)) <= kIpv4StreamNestedBytes /\
    (draining (read_input x) = false -> size b < kMaxAllowedPacketLength /\ q_bufs (pending (read_input x)) = []).
Proof.
  intros R x. destruct (carrier_reachable_inv deque_reserve ts tolerance_nonneg p s I R) as [M _]. split; [apply M|]. intros b Es.
  pose proof (m_parser _ _ _ _ _ _ M) as PO. unfold parser_ok in PO. fold x in PO. rewrite Es in PO. destruct PO as (W & IO & Hi & _). split.
  - pose proof (io_used _ IO Bytes) as U. pose proof (io_fits _ IO Bytes) as Fi. pose proof (io_cost _ IO Bytes) as C. cbn in *. lia.
  - intros D. split; [|apply (io_idle _ IO D)]. rewrite <- (wf_length b W). by apply incomplete_short, Hi.
Qed.
End Theorems.

(** C11. Two nodes, the bytes of a line of one arriving on the attached line of the
    other, cut as the network likes: the packets that were sent are delivered, up
    to those the receiver's settings reject. *)
Theorem carrier_roundtrip `{InetChecksumLaws} `{!NetOrderLaws} `{Allocator} {P : Type} `{PoolLaws P}
    (deque_reserve : Z -> bool) (ta tb : packetstostream_tstate_t) (pa pb : P) (a b : system P) (la lb : nat) :
  0 <= tolerance_ms ta -> 0 <= tolerance_ms tb -> pool_inv pa -> pool_inv pb ->
  reachable deque_reserve ta pa a -> reachable deque_reserve tb pb b ->
  ls_line (ls (node b)) = Some lb -> KDrain lb ∉ stack b ->
  received lb (log (node b)) = mjoin (sent la (log (node a))) ->
  delivered lb (log (node b)) = keeps tb (sent la (log (node a))).
Proof.
  intros Ta Tb Ia Ib Ra Rb El N E. destruct (carrier_reachable_inv deque_reserve ta Ta pa a Ia Ra) as [Ma _].
  pose proof (carrier_reachable_inv deque_reserve tb Tb pb b Ib Rb) as Vb. pose proof Vb as [Mb _].
  rewrite (m_kept _ _ _ _ _ _ Mb), (settled tb b lb Vb El N), E. rewrite <- (app_nil_r (mjoin _)), frames_concat.
  - cbn. by rewrite app_nil_r.
  - eapply Forall_impl; [apply (m_sent _ _ _ _ _ _ Ma)|]. by intros x [? _].
Qed.

(** ** A concrete run *)

#[local] Existing Instance debug_allocator.

Definition demo_settings : packetstostream_tstate_t := mk_tstate 1000 kIpv4StreamValidationNone false.
Definition demo_packet : list Z := [69; 0; 0; 20; 0; 1; 0; 0; 64; 253; 0; 0; 10; 0; 0; 1; 10; 0; 0; 2].

(** A line is opened, the node resumes its packet source, and everyone returns. *)
Definition demo_opening : list event := [EInit; EReturn 1 true true; EReturn 1 true true].
Definition demo_receiving : list event := demo_opening ++ [EDownPayload 0 (sample demo_packet) 5 true; EReturn 6 true true].
Definition demo_sending : list event := demo_opening ++ [EPayload (sample demo_packet)].

Definition demo_end (es : list event) : system state :=
  match run_events (fun _ => true) demo_settings (initial demo_state) es with Ok s => s | Fail _ => initial demo_state end.
Definition demo_receiver : system state := Eval vm_compute in demo_end demo_receiving.
Definition demo_sender : system state := Eval vm_compute in demo_end demo_sending.

Lemma demo_packet_good : good (sample demo_packet).
Proof. split; [sample_ok|reflexivity]. Qed.

Ltac legal_step :=
  cbn [demo_receiving demo_sending demo_opening app legal];
  split; [split; [refine (bool_decide_unpack _ _); vm_compute; exact Logic.I|cbn [allowed]]
         |match goal with |- match ?x with _ => _ end => let y := eval vm_compute in x in change x with y end; cbv iota].

Lemma demo_receiver_reachable : reachable (fun _ => true) demo_settings demo_state demo_receiver.
Proof.
  apply (run_reachable (fun _ => true) demo_settings demo_state demo_receiving (initial demo_state)); [constructor| |vm_compute; reflexivity].
  legal_step; [done|]. legal_step; [split; [vm_compute; discriminate|lia]|]. legal_step; [split; [vm_compute; discriminate|lia]|].
  legal_step; [splits; [by eexists|exact demo_packet_good|vm_compute; discriminate|lia]|].
  legal_step; [split; [vm_compute; discriminate|lia]|]. done.
Qed.

Lemma demo_sender_reachable : reachable (fun _ => true) demo_settings demo_state demo_sender.
Proof.
  apply (run_reachable (fun _ => true) demo_settings demo_state demo_sending (initial demo_state)); [constructor| |vm_compute; reflexivity].
  legal_step; [done|]. legal_step; [split; [vm_compute; discriminate|lia]|]. legal_step; [split; [vm_compute; discriminate|lia]|].
  legal_step; [exact demo_packet_good|]. done.
Qed.

Lemma demo_tolerance : 0 <= tolerance_ms demo_settings.
Proof. vm_compute. discriminate. Qed.

Lemma demo_room : map_Forall (fun _ x => refc x + 3 <= LINE_REFC_MAX) (lines (node demo_receiver)).
Proof. refine (bool_decide_unpack _ _). vm_compute. exact Logic.I. Qed.

(** The neighbour ends the line. *)
Lemma carrier_safe_witness :
  exists s', step (fun _ => true) demo_settings demo_receiver (EDownFinish 0 true) = Ok s'.
Proof.
  apply (carrier_safe (fun _ => true) demo_settings demo_tolerance demo_state demo_pool_inv demo_receiver (EDownFinish 0 true) demo_receiver_reachable).
  split; [exact demo_room|]. by eexists.
Defined.

Lemma carrier_delivers_witness : delivered 0 (log (node demo_receiver)) = [demo_packet].
Proof.
  apply (proj2 (carrier_delivers (fun _ => true) demo_settings demo_tolerance demo_state demo_pool_inv demo_receiver 0 demo_receiver_reachable)).
  - reflexivity.
  - apply not_elem_of_nil.
Defined.

Lemma carrier_protocol_witness :
  log_ok [] (log (node demo_sender)) = true /\
  Forall (fun b => packet b /\ zlen b <= kMaxAllowedPacketLength) (sent 0 (log (node demo_sender))).
Proof.
  pose proof (carrier_protocol (fun _ => true) demo_settings demo_tolerance demo_state demo_pool_inv demo_sender demo_sender_reachable) as [L F].
  split; [exact L|apply F].
Defined.

Lemma carrier_references_witness : map_Forall (fun _ x => x = mk_line true 1) (lines (node demo_receiver)).
Proof.
  apply (carrier_references (fun _ => true) demo_settings demo_tolerance demo_state demo_pool_inv demo_receiver demo_receiver_reachable); reflexivity.
Defined.

Lemma carrier_bounded_witness :
  exists b, read_stream (ls (node demo_receiver)) = Some b /\ size b < kMaxAllowedPacketLength.
Proof.
  eexists. split; [reflexivity|].
  apply (carrier_bounded (fun _ => true) demo_settings demo_tolerance demo_state demo_pool_inv demo_receiver demo_receiver_reachable); reflexivity.
Defined.

Lemma carrier_roundtrip_witness : delivered 0 (log (node demo_receiver)) = sent 0 (log (node demo_sender)).
Proof.
  rewrite (carrier_roundtrip (fun _ => true) demo_settings demo_settings demo_state demo_state demo_sender demo_receiver 0 0).
  - reflexivity.
  - exact demo_tolerance.
  - exact demo_tolerance.
  - exact demo_pool_inv.
  - exact demo_pool_inv.
  - exact demo_sender_reachable.
  - exact demo_receiver_reachable.
  - reflexivity.
  - apply not_elem_of_nil.
  - reflexivity.
Defined.
